(* ===== verification/_CoqProject ===== *)
-Q . S2P
Prelude.v
OrdMap.v
Text.v
F64.v
Errors.v
Bytes.v
Json.v
IsoTime.v
MediaPlanner.v
Episode.v
NameEvidence.v
IdentityFusion.v
Presentation.v
Reconciliation.v
Vertex.v
Reconciler.v
Ocr.v
MemoryLanguage.v
Effects.v
VertexFlow.v
ReconcilerFlow.v
Summarizer.v
SummarizerFlow.v
Finalizer.v
CaptureManifest.v
AudioResult.v
MediaKeys.v
Http.v
CaptureIngest.v
CaptureReads.v
Txn.v
VoiceEnrollment.v
CaptureStore.v
CaptureCommit.v
CaptureSeal.v
CaptureLedger.v
CaptureTheorems.v
AccountDb.v
Identity.v
Lifecycle.v
OAuthStore.v
AccountLedger.v
Tickets.v
AccountTheorems.v
Net.v
Tokens.v
AuthEnv.v
Auth.v
OAuth.v
Apple.v
Interleave.v
OAuthTheorems.v
OutboxDb.v
Outbox.v
Webhook.v
Push.v
DeliveryWorkers.v
Dispatch.v
AccountFrame.v
OutboxLedger.v
OutboxTrace.v
OutboxCount.v
DeliveryRuns.v
DeliveryWorld.v
DeliveryTheorems.v
UsageDb.v
UsageOutbox.v
UsageWorker.v
UsageLedger.v
UsageWorld.v
UsageQueue.v
UsageSettlement.v
UsageTheorems.v
FormationDb.v
FormationMemories.v
FormationSource.v
Formation.v
FormationLedger.v
FormationPages.v
FormationTheorems.v
