(* ===== verification/Prelude.v ===== *)
(** * Kioku enclave: verification library (root file)

    ** The program

    The enclave turns an account's captured screens and audio into a private
    timeline.  A device signs in through the enclave's OAuth server or with
    Apple, and uploads captured events; each is validated, committed under its
    stream's sequence and sealed with its session.  Media workers plan bounded
    model calls over captured events and store what was said and shown; the
    summariser forms memory drafts ("episodes") from that evidence, either for
    one finished capture session, page by page, or behind the account's
    forward cursor; the reconciler re-partitions the evidence of a settled
    cohort of drafts into final memories; the finaliser writes the brief of a
    settled memory and ranks its screens.  Names of speakers are fused from
    grounded observations and shown in authored text through presentation
    labels.  A final memory is enqueued for the account's webhooks and
    devices, and workers deliver it.  What the model calls consume is kept in
    a ledger that admits each call, and is reported to billing.  All of them are Rust handlers and
    workers around SQL transactions, remote services and one language-model
    provider: what makes the program correct is the validation, the
    authorization and the settlement around their calls.

    ** The files

    Shared:
    - [Prelude]: automation, 64-bit integers ([I64]), orders ([Ord]) and stable
      sorting, generic list and option lemmas.
    - [OrdMap]: BTreeMap and BTreeSet; [Text]: strings; [F64]: binary64;
      [Json]: serde_json values; [Bytes]: byte encodings and commitments;
      [Net]: std::net addresses; [Errors], [Http]: src/src/error.rs.
    - [IsoTime]: src/src/cp/isotime.rs.
    - [Effects]: handlers as programs over the history of their calls, and
      protocols as step relations over the events; [Interleave]: the traces of
      handlers that run concurrently; [Txn]: database transactions;
      [Tickets]: what is redeemed at most as often as it was issued.

    Forming memories:
    - [MediaPlanner]: src/src/cp/media_planner.rs; [AudioResult]: the
      transcripts of src/src/cp/media.rs.
    - [Episode]: src/src/persistence/episode.rs.
    - [NameEvidence]: src/src/persistence/media_processing.rs (the name and
      self-identification rules); [IdentityFusion]:
      src/src/cp/identity_fusion.rs; [Presentation]:
      src/src/persistence/identity_presentation.rs.
    - [Reconciliation]: src/src/persistence/memory_reconciliation.rs (records
      and commitments); [Vertex]: the pure parts of src/src/cp/vertex.rs and
      the request contract of src/src/persistence/memory_formation.rs;
      [Reconciler]: src/src/cp/reconciler.rs, its pure policy.
    - [Ocr]: src/src/ocr.rs; [MemoryLanguage]: src/src/cp/memory_language.rs.
    - [VertexFlow]: the durable text generations of src/src/cp/vertex.rs with
      the ledger calls of src/src/cp/model_usage.rs; [ReconcilerFlow]: the
      producer contract and one run of src/src/cp/reconciler.rs.
    - [Summarizer], [SummarizerFlow]: src/src/cp/summarizer.rs, its pure
      policy and its two lanes.
    - [Finalizer]: src/src/cp/finalizer.rs and
      src/src/cp/screen_understanding.rs.

    Capturing:
    - [CaptureManifest], [CaptureIngest], [CaptureReads]: src/src/cp/media.rs,
      its validators and its handlers, with the recording entitlement of
      src/src/cp/billing.rs and the gates of src/src/cp/limits.rs.
    - [MediaKeys]: the keys, envelopes and leases of src/src/gcs.rs,
      src/src/crypto.rs and src/src/cp/tokens.rs.
    - [VoiceEnrollment]: the enrollment sessions of
      src/src/persistence/postgres/capture_enrollment.rs; [CaptureStore],
      [CaptureCommit], [CaptureSeal]: the tables and transactions of
      src/src/persistence/postgres/capture.rs, capture_recovery.rs and the
      sealer of memory_formation.rs; [CaptureLedger]: their invariant;
      [CaptureTheorems].

    Accounts and sign-in:
    - [AccountDb], [Identity], [Lifecycle], [OAuthStore]: the tables and
      transactions of src/src/persistence/postgres/identity.rs, lifecycle.rs
      and oauth.rs; [AccountLedger]: their invariant; [AccountTheorems].  What
      an account's deletion does to the delivery tables is the class
      [Delivery].
    - [Tokens]: src/src/cp/tokens.rs; [AuthEnv], [Auth], [OAuth], [Apple]:
      src/src/cp/auth.rs, oauth.rs and apple.rs; [OAuthTheorems]: their runs
      over the account database.

    Delivering:
    - [OutboxDb], [Outbox]: the tables and transactions of
      src/src/persistence/postgres/delivery_outbox.rs and notification.rs,
      and the instance of [Delivery] they are; [Webhook], [Push],
      [DeliveryWorkers]: src/src/cp/webhook_worker.rs, push.rs and the
      destinations' handlers of query.rs.
    - [Dispatch]: the specification of an outbox; [AccountFrame],
      [OutboxLedger], [OutboxTrace], [OutboxCount]: its refinement;
      [DeliveryRuns], [DeliveryWorld]: the workers' runs, alone and over the
      database; [DeliveryTheorems].

    Accounting for model usage:
    - [UsageDb], [UsageOutbox]: the tables and transactions of
      src/src/persistence/postgres/model_usage.rs, the reservations of
      entitlement.rs and the coverage anchors of billing.rs;
      [UsageWorker]: the workers of src/src/cp/model_usage.rs.
    - [UsageLedger]: the transactions as a trace, and what each keeps;
      [UsageWorld]: the generations of [VertexFlow] over it; [UsageQueue],
      [UsageSettlement]: the claims and the settlement before a deletion;
      [UsageTheorems].

    Storing what is formed:
    - [FormationDb]: the tables of formation beside those of capture, and what
      the reads of other components answer; [FormationMemories]: the episodes
      a settlement writes, with their members and the owner of each source
      (the triggers of the schema included); [FormationSource]: the evidence
      of a session and its fingerprint, which is read in pages;
      [Formation]: the transactions of
      src/src/persistence/postgres/memory_formation.rs.
    - [FormationLedger], [FormationPages]: what every transaction keeps of a
      page, and of the pages of a revision; [FormationTheorems].

    Definitions keep the names of the source; a long function is split into
    its phases, which are composed in the order of the source.

    ** What the theorems show

    - Time ([IsoTime]): civil dates and day numbers are in bijection, parsing
      inverts formatting, normalisation to UTC is idempotent.
    - Planning ([MediaPlanner]): a plan respects every cap with exact totals,
      anchors on the least candidate and does not depend on arrival order or
      other streams; a model turn projects onto tiling sources without gaps.
    - Transcripts ([AudioResult]): the strict contracts accept exactly the
      transcripts of the window; the salvaging one always returns such a
      transcript, and what the strict one accepts unchanged.
    - Drafts ([Summarizer], [SummarizerFlow]): both lanes follow their claim
      and provider protocol in every environment; a page settles losslessly;
      evidence belongs to the innermost episode; grounding is sound; the
      sweep skips only a window that keeps failing.
    - Reconciliation ([Reconciler], [Reconciliation]): a validated partition
      is exhaustive and exact, with total lineage, and keeps an identity only
      for unchanged membership; the conservative fallback always validates; a
      stage revalidates at publication; inputs are bounded; attempt identities
      commit to their inputs.
    - Provider calls and reconciliation runs ([VertexFlow],
      [ReconcilerFlow]): an outcome is classified only once the ledger holds
      it; a run of the reconciler refines a state machine, from which it is
      read that egress is gated (a valid cohort among its gates), the egress guard is never leaked or doubled,
      and only validated partitions are staged and published.
    - Finalisation ([Finalizer]): the selection is bounded and representative,
      the rendering loop terminates, a reconciled timeline is preserved, and
      the ranking is sound.
    - Identity ([NameEvidence], [IdentityFusion], [Presentation]): acceptance
      of a name is grounded, decisions are order independent, substitution
      replaces exactly whole unprotected tokens and keeps every other byte.
    - Values ([Episode], [Ocr]): merges are idempotent and incremental,
      projections are bounded.
    - Uploads ([CaptureManifest], [MediaKeys], [CaptureIngest]): an admitted
      event is well formed, a browser state's key commits to it, a stored
      recording opens only under its own context and a lease only under a
      held secret; an upload commits at most once, on its grounds, and its
      answer says what happened.
    - The capture store ([CaptureTheorems]): in every reachable store a
      stream's acknowledgement is exactly its unbroken run, references stay
      grounded, a replay changes nothing, a late event reopens the audited
      seal, and the sealer seals only what is quiet, settled and gapless.
    - Accounts ([AccountTheorems]): a finalized deletion is final, grants are
      redeemed as they were given and at most as often, a rotated refresh
      token goes back to the first of its session and is not rotated again, sign-ups stay within the day's budget.
    - Sign-in ([OAuthTheorems]): in every interleaving of the handlers over the
      database an access token stands for a sign-in, an approval and a proof
      of possession; a deleted account is not admitted.
    - Delivery ([DeliveryTheorems]): the outboxes refine [Dispatch]; over the
      database and the interleaved workers a request leaves at most once for
      each delivery enqueued and each answer that refused it (for webhooks
      asked for a retry, for pushes did not blame the token), under the
      only claim that stands, authorized when it was granted, and to a public
      address.  Deleting an episode whose delivery is in flight keeps the
      provider's lane for good: a fault, which a theorem states.
    - Model usage ([UsageTheorems]): however generations interleave, an
      attempt is sent once; the ledger tells one story about it, but for rows
      billing would refuse, which are dropped; a day's
      reservations fit in its limit and in each class's share; claiming events
      and the settlement before a deletion end.  That settlement can overlook
      a claim of another worker: a fault, which a theorem states.
    - Formation ([FormationTheorems]): the pages of a revision part its
      evidence, and a completed revision covers it exactly; a settlement gives
      each source the model was shown one owner; an attempt at a page sends
      one request, a staged page is never sent again, and a settlement that
      completed its page replays; the fingerprint of a source binds it, and a
      refresh reopens a receipt once when its sources have changed.

    ** Conventions

    - The release profile does not enable overflow checks, so [+], [-] and [*]
      on [i64] wrap ([I64.add] and the like) and [saturating_*] clamp; where
      a check of the code rules overflow out, the plain operators are used.
    - A string is its list of scalar values; byte lengths are UTF-8 lengths.
      Offsets the code forms are character boundaries.
    - A formation claim names the account the store is of.  What formation
      asks of the speakers is the class [SpeakerGraph]; what other components
      do to its tables is a step that keeps [kept_db] and [memories_ok].
    - A panic ([unwrap], an index, [unreachable!]) is a value ([None] or
      [Panicked]) and the theorems show where it cannot happen.
    - [Err] carries the error of the source; the payload of a foreign error is
      not inspected.
    - Hash sets and maps that are only looked up are ordered ones.
    - A table is a finite map over its primary key; a violated constraint of
      the schema is a [Postgres] error, and deleting a row deletes the rows
      that cascade from it.  Transactions are serial: the advisory locks and
      row locks of the source are what makes them so, and are not modelled.  A
      transaction reads one clock, [now()] and [clock_timestamp()] alike.  In
      a trace, an answer may also be a failure of the connection, before or
      after the commit.
    - Parameters: the Unicode tables of the Rust library (class [Unicode]),
      the [Debug] escapes (class [DebugTables]), serde_json's parser and
      printer, SHA-256, HMAC, base64, the authenticated cipher, the URL
      parser, jsonwebtoken, the prompt texts, and the answers of repositories,
      remote services, random generators and clock (the [Env] of each flow),
      which are arbitrary functions of the history.  Theorems that need a law
      of a parameter (a parser that reads back what was printed, say) state it
      as a hypothesis, and their witness instantiates it.

    ** Bounds and fuel

    Recursion is structural wherever the code iterates over a list; the loops
    of the delivery workers and of the multipart reader iterate a constant of
    the source.  Fuel remains in these loops: the scans of [Presentation] and
    the greetings of [NameEvidence] take the length of the text, which every
    round shortens; the decimal and hexadecimal printers take the bit length
    of the number; the rendering loop of [Finalizer] takes 4, since its cap
    goes 40, 20, 10, 8 and stops; the search for an unused turn id in
    [AudioResult] takes one more than the ids in use;
    [CaptureIngest] reads at most [PART_FUEL] parts, which is proved to be
    enough; a claim of usage events takes a round more than there are rows,
    which [UsageQueue.rounds_end] proves enough, and the settlement before a
    deletion takes its rounds as an argument, of which
    [UsageTheorems.deletion_settlement_ends] says how many it can use;
    the fingerprint of [FormationSource] reads pages of events, and pages of
    projections under each, with one round more than there are rows, which is
    enough: it is proved to be the digest of all rows in one piece;
    [SummarizerFlow.sweep_user] takes the number of windows the code
    itself bounds the sweep by.

    ** Not modelled

    The adapters that answer the media worker, the reconciler and the
    finaliser, and those of the summariser beyond its claims and settlements
    (they are the environment of the modelled programs; of
    src/src/persistence/postgres/memory_formation.rs the reviewer's fixture,
    the open episodes the forward lane reads and its embeddings),
    activation, episode deletion and the erasure of orphaned captures but for
    what they do to the modelled tables, evidence queries and their MCP tools,
    playback and retention of recordings, billing beyond the recording
    entitlement and model usage, the fleet's admission control, voice embeddings and their identity graph,
    the daily email and its preferences, attestation, TLS and key
    management, schema audits, evaluation harness and scripts: I/O around
    third-party code, or SQL the development has not reached.  Of the modelled
    files: row and advisory locks, the session status report of the capture
    repository, HTML pages beyond what they show, caches of published keys,
    logging and metrics, the asynchronous orchestration of the finaliser,
    media requests to the provider, the URL patterns of the finaliser (a
    regular-expression library), response schemas, prompts and embedding
    refresh.  The steps of the capture store leave out what formation's
    refresh does to the seals of streams (it is a step of the formation model)
    and erasures before the formation contract is installed. *)
From Stdlib Require Export ZArith Lia Bool.
From stdpp Require Export base list gmap sorting.

(** ** Automation shared by every file *)

Declare Scope kioku_scope.
Delimit Scope kioku_scope with kioku.

Create HintDb kioku.
Create Rewrite HintDb kioku_bool.

#[export] Hint Rewrite andb_true_iff andb_false_iff orb_true_iff orb_false_iff
  negb_true_iff negb_false_iff Z.leb_le Z.leb_gt Z.ltb_lt Z.ltb_ge Z.eqb_eq Z.eqb_neq
  Nat.leb_le Nat.leb_gt Nat.ltb_lt Nat.ltb_ge Nat.eqb_eq Nat.eqb_neq
  N.leb_le N.leb_gt N.ltb_lt N.ltb_ge N.eqb_eq N.eqb_neq : kioku_bool.

(** Turn boolean tests in the context and the goal into propositions. *)
Ltac bool_prop := autorewrite with kioku_bool in *.

(** Case on the boolean tests of a goal, keeping the equations as
    propositions, then close arithmetic. *)
Ltac case_ifs :=
  repeat match goal with
         | |- context [if ?b then _ else _] => destruct b eqn:?
         end.

Ltac case_ifs_in H :=
  repeat match type of H with
         | context [if ?b then _ else _] => destruct b eqn:?
         end.

Ltac ifs_lia := case_ifs; bool_prop; lia.

(** ** Signed 64-bit integers

    The release profile of the crate does not set [overflow-checks], so the
    plain operators wrap around; [saturating_*] clamp. *)
Module I64.
Local Open Scope Z_scope.

Definition min_value : Z := - 2 ^ 63.
Definition max_value : Z := 2 ^ 63 - 1.
Definition in_range (z : Z) : Prop := min_value <= z <= max_value.
Definition in_rangeb (z : Z) : bool := (min_value <=? z) && (z <=? max_value).

Definition wrap (z : Z) : Z := (z + 2 ^ 63) mod 2 ^ 64 - 2 ^ 63.
Definition clamp (z : Z) : Z := Z.max min_value (Z.min max_value z).

Definition add (a b : Z) : Z := wrap (a + b).
Definition sub (a b : Z) : Z := wrap (a - b).
Definition mul (a b : Z) : Z := wrap (a * b).
Definition saturating_add (a b : Z) : Z := clamp (a + b).
Definition saturating_sub (a b : Z) : Z := clamp (a - b).
Definition abs (a : Z) : Z := wrap (Z.abs a).

Lemma in_rangeb_spec z : in_rangeb z = true <-> in_range z.
Proof. unfold in_rangeb, in_range. bool_prop. tauto. Qed.

Lemma wrap_small z : in_range z -> wrap z = z.
Proof.
  unfold in_range, wrap, min_value, max_value. intros H.
  rewrite Z.mod_small; lia.
Qed.

Lemma wrap_in_range z : in_range (wrap z).
Proof.
  unfold in_range, wrap, min_value, max_value.
  pose proof (Z.mod_pos_bound (z + 2 ^ 63) (2 ^ 64) ltac:(lia)). lia.
Qed.

Lemma clamp_small z : in_range z -> clamp z = z.
Proof. unfold in_range, clamp, min_value, max_value. lia. Qed.

Lemma clamp_in_range z : in_range (clamp z).
Proof. unfold in_range, clamp, min_value, max_value. lia. Qed.

(** Comparing a saturated result with an in-range bound is comparing the
    exact result: this is why the planner's guards are exact. *)
Lemma clamp_le z b : in_range b -> b < max_value -> (clamp z <= b <-> z <= b).
Proof. unfold in_range, clamp, min_value, max_value. lia. Qed.

Lemma clamp_mono a b : a <= b -> clamp a <= clamp b.
Proof. unfold clamp, min_value, max_value. lia. Qed.
End I64.

(** ** Total orders as the code's [Ord] *)

Class Ord (A : Type) := {
  cmp : A -> A -> comparison;
  cmp_eq : forall x y, cmp x y = Eq <-> x = y;
  cmp_flip : forall x y, cmp y x = CompOpp (cmp x y);
  cmp_lt_trans : forall x y z, cmp x y = Lt -> cmp y z = Lt -> cmp x z = Lt
}.

Section OrdFacts.
Context {A : Type} `{Ord A}.

Definition ord_ltb (x y : A) : bool := match cmp x y with Lt => true | _ => false end.
Definition ord_leb (x y : A) : bool := match cmp x y with Gt => false | _ => true end.
Definition lt_ord (x y : A) : Prop := cmp x y = Lt.

Lemma cmp_refl x : cmp x x = Eq.
Proof. by apply cmp_eq. Qed.

Lemma cmp_gt_lt x y : cmp x y = Gt <-> cmp y x = Lt.
Proof. rewrite (cmp_flip x y). destruct (cmp x y); simpl; split; congruence. Qed.

Lemma lt_ord_irrefl x : ~ lt_ord x x.
Proof. unfold lt_ord. rewrite cmp_refl. congruence. Qed.

Lemma lt_ord_trans x y z : lt_ord x y -> lt_ord y z -> lt_ord x z.
Proof. apply cmp_lt_trans. Qed.

Lemma ord_leb_total x y : ord_leb x y = true \/ ord_leb y x = true.
Proof. unfold ord_leb. rewrite (cmp_flip x y). destruct (cmp x y); simpl; auto. Qed.

Lemma ord_leb_false_lt x y : ord_leb x y = false -> lt_ord y x.
Proof. unfold ord_leb, lt_ord. destruct (cmp x y) eqn:E; try congruence. intros _. by apply cmp_gt_lt. Qed.

Lemma ord_leb_cases x y : ord_leb x y = true <-> x = y \/ lt_ord x y.
Proof.
  unfold ord_leb, lt_ord. rewrite <- cmp_eq. destruct (cmp x y); split; try tauto; try congruence.
  intros [?|?]; congruence.
Qed.

Lemma ord_leb_trans x y z : ord_leb x y = true -> ord_leb y z = true -> ord_leb x z = true.
Proof.
  rewrite !ord_leb_cases. intros [->|H1] [->|H2]; auto. right. by apply (lt_ord_trans _ y).
Qed.

Lemma ord_leb_antisym x y : ord_leb x y = true -> ord_leb y x = true -> x = y.
Proof.
  rewrite !ord_leb_cases. intros [->|H1] [?|H2]; auto.
  exfalso. apply (lt_ord_irrefl x). by apply (lt_ord_trans _ y).
Qed.
End OrdFacts.

#[export] Instance Z_ord : Ord Z.
Proof.
  refine {| cmp := Z.compare |}.
  - apply Z.compare_eq_iff.
  - apply Z.compare_antisym.
  - intros x y z. rewrite !Z.compare_lt_iff. lia.
Defined.

#[export] Instance N_ord : Ord N.
Proof.
  refine {| cmp := N.compare |}.
  - apply N.compare_eq_iff.
  - apply N.compare_antisym.
  - intros x y z. rewrite !N.compare_lt_iff. lia.
Defined.

#[export] Instance prod_ord {A B} `{Ord A} `{Ord B} : Ord (A * B).
Proof.
  refine {| cmp := fun p q => match cmp p.1 q.1 with Eq => cmp p.2 q.2 | c => c end |}.
  - intros [a b] [a' b']; simpl. destruct (cmp a a') eqn:E.
    + apply cmp_eq in E as ->. rewrite cmp_eq. split; congruence.
    + split; [congruence|]. intros [= -> ->]. rewrite cmp_refl in E. congruence.
    + split; [congruence|]. intros [= -> ->]. rewrite cmp_refl in E. congruence.
  - intros [a b] [a' b']; simpl. rewrite (cmp_flip a a'). destruct (cmp a a'); simpl; auto using cmp_flip.
  - intros [a b] [a' b'] [a'' b'']; simpl.
    destruct (cmp a a') eqn:E1; try congruence.
    + apply cmp_eq in E1 as ->. intros ?. destruct (cmp a' a''); try congruence. by apply cmp_lt_trans.
    + intros _. destruct (cmp a' a'') eqn:E2; try congruence.
      * apply cmp_eq in E2 as ->. by rewrite E1.
      * intros _. by rewrite (cmp_lt_trans a a' a'').
Defined.

Section ListOrd.
Context {A : Type} `{Ord A}.

(** Lexicographic order: the order of Rust slices and strings. *)
Fixpoint list_cmp (l k : list A) : comparison :=
  match l, k with
  | [], [] => Eq
  | [], _ :: _ => Lt
  | _ :: _, [] => Gt
  | x :: l', y :: k' => match cmp x y with Eq => list_cmp l' k' | c => c end
  end.

Lemma list_cmp_eq l k : list_cmp l k = Eq <-> l = k.
Proof.
  revert k; induction l as [|x l IH]; intros [|y k]; simpl; try (split; congruence).
  destruct (cmp x y) eqn:E.
  - apply cmp_eq in E as ->. rewrite IH. split; congruence.
  - split; [congruence|]. intros [= -> ->]. rewrite cmp_refl in E. congruence.
  - split; [congruence|]. intros [= -> ->]. rewrite cmp_refl in E. congruence.
Qed.

Lemma list_cmp_flip l k : list_cmp k l = CompOpp (list_cmp l k).
Proof.
  revert k; induction l as [|x l IH]; intros [|y k]; simpl; auto.
  rewrite (cmp_flip x y). destruct (cmp x y); simpl; auto.
Qed.

Lemma list_cmp_trans l k m : list_cmp l k = Lt -> list_cmp k m = Lt -> list_cmp l m = Lt.
Proof.
  revert k m; induction l as [|x l IH]; intros [|y k] [|z m]; simpl; try congruence.
  destruct (cmp x y) eqn:E1; try congruence.
  - apply cmp_eq in E1 as ->. intros ?. destruct (cmp y z); try congruence. by apply IH.
  - intros _. destruct (cmp y z) eqn:E2; try congruence.
    + apply cmp_eq in E2 as ->. by rewrite E1.
    + intros _. by rewrite (cmp_lt_trans x y z).
Qed.

#[export] Instance list_ord : Ord (list A) :=
  {| cmp := list_cmp; cmp_eq := list_cmp_eq; cmp_flip := list_cmp_flip;
     cmp_lt_trans := list_cmp_trans |}.
End ListOrd.

(** Order by a key: [sort_by_key], [min_by_key] and the like. *)
Definition on_key {A K} `{Ord K} (key : A -> K) (x y : A) : bool := ord_leb (key x) (key y).

(** ** Stable sorting

    [slice::sort_by_key] and [slice::sort_by] are stable: elements that
    compare equal keep their order.  Insertion from the right is stable. *)
Section StableSort.
Context {A : Type} (le : A -> A -> bool).

Fixpoint insert_sorted (x : A) (l : list A) : list A :=
  match l with
  | [] => [x]
  | y :: l' => if le x y then x :: l else y :: insert_sorted x l'
  end.

Definition sort_by (l : list A) : list A := foldr insert_sorted [] l.

Lemma insert_sorted_perm x l : Permutation (insert_sorted x l) (x :: l).
Proof.
  induction l as [|y l IH]; simpl; [done|].
  destruct (le x y); [done|]. rewrite IH. apply perm_swap.
Qed.

Lemma sort_by_perm l : Permutation (sort_by l) l.
Proof.
  induction l as [|x l IH]; simpl; [done|].
  by rewrite insert_sorted_perm, IH.
Qed.

Lemma sort_by_length l : length (sort_by l) = length l.
Proof. apply Permutation_length, sort_by_perm. Qed.

Lemma elem_of_sort_by x l : x ∈ sort_by l <-> x ∈ l.
Proof. by rewrite sort_by_perm. Qed.

Lemma sort_by_nil_inv l : sort_by l = [] -> l = [].
Proof. intros E. pose proof (sort_by_length l) as L. rewrite E in L. by destruct l. Qed.

Hypothesis le_total : forall x y, le x y = true \/ le y x = true.
Hypothesis le_trans : forall x y z, le x y = true -> le y z = true -> le x z = true.

Lemma insert_sorted_sorted x l :
  StronglySorted (fun a b => le a b = true) l ->
  StronglySorted (fun a b => le a b = true) (insert_sorted x l).
Proof.
  induction 1 as [|y l Hl IH Hy]; simpl; [by repeat constructor|].
  destruct (le x y) eqn:E.
  - constructor; [by constructor|]. constructor; [done|].
    eapply Forall_impl; [exact Hy|]. simpl; eauto.
  - constructor; [done|]. rewrite Forall_forall in *. intros z Hz.
    rewrite insert_sorted_perm in Hz. apply elem_of_cons in Hz as [->|Hz]; [|auto].
    destruct (le_total x y); congruence.
Qed.

Lemma sort_by_sorted l : StronglySorted (fun a b => le a b = true) (sort_by l).
Proof. induction l as [|x l IH]; simpl; [constructor|]. by apply insert_sorted_sorted. Qed.

(** Sorting a sorted list changes nothing. *)
Lemma sort_by_id l :
  StronglySorted (fun a b => le a b = true) l -> sort_by l = l.
Proof.
  induction 1 as [|x l Hl IH Hx]; simpl; [done|]. rewrite IH.
  destruct l as [|y l]; simpl; [done|]. apply Forall_cons in Hx as [-> _]. done.
Qed.
End StableSort.

(** Two sorted permutations agree when the order is antisymmetric on their
    elements. *)
Lemma sorted_perm_unique {A} (R : A -> A -> Prop) (l k : list A) :
  (forall x y, x ∈ l -> y ∈ l -> R x y -> R y x -> x = y) ->
  StronglySorted R l -> StronglySorted R k -> Permutation l k -> l = k.
Proof.
  intros Hanti Hl. revert k Hanti.
  induction Hl as [|x l Hl IH Hx]; intros k Hanti Hk Hp.
  - by apply Permutation_nil_l in Hp.
  - destruct Hk as [|y k Hk Hy]; [by symmetry in Hp; apply Permutation_nil_l in Hp|].
    rewrite Forall_forall in Hx, Hy.
    assert (x = y) as <-.
    { assert (x ∈ y :: k) as Hin1 by (rewrite <- Hp; left).
      assert (y ∈ x :: l) as Hin2 by (rewrite Hp; left).
      apply elem_of_cons in Hin1 as [->|Hin1]; [done|].
      pose proof Hin2 as Hin2'.
      apply elem_of_cons in Hin2 as [->|Hin2]; [done|].
      apply Hanti; [left|done|by apply Hx|by apply Hy]. }
    f_equal. apply IH; [|done|by apply Permutation_cons_inv in Hp].
    intros a b Ha Hb. apply Hanti; by right.
Qed.

Section SortByKey.
Context {A K : Type} `{Ord K} (key : A -> K).

Definition sort_by_key : list A -> list A := sort_by (on_key key).

Lemma on_key_total x y : on_key key x y = true \/ on_key key y x = true.
Proof. apply ord_leb_total. Qed.

Lemma on_key_trans x y z :
  on_key key x y = true -> on_key key y z = true -> on_key key x z = true.
Proof. apply ord_leb_trans. Qed.

Lemma sort_by_key_sorted l :
  StronglySorted (fun a b => on_key key a b = true) (sort_by_key l).
Proof. apply sort_by_sorted; [apply on_key_total|apply on_key_trans]. Qed.

(** With distinct keys, the sorted list depends only on the multiset. *)
Lemma sort_by_key_perm_eq l k :
  NoDup (key <$> l) -> Permutation l k -> sort_by_key l = sort_by_key k.
Proof.
  intros Hnd Hp.
  apply (sorted_perm_unique (fun a b => on_key key a b = true)).
  - intros x y Hx Hy H1 H2. unfold sort_by_key in *. rewrite elem_of_sort_by in Hx, Hy.
    pose proof (ord_leb_antisym _ _ H1 H2) as E. clear - Hnd E Hx Hy.
    induction l as [|z l IH]; [by apply not_elem_of_nil in Hx|].
    apply NoDup_cons in Hnd as [Hz Hnd].
    apply elem_of_cons in Hx as [->|Hx], Hy as [->|Hy]; auto.
    + exfalso. apply Hz. rewrite E. by apply list_elem_of_fmap_2.
    + exfalso. apply Hz. rewrite <- E. by apply list_elem_of_fmap_2.
  - apply sort_by_key_sorted.
  - apply sort_by_key_sorted.
  - unfold sort_by_key. by rewrite !sort_by_perm.
Qed.
End SortByKey.

(** ** Iterator extrema

    [Iterator::min_by_key] keeps the first of several minima,
    [max_by_key] the last of several maxima. *)
Section Extrema.
Context {A : Type} (le : A -> A -> bool).

Definition min_by (l : list A) : option A :=
  match l with
  | [] => None
  | x :: l' => Some (fold_left (fun best y => if le best y then best else y) l' x)
  end.

Definition max_by (l : list A) : option A :=
  match l with
  | [] => None
  | x :: l' => Some (fold_left (fun best y => if le best y then y else best) l' x)
  end.

Lemma min_by_is_Some l : l <> [] -> exists x, min_by l = Some x.
Proof. destruct l; [done|]. simpl; eauto. Qed.

Lemma min_by_None l : min_by l = None <-> l = [].
Proof. destruct l; simpl; split; congruence. Qed.

Lemma max_by_None l : max_by l = None <-> l = [].
Proof. destruct l; simpl; split; congruence. Qed.

Lemma min_by_fold_elem l x :
  fold_left (fun best y => if le best y then best else y) l x ∈ x :: l.
Proof.
  revert x; induction l as [|y l IH]; intros x; simpl; [left|].
  pose proof (IH (if le x y then x else y)) as Hm.
  apply elem_of_cons in Hm as [->|Hm]; [destruct (le x y); set_solver|set_solver].
Qed.

Lemma min_by_elem l x : min_by l = Some x -> x ∈ l.
Proof. destruct l as [|y l]; simpl; [done|]. intros [= <-]. apply min_by_fold_elem. Qed.

Lemma max_by_fold_elem l x :
  fold_left (fun best y => if le best y then y else best) l x ∈ x :: l.
Proof.
  revert x; induction l as [|y l IH]; intros x; simpl; [left|].
  pose proof (IH (if le x y then y else x)) as Hm.
  apply elem_of_cons in Hm as [->|Hm]; [destruct (le x y); set_solver|set_solver].
Qed.

Lemma max_by_elem l x : max_by l = Some x -> x ∈ l.
Proof. destruct l as [|y l]; simpl; [done|]. intros [= <-]. apply max_by_fold_elem. Qed.

Hypothesis le_total : forall x y, le x y = true \/ le y x = true.
Hypothesis le_trans : forall x y z, le x y = true -> le y z = true -> le x z = true.

Lemma le_self x : le x x = true.
Proof. destruct (le_total x x); done. Qed.

Lemma min_by_fold_le l x y :
  y ∈ x :: l -> le (fold_left (fun best y => if le best y then best else y) l x) y = true.
Proof.
  revert x y; induction l as [|z l IH]; intros x y Hy; simpl.
  - apply list_elem_of_singleton in Hy as ->. apply le_self.
  - set (b := if le x z then x else z).
    assert (le b x = true /\ le b z = true) as [Hbx Hbz].
    { subst b. destruct (le x z) eqn:E; split; auto using le_self.
      destruct (le_total x z); congruence. }
    apply elem_of_cons in Hy as [->|Hy].
    + eapply le_trans; [apply IH; left|done].
    + apply elem_of_cons in Hy as [->|Hy].
      * eapply le_trans; [apply IH; left|done].
      * apply IH. by right.
Qed.

Lemma min_by_le l x y : min_by l = Some x -> y ∈ l -> le x y = true.
Proof. destruct l as [|z l]; simpl; [done|]. intros [= <-]. apply min_by_fold_le. Qed.

Lemma max_by_fold_le l x y :
  y ∈ x :: l -> le y (fold_left (fun best y => if le best y then y else best) l x) = true.
Proof.
  revert x y; induction l as [|z l IH]; intros x y Hy; simpl.
  - apply list_elem_of_singleton in Hy as ->. apply le_self.
  - set (b := if le x z then z else x).
    assert (le x b = true /\ le z b = true) as [Hbx Hbz].
    { subst b. destruct (le x z) eqn:E; split; auto using le_self.
      destruct (le_total x z); congruence. }
    apply elem_of_cons in Hy as [->|Hy].
    + eapply le_trans; [done|apply IH; left].
    + apply elem_of_cons in Hy as [->|Hy].
      * eapply le_trans; [done|apply IH; left].
      * apply IH. by right.
Qed.

Lemma max_by_le l x y : max_by l = Some x -> y ∈ l -> le y x = true.
Proof. destruct l as [|z l]; simpl; [done|]. intros [= <-]. apply max_by_fold_le. Qed.
End Extrema.

(** Minimum and maximum of integers ([Iterator::min], [Iterator::max]). *)
Definition min_Z : list Z -> option Z := min_by Z.leb.
Definition max_Z : list Z -> option Z := max_by Z.leb.

Lemma min_Z_le l x y : min_Z l = Some x -> y ∈ l -> (x <= y)%Z.
Proof.
  intros E Hy. apply Z.leb_le. eapply (min_by_le Z.leb); [| |exact E|exact Hy];
    intros; rewrite ?Z.leb_le in *; lia.
Qed.

Lemma max_Z_ge l x y : max_Z l = Some x -> y ∈ l -> (y <= x)%Z.
Proof.
  intros E Hy. apply Z.leb_le. eapply (max_by_le Z.leb); [| |exact E|exact Hy];
    intros; rewrite ?Z.leb_le in *; lia.
Qed.

(** ** Results

    [error.rs]: the variants the modelled code returns. *)
Inductive result (E A : Type) : Type :=
| Ok (a : A)
| Err (e : E).
Arguments Ok {E A} _.
Arguments Err {E A} _.

Definition result_bind {E A B} (r : result E A) (f : A -> result E B) : result E B :=
  match r with Ok a => f a | Err e => Err e end.

Definition ok_or {E A} (o : option A) (e : E) : result E A :=
  match o with Some a => Ok a | None => Err e end.

Notation "'let?' x ':=' r 'in' k" := (result_bind r (fun x => k))
  (at level 10, x pattern, r at level 100, k at level 200)
  : kioku_scope.

Lemma result_bind_Ok {E A B} (r : result E A) (f : A -> result E B) b :
  result_bind r f = Ok b <-> exists a, r = Ok a /\ f a = Ok b.
Proof.
  destruct r as [a|e]; simpl; split.
  - eauto.
  - by intros (a' & [= <-] & ?).
  - congruence.
  - by intros (? & ? & _).
Qed.

Lemma ok_or_Ok {E A} (o : option A) (e : E) a : ok_or o e = Ok a <-> o = Some a.
Proof. destruct o; simpl; split; congruence. Qed.

(** ** Lists *)

Lemma forallb_Forall {A} (f : A -> bool) l : forallb f l = true <-> Forall (fun x => f x = true) l.
Proof.
  induction l as [|x l IH]; simpl; [by split|].
  rewrite andb_true_iff, IH, Forall_cons. done.
Qed.

Lemma existsb_Exists {A} (f : A -> bool) l : existsb f l = true <-> exists x, x ∈ l /\ f x = true.
Proof.
  rewrite existsb_exists. split; intros (x & Hx & Hf); exists x; split; auto;
    by apply list_elem_of_In.
Qed.

Lemma existsb_false {A} (f : A -> bool) l : existsb f l = false <-> forall x, x ∈ l -> f x = false.
Proof.
  split.
  - intros E x Hx. destruct (f x) eqn:Ef; [|done].
    assert (existsb f l = true) by (apply existsb_Exists; eauto). congruence.
  - intros Hf. destruct (existsb f l) eqn:E; [|done].
    apply existsb_Exists in E as (x & Hx & Ef). rewrite (Hf x Hx) in Ef. done.
Qed.

Lemma elem_of_filter_bool {A} (p : A -> bool) (l : list A) x :
  x ∈ List.filter p l <-> x ∈ l /\ p x = true.
Proof. by rewrite !list_elem_of_In, List.filter_In. Qed.

Lemma filter_sorted {A} (R : A -> A -> Prop) (f : A -> bool) l : StronglySorted R l -> StronglySorted R (List.filter f l).
Proof.
  induction 1 as [|x l Hl IH Hx]; simpl; [constructor |]; case_match; [| done]; constructor; [done |].
  rewrite Forall_forall in *; intros y Hy; apply Hx; by apply elem_of_filter_bool in Hy as [].
Qed.

Lemma filter_bool_perm {A} (p : A -> bool) (l k : list A) :
  Permutation l k -> Permutation (List.filter p l) (List.filter p k).
Proof. induction 1; simpl; repeat case_match; eauto using Permutation. Qed.

(** The elements [List.find] returns satisfy the test, and are the first. *)
Lemma find_Some_elem {A} (p : A -> bool) (l : list A) x :
  List.find p l = Some x -> x ∈ l /\ p x = true.
Proof. intros E. apply List.find_some in E as [Hin Hp]. split; [by apply list_elem_of_In|done]. Qed.
