(* ===== verification/OrdMap.v ===== *)
(** * Ordered maps and sets

    [std::collections::BTreeMap] and [BTreeSet]: the code iterates over them
    in key order, so they are kept as key-sorted association lists.  The laws
    are those the components use: lookup after insert, sortedness, and the
    membership of the key list. *)
From S2P Require Import Prelude.

Section BTreeMap.
Context {K V : Type} `{Ord K}.

(** [BTreeMap<K, V>] *)
Definition bmap : Type := list (K * V).

Fixpoint bget (k : K) (m : bmap) : option V :=
  match m with
  | [] => None
  | (k', v) :: m' =>
    match cmp k k' with Eq => Some v | Lt => None | Gt => bget k m' end
  end.

Fixpoint binsert (k : K) (v : V) (m : bmap) : bmap :=
  match m with
  | [] => [(k, v)]
  | (k', v') :: m' =>
    match cmp k k' with
    | Lt => (k, v) :: m
    | Eq => (k, v) :: m'
    | Gt => (k', v') :: binsert k v m'
    end
  end.

(** [entry(k).or_insert(v)]: an existing value is kept. *)
Definition bentry_or_insert (k : K) (v : V) (m : bmap) : bmap :=
  match bget k m with Some _ => m | None => binsert k v m end.

(** [entry(k).and_modify(f).or_insert(v)] *)
Definition bmodify_or_insert (k : K) (f : V -> V) (v : V) (m : bmap) : bmap :=
  match bget k m with Some old => binsert k (f old) m | None => binsert k v m end.

Definition bkeys (m : bmap) : list K := m.*1.
Definition bvalues (m : bmap) : list V := m.*2.

(** Key-sorted without duplicates: the representation invariant. *)
Definition bwf (m : bmap) : Prop := StronglySorted lt_ord (bkeys m).

Lemma bwf_nil : bwf [].
Proof. constructor. Qed.

Lemma bwf_cons_inv k v m : bwf ((k, v) :: m) -> bwf m /\ Forall (lt_ord k) (bkeys m).
Proof. unfold bwf, bkeys; simpl. intros Hs. by apply StronglySorted_inv in Hs. Qed.

Lemma bkeys_binsert k v m x : x ∈ bkeys (binsert k v m) <-> x = k \/ x ∈ bkeys m.
Proof.
  unfold bkeys. induction m as [|[k' v'] m IH]; simpl.
  - rewrite list_elem_of_singleton. set_solver.
  - destruct (cmp k k') eqn:E; simpl; rewrite ?elem_of_cons, ?IH; try tauto.
    apply cmp_eq in E as ->. tauto.
Qed.

Lemma binsert_wf k v m : bwf m -> bwf (binsert k v m).
Proof.
  induction m as [|[k' v'] m IH]; intros Hm.
  - unfold bwf; simpl. by repeat constructor.
  - pose proof (bwf_cons_inv _ _ _ Hm) as [Hm' Hk']. simpl.
    destruct (cmp k k') eqn:E.
    + apply cmp_eq in E as ->. done.
    + unfold bwf in *; simpl. constructor; [done|]. constructor; [done|].
      eapply Forall_impl; [exact Hk'|]. intros x Hx. by apply (lt_ord_trans _ k').
    + unfold bwf; simpl. constructor; [by apply IH|].
      apply Forall_forall. intros x Hx. apply bkeys_binsert in Hx as [->|Hx].
      * by apply cmp_gt_lt.
      * rewrite Forall_forall in Hk'. by apply Hk'.
Qed.

Lemma bentry_or_insert_wf k v m : bwf m -> bwf (bentry_or_insert k v m).
Proof. unfold bentry_or_insert. destruct (bget k m); auto using binsert_wf. Qed.

Lemma bmodify_or_insert_wf k f v m : bwf m -> bwf (bmodify_or_insert k f v m).
Proof. unfold bmodify_or_insert. destruct (bget k m); auto using binsert_wf. Qed.

Lemma bget_None_of_lt k m : Forall (lt_ord k) (bkeys m) -> bget k m = None.
Proof.
  destruct m as [|[k' v'] m]; simpl; [done|].
  intros Hf. apply Forall_cons in Hf as [Hlt _]. unfold lt_ord in Hlt. by rewrite Hlt.
Qed.

Lemma bget_binsert_eq k v m : bget k (binsert k v m) = Some v.
Proof.
  induction m as [|[k' v'] m IH]; simpl; [by rewrite cmp_refl|].
  destruct (cmp k k') eqn:E; simpl; rewrite ?cmp_refl, ?E; done.
Qed.

Lemma bget_binsert_ne k k' v m : k <> k' -> bwf m -> bget k' (binsert k v m) = bget k' m.
Proof.
  intros Hne. induction m as [|[k0 v0] m IH]; intros Hm; simpl.
  - destruct (cmp k' k) eqn:E; try done. apply cmp_eq in E. congruence.
  - pose proof (bwf_cons_inv _ _ _ Hm) as [Hm' Hk0].
    destruct (cmp k k0) eqn:E; simpl.
    + apply cmp_eq in E as ->. destruct (cmp k' k0) eqn:E'; try done.
      apply cmp_eq in E'. congruence.
    + destruct (cmp k' k) eqn:E'; try done.
      * apply cmp_eq in E'. congruence.
      * rewrite (lt_ord_trans k' k k0 E' E). done.
    + destruct (cmp k' k0); auto.
Qed.

Lemma bget_Some_elem k v m : bget k m = Some v -> (k, v) ∈ m.
Proof.
  induction m as [|[k' v'] m IH]; simpl; [done|].
  destruct (cmp k k') eqn:E; try done.
  - apply cmp_eq in E as ->. intros [= ->]. left.
  - intros Hm. right. by apply IH.
Qed.

Lemma bget_elem k v m : bwf m -> (k, v) ∈ m -> bget k m = Some v.
Proof.
  induction m as [|[k' v'] m IH]; intros Hm Hin; [by apply not_elem_of_nil in Hin|].
  pose proof (bwf_cons_inv _ _ _ Hm) as [Hm' Hk']. simpl.
  apply elem_of_cons in Hin as [[= -> ->]|Hin]; [by rewrite cmp_refl|].
  assert (lt_ord k' k) as Hlt.
  { rewrite Forall_forall in Hk'. apply Hk'. unfold bkeys. apply list_elem_of_fmap. by exists (k, v). }
  apply cmp_gt_lt in Hlt. rewrite Hlt. auto.
Qed.

Lemma bget_is_Some k m : bwf m -> is_Some (bget k m) <-> k ∈ bkeys m.
Proof.
  intros Hm. unfold bkeys. rewrite list_elem_of_fmap. split.
  - intros [v Hv]. exists (k, v). split; [done|]. by apply bget_Some_elem.
  - intros ([k' v] & -> & Hin). exists v. by apply bget_elem.
Qed.

Lemma bwf_NoDup m : bwf m -> NoDup (bkeys m).
Proof.
  unfold bwf. induction 1 as [|k l Hl IH Hk]; [constructor|].
  constructor; [|done]. intros Hin. rewrite Forall_forall in Hk.
  apply (lt_ord_irrefl k). by apply Hk.
Qed.

(** Two well-formed maps with the same lookups are the same list. *)
Lemma bmap_ext m m' : bwf m -> bwf m' -> (forall k, bget k m = bget k m') -> m = m'.
Proof.
  revert m'. induction m as [|[k v] m IH]; intros m' Hm Hm' Hext.
  - destruct m' as [|[k' v'] m']; [done|]. specialize (Hext k'). simpl in Hext.
    rewrite cmp_refl in Hext. done.
  - destruct m' as [|[k' v'] m'].
    { specialize (Hext k). simpl in Hext. rewrite cmp_refl in Hext. done. }
    pose proof (bwf_cons_inv _ _ _ Hm) as [Hm1 Hk].
    pose proof (bwf_cons_inv _ _ _ Hm') as [Hm1' Hk'].
    assert (k = k') as <-.
    { destruct (cmp k k') eqn:E; [by apply cmp_eq| |].
      - specialize (Hext k). simpl in Hext. rewrite cmp_refl, E in Hext. done.
      - apply cmp_gt_lt in E. specialize (Hext k'). simpl in Hext.
        rewrite cmp_refl in Hext. rewrite E in Hext. done. }
    assert (v = v') as <-.
    { specialize (Hext k). simpl in Hext. rewrite cmp_refl in Hext. congruence. }
    f_equal. apply IH; [done|done|]. intros k0. specialize (Hext k0). simpl in Hext.
    destruct (cmp k0 k) eqn:E; [|clear Hext|done].
    + apply cmp_eq in E as ->. by rewrite !bget_None_of_lt.
    + rewrite !bget_None_of_lt; [done| |].
      * eapply Forall_impl; [exact Hk'|]. intros x. by apply lt_ord_trans.
      * eapply Forall_impl; [exact Hk|]. intros x. by apply lt_ord_trans.
Qed.

(** Inserting the binding that is already there changes nothing. *)
Lemma binsert_id k v m : bwf m -> bget k m = Some v -> binsert k v m = m.
Proof.
  intros Hm Hk. apply bmap_ext; [by apply binsert_wf|done|].
  intros k'. destruct (cmp k k') eqn:E.
  - apply cmp_eq in E as <-. by rewrite bget_binsert_eq.
  - rewrite bget_binsert_ne; [done| |done]. intros ->. rewrite cmp_refl in E. done.
  - rewrite bget_binsert_ne; [done| |done]. intros ->. rewrite cmp_refl in E. done.
Qed.

(** [iter().collect::<BTreeMap<_, _>>()] *)
Definition bfrom_list (l : list (K * V)) : bmap :=
  fold_left (fun m '(k, v) => binsert k v m) l [].

Lemma fold_binsert_wf l m :
  bwf m -> bwf (fold_left (fun m '(k, v) => binsert k v m) l m).
Proof.
  revert m; induction l as [|[k v] l IH]; intros m Hm; simpl; [done|].
  by apply IH, binsert_wf.
Qed.

Lemma bfrom_list_wf l : bwf (bfrom_list l).
Proof. apply fold_binsert_wf, bwf_nil. Qed.

Lemma bkeys_bfrom_list l x : x ∈ bkeys (bfrom_list l) <-> x ∈ l.*1.
Proof.
  unfold bfrom_list.
  assert (forall m, x ∈ bkeys (fold_left (fun m '(k, v) => binsert k v m) l m)
                    <-> x ∈ bkeys m \/ x ∈ l.*1) as Haux.
  { induction l as [|[k v] l IH]; intros m; simpl; [set_solver|].
    rewrite IH, bkeys_binsert. set_solver. }
  rewrite Haux. unfold bkeys; simpl. set_solver.
Qed.
End BTreeMap.

Arguments bmap : clear implicits.

(** Mapping the values of a map. *)
Section MapValues.
Context {K V W : Type} `{Ord K} (f : V -> W).

Definition bmap_map (m : bmap K V) : bmap K W := (fun kv => (kv.1, f kv.2)) <$> m.

Lemma bkeys_bmap_map m : bkeys (bmap_map m) = bkeys m.
Proof. unfold bkeys, bmap_map. rewrite <- list_fmap_compose. by apply list_fmap_ext. Qed.

Lemma bmap_map_wf m : bwf m -> bwf (bmap_map m).
Proof. unfold bwf. by rewrite bkeys_bmap_map. Qed.

Lemma bget_bmap_map k m : bget k (bmap_map m) = f <$> bget k m.
Proof. induction m as [|[k' v'] m IH]; simpl; [done|]. destruct (cmp k k'); [done|done|exact IH]. Qed.

Lemma bvalues_bmap_map m : bvalues (bmap_map m) = f <$> bvalues m.
Proof. unfold bvalues, bmap_map. rewrite <- !list_fmap_compose. by apply list_fmap_ext. Qed.
End MapValues.

#[export] Hint Resolve bwf_nil binsert_wf bentry_or_insert_wf bmodify_or_insert_wf
  bfrom_list_wf : kioku.

(** ** Sets: [BTreeSet<K>] as a sorted list of keys. *)
Section BTreeSet.
Context {K : Type} `{Ord K}.

Definition bset : Type := list K.
Definition bset_wf (s : bset) : Prop := StronglySorted lt_ord s.

Fixpoint bset_mem (k : K) (s : bset) : bool :=
  match s with
  | [] => false
  | k' :: s' => match cmp k k' with Eq => true | Lt => false | Gt => bset_mem k s' end
  end.

Fixpoint bset_add (k : K) (s : bset) : bset :=
  match s with
  | [] => [k]
  | k' :: s' => match cmp k k' with Lt => k :: s | Eq => s | Gt => k' :: bset_add k s' end
  end.

(** [iter().collect::<BTreeSet<_>>()] *)
Definition bset_of_list (l : list K) : bset := fold_left (fun s k => bset_add k s) l [].

Lemma elem_of_bset_add k s x : x ∈ bset_add k s <-> x = k \/ x ∈ s.
Proof.
  induction s as [|k' s IH]; simpl.
  - rewrite list_elem_of_singleton. set_solver.
  - destruct (cmp k k') eqn:E; rewrite ?elem_of_cons, ?IH; try tauto.
    apply cmp_eq in E as ->. tauto.
Qed.

Lemma bset_add_wf k s : bset_wf s -> bset_wf (bset_add k s).
Proof.
  unfold bset_wf. induction 1 as [|k' s Hs IH Hk]; simpl; [by repeat constructor|].
  destruct (cmp k k') eqn:E.
  - by constructor.
  - constructor; [by constructor|]. constructor; [done|].
    eapply Forall_impl; [exact Hk|]. intros x. by apply lt_ord_trans.
  - constructor; [done|]. apply Forall_forall. intros x Hx.
    apply elem_of_bset_add in Hx as [->|Hx]; [by apply cmp_gt_lt|].
    rewrite Forall_forall in Hk. by apply Hk.
Qed.

Lemma bset_mem_spec k s : bset_wf s -> bset_mem k s = true <-> k ∈ s.
Proof.
  unfold bset_wf. induction 1 as [|k' s Hs IH Hk]; simpl; [set_solver|].
  rewrite elem_of_cons. rewrite Forall_forall in Hk.
  destruct (cmp k k') eqn:E.
  - apply cmp_eq in E as ->. tauto.
  - split; [done|]. intros [->|Hin].
    + by rewrite cmp_refl in E.
    + specialize (Hk _ Hin). exfalso. apply (lt_ord_irrefl k). by apply (lt_ord_trans _ k').
  - rewrite IH. split; [tauto|]. intros [->|?]; [|done]. by rewrite cmp_refl in E.
Qed.

Lemma fold_bset_add_wf l s : bset_wf s -> bset_wf (fold_left (fun s k => bset_add k s) l s).
Proof. revert s; induction l as [|k l IH]; intros s Hs; simpl; [done|]. by apply IH, bset_add_wf. Qed.

Lemma bset_of_list_wf l : bset_wf (bset_of_list l).
Proof. apply fold_bset_add_wf. constructor. Qed.

Lemma elem_of_bset_of_list l x : x ∈ bset_of_list l <-> x ∈ l.
Proof.
  unfold bset_of_list.
  assert (forall s, x ∈ fold_left (fun s k => bset_add k s) l s <-> x ∈ s \/ x ∈ l) as Haux.
  { induction l as [|k l IH]; intros s; simpl; [set_solver|].
    rewrite IH, elem_of_bset_add. set_solver. }
  rewrite Haux. set_solver.
Qed.

Lemma bset_wf_NoDup s : bset_wf s -> NoDup s.
Proof.
  induction 1 as [|k l Hl IH Hk]; [constructor|]. constructor; [|done].
  intros Hin. rewrite Forall_forall in Hk. apply (lt_ord_irrefl k). by apply Hk.
Qed.

Lemma bset_ext s t : bset_wf s -> bset_wf t -> (forall k, k ∈ s <-> k ∈ t) -> s = t.
Proof.
  intros Hs Ht Hext. apply (sorted_perm_unique lt_ord); [|done|done|].
  - intros x y _ _ H1 H2. exfalso. apply (lt_ord_irrefl x). by apply (lt_ord_trans _ y).
  - apply NoDup_Permutation; auto using bset_wf_NoDup.
Qed.

(** A list without duplicates has as many elements as its set. *)
Lemma bset_of_list_length l : NoDup l -> length (bset_of_list l) = length l.
Proof.
  intros Hl. apply Permutation_length, NoDup_Permutation; auto using bset_wf_NoDup, bset_of_list_wf.
  apply elem_of_bset_of_list.
Qed.

Lemma bset_of_list_perm l : NoDup l -> Permutation (bset_of_list l) l.
Proof.
  intros Hl. apply NoDup_Permutation; auto using bset_wf_NoDup, bset_of_list_wf.
  apply elem_of_bset_of_list.
Qed.

Lemma bset_of_list_length_inv `{EqDecision K} l :
  length (bset_of_list l) = length l -> NoDup l.
Proof.
  intros Hlen.
  assert (bset_of_list l ⊆+ l) as Hsub.
  { apply NoDup_submseteq; [apply bset_wf_NoDup, bset_of_list_wf|].
    intros x. by rewrite elem_of_bset_of_list. }
  rewrite <- (submseteq_length_Permutation _ _ Hsub) by lia.
  apply bset_wf_NoDup, bset_of_list_wf.
Qed.

(** A set of [f]-images with at least [n] members has [n] sources that
    differ in their image. *)
Lemma bset_choose {A} (f : A -> K) (l : list A) (n : nat) :
  (n <= length (bset_of_list (f <$> l)))%nat ->
  exists k, length k = n /\ (forall x, x ∈ k -> x ∈ l) /\ NoDup (f <$> k).
Proof.
  intros Hn. set (s := take n (bset_of_list (f <$> l))).
  assert (forall t : list K, (forall x, x ∈ t -> x ∈ f <$> l) ->
    exists k : list A, f <$> k = t /\ forall x, x ∈ k -> x ∈ l) as Hpre.
  { induction t as [|y t IH]; intros Ht; [exists []; set_solver|].
    destruct IH as (k & Hk & Hin); [intros; apply Ht; by right|].
    assert (y ∈ f <$> l) as Hy by (apply Ht; left).
    apply list_elem_of_fmap in Hy as (x & -> & Hx). exists (x :: k). split; [by rewrite fmap_cons, Hk|].
    intros z [->|Hz]%elem_of_cons; auto. }
  destruct (Hpre s) as (k & Hk & Hin).
  { intros x Hx. apply elem_of_bset_of_list. unfold s in Hx. by apply (subseteq_take n). }
  exists k. split; [|split; [done|]].
  - apply (f_equal length) in Hk. rewrite length_fmap in Hk. rewrite Hk. unfold s. rewrite length_take. lia.
  - rewrite Hk. unfold s. eapply sublist_NoDup; [apply bset_wf_NoDup, bset_of_list_wf|apply sublist_take].
Qed.
End BTreeSet.

Arguments bset : clear implicits.
#[export] Hint Resolve bset_add_wf bset_of_list_wf : kioku.

(** ** Collecting lists *)

(** Collecting into a map keeps the last value of each key. *)
Lemma bget_fold_binsert {K V} `{Ord K} (l : list (K * V)) (m : bmap K V) (k : K) :
  bwf m ->
  bget k (fold_left (fun m '(k, v) => binsert k v m) l m)
  = match last (List.filter (fun kv => match cmp kv.1 k with Eq => true | _ => false end) l) with
    | Some kv => Some kv.2
    | None => bget k m
    end.
Proof.
  intros Hm. induction l as [|[k' v'] l IH] using rev_ind; [done|].
  rewrite fold_left_app, List.filter_app. simpl.
  destruct (cmp k' k) eqn:E.
  - apply cmp_eq in E as ->. rewrite last_snoc. apply bget_binsert_eq.
  - rewrite app_nil_r, <- IH. apply bget_binsert_ne; [|by apply fold_binsert_wf].
    intros ->. by rewrite cmp_refl in E.
  - rewrite app_nil_r, <- IH. apply bget_binsert_ne; [|by apply fold_binsert_wf].
    intros ->. by rewrite cmp_refl in E.
Qed.

Lemma bget_bfrom_list_NoDup {K V} `{Ord K} `{EqDecision K} (l : list (K * V)) k v :
  NoDup l.*1 -> bget k (bfrom_list l) = Some v <-> (k, v) ∈ l.
Proof.
  intros Hnd. unfold bfrom_list.
  rewrite (bget_fold_binsert l [] k) by apply bwf_nil. split.
  - destruct (last _) as [[k' v']|] eqn:E; [|done]. intros [= <-].
    apply last_Some_elem_of, elem_of_filter_bool in E as [Hin Hk]. cbn in Hk.
    destruct (cmp k' k) eqn:Ek; try done. apply cmp_eq in Ek as ->. done.
  - intros Hin. destruct (last _) as [[k' v']|] eqn:E.
    + apply last_Some_elem_of, elem_of_filter_bool in E as [Hin' Hk]. cbn in Hk.
      destruct (cmp k' k) eqn:Ek; try done. apply cmp_eq in Ek as ->. f_equal. cbn.
      apply list_elem_of_lookup_1 in Hin as [i Hi], Hin' as [j Hj].
      assert (i = j) as ->; [|congruence].
      eapply (NoDup_lookup l.*1); [done|rewrite list_lookup_fmap, Hi; done|by rewrite list_lookup_fmap, Hj].
    + apply last_None in E. exfalso.
      assert ((k, v) ∈ List.filter (fun kv : K * V => match cmp kv.1 k with Eq => true | _ => false end) l) as Hf.
      { apply elem_of_filter_bool. split; [done|]. cbn. by rewrite cmp_refl. }
      rewrite E in Hf. by apply not_elem_of_nil in Hf.
Qed.

Lemma bset_of_list_snoc {K} `{Ord K} (l : list K) x :
  bset_of_list (l ++ [x]) = bset_add x (bset_of_list l).
Proof. unfold bset_of_list. by rewrite fold_left_app. Qed.
