(* ===== verification/Text.v ===== *)
(** * Rust strings

    A [&str] is a sequence of Unicode scalar values; [str] keeps the scalar
    values, and [byte_len] gives the UTF-8 length the code's [len()] returns.
    UTF-8 is order preserving, so the lexicographic order of scalar values is
    the order of [String]'s [Ord]. *)
From Stdlib Require Import ZArith Lia Ascii.
From Stdlib Require String.
From stdpp Require Export strings.
From S2P Require Import Prelude.
Local Open Scope Z_scope.

Definition char : Type := N.
Definition str : Type := list char.

(** String literals (the ones the code writes are ASCII). *)
Definition lit (s : string) : str := N_of_ascii <$> String.list_ascii_of_string s.
Arguments lit s%_string.

(** The lexicographic order of [String]. *)
#[export] Instance str_ord : Ord str := list_ord.

(** A literal outside ASCII: the bytes of the source text, decoded. *)
Definition cont (b : N) : N := N.land b 0x3F.

Fixpoint utf8_decode (l : list N) : str :=
  match l with
  | [] => []
  | a :: l1 =>
    if (a <? 0x80)%N then a :: utf8_decode l1
    else match l1 with
    | [] => []
    | b :: l2 =>
      if (a <? 0xE0)%N then (N.land a 0x1F * 64 + cont b)%N :: utf8_decode l2
      else match l2 with
      | [] => []
      | c :: l3 =>
        if (a <? 0xF0)%N then ((N.land a 0x0F * 64 + cont b) * 64 + cont c)%N :: utf8_decode l3
        else match l3 with
        | [] => []
        | d :: l4 => (((N.land a 0x07 * 64 + cont b) * 64 + cont c) * 64 + cont d)%N :: utf8_decode l4
        end
      end
    end
  end.

Definition ulit (s : string) : str := utf8_decode (N_of_ascii <$> String.list_ascii_of_string s).
Arguments ulit s%_string.

Definition str_eqb (a b : str) : bool := bool_decide (a = b).

Lemma str_eqb_eq a b : str_eqb a b = true <-> a = b.
Proof. apply bool_decide_eq_true. Qed.

Lemma str_eqb_refl a : str_eqb a a = true.
Proof. by apply str_eqb_eq. Qed.

(** [matches!(value, "a" | "b" | ...)] *)
Definition one_of (s : str) (l : list string) : bool :=
  existsb (fun x => str_eqb s (lit x)) l.

Lemma one_of_elem s l : one_of s l = true <-> s ∈ lit <$> l.
Proof.
  unfold one_of. rewrite existsb_Exists, list_elem_of_fmap. split.
  - intros (x & Hx & E). apply str_eqb_eq in E as ->. eauto.
  - intros (x & -> & Hx). exists x. split; [done|apply str_eqb_refl].
Qed.

(** A character literal, written as a one-character string. *)
Definition ch (s : string) : char := List.hd 0%N (lit s).
Arguments ch s%_string.
Definition ellipsis : char := 0x2026%N.
Definition newline : char := 10%N.
Definition space : char := 32%N.

(** ** Lengths *)

Definition utf8_len (c : char) : Z :=
  if (c <? 0x80)%N then 1 else if (c <? 0x800)%N then 2
  else if (c <? 0x10000)%N then 3 else 4.

(** [len()]: bytes of the UTF-8 encoding. *)
Definition byte_len (s : str) : Z := foldr (fun c n => utf8_len c + n) 0 s.

(** [chars().count()] *)
Definition char_count (s : str) : Z := Z.of_nat (length s).

(** UTF-8, and the lower-case hexadecimal form of a digest. *)
Definition utf8_char (c : char) : list N :=
  if (c <? 0x80)%N then [c]
  else if (c <? 0x800)%N then [0xC0 + N.shiftr c 6; 0x80 + cont c]%N
  else if (c <? 0x10000)%N then [0xE0 + N.shiftr c 12; 0x80 + cont (N.shiftr c 6); 0x80 + cont c]%N
  else [0xF0 + N.shiftr c 18; 0x80 + cont (N.shiftr c 12); 0x80 + cont (N.shiftr c 6); 0x80 + cont c]%N.

Definition as_bytes (s : str) : list N := s ≫= utf8_char.

Definition hex_digit (d : N) : char := if (d <? 10)%N then (48 + d)%N else (87 + d)%N.

Definition hex_of_bytes (b : list N) : str := b ≫= fun x => [hex_digit (x / 16); hex_digit (x mod 16)].

Definition is_empty {A} (l : list A) : bool := match l with [] => true | _ => false end.

Lemma is_empty_true {A} (l : list A) : is_empty l = true <-> l = [].
Proof. destruct l; simpl; split; congruence. Qed.

Lemma is_empty_false {A} (l : list A) : is_empty l = false <-> l <> [].
Proof. destruct l; simpl; split; congruence. Qed.

Lemma utf8_len_pos c : 1 <= utf8_len c <= 4.
Proof. unfold utf8_len. case_ifs; lia. Qed.

Lemma byte_len_app a b : byte_len (a ++ b) = byte_len a + byte_len b.
Proof. induction a as [|c a IH]; simpl; [done|]. rewrite IH. lia. Qed.

Lemma byte_len_bounds s : char_count s <= byte_len s <= 4 * char_count s.
Proof.
  unfold char_count. induction s as [|c s IH]; simpl; [lia|].
  pose proof (utf8_len_pos c). lia.
Qed.

(** ** Characters *)

(** [char::is_whitespace]: the Unicode [White_Space] property. *)
Definition is_whitespace (c : char) : bool :=
  ((9 <=? c) && (c <=? 13) || (c =? 32) || (c =? 0x85) || (c =? 0xA0) || (c =? 0x1680)
   || (0x2000 <=? c) && (c <=? 0x200A) || (c =? 0x2028) || (c =? 0x2029) || (c =? 0x202F)
   || (c =? 0x205F) || (c =? 0x3000))%N.

(** [char::is_control]: the Unicode general category [Cc]. *)
Definition is_control (c : char) : bool :=
  ((c <=? 0x1F) || (0x7F <=? c) && (c <=? 0x9F))%N.

Definition is_ascii_digit (c : char) : bool := ((48 <=? c) && (c <=? 57))%N.
Definition is_ascii_uppercase (c : char) : bool := ((65 <=? c) && (c <=? 90))%N.
Definition is_ascii_lowercase (c : char) : bool := ((97 <=? c) && (c <=? 122))%N.
Definition is_ascii_alphabetic (c : char) : bool := is_ascii_uppercase c || is_ascii_lowercase c.
Definition is_ascii_alphanumeric (c : char) : bool := is_ascii_alphabetic c || is_ascii_digit c.

Definition to_ascii_lower_char (c : char) : char :=
  if is_ascii_uppercase c then (c + 32)%N else c.
Definition to_ascii_lowercase (s : str) : str := to_ascii_lower_char <$> s.
Definition eq_ignore_ascii_case (a b : str) : bool :=
  str_eqb (to_ascii_lowercase a) (to_ascii_lowercase b).

(** ** Trimming and splitting *)

Section Scan.
Context {A : Type}.

Fixpoint drop_while (p : A -> bool) (l : list A) : list A :=
  match l with [] => [] | x :: l' => if p x then drop_while p l' else l end.

Fixpoint take_while (p : A -> bool) (l : list A) : list A :=
  match l with [] => [] | x :: l' => if p x then x :: take_while p l' else [] end.

Lemma take_drop_while p l : take_while p l ++ drop_while p l = l.
Proof. induction l as [|x l IH]; simpl; [done|]. destruct (p x); simpl; congruence. Qed.

Lemma drop_while_none p l : Forall (fun x => p x = false) l -> drop_while p l = l.
Proof. destruct 1 as [|x l Hx]; simpl; [done|]. by rewrite Hx. Qed.

Lemma drop_while_idem p l : drop_while p (drop_while p l) = drop_while p l.
Proof. induction l as [|x l IH]; simpl; [done|]. destruct (p x) eqn:E; [done|]. simpl. by rewrite E. Qed.
End Scan.

Definition trim_start (s : str) : str := drop_while is_whitespace s.
Definition trim_end (s : str) : str := reverse (drop_while is_whitespace (reverse s)).
Definition trim (s : str) : str := trim_end (trim_start s).

(** [trim().is_empty()] holds exactly of blank text. *)
Definition is_blank (s : str) : bool := is_empty (trim s).

Lemma drop_while_nil_iff {A} (p : A -> bool) l :
  drop_while p l = [] <-> Forall (fun x => p x = true) l.
Proof.
  induction l as [|x l IH]; simpl; [split; [constructor|done]|].
  rewrite Forall_cons. destruct (p x) eqn:E; [tauto|]. split; [done|]. by intros [? _].
Qed.

Lemma is_blank_spec s : is_blank s = true <-> Forall (fun c => is_whitespace c = true) s.
Proof.
  unfold is_blank, trim, trim_end, trim_start. rewrite is_empty_true.
  rewrite <- (reverse_nil) at 1. split.
  - intros E. apply (inj reverse) in E. apply drop_while_nil_iff in E.
    rewrite Forall_reverse in E. rewrite <- (take_drop_while is_whitespace s).
    apply Forall_app. split; [|done]. clear. induction s as [|c s IH]; simpl; [constructor|].
    destruct (is_whitespace c) eqn:Ec; by constructor.
  - intros E. apply drop_while_nil_iff in E. by rewrite E.
Qed.

(** [split_once(c)] *)
Fixpoint split_once (c : char) (s : str) : option (str * str) :=
  match s with
  | [] => None
  | x :: s' =>
    if N.eqb x c then Some ([], s')
    else match split_once c s' with Some (a, b) => Some (x :: a, b) | None => None end
  end.

(** [split_once(|c| p(c))] *)
Fixpoint split_once_by (p : char -> bool) (s : str) : option (str * str) :=
  match s with
  | [] => None
  | x :: s' =>
    if p x then Some ([], s')
    else match split_once_by p s' with Some (a, b) => Some (x :: a, b) | None => None end
  end.

(** [trim_matches(|c| p(c))] *)
Definition trim_matches (p : char -> bool) (s : str) : str :=
  reverse (drop_while p (reverse (drop_while p s))).

(** [split(|x| p(x))]: always at least one piece. *)
Fixpoint split_by (p : char -> bool) (s : str) : list str :=
  match s with
  | [] => [[]]
  | x :: s' =>
    if p x then [] :: split_by p s'
    else match split_by p s' with [] => [[x]] | w :: ws => (x :: w) :: ws end
  end.

Definition split (c : char) (s : str) : list str := split_by (N.eqb c) s.

(** [split_whitespace()]: the nonempty pieces between white space. *)
Definition split_whitespace (s : str) : list str :=
  List.filter (fun w => negb (is_empty w)) (split_by is_whitespace s).

(** [lines()]: the pieces between line feeds, without a final empty piece and
    without a carriage return before the line feed. *)
Definition strip_cr (l : str) : str :=
  match reverse l with
  | c :: r => if N.eqb c 13 then reverse r else l
  | [] => l
  end.

Definition drop_last_empty (pieces : list str) : list str :=
  match reverse pieces with [] :: r => reverse r | _ => pieces end.

(** The last piece is not terminated by a line feed, so a carriage return at
    its end is kept. *)
Fixpoint strip_cr_inner (pieces : list str) : list str :=
  match pieces with
  | [] => []
  | [l] => [l]
  | l :: rest => strip_cr l :: strip_cr_inner rest
  end.

Definition lines_of (s : str) : list str := drop_last_empty (strip_cr_inner (split_by (N.eqb newline) s)).

(** [join(sep)] *)
Fixpoint join (sep : str) (l : list str) : str :=
  match l with
  | [] => []
  | [x] => x
  | x :: l' => x ++ sep ++ join sep l'
  end.

Fixpoint strip_prefix (p s : str) : option str :=
  match p, s with
  | [], _ => Some s
  | x :: p', y :: s' => if N.eqb x y then strip_prefix p' s' else None
  | _ :: _, [] => None
  end.

Definition starts_with (p s : str) : bool :=
  match strip_prefix p s with Some _ => true | None => false end.

Definition strip_suffix (p s : str) : option str :=
  match strip_prefix (reverse p) (reverse s) with Some r => Some (reverse r) | None => None end.

Definition ends_with (p s : str) : bool :=
  match strip_suffix p s with Some _ => true | None => false end.

(** [contains(needle)] *)
Fixpoint contains (needle s : str) : bool :=
  starts_with needle s || match s with [] => false | _ :: s' => contains needle s' end.

Lemma strip_prefix_Some p s r : strip_prefix p s = Some r <-> s = p ++ r.
Proof.
  revert s; induction p as [|x p IH]; intros s; simpl.
  - split; congruence.
  - destruct s as [|y s]; [done|]. destruct (N.eqb x y) eqn:E.
    + apply N.eqb_eq in E as ->. rewrite IH. split; congruence.
    + apply N.eqb_neq in E. split; [done|]. by intros [= -> _].
Qed.

Lemma starts_with_spec p s : starts_with p s = true <-> exists r, s = p ++ r.
Proof.
  unfold starts_with. destruct (strip_prefix p s) as [r|] eqn:E.
  - apply strip_prefix_Some in E as ->. split; eauto.
  - split; [done|]. intros [r Hr]. apply strip_prefix_Some in Hr. congruence.
Qed.

Lemma contains_spec needle s : contains needle s = true <-> exists a b, s = a ++ needle ++ b.
Proof.
  induction s as [|x s IH].
  - simpl. rewrite orb_false_r, starts_with_spec. split.
    + intros [r Hr]. by exists [], r.
    + intros (a & b & E). destruct a; [|done]. by exists b.
  - simpl. rewrite orb_true_iff, IH, starts_with_spec. split.
    + intros [[r Hr]|(a & b & ->)]; [by exists [], r|by exists (x :: a), b].
    + intros ([|y a] & b & E); [left; by exists b|]. right. simplify_eq/=. by exists a, b.
Qed.

Lemma strip_suffix_Some p s r : strip_suffix p s = Some r <-> s = r ++ p.
Proof.
  unfold strip_suffix. destruct (strip_prefix (reverse p) (reverse s)) as [q|] eqn:E.
  - apply strip_prefix_Some in E. apply (f_equal reverse) in E.
    rewrite reverse_involutive, reverse_app, reverse_involutive in E. subst s.
    split; [by intros [= <-]|]. intros Hq. f_equal. by apply (app_inv_tail p).
  - split; [done|]. intros ->. rewrite reverse_app in E.
    assert (strip_prefix (reverse p) (reverse p ++ reverse r) = Some (reverse r)) as E'
      by (by apply strip_prefix_Some). congruence.
Qed.

Lemma split_once_app c a b :
  c ∉ a -> split_once c (a ++ c :: b) = Some (a, b).
Proof.
  induction a as [|x a IH]; simpl; intros Hc; [by rewrite N.eqb_refl|].
  apply not_elem_of_cons in Hc as [Hx Hc]. destruct (N.eqb x c) eqn:E.
  - apply N.eqb_eq in E. congruence.
  - by rewrite IH.
Qed.

Lemma split_once_None c s : c ∉ s -> split_once c s = None.
Proof.
  induction s as [|x s IH]; simpl; intros Hc; [done|].
  apply not_elem_of_cons in Hc as [Hx Hc]. destruct (N.eqb x c) eqn:E.
  - apply N.eqb_eq in E. congruence.
  - by rewrite IH.
Qed.

Lemma split_none c s : c ∉ s -> split c s = [s].
Proof.
  unfold split. induction s as [|x s IH]; simpl; intros Hc; [done|].
  apply not_elem_of_cons in Hc as [Hx Hc]. destruct (N.eqb c x) eqn:E.
  - apply N.eqb_eq in E. congruence.
  - by rewrite IH.
Qed.

Lemma split_app c a b : c ∉ a -> split c (a ++ c :: b) = a :: split c b.
Proof.
  unfold split. induction a as [|x a IH]; simpl; intros Hc; [by rewrite N.eqb_refl|].
  apply not_elem_of_cons in Hc as [Hx Hc]. destruct (N.eqb c x) eqn:E.
  - apply N.eqb_eq in E. congruence.
  - by rewrite IH.
Qed.

(** ** Integers in decimal *)

Definition digit_value (c : char) : Z := Z.of_N c - 48.
Definition digit_char (d : Z) : char := Z.to_N (d + 48).

(** [str::parse::<i64>()]: an optional sign and at least one ASCII digit;
    overflow is an error. *)
Definition digits_value (s : str) : Z := fold_left (fun acc c => acc * 10 + digit_value c) s 0.

Definition parse_digits (s : str) : option Z :=
  if negb (is_empty s) && forallb is_ascii_digit s then Some (digits_value s) else None.

Definition in_i64 (z : Z) : option Z := if I64.in_rangeb z then Some z else None.

Definition parse_i64 (s : str) : option Z :=
  match s with
  | c :: s' =>
    if N.eqb c (ch "+") then match parse_digits s' with Some v => in_i64 v | None => None end
    else if N.eqb c (ch "-") then match parse_digits s' with Some v => in_i64 (- v) | None => None end
    else match parse_digits s with Some v => in_i64 v | None => None end
  | [] => None
  end.

(** Decimal digits of a nonnegative number, least significant first. *)
Fixpoint dec_rev (fuel : nat) (z : Z) : str :=
  match fuel with
  | O => []
  | S f => if z <? 10 then [digit_char z] else digit_char (z mod 10) :: dec_rev f (z / 10)
  end.

Definition dec_fuel (z : Z) : nat := S (Z.to_nat (Z.log2 z)).
Definition dec_nonneg (z : Z) : str := reverse (dec_rev (dec_fuel z) z).

(** [format!("{z}")] *)
Definition dec (z : Z) : str := if z <? 0 then ch "-" :: dec_nonneg (- z) else dec_nonneg z.

(** [format!("{z:0w}")]: the sign counts toward the width. *)
Definition pad0 (w : nat) (s : str) : str := replicate (w - length s) (ch "0") ++ s.
Definition dec_pad (w : nat) (z : Z) : str :=
  if z <? 0 then ch "-" :: pad0 (w - 1) (dec_nonneg (- z)) else pad0 w (dec_nonneg z).

Lemma digit_char_value d : 0 <= d -> digit_value (digit_char d) = d.
Proof. unfold digit_value, digit_char. intros. rewrite Z2N.id; lia. Qed.

Lemma digit_char_is_digit d : 0 <= d < 10 -> is_ascii_digit (digit_char d) = true.
Proof. unfold is_ascii_digit, digit_char. intros. bool_prop. lia. Qed.

Lemma dec_rev_digits fuel z : 0 <= z -> Forall (fun c => is_ascii_digit c = true) (dec_rev fuel z).
Proof.
  revert z; induction fuel as [|f IH]; intros z Hz; simpl; [constructor|].
  destruct (z <? 10) eqn:E; bool_prop.
  - repeat constructor. apply digit_char_is_digit; lia.
  - constructor; [|by apply IH, Z.div_pos].
    apply digit_char_is_digit. apply Z.mod_pos_bound; lia.
Qed.

Lemma digits_value_snoc s c : digits_value (s ++ [c]) = digits_value s * 10 + digit_value c.
Proof. unfold digits_value. by rewrite fold_left_app. Qed.

Lemma digits_value_zeros n s : digits_value (replicate n (ch "0") ++ s) = digits_value s.
Proof. unfold digits_value. induction n as [|n IH]; simpl; done. Qed.

Lemma dec_rev_value fuel z :
  0 <= z < 2 ^ Z.of_nat fuel -> digits_value (reverse (dec_rev fuel z)) = z.
Proof.
  revert z; induction fuel as [|f IH]; intros z Hz.
  - simpl in *. change (2 ^ 0) with 1 in Hz. unfold digits_value; simpl. lia.
  - cbn [dec_rev]. destruct (z <? 10) eqn:E; bool_prop.
    + change (reverse [digit_char z]) with [digit_char z].
      unfold digits_value; simpl. rewrite digit_char_value; lia.
    + rewrite reverse_cons, digits_value_snoc, digit_char_value
        by (apply Z.mod_pos_bound; lia).
      rewrite IH; [rewrite (Z.div_mod z 10) at 3; lia|].
      rewrite Nat2Z.inj_succ, Z.pow_succ_r in Hz by lia.
      split; [apply Z.div_pos; lia|]. apply Z.div_lt_upper_bound; lia.
Qed.

Lemma dec_fuel_enough z : 0 <= z -> z < 2 ^ Z.of_nat (dec_fuel z).
Proof.
  intros Hz. unfold dec_fuel. rewrite Nat2Z.inj_succ, Z2Nat.id by apply Z.log2_nonneg.
  destruct (Z.eq_dec z 0) as [->|Hne]; [done|]. apply Z.log2_spec. lia.
Qed.

Lemma dec_nonneg_value z : 0 <= z -> digits_value (dec_nonneg z) = z.
Proof. intros Hz. apply dec_rev_value. split; [done|]. by apply dec_fuel_enough. Qed.

Lemma dec_nonneg_digits z : 0 <= z -> Forall (fun c => is_ascii_digit c = true) (dec_nonneg z).
Proof. intros. apply Forall_reverse. by apply dec_rev_digits. Qed.

Lemma dec_nonneg_nonempty z : dec_nonneg z <> [].
Proof.
  unfold dec_nonneg, dec_fuel. cbn [dec_rev]. destruct (z <? 10); [done|].
  rewrite reverse_cons. by destruct (reverse _).
Qed.

Lemma dec_inj a b : dec a = dec b -> a = b.
Proof.
  assert (minus : forall z s, 0 <= z -> dec_nonneg z = ch "-" :: s -> False).
  { intros z s Hz E; pose proof (dec_nonneg_digits z Hz) as digits; rewrite E in digits.
    apply Forall_cons_1 in digits as [digit _]; discriminate. }
  assert (value : forall x y, 0 <= x -> 0 <= y -> dec_nonneg x = dec_nonneg y -> x = y).
  { intros x y Hx Hy E; rewrite <- (dec_nonneg_value x Hx), <- (dec_nonneg_value y Hy); by rewrite E. }
  unfold dec; destruct (a <? 0) eqn:A, (b <? 0) eqn:B; bool_prop; intros E.
  - injection E as E; apply value in E; lia.
  - symmetry in E; by apply minus in E.
  - by apply minus in E.
  - by apply value in E.
Qed.

Lemma is_ascii_digit_elem c s :
  Forall (fun c => is_ascii_digit c = true) s -> is_ascii_digit c = false -> c ∉ s.
Proof. rewrite Forall_forall. intros Hs Hc Hin. rewrite Hs in Hc; done. Qed.

(** A zero-padded number reads back as itself. *)
Lemma dec_pad_digits w z : 0 <= z -> Forall (fun c => is_ascii_digit c = true) (dec_pad w z).
Proof.
  intros Hz. unfold dec_pad, pad0. destruct (z <? 0) eqn:E; bool_prop; [lia|].
  apply Forall_app. split; [|by apply dec_nonneg_digits].
  apply Forall_replicate. done.
Qed.

Lemma dec_pad_nonempty w z : dec_pad w z <> [].
Proof.
  unfold dec_pad, pad0. destruct (z <? 0); [done|].
  intros E. apply app_eq_nil in E as [_ E]. by apply dec_nonneg_nonempty in E.
Qed.

Lemma parse_digits_dec_pad w z : 0 <= z -> parse_digits (dec_pad w z) = Some z.
Proof.
  intros Hz. unfold parse_digits.
  rewrite (proj2 (is_empty_false _) (dec_pad_nonempty w z)).
  rewrite (proj2 (forallb_Forall _ _) (dec_pad_digits w z Hz)). simpl.
  unfold dec_pad, pad0. destruct (z <? 0) eqn:E; bool_prop; [lia|].
  by rewrite digits_value_zeros, dec_nonneg_value.
Qed.

Lemma parse_i64_dec_pad w z : 0 <= z -> I64.in_range z -> parse_i64 (dec_pad w z) = Some z.
Proof.
  intros Hz Hr. pose proof (dec_pad_digits w z Hz) as Hd.
  pose proof (parse_digits_dec_pad w z Hz) as Hp. unfold parse_i64.
  destruct (dec_pad w z) as [|c s] eqn:E; [by apply dec_pad_nonempty in E|].
  apply Forall_cons in Hd as [Hc _].
  destruct (N.eqb c (ch "+")) eqn:E1; [apply N.eqb_eq in E1 as ->; done|].
  destruct (N.eqb c (ch "-")) eqn:E2; [apply N.eqb_eq in E2 as ->; done|].
  rewrite Hp. unfold in_i64. by rewrite (proj2 (I64.in_rangeb_spec z) Hr).
Qed.

Lemma dec_pad_not_elem c w z : is_ascii_digit c = false -> 0 <= z -> c ∉ dec_pad w z.
Proof. intros Hc Hz. eapply is_ascii_digit_elem; [by apply dec_pad_digits|done]. Qed.

#[export] Hint Resolve dec_pad_not_elem : kioku.

(** ** Unicode tables

    The case mappings and the alphabetic and numeric classes of the Rust
    standard library are generated tables over all of Unicode, and [\w] is
    the regex crate's word class.  They are parameters; the laws are the
    documented behaviour the theorems rely on. *)
Class Unicode := {
  is_alphabetic : char -> bool;
  is_alphanumeric : char -> bool;
  is_uppercase : char -> bool;
  to_lowercase : str -> str;
  word_character : char -> bool
}.

(** The restriction of the tables to ASCII, for concrete evaluation. *)
Definition ascii_unicode : Unicode := {|
  is_alphabetic := is_ascii_alphabetic;
  is_alphanumeric := is_ascii_alphanumeric;
  is_uppercase := is_ascii_uppercase;
  to_lowercase := to_ascii_lowercase;
  word_character := fun c => is_ascii_alphanumeric c || N.eqb c (ch "_")
|}.

(** ** Byte offsets

    [split_at(n)] and the slices [s[..n]], [s[n..]] take byte offsets and
    panic off a character boundary; [None] is the failed boundary test. *)
Fixpoint split_at_bytes (n : Z) (s : str) : option (str * str) :=
  if n =? 0 then Some ([], s)
  else match s with
       | [] => None
       | c :: s' =>
         if n <? utf8_len c then None
         else match split_at_bytes (n - utf8_len c) s' with
              | Some (a, b) => Some (c :: a, b)
              | None => None
              end
       end.

Lemma split_at_bytes_Some n s a b :
  split_at_bytes n s = Some (a, b) -> s = a ++ b /\ byte_len a = n.
Proof.
  revert n a b; induction s as [|c s IH]; intros n a b; simpl.
  - destruct (n =? 0) eqn:E; bool_prop; [intros [= <- <-]; subst; done|done].
  - destruct (n =? 0) eqn:E; bool_prop; [intros [= <- <-]; subst; done|].
    destruct (n <? utf8_len c) eqn:E'; [done|].
    destruct (split_at_bytes _ s) as [[a' b']|] eqn:Es; [|done].
    intros [= <- <-]. apply IH in Es as [-> Hl]. simpl. split; [done|lia].
Qed.

Lemma byte_len_nonneg s : 0 <= byte_len s.
Proof. pose proof (byte_len_bounds s). unfold char_count in *. lia. Qed.

Lemma split_at_bytes_app a b : split_at_bytes (byte_len a) (a ++ b) = Some (a, b).
Proof.
  induction a as [|c a IH]; simpl.
  - by destruct b.
  - pose proof (utf8_len_pos c). pose proof (byte_len_nonneg a).
    destruct (_ =? 0) eqn:E; bool_prop; [lia|].
    destruct (_ <? _) eqn:E'; bool_prop; [lia|].
    replace (utf8_len c + byte_len a - utf8_len c) with (byte_len a) by lia. by rewrite IH.
Qed.

Lemma byte_len_ascii s : Forall (fun c => (c <? 0x80)%N = true) s -> byte_len s = char_count s.
Proof.
  unfold char_count. induction 1 as [|c s Hc Hs IH]; simpl; [done|].
  unfold utf8_len. rewrite Hc. lia.
Qed.

Lemma split_by_app (p : char -> bool) a c b :
  p c = true -> split_by p (a ++ c :: b) = split_by p a ++ split_by p b.
Proof.
  intros Hc. induction a as [|x a IH]; simpl; [by rewrite Hc|].
  destruct (p x); [by rewrite IH|]. rewrite IH.
  destruct (split_by p a) as [|w ws] eqn:E; [|done]. exfalso.
  destruct a as [|y a]; simpl in E; [done|]. destruct (p y); [done|]. by destruct (split_by p a).
Qed.
