(* ===== verification/F64.v ===== *)
(** * IEEE 754 binary64

    The code's [f64], as the executable specification floats of the Standard
    Library at precision 53 and maximal exponent 1024 (round to nearest,
    ties to even). *)
From Stdlib Require Import ZArith SpecFloat.
From S2P Require Import Prelude.
Local Open Scope Z_scope.

Definition f64 : Type := spec_float.

Definition f64_of_Z (z : Z) : f64 := binary_normalize 53 1024 z 0 false.
Definition f64_add : f64 -> f64 -> f64 := SFadd 53 1024.
Definition f64_sub : f64 -> f64 -> f64 := SFsub 53 1024.
Definition f64_mul : f64 -> f64 -> f64 := SFmul 53 1024.
Definition f64_div : f64 -> f64 -> f64 := SFdiv 53 1024.
Definition f64_ltb : f64 -> f64 -> bool := SFltb.
Definition f64_leb : f64 -> f64 -> bool := SFleb.
Definition f64_gtb (a b : f64) : bool := SFltb b a.
Definition f64_geb (a b : f64) : bool := SFleb b a.

(** A decimal literal [n/d]: correctly rounded division gives the nearest
    double, which is what the literal denotes. *)
Definition f64_lit (n d : Z) : f64 := f64_div (f64_of_Z n) (f64_of_Z d).

Definition f64_is_finite (x : f64) : bool :=
  match x with S754_zero _ | S754_finite _ _ _ => true | _ => false end.

(** [f64::total_cmp] compares the bit patterns, read as sign and magnitude:
    this is the integer it compares.  The one NaN is the positive quiet one. *)
Definition f64_magnitude_bits (x : f64) : Z :=
  match x with
  | S754_zero _ => 0
  | S754_infinity _ => 0x7FF * 2 ^ 52
  | S754_nan => 0x7FF * 2 ^ 52 + 2 ^ 51
  | S754_finite _ m e => if Zpos m <? 2 ^ 52 then Zpos m else (e + 1075) * 2 ^ 52 + (Zpos m - 2 ^ 52)
  end.

Definition f64_sign (x : f64) : bool :=
  match x with
  | S754_zero s | S754_infinity s | S754_finite s _ _ => s
  | S754_nan => false
  end.

Definition f64_total_key (x : f64) : Z :=
  if f64_sign x then - f64_magnitude_bits x - 1 else f64_magnitude_bits x.

(** [f64::max]: a NaN operand is ignored. *)
Definition f64_max (a b : f64) : f64 :=
  match a, b with
  | S754_nan, _ => b
  | _, S754_nan => a
  | _, _ => if f64_ltb a b then b else a
  end.

(** [x as i64]: truncation toward zero, saturating; NaN gives 0. *)
Definition f64_to_i64 (x : f64) : Z :=
  match x with
  | S754_zero _ | S754_nan => 0
  | S754_infinity s => if s then I64.min_value else I64.max_value
  | S754_finite s m e =>
    let magnitude := if 0 <=? e then Zpos m * 2 ^ e else Zpos m / 2 ^ (- e) in
    I64.clamp (if s then - magnitude else magnitude)
  end.

Lemma f64_to_i64_in_range x : I64.in_range (f64_to_i64 x).
Proof.
  destruct x as [s|s| |s m e]; simpl; try (unfold I64.in_range, I64.min_value, I64.max_value; lia).
  - destruct s; unfold I64.in_range, I64.min_value, I64.max_value; lia.
  - apply I64.clamp_in_range.
Qed.
