(* ===== verification/Errors.v ===== *)
(** * Errors

    [error.rs]: the error type every fallible operation returns.  The payloads
    of the variants that wrap a foreign error ([sqlx], [serde_json],
    [reqwest], [std::io]) are not inspected by the modelled code. *)
From Stdlib Require Import ZArith.
From S2P Require Import Prelude Text.

Inductive CaptureReferenceFailureReason :=
| CanonicalUnavailable
| ContextFingerprintMismatch
| TargetMismatch
| CanonicalContextUnavailable
| ContextTransition.

Inductive DeletionPendingReason := SoftDeleteRetention.

Record DeletionPending := {
  reason : DeletionPendingReason;
  retry_after_seconds : option Z;
  hard_delete_time : option str
}.

Inductive EnclaveError :=
| Crypto (message : str)
| Store (message : str)
| Kms (message : str)
| Gcs (message : str)
| Postgres
| Json
| Http
| Io
| Attestation (message : str)
| Auth (message : str)
| Embedding (message : str)
| Config (message : str)
| InvalidRequest (message : str)
| CaptureReference (reason : CaptureReferenceFailureReason)
| CaptureReferenceBatch (reason : CaptureReferenceFailureReason) (index sequence : Z)
| NotFound
| Conflict (message : str)
| SignupLimited
| DeletionPendingError (pending : DeletionPending).

(** [crate::error::Result] *)
Abbreviation res := (result EnclaveError).

(** [for_capture_reference_batch_item]: only a capture reference failure is
    given its position in the batch. *)
Definition for_capture_reference_batch_item (e : EnclaveError) (index sequence : Z) : EnclaveError :=
  match e with
  | CaptureReference reason => CaptureReferenceBatch reason index sequence
  | error => error
  end.

(** [if condition { return Err(error); }] *)
Definition refuse (condition : bool) (error : EnclaveError) : res unit :=
  if condition then Err error else Ok tt.

Lemma refuse_Ok condition error u : refuse condition error = Ok u <-> condition = false.
Proof. destruct u, condition; simpl; split; congruence. Qed.

Definition invalid (message : string) : EnclaveError := InvalidRequest (lit message).
Arguments invalid message%_string.

Lemma Ok_inj {E A} (a b : A) : Ok (E := E) a = Ok b -> a = b.
Proof. by injection 1. Qed.

(** Every step of an accepted sequence of checks succeeded. *)
Ltac all_ok :=
  repeat match goal with
         | H : result_bind _ _ = Ok _ |- _ => apply result_bind_Ok in H as (? & ? & H)
         | H : refuse _ _ = Ok _ |- _ => apply refuse_Ok in H
         | H : ok_or _ _ = Ok _ |- _ => apply ok_or_Ok in H
         | H : Ok _ = Ok _ |- _ => apply Ok_inj in H
         | H : negb _ = false |- _ => apply negb_false_iff in H
         | H : orb _ _ = false |- _ => apply orb_false_iff in H as [? ?]
         end.
