(* ===== verification/Bytes.v ===== *)
(** * Byte encodings

    Big-endian integers, UTF-8, and the length-prefixed encodings the program
    hashes.  A [PrefixCode] is an encoding that can be read back off the
    front of a longer message; a commitment whose message is a sequence of
    prefix codes determines every field it was made from, up to a collision
    of the digest. *)
From Stdlib Require Import ZArith Lia ZifyN.
From S2P Require Import Prelude Text Errors.
Local Open Scope Z_scope.
Local Open Scope kioku_scope.

Definition bytes : Type := list N.

(** A byte-string literal. *)
Definition blit (s : string) : bytes := lit s.
Arguments blit s%_string.

(** [to_be_bytes] at [w] bytes: two's complement, most significant first. *)
Fixpoint be_bytes (w : nat) (z : Z) : bytes :=
  match w with
  | O => []
  | S w => be_bytes w (z / 256) ++ [Z.to_N (z mod 256)]
  end.

Lemma be_bytes_length w z : length (be_bytes w z) = w.
Proof. revert z; induction w as [|w IH]; intros z; simpl; [done|]; rewrite length_app, IH; simpl; lia. Qed.

(** The big-endian value of a byte string. *)
Definition be_value (b : bytes) : Z := fold_left (fun acc x => acc * 256 + Z.of_N x) b 0.

Lemma be_value_snoc b x : be_value (b ++ [x]) = be_value b * 256 + Z.of_N x.
Proof. unfold be_value; by rewrite fold_left_app. Qed.

Lemma be_value_bytes w z : be_value (be_bytes w z) = z mod 256 ^ Z.of_nat w.
Proof.
  revert z; induction w as [|w IH]; intros z; [by rewrite Z.mod_1_r|].
  cbn [be_bytes]; rewrite be_value_snoc, IH.
  assert (0 <= z mod 256) by (apply Z.mod_pos_bound; lia).
  rewrite Z2N.id by done; rewrite Nat2Z.inj_succ, Z.pow_succ_r by lia.
  rewrite Z.rem_mul_r by lia; lia.
Qed.

Lemma be_bytes_inj_unsigned w a b :
  0 <= a < 256 ^ Z.of_nat w -> 0 <= b < 256 ^ Z.of_nat w -> be_bytes w a = be_bytes w b -> a = b.
Proof.
  intros Ha Hb E; apply (f_equal be_value) in E; rewrite !be_value_bytes in E.
  by rewrite !Z.mod_small in E.
Qed.

Lemma be_bytes_inj_i64 a b : I64.in_range a -> I64.in_range b -> be_bytes 8 a = be_bytes 8 b -> a = b.
Proof.
  unfold I64.in_range, I64.min_value, I64.max_value; intros Ha Hb E.
  apply (f_equal be_value) in E; rewrite !be_value_bytes in E.
  change (256 ^ Z.of_nat 8) with (2 ^ 64) in E; Z.div_mod_to_equations; lia.
Qed.

(** ** UTF-8 *)

Definition is_scalar (c : char) : Prop := (c < 0x110000)%N.

Lemma land_low n k : N.land n (N.ones k) = (n mod 2 ^ k)%N.
Proof. apply N.land_ones. Qed.

Ltac N_div_mod := zify; Z.div_mod_to_equations; lia.

Lemma utf8_decode_char c rest : is_scalar c -> utf8_decode (utf8_char c ++ rest) = c :: utf8_decode rest.
Proof.
  unfold is_scalar, utf8_char, cont; intros Hc.
  change 0x3F%N with (N.ones 6); rewrite !N.shiftr_div_pow2, !land_low.
  change (2 ^ 6)%N with 64%N; change (2 ^ 12)%N with 4096%N; change (2 ^ 18)%N with 262144%N.
  case_ifs; bool_prop; cbn [app utf8_decode]; unfold cont; change 0x3F%N with (N.ones 6);
    change 0x1F%N with (N.ones 5); change 0x0F%N with (N.ones 4); change 0x07%N with (N.ones 3);
    rewrite ?land_low; change (2 ^ 6)%N with 64%N; change (2 ^ 5)%N with 32%N;
    change (2 ^ 4)%N with 16%N; change (2 ^ 3)%N with 8%N; case_ifs; bool_prop;
    try (exfalso; N_div_mod); f_equal; N_div_mod.
Qed.

Lemma utf8_decode_encode s : Forall is_scalar s -> utf8_decode (as_bytes s) = s.
Proof.
  induction 1 as [|c s Hc _ IH]; [done|].
  by unfold as_bytes in *; cbn [mbind list_bind]; rewrite utf8_decode_char, IH.
Qed.

Lemma as_bytes_inj a b : Forall is_scalar a -> Forall is_scalar b -> as_bytes a = as_bytes b -> a = b.
Proof. intros Ha Hb E; apply (f_equal utf8_decode) in E; by rewrite !utf8_decode_encode in E. Qed.

Lemma as_bytes_length s : Z.of_nat (length (as_bytes s)) = byte_len s.
Proof.
  induction s as [|c s IH]; [done|].
  unfold as_bytes, byte_len in *; cbn [mbind list_bind foldr]; rewrite length_app, Nat2Z.inj_add, IH.
  f_equal; unfold utf8_char, utf8_len; case_ifs; bool_prop; cbn [length]; try lia; done.
Qed.

(** A test that refuses every byte above 127 tests a string's characters. *)
Lemma bytes_test_ascii (p : N -> bool) s :
  (forall b, (0x80 <= b)%N -> p b = false) -> forallb p (as_bytes s) = forallb p s.
Proof.
  intros high; induction s as [|c s IH]; [done|].
  unfold as_bytes in *; cbn [mbind list_bind forallb]; rewrite forallb_app, IH; f_equal.
  unfold utf8_char; case_ifs; bool_prop; cbn [forallb]; [by rewrite andb_true_r|..];
    rewrite (high c) by lia; rewrite high; [done|lia..].
Qed.

(** ** Prefix codes *)

Class PrefixCode {A} (wf : A -> Prop) (enc : A -> res bytes) : Prop :=
  prefix_code a b x y r s :
    wf a -> wf b -> enc a = Ok x -> enc b = Ok y -> x ++ r = y ++ s -> a = b /\ r = s.

(** An infallible encoding. *)
Definition code_pure {A} (f : A -> bytes) : A -> res bytes := fun a => Ok (f a).

(** One after the other. *)
Definition code_pair {A B} (f : A -> res bytes) (g : B -> res bytes) : A * B -> res bytes :=
  fun p => let? x := f p.1 in let? y := g p.2 in Ok (x ++ y).

(** [u8::from(is_some)], then the content. *)
Definition code_option {A} (f : A -> res bytes) (o : option A) : res bytes :=
  match o with
  | None => Ok [0%N]
  | Some a => let? x := f a in Ok (1%N :: x)
  end.

(** The items one after the other; their number comes first. *)
Fixpoint code_items {A} (f : A -> res bytes) (l : list A) : res bytes :=
  match l with
  | [] => Ok []
  | a :: l => let? x := f a in let? y := code_items f l in Ok (x ++ y)
  end.

Definition code_list {A} (count : Z -> res bytes) (f : A -> res bytes) (l : list A) : res bytes :=
  let? n := count (Z.of_nat (length l)) in
  let? items := code_items f l in
  Ok (n ++ items).

(** A text after its length in bytes. *)
Definition code_text (count : Z -> res bytes) (s : str) : res bytes :=
  let? n := count (byte_len s) in
  Ok (n ++ as_bytes s).

Definition any_wf {A} (_ : A) : Prop := True.
Definition option_wf {A} (P : A -> Prop) (o : option A) : Prop := match o with Some a => P a | None => True end.
Definition nonneg (z : Z) : Prop := 0 <= z.
Definition pair_wf {A B} (P : A -> Prop) (Q : B -> Prop) (p : A * B) : Prop := P p.1 /\ Q p.2.

#[export] Instance code_byte_bool : PrefixCode any_wf (code_pure (fun b : bool => [if b then 1%N else 0%N])).
Proof. intros a b x y r s _ _ [= <-] [= <-] [= E ->]; by destruct a, b. Qed.

#[export] Instance code_i64 : PrefixCode I64.in_range (code_pure (be_bytes 8)).
Proof.
  intros a b x y r s Ha Hb <-%Ok_inj <-%Ok_inj E.
  apply app_inj_1 in E as [E ->]; [|by rewrite !be_bytes_length].
  by apply be_bytes_inj_i64 in E as ->.
Qed.

#[export] Instance code_pair_prefix {A B} P Q (f : A -> res bytes) (g : B -> res bytes)
  `{!PrefixCode P f, !PrefixCode Q g} : PrefixCode (pair_wf P Q) (code_pair f g).
Proof.
  intros [a b] [a' b'] x y r s [Ha Hb] [Ha' Hb'] E E' H; cbn in *.
  apply result_bind_Ok in E as (u & Eu & E), E' as (u' & Eu' & E').
  apply result_bind_Ok in E as (v & Ev & [= <-]), E' as (v' & Ev' & [= <-]).
  rewrite <- !app_assoc in H.
  apply (prefix_code a a') in H as [-> H]; [|done..].
  by apply (prefix_code b b') in H as [-> ->].
Qed.

#[export] Instance code_option_prefix {A} P (f : A -> res bytes) `{!PrefixCode P f} :
  PrefixCode (option_wf P) (code_option f).
Proof.
  intros [a|] [b|] x y r s Ha Hb E E' H; cbn in *;
    try apply result_bind_Ok in E as (u & Eu & [= <-]); try apply result_bind_Ok in E' as (v & Ev & [= <-]);
    simplify_eq/=; [|done].
  by apply (prefix_code a b) in H as [-> ->].
Qed.

Lemma code_items_inj {A} P (f : A -> res bytes) `{!PrefixCode P f} l k x y r s :
  Forall P l -> Forall P k -> length l = length k ->
  code_items f l = Ok x -> code_items f k = Ok y -> x ++ r = y ++ s -> l = k /\ r = s.
Proof.
  intros Hl; revert k x y; induction Hl as [|a l Ha Hl IH]; intros [|b k] x y Hk L E E' H; try done.
  - cbn in *; by simplify_eq/=.
  - apply Forall_cons in Hk as [Hb Hk]; cbn in *.
    apply result_bind_Ok in E as (u & Eu & E), E' as (u' & Eu' & E').
    apply result_bind_Ok in E as (v & Ev & [= <-]), E' as (v' & Ev' & [= <-]).
    rewrite <- !app_assoc in H; apply (prefix_code a b) in H as [-> H]; [|done..].
    by destruct (IH k v v' Hk ltac:(cbn in L; congruence) Ev Ev' H) as [-> ->].
Qed.

#[export] Instance code_list_prefix {A} P (count : Z -> res bytes) (f : A -> res bytes)
  `{!PrefixCode nonneg count, !PrefixCode P f} : PrefixCode (Forall P) (code_list count f).
Proof.
  intros l k x y r s Hl Hk E E' H; unfold code_list in *.
  apply result_bind_Ok in E as (u & Eu & E), E' as (u' & Eu' & E').
  apply result_bind_Ok in E as (v & Ev & [= <-]), E' as (v' & Ev' & [= <-]).
  rewrite <- !app_assoc in H.
  apply (prefix_code (Z.of_nat (length l)) (Z.of_nat (length k))) in H as [L H]; [|unfold nonneg; lia|unfold nonneg; lia|done..].
  by apply (code_items_inj P f l k v v' r s Hl Hk (Nat2Z.inj _ _ L)).
Qed.

#[export] Instance code_text_prefix (count : Z -> res bytes) `{!PrefixCode nonneg count} :
  PrefixCode (Forall is_scalar) (code_text count).
Proof.
  intros a b x y r s Ha Hb E E' H; unfold code_text in *.
  apply result_bind_Ok in E as (u & Eu & [= <-]), E' as (v & Ev & [= <-]).
  rewrite <- !app_assoc in H.
  pose proof (byte_len_nonneg a); pose proof (byte_len_nonneg b).
  apply (prefix_code (byte_len a) (byte_len b)) in H as [L H]; [|done..].
  apply app_inj_1 in H as [H ->]; [|apply Nat2Z.inj; by rewrite !as_bytes_length].
  by apply as_bytes_inj in H as ->.
Qed.

(** An encoding of a record is one of its fields. *)
Lemma code_fields {A B} (P : A -> Prop) (Q : B -> Prop) (enc : A -> res bytes) (code : B -> res bytes)
    (fields : A -> B) :
  PrefixCode Q code -> (forall a x, enc a = Ok x -> code (fields a) = Ok x) -> (forall a, P a -> Q (fields a)) ->
  forall a b x y r s, P a -> P b -> enc a = Ok x -> enc b = Ok y -> x ++ r = y ++ s ->
  fields a = fields b /\ r = s.
Proof. intros C E W a b x y r s Ha Hb Ex Ey; eapply C; eauto. Qed.

(** [u32::try_from(n)], then its big-endian bytes; [too_large] otherwise. *)
Definition count_u32 (too_large : EnclaveError) (n : Z) : res bytes :=
  if n <? 2 ^ 32 then Ok (be_bytes 4 n) else Err too_large.

#[export] Instance count_u32_prefix e : PrefixCode nonneg (count_u32 e).
Proof.
  unfold count_u32, nonneg; intros a b x y r s Ha Hb; case_ifs; try done; intros <-%Ok_inj <-%Ok_inj E; bool_prop.
  apply app_inj_1 in E as [E ->]; [|by rewrite !be_bytes_length].
  by apply be_bytes_inj_unsigned in E as ->.
Qed.

(** ** Hexadecimal digests *)

Definition is_byte (b : N) : Prop := (b < 256)%N.

Lemma hex_digit_inj a b : (a < 16)%N -> (b < 16)%N -> hex_digit a = hex_digit b -> a = b.
Proof. unfold hex_digit; intros; revert select (_ = _); ifs_lia. Qed.

Lemma hex_of_bytes_inj a b : Forall is_byte a -> Forall is_byte b -> hex_of_bytes a = hex_of_bytes b -> a = b.
Proof.
  unfold is_byte; intros Ha; revert b; induction Ha as [|x a Hx Ha IH]; intros [|y b] Hb E; try done.
  apply Forall_cons in Hb as [Hy Hb]; unfold hex_of_bytes in *; cbn [mbind list_bind app] in E.
  injection E as E1 E2 E; f_equal; [|by apply IH].
  apply hex_digit_inj in E1; [|N_div_mod..]; apply hex_digit_inj in E2; [|N_div_mod..]; N_div_mod.
Qed.

Lemma hex_of_bytes_length b : length (hex_of_bytes b) = (2 * length b)%nat.
Proof. unfold hex_of_bytes; induction b as [|x b IH]; [done|]; cbn [mbind list_bind app length] in *; lia. Qed.
