(* ===== verification/Json.v ===== *)
(** * JSON values

    [serde_json::Value].  Objects are [BTreeMap]s (the crate does not enable
    [preserve_order]), so they are kept as key-sorted association lists, and
    a number is an unsigned, a negative or a floating one, as in serde_json.
    Parsing and printing belong to the library and are parameters where the
    program uses them. *)
From Stdlib Require Import ZArith Lia.
From S2P Require Import Prelude OrdMap Text F64.
Local Open Scope Z_scope.

Inductive Number := PosInt (n : Z) | NegInt (n : Z) | Float (x : f64).

#[local] Unset Elimination Schemes.
Inductive Value :=
| Null
| VBool (b : bool)
| VNumber (n : Number)
| VString (s : str)
| VArray (items : list Value)
| VObject (fields : list (str * Value)).
#[local] Set Elimination Schemes.

(** Induction through arrays and objects. *)
Section ValueInd.
Context (P : Value -> Prop).
Context (HNull : P Null) (HBool : forall b, P (VBool b)) (HNumber : forall n, P (VNumber n))
  (HString : forall s, P (VString s))
  (HArray : forall items, Forall P items -> P (VArray items))
  (HObject : forall fields, Forall (fun kv => P kv.2) fields -> P (VObject fields)).

Fixpoint value_ind (v : Value) : P v :=
  match v with
  | Null => HNull
  | VBool b => HBool b
  | VNumber n => HNumber n
  | VString s => HString s
  | VArray items =>
    HArray items ((fix go l : Forall P l :=
      match l with
      | [] => Forall_nil_2 P
      | x :: l' => Forall_cons_2 P x l' (value_ind x) (go l')
      end) items)
  | VObject fields =>
    HObject fields ((fix go (l : list (str * Value)) : Forall (fun kv => P kv.2) l :=
      match l with
      | [] => Forall_nil_2 (fun kv : str * Value => P kv.2)
      | x :: l' => Forall_cons_2 (fun kv : str * Value => P kv.2) x l' (value_ind x.2) (go l')
      end) fields)
  end.
End ValueInd.

(** ** Access, as [Value]'s methods *)

Definition get (key : str) (v : Value) : option Value :=
  match v with VObject fields => bget key fields | _ => None end.

(** [value[key]] on a shared value: [Null] when the key is absent. *)
Definition index (v : Value) (key : str) : Value := default Null (get key v).

Definition as_str (v : Value) : option str := match v with VString s => Some s | _ => None end.
Definition as_array (v : Value) : option (list Value) :=
  match v with VArray items => Some items | _ => None end.
Definition as_bool (v : Value) : option bool := match v with VBool b => Some b | _ => None end.
Definition is_string (v : Value) : bool := match v with VString _ => true | _ => false end.
Definition is_array (v : Value) : bool := match v with VArray _ => true | _ => false end.
Definition is_object (v : Value) : bool := match v with VObject _ => true | _ => false end.

(** [as_i64]: an integer that fits. *)
Definition as_i64 (v : Value) : option Z :=
  match v with
  | VNumber (PosInt n) => if n <=? I64.max_value then Some n else None
  | VNumber (NegInt n) => Some n
  | _ => None
  end.

(** [as_u64] *)
Definition as_u64 (v : Value) : option Z := match v with VNumber (PosInt n) => Some n | _ => None end.

(** [value.get(0)] on an array. *)
Definition get_index (i : nat) (v : Value) : option Value :=
  match v with VArray items => items !! i | _ => None end.

(** [value[key] = x] on an object: the key is inserted or replaced. *)
Definition set_field (key : str) (x v : Value) : Value :=
  match v with VObject fields => VObject (binsert key x fields) | _ => v end.

(** [json!({...})] *)
Definition object (fields : list (string * Value)) : Value :=
  VObject (bfrom_list ((fun kv => (lit kv.1, kv.2)) <$> fields)).

(** [Value::from] on integers, options and string lists *)
Definition of_Z (z : Z) : Value := VNumber (if 0 <=? z then PosInt z else NegInt z).
Definition of_option {A} (f : A -> Value) (o : option A) : Value :=
  match o with Some a => f a | None => Null end.
Definition of_strs (l : list str) : Value := VArray (VString <$> l).

(** [PartialEq]: numbers of different kinds differ, floats compare as
    floats. *)
Definition number_eqb (a b : Number) : bool :=
  match a, b with
  | PosInt x, PosInt y | NegInt x, NegInt y => x =? y
  | Float x, Float y => SpecFloat.SFeqb x y
  | _, _ => false
  end.

Fixpoint value_eqb (a b : Value) : bool :=
  match a, b with
  | Null, Null => true
  | VBool x, VBool y => Bool.eqb x y
  | VNumber x, VNumber y => number_eqb x y
  | VString x, VString y => str_eqb x y
  | VArray l, VArray k =>
    (fix go l k := match l, k with
                   | [], [] => true
                   | x :: l', y :: k' => value_eqb x y && go l' k'
                   | _, _ => false
                   end) l k
  | VObject l, VObject k =>
    (fix go (l k : list (str * Value)) :=
       match l, k with
       | [], [] => true
       | x :: l', y :: k' => str_eqb x.1 y.1 && value_eqb x.2 y.2 && go l' k'
       | _, _ => false
       end) l k
  | _, _ => false
  end.

(** Every object of a value has sorted, distinct keys: the representation
    invariant of [Map]. *)
Fixpoint value_wf (v : Value) : Prop :=
  match v with
  | VArray items => (fix go l := match l with [] => True | x :: l' => value_wf x /\ go l' end) items
  | VObject fields =>
    bwf fields
    /\ (fix go (l : list (str * Value)) := match l with [] => True | x :: l' => value_wf x.2 /\ go l' end) fields
  | _ => True
  end.

Lemma value_wf_array items : value_wf (VArray items) <-> Forall value_wf items.
Proof. simpl. induction items as [|x l IH]; [by split|]. rewrite Forall_cons, <- IH. done. Qed.

Lemma value_wf_object fields :
  value_wf (VObject fields) <-> bwf fields /\ Forall (fun kv => value_wf kv.2) fields.
Proof.
  simpl. apply and_iff_compat_l. induction fields as [|x l IH]; [by split|].
  rewrite Forall_cons, <- IH. done.
Qed.

(** ** Decoding, as serde's derived [Deserialize]

    A struct is read from an object with exactly the expected keys, or from
    an array of its fields in order; [deny_unknown_fields] refuses others. *)

Fixpoint sequence {A} (l : list (option A)) : option (list A) :=
  match l with
  | [] => Some []
  | Some x :: l' => match sequence l' with Some r => Some (x :: r) | None => None end
  | None :: _ => None
  end.

Definition struct_fields (names : list string) (v : Value) : option (list Value) :=
  match v with
  | VObject fields =>
    if forallb (fun kv => one_of kv.1 names) fields
    then sequence ((fun n => bget (lit n) fields) <$> names) else None
  | VArray items => if (length items =? length names)%nat then Some items else None
  | _ => None
  end.

Definition decode_list {A} (f : Value -> option A) (v : Value) : option (list A) :=
  match v with VArray items => sequence (f <$> items) | _ => None end.

Definition decode_strs : Value -> option (list str) := decode_list as_str.

(** [Option<T>]: null is [None]. *)
Definition decode_option {A} (f : Value -> option A) (v : Value) : option (option A) :=
  match v with Null => Some None | _ => match f v with Some x => Some (Some x) | None => None end end.

Lemma sequence_map_Some {A B} (f : A -> option B) (l : list A) (k : list B) :
  sequence (f <$> l) = Some k <-> Forall2 (fun x y => f x = Some y) l k.
Proof.
  revert k; induction l as [|x l IH]; intros k; rewrite ?fmap_cons, ?fmap_nil; cbn [sequence].
  - split; [intros E; injection E as <-; constructor|]. by intros ->%Forall2_nil_inv_l.
  - destruct (f x) as [y|] eqn:E.
    + destruct (sequence (f <$> l)) as [r|] eqn:Er.
      * split; [intros E'; injection E' as <-; constructor; [done|by apply IH]|].
        intros Hf. apply Forall2_cons_inv_l in Hf as (y' & k' & Hy & Hf & ->).
        apply IH in Hf. congruence.
      * split; [done|]. intros Hf. apply Forall2_cons_inv_l in Hf as (y' & k' & Hy & Hf & ->).
        apply IH in Hf. congruence.
    + split; [done|]. intros Hf. apply Forall2_cons_inv_l in Hf as (y' & k' & Hy & Hf & ->). congruence.
Qed.

Lemma sequence_map_inj {A B} (f : B -> option A) (g : A -> B) (l : list A) :
  (forall x, x ∈ l -> f (g x) = Some x) -> sequence (f <$> (g <$> l)) = Some l.
Proof.
  intros Hfg. induction l as [|x l IH]; [done|]. cbn. rewrite (Hfg x) by left.
  rewrite IH; [done|]. intros y Hy. apply Hfg. by right.
Qed.

Lemma decode_strs_of_strs l : decode_strs (of_strs l) = Some l.
Proof. unfold decode_strs, of_strs. simpl. by apply sequence_map_inj. Qed.
