(* ===== verification/IsoTime.v ===== *)
(** * RFC 3339 time arithmetic (src/src/cp/isotime.rs)

    Civil dates, parsing to epoch milliseconds and formatting back.  All
    intermediate integers of the parser are bounded by its field checks, so
    the wrap-around operators appear only in [add_seconds]. *)
From Stdlib Require Import ZArith Lia.
From S2P Require Import Prelude Text F64.
Local Open Scope Z_scope.

(** ** Civil dates *)

(** Rust's [/] on [i64] truncates toward zero. *)
Definition days_from_civil (y m d : Z) : Z :=
  let y := if m <=? 2 then y - 1 else y in
  let era := (if 0 <=? y then y else y - 399) ÷ 400 in
  let yoe := y - era * 400 in
  let doy := (153 * (if 2 <? m then m - 3 else m + 9) + 2) ÷ 5 + d - 1 in
  let doe := yoe * 365 + yoe ÷ 4 - yoe ÷ 100 + doy in
  era * 146097 + doe - 719468.

Definition civil_from_days (z : Z) : Z * Z * Z :=
  let z := z + 719468 in
  let era := (if 0 <=? z then z else z - 146096) ÷ 146097 in
  let doe := z - era * 146097 in
  let yoe := (doe - doe ÷ 1460 + doe ÷ 36524 - doe ÷ 146096) ÷ 365 in
  let y := yoe + era * 400 in
  let doy := doe - (365 * yoe + yoe ÷ 4 - yoe ÷ 100) in
  let mp := (5 * doy + 2) ÷ 153 in
  let d := doy - (153 * mp + 2) ÷ 5 + 1 in
  let m := if mp <? 10 then mp + 3 else mp - 9 in
  (if m <=? 2 then y + 1 else y, m, d).

(** ** Parsing *)

Definition contains_Z (lo hi z : Z) : bool := (lo <=? z) && (z <=? hi).

(** The part of the time before its offset, and the offset in seconds. *)
Definition parse_time_and_offset (time_part : str) : option (str * Z) :=
  match strip_suffix (lit "Z") time_part with
  | Some t => Some (t, 0)
  | None =>
    if 6 <=? byte_len time_part then
      match split_at_bytes (byte_len time_part - 6) time_part with
      | None => None
      | Some (rest, offset_str) =>
        match offset_str with
        | sign_byte :: digits =>
          if N.eqb sign_byte (ch "+") || N.eqb sign_byte (ch "-") then
            let parts := split (ch ":") digits in
            oh ← mbind parse_i64 (parts !! 0%nat);
            om ← mbind parse_i64 (parts !! 1%nat);
            if negb (contains_Z 0 23 oh) || negb (contains_Z 0 59 om) then None
            else
              let sign := if N.eqb sign_byte (ch "+") then 1 else -1 in
              Some (rest, sign * (oh * 3600 + om * 60))
          else Some (time_part, 0)
        | [] => Some (time_part, 0)
        end
      end
    else Some (time_part, 0)
  end.

(** Milliseconds from up to three fractional digits. *)
Definition fraction_millis (frac : str) : Z :=
  let digits := List.filter is_ascii_digit frac in
  let digit i := match digits !! i with Some b => digit_value b | None => 0 end in
  if is_empty frac then 0 else digit 0%nat * 100 + digit 1%nat * 10 + digit 2%nat.

Definition parse_epoch_millis (ts : str) : option Z :=
  '(date, time_part) ← split_once (ch "T") ts;
  '(time, offset_secs) ← parse_time_and_offset time_part;
  let dp := split (ch "-") date in
  y ← mbind parse_i64 (dp !! 0%nat);
  mo ← mbind parse_i64 (dp !! 1%nat);
  d ← mbind parse_i64 (dp !! 2%nat);
  if negb (contains_Z 1 9999 y) || negb (contains_Z 1 12 mo) || negb (contains_Z 1 31 d)
  then None
  else
    let '(hms, frac) :=
      match split_once (ch ".") time with Some (a, b) => (a, b) | None => (time, []) end in
    let tp := split (ch ":") hms in
    h ← mbind parse_i64 (tp !! 0%nat);
    mi ← mbind parse_i64 (tp !! 1%nat);
    s ← parse_i64 (default (lit "0") (tp !! 2%nat));
    if negb (contains_Z 0 24 h) || negb (contains_Z 0 59 mi) || negb (contains_Z 0 60 s)
    then None
    else
      let millis := fraction_millis frac in
      let days := days_from_civil y mo d in
      Some ((days * 86400 + h * 3600 + mi * 60 + s - offset_secs) * 1000 + millis).

(** ** Formatting

    [div_euclid] and [rem_euclid] by a positive number are floor division
    and modulo. *)
Definition civil_utc (epoch_millis : Z) : Z * Z * Z * Z * Z * Z :=
  let total_secs := epoch_millis / 1000 in
  let days := total_secs / 86400 in
  let sod := total_secs mod 86400 in
  let '(y, mo, d) := civil_from_days days in
  (y, mo, d, sod ÷ 3600, Z.rem sod 3600 ÷ 60, Z.rem sod 60).

(** The template [{y:04}-{mo:02}-{d:02}T{h:02}:{mi:02}:{s:02}.{millis:03}Z]. *)
Definition rfc3339_utc (y mo d h mi s millis : Z) : str :=
  (dec_pad 4 y ++ lit "-" ++ dec_pad 2 mo ++ lit "-" ++ dec_pad 2 d) ++ lit "T"
    ++ (dec_pad 2 h ++ lit ":" ++ dec_pad 2 mi ++ lit ":" ++ dec_pad 2 s)
    ++ lit "." ++ dec_pad 3 millis ++ lit "Z".

Definition format_epoch_millis (epoch_millis : Z) : str :=
  let total_secs := epoch_millis / 1000 in
  let millis := epoch_millis mod 1000 in
  let days := total_secs / 86400 in
  let sod := total_secs mod 86400 in
  let '(y, mo, d) := civil_from_days days in
  let '(h, mi, s) := (sod ÷ 3600, Z.rem sod 3600 ÷ 60, Z.rem sod 60) in
  rfc3339_utc y mo d h mi s millis.

Definition add_seconds (start : str) (secs : f64) : str :=
  match parse_epoch_millis start with
  | Some ms =>
    format_epoch_millis (I64.add ms (f64_to_i64 (f64_mul secs (f64_of_Z 1000))))
  | None => start
  end.

Definition normalize_to_utc (ts : str) : str :=
  match parse_epoch_millis ts with
  | Some ms => format_epoch_millis ms
  | None => ts
  end.

Example parse_known_epoch :
  parse_epoch_millis (lit "2000-01-01T00:00:00Z") = Some 946684800000.
Proof. reflexivity. Qed.

Example normalize_edt :
  normalize_to_utc (lit "2026-07-26T20:00:00-04:00") = lit "2026-07-27T00:00:00.000Z".
Proof. vm_compute. reflexivity. Qed.

Example add_crosses_day :
  add_seconds (lit "2026-06-09T23:59:59.000Z") (f64_of_Z 2) = lit "2026-06-10T00:00:01.000Z".
Proof. vm_compute. reflexivity. Qed.

Example add_fraction :
  add_seconds (lit "2026-06-09T20:00:00.000Z") (f64_lit 2514 10) = lit "2026-06-09T20:04:11.400Z".
Proof. vm_compute. reflexivity. Qed.

(** ** The civil calendar *)

Ltac div_lia := Z.to_euclidean_division_equations; lia.

(** The code's truncating division, applied to an adjusted numerator, is
    floor division. *)
Lemma quot_adjusted_floor a d k :
  0 < d -> k = d - 1 -> (if 0 <=? a then a else a - k) ÷ d = a / d.
Proof. intros Hd ->. destruct (0 <=? a) eqn:E; bool_prop; Z.to_euclidean_division_equations; nia. Qed.

(** One 400-year era: the year of the era, and the day of its year. *)
Lemma era_year doe :
  0 <= doe < 146097 ->
  let yoe := (doe - doe ÷ 1460 + doe ÷ 36524 - doe ÷ 146096) ÷ 365 in
  0 <= yoe <= 399 /\ 0 <= doe - (365 * yoe + yoe ÷ 4 - yoe ÷ 100) <= 365.
Proof. cbv zeta. intros H. repeat split; div_lia. Qed.

(** The month table, from days counted since 1 March. *)
Lemma year_month doy :
  0 <= doy <= 365 ->
  let mp := (5 * doy + 2) ÷ 153 in
  0 <= mp <= 11 /\ 1 <= doy - (153 * mp + 2) ÷ 5 + 1 <= 31.
Proof. cbv zeta. intros H. repeat split; div_lia. Qed.

Lemma civil_from_days_fields z y m d :
  civil_from_days z = (y, m, d) -> 1 <= m <= 12 /\ 1 <= d <= 31.
Proof.
  unfold civil_from_days. rewrite (quot_adjusted_floor (z + 719468) 146097 146096) by lia.
  set (doe := z + 719468 - (z + 719468) / 146097 * 146097).
  assert (0 <= doe < 146097) as Hdoe by (subst doe; div_lia).
  pose proof (era_year doe Hdoe) as Hy. cbv zeta in Hy. destruct Hy as [_ Hdoy].
  pose proof (year_month _ Hdoy) as Hm. cbv zeta in Hm. destruct Hm as [Hmp Hd].
  cbv zeta. intros [= <- <- <-]. split; [|exact Hd]. ifs_lia.
Qed.

Lemma days_from_civil_from_days z y m d :
  civil_from_days z = (y, m, d) -> days_from_civil y m d = z.
Proof.
  unfold civil_from_days. rewrite (quot_adjusted_floor (z + 719468) 146097 146096) by lia.
  set (era := (z + 719468) / 146097).
  set (doe := z + 719468 - era * 146097).
  assert (0 <= doe < 146097) as Hdoe by (subst doe era; div_lia).
  pose proof (era_year doe Hdoe) as Hy. cbv zeta in Hy |- *.
  set (yoe := (doe - doe ÷ 1460 + doe ÷ 36524 - doe ÷ 146096) ÷ 365) in *.
  destruct Hy as [Hyoe Hdoy]. set (doy := doe - (365 * yoe + yoe ÷ 4 - yoe ÷ 100)) in *.
  pose proof (year_month doy Hdoy) as Hm. cbv zeta in Hm. destruct Hm as [Hmp _].
  set (mp := (5 * doy + 2) ÷ 153) in *. intros [= <- <- <-].
  unfold days_from_civil.
  assert ((if (if mp <? 10 then mp + 3 else mp - 9) <=? 2
           then (if (if mp <? 10 then mp + 3 else mp - 9) <=? 2
                 then yoe + era * 400 + 1 else yoe + era * 400) - 1
           else (if (if mp <? 10 then mp + 3 else mp - 9) <=? 2
                 then yoe + era * 400 + 1 else yoe + era * 400)) = yoe + era * 400) as ->
    by ifs_lia.
  assert ((if 2 <? (if mp <? 10 then mp + 3 else mp - 9)
           then (if mp <? 10 then mp + 3 else mp - 9) - 3
           else (if mp <? 10 then mp + 3 else mp - 9) + 9) = mp) as -> by ifs_lia.
  rewrite (quot_adjusted_floor (yoe + era * 400) 400 399) by lia.
  assert ((yoe + era * 400) / 400 = era) as -> by div_lia.
  cbv zeta. replace (yoe + era * 400 - era * 400) with yoe by lia.
  subst doy doe. lia.
Qed.

(** The length of a month in the proleptic Gregorian calendar. *)
Definition is_leap (y : Z) : bool :=
  (y mod 4 =? 0) && (negb (y mod 100 =? 0) || (y mod 400 =? 0)).
Definition month_length (y m : Z) : Z :=
  if m =? 2 then (if is_leap y then 29 else 28)
  else if (m =? 4) || (m =? 6) || (m =? 9) || (m =? 11) then 30 else 31.
Definition valid_date (y m d : Z) : Prop := 1 <= m <= 12 /\ 1 <= d <= month_length y m.

(** The day of an era is recovered from a year of the era and a day that
    exists in it. *)
Lemma era_year_unique yoe doy :
  0 <= yoe <= 399 -> 0 <= doy <= 365 ->
  (doy = 365 -> is_leap (yoe + 1) = true) ->
  let doe := yoe * 365 + yoe ÷ 4 - yoe ÷ 100 + doy in
  0 <= doe < 146097 /\ (doe - doe ÷ 1460 + doe ÷ 36524 - doe ÷ 146096) ÷ 365 = yoe.
Proof.
  cbv zeta. intros Hy Hd Hleap.
  assert (doy = 365 -> (yoe + 1) mod 4 = 0 /\ ((yoe + 1) mod 100 <> 0 \/ (yoe + 1) mod 400 = 0)) as Hl.
  { intros E. specialize (Hleap E). unfold is_leap in Hleap. bool_prop. tauto. }
  clear Hleap. destruct (Z.eq_dec doy 365) as [->|Hne].
  - specialize (Hl eq_refl). split; div_lia.
  - clear Hl. split; div_lia.
Qed.

Lemma is_leap_era era yoe : is_leap (yoe + era * 400 + 1) = is_leap (yoe + 1).
Proof.
  unfold is_leap. replace (yoe + era * 400 + 1) with (yoe + 1 + era * 4 * 100) by lia.
  rewrite Z.mod_add by lia. replace (yoe + 1 + era * 4 * 100) with (yoe + 1 + era * 100 * 4) by lia.
  rewrite Z.mod_add by lia. replace (yoe + 1 + era * 100 * 4) with (yoe + 1 + era * 400) by lia.
  by rewrite Z.mod_add by lia.
Qed.

(** Day of the year since 1 March, and its inverse. *)
Lemma year_month_unique m d leap :
  1 <= m <= 12 ->
  1 <= d <= (if m =? 2 then (if leap : bool then 29 else 28)
             else if (m =? 4) || (m =? 6) || (m =? 9) || (m =? 11) then 30 else 31) ->
  let mp := if 2 <? m then m - 3 else m + 9 in
  let doy := (153 * mp + 2) ÷ 5 + d - 1 in
  0 <= doy <= 365 /\ (doy = 365 -> m <= 2 /\ leap = true)
  /\ (5 * doy + 2) ÷ 153 = mp /\ doy - (153 * mp + 2) ÷ 5 + 1 = d.
Proof.
  cbv zeta. intros Hm Hd.
  assert (m = 1 \/ m = 2 \/ m = 3 \/ m = 4 \/ m = 5 \/ m = 6 \/ m = 7 \/ m = 8 \/ m = 9
          \/ m = 10 \/ m = 11 \/ m = 12) as Hc by lia.
  destruct leap; repeat (destruct Hc as [->|Hc]); try subst m; simpl in *;
    repeat split; try lia; div_lia.
Qed.

Lemma civil_of_days_from_civil y m d :
  valid_date y m d -> civil_from_days (days_from_civil y m d) = (y, m, d).
Proof.
  intros [Hm Hd]. unfold month_length in Hd.
  pose proof (year_month_unique m d (is_leap y) Hm Hd) as Hym. cbv zeta in Hym.
  unfold days_from_civil.
  set (y1 := if m <=? 2 then y - 1 else y).
  rewrite (quot_adjusted_floor y1 400 399) by lia.
  set (era := y1 / 400). set (yoe := y1 - era * 400).
  set (mp := if 2 <? m then m - 3 else m + 9) in *.
  set (doy := (153 * mp + 2) ÷ 5 + d - 1) in *.
  destruct Hym as (Hdoy & Hlast & Hmp & Hday).
  assert (0 <= yoe <= 399) as Hyoe by (subst yoe era; div_lia).
  assert (doy = 365 -> is_leap (yoe + 1) = true) as Hleap.
  { intros E. destruct (Hlast E) as [Hm2 Hl]. rewrite <- (is_leap_era era yoe). rewrite <- Hl.
    f_equal. subst yoe y1. ifs_lia. }
  pose proof (era_year_unique yoe doy Hyoe Hdoy Hleap) as Hera. cbv zeta in Hera.
  set (doe := yoe * 365 + yoe ÷ 4 - yoe ÷ 100 + doy) in *. destruct Hera as [Hdoe Hinv].
  unfold civil_from_days. cbv zeta.
  replace (era * 146097 + doe - 719468 + 719468) with (era * 146097 + doe) by lia.
  rewrite (quot_adjusted_floor (era * 146097 + doe) 146097 146096) by lia.
  assert ((era * 146097 + doe) / 146097 = era) as -> by div_lia.
  replace (era * 146097 + doe - era * 146097) with doe by lia. rewrite Hinv.
  replace (doe - (365 * yoe + yoe ÷ 4 - yoe ÷ 100)) with doy by (subst doe; lia).
  rewrite Hmp, Hday.
  assert ((if mp <? 10 then mp + 3 else mp - 9) = m) as -> by (subst mp; ifs_lia).
  f_equal. f_equal. subst yoe y1. ifs_lia.
Qed.

(** Days and civil years that bound each other: a day number lies in the
    years its civil date names. *)
Lemma days_from_civil_year_bounds y m d :
  1 <= m <= 12 -> 1 <= d <= 31 -> 1 <= y <= 9999 ->
  -719162 <= days_from_civil y m d <= 2932896.
Proof.
  intros Hm Hd Hy. unfold days_from_civil.
  set (y1 := if m <=? 2 then y - 1 else y).
  set (mp := if 2 <? m then m - 3 else m + 9).
  assert (0 <= y1 <= 9999 /\ 0 <= mp <= 11 /\ (y1 = 0 -> 10 <= mp) /\ (y1 = 9999 -> mp <= 9))
    as (Hy1 & Hmp & Hlow & Hhigh) by (subst y1 mp; ifs_lia).
  rewrite (quot_adjusted_floor y1 400 399) by lia. clearbody y1 mp.
  set (era := y1 / 400). assert (0 <= era <= 24) as Hera by (subst era; div_lia).
  set (yoe := y1 - era * 400). assert (0 <= yoe <= 399) as Hyoe by (subst yoe era; div_lia).
  set (doy := (153 * mp + 2) ÷ 5 + d - 1).
  assert (0 <= doy <= 367 /\ (10 <= mp -> 306 <= doy) /\ (mp <= 9 -> doy <= 305))
    as (Hdoy & Hd1 & Hd2) by (subst doy; clear - Hmp Hd; repeat split; div_lia).
  assert (y1 = yoe + era * 400) as Hy1' by (subst yoe; lia). clearbody yoe doy era.
  cbv zeta.
  assert (yoe = 0 \/ 1 <= yoe) as Hc by lia. assert (yoe = 399 \/ yoe <= 398) as Hc' by lia.
  split.
  - destruct Hc as [->|Hc]; [change (0 ÷ 4) with 0; change (0 ÷ 100) with 0; lia|].
    assert (0 <= yoe ÷ 4 - yoe ÷ 100) by div_lia. lia.
  - destruct Hc' as [->|Hc'']; [change (399 ÷ 4) with 99; change (399 ÷ 100) with 3; lia|].
    assert (yoe ÷ 4 - yoe ÷ 100 <= 96) by (clear - Hyoe Hc''; div_lia). lia.
Qed.

Lemma civil_from_days_year_range z :
  -719162 <= z <= 2932896 ->
  match civil_from_days z with (y, _, _) => 1 <= y <= 9999 end.
Proof.
  intros Hz. destruct (civil_from_days z) as [[y m] d] eqn:E.
  unfold civil_from_days in E. rewrite (quot_adjusted_floor (z + 719468) 146097 146096) in E by lia.
  set (era := (z + 719468) / 146097) in *.
  set (doe := z + 719468 - era * 146097) in *.
  assert (0 <= doe < 146097) as Hdoe by (subst doe era; div_lia).
  pose proof (era_year doe Hdoe) as Hy. cbv zeta in Hy, E.
  set (yoe := (doe - doe ÷ 1460 + doe ÷ 36524 - doe ÷ 146096) ÷ 365) in *.
  destruct Hy as [Hyoe Hdoy]. set (doy := doe - (365 * yoe + yoe ÷ 4 - yoe ÷ 100)) in *.
  pose proof (year_month doy Hdoy) as Hm. cbv zeta in Hm. destruct Hm as [Hmp _].
  set (mp := (5 * doy + 2) ÷ 153) in *. injection E as <- <- <-.
  assert (0 <= era <= 24) as Hera by (subst era; div_lia).
  assert (z = era * 146097 + (365 * yoe + yoe ÷ 4 - yoe ÷ 100) + doy - 719468) as Hzz
    by (subst doy doe; lia).
  clearbody doe yoe doy era.
  assert (mp <= 9 -> doy <= 305) as H1 by (subst mp; clear - Hdoy; div_lia).
  assert (10 <= mp -> 306 <= doy) as H2 by (subst mp; clear - Hdoy; div_lia).
  clearbody mp.
  assert (yoe + era * 400 = 0 -> era = 0 /\ yoe = 0) as H3 by lia.
  assert (yoe + era * 400 >= 9999 -> era = 24 /\ yoe = 399) as H4 by lia.
  assert (yoe + era * 400 = 0 -> doy - 719468 = z) as H5.
  { intros E. destruct (H3 E) as [-> ->]. rewrite Hzz. reflexivity. }
  assert (yoe + era * 400 >= 9999 -> 2932591 + doy = z) as H6.
  { intros E. destruct (H4 E) as [-> ->]. rewrite Hzz. change (399 ÷ 4) with 99.
    change (399 ÷ 100) with 3. lia. }
  clear Hzz H3 H4. destruct (mp <? 10) eqn:E10; case_ifs; bool_prop; lia.
Qed.

(** ** Parsing what was formatted *)

Lemma fraction_millis_dec_pad z : 0 <= z < 1000 -> fraction_millis (dec_pad 3 z) = z.
Proof.
  intros Hz.
  assert (forallb (fun n => fraction_millis (dec_pad 3 n) =? n) (seqZ 0 1000) = true) as Hall
    by (vm_compute; reflexivity).
  rewrite forallb_Forall, Forall_forall in Hall. apply Z.eqb_eq, Hall, elem_of_seqZ. lia.
Qed.

Lemma not_digit_not_elem c w z : is_ascii_digit (ch c) = false -> 0 <= z -> ch c ∉ dec_pad w z.
Proof. apply dec_pad_not_elem. Qed.

Ltac no_char :=
  rewrite ?not_elem_of_app, ?not_elem_of_cons; repeat split;
  first [apply not_digit_not_elem; [reflexivity|lia]
        | refine (bool_decide_eq_false_1 _ _); reflexivity].

Lemma split_date y mo d :
  0 <= y -> 0 <= mo -> 0 <= d ->
  split (ch "-") (dec_pad 4 y ++ lit "-" ++ dec_pad 2 mo ++ lit "-" ++ dec_pad 2 d)
  = [dec_pad 4 y; dec_pad 2 mo; dec_pad 2 d].
Proof.
  intros. change (lit "-") with [ch "-"]. simpl ([_] ++ _).
  rewrite !split_app by no_char. by rewrite split_none by no_char.
Qed.

Lemma split_time h mi s :
  0 <= h -> 0 <= mi -> 0 <= s ->
  split (ch ":") (dec_pad 2 h ++ lit ":" ++ dec_pad 2 mi ++ lit ":" ++ dec_pad 2 s)
  = [dec_pad 2 h; dec_pad 2 mi; dec_pad 2 s].
Proof.
  intros. change (lit ":") with [ch ":"]. simpl ([_] ++ _).
  rewrite !split_app by no_char. by rewrite split_none by no_char.
Qed.

Lemma parse_small w z : 0 <= z <= 9999 -> parse_i64 (dec_pad w z) = Some z.
Proof. intros. apply parse_i64_dec_pad; [lia|]. unfold I64.in_range, I64.min_value, I64.max_value. lia. Qed.

Lemma contains_Z_true lo hi z : lo <= z <= hi -> contains_Z lo hi z = true.
Proof. unfold contains_Z. intros. bool_prop. lia. Qed.

Ltac step := cbn [mbind option_bind lookup list_lookup negb orb default from_option id].

(** Every well-formed UTC timestamp reads back field by field. *)
Lemma parse_rfc3339_utc y mo d h mi s millis :
  1 <= y <= 9999 -> 1 <= mo <= 12 -> 1 <= d <= 31 ->
  0 <= h <= 24 -> 0 <= mi <= 59 -> 0 <= s <= 60 -> 0 <= millis < 1000 ->
  parse_epoch_millis (rfc3339_utc y mo d h mi s millis)
  = Some ((days_from_civil y mo d * 86400 + h * 3600 + mi * 60 + s) * 1000 + millis).
Proof.
  intros Hy Hmo Hd Hh Hmi Hs Hms. unfold parse_epoch_millis, rfc3339_utc.
  set (date := dec_pad 4 y ++ lit "-" ++ dec_pad 2 mo ++ lit "-" ++ dec_pad 2 d).
  set (time := dec_pad 2 h ++ lit ":" ++ dec_pad 2 mi ++ lit ":" ++ dec_pad 2 s).
  change (lit "T" ++ time ++ lit "." ++ dec_pad 3 millis ++ lit "Z")
    with (ch "T" :: time ++ lit "." ++ dec_pad 3 millis ++ lit "Z").
  rewrite split_once_app by (subst date; no_char). step.
  assert (parse_time_and_offset (time ++ lit "." ++ dec_pad 3 millis ++ lit "Z")
          = Some (time ++ lit "." ++ dec_pad 3 millis, 0)) as Hoff.
  { unfold parse_time_and_offset.
    assert (strip_suffix (lit "Z") (time ++ lit "." ++ dec_pad 3 millis ++ lit "Z")
            = Some (time ++ lit "." ++ dec_pad 3 millis)) as ->; [|done].
    apply strip_suffix_Some. by rewrite <- !app_assoc. }
  rewrite Hoff. step. subst date. rewrite split_date by lia. step.
  rewrite !parse_small by lia. step.
  rewrite !contains_Z_true by lia. step.
  change (lit "." ++ dec_pad 3 millis) with (ch "." :: dec_pad 3 millis).
  rewrite split_once_app by (subst time; no_char).
  subst time. rewrite split_time by lia. step.
  rewrite !parse_small by lia. step. rewrite !contains_Z_true by lia. step.
  rewrite fraction_millis_dec_pad by lia. f_equal. lia.
Qed.

(** The fields that [format_epoch_millis] prints. *)
Lemma time_fields sod :
  0 <= sod < 86400 ->
  0 <= sod ÷ 3600 <= 23 /\ 0 <= Z.rem sod 3600 ÷ 60 <= 59 /\ 0 <= Z.rem sod 60 <= 59
  /\ (sod ÷ 3600) * 3600 + (Z.rem sod 3600 ÷ 60) * 60 + Z.rem sod 60 = sod.
Proof. intros. repeat split; div_lia. Qed.

(** Milliseconds since the epoch of 0001-01-01 and of the end of 9999. *)
Definition min_formatted_millis : Z := -62135596800000.
Definition max_formatted_millis : Z := 253402300799999.

Lemma parse_format ms :
  min_formatted_millis <= ms <= max_formatted_millis ->
  parse_epoch_millis (format_epoch_millis ms) = Some ms.
Proof.
  unfold min_formatted_millis, max_formatted_millis. intros Hms. unfold format_epoch_millis.
  set (total := ms / 1000). set (days := total / 86400).
  assert (-719162 <= days <= 2932896) as Hdays by (subst days total; div_lia).
  pose proof (civil_from_days_year_range days Hdays) as Hy.
  destruct (civil_from_days days) as [[y m] d] eqn:Ec.
  pose proof (civil_from_days_fields _ _ _ _ Ec) as [Hm Hd].
  pose proof (days_from_civil_from_days _ _ _ _ Ec) as Hinv.
  pose proof (time_fields (total mod 86400) ltac:(subst total; div_lia)) as (Hh & Hmi & Hs & Hsum).
  rewrite parse_rfc3339_utc by (try lia; subst total; div_lia).
  rewrite Hinv. f_equal.
  transitivity ((days * 86400 + total mod 86400) * 1000 + ms mod 1000); [lia|].
  subst days total. div_lia.
Qed.

(** ** Bounds of the parser *)

Lemma contains_Z_spec lo hi z : contains_Z lo hi z = true <-> lo <= z <= hi.
Proof. unfold contains_Z. bool_prop. tauto. Qed.

Lemma bind_Some_inv {A B} (o : option A) (f : A -> option B) b :
  mbind f o = Some b -> exists a, o = Some a /\ f a = Some b.
Proof. destruct o as [a|]; [eauto|done]. Qed.

Ltac bind_inv H :=
  apply bind_Some_inv in H; destruct H as (? & ? & H).

Lemma parse_offset_bounds t rest off :
  parse_time_and_offset t = Some (rest, off) -> -86340 <= off <= 86340.
Proof.
  unfold parse_time_and_offset. intros H.
  destruct (strip_suffix _ t); [injection H as _ <-; lia|].
  destruct (6 <=? _); [|injection H as _ <-; lia].
  destruct (split_at_bytes _ t) as [[r o]|]; [|done].
  destruct o as [|sb ds]; [injection H as _ <-; lia|].
  destruct (_ || _); [|injection H as _ <-; lia].
  bind_inv H. bind_inv H.
  destruct (contains_Z 0 23 _) eqn:E1, (contains_Z 0 59 _) eqn:E2; simpl in H; try done.
  apply contains_Z_spec in E1, E2. injection H as _ <-. destruct (N.eqb _ _); lia.
Qed.

Lemma digit_value_bounds c : is_ascii_digit c = true -> 0 <= digit_value c <= 9.
Proof. unfold is_ascii_digit, digit_value. bool_prop. lia. Qed.

Lemma fraction_millis_bounds frac : 0 <= fraction_millis frac <= 999.
Proof.
  unfold fraction_millis. destruct (is_empty frac); [lia|].
  set (digits := List.filter is_ascii_digit frac).
  assert (forall i, 0 <= match digits !! i with Some b => digit_value b | None => 0 end <= 9) as Hd.
  { intros i. destruct (digits !! i) as [b|] eqn:E; [|lia]. apply digit_value_bounds.
    apply list_elem_of_lookup_2, list_elem_of_In, filter_In in E. tauto. }
  pose proof (Hd 0%nat). pose proof (Hd 1%nat). pose proof (Hd 2%nat). lia.
Qed.

(** What a successful parse has checked, and the value it returns. *)
Lemma parse_epoch_millis_inv ts ms :
  parse_epoch_millis ts = Some ms ->
  exists y mo d h mi s off frac,
    1 <= y <= 9999 /\ 1 <= mo <= 12 /\ 1 <= d <= 31 /\ 0 <= h <= 24 /\ 0 <= mi <= 59
    /\ 0 <= s <= 60 /\ -86340 <= off <= 86340 /\ 0 <= frac <= 999
    /\ ms = (days_from_civil y mo d * 86400 + h * 3600 + mi * 60 + s - off) * 1000 + frac.
Proof.
  unfold parse_epoch_millis. intros H. bind_inv H. destruct x as [date tp].
  bind_inv H. destruct x as [time off]. bind_inv H. bind_inv H. bind_inv H.
  destruct (contains_Z 1 9999 x) eqn:E1, (contains_Z 1 12 x0) eqn:E2, (contains_Z 1 31 x1) eqn:E3;
    simpl in H; try done.
  destruct (match split_once _ time with Some (a, b) => (a, b) | None => _ end) as [hms frac].
  bind_inv H. bind_inv H. bind_inv H.
  destruct (contains_Z 0 24 x2) eqn:E4, (contains_Z 0 59 x3) eqn:E5, (contains_Z 0 60 x4) eqn:E6;
    simpl in H; try done.
  apply contains_Z_spec in E1, E2, E3, E4, E5, E6.
  pose proof (parse_offset_bounds _ _ _ H1). pose proof (fraction_millis_bounds frac).
  injection H as <-. exists x, x0, x1, x2, x3, x4, off, (fraction_millis frac). repeat split; lia.
Qed.

Lemma parse_epoch_millis_bounds ts ms :
  parse_epoch_millis ts = Some ms ->
  min_formatted_millis - 86340000 <= ms <= max_formatted_millis + 176401000.
Proof.
  intros H. apply parse_epoch_millis_inv in H as (y & mo & d & h & mi & s & off & fr & H).
  destruct H as (Hy & Hmo & Hd & Hh & Hmi & Hs & Ho & Hf & ->).
  pose proof (days_from_civil_year_bounds y mo d Hmo Hd Hy).
  unfold min_formatted_millis, max_formatted_millis. lia.
Qed.

(** ** Normalisation *)

Lemma parse_rfc3339_bad_year y mo d h mi s millis :
  0 <= y <= 99999 -> ~ (1 <= y <= 9999) -> 0 <= mo <= 9999 -> 0 <= d <= 9999 ->
  0 <= h -> 0 <= mi -> 0 <= s -> 0 <= millis ->
  parse_epoch_millis (rfc3339_utc y mo d h mi s millis) = None.
Proof.
  intros Hy Hbad Hmo Hd Hh Hmi Hs Hms. unfold parse_epoch_millis, rfc3339_utc.
  set (date := dec_pad 4 y ++ lit "-" ++ dec_pad 2 mo ++ lit "-" ++ dec_pad 2 d).
  set (time := dec_pad 2 h ++ lit ":" ++ dec_pad 2 mi ++ lit ":" ++ dec_pad 2 s).
  change (lit "T" ++ time ++ lit "." ++ dec_pad 3 millis ++ lit "Z")
    with (ch "T" :: time ++ lit "." ++ dec_pad 3 millis ++ lit "Z").
  rewrite split_once_app by (subst date; no_char). step.
  destruct (parse_time_and_offset _) as [[t off]|]; [|done]. step.
  subst date. rewrite split_date by lia. step.
  rewrite (parse_i64_dec_pad 4 y) by (unfold I64.in_range, I64.min_value, I64.max_value; lia).
  rewrite !parse_small by lia. step.
  destruct (contains_Z 1 9999 y) eqn:E; [|done]. by apply contains_Z_spec in E.
Qed.

Lemma parse_format_out_of_range ms :
  min_formatted_millis - 86340000 <= ms <= max_formatted_millis + 176401000 ->
  ~ (min_formatted_millis <= ms <= max_formatted_millis) ->
  parse_epoch_millis (format_epoch_millis ms) = None.
Proof.
  unfold min_formatted_millis, max_formatted_millis. intros Hb Hout. unfold format_epoch_millis.
  set (total := ms / 1000). set (days := total / 86400).
  assert (days = -719163 \/ days = 2932897 \/ days = 2932898 \/ days = 2932899) as Hdays
    by (subst days total; div_lia).
  pose proof (time_fields (total mod 86400) ltac:(subst total; div_lia)) as (Hh & Hmi & Hs & _).
  assert (0 <= ms mod 1000) as Hms by div_lia.
  destruct Hdays as [-> | [-> | [-> | ->]]];
    [ change (civil_from_days (-719163)) with (0, 12, 31)
    | change (civil_from_days 2932897) with (10000, 1, 1)
    | change (civil_from_days 2932898) with (10000, 1, 2)
    | change (civil_from_days 2932899) with (10000, 1, 3) ];
    cbv beta iota zeta; apply parse_rfc3339_bad_year; lia.
Qed.

Lemma normalize_fixed ts : normalize_to_utc (normalize_to_utc ts) = normalize_to_utc ts.
Proof.
  unfold normalize_to_utc at 2 3. destruct (parse_epoch_millis ts) as [ms|] eqn:E.
  - pose proof (parse_epoch_millis_bounds _ _ E) as Hb. unfold normalize_to_utc.
    destruct (decide (min_formatted_millis <= ms <= max_formatted_millis)) as [Hin|Hout].
    + by rewrite parse_format.
    + by rewrite parse_format_out_of_range.
  - unfold normalize_to_utc. by rewrite E.
Qed.

(** ** Properties *)

(** The two civil-date functions are inverse to each other: every day
    number is recovered from its civil date, and every date that exists in
    the proleptic Gregorian calendar (leap years included) is recovered from
    its day number. *)
Theorem civil_days_bijection :
  (forall z y m d, civil_from_days z = (y, m, d) ->
     1 <= m <= 12 /\ 1 <= d <= 31 /\ days_from_civil y m d = z)
  /\ (forall y m d, valid_date y m d -> civil_from_days (days_from_civil y m d) = (y, m, d)).
Proof.
  split.
  - intros z y m d E. pose proof (civil_from_days_fields _ _ _ _ E).
    pose proof (days_from_civil_from_days _ _ _ _ E). tauto.
  - exact civil_of_days_from_civil.
Qed.

Lemma civil_days_bijection_witness :
  valid_date 2024 2 29 /\ civil_from_days (days_from_civil 2024 2 29) = (2024, 2, 29).
Proof.
  assert (valid_date 2024 2 29) as H
    by (unfold valid_date; change (month_length 2024 2) with 29; lia).
  split; [exact H | exact (proj2 civil_days_bijection 2024 2 29 H)].
Defined.

(** Formatting and parsing are a round trip on every millisecond of the
    years 1 to 9999, and every successful parse, whatever its offset, lies
    within about a day of that interval, far inside the 64-bit range. *)
Theorem format_parse_roundtrip ms :
  min_formatted_millis <= ms <= max_formatted_millis ->
  parse_epoch_millis (format_epoch_millis ms) = Some ms
  /\ (forall ts v, parse_epoch_millis ts = Some v ->
        min_formatted_millis - 86340000 <= v <= max_formatted_millis + 176401000).
Proof. intros H. split; [by apply parse_format | exact parse_epoch_millis_bounds]. Qed.

Lemma format_parse_roundtrip_witness :
  parse_epoch_millis (format_epoch_millis 951868799999) = Some 951868799999.
Proof.
  apply (proj1 (format_parse_roundtrip 951868799999
    ltac:(unfold min_formatted_millis, max_formatted_millis; lia))).
Defined.

(** Normalisation to UTC is idempotent on every string, and keeps the
    instant of every timestamp that falls in the years 1 to 9999. *)
Theorem normalize_to_utc_idempotent ts :
  normalize_to_utc (normalize_to_utc ts) = normalize_to_utc ts
  /\ (forall ms, parse_epoch_millis ts = Some ms ->
        min_formatted_millis <= ms <= max_formatted_millis ->
        parse_epoch_millis (normalize_to_utc ts) = Some ms).
Proof.
  split; [apply normalize_fixed|].
  intros ms E Hms. unfold normalize_to_utc. rewrite E. by apply parse_format.
Qed.

Lemma normalize_to_utc_idempotent_witness :
  parse_epoch_millis (lit "2026-07-26T05:30:00+05:30") = Some 1785024000000
  /\ parse_epoch_millis (normalize_to_utc (lit "2026-07-26T05:30:00+05:30")) = Some 1785024000000.
Proof.
  assert (parse_epoch_millis (lit "2026-07-26T05:30:00+05:30") = Some 1785024000000) as E
    by (vm_compute; reflexivity).
  split; [exact E|].
  apply (proj2 (normalize_to_utc_idempotent (lit "2026-07-26T05:30:00+05:30")) _ E).
  unfold min_formatted_millis, max_formatted_millis. lia.
Defined.
