(* ===== verification/MediaPlanner.v ===== *)
(** * Media work planning (src/src/cp/media_planner.rs)

    The deterministic planner of bounded model calls: the oldest eligible
    head, the window or storyboard it opens, the hold of a fresh opening
    fragment, and the projection of a model turn back onto source events. *)
From Stdlib Require Import ZArith Lia.
From S2P Require Import Prelude Text.
Local Open Scope Z_scope.

Inductive WorkClass := Audio | Screen.

#[export] Instance WorkClass_eq_dec : EqDecision WorkClass.
Proof. solve_decision. Defined.

Definition MAX_AUDIO_WINDOW_MS : Z := 5 * 60 * 1000.
Definition MAX_AUDIO_GAP_MS : Z := 1000.
Definition MAX_AUDIO_BYTES : Z := 20 * 1024 * 1024.
Definition MIN_AUDIO_WINDOW_MS : Z := 5000.
Definition AUDIO_FRAGMENT_HOLD_MS : Z := MAX_AUDIO_WINDOW_MS.
Definition MAX_SCREEN_SPAN_MS : Z := 90 * 1000.
Definition MAX_SCREEN_FRAMES : Z := 8.
Definition MAX_SCREEN_BYTES : Z := 16 * 1024 * 1024.
Definition MAX_SCREEN_PIXELS : Z := 24000000.

Record PlanningEvent := {
  job_id : Z;
  event_id : str;
  class : WorkClass;
  capture_session_id : str;
  stream_id : str;
  sequence : Z;
  started_ms : Z;
  ended_ms : Z;
  byte_length : Z;
  pixel_count : Z;
  route_key : str
}.

Record WorkPlan := {
  plan_class : WorkClass;
  member_job_ids : list Z;
  head_job_id : Z;
  plan_started_ms : Z;
  plan_ended_ms : Z;
  plan_total_bytes : Z;
  plan_total_pixels : Z
}.

(** ** Planning *)

Definition planning_key (e : PlanningEvent) : Z * Z * Z := (started_ms e, sequence e, job_id e).

Definition same_stream (first candidate : PlanningEvent) : bool :=
  bool_decide (class candidate = class first)
  && str_eqb (capture_session_id candidate) (capture_session_id first)
  && str_eqb (stream_id candidate) (stream_id first).

(** The loop's mutable variables. *)
Record planner_state := {
  ps_members : list Z;
  ps_ended_ms : Z;
  ps_total_bytes : Z;
  ps_total_pixels : Z
}.

Definition accepted (first : PlanningEvent) (s : planner_state) (candidate : PlanningEvent) : bool :=
  (started_ms candidate <? ended_ms candidate)
  && match class first with
     | Audio =>
       str_eqb (route_key candidate) (route_key first)
       && (I64.saturating_sub (started_ms candidate) (ps_ended_ms s) <=? MAX_AUDIO_GAP_MS)
       && (I64.saturating_sub (ended_ms candidate) (started_ms first) <=? MAX_AUDIO_WINDOW_MS)
       && (I64.saturating_add (ps_total_bytes s) (byte_length candidate) <=? MAX_AUDIO_BYTES)
     | Screen =>
       (Z.of_nat (length (ps_members s)) <? MAX_SCREEN_FRAMES)
       && (I64.saturating_sub (started_ms candidate) (started_ms first) <=? MAX_SCREEN_SPAN_MS)
       && (I64.saturating_add (ps_total_bytes s) (byte_length candidate) <=? MAX_SCREEN_BYTES)
       && (I64.saturating_add (ps_total_pixels s) (pixel_count candidate) <=? MAX_SCREEN_PIXELS)
     end.

Definition admit_member (s : planner_state) (candidate : PlanningEvent) : planner_state := {|
  ps_members := ps_members s ++ [job_id candidate];
  ps_ended_ms := Z.max (ps_ended_ms s) (ended_ms candidate);
  ps_total_bytes := I64.saturating_add (ps_total_bytes s) (byte_length candidate);
  ps_total_pixels := I64.saturating_add (ps_total_pixels s) (pixel_count candidate)
|}.

(** [continue] past unrelated streams, [break] at the first refusal. *)
Fixpoint plan_loop (first : PlanningEvent) (ordered : list PlanningEvent) (s : planner_state)
  : planner_state :=
  match ordered with
  | [] => s
  | candidate :: rest =>
    if negb (same_stream first candidate) then plan_loop first rest s
    else if negb (accepted first s candidate) then s
    else plan_loop first rest (admit_member s candidate)
  end.

Definition initial_state (first : PlanningEvent) : planner_state :=
  {| ps_members := []; ps_ended_ms := ended_ms first; ps_total_bytes := 0; ps_total_pixels := 0 |}.

Definition plan_of (first : PlanningEvent) (s : planner_state) : WorkPlan := {|
  plan_class := class first;
  member_job_ids := ps_members s;
  head_job_id := job_id first;
  plan_started_ms := started_ms first;
  plan_ended_ms := ps_ended_ms s;
  plan_total_bytes := ps_total_bytes s;
  plan_total_pixels := ps_total_pixels s
|}.

(** [None] is the panic of [expect] on an empty candidate list. *)
Definition plan_first (candidates : list PlanningEvent) : option WorkPlan :=
  let ordered := sort_by_key planning_key candidates in
  match ordered with
  | [] => None
  | first :: _ => Some (plan_of first (plan_loop first ordered (initial_state first)))
  end.

Definition audio_fragment_hold (plan : WorkPlan) (opens_stream session_finished : bool)
    (newest_receipt_age_ms : option Z) : bool :=
  bool_decide (plan_class plan = Audio)
  && negb (is_empty (member_job_ids plan))
  && (I64.saturating_sub (plan_ended_ms plan) (plan_started_ms plan) <? MIN_AUDIO_WINDOW_MS)
  && opens_stream
  && negb session_finished
  && match newest_receipt_age_ms with Some age => age <? AUDIO_FRAGMENT_HOLD_MS | None => false end.

(** ** Projection onto source events *)

Record SourceInterval := { si_event_id : str; start_ms : Z; end_ms : Z }.

Record ProjectedInterval := {
  pi_event_id : str;
  window_start_ms : Z;
  window_end_ms : Z;
  event_start_ms : Z;
  event_end_ms : Z
}.

Definition project_source (turn_start_ms turn_end_ms : Z) (source : SourceInterval)
  : option ProjectedInterval :=
  let start := Z.max turn_start_ms (start_ms source) in
  let end_ := Z.min turn_end_ms (end_ms source) in
  if start <? end_ then
    Some {| pi_event_id := si_event_id source;
            window_start_ms := start;
            window_end_ms := end_;
            event_start_ms := I64.sub start (start_ms source);
            event_end_ms := I64.sub end_ (start_ms source) |}
  else None.

Definition project_interval (sources : list SourceInterval) (turn_start_ms turn_end_ms : Z)
  : list ProjectedInterval :=
  omap (project_source turn_start_ms turn_end_ms) sources.

Definition schedule_classes (audio_pending screen_pending : bool) (slots : nat) : list WorkClass :=
  let schedule := [] in
  let schedule :=
    if audio_pending && (length schedule <? slots)%nat then schedule ++ [Audio] else schedule in
  if screen_pending && (length schedule <? slots)%nat then schedule ++ [Screen] else schedule.

(** ** The loop as a greedy prefix *)

(** Each event is admitted in the state its predecessors left. *)
Fixpoint accepted_run (first : PlanningEvent) (s : planner_state) (w : list PlanningEvent) : Prop :=
  match w with
  | [] => True
  | e :: w' => accepted first s e = true /\ accepted_run first (admit_member s e) w'
  end.

Definition admit_all (s : planner_state) (w : list PlanningEvent) : planner_state :=
  fold_left admit_member w s.

Lemma plan_loop_filter first l s :
  plan_loop first l s = plan_loop first (List.filter (same_stream first) l) s.
Proof.
  revert s; induction l as [|e l IH]; intros s; simpl; [done|].
  destruct (same_stream first e) eqn:E; simpl; [|apply IH].
  rewrite E. simpl. destruct (accepted first s e); simpl; [apply IH|done].
Qed.

Lemma plan_loop_prefix first l s :
  Forall (fun e => same_stream first e = true) l ->
  exists window rest, l = window ++ rest /\ accepted_run first s window
    /\ plan_loop first l s = admit_all s window
    /\ match rest with [] => True | e :: _ => accepted first (admit_all s window) e = false end.
Proof.
  revert s; induction l as [|e l IH]; intros s Hl; simpl.
  - by exists [], [].
  - apply Forall_cons in Hl as [He Hl]. rewrite He. simpl.
    destruct (accepted first s e) eqn:Ea; simpl.
    + destruct (IH (admit_member s e) Hl) as (w & r & -> & Hrun & Hloop & Hr).
      exists (e :: w), r. by repeat split.
    + exists [], (e :: l). by repeat split.
Qed.

Lemma admit_all_members s w : ps_members (admit_all s w) = ps_members s ++ (job_id <$> w).
Proof.
  revert s; induction w as [|e w IH]; intros s; simpl; [by rewrite app_nil_r|].
  unfold admit_all in *. simpl. rewrite IH. simpl. by rewrite <- app_assoc.
Qed.

(** The head, the window it opens, and the first refused event. *)
Record greedy_plan (cs : list PlanningEvent) (p : WorkPlan) (first : PlanningEvent)
    (window rest : list PlanningEvent) : Prop := {
  gp_head : exists tail, sort_by_key planning_key cs = first :: tail;
  gp_stream : List.filter (same_stream first) (sort_by_key planning_key cs) = window ++ rest;
  gp_run : accepted_run first (initial_state first) window;
  gp_plan : p = plan_of first (admit_all (initial_state first) window);
  gp_stop : match rest with
            | [] => True
            | e :: _ => accepted first (admit_all (initial_state first) window) e = false
            end
}.

Lemma plan_first_greedy cs p :
  plan_first cs = Some p -> exists first window rest, greedy_plan cs p first window rest.
Proof.
  unfold plan_first. destruct (sort_by_key planning_key cs) as [|first tail] eqn:E; [done|].
  intros Hp. assert (p = plan_of first (plan_loop first (first :: tail) (initial_state first)))
    as -> by congruence. clear Hp. rewrite plan_loop_filter.
  assert (Forall (fun e => same_stream first e = true)
            (List.filter (same_stream first) (first :: tail))) as Hf.
  { apply Forall_forall. intros e He. apply list_elem_of_In, filter_In in He. tauto. }
  destruct (plan_loop_prefix first _ (initial_state first) Hf) as (w & r & Hl & Hrun & Hloop & Hstop).
  exists first, w, r. split; [by exists tail|by rewrite E|done|by rewrite Hloop|done].
Qed.

Lemma plan_first_Some cs : cs <> [] <-> exists p, plan_first cs = Some p.
Proof.
  unfold plan_first. destruct (sort_by_key planning_key cs) as [|first tail] eqn:E.
  - apply sort_by_nil_inv in E as ->. split; [done|]. by intros [? ?].
  - split; [eauto|]. intros _ ->. done.
Qed.

(** The head is the least candidate in the planning order. *)
Lemma greedy_head_least cs p first window rest e :
  greedy_plan cs p first window rest -> e ∈ cs -> ord_leb (planning_key first) (planning_key e) = true.
Proof.
  intros G He. destruct (gp_head _ _ _ _ _ G) as [tail Hs].
  pose proof (sort_by_key_sorted planning_key cs) as Hsorted. rewrite Hs in Hsorted.
  assert (e ∈ first :: tail) as Hin by (rewrite <- Hs; by apply elem_of_sort_by).
  apply elem_of_cons in Hin as [->|Hin]; [apply ord_leb_cases; by left|].
  apply StronglySorted_inv in Hsorted as [_ Hall]. rewrite Forall_forall in Hall. by apply Hall.
Qed.

Lemma greedy_head_elem cs p first window rest :
  greedy_plan cs p first window rest -> first ∈ cs.
Proof.
  intros G. destruct (gp_head _ _ _ _ _ G) as [tail Hs].
  apply (elem_of_sort_by (on_key planning_key)). fold (sort_by_key planning_key cs). rewrite Hs. left.
Qed.

Lemma same_stream_refl e : same_stream e e = true.
Proof. unfold same_stream. rewrite bool_decide_eq_true_2, !str_eqb_refl by done. done. Qed.

(** The first same-stream event in the order is the head itself. *)
Lemma greedy_first_is_head cs p first window rest :
  greedy_plan cs p first window rest -> exists tail, window ++ rest = first :: tail.
Proof.
  intros G. destruct (gp_head _ _ _ _ _ G) as [tail Hs].
  rewrite <- (gp_stream _ _ _ _ _ G), Hs. simpl. rewrite same_stream_refl. eauto.
Qed.

Lemma greedy_window_sub cs p first window rest :
  greedy_plan cs p first window rest -> window ⊆+ cs.
Proof.
  intros G. transitivity (window ++ rest); [apply submseteq_inserts_r; done|].
  rewrite <- (gp_stream _ _ _ _ _ G).
  rewrite <- (sort_by_perm (on_key planning_key) cs) at 2. fold (sort_by_key planning_key cs).
  apply sublist_submseteq. generalize (sort_by_key planning_key cs). intros l.
  induction l as [|e l IH]; simpl; [constructor|]. destruct (same_stream first e); by constructor.
Qed.

(** ** Bounds of a window *)

(** What the guards leave true of an admitted event. *)
Definition fits (first e : PlanningEvent) : Prop :=
  same_stream first e = true /\ started_ms e < ended_ms e
  /\ match class first with
     | Audio => route_key e = route_key first /\ ended_ms e - started_ms first <= MAX_AUDIO_WINDOW_MS
     | Screen => started_ms e - started_ms first <= MAX_SCREEN_SPAN_MS
     end.

Definition class_byte_cap (c : WorkClass) : Z :=
  match c with Audio => MAX_AUDIO_BYTES | Screen => MAX_SCREEN_BYTES end.

Definition within_caps (first : PlanningEvent) (s : planner_state) : Prop :=
  ps_total_bytes s <= class_byte_cap (class first)
  /\ (class first = Screen -> Z.of_nat (length (ps_members s)) <= MAX_SCREEN_FRAMES
                              /\ ps_total_pixels s <= MAX_SCREEN_PIXELS).

Lemma saturating_sub_le a b c :
  0 <= c < I64.max_value -> (I64.saturating_sub a b <=? c) = true <-> a - b <= c.
Proof.
  intros Hc. rewrite Z.leb_le. apply I64.clamp_le; [|lia].
  unfold I64.in_range, I64.min_value. lia.
Qed.

Ltac unfold_caps :=
  unfold class_byte_cap, MAX_AUDIO_BYTES, MAX_SCREEN_BYTES, MAX_SCREEN_PIXELS, MAX_SCREEN_FRAMES,
    MAX_AUDIO_WINDOW_MS, MAX_SCREEN_SPAN_MS, MAX_AUDIO_GAP_MS, I64.max_value in *.

Lemma accepted_step first s e :
  same_stream first e = true -> accepted first s e = true ->
  fits first e /\ within_caps first (admit_member s e).
Proof.
  unfold accepted, fits, within_caps. intros Hs Ha. apply andb_true_iff in Ha as [Hpos Ha].
  rewrite Z.ltb_lt in Hpos. destruct (class first); simpl.
  - rewrite !andb_true_iff, str_eqb_eq, !saturating_sub_le, Z.leb_le in Ha by (unfold_caps; lia).
    destruct Ha as (((Hr & Hg) & Hw) & Hb). repeat split; try done.
  - rewrite !andb_true_iff, !saturating_sub_le, !Z.leb_le, Z.ltb_lt in Ha by (unfold_caps; lia).
    destruct Ha as (((Hn & Hw) & Hb) & Hp). repeat split; try done.
    rewrite length_app. simpl. unfold_caps. lia.
Qed.

Lemma accepted_run_bounds first s w :
  Forall (fun e => same_stream first e = true) w -> accepted_run first s w -> within_caps first s ->
  Forall (fits first) w /\ within_caps first (admit_all s w).
Proof.
  revert s; induction w as [|e w IH]; intros s Hf Hrun Hc; simpl; [by split|].
  apply Forall_cons in Hf as [He Hf]. destruct Hrun as [Ha Hrun].
  destruct (accepted_step _ _ _ He Ha) as [Hfit Hcap].
  destruct (IH (admit_member s e) Hf Hrun Hcap) as [H1 H2]. split; [by constructor|done].
Qed.

Lemma initial_within_caps first : within_caps first (initial_state first).
Proof. unfold within_caps, initial_state; simpl. destruct (class first); unfold_caps; split; try lia. Qed.

Definition sum_by {A} (f : A -> Z) (l : list A) : Z := foldr (fun x n => f x + n) 0 l.

Lemma sum_by_nonneg {A} (f : A -> Z) l : Forall (fun x => 0 <= f x) l -> 0 <= sum_by f l.
Proof. induction 1; simpl; lia. Qed.

(** With nonnegative sizes the saturating counters are exact below a cap. *)
Lemma admit_all_bytes s w :
  0 <= ps_total_bytes s -> Forall (fun e => 0 <= byte_length e) w ->
  ps_total_bytes (admit_all s w) < I64.max_value ->
  ps_total_bytes (admit_all s w) = ps_total_bytes s + sum_by byte_length w.
Proof.
  revert s; induction w as [|e w IH]; intros s Hs Hw Hlt; simpl in *; [lia|].
  apply Forall_cons in Hw as [He Hw].
  assert (0 <= ps_total_bytes (admit_member s e)) as Hs'.
  { simpl. unfold I64.saturating_add, I64.clamp, I64.min_value, I64.max_value. lia. }
  specialize (IH (admit_member s e) Hs' Hw Hlt). rewrite IH in Hlt |- *.
  pose proof (sum_by_nonneg byte_length w Hw). simpl in *.
  unfold I64.saturating_add, I64.clamp, I64.min_value, I64.max_value in *. lia.
Qed.

Lemma admit_all_pixels s w :
  0 <= ps_total_pixels s -> Forall (fun e => 0 <= pixel_count e) w ->
  ps_total_pixels (admit_all s w) < I64.max_value ->
  ps_total_pixels (admit_all s w) = ps_total_pixels s + sum_by pixel_count w.
Proof.
  revert s; induction w as [|e w IH]; intros s Hs Hw Hlt; simpl in *; [lia|].
  apply Forall_cons in Hw as [He Hw].
  assert (0 <= ps_total_pixels (admit_member s e)) as Hs'.
  { simpl. unfold I64.saturating_add, I64.clamp, I64.min_value, I64.max_value. lia. }
  specialize (IH (admit_member s e) Hs' Hw Hlt). rewrite IH in Hlt |- *.
  pose proof (sum_by_nonneg pixel_count w Hw). simpl in *.
  unfold I64.saturating_add, I64.clamp, I64.min_value, I64.max_value in *. lia.
Qed.

Lemma greedy_window_stream cs p first window rest :
  greedy_plan cs p first window rest -> Forall (fun e => same_stream first e = true) window.
Proof.
  intros G. apply Forall_forall. intros e He.
  assert (e ∈ List.filter (same_stream first) (sort_by_key planning_key cs)) as Hin.
  { rewrite (gp_stream _ _ _ _ _ G). apply elem_of_app. by left. }
  apply list_elem_of_In, filter_In in Hin. tauto.
Qed.

Lemma greedy_window_bounds cs p first window rest :
  greedy_plan cs p first window rest ->
  Forall (fits first) window /\ within_caps first (admit_all (initial_state first) window).
Proof.
  intros G. apply accepted_run_bounds.
  - exact (greedy_window_stream _ _ _ _ _ G).
  - exact (gp_run _ _ _ _ _ G).
  - apply initial_within_caps.
Qed.

(** A candidate that can enter a window of its own. *)
Definition own_window (e : PlanningEvent) : bool :=
  (started_ms e <? ended_ms e)
  && (byte_length e <=? class_byte_cap (class e))
  && match class e with
     | Audio => ended_ms e - started_ms e <=? MAX_AUDIO_WINDOW_MS
     | Screen => pixel_count e <=? MAX_SCREEN_PIXELS
     end.

Lemma saturating_add_0_le b c : 0 <= c < I64.max_value -> (I64.saturating_add 0 b <=? c) = (b <=? c).
Proof.
  intros Hc. apply eq_true_iff_eq. rewrite !Z.leb_le. unfold I64.saturating_add.
  rewrite I64.clamp_le; [lia| |lia]. unfold I64.in_range, I64.min_value. lia.
Qed.

Lemma accepted_initial e : accepted e (initial_state e) e = own_window e.
Proof.
  unfold accepted, own_window, initial_state. simpl. destruct (started_ms e <? ended_ms e) eqn:Ep; [|done].
  apply Z.ltb_lt in Ep. simpl. destruct (class e); simpl;
    rewrite !saturating_add_0_le by (unfold_caps; lia); rewrite ?str_eqb_refl; simpl;
    apply eq_true_iff_eq; rewrite !andb_true_iff, !saturating_sub_le, !Z.leb_le by (unfold_caps; lia);
    unfold_caps; lia.
Qed.

Lemma greedy_empty_iff cs p first window rest :
  greedy_plan cs p first window rest -> window = [] <-> own_window first = false.
Proof.
  intros G. destruct (greedy_first_is_head _ _ _ _ _ G) as [tail Ht].
  rewrite <- accepted_initial. destruct window as [|e w].
  - split; [intros _|done]. simpl in Ht. subst rest. exact (gp_stop _ _ _ _ _ G).
  - injection Ht as -> _. split; [done|]. destruct (gp_run _ _ _ _ _ G) as [Ha _]. congruence.
Qed.

Lemma admit_all_ended s w b :
  ps_ended_ms s <= b -> Forall (fun e => ended_ms e <= b) w -> ps_ended_ms (admit_all s w) <= b.
Proof.
  revert s; induction w as [|e w IH]; intros s Hs Hw; simpl; [done|].
  apply Forall_cons in Hw as [He Hw]. apply IH; [simpl; lia|done].
Qed.

(** ** The plan ignores the order of its input and unrelated streams *)

Lemma filter_perm {A} (f : A -> bool) l k :
  Permutation l k -> Permutation (List.filter f l) (List.filter f k).
Proof.
  induction 1 as [|x l k Hp IH|x y l|l k m H1 IH1 H2 IH2]; simpl; try done.
  - by destruct (f x); [constructor|].
  - destruct (f x), (f y); try done. apply perm_swap.
  - by transitivity (List.filter f k).
Qed.

Lemma NoDup_planning_key cs : NoDup (job_id <$> cs) -> NoDup (planning_key <$> cs).
Proof.
  intros H. apply (NoDup_fmap_1 snd). by rewrite <- list_fmap_compose.
Qed.

Lemma sort_filter_comm f cs :
  NoDup (job_id <$> cs) ->
  sort_by_key planning_key (List.filter f cs) = List.filter f (sort_by_key planning_key cs).
Proof.
  intros Hnd. apply (sorted_perm_unique (fun a b => on_key planning_key a b = true)).
  - intros x y Hx Hy H1 H2. unfold sort_by_key in Hx, Hy. rewrite elem_of_sort_by in Hx, Hy.
    apply list_elem_of_In, filter_In in Hx as [Hx _], Hy as [Hy _].
    apply list_elem_of_In in Hx, Hy. pose proof (ord_leb_antisym _ _ H1 H2) as E.
    apply NoDup_planning_key in Hnd. clear - Hnd E Hx Hy.
    apply list_elem_of_lookup in Hx as [i Hi], Hy as [j Hj].
    assert (i = j) as <-; [|congruence].
    apply (NoDup_lookup (planning_key <$> cs) i j (planning_key x)); [done| |];
      rewrite list_lookup_fmap; [by rewrite Hi|by rewrite Hj, E].
  - apply sort_by_key_sorted.
  - apply filter_sorted, sort_by_key_sorted.
  - unfold sort_by_key. rewrite sort_by_perm. apply filter_perm. symmetry. apply sort_by_perm.
Qed.

Lemma filter_idem {A} (f : A -> bool) l : List.filter f (List.filter f l) = List.filter f l.
Proof. induction l as [|x l IH]; simpl; [done|]. destruct (f x) eqn:E; simpl; rewrite ?E, ?IH; done. Qed.

Lemma plan_first_stream_only cs p first window rest :
  NoDup (job_id <$> cs) -> greedy_plan cs p first window rest ->
  plan_first (List.filter (same_stream first) cs) = Some p.
Proof.
  intros Hnd G. unfold plan_first. rewrite sort_filter_comm by done.
  destruct (gp_head _ _ _ _ _ G) as [tail Hs]. rewrite Hs. simpl. rewrite same_stream_refl.
  rewrite plan_loop_filter. f_equal. pose proof (gp_stream _ _ _ _ _ G) as Hst.
  rewrite Hs in Hst. simpl in Hst. rewrite same_stream_refl in Hst.
  simpl. rewrite same_stream_refl. rewrite filter_idem. rewrite Hst.
  rewrite (gp_plan _ _ _ _ _ G). f_equal.
  assert (Forall (fun e => same_stream first e = true) (window ++ rest)) as Hf.
  { rewrite <- Hst. constructor; [apply same_stream_refl|]. apply Forall_forall. intros e He.
    apply list_elem_of_In, filter_In in He. tauto. }
  clear - Hf G. generalize (gp_run _ _ _ _ _ G) (gp_stop _ _ _ _ _ G).
  generalize (initial_state first). clear G.
  induction window as [|e w IH]; intros s Hrun Hstop; simpl in *.
  - destruct rest as [|e r]; [done|]. simpl. apply Forall_cons in Hf as [He _].
    rewrite He. simpl. by rewrite Hstop.
  - apply Forall_cons in Hf as [He Hf]. destruct Hrun as [Ha Hrun]. rewrite He, Ha. simpl.
    by apply IH.
Qed.

(** ** Projection *)

(** Source intervals that tile [a, b]. *)
Fixpoint tiles (a b : Z) (sources : list SourceInterval) : Prop :=
  match sources with
  | [] => a = b
  | s :: rest => start_ms s = a /\ a <= end_ms s /\ tiles (end_ms s) b rest
  end.

(** Projected pieces that follow each other from [a] to [b]. *)
Fixpoint pieces_chain (a b : Z) (l : list ProjectedInterval) : Prop :=
  match l with
  | [] => a = b
  | p :: rest => window_start_ms p = a /\ a < window_end_ms p /\ pieces_chain (window_end_ms p) b rest
  end.

Definition clip (t0 t1 x : Z) : Z := Z.max t0 (Z.min t1 x).

Lemma tiles_le a b l : tiles a b l -> a <= b.
Proof. revert a; induction l as [|s l IH]; intros a; simpl; [lia|]. intros (? & ? & H). apply IH in H. lia. Qed.

Lemma project_chain t0 t1 a b sources :
  t0 <= t1 -> tiles a b sources ->
  pieces_chain (clip t0 t1 a) (clip t0 t1 b) (project_interval sources t0 t1).
Proof.
  intros Ht. revert a; induction sources as [|s l IH]; intros a H; simpl in *; [by subst|].
  destruct H as (<- & Hle & H). specialize (IH _ H). unfold project_interval in *. simpl.
  unfold project_source at 1. destruct (_ <? _) eqn:E; bool_prop; simpl.
  - assert (clip t0 t1 (end_ms s) = Z.min t1 (end_ms s)) as Hc by (unfold clip; lia).
    rewrite Hc in IH. repeat split; [unfold clip; lia|unfold clip; lia|done].
  - replace (clip t0 t1 (start_ms s)) with (clip t0 t1 (end_ms s)); [done|]. unfold clip; lia.
Qed.

Lemma project_offsets t0 t1 a b sources p :
  0 <= a -> b <= I64.max_value -> tiles a b sources -> p ∈ project_interval sources t0 t1 ->
  exists s, s ∈ sources /\ pi_event_id p = si_event_id s
    /\ event_start_ms p = window_start_ms p - start_ms s
    /\ event_end_ms p = window_end_ms p - start_ms s
    /\ 0 <= event_start_ms p < event_end_ms p /\ event_end_ms p <= end_ms s - start_ms s.
Proof.
  intros Ha Hb Ht Hp. unfold project_interval in Hp.
  apply list_elem_of_omap in Hp as (s & Hs & Hp). exists s.
  assert (0 <= start_ms s /\ end_ms s <= I64.max_value) as Hr.
  { clear Hp. revert a Ha Ht. induction sources as [|s' l IH]; intros a Ha Ht;
      [by apply not_elem_of_nil in Hs|].
    destruct Ht as (? & ? & Ht). pose proof (tiles_le _ _ _ Ht).
    apply elem_of_cons in Hs as [->|Hs]; [lia|]. apply (IH Hs (end_ms s')); [lia|done]. }
  unfold project_source in Hp. destruct (_ <? _) eqn:E; [|done]. apply Z.ltb_lt in E.
  injection Hp as <-. simpl. unfold I64.sub.
  rewrite !I64.wrap_small by (unfold I64.in_range, I64.min_value in *; lia).
  repeat split; try done; lia.
Qed.

(** ** Properties *)

(** A plan never exceeds the limits of one model call.  Its members are
    distinct candidates of the head's class, session and stream; every member
    has a positive duration; the reported byte total is the exact sum and
    stays under the class cap; an audio window keeps one acoustic route and
    spans at most five minutes; a storyboard holds at most eight frames
    within 90 seconds and the pixel cap. *)
Theorem plan_window_bounded cs p :
  plan_first cs = Some p ->
  Forall (fun e => 0 <= byte_length e /\ 0 <= pixel_count e) cs ->
  exists first window,
    first ∈ cs /\ window ⊆+ cs
    /\ plan_class p = class first /\ member_job_ids p = job_id <$> window
    /\ Forall (fits first) window
    /\ plan_total_bytes p = sum_by byte_length window
    /\ plan_total_bytes p <= class_byte_cap (class first)
    /\ match class first with
       | Audio => window <> [] -> plan_ended_ms p - plan_started_ms p <= MAX_AUDIO_WINDOW_MS
       | Screen => Z.of_nat (length window) <= MAX_SCREEN_FRAMES
                   /\ plan_total_pixels p = sum_by pixel_count window
                   /\ plan_total_pixels p <= MAX_SCREEN_PIXELS
       end.
Proof.
  intros Hp Hsizes. destruct (plan_first_greedy _ _ Hp) as (first & window & rest & G).
  pose proof (greedy_window_sub _ _ _ _ _ G) as Hsub.
  destruct (greedy_window_bounds _ _ _ _ _ G) as [Hfit [Hbytes Hscreen]].
  assert (Forall (fun e => 0 <= byte_length e) window /\ Forall (fun e => 0 <= pixel_count e) window)
    as [Hb Hx].
  { rewrite !Forall_forall in *.
    split; intros e He; apply Hsizes; by apply (elem_of_submseteq window). }
  pose proof (admit_all_members (initial_state first) window) as Hm. simpl in Hm.
  assert (ps_total_bytes (admit_all (initial_state first) window) = sum_by byte_length window) as Ht.
  { rewrite admit_all_bytes; [done|simpl; lia|done|destruct (class first); unfold_caps; lia]. }
  exists first, window. rewrite (gp_plan _ _ _ _ _ G). simpl. rewrite Hm.
  repeat split; try done; [by apply (greedy_head_elem _ _ _ _ _ G)|].
  destruct (class first) eqn:Ec.
  - intros Hne. destruct (greedy_first_is_head _ _ _ _ _ G) as [tail Hhead].
    assert (first ∈ window) as Hin by (destruct window; [done|injection Hhead as -> _; left]).
    assert (Forall (fun e => ended_ms e <= started_ms first + MAX_AUDIO_WINDOW_MS) window) as Hends.
    { rewrite Forall_forall in *. intros e He. specialize (Hfit e He) as (_ & _ & Hf).
      rewrite Ec in Hf. lia. }
    assert (ps_ended_ms (admit_all (initial_state first) window)
            <= started_ms first + MAX_AUDIO_WINDOW_MS); [|lia].
    apply admit_all_ended; [|done]. simpl. rewrite Forall_forall in Hends. by apply Hends.
  - destruct (Hscreen eq_refl) as [Hn Hpx]. rewrite Hm, length_fmap in Hn.
    split; [done|]. split; [|done]. rewrite admit_all_pixels; [done|simpl; lia|done|unfold_caps; lia].
Qed.

Definition sample_event (id : Z) (c : WorkClass) (stream : string) (seq s e : Z) : PlanningEvent := {|
  job_id := id; event_id := lit "event"; class := c; capture_session_id := lit "session-1";
  stream_id := lit stream; sequence := seq; started_ms := s; ended_ms := e;
  byte_length := 100000; pixel_count := 2000000; route_key := lit "default"
|}.

Definition sample_candidates : list PlanningEvent :=
  [ sample_event 2 Audio "a" 1 60000 120000; sample_event 7 Audio "other" 0 30000 90000;
    sample_event 1 Audio "a" 0 0 60000; sample_event 3 Audio "a" 2 125000 180000 ].

Example plan_sample :
  member_job_ids <$> plan_first sample_candidates = Some [1; 2].
Proof. reflexivity. Qed.

Lemma plan_window_bounded_witness :
  exists p, plan_first sample_candidates = Some p
  /\ exists first window, first ∈ sample_candidates /\ window ⊆+ sample_candidates
     /\ plan_class p = class first /\ member_job_ids p = job_id <$> window
     /\ Forall (fits first) window
     /\ plan_total_bytes p = sum_by byte_length window
     /\ plan_total_bytes p <= class_byte_cap (class first)
     /\ match class first with
        | Audio => window <> [] -> plan_ended_ms p - plan_started_ms p <= MAX_AUDIO_WINDOW_MS
        | Screen => Z.of_nat (length window) <= MAX_SCREEN_FRAMES
                    /\ plan_total_pixels p = sum_by pixel_count window
                    /\ plan_total_pixels p <= MAX_SCREEN_PIXELS
        end.
Proof.
  eexists. split; [reflexivity|].
  apply (plan_window_bounded sample_candidates); [reflexivity|].
  repeat constructor; simpl; lia.
Defined.

(** Planning makes progress and names what blocks it.  On a nonempty
    candidate list a plan exists, its head is the least candidate by start,
    sequence and job; the plan starts with the head exactly when the head
    could enter a window of its own, and is empty exactly when it could not,
    so an unplannable head is always reported. *)
Theorem plan_head_progress cs :
  cs <> [] ->
  exists p first, plan_first cs = Some p /\ first ∈ cs /\ head_job_id p = job_id first
    /\ (forall e, e ∈ cs -> ord_leb (planning_key first) (planning_key e) = true)
    /\ (own_window first = true <-> exists tail, member_job_ids p = job_id first :: tail)
    /\ (own_window first = false <-> member_job_ids p = []).
Proof.
  intros Hne. apply plan_first_Some in Hne as [p Hp].
  destruct (plan_first_greedy _ _ Hp) as (first & window & rest & G).
  pose proof (greedy_empty_iff _ _ _ _ _ G) as Hempty.
  pose proof (admit_all_members (initial_state first) window) as Hm. simpl in Hm.
  exists p, first. split; [done|]. split; [by apply (greedy_head_elem _ _ _ _ _ G)|].
  rewrite (gp_plan _ _ _ _ _ G). simpl. rewrite Hm. split; [done|].
  split; [intros e; apply (greedy_head_least _ _ _ _ _ _ G)|].
  destruct (greedy_first_is_head _ _ _ _ _ G) as [tail Ht].
  destruct window as [|e w]; simpl in *.
  - rewrite (proj1 Hempty eq_refl). split; split; try done. by intros [? ?].
  - injection Ht as -> _. destruct (own_window first) eqn:E.
    + split; split; eauto; done.
    + by specialize (proj2 Hempty eq_refl).
Qed.

Lemma plan_head_progress_witness :
  sample_candidates <> []
  /\ exists p first, plan_first sample_candidates = Some p /\ first ∈ sample_candidates
    /\ head_job_id p = job_id first
    /\ (forall e, e ∈ sample_candidates -> ord_leb (planning_key first) (planning_key e) = true)
    /\ (own_window first = true <-> exists tail, member_job_ids p = job_id first :: tail)
    /\ (own_window first = false <-> member_job_ids p = []).
Proof. split; [done | apply (plan_head_progress sample_candidates); done]. Defined.

(** When job identifiers are distinct, the plan depends only on the
    events of the head's own stream: neither the order in which candidates
    are supplied nor the other streams and sessions interleaved with it
    change it. *)
Theorem plan_ignores_order_and_other_streams cs p :
  NoDup (job_id <$> cs) -> plan_first cs = Some p ->
  (forall cs', Permutation cs cs' -> plan_first cs' = Some p)
  /\ exists first, first ∈ cs /\ head_job_id p = job_id first
       /\ plan_first (List.filter (same_stream first) cs) = Some p.
Proof.
  intros Hnd Hp. split.
  - intros cs' Hperm. rewrite <- Hp. unfold plan_first.
    by rewrite (sort_by_key_perm_eq planning_key cs cs') by (done || by apply NoDup_planning_key).
  - destruct (plan_first_greedy _ _ Hp) as (first & window & rest & G). exists first.
    split; [by apply (greedy_head_elem _ _ _ _ _ G)|].
    split; [by rewrite (gp_plan _ _ _ _ _ G)|]. by apply (plan_first_stream_only _ _ _ _ _ Hnd G).
Qed.

Lemma plan_ignores_order_and_other_streams_witness :
  exists p, plan_first sample_candidates = Some p
  /\ (forall cs', Permutation sample_candidates cs' -> plan_first cs' = Some p)
  /\ exists first, first ∈ sample_candidates /\ head_job_id p = job_id first
       /\ plan_first (List.filter (same_stream first) sample_candidates) = Some p.
Proof.
  eexists. split; [reflexivity|].
  apply (plan_ignores_order_and_other_streams sample_candidates); [|reflexivity].
  apply (bool_decide_eq_true_1 _). reflexivity.
Defined.

(** When the source events tile the assembled window, projecting a model
    turn splits it exactly: the pieces are nonempty, follow each other
    without gap or overlap from the start of the turn to its end, and each
    one lies at the same offset inside the source event it names. *)
Theorem project_interval_partition sources a b t0 t1 :
  0 <= a -> b <= I64.max_value -> tiles a b sources -> a <= t0 <= t1 -> t1 <= b ->
  pieces_chain t0 t1 (project_interval sources t0 t1)
  /\ Forall (fun p => exists s, s ∈ sources /\ pi_event_id p = si_event_id s
        /\ event_start_ms p = window_start_ms p - start_ms s
        /\ event_end_ms p = window_end_ms p - start_ms s
        /\ 0 <= event_start_ms p < event_end_ms p /\ event_end_ms p <= end_ms s - start_ms s)
       (project_interval sources t0 t1).
Proof.
  intros Ha Hb Htiles Ht0 Ht1. split.
  - pose proof (project_chain t0 t1 a b sources ltac:(lia) Htiles) as H.
    replace (clip t0 t1 a) with t0 in H by (unfold clip; lia).
    replace (clip t0 t1 b) with t1 in H by (unfold clip; lia). done.
  - apply Forall_forall. intros p Hp. by apply (project_offsets t0 t1 a b sources p).
Qed.

Definition sample_sources : list SourceInterval :=
  [ {| si_event_id := lit "a"; start_ms := 0; end_ms := 60000 |};
    {| si_event_id := lit "b"; start_ms := 60000; end_ms := 120000 |} ].

Lemma project_interval_partition_witness :
  tiles 0 120000 sample_sources
  /\ pieces_chain 59500 60500 (project_interval sample_sources 59500 60500).
Proof.
  assert (tiles 0 120000 sample_sources) as H by (simpl; lia).
  split; [exact H|].
  apply (project_interval_partition sample_sources 0 120000 59500 60500);
    [lia | unfold I64.max_value; lia | exact H | lia | lia].
Defined.
