(* ===== verification/Episode.v ===== *)
(** * Episode values and merge policy

    [persistence/episode.rs]: an episode's minute summaries are merged by
    absolute minute, and its substance and visual-evidence classifications
    only ever move up.  The JSON codec of [serde_json] is a parameter; what
    the merge relies on is that it reads back the buckets it wrote. *)
From Stdlib Require Import ZArith Lia.
From S2P Require Import Prelude OrdMap Text IsoTime.
Local Open Scope Z_scope.

Record MinuteBucket := { start : str; gist : str }.

#[export] Instance MinuteBucket_eq_dec : EqDecision MinuteBucket.
Proof. solve_decision. Defined.

Record EpisodeInput := {
  id : option Z;
  started_at : str;
  ended_at : str;
  episode_type : option str;
  title : str;
  summary : option str;
  participants : option (list str);
  languages : option (list str);
  action_items : option (list str);
  substance : option str;
  visual_evidence : option str;
  minute_summaries : option (list MinuteBucket);
  model : option str;
  member_utterance_ids : list Z;
  member_screenshot_ids : list Z
}.

Record EpisodePurge := {
  deleted_utterances : Z;
  deleted_screenshots : Z;
  deleted_segments : Z;
  utterance_source_keys : list str;
  screenshot_source_keys : list str;
  source_key_cursor : option str;
  source_key_delivery_complete : bool
}.

Definition source_key_delivery_complete_default : bool := true.

Definition default_purge : EpisodePurge := {|
  deleted_utterances := 0; deleted_screenshots := 0; deleted_segments := 0;
  utterance_source_keys := []; screenshot_source_keys := [];
  source_key_cursor := None; source_key_delivery_complete := true |}.

(** ** Minute summaries *)

(** The minute a bucket belongs to ([/] truncates toward zero). *)
Definition minute_key (bucket : MinuteBucket) : option Z :=
  match parse_epoch_millis (start bucket) with
  | Some millis => Some (Z.quot millis 60000)
  | None => None
  end.

(** One iteration of the merge loop. *)
Definition insert_bucket (by_start : bmap Z MinuteBucket) (bucket : MinuteBucket) :
  bmap Z MinuteBucket :=
  if is_blank (gist bucket) then by_start
  else match minute_key bucket with
       | Some key => binsert key bucket by_start
       | None => by_start
       end.

Definition insert_buckets (l : list MinuteBucket) (m : bmap Z MinuteBucket) :
  bmap Z MinuteBucket := fold_left insert_bucket l m.

Section MinuteMerge.
(** [serde_json::from_str] and [serde_json::to_string] on bucket lists. *)
Context (from_str : str -> option (list MinuteBucket)).
Context (to_string : list MinuteBucket -> option str).

Definition existing_buckets (existing_json : option str) : list MinuteBucket :=
  match existing_json with
  | Some value => default [] (from_str value)
  | None => []
  end.

Definition merge_minute_summaries (existing_json : option str) (new : list MinuteBucket) :
  option (str * str) :=
  let by_start := insert_buckets (existing_buckets existing_json ++ new) [] in
  if is_empty by_start then None
  else let merged := bvalues by_start in
       Some (default (lit "[]") (to_string merged), join [newline] (gist <$> merged)).
End MinuteMerge.

(** ** Substance and visual evidence *)

Definition validate_substance (value : str) : option str :=
  let v := to_ascii_lowercase (trim value) in
  if str_eqb v (lit "none") then Some (lit "none")
  else if str_eqb v (lit "low") then Some (lit "low")
  else if str_eqb v (lit "normal") then Some (lit "normal")
  else None.

Definition normalized_substance (value : option str) : str :=
  default (lit "normal") (value ≫= validate_substance).

Definition substance_rank (value : str) : Z :=
  if str_eqb value (lit "none") then 0 else if str_eqb value (lit "low") then 1 else 2.

Definition merge_substance (existing incoming : option str) : str :=
  let existing := normalized_substance existing in
  let incoming := normalized_substance incoming in
  if substance_rank incoming >? substance_rank existing then incoming else existing.

Definition validate_visual_evidence (value : str) : option str :=
  if str_eqb value (lit "none") then Some (lit "none")
  else if str_eqb value (lit "useful") then Some (lit "useful")
  else None.

Definition normalized_visual_evidence (value : option str) : str :=
  default (lit "none") (value ≫= validate_visual_evidence).

Definition visual_rank (value : str) : Z := if str_eqb value (lit "none") then 0 else 1.

Definition merge_visual_evidence (existing incoming : option str) : str :=
  let existing := normalized_visual_evidence existing in
  let incoming := normalized_visual_evidence incoming in
  if visual_rank incoming >? visual_rank existing then incoming else existing.

(** ** Minute merge: the map the loop maintains *)

(** A bucket the loop keeps, and the minute it keeps it under. *)
Definition kept (bucket : MinuteBucket) (key : Z) : Prop :=
  is_blank (gist bucket) = false /\ minute_key bucket = Some key.

Definition keyed_buckets (m : bmap Z MinuteBucket) : Prop :=
  bwf m /\ Forall (fun kv => kept kv.2 kv.1) m.

(** The last kept bucket of a minute, the specification of the merge. *)
Definition last_bucket (l : list MinuteBucket) (key : Z) : option MinuteBucket :=
  last (List.filter (fun b => negb (is_blank (gist b))
                              && bool_decide (minute_key b = Some key)) l).

Lemma insert_bucket_cases m b :
  (exists key, kept b key /\ insert_bucket m b = binsert key b m)
  \/ ((forall key, ~ kept b key) /\ insert_bucket m b = m).
Proof.
  unfold insert_bucket, kept. destruct (is_blank (gist b)) eqn:Eb; [right|].
  - split; [|done]. by intros key [? _].
  - destruct (minute_key b) as [key|] eqn:Ek; [left; eauto|right].
    split; [|done]. by intros key [_ ?].
Qed.

Lemma binsert_elem {K V} `{Ord K} (k : K) (v : V) m kv :
  kv ∈ binsert k v m -> kv = (k, v) \/ kv ∈ m.
Proof.
  induction m as [|[k' v'] m IH]; simpl; [set_solver|].
  destruct (cmp k k'); rewrite !elem_of_cons; tauto.
Qed.

Lemma insert_bucket_keyed m b : keyed_buckets m -> keyed_buckets (insert_bucket m b).
Proof.
  intros [Hm Hk]. destruct (insert_bucket_cases m b) as [(key & Hb & ->)|[_ ->]]; [|done].
  split; [auto with kioku|]. rewrite Forall_forall in *. intros kv Hin.
  apply binsert_elem in Hin as [->|Hin]; auto.
Qed.

Lemma insert_buckets_keyed l m : keyed_buckets m -> keyed_buckets (insert_buckets l m).
Proof.
  unfold insert_buckets. revert m; induction l as [|b l IH]; intros m Hm; simpl; [done|].
  by apply IH, insert_bucket_keyed.
Qed.

Lemma keyed_nil : keyed_buckets [].
Proof. split; [auto with kioku|constructor]. Qed.

Lemma insert_buckets_app l k m : insert_buckets (l ++ k) m = insert_buckets k (insert_buckets l m).
Proof. apply fold_left_app. Qed.

Lemma last_bucket_snoc l b key :
  last_bucket (l ++ [b]) key
  = if negb (is_blank (gist b)) && bool_decide (minute_key b = Some key) then Some b
    else last_bucket l key.
Proof.
  unfold last_bucket. rewrite List.filter_app. simpl.
  destruct (negb _ && _); [by rewrite last_snoc|by rewrite app_nil_r].
Qed.

(** Lookup in the loop's map is the last kept bucket of the minute. *)
Lemma insert_buckets_lookup l key : bget key (insert_buckets l []) = last_bucket l key.
Proof.
  induction l as [|b l IH] using rev_ind; [done|].
  rewrite insert_buckets_app, last_bucket_snoc. simpl.
  destruct (insert_bucket_cases (insert_buckets l []) b) as [(k & [Hb Hk] & ->)|[Hno ->]].
  - rewrite Hb. simpl. rewrite Hk. case_bool_decide as E.
    + injection E as ->. apply bget_binsert_eq.
    + rewrite bget_binsert_ne; [done|congruence|].
      apply (insert_buckets_keyed l [] keyed_nil).
  - rewrite IH. destruct (negb _ && _) eqn:E; [|done]. exfalso.
    apply andb_true_iff in E as [E1 E2]. apply negb_true_iff in E1.
    apply bool_decide_eq_true in E2. by apply (Hno key).
Qed.

(** Reinserting the values of a keyed map rebuilds it. *)
Lemma insert_values m : keyed_buckets m -> insert_buckets (bvalues m) [] = m.
Proof.
  intros [Hm Hk]. apply bmap_ext; [apply (insert_buckets_keyed _ [] keyed_nil)|done|].
  intros key. rewrite insert_buckets_lookup. unfold last_bucket.
  induction m as [|[k b] m IH] using rev_ind; [done|].
  apply Forall_app in Hk as [Hk Hkb]. apply Forall_cons in Hkb as [[Hb Hkey] _]. simpl in Hb, Hkey.
  unfold bwf, bkeys in Hm. rewrite fmap_app in Hm.
  assert (bwf m /\ Forall (fun x => lt_ord x k) (bkeys m)) as [Hwf Hlt].
  { clear - Hm. unfold bwf, bkeys. simpl in Hm. induction m as [|kv m IH]; simpl in *.
    - split; constructor.
    - apply StronglySorted_inv in Hm as [Hm Hf]. destruct (IH Hm) as [? ?].
      apply Forall_app in Hf as [Hf1 Hf2]. apply Forall_cons in Hf2 as [Hf2 _].
      split; constructor; auto. }
  unfold bvalues. rewrite fmap_app. simpl. rewrite List.filter_app. simpl.
  rewrite Hb, Hkey. simpl. case_bool_decide as E.
  - injection E as ->. rewrite last_snoc. symmetry. apply bget_elem; [|set_solver].
    unfold bwf, bkeys. by rewrite fmap_app.
  - rewrite app_nil_r. fold (bvalues m). rewrite (IH Hwf Hk).
    destruct (bget key m) as [v|] eqn:Eg.
    + symmetry. apply bget_elem; [unfold bwf, bkeys; by rewrite fmap_app|].
      apply bget_Some_elem in Eg. set_solver.
    + destruct (bget key (m ++ [(k, b)])) as [v|] eqn:Eg'; [|done].
      apply bget_Some_elem, elem_of_app in Eg' as [Hin|Hin]; [|set_solver].
      apply bget_elem in Hin; [congruence|done].
Qed.

Lemma bvalues_nil_iff {K V} (m : bmap K V) : bvalues m = [] <-> m = [].
Proof. destruct m as [|[? ?] ?]; simpl; split; congruence. Qed.

Lemma sorted_keys_of_values m :
  keyed_buckets m -> exists keys, Forall2 kept (bvalues m) keys /\ StronglySorted Z.lt keys.
Proof.
  intros [Hm Hk]. exists (bkeys m). split.
  - clear Hm. induction Hk as [|[k b] m Hb Hk IH]; simpl; by constructor.
  - unfold bwf in Hm. revert Hm. generalize (bkeys m). intros l Hl.
    induction Hl as [|k l Hl IH Hkl]; constructor; [done|].
    eapply Forall_impl; [exact Hkl|]. intros x Hx. by apply Z.compare_lt_iff.
Qed.

Lemma bvalues_lookup (m : bmap Z MinuteBucket) b key :
  keyed_buckets m -> kept b key -> b ∈ bvalues m <-> bget key m = Some b.
Proof.
  intros [Hm Hk] [Hb Hkey]. unfold bvalues. rewrite list_elem_of_fmap. split.
  - intros ([k b'] & -> & Hin). simpl in *. rewrite Forall_forall in Hk.
    destruct (Hk _ Hin) as [_ Hk']. simpl in Hk'. assert (k = key) as -> by congruence.
    by apply bget_elem.
  - intros Hg. exists (key, b). split; [done|]. by apply bget_Some_elem.
Qed.

(** Minute summaries merge into one bucket per minute.  The result is
    absent exactly when no bucket of either side has text and a readable
    time; otherwise the stored JSON reads back as the buckets in increasing
    minute order, the bucket of each minute is the last one given for it
    (incoming buckets replace stored ones), and the search text is exactly
    their gists joined by newlines. *)
Theorem minute_merge_spec from_str to_string existing new :
  (forall l, exists s, to_string l = Some s /\ from_str s = Some l) ->
  let all := existing_buckets from_str existing ++ new in
  match merge_minute_summaries from_str to_string existing new with
  | None => forall b key, b ∈ all -> ~ kept b key
  | Some (json, text) => exists merged,
      from_str json = Some merged /\ merged <> []
      /\ text = join [newline] (gist <$> merged)
      /\ (exists keys, Forall2 kept merged keys /\ StronglySorted Z.lt keys)
      /\ (forall b key, kept b key -> (b ∈ merged <-> last_bucket all key = Some b))
  end.
Proof.
  intros Hcodec all. unfold merge_minute_summaries. fold all.
  pose proof (insert_buckets_keyed all [] keyed_nil) as Hkey.
  destruct (is_empty (insert_buckets all [])) eqn:E.
  - apply is_empty_true in E. intros b key Hin [Hb Hk].
    pose proof (insert_buckets_lookup all key) as Hl. rewrite E in Hl. simpl in Hl.
    unfold last_bucket in Hl. symmetry in Hl. apply last_None in Hl.
    assert (b ∈ List.filter (fun b => negb (is_blank (gist b))
                              && bool_decide (minute_key b = Some key)) all) as Hf.
    { apply list_elem_of_In, List.filter_In. split; [by apply list_elem_of_In|].
      rewrite Hb. simpl. by apply bool_decide_eq_true. }
    rewrite Hl in Hf. by apply not_elem_of_nil in Hf.
  - apply is_empty_false in E. destruct (Hcodec (bvalues (insert_buckets all []))) as (s & Hs & Hr).
    exists (bvalues (insert_buckets all [])). rewrite Hs. simpl. split; [done|].
    split; [by rewrite bvalues_nil_iff|]. split; [done|].
    split; [by apply sorted_keys_of_values|].
    intros b key Hb. rewrite (bvalues_lookup _ b key Hkey Hb). by rewrite insert_buckets_lookup.
Qed.

(** A codec that reads back what it wrote: enough to run the merge. *)
Definition toy_buckets : list MinuteBucket :=
  [ {| start := lit "2026-01-01T00:00:10Z"; gist := lit "opening" |};
    {| start := lit "2026-01-01T00:01:00Z"; gist := lit "plan" |};
    {| start := lit "2026-01-01T00:00:40Z"; gist := lit "opening, revised" |} ].

(** A self-delimiting code of bucket lists. *)
Definition toy_str (s : str) : str := N.of_nat (length s) :: s.

Definition toy_to_string (l : list MinuteBucket) : option str :=
  Some (concat ((fun b => toy_str (start b) ++ toy_str (gist b)) <$> l)).

Definition toy_read (s : str) : option (str * str) :=
  match s with
  | [] => None
  | n :: s' => let k := N.to_nat n in
               if (k <=? length s')%nat then Some (take k s', drop k s') else None
  end.

Fixpoint toy_read_all (fuel : nat) (s : str) : option (list MinuteBucket) :=
  match fuel, s with
  | _, [] => Some []
  | O, _ => None
  | S f, _ =>
    match toy_read s with
    | Some (a, s1) =>
      match toy_read s1 with
      | Some (b, s2) =>
        match toy_read_all f s2 with
        | Some l => Some ({| start := a; gist := b |} :: l)
        | None => None
        end
      | None => None
      end
    | None => None
    end
  end.

Definition toy_from_str (s : str) : option (list MinuteBucket) := toy_read_all (length s) s.

Lemma toy_read_str a s : toy_read (toy_str a ++ s) = Some (a, s).
Proof.
  unfold toy_read, toy_str. simpl. rewrite Nat2N.id, length_app.
  rewrite (proj2 (Nat.leb_le _ _)) by lia. by rewrite take_app_length, drop_app_length.
Qed.

Lemma toy_codec l : exists s, toy_to_string l = Some s /\ toy_from_str s = Some l.
Proof.
  unfold toy_to_string. eexists. split; [reflexivity|]. unfold toy_from_str.
  assert (forall fuel, (length l <= fuel)%nat ->
    toy_read_all fuel (concat ((fun b => toy_str (start b) ++ toy_str (gist b)) <$> l)) = Some l) as H.
  { induction l as [|[a g] l IH]; intros fuel Hf; [by destruct fuel|].
    destruct fuel as [|fuel]; [simpl in Hf; lia|]. rewrite fmap_cons. cbn [concat start gist].
    cbn [toy_read_all]. rewrite <- !(assoc_L (++)), !toy_read_str.
    rewrite IH by (simpl in Hf; lia). done. }
  apply H. clear. induction l as [|[a g] l IH]; [simpl; lia|]. rewrite fmap_cons.
  cbn [concat start gist]. rewrite !length_app. unfold toy_str at 1 2.
  cbn [length]. lia.
Qed.

Lemma minute_merge_spec_witness :
  match merge_minute_summaries toy_from_str toy_to_string None toy_buckets with
  | None => False
  | Some (json, text) => exists merged, toy_from_str json = Some merged
      /\ text = join [newline] (gist <$> merged)
  end.
Proof.
  pose proof (minute_merge_spec toy_from_str toy_to_string None toy_buckets toy_codec) as H.
  destruct (merge_minute_summaries toy_from_str toy_to_string None toy_buckets) as [[json text]|] eqn:E.
  - destruct H as (merged & H1 & _ & H2 & _). eauto.
  - vm_compute in E. discriminate E.
Defined.

(** Merging is incremental.  Storing a merge and later merging more
    buckets into it gives the very JSON and text of merging everything at
    once, so splitting a session's summaries into deliveries, or replaying
    a delivery, does not change the stored episode. *)
Theorem minute_merge_incremental from_str to_string existing new more json text :
  (forall l, exists s, to_string l = Some s /\ from_str s = Some l) ->
  merge_minute_summaries from_str to_string existing new = Some (json, text) ->
  merge_minute_summaries from_str to_string (Some json) more
    = merge_minute_summaries from_str to_string existing (new ++ more)
  /\ merge_minute_summaries from_str to_string (Some json) new = Some (json, text).
Proof.
  intros Hcodec Hm.
  assert (forall k, merge_minute_summaries from_str to_string (Some json) k
    = merge_minute_summaries from_str to_string existing (new ++ k)) as Hstep.
  { intros k. unfold merge_minute_summaries in Hm |- *.
    set (m := insert_buckets (existing_buckets from_str existing ++ new) []) in *.
    assert (keyed_buckets m) as Hkey by apply (insert_buckets_keyed _ [] keyed_nil).
    destruct (is_empty m); [done|]. destruct (Hcodec (bvalues m)) as (s & Hs & Hr).
    rewrite Hs in Hm. injection Hm as Hj _. simpl in Hj. subst s. cbn [existing_buckets].
    rewrite Hr. change (default [] (Some (bvalues m))) with (bvalues m). rewrite app_assoc.
    rewrite !(insert_buckets_app _ k). fold m. by rewrite (insert_values m Hkey). }
  split; [apply Hstep|]. rewrite Hstep, <- Hm. unfold merge_minute_summaries.
  set (e := existing_buckets from_str existing).
  assert (insert_buckets (e ++ new ++ new) [] = insert_buckets (e ++ new) []) as ->; [|done].
  apply bmap_ext; [apply (insert_buckets_keyed _ [] keyed_nil)..|]. intros key.
  rewrite !insert_buckets_lookup. unfold last_bucket. rewrite !List.filter_app.
  set (f := List.filter _ new). rewrite !last_app. destruct (last f) eqn:E; [done|].
  done.
Qed.

Lemma minute_merge_incremental_witness :
  exists json text,
    merge_minute_summaries toy_from_str toy_to_string None toy_buckets = Some (json, text)
    /\ merge_minute_summaries toy_from_str toy_to_string (Some json) toy_buckets = Some (json, text).
Proof.
  eexists _, _. split; [reflexivity|].
  apply (minute_merge_incremental toy_from_str toy_to_string None toy_buckets []);
    [exact toy_codec|reflexivity].
Defined.

(** ** Substance and visual evidence form chains *)

Definition substance_levels : list str := [lit "none"; lit "low"; lit "normal"].
Definition visual_levels : list str := [lit "none"; lit "useful"].

Lemma normalized_substance_level v : normalized_substance v ∈ substance_levels.
Proof.
  unfold normalized_substance, substance_levels. destruct v as [v|]; simpl; [|set_solver].
  unfold validate_substance. case_ifs; simpl; set_solver.
Qed.

Lemma normalized_visual_level v : normalized_visual_evidence v ∈ visual_levels.
Proof.
  unfold normalized_visual_evidence, visual_levels. destruct v as [v|]; simpl; [|set_solver].
  unfold validate_visual_evidence. case_ifs; simpl; set_solver.
Qed.

Lemma normalized_substance_id v : v ∈ substance_levels -> normalized_substance (Some v) = v.
Proof.
  unfold substance_levels. rewrite !elem_of_cons. intros [->|[->|[->|Hin]]]; try reflexivity.
  by apply not_elem_of_nil in Hin.
Qed.

(** Substance and visual evidence merge monotonically.  Both merges take
    the greater of two levels of a chain after normalisation, whatever the
    stored text is, so the order and number of deliveries of the same
    classifications does not matter and a stored level never drops. *)
Theorem evidence_merge_semilattice a b c :
  (merge_substance a b ∈ substance_levels /\ merge_visual_evidence a b ∈ visual_levels)
  /\ (substance_rank (merge_substance a b)
        = Z.max (substance_rank (normalized_substance a)) (substance_rank (normalized_substance b))
      /\ visual_rank (merge_visual_evidence a b)
        = Z.max (visual_rank (normalized_visual_evidence a)) (visual_rank (normalized_visual_evidence b)))
  /\ (merge_substance a b = merge_substance b a
      /\ merge_visual_evidence a b = merge_visual_evidence b a)
  /\ (merge_substance (Some (merge_substance a b)) c = merge_substance a (Some (merge_substance b c))
      /\ merge_visual_evidence (Some (merge_visual_evidence a b)) c
         = merge_visual_evidence a (Some (merge_visual_evidence b c)))
  /\ (merge_substance (Some (merge_substance a b)) b = merge_substance a b
      /\ merge_visual_evidence (Some (merge_visual_evidence a b)) b = merge_visual_evidence a b).
Proof.
  pose proof (normalized_substance_level a) as Ha. pose proof (normalized_substance_level b) as Hb.
  pose proof (normalized_substance_level c) as Hc. pose proof (normalized_visual_level a) as Va.
  pose proof (normalized_visual_level b) as Vb. pose proof (normalized_visual_level c) as Vc.
  unfold merge_substance, merge_visual_evidence.
  revert Ha Hb Hc Va Vb Vc.
  generalize (normalized_substance a) (normalized_substance b) (normalized_substance c)
    (normalized_visual_evidence a) (normalized_visual_evidence b) (normalized_visual_evidence c).
  unfold substance_levels, visual_levels. intros x y z u v w.
  rewrite !elem_of_cons, !elem_of_nil.
  intros [->|[->|[->|[]]]] [->|[->|[->|[]]]] [->|[->|[->|[]]]]
    [->|[->|[]]] [->|[->|[]]] [->|[->|[]]]; vm_compute; repeat split; auto.
  all: repeat (first [by left | right]).
Qed.
