(* ===== verification/NameEvidence.v ===== *)
(** * Name evidence

    [persistence/media_processing.rs]: names as lists of lower-case parts
    without honorifics, the spelling-refinement relation between two names,
    and the decision whether an audio turn is a speaker's own introduction.
    The Unicode tables of the Rust standard library are the [Unicode]
    interface of [Text]. *)
From Stdlib Require Import ZArith Lia.
From S2P Require Import Prelude Text F64.
Local Open Scope Z_scope.

(** [AudioTurn] and [PersonFact] of cp/media.rs. *)
Record PersonFact := {
  predicate : str;
  pf_value : str;
  pf_evidence : str;
  pf_confidence : option f64;
  replacement_of : option str
}.

Record AudioTurn := {
  turn_id : str;
  start_ms : Z;
  end_ms : Z;
  speaker_local_id : str;
  text : str;
  language : option str;
  speaker_name : option str;
  speaker_name_confidence : option f64;
  speaker_name_evidence : option str;
  speaker_name_kind : option str;
  speaker_name_subject_turn_id : option str;
  speaker_name_target_turn_id : option str;
  person_facts : list PersonFact;
  overlap : bool;
  quality_flags : list str
}.

(** [literal.windows(quoted.len()).any(|words| words == quoted)]: a
    contiguous occurrence. *)
Fixpoint has_window (quoted literal : list str) : bool :=
  bool_decide (take (length quoted) literal = quoted)
  || match literal with [] => false | _ :: l => has_window quoted l end.

(** [is_ordered_name_subset]: the loop advances [next] on each match. *)
Fixpoint is_ordered_name_subset (shorter longer : list str) : bool :=
  match longer with
  | [] => is_empty shorter
  | part :: longer' =>
    match shorter with
    | next :: shorter' =>
      if str_eqb next part then is_ordered_name_subset shorter' longer'
      else is_ordered_name_subset shorter longer'
    | [] => is_ordered_name_subset shorter longer'
    end
  end.

Definition HONORIFICS : list string :=
  ["mr"; "mrs"; "ms"; "miss"; "mx"; "dr"; "doctor"; "prof"; "professor"; "sir"; "dame"]%string.

Definition GREETINGS : list string :=
  ["hi"; "hello"; "hey"; "yes"; "yeah"; "yep"; "um"; "uh"; "well"; "actually"]%string.

Definition PREFIXES : list (list str) :=
  [ [lit "my"; lit "name"; lit "is"];
    [lit "my"; lit "full"; lit "name"; lit "is"];
    [lit "i"; lit "am"];
    [lit "i'm"];
    [ulit "i’m"];
    [lit "im"];
    [lit "call"; lit "me"];
    [lit "i"; lit "go"; lit "by"] ].

Definition NAME_REQUESTS : list str :=
  [ lit "what is your name"; lit "what's your name"; ulit "what’s your name";
    lit "may i ask your name"; lit "can i have your name"; lit "could you tell me your name";
    lit "what should i call you"; lit "how should i address you"; lit "who are you";
    ulit "cuál es tu nombre"; ulit "cómo te llamas"; lit "quel est votre nom";
    lit "quel est ton nom"; lit "comment vous appelez-vous"; lit "comment tu t'appelles";
    ulit "comment tu t’appelles"; ulit "wie heißt du"; lit "wie heisst du";
    lit "wie ist dein name"; lit "come ti chiami"; ulit "qual è il tuo nome";
    ulit "qual é seu nome"; ulit "お名前は"; ulit "お名前は何ですか";
    ulit "이름이 뭐예요"; ulit "성함이 어떻게 되세요" ].

(** The quotation marks of [opens_quote]. *)
Definition QUOTES : list char := [34; 0x201C; 0x201D; 39; 0x2018; 0x2019]%N.

Section Names.
Context `{Unicode}.

Definition name_part (part : str) : str :=
  to_lowercase (trim_matches (fun character => negb (is_alphanumeric character)) part).

Definition keeps_part (part : str) : bool := negb (is_empty part) && negb (one_of part HONORIFICS).

Definition semantic_name_parts (value : str) : list str :=
  List.filter keeps_part (name_part <$> split_whitespace value).

Definition names_form_refinement (left right : str) : bool :=
  let left := semantic_name_parts left in
  let right := semantic_name_parts right in
  if is_empty left || is_empty right then false
  else if (length left <=? length right)%nat then is_ordered_name_subset left right
  else is_ordered_name_subset right left.

Definition prefer_claimed_display_name (current claimed : str) : bool :=
  names_form_refinement current claimed
  && (length (semantic_name_parts current) <? length (semantic_name_parts claimed))%nat.

Definition is_bare_name_evidence (evidence claimed_name : str) : bool :=
  let evidence := semantic_name_parts evidence in
  let claimed_name := semantic_name_parts claimed_name in
  negb (is_empty claimed_name) && bool_decide (evidence = claimed_name).

Definition opens_quote (word : str) : bool :=
  existsb (fun character => bool_decide (character ∈ QUOTES))
    (take_while (fun character => negb (is_alphanumeric character)) word).

Definition is_greeting (first : str) : bool :=
  match semantic_name_parts first with
  | part :: _ => one_of part GREETINGS
  | [] => false
  end.

(** The [while let] loop that skips greetings; every round drops at least
    one character, so the length of the text is fuel enough. *)
Fixpoint skip_greetings (fuel : nat) (raw : str) : str :=
  match fuel with
  | O => raw
  | S f =>
    match split_once_by is_whitespace raw with
    | Some (first, rest) =>
      if opens_quote first || negb (is_greeting first) then raw
      else skip_greetings f (trim_start rest)
    | None => raw
    end
  end.

Definition introduction_text (evidence : str) : str :=
  let raw := trim_start evidence in skip_greetings (length raw) raw.

(** The [unquoted_span] closure, from the number of parts already seen. *)
Fixpoint unquoted_words (words : list str) (seen word_count : nat) : bool :=
  match words with
  | [] => false
  | word :: words' =>
    if opens_quote word then false
    else let seen := (seen + length (semantic_name_parts word))%nat in
         if (word_count <=? seen)%nat then true else unquoted_words words' seen word_count
  end.

Definition unquoted_span (raw : str) (word_count : nat) : bool :=
  unquoted_words (split_whitespace raw) 0 word_count.

Definition is_explicit_self_identification (evidence claimed_name : str) : bool :=
  let raw := introduction_text evidence in
  let evidence := semantic_name_parts raw in
  let claimed_name := semantic_name_parts claimed_name in
  if is_empty claimed_name then false
  else
    existsb (fun prefix =>
      (length prefix + length claimed_name <=? length evidence)%nat
      && unquoted_span raw (length prefix + length claimed_name)
      && bool_decide (take (length prefix) evidence = prefix)
      && bool_decide (take (length claimed_name) (drop (length prefix) evidence) = claimed_name))
      PREFIXES
    || ((length evidence =? length claimed_name + 1)%nat
        && unquoted_span raw (length evidence)
        && bool_decide (take (length claimed_name) evidence = claimed_name)
        && match last evidence with Some part => str_eqb part (lit "speaking") | None => false end).

Definition is_name_request (text : str) : bool :=
  let words := semantic_name_parts text in
  let words := drop_while (fun word => one_of word ["please"; "hi"; "hello"]%string) words in
  let words := reverse (drop_while (fun word => one_of word ["please"; "again"]%string) (reverse words)) in
  bool_decide (join [space] words ∈ NAME_REQUESTS).

(** Another turn overlaps this one in time. *)
Definition overlapped (turn : AudioTurn) (turns : list AudioTurn) : bool :=
  existsb (fun other => negb (str_eqb (turn_id other) (turn_id turn))
                        && (start_ms other <? end_ms turn)
                        && (start_ms turn <? end_ms other)) turns.

Definition ninety_percent : f64 := f64_lit 90 100.

(** The last turn that ended before this one began. *)
Definition previous_turn (turn : AudioTurn) (turns : list AudioTurn) : option AudioTurn :=
  max_by (on_key (fun candidate => (end_ms candidate, start_ms candidate)))
    (List.filter (fun candidate => negb (str_eqb (turn_id candidate) (turn_id turn))
                                   && (end_ms candidate <=? start_ms turn)) turns).

Definition answers_name_request (turn : AudioTurn) (turns : list AudioTurn) : bool :=
  match previous_turn turn turns with
  | Some candidate =>
    negb (str_eqb (speaker_local_id candidate) (speaker_local_id turn))
    && (I64.sub (start_ms turn) (end_ms candidate) <=? 8000)
    && negb (overlap candidate)
    && negb (overlapped candidate turns)
    && is_name_request (text candidate)
  | None => false
  end.

Definition is_supported_self_identification (turn : AudioTurn) (turns : list AudioTurn) : bool :=
  if negb (bool_decide (speaker_name_kind turn = Some (lit "self_identification")))
     || negb (bool_decide (speaker_name_subject_turn_id turn = Some (turn_id turn)))
     || overlap turn
     || overlapped turn turns
  then false
  else match speaker_name turn, speaker_name_evidence turn, speaker_name_confidence turn with
  | Some name, Some evidence, Some confidence =>
    if negb (f64_is_finite confidence) || f64_ltb confidence ninety_percent then false
    else
      let literal := semantic_name_parts (text turn) in
      let quoted := semantic_name_parts evidence in
      if is_empty quoted || negb (has_window quoted literal) then false
      else if is_explicit_self_identification (text turn) name then true
      else if negb (is_bare_name_evidence evidence name)
              || negb (is_bare_name_evidence (text turn) name) then false
      else answers_name_request turn turns
  | _, _, _ => false
  end.

Definition is_owner_source_audio (audio_role : option str) (distinct_speakers : Z) : bool :=
  bool_decide (audio_role = Some (lit "local_transmit")) && (distinct_speakers <=? 1).
End Names.

(** ** Refinement is comparability under the subsequence order *)

Lemma is_ordered_name_subset_spec shorter longer :
  is_ordered_name_subset shorter longer = true <-> sublist shorter longer.
Proof.
  revert shorter; induction longer as [|part longer IH]; intros shorter; simpl.
  - rewrite is_empty_true. split; [by intros ->; constructor|]. by intros E%sublist_nil_r.
  - destruct shorter as [|next shorter].
    + rewrite IH. split; intros _; apply sublist_nil_l.
    + destruct (str_eqb next part) eqn:E.
      * apply str_eqb_eq in E as ->. rewrite IH. split; [by apply sublist_skip|].
        intros Hs. inversion Hs; subst; [done|]. etrans; [|done]. by apply sublist_cons.
      * rewrite IH. split; [by apply sublist_cons|]. intros Hs. inversion Hs; subst; [|done].
        by rewrite str_eqb_refl in E.
Qed.

Lemma sublist_full {A} (l k : list A) : sublist l k -> (length k <= length l)%nat -> l = k.
Proof.
  induction 1 as [|x l k Hs IH|x l k Hs IH]; simpl; intros Hl; [done| |].
  - f_equal. apply IH. lia.
  - pose proof (sublist_length _ _ Hs). lia.
Qed.

Section Refinement.
Context `{Unicode}.

Lemma names_form_refinement_parts l r :
  names_form_refinement l r = true
  <-> semantic_name_parts l <> [] /\ semantic_name_parts r <> []
      /\ (sublist (semantic_name_parts l) (semantic_name_parts r)
          \/ sublist (semantic_name_parts r) (semantic_name_parts l)).
Proof.
  unfold names_form_refinement.
  destruct (is_empty (semantic_name_parts l) || is_empty (semantic_name_parts r)) eqn:E; bool_prop.
  - rewrite !is_empty_true in E. split; [done|]. intros (? & ? & _). tauto.
  - rewrite !is_empty_false in E. destruct E as [El Er].
    destruct (length (semantic_name_parts l) <=? length (semantic_name_parts r))%nat eqn:Elen;
      bool_prop; rewrite is_ordered_name_subset_spec; (split; [tauto|]); intros (_ & _ & [Hs|Hs]); auto.
    + pose proof (sublist_length _ _ Hs) as Hl.
      rewrite (sublist_full _ _ Hs) by lia. done.
    + pose proof (sublist_length _ _ Hs) as Hl. lia.
Qed.

Lemma names_form_refinement_sym l r : names_form_refinement l r = names_form_refinement r l.
Proof. apply Bool.eq_iff_eq_true. rewrite !names_form_refinement_parts. tauto. Qed.

Lemma names_form_refinement_refl n :
  semantic_name_parts n <> [] -> names_form_refinement n n = true.
Proof. intros Hn. apply names_form_refinement_parts. split; [done|]. split; [done|]. by left. Qed.
End Refinement.

(** The refinement test of two spellings.  It holds exactly when both
    names have a part besides honorifics and one part list is a subsequence
    of the other; it is symmetric; and a claimed display name is preferred
    exactly when it extends the current one by at least one part, so
    replacing a name by a preferred one can never be undone or cycle. *)
Theorem refinement_is_subsequence `{Unicode} l r :
  (names_form_refinement l r = true
   <-> semantic_name_parts l <> [] /\ semantic_name_parts r <> []
       /\ (sublist (semantic_name_parts l) (semantic_name_parts r)
           \/ sublist (semantic_name_parts r) (semantic_name_parts l)))
  /\ names_form_refinement l r = names_form_refinement r l
  /\ (prefer_claimed_display_name l r = true
      <-> semantic_name_parts l <> [] /\ semantic_name_parts l <> semantic_name_parts r
          /\ sublist (semantic_name_parts l) (semantic_name_parts r))
  /\ (prefer_claimed_display_name l r = true -> prefer_claimed_display_name r l = false).
Proof.
  split; [apply names_form_refinement_parts|]. split; [apply names_form_refinement_sym|].
  unfold prefer_claimed_display_name. split.
  - rewrite andb_true_iff, names_form_refinement_parts, Nat.ltb_lt. split.
    + intros [(Hl & Hr & [Hs|Hs]) Hlen]; [|pose proof (sublist_length _ _ Hs); lia].
      split; [done|]. split; [|done]. intros E. rewrite E in Hlen. lia.
    + intros (Hl & Hne & Hs). pose proof (sublist_length _ _ Hs) as Hlen.
      assert (length (semantic_name_parts l) <> length (semantic_name_parts r)) as Hd.
      { intros E. apply Hne. apply sublist_full; [done|lia]. }
      split; [|lia]. split; [done|]. split; [|by left].
      intros E. rewrite E in Hs. by apply sublist_nil_r in Hs.
  - rewrite andb_true_iff, andb_false_iff, Nat.ltb_lt, Nat.ltb_ge. intros [_ Hlen]. right. lia.
Qed.

Lemma refinement_is_subsequence_witness :
  let U := ascii_unicode in
  prefer_claimed_display_name (lit "Sarah") (lit "Dr. Sarah Babetski") = true
  /\ prefer_claimed_display_name (lit "Dr. Sarah Babetski") (lit "Sarah") = false.
Proof.
  split; [reflexivity|].
  apply (refinement_is_subsequence (H := ascii_unicode) (lit "Sarah") (lit "Dr. Sarah Babetski")).
  reflexivity.
Defined.

(** ** Parts of a text *)

Lemma split_whitespace_app a c b :
  is_whitespace c = true -> split_whitespace (a ++ c :: b) = split_whitespace a ++ split_whitespace b.
Proof. intros Hc. unfold split_whitespace. by rewrite split_by_app, List.filter_app. Qed.

Lemma split_whitespace_trim_start s : split_whitespace (trim_start s) = split_whitespace s.
Proof.
  induction s as [|c s IH]; [done|].
  change (trim_start (c :: s)) with (if is_whitespace c then trim_start s else c :: s).
  destruct (is_whitespace c) eqn:E; [|done]. rewrite IH. symmetry. exact (split_whitespace_app [] c s E).
Qed.

Lemma split_once_by_Some p s a b :
  split_once_by p s = Some (a, b) -> exists c, p c = true /\ s = a ++ c :: b.
Proof.
  revert a b; induction s as [|x s IH]; intros a b; simpl; [done|].
  destruct (p x) eqn:E.
  - intros [= <- <-]. by exists x.
  - destruct (split_once_by p s) as [[a' b']|]; [|done]. intros [= <- <-].
    destruct (IH a' b' eq_refl) as (c & Hc & ->). by exists c.
Qed.

Section Introduction.
Context `{Unicode}.

Lemma semantic_name_parts_words s :
  semantic_name_parts s = List.filter keeps_part (name_part <$> split_whitespace s).
Proof. done. Qed.

(** The words left after the greetings are a suffix of the words said. *)
Lemma skip_greetings_suffix fuel raw :
  exists before, split_whitespace raw = before ++ split_whitespace (skip_greetings fuel raw).
Proof.
  revert raw; induction fuel as [|f IH]; intros raw; simpl; [by exists []|].
  destruct (split_once_by is_whitespace raw) as [[first rest]|] eqn:E; [|by exists []].
  destruct (opens_quote first || negb (is_greeting first)); [by exists []|].
  destruct (IH (trim_start rest)) as [before Hb].
  apply split_once_by_Some in E as (c & Hc & ->).
  exists (split_whitespace first ++ before).
  by rewrite (split_whitespace_app first c rest Hc), <- (split_whitespace_trim_start rest), Hb, app_assoc.
Qed.

Lemma introduction_text_suffix s :
  exists before, split_whitespace s = before ++ split_whitespace (introduction_text s).
Proof.
  unfold introduction_text. rewrite <- (split_whitespace_trim_start s).
  apply skip_greetings_suffix.
Qed.

(** More fuel than the length of the text changes nothing: the loop of the
    code ends by itself. *)
Lemma trim_start_length s : (length (trim_start s) <= length s)%nat.
Proof.
  unfold trim_start. induction s as [|c s IH]; simpl; [lia|]. destruct (is_whitespace c); simpl; lia.
Qed.

Lemma skip_greetings_fuel fuel raw :
  (length raw <= fuel)%nat -> skip_greetings fuel raw = skip_greetings (length raw) raw.
Proof.
  revert raw; induction fuel as [fuel IH] using lt_wf_ind; intros raw Hf.
  destruct fuel as [|f]; [destruct raw; simpl in Hf; [done|lia]|].
  destruct raw as [|c raw]; [done|]. cbn [skip_greetings length] in *.
  destruct (split_once_by is_whitespace (c :: raw)) as [[first rest]|] eqn:E; [|done].
  destruct (opens_quote first || negb (is_greeting first)); [done|].
  apply split_once_by_Some in E as (w & _ & E). apply (f_equal length) in E.
  rewrite length_app in E. simpl in E. pose proof (trim_start_length rest).
  rewrite (IH f) by lia. destruct (decide (f = length raw)) as [->|Hne].
  - by rewrite (IH (length raw)) by lia.
  - by rewrite (IH (length raw)) by lia.
Qed.

(** A word of a text has no white space, so it is its own only word. *)
Lemma split_by_word (p : char -> bool) s w :
  w ∈ split_by p s -> Forall (fun c => p c = false) w.
Proof.
  revert w; induction s as [|c s IH]; intros w; simpl.
  - rewrite list_elem_of_singleton. intros ->. constructor.
  - destruct (p c) eqn:E.
    + rewrite elem_of_cons. intros [->|Hw]; [constructor|by apply IH].
    + destruct (split_by p s) as [|w0 ws]; rewrite ?list_elem_of_singleton, ?elem_of_cons.
      * intros ->. by repeat constructor.
      * intros [->|Hw]; [|apply IH; by right]. constructor; [done|]. apply IH. left.
Qed.

Lemma split_by_none (p : char -> bool) w : Forall (fun c => p c = false) w -> split_by p w = [w].
Proof. induction 1 as [|c w Hc Hw IH]; simpl; [done|]. by rewrite Hc, IH. Qed.

Lemma split_whitespace_word s w : w ∈ split_whitespace s -> split_whitespace w = [w].
Proof.
  unfold split_whitespace. rewrite list_elem_of_In, List.filter_In, <- list_elem_of_In.
  intros [Hw Hne]. apply split_by_word in Hw. rewrite (split_by_none _ _ Hw). simpl.
  by rewrite Hne.
Qed.

Lemma parts_of_words s ws rest :
  split_whitespace s = ws ++ rest ->
  exists more, semantic_name_parts s = concat (semantic_name_parts <$> ws) ++ more.
Proof.
  intros E. rewrite semantic_name_parts_words, E, fmap_app, List.filter_app.
  eexists. f_equal. assert (Forall (fun w => split_whitespace w = [w]) ws) as Hws.
  { apply Forall_forall. intros w Hw. apply (split_whitespace_word s). rewrite E. set_solver. }
  clear E. induction Hws as [|w ws Hw Hws IH]; [done|]. rewrite !fmap_cons. simpl concat.
  rewrite (semantic_name_parts_words w), Hw, <- IH. simpl. by destruct (keeps_part _).
Qed.

Lemma unquoted_words_spec words seen n :
  unquoted_words words seen n = true ->
  exists ws rest, words = ws ++ rest /\ Forall (fun w => opens_quote w = false) ws
    /\ (n <= seen + length (concat (semantic_name_parts <$> ws)))%nat.
Proof.
  revert seen; induction words as [|w words IH]; intros seen; simpl; [done|].
  destruct (opens_quote w) eqn:Ew; [done|].
  destruct (n <=? seen + length (semantic_name_parts w))%nat eqn:E; bool_prop.
  - intros _. exists [w], words. split; [done|]. split; [by repeat constructor|].
    simpl. rewrite app_nil_r. lia.
  - intros Hu. destruct (IH _ Hu) as (ws & rest & -> & Hws & Hn).
    exists (w :: ws), rest. split; [done|]. split; [by constructor|].
    rewrite fmap_cons. cbn [concat]. rewrite length_app. unfold str, char in *. lia.
Qed.

(** The span of an introduction lies inside words that open no quotation. *)
Lemma unquoted_span_prefix raw span :
  unquoted_span raw (length span) = true ->
  take (length span) (semantic_name_parts raw) = span ->
  exists ws rest more, split_whitespace raw = ws ++ rest
    /\ Forall (fun w => opens_quote w = false) ws
    /\ concat (semantic_name_parts <$> ws) = span ++ more.
Proof.
  intros Hu Ht. apply unquoted_words_spec in Hu as (ws & rest & E & Hws & Hn).
  destruct (parts_of_words raw ws rest E) as [more Hp].
  exists ws, rest, (drop (length span) (concat (semantic_name_parts <$> ws))).
  split; [done|]. split; [done|]. simpl in Hn.
  rewrite Hp, take_app_le in Ht by done. rewrite <- Ht at 1. by rewrite take_drop.
Qed.

Lemma take_app_drop {A} (l a b : list A) :
  take (length a) l = a -> take (length b) (drop (length a) l) = b ->
  take (length (a ++ b)) l = a ++ b.
Proof.
  intros Ha Hb. rewrite length_app. rewrite <- (take_drop (length a) l) at 1.
  rewrite Ha, take_app_add', Hb by done. done.
Qed.

(** What an explicit introduction is: after the greetings and a fixed
    opening, or before a final "speaking", the unquoted words are the name. *)
Definition introduces (said : str) (name : list str) : Prop :=
  exists before ws rest lead tail,
    split_whitespace said = before ++ ws ++ rest
    /\ Forall (fun w => opens_quote w = false) ws
    /\ concat (semantic_name_parts <$> ws) = lead ++ name ++ tail
    /\ (lead ∈ PREFIXES \/ lead = [] /\ tail = [lit "speaking"]).

Lemma explicit_introduces said name :
  is_explicit_self_identification said name = true ->
  semantic_name_parts name <> [] /\ introduces said (semantic_name_parts name).
Proof.
  unfold is_explicit_self_identification. set (raw := introduction_text said).
  destruct (introduction_text_suffix said) as [before Hbefore]. fold raw in Hbefore.
  destruct (is_empty (semantic_name_parts name)) eqn:En; [done|]. apply is_empty_false in En.
  intros Hex. split; [done|]. unfold introduces. apply orb_true_iff in Hex as [Hex|Hex].
  - apply existsb_Exists in Hex as (prefix & Hin & Hp). bool_prop.
    destruct Hp as [[[Hlen Hu] Hp] Hn]. apply bool_decide_eq_true in Hp, Hn.
    rewrite <- length_app in Hu.
    destruct (unquoted_span_prefix raw _ Hu (take_app_drop _ _ _ Hp Hn)) as (ws & rest & more & E & Hws & Hc).
    exists before, ws, rest, prefix, more. rewrite Hbefore, E. rewrite <- app_assoc in Hc. auto.
  - bool_prop. destruct Hex as [[[Hlen Hu] Hn] Hl]. apply bool_decide_eq_true in Hn.
    destruct (unquoted_span_prefix raw (semantic_name_parts raw)) as (ws & rest & more & E & Hws & Hc);
      [done|by rewrite take_ge|].
    destruct (parts_of_words raw ws rest E) as [more' Hp].
    assert (more = [] /\ more' = []) as [-> ->].
    { rewrite Hc, <- app_assoc in Hp. rewrite <- (app_nil_r (semantic_name_parts raw)) in Hp at 1.
      apply app_inv_head in Hp. symmetry in Hp. by apply app_eq_nil in Hp. }
    exists before, ws, rest, [], [lit "speaking"]. rewrite Hbefore, E, Hc, app_nil_r.
    split; [done|]. split; [done|]. split; [|by right]. simpl.
    rewrite <- (take_drop (length (semantic_name_parts name)) (semantic_name_parts raw)), Hn.
    f_equal. remember (drop (length (semantic_name_parts name)) (semantic_name_parts raw)) as d eqn:Ed.
    assert (length d = 1)%nat as Hd by (rewrite Ed, length_drop, Hlen; lia).
    destruct d as [|x [|? ?]]; try done.
    rewrite <- (take_drop (length (semantic_name_parts name)) (semantic_name_parts raw)), <- Ed, last_snoc in Hl.
    apply str_eqb_eq in Hl as ->. done.
Qed.

Lemma has_window_spec quoted literal :
  has_window quoted literal = true <-> exists a b, literal = a ++ quoted ++ b.
Proof.
  induction literal as [|x l IH]; simpl.
  - rewrite orb_false_r, bool_decide_eq_true, take_nil. split.
    + intros <-. by exists [], [].
    + intros (a & b & E). symmetry in E. apply app_eq_nil in E as [-> E].
      by apply app_eq_nil in E as [-> _].
  - rewrite orb_true_iff, bool_decide_eq_true, IH. split.
    + intros [E|(a & b & ->)]; [|by exists (x :: a), b].
      exists [], (drop (length quoted) (x :: l)). simpl. rewrite <- E at 1. by rewrite take_drop.
    + intros ([|y a] & b & E); [left|right].
      * rewrite E. simpl. by rewrite take_app_length.
      * injection E as -> ->. by exists a, b.
Qed.

(** A supported self-identification is grounded.  The turn claims
    itself as the subject, overlaps no other turn, its confidence is finite
    and at least 0.90, its quoted evidence occurs word for word in what was
    said, and either the turn introduces the name outside any quotation, or
    its only words are the name and the last turn before it, by another
    speaker at most eight seconds earlier, asks for one. *)
Theorem supported_self_identification_sound turn turns :
  is_supported_self_identification turn turns = true ->
  speaker_name_subject_turn_id turn = Some (turn_id turn)
  /\ overlap turn = false /\ overlapped turn turns = false
  /\ exists name evidence confidence,
       speaker_name turn = Some name /\ semantic_name_parts name <> []
       /\ speaker_name_evidence turn = Some evidence
       /\ speaker_name_confidence turn = Some confidence
       /\ f64_is_finite confidence = true /\ f64_ltb confidence ninety_percent = false
       /\ (exists a b, semantic_name_parts (text turn) = a ++ semantic_name_parts evidence ++ b)
       /\ (introduces (text turn) (semantic_name_parts name)
           \/ semantic_name_parts (text turn) = semantic_name_parts name
              /\ exists asked, previous_turn turn turns = Some asked
                   /\ asked ∈ turns /\ speaker_local_id asked <> speaker_local_id turn
                   /\ end_ms asked <= start_ms turn
                   /\ overlapped asked turns = false /\ is_name_request (text asked) = true).
Proof.
  unfold is_supported_self_identification.
  destruct (negb _ || negb _ || overlap turn || overlapped turn turns) eqn:Eg; [done|].
  bool_prop. destruct Eg as [[[Hk Hs] Ho] Hov]. apply bool_decide_eq_true in Hs.
  destruct (speaker_name turn) as [name|] eqn:En; [|done].
  destruct (speaker_name_evidence turn) as [evidence|] eqn:Ee; [|done].
  destruct (speaker_name_confidence turn) as [confidence|] eqn:Ec; [|done].
  destruct (negb (f64_is_finite confidence) || f64_ltb confidence ninety_percent) eqn:Ef; [done|].
  bool_prop. destruct Ef as [Hfin Hge].
  destruct (is_empty _ || negb (has_window _ _)) eqn:Ew; [done|]. bool_prop.
  destruct Ew as [_ Hw]. apply has_window_spec in Hw. intros Hres.
  split; [done|]. split; [done|]. split; [done|]. exists name, evidence, confidence.
  destruct (is_explicit_self_identification (text turn) name) eqn:Ex.
  - apply explicit_introduces in Ex as [Hne Hi]. auto 10.
  - destruct (negb (is_bare_name_evidence evidence name) || _) eqn:Eb; [done|]. bool_prop.
    destruct Eb as [_ Hb]. unfold is_bare_name_evidence in Hb. bool_prop.
    destruct Hb as [Hne Hb]. apply is_empty_false in Hne. apply bool_decide_eq_true in Hb.
    unfold answers_name_request in Hres. destruct (previous_turn turn turns) as [asked|] eqn:Ep; [|done].
    bool_prop. destruct Hres as [[[[Hsp Ht] _] Hao] Hreq].
    do 7 (split; [done|]). right. split; [done|]. exists asked.
    pose proof (max_by_elem _ _ _ Ep) as Hin.
    apply list_elem_of_In, List.filter_In in Hin as [Hin Hg]. apply list_elem_of_In in Hin.
    bool_prop. destruct Hg as [_ Hend]. split; [done|]. split; [done|]. split; [|done].
    intros E. rewrite E, str_eqb_refl in Hsp. done.
Qed.
End Introduction.

(** A turn of a two-speaker exchange: "What is your name?" "Sarah." *)
Definition sample_turn (turn_id : string) (start end_ : Z) (speaker said : string)
  (name : option string) : AudioTurn := {|
  turn_id := lit turn_id; start_ms := start; end_ms := end_;
  speaker_local_id := lit speaker; text := lit said; language := None;
  speaker_name := lit <$> name; speaker_name_confidence := Some (f64_lit 95 100);
  speaker_name_evidence := lit <$> name; speaker_name_kind := Some (lit "self_identification");
  speaker_name_subject_turn_id := Some (lit turn_id); speaker_name_target_turn_id := None;
  person_facts := []; overlap := false; quality_flags := [] |}.

Definition sample_turns : list AudioTurn :=
  [ sample_turn "t1" 0 2000 "a" "What is your name, please?" None;
    sample_turn "t2" 2500 3000 "b" "Sarah." (Some "Sarah"%string) ].

Lemma supported_self_identification_sound_witness :
  let turn := sample_turn "t2" 2500 3000 "b" "Sarah." (Some "Sarah"%string) in
  speaker_name_subject_turn_id turn = Some (turn_id turn).
Proof.
  apply (supported_self_identification_sound (H := ascii_unicode)
           (sample_turn "t2" 2500 3000 "b" "Sarah." (Some "Sarah"%string)) sample_turns).
  vm_compute. reflexivity.
Defined.
