(* ===== verification/IdentityFusion.v ===== *)
(** * Fusion of name evidence

    [cp/identity_fusion.rs]: the reduction of grounded name observations of
    one established voice to a decision.  [fuse] is one long function; here
    its phases are named: [admissible], [units], [valid_inputs], the conflict
    and vote tests, [assess] for one candidate, and the final decision. *)
From Stdlib Require Import ZArith Lia.
From S2P Require Import Prelude OrdMap Text F64 NameEvidence.
Local Open Scope Z_scope.

Definition POLICY_VERSION : Z := 1.
Definition MAX_INPUTS : Z := 4096.
Definition MAINTENANCE_PROFILES : Z := 16.

Inductive Kind := SelfIntroduction | Screen | Vocative | Context | Mention.

#[export] Instance Kind_eq_dec : EqDecision Kind.
Proof. solve_decision. Defined.

(** [#[derive(Ord)]]: the order of declaration. *)
Definition kind_rank (k : Kind) : Z :=
  match k with SelfIntroduction => 0 | Screen => 1 | Vocative => 2 | Context => 3 | Mention => 4 end.

#[export] Instance Kind_ord : Ord Kind.
Proof.
  refine {| cmp := fun a b => Z.compare (kind_rank a) (kind_rank b) |}.
  - intros [] []; split; (reflexivity || discriminate).
  - intros [] []; reflexivity.
  - intros [] [] []; (reflexivity || discriminate).
Defined.

Record Input := {
  id : Z;
  name : str;
  kind : Kind;
  confidence : f64;
  source : str;
  subject : Z;
  memories : bset Z;
  voter : option str
}.

Inductive Status := Unbound | Accepted | Quarantined.

#[export] Instance Status_eq_dec : EqDecision Status.
Proof. solve_decision. Defined.

Definition as_str (s : Status) : str :=
  match s with
  | Unbound => lit "unbound"
  | Accepted => lit "accepted"
  | Quarantined => lit "quarantined"
  end.

Record Candidate := { c_name : str; accepted : bool; sources : bset Z }.

Record Decision := { status : Status; d_name : option str; candidates : list Candidate }.

(** [items.iter().enumerate().any(|(i, l)| items[i + 1..].iter().any(|r| p(l, r)))] *)
Fixpoint any_pair {A} (p : A -> A -> bool) (l : list A) : bool :=
  match l with
  | [] => false
  | x :: l' => existsb (p x) l' || any_pair p l'
  end.

Definition is_kind (k : Kind) (i : Input) : bool := bool_decide (kind i = k).

Section Fusion.
Context `{Unicode}.

Definition normalized_name (name : str) : str :=
  to_lowercase (join [space] (split_whitespace name)).

Definition parts_len (name : str) : Z := Z.of_nat (length (semantic_name_parts name)).

Definition unbound : Decision := {| status := Unbound; d_name := None; candidates := [] |}.

Definition admissible (input : Input) : bool :=
  negb (is_empty (normalized_name (name input)))
  && f64_is_finite (confidence input)
  && (f64_leb (f64_of_Z 0) (confidence input) && f64_leb (confidence input) (f64_of_Z 1)).

Definition unit_key (input : Input) : Kind * str := (kind input, source input).

(** [units.entry(key).or_default().push(input)] for each input *)
Definition push_unit (units : bmap (Kind * str) (list Input)) (input : Input) :
  bmap (Kind * str) (list Input) :=
  bmodify_or_insert (unit_key input) (fun copies => copies ++ [input]) [input] units.

Definition group_units (inputs : list Input) : bmap (Kind * str) (list Input) :=
  fold_left push_unit inputs [].

(** Two copies of one source that disagree on what they observed. *)
Definition differs (first copy : Input) : bool :=
  negb (bool_decide (subject copy = subject first))
  || negb (bool_decide (memories copy = memories first))
  || negb (bool_decide (voter copy = voter first))
  || negb (str_eqb (normalized_name (name copy)) (normalized_name (name first))).

Definition weakest (copies : list Input) : option Input :=
  min_by (on_key (fun i => (f64_total_key (confidence i), id i))) copies.

Definition settle_unit (copies : list Input) : option Input :=
  match copies with
  | [] => None
  | first :: _ => if existsb (differs first) copies then None else weakest copies
  end.

Definition valid_inputs (inputs : list Input) : list Input :=
  omap settle_unit (bvalues (group_units (List.filter admissible inputs))).

(** A screen observation strong enough to count. *)
Definition strong_screen (i : Input) : bool :=
  is_kind Screen i && f64_geb (confidence i) ninety_percent && (2 <=? parts_len (name i)).

Definition screen_conflict (valid : list Input) : bool :=
  any_pair (fun left right => negb (names_form_refinement (name left) (name right)))
    (List.filter strong_screen valid).

Definition add_name (names : bmap str str) (input : Input) : bmap str str :=
  if is_kind Mention input then names
  else bmodify_or_insert (normalized_name (name input))
         (fun name' => if ord_ltb (name input) name' then name input else name')
         (name input) names.

Definition candidate_names (valid : list Input) : bmap str str := fold_left add_name valid [].

Definition is_vote (i : Input) : bool :=
  is_kind Vocative i && match voter i with Some _ => true | None => false end.

Definition sources_of (l : list Input) : bset str := bset_of_list (source <$> l).
Definition memories_of (l : list Input) : bset Z := bset_of_list (l ≫= memories).
Definition size {A} (l : list A) : Z := Z.of_nat (length l).

Definition competing_votes (valid : list Input) (names : list str) (name' : str) : bool :=
  existsb (fun other =>
    negb (names_form_refinement name' other)
    && (let count := size (sources_of (List.filter
                       (fun i => is_vote i && names_form_refinement other (name i)) valid)) in
        (count >? 0) && (3 * count >=? size (sources_of (List.filter is_vote valid)))))
    names.

Section Candidates.
Context (valid : list Input) (names : list str) (name' : str).

Definition related : list Input :=
  List.filter (fun input => names_form_refinement name' (name input)) valid.

Definition names_candidate (input : Input) : bool := parts_len name' <=? parts_len (name input).

Definition self_identified : bool :=
  existsb (fun i => is_kind SelfIntroduction i && f64_geb (confidence i) ninety_percent
                    && names_candidate i) related.

Definition screen : list Input := List.filter strong_screen related.

Definition screened : bool :=
  negb (screen_conflict valid)
  && (3 <=? size (sources_of screen))
  && ((2 <=? size (bset_of_list (subject <$> screen))) || (2 <=? size (memories_of screen)))
  && existsb names_candidate screen.

Definition vocative : list Input := List.filter is_vote related.

Definition addressed : bool :=
  (3 <=? size (sources_of vocative))
  && (2 <=? size (bset_of_list (omap voter vocative)))
  && (2 <=? size (memories_of vocative))
  && negb (competing_votes valid names name')
  && existsb names_candidate vocative.

Definition probationary : bool := negb (is_empty screen) || negb (is_empty vocative).

Definition full_contexts : list Input :=
  List.filter (fun i => is_kind Context i && (2 <=? parts_len (name i)) && names_candidate i) related.

Definition competing_context : bool :=
  existsb (fun i => is_kind Context i && negb (names_form_refinement name' (name i))) valid.

Definition corroborated : bool :=
  negb (screen_conflict valid) && probationary && (2 <=? parts_len name')
  && (2 <=? size (memories_of full_contexts))
  && negb competing_context && negb (competing_votes valid names name').

Definition candidate_of : option Candidate :=
  if self_identified || probationary then
    Some {| c_name := name';
            accepted := self_identified || screened || addressed || corroborated;
            sources := bset_of_list (id <$> List.filter (fun i => negb (is_kind Mention i)) related) |}
  else None.
End Candidates.

(** The decision from the candidates. *)
Definition decide_candidates (candidates : list Candidate) : Decision :=
  let accepted := List.filter accepted candidates in
  let conflict := any_pair (fun left right =>
        negb (names_form_refinement (c_name left) (c_name right))) accepted in
  let name := if conflict then None
              else c_name <$> max_by (on_key (fun c => (parts_len (c_name c), c_name c))) accepted in
  {| status := if conflict then Quarantined
               else match name with Some _ => Accepted | None => Unbound end;
     d_name := name;
     candidates := candidates |}.

Definition assess (valid : list Input) : Decision :=
  let names := bvalues (candidate_names valid) in
  decide_candidates (omap (candidate_of valid names) names).

Definition fuse (inputs : list Input) : Decision :=
  if size inputs >? MAX_INPUTS then unbound else assess (valid_inputs inputs).
End Fusion.

(** ** Order independence *)

Section OrderIndependence.
Context `{Unicode}.

Lemma push_unit_wf units i : bwf units -> bwf (push_unit units i).
Proof. apply bmodify_or_insert_wf. Qed.

Lemma group_units_wf_from l m : bwf m -> bwf (fold_left push_unit l m).
Proof. revert m; induction l as [|i l IH]; intros m Hm; simpl; auto using push_unit_wf. Qed.

Lemma group_units_wf l : bwf (group_units l).
Proof. apply group_units_wf_from, bwf_nil. Qed.

(** The copies of a unit are its inputs in order of arrival. *)
Definition copies_of (k : Kind * str) (l : list Input) : list Input :=
  List.filter (fun i => bool_decide (unit_key i = k)) l.

Lemma group_units_lookup l k :
  bget k (group_units l) = if is_empty (copies_of k l) then None else Some (copies_of k l).
Proof.
  induction l as [|i l IH] using rev_ind; [done|].
  unfold group_units in *. rewrite fold_left_app. simpl.
  pose proof (group_units_wf l) as Hwf. unfold group_units in Hwf.
  unfold copies_of. rewrite List.filter_app. simpl. fold (copies_of k l).
  unfold push_unit at 1, bmodify_or_insert.
  case_bool_decide as E.
  - subst k. rewrite IH. destruct (copies_of (unit_key i) l) as [|c cs] eqn:Ec; simpl;
      by rewrite bget_binsert_eq.
  - rewrite app_nil_r, <- IH. destruct (bget (unit_key i) _); by rewrite bget_binsert_ne.
Qed.

(** What a copy says about its source. *)
Definition observation (i : Input) : Z * bset Z * option str * str :=
  (subject i, memories i, voter i, normalized_name (name i)).

Lemma differs_observation a b : differs a b = false <-> observation b = observation a.
Proof.
  unfold differs, observation, str_eqb. rewrite !orb_false_iff, !negb_false_iff, !bool_decide_eq_true.
  split; [intros [[[-> ->] ->] ->]; done|]. by intros [= -> -> -> ->].
Qed.

Lemma copies_agree first copies :
  existsb (differs first) (first :: copies) = false
  <-> forall a b, a ∈ first :: copies -> b ∈ first :: copies -> observation a = observation b.
Proof.
  rewrite existsb_false. split.
  - intros Hd a b Ha Hb. apply Hd, differs_observation in Ha, Hb. congruence.
  - intros Ha c Hc. apply differs_observation. apply Ha; [done|left].
Qed.

Lemma weakest_perm a b x y :
  Permutation a b -> NoDup (id <$> a) -> weakest a = Some x -> weakest b = Some y -> x = y.
Proof.
  unfold weakest. intros Hp Hnd Hx Hy.
  pose proof (min_by_elem _ _ _ Hx) as Hx'. pose proof (min_by_elem _ _ _ Hy) as Hy'.
  rewrite <- Hp in Hy'.
  set (key := fun i : Input => (f64_total_key (confidence i), id i)) in *.
  assert (key x = key y) as [= _ Hid].
  { apply ord_leb_antisym.
    - apply (min_by_le (on_key key) (on_key_total key) (on_key_trans key) a); done.
    - apply (min_by_le (on_key key) (on_key_total key) (on_key_trans key) b); [done|]. by rewrite <- Hp. }
  clear - Hnd Hx' Hy' Hid. induction a as [|z a IH]; [by apply not_elem_of_nil in Hx'|].
  apply NoDup_cons in Hnd as [Hz Hnd].
  apply elem_of_cons in Hx' as [->|Hx], Hy' as [->|Hy]; auto; exfalso; apply Hz.
  - rewrite Hid. by apply list_elem_of_fmap_2.
  - rewrite <- Hid. by apply list_elem_of_fmap_2.
Qed.

Lemma settle_unit_perm a b : Permutation a b -> NoDup (id <$> a) -> settle_unit a = settle_unit b.
Proof.
  intros Hp Hnd. destruct a as [|f a].
  - apply Permutation_nil_l in Hp as ->. done.
  - destruct b as [|g b]; [symmetry in Hp; by apply Permutation_nil_l in Hp|].
    unfold settle_unit.
    assert (existsb (differs f) (f :: a) = existsb (differs g) (g :: b)) as ->.
    { destruct (existsb (differs f) (f :: a)) eqn:E1, (existsb (differs g) (g :: b)) eqn:E2; try done; exfalso.
      - rewrite <- not_false_iff_true in E1. apply E1. apply copies_agree. rewrite copies_agree in E2.
        intros x y Hx Hy. apply E2; by rewrite <- Hp.
      - rewrite <- not_false_iff_true in E2. apply E2. apply copies_agree. rewrite copies_agree in E1.
        intros x y Hx Hy. apply E1; by rewrite Hp. }
    destruct (existsb _ _); [done|].
    destruct (weakest (f :: a)) as [x|] eqn:Ex; [|done].
    destruct (weakest (g :: b)) as [y|] eqn:Ey; [|done].
    f_equal. by apply (weakest_perm (f :: a) (g :: b)).
Qed.

Lemma filter_NoDup_fmap {A B} (f : A -> B) (p : A -> bool) (l : list A) :
  NoDup (f <$> l) -> NoDup (f <$> List.filter p l).
Proof.
  induction l as [|x l IH]; simpl; [done|]. intros [Hx Hl]%NoDup_cons.
  destruct (p x); simpl; [|by apply IH]. apply NoDup_cons. split; [|by apply IH].
  intros Hin. apply Hx. apply list_elem_of_fmap in Hin as (y & -> & Hy).
  apply list_elem_of_In, List.filter_In in Hy as [Hy _].
  apply list_elem_of_fmap_2. by apply list_elem_of_In.
Qed.

Lemma omap_fmap_id {A B} (f : A -> option B) (l : list A) : omap f l = omap (fun x => x) (f <$> l).
Proof. induction l as [|x l IH]; [done|]. cbn. destruct (f x); [f_equal|]; exact IH. Qed.

Lemma valid_inputs_perm l k :
  Permutation l k -> NoDup (id <$> l) -> valid_inputs l = valid_inputs k.
Proof.
  intros Hp Hnd. unfold valid_inputs. rewrite !(omap_fmap_id settle_unit), <- !bvalues_bmap_map.
  do 2 f_equal. apply bmap_ext; [apply bmap_map_wf, group_units_wf..|].
  intros key. rewrite !bget_bmap_map, !group_units_lookup.
  assert (Permutation (copies_of key (List.filter admissible l)) (copies_of key (List.filter admissible k))) as Hc
    by (by apply filter_bool_perm, filter_bool_perm).
  assert (is_empty (copies_of key (List.filter admissible l))
          = is_empty (copies_of key (List.filter admissible k))) as ->.
  { destruct (copies_of key (List.filter admissible l)), (copies_of key (List.filter admissible k)); try done.
    - by apply Permutation_nil_cons in Hc.
    - symmetry in Hc. by apply Permutation_nil_cons in Hc. }
  destruct (is_empty _); [done|]. simpl. f_equal. apply settle_unit_perm; [done|].
  by apply filter_NoDup_fmap, filter_NoDup_fmap.
Qed.

(** The name decision does not depend on the order the observations
    arrive in, as long as their identifiers are distinct. *)
Theorem fuse_order_independent inputs reordered :
  NoDup (id <$> inputs) -> Permutation inputs reordered -> fuse inputs = fuse reordered.
Proof.
  intros Hnd Hp. unfold fuse, size. rewrite (Permutation_length Hp).
  by rewrite (valid_inputs_perm inputs reordered Hp Hnd).
Qed.
End OrderIndependence.

Definition sample_input (id : Z) (name : string) (kind : Kind) (subject memory : Z) : Input := {|
  id := id; name := lit name; kind := kind; confidence := f64_lit 95 100; source := dec id;
  subject := subject; memories := [memory]; voter := Some (dec (id mod 2)) |}.

Definition sample_frames : list Input :=
  [ sample_input 1 "Sam Lee" Screen 10 1; sample_input 2 "Sam Lee" Screen 10 1;
    sample_input 3 "Sam Lee" Screen 11 1 ].

Lemma fuse_order_independent_witness :
  let U := ascii_unicode in
  fuse sample_frames = fuse (reverse sample_frames)
  /\ d_name (fuse sample_frames) = Some (lit "Sam Lee").
Proof.
  split; [|vm_compute; reflexivity].
  apply (fuse_order_independent (H := ascii_unicode) sample_frames (reverse sample_frames)).
  - apply (bool_decide_eq_true_1 _). vm_compute. reflexivity.
  - symmetry. apply reverse_Permutation.
Defined.

(** ** Soundness of the decision *)

Lemma any_pair_false {A} (p : A -> A -> bool) (l : list A) x y :
  (forall a b, p a b = p b a) -> (forall a, a ∈ l -> p a a = false) ->
  any_pair p l = false -> x ∈ l -> y ∈ l -> p x y = false.
Proof.
  intros Hsym Hrefl. induction l as [|z l IH]; simpl; [by intros _ ?%not_elem_of_nil|].
  rewrite orb_false_iff, existsb_false. intros [Hz Hl].
  rewrite !elem_of_cons. intros [->|Hx] [->|Hy].
  - apply Hrefl. left.
  - by apply Hz.
  - rewrite Hsym. by apply Hz.
  - apply IH; auto. intros a Ha. apply Hrefl. by right.
Qed.

Lemma any_pair_true {A} (p : A -> A -> bool) (l : list A) :
  any_pair p l = true -> exists x y, x ∈ l /\ y ∈ l /\ p x y = true.
Proof.
  induction l as [|z l IH]; simpl; [done|]. rewrite orb_true_iff, existsb_Exists.
  intros [(y & Hy & Hp)|Hl].
  - exists z, y. set_solver.
  - destruct (IH Hl) as (x & y & ? & ? & ?). exists x, y. set_solver.
Qed.

Section Soundness.
Context `{Unicode}.

Lemma related_spec valid n i :
  i ∈ related valid n <-> i ∈ valid /\ names_form_refinement n (name i) = true.
Proof. apply (elem_of_filter_bool (fun input => names_form_refinement n (name input))). Qed.

Lemma probationary_inv valid n :
  probationary valid n = true ->
  exists i, i ∈ related valid n /\ (strong_screen i = true \/ is_vote i = true).
Proof.
  unfold probationary, screen, vocative. intros [E|E]%orb_true_iff;
    apply negb_true_iff, is_empty_false in E.
  - destruct (List.filter strong_screen (related valid n)) as [|i l] eqn:El; [done|].
    exists i. assert (i ∈ List.filter strong_screen (related valid n)) as Hi by (rewrite El; left).
    apply elem_of_filter_bool in Hi as [? ?]. auto.
  - destruct (List.filter is_vote (related valid n)) as [|i l] eqn:El; [done|].
    exists i. assert (i ∈ List.filter is_vote (related valid n)) as Hi by (rewrite El; left).
    apply elem_of_filter_bool in Hi as [? ?]. auto.
Qed.

Lemma candidate_has_parts valid names n c :
  candidate_of valid names n = Some c -> c_name c = n /\ semantic_name_parts n <> [].
Proof.
  unfold candidate_of. destruct (self_identified valid n || probationary valid n) eqn:E; [|done].
  intros [= <-]. split; [done|].
  assert (exists i, i ∈ related valid n) as [i Hi].
  { apply orb_true_iff in E as [E|E].
    - apply existsb_Exists in E as (i & Hi & _). eauto.
    - apply probationary_inv in E as (i & Hi & _). eauto. }
  apply related_spec in Hi as [_ Hi]. by apply names_form_refinement_parts in Hi as [Hi _].
Qed.

Lemma assess_candidates valid c :
  c ∈ candidates (assess valid) -> exists n names, candidate_of valid names n = Some c.
Proof. unfold assess, decide_candidates. simpl. intros (n & _ & Hn)%list_elem_of_omap. eauto. Qed.

(** The status of a name decision is exactly what the candidates
    support.  An accepted name is the fullest accepted candidate and every
    accepted candidate is a spelling of it; a quarantine has no name and
    two accepted candidates that are not spellings of one name; an unbound
    decision has no name and no accepted candidate. *)
Theorem fuse_decision_sound inputs :
  let d := fuse inputs in
  match status d with
  | Accepted => exists n, d_name d = Some n
      /\ (exists c, c ∈ candidates d /\ accepted c = true /\ c_name c = n)
      /\ (forall c, c ∈ candidates d -> accepted c = true ->
            names_form_refinement n (c_name c) = true /\ parts_len (c_name c) <= parts_len n)
  | Quarantined => d_name d = None
      /\ exists a b, a ∈ candidates d /\ b ∈ candidates d /\ accepted a = true /\ accepted b = true
           /\ names_form_refinement (c_name a) (c_name b) = false
  | Unbound => d_name d = None /\ forall c, c ∈ candidates d -> accepted c = false
  end.
Proof.
  unfold fuse. destruct (size inputs >? MAX_INPUTS).
  { simpl. split; [done|]. by intros c ?%not_elem_of_nil. }
  set (valid := valid_inputs inputs). set (d := assess valid).
  assert (forall c, c ∈ candidates d -> semantic_name_parts (c_name c) <> []) as Hparts.
  { intros c Hc. apply assess_candidates in Hc as (n & names & Hn).
    by destruct (candidate_has_parts _ _ _ _ Hn) as [-> ?]. }
  set (acc := List.filter accepted (candidates d)).
  set (clash := fun left right => negb (names_form_refinement (c_name left) (c_name right))).
  set (key := fun c => (parts_len (c_name c), c_name c)).
  change (status d) with (if any_pair clash acc then Quarantined
    else match (if any_pair clash acc then None else c_name <$> max_by (on_key key) acc) with
         | Some _ => Accepted | None => Unbound end).
  change (d_name d) with (if any_pair clash acc then None else c_name <$> max_by (on_key key) acc).
  destruct (any_pair clash acc) eqn:Eclash.
  - split; [done|]. apply any_pair_true in Eclash as (a & b & Ha & Hb & Hab).
    apply elem_of_filter_bool in Ha as [Ha Haa], Hb as [Hb Hba].
    apply negb_true_iff in Hab. exists a, b. auto 6.
  - destruct (max_by (on_key key) acc) as [best|] eqn:Ebest; simpl.
    + exists (c_name best). split; [done|].
      pose proof (max_by_elem _ _ _ Ebest) as Hbest.
      pose proof Hbest as [Hb Hba]%elem_of_filter_bool. split; [by exists best|].
      intros c Hc Hca. assert (c ∈ acc) as Hin by (by apply elem_of_filter_bool). split.
      * assert (clash best c = false) as Hcl.
        { apply (any_pair_false clash acc); [| |done|done|done].
          - intros x y. unfold clash. by rewrite names_form_refinement_sym.
          - intros x Hx. apply negb_false_iff, names_form_refinement_refl, Hparts.
            by apply elem_of_filter_bool in Hx as [? _]. }
        by apply negb_false_iff in Hcl.
      * pose proof (max_by_le (on_key key) (on_key_total key) (on_key_trans key) _ _ c Ebest Hin) as Hle.
        apply ord_leb_cases in Hle as [[= Hle _]|Hle]; [unfold key in Hle; lia|].
        unfold lt_ord, key in Hle. simpl in Hle.
        destruct (parts_len (c_name c) ?= parts_len (c_name best)) eqn:Ec; [|apply (proj1 (Z.compare_lt_iff _ _)) in Ec; lia|done].
        apply (proj1 (Z.compare_eq_iff _ _)) in Ec. lia.
    + split; [done|]. intros c Hc. destruct (accepted c) eqn:Ea; [|done]. exfalso.
      assert (c ∈ acc) as Hin by (by apply elem_of_filter_bool).
      destruct acc as [|? ?]; [by apply not_elem_of_nil in Hin|done].
Qed.

(** ** Grounding of an accepted candidate *)

Lemma group_units_elem l units key copies :
  units = group_units l -> (key, copies) ∈ units -> copies = copies_of key l /\ copies <> [].
Proof.
  intros -> Hin. apply bget_elem in Hin; [|apply group_units_wf].
  rewrite group_units_lookup in Hin. destruct (copies_of key l) eqn:E; [done|].
  simpl in Hin. by injection Hin as <-.
Qed.

(** A valid input is one of the inputs, and admissible. *)
Lemma valid_inputs_elem inputs i :
  i ∈ valid_inputs inputs -> i ∈ inputs /\ admissible i = true.
Proof.
  unfold valid_inputs. intros (copies & Hc & Hs)%list_elem_of_omap.
  apply list_elem_of_fmap in Hc as ([key copies'] & -> & Hin). simpl in Hs.
  destruct (group_units_elem _ _ key copies' eq_refl Hin) as [E _].
  unfold settle_unit in Hs. destruct copies' as [|f rest]; [done|].
  destruct (existsb (differs f) (f :: rest)); [done|].
  apply min_by_elem in Hs. rewrite E in Hs.
  apply elem_of_filter_bool in Hs as [Hs _]. by apply elem_of_filter_bool in Hs.
Qed.

(** [n] observations of pairwise different sources that satisfy [p]. *)
Definition independent (n : nat) (p : Input -> Prop) (inputs : list Input) : Prop :=
  exists l, length l = n /\ NoDup (source <$> l) /\ forall i, i ∈ l -> i ∈ inputs /\ p i.

(** The grounds on which a name can be accepted. *)
Definition grounded (inputs : list Input) (n : str) : Prop :=
  (exists i, i ∈ inputs /\ kind i = SelfIntroduction
     /\ f64_geb (confidence i) ninety_percent = true
     /\ names_form_refinement n (name i) = true /\ parts_len n <= parts_len (name i))
  \/ independent 3 (fun i => kind i = Screen /\ f64_geb (confidence i) ninety_percent = true
       /\ 2 <= parts_len (name i) /\ names_form_refinement n (name i) = true) inputs
  \/ (independent 3 (fun i => kind i = Vocative /\ is_Some (voter i)
        /\ names_form_refinement n (name i) = true) inputs
      /\ exists i j, i ∈ inputs /\ j ∈ inputs /\ kind i = Vocative /\ kind j = Vocative
           /\ is_Some (voter i) /\ is_Some (voter j) /\ voter i <> voter j)
  \/ (exists i, i ∈ inputs /\ (kind i = Screen \/ kind i = Vocative /\ is_Some (voter i))
        /\ names_form_refinement n (name i) = true)
     /\ exists a b x y, a ∈ inputs /\ b ∈ inputs /\ kind a = Context /\ kind b = Context
          /\ names_form_refinement n (name a) = true /\ names_form_refinement n (name b) = true
          /\ x ∈ memories a /\ y ∈ memories b /\ x <> y.

Lemma strong_screen_inv i :
  strong_screen i = true ->
  kind i = Screen /\ f64_geb (confidence i) ninety_percent = true /\ 2 <= parts_len (name i).
Proof. unfold strong_screen, is_kind. bool_prop. rewrite bool_decide_eq_true. tauto. Qed.

Lemma is_vote_inv i : is_vote i = true -> kind i = Vocative /\ is_Some (voter i).
Proof.
  unfold is_vote, is_kind. rewrite andb_true_iff, bool_decide_eq_true.
  intros [? ?]. destruct (voter i); [eauto|done].
Qed.

Lemma independent_of_sources n (p : Input -> Prop) (l inputs : list Input) :
  Z.of_nat n <= size (sources_of l) -> (forall i, i ∈ l -> i ∈ inputs /\ p i) ->
  independent n p inputs.
Proof.
  unfold size, sources_of. intros Hn Hl.
  destruct (bset_choose source l n) as (k & Hk & Hin & Hnd); [lia|].
  exists k. split; [done|]. split; [done|]. auto.
Qed.

(** Two distinct members of the set of a list. *)
Lemma two_distinct {A} `{Ord A} (l : list A) :
  2 <= size (bset_of_list l) -> exists x y, x ∈ l /\ y ∈ l /\ x <> y.
Proof.
  unfold size. intros Hn. destruct (bset_choose (fun z => z) l 2) as (k & Hk & Hin & Hnd); [rewrite list_fmap_id; lia|].
  destruct k as [|x [|y [|? ?]]]; try done. exists x, y.
  split; [apply Hin; set_solver|]. split; [apply Hin; set_solver|].
  intros ->. apply NoDup_cons in Hnd as [Hx _]. apply Hx. simpl. set_solver.
Qed.

(** No name is accepted without evidence.  Behind an accepted candidate
    there are always inputs of the list itself: a confident self-introduction
    at least as full as the name; or three confident full-name screen
    observations of different frames; or three direct addresses of different
    observations, with two different voters among the addresses; or a screen
    or address observation together with attendee contexts of two different
    memories.  Contexts and mentions alone never suffice. *)
Theorem fuse_acceptance_grounded inputs c :
  c ∈ candidates (fuse inputs) -> accepted c = true -> grounded inputs (c_name c).
Proof.
  unfold fuse. destruct (size inputs >? MAX_INPUTS); [by intros ?%not_elem_of_nil|].
  set (valid := valid_inputs inputs).
  intros (n & names & Hc)%assess_candidates Hacc.
  destruct (candidate_has_parts _ _ _ _ Hc) as [-> _].
  assert (forall i, i ∈ related valid n -> i ∈ inputs /\ names_form_refinement n (name i) = true) as Hrel.
  { intros i Hi. apply related_spec in Hi as [Hi Hr]. by apply valid_inputs_elem in Hi as [? _]. }
  unfold candidate_of in Hc. destruct (self_identified valid n || probationary valid n); [|done].
  injection Hc as <-. simpl in Hacc. unfold grounded.
  rewrite !orb_true_iff in Hacc. destruct Hacc as [[[Hs|Hs]|Ha]|Ha].
  - left. apply existsb_Exists in Hs as (i & Hi & Hp). apply Hrel in Hi as [Hi Hr].
    unfold is_kind, names_candidate in Hp. bool_prop. destruct Hp as [[Hk Hconf] Hlen].
    apply bool_decide_eq_true in Hk. exists i. auto.
  - right; left. unfold screened in Hs. bool_prop. destruct Hs as [[[_ Hn] _] _].
    apply (independent_of_sources 3 _ (screen valid n)); [exact Hn|].
    intros i Hi. apply elem_of_filter_bool in Hi as [Hi Hst]. apply Hrel in Hi as [Hi Hr].
    apply strong_screen_inv in Hst. tauto.
  - right; right; left. unfold addressed in Ha. bool_prop. destruct Ha as [[[[Hn Hv] _] _] _]. split.
    + apply (independent_of_sources 3 _ (vocative valid n)); [exact Hn|].
      intros i Hi. apply elem_of_filter_bool in Hi as [Hi Hst]. apply Hrel in Hi as [Hi Hr].
      apply is_vote_inv in Hst. tauto.
    + apply two_distinct in Hv as (x & y & Hx & Hy & Hne).
      apply list_elem_of_omap in Hx as (i & Hi & Hix), Hy as (j & Hj & Hjy).
      apply elem_of_filter_bool in Hi as [Hi Hiv], Hj as [Hj Hjv].
      apply Hrel in Hi as [Hi _], Hj as [Hj _]. apply is_vote_inv in Hiv as [? ?], Hjv as [? ?].
      exists i, j. repeat split; auto. congruence.
  - right; right; right. unfold corroborated in Ha. bool_prop. destruct Ha as [[[[[_ Hp] _] Hm] _] _]. split.
    + apply probationary_inv in Hp as (i & Hi & Hk). apply Hrel in Hi as [Hi Hr].
      exists i. split; [done|]. split; [|done].
      destruct Hk as [Hk%strong_screen_inv|Hk%is_vote_inv]; tauto.
    + apply two_distinct in Hm as (x & y & Hx & Hy & Hne).
      apply list_elem_of_bind in Hx as (a & Hxa & Ha), Hy as (b & Hyb & Hb).
      apply elem_of_filter_bool in Ha as [Ha Hak], Hb as [Hb Hbk].
      apply Hrel in Ha as [Ha Har], Hb as [Hb Hbr]. unfold is_kind in Hak, Hbk. bool_prop.
      destruct Hak as [[Hak _] _], Hbk as [[Hbk _] _]. apply bool_decide_eq_true in Hak, Hbk.
      exists a, b, x, y. auto 10.
Qed.
End Soundness.

Lemma fuse_acceptance_grounded_witness :
  let U := ascii_unicode in
  exists c, c ∈ candidates (fuse sample_frames) /\ grounded sample_frames (c_name c).
Proof.
  eexists. split; [vm_compute; left|].
  apply (fuse_acceptance_grounded (H := ascii_unicode) sample_frames); vm_compute; [left|reflexivity].
Defined.
