(* ===== verification/Presentation.v ===== *)
(** * Presentation labels

    [persistence/identity_presentation.rs]: authored speaker labels, and the
    presentation-only substitution that shows the current label of a voice
    in authored text.  The code works on byte offsets; every offset it forms
    is a character boundary, so the model works on characters, with the
    character before the current position passed along.  [\w] is the
    [word_character] of the [Unicode] interface. *)
From Stdlib Require Import ZArith Lia.
From S2P Require Import Prelude OrdMap Text Json.
Local Open Scope Z_scope.

(** ** Authored labels *)

Inductive LabelTarget := Profile (id : Z) | Cluster (id : Z).

#[export] Instance LabelTarget_eq_dec : EqDecision LabelTarget.
Proof. solve_decision. Defined.

(** [#[derive(Ord)]]: profiles before clusters, then by id. *)
Definition target_key (t : LabelTarget) : Z * Z :=
  match t with Profile id => (0, id) | Cluster id => (1, id) end.

#[export] Instance LabelTarget_ord : Ord LabelTarget.
Proof.
  refine {| cmp := fun a b => cmp (target_key a) (target_key b) |}.
  - intros [a|a] [b|b]; rewrite cmp_eq; simpl; split; congruence.
  - intros a b. apply cmp_flip.
  - intros a b c. apply cmp_lt_trans.
Defined.

Record AuthoredLabel := {
  label : str;
  target : LabelTarget;
  fallback_label : str;
  utterance_ids : list Z
}.

#[export] Instance AuthoredLabel_eq_dec : EqDecision AuthoredLabel.
Proof. solve_decision. Defined.

Record AuthoredLabelMap := { labels : list AuthoredLabel }.

#[export] Instance AuthoredLabelMap_eq_dec : EqDecision AuthoredLabelMap.
Proof. solve_decision. Defined.

Definition map_is_empty (m : AuthoredLabelMap) : bool := is_empty (labels m).

Definition label_key (l : AuthoredLabel) : str * LabelTarget := (label l, target l).

(** [sort_unstable] then [dedup] on integers: the sorted set. *)
Definition sort_dedup (l : list Z) : list Z := bset_of_list l.

Definition add_ids (existing : AuthoredLabel) (ids : list Z) : AuthoredLabel :=
  {| label := label existing; target := target existing;
     fallback_label := fallback_label existing;
     utterance_ids := sort_dedup (utterance_ids existing ++ ids) |}.

Definition combine_label (combined : bmap (str * LabelTarget) AuthoredLabel) (l : AuthoredLabel) :
  bmap (str * LabelTarget) AuthoredLabel :=
  match bget (label_key l) combined with
  | Some existing => binsert (label_key l) (add_ids existing (utterance_ids l)) combined
  | None => binsert (label_key l) l combined
  end.

Definition from_labels (ls : list AuthoredLabel) : AuthoredLabelMap :=
  {| labels := bvalues (fold_left combine_label ls []) |}.

(** ** Participant meaning *)

Record SpeakerMeaning := { owner : bool; person_id : option Z; sm_name : option str }.

#[export] Instance SpeakerMeaning_eq_dec : EqDecision SpeakerMeaning.
Proof. solve_decision. Defined.

Record UtteranceIdentity := { utterance_id : Z; meaning : SpeakerMeaning }.

Definition participant_meaning_changed (previous current : list UtteranceIdentity) : bool :=
  let current_by_id := bfrom_list ((fun entry => (utterance_id entry, meaning entry)) <$> current) in
  existsb (fun before =>
    match bget (utterance_id before) current_by_id with
    | Some after => negb (bool_decide (meaning before = after))
    | None =>
      (owner (meaning before) || match person_id (meaning before) with Some _ => true | None => false end)
      && negb (existsb (fun after => bool_decide (meaning after = meaning before)) current)
    end) previous.

(** ** Label projections *)

Record LabelProjection := { replacements : list (str * str) }.

Definition default_projection : LabelProjection := {| replacements := [] |}.

Definition is_slot_label (l : str) : bool :=
  str_eqb l (lit "Speaker")
  || match strip_prefix (lit "Speaker ") l with
     | Some suffix => negb (is_empty suffix) && forallb is_ascii_uppercase suffix
     | None => false
     end.

(** Reserved graph tokens: the only labels that are substituted. *)
Definition is_reserved (l : str) : bool :=
  str_eqb l (lit "Me") || (negb (str_eqb l (lit "Speaker")) && is_slot_label l).

Definition entry_fallback (entry : AuthoredLabel) : str :=
  if is_slot_label (fallback_label entry) then fallback_label entry else lit "Speaker".

Definition entry_replacement (current : bmap LabelTarget str) (entry : AuthoredLabel) : str :=
  if is_reserved (label entry) then
    match bget (target entry) current with
    | Some l => if is_blank l then entry_fallback entry else l
    | None => entry_fallback entry
    end
  else label entry.

Definition add_candidate (current : bmap LabelTarget str) (candidates : bmap str (bset str))
  (entry : AuthoredLabel) : bmap str (bset str) :=
  if is_blank (label entry) then candidates
  else bmodify_or_insert (label entry) (bset_add (entry_replacement current entry))
         [entry_replacement current entry] candidates.

(** One current label, or the anonymous one when they disagree. *)
Definition agreed (candidates : bset str) : str :=
  match candidates with [c] => c | _ => lit "Speaker" end.

(** Longest token first, then in text order. *)
Definition longest_first (a b : str * str) : bool :=
  match Z.compare (byte_len b.1) (byte_len a.1) with
  | Eq => ord_leb a.1 b.1
  | Lt => true
  | Gt => false
  end.

Definition new (authored : AuthoredLabelMap) (current : bmap LabelTarget str) : LabelProjection :=
  let candidates := fold_left (add_candidate current) (labels authored) [] in
  {| replacements := sort_by longest_first ((fun kv => (kv.1, agreed kv.2)) <$> candidates) |}.

(** The matches of [Me|Speaker [A-Z]+], leftmost first. *)
Definition reserved_token (s : str) : option str :=
  if starts_with (lit "Me") s then Some (lit "Me")
  else match strip_prefix (lit "Speaker ") s with
       | Some rest =>
         let name := take_while is_ascii_uppercase rest in
         if is_empty name then None else Some (lit "Speaker " ++ name)
       | None => None
       end.

Fixpoint find_tokens (skip : nat) (s : str) : list str :=
  match s with
  | [] => []
  | _ :: s' =>
    match skip with
    | S k => find_tokens k s'
    | O => match reserved_token s with
           | Some token => token :: find_tokens (length token - 1) s'
           | None => find_tokens 0 s'
           end
    end
  end.

Section UnmappedContext.
(** [Value::to_string] *)
Context (value_to_string : Value -> str).

Definition unmapped_context (authored : Value) : LabelProjection :=
  let tokens := bset_of_list (find_tokens 0 (value_to_string authored)) in
  {| replacements := sort_by longest_first ((fun token => (token, lit "Speaker")) <$> tokens) |}.
End UnmappedContext.

(** ** Protected spans *)

(** [split_inclusive('\n')] *)
Fixpoint split_lines (s : str) : list str :=
  match s with
  | [] => []
  | c :: s' =>
    if N.eqb c newline then [c] :: split_lines s'
    else match split_lines s' with [] => [[c]] | l :: ls => (c :: l) :: ls end
  end.

(** Quoted lines: those whose first visible character is [>]. *)
Definition line_marks (s : str) : list bool :=
  split_lines s ≫= (fun line => replicate (length line) (starts_with (lit ">") (trim_start line))).

(** [find(needle)], as an offset *)
Fixpoint find_sub (needle s : str) : option nat :=
  if starts_with needle s then Some O
  else match s with
       | [] => None
       | _ :: s' => match find_sub needle s' with Some n => Some (S n) | None => None end
       end.

(** [find(|c| p(c))] *)
Fixpoint find_char (p : char -> bool) (s : str) : option nat :=
  match s with
  | [] => None
  | c :: s' => if p c then Some O
               else match find_char p s' with Some n => Some (S n) | None => None end
  end.

(** The end of a parenthesised link target, from nesting [depth]. *)
Fixpoint close_paren (depth : nat) (s : str) : option nat :=
  match s with
  | [] => None
  | c :: s' =>
    if N.eqb c (ch "(") then option_map S (close_paren (S depth) s')
    else if N.eqb c (ch ")") then
      match depth with
      | O | 1%nat => Some 1%nat
      | S d => option_map S (close_paren d s')
      end
    else option_map S (close_paren depth s')
  end.

(** Case-insensitive [a-z]: the two folds outside ASCII are long s and the
    Kelvin sign. *)
Definition scheme_letter (c : char) : bool :=
  is_ascii_alphabetic c || N.eqb c 0x17F || N.eqb c 0x212A.

Definition scheme_char (c : char) : bool :=
  scheme_letter c || is_ascii_digit c || N.eqb c (ch "+") || N.eqb c (ch ".") || N.eqb c (ch "-").

(** [(?i)^(?:[a-z][a-z0-9+.-]*://|(?:mailto|tel|urn|data):|www\.)] *)
Definition starts_url (text : str) : bool :=
  match text with
  | c :: rest => scheme_letter c && starts_with (lit "://") (drop_while scheme_char rest)
  | [] => false
  end
  || existsb (fun p => starts_with (lit p) (to_ascii_lowercase text))
       ["mailto:"; "tel:"; "urn:"; "data:"; "www."]%string.

Section Projection.
Context `{Unicode}.

Definition is_word (c : option char) : bool :=
  match c with Some c => word_character c | None => false end.

Definition head_char (s : str) : option char := List.hd_error s.

(** [token_boundary]: no word character on either side of the token. *)
Definition token_boundary (before : option char) (after : str) : bool :=
  negb (is_word before) && negb (is_word (head_char after)).

(** The loop of [quoted_span_end] after the opening quotation mark: how many
    characters it consumes. *)
Fixpoint quoted_rest (closing : char) (before : option char) (s : str) : nat :=
  match s with
  | [] => O
  | character :: s' =>
    if N.eqb character (ch "\") then
      match s' with
      | [] => 1%nat
      | escaped :: s'' => S (S (quoted_rest closing (Some escaped) s''))
      end
    else
      let apostrophe_inside_word :=
        (N.eqb closing 39 || N.eqb closing 0x2019) && is_word before && is_word (head_char s') in
      if N.eqb character closing && negb apostrophe_inside_word then 1%nat
      else S (quoted_rest closing (Some character) s')
  end.

Definition quoted_span_end (text : str) (closing : char) : nat :=
  match text with
  | [] => O
  | c :: rest => S (quoted_rest closing (Some c) rest)
  end.

Definition quote_end (before : option char) (character : char) : option char :=
  if N.eqb character 34 then Some 34%N
  else if N.eqb character 0x201C then Some 0x201D%N
  else if N.eqb character 0x2018 then Some 0x2019%N
  else if N.eqb character 39 && negb (is_word before) then Some 39%N
  else None.

(** How many characters a protected span that starts here covers. *)
Definition protected_len (before : option char) (rest : str) : option nat :=
  match rest with
  | [] => None
  | character :: _ =>
    if N.eqb character (ch "`") then
      let count := length (take_while (N.eqb (ch "`")) rest) in
      let delimiter := take count rest in
      Some (match find_sub delimiter (drop count rest) with
            | Some e => (count + e + count)%nat
            | None => length rest
            end)
    else match quote_end before character with
    | Some close => Some (quoted_span_end rest close)
    | None =>
      match strip_prefix (lit "](") rest with
      | Some link_target =>
        Some (match close_paren 1 link_target with
              | Some n => (2 + n)%nat
              | None => length rest
              end)
      | None =>
        if starts_url rest then
          Some (default (length rest)
                  (find_char (fun c => is_whitespace c || N.eqb c (ch "<") || N.eqb c (ch ">") || N.eqb c 34) rest))
        else None
      end
    end
  end.

(** The main scan; every round consumes a character, so the length of the
    text is fuel enough. *)
Fixpoint span_marks (fuel : nat) (before : option char) (rest : str) : list bool :=
  match fuel, rest with
  | O, _ | _, [] => replicate (length rest) false
  | S f, character :: rest' =>
    match protected_len before rest with
    | Some n => replicate n true ++ span_marks f (last (take n rest)) (drop n rest)
    | None => false :: span_marks f (Some character) rest'
    end
  end.

Definition protected_text_ranges (text : str) : list bool :=
  zip_with orb (line_marks text) (span_marks (length text) None text).

(** ** Substitution *)

(** The first replacement whose token stands here as an unprotected word. *)
Definition find_replacement (p : LabelProjection) (before : option char) (rest : str)
  (protected : list bool) : option (str * str) :=
  List.find (fun r =>
    starts_with r.1 rest
    && token_boundary before (drop (length r.1) rest)
    && negb (existsb (fun x => x) (take (length r.1) protected))) (replacements p).

Fixpoint substitute (fuel : nat) (p : LabelProjection) (before : option char) (rest : str)
  (protected : list bool) : str :=
  match fuel, rest with
  | O, _ | _, [] => []
  | S f, character :: rest' =>
    match find_replacement p before rest protected with
    | Some (token, replacement) =>
      replacement ++ substitute f p (last token) (drop (length token) rest)
                       (drop (length token) protected)
    | None => character :: substitute f p (Some character) rest' (tl protected)
    end
  end.

Definition text (p : LabelProjection) (authored : str) : str :=
  if is_empty (replacements p) then authored
  else substitute (length authored) p None authored (protected_text_ranges authored).

(** ** Authored JSON *)

Definition HUMAN_TEXT_KEYS : list string :=
  ["text"; "heading"; "gist"; "owner"; "title"; "summary"; "overview"; "task"; "question";
   "decision"; "label"; "why_it_matters"]%string.

Definition HUMAN_LIST_KEYS : list string :=
  ["items"; "sections"; "action_items"; "decisions"; "open_questions"; "minute_summaries";
   "important_links"]%string.

(** Whether a field of an object is projected. *)
Definition human_field (key : str) (value : Value) : bool :=
  one_of key HUMAN_TEXT_KEYS && is_string value || one_of key HUMAN_LIST_KEYS && is_array value.

(** The code inserts each projected field into a copy of the object; the keys
    are already there, so this is a map over the fields. *)
Fixpoint human_json (p : LabelProjection) (authored : Value) : Value :=
  match authored with
  | VString s => VString (text p s)
  | VArray items => VArray (human_json p <$> items)
  | VObject fields =>
    VObject ((fun kv => (kv.1, if human_field kv.1 kv.2 then human_json p kv.2 else kv.2)) <$> fields)
  | other => other
  end.

Record EpisodeLabelProjection := {
  timeline : LabelProjection;
  minutes : bmap str LabelProjection;
  actions : LabelProjection;
  brief : LabelProjection
}.

Definition project_minute (e : EpisodeLabelProjection) (minute : Value) : Value :=
  match (get (lit "start") minute ≫= as_str) ≫= (fun start => bget start (minutes e)) with
  | Some projection => human_json projection minute
  | None => minute
  end.

Definition minute_summaries (e : EpisodeLabelProjection) (authored : Value) : Value :=
  match as_array authored with
  | Some l => VArray (project_minute e <$> l)
  | None => authored
  end.

(** The mirror text of a minute list; [None] is the panic of the [unwrap]s. *)
Definition project_mirror (e : EpisodeLabelProjection) (minutes : list Value) (separator : str) : option str :=
  match as_array (minute_summaries e (VArray minutes)) with
  | Some l => join separator <$> sequence ((fun minute => as_str (index minute (lit "gist"))) <$> l)
  | None => None
  end.

Definition minutes_text (e : EpisodeLabelProjection) (authored : str) (minutes : Value) : option str :=
  match as_array minutes with
  | Some minutes =>
    match sequence ((fun minute => get (lit "gist") minute ≫= as_str) <$> minutes) with
    | Some gists =>
      if str_eqb (join [newline] gists) authored then project_mirror e minutes [newline]
      else if str_eqb (join [space] gists) authored then project_mirror e minutes [space]
      else Some authored
    | None => Some authored
    end
  | None => Some authored
  end.

(** One field of [episode_json]. *)
Definition project_field (key : str) (f : Value -> Value) (episode : Value) : Value :=
  match get key episode with Some v => set_field key (f v) episode | None => episode end.

Definition project_text_field (p : LabelProjection) (key : str) (episode : Value) : Value :=
  match get key episode ≫= as_str with
  | Some s => set_field key (VString (text p s)) episode
  | None => episode
  end.

Definition episode_json (e : EpisodeLabelProjection) (episode : Value) : option Value :=
  let episode := project_text_field (timeline e) (lit "title") episode in
  let episode := project_text_field (timeline e) (lit "summary") episode in
  let episode := project_field (lit "action_items") (human_json (actions e)) episode in
  let episode := project_field (lit "final_brief") (human_json (brief e)) episode in
  match get (lit "minute_summaries") episode with
  | Some minutes =>
    let step :=
      match get (lit "minutes_text") episode ≫= as_str with
      | Some t => match minutes_text e t minutes with
                  | Some t' => Some (set_field (lit "minutes_text") (VString t') episode)
                  | None => None
                  end
      | None => Some episode
      end in
    match step with
    | Some episode => Some (set_field (lit "minute_summaries") (minute_summaries e minutes) episode)
    | None => None
    end
  | None => Some episode
  end.
End Projection.

(** ** What a projection holds *)

Lemma longest_first_total a b : longest_first a b = true \/ longest_first b a = true.
Proof.
  unfold longest_first. rewrite (Z.compare_antisym (byte_len b.1) (byte_len a.1)).
  destruct (byte_len b.1 ?= byte_len a.1); simpl; auto. apply ord_leb_total.
Qed.

(** The entries that carry a label. *)
Definition entries_of (l : str) (entries : list AuthoredLabel) : list AuthoredLabel :=
  List.filter (fun e => str_eqb (label e) l) entries.

Definition candidate_map (current : bmap LabelTarget str) (entries : list AuthoredLabel) :
  bmap str (bset str) := fold_left (add_candidate current) entries [].

Lemma candidate_map_wf current entries : bwf (candidate_map current entries).
Proof.
  unfold candidate_map. induction entries as [|e entries IH] using rev_ind; [apply bwf_nil|].
  rewrite fold_left_app. simpl. unfold add_candidate at 1.
  destruct (is_blank (label e)); auto with kioku.
Qed.

(** The candidates of a label are the replacements of its entries. *)
Lemma candidate_map_lookup current entries l :
  bget l (candidate_map current entries)
  = if is_blank l || is_empty (entries_of l entries) then None
    else Some (bset_of_list (entry_replacement current <$> entries_of l entries)).
Proof.
  induction entries as [|e entries IH] using rev_ind; [by rewrite orb_true_r|].
  pose proof (candidate_map_wf current entries) as Hwf.
  unfold candidate_map in *. rewrite fold_left_app. simpl.
  unfold entries_of. rewrite List.filter_app. simpl. fold (entries_of l entries).
  unfold add_candidate at 1. destruct (str_eqb (label e) l) eqn:El.
  - apply str_eqb_eq in El as <-. destruct (is_blank (label e)) eqn:Eb; [by rewrite IH|].
    rewrite fmap_app. change (entry_replacement current <$> [e]) with [entry_replacement current e].
    rewrite bset_of_list_snoc. unfold bmodify_or_insert.
    assert (is_empty (entries_of (label e) entries ++ [e]) = false) as ->
      by (by destruct (entries_of (label e) entries)).
    rewrite IH. simpl.
    destruct (entries_of (label e) entries) as [|x xs] eqn:Ex; simpl; by rewrite bget_binsert_eq.
  - rewrite app_nil_r, <- IH. destruct (is_blank (label e)); [done|].
    unfold bmodify_or_insert.
    assert (label e <> l) by (intros E; rewrite E, str_eqb_refl in El; done).
    destruct (bget (label e) _); by rewrite bget_binsert_ne.
Qed.

Lemma agreed_spec (s : bset str) :
  (exists r, s = [r] /\ agreed s = r) \/ agreed s = lit "Speaker".
Proof. destruct s as [|r [|r' s]]; simpl; eauto. Qed.

(** The replacement a projection holds for a token. *)
Lemma new_replacements ls current t r :
  (t, r) ∈ replacements (new ls current)
  <-> is_blank t = false /\ entries_of t (labels ls) <> []
      /\ r = agreed (bset_of_list (entry_replacement current <$> entries_of t (labels ls))).
Proof.
  unfold new. cbn [replacements]. rewrite elem_of_sort_by.
  fold (candidate_map current (labels ls)). rewrite list_elem_of_fmap. split.
  - intros ([l set] & [= -> ->] & Hin). simpl.
    apply bget_elem in Hin; [|apply candidate_map_wf]. rewrite candidate_map_lookup in Hin.
    destruct (is_blank l || is_empty (entries_of l (labels ls))) eqn:E; [done|].
    injection Hin as <-. apply orb_false_iff in E as [Eb Ee]. by rewrite is_empty_false in Ee.
  - intros (Hb & He & ->). exists (t, bset_of_list (entry_replacement current <$> entries_of t (labels ls))).
    split; [done|]. apply bget_Some_elem. rewrite candidate_map_lookup, Hb.
    by rewrite (proj2 (is_empty_false _) He).
Qed.

Lemma entry_replacement_ordinary current e :
  is_reserved (label e) = false -> entry_replacement current e = label e.
Proof. unfold entry_replacement. by intros ->. Qed.

Lemma bset_of_constant {A} (f : A -> str) l x :
  l <> [] -> (forall a, a ∈ l -> f a = x) -> bset_of_list (f <$> l) = [x].
Proof.
  intros Hl Hf. apply bset_ext; [apply bset_of_list_wf|repeat constructor|].
  intros k. rewrite elem_of_bset_of_list, list_elem_of_fmap, list_elem_of_singleton. split.
  - intros (a & -> & Ha). auto.
  - intros ->. destruct l as [|a l]; [done|]. exists a. split; [symmetry; apply Hf; left|left].
Qed.

Lemma entries_of_spec l entries e : e ∈ entries_of l entries <-> e ∈ entries /\ label e = l.
Proof. unfold entries_of. by rewrite elem_of_filter_bool, str_eqb_eq. Qed.

(** What a projection can put in place of an authored label.  A token is
    a nonblank authored label.  An ordinary name always stands for itself; a
    reserved token is replaced by the one label its entries agree on (the
    current label of the entry's target, or its reserved slot label when the
    graph has none), and by the anonymous label when they disagree. *)
Theorem projection_replacements ls current t r :
  (t, r) ∈ replacements (new ls current) ->
  is_blank t = false
  /\ (exists e, e ∈ labels ls /\ label e = t)
  /\ (is_reserved t = false -> r = t)
  /\ (is_reserved t = true ->
        ((exists e, e ∈ labels ls /\ label e = t)
         /\ (forall e, e ∈ labels ls -> label e = t -> entry_replacement current e = r))
        \/ (r = lit "Speaker"
            /\ exists a b, a ∈ labels ls /\ b ∈ labels ls /\ label a = t /\ label b = t
                 /\ entry_replacement current a <> entry_replacement current b)).
Proof.
  intros (Hb & He & ->)%new_replacements. split; [done|].
  set (es := entries_of t (labels ls)) in *.
  assert (exists e, e ∈ labels ls /\ label e = t) as Hex.
  { destruct es as [|e es'] eqn:Ees; [done|]. exists e. apply entries_of_spec. fold es. rewrite Ees. left. }
  split; [done|]. split.
  - intros Hr. rewrite (bset_of_constant _ es t He); [done|].
    intros e [_ Hl]%entries_of_spec. rewrite entry_replacement_ordinary; congruence.
  - intros _. destruct (decide (Forall (fun e => entry_replacement current e
                          = agreed (bset_of_list (entry_replacement current <$> es))) es)) as [Hall|Hnot].
    + left. split; [done|]. intros e Hin Hl. rewrite Forall_forall in Hall. apply Hall.
      by apply entries_of_spec.
    + right.
      assert (exists a b, a ∈ es /\ b ∈ es /\ entry_replacement current a <> entry_replacement current b)
        as (a & b & Ha & Hb' & Hne).
      { destruct es as [|e es'] eqn:Ees; [done|].
        destruct (decide (Forall (fun x => entry_replacement current x = entry_replacement current e) (e :: es'))) as [Hf|Hf].
        - exfalso. apply Hnot. rewrite (bset_of_constant _ (e :: es') (entry_replacement current e)); [done|done|].
          intros a Ha. rewrite Forall_forall in Hf. auto.
        - apply not_Forall_Exists in Hf; [|solve_decision]. apply Exists_exists in Hf as (x & Hx & Hxe).
          exists x, e. split; [done|]. split; [left|done]. }
      apply entries_of_spec in Ha as [Ha Hla], Hb' as [Hb' Hlb]. split; [|eauto 10].
      destruct (agreed_spec (bset_of_list (entry_replacement current <$> es))) as [(r & Es & Er)|Hs]; [|done].
      exfalso. apply Hne.
      assert (forall e, e ∈ es -> entry_replacement current e = r) as Hr.
      { intros e Hin. assert (entry_replacement current e ∈ bset_of_list (entry_replacement current <$> es)) as Hm
          by (by apply elem_of_bset_of_list, list_elem_of_fmap_2).
        rewrite Es in Hm. by apply list_elem_of_singleton in Hm. }
      rewrite !Hr; [done|by apply entries_of_spec..].
Qed.

Definition sample_labels : AuthoredLabelMap := {| labels :=
  [ {| label := lit "Speaker A"; target := Profile 1; fallback_label := lit "Speaker B"; utterance_ids := [1] |};
    {| label := lit "Sarah"; target := Profile 2; fallback_label := lit "Speaker C"; utterance_ids := [2] |} ] |}.

Definition sample_current : bmap LabelTarget str :=
  [(Profile 1, lit "Ana"); (Profile 2, lit "Sofia")].

Lemma projection_replacements_witness :
  (lit "Speaker A", lit "Ana") ∈ replacements (new sample_labels sample_current)
  /\ is_blank (lit "Speaker A") = false.
Proof.
  assert ((lit "Speaker A", lit "Ana") ∈ replacements (new sample_labels sample_current)) as H
    by (vm_compute; set_solver).
  split; [exact H|]. apply (projection_replacements sample_labels sample_current _ _ H).
Defined.

(** ** Substitution, as a segmentation of the authored text *)

Inductive segment := Copied (c : char) | Replaced (token replacement : str).

Definition seg_source (s : segment) : str :=
  match s with Copied c => [c] | Replaced token _ => token end.
Definition seg_output (s : segment) : str :=
  match s with Copied c => [c] | Replaced _ replacement => replacement end.

Definition source_of (segs : list segment) : str := segs ≫= seg_source.
Definition output_of (segs : list segment) : str := segs ≫= seg_output.

Lemma source_of_app a b : source_of (a ++ b) = source_of a ++ source_of b.
Proof. apply bind_app. Qed.

Lemma source_of_cons s segs : source_of (s :: segs) = seg_source s ++ source_of segs.
Proof. done. Qed.

Lemma output_of_cons s segs : output_of (s :: segs) = seg_output s ++ output_of segs.
Proof. done. Qed.

Lemma longest_first_key a b :
  longest_first a b = on_key (fun r : str * str => (- byte_len r.1, r.1)) a b.
Proof.
  unfold longest_first, on_key, ord_leb. cbn [cmp prod_ord fst snd Z_ord].
  rewrite Z.compare_opp. destruct (byte_len b.1 ?= byte_len a.1); done.
Qed.

(** A projection is sorted longest token first. *)
Lemma new_sorted ls current :
  StronglySorted (fun x y => on_key (fun r : str * str => (- byte_len r.1, r.1)) x y = true)
    (replacements (new ls current)).
Proof.
  unfold new. cbn [replacements].
  assert (forall l, sort_by longest_first l
    = sort_by_key (fun r : str * str => (- byte_len r.1, r.1)) l) as ->.
  { intros l. unfold sort_by_key, sort_by. induction l as [|x l IH]; simpl; [done|]. rewrite IH.
    generalize (foldr (insert_sorted (on_key (fun r : str * str => (- byte_len r.1, r.1)))) [] l).
    intros k. induction k as [|y k IHk]; simpl; [done|]. by rewrite longest_first_key, IHk. }
  apply sort_by_key_sorted.
Qed.

Section Segments.
Context `{Unicode}.

(** A replacement stands at a position as an unprotected whole word. *)
Definition applies (before : option char) (rest : str) (protected : list bool) (r : str * str) : bool :=
  starts_with r.1 rest
  && token_boundary before (drop (length r.1) rest)
  && negb (existsb (fun x => x) (take (length r.1) protected)).

Fixpoint segs_ok (p : LabelProjection) (before : option char) (protected : list bool)
  (segs : list segment) : Prop :=
  match segs with
  | [] => True
  | Copied c :: segs' =>
    find_replacement p before (source_of segs) protected = None
    /\ segs_ok p (Some c) (tl protected) segs'
  | Replaced token replacement :: segs' =>
    find_replacement p before (source_of segs) protected = Some (token, replacement)
    /\ segs_ok p (last token) (drop (length token) protected) segs'
  end.

Definition tokens_nonempty (p : LabelProjection) : Prop :=
  forall t r, (t, r) ∈ replacements p -> t <> [].

Lemma find_replacement_applies p before rest protected r :
  find_replacement p before rest protected = Some r ->
  r ∈ replacements p /\ applies before rest protected r = true.
Proof. apply find_Some_elem. Qed.

(** The loop covers the whole text in steps: it terminates with fuel equal
    to the length because every token has a character. *)
Lemma substitute_segments p fuel before rest protected :
  tokens_nonempty p -> (length rest <= fuel)%nat ->
  exists segs, source_of segs = rest
    /\ output_of segs = substitute fuel p before rest protected
    /\ segs_ok p before protected segs.
Proof.
  intros Hp. revert before rest protected; induction fuel as [|f IH]; intros before rest protected Hf.
  - destruct rest; [|simpl in Hf; lia]. by exists [].
  - destruct rest as [|c rest]; [by exists []|]. cbn [substitute].
    destruct (find_replacement p before (c :: rest) protected) as [[t r]|] eqn:E.
    + pose proof (find_replacement_applies _ _ _ _ _ E) as [Hin Ha]. unfold applies in Ha.
      apply andb_true_iff in Ha as [Ha _]. apply andb_true_iff in Ha as [Hs _].
      apply starts_with_spec in Hs as [tail Ht]. cbn [fst] in Ht.
      assert (t <> []) as Hne by (by apply (Hp t r)).
      destruct (IH (last t) tail (drop (length t) protected)) as (segs & Hsrc & Hout & Hok).
      { apply (f_equal length) in Ht. rewrite length_app in Ht. simpl in Hf, Ht.
        destruct t; [done|]. simpl in Ht. unfold str, char in *. lia. }
      exists (Replaced t r :: segs). rewrite Ht, drop_app_length.
      split; [by rewrite source_of_cons, Hsrc|]. split; [by rewrite output_of_cons, Hout|].
      cbn [segs_ok]. split; [|done]. rewrite source_of_cons, Hsrc. cbn [seg_source].
      rewrite <- Ht. exact E.
    + destruct (IH (Some c) rest (tl protected)) as (segs & Hsrc & Hout & Hok); [simpl in Hf; lia|].
      exists (Copied c :: segs).
      split; [by rewrite source_of_cons, Hsrc|]. split; [by rewrite output_of_cons, Hout|].
      cbn [segs_ok]. split; [|done]. by rewrite source_of_cons, Hsrc.
Qed.

Definition last_or (before : option char) (s : str) : option char :=
  match last s with Some c => Some c | None => before end.

Lemma last_or_app before a b : last_or before (a ++ b) = last_or (last_or before a) b.
Proof. unfold last_or. rewrite last_app. by destruct (last b). Qed.

(** The invariant of every position inside a segmentation. *)
Lemma segs_ok_split p before protected a s b :
  tokens_nonempty p ->
  segs_ok p before protected (a ++ s :: b) ->
  match s with
  | Copied _ => find_replacement p (last_or before (source_of a)) (source_of (s :: b))
                  (drop (length (source_of a)) protected) = None
  | Replaced t r => find_replacement p (last_or before (source_of a)) (source_of (s :: b))
                  (drop (length (source_of a)) protected) = Some (t, r)
  end.
Proof.
  intros Hp. revert before protected; induction a as [|x a IH]; intros before protected; cbn [app segs_ok].
  - unfold last_or. simpl. destruct s; by intros [? _].
  - destruct x as [c|t r]; intros [Hf Hok]; apply IH in Hok.
    + replace (last_or before (source_of (Copied c :: a))) with (last_or (Some c) (source_of a)).
      2:{ rewrite source_of_cons, last_or_app. reflexivity. }
      replace (drop (length (source_of (Copied c :: a))) protected)
        with (drop (length (source_of a)) (tl protected)); [exact Hok|].
      rewrite source_of_cons. cbn [seg_source length app]. destruct protected; cbn [tl drop]; by rewrite ?drop_nil.
    + assert (t <> []) as Hne.
      { apply find_replacement_applies in Hf as [Hin _]. by apply (Hp t r). }
      replace (last_or before (source_of (Replaced t r :: a))) with (last_or (last t) (source_of a)).
      2:{ rewrite source_of_cons, last_or_app. cbn [seg_source]. f_equal. unfold last_or.
          destruct (last t) eqn:El; [done|]. by apply last_None in El. }
      replace (drop (length (source_of (Replaced t r :: a))) protected)
        with (drop (length (source_of a)) (drop (length t) protected)); [exact Hok|].
      rewrite source_of_cons, drop_drop, length_app. done.
Qed.

Lemma split_lines_concat s : concat (split_lines s) = s.
Proof.
  induction s as [|c s IH]; simpl; [done|]. destruct (N.eqb c newline); simpl; [by rewrite IH|].
  destruct (split_lines s) as [|l ls]; simpl in *; by rewrite <- IH.
Qed.

Lemma line_marks_length s : length (line_marks s) = length s.
Proof.
  unfold line_marks. rewrite <- (split_lines_concat s) at 2.
  induction (split_lines s) as [|l ls IH]; [done|]. rewrite bind_cons. cbn [concat].
  by rewrite !length_app, length_replicate, IH.
Qed.

Lemma span_marks_length fuel before rest : (length rest <= length (span_marks fuel before rest))%nat.
Proof.
  revert before rest; induction fuel as [|f IH]; intros before rest; cbn [span_marks].
  - by rewrite length_replicate.
  - destruct rest as [|c rest]; [simpl; lia|].
    destruct (protected_len before (c :: rest)) as [n|].
    + rewrite length_app, length_replicate.
      specialize (IH (last (take n (c :: rest))) (drop n (c :: rest))).
      rewrite length_drop in IH. lia.
    + cbn [length]. specialize (IH (Some c) rest). unfold str, char in *. lia.
Qed.

Lemma protected_length s : length (protected_text_ranges s) = length s.
Proof.
  unfold protected_text_ranges. rewrite length_zip_with, line_marks_length.
  pose proof (span_marks_length (length s) None s). unfold str, char in *. lia.
Qed.

Lemma unprotected_range (l : list bool) n m :
  (n + m <= length l)%nat -> existsb (fun x => x) (take m (drop n l)) = false ->
  forall i, (n <= i < n + m)%nat -> l !! i = Some false.
Proof.
  intros Hlen He i Hi. rewrite existsb_false in He.
  assert (is_Some (l !! i)) as [x Hx] by (apply lookup_lt_is_Some; lia). rewrite Hx. f_equal.
  apply (He x). apply (list_elem_of_lookup_2 _ (i - n)). rewrite lookup_take_lt by lia.
  rewrite lookup_drop. by replace (n + (i - n))%nat with i by lia.
Qed.

Lemma new_tokens_nonempty ls current : tokens_nonempty (new ls current).
Proof. intros t r (Hb & _ & _)%new_replacements ->. done. Qed.

Lemma find_first {A} (p : A -> bool) (le : A -> A -> Prop) l x :
  StronglySorted le l -> (forall a, le a a) -> List.find p l = Some x -> forall y, y ∈ l -> p y = true -> le x y.
Proof.
  intros Hs Hrefl. induction Hs as [|z l Hl IH Hz]; simpl; [done|].
  destruct (p z) eqn:E.
  - intros [= <-] y Hy Hp. rewrite Forall_forall in Hz. apply elem_of_cons in Hy as [->|Hy]; auto.
  - intros Hf y Hy Hp. apply elem_of_cons in Hy as [->|Hy]; [congruence|]. by apply IH.
Qed.

(** Substitution touches whole unprotected label words only.  The shown
    text is the authored text with some words exchanged: the authored text
    splits into copied characters and replaced tokens of the projection; a
    replaced token has no word character on either side and none of its
    characters lies in a quoted line, quotation, code span, link target or
    URL; no longer token stood there; and a character is copied only where
    no token applies. *)
Theorem text_replaces_whole_words ls current authored :
  let p := new ls current in
  exists segs, source_of segs = authored /\ output_of segs = text p authored
    /\ (forall a t r b, segs = a ++ Replaced t r :: b ->
          (t, r) ∈ replacements p
          /\ is_word (last (source_of a)) = false /\ is_word (head_char (source_of b)) = false
          /\ (forall i, (length (source_of a) <= i < length (source_of a) + length t)%nat ->
                protected_text_ranges authored !! i = Some false)
          /\ (forall t' r', (t', r') ∈ replacements p ->
                applies (last (source_of a)) (t ++ source_of b)
                  (drop (length (source_of a)) (protected_text_ranges authored)) (t', r') = true ->
                byte_len t' <= byte_len t))
    /\ (forall a c b t r, segs = a ++ Copied c :: b -> (t, r) ∈ replacements p ->
          applies (last (source_of a)) (c :: source_of b)
            (drop (length (source_of a)) (protected_text_ranges authored)) (t, r) = false).
Proof.
  intros p. pose proof (new_tokens_nonempty ls current) as Hp. fold p in Hp.
  set (marks := protected_text_ranges authored).
  destruct (substitute_segments p (length authored) None authored marks Hp) as (segs & Hsrc & Hout & Hok); [done|].
  assert (forall s : str, last_or None s = last s) as Hlast by (intros s; unfold last_or; by destruct (last s)).
  exists segs. split; [done|]. split; [|split].
  - unfold text. destruct (is_empty (replacements p)) eqn:E; [|exact Hout].
    apply is_empty_true in E. rewrite <- Hsrc. clear - Hok E.
    revert Hok. generalize (None : option char) marks.
    induction segs as [|[c|t r] segs IH]; intros before prot; cbn [segs_ok]; [done| |].
    + intros [_ Hok]. rewrite source_of_cons, output_of_cons. cbn. f_equal. by apply (IH (Some c) (tl prot)).
    + intros [Hf _]. unfold find_replacement in Hf. by rewrite E in Hf.
  - intros a t r b ->. pose proof (segs_ok_split _ _ _ _ _ _ Hp Hok) as Hf. cbn beta iota in Hf.
    rewrite Hlast in Hf. pose proof (find_replacement_applies _ _ _ _ _ Hf) as [Hin Ha].
    unfold applies in Ha. cbn [fst] in Ha. rewrite !andb_true_iff, negb_true_iff in Ha.
    destruct Ha as [[_ Hb] Hm]. unfold token_boundary in Hb. rewrite andb_true_iff, !negb_true_iff in Hb.
    rewrite source_of_cons in Hb. cbn [seg_source] in Hb. rewrite drop_app_length in Hb. destruct Hb as [Hb1 Hb2].
    split; [done|]. split; [done|]. split; [done|]. split.
    + apply unprotected_range; [|done]. unfold marks. rewrite protected_length, <- Hsrc, source_of_app, length_app.
      rewrite source_of_cons, length_app. cbn [seg_source]. unfold str, char in *. lia.
    + intros t' r' Hin' Ha'.
      assert (on_key (fun r : str * str => (- byte_len r.1, r.1)) (t, r) (t', r') = true) as Hle.
      { apply (find_first _ (fun x y => on_key (fun r : str * str => (- byte_len r.1, r.1)) x y = true)
                 (replacements p) (t, r)) with (y := (t', r')) in Hf; [exact Hf| | |exact Hin'|exact Ha'].
        - apply new_sorted.
        - intros x. unfold on_key. apply ord_leb_cases. by left. }
      unfold on_key in Hle. apply ord_leb_cases in Hle as [[= Hle _]|Hle]; [lia|].
      unfold lt_ord in Hle. cbn [cmp prod_ord Z_ord fst snd] in Hle.
      destruct (- byte_len t ?= - byte_len t') eqn:Ec; [|change (- byte_len t < - byte_len t') in Ec; lia|done].
      apply (proj1 (Z.compare_eq_iff _ _)) in Ec. lia.
  - intros a c b t r -> Hin. pose proof (segs_ok_split _ _ _ _ _ _ Hp Hok) as Hf. cbn beta iota in Hf.
    rewrite Hlast in Hf. unfold find_replacement in Hf.
    pose proof (List.find_none _ _ Hf (t, r)) as Hn. apply Hn. by apply list_elem_of_In.
Qed.
End Segments.

(** ** Authored JSON keeps its shape *)

Section Json.
Context `{Unicode}.

Definition project_entry (p : LabelProjection) (kv : str * Value) : str * Value :=
  (kv.1, if human_field kv.1 kv.2 then human_json p kv.2 else kv.2).

Lemma human_json_object p (fields : list (str * Value)) : human_json p (VObject fields) = VObject (project_entry p <$> fields).
Proof. done. Qed.

Lemma bkeys_project p (fields : list (str * Value)) : bkeys (project_entry p <$> fields) = bkeys fields.
Proof. unfold bkeys. rewrite <- list_fmap_compose. by apply list_fmap_ext. Qed.

Lemma bget_project p key (fields : list (str * Value)) :
  bget key (project_entry p <$> fields)
  = (fun v => if human_field key v then human_json p v else v) <$> bget key fields.
Proof.
  induction fields as [|[k v] fields IH]; [done|]. rewrite fmap_cons. cbn.
  destruct (list_cmp key k) eqn:E; [|done|exact IH].
  apply list_cmp_eq in E as ->. done.
Qed.

Lemma human_json_is_string p v : is_string (human_json p v) = is_string v.
Proof. by destruct v. Qed.

Lemma human_json_is_array p v : is_array (human_json p v) = is_array v.
Proof. by destruct v. Qed.

Lemma text_empty authored : text default_projection authored = authored.
Proof. done. Qed.

(** Projecting authored JSON changes no structure.  The field names of
    an object stay, a documented human field is projected, every other field
    is copied unchanged whatever it holds, and so are numbers, booleans and
    nulls; well-formed values stay well formed; and without authored labels
    nothing changes at all. *)
Theorem human_json_shape p v :
  value_wf v ->
  value_wf (human_json p v)
  /\ human_json default_projection v = v
  /\ (forall fields, v = VObject fields ->
        exists fields', human_json p v = VObject fields' /\ bkeys fields' = bkeys fields
          /\ forall key x, bget key fields = Some x ->
               bget key fields' = Some (if human_field key x then human_json p x else x))
  /\ (is_string v = false -> is_array v = false -> is_object v = false -> human_json p v = v).
Proof.
  intros Hv. split; [|split; [|split]].
  - revert Hv. induction v as [| | | |items IH|fields IH] using value_ind; try done.
    + rewrite value_wf_array. change (human_json p (VArray items)) with (VArray (human_json p <$> items)).
      rewrite value_wf_array, Forall_fmap. intros Hi. rewrite Forall_forall in *. unfold compose. auto.
    + rewrite human_json_object, !value_wf_object. unfold bwf. rewrite bkeys_project. intros [Hk Hf].
      split; [done|]. rewrite Forall_fmap. rewrite Forall_forall in *. intros kv Hin. unfold compose, project_entry. simpl.
      destruct (human_field kv.1 kv.2); auto.
  - clear Hv. induction v as [| | | |items IH|fields IH] using value_ind; try done.
    + change (human_json default_projection (VArray items)) with (VArray (human_json default_projection <$> items)).
      f_equal. rewrite <- (list_fmap_id items) at 2. apply list_fmap_ext. intros i x Hx.
      rewrite Forall_forall in IH. apply IH. by apply list_elem_of_lookup_2 in Hx.
    + rewrite human_json_object. f_equal. rewrite <- (list_fmap_id fields) at 2. apply list_fmap_ext.
      intros i [k x] Hx. rewrite Forall_forall in IH. unfold project_entry. simpl.
      destruct (human_field k x); [|done]. f_equal.
      apply (IH (k, x)). by apply list_elem_of_lookup_2 in Hx.
  - intros fields ->. exists (project_entry p <$> fields). split; [done|]. split; [apply bkeys_project|].
    intros key x Hx. by rewrite bget_project, Hx.
  - by destruct v.
Qed.

Definition sample_brief : Value :=
  object [("heading"%string, VString (lit "Speaker A's next steps"));
          ("due_at"%string, VString (lit "Me")); ("count"%string, of_Z 3)].

(** The gists of a minute list, when every minute has one. *)
Definition gists_of (minutes : list Value) : option (list str) :=
  sequence ((fun minute => get (lit "gist") minute ≫= as_str) <$> minutes).

(** [text] is one of the two stored mirror forms of a minute list. *)
Definition mirrors (sep : str) (mirror : str) (minutes : Value) : Prop :=
  exists l gists, minutes = VArray l /\ gists_of l = Some gists /\ mirror = join sep gists.

Lemma project_minute_gist e minute g :
  get (lit "gist") minute ≫= as_str = Some g ->
  exists g', get (lit "gist") (project_minute e minute) ≫= as_str = Some g'
    /\ as_str (index (project_minute e minute) (lit "gist")) = Some g'.
Proof.
  unfold project_minute. intros Hg.
  destruct ((get (lit "start") minute ≫= as_str) ≫= (fun s => bget s (minutes e))) as [p|].
  - destruct minute as [| | | | |fields]; try done. rewrite human_json_object. unfold index. cbn [get] in *.
    rewrite bget_project. destruct (bget (lit "gist") fields) as [v|]; [|done]. simpl in Hg.
    destruct v as [| | |s| |]; try done.
    change (human_field (lit "gist") (VString s)) with true. exists (text p s). done.
  - exists g. split; [done|]. unfold index. destruct (get (lit "gist") minute) as [v|]; done.
Qed.

Lemma project_minutes_gists e l gists :
  gists_of l = Some gists ->
  exists gists', gists_of (project_minute e <$> l) = Some gists'
    /\ sequence ((fun minute => as_str (index minute (lit "gist"))) <$> (project_minute e <$> l)) = Some gists'.
Proof.
  unfold gists_of. intros Hf%sequence_map_Some.
  induction Hf as [|minute g l gists Hg Hf IH]; [by exists []|].
  destruct IH as (gists' & H1 & H2). destruct (project_minute_gist e minute g Hg) as (g' & Hg1 & Hg2).
  exists (g' :: gists'). rewrite !fmap_cons. cbn [sequence]. by rewrite Hg1, H1, Hg2, H2.
Qed.

(** The plain-text mirror of the minute summaries stays a mirror.  The
    projection never fails on the [unwrap]s; text that is the newline or the
    space join of the gists becomes the same join of the projected gists,
    and any other text is kept as authored. *)
Theorem minutes_mirror_preserved e authored minutes :
  (exists shown, minutes_text e authored minutes = Some shown
     /\ (shown = authored
         \/ exists sep, (sep = [newline] \/ sep = [space]) /\ mirrors sep authored minutes
              /\ mirrors sep shown (minute_summaries e minutes)))
  /\ (mirrors [newline] authored minutes ->
        exists shown, minutes_text e authored minutes = Some shown
          /\ mirrors [newline] shown (minute_summaries e minutes)).
Proof.
  assert (forall l gists sep, minutes = VArray l -> gists_of l = Some gists -> join sep gists = authored ->
    exists shown, project_mirror e l sep = Some shown /\ mirrors sep authored minutes
      /\ mirrors sep shown (minute_summaries e minutes)) as Hproject.
  { intros l gists sep -> Hg Hj. destruct (project_minutes_gists e l gists Hg) as (gists' & H1 & H2).
    exists (join sep gists'). unfold project_mirror. cbn [minute_summaries as_array]. rewrite H2.
    split; [done|]. split.
    - exists l, gists. auto.
    - exists (project_minute e <$> l), gists'. auto. }
  unfold minutes_text. split.
  - destruct (as_array minutes) as [l|] eqn:Ea; [|eauto].
    destruct minutes as [| | | |l'|]; try done. injection Ea as ->.
    fold (gists_of l). destruct (gists_of l) as [gists|] eqn:Eg; [|eauto].
    destruct (str_eqb (join [newline] gists) authored) eqn:E1.
    { apply str_eqb_eq in E1. destruct (Hproject l gists [newline] eq_refl Eg E1) as (shown & ? & ? & ?).
      exists shown. split; [done|]. right. exists [newline]. auto. }
    destruct (str_eqb (join [space] gists) authored) eqn:E2; [|eauto].
    apply str_eqb_eq in E2. destruct (Hproject l gists [space] eq_refl Eg E2) as (shown & ? & ? & ?).
    exists shown. split; [done|]. right. exists [space]. auto.
  - intros (l & gists & -> & Hg & Hm). cbn [as_array]. fold (gists_of l). rewrite Hg, <- Hm, str_eqb_refl.
    destruct (Hproject l gists [newline] eq_refl Hg (eq_sym Hm)) as (shown & ? & _ & ?). subst. eauto.
Qed.
End Json.

Lemma human_json_shape_witness :
  let U := ascii_unicode in
  value_wf (human_json (new sample_labels sample_current) sample_brief)
  /\ index (human_json (new sample_labels sample_current) sample_brief) (lit "heading")
     = VString (lit "Ana's next steps").
Proof.
  split; [|vm_compute; reflexivity].
  apply (human_json_shape (H := ascii_unicode)). split; [|simpl; tauto].
  vm_compute. repeat constructor.
Defined.

Definition sample_episode_projection : EpisodeLabelProjection :=
  {| timeline := default_projection; minutes := [(lit "first", new sample_labels sample_current)];
     actions := default_projection; brief := default_projection |}.

Definition sample_minutes : Value :=
  VArray [object [("start"%string, VString (lit "first")); ("gist"%string, VString (lit "Speaker A planned"))]].

Lemma minutes_mirror_preserved_witness :
  let U := ascii_unicode in
  mirrors [newline] (lit "Speaker A planned") sample_minutes
  /\ minutes_text sample_episode_projection (lit "Speaker A planned") sample_minutes
     = Some (lit "Ana planned")
  /\ exists shown, minutes_text sample_episode_projection (lit "Speaker A planned") sample_minutes = Some shown.
Proof.
  assert (mirrors [newline] (lit "Speaker A planned") sample_minutes) as H.
  { eexists _, _. split; [reflexivity|]. split; reflexivity. }
  split; [exact H|]. split; [vm_compute; reflexivity|].
  destruct (minutes_mirror_preserved (H := ascii_unicode) sample_episode_projection
              (lit "Speaker A planned") sample_minutes) as [_ Hm].
  destruct (Hm H) as (shown & Hs & _). exists shown. exact Hs.
Defined.

(** ** Participant meaning *)

(** The meaning the current state gives an utterance. *)
Definition current_meaning (id : Z) (current : list UtteranceIdentity) : option SpeakerMeaning :=
  meaning <$> last (List.filter (fun e => Z.eqb (utterance_id e) id) current).

Lemma current_by_id_lookup id current :
  bget id (bfrom_list ((fun entry => (utterance_id entry, meaning entry)) <$> current))
  = current_meaning id current.
Proof.
  unfold bfrom_list, current_meaning. rewrite bget_fold_binsert by apply bwf_nil.
  induction current as [|e current IH] using rev_ind; [done|].
  rewrite fmap_app, !List.filter_app. cbn [List.filter fmap list_fmap fst cmp Z_ord].
  destruct (Z.eqb_spec (utterance_id e) id) as [E|E].
  - rewrite E, Z.compare_refl. by rewrite !last_snoc.
  - destruct (utterance_id e ?= id) eqn:Ec; [by apply Z.compare_eq in Ec|by rewrite !app_nil_r..].
Qed.

(** Whether one remembered utterance lost or changed its participant. *)
Definition utterance_changed (current : list UtteranceIdentity) (before : UtteranceIdentity) : bool :=
  match current_meaning (utterance_id before) current with
  | Some after => negb (bool_decide (meaning before = after))
  | None =>
    (owner (meaning before) || match person_id (meaning before) with Some _ => true | None => false end)
    && negb (existsb (fun after => bool_decide (meaning after = meaning before)) current)
  end.

Lemma participant_meaning_changed_spec previous current :
  participant_meaning_changed previous current = existsb (utterance_changed current) previous.
Proof.
  unfold participant_meaning_changed. induction previous as [|b previous IH]; [done|].
  cbn [existsb]. by rewrite IH, current_by_id_lookup.
Qed.

Lemma current_meaning_app id a b :
  current_meaning id (a ++ b)
  = match current_meaning id b with Some m => Some m | None => current_meaning id a end.
Proof.
  unfold current_meaning. rewrite List.filter_app, last_app.
  destruct (last (List.filter _ b)); done.
Qed.

Lemma current_meaning_None id l :
  current_meaning id l = None <-> forall e, e ∈ l -> utterance_id e <> id.
Proof.
  unfold current_meaning. rewrite fmap_None, last_None. split.
  - intros E e He Hid. assert (e ∈ List.filter (fun e => Z.eqb (utterance_id e) id) l) as Hin.
    { apply elem_of_filter_bool. split; [done|]. by apply Z.eqb_eq. }
    rewrite E in Hin. by apply not_elem_of_nil in Hin.
  - intros Hno. destruct (List.filter _ l) as [|e k] eqn:E; [done|]. exfalso.
    assert (e ∈ List.filter (fun e => Z.eqb (utterance_id e) id) l) as Hin by (rewrite E; left).
    apply elem_of_filter_bool in Hin as [Hin Hid]. apply Z.eqb_eq in Hid. by apply (Hno e).
Qed.

Lemma current_meaning_unique id l e :
  NoDup (utterance_id <$> l) -> e ∈ l -> utterance_id e = id -> current_meaning id l = Some (meaning e).
Proof.
  intros Hnd Hin Hid. induction l as [|x l IH] using rev_ind; [by apply not_elem_of_nil in Hin|].
  rewrite fmap_app in Hnd. apply NoDup_app in Hnd as (Hl & Hx & _).
  rewrite current_meaning_app. unfold current_meaning at 1. simpl.
  apply elem_of_app in Hin as [Hin|Hin].
  - destruct (Z.eqb_spec (utterance_id x) id) as [E|E]; [|by apply IH].
    exfalso. apply (Hx id); [rewrite <- Hid; by apply list_elem_of_fmap_2|]. simpl. rewrite E. left.
  - apply list_elem_of_singleton in Hin as ->. by rewrite Hid, Z.eqb_refl.
Qed.

(** Only a participant's own change counts as a change of meaning.
    Comparing a state with itself reports nothing; adding utterances the
    memory did not hold never reports a change and never hides one of an
    utterance that is still there; and a withdrawn utterance counts exactly
    when it had an owner or a known person and no remaining utterance has
    that meaning. *)
Theorem participant_meaning_neutral previous current added :
  NoDup (utterance_id <$> previous) ->
  (forall a, a ∈ added -> forall b, b ∈ previous -> utterance_id a <> utterance_id b) ->
  participant_meaning_changed previous previous = false
  /\ participant_meaning_changed previous (previous ++ added) = false
  /\ (participant_meaning_changed previous (current ++ added) = true ->
      participant_meaning_changed previous current = true)
  /\ (forall b, b ∈ previous -> current_meaning (utterance_id b) current = None ->
        utterance_changed current b = true
        <-> (owner (meaning b) = true \/ is_Some (person_id (meaning b)))
            /\ forall after, after ∈ current -> meaning after <> meaning b).
Proof.
  intros Hnd Hadd. rewrite !participant_meaning_changed_spec.
  assert (forall b, b ∈ previous -> current_meaning (utterance_id b) added = None) as Hno.
  { intros b Hb. apply current_meaning_None. intros e He. by apply Hadd. }
  assert (forall b, b ∈ previous -> current_meaning (utterance_id b) previous = Some (meaning b)) as Hself.
  { intros b Hb. by apply current_meaning_unique. }
  split; [|split; [|split]].
  - apply existsb_false. intros b Hb. unfold utterance_changed. rewrite Hself by done.
    by rewrite bool_decide_eq_true_2.
  - apply existsb_false. intros b Hb. unfold utterance_changed.
    rewrite current_meaning_app, Hno, Hself by done. by rewrite bool_decide_eq_true_2.
  - rewrite !existsb_Exists. intros (b & Hb & Hc). exists b. split; [done|].
    unfold utterance_changed in *. rewrite current_meaning_app, Hno in Hc by done.
    destruct (current_meaning (utterance_id b) current); [done|].
    apply andb_true_iff in Hc as [Ho Hn]. rewrite Ho. simpl.
    rewrite existsb_app, negb_orb in Hn. by apply andb_true_iff in Hn as [? _].
  - intros b Hb Hnone. unfold utterance_changed. rewrite Hnone, andb_true_iff, orb_true_iff, negb_true_iff.
    rewrite existsb_false. split.
    + intros [Ho Hn]. split.
      * destruct Ho as [Ho|Ho]; [by left|right]. destruct (person_id (meaning b)); [eauto|done].
      * intros after Ha E. specialize (Hn after Ha). by apply bool_decide_eq_false in Hn.
    + intros [Ho Hn]. split.
      * destruct Ho as [Ho|[x Ho]]; [by left|right]. by rewrite Ho.
      * intros after Ha. apply bool_decide_eq_false. auto.
Qed.

Definition sample_identity (id : Z) (person : option Z) : UtteranceIdentity :=
  {| utterance_id := id; meaning := {| owner := false; person_id := person; sm_name := None |} |}.

Lemma participant_meaning_neutral_witness :
  participant_meaning_changed [sample_identity 1 (Some 5)]
    ([sample_identity 1 (Some 5)] ++ [sample_identity 2 (Some 6)]) = false.
Proof.
  apply (participant_meaning_neutral [sample_identity 1 (Some 5)] [] [sample_identity 2 (Some 6)]).
  - apply (bool_decide_eq_true_1 _). vm_compute. reflexivity.
  - intros a Ha b Hb. apply list_elem_of_singleton in Ha as ->, Hb as ->. simpl. lia.
Defined.
