(* ===== verification/Reconciliation.v ===== *)
(** * Reconciliation records and commitments

    [persistence/memory_reconciliation.rs]: the values exchanged between the
    reconciler and the store, and the commitments computed over them.  The
    traits of the file are the SQL adapter's interface; SHA-256 and the JSON
    printer of [serde_json] are parameters.  Bytes are [N]s below 256. *)
From Stdlib Require Import ZArith Lia.
From S2P Require Import Prelude OrdMap Text F64 Errors Bytes Json Presentation.
Local Open Scope Z_scope.
Local Open Scope kioku_scope.

Definition OVERSIZED_KEEP_MODEL : str := lit "conservative-oversized-keep-v1".
Definition MAX_OVERSIZED_KEEP_SOURCES : Z := 250000.
Definition OVERSIZED_KEEP_SOURCE_PAGE_SIZE : Z := 2048.
Definition RECONCILIATION_PROVIDER_REQUEST_CONTRACT_VERSION : Z := 1.
Definition RECONCILIATION_PROVIDER_REQUEST_MAX_BYTES : Z := 4 * 1024 * 1024.

Record ReconciliationDraft := {
  d_id : Z;
  d_started_at : str;
  d_ended_at : str;
  d_episode_type : option str;
  d_title : str;
  d_summary : option str;
  d_participants : list str;
  d_languages : list str;
  d_action_items : list str;
  d_model : option str;
  d_minute_summaries : Value;
  d_minutes_text : option str;
  d_substance : str;
  d_visual_evidence : str;
  d_updated_at : option str;
  d_identity_revision : Z;
  d_member_source_ids : list str
}.

Record ReconciliationEvidenceAtom := {
  a_source_id : str;
  a_record_type : str;
  a_record_id : Z;
  a_started_at : str;
  a_ended_at : str;
  a_context : str
}.

Record ReconciliationSnapshot := {
  s_authored_labels : AuthoredLabelMap;
  s_account_id : str;
  s_cohort_started_at : str;
  s_cohort_ended_at : str;
  s_predecessor_episode_ids : list Z;
  s_drafts : list ReconciliationDraft;
  s_atoms : list ReconciliationEvidenceAtom;
  s_capture_session_ids : list str;
  s_source_fingerprint : bytes;
  s_topology_fingerprint : bytes;
  s_archive_revision : Z;
  s_memory_language : str
}.

Record ReconciliationClaim := {
  cl_account_id : str;
  cl_source_fingerprint : bytes;
  cl_topology_fingerprint : bytes;
  cl_predecessor_episode_ids : list Z;
  cl_claim_token : str;
  cl_lease_until : str;
  cl_attempt_count : Z;
  cl_model_attempt_count : Z;
  cl_activation_generation : Z;
  cl_producer_contract_sha256 : bytes;
  cl_reconciliation_model : str;
  cl_vertex_location : str
}.

Record ReconciliationProviderRequest := {
  contract_version : Z;
  pr_authored_labels : AuthoredLabelMap;
  user_message : str
}.

Record ReconciledMemoryWrite := {
  w_authored_labels : AuthoredLabelMap;
  w_output_ordinal : Z;
  w_retained_episode_id : option Z;
  w_predecessor_episode_ids : list Z;
  w_started_at : str;
  w_ended_at : str;
  w_episode_type : option str;
  w_title : str;
  w_summary : option str;
  w_participants : list str;
  w_languages : list str;
  w_action_items : list str;
  w_model : option str;
  w_minute_summaries : Value;
  w_minutes_text : option str;
  w_substance : str;
  w_visual_evidence : str;
  w_member_source_ids : list str
}.

Record ReconciliationStageWrite := {
  sw_normalized_partition : Value;
  sw_result_commitment : bytes;
  sw_planned_outputs : list ReconciledMemoryWrite;
  sw_model : str;
  sw_vertex_event_id : option str;
  sw_provider_attempt_identity : option bytes;
  sw_provider_invocation_fingerprint : option bytes;
  sw_reconciliation_version : Z;
  sw_prompt_version : Z;
  sw_partition_schema_version : Z;
  sw_validator_version : Z
}.

Record StagedReconciliation := {
  st_account_id : str;
  st_source_fingerprint : bytes;
  st_topology_fingerprint : bytes;
  st_predecessor_episode_ids : list Z;
  st_normalized_partition : Value;
  st_result_commitment : bytes;
  st_planned_outputs : list ReconciledMemoryWrite;
  st_planned_outputs_commitment : bytes;
  st_model : str;
  st_vertex_event_id : option str;
  st_provider_attempt_identity : option bytes;
  st_provider_invocation_fingerprint : option bytes;
  st_reconciliation_version : Z;
  st_prompt_version : Z;
  st_partition_schema_version : Z;
  st_validator_version : Z;
  st_activation_generation : Z;
  st_producer_contract_sha256 : bytes;
  st_reconciliation_model : str;
  st_vertex_location : str
}.

(** ** Serialisation to [Value], as serde's derived [Serialize] *)

Definition target_to_value (t : LabelTarget) : Value :=
  match t with
  | Profile id => object [("kind"%string, VString (lit "profile")); ("id"%string, of_Z id)]
  | Cluster id => object [("kind"%string, VString (lit "cluster")); ("id"%string, of_Z id)]
  end.

Definition label_to_value (l : AuthoredLabel) : Value :=
  object [("label"%string, VString (label l)); ("target"%string, target_to_value (target l));
          ("fallback_label"%string, VString (fallback_label l));
          ("utterance_ids"%string, VArray (of_Z <$> utterance_ids l))].

Definition labels_to_value (m : AuthoredLabelMap) : Value :=
  object [("labels"%string, VArray (label_to_value <$> labels m))].

(** [skip_serializing_if = "AuthoredLabelMap::is_empty"] *)
Definition labels_field (m : AuthoredLabelMap) : list (string * Value) :=
  if map_is_empty m then [] else [("authored_labels"%string, labels_to_value m)].

Definition write_to_value (w : ReconciledMemoryWrite) : Value :=
  object (labels_field (w_authored_labels w) ++
    [("output_ordinal"%string, of_Z (w_output_ordinal w));
     ("retained_episode_id"%string, of_option of_Z (w_retained_episode_id w));
     ("predecessor_episode_ids"%string, VArray (of_Z <$> w_predecessor_episode_ids w));
     ("started_at"%string, VString (w_started_at w));
     ("ended_at"%string, VString (w_ended_at w));
     ("episode_type"%string, of_option VString (w_episode_type w));
     ("title"%string, VString (w_title w));
     ("summary"%string, of_option VString (w_summary w));
     ("participants"%string, of_strs (w_participants w));
     ("languages"%string, of_strs (w_languages w));
     ("action_items"%string, of_strs (w_action_items w));
     ("model"%string, of_option VString (w_model w));
     ("minute_summaries"%string, w_minute_summaries w);
     ("minutes_text"%string, of_option VString (w_minutes_text w));
     ("substance"%string, VString (w_substance w));
     ("visual_evidence"%string, VString (w_visual_evidence w));
     ("member_source_ids"%string, of_strs (w_member_source_ids w))]).

(** ** Commitments *)

Section Commitments.
(** The [sha2] digest, and [serde_json::to_vec] at [Value] and at the frozen
    request, whose fields it writes in their own order. *)
Context (sha256 : bytes -> bytes).
Context (to_vec : Value -> option bytes) (request_to_vec : ReconciliationProviderRequest -> option bytes).

Definition oversized_keep_policy_commitment : bytes :=
  sha256 (blit "kioku.memory-reconciliation.oversized-keep-policy.v1" ++ [0%N]
    ++ OVERSIZED_KEEP_MODEL
    ++ be_bytes 8 MAX_OVERSIZED_KEEP_SOURCES
    ++ be_bytes 8 OVERSIZED_KEEP_SOURCE_PAGE_SIZE
    ++ blit "oldest-connected-prefix|max-32|exact-active-episode-and-member-keep|preserve-finalized-receipts|structure-state-only|no-provider|all-raw-sources-owned|formation-current|capture-context-8h-v2").

Definition reconciliation_provider_request_bytes (request : ReconciliationProviderRequest) : res bytes :=
  if negb (contract_version request =? RECONCILIATION_PROVIDER_REQUEST_CONTRACT_VERSION)
     || is_empty (user_message request)
  then Err (InvalidRequest (lit "memory reconciliation provider request contract is invalid"))
  else
    let? bytes := ok_or (request_to_vec request) Json in
    if RECONCILIATION_PROVIDER_REQUEST_MAX_BYTES <? Z.of_nat (length bytes)
    then Err (InvalidRequest (lit "memory reconciliation provider request exceeds its exact byte bound"))
    else Ok bytes.

Definition reconciliation_outputs_commitment (outputs : list ReconciledMemoryWrite) : res bytes :=
  let? encoded := ok_or (to_vec (VArray (write_to_value <$> outputs))) Json in
  Ok (sha256 (blit "kioku.memory-reconciliation.planned-outputs.v1" ++ [0%N] ++ encoded)).

Definition reconciliation_provider_attempt_identity (source_fingerprint : bytes)
  (activation_generation : Z) (producer_contract_sha256 : bytes) (model_attempt_count : Z) : res bytes :=
  if negb (Z.of_nat (length source_fingerprint) =? 32)
     || (activation_generation <=? 0)
     || negb (Z.of_nat (length producer_contract_sha256) =? 32)
     || (model_attempt_count <? 0)
  then Err (Store (lit "memory reconciliation provider attempt identity is invalid"))
  else Ok (sha256 (blit "kioku.memory-reconciliation.provider-attempt.v2" ++ [0%N]
             ++ source_fingerprint ++ be_bytes 8 activation_generation
             ++ producer_contract_sha256 ++ be_bytes 8 model_attempt_count)).
End Commitments.

(** ** The attempt identity commits to its four inputs *)

(** The identity's preimage determines its four inputs. *)
Lemma attempt_preimage_inj (t f1 f2 c1 c2 : bytes) g1 g2 n1 n2 :
  length f1 = length f2 -> length c1 = length c2 ->
  I64.in_range g1 -> I64.in_range g2 -> I64.in_range n1 -> I64.in_range n2 ->
  t ++ f1 ++ be_bytes 8 g1 ++ c1 ++ be_bytes 8 n1 = t ++ f2 ++ be_bytes 8 g2 ++ c2 ++ be_bytes 8 n2 ->
  f1 = f2 /\ g1 = g2 /\ c1 = c2 /\ n1 = n2.
Proof.
  intros Hf Hc Hg1 Hg2 Hn1 Hn2 H1. apply app_inv_head in H1.
  apply app_inj_1 in H1 as [-> H1]; [|done].
  apply app_inj_1 in H1 as [Hg H1]; [|by rewrite !be_bytes_length].
  apply app_inj_1 in H1 as [-> Hn]; [|done].
  apply be_bytes_inj_i64 in Hg; [|done..]. apply be_bytes_inj_i64 in Hn; [|done..]. done.
Qed.

Lemma attempt_identity_Ok sha256 f g c n d :
  reconciliation_provider_attempt_identity sha256 f g c n = Ok d ->
  length f = 32%nat /\ 0 < g /\ length c = 32%nat /\ 0 <= n
  /\ d = sha256 ((blit "kioku.memory-reconciliation.provider-attempt.v2" ++ [0%N])
                 ++ f ++ be_bytes 8 g ++ c ++ be_bytes 8 n).
Proof.
  unfold reconciliation_provider_attempt_identity.
  destruct (negb (Z.of_nat (length f) =? 32)) eqn:E1; [done|].
  destruct (g <=? 0) eqn:E2; [done|].
  destruct (negb (Z.of_nat (length c) =? 32)) eqn:E3; [done|].
  destruct (n <? 0) eqn:E4; [done|]. cbn [orb]. intros H. injection H as <-.
  apply negb_false_iff, Z.eqb_eq in E1, E3. apply Z.leb_gt in E2. apply Z.ltb_ge in E4.
  do 4 (split; [lia|]). done.
Qed.

(** A provider attempt identity commits to its four inputs.  It is
    refused unless both digests are 32 bytes, the generation is positive and
    the count is nonnegative; and when two admitted identities are equal,
    their source, generation, producer contract and attempt number are
    equal, or a collision of the digest is at hand. *)
Theorem attempt_identity_commits sha256 f1 g1 c1 n1 f2 g2 c2 n2 d :
  I64.in_range g1 -> I64.in_range g2 -> I64.in_range n1 -> I64.in_range n2 ->
  reconciliation_provider_attempt_identity sha256 f1 g1 c1 n1 = Ok d ->
  reconciliation_provider_attempt_identity sha256 f2 g2 c2 n2 = Ok d ->
  length f1 = 32%nat /\ length c1 = 32%nat /\ 0 < g1 /\ 0 <= n1
  /\ ((f1 = f2 /\ g1 = g2 /\ c1 = c2 /\ n1 = n2)
      \/ exists a b, a <> b /\ sha256 a = sha256 b).
Proof.
  intros Hg1 Hg2 Hn1 Hn2 H1%attempt_identity_Ok H2%attempt_identity_Ok.
  destruct H1 as (Hf1 & Hg & Hc1 & Hn & E1), H2 as (Hf2 & _ & Hc2 & _ & E2).
  repeat (split; [done|]). rewrite E1 in E2. revert E2. clear E1.
  generalize (blit "kioku.memory-reconciliation.provider-attempt.v2" ++ [0%N]). intros t E2.
  destruct (decide (t ++ f1 ++ be_bytes 8 g1 ++ c1 ++ be_bytes 8 n1 = t ++ f2 ++ be_bytes 8 g2 ++ c2 ++ be_bytes 8 n2))
    as [E|E]; [left|right; eauto].
  apply (attempt_preimage_inj t); [congruence|congruence|done..].
Qed.

Lemma attempt_identity_commits_witness :
  exists d, reconciliation_provider_attempt_identity (fun x => x) (replicate 32 1%N) 3 (replicate 32 2%N) 1 = Ok d
    /\ length (replicate 32 1%N) = 32%nat.
Proof.
  eexists. split; [reflexivity|].
  apply (attempt_identity_commits (fun x => x) (replicate 32 1%N) 3 (replicate 32 2%N) 1
           (replicate 32 1%N) 3 (replicate 32 2%N) 1
           ((blit "kioku.memory-reconciliation.provider-attempt.v2" ++ [0%N])
             ++ replicate 32 1%N ++ be_bytes 8 3 ++ replicate 32 2%N ++ be_bytes 8 1));
    [| | | |vm_compute; reflexivity|vm_compute; reflexivity];
    unfold I64.in_range, I64.min_value, I64.max_value; lia.
Defined.
