(* ===== verification/Vertex.v ===== *)
(** * The provider boundary

    The pure parts of [cp/vertex.rs] and the persisted request contract of
    [persistence/memory_formation.rs]: how a failed generation is classified,
    what an exact formation request contains, and when one is supported.  The
    HTTP client, tokens and the usage ledger are not modelled. *)
From Stdlib Require Import ZArith Lia.
From S2P Require Import Prelude OrdMap Text Errors Json Presentation.
Local Open Scope Z_scope.

Inductive VertexGenerationFailureDisposition :=
| RetryableBeforeEgress
| RetryableNotBilled
| AmbiguousTerminal
| ConfirmedInvalid
| AttemptIdentityReused.

#[export] Instance VertexGenerationFailureDisposition_eq_dec :
  EqDecision VertexGenerationFailureDisposition.
Proof. solve_decision. Defined.

Record VertexGenerationFailure := {
  disposition : VertexGenerationFailureDisposition;
  failure_event_id : option str;
  failure_error : EnclaveError
}.

Definition before_egress (error : EnclaveError) : VertexGenerationFailure :=
  {| disposition := RetryableBeforeEgress; failure_event_id := None; failure_error := error |}.

Definition durable_admission_refused (error : EnclaveError) : VertexGenerationFailure :=
  match error with
  | Conflict _ =>
    {| disposition := AttemptIdentityReused; failure_event_id := None; failure_error := error |}
  | error => before_egress error
  end.

Definition after_egress (d : VertexGenerationFailureDisposition) (event_id : str) (error : EnclaveError) :
  VertexGenerationFailure :=
  {| disposition := d; failure_event_id := Some event_id; failure_error := error |}.

Definition durable_http_failure_disposition (status : Z) : VertexGenerationFailureDisposition :=
  if existsb (Z.eqb status) [400; 401; 403; 404; 413; 422; 429] then RetryableNotBilled
  else AmbiguousTerminal.

Record TextGeneration := { generated_text : str; generation_event_id : str }.

(** ** The formation request contract *)

Definition CAPTURE_FORMATION_PROVIDER_REQUEST_MAX_BYTES : Z := 16 * 1024 * 1024.
Definition CAPTURE_FORMATION_PROVIDER_MAX_OUTPUT_TOKENS : Z := 8192.
Definition MAX_TEXT_OUTPUT_TOKENS : Z := CAPTURE_FORMATION_PROVIDER_MAX_OUTPUT_TOKENS.
Definition MAX_MEDIA_OUTPUT_TOKENS : Z := 4096.
Definition GENERATE_CONTENT_API_VERSION : str := lit "v1".
Definition GENERATE_CONTENT_PUBLISHER : str := lit "google".
Definition GENERATE_CONTENT_METHOD : str := lit "generateContent".
Definition JSON_RESPONSE_MIME_TYPE : str := lit "application/json".
Definition THINKING_BUDGET : Z := 0.

(** [u32::clamp] *)
Definition bounded_output_tokens (requested : Z) : Z := Z.max 1 (Z.min MAX_TEXT_OUTPUT_TOKENS requested).
Definition bounded_media_output_tokens (requested : Z) : Z :=
  Z.max 1 (Z.min MAX_MEDIA_OUTPUT_TOKENS requested).

Definition string_type : Value := object [("type", VString (lit "STRING"))]%string.
Definition enum_type (values : list string) : Value :=
  object [("type", VString (lit "STRING")); ("enum", of_strs (lit <$> values))]%string.
Definition array_type (items : Value) : Value :=
  object [("type", VString (lit "ARRAY")); ("items", items)]%string.

(** The fields of one episode in the constrained-decoding schema. *)
Definition episode_properties : Value :=
  object [("episode_ref", string_type); ("started_at", string_type); ("ended_at", string_type);
          ("type", enum_type ["meeting"; "lesson"; "call"; "coding"; "browsing"; "break"; "other"]);
          ("title", string_type); ("summary", string_type);
          ("participants", array_type string_type); ("languages", array_type string_type);
          ("action_items", array_type string_type);
          ("substance", enum_type ["none"; "low"; "normal"]);
          ("visual_evidence", enum_type ["none"; "useful"]);
          ("minutes", array_type (object
             [("type", VString (lit "OBJECT"));
              ("properties", object [("start", string_type); ("gist", string_type)]);
              ("required", of_strs (lit <$> ["start"; "gist"]))]))]%string.

Definition formation_schema (properties : Value) : Value :=
  object [("type", VString (lit "OBJECT"));
          ("properties", object [("episodes", array_type (object
             [("type", VString (lit "OBJECT")); ("properties", properties);
              ("required", of_strs (lit <$> ["started_at"; "ended_at"; "title"; "summary";
                                             "action_items"; "substance"; "visual_evidence"; "minutes"]))]))]);
          ("required", of_strs (lit <$> ["episodes"]))]%string.

Definition capture_formation_response_schema_v1 : Value := formation_schema episode_properties.

(** [Map::remove] *)
Definition remove_field (key : str) (v : Value) : Value :=
  match v with
  | VObject fields => VObject (List.filter (fun kv => negb (str_eqb kv.1 key)) fields)
  | _ => v
  end.

(** The map of one field of an object, in place. *)
Definition update_field (key : str) (f : Value -> Value) (v : Value) : Value :=
  match get key v with Some x => set_field key (f x) v | None => v end.

Definition capture_formation_response_schema_v2 : Value :=
  update_field (lit "properties")
    (update_field (lit "episodes")
      (update_field (lit "items")
        (update_field (lit "properties") (remove_field (lit "participants")))))
    capture_formation_response_schema_v1.

Definition capture_formation_response_schema (version : Z) : option Value :=
  if version =? 1 then Some capture_formation_response_schema_v1
  else if version =? 2 then Some capture_formation_response_schema_v2
  else None.

Definition response_schema : Value := capture_formation_response_schema_v2.

Record CaptureFormationProviderRequest := {
  contract_version : Z;
  rq_authored_labels : AuthoredLabelMap;
  vertex_project : str;
  vertex_location : str;
  api_version : str;
  publisher : str;
  rq_model : str;
  method : str;
  rq_system_prompt : str;
  rq_user_message : str;
  rq_response_schema : Value;
  max_output_tokens : Z;
  response_mime_type : str;
  thinking_budget : Z
}.

(** The deployment's settings the requests name. *)
Record VertexConfig := { cfg_project : str; cfg_location : str; cfg_model : str }.

Definition capture_formation_provider_request (config : VertexConfig) (system user_message : str) :
  CaptureFormationProviderRequest :=
  {| contract_version := 2;
     rq_authored_labels := {| labels := [] |};
     vertex_project := cfg_project config;
     vertex_location := cfg_location config;
     api_version := GENERATE_CONTENT_API_VERSION;
     publisher := GENERATE_CONTENT_PUBLISHER;
     rq_model := cfg_model config;
     method := GENERATE_CONTENT_METHOD;
     rq_system_prompt := system;
     rq_user_message := user_message;
     rq_response_schema := response_schema;
     max_output_tokens := MAX_TEXT_OUTPUT_TOKENS;
     response_mime_type := JSON_RESPONSE_MIME_TYPE;
     thinking_budget := THINKING_BUDGET |}.

(** The guard of [generate_with_persisted_attempt]. *)
Definition persisted_contract_supported (request : CaptureFormationProviderRequest) : bool :=
  match capture_formation_response_schema (contract_version request) with
  | Some schema => value_eqb schema (rq_response_schema request)
  | None => false
  end
  && str_eqb (api_version request) GENERATE_CONTENT_API_VERSION
  && str_eqb (publisher request) GENERATE_CONTENT_PUBLISHER
  && str_eqb (method request) GENERATE_CONTENT_METHOD
  && (max_output_tokens request =? CAPTURE_FORMATION_PROVIDER_MAX_OUTPUT_TOKENS)
  && str_eqb (response_mime_type request) JSON_RESPONSE_MIME_TYPE
  && (thinking_budget request =? THINKING_BUDGET).

(** The request a page builds today is one a replay accepts. *)
Lemma current_request_supported config system user_message :
  persisted_contract_supported (capture_formation_provider_request config system user_message) = true.
Proof. vm_compute; reflexivity. Qed.

(** The body of a text generation. *)
Definition text_request_body (system user_message : str) (schema : Value) (max_output_tokens : Z)
    (response_mime_type : str) (thinking_budget : Z) : Value :=
  object
    [("contents", VArray [object [("role", VString (lit "user"));
                                  ("parts", VArray [object [("text", VString user_message)]])]]);
     ("systemInstruction", object [("parts", VArray [object [("text", VString system)]])]);
     ("generationConfig", object
        [("maxOutputTokens", of_Z max_output_tokens);
         ("responseMimeType", VString response_mime_type);
         ("responseSchema", schema);
         ("thinkingConfig", object [("thinkingBudget", of_Z thinking_budget)])])]%string.
