(* ===== verification/Reconciler.v ===== *)
(** * The memory reconciler

    [cp/reconciler.rs]: the pure policy around PostgreSQL's authority.  It
    renders bounded evidence for the model, validates that the model's answer
    is an exhaustive partition of the evidence, keeps an episode's identity
    only for exactly unchanged membership, falls back to a conservative
    partition, and checks a staged result before publication.  SHA-256 and
    the JSON printer are parameters; [HashMap]s that are only looked up are
    ordered maps. *)
From Stdlib Require Import ZArith Lia.
From S2P Require Import Prelude OrdMap Text F64 Errors Bytes Json IsoTime Presentation Reconciliation Vertex.
Local Open Scope Z_scope.
Local Open Scope kioku_scope.

Definition RECONCILIATION_VERSION : Z := 3.
Definition PROMPT_VERSION : Z := 4.
Definition PARTITION_SCHEMA_VERSION : Z := 2.
Definition VALIDATOR_VERSION : Z := 2.
Definition QUIET_HORIZON_SECONDS : Z := 4 * 60 * 60.
Definition MAX_COHORT_DRAFTS : Z := 32.
Definition MAX_COHORT_ATOMS : Z := 4000.
Definition MAX_OUTPUTS : Z := MAX_COHORT_DRAFTS.
Definition MAX_TITLE_CHARS : nat := 180.
Definition MAX_SUMMARY_CHARS : nat := 4000.
Definition MAX_GIST_CHARS : nat := 800.
Definition MAX_CONTEXT_CHARS : nat := 1200.
Definition MAX_CONTEXT_TOTAL_CHARS : nat := N.to_nat (256 * 1024).
Definition MAX_MODEL_INPUT_BYTES : Z := 1024 * 1024.
Definition RECONCILIATION_OUTPUT_TOKENS : Z := 8192.
Definition CLAIM_LEASE_SECONDS : Z := 5 * 60.
Definition MODEL_ATTEMPTS_BEFORE_CONSERVATIVE_KEEP : Z := 3.
Definition CONSERVATIVE_MODEL : str := lit "conservative-v1".
Definition CONSERVATIVE_AMBIGUITY_MODEL : str := lit "conservative-ambiguity-v1".

Record ModelTimelineItem := { t_source_ids : list str; t_gist : str }.

Record ModelMemory := {
  m_source_ids : list str;
  m_episode_type : str;
  m_title : str;
  m_summary : str;
  m_languages : list str;
  m_action_items : list str;
  m_timeline : list ModelTimelineItem
}.

Record ModelPartition := { memories : list ModelMemory }.

Record PlannedMemory := {
  p_retained_episode_id : option Z;
  p_predecessor_episode_ids : list Z;
  p_started_at : str;
  p_ended_at : str;
  p_episode_type : str;
  p_title : str;
  p_summary : str;
  p_participants : list str;
  p_languages : list str;
  p_action_items : list str;
  p_minute_summaries : Value;
  p_minutes_text : str;
  p_substance : str;
  p_visual_evidence : str;
  p_member_source_ids : list str
}.

Record ValidatedPartition := {
  v_model : ModelPartition;
  v_outputs : list PlannedMemory;
  v_result_commitment : bytes
}.

(** ** Text bounds *)

Definition bounded (value : str) (cap : nat) : str :=
  let chars := trim value in
  let output := take cap chars in
  if is_empty (drop cap chars) then output else output ++ [ellipsis].

(** Keep the first occurrence of each value: [seen.insert] in a filter. *)
Fixpoint first_occurrences (seen : bset str) (values : list str) : list str :=
  match values with
  | [] => []
  | value :: values' =>
    if is_empty value || bset_mem value seen then first_occurrences seen values'
    else value :: first_occurrences (bset_add value seen) values'
  end.

Definition canonical_strings (values : list str) (item_cap count_cap : nat) : list str :=
  take count_cap (first_occurrences [] ((fun value => bounded value item_cap) <$> values)).

Definition valid_episode_type (value : str) : bool :=
  one_of value ["meeting"; "lesson"; "call"; "coding"; "browsing"; "break"; "other"]%string.

Definition reconciled_substance (predecessors : list ReconciliationDraft) : str :=
  if existsb (fun d => str_eqb (d_substance d) (lit "normal")) predecessors then lit "normal"
  else if existsb (fun d => str_eqb (d_substance d) (lit "low")) predecessors then lit "low"
  else lit "none".

(** ** Model input *)

Definition prompt_draft (d : ReconciliationDraft) : Value :=
  object [("id"%string, of_Z (d_id d));
          ("started_at"%string, VString (d_started_at d));
          ("ended_at"%string, VString (d_ended_at d));
          ("title"%string, VString (bounded (d_title d) MAX_TITLE_CHARS));
          ("summary"%string, VString (bounded (default [] (d_summary d)) MAX_SUMMARY_CHARS));
          ("participants"%string, of_strs (canonical_strings (d_participants d) 120 64));
          ("action_items"%string, of_strs (canonical_strings (d_action_items d) 500 64));
          ("source_ids"%string, of_strs (d_member_source_ids d))].

(** The context of each atom, from the budget that is left. *)
Fixpoint atom_contexts (context_budget : nat) (atoms : list ReconciliationEvidenceAtom) : list str :=
  match atoms with
  | [] => []
  | atom :: atoms' =>
    let cap := Nat.min MAX_CONTEXT_CHARS context_budget in
    let context := if Nat.eqb cap 0 then [] else bounded (a_context atom) cap in
    context :: atom_contexts (context_budget - length context) atoms'
  end.

Definition prompt_atom (atom : ReconciliationEvidenceAtom) (context : str) : Value :=
  object [("source_id"%string, VString (a_source_id atom));
          ("started_at"%string, VString (a_started_at atom));
          ("ended_at"%string, VString (a_ended_at atom));
          ("context"%string, VString context)].

Definition model_input (snapshot : ReconciliationSnapshot) : Value :=
  object [("memory_language"%string, VString (s_memory_language snapshot));
          ("provisional_drafts"%string, VArray (prompt_draft <$> s_drafts snapshot));
          ("evidence_atoms"%string,
            VArray (zip_with prompt_atom (s_atoms snapshot)
                      (atom_contexts MAX_CONTEXT_TOTAL_CHARS (s_atoms snapshot))))].

Section RenderInput.
(** [serde_json::to_string] *)
Context (to_string : Value -> option str).

Definition render_model_input (snapshot : ReconciliationSnapshot) : res str :=
  let? encoded := ok_or (to_string (model_input snapshot)) Json in
  if MAX_MODEL_INPUT_BYTES <? byte_len encoded
  then Err (Config (lit "memory reconciliation model input bound exceeded"))
  else Ok encoded.
End RenderInput.

(** ** Validation of the model's partition *)

Definition atom_map (snapshot : ReconciliationSnapshot) : bmap str ReconciliationEvidenceAtom :=
  bfrom_list ((fun atom => (a_source_id atom, atom)) <$> s_atoms snapshot).

Definition source_map (snapshot : ReconciliationSnapshot) : bmap Z (bset str) :=
  bfrom_list ((fun draft => (d_id draft, bset_of_list (d_member_source_ids draft))) <$> s_drafts snapshot).

Definition expected_sources (snapshot : ReconciliationSnapshot) : bset str :=
  bset_of_list (a_source_id <$> s_atoms snapshot).

(** Every owned source is expected and owned once. *)
Fixpoint admit_owned (expected owned : bset str) (source_ids : list str) : option (bset str) :=
  match source_ids with
  | [] => Some owned
  | source_id :: rest =>
    if negb (bset_mem source_id expected) || bset_mem source_id owned then None
    else admit_owned expected (bset_add source_id owned) rest
  end.

Definition minute_row (entry : str * str) : Value :=
  object [("start"%string, VString entry.1); ("gist"%string, VString entry.2)].

(** Where one timeline item starts: the least start of its assigned atoms. *)
Definition item_start (assigned : bset str) (atom_by_id : bmap str ReconciliationEvidenceAtom)
  (item : ModelTimelineItem) : option str :=
  min_by ord_leb (a_started_at <$>
    omap (fun source_id => bget source_id atom_by_id)
      (List.filter (fun source_id => bset_mem source_id assigned) (t_source_ids item))).

Definition add_item (assigned : bset str) (atom_by_id : bmap str ReconciliationEvidenceAtom)
  (by_start : bmap str str) (item : ModelTimelineItem) : bmap str str :=
  match item_start assigned atom_by_id item with
  | Some start =>
    let gist := bounded (t_gist item) MAX_GIST_CHARS in
    if is_empty gist then by_start else bentry_or_insert start gist by_start
  | None => by_start
  end.

Definition timeline_rows (memory : ModelMemory) (assigned : bset str)
  (atom_by_id : bmap str ReconciliationEvidenceAtom) (fallback_start : str) : bmap str str :=
  let by_start := fold_left (add_item assigned atom_by_id) (m_timeline memory) [] in
  if is_empty by_start
  then binsert fallback_start (bounded (m_summary memory) MAX_GIST_CHARS) by_start
  else by_start.

Definition timeline_product (memory : ModelMemory) (assigned : bset str)
  (atom_by_id : bmap str ReconciliationEvidenceAtom) (fallback_start : str) : Value * str :=
  let by_start := timeline_rows memory assigned atom_by_id fallback_start in
  (VArray (minute_row <$> by_start), join [newline] (bvalues by_start)).

(** The loop over one output's sources: known, and not assigned before. *)
Fixpoint admit_sources (expected output seen : bset str) (source_ids : list str) :
  option (bset str * bset str) :=
  match source_ids with
  | [] => Some (output, seen)
  | source_id :: rest =>
    if negb (bset_mem source_id expected) || bset_mem source_id output || bset_mem source_id seen
    then None
    else admit_sources expected (bset_add source_id output) (bset_add source_id seen) rest
  end.

Definition grounded_item (output : bset str) (item : ModelTimelineItem) : bool :=
  negb (is_empty (t_source_ids item)
        || is_blank (t_gist item)
        || existsb (fun id => negb (bset_mem id output)) (t_source_ids item)).

Definition well_formed_memory (memory : ModelMemory) : bool :=
  negb (is_empty (m_source_ids memory)
        || negb (valid_episode_type (m_episode_type memory))
        || is_blank (m_title memory)
        || is_blank (m_summary memory)).

(** The loop over the model's memories. *)
Fixpoint output_sets (expected seen : bset str) (ms : list ModelMemory) : res (list (bset str) * bset str) :=
  match ms with
  | [] => Ok ([], seen)
  | memory :: rest =>
    if negb (well_formed_memory memory)
    then Err (Config (lit "memory reconciliation output is invalid"))
    else match admit_sources expected [] seen (m_source_ids memory) with
    | None => Err (Config (lit "memory reconciliation source is unknown or duplicated"))
    | Some (output, seen') =>
      if negb (forallb (grounded_item output) (m_timeline memory))
      then Err (Config (lit "memory reconciliation timeline is not grounded in its memory"))
      else
        let? (outputs, seen'') := output_sets expected seen' rest in
        Ok (output :: outputs, seen'')
    end
  end.

(** How far a time lies outside a draft's span. *)
Definition draft_distance (at_ms : Z) (draft : ReconciliationDraft) : Z :=
  let start := default 0 (parse_epoch_millis (d_started_at draft)) in
  let end_ := default start (parse_epoch_millis (d_ended_at draft)) in
  if at_ms <? start then I64.saturating_sub start at_ms
  else if at_ms >? end_ then I64.saturating_sub at_ms end_
  else 0.

Definition nearest_draft (at_ms : Z) (drafts : list ReconciliationDraft) : option ReconciliationDraft :=
  min_by (on_key (fun draft => (draft_distance at_ms draft, d_id draft))) drafts.

Definition is_disjoint (a b : bset str) : bool := negb (existsb (fun x => bset_mem x b) a).

(** The predecessors of one output: the drafts it shares evidence with, or
    the nearest draft in time. *)
Definition contributing (snapshot : ReconciliationSnapshot) (output : bset str) : res (list Z) :=
  let predecessor_ids := d_id <$> List.filter
    (fun draft => negb (is_disjoint (default [] (bget (d_id draft) (source_map snapshot))) output))
    (s_drafts snapshot) in
  if negb (is_empty predecessor_ids) then Ok predecessor_ids
  else
    let? output_start := ok_or (min_Z (omap (fun atom => parse_epoch_millis (a_started_at atom))
                                  (omap (fun id => bget id (atom_map snapshot)) output)))
                               (Config (lit "memory output has no timestamp")) in
    let? nearest := ok_or (nearest_draft output_start (s_drafts snapshot))
                          (Config (lit "memory cohort has no draft")) in
    Ok [d_id nearest].

Fixpoint map_res {A B} (f : A -> res B) (l : list A) : res (list B) :=
  match l with
  | [] => Ok []
  | x :: l' => let? y := f x in let? r := map_res f l' in Ok (y :: r)
  end.

(** The outputs (by position) each predecessor contributes to. *)
Definition note_output (m : bmap Z (list nat)) (entry : nat * list Z) : bmap Z (list nat) :=
  fold_left (fun m predecessor_id =>
    bmodify_or_insert predecessor_id (fun ordinals => ordinals ++ [entry.1]) [entry.1] m) entry.2 m.

Definition predecessor_outputs (contributing : list (list Z)) : bmap Z (list nat) :=
  fold_left note_output (zip (seq 0 (length contributing)) contributing) [].

Definition retained_id (snapshot : ReconciliationSnapshot) (outputs_of : bmap Z (list nat))
  (ordinal : nat) (sources : bset str) (predecessor_ids : list Z) : option Z :=
  match predecessor_ids with
  | [p] =>
    if bool_decide (bget p outputs_of = Some [ordinal])
       && bool_decide (bget p (source_map snapshot) = Some sources)
    then Some p else None
  | _ => None
  end.

Definition plan_output (snapshot : ReconciliationSnapshot) (outputs_of : bmap Z (list nat))
  (ordinal : nat) (memory : ModelMemory) (sources : bset str) (predecessor_ids : list Z) : res PlannedMemory :=
  let assigned_atoms := omap (fun id => bget id (atom_map snapshot)) sources in
  let? started_ms := ok_or (min_Z (omap (fun atom => parse_epoch_millis (a_started_at atom)) assigned_atoms))
                           (Config (lit "memory output has no start")) in
  let? last_ms := ok_or (max_Z (omap (fun atom => parse_epoch_millis (a_ended_at atom)) assigned_atoms))
                        (Config (lit "memory output has no end")) in
  let ended_ms := Z.max last_ms (I64.saturating_add started_ms 1) in
  let started_at := format_epoch_millis started_ms in
  let product := timeline_product memory sources (atom_map snapshot) started_at in
  let predecessor_rows := omap (fun id => List.find (fun draft => d_id draft =? id) (s_drafts snapshot))
                            predecessor_ids in
  Ok {| p_retained_episode_id := retained_id snapshot outputs_of ordinal sources predecessor_ids;
        p_predecessor_episode_ids := predecessor_ids;
        p_started_at := started_at;
        p_ended_at := format_epoch_millis ended_ms;
        p_episode_type := m_episode_type memory;
        p_title := bounded (m_title memory) MAX_TITLE_CHARS;
        p_summary := bounded (m_summary memory) MAX_SUMMARY_CHARS;
        p_participants := [];
        p_languages := canonical_strings (m_languages memory) 32 16;
        p_action_items := canonical_strings (m_action_items memory) 500 64;
        p_minute_summaries := product.1;
        p_minutes_text := product.2;
        p_substance := reconciled_substance predecessor_rows;
        p_visual_evidence :=
          if existsb (fun atom => str_eqb (a_record_type atom) (lit "screenshot")) assigned_atoms
          then lit "useful" else lit "none";
        p_member_source_ids := sources |}.

Fixpoint plan_outputs (snapshot : ReconciliationSnapshot) (outputs_of : bmap Z (list nat))
  (ordinal : nat) (ms : list ModelMemory) (sets : list (bset str)) (preds : list (list Z)) :
  res (list PlannedMemory) :=
  match ms, sets, preds with
  | memory :: ms', sources :: sets', predecessor_ids :: preds' =>
    let? planned := plan_output snapshot outputs_of ordinal memory sources predecessor_ids in
    let? rest := plan_outputs snapshot outputs_of (S ordinal) ms' sets' preds' in
    Ok (planned :: rest)
  | _, _, _ => Ok []
  end.

(** Serialisation of a model partition. *)
Definition item_to_value (item : ModelTimelineItem) : Value :=
  object [("source_ids"%string, of_strs (t_source_ids item)); ("gist"%string, VString (t_gist item))].

Definition memory_to_value (m : ModelMemory) : Value :=
  object [("source_ids"%string, of_strs (m_source_ids m));
          ("type"%string, VString (m_episode_type m));
          ("title"%string, VString (m_title m));
          ("summary"%string, VString (m_summary m));
          ("languages"%string, of_strs (m_languages m));
          ("action_items"%string, of_strs (m_action_items m));
          ("timeline"%string, VArray (item_to_value <$> m_timeline m))].

Definition partition_to_value (p : ModelPartition) : Value :=
  object [("memories"%string, VArray (memory_to_value <$> memories p))].

(** The checks of the snapshot, before the model's answer is looked at. *)
Definition check_snapshot (snapshot : ReconciliationSnapshot) : res unit :=
  let expected := expected_sources snapshot in
  if negb (length expected =? length (s_atoms snapshot))%nat
  then Err (Config (lit "memory reconciliation snapshot contains duplicate evidence"))
  else
    let draft_ids := bset_of_list (d_id <$> s_drafts snapshot) in
    let predecessor_ids := bset_of_list (s_predecessor_episode_ids snapshot) in
    if negb (length draft_ids =? length (s_drafts snapshot))%nat
       || negb (length predecessor_ids =? length (s_predecessor_episode_ids snapshot))%nat
       || negb (bool_decide (draft_ids = predecessor_ids))
       || existsb (fun draft => is_empty (d_member_source_ids draft)) (s_drafts snapshot)
    then Err (Store (lit "memory reconciliation snapshot has invalid predecessors"))
    else match admit_owned expected [] (s_drafts snapshot ≫= d_member_source_ids) with
    | None => Err (Store (lit "memory reconciliation snapshot has invalid active ownership"))
    | Some _ => Ok tt
    end.

(** ** Provider failure policy *)

Inductive ProviderFailureAction :=
| RetrySameAttempt
| RetryWithNewAttempt
| ConservativeKeep
| SettleReusedIdentity.

Definition provider_failure_action (d : VertexGenerationFailureDisposition) : ProviderFailureAction :=
  match d with
  | RetryableBeforeEgress => RetrySameAttempt
  | RetryableNotBilled | ConfirmedInvalid => RetryWithNewAttempt
  | AmbiguousTerminal => ConservativeKeep
  | AttemptIdentityReused => SettleReusedIdentity
  end.

Definition is_some {A} (o : option A) : bool := match o with Some _ => true | None => false end.

Definition stage_model_provenance_is_valid (model : str) (vertex_event_id : option str) : bool :=
  if str_eqb model CONSERVATIVE_MODEL then negb (is_some vertex_event_id)
  else if str_eqb model CONSERVATIVE_AMBIGUITY_MODEL then is_some vertex_event_id
  else is_some vertex_event_id.

Definition retry_delay_seconds (claim_attempt_count : Z) : Z :=
  if claim_attempt_count <=? 1 then 10 * 60 else 60 * 60.

(** [MemoryReconciliationActivationPhase] of the persistence layer. *)
Inductive MemoryReconciliationActivationPhase := Preactive | Installed | Draining | Active | Paused.

Definition inactive_phase_allows_legacy_finalization (phase : MemoryReconciliationActivationPhase) : option bool :=
  match phase with
  | Preactive | Installed => Some true
  | Draining | Paused => Some false
  | Active => None
  end.

Definition producer_contract_is_current
  (reconciliation_version prompt_version partition_schema_version validator_version : Z) : bool :=
  (reconciliation_version =? RECONCILIATION_VERSION) && (prompt_version =? PROMPT_VERSION)
  && (partition_schema_version =? PARTITION_SCHEMA_VERSION) && (validator_version =? VALIDATOR_VERSION).

Definition stage_contract_is_current (staged : StagedReconciliation) : bool :=
  producer_contract_is_current (st_reconciliation_version staged) (st_prompt_version staged)
    (st_partition_schema_version staged) (st_validator_version staged).

Definition stage_model_is_current (staged_model configured_model : str) (model_attempts : Z) : bool :=
  str_eqb staged_model configured_model
  || str_eqb staged_model CONSERVATIVE_AMBIGUITY_MODEL
  || (str_eqb staged_model CONSERVATIVE_MODEL
      && (MODEL_ATTEMPTS_BEFORE_CONSERVATIVE_KEEP <=? model_attempts)).

(** ** The conservative partition: every memory as it is *)

Definition draft_memory (draft : ReconciliationDraft) : ModelMemory :=
  {| m_source_ids := d_member_source_ids draft;
     m_episode_type := default (lit "other") (d_episode_type draft);
     m_title := d_title draft;
     m_summary := default [] (d_summary draft);
     m_languages := d_languages draft;
     m_action_items := d_action_items draft;
     m_timeline := [] |}.

Definition push_source (memory : ModelMemory) (source_id : str) : ModelMemory :=
  {| m_source_ids := m_source_ids memory ++ [source_id];
     m_episode_type := m_episode_type memory; m_title := m_title memory;
     m_summary := m_summary memory; m_languages := m_languages memory;
     m_action_items := m_action_items memory; m_timeline := m_timeline memory |}.

(** The position of the draft an orphan atom goes to. *)
Definition nearest_index (at_ms : Z) (drafts : list ReconciliationDraft) : option nat :=
  fst <$> min_by (on_key (fun e : nat * ReconciliationDraft => (draft_distance at_ms e.2, d_id e.2)))
            (zip (seq 0 (length drafts)) drafts).

Definition place_orphan (drafts : list ReconciliationDraft) (ms : res (list ModelMemory))
  (atom : ReconciliationEvidenceAtom) : res (list ModelMemory) :=
  let? ms := ms in
  let atom_start := default 0 (parse_epoch_millis (a_started_at atom)) in
  let? nearest := ok_or (nearest_index atom_start drafts) (Config (lit "memory cohort has no draft")) in
  Ok (alter (fun memory => push_source memory (a_source_id atom)) nearest ms).

(** [sort] then [dedup] of strings is the sorted set. *)
Definition settle_memory (memory : ModelMemory) : ModelMemory :=
  {| m_source_ids := bset_of_list (m_source_ids memory);
     m_episode_type := if valid_episode_type (m_episode_type memory)
                       then m_episode_type memory else lit "other";
     m_title := if is_blank (m_title memory) then lit "Memory" else m_title memory;
     m_summary := if is_blank (m_summary memory) then lit "Memory draft" else m_summary memory;
     m_languages := m_languages memory;
     m_action_items := m_action_items memory;
     m_timeline := m_timeline memory |}.

Definition orphans (snapshot : ReconciliationSnapshot) : list ReconciliationEvidenceAtom :=
  let owned := bset_of_list (s_drafts snapshot ≫= d_member_source_ids) in
  List.filter (fun atom => negb (bset_mem (a_source_id atom) owned)) (s_atoms snapshot).

Definition conservative_partition (snapshot : ReconciliationSnapshot) : res ModelPartition :=
  let? ms := fold_left (place_orphan (s_drafts snapshot)) (orphans snapshot)
               (Ok (draft_memory <$> s_drafts snapshot)) in
  Ok {| memories := settle_memory <$> ms |}.

(** ** Publication *)

Definition utterance_source (id : Z) : str := lit "utterance:" ++ dec id.

Definition retain_label (members : list str) (l : AuthoredLabel) : AuthoredLabel :=
  {| label := label l; target := target l; fallback_label := fallback_label l;
     utterance_ids := List.filter (fun id => bool_decide (utterance_source id ∈ members)) (utterance_ids l) |}.

Definition retain_labels (authored : AuthoredLabelMap) (members : list str) : AuthoredLabelMap :=
  {| labels := List.filter (fun l => negb (is_empty (utterance_ids l)))
                 (retain_label members <$> labels authored) |}.

Definition publication_output (model : str) (authored_labels : AuthoredLabelMap)
  (ordinal : nat) (output : PlannedMemory) : res ReconciledMemoryWrite :=
  let? w_ordinal := ok_or (in_i64 (Z.of_nat ordinal))
                      (Config (lit "memory reconciliation output ordinal overflow")) in
  Ok {| w_authored_labels := retain_labels authored_labels (p_member_source_ids output);
        w_output_ordinal := w_ordinal;
        w_retained_episode_id := p_retained_episode_id output;
        w_predecessor_episode_ids := p_predecessor_episode_ids output;
        w_started_at := p_started_at output;
        w_ended_at := p_ended_at output;
        w_episode_type := Some (p_episode_type output);
        w_title := p_title output;
        w_summary := Some (p_summary output);
        w_participants := p_participants output;
        w_languages := p_languages output;
        w_action_items := p_action_items output;
        w_model := Some model;
        w_minute_summaries := p_minute_summaries output;
        w_minutes_text := Some (p_minutes_text output);
        w_substance := p_substance output;
        w_visual_evidence := p_visual_evidence output;
        w_member_source_ids := p_member_source_ids output |}.

Fixpoint publication_outputs_from (ordinal : nat) (outputs : list PlannedMemory) (model : str)
  (authored_labels : AuthoredLabelMap) : res (list ReconciledMemoryWrite) :=
  match outputs with
  | [] => Ok []
  | output :: rest =>
    let? w := publication_output model authored_labels ordinal output in
    let? ws := publication_outputs_from (S ordinal) rest model authored_labels in
    Ok (w :: ws)
  end.

Definition publication_outputs (partition : ValidatedPartition) (model : str)
  (authored_labels : AuthoredLabelMap) : res (list ReconciledMemoryWrite) :=
  publication_outputs_from 0 (v_outputs partition) model authored_labels.

Definition default_labels : AuthoredLabelMap := {| labels := [] |}.

(** A frozen label map that names an utterance outside its output. *)
Definition labels_escape (members : list str) (frozen : AuthoredLabelMap) : bool :=
  existsb (fun l => existsb (fun id => negb (bool_decide (utterance_source id ∈ members))) (utterance_ids l))
    (labels frozen).

Definition with_labels (w : ReconciledMemoryWrite) (l : AuthoredLabelMap) : ReconciledMemoryWrite :=
  {| w_authored_labels := l; w_output_ordinal := w_output_ordinal w;
     w_retained_episode_id := w_retained_episode_id w;
     w_predecessor_episode_ids := w_predecessor_episode_ids w; w_started_at := w_started_at w;
     w_ended_at := w_ended_at w; w_episode_type := w_episode_type w; w_title := w_title w;
     w_summary := w_summary w; w_participants := w_participants w; w_languages := w_languages w;
     w_action_items := w_action_items w; w_model := w_model w;
     w_minute_summaries := w_minute_summaries w; w_minutes_text := w_minutes_text w;
     w_substance := w_substance w; w_visual_evidence := w_visual_evidence w;
     w_member_source_ids := w_member_source_ids w |}.

(** [zip] of the expected outputs with the frozen ones: the label map of each
    frozen output is taken over after the escape check. *)
Fixpoint adopt_labels (expected frozen : list ReconciledMemoryWrite) : res (list ReconciledMemoryWrite) :=
  match expected, frozen with
  | e :: es, f :: fs =>
    if labels_escape (w_member_source_ids e) (w_authored_labels f)
    then Err (Store (lit "staged authoring map escapes its output sources"))
    else let? rest := adopt_labels es fs in Ok (with_labels e (w_authored_labels f) :: rest)
  | _, _ => Ok expected
  end.

(** ** Reading a staged partition back *)

Definition decode_item (v : Value) : option ModelTimelineItem :=
  match struct_fields ["source_ids"; "gist"]%string v with
  | Some [ids; gist] =>
    match decode_strs ids, as_str gist with
    | Some ids, Some gist => Some {| t_source_ids := ids; t_gist := gist |}
    | _, _ => None
    end
  | _ => None
  end.

Definition decode_memory (v : Value) : option ModelMemory :=
  match struct_fields ["source_ids"; "type"; "title"; "summary"; "languages"; "action_items"; "timeline"]%string v with
  | Some [ids; type; title; summary; languages; actions; timeline] =>
    match decode_strs ids, as_str type, as_str title, as_str summary, decode_strs languages,
          decode_strs actions, decode_list decode_item timeline with
    | Some ids, Some type, Some title, Some summary, Some languages, Some actions, Some timeline =>
      Some {| m_source_ids := ids; m_episode_type := type; m_title := title; m_summary := summary;
              m_languages := languages; m_action_items := actions; m_timeline := timeline |}
    | _, _, _, _, _, _, _ => None
    end
  | _ => None
  end.

Definition decode_partition (v : Value) : option ModelPartition :=
  match struct_fields ["memories"%string] v with
  | Some [ms] =>
    match decode_list decode_memory ms with
    | Some ms => Some {| memories := ms |}
    | None => None
    end
  | _ => None
  end.

(** [PartialEq] of [ReconciledMemoryWrite]; JSON values compare with
    serde_json's equality. *)
Definition write_key (w : ReconciledMemoryWrite) :=
  (w_authored_labels w, w_output_ordinal w, w_retained_episode_id w, w_predecessor_episode_ids w,
   (w_started_at w, w_ended_at w, w_episode_type w, w_title w, w_summary w, w_participants w),
   (w_languages w, w_action_items w, w_model w, w_minutes_text w, w_substance w, w_visual_evidence w,
    w_member_source_ids w)).

Definition write_eqb (a b : ReconciledMemoryWrite) : bool :=
  bool_decide (write_key a = write_key b)
  && value_eqb (w_minute_summaries a) (w_minute_summaries b).

Fixpoint list_eqb {A} (eqb : A -> A -> bool) (l k : list A) : bool :=
  match l, k with
  | [], [] => true
  | x :: l', y :: k' => eqb x y && list_eqb eqb l' k'
  | _, _ => false
  end.

(** The stage the reconciler writes for a validated partition. *)
Definition build_stage (partition : ValidatedPartition) (selected_model : str)
  (vertex_event_id : option str) (attempt_identity fingerprint : option bytes)
  (output_labels : AuthoredLabelMap) : res ReconciliationStageWrite :=
  let? planned_outputs := publication_outputs partition selected_model output_labels in
  Ok {| sw_normalized_partition := partition_to_value (v_model partition);
        sw_result_commitment := v_result_commitment partition;
        sw_planned_outputs := planned_outputs;
        sw_model := selected_model;
        sw_vertex_event_id := vertex_event_id;
        sw_provider_attempt_identity := attempt_identity;
        sw_provider_invocation_fingerprint := fingerprint;
        sw_reconciliation_version := RECONCILIATION_VERSION;
        sw_prompt_version := PROMPT_VERSION;
        sw_partition_schema_version := PARTITION_SCHEMA_VERSION;
        sw_validator_version := VALIDATOR_VERSION |}.

Section Validation.
(** The [sha2] digest and [serde_json::to_vec]. *)
Context (sha256 : bytes -> bytes).
Context (to_vec : Value -> option bytes).

Definition validate_partition (snapshot : ReconciliationSnapshot) (model : ModelPartition) :
  res ValidatedPartition :=
  if is_empty (s_drafts snapshot) || is_empty (s_atoms snapshot) || is_empty (memories model)
  then Err (Config (lit "memory reconciliation requires non-empty drafts, evidence, and outputs"))
  else if MAX_OUTPUTS <? Z.of_nat (length (memories model))
  then Err (Config (lit "memory reconciliation output bound exceeded"))
  else
    let? _ := check_snapshot snapshot in
    let? (sets, seen) := output_sets (expected_sources snapshot) [] (memories model) in
    if negb (bool_decide (seen = expected_sources snapshot))
    then Err (Config (lit "memory reconciliation omitted source evidence"))
    else
      let? preds := map_res (contributing snapshot) sets in
      let? outputs := plan_outputs snapshot (predecessor_outputs preds) 0 (memories model) sets preds in
      let? normalized := ok_or (to_vec (partition_to_value model)) Json in
      Ok {| v_model := model; v_outputs := outputs; v_result_commitment := sha256 normalized |}.

Definition validate_stage (snapshot : ReconciliationSnapshot) (staged : StagedReconciliation) :
  res ValidatedPartition :=
  if negb (str_eqb (st_account_id staged) (s_account_id snapshot))
     || negb (bool_decide (st_source_fingerprint staged = s_source_fingerprint snapshot))
     || negb (bool_decide (st_predecessor_episode_ids staged = s_predecessor_episode_ids snapshot))
     || negb (st_reconciliation_version staged =? RECONCILIATION_VERSION)
     || negb (st_prompt_version staged =? PROMPT_VERSION)
     || negb (st_partition_schema_version staged =? PARTITION_SCHEMA_VERSION)
     || negb (st_validator_version staged =? VALIDATOR_VERSION)
  then Err (Conflict (lit "memory reconciliation staged contract changed"))
  else if negb (stage_model_provenance_is_valid (st_model staged) (st_vertex_event_id staged))
  then Err (Store (lit "memory reconciliation staged model provenance is invalid"))
  else
    let? model := ok_or (decode_partition (st_normalized_partition staged)) Json in
    let? partition := validate_partition snapshot model in
    if negb (bool_decide (v_result_commitment partition = st_result_commitment staged))
    then Err (Store (lit "memory reconciliation staged commitment mismatch"))
    else
      let? expected := publication_outputs partition (st_model staged) default_labels in
      let? expected := adopt_labels expected (st_planned_outputs staged) in
      if negb (list_eqb write_eqb expected (st_planned_outputs staged))
      then Err (Store (lit "memory reconciliation staged mutation product mismatch"))
      else
        let? commitment := reconciliation_outputs_commitment sha256 to_vec expected in
        if negb (bool_decide (commitment = st_planned_outputs_commitment staged))
        then Err (Store (lit "memory reconciliation staged mutation product mismatch"))
        else Ok partition.
End Validation.

(** ** Text bounds hold *)

Lemma bounded_length value cap : (length (bounded value cap) <= S cap)%nat.
Proof.
  unfold bounded. destruct (is_empty _); rewrite ?length_app, length_take; simpl; unfold str, char in *; lia.
Qed.

Lemma bounded_nonempty value cap : (0 < cap)%nat -> is_blank value = false -> bounded value cap <> [].
Proof.
  unfold is_blank, bounded. intros Hc Hb. destruct (trim value) as [|c s] eqn:E; [done|].
  destruct cap as [|cap]; [lia|]. simpl. by case_match.
Qed.

Lemma first_occurrences_spec seen values :
  bset_wf seen ->
  NoDup (first_occurrences seen values)
  /\ forall v, v ∈ first_occurrences seen values <-> v ∈ values /\ v <> [] /\ v ∉ seen.
Proof.
  revert seen; induction values as [|v values IH]; intros seen Hs; cbn [first_occurrences].
  - split; [constructor|]. set_solver.
  - destruct (is_empty v || bset_mem v seen) eqn:E.
    + destruct (IH seen Hs) as [Hnd Hin]. split; [done|]. intros x. rewrite Hin. split.
      * set_solver.
      * intros ([->|Hx]%elem_of_cons & Hne & Hns); [|done]. exfalso.
        apply orb_true_iff in E as [E|E]; [by apply is_empty_true in E|].
        by apply (bset_mem_spec _ _ Hs) in E.
    + apply orb_false_iff in E as [En Em]. apply is_empty_false in En.
      assert (v ∉ seen) as Hv by (rewrite <- bset_mem_spec by done; congruence).
      destruct (IH (bset_add v seen) (bset_add_wf v seen Hs)) as [Hnd Hin]. split.
      * apply NoDup_cons. split; [|done]. rewrite Hin, elem_of_bset_add. tauto.
      * intros x. rewrite !elem_of_cons, Hin, elem_of_bset_add. split; [intros [->|?]; tauto|].
        intros ([->|Hx] & ? & ?); [by left|]. destruct (decide (x = v)) as [->|]; [by left|]. right. tauto.
Qed.

(** ** Sets of sources *)

Lemma admit_sources_spec expected output seen ids output' seen' :
  bset_wf expected -> bset_wf output -> bset_wf seen ->
  admit_sources expected output seen ids = Some (output', seen') <->
  NoDup ids /\ (forall x, x ∈ ids -> x ∈ expected /\ x ∉ output /\ x ∉ seen)
  /\ output' = fold_left (fun s k => bset_add k s) ids output
  /\ seen' = fold_left (fun s k => bset_add k s) ids seen.
Proof.
  intros He. revert output seen; induction ids as [|x ids IH]; intros output seen Ho Hs; cbn [admit_sources fold_left].
  - split; [intros [= <- <-]; repeat split; [constructor|set_solver..]|]. by intros (_ & _ & -> & ->).
  - destruct (negb (bset_mem x expected) || bset_mem x output || bset_mem x seen) eqn:E.
    + split; [done|]. intros (_ & Hx & _). specialize (Hx x ltac:(left)). exfalso.
      rewrite <- !bset_mem_spec in Hx by done.
      destruct (bset_mem x expected), (bset_mem x output), (bset_mem x seen); try done; tauto.
    + rewrite !orb_false_iff, negb_false_iff in E. destruct E as [[E1 E2] E3].
      rewrite IH by auto with kioku. rewrite NoDup_cons.
      apply bset_mem_spec in E1; [|done].
      assert (x ∉ output) by (rewrite <- bset_mem_spec by done; congruence).
      assert (x ∉ seen) by (rewrite <- bset_mem_spec by done; congruence).
      setoid_rewrite elem_of_bset_add. split.
      * intros (Hnd & Hin & -> & ->). split; [split; [|done]|].
        { intros Hx. apply Hin in Hx. tauto. }
        split; [|done]. intros y [->|Hy]%elem_of_cons; [done|]. apply Hin in Hy. tauto.
      * intros ([Hx Hnd] & Hin & -> & ->). split; [done|]. split; [|done].
        intros y Hy. assert (y <> x) by (intros ->; done). specialize (Hin y ltac:(by right)). tauto.
Qed.

Lemma fold_bset_add_elem (ids : list str) s x :
  x ∈ fold_left (fun s k => bset_add k s) ids s <-> x ∈ s \/ x ∈ ids.
Proof. revert s; induction ids as [|i ids IH]; intros s; simpl; [set_solver|]. rewrite IH, elem_of_bset_add. set_solver. Qed.

(** What the memory loop accepts, from the sources seen so far. *)
Definition memories_ok (expected seen : bset str) (ms : list ModelMemory) : Prop :=
  Forall (fun m => well_formed_memory m = true
     /\ Forall (fun i => grounded_item (bset_of_list (m_source_ids m)) i = true) (m_timeline m)) ms
  /\ NoDup (ms ≫= m_source_ids)
  /\ forall x, x ∈ ms ≫= m_source_ids -> x ∈ expected /\ x ∉ seen.

Lemma output_sets_spec expected seen ms sets seen' :
  bset_wf expected -> bset_wf seen ->
  output_sets expected seen ms = Ok (sets, seen') <->
  memories_ok expected seen ms
  /\ sets = (fun m => bset_of_list (m_source_ids m)) <$> ms
  /\ seen' = fold_left (fun s k => bset_add k s) (ms ≫= m_source_ids) seen.
Proof.
  intros He. unfold memories_ok. revert seen sets seen'; induction ms as [|m ms IH]; intros seen sets seen' Hs.
  - cbn. split; [intros [= <- <-]; repeat split; try constructor; set_solver|]. by intros (_ & -> & ->).
  - cbn [output_sets]. rewrite Forall_cons, bind_cons, fmap_cons, NoDup_app, fold_left_app.
    destruct (well_formed_memory m) eqn:Ew; cbn [negb]; [|split; [done|]; by intros (([[? _] _] & _) & _)].
    destruct (admit_sources expected [] seen (m_source_ids m)) as [[output seen1]|] eqn:Ea.
    + apply admit_sources_spec in Ea as (Hnd & Hin & -> & ->); [|done|constructor|done].
      fold (bset_of_list (m_source_ids m)).
      destruct (forallb (grounded_item (bset_of_list (m_source_ids m))) (m_timeline m)) eqn:Eg; cbn [negb].
      * apply forallb_Forall in Eg. rewrite result_bind_Ok. split.
        { intros ([outs s2] & Hok & [= <- <-]).
          apply IH in Hok as ((Hf & Hnd' & Hin') & -> & ->); [|by apply fold_bset_add_wf].
          split; [split; [done|]|done]. setoid_rewrite fold_bset_add_elem in Hin'. split.
          - split; [done|]. split; [|done]. intros x Hx Hx'. apply Hin' in Hx'. tauto.
          - intros x [Hx|Hx]%elem_of_app; [apply Hin in Hx; tauto|apply Hin' in Hx; tauto]. }
        { intros (([_ Hf] & (_ & Hd & Hnd') & Hin') & -> & ->).
          exists ((fun m => bset_of_list (m_source_ids m)) <$> ms,
                  fold_left (fun s k => bset_add k s) (ms ≫= m_source_ids)
                    (fold_left (fun s k => bset_add k s) (m_source_ids m) seen)).
          split; [|done]. apply IH; [by apply fold_bset_add_wf|]. split; [|done]. split; [done|].
          split; [done|]. intros x Hx. rewrite fold_bset_add_elem.
          specialize (Hin' x ltac:(apply elem_of_app; by right)). split; [tauto|].
          intros [?|?]; [tauto|]. by apply (Hd x). }
      * split; [done|]. intros (([[_ Hg] _] & _) & _). apply forallb_Forall in Hg. congruence.
    + split; [done|]. intros (([_ _] & (Hnd & _ & _) & Hin) & _). exfalso.
      assert (exists o s, admit_sources expected [] seen (m_source_ids m) = Some (o, s)) as (o & s & E).
      { eexists _, _. apply admit_sources_spec; [done|constructor|done|]. split; [done|]. split; [|done].
        intros x Hx. specialize (Hin x ltac:(apply elem_of_app; by left)). split; [tauto|].
        split; [apply not_elem_of_nil|tauto]. }
      congruence.
Qed.

Lemma expected_wf snapshot : bset_wf (expected_sources snapshot).
Proof. apply bset_of_list_wf. Qed.

Lemma elem_of_expected snapshot x : x ∈ expected_sources snapshot <-> x ∈ a_source_id <$> s_atoms snapshot.
Proof. apply elem_of_bset_of_list. Qed.

(** Complete coverage, as a permutation. *)
Lemma full_coverage snapshot ms seen :
  NoDup (a_source_id <$> s_atoms snapshot) ->
  memories_ok (expected_sources snapshot) [] ms ->
  seen = fold_left (fun s k => bset_add k s) (ms ≫= m_source_ids) [] ->
  seen = expected_sources snapshot ->
  Permutation (ms ≫= m_source_ids) (a_source_id <$> s_atoms snapshot).
Proof.
  intros Hnd (_ & Hnd' & _) -> E. apply NoDup_Permutation; [done|done|]. intros x.
  rewrite <- elem_of_expected, <- E, fold_bset_add_elem. set_solver.
Qed.

(** ** The result monad over lists *)

Lemma map_res_Ok {A B} (f : A -> res B) (l : list A) (k : list B) :
  map_res f l = Ok k <-> Forall2 (fun x y => f x = Ok y) l k.
Proof.
  revert k; induction l as [|x l IH]; intros k; cbn [map_res].
  - split; [intros [= <-]; constructor|]. by intros ->%Forall2_nil_inv_l.
  - rewrite result_bind_Ok. split.
    + intros (y & Hy & H). apply result_bind_Ok in H as (r & Hr & [= <-]).
      constructor; [done|]. by apply IH.
    + intros Hf. apply Forall2_cons_inv_l in Hf as (y & r & Hy & Hf & ->).
      exists y. split; [done|]. apply result_bind_Ok. exists r. split; [|done]. by apply IH.
Qed.

(** ** Which outputs a predecessor contributes to *)

Lemma note_output_wf m entry : bwf m -> bwf (note_output m entry).
Proof.
  unfold note_output. destruct entry as [k ps]. cbn [fst snd]. revert m.
  induction ps as [|p ps IH]; intros m Hm; simpl; [done|]. apply IH. auto with kioku.
Qed.

Lemma note_output_lookup m k ps p :
  bwf m -> NoDup ps ->
  bget p (note_output m (k, ps))
  = if bool_decide (p ∈ ps) then Some (default [] (bget p m) ++ [k]) else bget p m.
Proof.
  unfold note_output. cbn [fst snd]. revert m; induction ps as [|q ps IH]; intros m Hm Hnd; cbn [fold_left].
  - by rewrite bool_decide_eq_false_2 by apply not_elem_of_nil.
  - apply NoDup_cons in Hnd as [Hq Hnd]. rewrite IH by auto with kioku. unfold bmodify_or_insert.
    destruct (decide (p = q)) as [->|Hne].
    + rewrite (bool_decide_eq_false_2 (q ∈ ps)) by done. rewrite bool_decide_eq_true_2 by left.
      destruct (bget q m); by rewrite bget_binsert_eq.
    + assert (bool_decide (p ∈ q :: ps) = bool_decide (p ∈ ps)) as ->.
      { apply bool_decide_ext. rewrite elem_of_cons. tauto. }
      destruct (bget q m); by rewrite bget_binsert_ne by (done || congruence).
Qed.

Lemma predecessor_outputs_snoc preds ps :
  predecessor_outputs (preds ++ [ps]) = note_output (predecessor_outputs preds) (length preds, ps).
Proof.
  unfold predecessor_outputs. rewrite length_app, Nat.add_1_r, seq_S.
  rewrite zip_with_app by (by rewrite length_seq). by rewrite fold_left_app.
Qed.

Lemma predecessor_outputs_wf preds : bwf (predecessor_outputs preds).
Proof.
  induction preds as [|ps preds IH] using rev_ind; [apply bwf_nil|].
  rewrite predecessor_outputs_snoc. by apply note_output_wf.
Qed.

(** The positions of the outputs that name a predecessor. *)
Definition positions (p : Z) (preds : list (list Z)) : list nat :=
  List.filter (fun j => match preds !! j with Some ps => bool_decide (p ∈ ps) | None => false end)
    (seq 0 (length preds)).

Lemma positions_elem p preds j :
  j ∈ positions p preds <-> exists ps, preds !! j = Some ps /\ p ∈ ps.
Proof.
  unfold positions. rewrite elem_of_filter_bool, elem_of_seq. split.
  - intros [Hj Hp]. destruct (preds !! j) as [ps|]; [|done]. apply bool_decide_eq_true in Hp. eauto.
  - intros (ps & Hj & Hp). rewrite Hj, bool_decide_eq_true. split; [|done].
    apply lookup_lt_Some in Hj. lia.
Qed.

Lemma positions_NoDup p preds : NoDup (positions p preds).
Proof. unfold positions. rewrite NoDup_ListNoDup. apply List.NoDup_filter. rewrite <- NoDup_ListNoDup. apply NoDup_seq. Qed.

Lemma positions_snoc p preds ps :
  positions p (preds ++ [ps]) = positions p preds ++ (if bool_decide (p ∈ ps) then [length preds] else []).
Proof.
  unfold positions. rewrite length_app, Nat.add_1_r, seq_S, List.filter_app. cbn [List.filter].
  rewrite Nat.add_0_l, lookup_app_r, Nat.sub_diag by lia. cbn [lookup list_lookup]. f_equal.
  apply List.filter_ext_in. intros j Hj. apply List.in_seq in Hj. by rewrite lookup_app_l by lia.
Qed.

Lemma predecessor_outputs_lookup preds p :
  Forall NoDup preds ->
  bget p (predecessor_outputs preds) = if is_empty (positions p preds) then None else Some (positions p preds).
Proof.
  induction preds as [|ps preds IH] using rev_ind; [done|].
  intros [Hf [Hps _]%Forall_cons]%Forall_app.
  rewrite predecessor_outputs_snoc, note_output_lookup, IH, positions_snoc by (done || apply predecessor_outputs_wf).
  destruct (bool_decide (p ∈ ps)); [|by rewrite app_nil_r].
  destruct (positions p preds) as [|j l]; done.
Qed.

(** ** Planning *)

Lemma plan_outputs_lookup snapshot outs_of n ms sets preds outs :
  length ms = length sets -> length sets = length preds ->
  plan_outputs snapshot outs_of n ms sets preds = Ok outs ->
  length outs = length ms
  /\ forall k p, outs !! k = Some p -> exists m s ps,
       ms !! k = Some m /\ sets !! k = Some s /\ preds !! k = Some ps
       /\ plan_output snapshot outs_of (n + k) m s ps = Ok p.
Proof.
  revert n sets preds outs; induction ms as [|m ms IH]; intros n [|s sets] [|ps preds] outs; try done.
  - intros _ _ [= <-]. done.
  - intros [= H1] [= H2]. cbn [plan_outputs]. rewrite result_bind_Ok. intros (p & Hp & H).
    apply result_bind_Ok in H as (rest & Hrest & [= <-]).
    destruct (IH (S n) sets preds rest H1 H2 Hrest) as [Hlen Hk]. split; [simpl; congruence|].
    intros [|k] q Hq; simpl in *.
    + injection Hq as ->. exists m, s, ps. by rewrite Nat.add_0_r.
    + destruct (Hk k q Hq) as (m' & s' & ps' & ? & ? & ? & ?).
      exists m', s', ps'. by replace (n + S k)%nat with (S n + k)%nat by lia.
Qed.

Lemma plan_output_inv snapshot outs_of n m s ps p :
  plan_output snapshot outs_of n m s ps = Ok p ->
  p_member_source_ids p = s /\ p_predecessor_episode_ids p = ps
  /\ p_retained_episode_id p = retained_id snapshot outs_of n s ps
  /\ p_title p = bounded (m_title m) MAX_TITLE_CHARS
  /\ p_summary p = bounded (m_summary m) MAX_SUMMARY_CHARS
  /\ p_participants p = []
  /\ p_episode_type p = m_episode_type m
  /\ exists started ended,
       p_started_at p = format_epoch_millis started /\ p_ended_at p = format_epoch_millis ended
       /\ (exists a, a ∈ omap (fun id => bget id (atom_map snapshot)) s /\ parse_epoch_millis (a_started_at a) = Some started)
       /\ I64.saturating_add started 1 <= ended
       /\ (forall a t, a ∈ omap (fun id => bget id (atom_map snapshot)) s ->
             (parse_epoch_millis (a_started_at a) = Some t -> started <= t)
             /\ (parse_epoch_millis (a_ended_at a) = Some t -> t <= ended)).
Proof.
  unfold plan_output. rewrite result_bind_Ok. intros (started & Hs & H).
  apply result_bind_Ok in H as (last & Hl & H). apply ok_or_Ok in Hs, Hl. injection H as <-. cbn.
  repeat (split; [done|]). exists started, (Z.max last (I64.saturating_add started 1)).
  split; [done|]. split; [done|]. split.
  { unfold min_Z in Hs. apply min_by_elem, list_elem_of_omap in Hs as (a & Ha & Ht). eauto. }
  split; [lia|]. intros a t Ha. split; intros Ht.
  - apply (min_Z_le _ _ _ Hs). apply list_elem_of_omap. eauto.
  - transitivity last; [|lia]. apply (max_Z_ge _ _ _ Hl). apply list_elem_of_omap. eauto.
Qed.

(** ** The parts of a successful validation *)
Section Validated.
Context (sha256 : bytes -> bytes) (to_vec : Value -> option bytes).

Record validation_parts (snapshot : ReconciliationSnapshot) (model : ModelPartition)
  (v : ValidatedPartition) (preds : list (list Z)) : Prop := {
  vp_nonempty : s_drafts snapshot <> [] /\ memories model <> [];
  vp_bound : Z.of_nat (length (memories model)) <= MAX_OUTPUTS;
  vp_snapshot : check_snapshot snapshot = Ok tt;
  vp_memories : memories_ok (expected_sources snapshot) [] (memories model);
  vp_complete : fold_left (fun s k => bset_add k s) (memories model ≫= m_source_ids) []
                = expected_sources snapshot;
  vp_preds : Forall2 (fun m ps => contributing snapshot (bset_of_list (m_source_ids m)) = Ok ps)
               (memories model) preds;
  vp_plan : plan_outputs snapshot (predecessor_outputs preds) 0 (memories model)
              ((fun m => bset_of_list (m_source_ids m)) <$> memories model) preds = Ok (v_outputs v);
  vp_model : v_model v = model;
  vp_commitment : exists encoded, to_vec (partition_to_value model) = Some encoded
                    /\ v_result_commitment v = sha256 encoded
}.

Lemma validate_partition_Ok snapshot model v :
  validate_partition sha256 to_vec snapshot model = Ok v <->
  s_atoms snapshot <> [] /\ exists preds, validation_parts snapshot model v preds.
Proof.
  unfold validate_partition.
  destruct (is_empty (s_drafts snapshot) || is_empty (s_atoms snapshot) || is_empty (memories model)) eqn:Ee.
  { split; [done|]. intros (Ha & preds & []). rewrite !orb_true_iff, !is_empty_true in Ee. tauto. }
  rewrite !orb_false_iff, !is_empty_false in Ee. destruct Ee as [[Ed Ea] Em].
  destruct (MAX_OUTPUTS <? Z.of_nat (length (memories model))) eqn:Eb.
  { split; [done|]. intros (_ & preds & []). bool_prop. lia. }
  apply Z.ltb_ge in Eb. rewrite result_bind_Ok. split.
  - intros ([] & Hsnap & H). apply result_bind_Ok in H as ([sets seen] & Hsets & H).
    apply output_sets_spec in Hsets as (Hok & -> & ->); [|apply expected_wf|constructor].
    destruct (bool_decide _) eqn:Ec in H; [|done]. apply bool_decide_eq_true in Ec.
    cbn [negb] in H. apply result_bind_Ok in H as (preds & Hpreds & H).
    apply result_bind_Ok in H as (outs & Houts & H). apply result_bind_Ok in H as (enc & Henc & H).
    injection H as <-. apply ok_or_Ok in Henc. apply map_res_Ok, Forall2_fmap_l in Hpreds.
    split; [done|]. exists preds. split; eauto.
  - intros (_ & preds & [_ _ Hsnap Hok Hc Hp Hplan Hm (enc & Henc & Hcom)]). exists tt. split; [done|].
    apply result_bind_Ok. eexists (_, _). split.
    { apply output_sets_spec; [apply expected_wf|constructor|]. split; [done|]. split; reflexivity. }
    rewrite bool_decide_eq_true_2 by done. cbn [negb]. apply result_bind_Ok. exists preds.
    split; [by apply map_res_Ok, Forall2_fmap_l|].
    apply result_bind_Ok. exists (v_outputs v). split; [done|].
    apply result_bind_Ok. exists enc. split; [by apply ok_or_Ok|]. f_equal.
    destruct v; simpl in *; congruence.
Qed.
End Validated.

(** ** Snapshots *)

Lemma admit_owned_spec expected owned ids :
  bset_wf expected -> bset_wf owned ->
  (exists o, admit_owned expected owned ids = Some o)
  <-> NoDup ids /\ forall x, x ∈ ids -> x ∈ expected /\ x ∉ owned.
Proof.
  intros He. revert owned; induction ids as [|x ids IH]; intros owned Ho; cbn [admit_owned].
  - split; [|eauto]. intros _. split; [constructor|]. set_solver.
  - destruct (negb (bset_mem x expected) || bset_mem x owned) eqn:E.
    + split; [by intros [? ?]|]. intros [_ Hx]. specialize (Hx x ltac:(left)). exfalso.
      rewrite <- !bset_mem_spec in Hx by done.
      destruct (bset_mem x expected), (bset_mem x owned); try done; tauto.
    + rewrite orb_false_iff, negb_false_iff in E. destruct E as [E1 E2].
      apply bset_mem_spec in E1; [|done].
      assert (x ∉ owned) by (rewrite <- bset_mem_spec by done; congruence).
      rewrite IH, NoDup_cons by auto with kioku. setoid_rewrite elem_of_bset_add. split.
      * intros [Hnd Hin]. split; [split; [|done]|].
        { intros Hx. apply Hin in Hx. tauto. }
        intros y [->|Hy]%elem_of_cons; [done|]. apply Hin in Hy. tauto.
      * intros [[Hx Hnd] Hin]. split; [done|]. intros y Hy.
        assert (y <> x) by (intros ->; done). specialize (Hin y ltac:(by right)). tauto.
Qed.

(** A well-formed cohort: what [check_snapshot] accepts. *)
Record snapshot_ok (snapshot : ReconciliationSnapshot) : Prop := {
  so_atoms : NoDup (a_source_id <$> s_atoms snapshot);
  so_drafts : NoDup (d_id <$> s_drafts snapshot);
  so_predecessors : Permutation (s_predecessor_episode_ids snapshot) (d_id <$> s_drafts snapshot);
  so_nonempty : Forall (fun d => d_member_source_ids d <> []) (s_drafts snapshot);
  so_owned : NoDup (s_drafts snapshot ≫= d_member_source_ids);
  so_known : forall x, x ∈ s_drafts snapshot ≫= d_member_source_ids -> x ∈ expected_sources snapshot
}.

Lemma check_snapshot_spec snapshot : check_snapshot snapshot = Ok tt <-> snapshot_ok snapshot.
Proof.
  unfold check_snapshot.
  destruct (length (expected_sources snapshot) =? length (s_atoms snapshot))%nat eqn:E1; cbn [negb].
  2:{ split; [done|]. intros []. exfalso. apply Nat.eqb_neq in E1. apply E1.
      unfold expected_sources. rewrite bset_of_list_length by done. apply length_fmap. }
  apply Nat.eqb_eq in E1.
  assert (NoDup (a_source_id <$> s_atoms snapshot)) as Hatoms.
  { apply bset_of_list_length_inv. rewrite length_fmap. exact E1. }
  destruct (_ || _ || _ || _) eqn:E2.
  - split; [done|]. intros [_ Hd Hp Hne _ _]. exfalso.
    assert (NoDup (s_predecessor_episode_ids snapshot)) as Hpn by (by rewrite Hp).
    rewrite !bset_of_list_length, length_fmap, !Nat.eqb_refl in E2 by done. cbn [negb orb] in E2.
    assert (bset_of_list (d_id <$> s_drafts snapshot) = bset_of_list (s_predecessor_episode_ids snapshot)) as Eq.
    { apply bset_ext; auto with kioku. intros x. by rewrite !elem_of_bset_of_list, Hp. }
    rewrite bool_decide_eq_true_2 in E2 by done. cbn [negb orb] in E2.
    apply existsb_Exists in E2 as (d & Hin & He). apply is_empty_true in He.
    rewrite Forall_forall in Hne. by apply (Hne d).
  - rewrite !orb_false_iff, !negb_false_iff, !Nat.eqb_eq in E2. destruct E2 as [[[Hd Hp] Heq] Hne].
    apply bool_decide_eq_true in Heq. rewrite <- (length_fmap d_id) in Hd.
    apply bset_of_list_length_inv in Hd, Hp.
    assert (Forall (fun d => d_member_source_ids d <> []) (s_drafts snapshot)) as Hf.
    { apply Forall_forall. intros d Hin He. rewrite existsb_false in Hne. specialize (Hne d Hin).
      apply is_empty_false in Hne. done. }
    pose proof (admit_owned_spec (expected_sources snapshot) [] (s_drafts snapshot ≫= d_member_source_ids)
      (expected_wf snapshot) ltac:(constructor)) as Hown.
    assert (Permutation (s_predecessor_episode_ids snapshot) (d_id <$> s_drafts snapshot)) as Hperm.
    { apply NoDup_Permutation; [done..|]. intros x.
      by rewrite <- (elem_of_bset_of_list (d_id <$> _)), Heq, elem_of_bset_of_list. }
    destruct (admit_owned _ _ _) as [o|] eqn:Eo.
    + destruct (proj1 Hown (ex_intro _ o eq_refl)) as [Hnd Hin]. split; [|done]. intros _.
      split; try done. intros x Hx. by apply Hin.
    + split; [done|]. intros [_ _ _ _ Hnd Hin]. destruct (proj2 Hown) as [o Ho]; [|done].
      split; [done|]. intros x Hx. split; [by apply Hin|apply not_elem_of_nil].
Qed.

Lemma source_map_lookup snapshot d :
  snapshot_ok snapshot -> d ∈ s_drafts snapshot ->
  bget (d_id d) (source_map snapshot) = Some (bset_of_list (d_member_source_ids d)).
Proof.
  intros Hok Hd. apply bget_bfrom_list_NoDup.
  - rewrite <- list_fmap_compose. apply (so_drafts _ Hok).
  - apply list_elem_of_fmap. eauto.
Qed.

Lemma source_map_inv snapshot p s :
  snapshot_ok snapshot -> bget p (source_map snapshot) = Some s ->
  exists d, d ∈ s_drafts snapshot /\ d_id d = p /\ s = bset_of_list (d_member_source_ids d).
Proof.
  intros Hok Hp. apply bget_bfrom_list_NoDup in Hp.
  - apply list_elem_of_fmap in Hp as (d & [= -> ->] & Hd). eauto.
  - rewrite <- list_fmap_compose. apply (so_drafts _ Hok).
Qed.

Lemma atom_map_lookup snapshot id a :
  snapshot_ok snapshot -> bget id (atom_map snapshot) = Some a <-> a ∈ s_atoms snapshot /\ a_source_id a = id.
Proof.
  intros Hok. unfold atom_map. rewrite bget_bfrom_list_NoDup.
  - rewrite list_elem_of_fmap. split; [intros (x & [= -> ->] & ?); done|]. intros [? <-]. eauto.
  - rewrite <- list_fmap_compose. apply (so_atoms _ Hok).
Qed.

Lemma is_disjoint_false a b : bset_wf b -> is_disjoint a b = false <-> exists x, x ∈ a /\ x ∈ b.
Proof.
  intros Hb. unfold is_disjoint. rewrite negb_false_iff, existsb_Exists.
  split; intros (x & Hx & Hm); exists x; split; auto; by apply (bset_mem_spec x b Hb).
Qed.

(** An output's predecessors are drafts; there is at least one; and a draft
    that shares evidence with the output is among them. *)
Lemma contributing_spec snapshot output ps :
  snapshot_ok snapshot -> bset_wf output -> contributing snapshot output = Ok ps ->
  ps <> [] /\ NoDup ps /\ (forall p, p ∈ ps -> p ∈ d_id <$> s_drafts snapshot)
  /\ (forall d x, d ∈ s_drafts snapshot -> x ∈ d_member_source_ids d -> x ∈ output -> d_id d ∈ ps).
Proof.
  intros Hok Ho. unfold contributing.
  set (shared := List.filter _ (s_drafts snapshot)).
  assert (forall d x, d ∈ s_drafts snapshot -> x ∈ d_member_source_ids d -> x ∈ output -> d ∈ shared) as Hsh.
  { intros d x Hd Hx Hxo. unfold shared. apply elem_of_filter_bool. split; [done|].
    rewrite source_map_lookup by done. cbn [default from_option]. apply negb_true_iff.
    apply is_disjoint_false; [done|]. exists x. split; [by apply elem_of_bset_of_list|done]. }
  destruct (negb (is_empty (d_id <$> shared))) eqn:E.
  - intros [= <-]. apply negb_true_iff, is_empty_false in E. split; [done|]. split; [|split].
    + eapply sublist_NoDup; [apply (so_drafts _ Hok)|]. apply fmap_sublist. unfold shared.
      generalize (s_drafts snapshot). intros l. induction l as [|d l IH]; simpl; [constructor|].
      case_match; by constructor.
    + intros p (d & -> & Hd)%list_elem_of_fmap. unfold shared in Hd. apply elem_of_filter_bool in Hd as [Hd _].
      by apply list_elem_of_fmap_2.
    + intros d x Hd Hx Hxo. apply list_elem_of_fmap_2. eauto.
  - apply negb_false_iff, is_empty_true, fmap_nil_inv in E. rewrite result_bind_Ok. intros (start & _ & H).
    apply result_bind_Ok in H as (d & Hd & [= <-]). apply ok_or_Ok, min_by_elem in Hd.
    split; [done|]. split; [apply NoDup_singleton|]. split.
    + intros p ->%list_elem_of_singleton. by apply list_elem_of_fmap_2.
    + intros d' x Hd' Hx Hxo. specialize (Hsh d' x Hd' Hx Hxo). rewrite E in Hsh. by apply not_elem_of_nil in Hsh.
Qed.

(** ** Claims about a validated partition *)
Section Claims.
Context (sha256 : bytes -> bytes) (to_vec : Value -> option bytes).

(** The facts about one output that the claims share. *)
Lemma output_parts snapshot model v preds k p :
  validation_parts sha256 to_vec snapshot model v preds -> v_outputs v !! k = Some p ->
  exists m ps, memories model !! k = Some m /\ preds !! k = Some ps
    /\ contributing snapshot (bset_of_list (m_source_ids m)) = Ok ps
    /\ plan_output snapshot (predecessor_outputs preds) k m (bset_of_list (m_source_ids m)) ps = Ok p.
Proof.
  intros [_ _ _ _ _ Hp Hplan _ _] Hk.
  apply plan_outputs_lookup in Hplan as [_ Hl];
    [|by rewrite length_fmap|rewrite length_fmap; by apply Forall2_length in Hp].
  destruct (Hl k p Hk) as (m & s & ps & Hm & Hs & Hps & Hpo). simpl in Hpo.
  rewrite list_lookup_fmap, Hm in Hs. injection Hs as <-.
  exists m, ps. split; [done|]. split; [done|]. split; [|done].
  by apply (Forall2_lookup_lr _ _ _ k m ps Hp).
Qed.

Lemma outputs_length snapshot model v preds :
  validation_parts sha256 to_vec snapshot model v preds -> length (v_outputs v) = length (memories model).
Proof.
  intros [_ _ _ _ _ Hp Hplan _ _].
  apply plan_outputs_lookup in Hplan as [Hl _];
    [done|by rewrite length_fmap|rewrite length_fmap; by apply Forall2_length in Hp].
Qed.

Lemma outputs_members snapshot model v preds :
  validation_parts sha256 to_vec snapshot model v preds ->
  p_member_source_ids <$> v_outputs v = (fun m => bset_of_list (m_source_ids m)) <$> memories model.
Proof.
  intros Hv. apply list_eq_same_length with (n := length (memories model)).
  - by rewrite length_fmap.
  - rewrite length_fmap. by apply outputs_length in Hv.
  - intros k x y _ Hx Hy.
    apply list_lookup_fmap_Some_1 in Hx as (p & -> & Ep), Hy as (m' & -> & Em).
    destruct (output_parts _ _ _ _ _ _ Hv Ep) as (m & ps & Hm & _ & _ & Hpo).
    apply plan_output_inv in Hpo as (Hmem & _). congruence.
Qed.

Lemma memories_members_perm ms :
  NoDup (ms ≫= m_source_ids) ->
  Permutation (concat ((fun m => bset_of_list (m_source_ids m)) <$> ms)) (ms ≫= m_source_ids).
Proof.
  induction ms as [|m ms IH]; [done|]. rewrite bind_cons, fmap_cons. cbn [concat].
  intros (Hm & _ & Hms)%NoDup_app. rewrite IH by done. by rewrite bset_of_list_perm.
Qed.

(** C1: a validated partition is exhaustive and disjoint.  Between 1 and 32
    outputs, one per memory of the model and in its order, together hold
    every evidence atom of the cohort exactly once; each output has at least
    one source, sorted and distinct, a known type, a title and a summary
    within their bounds, and no participants of its own. *)
Theorem partition_is_exhaustive snapshot model v :
  validate_partition sha256 to_vec snapshot model = Ok v ->
  Permutation (concat (p_member_source_ids <$> v_outputs v)) (a_source_id <$> s_atoms snapshot)
  /\ NoDup (concat (p_member_source_ids <$> v_outputs v))
  /\ length (v_outputs v) = length (memories model)
  /\ (0 < length (v_outputs v))%nat /\ Z.of_nat (length (v_outputs v)) <= MAX_OUTPUTS
  /\ Forall (fun p => p_member_source_ids p <> [] /\ bset_wf (p_member_source_ids p)
       /\ valid_episode_type (p_episode_type p) = true
       /\ p_title p <> [] /\ (length (p_title p) <= S MAX_TITLE_CHARS)%nat
       /\ p_summary p <> [] /\ (length (p_summary p) <= S MAX_SUMMARY_CHARS)%nat
       /\ p_participants p = []) (v_outputs v).
Proof.
  intros (Hatoms & preds & Hv)%validate_partition_Ok. pose proof Hv as Hv'.
  destruct Hv' as [[Hd Hm] Hb Hsnap Hok Hc _ _ _ _]. apply check_snapshot_spec in Hsnap.
  pose proof (full_coverage snapshot (memories model) _ (so_atoms _ Hsnap) Hok eq_refl Hc) as Hperm.
  destruct Hok as (Hf & Hnd & _).
  rewrite (outputs_members _ _ _ _ Hv), (outputs_length _ _ _ _ Hv).
  rewrite (memories_members_perm _ Hnd). split; [done|]. split; [done|]. split; [done|].
  split; [destruct (memories model); [done|simpl; lia]|]. split; [done|].
  apply Forall_lookup. intros k p Hp.
  destruct (output_parts _ _ _ _ _ _ Hv Hp) as (m & ps & Hmk & _ & _ & Hpo).
  apply plan_output_inv in Hpo as (-> & _ & _ & -> & -> & -> & -> & _).
  rewrite Forall_lookup in Hf. destruct (Hf k m Hmk) as [Hw _]. unfold well_formed_memory in Hw.
  rewrite negb_true_iff, !orb_false_iff, negb_false_iff in Hw. destruct Hw as [[[Hs Ht] Hti] Hsu].
  apply is_empty_false in Hs. split.
  { intros E. apply Hs. destruct (m_source_ids m) as [|x l] eqn:El; [done|]. exfalso.
    assert (x ∈ bset_of_list (x :: l)) as Hx by (apply elem_of_bset_of_list; left).
    rewrite E in Hx. by apply not_elem_of_nil in Hx. }
  split; [apply bset_of_list_wf|]. split; [done|].
  split; [apply bounded_nonempty; [unfold MAX_TITLE_CHARS; lia|done]|]. split; [apply bounded_length|].
  split; [apply bounded_nonempty; [unfold MAX_SUMMARY_CHARS; lia|done]|]. split; [apply bounded_length|done].
Qed.

(** Lineage is total.  Every output descends from at least one
    predecessor of the cohort, and every predecessor has a successor: in
    particular each output that holds one of a draft's sources names that
    draft, so no memory is lost by reconciliation. *)
Theorem partition_lineage_total snapshot model v :
  validate_partition sha256 to_vec snapshot model = Ok v ->
  Forall (fun p => p_predecessor_episode_ids p <> []
     /\ forall e, e ∈ p_predecessor_episode_ids p -> e ∈ s_predecessor_episode_ids snapshot) (v_outputs v)
  /\ (forall d x p, d ∈ s_drafts snapshot -> x ∈ d_member_source_ids d -> p ∈ v_outputs v ->
        x ∈ p_member_source_ids p -> d_id d ∈ p_predecessor_episode_ids p)
  /\ (forall e, e ∈ s_predecessor_episode_ids snapshot ->
        exists p, p ∈ v_outputs v /\ e ∈ p_predecessor_episode_ids p).
Proof.
  intros Hval. pose proof Hval as (Hatoms & preds & Hv)%validate_partition_Ok. pose proof Hv as Hv'.
  destruct Hv' as [_ _ Hsnap Hok Hc _ _ _ _]. apply check_snapshot_spec in Hsnap.
  pose proof (full_coverage snapshot (memories model) _ (so_atoms _ Hsnap) Hok eq_refl Hc) as Hperm.
  assert (forall d x p, d ∈ s_drafts snapshot -> x ∈ d_member_source_ids d -> p ∈ v_outputs v ->
        x ∈ p_member_source_ids p -> d_id d ∈ p_predecessor_episode_ids p) as Hshare.
  { intros d x p Hd Hx (k & Hk)%list_elem_of_lookup_1 Hp.
    destruct (output_parts _ _ _ _ _ _ Hv Hk) as (m & ps & Hm & _ & Hcon & Hpo).
    apply plan_output_inv in Hpo as (Emem & -> & _). rewrite Emem in Hp.
    apply contributing_spec in Hcon as (_ & _ & _ & Hcon); [|done|apply bset_of_list_wf]. eauto. }
  split; [|split; [exact Hshare|]].
  - apply Forall_lookup. intros k p Hk.
    destruct (output_parts _ _ _ _ _ _ Hv Hk) as (m & ps & Hm & _ & Hcon & Hpo).
    apply plan_output_inv in Hpo as (_ & -> & _).
    apply contributing_spec in Hcon as (Hne & _ & Hin & _); [|done|apply bset_of_list_wf].
    split; [done|]. intros e He. rewrite (so_predecessors _ Hsnap). auto.
  - intros e He. rewrite (so_predecessors _ Hsnap) in He. apply list_elem_of_fmap in He as (d & -> & Hd).
    pose proof (so_nonempty _ Hsnap) as Hne. rewrite Forall_forall in Hne. specialize (Hne d Hd).
    destruct (d_member_source_ids d) as [|x l] eqn:El; [done|].
    assert (x ∈ a_source_id <$> s_atoms snapshot) as Hx.
    { apply elem_of_expected, (so_known _ Hsnap), list_elem_of_bind. exists d. split; [rewrite El; left|done]. }
    rewrite <- Hperm in Hx. apply list_elem_of_bind in Hx as (m & Hxm & Hm).
    assert (bset_of_list (m_source_ids m) ∈ p_member_source_ids <$> v_outputs v) as Hs.
    { rewrite (outputs_members _ _ _ _ Hv). by apply list_elem_of_fmap_2 with (f := fun m => bset_of_list (m_source_ids m)). }
    apply list_elem_of_fmap in Hs as (p & Ep & Hp). exists p. split; [done|].
    apply (Hshare d x p); [done|rewrite El; left|done|]. rewrite <- Ep. by apply elem_of_bset_of_list.
Qed.

Lemma outputs_predecessors snapshot model v preds :
  validation_parts sha256 to_vec snapshot model v preds ->
  p_predecessor_episode_ids <$> v_outputs v = preds.
Proof.
  intros Hv. pose proof Hv as [_ _ _ _ _ Hp _ _ _]. apply Forall2_length in Hp.
  apply list_eq_same_length with (n := length (memories model)); [done| |].
  - rewrite length_fmap. by apply outputs_length in Hv.
  - intros k x y _ Hx Hy. rewrite list_lookup_fmap in Hx.
    destruct (v_outputs v !! k) as [p|] eqn:Ep; [|done].
    destruct (output_parts _ _ _ _ _ _ Hv Ep) as (m & ps & _ & Hps & _ & Hpo).
    apply plan_output_inv in Hpo as (_ & Hpre & _). cbn in Hx. congruence.
Qed.

Lemma retained_spec snapshot model v k p e :
  validate_partition sha256 to_vec snapshot model = Ok v ->
  v_outputs v !! k = Some p ->
  p_retained_episode_id p = Some e <->
  p_predecessor_episode_ids p = [e]
  /\ (exists d, d ∈ s_drafts snapshot /\ d_id d = e
        /\ p_member_source_ids p = bset_of_list (d_member_source_ids d))
  /\ (forall j q, v_outputs v !! j = Some q -> e ∈ p_predecessor_episode_ids q -> j = k).
Proof.
  intros (Hatoms & preds & Hv)%validate_partition_Ok Hk. pose proof Hv as [_ _ Hsnap _ _ Hp _ _ _].
  apply check_snapshot_spec in Hsnap.
  destruct (output_parts _ _ _ _ _ _ Hv Hk) as (m & ps & Hm & Hps & Hcon & Hpo).
  apply plan_output_inv in Hpo as (-> & -> & -> & _).
  assert (Forall NoDup preds) as Hnd.
  { apply Forall_lookup. intros j ps' Hj. destruct (Forall2_lookup_r _ _ _ j ps' Hp Hj) as (m' & _ & Hc).
    apply contributing_spec in Hc as (_ & Hc & _); [done|done|apply bset_of_list_wf]. }
  pose proof (predecessor_outputs_lookup preds e Hnd) as Hlook.
  assert (bget e (predecessor_outputs preds) = Some [k] <->
          (e ∈ ps /\ forall j q, v_outputs v !! j = Some q -> e ∈ p_predecessor_episode_ids q -> j = k)) as Hone.
  { rewrite Hlook. split.
    - destruct (is_empty (positions e preds)) eqn:E; [done|]. intros [= Hpos].
      assert (forall j, j ∈ positions e preds <-> j = k) as Hj by (intros j; rewrite Hpos; set_solver).
      split; [destruct (proj1 (positions_elem e preds k)) as (ps' & ? & ?); [by apply Hj|congruence]|].
      intros j q Hq Hin. apply Hj, positions_elem. exists (p_predecessor_episode_ids q). split; [|done].
      rewrite <- (outputs_predecessors _ _ _ _ Hv), list_lookup_fmap, Hq. done.
    - intros [Hin Huniq].
      assert (positions e preds = [k]) as ->; [|done].
      apply Permutation_singleton_r. apply NoDup_Permutation; [apply positions_NoDup|apply NoDup_singleton|].
      intros j. rewrite positions_elem, list_elem_of_singleton. split.
      + intros (ps' & Hj & Hin'). rewrite <- (outputs_predecessors _ _ _ _ Hv), list_lookup_fmap in Hj.
        destruct (v_outputs v !! j) as [q|] eqn:Eq; [|done]. injection Hj as <-. by apply (Huniq j q).
      + intros ->. eauto. }
  unfold retained_id. split.
  - destruct ps as [|p' [|? ?]]; try done.
    destruct (bool_decide (bget p' _ = _)) eqn:E1; [|done].
    destruct (bool_decide (bget p' (source_map snapshot) = _)) eqn:E2; [|done]. intros [= ->].
    apply bool_decide_eq_true in E1, E2. apply Hone in E1 as [_ Huniq].
    apply source_map_inv in E2 as (d & Hd & Hid & Hs); [|done]. split; [done|]. split; [|done]. eauto.
  - intros (-> & (d & Hd & Hid & Hs) & Huniq).
    rewrite bool_decide_eq_true_2 by (apply Hone; split; [left|done]).
    rewrite bool_decide_eq_true_2; [done|]. rewrite <- Hid, Hs. by apply source_map_lookup.
Qed.

(** An identity is kept exactly for unchanged membership.  An output
    keeps an episode's id precisely when that draft is its only predecessor,
    no other output descends from the draft, and the output holds exactly the
    draft's sources; so no two outputs keep the same id. *)
Theorem retained_iff_unchanged snapshot model v k p e :
  validate_partition sha256 to_vec snapshot model = Ok v ->
  v_outputs v !! k = Some p ->
  p_retained_episode_id p = Some e <->
  p_predecessor_episode_ids p = [e]
  /\ (exists d, d ∈ s_drafts snapshot /\ d_id d = e
        /\ p_member_source_ids p = bset_of_list (d_member_source_ids d))
  /\ (forall j q, v_outputs v !! j = Some q -> e ∈ p_predecessor_episode_ids q -> j = k).
Proof. apply retained_spec. Qed.
End Claims.

(** ** The conservative partition *)

Lemma nearest_index_Some at_ms drafts :
  drafts <> [] -> exists i, nearest_index at_ms drafts = Some i /\ (i < length drafts)%nat.
Proof.
  intros Hd. unfold nearest_index. set (l := zip (seq 0 (length drafts)) drafts).
  assert (l <> []) as Hl by (unfold l; by destruct drafts).
  destruct (min_by_is_Some (on_key (fun e : nat * ReconciliationDraft => (draft_distance at_ms e.2, d_id e.2))) l Hl)
    as [[i d] Hi]. rewrite Hi. exists i. split; [done|].
  apply min_by_elem in Hi. unfold l in Hi. apply elem_of_zip_l in Hi. apply elem_of_seq in Hi. simpl in *. lia.
Qed.

(** [push_source] changes the sources only. *)
Definition extends (m m' : ModelMemory) : Prop :=
  exists more, m_source_ids m' = m_source_ids m ++ more
    /\ m_episode_type m' = m_episode_type m /\ m_title m' = m_title m
    /\ m_summary m' = m_summary m /\ m_timeline m' = m_timeline m.

Lemma extends_refl m : extends m m.
Proof. exists []. by rewrite app_nil_r. Qed.

Lemma extends_push m m' x : extends m m' -> extends m (push_source m' x).
Proof. intros (more & E & ?). exists (more ++ [x]). simpl. by rewrite E, app_assoc. Qed.

Lemma alter_push_perm ms i x :
  (i < length ms)%nat ->
  Permutation (alter (fun m => push_source m x) i ms ≫= m_source_ids) ((ms ≫= m_source_ids) ++ [x]).
Proof.
  revert i; induction ms as [|m ms IH]; intros [|i]; simpl; try lia; intros Hi.
  - rewrite <- !app_assoc. apply Permutation_app_head, Permutation_app_comm.
  - rewrite <- app_assoc. apply Permutation_app_head, IH. lia.
Qed.

Lemma Forall2_extends_alter (l ms : list ModelMemory) i x :
  Forall2 extends l ms -> Forall2 extends l (alter (fun m => push_source m x) i ms).
Proof.
  intros Hf. revert i. induction Hf as [|a b l ms Hab Hf IH]; intros i; [constructor|].
  destruct i as [|i]; apply Forall2_cons; (split; [|done || apply IH]); [by apply extends_push|done].
Qed.

Lemma place_orphans drafts atoms base ms :
  drafts <> [] -> length ms = length drafts -> Forall2 extends base ms ->
  exists ms', fold_left (place_orphan drafts) atoms (Ok ms) = Ok ms'
    /\ Forall2 extends base ms'
    /\ Permutation (ms' ≫= m_source_ids) ((ms ≫= m_source_ids) ++ (a_source_id <$> atoms)).
Proof.
  intros Hd. revert ms; induction atoms as [|a atoms IH]; intros ms Hlen Hb; cbn [fold_left].
  - exists ms. split; [done|]. split; [done|]. by rewrite app_nil_r.
  - unfold place_orphan at 2. cbn [result_bind].
    destruct (nearest_index_Some (default 0 (parse_epoch_millis (a_started_at a))) drafts Hd) as (i & -> & Hi).
    cbn [ok_or result_bind].
    destruct (IH (alter (fun m => push_source m (a_source_id a)) i ms)) as (ms' & H1 & H2 & H3).
    + by rewrite length_alter.
    + by apply Forall2_extends_alter.
    + exists ms'. split; [done|]. split; [done|]. rewrite H3, alter_push_perm by lia.
      rewrite fmap_cons, <- app_assoc. done.
Qed.

Lemma draft_memories_sources drafts :
  (draft_memory <$> drafts) ≫= m_source_ids = drafts ≫= d_member_source_ids.
Proof. induction drafts as [|d drafts IH]; [done|]. rewrite fmap_cons, !bind_cons, IH. done. Qed.

(** The evidence is what the drafts own and the orphans. *)
Lemma owned_and_orphans snapshot :
  snapshot_ok snapshot ->
  Permutation ((s_drafts snapshot ≫= d_member_source_ids) ++ (a_source_id <$> orphans snapshot))
    (a_source_id <$> s_atoms snapshot).
Proof.
  intros Hok. unfold orphans. set (owned := s_drafts snapshot ≫= d_member_source_ids).
  assert (forall x, x ∈ a_source_id <$> List.filter (fun a => negb (bset_mem (a_source_id a) (bset_of_list owned))) (s_atoms snapshot)
          <-> x ∈ a_source_id <$> s_atoms snapshot /\ x ∉ owned) as Horph.
  { intros x. rewrite !list_elem_of_fmap. split.
    - intros (a & -> & Ha). apply elem_of_filter_bool in Ha as [Ha Hn]. split; [eauto|].
      apply negb_true_iff in Hn. intros Hin. apply (elem_of_bset_of_list owned) in Hin.
      apply (bset_mem_spec _ _ (bset_of_list_wf owned)) in Hin. congruence.
    - intros ((a & -> & Ha) & Hno). exists a. split; [done|]. apply elem_of_filter_bool. split; [done|].
      apply negb_true_iff. destruct (bset_mem _ _) eqn:E; [|done]. exfalso. apply Hno.
      apply (bset_mem_spec _ _ (bset_of_list_wf owned)) in E. by apply (elem_of_bset_of_list owned) in E. }
  apply NoDup_Permutation; [|apply (so_atoms _ Hok)|].
  - apply NoDup_app. split; [apply (so_owned _ Hok)|]. split; [intros x Hx Hx'; apply Horph in Hx'; tauto|].
    eapply sublist_NoDup; [apply (so_atoms _ Hok)|]. apply fmap_sublist.
    generalize (s_atoms snapshot). intros l. induction l as [|a l IH]; simpl; [constructor|]. case_match; by constructor.
  - intros x. rewrite elem_of_app, Horph. split.
    + intros [Hx|[Hx _]]; [|done]. by apply elem_of_expected, (so_known _ Hok).
    + intros Hx. destruct (decide (x ∈ owned)); auto.
Qed.

Lemma settle_well_formed m m0 :
  extends m0 m -> m_source_ids m0 <> [] -> well_formed_memory (settle_memory m) = true.
Proof.
  intros (more & Hs & _) Hne. unfold well_formed_memory, settle_memory.
  cbn [m_source_ids m_episode_type m_title m_summary].
  assert (is_empty (bset_of_list (m_source_ids m)) = false) as ->.
  { apply is_empty_false. intros E. destruct (m_source_ids m0) as [|x l]; [done|].
    assert (x ∈ bset_of_list (m_source_ids m)) as Hx by (apply elem_of_bset_of_list; rewrite Hs; left).
    rewrite E in Hx. by apply not_elem_of_nil in Hx. }
  assert (valid_episode_type (if valid_episode_type (m_episode_type m) then m_episode_type m else lit "other") = true) as ->.
  { destruct (valid_episode_type (m_episode_type m)) eqn:E; [done|reflexivity]. }
  assert (is_blank (if is_blank (m_title m) then lit "Memory" else m_title m) = false) as ->.
  { destruct (is_blank (m_title m)) eqn:E; [reflexivity|done]. }
  assert (is_blank (if is_blank (m_summary m) then lit "Memory draft" else m_summary m) = false) as ->.
  { destruct (is_blank (m_summary m)) eqn:E; [reflexivity|done]. }
  done.
Qed.

Lemma settled_sources ms :
  NoDup (ms ≫= m_source_ids) ->
  Permutation ((settle_memory <$> ms) ≫= m_source_ids) (ms ≫= m_source_ids).
Proof.
  induction ms as [|m ms IH]; [done|]. rewrite fmap_cons, !bind_cons.
  intros (Hm & _ & Hms)%NoDup_app. rewrite IH by done. cbn [settle_memory m_source_ids].
  by rewrite bset_of_list_perm.
Qed.

(** Cohorts on which every step of planning has a time to work with. *)
Definition timed (snapshot : ReconciliationSnapshot) : Prop :=
  Forall (fun a => is_Some (parse_epoch_millis (a_started_at a)) /\ is_Some (parse_epoch_millis (a_ended_at a)))
    (s_atoms snapshot).

Lemma timed_extremum snapshot sources (f : ReconciliationEvidenceAtom -> str) :
  snapshot_ok snapshot -> sources <> [] -> (forall x, x ∈ sources -> x ∈ expected_sources snapshot) ->
  Forall (fun a => is_Some (parse_epoch_millis (f a))) (s_atoms snapshot) ->
  omap (fun a => parse_epoch_millis (f a)) (omap (fun id => bget id (atom_map snapshot)) sources) <> [].
Proof.
  intros Hok Hne Hin Hf. destruct sources as [|x l]; [done|].
  assert (x ∈ a_source_id <$> s_atoms snapshot) as Hx by (apply elem_of_expected, Hin; left).
  apply list_elem_of_fmap in Hx as (a & -> & Ha). rewrite Forall_forall in Hf.
  destruct (Hf a Ha) as [t Ht]. intros E.
  assert (t ∈ omap (fun a => parse_epoch_millis (f a))
                (omap (fun id => bget id (atom_map snapshot)) (a_source_id a :: l))) as Hin'.
  { apply list_elem_of_omap. exists a. split; [|done]. apply list_elem_of_omap. exists (a_source_id a).
    split; [left|]. by apply atom_map_lookup. }
  rewrite E in Hin'. by apply not_elem_of_nil in Hin'.
Qed.

Lemma contributing_total snapshot output :
  snapshot_ok snapshot -> timed snapshot -> s_drafts snapshot <> [] -> output <> [] ->
  (forall x, x ∈ output -> x ∈ expected_sources snapshot) ->
  exists ps, contributing snapshot output = Ok ps.
Proof.
  intros Hok Ht Hd Hne Hin. unfold contributing. set (ids := d_id <$> _).
  destruct (negb (is_empty ids)); [eauto|].
  destruct (min_Z _) as [t|] eqn:E.
  - cbn [ok_or result_bind]. destruct (min_by_is_Some (on_key (fun d => (draft_distance t d, d_id d))) _ Hd) as [d Hd'].
    unfold nearest_draft. rewrite Hd'. cbn. eauto.
  - apply min_by_None in E. exfalso. revert E. apply timed_extremum; [done|done|done|].
    eapply Forall_impl; [exact Ht|]. by intros a [? _].
Qed.

Lemma plan_output_total snapshot outs_of n m sources ps :
  snapshot_ok snapshot -> timed snapshot -> sources <> [] ->
  (forall x, x ∈ sources -> x ∈ expected_sources snapshot) ->
  exists p, plan_output snapshot outs_of n m sources ps = Ok p.
Proof.
  intros Hok Ht Hne Hin. unfold plan_output.
  destruct (min_Z _) as [t|] eqn:E1; cbn [ok_or result_bind].
  2:{ apply min_by_None in E1. exfalso. revert E1. apply timed_extremum; [done|done|done|].
      eapply Forall_impl; [exact Ht|]. by intros a [? _]. }
  destruct (max_Z _) as [t'|] eqn:E2; cbn [ok_or result_bind]; [eauto|].
  apply max_by_None in E2. exfalso. revert E2. apply timed_extremum; [done|done|done|].
  eapply Forall_impl; [exact Ht|]. by intros a [_ ?].
Qed.

Lemma plan_outputs_total snapshot outs_of n ms preds :
  snapshot_ok snapshot -> timed snapshot -> length ms = length preds ->
  Forall (fun m => m_source_ids m <> [] /\ forall x, x ∈ m_source_ids m -> x ∈ expected_sources snapshot) ms ->
  exists outs, plan_outputs snapshot outs_of n ms ((fun m => bset_of_list (m_source_ids m)) <$> ms) preds = Ok outs.
Proof.
  intros Hok Ht. revert n preds; induction ms as [|m ms IH]; intros n [|ps preds] Hlen Hf; try done.
  - eexists; reflexivity.
  - apply Forall_cons in Hf as [[Hne Hin] Hf]. injection Hlen as Hlen.
    rewrite fmap_cons. cbn [plan_outputs].
    destruct (plan_output_total snapshot outs_of n m (bset_of_list (m_source_ids m)) ps Hok Ht) as [p ->].
    { destruct (m_source_ids m) as [|x l] eqn:El; [done|]. intros E.
      assert (x ∈ bset_of_list (x :: l)) as Hx by (apply elem_of_bset_of_list; left).
      rewrite E in Hx. by apply not_elem_of_nil in Hx. }
    { intros x Hx. apply Hin. by apply (elem_of_bset_of_list (m_source_ids m)) in Hx. }
    cbn [result_bind]. destruct (IH (S n) preds Hlen Hf) as [outs ->]. cbn. eauto.
Qed.

(** Any well-formed exhaustive partition of a timed cohort validates. *)
Lemma validate_total sha256 to_vec snapshot ms :
  snapshot_ok snapshot -> timed snapshot -> s_drafts snapshot <> [] -> s_atoms snapshot <> [] ->
  ms <> [] -> Z.of_nat (length ms) <= MAX_OUTPUTS ->
  Forall (fun m => well_formed_memory m = true
     /\ Forall (fun i => grounded_item (bset_of_list (m_source_ids m)) i = true) (m_timeline m)) ms ->
  Permutation (ms ≫= m_source_ids) (a_source_id <$> s_atoms snapshot) ->
  (exists encoded, to_vec (partition_to_value {| memories := ms |}) = Some encoded) ->
  exists v, validate_partition sha256 to_vec snapshot {| memories := ms |} = Ok v.
Proof.
  intros Hok Ht Hd Ha Hm Hb Hf Hperm [encoded Henc].
  assert (Forall (fun m => m_source_ids m <> [] /\ forall x, x ∈ m_source_ids m -> x ∈ expected_sources snapshot) ms) as Hms.
  { apply Forall_forall. intros m Hin. rewrite Forall_forall in Hf. destruct (Hf m Hin) as [Hw _]. split.
    - unfold well_formed_memory in Hw. rewrite negb_true_iff, !orb_false_iff in Hw.
      destruct Hw as [[[Hw _] _] _]. by apply is_empty_false in Hw.
    - intros x Hx. apply elem_of_expected. rewrite <- Hperm. apply list_elem_of_bind. eauto. }
  assert (exists preds, Forall2 (fun m ps => contributing snapshot (bset_of_list (m_source_ids m)) = Ok ps) ms preds) as [preds Hpreds].
  { clear - Hok Ht Hd Hms. induction Hms as [|m ms [Hne Hin] Hms IH]; [by exists []|].
    destruct IH as [preds Hp].
    destruct (contributing_total snapshot (bset_of_list (m_source_ids m)) Hok Ht Hd) as [ps Hps].
    - destruct (m_source_ids m) as [|x l] eqn:El; [done|]. intros E.
      assert (x ∈ bset_of_list (x :: l)) as Hx by (apply elem_of_bset_of_list; left).
      rewrite E in Hx. by apply not_elem_of_nil in Hx.
    - intros x Hx. apply Hin. by apply (elem_of_bset_of_list (m_source_ids m)) in Hx.
    - exists (ps :: preds). by constructor. }
  destruct (plan_outputs_total snapshot (predecessor_outputs preds) 0 ms preds Hok Ht) as [outs Houts];
    [by apply Forall2_length in Hpreds|done|].
  exists {| v_model := {| memories := ms |}; v_outputs := outs; v_result_commitment := sha256 encoded |}.
  apply validate_partition_Ok. split; [done|]. exists preds. split; try done.
  - by apply check_snapshot_spec.
  - split; [done|]. split; [cbn; rewrite Hperm; apply (so_atoms _ Hok)|]. cbn. intros x Hx.
    split; [|apply not_elem_of_nil]. apply elem_of_expected. by rewrite <- Hperm.
  - cbn. apply bset_ext; [apply fold_bset_add_wf; constructor|apply expected_wf|].
    intros x. rewrite fold_bset_add_elem, elem_of_expected, Hperm. set_solver.
  - cbn. eauto.
Qed.

(** What the conservative partition of a cohort is. *)
Lemma conservative_partition_spec snapshot :
  snapshot_ok snapshot -> s_drafts snapshot <> [] ->
  exists ms, conservative_partition snapshot = Ok {| memories := settle_memory <$> ms |}
    /\ Forall2 extends (draft_memory <$> s_drafts snapshot) ms
    /\ Permutation (ms ≫= m_source_ids) (a_source_id <$> s_atoms snapshot)
    /\ (orphans snapshot = [] -> ms = draft_memory <$> s_drafts snapshot).
Proof.
  intros Hok Hd. unfold conservative_partition.
  destruct (place_orphans (s_drafts snapshot) (orphans snapshot) (draft_memory <$> s_drafts snapshot)
              (draft_memory <$> s_drafts snapshot) Hd) as (ms & Hms & Hext & Hperm).
  - by rewrite length_fmap.
  - apply Forall2_same_length_lookup_2; [done|]. intros i a b Ha Hb. rewrite Ha in Hb. injection Hb as <-.
    apply extends_refl.
  - exists ms. rewrite Hms. split; [done|]. split; [done|]. split.
    + rewrite Hperm, draft_memories_sources. by apply owned_and_orphans.
    + intros E. rewrite E in Hms. cbn in Hms. by injection Hms as <-.
Qed.

Lemma filter_singleton {A} (f : A -> bool) (l : list A) k x :
  l !! k = Some x -> f x = true -> (forall j y, l !! j = Some y -> f y = true -> j = k) ->
  List.filter f l = [x].
Proof.
  revert k; induction l as [|z l IH]; intros k Hk Hf Hu; [done|]. simpl.
  destruct k as [|k]; simpl in Hk.
  - injection Hk as ->. rewrite Hf. f_equal.
    destruct (List.filter f l) as [|y r] eqn:E; [done|]. exfalso.
    assert (y ∈ List.filter f l) as Hy by (rewrite E; left).
    apply elem_of_filter_bool in Hy as [[j Hj]%list_elem_of_lookup_1 Hfy].
    specialize (Hu (S j) y Hj Hfy). done.
  - destruct (f z) eqn:Ez; [specialize (Hu 0%nat z eq_refl Ez); done|].
    apply (IH k Hk Hf). intros j y Hj Hy. specialize (Hu (S j) y Hj Hy). lia.
Qed.

(** Sources are owned by one draft. *)
Lemma owner_unique (drafts : list ReconciliationDraft) i j d e x :
  NoDup (drafts ≫= d_member_source_ids) ->
  drafts !! i = Some d -> drafts !! j = Some e -> x ∈ d_member_source_ids d -> x ∈ d_member_source_ids e -> i = j.
Proof.
  revert i j; induction drafts as [|z drafts IH]; intros i j Hnd Hi Hj Hx Hy; [done|].
  rewrite bind_cons in Hnd. apply NoDup_app in Hnd as (_ & Hd & Hnd).
  destruct i as [|i], j as [|j]; simpl in *; simplify_eq; try done.
  - exfalso. apply (Hd x Hx). apply list_elem_of_bind. exists e. split; [done|by apply list_elem_of_lookup_2 in Hj].
  - exfalso. apply (Hd x Hy). apply list_elem_of_bind. exists d. split; [done|by apply list_elem_of_lookup_2 in Hi].
  - f_equal. by apply IH.
Qed.

(** An output that is exactly a draft descends from that draft alone. *)
Lemma contributing_exact snapshot e j ps :
  snapshot_ok snapshot -> s_drafts snapshot !! j = Some e ->
  contributing snapshot (bset_of_list (d_member_source_ids e)) = Ok ps -> ps = [d_id e].
Proof.
  intros Hok He. unfold contributing.
  rewrite (filter_singleton _ (s_drafts snapshot) j e He); [by intros [= <-]| |].
  - rewrite source_map_lookup by (done || by apply list_elem_of_lookup_2 in He).
    apply negb_true_iff, is_disjoint_false; [apply bset_of_list_wf|].
    pose proof (so_nonempty _ Hok) as Hne. rewrite Forall_lookup in Hne. specialize (Hne j e He).
    destruct (d_member_source_ids e) as [|x l]; [done|]. exists x.
    cbn [default from_option]. unfold id. rewrite !elem_of_bset_of_list. split; left.
  - intros i d Hi Hd. rewrite source_map_lookup in Hd by (done || by apply list_elem_of_lookup_2 in Hi).
    apply negb_true_iff, is_disjoint_false in Hd as (x & Hx & Hx'); [|apply bset_of_list_wf].
    cbn [default from_option] in Hx. unfold id in Hx. rewrite elem_of_bset_of_list in Hx.
    rewrite elem_of_bset_of_list in Hx'. by apply (owner_unique _ i j d e x (so_owned _ Hok)).
Qed.

(** The conservative partition always works.  On every well-formed cohort
    of at most 32 drafts whose evidence has readable times, the fallback
    succeeds and its partition validates: one output per draft, in order,
    holding all the draft's sources; and when every atom is owned by a draft,
    each output is exactly its draft and keeps the draft's identity, so the
    fallback changes no memory. *)
Theorem conservative_keep_validates sha256 to_vec snapshot :
  snapshot_ok snapshot -> timed snapshot -> s_drafts snapshot <> [] ->
  Z.of_nat (length (s_drafts snapshot)) <= MAX_OUTPUTS ->
  (forall value, is_Some (to_vec value)) ->
  exists model v, conservative_partition snapshot = Ok model
    /\ validate_partition sha256 to_vec snapshot model = Ok v
    /\ length (v_outputs v) = length (s_drafts snapshot)
    /\ (forall k d p, s_drafts snapshot !! k = Some d -> v_outputs v !! k = Some p ->
          forall x, x ∈ d_member_source_ids d -> x ∈ p_member_source_ids p)
    /\ (orphans snapshot = [] -> forall k d p, s_drafts snapshot !! k = Some d -> v_outputs v !! k = Some p ->
          p_member_source_ids p = bset_of_list (d_member_source_ids d)
          /\ p_retained_episode_id p = Some (d_id d)).
Proof.
  intros Hok Ht Hd Hb Henc.
  destruct (conservative_partition_spec snapshot Hok Hd) as (ms & Hc & Hext & Hperm & Hno).
  assert (NoDup (ms ≫= m_source_ids)) as Hnd by (rewrite Hperm; apply (so_atoms _ Hok)).
  pose proof (Forall2_length _ _ _ Hext) as Hlen. rewrite length_fmap in Hlen.
  assert (s_atoms snapshot <> []) as Ha.
  { intros E. destruct (s_drafts snapshot) as [|d ds] eqn:Eds; [done|].
    pose proof (so_nonempty _ Hok) as Hne. rewrite Eds in Hne. apply Forall_cons in Hne as [Hne _].
    destruct (d_member_source_ids d) as [|x l] eqn:El; [done|].
    assert (x ∈ expected_sources snapshot) as Hx.
    { apply (so_known _ Hok), list_elem_of_bind. exists d. rewrite El, Eds. split; left. }
    apply elem_of_expected in Hx. rewrite E in Hx. by apply not_elem_of_nil in Hx. }
  destruct (validate_total sha256 to_vec snapshot (settle_memory <$> ms)) as [v Hv]; try done.
  - destruct ms; [|done]. destruct (s_drafts snapshot); done.
  - rewrite length_fmap, <- Hlen. done.
  - apply Forall_fmap, Forall_lookup. intros k m Hm. cbn.
    destruct (Forall2_lookup_r _ _ _ k m Hext Hm) as (m0 & Hm0 & Hx).
    apply list_lookup_fmap_Some_1 in Hm0 as (d & -> & Hdk). split.
    + apply (settle_well_formed m (draft_memory d) Hx). cbn.
      pose proof (so_nonempty _ Hok) as Hne. rewrite Forall_lookup in Hne. by apply (Hne k d).
    + destruct Hx as (more & _ & _ & _ & _ & Htl). cbn in Htl. rewrite Htl. constructor.
  - by rewrite settled_sources, Hperm.
  - apply Henc.
  - exists {| memories := settle_memory <$> ms |}, v. split; [done|]. split; [done|].
    pose proof Hv as (_ & preds & Hparts)%validate_partition_Ok.
    pose proof (outputs_length _ _ _ _ _ _ Hparts) as Hol. cbn in Hol. rewrite length_fmap, <- Hlen in Hol.
    split; [done|].
    assert (forall k d p, s_drafts snapshot !! k = Some d -> v_outputs v !! k = Some p ->
              exists m, ms !! k = Some m /\ extends (draft_memory d) m
                /\ p_member_source_ids p = bset_of_list (bset_of_list (m_source_ids m))) as Hpm.
    { intros k d p Hdk Hp. destruct (output_parts _ _ _ _ _ _ _ _ Hparts Hp) as (m' & ps & Hm' & _ & _ & Hpo).
      cbn in Hm'. apply list_lookup_fmap_Some_1 in Hm' as (m & -> & Hm).
      apply plan_output_inv in Hpo as (-> & _). exists m. split; [done|]. split; [|done].
      apply (Forall2_lookup_lr _ _ _ k _ _ Hext); [|done]. by rewrite list_lookup_fmap, Hdk. }
    split.
    + intros k d p Hdk Hp x Hx. destruct (Hpm k d p Hdk Hp) as (m & _ & (more & Hs & _) & ->).
      rewrite !elem_of_bset_of_list, Hs. cbn. set_solver.
    + intros Horph k d p Hdk Hp.
      pose proof (Hno Horph) as Ems. clear Hno.
      assert (forall j e q, s_drafts snapshot !! j = Some e -> v_outputs v !! j = Some q ->
                p_member_source_ids q = bset_of_list (d_member_source_ids e)) as Hmem.
      { intros j e q He Hq. destruct (Hpm j e q He Hq) as (m & Hm & _ & ->). rewrite Ems in Hm.
        rewrite list_lookup_fmap, He in Hm. injection Hm as <-.
        cbn [draft_memory m_source_ids]. apply bset_ext; [apply bset_of_list_wf..|]. intros x. by rewrite !elem_of_bset_of_list. }
      split; [by apply (Hmem k)|].
      assert (forall j e q, s_drafts snapshot !! j = Some e -> v_outputs v !! j = Some q ->
                p_predecessor_episode_ids q = [d_id e]) as Hpre.
      { intros j e q He Hq. destruct (output_parts _ _ _ _ _ _ _ _ Hparts Hq) as (m & ps & _ & _ & Hcon & Hpo).
        apply plan_output_inv in Hpo as (Hqm & Hqp & _). rewrite Hqp. rewrite <- Hqm, (Hmem j e q He Hq) in Hcon.
        by apply (contributing_exact snapshot e j ps Hok He). }
      apply (retained_spec sha256 to_vec snapshot _ v k p (d_id d) Hv Hp).
      split; [by apply (Hpre k)|]. split; [exists d; split; [by apply list_elem_of_lookup_2 in Hdk|]; split; [done|by apply (Hmem k)]|].
      intros j q Hq Hin. assert (is_Some (s_drafts snapshot !! j)) as [e He].
      { apply lookup_lt_is_Some. rewrite <- Hol. by eapply lookup_lt_Some. }
      rewrite (Hpre j e q He Hq) in Hin. apply list_elem_of_singleton in Hin.
      eapply (NoDup_lookup (d_id <$> s_drafts snapshot)); [apply (so_drafts _ Hok)|rewrite list_lookup_fmap, He; done|].
      rewrite list_lookup_fmap, Hdk. cbn. by rewrite Hin.
Qed.

(** ** Staging and reading back *)

Lemma decode_item_to_value i : decode_item (item_to_value i) = Some i.
Proof.
  unfold decode_item, item_to_value. destruct i as [ids gist].
  change (struct_fields ["source_ids"; "gist"]%string _) with (Some [of_strs ids; VString gist]).
  cbn [t_source_ids t_gist]. by rewrite decode_strs_of_strs.
Qed.

Lemma decode_memory_to_value m : decode_memory (memory_to_value m) = Some m.
Proof.
  unfold decode_memory, memory_to_value. destruct m as [ids ty title summary languages actions timeline].
  change (struct_fields _ _) with (Some [of_strs ids; VString ty; VString title; VString summary;
    of_strs languages; of_strs actions; VArray (item_to_value <$> timeline)]).
  cbn [as_str]. rewrite !decode_strs_of_strs. unfold decode_list.
  by rewrite sequence_map_inj by (intros; apply decode_item_to_value).
Qed.

Lemma decode_partition_to_value p : decode_partition (partition_to_value p) = Some p.
Proof.
  unfold decode_partition, partition_to_value. destruct p as [ms].
  change (struct_fields _ _) with (Some [VArray (memory_to_value <$> ms)]). unfold decode_list.
  by rewrite sequence_map_inj by (intros; apply decode_memory_to_value).
Qed.

Lemma value_eqb_rows (rows : list (str * str)) :
  value_eqb (VArray (minute_row <$> rows)) (VArray (minute_row <$> rows)) = true.
Proof.
  induction rows as [|[start gist] rows IH]; [done|]. rewrite fmap_cons.
  change (value_eqb (VArray (minute_row (start, gist) :: (minute_row <$> rows)))
                    (VArray (minute_row (start, gist) :: (minute_row <$> rows))))
    with (value_eqb (minute_row (start, gist)) (minute_row (start, gist))
          && value_eqb (VArray (minute_row <$> rows)) (VArray (minute_row <$> rows))).
  rewrite IH, andb_true_r.
  change (minute_row (start, gist)) with (VObject [(lit "gist", VString gist); (lit "start", VString start)]).
  cbn [value_eqb fst snd]. by rewrite !str_eqb_refl.
Qed.

Definition row_summaries (p : PlannedMemory) : Prop :=
  exists rows : list (str * str), p_minute_summaries p = VArray (minute_row <$> rows).

Lemma plan_output_rows snapshot outs_of n m s ps p :
  plan_output snapshot outs_of n m s ps = Ok p -> row_summaries p.
Proof.
  unfold plan_output. rewrite result_bind_Ok. intros (started & _ & H).
  apply result_bind_Ok in H as (last & _ & H). injection H as <-. eexists. reflexivity.
Qed.

Lemma retained_labels_inside authored members :
  labels_escape members (retain_labels authored members) = false.
Proof.
  unfold labels_escape. apply existsb_false. intros l Hl. apply existsb_false. intros id Hid.
  apply negb_false_iff, bool_decide_eq_true.
  unfold retain_labels in Hl. cbn in Hl. apply elem_of_filter_bool in Hl as [Hl _].
  apply list_elem_of_fmap in Hl as (l0 & -> & _). cbn in Hid.
  apply elem_of_filter_bool in Hid as [_ Hid]. by apply bool_decide_eq_true in Hid.
Qed.

(** The outputs staged with the provider's labels are the outputs recomputed
    without labels, once the frozen labels are taken over. *)
Lemma publication_adopt n outs model authored ws :
  publication_outputs_from n outs model authored = Ok ws ->
  exists ws0, publication_outputs_from n outs model default_labels = Ok ws0
    /\ adopt_labels ws0 ws = Ok ws.
Proof.
  revert n ws; induction outs as [|p outs IH]; intros n ws.
  - intros [= <-]. by exists [].
  - cbn [publication_outputs_from]. unfold publication_output. rewrite result_bind_Ok.
    intros (w & Hw & H). apply result_bind_Ok in Hw as (o & Ho & [= <-]).
    apply result_bind_Ok in H as (rest & Hrest & [= <-]).
    destruct (IH (S n) rest Hrest) as (ws0 & H0 & Ha). rewrite Ho, H0. cbn [result_bind].
    eexists. split; [reflexivity|]. cbn [adopt_labels w_member_source_ids w_authored_labels].
    rewrite retained_labels_inside, Ha. reflexivity.
Qed.

Lemma writes_eqb_refl n outs model authored ws :
  Forall row_summaries outs ->
  publication_outputs_from n outs model authored = Ok ws -> list_eqb write_eqb ws ws = true.
Proof.
  intros Hf. revert n ws; induction Hf as [|p outs [rows Hrows] Hf IH]; intros n ws.
  - by intros [= <-].
  - cbn [publication_outputs_from]. unfold publication_output. rewrite result_bind_Ok.
    intros (w & Hw & H). apply result_bind_Ok in Hw as (o & Ho & [= <-]).
    apply result_bind_Ok in H as (rest & Hrest & [= <-]). cbn [list_eqb].
    rewrite (IH (S n) rest Hrest), andb_true_r. unfold write_eqb.
    rewrite bool_decide_eq_true_2 by done. cbn [w_minute_summaries andb]. rewrite Hrows. apply value_eqb_rows.
Qed.

(** What the store keeps of a stage, for the cohort it was staged under. *)
Definition stores (sha256 : bytes -> bytes) (to_vec : Value -> option bytes)
  (snapshot : ReconciliationSnapshot) (stage : ReconciliationStageWrite) (staged : StagedReconciliation) : Prop :=
  st_account_id staged = s_account_id snapshot
  /\ st_source_fingerprint staged = s_source_fingerprint snapshot
  /\ st_predecessor_episode_ids staged = s_predecessor_episode_ids snapshot
  /\ st_normalized_partition staged = sw_normalized_partition stage
  /\ st_result_commitment staged = sw_result_commitment stage
  /\ st_planned_outputs staged = sw_planned_outputs stage
  /\ reconciliation_outputs_commitment sha256 to_vec (sw_planned_outputs stage)
       = Ok (st_planned_outputs_commitment staged)
  /\ st_model staged = sw_model stage
  /\ st_vertex_event_id staged = sw_vertex_event_id stage
  /\ st_reconciliation_version staged = sw_reconciliation_version stage
  /\ st_prompt_version staged = sw_prompt_version stage
  /\ st_partition_schema_version staged = sw_partition_schema_version stage
  /\ st_validator_version staged = sw_validator_version stage.


(** ** The model input is bounded *)

Definition total_length (l : list str) : nat := foldr (fun s n => (length s + n)%nat) 0%nat l.

Lemma atom_contexts_budget budget atoms :
  (total_length (atom_contexts budget atoms) <= S budget)%nat
  /\ length (atom_contexts budget atoms) = length atoms.
Proof.
  revert budget; induction atoms as [|a atoms IH]; intros budget; [cbn; lia|].
  cbn [atom_contexts]. set (cap := Nat.min MAX_CONTEXT_CHARS budget).
  set (context := if Nat.eqb cap 0 then [] else bounded (a_context a) cap).
  assert (length context <= S cap /\ (cap = 0 -> length context = 0))%nat as [Hc H0].
  { unfold context. destruct (Nat.eqb cap 0) eqn:E; [simpl; lia|].
    split; [apply bounded_length|]. apply Nat.eqb_neq in E. lia. }
  destruct (IH (budget - length context)%nat) as [IH1 IH2].
  cbn [total_length foldr length]. fold (total_length (atom_contexts (budget - length context) atoms)).
  split; [|by rewrite IH2]. destruct (decide (length context <= budget)%nat) as [Hle|Hgt]; [lia|].
  (* the budget is spent: every later context is empty *)
  replace (budget - length context)%nat with 0%nat by lia.
  assert (forall l, total_length (atom_contexts 0 l) = 0%nat) as ->; [|unfold cap in *; lia].
  clear. induction l as [|x l IH]; [done|]. cbn [atom_contexts]. rewrite Nat.min_0_r. exact IH.
Qed.

(** What the provider is shown is bounded.  The contexts of all atoms
    together never exceed the total budget by more than the one mark of a
    cut, whatever the cohort, one context per atom; and a rendered input
    larger than the byte bound is refused, never sent. *)
Theorem model_input_bounded to_string snapshot :
  (total_length (atom_contexts MAX_CONTEXT_TOTAL_CHARS (s_atoms snapshot)) <= S MAX_CONTEXT_TOTAL_CHARS)%nat
  /\ length (atom_contexts MAX_CONTEXT_TOTAL_CHARS (s_atoms snapshot)) = length (s_atoms snapshot)
  /\ match render_model_input to_string snapshot with
     | Ok encoded => to_string (model_input snapshot) = Some encoded /\ byte_len encoded <= MAX_MODEL_INPUT_BYTES
     | Err e => e = Json /\ to_string (model_input snapshot) = None
                \/ (exists encoded, to_string (model_input snapshot) = Some encoded
                      /\ MAX_MODEL_INPUT_BYTES < byte_len encoded)
     end.
Proof.
  destruct (atom_contexts_budget MAX_CONTEXT_TOTAL_CHARS (s_atoms snapshot)) as [H1 H2].
  split; [exact H1|]. split; [exact H2|]. unfold render_model_input.
  destruct (to_string (model_input snapshot)) as [encoded|] eqn:E; cbn [ok_or result_bind]; [|by left].
  destruct (MAX_MODEL_INPUT_BYTES <? byte_len encoded) eqn:Eb; bool_prop; eauto.
Qed.

(** ** A concrete cohort *)

Definition sample_draft (id : Z) (sources : list string) : ReconciliationDraft := {|
  d_id := id; d_started_at := lit "2026-08-30T12:00:00.000Z"; d_ended_at := lit "2026-08-30T12:30:00.000Z";
  d_episode_type := Some (lit "other"); d_title := lit "Draft"; d_summary := Some (lit "Summary");
  d_participants := []; d_languages := []; d_action_items := []; d_model := None;
  d_minute_summaries := VArray []; d_minutes_text := None; d_substance := lit "normal";
  d_visual_evidence := lit "none"; d_updated_at := None; d_identity_revision := 0;
  d_member_source_ids := lit <$> sources |}.

Definition sample_atom (source : string) (id : Z) : ReconciliationEvidenceAtom := {|
  a_source_id := lit source; a_record_type := lit "utterance"; a_record_id := id;
  a_started_at := lit "2026-08-30T12:00:00.000Z"; a_ended_at := lit "2026-08-30T12:00:01.000Z";
  a_context := lit "hello" |}.

Definition sample_cohort : ReconciliationSnapshot := {|
  s_authored_labels := default_labels; s_account_id := lit "account";
  s_cohort_started_at := lit "2026-08-30T12:00:00.000Z"; s_cohort_ended_at := lit "2026-08-30T12:30:00.000Z";
  s_predecessor_episode_ids := [1; 2];
  s_drafts := [sample_draft 1 ["utterance:1"; "utterance:2"]%string; sample_draft 2 ["utterance:3"%string]];
  s_atoms := [sample_atom "utterance:1" 1; sample_atom "utterance:2" 2; sample_atom "utterance:3" 3];
  s_capture_session_ids := []; s_source_fingerprint := replicate 32 0%N; s_topology_fingerprint := [];
  s_archive_revision := 1; s_memory_language := lit "en" |}.

Definition sample_to_vec (v : Value) : option bytes := Some [].
Definition sample_sha (b : bytes) : bytes := b.

(** The model keeps the second draft and splits the first. *)
Definition sample_memory (sources : list string) : ModelMemory := {|
  m_source_ids := lit <$> sources; m_episode_type := lit "call"; m_title := lit "Title";
  m_summary := lit "Summary"; m_languages := []; m_action_items := []; m_timeline := [] |}.

Definition sample_partition : ModelPartition := {| memories :=
  [sample_memory ["utterance:3"%string]; sample_memory ["utterance:1"%string]; sample_memory ["utterance:2"%string]] |}.

Definition sample_validated : ValidatedPartition :=
  match validate_partition sample_sha sample_to_vec sample_cohort sample_partition with
  | Ok v => v
  | Err _ => {| v_model := sample_partition; v_outputs := []; v_result_commitment := [] |}
  end.

Lemma partition_is_exhaustive_witness :
  length (v_outputs sample_validated) = 3%nat
  /\ Permutation (concat (p_member_source_ids <$> v_outputs sample_validated))
       (a_source_id <$> s_atoms sample_cohort).
Proof.
  split; [vm_compute; reflexivity|].
  apply (partition_is_exhaustive sample_sha sample_to_vec sample_cohort sample_partition sample_validated).
  vm_compute. reflexivity.
Defined.

Lemma partition_lineage_total_witness :
  exists p, p ∈ v_outputs sample_validated /\ 2 ∈ p_predecessor_episode_ids p.
Proof.
  destruct (partition_lineage_total sample_sha sample_to_vec sample_cohort sample_partition sample_validated)
    as (_ & _ & H); [vm_compute; reflexivity|].
  apply H. simpl. set_solver.
Defined.

Lemma retained_iff_unchanged_witness :
  exists p, v_outputs sample_validated !! 0%nat = Some p /\ p_predecessor_episode_ids p = [2].
Proof.
  eexists. split; [vm_compute; reflexivity|].
  apply (retained_iff_unchanged sample_sha sample_to_vec sample_cohort sample_partition sample_validated 0);
    vm_compute; reflexivity.
Defined.

Lemma conservative_keep_validates_witness :
  exists model v, conservative_partition sample_cohort = Ok model
    /\ validate_partition sample_sha sample_to_vec sample_cohort model = Ok v
    /\ length (v_outputs v) = 2%nat.
Proof.
  destruct (conservative_keep_validates sample_sha sample_to_vec sample_cohort) as (model & v & H1 & H2 & H3 & _).
  - apply check_snapshot_spec. vm_compute. reflexivity.
  - unfold timed. repeat constructor; vm_compute; eauto.
  - done.
  - vm_compute. discriminate.
  - intros value. unfold sample_to_vec. eauto.
  - exists model, v. split; [exact H1|]. split; [exact H2|exact H3].
Defined.

Definition sample_stage : res ReconciliationStageWrite :=
  build_stage sample_validated (lit "model") (Some (lit "event")) None None default_labels.

Definition sample_staged (stage : ReconciliationStageWrite) : StagedReconciliation := {|
  st_account_id := lit "account"; st_source_fingerprint := replicate 32 0%N; st_topology_fingerprint := [];
  st_predecessor_episode_ids := [1; 2]; st_normalized_partition := sw_normalized_partition stage;
  st_result_commitment := sw_result_commitment stage; st_planned_outputs := sw_planned_outputs stage;
  st_planned_outputs_commitment :=
    match reconciliation_outputs_commitment sample_sha sample_to_vec (sw_planned_outputs stage) with
    | Ok c => c | Err _ => [] end;
  st_model := sw_model stage; st_vertex_event_id := sw_vertex_event_id stage;
  st_provider_attempt_identity := None; st_provider_invocation_fingerprint := None;
  st_reconciliation_version := sw_reconciliation_version stage; st_prompt_version := sw_prompt_version stage;
  st_partition_schema_version := sw_partition_schema_version stage;
  st_validator_version := sw_validator_version stage;
  st_activation_generation := 1; st_producer_contract_sha256 := []; st_reconciliation_model := lit "model";
  st_vertex_location := lit "europe" |}.

