(* ===== verification/Ocr.v ===== *)
(** * OCR projections

    [ocr.rs]: the bounded salient projection of recognised screen text and
    the conservative title facts the summariser grounds deictic speech in. *)
From Stdlib Require Import ZArith Lia.
From S2P Require Import Prelude OrdMap Text.
Local Open Scope Z_scope.

Definition MAX_SALIENT_LINES : nat := 24.
Definition MAX_SALIENT_CHARS : Z := 1500.
Definition MAX_FACTS : nat := 8.

Definition GENERIC_CHROME : list string :=
  ["apple"; "file"; "edit"; "view"; "history"; "bookmarks"; "develop"; "window"; "help"; "search";
   "home"; "library"; "store"; "account"; "actions"; "controls"; "recently added";
   "family sharing"; "genres"; "playlist"; "movies"; "tv shows"; "downloaded"; "formula 1"; "mls";
   "sign out"]%string.

Definition TITLE_CHROME : list string :=
  ["top results"; "recently added"; "family sharing"; "apple tv"; "tv shows"; "movie collection";
   "key screens"; "raw transcript"; "kioku cloud dashboard"]%string.

Definition compact (line : str) : str := join [space] (split_whitespace line).

Record Candidate := { c_index : nat; c_text : str; c_score : Z }.

Section Ocr.
Context `{Unicode}.

Definition contains_plural_deictic (text : str) : bool :=
  let value := to_lowercase text in
  contains (lit "these are the two") value
  || contains (lit "these two") value
  || contains (lit "both of these") value
  || contains (lit "the two shown") value
  || (contains (lit "two movies") value && contains (lit "these") value)
  || contains (lit "ces deux") value
  || contains (lit "voici les deux") value.

Definition contains_singular_deictic (text : str) : bool :=
  let value := to_lowercase text in
  contains (lit "this one") value || contains (lit "celui-ci") value || contains (lit "celle-ci") value.

Definition word_break (c : char) : bool :=
  negb (is_alphanumeric c) && negb (N.eqb c 39) && negb (N.eqb c (ch "&")).

Definition words_lower (line : str) : list str :=
  to_lowercase <$> List.filter (fun word => negb (is_empty word)) (split_by word_break line).

Definition count_if {A} (p : A -> bool) (l : list A) : nat := length (List.filter p l).

Definition is_boilerplate (line : str) : bool :=
  let normalized := to_lowercase line in
  if one_of normalized GENERIC_CHROME then true
  else if str_eqb normalized (lit "me")
          || match strip_prefix (lit "speaker ") normalized with
             | Some suffix => forallb is_ascii_digit suffix
             | None => false
             end
  then true
  else
    let words := words_lower line in
    if is_empty words then true
    else
      let chrome_count := count_if (fun word => one_of word GENERIC_CHROME) words in
      let chrome_phrase_count := count_if (fun phrase => contains (lit phrase) normalized) GENERIC_CHROME in
      ((4 <=? length words)%nat && (length words <=? chrome_count * 2)%nat)
      || ((6 <=? length words)%nat && (4 <=? chrome_phrase_count)%nat).

Definition title_score (line : str) : Z :=
  let letters := List.filter is_alphabetic line in
  let words := words_lower line in
  let uppercase := negb (is_empty letters) && forallb is_uppercase letters in
  let title_case :=
    (2 <=? length words)%nat
    && (2 <=? count_if is_uppercase
                (omap (fun word => List.find is_alphabetic word) (split_whitespace line)))%nat in
  let few := (2 <=? length words)%nat && (length words <=? 10)%nat in
  (if uppercase && few then 8 else 0)
  + (if title_case && few then 3 else 0)
  + (if contains (lit "Movie") line || contains (lit "Film") line || contains (lit "Document") line
     then 2 else 0)
  + (if byte_len line <=? 90 then 1 else 0).

(** One round of the candidate loop. *)
Definition add_candidate_line (state : bset str * list Candidate) (entry : nat * str) :
  bset str * list Candidate :=
  let (seen, candidates) := state in
  let line := compact entry.2 in
  let normalized := to_lowercase line in
  if (char_count line <? 2) || is_boilerplate line then state
  else if bset_mem normalized seen then state
  else
    let seen := bset_add normalized seen in
    if (count_if is_alphanumeric line <? 2)%nat then (seen, candidates)
    else (seen, candidates ++ [{| c_index := entry.1; c_text := line; c_score := title_score line |}]).

Definition salient_candidates (raw : str) : list Candidate :=
  let ls := lines_of raw in
  snd (fold_left add_candidate_line (zip (seq 0 (length ls)) ls) ([], [])).

(** The best candidates, back in reading order. *)
Definition best_candidates (candidates : list Candidate) : list Candidate :=
  sort_by_key (fun c => Z.of_nat (c_index c))
    (take MAX_SALIENT_LINES
       (sort_by_key (fun c => (- c_score c, Z.of_nat (c_index c))) candidates)).

(** The output loop: [chars] counts the characters and separators so far. *)
Fixpoint salient_lines (candidates : list Candidate) (empty : bool) (chars : Z) : list str :=
  match candidates with
  | [] => []
  | candidate :: rest =>
    let separator := if empty then 0 else 1 in
    if MAX_SALIENT_CHARS <=? chars + separator then []
    else
      let remaining := MAX_SALIENT_CHARS - chars - separator in
      let line := take (Z.to_nat remaining) (c_text candidate) in
      if is_empty line then salient_lines rest empty chars
      else line :: salient_lines rest false (chars + (separator + char_count line))
  end.

Definition salient_ocr_from_raw (raw : str) : option str :=
  let output := salient_lines (best_candidates (salient_candidates raw)) true 0 in
  if is_empty output then None else Some (join [newline] output).

Definition select_salient_ocr (raw provided : option str) : option str :=
  match provided with
  | Some value =>
    let value := trim value in
    if is_empty value then raw ≫= salient_ocr_from_raw else Some (take 4000 value)
  | None => raw ≫= salient_ocr_from_raw
  end.

(** [value.find(" Movie")], as the characters before it. *)
Fixpoint before_movie (s : str) : str :=
  if starts_with (lit " Movie") s then []
  else match s with [] => [] | c :: s' => c :: before_movie s' end.

(** Dropping a prefix found case-insensitively: the slice takes the prefix's
    byte length off the original text, and panics ([None]) off a boundary. *)
Definition drop_prefix (prefix value : str) : option str :=
  if starts_with (to_lowercase prefix) (to_lowercase value)
  then snd <$> split_at_bytes (byte_len prefix) value
  else Some value.

Definition clean_fact (line : str) : option (option str) :=
  let value := trim_matches word_break (compact line) in
  match drop_prefix (lit "Top Results ") value ≫= drop_prefix (lit "Recently Added ") with
  | None => None
  | Some value =>
    let value := before_movie value in
    let normalized := to_lowercase value in
    Some (if (char_count value <? 3) || (90 <? char_count value)
             || one_of normalized TITLE_CHROME || is_boilerplate value
          then None else Some value)
  end.

Definition is_media_metadata (next : str) : bool :=
  let value := to_lowercase (compact next) in
  starts_with (lit "movie ") value || starts_with (lit "film ") value
  || contains (ulit "• movie") value.

(** The loop over the lines; it stops at [MAX_FACTS] facts. *)
Fixpoint fact_loop (ls : list str) (seen : bset str) (facts : list str) : option (list str) :=
  match ls with
  | [] => Some facts
  | line :: rest =>
    let compacted := compact line in
    let next_is_media_metadata := match rest with next :: _ => is_media_metadata next | [] => false end in
    if (title_score compacted <? 7) && negb next_is_media_metadata then fact_loop rest seen facts
    else match clean_fact compacted with
    | None => None
    | Some None => fact_loop rest seen facts
    | Some (Some fact) =>
      let normalized := to_lowercase fact in
      let new := negb (bset_mem normalized seen) in
      let facts := if new then facts ++ [fact] else facts in
      if (length facts =? MAX_FACTS)%nat then Some facts
      else fact_loop rest (bset_add normalized seen) facts
    end
  end.

(** [None] is the panic of the slice in [clean_fact]. *)
Definition extract_screen_facts (text : str) : option (list str) := fact_loop (lines_of text) [] [].

(** ** Properties *)

(** What a candidate keeps of the line it was read from. *)
Definition candidate_of_line (ls : list (nat * str)) (c : Candidate) : Prop :=
  exists raw_line, (c_index c, raw_line) ∈ ls /\ c_text c = compact raw_line
                   /\ is_boilerplate (c_text c) = false.

Lemma candidates_spec ls seen candidates :
  exists fresh, snd (fold_left add_candidate_line ls (seen, candidates)) = candidates ++ fresh
    /\ (c_index <$> fresh) `sublist_of` ls.*1 /\ Forall (candidate_of_line ls) fresh.
Proof.
  revert seen candidates; induction ls as [|entry ls IH]; intros seen candidates.
  { exists []; cbn; rewrite app_nil_r; auto using sublist_nil_l. }
  assert (skip : forall seen' candidates', exists fresh,
             snd (fold_left add_candidate_line ls (seen', candidates')) = candidates' ++ fresh
             /\ (c_index <$> fresh) `sublist_of` ls.*1 /\ Forall (candidate_of_line (entry :: ls)) fresh).
  { intros seen' candidates'; destruct (IH seen' candidates') as (fresh & E & sub & ok).
    exists fresh; split_and!; [exact E | exact sub |].
    eapply Forall_impl; [exact ok |]; intros c (r & ? & ?); exists r; rewrite elem_of_cons; auto. }
  assert (skip' : forall seen', exists fresh,
             snd (fold_left add_candidate_line ls (seen', candidates)) = candidates ++ fresh
             /\ (c_index <$> fresh) `sublist_of` (entry :: ls).*1
             /\ Forall (candidate_of_line (entry :: ls)) fresh).
  { intros seen'; destruct (skip seen' candidates) as (fresh & ? & ? & ?).
    exists fresh; split_and!; auto; rewrite fmap_cons; by apply sublist_cons. }
  cbn [fold_left]; unfold add_candidate_line at 2; cbv zeta.
  destruct (_ || is_boilerplate _) eqn:B; [apply skip' |].
  destruct (bset_mem _ _); [apply skip' |].
  destruct (_ <? 2)%nat; [apply skip' |].
  destruct (skip (bset_add (to_lowercase (compact entry.2)) seen)
              (candidates ++ [{| c_index := entry.1; c_text := compact entry.2;
                                 c_score := title_score (compact entry.2) |}])) as (fresh & E & sub & ok).
  eexists; split_and!; [rewrite E, <- app_assoc; reflexivity | |].
  - rewrite !fmap_cons; by apply sublist_skip.
  - constructor; [| exact ok].
    apply orb_false_iff in B as [_ B]; exists entry.2; cbn; rewrite elem_of_cons; destruct entry; auto.
Qed.

Lemma salient_candidates_spec raw :
  let ls := zip (seq 0 (length (lines_of raw))) (lines_of raw) in
  NoDup (c_index <$> salient_candidates raw) /\ Forall (candidate_of_line ls) (salient_candidates raw).
Proof.
  intros ls; destruct (candidates_spec ls [] []) as (fresh & E & sub & ok).
  assert (E' : salient_candidates raw = fresh) by exact E; rewrite E'; split; [| exact ok].
  eapply sublist_NoDup; [| exact sub]; unfold ls; rewrite fst_zip by (rewrite length_seq; lia).
  apply NoDup_seq.
Qed.

Lemma best_candidates_spec candidates :
  NoDup (c_index <$> candidates) ->
  StronglySorted lt (c_index <$> best_candidates candidates)
  /\ best_candidates candidates ⊆ candidates /\ (length (best_candidates candidates) <= 24)%nat.
Proof.
  intros nd; set (top := take MAX_SALIENT_LINES
      (sort_by_key (fun c => (- c_score c, Z.of_nat (c_index c))) candidates)).
  assert (top_nd : NoDup (c_index <$> top)).
  { unfold top; rewrite fmap_take; eapply sublist_NoDup; [| apply sublist_take].
    unfold sort_by_key; by rewrite sort_by_perm. }
  assert (perm : Permutation (best_candidates candidates) top) by apply sort_by_perm.
  split_and!.
  - rewrite <- perm in top_nd; revert top_nd.
    pose proof (sort_by_key_sorted (fun c => Z.of_nat (c_index c)) top) as sorted.
    change (sort_by_key _ top) with (best_candidates candidates) in sorted.
    clear perm; induction sorted as [|c cs sorted IH le]; intros nd'; [constructor |].
    rewrite fmap_cons in *; apply NoDup_cons in nd' as [fresh nd']; constructor; [by apply IH |].
    apply Forall_fmap, Forall_forall; intros d Hd; cbn.
    rewrite Forall_forall in le; specialize (le d Hd); unfold on_key in le.
    assert (c_index c <> c_index d) by (intros E; apply fresh; rewrite E; by apply list_elem_of_fmap_2).
    apply ord_leb_cases in le as [E | lt]; cbn in *; [lia |].
    by apply Nat2Z.inj_lt, Z.compare_lt_iff.
  - intros c; rewrite perm; unfold top; intros Hc; apply elem_of_take in Hc as (i & look & _).
    apply list_elem_of_lookup_2 in look; unfold sort_by_key in look; by apply elem_of_sort_by in look.
  - rewrite perm; unfold top; rewrite length_take; unfold MAX_SALIENT_LINES; lia.
Qed.

(** The characters the lines take, with their separators, after earlier
    output ([empty] when there is none). *)
Definition joined_count (empty : bool) (ls : list str) : Z :=
  match ls with [] => 0 | _ => char_count (join [newline] ls) + (if empty then 0 else 1) end.

Lemma joined_count_cons empty line ls :
  joined_count empty (line :: ls) = (if empty then 0 else 1) + char_count line + joined_count false ls.
Proof.
  destruct ls as [|next ls]; cbn [joined_count join]; unfold char_count, str, char; [lia |].
  rewrite !length_app; cbn [length]; lia.
Qed.

(** A shown line: its candidate's index and a prefix of its text. *)
Definition shows (candidates : list Candidate) (entry : nat * str) : Prop :=
  exists c, c ∈ candidates /\ entry.1 = c_index c /\ entry.2 `prefix_of` c_text c /\ entry.2 <> [].

Lemma salient_lines_spec candidates empty chars :
  0 <= chars <= MAX_SALIENT_CHARS ->
  exists kept, salient_lines candidates empty chars = kept.*2
    /\ kept.*1 `sublist_of` (c_index <$> candidates) /\ Forall (shows candidates) kept
    /\ chars + joined_count empty kept.*2 <= MAX_SALIENT_CHARS.
Proof.
  revert empty chars; induction candidates as [|c candidates IH]; intros empty chars range.
  { exists []; cbn; split_and!; auto; lia. }
  assert (weaken : forall kept, Forall (shows candidates) kept -> Forall (shows (c :: candidates)) kept).
  { intros kept all; eapply Forall_impl; [exact all |]; intros e (d & ? & ?); exists d; rewrite elem_of_cons; auto. }
  cbn [salient_lines]; set (separator := if empty then 0 else 1); case_ifs; bool_prop.
  - exists []; cbn; split_and!; [reflexivity | apply sublist_nil_l | constructor | lia].
  - destruct (IH empty chars range) as (kept & -> & ? & ? & ?).
    exists kept; split_and!; auto; rewrite fmap_cons; by apply sublist_cons.
  - set (line := take _ (c_text c)) in *.
    assert (bound : char_count line <= MAX_SALIENT_CHARS - chars - separator)
      by (unfold char_count, line, str, char in *; rewrite length_take; lia).
    assert (0 <= char_count line) by (unfold char_count; lia).
    destruct (IH false (chars + (separator + char_count line))) as (kept & E & sub & ok & count).
    { unfold separator in *; destruct empty; lia. }
    exists ((c_index c, line) :: kept); rewrite E, !fmap_cons; cbn; split_and!; auto.
    + by apply sublist_skip.
    + constructor; auto; exists c; rewrite elem_of_cons; cbn; split_and!; auto.
      * exists (drop (Z.to_nat (MAX_SALIENT_CHARS - chars - separator)) (c_text c)); unfold line.
        by rewrite take_drop.
      * by apply is_empty_false.
    + change (chars + joined_count empty (line :: kept.*2) <= MAX_SALIENT_CHARS).
      rewrite joined_count_cons; fold separator; lia.
Qed.

Lemma sublist_sorted_lt (l k : list nat) : l `sublist_of` k -> StronglySorted lt k -> StronglySorted lt l.
Proof.
  intros sub sorted; induction sub as [|x l k sub IH | x l k sub IH]; auto;
    apply StronglySorted_inv in sorted as [sorted all]; auto.
  constructor; auto; rewrite Forall_forall in *; intros y Hy; apply all; eapply elem_of_sublist; eauto.
Qed.

Lemma elem_of_enumerate (ls : list str) i line :
  (i, line) ∈ zip (seq 0 (length ls)) ls -> ls !! i = Some line.
Proof.
  intros Hin; apply list_elem_of_lookup_1 in Hin as (j & look).
  apply lookup_zip_with_Some in look as (a & b & E & s & look); injection E as -> ->.
  apply lookup_seq in s as [-> _]; exact look.
Qed.

(** The salient projection of recognised text is at most 1500 characters
    and 24 lines, never empty, in reading order, and every line of it is a
    nonempty prefix of a whitespace-normalised source line that is not
    interface chrome: nothing is shown that was not on the screen. *)
Theorem salient_projection_bounded raw out :
  salient_ocr_from_raw raw = Some out ->
  exists kept : list (nat * str),
    out = join [newline] kept.*2 /\ kept <> [] /\ (length kept <= 24)%nat
    /\ char_count out <= 1500 /\ StronglySorted lt kept.*1
    /\ Forall (fun entry => entry.2 <> [] /\ exists line,
                 lines_of raw !! entry.1 = Some line
                 /\ entry.2 `prefix_of` compact line /\ is_boilerplate (compact line) = false) kept.
Proof.
  unfold salient_ocr_from_raw; cbv zeta; destruct (is_empty _) eqn:some; [discriminate |].
  intros E; injection E as <-.
  destruct (salient_candidates_spec raw) as [nd ok].
  destruct (best_candidates_spec _ nd) as (sorted & incl & count).
  destruct (salient_lines_spec (best_candidates (salient_candidates raw)) true 0)
    as (kept & E & sub & shown & chars); [unfold MAX_SALIENT_CHARS; lia |].
  rewrite E in *; apply is_empty_false in some; exists kept; split_and!; auto.
  - by intros ->.
  - apply sublist_length in sub; rewrite !length_fmap in sub; lia.
  - unfold joined_count in chars; destruct (kept.*2); [done |]; unfold MAX_SALIENT_CHARS in chars; lia.
  - eapply sublist_sorted_lt; eauto.
  - eapply Forall_impl; [exact shown |]; intros [i text] (c & Hc & Ei & pre & ne); cbn in Ei, pre, ne |- *; subst i; split; [exact ne |].
    rewrite Forall_forall in ok; destruct (ok c (incl c Hc)) as (line & Hin & E' & plain).
    exists line; rewrite <- E'; auto using elem_of_enumerate.
Qed.

(** A fact that [clean_fact] accepts. *)
Definition fact_ok (fact : str) : Prop := 3 <= char_count fact <= 90 /\ is_boilerplate fact = false.

Lemma clean_fact_ok line fact : clean_fact line = Some (Some fact) -> fact_ok fact.
Proof.
  unfold clean_fact; cbv zeta; destruct (_ ≫= _) as [value|]; [| discriminate].
  intros E; injection E as E; destruct (_ || is_boilerplate _) eqn:B; [discriminate |].
  injection E as <-; bool_prop; unfold fact_ok; intuition lia.
Qed.

(** The loop's state: distinct, acceptable facts, all of them seen. *)
Definition facts_ok (seen : bset str) (facts : list str) : Prop :=
  bset_wf seen /\ NoDup (to_lowercase <$> facts) /\ (to_lowercase <$> facts) ⊆ (seen : list str)
  /\ Forall fact_ok facts.

Lemma fact_loop_spec ls seen facts out :
  facts_ok seen facts -> (length facts < MAX_FACTS)%nat -> fact_loop ls seen facts = Some out ->
  facts `prefix_of` out /\ (length out <= MAX_FACTS)%nat /\ NoDup (to_lowercase <$> out)
  /\ Forall fact_ok out.
Proof.
  revert seen facts; induction ls as [|line rest IH]; intros seen facts (wf & nd & incl & ok) len.
  { intros E; injection E as <-; split_and!; auto; lia. }
  cbn [fact_loop]; cbv zeta.
  destruct (_ && negb _); [by apply IH |].
  destruct (clean_fact _) as [[fact|]|] eqn:C; [| by apply IH | discriminate].
  set (facts' := if negb _ then _ else _).
  assert (ok' : facts_ok (bset_add (to_lowercase fact) seen) facts' /\ facts `prefix_of` facts'
                /\ (length facts' <= S (length facts))%nat).
  { unfold facts'; destruct (bset_mem (to_lowercase fact) seen) eqn:mem; cbn [negb]; split_and!; auto.
    - split_and!; eauto with kioku; intros x Hx; apply elem_of_bset_add; auto.
    - apply clean_fact_ok in C; split_and!; eauto with kioku.
      + rewrite fmap_app; apply NoDup_app; split_and!; auto; [| apply NoDup_singleton].
        intros x Hx Hx'; apply list_elem_of_singleton in Hx' as ->.
        apply incl in Hx; apply bset_mem_spec in Hx; [congruence | exact wf].
      + intros x; rewrite fmap_app, elem_of_app; intros [Hx | Hx]; apply elem_of_bset_add;
          [auto | apply list_elem_of_singleton in Hx; auto].
      + apply Forall_app; auto.
    - by apply prefix_app_r.
    - rewrite length_app; cbn; lia. }
  destruct ok' as (ok' & pre & len'); destruct (length facts' =? MAX_FACTS)%nat eqn:full.
  - intros E; injection E as <-; destruct ok' as (_ & ? & _ & ?); apply Nat.eqb_eq in full.
    split_and!; auto; lia.
  - intros E; apply Nat.eqb_neq in full; destruct (IH _ _ ok' ltac:(lia) E) as (? & ? & ? & ?).
    split_and!; auto; by etransitivity.
Qed.

(** The screen facts are at most eight, pairwise different under
    lowercasing, 3 to 90 characters long and never interface chrome. *)
Theorem screen_facts_conservative text facts :
  extract_screen_facts text = Some facts ->
  (length facts <= 8)%nat /\ NoDup (to_lowercase <$> facts)
  /\ Forall (fun fact => 3 <= char_count fact <= 90 /\ is_boilerplate fact = false) facts.
Proof.
  intros E; apply fact_loop_spec in E as (_ & ? & ? & ?); auto.
  - split_and!; [constructor | constructor | intros x Hx; by apply elem_of_nil in Hx | constructor].
  - unfold MAX_FACTS; cbn; lia.
Qed.
End Ocr.

(** ** Witnesses *)

#[local] Existing Instance ascii_unicode.

(** The screen of the code's own test, shortened. *)
Definition sample_screen : str := join [newline] (lit <$>
  ["Home Apple Library Store Account"; "Search"; "MARY POPPINS"; "Movie - Comedy"; "1964 - 2 hr 19 min";
   "Recently Added"; "MARY POPPINS RETURNS"; "Movie - Musical"]%string).

Lemma salient_projection_bounded_witness :
  exists out, salient_ocr_from_raw sample_screen = Some out
  /\ exists kept : list (nat * str),
    out = join [newline] kept.*2 /\ kept <> [] /\ (length kept <= 24)%nat
    /\ char_count out <= 1500 /\ StronglySorted lt kept.*1
    /\ Forall (fun entry => entry.2 <> [] /\ exists line,
                 lines_of sample_screen !! entry.1 = Some line
                 /\ entry.2 `prefix_of` compact line /\ is_boilerplate (compact line) = false) kept.
Proof.
  eexists; split; [vm_compute; reflexivity |].
  apply (salient_projection_bounded sample_screen); vm_compute; reflexivity.
Defined.

Lemma screen_facts_conservative_witness :
  extract_screen_facts sample_screen = Some (lit <$> ["MARY POPPINS"; "MARY POPPINS RETURNS"]%string)
  /\ NoDup (to_lowercase <$> (lit <$> ["MARY POPPINS"; "MARY POPPINS RETURNS"]%string)).
Proof.
  split; [vm_compute; reflexivity |].
  apply (screen_facts_conservative sample_screen); vm_compute; reflexivity.
Defined.
