(* ===== verification/MemoryLanguage.v ===== *)
(** * The language of authored memories

    [cp/memory_language.rs]: which stored locales reach a prompt. *)
From Stdlib Require Import ZArith Lia.
From S2P Require Import Prelude Text.
Local Open Scope Z_scope.

Definition DEFAULT_MEMORY_LANGUAGE : str := lit "en".
Definition MAX_LOCALE_ID_BYTES : Z := 35.

(** A subtag: a length range in bytes and a class for all of them.  Only
    ASCII bytes pass the class, so characters and bytes agree. *)
Definition subtag_ok (lo hi : Z) (byte_ok : char -> bool) (subtag : str) : bool :=
  (lo <=? byte_len subtag) && (byte_len subtag <=? hi) && forallb byte_ok subtag.

Definition is_bcp47_language_tag (tag : str) : bool :=
  if is_empty tag || (MAX_LOCALE_ID_BYTES <? byte_len tag) then false
  else match split (ch "-") tag with
       | [] => false
       | primary :: subtags =>
         subtag_ok 2 8 is_ascii_alphabetic primary
         && forallb (subtag_ok 1 8 is_ascii_alphanumeric) subtags
       end.

Definition memory_language_from_locale (locale : option str) : str :=
  match locale with
  | Some locale => if is_bcp47_language_tag locale then locale else DEFAULT_MEMORY_LANGUAGE
  | None => DEFAULT_MEMORY_LANGUAGE
  end.

(** What a tag in a prompt may be made of. *)
Definition tag_char (c : char) : bool := is_ascii_alphanumeric c || (c =? ch "-")%N.

Lemma split_pieces (p : char -> bool) c s :
  forallb (forallb p) (split c s) = true -> Forall (fun x => p x || (x =? c)%N = true) s.
Proof.
  unfold split; induction s as [|x s IH]; intros ok; [constructor |].
  cbn [split_by] in ok; destruct (c =? x)%N eqn:E.
  - apply N.eqb_eq in E as <-; cbn in ok; constructor; [by rewrite N.eqb_refl, orb_true_r | by apply IH].
  - destruct (split_by (N.eqb c) s) as [|piece pieces] eqn:S; cbn in ok; bool_prop.
    + constructor; [by destruct ok as [[-> _] _] |]; apply IH; done.
    + destruct ok as [[ok1 ok2] ok3]; constructor; [by rewrite ok1 |]; apply IH; cbn.
      by rewrite ok2, ok3.
Qed.

Lemma forallb_weaken {A} (p q : A -> bool) l :
  (forall x, p x = true -> q x = true) -> forallb p l = true -> forallb q l = true.
Proof. intros pq; rewrite !forallb_Forall; intros all; eapply Forall_impl; eauto. Qed.

(** The language shown to the model is one to thirty-five bytes of letters,
    digits and dashes whatever the stored locale: a stored value cannot carry
    text into a prompt. *)
Lemma memory_language_is_tag locale :
  Forall (fun c => tag_char c = true) (memory_language_from_locale locale)
  /\ 1 <= byte_len (memory_language_from_locale locale) <= MAX_LOCALE_ID_BYTES.
Proof.
  assert (default : Forall (fun c => tag_char c = true) DEFAULT_MEMORY_LANGUAGE
                    /\ 1 <= byte_len DEFAULT_MEMORY_LANGUAGE <= MAX_LOCALE_ID_BYTES).
  { split; [by repeat constructor | by vm_compute]. }
  destruct locale as [tag|]; [| exact default]; cbn [memory_language_from_locale].
  destruct (is_bcp47_language_tag tag) eqn:ok; [| exact default]; clear default.
  unfold is_bcp47_language_tag in ok; destruct (is_empty tag || _) eqn:B; [discriminate |].
  bool_prop; destruct B as [ne len]; apply is_empty_false in ne; split.
  - apply (split_pieces is_ascii_alphanumeric); destruct (split (ch "-") tag) as [|primary subtags];
      [discriminate |]; unfold subtag_ok in ok; bool_prop; destruct ok as [[_ letters] rest]; cbn.
    apply andb_true_iff; split.
    + revert letters; apply forallb_weaken; intros c Hc; unfold is_ascii_alphanumeric; by rewrite Hc.
    + revert rest; apply forallb_weaken; intros s Hs; unfold subtag_ok in Hs; apply andb_true_iff in Hs; tauto.
  - split; [| lia]; destruct tag as [|c tag]; [done |].
    pose proof (utf8_len_pos c); pose proof (byte_len_nonneg tag); change (byte_len (c :: tag)) with (utf8_len c + byte_len tag); lia.
Qed.

(** [output_language_rule] *)
Definition output_language_rule (language : str) : str :=
  lit "OUTPUT LANGUAGE RULE: the device owner reads memories in the language with BCP-47 tag "
  ++ [34%N] ++ language ++ [34%N]
  ++ lit ". Write every field you author " ++ ulit "—"
  ++ lit " title, summary, gists, headings, section items, action items, and descriptions "
  ++ ulit "—"
  ++ lit " in that language, regardless of the language spoken or shown in the evidence. Report languages as the BCP-47 codes actually heard, never the output language. Keep personal names, organization and product names, URLs, and captured on-screen text in their original form. Use the supplied speaker labels ("
  ++ [34%N] ++ lit "Me" ++ [34%N] ++ lit ", " ++ [34%N] ++ lit "Speaker A" ++ [34%N]
  ++ lit ", established names) exactly as given, as untranslated tokens. Every entity named by a GROUNDING REQUIREMENT or listed under grounding_requirements must appear exactly as supplied, untranslated; a gloss may follow it. Render instructions and requirements directed at the owner in the output language; when the exact original wording of a phrase matters, quote it in the original language and add a gloss. Never translate or rewrite the transcript itself.".
