(* ===== verification/Effects.v ===== *)
(** * Effectful handlers as traces

    An asynchronous handler talks to its repositories and to the provider one
    call at a time.  It is modelled as a program over the history of its
    calls: each call appends an event, which records the arguments and the
    answer, and the environment's answer is an arbitrary function of the
    history.  A protocol is a step relation over events; [follows] is the
    Hoare rule that a program's events are steps of it. *)
From Stdlib Require Import ZArith Lia.
From S2P Require Import Prelude Errors.

(** A program goes on with a value, returns from the handler, or panics. *)
Inductive outcome (R A : Type) :=
| Continue (a : A)
| Return (r : R)
| Panicked.
Arguments Continue {R A}.
Arguments Return {R A}.
Arguments Panicked {R A}.

Definition prog (Event R A : Type) : Type := list Event -> outcome R A * list Event.

Section Programs.
Context {Event R : Type}.

Definition done_with {A} (a : A) : prog Event R A := fun h => (Continue a, h).
Definition return_ {A} (r : R) : prog Event R A := fun h => (Return r, h).
Definition panic {A} : prog Event R A := fun h => (Panicked, h).

Definition bind {A B} (m : prog Event R A) (k : A -> prog Event R B) : prog Event R B :=
  fun h => match m h with
           | (Continue a, h') => k a h'
           | (Return r, h') => (Return r, h')
           | (Panicked, h') => (Panicked, h')
           end.

(** One call: the event records the answer the environment gives. *)
Definition call {A} (event : A -> Event) (answer : list Event -> A) : prog Event R A :=
  fun h => (Continue (answer h), h ++ [event (answer h)]).

(** A value that may be the panic of a pure computation. *)
Definition or_panic {A} (o : option A) : prog Event R A :=
  match o with Some a => done_with a | None => panic end.
End Programs.

(** The call of another handler: its early returns end only itself. *)
Definition invoke {Event R R' : Type} (m : prog Event R' R') : prog Event R R' :=
  fun h => match m h with
           | (Continue a, h') | (Return a, h') => (Continue a, h')
           | (Panicked, h') => (Panicked, h')
           end.

Notation "'let!' x ':=' m 'in' k" := (bind m (fun x => k))
  (at level 200, x pattern, m at level 100, k at level 200, right associativity) : kioku_scope.
Notation "m ';!' k" := (bind m (fun _ => k)) (at level 100, k at level 200, right associativity) : kioku_scope.

(** [?] on a fallible call of a handler that returns a result. *)
Definition try_ {Event R A} (m : prog Event (res R) (res A)) : prog Event (res R) A :=
  bind m (fun r => match r with Ok a => done_with a | Err e => return_ (Err e) end).

(** [?] on a pure fallible step. *)
Definition try_pure {Event R A} (r : res A) : prog Event (res R) A := try_ (done_with r).

(** ** Properties of traces *)

(** Every event is justified by those before it. *)
Definition always {Event} (P : list Event -> Event -> Prop) (h : list Event) : Prop :=
  forall h1 e h2, h = h1 ++ e :: h2 -> P h1 e.

Lemma always_nil {Event} (P : list Event -> Event -> Prop) : always P [].
Proof. intros [|x l] e h2 E; discriminate. Qed.

Lemma always_snoc {Event} (P : list Event -> Event -> Prop) h e :
  always P h -> P h e -> always P (h ++ [e]).
Proof.
  intros all new h1 x h2 E; induction h2 as [|y h2 _] using rev_ind.
  - by apply app_inj_tail in E as [<- <-].
  - rewrite app_comm_cons, app_assoc in E; apply app_inj_tail in E as [E _]; by apply (all h1 x h2).
Qed.

(** ** Protocols *)

Section Protocols.
Context {Event R State : Type} (step : State -> Event -> State -> Prop).

Inductive steps : State -> list Event -> State -> Prop :=
| steps_nil s : steps s [] s
| steps_cons s e s' h s'' : step s e s' -> steps s' h s'' -> steps s (e :: h) s''.

Lemma steps_app s h s' h' s'' : steps s h s' -> steps s' h' s'' -> steps s (h ++ h') s''.
Proof. induction 1; cbn; [done |]; econstructor; eauto. Qed.

(** Rule induction from the start of a trace: an invariant of the events so
    far and the state they lead to. *)
Lemma steps_invariant (I : list Event -> State -> Prop) s0 :
  I [] s0 -> (forall h s e s', I h s -> step s e s' -> I (h ++ [e]) s') ->
  forall h s, steps s0 h s -> I h s.
Proof.
  intros base ind h s st; change h with ([] ++ h); generalize (@nil Event) base; clear base.
  induction st as [s | s e s' h s'' one rest IH]; intros pre ok; [by rewrite app_nil_r |].
  change (e :: h) with ([e] ++ h); rewrite app_assoc; apply IH; by eapply ind.
Qed.

(** From [s], the events of [m] are steps of the protocol, to a state that
    satisfies the postcondition of the way [m] ends. *)
Definition follows {A} (s : State) (m : prog Event R A) (post : A -> State -> Prop)
    (returned : R -> State -> Prop) (panicked : State -> Prop) : Prop :=
  forall h, exists h' s', (m h).2 = h ++ h' /\ steps s h' s'
    /\ match (m h).1 with
       | Continue a => post a s'
       | Return r => returned r s'
       | Panicked => panicked s'
       end.

Context {returned : R -> State -> Prop} {panicked : State -> Prop}.

Lemma follows_done {A} s (a : A) (post : A -> State -> Prop) :
  post a s -> follows s (done_with a) post returned panicked.
Proof. intros ok h; exists [], s; cbn; rewrite app_nil_r; auto using steps_nil. Qed.

Lemma follows_return {A} s r (post : A -> State -> Prop) :
  returned r s -> follows s (return_ r) post returned panicked.
Proof. intros ok h; exists [], s; cbn; rewrite app_nil_r; auto using steps_nil. Qed.

Lemma follows_panic {A} s (post : A -> State -> Prop) :
  panicked s -> follows s panic post returned panicked.
Proof. intros ok h; exists [], s; cbn; rewrite app_nil_r; auto using steps_nil. Qed.

Lemma follows_call {A} s (event : A -> Event) answer (post : A -> State -> Prop) :
  (forall a, exists s', step s (event a) s' /\ post a s') ->
  follows s (call event answer) post returned panicked.
Proof.
  intros ok h; destruct (ok (answer h)) as (s' & st & Hpost).
  exists [event (answer h)], s'; cbn; split_and!; [done | | done].
  econstructor; [exact st | constructor].
Qed.

(** A call whose answer decides the next state. *)
Lemma follows_call_to {A} s (event : A -> Event) answer (next : A -> State) (post : A -> State -> Prop) :
  (forall a, step s (event a) (next a)) -> (forall a, post a (next a)) ->
  follows s (call event answer) post returned panicked.
Proof. intros st p; apply follows_call; eauto. Qed.

Lemma follows_bind {A B} s (m : prog Event R A) (k : A -> prog Event R B) mid post :
  follows s m mid returned panicked ->
  (forall a s', mid a s' -> follows s' (k a) post returned panicked) ->
  follows s (bind m k) post returned panicked.
Proof.
  intros first rest h; destruct (first h) as (h1 & s1 & E & st & Hm); unfold bind.
  destruct (m h) as [[a|r|] h1']; cbn in E, Hm; subst h1'; [| exists h1, s1; auto ..].
  destruct (rest a s1 Hm (h ++ h1)) as (h2 & s2 & E2 & st2 & Hk).
  exists (h1 ++ h2), s2; rewrite E2, app_assoc; split_and!; [done | by eapply steps_app | done].
Qed.

Lemma follows_or_panic {A} s (o : option A) (post : A -> State -> Prop) :
  (forall a, o = Some a -> post a s) -> panicked s -> follows s (or_panic o) post returned panicked.
Proof. intros ok p; destruct o; [by apply follows_done, ok | by apply follows_panic]. Qed.

Lemma follows_weaken {A} s (m : prog Event R A) (post post' : A -> State -> Prop) :
  follows s m post returned panicked -> (forall a s', post a s' -> post' a s') ->
  follows s m post' returned panicked.
Proof.
  intros ok weaker h; destruct (ok h) as (h' & s' & E & st & Hp); exists h', s'; split_and!; [done | done |].
  destruct (m h).1; auto.
Qed.
End Protocols.

Lemma follows_try {Event R State A} (step : State -> Event -> State -> Prop) s
    (m : prog Event (res R) (res A)) (post : A -> State -> Prop) returned panicked :
  follows step s m (fun r s' => match r with Ok a => post a s' | Err e => returned (Err e) s' end)
    returned panicked ->
  follows step s (try_ m) post returned panicked.
Proof.
  intros ok; unfold try_; eapply follows_bind; [exact ok |]; intros [a|e] s' Hp; cbn in Hp.
  - by apply follows_done.
  - by apply follows_return.
Qed.

Lemma follows_invoke {Event R R' State} (step : State -> Event -> State -> Prop) s
    (m : prog Event R' R') (post : R' -> State -> Prop) (returned : R -> State -> Prop) panicked :
  follows step s m post post panicked ->
  follows step s (invoke m) post returned panicked.
Proof.
  intros ok h; destruct (ok h) as (h' & s' & E & st & Hp); exists h', s'; unfold invoke.
  by destruct (m h) as [[a|r|] h1].
Qed.

(** What a protocol guarantees of every trace holds of the events a program
    that follows it adds to any history. *)
Lemma follows_trace {Event R State A} (step : State -> Event -> State -> Prop) s (m : prog Event R A)
    post returned panicked (Q : list Event -> Prop) :
  follows step s m post returned panicked -> (forall h s', steps step s h s' -> Q h) ->
  forall h, exists h', (m h).2 = h ++ h' /\ Q h'.
Proof. intros ok trace h; destruct (ok h) as (h' & s' & E & st & _); eauto. Qed.

(** ** Traces that justify themselves *)

(** The protocol whose state is the trace so far: each event must be
    justified by the events before it. *)
Section Histories.
Context {Event R : Type} (P : list Event -> Event -> Prop).

Definition extends (h : list Event) (e : Event) (h' : list Event) : Prop := P h e /\ h' = h ++ [e].

Lemma extends_steps h l h' : steps extends h l h' -> always P h -> h' = h ++ l /\ always P h'.
Proof.
  induction 1 as [h|h e h1 l h2 [ok ->] st IH]; intros all; [by rewrite app_nil_r|].
  destruct IH as [-> done_]; [by apply always_snoc|]; split; [by rewrite <- app_assoc|done].
Qed.

Lemma history_call {A} h (event : A -> Event) answer (post : A -> list Event -> Prop)
    (returned : R -> list Event -> Prop) panicked :
  (forall a, P h (event a)) -> (forall a, post a (h ++ [event a])) ->
  follows extends h (call event answer) post returned panicked.
Proof. intros ok p; apply follows_call; intros a; exists (h ++ [event a]); split; [by split; [apply ok|]|apply p]. Qed.

(** What such a protocol shows of a run from any history. *)
Lemma history_run {A} (m : prog Event R A) post (returned : R -> list Event -> Prop) panicked :
  follows extends [] m post returned panicked ->
  forall h, exists l, (m h).2 = h ++ l /\ always P l
    /\ match (m h).1 with Continue a => post a l | Return r => returned r l | Panicked => panicked l end.
Proof.
  intros ok h; destruct (ok h) as (l & s & E & st & Hp); exists l.
  apply extends_steps in st as [-> all]; [by split_and!|apply always_nil].
Qed.
End Histories.

(** *** Rules for one call and what follows it *)
Section HistoryRules.
Context {Event R : Type} (P : list Event -> Event -> Prop) {returned : R -> list Event -> Prop} {panicked : list Event -> Prop}.

Lemma then_call {A B} h (event : A -> Event) answer (k : A -> prog Event R B) post :
  (forall a, P h (event a)) -> (forall a, follows (extends P) (h ++ [event a]) (k a) post returned panicked) ->
  follows (extends P) h (bind (call event answer) k) post returned panicked.
Proof.
  intros ok rest; eapply follows_bind with (mid := fun a h' => h' = h ++ [event a]).
  - by apply history_call.
  - by intros a h' ->.
Qed.
End HistoryRules.

Section TryRules.
Context {Event T : Type} (P : list Event -> Event -> Prop).
Context {returned : res T -> list Event -> Prop} {panicked : list Event -> Prop}.

Lemma then_try {A B} h (m : prog Event (res T) (res A)) (k : A -> prog Event (res T) B) (mid : A -> list Event -> Prop) post :
  follows (extends P) h m (fun r h' => match r with Ok a => mid a h' | Err e => returned (Err e) h' end) returned panicked ->
  (forall a h', mid a h' -> follows (extends P) h' (k a) post returned panicked) ->
  follows (extends P) h (bind (try_ m) k) post returned panicked.
Proof. intros ok rest; eapply follows_bind; [by apply follows_try, ok | exact rest]. Qed.

Lemma then_try_call {A B} h (event : res A -> Event) answer (k : A -> prog Event (res T) B) post :
  (forall r, P h (event r)) -> (forall e, returned (Err e) (h ++ [event (Err e)])) ->
  (forall a, follows (extends P) (h ++ [event (Ok a)]) (k a) post returned panicked) ->
  follows (extends P) h (bind (try_ (call event answer)) k) post returned panicked.
Proof.
  intros ok err rest; apply then_try with (mid := fun a h' => h' = h ++ [event (Ok a)]).
  - apply history_call; [done|]; by intros [a|e].
  - by intros a h' ->.
Qed.

Lemma then_try_pure {A B} h (r : res A) (k : A -> prog Event (res T) B) post :
  (forall e, r = Err e -> returned (Err e) h) ->
  (forall a, r = Ok a -> follows (extends P) h (k a) post returned panicked) ->
  follows (extends P) h (bind (try_pure r) k) post returned panicked.
Proof.
  intros err rest; apply then_try with (mid := fun a h' => r = Ok a /\ h' = h).
  - apply follows_done; destruct r; [done|by apply err].
  - by intros a h' [E ->]; apply rest.
Qed.
End TryRules.

(** ** Facts that stay true as a trace grows *)

Class Monotone {Event} (F : list Event -> Prop) : Prop := monotone h h' : h ⊆ h' -> F h -> F h'.

Lemma monotone_elem {Event} (e : Event) : Monotone (fun h => e ∈ h).
Proof. intros h h' sub; apply sub. Qed.

Lemma monotone_const {Event} (A : Prop) : @Monotone Event (fun _ => A).
Proof. by intros h h' _. Qed.

Lemma monotone_and {Event} (F G : list Event -> Prop) : Monotone F -> Monotone G -> Monotone (fun h => F h /\ G h).
Proof. intros f g h h' sub [? ?]; split; [by eapply f | by eapply g]. Qed.

Lemma monotone_or {Event} (F G : list Event -> Prop) : Monotone F -> Monotone G -> Monotone (fun h => F h \/ G h).
Proof. intros f g h h' sub [?|?]; [left; by eapply f | right; by eapply g]. Qed.

Lemma monotone_ex {Event A} (F : A -> list Event -> Prop) : (forall a, Monotone (F a)) -> Monotone (fun h => exists a, F a h).
Proof. intros f h h' sub [a ?]; exists a; by eapply f. Qed.

(** Proves a predicate on traces monotone by its shape. *)
Ltac monotone_by_shape :=
  repeat first [apply _ | apply monotone_const | apply monotone_elem | apply monotone_and | apply monotone_or
               | apply monotone_ex; intros ?].
