(* ===== verification/VertexFlow.v ===== *)
(** * Durable provider calls

    [cp/vertex.rs] and the normalisation of [cp/model_usage.rs]: one text
    generation is admitted by the durable usage ledger, sent at most once, and
    settled in the ledger before its outcome is classified.  The HTTP client,
    the metadata server and the ledger's tables answer through [Env]; SHA-256
    and the JSON printer are parameters. *)
From Stdlib Require Import ZArith Lia.
From S2P Require Import Prelude OrdMap Text F64 Errors Bytes Json Presentation Reconciliation Vertex Effects.
Local Open Scope Z_scope.
Local Open Scope kioku_scope.

Inductive VertexOperation :=
| EpisodeSummary
| EpisodeSummaryRepair
| EpisodeReconciliation
| FinalEpisodeAnalysis
| AudioWindow
| ScreenStoryboard.

#[export] Instance VertexOperation_eq_dec : EqDecision VertexOperation.
Proof. solve_decision. Defined.

Definition operation_as_str (operation : VertexOperation) : str :=
  match operation with
  | EpisodeSummary | EpisodeSummaryRepair => lit "episode_summarization"
  | EpisodeReconciliation => lit "episode_reconciliation"
  | FinalEpisodeAnalysis => lit "episode_finalization"
  | AudioWindow => lit "audio_understanding"
  | ScreenStoryboard => lit "screen_understanding"
  end.

(** [{operation:?}] *)
Definition operation_debug (operation : VertexOperation) : str :=
  match operation with
  | EpisodeSummary => lit "EpisodeSummary"
  | EpisodeSummaryRepair => lit "EpisodeSummaryRepair"
  | EpisodeReconciliation => lit "EpisodeReconciliation"
  | FinalEpisodeAnalysis => lit "FinalEpisodeAnalysis"
  | AudioWindow => lit "AudioWindow"
  | ScreenStoryboard => lit "ScreenStoryboard"
  end.

(** ** Usage metadata *)

Record VertexUsage := {
  prompt_details_present : bool;
  cache_details_present : bool;
  prompt_tokens : option Z;
  input_text_tokens : option Z;
  input_audio_tokens : option Z;
  input_image_tokens : option Z;
  cached_input_tokens : option Z;
  cached_input_text_tokens : option Z;
  cached_input_audio_tokens : option Z;
  cached_input_image_tokens : option Z;
  output_tokens : option Z;
  tool_use_prompt_tokens : option Z;
  thought_tokens : option Z;
  total_tokens : option Z
}.

Record VertexMetadata := {
  usage : option VertexUsage;
  model_version : option str;
  traffic_type : option str
}.

(** [Iterator::find_map] *)
Fixpoint find_map {A B} (f : A -> option B) (l : list A) : option B :=
  match l with
  | [] => None
  | x :: l => match f x with Some y => Some y | None => find_map f l end
  end.

Definition detail_token_count (usage : Value) (details_key modality : string) : option Z :=
  match get (lit details_key) usage ≫= as_array with
  | None => None
  | Some details =>
    find_map (fun detail =>
                if bool_decide (get (lit "modality") detail ≫= as_str = Some (lit modality))
                then get (lit "tokenCount") detail ≫= as_u64 else None) details
  end.

Definition has_array (usage : Value) (key : string) : bool :=
  match get (lit key) usage with Some v => is_array v | None => false end.

Definition token_count (usage : Value) (key : string) : option Z := get (lit key) usage ≫= as_u64.

Definition usage_of (usage : Value) : VertexUsage :=
  {| prompt_details_present := has_array usage "promptTokensDetails";
     cache_details_present := has_array usage "cacheTokensDetails";
     prompt_tokens := token_count usage "promptTokenCount";
     input_text_tokens := detail_token_count usage "promptTokensDetails" "TEXT";
     input_audio_tokens := detail_token_count usage "promptTokensDetails" "AUDIO";
     input_image_tokens := detail_token_count usage "promptTokensDetails" "IMAGE";
     cached_input_tokens := token_count usage "cachedContentTokenCount";
     cached_input_text_tokens := detail_token_count usage "cacheTokensDetails" "TEXT";
     cached_input_audio_tokens := detail_token_count usage "cacheTokensDetails" "AUDIO";
     cached_input_image_tokens := detail_token_count usage "cacheTokensDetails" "IMAGE";
     output_tokens := token_count usage "candidatesTokenCount";
     tool_use_prompt_tokens := token_count usage "toolUsePromptTokenCount";
     thought_tokens := token_count usage "thoughtsTokenCount";
     total_tokens := token_count usage "totalTokenCount" |}.

Definition as_object (v : Value) : option Value := if is_object v then Some v else None.

Definition response_metadata (data : Value) : VertexMetadata :=
  {| usage := usage_of <$> (get (lit "usageMetadata") data ≫= as_object);
     model_version := get (lit "modelVersion") data ≫= as_str;
     traffic_type := (get (lit "usageMetadata") data ≫= get (lit "trafficType")) ≫= as_str |}.

Definition vertex_model_name_is_billing_safe (value : str) : bool :=
  (1 <=? byte_len value) && (byte_len value <=? 128)
  && forallb (fun c => is_ascii_alphanumeric c || existsb (N.eqb c) (lit "._:-")) value.

Definition normalized_traffic_type (value : option str) : str :=
  match value with
  | Some value =>
    if one_of value ["PROVISIONED_THROUGHPUT"; "provisioned_throughput"]%string
    then lit "provisioned_throughput"
    else if one_of value ["BATCH"; "batch"]%string then lit "batch" else lit "on_demand"
  | None => lit "on_demand"
  end.

(** [u64::saturating_add] *)
Definition saturating_add_u64 (a b : Z) : Z := Z.min (a + b) (2 ^ 64 - 1).

Definition positive (o : option Z) : option Z :=
  match o with Some value => if 0 <? value then Some value else None | None => None end.

(** The cached tokens by modality; the outer [None] refuses the report. *)
Definition cached_details (usage : VertexUsage) : option (option Z * option Z * option Z) :=
  let cached_total := default 0 (cached_input_tokens usage) in
  if cache_details_present usage then
    let text := default 0 (cached_input_text_tokens usage) in
    let audio := default 0 (cached_input_audio_tokens usage) in
    let image := default 0 (cached_input_image_tokens usage) in
    if negb (saturating_add_u64 (saturating_add_u64 text audio) image =? cached_total)
       || (default 0 (input_text_tokens usage) <? text)
       || (default 0 (input_audio_tokens usage) <? audio)
       || (default 0 (input_image_tokens usage) <? image)
    then None
    else Some (Some text, Some audio, Some image)
  else Some (None, None, None).

Definition normalized_usage (metadata : VertexMetadata) : option VertexUsage :=
  match usage metadata with
  | None => None
  | Some usage =>
    match positive (prompt_tokens usage), positive (total_tokens usage), output_tokens usage with
    | Some prompt, Some total, Some output =>
      if negb (default 0 (tool_use_prompt_tokens usage) =? 0) || negb (prompt_details_present usage)
      then None
      else
        match cached_details usage with
        | None => None
        | Some (cached_text, cached_audio, cached_image) =>
          Some {| prompt_details_present := true;
                  cache_details_present := cache_details_present usage;
                  prompt_tokens := Some prompt;
                  input_text_tokens := Some (default 0 (input_text_tokens usage));
                  input_audio_tokens := Some (default 0 (input_audio_tokens usage));
                  input_image_tokens := Some (default 0 (input_image_tokens usage));
                  cached_input_tokens := Some (default 0 (cached_input_tokens usage));
                  cached_input_text_tokens := cached_text;
                  cached_input_audio_tokens := cached_audio;
                  cached_input_image_tokens := cached_image;
                  output_tokens := Some output;
                  tool_use_prompt_tokens := tool_use_prompt_tokens usage;
                  thought_tokens := Some (default 0 (thought_tokens usage));
                  total_tokens := Some total |}
        end
    | _, _, _ => None
    end
  end.

Definition normalized_billable_response (metadata : VertexMetadata) : option str * option VertexUsage :=
  let model :=
    match model_version metadata with
    | Some value => if vertex_model_name_is_billing_safe value then Some value else None
    | None => None
    end in
  (model, model ≫= fun _ => normalized_usage metadata).

(** [to_i64] *)
Definition to_i64 (value : option Z) : option Z :=
  value ≫= fun value => if value <=? I64.max_value then Some value else None.

(** ** The calls of one generation, with their answers *)

Inductive VertexInvocationAdmission := Send | ConfirmedNotBilled | LedgerAmbiguous.

Record VertexInvocationAttempt := { attempt_event_id : str; admission : VertexInvocationAdmission }.

Record CustomTextGenerationRequest := {
  r_operation : VertexOperation;
  r_system : str;
  r_user_message : str;
  r_schema : Value;
  r_max_output_tokens : Z;
  r_model : str
}.

Inductive TextInvocationMode := Legacy | Durable (attempt_identity : bytes).

Inductive TextExecutionContract :=
| Current
| Persisted (project location api_version publisher method response_mime_type : str) (thinking_budget : Z).

Record HttpRequest := { http_url : str; http_bearer : str; http_body : Value }.

Inductive Event :=
| EAccountActive (answer : res bool)
| EClient (answer : res unit)
| EToken (answer : res str)
| EBuild (request : HttpRequest) (answer : res unit)
| EBegin (operation : VertexOperation) (model location : str) (anchor : bytes) (answer : res str)
| EBeginAttempt (operation : VertexOperation) (model location : str) (anchor attempt_identity : bytes)
    (answer : res VertexInvocationAttempt)
| EExecute (request : HttpRequest) (answer : res Z)
| EBody (answer : res Value)
| ESettleAmbiguous (event_id : str) (http_status : option Z) (answer : res unit)
| ESettleNotBilled (event_id : str) (http_status : Z) (answer : res unit)
| ESettlePreEgress (event_id : str) (answer : res unit)
| ESettleResponse (event_id : str) (metadata : VertexMetadata) (answer : res unit).

Record Env := {
  account_active : list Event -> res bool;
  client_built : list Event -> res unit;
  access_token : list Event -> res str;
  request_built : list Event -> res unit;
  begin_invocation : list Event -> res str;
  begin_invocation_attempt : list Event -> res VertexInvocationAttempt;
  execute : list Event -> res Z;
  response_json : list Event -> res Value;
  settle_ambiguous : list Event -> res unit;
  settle_not_billed : list Event -> res unit;
  settle_pre_egress_not_billed : list Event -> res unit;
  settle_response : list Event -> res unit
}.

Record PreparedTextRequest := {
  prepared_request : HttpRequest;
  invocation : str;
  durable : bool
}.

(** [Response::error_for_status]: client and server errors. *)
Definition is_error_status (status : Z) : bool := (400 <=? status) && (status <? 600).

Section Provider.
Context (sha256 : bytes -> bytes) (to_vec : Value -> option bytes).
Context (config : VertexConfig) (env : Env).

Definition text_request_body_and_caller_anchor (system user_message : str) (schema : Value)
    (max_output_tokens : Z) (response_mime_type : str) (thinking_budget : Z) : res (Value * bytes) :=
  let body := text_request_body system user_message schema max_output_tokens response_mime_type
                thinking_budget in
  let? body_bytes := ok_or (to_vec body) Errors.Json in
  Ok (body, sha256 body_bytes).

Definition custom_text_request_caller_anchor (request : CustomTextGenerationRequest) : res bytes :=
  let? both :=
    text_request_body_and_caller_anchor (r_system request) (r_user_message request) (r_schema request)
      (bounded_output_tokens (r_max_output_tokens request)) JSON_RESPONSE_MIME_TYPE THINKING_BUDGET in
  Ok both.2.

Definition vertex_attempt_event_id (attempt_identity : bytes) : str :=
  lit "vtx_" ++ hex_of_bytes (sha256 (blit "kioku.vertex-invocation-attempt.v1" ++ [0%N] ++ attempt_identity)).

Definition vertex_invocation_fingerprint (account_id : str) (operation : VertexOperation)
    (requested_model location : str) (caller_anchor : bytes) : bytes :=
  sha256 (blit "kioku.vertex-invocation.v1" ++ [0%N]
    ++ as_bytes account_id ++ [0%N] ++ as_bytes (operation_debug operation) ++ [0%N]
    ++ as_bytes requested_model ++ [0%N] ++ as_bytes location ++ [0%N] ++ caller_anchor).

(** Every early return of a generation carries a classified failure. *)
Definition Gen (A : Type) : Type := prog Event (result VertexGenerationFailure TextGeneration) A.

(** [?] after [map_err]. *)
Definition or_fail {A} (f : EnclaveError -> VertexGenerationFailure) (m : Gen (res A)) : Gen A :=
  let! r := m in
  match r with Ok a => done_with a | Err e => return_ (Err (f e)) end.

(** [vertex_project, vertex_location, model]: ASCII path segments. *)
Definition path_segment (value : str) : bool :=
  forallb (fun c => is_ascii_alphanumeric c || existsb (N.eqb c) (lit "-_.")) value.

Record Settings := {
  set_project : str; set_location : str; set_api_version : str; set_publisher : str;
  set_method : str; set_mime_type : str; set_thinking_budget : Z; set_max_output_tokens : Z
}.

Definition settings_of (contract : TextExecutionContract) (max_output_tokens : Z) : Settings :=
  match contract with
  | Current =>
    {| set_project := cfg_project config; set_location := cfg_location config;
       set_api_version := GENERATE_CONTENT_API_VERSION; set_publisher := GENERATE_CONTENT_PUBLISHER;
       set_method := GENERATE_CONTENT_METHOD; set_mime_type := JSON_RESPONSE_MIME_TYPE;
       set_thinking_budget := THINKING_BUDGET;
       set_max_output_tokens := bounded_output_tokens max_output_tokens |}
  | Persisted project location api_version publisher method response_mime_type thinking_budget =>
    {| set_project := project; set_location := location; set_api_version := api_version;
       set_publisher := publisher; set_method := method; set_mime_type := response_mime_type;
       set_thinking_budget := thinking_budget; set_max_output_tokens := max_output_tokens |}
  end.

Definition settings_valid (s : Settings) (model : str) : bool :=
  negb (is_empty (set_project s) || is_empty (set_location s) || is_empty model
        || (set_max_output_tokens s =? 0) || (65535 <? set_max_output_tokens s)
        || negb ((0 <=? set_thinking_budget s) && (set_thinking_budget s <=? 65535))
        || negb (str_eqb (set_api_version s) GENERATE_CONTENT_API_VERSION)
        || negb (str_eqb (set_publisher s) GENERATE_CONTENT_PUBLISHER)
        || negb (str_eqb (set_method s) GENERATE_CONTENT_METHOD)
        || negb (str_eqb (set_mime_type s) JSON_RESPONSE_MIME_TYPE)
        || existsb (fun value => negb (path_segment value)) [set_project s; set_location s; model]).

Definition request_url (s : Settings) (model : str) : str :=
  lit "https://aiplatform.googleapis.com/" ++ set_api_version s ++ lit "/projects/" ++ set_project s
  ++ lit "/locations/" ++ set_location s ++ lit "/publishers/" ++ set_publisher s
  ++ lit "/models/" ++ model ++ lit ":" ++ set_method s.

Definition admit_attempt (mode : TextInvocationMode) (operation : VertexOperation) (model location : str)
    (caller_anchor : bytes) : Gen str :=
  match mode with
  | Legacy =>
    or_fail before_egress (call (EBegin operation model location caller_anchor) (begin_invocation env))
  | Durable attempt_identity =>
    let! attempt :=
      or_fail durable_admission_refused
        (call (EBeginAttempt operation model location caller_anchor attempt_identity)
           (begin_invocation_attempt env)) in
    match admission attempt with
    | Send => done_with (attempt_event_id attempt)
    | ConfirmedNotBilled =>
      return_ (Err (after_egress RetryableNotBilled (attempt_event_id attempt)
        (Conflict (lit "Vertex invocation attempt was already confirmed not billed"))))
    | LedgerAmbiguous =>
      return_ (Err (after_egress AmbiguousTerminal (attempt_event_id attempt)
        (Conflict (lit "Vertex invocation attempt cannot be safely resent"))))
    end
  end.

Definition require_active_account : Gen (res unit) :=
  let! active := call EAccountActive (account_active env) in
  done_with (match active with
             | Ok true => Ok tt
             | Ok false => Err (Auth (lit "account inactive"))
             | Err e => Err e
             end).

Definition is_durable (mode : TextInvocationMode) : bool :=
  match mode with Durable _ => true | Legacy => false end.

Definition prepare_custom_with_model_inner (request : CustomTextGenerationRequest)
    (mode : TextInvocationMode) (contract : TextExecutionContract) : Gen PreparedTextRequest :=
  or_fail before_egress require_active_account ;!
  let s := settings_of contract (r_max_output_tokens request) in
  if negb (settings_valid s (r_model request)) then
    return_ (Err (before_egress (Config (lit "Vertex text request contract is invalid"))))
  else
    or_fail before_egress (call EClient (client_built env)) ;!
    let! token := or_fail before_egress (call EToken (access_token env)) in
    let! both :=
      or_fail before_egress (done_with
        (text_request_body_and_caller_anchor (r_system request) (r_user_message request) (r_schema request)
           (set_max_output_tokens s) (set_mime_type s) (set_thinking_budget s))) in
    let (body, caller_anchor) := both in
    let http := {| http_url := request_url s (r_model request); http_bearer := token; http_body := body |} in
    or_fail before_egress (call (EBuild http) (request_built env)) ;!
    let! invocation := admit_attempt mode (r_operation request) (r_model request) (set_location s) caller_anchor in
    done_with {| prepared_request := http; invocation := invocation; durable := is_durable mode |}.

Definition reject_before_egress (p : PreparedTextRequest) : Gen (res unit) :=
  call (ESettlePreEgress (invocation p)) (settle_pre_egress_not_billed env).

Definition settle_ambiguous_required {R} (event_id : str) (http_status : option Z) : prog Event R (res unit) :=
  call (ESettleAmbiguous event_id http_status) (settle_ambiguous env).

(** A failure whose outcome the provider alone knows: the ledger records the
    doubt, and a failure to record it replaces the error. *)
Definition ambiguous (p : PreparedTextRequest) (http_status : option Z) (provider_error : EnclaveError) :
  Gen (result VertexGenerationFailure TextGeneration) :=
  let! settled := settle_ambiguous_required (invocation p) http_status in
  done_with (Err (after_egress AmbiguousTerminal (invocation p)
    (match settled with
     | Err settlement_error => if durable p then settlement_error else provider_error
     | Ok _ => provider_error
     end))).

Definition refused_status (p : PreparedTextRequest) (status : Z) :
  Gen (result VertexGenerationFailure TextGeneration) :=
  let d := durable_http_failure_disposition status in
  let provider_error := if status =? 429 then Config (lit "quota") else Http in
  if durable p then
    let! settled :=
      match d with
      | RetryableNotBilled => call (ESettleNotBilled (invocation p) status) (settle_not_billed env)
      | AmbiguousTerminal => settle_ambiguous_required (invocation p) (Some status)
      | _ => panic
      end in
    match settled with
    | Err settlement_error =>
      done_with (Err (after_egress AmbiguousTerminal (invocation p) settlement_error))
    | Ok _ => done_with (Err (after_egress d (invocation p) provider_error))
    end
  else
    call (ESettleNotBilled (invocation p) status) (settle_not_billed env) ;!
    done_with (Err (after_egress d (invocation p) provider_error)).

Definition first_candidate (data : Value) : option Value := get (lit "candidates") data ≫= get_index 0.

(** The text parts of the first candidate. *)
Definition response_text (data : Value) : str :=
  match ((first_candidate data ≫= get (lit "content")) ≫= get (lit "parts")) ≫= as_array with
  | Some parts => parts ≫= fun p => default [] (get (lit "text") p ≫= as_str)
  | None => []
  end.

Definition finish_reason (data : Value) : str :=
  default (lit "<no candidates>") ((first_candidate data ≫= get (lit "finishReason")) ≫= as_str).

Definition answered (p : PreparedTextRequest) (status : Z) (data : Value) :
  Gen (result VertexGenerationFailure TextGeneration) :=
  let metadata := response_metadata data in
  let! settled := call (ESettleResponse (invocation p) metadata) (settle_response env) in
  match (if durable p then settled else Ok tt) with
  | Err error =>
    settle_ambiguous_required (invocation p) (Some status) ;!
    done_with (Err (after_egress AmbiguousTerminal (invocation p) error))
  | Ok _ =>
    if is_empty (response_text data) then
      done_with (Err (after_egress ConfirmedInvalid (invocation p)
        (Config (lit "unexpected Vertex response shape (finishReason: " ++ finish_reason data ++ lit ")"))))
    else done_with (Ok {| generated_text := response_text data; generation_event_id := invocation p |})
  end.

Definition send (p : PreparedTextRequest) : Gen (result VertexGenerationFailure TextGeneration) :=
  let! response := call (EExecute (prepared_request p)) (execute env) in
  match response with
  | Err error => ambiguous p None error
  | Ok status =>
    if is_error_status status then refused_status p status
    else
      let! data := call EBody (response_json env) in
      match data with
      | Err error => ambiguous p (Some status) error
      | Ok data => answered p status data
      end
  end.

Definition generate_custom_with_model_inner (request : CustomTextGenerationRequest)
    (mode : TextInvocationMode) (contract : TextExecutionContract) :
  Gen (result VertexGenerationFailure TextGeneration) :=
  let! p := prepare_custom_with_model_inner request mode contract in
  send p.

Definition generate_with_persisted_attempt (request : CaptureFormationProviderRequest)
    (attempt_identity : bytes) : Gen (result VertexGenerationFailure TextGeneration) :=
  if negb (persisted_contract_supported request) then
    return_ (Err (before_egress
      (InvalidRequest (lit "capture formation provider request contract is unsupported"))))
  else
    generate_custom_with_model_inner
      {| r_operation := EpisodeSummary; r_system := rq_system_prompt request;
         r_user_message := rq_user_message request; r_schema := rq_response_schema request;
         r_max_output_tokens := Vertex.max_output_tokens request; r_model := rq_model request |}
      (Durable attempt_identity)
      (Persisted (vertex_project request) (vertex_location request) (api_version request)
         (publisher request) (method request) (response_mime_type request) (thinking_budget request)).

(** [VertexGenerationFailure::into_error] *)
Definition generate_custom_with_model {R} (request : CustomTextGenerationRequest) :
  prog Event R (res TextGeneration) :=
  let! generated := invoke (generate_custom_with_model_inner request Legacy Current) in
  done_with (match generated with Ok g => Ok g | Err f => Err (failure_error f) end).

Definition generate_custom {R} (operation : VertexOperation) (system user_message : str) (schema : Value)
    (max_output_tokens : Z) : prog Event R (res TextGeneration) :=
  generate_custom_with_model
    {| r_operation := operation; r_system := system; r_user_message := user_message; r_schema := schema;
       r_max_output_tokens := max_output_tokens; r_model := cfg_model config |}.

Definition generate {R} (operation : VertexOperation) (system user_message : str) :
  prog Event R (res TextGeneration) :=
  generate_custom operation system user_message response_schema MAX_TEXT_OUTPUT_TOKENS.
End Provider.

(** ** The protocol of a durable attempt *)

(** What the ledger finally records of a sent request. *)
Inductive Outcome := AsResponse (data : Value) | AsNotBilled (status : Z) | AsAmbiguous | Unsettled.

Inductive State :=
| Idle
| Refused (error : EnclaveError)
| Replayed (event_id : str) (a : VertexInvocationAdmission)
| AdmittedAttempt (event_id : str) (anchor : bytes)
| Lost (event_id : str) (status : option Z)
| Status (event_id : str) (status : Z)
| Received (event_id : str) (status : Z) (data : Value)
| Unrecorded (event_id : str) (status : Z)
| Settled (event_id : str) (outcome : Outcome).

Definition recorded (outcome : Outcome) (answer : res unit) : Outcome :=
  match answer with Ok _ => outcome | Err _ => Unsettled end.

Definition after_admission (anchor : bytes) (answer : res VertexInvocationAttempt) : State :=
  match answer with
  | Err e => Refused e
  | Ok attempt =>
    match admission attempt with
    | Send => AdmittedAttempt (attempt_event_id attempt) anchor
    | a => Replayed (attempt_event_id attempt) a
    end
  end.

Section Protocol.
Context (sha256 : bytes -> bytes) (to_vec : Value -> option bytes) (attempt_identity : bytes).

(** Only an admitted attempt is sent, once, with the body its admission
    commits to; whatever happens next is recorded before anything else. *)
Inductive step : State -> Event -> State -> Prop :=
| step_active a : step Idle (EAccountActive a) Idle
| step_client a : step Idle (EClient a) Idle
| step_token a : step Idle (EToken a) Idle
| step_build http a : step Idle (EBuild http a) Idle
| step_begin operation model location anchor a :
    step Idle (EBeginAttempt operation model location anchor attempt_identity a) (after_admission anchor a)
| step_execute id anchor http encoded a :
    to_vec (http_body http) = Some encoded -> sha256 encoded = anchor ->
    step (AdmittedAttempt id anchor) (EExecute http a)
      (match a with Ok status => Status id status | Err _ => Lost id None end)
| step_refused id status a :
    is_error_status status = true -> durable_http_failure_disposition status = RetryableNotBilled ->
    step (Status id status) (ESettleNotBilled id status a) (Settled id (recorded (AsNotBilled status) a))
| step_failed id status a :
    is_error_status status = true -> durable_http_failure_disposition status = AmbiguousTerminal ->
    step (Status id status) (ESettleAmbiguous id (Some status) a) (Settled id (recorded AsAmbiguous a))
| step_body id status a :
    is_error_status status = false ->
    step (Status id status) (EBody a)
      (match a with Ok data => Received id status data | Err _ => Lost id (Some status) end)
| step_lost id status a :
    step (Lost id status) (ESettleAmbiguous id status a) (Settled id (recorded AsAmbiguous a))
| step_response id status data a :
    step (Received id status data) (ESettleResponse id (response_metadata data) a)
      (match a with Ok _ => Settled id (AsResponse data) | Err _ => Unrecorded id status end)
| step_unrecorded id status a :
    step (Unrecorded id status) (ESettleAmbiguous id (Some status) a) (Settled id (recorded AsAmbiguous a)).
End Protocol.

Definition is_conflict (e : EnclaveError) : bool := match e with Conflict _ => true | _ => false end.

(** What each answer of a generation proves about the attempt. *)
Definition justified (r : result VertexGenerationFailure TextGeneration) (s : State) : Prop :=
  match r with
  | Ok g =>
    exists data, s = Settled (generation_event_id g) (AsResponse data)
      /\ generated_text g = response_text data /\ generated_text g <> []
  | Err f =>
    match disposition f with
    | RetryableBeforeEgress => s = Idle \/ exists e, s = Refused e /\ is_conflict e = false
    | AttemptIdentityReused => exists e, s = Refused e /\ is_conflict e = true
    | RetryableNotBilled =>
      exists id, failure_event_id f = Some id
        /\ (s = Replayed id ConfirmedNotBilled
            \/ exists status, s = Settled id (AsNotBilled status)
                 /\ status ∈ [400; 401; 403; 404; 413; 422; 429])
    | ConfirmedInvalid =>
      exists id data, failure_event_id f = Some id /\ s = Settled id (AsResponse data)
        /\ response_text data = []
    | AmbiguousTerminal =>
      exists id, failure_event_id f = Some id
        /\ (s = Replayed id LedgerAmbiguous \/ s = Settled id AsAmbiguous \/ s = Settled id Unsettled)
    end
  end.

Lemma not_billed_status status :
  durable_http_failure_disposition status = RetryableNotBilled ->
  status ∈ [400; 401; 403; 404; 413; 422; 429].
Proof.
  unfold durable_http_failure_disposition; destruct (existsb _ _) eqn:E; [| discriminate]; intros _.
  apply existsb_Exists in E as (x & Hx & E); bool_prop; by subst.
Qed.

Lemma http_disposition_cases status :
  durable_http_failure_disposition status = RetryableNotBilled
  \/ durable_http_failure_disposition status = AmbiguousTerminal.
Proof. unfold durable_http_failure_disposition; destruct (existsb _ _); auto. Qed.

Section Soundness.
Context (sha256 : bytes -> bytes) (to_vec : Value -> option bytes) (attempt_identity : bytes).
Context (config : VertexConfig) (env : Env).
Let ok {A} s (m : Gen A) (post : A -> State -> Prop) :=
  follows (step sha256 to_vec attempt_identity) s m post justified (fun _ => False).

Lemma ok_or_fail {A} s f (m : Gen (res A)) (post : A -> State -> Prop) :
  ok s m (fun r s' => match r with Ok a => post a s' | Err e => justified (Err (f e)) s' end) ->
  ok s (or_fail f m) post.
Proof.
  intros Hm; eapply follows_bind; [exact Hm |]; intros [a|e] s' Hp; cbn in Hp.
  - by apply follows_done.
  - by apply follows_return.
Qed.

(** Before admission every failure is a pre-egress one. *)
Lemma ok_preflight {A B} (event : res A -> Event) answer (k : A -> Gen B) post :
  (forall a, step sha256 to_vec attempt_identity Idle (event a) Idle) -> (forall a, ok Idle (k a) post) ->
  ok Idle (let! a := or_fail before_egress (call event answer) in k a) post.
Proof.
  intros st Hk; eapply follows_bind with (mid := fun _ s => s = Idle); [| intros a s ->; apply Hk].
  apply ok_or_fail, (follows_call_to _ _ _ _ (fun _ => Idle)); [exact st |].
  intros [a|e]; cbn; auto.
Qed.

(** An admitted attempt with the request its admission commits to. *)
Definition prepared (p : PreparedTextRequest) (s : State) : Prop :=
  durable p = true /\ exists encoded,
    to_vec (http_body (prepared_request p)) = Some encoded /\ s = AdmittedAttempt (invocation p) (sha256 encoded).

Lemma admit_ok operation model location anchor :
  ok Idle (admit_attempt env (Durable attempt_identity) operation model location anchor)
    (fun id s => s = AdmittedAttempt id anchor).
Proof.
  unfold admit_attempt; eapply follows_bind with (mid := fun attempt s => s = after_admission anchor (Ok attempt)).
  - apply ok_or_fail, (follows_call_to _ _ _ _ (after_admission anchor)); [intros a; constructor |].
    intros [attempt|e]; cbn; [done |]; unfold durable_admission_refused.
    destruct e; cbn; eauto.
  - intros attempt s ->; cbn; destruct (admission attempt).
    + by apply follows_done.
    + apply follows_return; cbn; eauto.
    + apply follows_return; cbn; eauto.
Qed.

Lemma prepare_ok request contract :
  ok Idle (prepare_custom_with_model_inner sha256 to_vec config env request (Durable attempt_identity) contract)
    prepared.
Proof.
  unfold prepare_custom_with_model_inner; cbv zeta.
  eapply follows_bind with (mid := fun _ s => s = Idle).
  { apply ok_or_fail; unfold require_active_account.
    eapply follows_bind with (mid := fun _ s => s = Idle).
    - apply (follows_call_to _ _ _ _ (fun _ => Idle)); [constructor | done].
    - intros [[]|e] s ->; apply follows_done; cbn; auto. }
  intros _ s ->; destruct (settings_valid _ _); cbn [negb]; [| apply follows_return; cbn; auto].
  apply ok_preflight; [constructor |]; intros [].
  apply ok_preflight; [constructor |]; intros token.
  set (both := text_request_body_and_caller_anchor _ _ _ _ _ _ _ _).
  assert (anchored : forall body anchor, both = Ok (body, anchor) ->
            exists encoded, to_vec body = Some encoded /\ anchor = sha256 encoded).
  { unfold both, text_request_body_and_caller_anchor; intros body anchor E.
    apply result_bind_Ok in E as (encoded & E & E'); injection E' as <- <-.
    unfold ok_or in E; destruct (to_vec _) as [v|]; [injection E as -> |]; eauto; discriminate. }
  clearbody both; destruct both as [[body anchor]|e].
  - destruct (anchored body anchor eq_refl) as (encoded & E & ->); clear anchored.
    apply ok_preflight; [constructor |]; intros [].
    eapply follows_bind; [apply admit_ok |]; intros id s ->; apply follows_done.
    split; [done |]; exists encoded; auto.
  - apply follows_return; cbn; auto.
Qed.

Lemma ambiguous_ok p status error :
  ok (Lost (invocation p) status) (ambiguous env p status error) justified.
Proof.
  unfold ambiguous, settle_ambiguous_required.
  eapply follows_bind with (mid := fun a s => s = Settled (invocation p) (recorded AsAmbiguous a)).
  - by apply (follows_call_to _ _ _ _ (fun a => Settled (invocation p) (recorded AsAmbiguous a))); [constructor |].
  - intros a s ->; apply follows_done; cbn; exists (invocation p); split; [done |]; destruct a; cbn; auto.
Qed.

Lemma refused_status_ok p status :
  durable p = true -> is_error_status status = true ->
  ok (Status (invocation p) status) (refused_status env p status) justified.
Proof.
  intros dur error; unfold refused_status; cbv zeta; rewrite dur.
  destruct (http_disposition_cases status) as [d | d]; rewrite d.
  - eapply follows_bind with (mid := fun a s => s = Settled (invocation p) (recorded (AsNotBilled status) a)).
    + by apply (follows_call_to _ _ _ _ (fun a => Settled (invocation p) (recorded (AsNotBilled status) a))); [by constructor |].
    + intros [[]|e] s ->; apply follows_done; cbn; exists (invocation p); split; try done; [| auto].
      right; exists status; split; [done | by apply not_billed_status].
  - eapply follows_bind with (mid := fun a s => s = Settled (invocation p) (recorded AsAmbiguous a)).
    + by apply (follows_call_to _ _ _ _ (fun a => Settled (invocation p) (recorded AsAmbiguous a))); [by constructor |].
    + intros [[]|e] s ->; apply follows_done; cbn; eauto 6.
Qed.

Lemma answered_ok p status data :
  durable p = true -> ok (Received (invocation p) status data) (answered env p status data) justified.
Proof.
  intros dur; unfold answered; cbv zeta; rewrite dur.
  eapply follows_bind with (mid := fun a s =>
    s = match a with Ok _ => Settled (invocation p) (AsResponse data) | Err _ => Unrecorded (invocation p) status end).
  - by apply (follows_call_to _ _ _ _ (fun a => match a with Ok _ => Settled (invocation p) (AsResponse data)
                                       | Err _ => Unrecorded (invocation p) status end)); [constructor |].
  - intros [[]|e] s ->; cbn.
    + destruct (is_empty (response_text data)) eqn:empty; apply follows_done; cbn.
      * apply is_empty_true in empty; eauto 6.
      * apply is_empty_false in empty; eauto.
    + eapply follows_bind with (mid := fun a s => s = Settled (invocation p) (recorded AsAmbiguous a)).
      * by apply (follows_call_to _ _ _ _ (fun a => Settled (invocation p) (recorded AsAmbiguous a))); [constructor |].
      * intros [[]|e'] s ->; apply follows_done; cbn; eauto 6.
Qed.

Lemma send_ok p s : prepared p s -> ok s (send env p) justified.
Proof.
  intros (dur & encoded & enc & ->); unfold send.
  eapply follows_bind with (mid := fun a s =>
    s = match a with Ok status => Status (invocation p) status | Err _ => Lost (invocation p) None end).
  { apply (follows_call_to _ _ _ _ (fun a => match a with Ok status => Status (invocation p) status
                                   | Err _ => Lost (invocation p) None end)); [| done].
    intros a; by apply (step_execute _ _ _ _ _ _ encoded). }
  intros [status|e] s ->; [| apply ambiguous_ok].
  destruct (is_error_status status) eqn:error; [by apply refused_status_ok |].
  eapply follows_bind with (mid := fun a s =>
    s = match a with Ok data => Received (invocation p) status data | Err _ => Lost (invocation p) (Some status) end).
  { by apply (follows_call_to _ _ _ _ (fun a => match a with Ok data => Received (invocation p) status data
                                   | Err _ => Lost (invocation p) (Some status) end)); [by constructor |]. }
  intros [data|e] s ->; [by apply answered_ok | apply ambiguous_ok].
Qed.

(** C35: a durable generation sends at most one request, only after the ledger
    admitted the attempt and only the body that admission commits to, and
    settles it in the ledger before its outcome is classified.  A text comes
    from a response the ledger recorded; a retry of the same attempt is
    offered only when nothing was admitted, a retry with a new attempt only
    for a request the ledger holds as not billed, with one of the statuses
    that precede inference; anything else that may have been sent is
    ambiguous or a recorded invalid response; and nothing panics. *)
Theorem generation_settles_before_classifying request contract :
  ok Idle (generate_custom_with_model_inner sha256 to_vec config env request (Durable attempt_identity) contract)
    justified.
Proof.
  eapply follows_bind; [apply prepare_ok |]; intros p s Hp; by apply send_ok.
Qed.
End Soundness.

(** ** Billable usage *)

(** A usage report whose parts add up: every count present, a positive prompt
    and total, and cached tokens within the input they were read from. *)
Definition consistent (u : VertexUsage) : Prop :=
  (exists p, prompt_tokens u = Some p /\ 0 < p) /\ (exists t, total_tokens u = Some t /\ 0 < t)
  /\ is_Some (output_tokens u) /\ default 0 (tool_use_prompt_tokens u) = 0
  /\ (cache_details_present u = true ->
      exists text audio image cached_text cached_audio cached_image,
        input_text_tokens u = Some text /\ input_audio_tokens u = Some audio
        /\ input_image_tokens u = Some image
        /\ cached_input_text_tokens u = Some cached_text /\ cached_text <= text
        /\ cached_input_audio_tokens u = Some cached_audio /\ cached_audio <= audio
        /\ cached_input_image_tokens u = Some cached_image /\ cached_image <= image
        /\ cached_input_tokens u
           = Some (saturating_add_u64 (saturating_add_u64 cached_text cached_audio) cached_image)).

Lemma billable_usage_consistent metadata model u :
  normalized_billable_response metadata = (model, Some u) ->
  (exists name, model = Some name /\ model_version metadata = Some name
                /\ vertex_model_name_is_billing_safe name = true) /\ consistent u.
Proof.
  unfold normalized_billable_response; destruct (model_version metadata) as [name|]; [| discriminate].
  destruct (vertex_model_name_is_billing_safe name) eqn:safe; [| discriminate]; cbn.
  intros E; injection E as <- E; split; [eauto |]; revert E; unfold normalized_usage, positive.
  destruct (usage metadata) as [v|]; [| discriminate].
  destruct (prompt_tokens v) as [p|]; [| discriminate]; destruct (0 <? p) eqn:Hp; [| discriminate].
  destruct (total_tokens v) as [t|]; [| discriminate]; destruct (0 <? t) eqn:Ht; [| discriminate].
  destruct (output_tokens v) as [o|]; [| discriminate]; destruct (_ || _) eqn:T; [discriminate |].
  apply orb_false_iff in T as [T%negb_false_iff%Z.eqb_eq _].
  destruct (cached_details v) as [[[text audio] image]|] eqn:C; [| discriminate].
  intros E; injection E as <-; bool_prop; split_and!; cbn; eauto.
  intros present; unfold cached_details in C; rewrite present in C.
  destruct (_ || _) eqn:bad; [discriminate |]; injection C as <- <- <-.
  apply orb_false_iff in bad as [bad Hi]; apply orb_false_iff in bad as [bad Ha].
  apply orb_false_iff in bad as [sum Hx]; bool_prop; subst.
  do 6 eexists; split_and!; try done; by f_equal.
Qed.
