(* ===== verification/ReconcilerFlow.v ===== *)
(** * The memory reconciler: one reconciliation

    [cp/reconciler.rs]: [reconcile_user_episodes] as a program of [Effects],
    from the activation phase to the publication of one cohort, with the
    commitment of the producer's contract.  The repositories, the usage
    ledger and the provider answer through [Env]; SHA-256, [serde_json] and
    the prompt text are parameters.

    The program is then related to a state machine, [step], whose states say
    what a run has established so far; the safety theorems are read off the
    machine by rule induction. *)
From Stdlib Require Import ZArith Lia.
From S2P Require Import Prelude OrdMap Text F64 Errors Bytes Json Presentation Reconciliation Vertex Reconciler.
From S2P Require Import Effects VertexFlow.
Local Open Scope Z_scope.
Local Open Scope kioku_scope.

(** ** Values the repositories answer *)

Record FrozenReconciliationProviderRequest := {
  fr_request : ReconciliationProviderRequest;
  replayed : bool
}.

Record OversizedKeepPromotionPolicy := {
  op_draft_limit : Z;
  op_atom_limit : Z;
  op_reconciliation_version : Z;
  op_prompt_version : Z;
  op_partition_schema_version : Z;
  op_validator_version : Z
}.

Inductive OversizedKeepPromotionResult :=
| NotOversized
| Held (resume_after_component_ended_at : option str)
| Promoted (episode_ids : list Z) (reconciliation_id : str) (archive_revision : Z).

Record ReconciliationPublish := {
  pb_claim : ReconciliationClaim;
  pb_reconciliation_id : str;
  pb_cohort_started_at : str;
  pb_cohort_ended_at : str;
  pb_result_commitment : bytes
}.

Inductive ReconciliationPublishResult :=
| Published (successor_episode_ids : list Z) (archive_revision : Z)
| Replayed (successor_episode_ids : list Z) (archive_revision : Z).

Record VertexDurableAttemptProvenance := {
  dp_event_id : str;
  dp_request_fingerprint : bytes;
  dp_outcome : str
}.

(** The deployment's settings the reconciler reads. *)
Record ReconcilerConfig := { vertex_reconciliation_model : str; rc_vertex_location : str }.

(** ** The calls of a run, with their answers *)

Inductive Event :=
| EPhase (answer : res MemoryReconciliationActivationPhase)
| EPromote (account_id : str) (quiet_horizon_seconds : Z) (resume : option str)
    (policy : OversizedKeepPromotionPolicy) (answer : res OversizedKeepPromotionResult)
| ENextCohort (account_id : str) (quiet_horizon_seconds : Z) (resume : option str)
    (draft_limit atom_limit : Z) (answer : res (option ReconciliationSnapshot))
| EClaim (snapshot : ReconciliationSnapshot) (lease_seconds : Z) (answer : res (option ReconciliationClaim))
| ERelease (claim : ReconciliationClaim) (delay_seconds : option Z) (error_code : string)
    (terminal consume_model_attempt : bool) (answer : res unit)
| EStagedResult (claim : ReconciliationClaim) (answer : res (option StagedReconciliation))
| EFreeze (claim : ReconciliationClaim) (current : option ReconciliationProviderRequest)
    (answer : res (option FrozenReconciliationProviderRequest))
| EReserve (tokens : Z) (answer : res bool)
| ERevalidate (account_id : str) (predecessor_episode_ids : list Z) (source_fingerprint : bytes)
    (answer : res bool)
| EPrepare (request : CustomTextGenerationRequest) (attempt_identity : bytes)
    (answer : result VertexGenerationFailure PreparedTextRequest)
| EAcquireGuard (claim : ReconciliationClaim) (answer : res bool)
| ERejectBeforeEgress (prepared : PreparedTextRequest) (answer : res unit)
| ESend (prepared : PreparedTextRequest) (answer : result VertexGenerationFailure TextGeneration)
| EAbortGuard (answer : res unit)
| EProvenance (account_id : str) (attempt_identity : bytes)
    (answer : res (option VertexDurableAttemptProvenance))
| EStageAndRelease (stage : ReconciliationStageWrite) (answer : res StagedReconciliation)
| EStage (claim : ReconciliationClaim) (stage : ReconciliationStageWrite) (answer : res StagedReconciliation)
| EPublish (command : ReconciliationPublish) (answer : res ReconciliationPublishResult)
| EEmbed (ids : list Z).

Record Env := {
  activation_phase : list Event -> res MemoryReconciliationActivationPhase;
  promote_oversized : list Event -> res OversizedKeepPromotionResult;
  next_source_settled_cohort : list Event -> res (option ReconciliationSnapshot);
  claim_reconciliation : list Event -> res (option ReconciliationClaim);
  release_reconciliation : list Event -> res unit;
  staged_result : list Event -> res (option StagedReconciliation);
  freeze_provider_request : list Event -> res (option FrozenReconciliationProviderRequest);
  reserve : list Event -> res bool;
  revalidate_source_fingerprint : list Event -> res bool;
  prepare : list Event -> result VertexGenerationFailure PreparedTextRequest;
  acquire_provider_egress_guard : list Event -> res bool;
  reject : list Event -> res unit;
  send_prepared : list Event -> result VertexGenerationFailure TextGeneration;
  abort_guard : list Event -> res unit;
  durable_attempt_provenance : list Event -> res (option VertexDurableAttemptProvenance);
  stage_and_release : list Event -> res StagedReconciliation;
  stage_reconciliation : list Event -> res StagedReconciliation;
  publish_reconciliation : list Event -> res ReconciliationPublishResult
}.

Definition OVERSIZED_POLICY : OversizedKeepPromotionPolicy :=
  {| op_draft_limit := MAX_COHORT_DRAFTS; op_atom_limit := MAX_COHORT_ATOMS;
     op_reconciliation_version := RECONCILIATION_VERSION; op_prompt_version := PROMPT_VERSION;
     op_partition_schema_version := PARTITION_SCHEMA_VERSION; op_validator_version := VALIDATOR_VERSION |}.

(** ** The producer's contract *)

Definition reconciliation_response_schema : Value :=
  let strings := array_type string_type in
  object
    [("type", VString (lit "OBJECT"));
     ("properties", object [("memories", array_type (object
        [("type", VString (lit "OBJECT"));
         ("properties", object
            [("source_ids", strings);
             ("type", enum_type ["meeting"; "lesson"; "call"; "coding"; "browsing"; "break"; "other"]);
             ("title", string_type); ("summary", string_type); ("languages", strings);
             ("action_items", strings);
             ("timeline", array_type (object
                [("type", VString (lit "OBJECT"));
                 ("properties", object [("source_ids", strings); ("gist", string_type)]);
                 ("required", of_strs (lit <$> ["source_ids"; "gist"]))]))]);
         ("required", of_strs (lit <$> ["source_ids"; "type"; "title"; "summary"; "languages";
                                        "action_items"; "timeline"]))]))]);
     ("required", of_strs (lit <$> ["memories"]))]%string.

Section Producer.
Context (sha256 : bytes -> bytes) (to_vec : Value -> option bytes) (SYSTEM_PROMPT : str).

Definition producer_contract (model location : str) : Value :=
  object
    [("contract", VString (lit "kioku.memory-reconciliation.vertex-producer"));
     ("contract_version", of_Z 1); ("model", VString model); ("location", VString location);
     ("vertex", object
        [("api_version", VString GENERATE_CONTENT_API_VERSION);
         ("publisher", VString GENERATE_CONTENT_PUBLISHER);
         ("method", VString GENERATE_CONTENT_METHOD);
         ("operation", VString (operation_as_str EpisodeReconciliation));
         ("generation_config", object
            [("maxOutputTokens", of_Z RECONCILIATION_OUTPUT_TOKENS);
             ("responseMimeType", VString JSON_RESPONSE_MIME_TYPE);
             ("thinkingConfig", object [("thinkingBudget", of_Z THINKING_BUDGET)])])]);
     ("versions", object
        [("reconciliation", of_Z RECONCILIATION_VERSION); ("prompt", of_Z PROMPT_VERSION);
         ("partition_schema", of_Z PARTITION_SCHEMA_VERSION); ("validator", of_Z VALIDATOR_VERSION)]);
     ("system_prompt", VString SYSTEM_PROMPT);
     ("response_schema", reconciliation_response_schema);
     ("bounds", object
        [("cohort_drafts", of_Z MAX_COHORT_DRAFTS); ("candidate_context_seconds", of_Z (8 * 60 * 60));
         ("organization_readiness", VString (lit "current-formation-without-brief-seal-v1"));
         ("cohort_atoms", of_Z MAX_COHORT_ATOMS); ("outputs", of_Z MAX_OUTPUTS);
         ("title_chars", of_Z (Z.of_nat MAX_TITLE_CHARS));
         ("summary_chars", of_Z (Z.of_nat MAX_SUMMARY_CHARS));
         ("gist_chars", of_Z (Z.of_nat MAX_GIST_CHARS));
         ("context_chars", of_Z (Z.of_nat MAX_CONTEXT_CHARS));
         ("context_total_chars", of_Z (Z.of_nat MAX_CONTEXT_TOTAL_CHARS));
         ("model_input_bytes", of_Z MAX_MODEL_INPUT_BYTES)]);
     ("fallback", object
        [("confirmed_attempts_before_conservative_keep", of_Z MODEL_ATTEMPTS_BEFORE_CONSERVATIVE_KEEP);
         ("no_provider_model", VString CONSERVATIVE_MODEL);
         ("ambiguous_provider_model", VString CONSERVATIVE_AMBIGUITY_MODEL);
         ("ambiguous_provider_resend", VBool false);
         ("oversized_keep_policy_commitment",
          VArray ((fun b => of_Z (Z.of_N b)) <$> oversized_keep_policy_commitment sha256))]);
     ("request_body_commitment", VString (lit "sha256-serde-json-value-v1"));
     ("provider_attempt_identity",
      VString (lit "source-fingerprint-activation-generation-producer-contract-model-attempt-v2"))]%string.

Definition producer_contract_commitment (model location : str) : res bytes :=
  if is_empty model || negb (str_eqb (trim model) model) || (256 <? char_count model)
     || is_empty location || negb (str_eqb (trim location) location) || (128 <? char_count location)
  then Err (Config (lit "memory reconciliation producer model/location is invalid"))
  else
    let? encoded := ok_or (to_vec (producer_contract model location)) Errors.Json in
    Ok (sha256 (blit "kioku.memory-reconciliation.producer-contract.v1" ++ [0%N] ++ encoded)).

Definition producer_contract_sha256_label (model location : str) : res str :=
  let? digest := producer_contract_commitment model location in
  Ok (lit "sha256:" ++ hex_of_bytes digest).

Definition claim_producer_matches_process (claim : ReconciliationClaim)
    (configured_model configured_location : str) : res bool :=
  if str_eqb (cl_reconciliation_model claim) configured_model
     && str_eqb (cl_vertex_location claim) configured_location
  then
    let? commitment := producer_contract_commitment configured_model configured_location in
    Ok (bool_decide (cl_producer_contract_sha256 claim = commitment))
  else Ok false.
End Producer.

(** ** One run *)

Definition reconciliation_id (sha256 : bytes -> bytes) (snapshot : ReconciliationSnapshot)
    (result_commitment : bytes) : str :=
  lit "rec_" ++ hex_of_bytes (sha256 (blit "kioku:postgres-memory-reconciliation:v1" ++ [0%N]
    ++ s_source_fingerprint snapshot ++ result_commitment)).

(** The result the run stages: the partition, the model it is attributed to,
    its provenance in the usage ledger, and the labels it was written with. *)
Record Authored := {
  au_partition : ValidatedPartition;
  au_model : str;
  au_event_id : option str;
  au_attempt_identity : option bytes;
  au_fingerprint : option bytes;
  au_labels : AuthoredLabelMap
}.

Definition stage_of (a : Authored) : res ReconciliationStageWrite :=
  build_stage (au_partition a) (au_model a) (au_event_id a) (au_attempt_identity a) (au_fingerprint a)
    (au_labels a).

Section Run.
Context (sha256 : bytes -> bytes) (to_vec : Value -> option bytes) (to_string : Value -> option str).
(** [serde_json::from_str] at [ModelPartition]. *)
Context (partition_from_str : str -> option ModelPartition).
Context (SYSTEM_PROMPT : str) (config : ReconcilerConfig) (account_id : str).

Definition cohort_is_valid (snapshot : ReconciliationSnapshot) : bool :=
  negb (negb (str_eqb (s_account_id snapshot) account_id)
        || is_empty (s_predecessor_episode_ids snapshot)
        || (MAX_COHORT_DRAFTS <? Z.of_nat (length (s_drafts snapshot)))
        || (MAX_COHORT_ATOMS <? Z.of_nat (length (s_atoms snapshot)))).

Definition staged_identity_matches (snapshot : ReconciliationSnapshot) (claim : ReconciliationClaim)
    (staged : StagedReconciliation) : bool :=
  negb (negb (str_eqb (st_account_id staged) (s_account_id snapshot))
        || negb (bool_decide (st_source_fingerprint staged = s_source_fingerprint snapshot))
        || negb (bool_decide (st_predecessor_episode_ids staged = s_predecessor_episode_ids snapshot))
        || negb (st_activation_generation staged =? cl_activation_generation claim)
        || negb (bool_decide (st_producer_contract_sha256 staged = cl_producer_contract_sha256 claim))
        || negb (str_eqb (st_reconciliation_model staged) (cl_reconciliation_model claim))
        || negb (str_eqb (st_vertex_location staged) (cl_vertex_location claim))).

Definition stage_is_current (claim : ReconciliationClaim) (staged : StagedReconciliation) : bool :=
  stage_contract_is_current staged
  && stage_model_is_current (st_model staged) (vertex_reconciliation_model config)
       (cl_model_attempt_count claim).

(** The request this build would freeze; [None] when its rendering is
    refused. *)
Definition current_request (snapshot : ReconciliationSnapshot) : option ReconciliationProviderRequest :=
  match render_model_input to_string snapshot with
  | Ok input =>
    Some {| Reconciliation.contract_version := RECONCILIATION_PROVIDER_REQUEST_CONTRACT_VERSION;
            pr_authored_labels := s_authored_labels snapshot; user_message := input |}
  | Err _ => None
  end.

Definition attempt_identity_of (snapshot : ReconciliationSnapshot) (claim : ReconciliationClaim) : res bytes :=
  reconciliation_provider_attempt_identity sha256 (s_source_fingerprint snapshot)
    (cl_activation_generation claim) (cl_producer_contract_sha256 claim) (cl_model_attempt_count claim).

Definition provider_request (frozen : FrozenReconciliationProviderRequest) : CustomTextGenerationRequest :=
  {| r_operation := EpisodeReconciliation; r_system := SYSTEM_PROMPT;
     r_user_message := user_message (fr_request frozen); r_schema := reconciliation_response_schema;
     r_max_output_tokens := RECONCILIATION_OUTPUT_TOKENS; r_model := vertex_reconciliation_model config |}.

Definition fingerprint_of (claim : ReconciliationClaim) (frozen : FrozenReconciliationProviderRequest) :
  res bytes :=
  let? caller_anchor := custom_text_request_caller_anchor sha256 to_vec (provider_request frozen) in
  Ok (vertex_invocation_fingerprint sha256 account_id EpisodeReconciliation
        (vertex_reconciliation_model config) (cl_vertex_location claim) caller_anchor).

(** The partition that keeps every memory, and what it is staged as. *)
Definition kept_partition (snapshot : ReconciliationSnapshot) : res ValidatedPartition :=
  let? model := conservative_partition snapshot in
  validate_partition sha256 to_vec snapshot model.

Definition conservative_keep (snapshot : ReconciliationSnapshot) (model : str) (event_id : option str)
    (attempt_identity fingerprint : option bytes) : res Authored :=
  let? partition := kept_partition snapshot in
  Ok {| au_partition := partition; au_model := model; au_event_id := event_id;
        au_attempt_identity := attempt_identity; au_fingerprint := fingerprint;
        au_labels := s_authored_labels snapshot |}.

Definition providerless_keep (snapshot : ReconciliationSnapshot) : res Authored :=
  conservative_keep snapshot CONSERVATIVE_MODEL None None None.

Definition ambiguous_keep (snapshot : ReconciliationSnapshot) (event_id : str)
    (attempt_identity fingerprint : bytes) : res Authored :=
  conservative_keep snapshot CONSERVATIVE_AMBIGUITY_MODEL (Some event_id) (Some attempt_identity)
    (Some fingerprint).

(** The model's own partition. *)
Definition authored_by_model (frozen : FrozenReconciliationProviderRequest) (event_id : str)
    (attempt_identity fingerprint : bytes) (partition : ValidatedPartition) : Authored :=
  {| au_partition := partition; au_model := vertex_reconciliation_model config;
     au_event_id := Some event_id; au_attempt_identity := Some attempt_identity;
     au_fingerprint := Some fingerprint; au_labels := pr_authored_labels (fr_request frozen) |}.

Definition publish_command (snapshot : ReconciliationSnapshot) (claim : ReconciliationClaim)
    (staged : StagedReconciliation) : ReconciliationPublish :=
  {| pb_claim := claim; pb_reconciliation_id := reconciliation_id sha256 snapshot (st_result_commitment staged);
     pb_cohort_started_at := s_cohort_started_at snapshot; pb_cohort_ended_at := s_cohort_ended_at snapshot;
     pb_result_commitment := st_result_commitment staged |}.

Definition successors (result : ReconciliationPublishResult) : list Z :=
  match result with Published ids _ | Replayed ids _ => ids end.

Context (env : Env).

Definition reserve_output {R} : prog Event R (res unit) :=
  let! reserved := call (EReserve RECONCILIATION_OUTPUT_TOKENS) (reserve env) in
  done_with (match reserved with
             | Ok true => Ok tt
             | Ok false => Err (Config (lit "vertex_daily_budget"))
             | Err e => Err e
             end).

Definition release_for_retry {R} (claim : ReconciliationClaim) (error_code : string)
    (consume_model_attempt : bool) : prog Event R (res unit) :=
  call (ERelease claim (Some (retry_delay_seconds (cl_attempt_count claim))) error_code false
          consume_model_attempt) (release_reconciliation env).

(** [release_for_retry(...).await?; return Ok(false)] *)
Definition retry_later {A} (claim : ReconciliationClaim) (error_code : string) (consume_model_attempt : bool) :
  prog Event (res bool) A :=
  try_ (release_for_retry claim error_code consume_model_attempt) ;! return_ (Ok false).

(** The guard the run holds, if any: aborting takes it. *)
Definition abort_provider_egress_guard {R} (guard : bool) : prog Event (res R) unit :=
  if guard then try_ (call EAbortGuard (abort_guard env)) else done_with tt.

Definition abandon {A} (guard : bool) (claim : ReconciliationClaim) (error_code : string)
    (consume_model_attempt : bool) : prog Event (res bool) A :=
  abort_provider_egress_guard guard ;! retry_later claim error_code consume_model_attempt.

(** The search for a component that fits; [n] tries are left. *)
Fixpoint promote_oversized_prefixes (n : nat) (resume : option str) : prog Event (res bool) (option str) :=
  match n with
  | O => done_with resume
  | S n =>
    let! result :=
      try_ (call (EPromote account_id QUIET_HORIZON_SECONDS resume OVERSIZED_POLICY)
              (promote_oversized env)) in
    match result with
    | NotOversized => done_with resume
    | Held (Some boundary) => promote_oversized_prefixes n (Some boundary)
    | Held None => return_ (Ok false)
    | Promoted _ _ _ => return_ (Ok false)
    end
  end.

Definition publish_staged (snapshot : ReconciliationSnapshot) (claim : ReconciliationClaim)
    (staged : StagedReconciliation) : prog Event (res bool) (list Z) :=
  try_pure (validate_stage sha256 to_vec snapshot staged) ;!
  let! result := try_ (call (EPublish (publish_command snapshot claim staged)) (publish_reconciliation env)) in
  done_with (successors result).

Definition embed_episodes {R} (ids : list Z) : prog Event R unit := call (fun _ => EEmbed ids) (fun _ => tt).

(** The refused provider attempt of another try of the same identity. *)
Definition settle_reused_identity (snapshot : ReconciliationSnapshot) (claim : ReconciliationClaim)
    (attempt_identity : bytes) (guard : bool) : prog Event (res bool) (Authored * bool) :=
  abort_provider_egress_guard guard ;!
  let! stored :=
    try_ (call (EProvenance account_id attempt_identity) (durable_attempt_provenance env)) in
  match stored with
  | None => return_ (Err (Store (lit "reused reconciliation attempt identity has no usage event")))
  | Some stored =>
    if str_eqb (dp_outcome stored) (lit "not_billed") then
      retry_later claim "provider_attempt_input_mismatch" true
    else
      let! acquired := try_ (call (EAcquireGuard claim) (acquire_provider_egress_guard env)) in
      if (acquired : bool) then
        let! authored :=
          try_pure (ambiguous_keep snapshot (dp_event_id stored) attempt_identity
                      (dp_request_fingerprint stored)) in
        done_with (authored, true)
      else retry_later claim "source_changed_before_egress" false
  end.

Definition settle_failure (snapshot : ReconciliationSnapshot) (claim : ReconciliationClaim)
    (attempt_identity fingerprint : bytes) (guard : bool) (error : VertexGenerationFailure) :
  prog Event (res bool) (Authored * bool) :=
  match provider_failure_action (disposition error) with
  | RetrySameAttempt => abandon guard claim "provider_preflight" false
  | RetryWithNewAttempt =>
    match disposition error with
    | RetryableNotBilled => abandon guard claim "provider_not_billed" true
    | ConfirmedInvalid => abandon guard claim "provider_invalid_response" true
    | _ => panic
    end
  | ConservativeKeep =>
    let! event_id :=
      try_pure (ok_or (failure_event_id error)
                  (Store (lit "ambiguous reconciliation provider attempt has no event id"))) in
    let! authored := try_pure (ambiguous_keep snapshot event_id attempt_identity fingerprint) in
    done_with (authored, guard)
  | SettleReusedIdentity => settle_reused_identity snapshot claim attempt_identity guard
  end.

Definition settle_generation (snapshot : ReconciliationSnapshot) (claim : ReconciliationClaim)
    (frozen : FrozenReconciliationProviderRequest) (attempt_identity fingerprint : bytes) (guard : bool)
    (generation : result VertexGenerationFailure TextGeneration) : prog Event (res bool) (Authored * bool) :=
  match generation with
  | Ok generation =>
    match partition_from_str (generated_text generation) with
    | None => abandon guard claim "invalid_json" true
    | Some model =>
      match validate_partition sha256 to_vec snapshot model with
      | Err _ => abandon guard claim "invalid_partition" true
      | Ok partition =>
        done_with (authored_by_model frozen (generation_event_id generation) attempt_identity fingerprint
                     partition, guard)
      end
    end
  | Err error => settle_failure snapshot claim attempt_identity fingerprint guard error
  end.

(** The admitted request under the egress guard, or its refusal. *)
Definition send_guarded (claim : ReconciliationClaim)
    (prepared : result VertexGenerationFailure PreparedTextRequest) :
  prog Event (res bool) (result VertexGenerationFailure TextGeneration * bool) :=
  match prepared with
  | Err error => done_with (Err error, false)
  | Ok prepared =>
    let! guard := call (EAcquireGuard claim) (acquire_provider_egress_guard env) in
    match guard with
    | Ok true =>
      let! generation := call (ESend prepared) (send_prepared env) in
      done_with (generation, true)
    | Ok false =>
      try_ (call (ERejectBeforeEgress prepared) (reject env)) ;!
      retry_later claim "source_changed_before_egress" true
    | Err error =>
      try_ (call (ERejectBeforeEgress prepared) (reject env)) ;!
      return_ (Err error)
    end
  end.

(** The request frozen for this attempt. *)
Definition freeze_request (snapshot : ReconciliationSnapshot) (claim : ReconciliationClaim) :
  prog Event (res bool) FrozenReconciliationProviderRequest :=
  let! frozen := call (EFreeze claim (current_request snapshot)) (freeze_provider_request env) in
  match frozen with
  | Ok (Some frozen) => done_with frozen
  | Ok None | Err (InvalidRequest _) => retry_later claim "input_encoding_failed" false
  | Err error => return_ (Err error)
  end.

Definition author_with_provider (snapshot : ReconciliationSnapshot) (claim : ReconciliationClaim) :
  prog Event (res bool) (Authored * bool) :=
  let! frozen := freeze_request snapshot claim in
  let! reserved := reserve_output in
  match reserved with
  | Err _ => retry_later claim "quota_unavailable" false
  | Ok _ =>
    let! current :=
      try_ (call (ERevalidate account_id (s_predecessor_episode_ids snapshot) (s_source_fingerprint snapshot))
              (revalidate_source_fingerprint env)) in
    if negb current then retry_later claim "source_changed_before_egress" false
    else
      let! attempt_identity := try_pure (attempt_identity_of snapshot claim) in
      let! fingerprint := try_pure (fingerprint_of claim frozen) in
      let! prepared := call (EPrepare (provider_request frozen) attempt_identity) (prepare env) in
      let! sent := send_guarded claim prepared in
      let (generation, guard) := sent in
      settle_generation snapshot claim frozen attempt_identity fingerprint guard generation
  end.

Definition author (snapshot : ReconciliationSnapshot) (claim : ReconciliationClaim) :
  prog Event (res bool) (Authored * bool) :=
  if MODEL_ATTEMPTS_BEFORE_CONSERVATIVE_KEEP <=? cl_model_attempt_count claim then
    let! authored := try_pure (providerless_keep snapshot) in
    done_with (authored, false)
  else author_with_provider snapshot claim.

Definition stage_authored (claim : ReconciliationClaim) (guard : bool) (stage : ReconciliationStageWrite) :
  prog Event (res bool) StagedReconciliation :=
  if guard then try_ (call (EStageAndRelease stage) (stage_and_release env))
  else try_ (call (EStage claim stage) (stage_reconciliation env)).

Definition publish_and_embed (snapshot : ReconciliationSnapshot) (claim : ReconciliationClaim)
    (staged : StagedReconciliation) : prog Event (res bool) (res bool) :=
  let! ids := publish_staged snapshot claim staged in
  embed_episodes ids ;!
  done_with (Ok false).

Definition author_and_publish (snapshot : ReconciliationSnapshot) (claim : ReconciliationClaim) :
  prog Event (res bool) (res bool) :=
  let! authored := author snapshot claim in
  let (authored, guard) := authored in
  let! stage := try_pure (stage_of authored) in
  let! staged := stage_authored claim guard stage in
  publish_and_embed snapshot claim staged.

Definition reconcile_claimed (snapshot : ReconciliationSnapshot) (claim : ReconciliationClaim) :
  prog Event (res bool) (res bool) :=
  let! matches_ :=
    try_pure (claim_producer_matches_process sha256 to_vec SYSTEM_PROMPT claim
                (vertex_reconciliation_model config) (rc_vertex_location config)) in
  if negb matches_ then retry_later claim "producer_authority_mismatch" false
  else
    let! staged := try_ (call (EStagedResult claim) (staged_result env)) in
    match staged with
    | None => author_and_publish snapshot claim
    | Some staged =>
      if negb (staged_identity_matches snapshot claim staged) then
        return_ (Err (Store (lit "memory reconciliation staged identity mismatch")))
      else if stage_is_current claim staged then publish_and_embed snapshot claim staged
      else author_and_publish snapshot claim
    end.

Definition reconcile_user_episodes : prog Event (res bool) (res bool) :=
  let! phase := try_ (call EPhase (activation_phase env)) in
  match inactive_phase_allows_legacy_finalization phase with
  | Some may_finalize => done_with (Ok may_finalize)
  | None =>
    let! resume := promote_oversized_prefixes 8 None in
    let! snapshot :=
      try_ (call (ENextCohort account_id QUIET_HORIZON_SECONDS resume MAX_COHORT_DRAFTS MAX_COHORT_ATOMS)
              (next_source_settled_cohort env)) in
    match snapshot with
    | None => done_with (Ok true)
    | Some snapshot =>
      if negb (cohort_is_valid snapshot) then
        return_ (Err (Store (lit "memory reconciliation repository returned an invalid cohort")))
      else
        let! claim := try_ (call (EClaim snapshot CLAIM_LEASE_SECONDS) (claim_reconciliation env)) in
        match claim with
        | None => done_with (Ok false)
        | Some claim => reconcile_claimed snapshot claim
        end
    end
  end.
End Run.

(** ** What a run has established *)

Inductive State :=
| Start
| Inactive (may_finalize : bool)
| Searching (left : nat) (resume : option str)
| NoCohort
| Waiting
| Cohort (s : ReconciliationSnapshot)
| Claimed (s : ReconciliationSnapshot) (c : ReconciliationClaim)
| Unauthored (s : ReconciliationSnapshot) (c : ReconciliationClaim)
| Requested (s : ReconciliationSnapshot) (c : ReconciliationClaim) (f : FrozenReconciliationProviderRequest)
| Reserved (s : ReconciliationSnapshot) (c : ReconciliationClaim) (f : FrozenReconciliationProviderRequest)
| Current (s : ReconciliationSnapshot) (c : ReconciliationClaim) (f : FrozenReconciliationProviderRequest)
    (identity fingerprint : bytes)
| Prepared (s : ReconciliationSnapshot) (c : ReconciliationClaim) (f : FrozenReconciliationProviderRequest)
    (identity fingerprint : bytes) (p : PreparedTextRequest)
| Guarded (s : ReconciliationSnapshot) (c : ReconciliationClaim) (f : FrozenReconciliationProviderRequest)
    (identity fingerprint : bytes) (p : PreparedTextRequest)
| Rejecting (c : ReconciliationClaim) (p : PreparedTextRequest) (retry : bool)
| Aborting (c : ReconciliationClaim) (error_code : string) (consume_model_attempt : bool)
| Retry (c : ReconciliationClaim) (error_code : string) (consume_model_attempt : bool)
| AbortingReuse (s : ReconciliationSnapshot) (c : ReconciliationClaim) (identity : bytes)
| Reused (s : ReconciliationSnapshot) (c : ReconciliationClaim) (identity : bytes)
| Reacquire (s : ReconciliationSnapshot) (c : ReconciliationClaim) (identity : bytes)
    (stored : VertexDurableAttemptProvenance)
| Staging (s : ReconciliationSnapshot) (c : ReconciliationClaim) (stage : ReconciliationStageWrite) (guard : bool)
| Staged (s : ReconciliationSnapshot) (c : ReconciliationClaim) (staged : StagedReconciliation)
| Succeeded (ids : list Z)
| Finished
| Released
| Failed.

Section Machine.
Context (sha256 : bytes -> bytes) (to_vec : Value -> option bytes) (to_string : Value -> option str).
Context (partition_from_str : str -> option ModelPartition).
Context (SYSTEM_PROMPT : str) (config : ReconcilerConfig) (account_id : str).

Definition after_phase (a : res MemoryReconciliationActivationPhase) : State :=
  match a with
  | Ok phase =>
    match inactive_phase_allows_legacy_finalization phase with
    | Some may_finalize => Inactive may_finalize
    | None => Searching 8 None
    end
  | Err _ => Failed
  end.

Definition after_promotion (left : nat) (resume : option str) (a : res OversizedKeepPromotionResult) : State :=
  match a with
  | Ok NotOversized => Searching 0 resume
  | Ok (Held (Some boundary)) => Searching left (Some boundary)
  | Ok (Held None) | Ok (Promoted _ _ _) => Waiting
  | Err _ => Failed
  end.

Definition after_cohort (a : res (option ReconciliationSnapshot)) : State :=
  match a with
  | Ok None => NoCohort
  | Ok (Some s) => if cohort_is_valid account_id s then Cohort s else Failed
  | Err _ => Failed
  end.

Definition producer_matches (c : ReconciliationClaim) : res bool :=
  claim_producer_matches_process sha256 to_vec SYSTEM_PROMPT c (vertex_reconciliation_model config)
    (rc_vertex_location config).

Definition after_claim (s : ReconciliationSnapshot) (a : res (option ReconciliationClaim)) : State :=
  match a with
  | Ok None => Waiting
  | Ok (Some c) =>
    match producer_matches c with
    | Ok true => Claimed s c
    | Ok false => Retry c "producer_authority_mismatch" false
    | Err _ => Failed
    end
  | Err _ => Failed
  end.

Definition staging (s : ReconciliationSnapshot) (c : ReconciliationClaim) (a : res Authored) (guard : bool) :
  State :=
  match (let? a := a in stage_of a) with Ok stage => Staging s c stage guard | Err _ => Failed end.

Definition staged_ready (s : ReconciliationSnapshot) (c : ReconciliationClaim)
    (staged : StagedReconciliation) : State :=
  match validate_stage sha256 to_vec s staged with Ok _ => Staged s c staged | Err _ => Failed end.

Definition unstaged (s : ReconciliationSnapshot) (c : ReconciliationClaim) : State :=
  if MODEL_ATTEMPTS_BEFORE_CONSERVATIVE_KEEP <=? cl_model_attempt_count c
  then staging s c (providerless_keep sha256 to_vec s) false else Unauthored s c.

Definition after_staged_result (s : ReconciliationSnapshot) (c : ReconciliationClaim)
    (a : res (option StagedReconciliation)) : State :=
  match a with
  | Ok None => unstaged s c
  | Ok (Some staged) =>
    if negb (staged_identity_matches s c staged) then Failed
    else if stage_is_current config c staged then staged_ready s c staged else unstaged s c
  | Err _ => Failed
  end.

Definition after_freeze (s : ReconciliationSnapshot) (c : ReconciliationClaim)
    (a : res (option FrozenReconciliationProviderRequest)) : State :=
  match a with
  | Ok (Some f) => Requested s c f
  | Ok None | Err (InvalidRequest _) => Retry c "input_encoding_failed" false
  | Err _ => Failed
  end.

Definition after_reserve (s : ReconciliationSnapshot) (c : ReconciliationClaim)
    (f : FrozenReconciliationProviderRequest) (a : res bool) : State :=
  match a with Ok true => Reserved s c f | _ => Retry c "quota_unavailable" false end.

Definition after_revalidate (s : ReconciliationSnapshot) (c : ReconciliationClaim)
    (f : FrozenReconciliationProviderRequest) (a : res bool) : State :=
  match a with
  | Ok true =>
    match attempt_identity_of sha256 s c,
          fingerprint_of sha256 to_vec SYSTEM_PROMPT config account_id c f with
    | Ok identity, Ok fingerprint => Current s c f identity fingerprint
    | _, _ => Failed
    end
  | Ok false => Retry c "source_changed_before_egress" false
  | Err _ => Failed
  end.

Definition aborting (guard : bool) (c : ReconciliationClaim) (error_code : string) (consume : bool) : State :=
  if guard then Aborting c error_code consume else Retry c error_code consume.

Definition after_failure (s : ReconciliationSnapshot) (c : ReconciliationClaim)
    (identity fingerprint : bytes) (guard : bool) (error : VertexGenerationFailure) : State :=
  match disposition error with
  | RetryableBeforeEgress => aborting guard c "provider_preflight" false
  | RetryableNotBilled => aborting guard c "provider_not_billed" true
  | ConfirmedInvalid => aborting guard c "provider_invalid_response" true
  | AmbiguousTerminal =>
    match failure_event_id error with
    | Some event_id => staging s c (ambiguous_keep sha256 to_vec s event_id identity fingerprint) guard
    | None => Failed
    end
  | AttemptIdentityReused => if guard then AbortingReuse s c identity else Reused s c identity
  end.

Definition after_answer (s : ReconciliationSnapshot) (c : ReconciliationClaim)
    (f : FrozenReconciliationProviderRequest) (identity fingerprint : bytes) (guard : bool)
    (a : result VertexGenerationFailure TextGeneration) : State :=
  match a with
  | Ok generation =>
    match partition_from_str (generated_text generation) with
    | None => aborting guard c "invalid_json" true
    | Some model =>
      match validate_partition sha256 to_vec s model with
      | Err _ => aborting guard c "invalid_partition" true
      | Ok partition =>
        staging s c (Ok (authored_by_model config f (generation_event_id generation) identity fingerprint
                           partition)) guard
      end
    end
  | Err error => after_failure s c identity fingerprint guard error
  end.

Definition after_prepare (s : ReconciliationSnapshot) (c : ReconciliationClaim)
    (f : FrozenReconciliationProviderRequest) (identity fingerprint : bytes)
    (a : result VertexGenerationFailure PreparedTextRequest) : State :=
  match a with
  | Ok p => Prepared s c f identity fingerprint p
  | Err error => after_failure s c identity fingerprint false error
  end.

Definition after_guard (s : ReconciliationSnapshot) (c : ReconciliationClaim)
    (f : FrozenReconciliationProviderRequest) (identity fingerprint : bytes) (p : PreparedTextRequest)
    (a : res bool) : State :=
  match a with
  | Ok true => Guarded s c f identity fingerprint p
  | Ok false => Rejecting c p true
  | Err _ => Rejecting c p false
  end.

Definition or_failed (s : State) (a : res unit) : State := match a with Ok _ => s | Err _ => Failed end.

Definition after_provenance (s : ReconciliationSnapshot) (c : ReconciliationClaim) (identity : bytes)
    (a : res (option VertexDurableAttemptProvenance)) : State :=
  match a with
  | Ok (Some stored) =>
    if str_eqb (dp_outcome stored) (lit "not_billed") then Retry c "provider_attempt_input_mismatch" true
    else Reacquire s c identity stored
  | _ => Failed
  end.

Definition after_reacquire (s : ReconciliationSnapshot) (c : ReconciliationClaim) (identity : bytes)
    (stored : VertexDurableAttemptProvenance) (a : res bool) : State :=
  match a with
  | Ok true =>
    staging s c (ambiguous_keep sha256 to_vec s (dp_event_id stored) identity
                   (dp_request_fingerprint stored)) true
  | Ok false => Retry c "source_changed_before_egress" false
  | Err _ => Failed
  end.

Definition after_stage (s : ReconciliationSnapshot) (c : ReconciliationClaim)
    (a : res StagedReconciliation) : State :=
  match a with Ok staged => staged_ready s c staged | Err _ => Failed end.

Definition after_publish (a : res ReconciliationPublishResult) : State :=
  match a with Ok result => Succeeded (successors result) | Err _ => Failed end.

Inductive step : State -> Event -> State -> Prop :=
| step_phase a : step Start (EPhase a) (after_phase a)
| step_promote left resume a :
    step (Searching (S left) resume)
      (EPromote account_id QUIET_HORIZON_SECONDS resume OVERSIZED_POLICY a) (after_promotion left resume a)
| step_cohort resume a :
    step (Searching 0 resume)
      (ENextCohort account_id QUIET_HORIZON_SECONDS resume MAX_COHORT_DRAFTS MAX_COHORT_ATOMS a) (after_cohort a)
| step_claim s a : step (Cohort s) (EClaim s CLAIM_LEASE_SECONDS a) (after_claim s a)
| step_staged_result s c a : step (Claimed s c) (EStagedResult c a) (after_staged_result s c a)
| step_freeze s c a :
    step (Unauthored s c) (EFreeze c (current_request to_string s) a) (after_freeze s c a)
| step_reserve s c f a :
    step (Requested s c f) (EReserve RECONCILIATION_OUTPUT_TOKENS a) (after_reserve s c f a)
| step_revalidate s c f a :
    step (Reserved s c f)
      (ERevalidate account_id (s_predecessor_episode_ids s) (s_source_fingerprint s) a) (after_revalidate s c f a)
| step_prepare s c f identity fingerprint a :
    step (Current s c f identity fingerprint) (EPrepare (provider_request SYSTEM_PROMPT config f) identity a)
      (after_prepare s c f identity fingerprint a)
| step_guard s c f identity fingerprint p a :
    step (Prepared s c f identity fingerprint p) (EAcquireGuard c a) (after_guard s c f identity fingerprint p a)
| step_reject c p retry a :
    step (Rejecting c p retry) (ERejectBeforeEgress p a)
      (or_failed (if retry : bool then Retry c "source_changed_before_egress" true else Failed) a)
| step_send s c f identity fingerprint p a :
    step (Guarded s c f identity fingerprint p) (ESend p a) (after_answer s c f identity fingerprint true a)
| step_abort c code consume a : step (Aborting c code consume) (EAbortGuard a) (or_failed (Retry c code consume) a)
| step_abort_reuse s c identity a :
    step (AbortingReuse s c identity) (EAbortGuard a) (or_failed (Reused s c identity) a)
| step_provenance s c identity a :
    step (Reused s c identity) (EProvenance account_id identity a) (after_provenance s c identity a)
| step_reacquire s c identity stored a :
    step (Reacquire s c identity stored) (EAcquireGuard c a) (after_reacquire s c identity stored a)
| step_stage_guarded s c stage a : step (Staging s c stage true) (EStageAndRelease stage a) (after_stage s c a)
| step_stage s c stage a : step (Staging s c stage false) (EStage c stage a) (after_stage s c a)
| step_publish s c staged a :
    step (Staged s c staged) (EPublish (publish_command sha256 s c staged) a) (after_publish a)
| step_embed ids : step (Succeeded ids) (EEmbed ids) Finished
| step_release c code consume a :
    step (Retry c code consume)
      (ERelease c (Some (retry_delay_seconds (cl_attempt_count c))) code false consume a) (or_failed Released a).

(** What the value a run returns says about where it ended. *)
Definition concludes (r : res bool) (s : State) : Prop :=
  match r with
  | Ok true => s = Inactive true \/ s = NoCohort
  | Ok false => s = Inactive false \/ s = Waiting \/ s = Released \/ s = Finished
  | Err _ => s = Failed
  end.
End Machine.

(** ** The program refines the machine *)

Section Refinement.
Context (sha256 : bytes -> bytes) (to_vec : Value -> option bytes) (to_string : Value -> option str).
Context (partition_from_str : str -> option ModelPartition).
Context (SYSTEM_PROMPT : str) (config : ReconcilerConfig) (account_id : str) (env : Env).
Let step_ := step sha256 to_vec to_string partition_from_str SYSTEM_PROMPT config account_id.
Let ok {A} s (m : prog Event (res bool) A) (post : A -> State -> Prop) :=
  follows step_ s m post concludes (fun _ => False).

(** A fallible call whose error fails the run. *)
Lemma ok_try_call {A} s (event : res A -> Event) answer (next : res A -> State) :
  (forall a, step_ s (event a) (next a)) -> (forall e, next (Err e) = Failed) ->
  ok s (try_ (call event answer)) (fun a s' => s' = next (Ok a)).
Proof.
  intros st failed; apply follows_try.
  apply (follows_call_to _ _ _ _ next); [exact st |]; intros [a|e]; [done | apply failed].
Qed.

Lemma ok_try_pure {A} s (r : res A) (post : A -> State -> Prop) :
  match r with Ok a => post a s | Err _ => s = Failed end -> ok s (try_pure r) post.
Proof.
  intros Hr; apply follows_try, follows_done; destruct r; exact Hr.
Qed.

Lemma ok_pure_error {A B} e (k : A -> prog Event (res bool) B) post :
  ok Failed (let! a := try_pure (Err e) in k a) post.
Proof.
  apply follows_bind with (mid := fun _ _ => False); [by apply ok_try_pure | by intros a st ?].
Qed.

Lemma retry_later_ok {A} c code consume (post : A -> State -> Prop) :
  ok (Retry c code consume) (retry_later env c code consume) post.
Proof.
  eapply follows_bind.
  - unfold release_for_retry; apply (ok_try_call _ _ _ (or_failed Released)); [intros a; constructor | done].
  - intros [] s ->; apply follows_return; cbn; auto.
Qed.

Lemma abandon_ok {A} guard c code consume (post : A -> State -> Prop) :
  ok (aborting guard c code consume) (abandon env guard c code consume) post.
Proof.
  unfold abandon, abort_provider_egress_guard, aborting; destruct guard.
  - eapply follows_bind.
    + apply (ok_try_call _ _ _ (or_failed (Retry c code consume))); [intros a; constructor | done].
    + intros [] s ->; apply retry_later_ok.
  - eapply follows_bind; [by apply follows_done with (post := fun _ s => s = Retry c code consume) |].
    intros [] s ->; apply retry_later_ok.
Qed.

(** The state once a result is authored. *)
Definition authored_at (s : ReconciliationSnapshot) (c : ReconciliationClaim) (r : Authored * bool) (st : State) :
  Prop := st = staging s c (Ok r.1) r.2.

Lemma ok_authored s c (r : res Authored) guard :
  ok (staging s c r guard) (let! a := try_pure r in done_with (a, guard)) (authored_at s c).
Proof.
  eapply follows_bind.
  - apply ok_try_pure with (post := fun a st => st = staging s c (Ok a) guard); destruct r; done.
  - intros a st ->; by apply follows_done.
Qed.

Lemma settle_reused_identity_ok s c identity guard :
  ok (if (guard : bool) then AbortingReuse s c identity else Reused s c identity)
    (settle_reused_identity sha256 to_vec account_id env s c identity guard) (authored_at s c).
Proof.
  unfold settle_reused_identity; eapply follows_bind with (mid := fun _ st => st = Reused s c identity).
  { unfold abort_provider_egress_guard; destruct guard; [| by apply follows_done].
    apply (ok_try_call _ _ _ (or_failed (Reused s c identity))); [intros a; constructor | done]. }
  intros [] st ->; eapply follows_bind.
  { apply (ok_try_call _ _ _ (after_provenance s c identity)); [intros a; constructor | done]. }
  intros [stored|] st ->; cbn; [| by apply follows_return].
  destruct (str_eqb _ _); [apply retry_later_ok |]; eapply follows_bind.
  { apply (ok_try_call _ _ _ (after_reacquire sha256 to_vec s c identity stored)); [intros a; constructor | done]. }
  intros [] st ->; cbn; [| apply retry_later_ok].
  by apply (ok_authored s c (ambiguous_keep sha256 to_vec s (dp_event_id stored) identity _)).
Qed.

Lemma settle_failure_ok s c identity fingerprint guard error :
  ok (after_failure sha256 to_vec s c identity fingerprint guard error)
    (settle_failure sha256 to_vec account_id env s c identity fingerprint guard error) (authored_at s c).
Proof.
  unfold settle_failure, after_failure; destruct (disposition error); cbn;
    [apply abandon_ok | apply abandon_ok | | apply abandon_ok | apply settle_reused_identity_ok].
  destruct (failure_event_id error) as [event_id|].
  - eapply follows_bind with (mid := fun e st => e = event_id
      /\ st = staging s c (ambiguous_keep sha256 to_vec s event_id identity fingerprint) guard).
    + by apply ok_try_pure.
    + intros e st [-> ->]; apply ok_authored.
  - apply ok_pure_error.
Qed.

Lemma settle_generation_ok s c f identity fingerprint guard generation :
  ok (after_answer sha256 to_vec partition_from_str config s c f identity fingerprint guard generation)
    (settle_generation sha256 to_vec partition_from_str config account_id env s c f identity fingerprint guard
       generation) (authored_at s c).
Proof.
  unfold settle_generation, after_answer; destruct generation as [g|error]; [| apply settle_failure_ok].
  destruct (partition_from_str _); [| apply abandon_ok].
  destruct (validate_partition _ _ _ _); [by apply follows_done | apply abandon_ok].
Qed.

Lemma send_guarded_ok s c f identity fingerprint prepared :
  ok (after_prepare sha256 to_vec s c f identity fingerprint prepared) (send_guarded env c prepared)
    (fun r st => st = after_answer sha256 to_vec partition_from_str config s c f identity fingerprint r.2 r.1).
Proof.
  unfold send_guarded; destruct prepared as [p|error]; cbn [after_prepare]; [| by apply follows_done].
  eapply follows_bind.
  { apply (follows_call_to _ _ _ _ (after_guard s c f identity fingerprint p)) with
      (post := fun a st => st = after_guard s c f identity fingerprint p a); [intros a; constructor | done]. }
  intros [[]|error] st ->; cbn.
  - eapply follows_bind.
    + apply (follows_call_to _ _ _ _
        (after_answer sha256 to_vec partition_from_str config s c f identity fingerprint true)) with
        (post := fun a st => st = after_answer sha256 to_vec partition_from_str config s c f identity
                                    fingerprint true a); [intros a; constructor | done].
    + intros g st ->; by apply follows_done.
  - eapply follows_bind.
    + apply (ok_try_call _ _ _ (or_failed (Retry c "source_changed_before_egress" true)));
        [intros a; apply (step_reject _ _ _ _ _ _ _ c p true) | done].
    + intros [] st ->; apply retry_later_ok.
  - eapply follows_bind.
    + apply (ok_try_call _ _ _ (or_failed Failed)); [intros a; apply (step_reject _ _ _ _ _ _ _ c p false) | done].
    + intros [] st ->; by apply follows_return.
Qed.

Lemma freeze_request_ok s c :
  ok (Unauthored s c) (freeze_request to_string env s c) (fun f st => st = Requested s c f).
Proof.
  unfold freeze_request; eapply follows_bind.
  { apply (follows_call_to _ _ _ _ (after_freeze s c)) with (post := fun a st => st = after_freeze s c a);
      [intros a; constructor | done]. }
  intros [[f|]|e] st ->; cbn; [by apply follows_done | apply retry_later_ok |].
  destruct e; try (by apply follows_return); apply retry_later_ok.
Qed.

Lemma author_with_provider_ok s c :
  ok (Unauthored s c)
    (author_with_provider sha256 to_vec to_string partition_from_str SYSTEM_PROMPT config account_id env s c)
    (authored_at s c).
Proof.
  unfold author_with_provider; eapply follows_bind; [apply freeze_request_ok |]; intros f st ->.
  eapply follows_bind with (mid := fun r st =>
    st = match r with Ok _ => Reserved s c f | Err _ => Retry c "quota_unavailable" false end).
  { unfold reserve_output; eapply follows_bind.
    - apply (follows_call_to _ _ _ _ (after_reserve s c f)) with (post := fun a st => st = after_reserve s c f a);
        [intros a; constructor | done].
    - intros [[]|e] st ->; by apply follows_done. }
  intros [[]|e] st ->; [| apply retry_later_ok]; eapply follows_bind.
  { apply (ok_try_call _ _ _ (after_revalidate sha256 to_vec SYSTEM_PROMPT config account_id s c f));
      [intros a; constructor | done]. }
  intros [] st ->; cbn; [| apply retry_later_ok].
  destruct (attempt_identity_of sha256 s c) as [identity|e]; cbn;
    [| apply ok_pure_error].
  destruct (fingerprint_of _ _ _ _ _ _ _) as [fingerprint|e]; cbn.
  - eapply follows_bind with (mid := fun i st => i = identity /\ st = Current s c f identity fingerprint);
      [by apply ok_try_pure |]; intros i st [-> ->].
    eapply follows_bind with (mid := fun i st => i = fingerprint /\ st = Current s c f identity fingerprint);
      [by apply ok_try_pure |]; intros i st [-> ->].
    eapply follows_bind.
    { apply (follows_call_to _ _ _ _ (after_prepare sha256 to_vec s c f identity fingerprint)) with
        (post := fun a st => st = after_prepare sha256 to_vec s c f identity fingerprint a);
        [intros a; constructor | done]. }
    intros prepared st ->; eapply follows_bind; [apply send_guarded_ok |].
    intros [generation guard] st ->; apply settle_generation_ok.
  - eapply follows_bind with (mid := fun _ st => st = Failed); [by apply ok_try_pure |]; intros i st ->.
    apply ok_pure_error.
Qed.

Lemma author_ok s c :
  ok (unstaged sha256 to_vec s c)
    (author sha256 to_vec to_string partition_from_str SYSTEM_PROMPT config account_id env s c) (authored_at s c).
Proof.
  unfold author, unstaged; destruct (_ <=? _); [apply ok_authored | apply author_with_provider_ok].
Qed.

Lemma publish_and_embed_ok s c staged :
  ok (staged_ready sha256 to_vec s c staged) (publish_and_embed sha256 to_vec env s c staged) concludes.
Proof.
  unfold publish_and_embed, publish_staged, staged_ready.
  eapply follows_bind with (mid := fun ids st => st = Succeeded ids).
  { eapply follows_bind with (mid := fun _ st => st = Staged s c staged).
    - apply ok_try_pure; by destruct (validate_stage _ _ _ _).
    - intros _ st ->; eapply follows_bind.
      + apply (ok_try_call _ _ _ after_publish); [intros a; constructor | done].
      + intros result st ->; by apply follows_done. }
  intros ids st ->; eapply follows_bind with (mid := fun _ st => st = Finished).
  - apply (follows_call_to _ _ _ _ (fun _ => Finished)); [intros a; constructor | done].
  - intros _ st ->; apply follows_done; cbn; auto.
Qed.

Lemma author_and_publish_ok s c :
  ok (unstaged sha256 to_vec s c)
    (author_and_publish sha256 to_vec to_string partition_from_str SYSTEM_PROMPT config account_id env s c)
    concludes.
Proof.
  unfold author_and_publish; eapply follows_bind; [apply author_ok |]; intros [authored guard] st ->.
  cbn [fst snd]; unfold staging; cbn.
  destruct (stage_of authored) as [stage|e];
    [| apply ok_pure_error].
  eapply follows_bind with (mid := fun sw st => sw = stage /\ st = Staging s c stage guard);
    [by apply ok_try_pure |]; intros sw st [-> ->].
  eapply follows_bind with (mid := fun staged st => st = staged_ready sha256 to_vec s c staged).
  - unfold stage_authored; destruct guard;
      apply (ok_try_call _ _ _ (after_stage sha256 to_vec s c)); try done; intros a; constructor.
  - intros staged st ->; apply publish_and_embed_ok.
Qed.

Lemma reconcile_claimed_ok s c :
  ok (after_claim sha256 to_vec SYSTEM_PROMPT config s (Ok (Some c)))
    (reconcile_claimed sha256 to_vec to_string partition_from_str SYSTEM_PROMPT config account_id env s c)
    concludes.
Proof.
  unfold reconcile_claimed, after_claim, producer_matches.
  destruct (claim_producer_matches_process _ _ _ _ _ _) as [[]|e];
    [| | apply ok_pure_error].
  - eapply follows_bind with (mid := fun b st => b = true /\ st = Claimed s c); [by apply ok_try_pure |].
    intros b st [-> ->]; cbn [negb]; eapply follows_bind.
    { apply (ok_try_call _ _ _ (after_staged_result sha256 to_vec config s c)); [intros a; constructor | done]. }
    intros [staged|] st ->; cbn; [| apply author_and_publish_ok].
    destruct (staged_identity_matches s c staged); cbn [negb]; [| by apply follows_return].
    destruct (stage_is_current config c staged); [apply publish_and_embed_ok | apply author_and_publish_ok].
  - eapply follows_bind with (mid := fun b st => b = false /\ st = Retry c "producer_authority_mismatch" false);
      [by apply ok_try_pure |].
    intros b st [-> ->]; apply retry_later_ok.
Qed.

Lemma promote_ok left resume :
  ok (Searching left resume) (promote_oversized_prefixes account_id env left resume)
    (fun r st => st = Searching 0 r).
Proof.
  revert resume; induction left as [|left IH]; intros resume; cbn [promote_oversized_prefixes];
    [by apply follows_done |].
  eapply follows_bind.
  { apply (ok_try_call _ _ _ (after_promotion left resume)); [intros a; constructor | done]. }
  intros [|[boundary|]|ids id revision] st ->; cbn;
    [by apply follows_done | apply IH | apply follows_return; cbn; auto ..].
Qed.

Lemma reconcile_follows :
  follows (step sha256 to_vec to_string partition_from_str SYSTEM_PROMPT config account_id) Start
    (reconcile_user_episodes sha256 to_vec to_string partition_from_str SYSTEM_PROMPT config account_id env)
    concludes concludes (fun _ => False).
Proof.
  unfold reconcile_user_episodes; eapply follows_bind.
  { apply (ok_try_call _ _ _ after_phase); [intros a; constructor | done]. }
  intros phase st ->; cbn [after_phase].
  destruct (inactive_phase_allows_legacy_finalization phase) as [[]|];
    [apply follows_done; cbn; auto .. |].
  eapply follows_bind; [apply promote_ok |]; intros resume st ->; eapply follows_bind.
  { apply (ok_try_call _ _ _ (after_cohort account_id)); [intros a; constructor | done]. }
  intros [s|] st ->; cbn [after_cohort]; [| apply follows_done; cbn; auto].
  destruct (cohort_is_valid account_id s); cbn [negb]; [| by apply follows_return].
  eapply follows_bind.
  { apply (ok_try_call _ _ _ (after_claim sha256 to_vec SYSTEM_PROMPT config s)); [intros a; constructor | done]. }
  intros [c|] st ->; [apply reconcile_claimed_ok | apply follows_done; cbn; auto].
Qed.

(** C36: every run of the reconciler is a run of the state machine, whatever
    the repositories and the provider answer: its calls are the machine's
    steps in order and with the machine's arguments; it answers [Ok(true)]
    only when activation leaves finalisation to the legacy path or no cohort
    is eligible, [Ok(false)] only after publishing, after releasing its claim
    for a retry or when other work is in flight, and an error only where a
    call or a check failed; and it never panics. *)
Theorem reconcile_refines_machine :
  follows (step sha256 to_vec to_string partition_from_str SYSTEM_PROMPT config account_id) Start
    (reconcile_user_episodes sha256 to_vec to_string partition_from_str SYSTEM_PROMPT config account_id env)
    concludes concludes (fun _ => False).
Proof. apply reconcile_follows. Qed.
End Refinement.

(** ** What the machine guarantees of every trace *)

Section Safety.
Context (sha256 : bytes -> bytes) (to_vec : Value -> option bytes) (to_string : Value -> option str).
Context (partition_from_str : str -> option ModelPartition).
Context (SYSTEM_PROMPT : str) (config : ReconcilerConfig) (account_id : str).
Let step_ := step sha256 to_vec to_string partition_from_str SYSTEM_PROMPT config account_id.

Definition active (h : list Event) : Prop := EPhase (Ok Active) ∈ h.

(** The repository's cohort, which is the account's, not empty, and within the
    bounds the run asked for. *)
Definition valid_cohort (s : ReconciliationSnapshot) (h : list Event) : Prop :=
  (exists resume, ENextCohort account_id QUIET_HORIZON_SECONDS resume MAX_COHORT_DRAFTS MAX_COHORT_ATOMS (Ok (Some s)) ∈ h)
  /\ s_account_id s = account_id /\ s_predecessor_episode_ids s <> []
  /\ Z.of_nat (length (s_drafts s)) <= MAX_COHORT_DRAFTS /\ Z.of_nat (length (s_atoms s)) <= MAX_COHORT_ATOMS.

Definition claimed (s : ReconciliationSnapshot) (c : ReconciliationClaim) (h : list Event) : Prop :=
  active h /\ valid_cohort s h /\ EClaim s CLAIM_LEASE_SECONDS (Ok (Some c)) ∈ h
  /\ producer_matches sha256 to_vec SYSTEM_PROMPT config c = Ok true.

(** The request of an attempt that may still ask the provider. *)
Definition requested (s : ReconciliationSnapshot) (c : ReconciliationClaim)
    (f : FrozenReconciliationProviderRequest) (h : list Event) : Prop :=
  claimed s c h /\ cl_model_attempt_count c < MODEL_ATTEMPTS_BEFORE_CONSERVATIVE_KEEP
  /\ EFreeze c (current_request to_string s) (Ok (Some f)) ∈ h.

Definition admitted (s : ReconciliationSnapshot) (c : ReconciliationClaim)
    (f : FrozenReconciliationProviderRequest) (identity : bytes) (h : list Event) : Prop :=
  requested s c f h /\ EReserve RECONCILIATION_OUTPUT_TOKENS (Ok true) ∈ h
  /\ ERevalidate account_id (s_predecessor_episode_ids s) (s_source_fingerprint s) (Ok true) ∈ h
  /\ attempt_identity_of sha256 s c = Ok identity.

(** Everything that precedes a provider-visible action. *)
Definition egress_gate (h : list Event) (p : PreparedTextRequest) : Prop :=
  exists s c f identity, admitted s c f identity h
    /\ EPrepare (provider_request SYSTEM_PROMPT config f) identity (Ok p) ∈ h
    /\ last h = Some (EAcquireGuard c (Ok true)).

Definition no_send (h : list Event) : Prop := forall p a, ESend p a ∉ h.

(** What the events so far establish in each state. *)
Definition knows (st : State) (h : list Event) : Prop :=
  match st with
  | Start => no_send h
  | Searching _ _ => no_send h /\ active h
  | Cohort s => no_send h /\ active h /\ valid_cohort s h
  | Claimed s c => no_send h /\ claimed s c h
  | Unauthored s c =>
    no_send h /\ claimed s c h /\ cl_model_attempt_count c < MODEL_ATTEMPTS_BEFORE_CONSERVATIVE_KEEP
  | Requested s c f => no_send h /\ requested s c f h
  | Reserved s c f => no_send h /\ requested s c f h /\ EReserve RECONCILIATION_OUTPUT_TOKENS (Ok true) ∈ h
  | Current s c f identity _ => no_send h /\ admitted s c f identity h
  | Prepared s c f identity _ p =>
    no_send h /\ admitted s c f identity h
    /\ EPrepare (provider_request SYSTEM_PROMPT config f) identity (Ok p) ∈ h
  | Guarded _ _ _ _ _ p => no_send h /\ egress_gate h p
  | _ => True
  end.

Lemma no_send_snoc h e : no_send h -> (forall p a, e <> ESend p a) -> no_send (h ++ [e]).
Proof.
  intros none other p a Hin; apply elem_of_app in Hin as [Hin | Hin]; [by eapply none |].
  apply list_elem_of_singleton in Hin; by eapply other.
Qed.

Lemma active_app h k : active h -> active (h ++ k).
Proof. unfold active; rewrite elem_of_app; auto. Qed.

Lemma valid_cohort_app s h k : valid_cohort s h -> valid_cohort s (h ++ k).
Proof. intros ([resume Hin] & ok); split; [exists resume; rewrite elem_of_app; auto | done]. Qed.

Lemma cohort_valid s h resume :
  cohort_is_valid account_id s = true ->
  valid_cohort s (h ++ [ENextCohort account_id QUIET_HORIZON_SECONDS resume MAX_COHORT_DRAFTS MAX_COHORT_ATOMS (Ok (Some s))]).
Proof.
  unfold cohort_is_valid; intros [[[A P]%orb_false_iff D]%orb_false_iff T]%negb_true_iff%orb_false_iff.
  apply negb_false_iff, str_eqb_eq in A; apply is_empty_false in P; apply Z.ltb_ge in D, T.
  split_and!; try done; exists resume; apply elem_of_app; right; by apply list_elem_of_singleton.
Qed.

Lemma claimed_app s c h k : claimed s c h -> claimed s c (h ++ k).
Proof. intros (a & v & Hc & m); split_and!; [by apply active_app | by apply valid_cohort_app | rewrite elem_of_app; auto | done]. Qed.

Lemma requested_app s c f h k : requested s c f h -> requested s c f (h ++ k).
Proof. intros (a & Hc & m); split_and!; [by apply claimed_app | done | rewrite elem_of_app; auto]. Qed.

Lemma admitted_app s c f identity h k : admitted s c f identity h -> admitted s c f identity (h ++ k).
Proof.
  intros (a & Hr & Hv & E); split_and!; [by apply requested_app | rewrite elem_of_app; auto .. | done].
Qed.

Lemma elem_of_snoc {A} (l : list A) x : x ∈ l ++ [x].
Proof. apply elem_of_app; right; by apply list_elem_of_singleton. Qed.

(** The states that ask nothing any more. *)
Definition settled (st : State) : Prop :=
  match st with
  | Start | Searching _ _ | Cohort _ | Claimed _ _ | Unauthored _ _ | Requested _ _ _ | Reserved _ _ _
  | Current _ _ _ _ _ | Prepared _ _ _ _ _ _ | Guarded _ _ _ _ _ _ => False
  | _ => True
  end.

Lemma settled_knows st h : settled st -> knows st h.
Proof. by destruct st. Qed.

Lemma settled_staging s c a guard : settled (staging s c a guard).
Proof. unfold staging; by destruct (result_bind a stage_of). Qed.

Lemma settled_staged s c st : settled (staged_ready sha256 to_vec s c st).
Proof. unfold staged_ready; by destruct (validate_stage _ _ _ _). Qed.

Lemma settled_aborting guard c code consume : settled (aborting guard c code consume).
Proof. by destruct guard. Qed.

Lemma settled_failure s c identity fingerprint guard error :
  settled (after_failure sha256 to_vec s c identity fingerprint guard error).
Proof.
  unfold after_failure; destruct (disposition error); try apply settled_aborting.
  - destruct (failure_event_id error); [apply settled_staging | done].
  - by destruct guard.
Qed.

Lemma settled_answer s c f identity fingerprint guard a :
  settled (after_answer sha256 to_vec partition_from_str config s c f identity fingerprint guard a).
Proof.
  unfold after_answer; destruct a as [g|error]; [| apply settled_failure].
  destruct (partition_from_str _); [| apply settled_aborting].
  destruct (validate_partition _ _ _ _); [apply settled_staging | apply settled_aborting].
Qed.

Lemma knows_unstaged s c h :
  no_send h -> claimed s c h -> knows (unstaged sha256 to_vec s c) h.
Proof.
  intros none Hc; unfold unstaged; destruct (_ <=? _) eqn:attempts; bool_prop; cbn; [| auto].
  apply settled_knows, settled_staging.
Qed.

Lemma knows_step st h e st' : knows st h -> step_ st e st' -> knows st' (h ++ [e]).
Proof.
  intros K one; destruct one; cbn [knows] in K.
  - destruct a as [phase|]; cbn; [| done].
    destruct phase; cbn; try done; split; [by apply no_send_snoc | apply elem_of_snoc].
  - destruct K as [none Ha]; assert (no_send (h ++ [EPromote account_id QUIET_HORIZON_SECONDS resume OVERSIZED_POLICY a]))
      by (by apply no_send_snoc).
    destruct a as [[|[]|]|]; cbn; try done; split; try done; by apply active_app.
  - destruct K as [none Ha]; destruct a as [[s|]|]; cbn; try done.
    destruct (cohort_is_valid account_id s) eqn:valid; cbn; [| done].
    split_and!; [by apply no_send_snoc | by apply active_app | by apply cohort_valid].
  - destruct K as (none & Ha & Hv); destruct a as [[c|]|]; unfold after_claim; try done.
    destruct (producer_matches _ _ _ _ c) as [[]|] eqn:m; cbn; try done; split; [by apply no_send_snoc |].
    split_and!; [by apply active_app | by apply valid_cohort_app | apply elem_of_snoc | done].
  - destruct K as [none Hc]; assert (K : knows (unstaged sha256 to_vec s c) (h ++ [EStagedResult c a])).
    { apply knows_unstaged; [by apply no_send_snoc | by apply claimed_app]. }
    destruct a as [[staged|]|]; cbn; [| exact K | done].
    destruct (negb _); [done |]; destruct (stage_is_current config c staged); [| exact K].
    apply settled_knows, settled_staged.
  - destruct K as (none & Hc & attempts); destruct a as [[f|]|e']; cbn; [| done | by destruct e'].
    split; [by apply no_send_snoc |]; split_and!; [by apply claimed_app | done | apply elem_of_snoc].
  - destruct K as [none Hr]; destruct a as [[]|]; cbn; try done.
    split_and!; [by apply no_send_snoc | by apply requested_app | apply elem_of_snoc].
  - destruct K as (none & Hr & Hq); destruct a as [[]|]; unfold after_revalidate; try done.
    destruct (attempt_identity_of sha256 s c) as [identity|] eqn:E; [| done].
    destruct (fingerprint_of _ _ _ _ _ _ _); [| done]; cbn.
    split; [by apply no_send_snoc |]; split_and!; [by apply requested_app | rewrite elem_of_app; auto |
      apply elem_of_snoc | done].
  - destruct K as [none Ha]; destruct a as [p|error]; cbn; [| apply settled_knows, settled_failure].
    split_and!; [by apply no_send_snoc | by apply admitted_app | apply elem_of_snoc].
  - destruct K as (none & Ha & Hp); destruct a as [[]|]; cbn; try done.
    split; [by apply no_send_snoc |]; exists s, c, f, identity; split_and!;
      [by apply admitted_app | rewrite elem_of_app; auto | apply last_snoc].
  - destruct a; [by destruct retry | done].
  - apply settled_knows, settled_answer.
  - by destruct a.
  - by destruct a.
  - destruct a as [[stored|]|]; cbn; try done; by destruct (str_eqb _ _).
  - destruct a as [[]|]; cbn; try done; apply settled_knows, settled_staging.
  - destruct a; cbn; [apply settled_knows, settled_staged | done].
  - destruct a; cbn; [apply settled_knows, settled_staged | done].
  - by destruct a.
  - done.
  - by destruct a.
Qed.

(** A provider-visible action is gated, and the first of the run. *)
Definition gated (h : list Event) (e : Event) : Prop :=
  match e with ESend p _ => egress_gate h p /\ no_send h | _ => True end.

Lemma gated_step st h e st' : knows st h -> step_ st e st' -> gated h e.
Proof. intros K one; destruct one; cbn; try done; cbn in K; tauto. Qed.

Lemma machine_gated h st : steps step_ Start h st -> always gated h.
Proof.
  intros st_; apply (steps_invariant step_ (fun h st => always gated h /\ knows st h) Start) in st_ as [ok _];
    [done | split; [apply always_nil | intros p a Hin; by apply elem_of_nil in Hin] |].
  intros k s e s' [ok K] one; split; [| by eapply knows_step].
  apply always_snoc; [done | by eapply gated_step].
Qed.
End Safety.

(** C32: in every environment the reconciler sends at most one request to the
    provider in a run, and only when activation is live, the cohort the
    repository answered is the account's, not empty and within its bounds, it
    is claimed by the producer this process is, fewer than three attempts were spent,
    the exact request is the one frozen for this attempt, its tokens are
    reserved, the cohort's sources were found unchanged, the ledger admitted
    that request under this attempt's identity, and, as the very last call
    before it, the database egress guard was granted. *)
Theorem provider_egress_gated sha256 to_vec to_string partition_from_str SYSTEM_PROMPT config account_id env h :
  exists h',
    (reconcile_user_episodes sha256 to_vec to_string partition_from_str SYSTEM_PROMPT config account_id env h).2
      = h ++ h'
    /\ always (gated sha256 to_vec to_string SYSTEM_PROMPT config account_id) h'.
Proof.
  eapply follows_trace; [apply reconcile_follows | intros k s; apply machine_gated].
Qed.

(** ** Publication *)

Section Publication.
Context (sha256 : bytes -> bytes) (to_vec : Value -> option bytes) (to_string : Value -> option str).
Context (partition_from_str : str -> option ModelPartition).
Context (SYSTEM_PROMPT : str) (config : ReconcilerConfig) (account_id : str).
Let step_ := step sha256 to_vec to_string partition_from_str SYSTEM_PROMPT config account_id.

(** No publication and no release yet: the claim is still the run's. *)
Definition concluding (e : Event) : bool :=
  match e with EPublish _ _ | ERelease _ _ _ _ _ _ => true | _ => false end.

Definition quiet (h : list Event) : Prop := Forall (fun e => concluding e = false) h.

Definition has_claim (s : ReconciliationSnapshot) (c : ReconciliationClaim) (h : list Event) : Prop :=
  EClaim s CLAIM_LEASE_SECONDS (Ok (Some c)) ∈ h.

(** A stage of a partition that validates against the claimed cohort. *)
Definition stage_gate (s : ReconciliationSnapshot) (stage : ReconciliationStageWrite) : Prop :=
  exists a model, stage_of a = Ok stage /\ validate_partition sha256 to_vec s model = Ok (au_partition a).

(** The store's own copy of a stage. *)
Definition stored_stage (c : ReconciliationClaim) (staged : StagedReconciliation) (e : Event) : Prop :=
  e = EStagedResult c (Ok (Some staged)) \/ (exists stage, e = EStageAndRelease stage (Ok staged))
  \/ exists stage, e = EStage c stage (Ok staged).

Definition publish_gate (s : ReconciliationSnapshot) (c : ReconciliationClaim) (staged : StagedReconciliation)
    (h : list Event) : Prop :=
  (exists partition, validate_stage sha256 to_vec s staged = Ok partition)
  /\ exists e, last h = Some e /\ stored_stage c staged e.

Definition knows_claim (st : State) (h : list Event) : Prop :=
  match st with
  | Succeeded _ | Finished | Released | Failed => True
  | Claimed s c | Unauthored s c | Requested s c _ | Reserved s c _ | Current s c _ _ _
  | Prepared s c _ _ _ _ | Guarded s c _ _ _ _ | AbortingReuse s c _ | Reused s c _ | Reacquire s c _ _ =>
    quiet h /\ has_claim s c h
  | Staging s c stage _ => quiet h /\ has_claim s c h /\ stage_gate s stage
  | Staged s c staged => quiet h /\ has_claim s c h /\ publish_gate s c staged h
  | _ => quiet h
  end.

Lemma quiet_snoc h e : quiet h -> concluding e = false -> quiet (h ++ [e]).
Proof. intros q ne; apply Forall_app; split; [done | by constructor]. Qed.

Lemma has_claim_app s c h k : has_claim s c h -> has_claim s c (h ++ k).
Proof. unfold has_claim; rewrite elem_of_app; auto. Qed.

(** A result whose partition validates against the cohort. *)
Definition validated (s : ReconciliationSnapshot) (r : res Authored) : Prop :=
  forall a, r = Ok a -> exists model, validate_partition sha256 to_vec s model = Ok (au_partition a).

Lemma validated_keep s model event_id identity fingerprint :
  validated s (conservative_keep sha256 to_vec s model event_id identity fingerprint).
Proof.
  unfold conservative_keep, kept_partition; intros a E; apply result_bind_Ok in E as (p & E & E').
  apply result_bind_Ok in E as (m & _ & E); injection E' as <-; eauto.
Qed.

Lemma claim_staging s c r guard h :
  quiet h -> has_claim s c h -> validated s r -> knows_claim (staging s c r guard) h.
Proof.
  intros q Hc valid; unfold staging; destruct r as [a|]; cbn; [| done].
  destruct (stage_of a) as [stage|] eqn:E; [| done]; cbn; split_and!; [done | done |].
  destruct (valid a eq_refl) as [model Hm]; by exists a, model.
Qed.

Lemma claim_unstaged s c h : quiet h -> has_claim s c h -> knows_claim (unstaged sha256 to_vec s c) h.
Proof.
  intros q Hc; unfold unstaged; destruct (_ <=? _); [| done].
  apply claim_staging; [done | done | apply validated_keep].
Qed.

Lemma claim_staged_ready s c staged h e :
  quiet h -> concluding e = false -> has_claim s c h -> stored_stage c staged e ->
  knows_claim (staged_ready sha256 to_vec s c staged) (h ++ [e]).
Proof.
  intros q ne Hc Hs; unfold staged_ready; destruct (validate_stage _ _ _ _) as [p|] eqn:V; cbn; [| done].
  split_and!; [by apply quiet_snoc | by apply has_claim_app |]; split; [by exists p |].
  exists e; split; [apply last_snoc | done].
Qed.

Lemma claim_aborting guard c code consume h : quiet h -> knows_claim (aborting guard c code consume) h.
Proof. by destruct guard. Qed.

Lemma claim_failure s c identity fingerprint guard error h :
  quiet h -> has_claim s c h -> knows_claim (after_failure sha256 to_vec s c identity fingerprint guard error) h.
Proof.
  intros q Hc; unfold after_failure; destruct (disposition error); try by apply claim_aborting.
  - destruct (failure_event_id error); [| done]; apply claim_staging; [done | done | apply validated_keep].
  - by destruct guard.
Qed.

Lemma claim_answer s c f identity fingerprint guard a h :
  quiet h -> has_claim s c h ->
  knows_claim (after_answer sha256 to_vec partition_from_str config s c f identity fingerprint guard a) h.
Proof.
  intros q Hc; unfold after_answer; destruct a as [g|error]; [| by apply claim_failure].
  destruct (partition_from_str _) as [model|]; [| by apply claim_aborting].
  destruct (validate_partition _ _ _ _) eqn:V; [| by apply claim_aborting].
  apply claim_staging; [done | done |]; intros a' E; injection E as <-; eauto.
Qed.

Lemma knows_claim_step st h e st' : knows_claim st h -> step_ st e st' -> knows_claim st' (h ++ [e]).
Proof.
  intros K one; destruct one; cbn [knows_claim] in K; try done.
  - destruct a as [phase|]; [| done]; by destruct phase; cbn; try apply quiet_snoc.
  - by destruct a as [[|[]|]|]; cbn; try apply quiet_snoc.
  - destruct a as [[s|]|]; cbn; try done; [destruct (cohort_is_valid account_id s); cbn; [| done] |];
      by apply quiet_snoc.
  - destruct a as [[c|]|]; unfold after_claim; [| by apply quiet_snoc | done].
    destruct (producer_matches _ _ _ _ c) as [[]|]; cbn; [| by apply quiet_snoc | done].
    split; [by apply quiet_snoc | apply elem_of_snoc].
  - destruct K as [q Hc]; assert (K : knows_claim (unstaged sha256 to_vec s c) (h ++ [EStagedResult c a])).
    { apply claim_unstaged; [by apply quiet_snoc | by apply has_claim_app]. }
    destruct a as [[staged|]|]; cbn; [| exact K | done].
    destruct (negb _); [done |]; destruct (stage_is_current config c staged); [| exact K].
    apply claim_staged_ready; [done | done | done | by left].
  - destruct K as [q Hc]; destruct a as [[f|]|e']; cbn; [| by apply quiet_snoc | by destruct e'; try apply quiet_snoc].
    split; [by apply quiet_snoc | by apply has_claim_app].
  - destruct K as [q Hc]; destruct a as [[]|]; cbn; try by apply quiet_snoc.
    split; [by apply quiet_snoc | by apply has_claim_app].
  - destruct K as [q Hc]; destruct a as [[]|]; unfold after_revalidate; [| by apply quiet_snoc | done].
    destruct (attempt_identity_of sha256 s c); [| done]; destruct (fingerprint_of _ _ _ _ _ _ _); [| done].
    split; [by apply quiet_snoc | by apply has_claim_app].
  - destruct K as [q Hc]; destruct a as [p|error]; cbn.
    + split; [by apply quiet_snoc | by apply has_claim_app].
    + apply claim_failure; [by apply quiet_snoc | by apply has_claim_app].
  - destruct K as [q Hc]; destruct a as [[]|]; cbn; try by apply quiet_snoc.
    split; [by apply quiet_snoc | by apply has_claim_app].
  - destruct a; [destruct retry; [by apply quiet_snoc | done] | done].
  - destruct K as [q Hc]; apply claim_answer; [by apply quiet_snoc | by apply has_claim_app].
  - destruct a; [by apply quiet_snoc | done].
  - destruct K as [q Hc]; destruct a; [| done]; split; [by apply quiet_snoc | by apply has_claim_app].
  - destruct K as [q Hc]; destruct a as [[stored|]|]; cbn; try done.
    destruct (str_eqb _ _); [by apply quiet_snoc | split; [by apply quiet_snoc | by apply has_claim_app]].
  - destruct K as [q Hc]; destruct a as [[]|]; cbn; [| by apply quiet_snoc | done].
    apply claim_staging; [by apply quiet_snoc | by apply has_claim_app | apply validated_keep].
  - destruct K as (q & Hc & _); destruct a as [staged|]; cbn; [| done].
    apply claim_staged_ready; [done | done | done | right; left; eauto].
  - destruct K as (q & Hc & _); destruct a as [staged|]; cbn; [| done].
    apply claim_staged_ready; [done | done | done | right; right; eauto].
  - by destruct a.
  - by destruct a.
Qed.

(** What each event that changes the archive rests on. *)
Definition published_soundly (h : list Event) (e : Event) : Prop :=
  match e with
  | EPublish command _ =>
    quiet h /\ exists s c staged, has_claim s c h /\ command = publish_command sha256 s c staged
                                  /\ publish_gate s c staged h
  | EStage _ stage _ | EStageAndRelease stage _ =>
    quiet h /\ exists s c, has_claim s c h /\ stage_gate s stage
  | ERelease _ _ _ _ _ _ => quiet h
  | _ => True
  end.

Lemma published_soundly_step st h e st' : knows_claim st h -> step_ st e st' -> published_soundly h e.
Proof.
  intros K one; destruct one; cbn; try done; cbn in K.
  - destruct K as (? & ? & ?); eauto 10.
  - destruct K as (? & ? & ?); eauto 10.
  - destruct K as (? & ? & ?); eauto 10.
Qed.

Lemma machine_published_soundly h st : steps step_ Start h st -> always published_soundly h.
Proof.
  intros st_; apply (steps_invariant step_ (fun h st => always published_soundly h /\ knows_claim st h) Start)
    in st_ as [ok _]; [done | split; [apply always_nil | constructor] |].
  intros k s e s' [ok K] one; split; [| by eapply knows_claim_step].
  apply always_snoc; [done | by eapply published_soundly_step].
Qed.
End Publication.

(** C34: in every environment a run concludes its claim at most once, by one
    publication or one release.  It stages only a partition that validates
    against the cohort it claimed, and publishes only the store's own copy of
    a stage, read in the call just before, that passes the full stage
    validation against that cohort, under the run's claim and under the
    identifier and commitment of that stage. *)
Theorem publication_validated sha256 to_vec to_string partition_from_str SYSTEM_PROMPT config account_id env h :
  exists h',
    (reconcile_user_episodes sha256 to_vec to_string partition_from_str SYSTEM_PROMPT config account_id env h).2
      = h ++ h'
    /\ always (published_soundly sha256 to_vec) h'.
Proof.
  eapply follows_trace; [apply reconcile_follows | intros k s; apply machine_published_soundly].
Qed.

(** ** The egress guard *)

Definition note_guard (held : bool) (e : Event) : bool :=
  match e with
  | EAcquireGuard _ (Ok true) => true
  | EAbortGuard _ | EStageAndRelease _ _ => false
  | _ => held
  end.

(** Whether the run holds a guard after the events [h]. *)
Definition guard_held (h : list Event) : bool := fold_left note_guard h false.

Lemma guard_held_snoc h e : guard_held (h ++ [e]) = note_guard (guard_held h) e.
Proof. unfold guard_held; by rewrite fold_left_app. Qed.

(** The guard each state holds; a failed run drops it. *)
Definition holds (st : State) : option bool :=
  match st with
  | Guarded _ _ _ _ _ _ | Aborting _ _ _ | AbortingReuse _ _ _ => Some true
  | Staging _ _ _ guard => Some guard
  | Failed => None
  | _ => Some false
  end.

Definition guards (st : State) (held : bool) : Prop :=
  match holds st with Some g => held = g | None => True end.

Section Guard.
Context (sha256 : bytes -> bytes) (to_vec : Value -> option bytes) (to_string : Value -> option str).
Context (partition_from_str : str -> option ModelPartition).
Context (SYSTEM_PROMPT : str) (config : ReconcilerConfig) (account_id : str).
Let step_ := step sha256 to_vec to_string partition_from_str SYSTEM_PROMPT config account_id.

Lemma guards_staging s c r guard : guards (staging s c r guard) guard.
Proof. unfold staging, guards; by destruct (result_bind _ _). Qed.

Lemma guards_staged_ready s c staged : guards (staged_ready sha256 to_vec s c staged) false.
Proof. unfold staged_ready, guards; by destruct (validate_stage _ _ _ _). Qed.

Lemma guards_unstaged s c : guards (unstaged sha256 to_vec s c) false.
Proof. unfold unstaged; destruct (_ <=? _); [apply guards_staging | done]. Qed.

Lemma guards_aborting guard c code consume : guards (aborting guard c code consume) guard.
Proof. by destruct guard. Qed.

Lemma guards_failure s c identity fingerprint guard error :
  guards (after_failure sha256 to_vec s c identity fingerprint guard error) guard.
Proof.
  unfold after_failure; destruct (disposition error); try apply guards_aborting.
  - destruct (failure_event_id error); [apply guards_staging | done].
  - by destruct guard.
Qed.

Lemma guards_answer s c f identity fingerprint guard a :
  guards (after_answer sha256 to_vec partition_from_str config s c f identity fingerprint guard a) guard.
Proof.
  unfold after_answer; destruct a as [g|error]; [| apply guards_failure].
  destruct (partition_from_str _); [| apply guards_aborting].
  destruct (validate_partition _ _ _ _); [apply guards_staging | apply guards_aborting].
Qed.

Lemma guards_step st held e st' : guards st held -> step_ st e st' -> guards st' (note_guard held e).
Proof.
  intros G one; destruct one; unfold guards in G; cbn in G; subst; cbn [note_guard]; try done.
  - destruct a as [phase|]; [by destruct phase | done].
  - by destruct a as [[|[]|]|].
  - destruct a as [[s|]|]; cbn; try done; by destruct (cohort_is_valid account_id s).
  - destruct a as [[c|]|]; unfold after_claim; try done; by destruct (producer_matches _ _ _ _ c) as [[]|].
  - destruct a as [[staged|]|]; cbn; [| apply guards_unstaged | done].
    destruct (negb _); [done |]; destruct (stage_is_current config c staged);
      [apply guards_staged_ready | apply guards_unstaged].
  - by destruct a as [[f|]|[]].
  - by destruct a as [[]|].
  - destruct a as [[]|]; unfold after_revalidate; try done.
    destruct (attempt_identity_of sha256 s c); [| done]; by destruct (fingerprint_of _ _ _ _ _ _ _).
  - destruct a as [p|error]; [done | apply guards_failure].
  - by destruct a as [[]|].
  - by destruct a, retry.
  - apply guards_answer.
  - by destruct a.
  - by destruct a.
  - destruct a as [[stored|]|]; cbn; try done; by destruct (str_eqb _ _).
  - destruct a as [[]|]; cbn; try done; apply guards_staging.
  - destruct a; cbn; [apply guards_staged_ready | done].
  - destruct a; cbn; [apply guards_staged_ready | done].
  - by destruct a.
  - by destruct a.
Qed.

(** The provider is asked and a guarded stage written under the guard;
    another guard, an unguarded stage, a publication and the retry's
    bookkeeping start only without one. *)
Definition guard_respected (h : list Event) (e : Event) : Prop :=
  match e with
  | ESend _ _ | EAbortGuard _ | EStageAndRelease _ _ => guard_held h = true
  | EAcquireGuard _ _ | EStage _ _ _ | EPublish _ _ | ERelease _ _ _ _ _ _ => guard_held h = false
  | _ => True
  end.

Lemma guard_respected_step st h e st' : guards st (guard_held h) -> step_ st e st' -> guard_respected h e.
Proof. intros G one; destruct one; cbn; try done; exact G. Qed.

Lemma machine_guarded h st :
  steps step_ Start h st -> always guard_respected h /\ guards st (guard_held h).
Proof.
  apply (steps_invariant step_ (fun h st => always guard_respected h /\ guards st (guard_held h)) Start).
  - split; [apply always_nil | done].
  - intros k s e s' [ok G] one; split; [| rewrite guard_held_snoc; by eapply guards_step].
    apply always_snoc; [done | by eapply guard_respected_step].
Qed.
End Guard.

(** The egress guard is a lock the reconciler never leaks or doubles: the
    provider is asked and its result staged only while the run holds it; a
    second guard, an unguarded stage, the publication and the release of a
    claim start only when it does not; and a run that ends without an error
    holds none. *)
Theorem egress_guard_discipline sha256 to_vec to_string partition_from_str SYSTEM_PROMPT config account_id env h :
  let '(r, final) :=
    reconcile_user_episodes sha256 to_vec to_string partition_from_str SYSTEM_PROMPT config account_id env h in
  exists h', final = h ++ h' /\ always guard_respected h'
    /\ match r with
       | Continue (Ok _) | Return (Ok _) => guard_held h' = false
       | Continue (Err _) | Return (Err _) => True
       | Panicked => False
       end.
Proof.
  destruct (reconcile_follows sha256 to_vec to_string partition_from_str SYSTEM_PROMPT config account_id env h)
    as (h' & s & E & st & ends).
  destruct (reconcile_user_episodes _ _ _ _ _ _ _ _ _) as [r final]; exists h'; split; [exact E |].
  apply machine_guarded in st as [ok G]; split; [exact ok |]; cbn in ends.
  assert (clean : forall b, concludes (Ok b) s -> guard_held h' = false).
  { intros [] D; cbn in D; intuition (subst; exact G). }
  destruct r as [[b|]|[b|]|]; try done; by apply (clean b).
Qed.

(** ** A replayed ambiguous attempt

    When the ledger answers the admission that an earlier attempt of the same
    identity is ambiguous, no guard was acquired yet, and the conservative
    keep, which carries the provenance of that attempt, is staged by the
    unguarded transaction. *)

Definition sample_config : ReconcilerConfig :=
  {| vertex_reconciliation_model := lit "model"; rc_vertex_location := lit "europe" |}.

Definition sample_digest (_ : bytes) : bytes := replicate 32 0%N.

Definition sample_claim : ReconciliationClaim := {|
  cl_account_id := lit "account"; cl_source_fingerprint := sample_digest []; cl_topology_fingerprint := [];
  cl_predecessor_episode_ids := [1; 2]; cl_claim_token := lit "claim"; cl_lease_until := [];
  cl_attempt_count := 0; cl_model_attempt_count := 0; cl_activation_generation := 1;
  cl_producer_contract_sha256 := sample_digest [];
  cl_reconciliation_model := lit "model"; cl_vertex_location := lit "europe" |}.

Definition replay_env : Env := {|
  activation_phase _ := Ok Active;
  promote_oversized _ := Ok NotOversized;
  next_source_settled_cohort _ := Ok (Some sample_cohort);
  claim_reconciliation _ := Ok (Some sample_claim);
  release_reconciliation _ := Ok tt;
  staged_result _ := Ok None;
  freeze_provider_request _ := Ok (Some {|
    fr_request := {| Reconciliation.contract_version := RECONCILIATION_PROVIDER_REQUEST_CONTRACT_VERSION;
                     pr_authored_labels := default_labels; user_message := lit "input" |};
    replayed := true |});
  reserve _ := Ok true;
  revalidate_source_fingerprint _ := Ok true;
  prepare _ := Err (after_egress AmbiguousTerminal (lit "event")
    (Conflict (lit "Vertex invocation attempt cannot be safely resent")));
  acquire_provider_egress_guard _ := Ok true;
  reject _ := Ok tt;
  send_prepared _ := Err (before_egress (Store (lit "unavailable")));
  abort_guard _ := Ok tt;
  durable_attempt_provenance _ := Ok None;
  stage_and_release _ := Err (Store (lit "unavailable"));
  stage_reconciliation _ := Err (Store (lit "unavailable"));
  publish_reconciliation _ := Err (Store (lit "unavailable"))
|}.

Definition stages_provider_result_unguarded (e : Event) : bool :=
  match e with
  | EStage _ stage _ => is_some (sw_provider_attempt_identity stage)
  | _ => false
  end.

Lemma ambiguous_replay_staged_unguarded :
  existsb stages_provider_result_unguarded
    (reconcile_user_episodes sample_digest sample_to_vec (fun _ => Some []) (fun _ => None) [] sample_config
       (lit "account") replay_env []).2 = true.
Proof. vm_compute; reflexivity. Qed.
