(* ===== verification/Summarizer.v ===== *)
(** * The episode summariser: pure policy

    [cp/summarizer.rs] and the response classification of
    [persistence/memory_formation.rs]: the summarisation window, the
    significance floor, the prompt's capture log, the grounding of deictic
    speech, the membership of evidence in episodes, and the settlement of one
    exact capture page.  [SummarizerFlow] composes them. *)
From Stdlib Require Import ZArith Lia.
From S2P Require Import Prelude OrdMap Text F64 Errors Json IsoTime Presentation Episode Ocr.
Local Open Scope Z_scope.

Definition LOOKBACK_DAYS : Z := 7.
Definition TAIL_MINUTES : Z := 5.
Definition OPEN_WINDOW_MS : Z := 4 * 60 * 60 * 1000.
Definition MAX_WINDOW_HOURS : Z := 6.
Definition MIN_WINDOW_MINUTES : Z := 20.
Definition SETTLED_MIN_WINDOW_MS : Z := 15 * 1000.
Definition UTT_CAP : nat := 4000.
Definition SCR_CAP : nat := 2000.
Definition SIG_MIN_SUBSTANTIVE_UTT : Z := 3.
Definition SIG_MIN_SCREEN_MS : Z := 2 * 60 * 1000.
Definition SIG_MIN_UTT_PER_MIN : f64 := f64_div (f64_of_Z 1) (f64_of_Z 5).
Definition SETTLED_MIN_SUBSTANTIVE_UTT : Z := 1.
Definition SETTLED_MIN_SUBSTANTIVE_WORDS : Z := 6.
Definition SPARSE_LOOKBACK_MAX_WINDOWS : nat :=
  Z.to_nat (Z.quot (LOOKBACK_DAYS * 24 + MAX_WINDOW_HOURS - 1) MAX_WINDOW_HOURS + 1).

(** ** Evidence rows *)

Record SummaryUtterance := {
  u_authored_label : option AuthoredLabel;
  u_id : Z;
  u_started_at : str;
  u_speaker_label : str;
  u_language : option str;
  u_text : str
}.

Definition authored_labels (rows : list SummaryUtterance) : AuthoredLabelMap :=
  from_labels (omap u_authored_label rows).

Record SummaryScreenshot := {
  s_id : Z;
  s_captured_at : str;
  s_active_app : option str;
  s_window_title : option str;
  s_ocr_text : option str;
  s_salient_ocr_text : option str;
  s_url : option str;
  s_is_duplicate : Z
}.

(** ** Windows *)

Definition window_bounds (new_from tail_cutoff min_window_ms : Z) : option (Z * bool) :=
  if I64.sub tail_cutoff min_window_ms <=? new_from then None
  else
    let cap := MAX_WINDOW_HOURS * 60 * 60 * 1000 in
    let new_to := Z.min tail_cutoff (I64.add new_from cap) in
    Some (new_to, (new_to =? tail_cutoff) && (I64.sub new_to new_from <? cap)).

Inductive SummarizeMode := Scheduled | SessionSettled.

Definition ms (ts : str) : Z := default 0 (parse_epoch_millis ts).

(** [ts.get(11..19).unwrap_or(ts)], in bytes. *)
Definition fmt_time (ts : str) : str :=
  match split_at_bytes 11 ts with
  | Some (_, rest) =>
    match split_at_bytes 8 rest with
    | Some (time, _) => time
    | None => ts
    end
  | None => ts
  end.

Definition episode_is_significant (substantive substantive_words : Z) (span_minutes : f64)
    (screen_span_ms : Z) (settled : bool) : bool :=
  let dense := (SIG_MIN_SUBSTANTIVE_UTT <=? substantive)
               && f64_geb (f64_of_Z substantive) (f64_mul span_minutes SIG_MIN_UTT_PER_MIN) in
  dense
  || (SIG_MIN_SCREEN_MS <=? screen_span_ms)
  || (settled && (SETTLED_MIN_SUBSTANTIVE_UTT <=? substantive)
      && (SETTLED_MIN_SUBSTANTIVE_WORDS <=? substantive_words)).

Inductive ZeroResultDisposition := Hold | AdvancePastWindow | Settle.

Definition zero_result_disposition (nothing_to_upsert tail_bounded settled evidence_capped : bool) :
  ZeroResultDisposition :=
  if negb nothing_to_upsert then Settle
  else if settled then if evidence_capped then Settle else AdvancePastWindow
  else if tail_bounded then Hold
  else Settle.

(** ** Substance *)

(** The largest count of one character, as the counting map's maximum. *)
Definition top_count (l : str) : Z :=
  default 0 (max_Z ((fun c => Z.of_nat (count_if (N.eqb c) l)) <$> l)).

Section Summarizer.
Context `{Unicode}.

Definition is_substantive (text : str) : bool :=
  let t := trim text in
  if char_count t <? 2 then false
  else if (count_if is_alphabetic t <? 2)%nat then false
  else
    let non_space := List.filter (fun c => negb (is_whitespace c)) t in
    negb (negb (is_empty non_space)
          && f64_gtb (f64_div (f64_of_Z (top_count non_space)) (f64_of_Z (char_count non_space)))
                     (f64_lit 7 10)).

Definition substantive_evidence (utterances : list SummaryUtterance) : Z * Z :=
  fold_left
    (fun acc utterance =>
       (I64.add acc.1 1,
        I64.add acc.2 (Z.of_nat (length (split_whitespace (u_text utterance))))))
    (List.filter (fun utterance => is_substantive (u_text utterance)) utterances) (0, 0).
End Summarizer.

(** ** The capture log *)

Record CollapsedScr := {
  c_id : Z;
  c_captured_at : str;
  c_visible_until : option str;
  c_active_app : option str;
  c_window_title : option str;
  c_ocr_text : option str;
  c_salient_ocr_text : option str;
  c_url : option str
}.

Definition collapsed_of (s : SummaryScreenshot) : CollapsedScr :=
  {| c_id := s_id s; c_captured_at := s_captured_at s; c_visible_until := None;
     c_active_app := s_active_app s; c_window_title := s_window_title s;
     c_ocr_text := s_ocr_text s; c_salient_ocr_text := s_salient_ocr_text s; c_url := s_url s |}.

Definition extend_visible (cur : CollapsedScr) (until : str) : CollapsedScr :=
  {| c_id := c_id cur; c_captured_at := c_captured_at cur; c_visible_until := Some until;
     c_active_app := c_active_app cur; c_window_title := c_window_title cur;
     c_ocr_text := c_ocr_text cur; c_salient_ocr_text := c_salient_ocr_text cur; c_url := c_url cur |}.

Definition collapse_step (state : list CollapsedScr * option CollapsedScr) (s : SummaryScreenshot) :
  list CollapsedScr * option CollapsedScr :=
  let (collapsed, current) := state in
  if s_is_duplicate s =? 1 then (collapsed, (fun cur => extend_visible cur (s_captured_at s)) <$> current)
  else (collapsed ++ option_list current, Some (collapsed_of s)).

Definition collapse_screenshots (screenshots : list SummaryScreenshot) : list CollapsedScr :=
  let (collapsed, current) := fold_left collapse_step screenshots ([], None) in
  collapsed ++ option_list current.

(** ** [{:?}] on strings

    The Debug form of the standard library quotes and escapes; its tables of
    grapheme extenders and unprintable characters are parameters. *)
Class DebugTables := {
  grapheme_extend : char -> bool;
  printable : char -> bool
}.

Definition ascii_debug : DebugTables := {|
  grapheme_extend := fun _ => false;
  printable := fun c => ((32 <=? c) && (c <? 127))%N
|}.


Fixpoint hex_rev (fuel : nat) (n : N) : str :=
  match fuel with
  | O => []
  | S fuel => hex_digit (n mod 16) :: (if (n <? 16)%N then [] else hex_rev fuel (n / 16))
  end.

Definition hex (n : N) : str := reverse (hex_rev 8 n).

Section Rendering.
Context `{Unicode} `{DebugTables}.

Definition debug_char (c : char) : str :=
  if (c =? 0)%N then lit "\0"
  else if (c =? 9)%N then lit "\t"
  else if (c =? 10)%N then lit "\n"
  else if (c =? 13)%N then lit "\r"
  else if (c =? 92)%N then lit "\\"
  else if (c =? 34)%N then [92; 34]%N
  else if grapheme_extend c || negb (printable c) then lit "\u{" ++ hex c ++ lit "}"
  else [c].

Definition debug_str (s : str) : str := [34%N] ++ (s ≫= debug_char) ++ [34%N].

Inductive Ev := Utt (r : SummaryUtterance) | Scr (s : CollapsedScr).

Definition utterance_line (r : SummaryUtterance) : str :=
  let label :=
    match u_language r with
    | Some l => if is_empty l then u_speaker_label r else u_speaker_label r ++ lit "|" ++ l
    | None => u_speaker_label r
    end in
  fmt_time (u_started_at r) ++ lit " [" ++ label ++ lit "] " ++ u_text r.

Definition screen_line (s : CollapsedScr) : str :=
  let app := default [] (c_active_app s) in
  let title :=
    match c_window_title s with
    | Some t => if is_empty t then [] else ulit " — " ++ t
    | None => []
    end in
  let url := match c_url s with Some u => lit " <" ++ u ++ lit ">" | None => [] end in
  let time_str :=
    match c_visible_until s with
    | Some until => fmt_time (c_captured_at s) ++ lit " - " ++ fmt_time until
    | None => fmt_time (c_captured_at s)
    end in
  time_str ++ lit " [screen] " ++ app ++ title ++ url.

(** The excerpt of one screen's text within what is left of the budget. *)
Definition screen_excerpt (ocr_budget : Z) (ocr : str) : str :=
  take (Z.to_nat (Z.min 1200 ocr_budget)) (join [space] (split_whitespace ocr)).

Definition facts_line (facts : list str) : str :=
  lit "         [screen-facts] " ++ join (lit ", ") (debug_str <$> facts).

(** One event of the log; [None] is a panic in the fact extraction. *)
Definition render_event (state : Z * list str) (ev : Ev) : option (Z * list str) :=
  let (ocr_budget, lines) := state in
  match ev with
  | Utt r => Some (ocr_budget, lines ++ [utterance_line r])
  | Scr s =>
    let lines := lines ++ [screen_line s] in
    match select_salient_ocr (c_ocr_text s) (c_salient_ocr_text s) with
    | None => Some (ocr_budget, lines)
    | Some ocr =>
      let (ocr_budget, lines) :=
        if 0 <? ocr_budget then
          let excerpt := screen_excerpt ocr_budget ocr in
          if is_empty excerpt then (ocr_budget, lines)
          else (ocr_budget - byte_len excerpt, lines ++ [lit "         [screen-text] " ++ excerpt])
        else (ocr_budget, lines) in
      match extract_screen_facts ocr with
      | None => None
      | Some facts => Some (ocr_budget, if is_empty facts then lines else lines ++ [facts_line facts])
      end
    end
  end.

Definition capture_events (utterances : list SummaryUtterance) (screenshots : list SummaryScreenshot) :
  list (Z * Ev) :=
  sort_by_key fst
    (((fun u => (ms (u_started_at u), Utt u)) <$> utterances)
     ++ ((fun s => (ms (c_captured_at s), Scr s)) <$> collapse_screenshots screenshots)).

Definition render_events (events : list Ev) (state : Z * list str) : option (Z * list str) :=
  fold_left (fun state ev => state ≫= fun state => render_event state ev) events (Some state).

Definition render_capture_text (utterances : list SummaryUtterance)
    (screenshots : list SummaryScreenshot) : option str :=
  match render_events (capture_events utterances screenshots).*2 (30000, []) with
  | Some (_, lines) => Some (join [newline] lines)
  | None => None
  end.
End Rendering.

(** ** Grounding of deictic speech *)

Record GroundingRequirement := { at_ms : Z; entities : list str }.

#[export] Instance GroundingRequirement_eq_dec : EqDecision GroundingRequirement.
Proof. solve_decision. Defined.

(** [(a - b).abs() <= bound] *)
Definition within (bound a b : Z) : bool := I64.abs (I64.sub a b) <=? bound.

(** [Vec] of values not seen before, with the set of their lowercase forms. *)
Definition push_new `{Unicode} (acc : list str * bset str) (fact : str) : list str * bset str :=
  if bset_mem (to_lowercase fact) acc.2 then acc
  else (acc.1 ++ [fact], bset_add (to_lowercase fact) acc.2).

Section Grounding.
Context `{Unicode}.

(** A pointing phrase, or one of at least two "this one" turns nearby. *)
Definition points_at_screen (utterances : list SummaryUtterance) (utterance : SummaryUtterance) : bool :=
  contains_plural_deictic (u_text utterance)
  || (contains_singular_deictic (u_text utterance)
      && (2 <=? count_if (fun candidate =>
                            contains_singular_deictic (u_text candidate)
                            && within 20000 (ms (u_started_at candidate)) (ms (u_started_at utterance)))
                         utterances)%nat).

(** The facts of one screenshot near the moment: [None] is a panic. *)
Definition nearby_facts (at_ms : Z) (screenshot : SummaryScreenshot) : option (list str) :=
  if negb (within 45000 (ms (s_captured_at screenshot)) at_ms) then Some []
  else match select_salient_ocr (s_ocr_text screenshot) (s_salient_ocr_text screenshot) with
       | None => Some []
       | Some salient => extract_screen_facts salient
       end.

(** The facts of every frame, and the facts of the frames showing exactly
    one, each the first of its spelling. *)
Definition collect_facts (acc : (list str * bset str) * (list str * bset str)) (facts : list str) :
  (list str * bset str) * (list str * bset str) :=
  let (all, primary) := acc in
  let primary := match facts with [fact] => push_new primary fact | _ => primary end in
  (fold_left push_new facts all, primary).

Definition grounded_entities (at_ms : Z) (screenshots : list SummaryScreenshot) : option (list str) :=
  frames ← mapM (nearby_facts at_ms) screenshots;
  let '((all_entities, _), (primary_entities, _)) :=
    fold_left collect_facts frames (([], []), ([], [])) in
  Some (if (length primary_entities =? 2)%nat then primary_entities else all_entities).

Definition grounding_step (utterances : list SummaryUtterance) (screenshots : list SummaryScreenshot)
    (requirements : list GroundingRequirement) (utterance : SummaryUtterance) :
  option (list GroundingRequirement) :=
  let at_ms' := ms (u_started_at utterance) in
  if negb (points_at_screen utterances utterance) then Some requirements
  else if existsb (fun requirement => within 30000 (at_ms requirement) at_ms') requirements
  then Some requirements
  else
    entities' ← grounded_entities at_ms' screenshots;
    Some (if (length entities' =? 2)%nat
          then requirements ++ [{| at_ms := at_ms'; entities := entities' |}]
          else requirements).

Definition grounding_requirements (utterances : list SummaryUtterance)
    (screenshots : list SummaryScreenshot) : option (list GroundingRequirement) :=
  fold_left (fun acc utterance => acc ≫= fun rs => grounding_step utterances screenshots rs utterance)
    utterances (Some []).

Context `{DebugTables}.

Definition requirement_line (requirement : GroundingRequirement) : str :=
  lit "- At " ++ format_epoch_millis (at_ms requirement)
  ++ lit ", deictic speech points to exactly these literal on-screen titles: "
  ++ join (lit ", ") (debug_str <$> entities requirement)
  ++ lit ". The summary bullet for the episode containing this moment MUST name both titles.".

Definition render_grounding_requirements (requirements : list GroundingRequirement) : str :=
  if is_empty requirements then []
  else lit "GROUNDING REQUIREMENTS (literal screen evidence; do not infer beyond it):" ++ [newline]
       ++ join [newline] (requirement_line <$> requirements) ++ [newline; newline].

(** The array under [episodes], empty when absent or of another type. *)
Definition episodes_of (parsed : Value) : list Value :=
  default [] (get (lit "episodes") parsed ≫= as_array).

Definition str_field (key : string) (v : Value) : option str := get (lit key) v ≫= as_str.

(** The first episode whose widened span contains the moment. *)
Definition contains_moment (moment : Z) (episode : Value) : bool :=
  let start := default I64.max_value (ms <$> str_field "started_at" episode) in
  let end_ := default I64.min_value (ms <$> str_field "ended_at" episode) in
  (I64.sub start 10000 <=? moment) && (moment <=? I64.add end_ 10000).

Definition missing_for (episodes : list Value) (requirement : GroundingRequirement) : list str :=
  let containing := List.find (contains_moment (at_ms requirement)) episodes in
  let summary := to_lowercase (default [] (containing ≫= str_field "summary")) in
  List.filter (fun entity => negb (contains (to_lowercase entity) summary)) (entities requirement).

(** [dedup_by(eq_ignore_ascii_case)] *)
Fixpoint dedup_ascii (kept : option str) (l : list str) : list str :=
  match l with
  | [] => []
  | x :: rest =>
    match kept with
    | Some previous =>
      if eq_ignore_ascii_case x previous then dedup_ascii kept rest else x :: dedup_ascii (Some x) rest
    | None => x :: dedup_ascii (Some x) rest
    end
  end.

Definition missing_grounded_entities (parsed : Value) (requirements : list GroundingRequirement) :
  list str :=
  dedup_ascii None (sort_by_key to_lowercase (requirements ≫= missing_for (episodes_of parsed))).
End Grounding.

(** ** The provider's JSON *)

(** The scan of [extract_json]: the text up to the brace that closes the
    first object, outside strings. *)
Fixpoint scan_object (s : str) (depth : Z) (in_str esc : bool) : option str :=
  match s with
  | [] => None
  | c :: rest =>
    if esc then cons c <$> scan_object rest depth in_str false
    else if (c =? 92)%N && in_str then cons c <$> scan_object rest depth in_str true
    else if (c =? 34)%N then cons c <$> scan_object rest depth (negb in_str) false
    else if (c =? ch "{")%N && negb in_str then cons c <$> scan_object rest (depth + 1) in_str false
    else if (c =? ch "}")%N && negb in_str then
      if depth - 1 =? 0 then Some [c] else cons c <$> scan_object rest (depth - 1) in_str false
    else cons c <$> scan_object rest depth in_str false
  end.

Inductive CaptureFormationProviderResponse :=
| ExplicitNoMemory
| CandidateEpisodes (parsed : Value).

Section Parsing.
(** [serde_json::from_str], [None] on an error. *)
Context (from_str : str -> option Value).

Definition extract_json (text : str) : option Value :=
  match from_str text with
  | Some v => Some v
  | None => scan_object (drop_while (fun c => negb (c =? ch "{")%N) text) 0 false false ≫= from_str
  end.

Definition parse_capture_formation_provider_response (response : str) :
  option CaptureFormationProviderResponse :=
  parsed ← from_str response;
  episodes ← get (lit "episodes") parsed ≫= as_array;
  Some (if is_empty episodes then ExplicitNoMemory else CandidateEpisodes parsed).
End Parsing.

(** ** Membership *)

Definition inner_step (spans_t : Z) (acc : option nat * Z) (entry : nat * (Z * Z)) : option nat * Z :=
  let '(i, (s, e)) := entry in
  if (spans_t <? s) || (e <? spans_t) then acc
  else
    let span := I64.sub e s in
    if span <? acc.2 then (Some i, span) else acc.

(** The narrowest span containing [t], the first on ties. *)
Definition assign (spans : list (Z * Z)) (t : Z) : option nat :=
  fst (fold_left (inner_step t) (zip (seq 0 (length spans)) spans) (None, I64.max_value)).

Definition push_at (project : list Z * list Z -> Z -> list Z * list Z) (spans : list (Z * Z))
    (out : list (list Z * list Z)) (row : Z * Z) : list (list Z * list Z) :=
  match assign spans row.1 with
  | Some i => alter (fun members => project members row.2) i out
  | None => out
  end.

Definition push_utterance (members : list Z * list Z) (id : Z) := (members.1 ++ [id], members.2).
Definition push_screenshot (members : list Z * list Z) (id : Z) := (members.1, members.2 ++ [id]).

Definition derive_membership (utterances : list SummaryUtterance) (screenshots : list SummaryScreenshot)
    (spans : list (Z * Z)) : list (list Z * list Z) :=
  let out := (fun _ => ([], [])) <$> spans in
  let out := fold_left (push_at push_utterance spans)
               ((fun u => (ms (u_started_at u), u_id u)) <$> utterances) out in
  fold_left (push_at push_screenshot spans)
    ((fun s => (ms (s_captured_at s), s_id s)) <$> screenshots) out.

(** ** Reading the model's episodes *)

Record ExactEpisode := {
  started : Z;
  ended : Z;
  type_ : option str;
  ee_title : str;
  ee_summary : option str;
  ee_languages : option (list str);
  ee_action_items : option (list str);
  ee_substance : option str;
  ee_visual_evidence : option str;
  minutes : option (list MinuteBucket)
}.

(** The strings of an array field, other items skipped. *)
Definition str_arr (value : option Value) : option (list str) :=
  (fun items : list Value => omap as_str items) <$> (value ≫= as_array).

Definition minute_of (minute : Value) : option MinuteBucket :=
  start ← str_field "start" minute;
  gist ← str_field "gist" minute;
  Some {| Episode.start := start; Episode.gist := gist |}.

Definition minutes_arr (value : option Value) : option (list MinuteBucket) :=
  (fun items : list Value => omap minute_of items) <$> (value ≫= as_array).

(** One item of the model's [episodes]: both bounds and a title are
    required, everything else is optional. *)
Definition read_episode (episode : Value) : option ExactEpisode :=
  started ← str_field "started_at" episode;
  ended ← str_field "ended_at" episode;
  title ← str_field "title" episode;
  Some {| started := ms started; ended := ms ended; type_ := str_field "type" episode;
          ee_title := title; ee_summary := str_field "summary" episode;
          ee_languages := str_arr (get (lit "languages") episode);
          ee_action_items := str_arr (get (lit "action_items") episode);
          ee_substance := str_field "substance" episode;
          ee_visual_evidence := str_field "visual_evidence" episode;
          minutes := minutes_arr (get (lit "minutes") episode) |}.

(** [i64 as f64 / 60000.0], at least one. *)
Definition span_minutes (episode : ExactEpisode) : f64 :=
  f64_max (f64_div (f64_of_Z (I64.sub (ended episode) (started episode))) (f64_of_Z 60000)) (f64_of_Z 1).

(** The time the screenshots of an episode span. *)
Definition screen_span (screenshots : list SummaryScreenshot) (ids : list Z) : Z :=
  let times :=
    (fun s => ms (s_captured_at s))
      <$> omap (fun id => List.find (fun s => s_id s =? id) screenshots) ids in
  match min_Z times, max_Z times with
  | Some first, Some last => I64.sub last first
  | _, _ => 0
  end.

(** The utterances by id, the last row of an id winning. *)
Definition utterances_by_id (utterances : list SummaryUtterance) : bmap Z SummaryUtterance :=
  bfrom_list ((fun u => (u_id u, u)) <$> utterances).

(** The episode written for a parsed one and its members. *)
Definition episode_input (model : str) (existing_id : option Z) (episode : ExactEpisode)
    (members : list Z * list Z) : EpisodeInput :=
  {| id := existing_id;
     started_at := format_epoch_millis (started episode);
     ended_at := format_epoch_millis (ended episode);
     episode_type := type_ episode;
     title := ee_title episode;
     summary := ee_summary episode;
     participants := None;
     languages := ee_languages episode;
     action_items := ee_action_items episode;
     substance := ee_substance episode;
     visual_evidence := ee_visual_evidence episode;
     minute_summaries := minutes episode;
     Episode.model := Some model;
     member_utterance_ids := members.1;
     member_screenshot_ids := members.2 |}.

Section Lanes.
Context `{Unicode}.

Definition significant (utterances : list SummaryUtterance) (screenshots : list SummaryScreenshot)
    (settled : bool) (episode : ExactEpisode) (members : list Z * list Z) : bool :=
  let '(substantive, substantive_words) :=
    substantive_evidence (omap (fun id => bget id (utterances_by_id utterances)) members.1) in
  episode_is_significant substantive substantive_words (span_minutes episode)
    (screen_span screenshots members.2) settled.

(** The exact-session lane only takes titled episodes inside the range. *)
Definition exact_admits (range_from_ms range_to_ms : Z) (episode : ExactEpisode) : bool :=
  negb ((started episode <? range_from_ms) || (range_to_ms <? ended episode)
        || (ended episode <? started episode) || is_blank (ee_title episode)).

(** One round of the loop over the episodes and their members. *)
Definition exact_input_step (model : str) (utterances : list SummaryUtterance)
    (screenshots : list SummaryScreenshot) (acc : list EpisodeInput * nat)
    (entry : ExactEpisode * (list Z * list Z)) : list EpisodeInput * nat :=
  let (episode, members) := entry in
  if significant utterances screenshots true episode members
  then (acc.1 ++ [episode_input model None episode members], acc.2)
  else (acc.1, S acc.2).

Definition exact_episode_inputs (model : str) (parsed : Value) (utterances : list SummaryUtterance)
    (screenshots : list SummaryScreenshot) (range_from_ms range_to_ms : Z) : list EpisodeInput * nat :=
  let episodes :=
    List.filter (exact_admits range_from_ms range_to_ms) (omap read_episode (episodes_of parsed)) in
  let membership :=
    derive_membership utterances screenshots ((fun e => (started e, ended e)) <$> episodes) in
  fold_left (exact_input_step model utterances screenshots) (zip episodes membership) ([], O).

(** ** The lossless settlement of one exact page *)

Definition blank_title (value : option str) : option str :=
  match value with Some v => if is_blank v then None else Some v | None => None end.

Fixpoint find_map {A B} (f : A -> option B) (l : list A) : option B :=
  match l with
  | [] => None
  | x :: rest => match f x with Some b => Some b | None => find_map f rest end
  end.

Definition or_else {A} (a b : option A) : option A := match a with Some _ => a | None => b end.

Definition conservative_capture_page_input (utterances : list SummaryUtterance)
    (screenshots : list SummaryScreenshot) : option EpisodeInput :=
  let times :=
    sort_by Z.leb (((fun row => ms (u_started_at row)) <$> utterances)
                   ++ ((fun row => ms (s_captured_at row)) <$> screenshots)) in
  started ← List.hd_error times;
  let ended := Z.max (default started (last times)) (I64.add started 1) in
  let title :=
    take 200 (default (lit "Captured activity")
      (blank_title (find_map (fun row => or_else (s_window_title row) (s_active_app row)) screenshots))) in
  Some {| id := None;
          started_at := format_epoch_millis started;
          ended_at := format_epoch_millis ended;
          episode_type := Some (lit "other");
          title := title;
          summary := Some (lit "Captured evidence retained for later memory organization.");
          participants := Some (bset_of_list (u_speaker_label <$> utterances));
          languages := Some (bset_of_list (omap u_language utterances));
          action_items := Some [];
          substance := Some (lit "normal");
          visual_evidence := Some (if is_empty screenshots then lit "none" else lit "useful");
          minute_summaries := Some [];
          Episode.model := Some (lit "conservative-capture-page-keep-v1");
          member_utterance_ids := u_id <$> utterances;
          member_screenshot_ids := s_id <$> screenshots |}.

(** [ids.iter().all(|id| set.insert( *id))]: stops at the first repeat. *)
Fixpoint insert_all (ids : list Z) (set : bset Z) : bset Z * bool :=
  match ids with
  | [] => (set, true)
  | id :: rest => if bset_mem id set then (set, false) else insert_all rest (bset_add id set)
  end.

(** The loop over the episodes, stopping at the first repeated member. *)
Fixpoint insert_members (episodes : list EpisodeInput) (utterances screenshots : bset Z) :
  bset Z * bset Z * bool :=
  match episodes with
  | [] => (utterances, screenshots, true)
  | episode :: rest =>
    let (utterances, fresh) := insert_all (member_utterance_ids episode) utterances in
    if negb fresh then (utterances, screenshots, false)
    else
      let (screenshots, fresh) := insert_all (member_screenshot_ids episode) screenshots in
      if negb fresh then (utterances, screenshots, false)
      else insert_members rest utterances screenshots
  end.

Definition capture_page_members_are_exact (episodes : list EpisodeInput)
    (utterance_ids screenshot_ids : list Z) : bool :=
  let '(actual_utterances, actual_screenshots, unique) := insert_members episodes [] [] in
  unique && bool_decide (actual_utterances = bset_of_list utterance_ids)
  && bool_decide (actual_screenshots = bset_of_list screenshot_ids).

Context (from_str : str -> option Value).

Definition capture_formation_response_inputs (model response : str)
    (grounding : list GroundingRequirement) (utterances : list SummaryUtterance)
    (screenshots : list SummaryScreenshot) (range_from_ms range_to_ms : Z) : list EpisodeInput * nat :=
  let conservative := (option_list (conservative_capture_page_input utterances screenshots), O) in
  match parse_capture_formation_provider_response from_str response with
  | Some ExplicitNoMemory => ([], O)
  | Some (CandidateEpisodes parsed) =>
    if negb (is_empty (missing_grounded_entities parsed grounding)) then conservative
    else
      let (episodes, dropped) :=
        exact_episode_inputs model parsed utterances screenshots range_from_ms range_to_ms in
      if is_empty episodes
         || negb (capture_page_members_are_exact episodes (u_id <$> utterances) (s_id <$> screenshots))
      then conservative
      else (episodes, dropped)
  | None => conservative
  end.
End Lanes.

(** ** Exactness of a page's members *)

Lemma insert_all_spec ids set set' fresh :
  bset_wf set -> insert_all ids set = (set', fresh) ->
  bset_wf set' /\ (fresh = true -> NoDup ids /\ (forall x, x ∈ ids -> x ∉ (set : list Z))
                                   /\ forall x, x ∈ (set' : list Z) <-> x ∈ ids \/ x ∈ (set : list Z)).
Proof.
  revert set; induction ids as [|id rest IH]; intros set wf; cbn [insert_all].
  - intros E; injection E as <- <-; split; [done |]; intros _.
    split_and!; [constructor | intros x Hx; by apply elem_of_nil in Hx |].
    intros x; rewrite elem_of_nil; tauto.
  - destruct (bset_mem id set) eqn:mem.
    + intros E; injection E as <- <-; done.
    + assert (new : id ∉ (set : list Z)).
      { intros Hid; apply (bset_mem_spec id set wf) in Hid; congruence. }
      intros E; destruct (IH _ (bset_add_wf _ _ wf) E) as [wf' spec]; split; [done |].
      intros F; destruct (spec F) as (nd & out & elems); split_and!.
      * constructor; [| done]; intros Hid; apply (out id Hid), elem_of_bset_add; auto.
      * intros x Hx; apply elem_of_cons in Hx as [-> | Hx]; [done |].
        intros Hx'; apply (out x Hx), elem_of_bset_add; auto.
      * intros x; rewrite elems, elem_of_cons, elem_of_bset_add; tauto.
Qed.

(** The ids of [sel] over all episodes, none of them in [set]. *)
Definition fresh_members (sel : EpisodeInput -> list Z) (episodes : list EpisodeInput) (set set' : bset Z) :
  Prop :=
  NoDup (episodes ≫= sel) /\ (forall x, x ∈ episodes ≫= sel -> x ∉ (set : list Z))
  /\ forall x, x ∈ (set' : list Z) <-> x ∈ episodes ≫= sel \/ x ∈ (set : list Z).

Lemma fresh_members_cons sel episode episodes set set1 set' :
  NoDup (sel episode) -> (forall x, x ∈ sel episode -> x ∉ (set : list Z)) ->
  (forall x, x ∈ (set1 : list Z) <-> x ∈ sel episode \/ x ∈ (set : list Z)) ->
  fresh_members sel episodes set1 set' -> fresh_members sel (episode :: episodes) set set'.
Proof.
  intros nd out elems (nd' & out' & elems'); unfold fresh_members; rewrite bind_cons; split_and!.
  - apply NoDup_app; split_and!; [done | | done].
    intros x Hx Hx'; apply (out' x Hx'), elems; auto.
  - intros x; rewrite elem_of_app; intros [Hx | Hx]; [by apply out |].
    intros Hs; apply (out' x Hx), elems; auto.
  - intros x; rewrite elems', elems, elem_of_app; tauto.
Qed.

Lemma insert_members_spec episodes us ss us' ss' unique :
  bset_wf us -> bset_wf ss -> insert_members episodes us ss = (us', ss', unique) ->
  bset_wf us' /\ bset_wf ss'
  /\ (unique = true -> fresh_members member_utterance_ids episodes us us'
                       /\ fresh_members member_screenshot_ids episodes ss ss').
Proof.
  revert us ss; induction episodes as [|episode rest IH]; intros us ss wfu wfs; cbn [insert_members].
  - intros E; injection E as <- <- <-; split_and!; try done; intros _.
    split; (split_and!; [apply NoDup_nil_2 | |]); cbn; intros x; rewrite ?elem_of_nil; tauto.
  - destruct (insert_all (member_utterance_ids episode) us) as [us1 fresh] eqn:U.
    destruct (insert_all_spec _ _ _ _ wfu U) as [wfu1 specu]; destruct fresh; cbn [negb].
    2: intros E; injection E as <- <- <-; done.
    destruct (insert_all (member_screenshot_ids episode) ss) as [ss1 fresh] eqn:S'.
    destruct (insert_all_spec _ _ _ _ wfs S') as [wfs1 specs]; destruct fresh; cbn [negb].
    2: intros E; injection E as <- <- <-; done.
    intros E; destruct (IH _ _ wfu1 wfs1 E) as (? & ? & spec); split_and!; try done.
    intros Hu; destruct (spec Hu), (specu eq_refl) as (? & ? & ?), (specs eq_refl) as (? & ? & ?).
    split; eapply fresh_members_cons; eauto.
Qed.

Lemma exact_members_perm sel episodes set ids :
  fresh_members sel episodes [] set -> (set : list Z) = bset_of_list ids -> NoDup ids ->
  Permutation (episodes ≫= sel) ids.
Proof.
  intros (nd & _ & elems) E nd'; apply NoDup_Permutation; [done | done |].
  intros x; pose proof (elem_of_bset_of_list ids x) as B; unfold bset in *.
  rewrite <- E, elems, elem_of_nil in B; tauto.
Qed.

Lemma members_are_exact_perm episodes utterance_ids screenshot_ids :
  capture_page_members_are_exact episodes utterance_ids screenshot_ids = true ->
  NoDup utterance_ids -> NoDup screenshot_ids ->
  Permutation (episodes ≫= member_utterance_ids) utterance_ids
  /\ Permutation (episodes ≫= member_screenshot_ids) screenshot_ids.
Proof.
  unfold capture_page_members_are_exact.
  destruct (insert_members episodes [] []) as [[us ss] unique] eqn:E; intros B ndu nds.
  apply andb_true_iff in B as [B ES]; apply andb_true_iff in B as [-> EU].
  apply bool_decide_eq_true in EU; apply bool_decide_eq_true in ES.
  destruct (insert_members_spec _ _ _ _ _ _ (SSorted_nil _) (SSorted_nil _) E) as (_ & _ & spec).
  destruct (spec eq_refl) as [fu fs]; split; eapply exact_members_perm; eauto.
Qed.

(** The conservative draft owns the whole page. *)
Lemma conservative_page_exact utterances screenshots :
  utterances <> [] \/ screenshots <> [] ->
  exists episode, conservative_capture_page_input utterances screenshots = Some episode
    /\ id episode = None
    /\ member_utterance_ids episode = u_id <$> utterances
    /\ member_screenshot_ids episode = s_id <$> screenshots.
Proof.
  intros some; unfold conservative_capture_page_input; set (times := _ ++ _).
  destruct (List.hd_error (sort_by Z.leb times)) as [t|] eqn:hd.
  - eexists; split; [reflexivity | done].
  - exfalso; assert (empty : sort_by Z.leb times = []) by (destruct (sort_by _ _); [done | discriminate]).
    apply sort_by_nil_inv in empty; unfold times in empty.
    apply app_nil in empty as [eu es]; apply fmap_nil_inv in eu, es; subst; destruct some; done.
Qed.

Lemma exact_episode_inputs_new `{Unicode} model parsed utterances screenshots from to :
  Forall (fun episode => id episode = None)
    (exact_episode_inputs model parsed utterances screenshots from to).1.
Proof.
  unfold exact_episode_inputs; cbv zeta; generalize (zip (List.filter (exact_admits from to)
    (omap read_episode (episodes_of parsed))) (derive_membership utterances screenshots
    ((fun e => (started e, ended e)) <$> List.filter (exact_admits from to)
       (omap read_episode (episodes_of parsed))))) as entries.
  assert (start : Forall (fun episode => id episode = None) (([], O) : list EpisodeInput * nat).1)
    by constructor.
  revert start; generalize (([], O) : list EpisodeInput * nat) as acc; intros acc start entries.
  revert acc start; induction entries as [|[episode members] entries IH]; intros acc start; [done |].
  cbn [fold_left]; apply IH; unfold exact_input_step; case_ifs; cbn; [| done].
  apply Forall_app; split; [done | by constructor].
Qed.

(** The settlement of one page, for the property below and for the lane. *)
Lemma response_inputs_lossless `{Unicode} from_str model response grounding utterances
    screenshots range_from_ms range_to_ms :
  NoDup (u_id <$> utterances) -> NoDup (s_id <$> screenshots) ->
  utterances <> [] \/ screenshots <> [] ->
  let episodes := fst (capture_formation_response_inputs from_str model response grounding utterances
                         screenshots range_from_ms range_to_ms) in
  (episodes = [] <-> parse_capture_formation_provider_response from_str response = Some ExplicitNoMemory)
  /\ (episodes <> [] ->
      Permutation (episodes ≫= member_utterance_ids) (u_id <$> utterances)
      /\ Permutation (episodes ≫= member_screenshot_ids) (s_id <$> screenshots)
      /\ Forall (fun episode => id episode = None) episodes).
Proof.
  intros ndu nds some.
  destruct (conservative_page_exact utterances screenshots some) as (keep & E & new & us & ss).
  unfold capture_formation_response_inputs; rewrite E; cbn [option_list].
  assert (kept : (forall r, r <> Some ExplicitNoMemory -> [keep] = [] <-> r = Some ExplicitNoMemory)
    /\ ([keep] <> [] -> Permutation ([keep] ≫= member_utterance_ids) (u_id <$> utterances)
      /\ Permutation ([keep] ≫= member_screenshot_ids) (s_id <$> screenshots)
      /\ Forall (fun episode => id episode = None) [keep])).
  { cbn; rewrite us, ss, !app_nil_r; split; [intros r; split; congruence | auto]. }
  destruct kept as [empty kept].
  destruct (parse_capture_formation_provider_response from_str response) as [[|parsed]|]; cbn [fst].
  - split; [done | by intros []].
  - destruct (negb _); [split; [by apply empty | exact kept] |].
    destruct (exact_episode_inputs _ _ _ _ _ _) as [episodes dropped] eqn:X.
    destruct (is_empty episodes) eqn:none; [split; [by apply empty | exact kept] |]; cbn [orb].
    destruct (capture_page_members_are_exact _ _ _) eqn:exact_; cbn [negb fst];
      [| split; [by apply empty | exact kept]].
    apply is_empty_false in none; split; [split; [done | discriminate] |]; intros _.
    destruct (members_are_exact_perm _ _ _ exact_ ndu nds); split_and!; try done.
    pose proof (exact_episode_inputs_new model parsed utterances screenshots range_from_ms range_to_ms) as new'.
    by rewrite X in new'.
  - split; [by apply empty | exact kept].
Qed.

(** Settling the response for one exact capture page loses nothing.  The
    page settles to no memory exactly when the response explicitly holds an
    empty [episodes] array; otherwise every utterance and every screenshot of
    the page belongs to exactly one of the written episodes, whatever the
    provider answered, and no existing episode is extended. *)
Theorem capture_page_settlement_lossless `{Unicode} from_str model response grounding utterances
    screenshots range_from_ms range_to_ms :
  NoDup (u_id <$> utterances) -> NoDup (s_id <$> screenshots) ->
  utterances <> [] \/ screenshots <> [] ->
  let episodes := fst (capture_formation_response_inputs from_str model response grounding utterances
                         screenshots range_from_ms range_to_ms) in
  (episodes = [] <-> parse_capture_formation_provider_response from_str response = Some ExplicitNoMemory)
  /\ (episodes <> [] ->
      Permutation (episodes ≫= member_utterance_ids) (u_id <$> utterances)
      /\ Permutation (episodes ≫= member_screenshot_ids) (s_id <$> screenshots)
      /\ Forall (fun episode => id episode = None) episodes).
Proof. apply response_inputs_lossless. Qed.

(** ** Membership by the innermost span *)

(** Spans whose width fits: those of parsed timestamps do. *)
Definition narrow (span : Z * Z) : Prop := span.1 <= span.2 -> span.2 - span.1 < I64.max_value.

Definition in_span (t : Z) (span : Z * Z) : Prop := span.1 <= t <= span.2.

(** [i] is the first of the narrowest spans of [spans] containing [t]. *)
Definition innermost (spans : list (Z * Z)) (t : Z) (i : nat) : Prop :=
  exists span, spans !! i = Some span /\ in_span t span
    /\ forall j other, spans !! j = Some other -> in_span t other ->
         span.2 - span.1 <= other.2 - other.1
         /\ ((j < i)%nat -> span.2 - span.1 < other.2 - other.1).

(** The loop's state after the first spans. *)
Definition inner_state (spans : list (Z * Z)) (t : Z) (acc : option nat * Z) : Prop :=
  match acc.1 with
  | None => acc.2 = I64.max_value /\ forall span, span ∈ spans -> ~ in_span t span
  | Some i => innermost spans t i
              /\ exists span, spans !! i = Some span /\ acc.2 = span.2 - span.1
  end.

Lemma innermost_snoc_out spans t i span :
  ~ in_span t span -> innermost spans t i -> innermost (spans ++ [span]) t i.
Proof.
  intros out (best & look & inside & least); exists best; split_and!; [by apply lookup_app_l_Some | done |].
  intros j other Hj; apply lookup_app_Some in Hj as [Hj | [_ Hj]]; [by apply least |].
  apply list_lookup_singleton_Some in Hj as [_ <-]; done.
Qed.

Lemma innermost_snoc_wider spans t i best span :
  spans !! i = Some best -> best.2 - best.1 <= span.2 - span.1 ->
  innermost spans t i -> innermost (spans ++ [span]) t i.
Proof.
  intros look' wide (best' & look & inside & least); assert (best' = best) as -> by congruence.
  exists best; split_and!; [by apply lookup_app_l_Some | done |].
  intros j other Hj; apply lookup_app_Some in Hj as [Hj | [len Hj]]; [by apply least |].
  apply list_lookup_singleton_Some in Hj as [_ <-]; intros _; split; [done |].
  apply lookup_lt_Some in look; lia.
Qed.

Lemma innermost_snoc_new spans t span :
  in_span t span ->
  (forall other, other ∈ spans -> in_span t other -> span.2 - span.1 < other.2 - other.1) ->
  innermost (spans ++ [span]) t (length spans).
Proof.
  intros inside narrower; exists span; split_and!; [by apply list_lookup_middle | done |].
  intros j other Hj Ho; apply lookup_app_Some in Hj as [Hj | [len Hj]].
  - apply list_elem_of_lookup_2 in Hj; specialize (narrower _ Hj Ho); lia.
  - apply list_lookup_singleton_Some in Hj as [Ej <-]; lia.
Qed.

Lemma inner_step_state spans t acc span :
  narrow span -> inner_state spans t acc ->
  inner_state (spans ++ [span]) t (inner_step t acc (length spans, span)).
Proof.
  intros fits state; destruct span as [s e]; unfold narrow in fits; cbn in fits; cbn [inner_step].
  destruct ((t <? s) || (e <? t)) eqn:outside.
  { assert (out : ~ in_span t (s, e)) by (unfold in_span; cbn; bool_prop; lia).
    unfold inner_state in *; destruct acc as [[i|] width]; cbn in *.
    - destruct state as [best (span & look & ->)]; split; [by apply innermost_snoc_out |].
      exists span; split; [by apply lookup_app_l_Some | done].
    - destruct state as [-> none]; split; [done |].
      intros x; rewrite elem_of_app, list_elem_of_singleton; intros [Hx | ->]; [by apply none | done]. }
  assert (inside : in_span t (s, e)) by (unfold in_span; cbn; bool_prop; lia).
  assert (width : I64.sub e s = e - s).
  { unfold in_span in inside; cbn in inside; apply I64.wrap_small.
    unfold I64.in_range, I64.min_value, I64.max_value in *; lia. }
  rewrite width; destruct (e - s <? acc.2) eqn:less; bool_prop.
  - unfold inner_state; cbn; split.
    + apply innermost_snoc_new; [done |]; intros other Hother Ho; cbn.
      unfold inner_state in state; destruct acc as [[i|] w]; cbn in *.
      * destruct state as [(best & look & _ & least) (span & look' & ->)].
        assert (span = best) as -> by congruence.
        apply list_elem_of_lookup in Hother as [j Hj]; destruct (least j other Hj Ho); lia.
      * destruct state as [_ none]; by destruct (none other Hother).
    + exists (s, e); split; [by apply list_lookup_middle | done].
  - unfold inner_state in *; destruct acc as [[i|] w]; cbn in *.
    + destruct state as [best (span & look & ->)]; split.
      * eapply innermost_snoc_wider; eauto.
      * exists span; split; [by apply lookup_app_l_Some | done].
    + destruct state as [-> _]; unfold in_span in inside; cbn in inside; lia.
Qed.

Lemma zip_seq_snoc {A} (l : list A) x :
  zip (seq 0 (length (l ++ [x]))) (l ++ [x]) = zip (seq 0 (length l)) l ++ [(length l, x)].
Proof.
  rewrite length_app; cbn [length]; rewrite Nat.add_1_r, seq_S, zip_with_app by (by rewrite length_seq).
  done.
Qed.

Lemma assign_state spans t :
  Forall narrow spans ->
  inner_state spans t (fold_left (inner_step t) (zip (seq 0 (length spans)) spans) (None, I64.max_value)).
Proof.
  induction spans as [|span spans IH] using rev_ind; intros fits.
  - split; [done |]; intros x Hx; by apply elem_of_nil in Hx.
  - apply Forall_app in fits as [fits fit]; apply Forall_cons_1 in fit as [fit _].
    rewrite zip_seq_snoc, fold_left_app; cbn [fold_left]; apply inner_step_state; [exact fit | exact (IH fits)].
Qed.

(** [assign] finds the innermost span, and nothing only when none contains
    the time. *)
Lemma assign_spec spans t :
  Forall narrow spans ->
  match assign spans t with
  | Some i => innermost spans t i
  | None => forall span, span ∈ spans -> ~ in_span t span
  end.
Proof.
  intros fits; pose proof (assign_state spans t fits) as state; unfold assign, inner_state in *.
  destruct (fst _); tauto.
Qed.

Lemma push_at_lookup project spans rows out i members :
  out !! i = Some members ->
  fold_left (push_at project spans) rows out !! i
  = Some (fold_left project (snd <$> List.filter (fun row => bool_decide (assign spans row.1 = Some i)) rows)
            members).
Proof.
  revert out members; induction rows as [|row rows IH]; intros out members look; [done |].
  cbn [fold_left List.filter]; unfold push_at at 2; case_bool_decide as A.
  - rewrite A; cbn [fmap list_fmap fold_left]; apply IH.
    by rewrite list_lookup_alter_eq, look.
  - destruct (assign spans row.1) as [j|]; [| by apply IH].
    apply IH; rewrite list_lookup_alter_ne by congruence; exact look.
Qed.

Lemma push_at_length project spans rows out :
  length (fold_left (push_at project spans) rows out) = length out.
Proof.
  revert out; induction rows as [|row rows IH]; intros out; [done |]; cbn [fold_left]; rewrite IH.
  unfold push_at; destruct (assign _ _); [apply length_alter | done].
Qed.

Lemma fold_push_utterance ids members :
  fold_left push_utterance ids members = (members.1 ++ ids, members.2).
Proof.
  revert members; induction ids as [|id ids IH]; intros [us ss]; cbn; [by rewrite app_nil_r |].
  by rewrite IH; cbn; rewrite <- app_assoc.
Qed.

Lemma fold_push_screenshot ids members :
  fold_left push_screenshot ids members = (members.1, members.2 ++ ids).
Proof.
  revert members; induction ids as [|id ids IH]; intros [us ss]; cbn; [by rewrite app_nil_r |].
  by rewrite IH; cbn; rewrite <- app_assoc.
Qed.

(** The ids of the rows whose time is assigned to span [i]. *)
Definition owned {A} (time : A -> Z) (key : A -> Z) (spans : list (Z * Z)) (i : nat) (rows : list A) : list Z :=
  key <$> List.filter (fun row => bool_decide (assign spans (time row) = Some i)) rows.

Lemma owned_rows {A} (time key : A -> Z) spans i rows :
  snd <$> List.filter (fun row => bool_decide (assign spans row.1 = Some i))
            ((fun row => (time row, key row)) <$> rows)
  = owned time key spans i rows.
Proof.
  unfold owned; induction rows as [|row rows IH]; [done |].
  cbn [fmap list_fmap List.filter fst]; case_bool_decide; cbn [fmap list_fmap snd]; [f_equal |]; exact IH.
Qed.

(** Every row of evidence belongs to the innermost of the episodes whose
    span contains its time, the first of equally narrow ones, and to no other;
    a row no span contains belongs to none.  An episode's members keep the
    order of the rows. *)
Theorem membership_by_innermost_span utterances screenshots spans :
  Forall narrow spans ->
  length (derive_membership utterances screenshots spans) = length spans
  /\ (forall i, (i < length spans)%nat ->
       derive_membership utterances screenshots spans !! i
       = Some (owned (fun u => ms (u_started_at u)) u_id spans i utterances,
               owned (fun s => ms (s_captured_at s)) s_id spans i screenshots))
  /\ (forall t i, assign spans t = Some i <-> innermost spans t i).
Proof.
  intros fits; unfold derive_membership; cbv zeta; split_and!.
  - by rewrite !push_at_length, length_fmap.
  - intros i Hi; apply lookup_lt_is_Some in Hi as [span look].
    erewrite push_at_lookup; [| erewrite push_at_lookup; [reflexivity |]].
    2: rewrite list_lookup_fmap, look; reflexivity.
    by rewrite !owned_rows, fold_push_utterance, fold_push_screenshot.
  - intros t i; pose proof (assign_spec spans t fits) as spec; split; [intros E; by rewrite E in spec |].
    intros (span & look & inside & least); destruct (assign spans t) as [j|].
    + destruct spec as (other & look' & inside' & least'); f_equal.
      destruct (least _ _ look' inside') as [le lt], (least' _ _ look inside) as [le' lt'].
      destruct (Nat.lt_trichotomy i j) as [Hij | [-> | Hij]]; [| done |]; lia.
    + by destruct (spec span (list_elem_of_lookup_2 _ _ _ look)).
Qed.

(** ** Grounding *)

Section GroundingProofs.
Context `{Unicode}.

(** Collected values: distinct under lowercasing, each with property [P]. *)
Definition collected (P : str -> Prop) (acc : list str * bset str) : Prop :=
  bset_wf acc.2 /\ NoDup (to_lowercase <$> acc.1) /\ (to_lowercase <$> acc.1) ⊆ (acc.2 : list str)
  /\ Forall P acc.1.

Lemma collected_nil P : collected P ([], []).
Proof. split_and!; [constructor | constructor | intros x Hx; by apply elem_of_nil in Hx | constructor]. Qed.

Lemma push_new_collected P acc fact : P fact -> collected P acc -> collected P (push_new acc fact).
Proof.
  intros HP (wf & nd & incl & ok); unfold push_new; destruct (bset_mem _ _) eqn:mem; [done |].
  split_and!; cbn; [by apply bset_add_wf | | |].
  - rewrite fmap_app; apply NoDup_app; split_and!; [done | | apply NoDup_singleton].
    intros x Hx Hx'; apply list_elem_of_singleton in Hx' as ->; apply incl in Hx.
    apply bset_mem_spec in Hx; [congruence | done].
  - intros x; rewrite fmap_app, elem_of_app; intros [Hx | Hx]; apply elem_of_bset_add;
      [auto | apply list_elem_of_singleton in Hx; auto].
  - apply Forall_app; auto.
Qed.

Lemma fold_push_new_collected P facts acc :
  Forall P facts -> collected P acc -> collected P (fold_left push_new facts acc).
Proof.
  intros all; revert acc; induction all; intros acc ok; [done |]; cbn; auto using push_new_collected.
Qed.

Lemma collect_facts_collected P frames acc :
  Forall (Forall P) frames -> collected P acc.1 -> collected P acc.2 ->
  collected P (fold_left collect_facts frames acc).1 /\ collected P (fold_left collect_facts frames acc).2.
Proof.
  intros all; revert acc; induction all as [|facts frames ok all IH]; intros [all_ primary] ok1 ok2; [done |].
  cbn [fold_left]; apply IH; cbn; [by apply fold_push_new_collected |].
  destruct facts as [|fact [|? ?]]; [done | | done]; apply push_new_collected; [| done].
  by apply Forall_cons_1 in ok as [? _].
Qed.

(** A fact literally shown on a screen near the moment. *)
Definition shown_near (screenshots : list SummaryScreenshot) (moment : Z) (entity : str) : Prop :=
  exists screenshot facts, screenshot ∈ screenshots
    /\ within 45000 (ms (s_captured_at screenshot)) moment = true
    /\ nearby_facts moment screenshot = Some facts /\ entity ∈ facts.

Lemma nearby_facts_shown screenshots moment frames :
  mapM (nearby_facts moment) screenshots = Some frames ->
  Forall (Forall (shown_near screenshots moment)) frames.
Proof.
  intros E; apply mapM_Some in E; apply Forall_forall; intros facts Hf; apply Forall_forall.
  intros entity He; apply list_elem_of_lookup in Hf as [i Hi].
  destruct (Forall2_lookup_r _ _ _ _ _ E Hi) as (screenshot & look & near).
  exists screenshot, facts; split_and!; [by eapply list_elem_of_lookup_2 | | done | done].
  unfold nearby_facts in near; destruct (within _ _ _); [done |]; cbn in near.
  injection near as <-; by apply elem_of_nil in He.
Qed.

Lemma grounded_entities_collected screenshots moment found :
  grounded_entities moment screenshots = Some found ->
  NoDup (to_lowercase <$> found) /\ Forall (shown_near screenshots moment) found.
Proof.
  unfold grounded_entities; destruct (mapM _ _) as [frames|] eqn:M; [| discriminate].
  apply nearby_facts_shown in M; cbn [mbind option_bind].
  destruct (collect_facts_collected _ frames (([], []), ([], [])) M (collected_nil _) (collected_nil _))
    as [all primary].
  destruct (fold_left _ _ _) as [[a sa] [p sp]]; cbn in all, primary; intros E; injection E as <-.
  destruct all as (_ & ? & _ & ?), primary as (_ & ? & _ & ?); by case_ifs.
Qed.

(** What a requirement asks for. *)
Definition grounded (utterances : list SummaryUtterance) (screenshots : list SummaryScreenshot)
    (requirement : GroundingRequirement) : Prop :=
  (exists utterance, utterance ∈ utterances /\ at_ms requirement = ms (u_started_at utterance)
                     /\ points_at_screen utterances utterance = true)
  /\ length (entities requirement) = 2%nat /\ NoDup (to_lowercase <$> entities requirement)
  /\ Forall (shown_near screenshots (at_ms requirement)) (entities requirement).

Definition apart (r r' : GroundingRequirement) : Prop := within 30000 (at_ms r) (at_ms r') = false.

Lemma ForallOrdPairs_snoc {A} (R : A -> A -> Prop) l x :
  ForallOrdPairs R l -> Forall (fun y => R y x) l -> ForallOrdPairs R (l ++ [x]).
Proof.
  induction 1 as [|y l all pairs IH]; intros ok; [by repeat constructor |].
  apply Forall_cons_1 in ok as [? ?]; constructor; [| by apply IH].
  apply List.Forall_app; split; [exact all | by constructor].
Qed.

Lemma grounding_step_ok utterances screenshots rs utterance rs' :
  utterance ∈ utterances ->
  Forall (grounded utterances screenshots) rs /\ ForallOrdPairs apart rs ->
  grounding_step utterances screenshots rs utterance = Some rs' ->
  Forall (grounded utterances screenshots) rs' /\ ForallOrdPairs apart rs'.
Proof.
  intros Hu [ok pairs]; unfold grounding_step; cbv zeta.
  destruct (points_at_screen _ _) eqn:points; cbn [negb]; [| intros E; by injection E as <-].
  destruct (existsb _ _) eqn:near; [intros E; by injection E as <- |].
  destruct (grounded_entities _ _) as [found|] eqn:F; [| discriminate]; cbn [mbind option_bind].
  apply grounded_entities_collected in F as [nd shown]; intros E; injection E as <-.
  destruct (length found =? 2)%nat eqn:two; [| done]; apply Nat.eqb_eq in two; split.
  - apply Forall_app; split; [done |]; repeat constructor; cbn; try done; exists utterance; auto.
  - apply ForallOrdPairs_snoc; [done |]; apply Forall_forall; intros r Hr.
    exact (proj1 (existsb_false _ _) near r Hr).
Qed.

Lemma grounding_fold_ok utterances screenshots us rs rs' :
  us ⊆ utterances -> Forall (grounded utterances screenshots) rs /\ ForallOrdPairs apart rs ->
  fold_left (fun acc utterance => acc ≫= fun rs => grounding_step utterances screenshots rs utterance)
    us (Some rs) = Some rs' ->
  Forall (grounded utterances screenshots) rs' /\ ForallOrdPairs apart rs'.
Proof.
  revert rs; induction us as [|u us IH]; intros rs incl start; cbn [fold_left];
    [intros E; by injection E as <- |].
  cbn [mbind option_bind]; destruct (grounding_step utterances screenshots rs u) as [rs1|] eqn:S1.
  - intros E; eapply (IH rs1); [intros x Hx; apply incl; by constructor | | exact E].
    eapply grounding_step_ok; [| exact start | exact S1]; apply incl; by constructor.
  - intros E; exfalso; clear -E; induction us; [discriminate | auto].
Qed.

Lemma dedup_ascii_nil l : dedup_ascii None l = [] <-> l = [].
Proof. by destruct l. Qed.

Lemma filter_negb_nil {A} (p : A -> bool) l :
  List.filter (fun x => negb (p x)) l = [] <-> Forall (fun x => p x = true) l.
Proof.
  induction l as [|x l IH]; cbn; [split; [constructor | done] |].
  rewrite Forall_cons, <- IH; destruct (p x); cbn; intuition congruence.
Qed.

Lemma missing_grounded_entities_nil parsed requirements :
  missing_grounded_entities parsed requirements = [] <->
  Forall (fun requirement => missing_for (episodes_of parsed) requirement = []) requirements.
Proof.
  unfold missing_grounded_entities; rewrite dedup_ascii_nil; transitivity
    (requirements ≫= missing_for (episodes_of parsed) = []).
  - split; [apply sort_by_nil_inv | by intros ->].
  - induction requirements as [|r rs IH]; [split; [constructor | done] |].
    rewrite bind_cons, Forall_cons, <- IH; split; [apply app_nil | intros [-> ->]; done].
Qed.

(** Deictic speech is grounded only in what was on the screen.  Every
    requirement points from an utterance with pointing language to exactly two
    titles, different under lowercasing, each a fact of a screenshot within 45
    seconds of it; two requirements are more than 30 seconds apart.  A response
    satisfies the requirements exactly when, for each of them, the summary of
    the first episode around the moment names both titles. *)
Theorem grounding_requirements_sound utterances screenshots requirements :
  grounding_requirements utterances screenshots = Some requirements ->
  Forall (grounded utterances screenshots) requirements
  /\ ForallOrdPairs apart requirements
  /\ forall parsed,
       missing_grounded_entities parsed requirements = [] <->
       Forall (fun requirement =>
                 Forall (fun entity =>
                           contains (to_lowercase entity)
                             (to_lowercase (default []
                                (List.find (contains_moment (at_ms requirement)) (episodes_of parsed)
                                   ≫= str_field "summary"))) = true)
                   (entities requirement)) requirements.
Proof.
  intros E; apply and_assoc; split.
  - eapply (grounding_fold_ok utterances screenshots utterances []); [done | split; constructor | exact E].
  - intros parsed; rewrite missing_grounded_entities_nil; apply Forall_iff; intros r.
    unfold missing_for; cbv zeta; apply filter_negb_nil.
Qed.
End GroundingProofs.

(** ** The first object of a response *)

(** What may stand between the quotes of a JSON string. *)
Inductive string_body : str -> Prop :=
| sb_nil : string_body []
| sb_plain c s : c <> 34%N -> c <> 92%N -> string_body s -> string_body (c :: s)
| sb_escape c s : string_body s -> string_body (92%N :: c :: s).

(** What may stand between the braces of a JSON object: braces outside
    strings are balanced. *)
Inductive object_body : str -> Prop :=
| ob_nil : object_body []
| ob_plain c s : c <> 34%N -> c <> ch "{" -> c <> ch "}" -> object_body s -> object_body (c :: s)
| ob_string b s : string_body b -> object_body s -> object_body (34%N :: b ++ 34%N :: s)
| ob_object b s : object_body b -> object_body s -> object_body (ch "{" :: b ++ ch "}" :: s).

Ltac eqb_ne := repeat match goal with
  | H : ?c <> ?d |- context [(?c =? ?d)%N] => rewrite (proj2 (N.eqb_neq c d) H)
  end.

Lemma scan_string b rest depth :
  string_body b ->
  scan_object (b ++ 34%N :: rest) depth true false
  = (fun r => b ++ 34%N :: r) <$> scan_object rest depth false false.
Proof.
  induction 1 as [|c s q e body IH|c s body IH].
  - cbn; by destruct (scan_object rest depth false false).
  - change ((c :: s) ++ 34%N :: rest) with (c :: (s ++ 34%N :: rest)); cbn [scan_object]; eqb_ne.
    rewrite !andb_false_r; cbn [andb]; rewrite IH; by destruct (scan_object rest _ _ _).
  - cbn; rewrite IH; by destruct (scan_object rest _ _ _).
Qed.

Lemma scan_open rest depth :
  scan_object (ch "{" :: rest) depth false false
  = cons (ch "{") <$> scan_object rest (depth + 1) false false.
Proof. reflexivity. Qed.

Lemma scan_close rest depth :
  scan_object (ch "}" :: rest) depth false false
  = if depth - 1 =? 0 then Some [ch "}"] else cons (ch "}") <$> scan_object rest (depth - 1) false false.
Proof. reflexivity. Qed.

Lemma scan_body b rest depth :
  object_body b -> 0 < depth ->
  scan_object (b ++ rest) depth false false = app b <$> scan_object rest depth false false.
Proof.
  intros body; revert rest depth; induction body as [|c s q o e body IH|b s sb body IH|b s _ IHb body IH];
    intros rest depth pos.
  - cbn [app]; by destruct (scan_object rest depth false false).
  - change ((c :: s) ++ rest) with (c :: (s ++ rest)); cbn [scan_object]; eqb_ne.
    rewrite andb_false_r; cbn [andb]; rewrite IH by done; by destruct (scan_object rest _ _ _).
  - cbn; rewrite <- app_assoc; change ((34%N :: s) ++ rest) with (34%N :: (s ++ rest)).
    rewrite scan_string by done; rewrite IH by done.
    destruct (scan_object rest _ _ _); cbn; [by rewrite <- app_assoc | done].
  - change ((ch "{" :: b ++ ch "}" :: s) ++ rest) with (ch "{" :: ((b ++ ch "}" :: s) ++ rest)).
    rewrite <- app_assoc, scan_open, IHb by lia.
    change ((ch "}" :: s) ++ rest) with (ch "}" :: (s ++ rest)).
    rewrite scan_close, Z.add_simpl_r, (proj2 (Z.eqb_neq depth 0)), IH by lia.
    destruct (scan_object rest _ _ _); cbn -[ch]; [by rewrite <- app_assoc | done].
Qed.

Lemma drop_until_brace pre rest :
  ch "{" ∉ pre ->
  drop_while (fun c => negb (c =? ch "{")%N) (pre ++ ch "{" :: rest) = ch "{" :: rest.
Proof.
  induction pre as [|c pre IH]; [done |]; intros none; apply not_elem_of_cons in none as [ne none].
  cbn -[ch]; rewrite (proj2 (N.eqb_neq c (ch "{"))) by congruence; by apply IH.
Qed.

(** A response that is JSON is taken whole; otherwise, whatever text and
    fences surround it, the first object is cut out exactly, with braces in
    its strings and nested objects accounted for, and parsed; text without an
    object gives nothing. *)
Theorem extract_json_first_object (from_str : str -> option Value) :
  (forall text v, from_str text = Some v -> extract_json from_str text = Some v)
  /\ (forall text, ch "{" ∉ text -> extract_json from_str text = from_str text)
  /\ (forall pre body post,
        from_str (pre ++ (ch "{" :: body ++ [ch "}"]) ++ post) = None ->
        ch "{" ∉ pre -> object_body body ->
        extract_json from_str (pre ++ (ch "{" :: body ++ [ch "}"]) ++ post)
        = from_str (ch "{" :: body ++ [ch "}"])).
Proof.
  unfold extract_json; split_and!.
  - by intros text v ->.
  - intros text none; destruct (from_str text); [done |].
    replace (drop_while _ text) with (@nil char); [done |].
    symmetry; apply drop_while_nil_iff, Forall_forall; intros c Hc; apply negb_true_iff, N.eqb_neq.
    by intros ->.
  - intros pre body post -> none ok.
    change ((ch "{" :: body ++ [ch "}"]) ++ post) with (ch "{" :: ((body ++ [ch "}"]) ++ post)).
    rewrite drop_until_brace by done.
    rewrite <- app_assoc, scan_open, scan_body by (done || lia).
    change ([ch "}"] ++ post) with (ch "}" :: post); by rewrite scan_close.
Qed.

(** ** Witnesses *)

#[local] Existing Instance ascii_unicode.

Definition sample_speech : SummaryUtterance :=
  {| u_authored_label := None; u_id := 7; u_started_at := lit "2026-07-05T10:00:30.000Z";
     u_speaker_label := lit "Me"; u_language := Some (lit "en");
     u_text := lit "these are the two movies we could watch tonight" |}.

Definition sample_frame (id : Z) (at_ : string) (title : string) : SummaryScreenshot :=
  {| s_id := id; s_captured_at := lit at_; s_active_app := Some (lit "TV");
     s_window_title := None; s_ocr_text := Some (lit title); s_salient_ocr_text := None;
     s_url := None; s_is_duplicate := 0 |}.

Definition sample_frames : list SummaryScreenshot :=
  [sample_frame 1 "2026-07-05T10:00:20.000Z" "MARY POPPINS";
   sample_frame 2 "2026-07-05T10:00:40.000Z" "MARY POPPINS RETURNS"].

(** One episode around the evidence, as the provider returns it. *)
Definition sample_response (summary : string) : Value :=
  object [("episodes", VArray [object
    [("started_at", VString (lit "2026-07-05T10:00:00.000Z"));
     ("ended_at", VString (lit "2026-07-05T10:05:00.000Z"));
     ("title", VString (lit "Choosing a movie"));
     ("summary", VString (lit summary))]])]%string.

Definition good_response := sample_response "Mary Poppins or Mary Poppins Returns.".

Lemma capture_page_settlement_lossless_witness :
  let settled := fst (capture_formation_response_inputs (fun _ => Some good_response) (lit "m") (lit "r") []
                        [sample_speech] sample_frames 0 4000000000000) in
  length settled = 1%nat /\ (settled <> [] ->
    Permutation (settled ≫= member_utterance_ids) [7]
    /\ Permutation (settled ≫= member_screenshot_ids) [1; 2]
    /\ Forall (fun episode => id episode = None) settled).
Proof.
  intros settled; split; [vm_compute; reflexivity |].
  apply (capture_page_settlement_lossless (fun _ => Some good_response) (lit "m") (lit "r") []
           [sample_speech] sample_frames 0 4000000000000).
  - by apply (bool_decide_unpack _); vm_compute.
  - by apply (bool_decide_unpack _); vm_compute.
  - left; discriminate.
Defined.

Lemma membership_by_innermost_span_witness :
  let spans := [(0, 10000); (2000, 5000); (3000, 6000)] in
  Forall narrow spans
  /\ forall t i, assign spans t = Some i <-> innermost spans t i.
Proof.
  intros spans.
  assert (fits : Forall narrow spans).
  { repeat constructor; unfold narrow, I64.max_value; cbn; lia. }
  split; [exact fits |]; apply (membership_by_innermost_span [] [] spans fits).
Defined.

Lemma grounding_requirements_sound_witness :
  exists requirements,
    grounding_requirements [sample_speech] sample_frames = Some requirements
    /\ requirements <> []
    /\ Forall (grounded [sample_speech] sample_frames) requirements
    /\ missing_grounded_entities good_response requirements = [].
Proof.
  destruct (grounding_requirements [sample_speech] sample_frames) as [rs|] eqn:E;
    [| vm_compute in E; discriminate].
  exists rs; split_and!; [reflexivity | | |].
  - revert E; vm_compute; intros E; by injection E as <-.
  - exact (proj1 (grounding_requirements_sound _ _ _ E)).
  - apply (proj2 (proj2 (grounding_requirements_sound _ _ _ E))).
    vm_compute in E; injection E as <-; repeat constructor; vm_compute; reflexivity.
Defined.

(** A parser that reads the one object [{"}":{}}]. *)
Definition toy_object : str := ch "{" :: [34; 125; 34; 58; 123; 125]%N ++ [ch "}"].
Definition toy_parse (s : str) : option Value := if str_eqb s toy_object then Some (VObject []) else None.

Lemma extract_json_first_object_witness :
  extract_json toy_parse (lit "Here: " ++ toy_object ++ lit " {done}") = toy_parse toy_object.
Proof.
  apply (extract_json_first_object toy_parse).
  - vm_compute; reflexivity.
  - by apply (bool_decide_unpack _); vm_compute.
  - apply (ob_string [125%N]).
    + by repeat constructor.
    + apply ob_plain; [done | done | done |]; apply (ob_object [] []); constructor.
Defined.
