(* ===== verification/SummarizerFlow.v ===== *)
(** * The episode summariser: its two lanes

    [cp/summarizer.rs]: [summarize_capture_formation_locked] settles one page
    of a finished capture session, [summarize_user_window] the next window
    behind the account's forward cursor.  Both are programs of [Effects]; the
    repositories, the provider and the clock answer through [Env]. *)
From Stdlib Require Import ZArith Lia.
From S2P Require Import Prelude OrdMap Text F64 Errors Bytes Json IsoTime Presentation Episode Ocr.
From S2P Require Import Summarizer Vertex MemoryLanguage Effects.
Local Open Scope Z_scope.
Local Open Scope kioku_scope.

Record OpenEpisode := {
  oe_authored_labels : AuthoredLabelMap;
  oe_id : Z;
  oe_started_at : str;
  oe_ended_at : str;
  oe_episode_type : option str;
  oe_title : str;
  oe_summary : option str;
  oe_participants : list str;
  oe_action_items : list str;
  oe_recent_minutes : option str;
  oe_utt_count : Z;
  oe_scr_count : Z
}.

Record SummaryWindowClaim := {
  w_account_id : str;
  w_from : str;
  w_to : str;
  w_claim_token : str
}.

Record SummaryWindowSettlement := {
  ws_authored_labels : AuthoredLabelMap;
  ws_claim : SummaryWindowClaim;
  ws_episodes : list EpisodeInput;
  ws_cursor : option str
}.

Record CaptureFormationClaim := {
  cf_account_id : str;
  cf_capture_session_id : str;
  cf_source_revision : Z;
  cf_source_fingerprint : bytes;
  cf_from : str;
  cf_to : str;
  cf_page_index : Z;
  cf_page_source_commitment : bytes;
  cf_provider_attempt_identity : bytes;
  cf_provider_request : option CaptureFormationProviderRequest;
  cf_staged_provider_response : option str;
  cf_staged_vertex_event_id : option str;
  cf_page_has_more : bool;
  cf_covered_utterance_count : Z;
  cf_covered_screenshot_count : Z;
  cf_claim_token : str
}.

Inductive CaptureFormationRetryDisposition := PreserveProviderAttempt | AdvanceConfirmedNotBilled.

Record CaptureFormationSettlement := {
  cs_authored_labels : AuthoredLabelMap;
  cs_claim : CaptureFormationClaim;
  cs_episodes : list EpisodeInput
}.

(** ** The calls a lane makes, with their answers *)

Inductive Event :=
| ENow (answer : Z)
| ELanguage (answer : res (option str))
| EReserve (tokens : Z) (answer : res bool)
| EEmbed (ids : list Z)
| EClaimCapture (lease_seconds : Z) (answer : res (option CaptureFormationClaim))
| ECaptureEvidence (claim : CaptureFormationClaim) (utterance_limit screenshot_limit : nat)
    (answer : res (list SummaryUtterance * list SummaryScreenshot))
| EAuthorizeCapture (claim : CaptureFormationClaim) (utterance_ids screenshot_ids : list Z)
    (request : CaptureFormationProviderRequest) (answer : res CaptureFormationProviderRequest)
| EGenerateCapture (request : CaptureFormationProviderRequest) (attempt_identity : bytes)
    (answer : result VertexGenerationFailure TextGeneration)
| EStage (claim : CaptureFormationClaim) (response event_id : str) (answer : res unit)
| ESettleCapture (settlement : CaptureFormationSettlement) (answer : res (list Z))
| EReleaseCapture (claim : CaptureFormationClaim) (error_code : option str)
    (disposition : CaptureFormationRetryDisposition)
| EReadCursor (answer : res (option str))
| EEvidence (from to : str) (utterance_limit screenshot_limit : nat)
    (answer : res (list SummaryUtterance * list SummaryScreenshot))
| ERecoverable (from to resurrection_window_start : str) (total_attempts : Z) (answer : res bool)
| ESetCursor (cursor : str) (answer : res unit)
| ETailSettled (recent_after window_end : str) (answer : res bool)
| EOpenEpisodes (from to : str) (limit : Z) (utterances : list SummaryUtterance)
    (answer : res (list OpenEpisode * list SummaryUtterance))
| EClaimWindow (from to claimed_at : str) (lease_seconds : Z) (answer : res (option SummaryWindowClaim))
| EAuthorizeWindow (claim : SummaryWindowClaim) (utterance_ids screenshot_ids open_episode_ids : list Z)
    (answer : res unit)
| EGenerate (repair : bool) (system user_message : str) (answer : res TextGeneration)
| ESettleWindow (settlement : SummaryWindowSettlement) (answer : res (list Z))
| EReleaseWindow (claim : SummaryWindowClaim) (released_at : str) (error_code : option str).

(** The answers, as functions of everything that happened before. *)
Record Env := {
  now : list Event -> Z;
  newest_recording_locale : list Event -> res (option str);
  reserve : list Event -> res bool;
  claim_capture_formation : list Event -> res (option CaptureFormationClaim);
  capture_formation_evidence : list Event -> res (list SummaryUtterance * list SummaryScreenshot);
  authorize_capture_formation_egress : list Event -> res CaptureFormationProviderRequest;
  generate_with_persisted_attempt : list Event -> result VertexGenerationFailure TextGeneration;
  stage_capture_formation_response : list Event -> res unit;
  settle_capture_formation : list Event -> res (list Z);
  summarized_until : list Event -> res (option str);
  summary_evidence : list Event -> res (list SummaryUtterance * list SummaryScreenshot);
  span_has_recoverable_media : list Event -> res bool;
  set_summarized_until : list Event -> res unit;
  tail_is_settled : list Event -> res bool;
  open_episodes : list Event -> res (list OpenEpisode * list SummaryUtterance);
  claim_summary_window : list Event -> res (option SummaryWindowClaim);
  authorize_summary_window_egress : list Event -> res unit;
  generate : list Event -> res TextGeneration;
  settle_summary_window : list Event -> res (list Z)
}.

Definition SUMMARY_CLAIM_LEASE_SECONDS : Z := 15 * 60.
Definition RESURRECTION_WINDOW_SECONDS : f64 :=
  f64_mul (f64_mul (f64_of_Z 7) (f64_of_Z 24)) (f64_of_Z 3600).
Definition RESURRECTION_MEMORY_HOLD_TOTAL_ATTEMPTS : Z := 3 + 2.

(** ** Rendering the open episodes *)

Definition compact_excerpt (text : str) (max_chars : nat) : str :=
  take max_chars (join [space] (split_whitespace text)).

Definition compact_tail_excerpt (text : str) (max_chars : nat) : str :=
  let compact := join [space] (split_whitespace text) in
  drop (length compact - max_chars) compact.

Definition or_unavailable (s : str) : str := if is_empty s then lit "unavailable" else s.

Definition open_episode_lines (i : nat) (ep : OpenEpisode) : str :=
  let summary := compact_excerpt (default [] (oe_summary ep)) 600 in
  let recent := compact_tail_excerpt (default [] (oe_recent_minutes ep)) 300 in
  let participants :=
    if is_empty (oe_participants ep) then lit "unknown" else join (lit ", ") (oe_participants ep) in
  let actions :=
    if is_empty (oe_action_items ep) then lit "none"
    else compact_excerpt (join (lit "; ") (oe_action_items ep)) 600 in
  lit "[E" ++ dec (Z.of_nat i) ++ lit "] type=" ++ default (lit "other") (oe_episode_type ep)
  ++ lit " " ++ [34%N] ++ oe_title ep ++ [34%N] ++ lit " (" ++ oe_started_at ep ++ ulit " → "
  ++ oe_ended_at ep ++ lit ", " ++ dec (oe_utt_count ep) ++ lit " utt/" ++ dec (oe_scr_count ep)
  ++ lit " scr)" ++ [newline] ++ lit "  participants: " ++ participants
  ++ [newline] ++ lit "  objective/summary: " ++ or_unavailable summary
  ++ [newline] ++ lit "  current actions/requirements: " ++ actions
  ++ [newline] ++ lit "  recent timeline: " ++ or_unavailable recent.

Definition render_open_episodes (open : list OpenEpisode) : str :=
  join [newline] (imap open_episode_lines open).

(** [usize::from_str] after trimming and dropping leading [E]s; an
    unparseable reference is [usize::MAX]. *)
Definition parse_usize (s : str) : option Z :=
  let digits := match s with c :: rest => if (c =? ch "+")%N then rest else s | [] => s end in
  match parse_digits digits with
  | Some z => if z <? 2 ^ 64 then Some z else None
  | None => None
  end.

Definition parse_ref (r : str) : Z :=
  default (2 ^ 64 - 1) (parse_usize (drop_while (fun c => (c =? ch "E")%N) (trim r))).

(** [slice.get(index)] *)
Definition get_at {A} (l : list A) (i : Z) : option A :=
  if i <? Z.of_nat (length l) then l !! Z.to_nat i else None.

Section Lanes.
Context `{Unicode} `{DebugTables}.
(** [serde_json]: parsing, and the length of a serialised request. *)
Context (from_str : str -> option Value).
Context (to_vec_len : CaptureFormationProviderRequest -> option Z).
(** [EnclaveError]'s Display form, and the prompt texts. *)
Context (to_string : EnclaveError -> str).
Context (SYSTEM_PROMPT WORKFLOW_CONTINUITY_RULE SETTLED_EVIDENCE_RULE : str).
Context (config : VertexConfig) (env : Env).

Definition now_ms {R} : prog Event R Z := call ENow (now env).

Definition resolve_memory_language {R} : prog Event R (res str) :=
  let! locale := call ELanguage (newest_recording_locale env) in
  done_with (match locale with
             | Ok locale => Ok (memory_language_from_locale locale)
             | Err e => Err e
             end).

Definition reserve_vertex_output {R} (output_tokens : Z) : prog Event R (res unit) :=
  let! reserved := call (EReserve output_tokens) (reserve env) in
  done_with (match reserved with
             | Ok true => Ok tt
             | Ok false => Err (Config (lit "vertex_daily_budget"))
             | Err e => Err e
             end).

Definition embed_episodes {R} (ids : list Z) : prog Event R unit := call (fun _ => EEmbed ids) (fun _ => tt).

(** [match ... { Err(error) => { release; return Err(error) } }] *)
Definition or_release {R A} (release : prog Event (res R) unit) (m : prog Event (res R) (res A)) :
  prog Event (res R) A :=
  let! r := m in
  match r with
  | Ok a => done_with a
  | Err e => release ;! return_ (Err e)
  end.

(** ** The exact-session lane *)

Definition release_capture_claim_with_disposition {R} (claim : CaptureFormationClaim) (error_code : string)
    (disposition : CaptureFormationRetryDisposition) : prog Event R unit :=
  call (fun _ => EReleaseCapture claim (Some (lit error_code)) disposition) (fun _ => tt).

Definition release_capture_claim {R} (claim : CaptureFormationClaim) (error_code : string) :
  prog Event R unit :=
  release_capture_claim_with_disposition claim error_code PreserveProviderAttempt.

Definition settle_page {R} (claim : CaptureFormationClaim) (utterances : list SummaryUtterance)
    (episodes : list EpisodeInput) : prog Event (res R) (list Z) :=
  or_release (release_capture_claim claim "settlement")
    (call (ESettleCapture {| cs_authored_labels := authored_labels utterances; cs_claim := claim;
                             cs_episodes := episodes |}) (settle_capture_formation env)).

(** The answer of the provider for a page, or what stands in for it: the
    model that produced it, the egress class and the response, [None] for the
    conservative fallback. *)
Definition page_answer : Type := str * string * option str.

Definition failed_generation (claim : CaptureFormationClaim) (model : str)
    (error : VertexGenerationFailure) : prog Event (res (option Value)) page_answer :=
  match disposition error with
  | RetryableBeforeEgress =>
    release_capture_claim claim "provider_pre_egress" ;!
    return_ (Ok (Some (object
      [("error", VString (to_string (failure_error error)));
       ("capture_session_id", VString (cf_capture_session_id claim));
       ("provider_egress", VString (lit "none"))]%string)))
  | RetryableNotBilled =>
    release_capture_claim_with_disposition claim "provider_not_billed" AdvanceConfirmedNotBilled ;!
    return_ (Ok (Some (object
      [("error", VString (to_string (failure_error error)));
       ("capture_session_id", VString (cf_capture_session_id claim));
       ("provider_egress", VString (lit "confirmed_not_billed"))]%string)))
  | AmbiguousTerminal | ConfirmedInvalid | AttemptIdentityReused =>
    done_with (model, "possible_terminal"%string, None)
  end.

Definition generate_page (claim : CaptureFormationClaim) (utterances : list SummaryUtterance)
    (screenshots : list SummaryScreenshot) (current_request : CaptureFormationProviderRequest) :
  prog Event (res (option Value)) page_answer :=
  let! provider_request :=
    or_release (release_capture_claim claim "provider_source_guard")
      (call (EAuthorizeCapture claim (u_id <$> utterances) (s_id <$> screenshots) current_request)
         (authorize_capture_formation_egress env)) in
  or_release (release_capture_claim claim "quota_reservation")
    (reserve_vertex_output (max_output_tokens provider_request)) ;!
  let attempt_identity := cf_provider_attempt_identity claim in
  if negb (length attempt_identity =? 32)%nat then
    return_ (Err (Store (lit "capture formation provider attempt is invalid")))
  else
    let! generated :=
      call (EGenerateCapture provider_request attempt_identity) (generate_with_persisted_attempt env) in
    match generated with
    | Ok response =>
      try_ (call (EStage claim (generated_text response) (generation_event_id response))
              (stage_capture_formation_response env)) ;!
      done_with (rq_model provider_request, "completed"%string, Some (generated_text response))
    | Err error => failed_generation claim (rq_model provider_request) error
    end.

Definition capture_system_prompt (language : str) : str :=
  SYSTEM_PROMPT ++ [newline; newline] ++ WORKFLOW_CONTINUITY_RULE ++ [newline; newline]
  ++ SETTLED_EVIDENCE_RULE ++ [newline; newline] ++ output_language_rule language.

(** The request this build would send for the page. *)
Definition current_page_request (claim : CaptureFormationClaim) (utterances : list SummaryUtterance)
    (system_prompt grounding_text capture_text : str) : CaptureFormationProviderRequest :=
  let request :=
    capture_formation_provider_request config system_prompt
      (lit "Range: " ++ format_epoch_millis (ms (cf_from claim)) ++ ulit " → "
       ++ format_epoch_millis (ms (cf_to claim)) ++ [newline; newline]
       ++ grounding_text ++ lit "NEW CAPTURE LOG:" ++ [newline] ++ capture_text) in
  {| contract_version := contract_version request;
     rq_authored_labels := authored_labels utterances;
     vertex_project := vertex_project request; vertex_location := vertex_location request;
     api_version := api_version request; publisher := publisher request; rq_model := rq_model request;
     method := method request; rq_system_prompt := rq_system_prompt request;
     rq_user_message := rq_user_message request; rq_response_schema := rq_response_schema request;
     max_output_tokens := max_output_tokens request;
     response_mime_type := response_mime_type request; thinking_budget := thinking_budget request |}.

(** Where the response of the page comes from: a staged replay, nowhere when
    the request is too large, or the provider. *)
Definition page_response (claim : CaptureFormationClaim) (utterances : list SummaryUtterance)
    (screenshots : list SummaryScreenshot) (current_request : CaptureFormationProviderRequest) :
  prog Event (res (option Value)) page_answer :=
  let provider_model :=
    match cf_provider_request claim with
    | Some request => rq_model request
    | None => rq_model current_request
    end in
  let! too_large :=
    match cf_provider_request claim with
    | Some _ => done_with false
    | None =>
      match to_vec_len current_request with
      | Some len => done_with (CAPTURE_FORMATION_PROVIDER_REQUEST_MAX_BYTES <? len)
      | None => return_ (Err Errors.Json)
      end
    end in
  match cf_staged_provider_response claim with
  | Some response => done_with (provider_model, "staged_replay"%string, Some response)
  | None =>
    if too_large then done_with (provider_model, "none"%string, None)
    else generate_page claim utterances screenshots current_request
  end.

(** The page of a claim, once its evidence is read. *)
Definition summarize_page (claim : CaptureFormationClaim) (utterances : list SummaryUtterance)
    (screenshots : list SummaryScreenshot) : prog Event (res (option Value)) (res (option Value)) :=
  let! capture_text := or_panic (render_capture_text utterances screenshots) in
  let! grounding := or_panic (grounding_requirements utterances screenshots) in
  let! language := or_release (release_capture_claim claim "memory_language") resolve_memory_language in
  let! answer :=
    page_response claim utterances screenshots
      (current_page_request claim utterances (capture_system_prompt language)
         (render_grounding_requirements grounding) capture_text) in
  let '(provider_model, provider_egress, response) := answer in
  let '(episodes, dropped) :=
    match response with
    | None => (option_list (conservative_capture_page_input utterances screenshots), O)
    | Some response =>
      capture_formation_response_inputs from_str provider_model response grounding utterances screenshots
        (ms (cf_from claim)) (ms (cf_to claim))
    end in
  let! ids := settle_page claim utterances episodes in
  embed_episodes ids ;!
  done_with (Ok (Some (object
    [("capture_session_id", VString (cf_capture_session_id claim));
     ("formation_revision", of_Z (cf_source_revision claim));
     ("episodes", of_Z (Z.of_nat (length ids)));
     ("dropped", of_Z (Z.of_nat dropped));
     ("provider_egress", VString (lit provider_egress));
     ("formation_page", of_Z (cf_page_index claim));
     ("has_more", VBool (cf_page_has_more claim))]%string))).

Definition summarize_capture_formation_locked : prog Event (res (option Value)) (res (option Value)) :=
  let! claim := try_ (call (EClaimCapture SUMMARY_CLAIM_LEASE_SECONDS) (claim_capture_formation env)) in
  match claim with
  | None => done_with (Ok None)
  | Some claim =>
    let! evidence :=
      or_release (release_capture_claim claim "evidence")
        (call (ECaptureEvidence claim UTT_CAP SCR_CAP) (capture_formation_evidence env)) in
    let (utterances, screenshots) := evidence in
    if is_empty utterances && is_empty screenshots then
      settle_page claim utterances [] ;!
      done_with (Ok (Some (object
        [("capture_session_id", VString (cf_capture_session_id claim));
         ("formation_revision", of_Z (cf_source_revision claim));
         ("episodes", of_Z 0);
         ("provider_egress", VString (lit "none"))]%string)))
    else summarize_page claim utterances screenshots
  end.

(** ** The forward lane *)

Definition span_holds_recoverable_media {R} (from to : str) : prog Event R (res bool) :=
  let! now := now_ms in
  let resurrection_window_start :=
    format_epoch_millis
      (I64.sub now (f64_to_i64 (f64_mul RESURRECTION_WINDOW_SECONDS (f64_of_Z 1000)))) in
  call (ERecoverable from to resurrection_window_start RESURRECTION_MEMORY_HOLD_TOTAL_ATTEMPTS)
    (span_has_recoverable_media env).

Definition session_tail_is_settled {R} (window_end_ms : Z) : prog Event R bool :=
  let! now := now_ms in
  let! settled :=
    call (ETailSettled (format_epoch_millis (I64.sub now (30 * 60 * 1000)))
            (format_epoch_millis window_end_ms)) (tail_is_settled env) in
  done_with (match settled with Ok settled => settled | Err _ => false end).

Definition fetch_open_episodes {R} (list_start list_end : str) (open_cutoff_ms : Z)
    (utterances : list SummaryUtterance) :
  prog Event (res R) (list OpenEpisode * list SummaryUtterance) :=
  let! answer := try_ (call (EOpenEpisodes list_start list_end 100 utterances) (open_episodes env)) in
  let (episodes, utterances) := answer in
  let episodes := List.filter (fun episode => open_cutoff_ms <=? ms (oe_ended_at episode)) episodes in
  done_with (drop (length episodes - 30) episodes, utterances).

Definition release_summary_claim {R} (claim : SummaryWindowClaim) (error_code : option string) :
  prog Event R unit :=
  let! now := now_ms in
  call (fun _ => EReleaseWindow claim (format_epoch_millis now) (lit <$> error_code)) (fun _ => tt).

Definition skipped (reason : string) : Value :=
  object [("skipped", VBool true); ("reason", VString (lit reason))]%string.

(** An empty window: hold it for recoverable media, else step over it. *)
Definition cross_empty_window (from to : str) : prog Event (res Value) (res Value) :=
  let! recoverable := try_ (span_holds_recoverable_media from to) in
  if (recoverable : bool) then done_with (Ok (skipped "recoverable_media_pending"))
  else
    try_ (call (ESetCursor to) (set_summarized_until env)) ;!
    done_with (Ok (skipped "no_new_records")).

(** The latest evidence of the window. *)
Definition effective_cutoff (new_from : Z) (utterances : list SummaryUtterance)
    (screenshots : list SummaryScreenshot) : Z :=
  default new_from
    (max_Z (option_list ((fun u => ms (u_started_at u)) <$> last utterances)
            ++ option_list ((fun s => ms (s_captured_at s)) <$> last screenshots))).

(** An episode as resolved against the open ones. *)
Record Ep := { existing_id : option Z; ep : ExactEpisode }.

Definition widen (episode : ExactEpisode) (open : OpenEpisode) : ExactEpisode :=
  {| started := Z.min (started episode) (ms (oe_started_at open));
     ended := Z.max (ended episode) (ms (oe_ended_at open));
     type_ := type_ episode; ee_title := ee_title episode; ee_summary := ee_summary episode;
     ee_languages := ee_languages episode; ee_action_items := ee_action_items episode;
     ee_substance := ee_substance episode; ee_visual_evidence := ee_visual_evidence episode;
     minutes := minutes episode |}.

Definition resolve_episode (open : list OpenEpisode) (value : Value) : option Ep :=
  match read_episode value with
  | None => None
  | Some episode =>
    match str_field "episode_ref" value ≫= (fun r => get_at open (parse_ref r)) with
    | Some found => Some {| existing_id := Some (oe_id found); ep := widen episode found |}
    | None => Some {| existing_id := None; ep := episode |}
    end
  end.

(** The significance floor applies to new episodes only. *)
Definition upsert_step (model : str) (utterances : list SummaryUtterance)
    (screenshots : list SummaryScreenshot) (settled : bool) (acc : list EpisodeInput * nat)
    (entry : Ep * (list Z * list Z)) : list EpisodeInput * nat :=
  let (e, members) := entry in
  match existing_id e with
  | None =>
    if significant utterances screenshots settled (ep e) members
    then (acc.1 ++ [episode_input model None (ep e) members], acc.2)
    else (acc.1, S acc.2)
  | Some id => (acc.1 ++ [episode_input model (Some id) (ep e) members], acc.2)
  end.

Definition window_upserts (model : str) (open : list OpenEpisode) (parsed : Value)
    (utterances : list SummaryUtterance) (screenshots : list SummaryScreenshot) (settled : bool) :
  list EpisodeInput * nat :=
  let eps := omap (resolve_episode open) (episodes_of parsed) in
  let membership :=
    derive_membership utterances screenshots ((fun e => (started (ep e), ended (ep e))) <$> eps) in
  fold_left (upsert_step model utterances screenshots settled) (zip eps membership) ([], O).

(** What the head of the lane has read about its window. *)
Record Window := {
  new_from : Z;
  new_to : Z;
  tail_bounded : bool;
  win_cutoff : Z;
  win_capped : bool;
  win_utterances : list SummaryUtterance;
  win_screenshots : list SummaryScreenshot;
  win_settled : bool;
  win_open : list OpenEpisode;
  win_grounding : list GroundingRequirement;
  user_message : str
}.

Definition from_iso (w : Window) : str := format_epoch_millis (new_from w).
Definition to_iso (w : Window) : str := format_epoch_millis (new_to w).
Definition evidence_capped (utterances : list SummaryUtterance) (screenshots : list SummaryScreenshot) : bool :=
  (UTT_CAP <=? length utterances)%nat || (SCR_CAP <=? length screenshots)%nat.

(** One admitted provider call: a budget reservation, then the source guard. *)
Definition authorize_call (w : Window) (claim : SummaryWindowClaim) (quota guard : string) :
  prog Event (res Value) unit :=
  or_release (release_summary_claim claim (Some quota)) (reserve_vertex_output MAX_TEXT_OUTPUT_TOKENS) ;!
  or_release (release_summary_claim claim (Some guard))
    (call (EAuthorizeWindow claim (u_id <$> win_utterances w) (s_id <$> win_screenshots w)
             (oe_id <$> win_open w)) (authorize_summary_window_egress env)).

Definition repair_message (w : Window) (response : str) (missing : list str) : str :=
  user_message w ++ [newline; newline] ++ lit "PRIOR JSON RESPONSE:" ++ [newline] ++ response
  ++ [newline; newline]
  ++ lit "CORRECTION REQUIRED: the summary for the episode containing the grounded moment omitted these literal on-screen titles: "
  ++ join (lit ", ") (debug_str <$> missing)
  ++ lit ". Return the complete corrected JSON, preserving all other evidence boundaries.".

(** At most one repair of a response that misses grounded titles. *)
Definition repair (w : Window) (claim : SummaryWindowClaim) (system_prompt response : str) (parsed : Value) :
  prog Event (res Value) Value :=
  let missing := missing_grounded_entities parsed (win_grounding w) in
  if is_empty missing then done_with parsed
  else
    authorize_call w claim "repair_quota" "repair_source_guard" ;!
    let! repaired :=
      call (EGenerate true system_prompt (repair_message w response missing)) (generate env) in
    done_with
      (match repaired with
       | Ok generated =>
         match extract_json from_str (generated_text generated) with
         | Some value =>
           if is_empty (missing_grounded_entities value (win_grounding w)) then value else parsed
         | None => parsed
         end
       | Err _ => parsed
       end).

(** The cursor after the window, or the hold. *)
Definition settle_window (w : Window) (claim : SummaryWindowClaim) (parsed : Value) :
  prog Event (res Value) (res Value) :=
  let '(to_upsert, dropped) :=
    window_upserts (cfg_model config) (win_open w) parsed (win_utterances w) (win_screenshots w)
      (win_settled w) in
  let settle (cursor : str) :=
    let! ids :=
      or_release (release_summary_claim claim (Some "settlement"%string))
        (call (ESettleWindow
           {| ws_authored_labels :=
                from_labels (labels (authored_labels (win_utterances w))
                             ++ (win_open w ≫= fun episode => labels (oe_authored_labels episode)));
              ws_claim := claim; ws_episodes := to_upsert; ws_cursor := Some cursor |})
           (settle_summary_window env)) in
    embed_episodes ids ;!
    done_with (Ok (object [("episodes", of_Z (Z.of_nat (length ids)));
                           ("dropped", of_Z (Z.of_nat dropped)); ("to", VString cursor)]%string)) in
  match zero_result_disposition (is_empty to_upsert) (tail_bounded w) (win_settled w)
          (win_capped w) with
  | Hold =>
    release_summary_claim claim None ;!
    done_with (Ok (object [("waiting", VBool true); ("dropped", of_Z (Z.of_nat dropped))]%string))
  | AdvancePastWindow => settle (to_iso w)
  | Settle => settle (format_epoch_millis (win_cutoff w))
  end.

Definition window_error (w : Window) (message : str) : Value :=
  object [("error", VString message); ("window_to", VString (to_iso w))]%string.

Definition window_system_prompt (settled : bool) (language : str) : str :=
  if settled then capture_system_prompt language
  else SYSTEM_PROMPT ++ [newline; newline] ++ WORKFLOW_CONTINUITY_RULE ++ [newline; newline]
       ++ output_language_rule language.

(** The window under its claim. *)
Definition summarize_claimed (w : Window) (claim : SummaryWindowClaim) :
  prog Event (res Value) (res Value) :=
  let! language :=
    or_release (release_summary_claim claim (Some "memory_language"%string)) resolve_memory_language in
  let system_prompt := window_system_prompt (win_settled w) language in
  authorize_call w claim "quota_reservation" "provider_source_guard" ;!
  let! generated := call (EGenerate false system_prompt (user_message w)) (generate env) in
  match generated with
  | Err e =>
    if contains (lit "quota") (to_string e) then
      release_summary_claim claim (Some "quota"%string) ;! done_with (Ok (skipped "quota"))
    else
      release_summary_claim claim (Some "model_call"%string) ;!
      done_with (Ok (window_error w (to_string e)))
  | Ok generated =>
    match extract_json from_str (generated_text generated) with
    | None =>
      release_summary_claim claim (Some "unparseable"%string) ;!
      done_with (Ok (window_error w (lit "unparseable LLM response")))
    | Some parsed =>
      let! parsed := repair w claim system_prompt (generated_text generated) parsed in
      settle_window w claim parsed
    end
  end.

Definition mode_bounds (mode : SummarizeMode) (now : Z) : Z * Z :=
  match mode with
  | Scheduled => (I64.sub now (TAIL_MINUTES * 60 * 1000), MIN_WINDOW_MINUTES * 60 * 1000)
  | SessionSettled => (now, SETTLED_MIN_WINDOW_MS)
  end.

Definition window_start (summarized_until : option str) (now : Z) : Z :=
  let max_lookback := I64.sub now (LOOKBACK_DAYS * 24 * 60 * 60 * 1000) in
  match summarized_until with
  | Some c => Z.max (ms c) max_lookback
  | None => max_lookback
  end.

Definition window_message (range_from : str) (cutoff : Z) (open_text grounding_text capture_text : str) : str :=
  lit "Range: " ++ range_from ++ ulit " → " ++ format_epoch_millis cutoff ++ [newline; newline]
  ++ (if is_empty open_text then []
      else lit "OPEN EPISODES (extend by ref when the new log continues one):" ++ [newline] ++ open_text
           ++ [newline; newline])
  ++ grounding_text ++ lit "NEW CAPTURE LOG:" ++ [newline] ++ capture_text.

(** [utterances.first().unwrap_or(screenshots[0])] *)
Definition range_start (utterances : list SummaryUtterance) (screenshots : list SummaryScreenshot) : option str :=
  match utterances with
  | u :: _ => Some (u_started_at u)
  | [] => s_captured_at <$> List.hd_error screenshots
  end.

(** The window once its evidence is known to be new. *)
Definition open_window (new_from_ new_to_ : Z) (bounded settled : bool) (cutoff : Z)
    (utterances : list SummaryUtterance) (screenshots : list SummaryScreenshot) :
  prog Event (res Value) Window :=
  let capped := evidence_capped utterances screenshots in
  let open_cutoff := I64.sub new_from_ OPEN_WINDOW_MS in
  let! opened :=
    fetch_open_episodes
      (format_epoch_millis (I64.sub (I64.sub new_from_ OPEN_WINDOW_MS) (4 * 60 * 60 * 1000)))
      (format_epoch_millis new_to_) open_cutoff utterances in
  let (open, utterances) := opened in
  let! capture_text := or_panic (render_capture_text utterances screenshots) in
  let! grounding := or_panic (grounding_requirements utterances screenshots) in
  let! range_from := or_panic (range_start utterances screenshots) in
  done_with
    {| new_from := new_from_; new_to := new_to_; tail_bounded := bounded; win_cutoff := cutoff;
       win_capped := capped; win_utterances := utterances; win_screenshots := screenshots;
       win_settled := settled; win_open := open; win_grounding := grounding;
       user_message := window_message range_from cutoff (render_open_episodes open)
                         (render_grounding_requirements grounding) capture_text |}.

(** The window after its bounds: reading, claiming, summarising. *)
Definition summarize_bounded (mode : SummarizeMode) (new_from_ new_to_ : Z) (bounded : bool) :
  prog Event (res Value) (res Value) :=
  let from := format_epoch_millis new_from_ in
  let to := format_epoch_millis new_to_ in
  let! evidence := try_ (call (EEvidence from to UTT_CAP SCR_CAP) (summary_evidence env)) in
  let (utterances, screenshots) := evidence in
  let cutoff := effective_cutoff new_from_ utterances screenshots in
  if is_empty utterances && is_empty screenshots then cross_empty_window from to
  else if cutoff <=? new_from_ then cross_empty_window from to
  else
    let! settled :=
      match mode with
      | SessionSettled => done_with true
      | Scheduled => session_tail_is_settled new_to_
      end in
    let! recoverable :=
      if (settled : bool) then try_ (span_holds_recoverable_media from to) else done_with false in
    if (recoverable : bool) then done_with (Ok (skipped "recoverable_media_pending"))
    else
      let! w := open_window new_from_ new_to_ bounded settled cutoff utterances screenshots in
      let! claimed_at := now_ms in
      let! claim :=
        try_ (call (EClaimWindow from to (format_epoch_millis claimed_at) SUMMARY_CLAIM_LEASE_SECONDS)
                (claim_summary_window env)) in
      match claim with
      | None => done_with (Ok (skipped "summary_window_claimed"))
      | Some claim => summarize_claimed w claim
      end.

(** The forward lane, when the exact-session lane had no page. *)
Definition summarize_forward (mode : SummarizeMode) : prog Event (res Value) (res Value) :=
  let! cursor := try_ (call EReadCursor (summarized_until env)) in
  let! now := now_ms in
  let '(tail_cutoff, min_window_ms) := mode_bounds mode now in
  let new_from := window_start cursor now in
  match window_bounds new_from tail_cutoff min_window_ms with
  | None => done_with (Ok (object [("skipped", VBool true)]%string))
  | Some (new_to, bounded) => summarize_bounded mode new_from new_to bounded
  end.

Definition summarize_user_window (mode : SummarizeMode) : prog Event (res Value) (res Value) :=
  let! result := try_ (invoke summarize_capture_formation_locked) in
  match result with
  | Some result => done_with (Ok result)
  | None => summarize_forward mode
  end.
End Lanes.

(** ** The protocol of the forward lane

    What the lane knows and holds after its calls so far. *)
Record WState := {
  known_cursor : option (option str);       (* the account's cursor, once read *)
  bounds : option (Z * Z * bool);           (* the window: start, end, cut by the live tail *)
  rows : option (list SummaryUtterance * list SummaryScreenshot);
  clear : bool;                             (* no recoverable media in the window *)
  complete : bool;                          (* every recording of the window has ended *)
  held : option SummaryWindowClaim;
  permit : nat;                             (* 0: none, 1: budget reserved, 2: sources authorised *)
  calls : nat;                              (* provider calls so far *)
  moved : option str                        (* where the cursor was put *)
}.

Definition start_state (mode : SummarizeMode) : WState :=
  {| known_cursor := None; bounds := None; rows := None; clear := false;
     complete := match mode with SessionSettled => true | Scheduled => false end;
     held := None; permit := 0; calls := 0; moved := None |}.

Definition learn_cursor (s : WState) c : WState :=
  {| known_cursor := Some c; bounds := bounds s; rows := rows s; clear := clear s; complete := complete s;
     held := held s; permit := permit s; calls := calls s; moved := moved s |}.
Definition learn_bounds (s : WState) b : WState :=
  {| known_cursor := known_cursor s; bounds := b; rows := rows s; clear := clear s; complete := complete s;
     held := held s; permit := permit s; calls := calls s; moved := moved s |}.
Definition learn_rows (s : WState) r : WState :=
  {| known_cursor := known_cursor s; bounds := bounds s; rows := Some r; clear := clear s;
     complete := complete s; held := held s; permit := permit s; calls := calls s; moved := moved s |}.
Definition learn_clear (s : WState) b : WState :=
  {| known_cursor := known_cursor s; bounds := bounds s; rows := rows s; clear := b; complete := complete s;
     held := held s; permit := permit s; calls := calls s; moved := moved s |}.
Definition learn_complete (s : WState) b : WState :=
  {| known_cursor := known_cursor s; bounds := bounds s; rows := rows s; clear := clear s; complete := b;
     held := held s; permit := permit s; calls := calls s; moved := moved s |}.
Definition hold (s : WState) c : WState :=
  {| known_cursor := known_cursor s; bounds := bounds s; rows := rows s; clear := clear s;
     complete := complete s; held := c; permit := 0; calls := calls s; moved := moved s |}.
Definition allow (s : WState) n : WState :=
  {| known_cursor := known_cursor s; bounds := bounds s; rows := rows s; clear := clear s;
     complete := complete s; held := held s; permit := n; calls := calls s; moved := moved s |}.
Definition count_call (s : WState) : WState :=
  {| known_cursor := known_cursor s; bounds := bounds s; rows := rows s; clear := clear s;
     complete := complete s; held := held s; permit := 0; calls := S (calls s); moved := moved s |}.
Definition move (s : WState) c : WState :=
  {| known_cursor := known_cursor s; bounds := bounds s; rows := rows s; clear := clear s;
     complete := complete s; held := None; permit := 0; calls := calls s; moved := c |}.

Definition window_of (mode : SummarizeMode) (cursor : option str) (now : Z) : option (Z * Z * bool) :=
  let (tail_cutoff, min_window_ms) := mode_bounds mode now in
  let lo := window_start cursor now in
  (fun win => (lo, win.1, win.2)) <$> window_bounds lo tail_cutoff min_window_ms.

(** The cursor a settlement may carry, for the evidence that was read. *)
Definition settlement_cursor_ok (s : WState) (episodes : list EpisodeInput) (cursor : option str) : Prop :=
  exists lo hi bounded utterances screenshots,
    bounds s = Some (lo, hi, bounded) /\ rows s = Some (utterances, screenshots)
    /\ lo < effective_cutoff lo utterances screenshots
    /\ (cursor = Some (format_epoch_millis (effective_cutoff lo utterances screenshots))
         \/ cursor = Some (format_epoch_millis hi) /\ episodes = [] /\ complete s = true
             /\ clear s = true /\ evidence_capped utterances screenshots = false)
    /\ (episodes = [] -> complete s = true /\ clear s = true \/ bounded = false).

Inductive wstep (mode : SummarizeMode) (s : WState) : Event -> WState -> Prop :=
| w_cursor c : known_cursor s = None -> wstep mode s (EReadCursor (Ok c)) (learn_cursor s c)
| w_cursor_err e : wstep mode s (EReadCursor (Err e)) s
| w_start_clock t c : known_cursor s = Some c -> bounds s = None ->
    wstep mode s (ENow t) (learn_bounds s (window_of mode c t))
| w_clock t : bounds s <> None -> wstep mode s (ENow t) s
| w_evidence lo hi b ul sl r : bounds s = Some (lo, hi, b) -> rows s = None ->
    wstep mode s (EEvidence (format_epoch_millis lo) (format_epoch_millis hi) ul sl (Ok r)) (learn_rows s r)
| w_evidence_err f t ul sl e : wstep mode s (EEvidence f t ul sl (Err e)) s
| w_recoverable lo hi b w n r : bounds s = Some (lo, hi, b) -> held s = None ->
    wstep mode s (ERecoverable (format_epoch_millis lo) (format_epoch_millis hi) w n r)
      (learn_clear s (match r with Ok b => negb b | Err _ => false end))
| w_skip lo hi b us ss r :
    bounds s = Some (lo, hi, b) -> rows s = Some (us, ss) -> effective_cutoff lo us ss <= lo ->
    clear s = true -> held s = None -> moved s = None ->
    wstep mode s (ESetCursor (format_epoch_millis hi) r)
      (match r with Ok _ => move s (Some (format_epoch_millis hi)) | Err _ => s end)
| w_tail lo hi b t r : bounds s = Some (lo, hi, b) ->
    wstep mode s (ETailSettled t (format_epoch_millis hi) r)
      (learn_complete s (match r with Ok b => b | Err _ => false end))
| w_open f t n us r : held s = None -> wstep mode s (EOpenEpisodes f t n us r) s
| w_claim lo hi b t n r : bounds s = Some (lo, hi, b) -> rows s <> None -> held s = None -> moved s = None ->
    wstep mode s (EClaimWindow (format_epoch_millis lo) (format_epoch_millis hi) t n r)
      (match r with Ok (Some c) => hold s (Some c) | _ => s end)
| w_language r : wstep mode s (ELanguage r) s
| w_reserve c n r : held s = Some c ->
    wstep mode s (EReserve n r) (match r with Ok true => allow s 1 | _ => allow s 0 end)
| w_authorize c us ss os r : held s = Some c -> permit s = 1%nat ->
    wstep mode s (EAuthorizeWindow c us ss os r) (match r with Ok _ => allow s 2 | Err _ => allow s 0 end)
| w_generate c repair sys msg r : held s = Some c -> permit s = 2%nat -> (calls s < 2)%nat ->
    (repair = true <-> calls s = 1%nat) ->
    wstep mode s (EGenerate repair sys msg r) (count_call s)
| w_settle settlement r : held s = Some (ws_claim settlement) -> (1 <= calls s)%nat -> moved s = None ->
    settlement_cursor_ok s (ws_episodes settlement) (ws_cursor settlement) ->
    wstep mode s (ESettleWindow settlement r) (match r with Ok _ => move s (ws_cursor settlement) | Err _ => s end)
| w_release c t code : held s = Some c -> wstep mode s (EReleaseWindow c t code) (hold s None)
| w_embed ids : moved s <> None -> wstep mode s (EEmbed ids) s.

(** ** The protocol of the exact-session lane *)

Record CState := {
  c_held : option CaptureFormationClaim;
  c_rows : option (list SummaryUtterance * list SummaryScreenshot);
  c_admitted : option CaptureFormationProviderRequest;   (* the authorised request *)
  c_reserved : bool;                                     (* its output budget is reserved *)
  c_asked : option (result VertexGenerationFailure TextGeneration);   (* the provider's answer *)
  c_staged : bool;                                       (* that answer is stored *)
  c_unstaged : option EnclaveError                       (* why it could not be *)
}.

Definition capture_start : CState :=
  {| c_held := None; c_rows := None; c_admitted := None; c_reserved := false; c_asked := None;
     c_staged := false; c_unstaged := None |}.

Definition c_hold (s : CState) claim : CState :=
  {| c_held := claim; c_rows := c_rows s; c_admitted := c_admitted s; c_reserved := c_reserved s;
     c_asked := c_asked s; c_staged := c_staged s; c_unstaged := c_unstaged s |}.
Definition c_read (s : CState) rows : CState :=
  {| c_held := c_held s; c_rows := Some rows; c_admitted := c_admitted s; c_reserved := c_reserved s;
     c_asked := c_asked s; c_staged := c_staged s; c_unstaged := c_unstaged s |}.
Definition c_admit (s : CState) request : CState :=
  {| c_held := c_held s; c_rows := c_rows s; c_admitted := Some request; c_reserved := false;
     c_asked := c_asked s; c_staged := c_staged s; c_unstaged := c_unstaged s |}.
Definition c_reserve (s : CState) : CState :=
  {| c_held := c_held s; c_rows := c_rows s; c_admitted := c_admitted s; c_reserved := true;
     c_asked := c_asked s; c_staged := c_staged s; c_unstaged := c_unstaged s |}.
Definition c_ask (s : CState) answer : CState :=
  {| c_held := c_held s; c_rows := c_rows s; c_admitted := c_admitted s; c_reserved := c_reserved s;
     c_asked := Some answer; c_staged := c_staged s; c_unstaged := c_unstaged s |}.
Definition c_stage (s : CState) : CState :=
  {| c_held := c_held s; c_rows := c_rows s; c_admitted := c_admitted s; c_reserved := c_reserved s;
     c_asked := c_asked s; c_staged := true; c_unstaged := c_unstaged s |}.
Definition c_refuse (s : CState) error : CState :=
  {| c_held := c_held s; c_rows := c_rows s; c_admitted := c_admitted s; c_reserved := c_reserved s;
     c_asked := c_asked s; c_staged := c_staged s; c_unstaged := Some error |}.

Definition asked_disposition (s : CState) : option VertexGenerationFailureDisposition :=
  match c_asked s with Some (Err failure) => Some (disposition failure) | _ => None end.

(** A response that a crash would replay: stored earlier, or stored now. *)
Definition durable_response (s : CState) (claim : CaptureFormationClaim) (response : str) : Prop :=
  cf_staged_provider_response claim = Some response
  \/ exists generated, c_asked s = Some (Ok generated) /\ c_staged s = true
                       /\ response = generated_text generated.

(** The attempt can never be sent again, or was never sent for its size. *)
Definition attempt_over (s : CState) (claim : CaptureFormationClaim) : Prop :=
  cf_staged_provider_response claim = None
  /\ (c_asked s = None \/ asked_disposition s = Some AmbiguousTerminal
      \/ asked_disposition s = Some ConfirmedInvalid \/ asked_disposition s = Some AttemptIdentityReused).

(** Every row of the page is in exactly one of the episodes. *)
Definition covers (utterances : list SummaryUtterance) (screenshots : list SummaryScreenshot)
    (episodes : list EpisodeInput) : Prop :=
  NoDup (u_id <$> utterances) -> NoDup (s_id <$> screenshots) ->
  Permutation (episodes ≫= member_utterance_ids) (u_id <$> utterances)
  /\ Permutation (episodes ≫= member_screenshot_ids) (s_id <$> screenshots).

(** What a settlement of the page may write. *)
Definition page_settled (from_str : str -> option Value) (s : CState) (claim : CaptureFormationClaim)
    (episodes : list EpisodeInput) : Prop :=
  exists utterances screenshots, c_rows s = Some (utterances, screenshots)
    /\ (covers utterances screenshots episodes
        /\ ((utterances = [] /\ screenshots = []) \/ attempt_over s claim
            \/ exists response, durable_response s claim response)
        \/ episodes = [] /\ exists response, durable_response s claim response
            /\ parse_capture_formation_provider_response from_str response = Some ExplicitNoMemory).

Inductive cstep (from_str : str -> option Value) (s : CState) : Event -> CState -> Prop :=
| c_claim n r : c_held s = None ->
    cstep from_str s (EClaimCapture n r) (match r with Ok claim => c_hold s claim | Err _ => s end)
| c_evidence claim un sn r : c_held s = Some claim -> c_rows s = None ->
    cstep from_str s (ECaptureEvidence claim un sn r) (match r with Ok rows => c_read s rows | Err _ => s end)
| c_language r : cstep from_str s (ELanguage r) s
| c_authorize claim us ss request r us' ss' :
    c_held s = Some claim -> c_asked s = None -> cf_staged_provider_response claim = None ->
    c_rows s = Some (us', ss') -> us = u_id <$> us' -> ss = s_id <$> ss' ->
    cstep from_str s (EAuthorizeCapture claim us ss request r)
      (match r with Ok admitted => c_admit s admitted | Err _ => s end)
| c_budget n request r : c_held s <> None -> c_admitted s = Some request -> n = max_output_tokens request ->
    cstep from_str s (EReserve n r) (match r with Ok true => c_reserve s | _ => s end)
| c_generate claim request r :
    c_held s = Some claim -> c_admitted s = Some request -> c_reserved s = true -> c_asked s = None ->
    length (cf_provider_attempt_identity claim) = 32%nat ->
    cstep from_str s (EGenerateCapture request (cf_provider_attempt_identity claim) r) (c_ask s r)
| c_store claim generated r :
    c_held s = Some claim -> c_asked s = Some (Ok generated) -> c_staged s = false ->
    cstep from_str s (EStage claim (generated_text generated) (generation_event_id generated) r)
      (match r with Ok _ => c_stage s | Err e => c_refuse s e end)
| c_settle settlement r :
    c_held s = Some (cs_claim settlement) ->
    page_settled from_str s (cs_claim settlement) (cs_episodes settlement) ->
    cstep from_str s (ESettleCapture settlement r) (match r with Ok _ => c_hold s None | Err _ => s end)
| c_release claim code d :
    c_held s = Some claim ->
    (d = AdvanceConfirmedNotBilled <-> asked_disposition s = Some RetryableNotBilled) ->
    cstep from_str s (EReleaseCapture claim code d) (c_hold s None)
| c_embed ids : c_held s = None -> cstep from_str s (EEmbed ids) s.

(** The claim is settled or given back, except for three failures that leave
    it to its lease: before the provider is asked, a request made for the page
    that does not serialise, or a malformed attempt identity; after it, an
    answer the store would not take. *)
Definition capture_returned (r : res (option Value)) (s : CState) : Prop :=
  c_held s = None
  \/ exists claim e, c_held s = Some claim /\ r = Err e
      /\ (e = Errors.Json /\ cf_provider_request claim = None /\ c_admitted s = None /\ c_asked s = None
          \/ e = Store (lit "capture formation provider attempt is invalid")
             /\ length (cf_provider_attempt_identity claim) <> 32%nat /\ c_reserved s = true /\ c_asked s = None
          \/ (exists generated, c_asked s = Some (Ok generated)) /\ c_staged s = false /\ c_unstaged s = Some e).

(** A panic comes of rendering the rows that were read, before anything is
    asked for; the claim is left to its lease. *)
Definition capture_panicked (s : CState) : Prop :=
  (exists claim, c_held s = Some claim) /\ c_rows s <> None /\ c_admitted s = None /\ c_asked s = None.

Lemma follows_or_release {R St A} (step : St -> Event -> St -> Prop) s (release : prog Event (res R) unit)
    (m : prog Event (res R) (res A)) (mid : res A -> St -> Prop) (post : A -> St -> Prop) returned panicked :
  follows step s m mid returned panicked ->
  (forall a s', mid (Ok a) s' -> post a s') ->
  (forall e s', mid (Err e) s' ->
     follows step s' release (fun _ s'' => returned (Err e) s'') returned panicked) ->
  follows step s (or_release release m) post returned panicked.
Proof.
  intros ok good bad; eapply follows_bind; [exact ok |]; intros [a|e] s' Hm.
  - by apply follows_done, good.
  - eapply follows_bind; [by apply bad |]; intros u s'' Hr; by apply follows_return.
Qed.

(** One call whose step is known: the state after it, by the answer. *)
Ltac step_with tac :=
  apply follows_call; intros; eexists; split; [tac | first [reflexivity | idtac]].

Section ForwardProofs.
Context `{Unicode} `{DebugTables} (from_str : str -> option Value) (to_string : EnclaveError -> str).
Context (SYSTEM_PROMPT WORKFLOW_CONTINUITY_RULE SETTLED_EVIDENCE_RULE : str).
Context (config : VertexConfig) (env : Env) (mode : SummarizeMode).

(** Every way out of the lane gives the claim up. *)
Definition free (s : WState) : Prop := held s = None.
Abbreviation lane s m post := (follows (wstep mode) s m post (fun _ s' => free s') free).

Lemma release_summary_claim_ok s c code :
  held s = Some c -> bounds s <> None ->
  lane s (release_summary_claim (R := res Value) env c code) (fun _ s' => s' = hold s None).
Proof.
  intros h b; eapply follows_bind with (mid := fun _ s' => s' = s); [by step_with constructor |].
  intros t s' ->; by step_with ltac:(by constructor).
Qed.

Lemma reserve_ok s c tokens :
  held s = Some c ->
  lane s (reserve_vertex_output (R := res Value) env tokens)
    (fun r s' => s' = match r with Ok _ => allow s 1 | Err _ => allow s 0 end).
Proof.
  intros h; eapply follows_bind with (mid := fun r s' => s' = match r with Ok true => allow s 1 | _ => allow s 0 end).
  - step_with ltac:(by eapply w_reserve).
  - intros [[]|e] s' ->; by apply follows_done.
Qed.

Lemma release_then s c code :
  held s = Some c -> bounds s <> None ->
  lane s (release_summary_claim (R := res Value) env c code) (fun _ s' => free s').
Proof.
  intros h b; eapply follows_weaken; [by apply release_summary_claim_ok |]; by intros _ s' ->.
Qed.

Lemma authorize_call_ok w s c quota guard :
  held s = Some c -> bounds s <> None ->
  lane s (authorize_call env w c quota guard) (fun _ s' => s' = allow s 2).
Proof.
  intros h b; eapply follows_bind with (mid := fun _ s' => s' = allow s 1).
  - eapply follows_or_release; [by eapply reserve_ok | by intros [] s' -> | intros e s' ->].
    by apply release_then.
  - intros _ s' ->; eapply follows_or_release
      with (mid := fun r s' => s' = match r with Ok _ => allow s 2 | Err _ => allow s 0 end).
    + step_with ltac:(by eapply w_authorize).
    + by intros [] s' ->.
    + intros e s' ->; by apply release_then.
Qed.

(** The states a claimed window may be in: what the settlement needs. *)
Definition claimed_window (w : Window) (c : SummaryWindowClaim) (n : nat) (s : WState) : Prop :=
  bounds s = Some (new_from w, new_to w, tail_bounded w)
  /\ (exists us ss, rows s = Some (us, ss) /\ win_cutoff w = effective_cutoff (new_from w) us ss
                    /\ win_capped w = evidence_capped us ss)
  /\ new_from w < win_cutoff w /\ complete s = win_settled w /\ (win_settled w = true -> clear s = true)
  /\ held s = Some c /\ moved s = None /\ (n <= calls s)%nat.

Lemma claimed_bounds w c n s : claimed_window w c n s -> bounds s <> None.
Proof. by intros (-> & _). Qed.
Lemma claimed_held w c n s : claimed_window w c n s -> held s = Some c.
Proof. by intros (_ & _ & _ & _ & _ & ? & _). Qed.
Hint Resolve claimed_bounds claimed_held : core.

Lemma settlement_ok w c s (episodes : list EpisodeInput) cursor :
  claimed_window w c 1 s ->
  match zero_result_disposition (is_empty episodes) (tail_bounded w) (win_settled w) (win_capped w) with
  | Hold => False
  | AdvancePastWindow => cursor = to_iso w
  | Settle => cursor = format_epoch_millis (win_cutoff w)
  end -> settlement_cursor_ok s episodes (Some cursor).
Proof.
  intros (b & (us & ss & r & cut & cap) & new & comp & clr & _) E.
  exists (new_from w), (new_to w), (tail_bounded w), us, ss; rewrite <- cut, <- cap, comp.
  revert E; unfold zero_result_disposition, to_iso.
  destruct (is_empty episodes) eqn:none; cbn [negb].
  - apply is_empty_true in none; destruct (win_settled w) eqn:settled, (win_capped w) eqn:capped,
      (tail_bounded w) eqn:bounded; intros E; try done; subst cursor; split_and!; auto;
      first [by left | by right; split_and!; auto | intros _; auto].
  - apply is_empty_false in none; intros ->; split_and!; auto; by intros ?.
Qed.

Lemma settle_step_ok w c s labels episodes cursor dropped :
  claimed_window w c 1 s -> settlement_cursor_ok s episodes (Some cursor) ->
  lane s
    (let! ids :=
       or_release (R := Value) (release_summary_claim env c (Some "settlement"%string))
         (call (ESettleWindow {| ws_authored_labels := labels; ws_claim := c; ws_episodes := episodes;
                                 ws_cursor := Some cursor |}) (settle_summary_window env)) in
     embed_episodes ids ;!
     done_with (Ok (object [("episodes", of_Z (Z.of_nat (length ids)));
                            ("dropped", of_Z (Z.of_nat dropped)); ("to", VString cursor)]%string) : res Value))
    (fun _ s' => free s').
Proof.
  intros cw ok; eapply follows_bind with (mid := fun _ s' => s' = move s (Some cursor)).
  - eapply follows_or_release
      with (mid := fun r s' => s' = match r with Ok _ => move s (Some cursor) | Err _ => s end).
    + destruct cw as (_ & _ & _ & _ & _ & h & m & n); step_with ltac:(by apply w_settle).
    + by intros ids s' ->.
    + intros e s' ->; apply release_then; eauto.
  - intros ids s' ->; eapply follows_bind with (mid := fun _ s' => free s').
    + step_with ltac:(by apply w_embed).
    + intros u s' Hs; by apply follows_done.
Qed.

Lemma settle_window_ok w c s parsed :
  claimed_window w c 1 s ->
  lane s (settle_window config env w c parsed) (fun _ s' => free s').
Proof.
  intros cw; unfold settle_window.
  destruct (window_upserts _ _ _ _ _ _) as [episodes dropped].
  pose proof (fun cursor => settlement_ok w c s episodes cursor cw) as ok.
  destruct (zero_result_disposition _ _ _ _).
  - eapply follows_bind; [apply release_then; eauto |]; intros u s' Hs; by apply follows_done.
  - eapply settle_step_ok; eauto.
  - eapply settle_step_ok; eauto.
Qed.

Lemma claimed_allow w c n s k : claimed_window w c n s -> claimed_window w c n (allow s k).
Proof. done. Qed.

Lemma generate_ok w c s (repair : bool) sys msg n :
  claimed_window w c n s -> permit s = 2%nat -> calls s = (if repair then 1 else 0)%nat ->
  lane s (call (R := res Value) (EGenerate repair sys msg) (generate env))
    (fun _ s' => claimed_window w c (S (calls s)) s' /\ calls s' = S (calls s)).
Proof.
  intros cw p calls; apply follows_call; intros r; exists (count_call s); split.
  - eapply w_generate; eauto; rewrite calls; destruct repair; (lia || done).
  - destruct cw as (? & ? & ? & ? & ? & ? & ? & ?); split; [split_and! |]; auto.
Qed.

Lemma claimed_fewer w c n k s : claimed_window w c n s -> (k <= n)%nat -> claimed_window w c k s.
Proof. intros (? & ? & ? & ? & ? & ? & ? & ?) le; split_and!; auto; lia. Qed.

Lemma repair_ok w c s sys response parsed :
  claimed_window w c 1 s -> calls s = 1%nat ->
  lane s (repair from_str env w c sys response parsed) (fun _ s' => claimed_window w c 1 s').
Proof.
  intros cw n; unfold repair; destruct (is_empty _); [by apply follows_done |].
  eapply follows_bind; [apply authorize_call_ok; eauto |]; intros u s' ->.
  eapply follows_bind; [by apply generate_ok with (n := 1%nat); [apply claimed_allow | |] |].
  cbn; intros r s' [cw' _]; apply follows_done; eapply claimed_fewer; [exact cw' | lia].
Qed.

Lemma summarize_claimed_ok w c s :
  claimed_window w c 0 s -> calls s = 0%nat ->
  lane s (summarize_claimed from_str to_string SYSTEM_PROMPT WORKFLOW_CONTINUITY_RULE
            SETTLED_EVIDENCE_RULE config env w c) (fun _ s' => free s').
Proof.
  intros cw n; unfold summarize_claimed.
  eapply follows_bind with (mid := fun _ s' => s' = s).
  { eapply follows_or_release with (mid := fun _ s' => s' = s); [| done |].
    - eapply follows_bind with (mid := fun _ s' => s' = s); [by step_with constructor |].
      intros r s' ->; by apply follows_done.
    - intros e s' ->; apply release_then; eauto. }
  intros language s' ->; eapply follows_bind; [apply authorize_call_ok; eauto |]; intros u s' ->.
  eapply follows_bind; [by apply generate_ok with (n := 0%nat); [apply claimed_allow | |] |].
  cbn [calls allow]; rewrite n; intros [generated|e] s' [cw' n'].
  - destruct (extract_json _ _) as [parsed|].
    + eapply follows_bind; [by apply repair_ok |]; intros p s'' cw''; by apply settle_window_ok.
    + eapply follows_bind; [apply release_then; eauto |]; intros x s'' Hs; by apply follows_done.
  - destruct (contains _ _); (eapply follows_bind; [apply release_then; eauto |]);
      intros x s'' Hs; by apply follows_done.
Qed.

(** The window is known and nothing is held. *)
Definition reading (lo hi : Z) (bounded : bool) (s : WState) : Prop :=
  bounds s = Some (lo, hi, bounded) /\ held s = None /\ moved s = None /\ calls s = 0%nat.

Lemma clock_ok lo hi b s :
  reading lo hi b s -> lane s (now_ms (R := res Value) env) (fun _ s' => s' = s).
Proof. intros (bs & _); step_with ltac:(apply w_clock; congruence). Qed.

Lemma span_holds_ok lo hi b s :
  reading lo hi b s ->
  lane s (span_holds_recoverable_media (R := res Value) env (format_epoch_millis lo) (format_epoch_millis hi))
    (fun r s' => s' = learn_clear s (match r with Ok b => negb b | Err _ => false end)).
Proof.
  intros rd; eapply follows_bind; [by eapply clock_ok |]; intros t s' ->.
  destruct rd as (? & ? & _); step_with ltac:(by eapply w_recoverable).
Qed.

Lemma cross_empty_window_ok lo hi b s us ss :
  reading lo hi b s -> rows s = Some (us, ss) -> effective_cutoff lo us ss <= lo ->
  lane s (cross_empty_window env (format_epoch_millis lo) (format_epoch_millis hi)) (fun _ s' => free s').
Proof.
  intros rd r cut; pose proof rd as (bs & h & m & _).
  eapply follows_bind with (mid := fun recoverable s' => s' = learn_clear s (negb recoverable)).
  - apply follows_try; eapply follows_weaken; [by eapply span_holds_ok |].
    intros [c|e] s' ->; done.
  - intros [] s' ->; cbn [negb]; [by apply follows_done |].
    eapply follows_bind with (mid := fun _ s' => free s'); [| by intros u s' Hs; apply follows_done].
    apply follows_try, follows_call; intros a; eexists; split; [by eapply w_skip |].
    by destruct a.
Qed.

Lemma tail_settled_ok lo hi b s :
  reading lo hi b s ->
  lane s (session_tail_is_settled (R := res Value) env hi) (fun settled s' => s' = learn_complete s settled).
Proof.
  intros rd; eapply follows_bind; [by eapply clock_ok |]; intros t s' ->.
  destruct rd as (? & _).
  eapply follows_bind with (mid := fun r s' => s' = learn_complete s (match r with Ok b => b | Err _ => false end)).
  - step_with ltac:(by eapply w_tail).
  - intros r s' ->; by apply follows_done.
Qed.

Lemma mode_settled_ok m lo hi b s :
  reading lo hi b s -> complete s = (match m with SessionSettled => true | _ => false end) ->
  lane s (match m with
          | SessionSettled => done_with true
          | Scheduled => session_tail_is_settled (R := res Value) env hi
          end) (fun settled s' => s' = learn_complete s settled).
Proof.
  destruct m; intros rd comp; [by eapply tail_settled_ok |]; apply follows_done.
  destruct s; cbn in *; by rewrite comp.
Qed.

Lemma open_window_ok lo hi b settled cutoff us ss s :
  held s = None ->
  lane s (open_window env lo hi b settled cutoff us ss)
    (fun w s' => s' = s /\ new_from w = lo /\ new_to w = hi /\ tail_bounded w = b
                 /\ win_settled w = settled /\ win_cutoff w = cutoff
                 /\ win_capped w = evidence_capped us ss).
Proof.
  intros h; unfold open_window.
  eapply follows_bind with (mid := fun _ s' => s' = s).
  - eapply follows_bind with (mid := fun _ s' => s' = s).
    + apply follows_try, follows_call; intros a; exists s; split; [by apply w_open | by destruct a].
    + intros [episodes utterances] s' ->; by apply follows_done.
  - intros [open utterances] s' ->.
    do 3 (eapply follows_bind with (mid := fun _ s' => s' = s);
          [by apply follows_or_panic | intros ? s' ->]).
    by apply follows_done.
Qed.

(** The evidence of the window is settled as far as the lane requires it. *)
Definition settled_reading (lo hi : Z) (b : bool) us ss (settled : bool) (s : WState) : Prop :=
  reading lo hi b s /\ rows s = Some (us, ss) /\ complete s = settled /\ (settled = true -> clear s = true).

Lemma claim_ok lo hi b us ss settled s :
  settled_reading lo hi b us ss settled s -> lo < effective_cutoff lo us ss ->
  lane s
    (let! w := open_window env lo hi b settled (effective_cutoff lo us ss) us ss in
     let! claimed_at := now_ms env in
     let! claim :=
       try_ (call (EClaimWindow (format_epoch_millis lo) (format_epoch_millis hi)
                     (format_epoch_millis claimed_at) SUMMARY_CLAIM_LEASE_SECONDS)
               (claim_summary_window env)) in
     match claim with
     | None => done_with (Ok (skipped "summary_window_claimed"))
     | Some claim =>
       summarize_claimed from_str to_string SYSTEM_PROMPT WORKFLOW_CONTINUITY_RULE
         SETTLED_EVIDENCE_RULE config env w claim
     end) (fun _ s' => free s').
Proof.
  intros (rd & r & comp & clr) new; pose proof rd as (bs & h & m & n).
  eapply follows_bind; [by apply open_window_ok |].
  intros w s' (-> & from & to & bounded & set & cut & cap).
  eapply follows_bind; [by eapply clock_ok |]; intros t s' ->.
  eapply follows_bind with (mid := fun claim s' => s' = match claim with Some c => hold s (Some c) | None => s end).
  - apply follows_try, follows_call; intros a; eexists; split; [by eapply w_claim; eauto; congruence |].
    by destruct a as [[c|]|e].
  - intros [claim|] s' ->; [| by apply follows_done].
    apply summarize_claimed_ok; [| done]; split_and!; cbn; try congruence; try lia; [|].
    + exists us, ss; split_and!; congruence.
    + intros st; apply clr; congruence.
Qed.

Lemma summarize_bounded_ok lo hi b s :
  reading lo hi b s -> rows s = None -> complete s = match mode with SessionSettled => true | _ => false end ->
  lane s (summarize_bounded from_str to_string SYSTEM_PROMPT WORKFLOW_CONTINUITY_RULE
            SETTLED_EVIDENCE_RULE config env mode lo hi b) (fun _ s' => free s').
Proof.
  intros rd none comp; unfold summarize_bounded; pose proof rd as (bs & h & m & n).
  eapply follows_bind with (mid := fun r s' => s' = learn_rows s r).
  { apply follows_try, follows_call; intros [r|e]; eexists; (split; [| reflexivity || exact h]);
      [by eapply w_evidence | constructor]. }
  intros [us ss] s' ->; set (s1 := learn_rows s (us, ss)).
  assert (rd1 : reading lo hi b s1) by exact rd.
  destruct (is_empty us && is_empty ss) eqn:none_read.
  { apply andb_true_iff in none_read as [-> %is_empty_true -> %is_empty_true].
    eapply cross_empty_window_ok; [done | done |]; cbn; lia. }
  destruct (effective_cutoff lo us ss <=? lo) eqn:old; bool_prop.
  { by eapply cross_empty_window_ok. }
  eapply follows_bind with (mid := fun settled s' => s' = learn_complete s1 settled).
  { by apply (mode_settled_ok mode lo hi b). }
  intros settled s' ->.
  eapply follows_bind with (mid := fun recoverable s' =>
    free s' /\ (recoverable = false -> settled_reading lo hi b us ss settled s')).
  { destruct settled.
    - apply follows_try; eapply follows_weaken; [by eapply span_holds_ok |].
      intros [c|e] s' ->; [| exact h]; split; [exact h | by intros ->].
    - by apply follows_done. }
  intros [] s' [fr ok]; [by apply follows_done |].
  by apply claim_ok; [apply ok | lia].
Qed.

Lemma summarize_forward_ok :
  lane (start_state mode)
    (summarize_forward from_str to_string SYSTEM_PROMPT WORKFLOW_CONTINUITY_RULE
       SETTLED_EVIDENCE_RULE config env mode) (fun _ s' => free s').
Proof.
  unfold summarize_forward; set (s := start_state mode).
  eapply follows_bind with (mid := fun c s' => s' = learn_cursor s c).
  { apply follows_try, follows_call; intros [c|e]; eexists; (split; [by constructor | done]). }
  intros c s' ->; eapply follows_bind
    with (mid := fun t s' => s' = learn_bounds (learn_cursor s c) (window_of mode c t)).
  { step_with ltac:(by eapply w_start_clock). }
  intros t s' ->; unfold window_of; destruct (mode_bounds mode t) as [tail_cutoff min_window_ms].
  destruct (window_bounds _ _ _) as [[hi b]|]; [| by apply follows_done].
  by apply summarize_bounded_ok.
Qed.
End ForwardProofs.

(** ** The exact-session lane follows its protocol *)

Section CaptureProofs.
Context `{Unicode} `{DebugTables} (from_str : str -> option Value).
Context (to_vec_len : CaptureFormationProviderRequest -> option Z) (to_string : EnclaveError -> str).
Context (SYSTEM_PROMPT WORKFLOW_CONTINUITY_RULE SETTLED_EVIDENCE_RULE : str).
Context (config : VertexConfig) (env : Env).

Abbreviation lane s m post := (follows (cstep from_str) s m post capture_returned capture_panicked).

Lemma release_capture_ok s claim code d :
  c_held s = Some claim -> (d = AdvanceConfirmedNotBilled <-> asked_disposition s = Some RetryableNotBilled) ->
  lane s (release_capture_claim_with_disposition claim code d) (fun _ s' => c_held s' = None).
Proof. intros h d'; step_with ltac:(by apply c_release). Qed.

(** The release on an error path. *)
Lemma release_capture_then s claim code e :
  c_held s = Some claim -> asked_disposition s <> Some RetryableNotBilled ->
  lane s (release_capture_claim claim code) (fun _ s' => capture_returned (Err e) s').
Proof.
  intros h d; eapply follows_weaken; [apply release_capture_ok; [exact h | by split] |].
  by intros u s' Hs; left.
Qed.

Lemma settle_page_ok s claim utterances episodes :
  c_held s = Some claim -> asked_disposition s <> Some RetryableNotBilled ->
  page_settled from_str s claim episodes ->
  lane s (settle_page env claim utterances episodes) (fun _ s' => c_held s' = None).
Proof.
  intros h d ok; eapply follows_or_release
    with (mid := fun r s' => s' = match r with Ok _ => c_hold s None | Err _ => s end).
  - step_with ltac:(by apply c_settle).
  - by intros ids s' ->.
  - intros e s' ->; by apply release_capture_then.
Qed.

(** The page is claimed and read, and nothing was asked yet. *)
Definition page_read (claim : CaptureFormationClaim) us ss (s : CState) : Prop :=
  c_held s = Some claim /\ c_rows s = Some (us, ss) /\ c_admitted s = None /\ c_asked s = None /\ c_staged s = false.

(** The page is answered, one way or another. *)
Definition page_answered (claim : CaptureFormationClaim) us ss (answer : page_answer) (s : CState) : Prop :=
  c_held s = Some claim /\ c_rows s = Some (us, ss)
  /\ asked_disposition s <> Some RetryableNotBilled
  /\ match answer.2 with
     | Some response => durable_response s claim response
     | None => attempt_over s claim
     end.

Lemma asked_none_not_billed s : c_asked s = None -> asked_disposition s <> Some RetryableNotBilled.
Proof. unfold asked_disposition; by intros ->. Qed.
Hint Resolve asked_none_not_billed : core.

Lemma failed_generation_ok s claim us ss model failure :
  c_held s = Some claim -> c_rows s = Some (us, ss) -> c_asked s = Some (Err failure) ->
  cf_staged_provider_response claim = None ->
  lane s (failed_generation to_string claim model failure) (page_answered claim us ss).
Proof.
  intros h r a st; assert (d : asked_disposition s = Some (disposition failure))
    by (unfold asked_disposition; by rewrite a).
  assert (over : disposition failure <> RetryableNotBilled -> disposition failure <> RetryableBeforeEgress ->
                 page_answered claim us ss (model, "possible_terminal"%string, None) s).
  { intros n1 n2; split_and!; [done | done | congruence |]; split; [done |]; rewrite d.
    destruct (disposition failure); auto; congruence. }
  unfold failed_generation; destruct (disposition failure) eqn:E;
    try (apply follows_done, over; congruence).
  - eapply follows_bind; [apply release_capture_ok; [exact h |]; rewrite d; split; discriminate |].
    intros u s' Hs; apply follows_return; by left.
  - eapply follows_bind; [apply release_capture_ok; [exact h |]; rewrite d; by split |].
    intros u s' Hs; apply follows_return; by left.
Qed.

Lemma generate_page_ok s claim us ss request :
  page_read claim us ss s -> cf_staged_provider_response claim = None ->
  lane s (generate_page to_string env claim us ss request) (page_answered claim us ss).
Proof.
  intros (h & r & ad & a & st) none; unfold generate_page.
  eapply follows_bind with (mid := fun admitted s' => s' = c_admit s admitted).
  { eapply follows_or_release
      with (mid := fun r s' => s' = match r with Ok admitted => c_admit s admitted | Err _ => s end).
    - step_with ltac:(by eapply c_authorize).
    - by intros admitted s' ->.
    - intros e s' ->; apply release_capture_then; auto. }
  intros admitted s' ->; eapply follows_bind with (mid := fun _ s' => s' = c_reserve (c_admit s admitted)).
  { eapply follows_or_release
      with (mid := fun r s' => s' = match r with Ok _ => c_reserve (c_admit s admitted)
                                               | Err _ => c_admit s admitted end).
    - eapply follows_bind with (mid := fun r s' =>
        s' = match r with Ok true => c_reserve (c_admit s admitted) | _ => c_admit s admitted end).
      + step_with ltac:(eapply c_budget; cbn; [congruence | reflexivity | reflexivity]).
      + intros [[]|e] s' ->; by apply follows_done.
    - by intros u s' ->.
    - intros e s' ->; apply release_capture_then; [exact h | by apply asked_none_not_billed]. }
  intros u s' ->; destruct (length _ =? 32)%nat eqn:len; cbn [negb].
  2: { apply Nat.eqb_neq in len; apply follows_return; right; exists claim; eexists; split_and!; [exact h | reflexivity | auto 6]. }
  apply Nat.eqb_eq in len; eapply follows_bind
    with (mid := fun answer s' => s' = c_ask (c_reserve (c_admit s admitted)) answer).
  { step_with ltac:(by eapply c_generate). }
  intros [generated|failure] s' ->; [| by apply failed_generation_ok].
  eapply follows_bind
    with (mid := fun _ s' => s' = c_stage (c_ask (c_reserve (c_admit s admitted)) (Ok generated))).
  { apply follows_try, follows_call; intros [[]|e]; eexists; (split; [by apply c_store |]); [done |].
    right; exists claim, e; split_and!; [exact h | reflexivity | right; right]; split_and!; [eauto | exact st | reflexivity]. }
  intros v s' ->; apply follows_done; split_and!; [done | done | done |].
  right; exists generated; auto.
Qed.

Lemma page_response_ok s claim us ss request :
  page_read claim us ss s ->
  lane s (page_response to_vec_len to_string env claim us ss request) (page_answered claim us ss).
Proof.
  intros rd; pose proof rd as (h & r & ad & a & st); unfold page_response.
  eapply follows_bind with (mid := fun _ s' => s' = s).
  { destruct (cf_provider_request claim) eqn:fresh; [by apply follows_done |].
    destruct (to_vec_len request); [by apply follows_done |].
    apply follows_return; right; exists claim; eexists; split_and!; [exact h | reflexivity | auto]. }
  intros too_large s' ->; destruct (cf_staged_provider_response claim) as [response|] eqn:staged.
  - apply follows_done; split_and!; auto; by left.
  - destruct too_large; [| by apply generate_page_ok].
    apply follows_done; split_and!; auto; split; auto.
Qed.

Lemma conservative_covers us ss :
  us <> [] \/ ss <> [] -> covers us ss (option_list (conservative_capture_page_input us ss)).
Proof.
  intros some ndu nds; destruct (conservative_page_exact us ss some) as (keep & -> & _ & eu & es).
  cbn; by rewrite eu, es, !app_nil_r.
Qed.

Lemma response_covers model response grounding us ss from to :
  us <> [] \/ ss <> [] ->
  let episodes := fst (capture_formation_response_inputs from_str model response grounding us ss from to) in
  covers us ss episodes
  \/ episodes = [] /\ parse_capture_formation_provider_response from_str response = Some ExplicitNoMemory.
Proof.
  intros some episodes.
  assert (cases : parse_capture_formation_provider_response from_str response = Some ExplicitNoMemory
                  \/ parse_capture_formation_provider_response from_str response <> Some ExplicitNoMemory)
    by (destruct (parse_capture_formation_provider_response _ _) as [[|]|]; auto; by right).
  destruct cases as [none | other].
  - right; split; [| done]; unfold episodes, capture_formation_response_inputs; by rewrite none.
  - left; intros ndu nds.
    destruct (response_inputs_lossless from_str model response grounding us ss from to ndu nds some)
      as [empty full]; fold episodes in empty, full; split; apply full; tauto.
Qed.

Lemma answer_settles claim us ss provider_model egress response grounding s from to :
  us <> [] \/ ss <> [] -> page_answered claim us ss (provider_model, egress, response) s ->
  page_settled from_str s claim
    (match response with
     | None => (option_list (conservative_capture_page_input us ss), O)
     | Some response =>
       capture_formation_response_inputs from_str provider_model response grounding us ss from to
     end).1.
Proof.
  intros some (h & r & d & source); cbn in source; exists us, ss; split; [done |].
  destruct response as [response|].
  - destruct (response_covers provider_model response grounding us ss from to some) as [cov | [none parsed]].
    + left; split; [exact cov | right; right; eauto].
    + right; split; [exact none | eauto].
  - left; split; [by apply conservative_covers | auto].
Qed.

Lemma summarize_page_ok s claim us ss :
  us <> [] \/ ss <> [] -> page_read claim us ss s ->
  lane s (summarize_page from_str to_vec_len to_string SYSTEM_PROMPT WORKFLOW_CONTINUITY_RULE
            SETTLED_EVIDENCE_RULE config env claim us ss) capture_returned.
Proof.
  intros some rd; pose proof rd as (h & r & ad & a & st); unfold summarize_page.
  assert (untouched : capture_panicked s) by (split_and!; [eauto | congruence | done | done]).
  eapply follows_bind with (mid := fun _ s' => s' = s); [by apply follows_or_panic | intros text s' ->].
  eapply follows_bind with (mid := fun _ s' => s' = s); [by apply follows_or_panic | intros grounding s' ->].
  eapply follows_bind with (mid := fun _ s' => s' = s).
  { eapply follows_or_release with (mid := fun _ s' => s' = s); [| done |].
    - eapply follows_bind with (mid := fun _ s' => s' = s); [by step_with constructor |].
      intros l s' ->; by apply follows_done.
    - intros e s' ->; apply release_capture_then; auto. }
  intros language s' ->; eapply follows_bind; [by apply page_response_ok |].
  intros [[provider_model egress] response] s1 answered.
  pose proof (answer_settles claim us ss provider_model egress response grounding s1
                (ms (cf_from claim)) (ms (cf_to claim)) some answered) as ok.
  destruct answered as (h1 & _ & d1 & _).
  destruct (match response with Some _ => _ | None => _ end) as [episodes dropped].
  eapply follows_bind; [by apply settle_page_ok |]; intros ids s2 h2.
  eapply follows_bind with (mid := fun _ s' => c_held s' = None); [by step_with ltac:(by apply c_embed) |].
  intros u s3 h3; apply follows_done; by left.
Qed.

Lemma capture_lane_ok :
  lane capture_start
    (summarize_capture_formation_locked from_str to_vec_len to_string SYSTEM_PROMPT
       WORKFLOW_CONTINUITY_RULE SETTLED_EVIDENCE_RULE config env) capture_returned.
Proof.
  unfold summarize_capture_formation_locked.
  eapply follows_bind with (mid := fun claim s' => s' = c_hold capture_start claim).
  { apply follows_try, follows_call; intros [claim|e]; eexists; (split; [by apply c_claim |]); [done |].
    by left. }
  intros [claim|] s ->; [| apply follows_done; by left].
  eapply follows_bind with (mid := fun rows s' => s' = c_read (c_hold capture_start (Some claim)) rows).
  { eapply follows_or_release with (mid := fun r s' => s' = match r with
        | Ok rows => c_read (c_hold capture_start (Some claim)) rows
        | Err _ => c_hold capture_start (Some claim) end).
    - step_with ltac:(by apply c_evidence).
    - by intros rows s' ->.
    - intros e s' ->; by apply release_capture_then. }
  intros [us ss] s ->; destruct (is_empty us && is_empty ss) eqn:none.
  - apply andb_true_iff in none as [-> %is_empty_true -> %is_empty_true].
    eapply follows_bind; [apply settle_page_ok; [done | done |] |].
    + exists [], []; split; [done |]; left; split; [by intros _ _ | auto].
    + intros ids s hs; apply follows_done; by left.
  - apply summarize_page_ok; [| done].
    apply andb_false_iff in none as [E | E]; apply is_empty_false in E; auto.
Qed.
End CaptureProofs.

(** ** Properties of the two lanes *)

(** Whatever the store, the provider and the clock answer, the forward
    lane follows the protocol [wstep]: it claims a window only after reading
    its evidence; each of at most two provider calls, the second only a repair,
    is made under the claim after a budget reservation and a source
    authorisation of its own; the cursor moves at most once, over an empty
    window only when no recoverable media is left in it, otherwise to the last
    evidence read, or to the end of the window when complete evidence formed
    nothing; nothing published from a live tail never moves it.  However the
    lane ends, it holds no claim. *)
Theorem forward_lane_protocol `{Unicode} `{DebugTables} from_str to_string SYSTEM_PROMPT
    WORKFLOW_CONTINUITY_RULE SETTLED_EVIDENCE_RULE config env mode h :
  exists calls s,
    snd (summarize_forward from_str to_string SYSTEM_PROMPT WORKFLOW_CONTINUITY_RULE
           SETTLED_EVIDENCE_RULE config env mode h) = h ++ calls
    /\ steps (wstep mode) (start_state mode) calls s /\ held s = None.
Proof.
  destruct (summarize_forward_ok from_str to_string SYSTEM_PROMPT WORKFLOW_CONTINUITY_RULE
              SETTLED_EVIDENCE_RULE config env mode h) as (calls & s & E & st & fr).
  exists calls, s; split_and!; [done | done |]; by destruct (fst _).
Qed.

(** C38: whatever the store and the provider answer, the exact-session lane
    follows the protocol [cstep]: the provider is asked at most once, never
    for a page with a staged response, only for the authorised request with
    its budget reserved; a settlement accounts for every row of the page, as
    episodes that own each row once or as an explicit no-memory response that
    a crash would replay, and is conservative only when the attempt can never
    be sent again; a fresh attempt is allowed only after a proven unbilled
    one.  The claim it takes it settles, or asks the store to release, but for
    three failures that leave it to its lease: before asking the provider, a
    request that does not serialise or a malformed attempt identity, and after
    it, an answer the store would not take ([capture_returned]); and but for a
    panic, which can only come of rendering the page, before the provider is
    asked ([capture_panicked]). *)
Theorem capture_lane_protocol `{Unicode} `{DebugTables} from_str to_vec_len to_string SYSTEM_PROMPT
    WORKFLOW_CONTINUITY_RULE SETTLED_EVIDENCE_RULE config env h :
  let run := summarize_capture_formation_locked from_str to_vec_len to_string SYSTEM_PROMPT
               WORKFLOW_CONTINUITY_RULE SETTLED_EVIDENCE_RULE config env h in
  exists calls s,
    run.2 = h ++ calls /\ steps (cstep from_str) capture_start calls s
    /\ match run.1 with
       | Continue r | Return r => capture_returned r s
       | Panicked => capture_panicked s
       end.
Proof.
  intros run.
  destruct (capture_lane_ok from_str to_vec_len to_string SYSTEM_PROMPT WORKFLOW_CONTINUITY_RULE
              SETTLED_EVIDENCE_RULE config env h) as (calls & s & E & st & ret).
  exists calls, s; split_and!; [done | done |]; unfold run; by destruct (fst _).
Qed.

(** ** Runs *)

#[local] Existing Instance ascii_unicode.
#[local] Existing Instance ascii_debug.

(** A store with one row of evidence and a provider that returns [response]. *)
Definition sample_env (response : str) : Env := {|
  now := fun _ => ms (lit "2026-07-05T12:00:00.000Z");
  newest_recording_locale := fun _ => Ok None;
  reserve := fun _ => Ok true;
  claim_capture_formation := fun _ => Ok None;
  capture_formation_evidence := fun _ => Err NotFound;
  authorize_capture_formation_egress := fun _ => Err NotFound;
  generate_with_persisted_attempt := fun _ => Err (before_egress NotFound);
  stage_capture_formation_response := fun _ => Err NotFound;
  settle_capture_formation := fun _ => Err NotFound;
  summarized_until := fun _ => Ok (Some (lit "2026-07-05T09:59:00.000Z"));
  summary_evidence := fun _ => Ok ([sample_speech], sample_frames);
  span_has_recoverable_media := fun _ => Ok false;
  set_summarized_until := fun _ => Ok tt;
  tail_is_settled := fun _ => Ok true;
  open_episodes := fun _ => Ok ([], [sample_speech]);
  claim_summary_window := fun _ =>
    Ok (Some {| w_account_id := lit "a"; w_from := lit "f"; w_to := lit "t"; w_claim_token := lit "c" |});
  authorize_summary_window_egress := fun _ => Ok tt;
  generate := fun _ => Ok {| generated_text := response; generation_event_id := lit "e" |};
  settle_summary_window := fun _ => Ok [1]
|}.

Definition sample_config : VertexConfig :=
  {| cfg_project := lit "p"; cfg_location := lit "l"; cfg_model := lit "m" |}.

(** The whole forward lane, from the read of the cursor to the embedding. *)
Definition sample_run (parsed : Value) : outcome (res Value) (res Value) * list Event :=
  summarize_user_window (fun _ => Some parsed) (fun _ => Some 0) (fun _ => lit "error") [] [] []
    sample_config (sample_env (lit "{}")) Scheduled [].

Example settled_window_forms_an_episode :
  fst (sample_run good_response)
  = Continue (Ok (object [("episodes", of_Z 1); ("dropped", of_Z 0);
                          ("to", VString (lit "2026-07-05T10:00:40.000Z"))]%string)).
Proof. vm_compute; reflexivity. Qed.

Example zero_result_passes_the_settled_window :
  fst (sample_run (object [("episodes", VArray [])]%string))
  = Continue (Ok (object [("episodes", of_Z 1); ("dropped", of_Z 0);
                          ("to", VString (lit "2026-07-05T11:55:00.000Z"))]%string)).
Proof. vm_compute; reflexivity. Qed.

(** ** The recurring sweep *)

Definition should_cross_proven_empty_window (value : Value) : bool :=
  bool_decide ((get (lit "reason") value ≫= as_str) = Some (lit "no_new_records")).

Definition MAX_WINDOW_FAILURES : Z := 3.

(** What the sweep does after one pass over the user. *)
Inductive SweepAction := NextWindow | StopUser | SkipPast (window_to : str).

(** The user's entry in the failure table: the failing window and how often
    it failed in a row. *)
Definition count_failure (entry : option (str * Z)) (window_to : str) : str * Z :=
  let '(window, failures) := default (window_to, 0) entry in
  if str_eqb window window_to then (window, failures + 1) else (window_to, 1).

(** The [match] over one result of [summarize_user]. *)
Definition sweep_result (entry : option (str * Z)) (result : res Value) : option (str * Z) * SweepAction :=
  match result with
  | Err _ => (entry, StopUser)
  | Ok v =>
    if should_cross_proven_empty_window v then (None, NextWindow)
    else if bool_decide (is_Some (get (lit "to") v)) then (None, StopUser)
    else if bool_decide (is_Some (get (lit "error") v)) then
      match get (lit "window_to") v ≫= as_str with
      | None => (entry, StopUser)
      | Some window_to =>
        let counted := count_failure entry window_to in
        if counted.2 <? MAX_WINDOW_FAILURES then (Some counted, StopUser) else (None, SkipPast window_to)
      end
    else (entry, StopUser)
  end.

(** The loop over at most [SPARSE_LOOKBACK_MAX_WINDOWS] windows; [pass] is the
    result of the n-th pass, and the skip of a stuck window ends it too. *)
Fixpoint sweep_user (fuel : nat) (pass : nat -> res Value) (entry : option (str * Z)) (n : nat) :
  option (str * Z) * option str * nat :=
  match fuel with
  | O => (entry, None, n)
  | S fuel =>
    match sweep_result entry (pass n) with
    | (entry, NextWindow) => sweep_user fuel pass entry (S n)
    | (entry, StopUser) => (entry, None, S n)
    | (entry, SkipPast window_to) => (entry, Some window_to, S n)
    end
  end.

(** [coalesced_kick_batch]: the first kick and those already waiting, each
    user once, in order. *)
Definition coalesced_kick_batch (first_user_id : str) (waiting : list str) : list str :=
  fst (fold_left (fun acc user_id =>
                    if bset_mem user_id acc.2 then acc
                    else (acc.1 ++ [user_id], bset_add user_id acc.2))
         (first_user_id :: waiting) ([], [])).

(** A failed pass over [window]. *)
Definition failed_on (window : str) (result : res Value) : Prop :=
  exists v, result = Ok v /\ get (lit "window_to") v ≫= as_str = Some window
            /\ is_Some (get (lit "error") v).

(** A pass that neither made progress nor failed on a window: an error, a
    hold, a claim or a quota response. *)
Definition uneventful (result : res Value) : Prop :=
  (forall window, ~ failed_on window result)
  /\ forall v, result = Ok v -> get (lit "to") v = None /\ should_cross_proven_empty_window v = false.

(** How often the last passes failed on one window, newest first, other
    uneventful passes between them not counting. *)
Inductive failing_run (window : str) : list (res Value) -> Z -> Prop :=
| run_none results : failing_run window results 0
| run_fail result results n :
    failed_on window result -> failing_run window results n ->
    failing_run window (result :: results) (n + 1)
| run_other result results n :
    uneventful result -> failing_run window results n -> failing_run window (result :: results) n.

Definition entry_earned (entry : option (str * Z)) (history : list (res Value)) : Prop :=
  match entry with Some (window, n) => 0 <= n < MAX_WINDOW_FAILURES /\ failing_run window history n | None => True end.

Lemma sweep_result_earned entry history result :
  entry_earned entry history ->
  entry_earned (sweep_result entry result).1 (result :: history)
  /\ forall window, (sweep_result entry result).2 = SkipPast window ->
       failing_run window (result :: history) MAX_WINDOW_FAILURES.
Proof.
  intros earned.
  assert (keep : uneventful result -> entry_earned entry (result :: history)).
  { intros other; destruct entry as [[w n]|]; [| done]; destruct earned; split; [done |]; by apply run_other. }
  destruct result as [v|e]; cbn [sweep_result].
  2: { split; [apply keep; split; [by intros w (v & E & _) | discriminate] | discriminate]. }
  destruct (should_cross_proven_empty_window v) eqn:cross; [split; [done | discriminate] |].
  case_bool_decide as to; [split; [done | discriminate] |].
  assert (other : (forall window, ~ failed_on window (Ok v)) -> uneventful (Ok v)).
  { intros nf; split; [exact nf |]; intros v' E; injection E as <-; split; [by apply eq_None_not_Some | done]. }
  case_bool_decide as err.
  2: { split; [| discriminate]; apply keep, other; intros w (v' & E & _ & some); by injection E as <-. }
  destruct (get (lit "window_to") v ≫= as_str) as [window|] eqn:W.
  2: { split; [| discriminate]; apply keep, other; intros w (v' & E & some & _); injection E as <-; congruence. }
  assert (counted : failing_run window (Ok v :: history) (count_failure entry window).2
                    /\ (count_failure entry window).1 = window
                    /\ 0 < (count_failure entry window).2 <= MAX_WINDOW_FAILURES).
  { assert (failed : failed_on window (Ok v)) by (exists v; auto).
    unfold count_failure, MAX_WINDOW_FAILURES in *; destruct entry as [[w n]|]; cbn.
    - destruct earned as [range run]; unfold MAX_WINDOW_FAILURES in range; destruct (str_eqb w window) eqn:E.
      + apply str_eqb_eq in E as ->; cbn; split_and!; auto using run_fail; lia.
      + cbn; split_and!; auto; try lia; apply (run_fail window _ _ 0); auto using run_none.
    - rewrite str_eqb_refl; cbn; split_and!; auto; try lia; apply (run_fail window _ _ 0); auto using run_none. }
  destruct (count_failure entry window) as [w n]; cbn in counted; destruct counted as (run & -> & range); cbn.
  destruct (n <? MAX_WINDOW_FAILURES) eqn:few; bool_prop.
  - split; [split; [lia | exact run] | discriminate].
  - split; [done |]; intros window' E; injection E as <-.
    by replace MAX_WINDOW_FAILURES with n by lia.
Qed.

(** The sweep skips a window, losing its episodes, only when the last
    passes failed on that very window three times with no progress between,
    whatever the earlier sweeps and windows did. *)
Theorem sweep_skips_only_stuck_windows (history : list (res Value)) :
  let entry := foldr (fun result entry => (sweep_result entry result).1) None history in
  forall result window, (sweep_result entry result).2 = SkipPast window ->
    failing_run window (result :: history) MAX_WINDOW_FAILURES.
Proof.
  intros entry result window; apply sweep_result_earned.
  unfold entry; induction history as [|r history IH]; [done |]; cbn [foldr].
  by apply sweep_result_earned.
Qed.

Definition failed_pass (window : string) : res Value :=
  Ok (object [("error", VString (lit "unparseable LLM response")); ("window_to", VString (lit window))]%string).

Lemma sweep_skips_only_stuck_windows_witness :
  let history := [failed_pass "w"; Ok (skipped "quota"); failed_pass "w"; failed_pass "v"] in
  (sweep_result (foldr (fun result entry => (sweep_result entry result).1) None history) (failed_pass "w")).2
    = SkipPast (lit "w")
  /\ failing_run (lit "w") (failed_pass "w" :: history) MAX_WINDOW_FAILURES.
Proof.
  intros history; split; [vm_compute; reflexivity |].
  apply (sweep_skips_only_stuck_windows history); vm_compute; reflexivity.
Defined.
