(* ===== verification/Finalizer.v ===== *)
(** * The episode finaliser: pure policy

    [cp/finalizer.rs], with the screen checks of [cp/screen_understanding.rs]
    and the rows of [persistence/finalization.rs]: which screens the analysis
    reads, the bounded input, the validation and ranking of the model's
    answer, and the timeline a finalisation keeps.  The URL patterns of
    [extract_candidates], the response schema and the prompts are not
    modelled; SHA-256 and [serde_json] are parameters. *)
From Stdlib Require Import ZArith Lia.
From S2P Require Import Prelude OrdMap Text F64 Errors Bytes Json IsoTime Ocr Reconciliation Summarizer.
Local Open Scope Z_scope.
Local Open Scope kioku_scope.

Definition FINALIZATION_VERSION : Z := 6.
Definition MAX_EPISODE_ANALYSIS_INPUT_BYTES : Z := 512 * 1024.
Definition MAX_FINALIZATION_ATTEMPTS : Z := 3.
Definition MAX_FINALIZER_OCR_CHARS : nat := 4000.
Definition MAX_FINALIZER_SCREENS : nat := 40.
Definition MIN_FINALIZER_SCREENS : nat := 8.
Definition FINALIZER_ANCHOR_INTERVAL_MS : Z := 120000.
Definition MAX_KEY_SCREENS_PER_EPISODE : nat := 8.
Definition MAX_REUSED_TITLE_CHARS : Z := 180.
Definition MAX_REUSED_SUMMARY_CHARS : Z := 4000.
Definition MAX_REUSED_MINUTES : nat := 512.
Definition MAX_REUSED_GIST_CHARS : Z := 800.
Definition MAX_REUSED_MINUTES_TEXT_CHARS : Z := 128 * 1024.

(** ** Retries *)

Record RetryDisposition := { status : str; delay_seconds : option Z }.

(** [None] is the [unreachable!] arm. *)
Definition retry_disposition (attempt_count : Z) : option RetryDisposition :=
  if MAX_FINALIZATION_ATTEMPTS <=? attempt_count
  then Some {| status := lit "failed_terminal"; delay_seconds := None |}
  else if (attempt_count =? 0) || (attempt_count =? 1)
  then Some {| status := lit "retry_wait"; delay_seconds := Some (10 * 60) |}
  else if attempt_count =? 2
  then Some {| status := lit "retry_wait"; delay_seconds := Some (60 * 60) |}
  else None.

(** ** Rows *)

Record FinalizationEpisode := {
  fe_id : Z;
  fe_started_at : str;
  fe_ended_at : str;
  fe_episode_type : option str;
  fe_title : str;
  fe_summary : option str;
  fe_participants : option str;
  fe_languages : option str;
  fe_action_items : option str;
  structure_state : str;
  fe_minute_summaries : Value;
  fe_minutes_text : option str
}.

Record FinalizationUtterance := {
  fu_id : Z;
  fu_at : str;
  fu_at_ms : Z;
  fu_speaker : str;
  fu_source_type : str;
  fu_text : str
}.

Record FinalizationScreenshot := {
  fs_id : Z;
  fs_captured_at : str;
  captured_at_ms : Z;
  fs_active_app : option str;
  fs_window_title : option str;
  fs_url : option str;
  fs_ocr_text : option str;
  fs_salient_ocr_text : option str;
  is_duplicate : bool;
  elided : bool;
  source_key : str;
  capture_status : str;
  visible_until : option str;
  display_id : option Z;
  primary_bundle_id : option str;
  visible_windows : Value;
  browser_context : Value;
  visual_signals : Value
}.

Definition set_elided (row : FinalizationScreenshot) (b : bool) : FinalizationScreenshot :=
  {| fs_id := fs_id row; fs_captured_at := fs_captured_at row; captured_at_ms := captured_at_ms row;
     fs_active_app := fs_active_app row; fs_window_title := fs_window_title row; fs_url := fs_url row;
     fs_ocr_text := fs_ocr_text row; fs_salient_ocr_text := fs_salient_ocr_text row;
     is_duplicate := is_duplicate row; elided := b; source_key := source_key row;
     capture_status := capture_status row; visible_until := visible_until row;
     display_id := display_id row; primary_bundle_id := primary_bundle_id row;
     visible_windows := visible_windows row; browser_context := browser_context row;
     visual_signals := visual_signals row |}.

(** ** The brief *)

Record EvidenceRef := { record_type : str; record_id : Z }.

Inductive BriefSectionKind := Bullets | SectionText | Tasks | Decisions.

Record BriefSectionItem := {
  item_text : str;
  item_owner : option str;
  due_at : option str;
  evidence : list EvidenceRef
}.

Record BriefSection := { section_title : str; section_kind : BriefSectionKind; items : list BriefSectionItem }.

Definition is_none_or {A} (o : option A) (p : A -> bool) : bool :=
  match o with Some a => p a | None => true end.
Definition is_some_and {A} (o : option A) (p : A -> bool) : bool :=
  match o with Some a => p a | None => false end.

Definition is_tasks (kind : BriefSectionKind) : bool := match kind with Tasks => true | _ => false end.

Definition valid_brief_item (valid : EvidenceRef -> bool) (kind : BriefSectionKind)
    (item : BriefSectionItem) : bool :=
  negb (is_blank (item_text item))
  && (char_count (item_text item) <=? 2000)
  && is_none_or (item_owner item) (fun s => char_count s <=? 160)
  && is_none_or (due_at item) (fun s => char_count s <=? 160)
  && (is_tasks kind || (is_none_or (item_owner item) (fun _ => false)
                        && is_none_or (due_at item) (fun _ => false)))
  && negb (is_empty (evidence item))
  && (length (evidence item) <=? 16)%nat
  && forallb valid (evidence item).

Definition valid_brief_sections (sections : list BriefSection) (valid : EvidenceRef -> bool) : bool :=
  (length sections <=? 8)%nat
  && forallb (fun section =>
       negb (is_blank (section_title section))
       && (char_count (section_title section) <=? 80)
       && negb (is_empty (items section))
       && (length (items section) <=? 12)%nat
       && forallb (valid_brief_item valid (section_kind section)) (items section)) sections.

(** ** The model's answer *)

Record GeminiDecision := { decision_text : str; decision_evidence : list EvidenceRef }.
Record GeminiActionItem := {
  action_text : str; action_owner : str; action_due_at : option str; action_evidence : list EvidenceRef }.
Record GeminiImportantLinkSelection := {
  candidate_id : str; link_label : str; why_it_matters : str; link_evidence : list EvidenceRef }.

Record GeminiScreenAnalysis := {
  screen_id : str;
  literal_description : str;
  screen_state : str;
  content_type : str;
  visible_text_summary : option str;
  notable_items : list str;
  activity_summary : option str;
  relevance_level : Z;
  relevance_reason : str;
  milestone_type : str;
  key_screen : bool
}.

Record GeminiMinuteSummary := { minute_start : str; minute_gist : str }.

Record GeminiEpisodeAnalysisResponse := {
  r_title : str;
  r_summary : str;
  r_minute_summaries : list GeminiMinuteSummary;
  overview : str;
  sections : option (list BriefSection);
  decisions : list GeminiDecision;
  r_action_items : list GeminiActionItem;
  important_links : list GeminiImportantLinkSelection;
  open_questions : list str;
  screens : list GeminiScreenAnalysis
}.

Record GeminiReusedTimelineAnalysisResponse := {
  rr_overview : str;
  rr_sections : option (list BriefSection);
  rr_decisions : list GeminiDecision;
  rr_action_items : list GeminiActionItem;
  rr_important_links : list GeminiImportantLinkSelection;
  rr_open_questions : list str;
  rr_screens : list GeminiScreenAnalysis
}.

Record ReusableTimeline := {
  t_title : str;
  t_summary : str;
  t_minute_summaries : list GeminiMinuteSummary;
  t_minute_summaries_json : str;
  t_minutes_text : str
}.

Record FinalizedTimeline := {
  f_title : str;
  f_summary : str;
  f_minute_summaries_json : str;
  f_minutes_text : str
}.

(** ** Links *)

Record UrlCandidate := { url : str; c_record_type : str; c_record_id : Z }.

Record ModelUrlCandidate := {
  m_id : str; m_url : str; m_record_type : str; m_record_id : Z; context_kind : option str }.

(** The loop that pops trailing punctuation. *)
Definition trailing_punctuation (c : char) : bool :=
  existsb (N.eqb c) (lit ".,;:?!)]'").

Section Links.
Context `{Unicode}.

Definition clean_url (url : str) : str :=
  let cleaned := reverse (drop_while trailing_punctuation (reverse url)) in
  let lower := to_lowercase cleaned in
  if starts_with (lit "http://") lower || starts_with (lit "https://") lower then cleaned
  else lit "https://" ++ cleaned.

Definition tab_url (tab : Value) : option str := str_field "url" tab.

(** The tabs of one screen, the candidates so far and those seen. *)
Definition add_tab (screen : FinalizationScreenshot) (acc : list UrlCandidate * bset (str * Z)) (tab : Value) :
  list UrlCandidate * bset (str * Z) :=
  match tab_url tab with
  | None => acc
  | Some u =>
    if starts_with (lit "https://") u || starts_with (lit "http://") u then
      let u := clean_url u in
      if bset_mem (u, fs_id screen) acc.2 then acc
      else (acc.1 ++ [{| url := u; c_record_type := lit "screenshot"; c_record_id := fs_id screen |}],
            bset_add (u, fs_id screen) acc.2)
    else acc
  end.

Definition tabs_of (screen : FinalizationScreenshot) : list Value :=
  default [] (get (lit "tabs") (browser_context screen) ≫= as_array).

Definition browser_tab_candidates (screenshots : list FinalizationScreenshot) : list UrlCandidate :=
  fst (fold_left (fun acc screen => fold_left (add_tab screen) (tabs_of screen) acc)
         (List.filter (fun screen => negb (is_duplicate screen)) screenshots) ([], [])).

Definition candidate_context (screenshots : list FinalizationScreenshot) (candidate : UrlCandidate) :
  option str :=
  match List.find (fun screen => fs_id screen =? c_record_id candidate) screenshots with
  | None => None
  | Some screen =>
    match get (lit "tabs") (browser_context screen) ≫= as_array with
    | None => None
    | Some tabs =>
      List.find (fun tab => is_some_and (tab_url tab) (fun u => str_eqb (clean_url u) (url candidate))) tabs
        ≫= str_field "context_kind"
    end
  end.

Definition model_url_candidates (candidates : list UrlCandidate)
    (screenshots : list FinalizationScreenshot) : list ModelUrlCandidate :=
  imap (fun index candidate =>
          {| m_id := lit "U" ++ dec (Z.of_nat index + 1); m_url := url candidate;
             m_record_type := c_record_type candidate; m_record_id := c_record_id candidate;
             context_kind := candidate_context screenshots candidate |}) candidates.

Definition valid_link_candidate_selection (links : list GeminiImportantLinkSelection)
    (candidates : list ModelUrlCandidate) : bool :=
  let allowed := m_id <$> candidates in
  snd (fold_left
         (fun (acc : bset str * bool) link =>
            if snd acc
            then if bool_decide (candidate_id link ∈ allowed) && negb (bset_mem (candidate_id link) acc.1)
                 then (bset_add (candidate_id link) acc.1, true) else (acc.1, false)
            else acc) links ([], true)).

(** ** Grounding *)

Definition points_at (utterances : list FinalizationUtterance) (utterance : FinalizationUtterance) : bool :=
  contains_plural_deictic (fu_text utterance)
  || (contains_singular_deictic (fu_text utterance)
      && (2 <=? count_if (fun candidate =>
                            contains_singular_deictic (fu_text candidate)
                            && within 20000 (fu_at_ms candidate) (fu_at_ms utterance)) utterances)%nat).

(** Only screens the model can see may bind entities. *)
Definition groundable (at_ms : Z) (row : FinalizationScreenshot) : bool :=
  negb (is_duplicate row) && negb (elided row) && within 45000 (captured_at_ms row) at_ms.

Definition row_facts (row : FinalizationScreenshot) : option (list str) :=
  match select_salient_ocr (fs_ocr_text row) (fs_salient_ocr_text row) with
  | None => Some []
  | Some salient => extract_screen_facts salient
  end.

Definition requirement_entities (at_ms : Z) (screenshots : list FinalizationScreenshot) : option (list str) :=
  match mapM row_facts (List.filter (groundable at_ms) screenshots) with
  | None => None
  | Some frames =>
    let '((all_entities, _), (primary_entities, _)) :=
      fold_left collect_facts frames (([], []), ([], [])) in
    Some (if (length primary_entities =? 2)%nat then primary_entities else all_entities)
  end.

Definition requirement_step (utterances : list FinalizationUtterance)
    (screenshots : list FinalizationScreenshot) (requirements : list GroundingRequirement)
    (utterance : FinalizationUtterance) : option (list GroundingRequirement) :=
  if negb (points_at utterances utterance) then Some requirements
  else if existsb (fun requirement => within 30000 (at_ms requirement) (fu_at_ms utterance)) requirements
  then Some requirements
  else
    match requirement_entities (fu_at_ms utterance) screenshots with
    | None => None
    | Some found =>
      Some (if (length found =? 2)%nat
            then requirements ++ [{| at_ms := fu_at_ms utterance; entities := found |}]
            else requirements)
    end.

Definition grounding_requirements (utterances : list FinalizationUtterance)
    (screenshots : list FinalizationScreenshot) : option (list GroundingRequirement) :=
  fold_left (fun acc utterance => acc ≫= fun rs => requirement_step utterances screenshots rs utterance)
    utterances (Some []).

Definition missing_grounded_entities (brief : GeminiEpisodeAnalysisResponse)
    (requirements : list GroundingRequirement) : list str :=
  let overview := to_lowercase (overview brief) in
  dedup_ascii None
    (sort_by_key to_lowercase
       (List.filter (fun entity => negb (contains (to_lowercase entity) overview))
          (requirements ≫= entities))).
End Links.

(** ** Which screens the analysis reads *)

(** [truncate_chars]: the head, marked when something was cut. *)
Definition truncate_chars (value : str) (max_chars : nat) : str :=
  let head := take max_chars value in
  if (max_chars <? length value)%nat then head ++ [ellipsis] else head.

Section Selection.
Context `{Unicode}.

Definition tokens (text : str) : bset str :=
  bset_of_list (to_lowercase <$>
    List.filter (fun token => 3 <=? char_count token) (split_by (fun c => negb (is_alphanumeric c)) text)).

Definition same_screen_text (left right : str) : bool :=
  let left := tokens left in
  let right := tokens right in
  if (length left <? 8)%nat || (length right <? 8)%nat then bool_decide (left = right)
  else
    let overlap := count_if (fun token => bset_mem token right) left in
    f64_geb (f64_div (f64_of_Z (Z.of_nat overlap)) (f64_of_Z (Z.of_nat (Nat.min (length left) (length right)))))
            (f64_lit 85 100).

Definition context_of (row : FinalizationScreenshot) : option str * option str * option str :=
  (fs_active_app row, fs_url row, fs_window_title row).

(** The state of the selection loop. *)
Record Selection := {
  kept : list nat;
  last_context : option (option str * option str * option str);
  last_kept_ms : Z;
  last_kept_text : option str
}.

Definition first_selection : Selection :=
  {| kept := []; last_context := None; last_kept_ms := I64.min_value; last_kept_text := None |}.

Definition representative (s : Selection) (row : FinalizationScreenshot) (text : option str) : bool :=
  let context_changed := negb (bool_decide (last_context s = Some (context_of row))) in
  let anchor_due :=
    FINALIZER_ANCHOR_INTERVAL_MS <=? I64.saturating_sub (captured_at_ms row) (last_kept_ms s) in
  if is_empty (kept s) || context_changed then true
  else if anchor_due then
    match last_kept_text s, text with
    | Some previous, Some current => negb (same_screen_text previous current)
    | _, _ => true
    end
  else false.

Definition select_step (s : Selection) (entry : nat * FinalizationScreenshot) : Selection :=
  let (index, row) := entry in
  let text := select_salient_ocr (fs_ocr_text row) (fs_salient_ocr_text row) in
  if representative s row text
  then {| kept := kept s ++ [index]; last_context := Some (context_of row);
          last_kept_ms := captured_at_ms row; last_kept_text := text |}
  else s.

Definition canonical_rows (rows : list FinalizationScreenshot) : list (nat * FinalizationScreenshot) :=
  List.filter (fun entry => negb (is_duplicate entry.2)) (zip (seq 0 (length rows)) rows).

(** The last canonical screen is always kept. *)
Definition with_last (kept canonical : list nat) : list nat :=
  match last canonical with
  | Some l => if bool_decide (last kept = Some l) then kept else kept ++ [l]
  | None => kept
  end.

(** The even downsample over the cap: [sampled] skips a repeat of its last. *)
Definition downsample (kept : list nat) (cap : nat) : list nat :=
  fold_left (fun sampled position =>
               let candidate := default 0%nat (kept !! (position * (length kept - 1) / (cap - 1))%nat) in
               if bool_decide (last sampled = Some candidate) then sampled else sampled ++ [candidate])
    (seq 0 cap) [].

Definition representatives (rows : list FinalizationScreenshot) : list nat :=
  with_last (kept (fold_left select_step (canonical_rows rows) first_selection)) (canonical_rows rows).*1.

Definition selected_indices (rows : list FinalizationScreenshot) (cap : nat) : list nat :=
  let kept := representatives rows in
  if (Nat.max cap 2 <? length kept)%nat then downsample kept (Nat.max cap 2) else kept.

Definition select_finalizer_screens (rows : list FinalizationScreenshot) (cap : nat) :
  list FinalizationScreenshot :=
  let kept := selected_indices rows cap in
  imap (fun index row =>
          set_elided row (negb (is_duplicate row) && negb (bool_decide (index ∈ kept)))) rows.
End Selection.

(** ** The timeline a finalisation keeps *)

Definition strict_stored_text (value : str) (max_chars : Z) : bool :=
  negb (is_empty value) && str_eqb (trim value) value && (char_count value <=? max_chars)
  && negb (existsb is_control value).

Definition strict_stored_multiline (value : str) (max_chars : Z) : bool :=
  negb (is_empty value) && str_eqb (trim value) value && (char_count value <=? max_chars)
  && negb (existsb (fun c => is_control c && negb (c =? newline)%N) value).

Definition decode_minute (v : Value) : option GeminiMinuteSummary :=
  match struct_fields ["start"; "gist"]%string v with
  | Some [start; gist] =>
    match as_str start, as_str gist with
    | Some start, Some gist => Some {| minute_start := start; minute_gist := gist |}
    | _, _ => None
    end
  | _ => None
  end.

(** The loop over the minutes. *)
Fixpoint minutes_valid (episode_start episode_end : Z) (prior_start : option Z)
    (l : list GeminiMinuteSummary) : bool :=
  match l with
  | [] => true
  | minute :: rest =>
    match parse_epoch_millis (minute_start minute) with
    | None => false
    | Some start =>
      negb ((start <? episode_start) || (episode_end <? start)
            || is_some_and prior_start (fun prior => start <=? prior)
            || negb (strict_stored_text (minute_gist minute) MAX_REUSED_GIST_CHARS))
      && minutes_valid episode_start episode_end (Some start) rest
    end
  end.

Section Timeline.
(** [serde_json::to_string] on a value. *)
Context (to_string : Value -> option str).

Definition reusable_timeline (episode : FinalizationEpisode) : option ReusableTimeline :=
  if negb (str_eqb (structure_state episode) (lit "reconciled")) then None
  else
    match fe_summary episode, fe_minutes_text episode with
    | Some summary, Some minutes_text =>
      if negb (strict_stored_text (fe_title episode) MAX_REUSED_TITLE_CHARS)
         || negb (strict_stored_text summary MAX_REUSED_SUMMARY_CHARS)
         || negb (strict_stored_multiline minutes_text MAX_REUSED_MINUTES_TEXT_CHARS)
      then None
      else
        match decode_list decode_minute (fe_minute_summaries episode) with
        | None => None
        | Some minute_summaries =>
          if is_empty minute_summaries || (MAX_REUSED_MINUTES <? length minute_summaries)%nat then None
          else
            match parse_epoch_millis (fe_started_at episode), parse_epoch_millis (fe_ended_at episode) with
            | Some episode_start, Some episode_end =>
              if negb (minutes_valid episode_start episode_end None minute_summaries) then None
              else if negb (str_eqb (join [newline] (minute_gist <$> minute_summaries)) minutes_text) then None
              else
                match to_string (fe_minute_summaries episode) with
                | None => None
                | Some json =>
                  Some {| t_title := fe_title episode; t_summary := summary;
                          t_minute_summaries := minute_summaries; t_minute_summaries_json := json;
                          t_minutes_text := minutes_text |}
                end
            | _, _ => None
            end
        end
    | _, _ => None
    end.

Definition minute_value (minute : GeminiMinuteSummary) : Value :=
  object [("start", VString (minute_start minute)); ("gist", VString (minute_gist minute))]%string.

(** [serde_json::to_string] on the response's minutes. *)
Context (minutes_to_string : list GeminiMinuteSummary -> option str).

Definition finalized_timeline (response : GeminiEpisodeAnalysisResponse) (reusable : option ReusableTimeline) :
  res FinalizedTimeline :=
  match reusable with
  | Some reusable =>
    Ok {| f_title := t_title reusable; f_summary := t_summary reusable;
          f_minute_summaries_json := t_minute_summaries_json reusable;
          f_minutes_text := t_minutes_text reusable |}
  | None =>
    let? json := ok_or (minutes_to_string (r_minute_summaries response)) Errors.Json in
    Ok {| f_title := r_title response; f_summary := r_summary response;
          f_minute_summaries_json := json;
          f_minutes_text := join [space] (minute_gist <$> r_minute_summaries response) |}
  end.

(** [serde_json::from_str] at the two response types, which refuse unknown
    fields. *)
Context (from_str_full : str -> option GeminiEpisodeAnalysisResponse).
Context (from_str_reused : str -> option GeminiReusedTimelineAnalysisResponse).

Definition parse_episode_analysis_response (text : str) (reusable : option ReusableTimeline) :
  option GeminiEpisodeAnalysisResponse :=
  match reusable with
  | Some reusable =>
    match from_str_reused text with
    | Some parsed =>
      Some {| r_title := t_title reusable; r_summary := t_summary reusable;
              r_minute_summaries := t_minute_summaries reusable;
              overview := rr_overview parsed; sections := rr_sections parsed;
              decisions := rr_decisions parsed; r_action_items := rr_action_items parsed;
              important_links := rr_important_links parsed;
              open_questions := rr_open_questions parsed; screens := rr_screens parsed |}
    | None => None
    end
  | None => from_str_full text
  end.
End Timeline.

(** ** The bounded input *)

Section Rendering.
Context `{Unicode}.
(** [serde_json]'s printer and parser. *)
Context (to_string : Value -> option str) (from_str : str -> option Value).

Definition of_str_option (o : option str) : Value := of_option VString o.

Definition utterance_value (row : FinalizationUtterance) : Value :=
  object [("id", VString (lit "T" ++ dec (fu_id row))%list); ("record_id", of_Z (fu_id row));
          ("at", VString (fu_at row)); ("speaker", VString (fu_speaker row));
          ("source_type", VString (fu_source_type row)); ("text", VString (fu_text row))]%string.

Definition head_text (o : option str) : Value :=
  of_option (fun text => VString (truncate_chars text MAX_FINALIZER_OCR_CHARS)) o.

Definition screen_value (row : FinalizationScreenshot) : Value :=
  object [("id", VString (lit "S" ++ dec (fs_id row))%list); ("record_id", of_Z (fs_id row));
          ("captured_at", VString (fs_captured_at row)); ("visible_until", of_str_option (visible_until row));
          ("capture_status", VString (capture_status row)); ("primary_app", of_str_option (fs_active_app row));
          ("primary_bundle_id", of_str_option (primary_bundle_id row));
          ("window_title", of_str_option (fs_window_title row)); ("active_url", of_str_option (fs_url row));
          ("display_id", of_option of_Z (display_id row)); ("visible_windows", visible_windows row);
          ("browser_context", browser_context row); ("visual_signals", visual_signals row);
          ("salient_ocr_text", head_text (fs_salient_ocr_text row));
          ("ocr_text", head_text (fs_ocr_text row))]%string.

Definition requirement_value (requirement : GroundingRequirement) : Value :=
  object [("at", VString (format_epoch_millis (at_ms requirement)));
          ("entities", of_strs (entities requirement))]%string.

Definition candidate_value (candidate : ModelUrlCandidate) : Value :=
  object [("id", VString (m_id candidate)); ("url", VString (m_url candidate));
          ("record_type", VString (m_record_type candidate)); ("record_id", of_Z (m_record_id candidate));
          ("context_kind", of_str_option (context_kind candidate))]%string.

Definition shown (row : FinalizationScreenshot) : bool := negb (is_duplicate row) && negb (elided row).

Definition episode_value (episode : FinalizationEpisode) : Value :=
  object [("id", of_Z (fe_id episode)); ("started_at", VString (fe_started_at episode));
          ("ended_at", VString (fe_ended_at episode)); ("type", of_str_option (fe_episode_type episode));
          ("provisional_title", VString (fe_title episode));
          ("provisional_summary", of_str_option (fe_summary episode));
          ("participants", of_option id (fe_participants episode ≫= from_str));
          ("languages", of_str_option (fe_languages episode));
          ("provisional_action_items", of_str_option (fe_action_items episode))]%string.

Definition analysis_payload (episode : FinalizationEpisode) (utterances : list FinalizationUtterance)
    (screenshots : list FinalizationScreenshot) (candidates : list ModelUrlCandidate)
    (grounding : list GroundingRequirement) (reusable : option ReusableTimeline) : Value :=
  let payload :=
    object [("task", VString (lit "Analyze this settled episode holistically and return its brief plus exactly one semantic result for every supplied screen id."));
            ("episode", episode_value episode);
            ("utterances", VArray (utterance_value <$> utterances));
            ("screens", VArray (screen_value <$> List.filter shown screenshots));
            ("url_candidates", VArray (candidate_value <$> candidates));
            ("grounding_requirements", VArray (requirement_value <$> grounding))]%string in
  match reusable with
  | None => payload
  | Some reusable =>
    set_field (lit "reconciled_timeline")
      (object [("title", VString (t_title reusable)); ("summary", VString (t_summary reusable));
               ("minute_summaries", VArray (minute_value <$> t_minute_summaries reusable));
               ("minutes_text", VString (t_minutes_text reusable))]%string)
      (set_field (lit "task")
         (VString (lit "Analyze the raw evidence for the final brief and screen semantics. The reconciled timeline is already authored; do not regenerate or return its title, summary, or minute summaries."))
         payload)
  end.

Definition render_episode_analysis_input (episode : FinalizationEpisode)
    (utterances : list FinalizationUtterance) (screenshots : list FinalizationScreenshot)
    (candidates : list ModelUrlCandidate) (grounding : list GroundingRequirement)
    (reusable : option ReusableTimeline) : res str :=
  let? rendered :=
    ok_or (to_string (analysis_payload episode utterances screenshots candidates grounding reusable))
      Errors.Json in
  if MAX_EPISODE_ANALYSIS_INPUT_BYTES <? byte_len rendered
  then Err (Config (lit "complete episode analysis input is " ++ dec (byte_len rendered)
                    ++ lit " bytes, above the " ++ dec MAX_EPISODE_ANALYSIS_INPUT_BYTES
                    ++ lit " byte single-call limit"))
  else Ok rendered.

(** The loop over tightening caps, with the rows as the last selection left
    them; the inner [None] is a panic of the fact extraction, the outer one
    the end of the fuel. *)
Fixpoint render_loop (fuel : nat) (episode : FinalizationEpisode)
    (utterances : list FinalizationUtterance) (screenshots : list FinalizationScreenshot)
    (candidates : list ModelUrlCandidate) (reusable : option ReusableTimeline) (cap : nat) :
  option (option (res (str * list GroundingRequirement) * list FinalizationScreenshot)) :=
  match fuel with
  | O => None
  | S fuel =>
    let screenshots := select_finalizer_screens screenshots cap in
    match grounding_requirements utterances screenshots with
    | None => Some None
    | Some grounding =>
      match render_episode_analysis_input episode utterances screenshots candidates grounding reusable with
      | Ok input => Some (Some (Ok (input, grounding), screenshots))
      | Err error =>
        if (cap <=? MIN_FINALIZER_SCREENS)%nat then Some (Some (Err error, screenshots))
        else
          render_loop fuel episode utterances screenshots candidates reusable
            (Nat.max (cap / 2) MIN_FINALIZER_SCREENS)
      end
    end
  end.

(** Caps 40, 20, 10 and 8: four rounds. *)
Definition render_bounded_episode_analysis (episode : FinalizationEpisode)
    (utterances : list FinalizationUtterance) (screenshots : list FinalizationScreenshot)
    (candidates : list ModelUrlCandidate) (reusable : option ReusableTimeline) :
  option (option (res (str * list GroundingRequirement) * list FinalizationScreenshot)) :=
  render_loop 4 episode utterances screenshots candidates reusable MAX_FINALIZER_SCREENS.
End Rendering.

(** ** Ranking the screens *)

Definition STATES : list string :=
  ["content"; "blank"; "loading"; "error"; "transition"; "locked_or_private"; "unknown"]%string.
Definition TYPES : list string :=
  ["document"; "presentation"; "web_page"; "code"; "terminal"; "chat"; "meeting"; "media"; "system_ui";
   "application_ui"; "unknown"]%string.
Definition MILESTONES : list string :=
  ["none"; "topic_start"; "decision"; "action"; "result"; "resource"; "demonstration"; "problem";
   "resolution"]%string.

Record ModelScreenObservationOutput := {
  o_literal_description : str;
  o_screen_state : str;
  o_content_type : str;
  o_visible_text_summary : option str;
  o_notable_items : list str
}.

Definition validate_model_output (out : ModelScreenObservationOutput) : bool :=
  one_of (o_screen_state out) STATES
  && one_of (o_content_type out) TYPES
  && negb (is_blank (o_literal_description out))
  && (char_count (o_literal_description out) <=? 280)
  && is_none_or (o_visible_text_summary out) (fun value => char_count value <=? 200)
  && (length (o_notable_items out) <=? 5)%nat
  && forallb (fun item => char_count item <=? 120) (o_notable_items out).

Record ScreenObservationInput := {
  i_screenshot_id : Z;
  i_source_key : str;
  i_captured_at : str;
  i_capture_status : str;
  i_primary_app : option str;
  i_window_title : option str;
  i_salient_ocr_text : option str;
  i_ocr_text : option str;
  i_active_url : option str;
  i_visual_signals_json : option str;
  i_display_id : option Z;
  i_primary_bundle_id : option str;
  i_visible_windows_json : option str;
  i_browser_context_json : option str
}.

Record RankedScreenAnalysis := {
  screenshot_id : Z;
  observation_revision : str;
  k_literal_description : str;
  k_screen_state : str;
  k_content_type : str;
  k_visible_text_summary : option str;
  notable_items_json : str;
  k_activity_summary : option str;
  k_relevance_level : Z;
  k_relevance_reason : str;
  k_milestone_type : str;
  base_score : Z;
  key_rank : option Z;
  is_key_screen : bool;
  semantic_group : str
}.

Definition mark_key (item : RankedScreenAnalysis) (rank : option Z) (key : bool) : RankedScreenAnalysis :=
  {| screenshot_id := screenshot_id item; observation_revision := observation_revision item;
     k_literal_description := k_literal_description item; k_screen_state := k_screen_state item;
     k_content_type := k_content_type item; k_visible_text_summary := k_visible_text_summary item;
     notable_items_json := notable_items_json item; k_activity_summary := k_activity_summary item;
     k_relevance_level := k_relevance_level item; k_relevance_reason := k_relevance_reason item;
     k_milestone_type := k_milestone_type item; base_score := base_score item; key_rank := rank;
     is_key_screen := key; semantic_group := semantic_group item |}.

Definition literal_of (output : GeminiScreenAnalysis) : ModelScreenObservationOutput :=
  {| o_literal_description := literal_description output; o_screen_state := screen_state output;
     o_content_type := content_type output; o_visible_text_summary := visible_text_summary output;
     o_notable_items := notable_items output |}.

Definition output_valid (output : GeminiScreenAnalysis) : bool :=
  validate_model_output (literal_of output)
  && contains_Z 0 3 (relevance_level output)
  && one_of (milestone_type output) MILESTONES
  && negb (is_blank (relevance_reason output))
  && (char_count (relevance_reason output) <=? 200)
  && is_none_or (activity_summary output) (fun value => char_count value <=? 280).

(** The validation loop, with the ids seen so far. *)
Fixpoint validate_screens (expected : list str) (seen : bset str) (outputs : list GeminiScreenAnalysis) :
  result string unit :=
  match outputs with
  | [] => Ok tt
  | output :: rest =>
    if negb (bool_decide (screen_id output ∈ expected)) then Err "unknown_screen_id"%string
    else if bset_mem (screen_id output) seen then Err "duplicate_screen_id"%string
    else if negb (output_valid output) then Err "invalid_screen_output"%string
    else validate_screens expected (bset_add (screen_id output) seen) rest
  end.

Definition b2z (b : bool) : Z := if b then 1 else 0.

Definition screen_score (row : FinalizationScreenshot) (output : GeminiScreenAnalysis) : Z :=
  let score :=
    relevance_level output * 20 + b2z (key_screen output) * 20
    + b2z (negb (str_eqb (milestone_type output) (lit "none"))) * 5
    + b2z (str_eqb (capture_status row) (lit "stable")) * 5 in
  if one_of (screen_state output) ["blank"; "loading"; "transition"]%string
     && negb (one_of (milestone_type output) ["problem"; "resolution"]%string)
  then Z.min score 20 else score.

Definition row_id (row : FinalizationScreenshot) : str := lit "S" ++ dec (fs_id row).

Section Ranking.
Context (sha256 : bytes -> bytes).
(** [serde_json::to_string]: of an observation input, of a value and of a
    list of strings; [Value]'s Display form. *)
Context (input_to_string : ScreenObservationInput -> option str).
Context (items_to_string : list str -> option str) (value_display : Value -> str).

Definition compute_observation_input_revision (input : ScreenObservationInput) : str :=
  let canonical := default [] (input_to_string input) in
  hex_of_bytes (sha256 (blit "screen-observation-v3" ++ [0%N] ++ as_bytes canonical)).

Definition observation_input (row : FinalizationScreenshot) : ScreenObservationInput :=
  {| i_screenshot_id := fs_id row; i_source_key := source_key row; i_captured_at := fs_captured_at row;
     i_capture_status := capture_status row; i_primary_app := fs_active_app row;
     i_window_title := fs_window_title row; i_salient_ocr_text := fs_salient_ocr_text row;
     i_ocr_text := fs_ocr_text row; i_active_url := fs_url row;
     i_visual_signals_json := Some (value_display (visual_signals row)); i_display_id := display_id row;
     i_primary_bundle_id := primary_bundle_id row;
     i_visible_windows_json := Some (value_display (visible_windows row));
     i_browser_context_json := Some (value_display (browser_context row)) |}.

Definition group_digest (row : FinalizationScreenshot) (output : GeminiScreenAnalysis) : str :=
  hex_of_bytes (sha256 (blit "episode-screen-group-v2" ++ [0%N]
    ++ as_bytes (default [] (fs_active_app row)) ++ as_bytes (default [] (fs_url row))
    ++ as_bytes (content_type output))).

Definition rank_row (row : FinalizationScreenshot) (output : GeminiScreenAnalysis) : RankedScreenAnalysis :=
  let score := screen_score row output in
  {| screenshot_id := fs_id row;
     observation_revision := compute_observation_input_revision (observation_input row);
     k_literal_description := literal_description output; k_screen_state := screen_state output;
     k_content_type := content_type output; k_visible_text_summary := visible_text_summary output;
     notable_items_json := default (lit "[]") (items_to_string (notable_items output));
     k_activity_summary := activity_summary output; k_relevance_level := relevance_level output;
     k_relevance_reason := relevance_reason output; k_milestone_type := milestone_type output;
     base_score := Z.max 0 (Z.min 100 score); key_rank := None;
     is_key_screen := key_screen output && (40 <=? score);
     semantic_group := group_digest row output |}.

(** [by_id[..]]: the last output of the id; [None] is the failed index. *)
Definition output_of (outputs : list GeminiScreenAnalysis) (row : FinalizationScreenshot) :
  option GeminiScreenAnalysis :=
  bget (row_id row) (bfrom_list ((fun output => (screen_id output, output)) <$> outputs)).

(** When no screen is key, the best relevant one is ([max_by_key]: the last
    of the highest score). *)
Definition best_index (ranked : list RankedScreenAnalysis) : option nat :=
  max_by (fun a b => base_score a.2 <=? base_score b.2)
    (List.filter (fun entry => 0 <? k_relevance_level entry.2) (zip (seq 0 (length ranked)) ranked)) ≫=
    fun entry => Some entry.1.

Definition promote_best (ranked : list RankedScreenAnalysis) : list RankedScreenAnalysis :=
  if existsb is_key_screen ranked then ranked
  else match best_index ranked with
       | Some i => alter (fun item => mark_key item (key_rank item) true) i ranked
       | None => ranked
       end.

(** The key screens, strongest first. *)
Definition key_indices (ranked : list RankedScreenAnalysis) : list nat :=
  fst <$> sort_by_key (fun entry => - base_score entry.2)
            (List.filter (fun entry => is_key_screen entry.2) (zip (seq 0 (length ranked)) ranked)).

(** The loop over the positions. *)
Definition assign_rank (ranked : list RankedScreenAnalysis) (entry : nat * nat) : list RankedScreenAnalysis :=
  let (position, index) := entry in
  alter (fun item =>
           if (position <? MAX_KEY_SCREENS_PER_EPISODE)%nat
           then mark_key item (Some (Z.of_nat position + 1)) (is_key_screen item)
           else mark_key item (key_rank item) false) index ranked.

Definition rank_keys (ranked : list RankedScreenAnalysis) : list RankedScreenAnalysis :=
  let keys := key_indices ranked in
  fold_left assign_rank (zip (seq 0 (length keys)) keys) ranked.

(** The outer [None] is the panic of the index. *)
Definition validate_and_rank_screens (response : GeminiEpisodeAnalysisResponse)
    (screenshots : list FinalizationScreenshot) : option (result string (list RankedScreenAnalysis)) :=
  let canonical := List.filter shown screenshots in
  if negb (length (screens response) =? length canonical)%nat then Some (Err "incomplete_screen_coverage"%string)
  else
    match validate_screens (row_id <$> canonical) [] (screens response) with
    | Err e => Some (Err e)
    | Ok _ =>
      match mapM (fun row => rank_row row <$> output_of (screens response) row) canonical with
      | None => None
      | Some ranked => Some (Ok (rank_keys (promote_best ranked)))
      end
    end.

Definition episode_analysis_revision (input : str) : str :=
  hex_of_bytes (sha256 (blit "episode-analysis-v6" ++ [0%N] ++ as_bytes input)).
End Ranking.

(** ** The selection *)

Section SelectionProofs.
Context `{Unicode}.

Definition text_of (row : FinalizationScreenshot) : option str :=
  select_salient_ocr (fs_ocr_text row) (fs_salient_ocr_text row).

(** A screen that says nothing new after a kept one: the same application,
    URL and title, and either soon after it or with materially its text. *)
Definition covered_by (row before : FinalizationScreenshot) : Prop :=
  context_of row = context_of before
  /\ (I64.saturating_sub (captured_at_ms row) (captured_at_ms before) < FINALIZER_ANCHOR_INTERVAL_MS
      \/ exists previous current, text_of before = Some previous /\ text_of row = Some current
                                  /\ same_screen_text previous current = true).

(** The loop's state after the entries [l]. *)
Definition selection_ok (l : list (nat * FinalizationScreenshot)) (s : Selection) : Prop :=
  kept s `sublist_of` l.*1
  /\ List.hd_error (kept s) = List.hd_error l.*1
  /\ (forall j, last (kept s) = Some j -> exists row, (j, row) ∈ l /\ last_context s = Some (context_of row)
        /\ last_kept_ms s = captured_at_ms row /\ last_kept_text s = text_of row)
  /\ (forall i row, (i, row) ∈ l -> i ∈ kept s
        \/ exists j before, j ∈ kept s /\ (j, before) ∈ l /\ covered_by row before).

Lemma representative_false s row text j before :
  last (kept s) = Some j -> last_context s = Some (context_of before) ->
  last_kept_ms s = captured_at_ms before -> last_kept_text s = text_of before ->
  text = text_of row -> representative s row text = false -> covered_by row before.
Proof.
  intros l c m t -> r; unfold representative in r; cbv zeta in r; rewrite c, m, t in r.
  destruct (is_empty (kept s) || _) eqn:B; [discriminate |]; apply orb_false_iff in B as [_ B].
  apply negb_false_iff, bool_decide_eq_true in B; split; [congruence |].
  destruct (FINALIZER_ANCHOR_INTERVAL_MS <=? _) eqn:due; bool_prop; [right | by left].
  destruct (text_of before) as [previous|], (text_of row) as [current|]; try discriminate.
  apply negb_false_iff in r; eauto.
Qed.

Lemma hd_error_app_nonempty {A} (l k : list A) : l <> [] -> List.hd_error (l ++ k) = List.hd_error l.
Proof. by destruct l. Qed.

Lemma select_step_ok l s entry :
  selection_ok l s -> (l = [] -> kept s = []) -> selection_ok (l ++ [entry]) (select_step s entry).
Proof.
  intros (sub & head & lst & cover) start; destruct entry as [i row]; unfold select_step.
  fold (text_of row).
  assert (weaken : forall k r, (k, r) ∈ l -> (k, r) ∈ l ++ [(i, row)]) by (intros; apply elem_of_app; auto).
  destruct (representative s row (text_of row)) eqn:R.
  - split_and!; cbn [kept last_context last_kept_ms last_kept_text]; rewrite ?fmap_app.
    + by apply sublist_app.
    + destruct l as [|e l]; [by rewrite start |].
      rewrite !hd_error_app_nonempty; [done | done |]; intros E; by rewrite E in head.
    + intros j E; rewrite last_snoc in E; injection E as <-; exists row; rewrite elem_of_app; split_and!; auto.
      right; apply list_elem_of_singleton; done.
    + intros k r Hk; apply elem_of_app in Hk as [Hk | Hk].
      * destruct (cover k r Hk) as [|(j & b & ? & ? & ?)]; [left | right; exists j, b];
          rewrite ?elem_of_app; auto.
      * apply list_elem_of_singleton in Hk; injection Hk as -> ->; left; apply elem_of_app; right.
        by apply list_elem_of_singleton.
  - assert (ne : kept s <> []).
    { unfold representative in R; intros E; rewrite E in R; discriminate. }
    destruct (last (kept s)) as [j|] eqn:L; [| by apply last_None in L].
    destruct (lst j eq_refl) as (before & Hb & c & m & t).
    split_and!; rewrite ?fmap_app.
    + by apply sublist_inserts_r.
    + rewrite hd_error_app_nonempty; [done |]; intros E; rewrite E in head; by destruct (kept s).
    + intros k E; assert (k = j) as -> by congruence; exists before; auto.
    + intros k r Hk; apply elem_of_app in Hk as [Hk | Hk].
      * destruct (cover k r Hk) as [|(j' & b & ? & ? & ?)]; [by left | right; exists j', b; auto].
      * apply list_elem_of_singleton in Hk; injection Hk as -> ->; right; exists j, before; split_and!; auto.
        -- apply last_Some in L as [k' ->]; apply elem_of_app; right; by apply list_elem_of_singleton.
        -- by eapply representative_false.
Qed.

Lemma select_loop_ok l : selection_ok l (fold_left select_step l first_selection).
Proof.
  induction l as [|entry l IH] using rev_ind.
  - split_and!; try done; [intros i row Hi; by apply elem_of_nil in Hi].
  - rewrite fold_left_app; apply select_step_ok; [exact IH |]; by intros ->.
Qed.

Lemma sorted_lt_NoDup (l : list nat) : StronglySorted lt l -> NoDup l.
Proof.
  induction 1 as [|x l sorted IH all]; constructor; [| done]; intros Hx.
  rewrite Forall_forall in all; specialize (all x Hx); lia.
Qed.

(** The position the n-th sample is taken from. *)
Definition sample_at (len cap p : nat) : nat := (p * (len - 1) / (cap - 1))%nat.

Lemma sample_at_lt len cap p q :
  (2 <= cap)%nat -> (cap <= len)%nat -> (p < q)%nat -> (sample_at len cap p < sample_at len cap q)%nat.
Proof.
  intros two big lt; unfold sample_at.
  assert (le : (p * (len - 1) / (cap - 1) + 1 <= q * (len - 1) / (cap - 1))%nat); [| lia].
  rewrite <- Nat.div_add by lia; apply Nat.Div0.div_le_mono; nia.
Qed.

Lemma sample_at_bound len cap p :
  (2 <= cap)%nat -> (1 <= len)%nat -> (p < cap)%nat -> (sample_at len cap p < len)%nat.
Proof.
  intros two one lt; unfold sample_at; apply Nat.Div0.div_lt_upper_bound; nia.
Qed.

Lemma downsample_fmap kept cap :
  StronglySorted lt kept -> (2 <= cap)%nat -> (cap <= length kept)%nat ->
  downsample kept cap = (fun p => default 0%nat (kept !! sample_at (length kept) cap p)) <$> seq 0 cap.
Proof.
  intros sorted two big; unfold downsample.
  pose proof (sorted_lt_NoDup kept sorted) as nd.
  assert (general : forall n, (n <= cap)%nat ->
    fold_left (fun sampled position =>
      let candidate := default 0%nat (kept !! (position * (length kept - 1) / (cap - 1))%nat) in
      if bool_decide (last sampled = Some candidate) then sampled else sampled ++ [candidate]) (seq 0 n) []
    = (fun p => default 0%nat (kept !! sample_at (length kept) cap p)) <$> seq 0 n); [| by apply general].
  induction n as [|n IH]; intros Hn; [done |].
  rewrite seq_S, fold_left_app, IH, fmap_app by lia; cbn [fold_left]; cbv zeta.
  rewrite bool_decide_eq_false_2; [done |].
  destruct n as [|n]; [done |]; rewrite seq_S, fmap_app; cbn [fmap list_fmap]; rewrite last_snoc.
  cbn [plus]; fold (sample_at (length kept) cap (S n)); intros E; injection E as E.
  pose proof (sample_at_lt (length kept) cap n (S n) two big ltac:(lia)) as lt.
  pose proof (sample_at_bound (length kept) cap (S n) two ltac:(lia) ltac:(lia)) as bound.
  destruct (lookup_lt_is_Some_2 kept (sample_at (length kept) cap n) ltac:(lia)) as [a Ha].
  destruct (lookup_lt_is_Some_2 kept _ bound) as [b Hb].
  rewrite Ha, Hb in E; cbn in E; subst b.
  assert (sample_at (length kept) cap n = sample_at (length kept) cap (S n)) by (by eapply NoDup_lookup).
  lia.
Qed.

Lemma StronglySorted_lookup_lt {A} (R : A -> A -> Prop) (l : list A) i j a b :
  StronglySorted R l -> l !! i = Some a -> l !! j = Some b -> (i < j)%nat -> R a b.
Proof.
  intros sorted; revert i j; induction sorted as [|x l sorted IH all]; intros i j Hi Hj lt; [done |].
  destruct j as [|j]; [lia |]; destruct i as [|i]; cbn in *.
  - injection Hi as ->; rewrite Forall_forall in all; apply all; by eapply list_elem_of_lookup_2.
  - eapply IH; eauto; lia.
Qed.

(** The downsample: sorted, within the list, of the cap's size, with both
    ends. *)
Lemma downsample_ok kept cap :
  StronglySorted lt kept -> (2 <= cap)%nat -> (cap < length kept)%nat ->
  StronglySorted lt (downsample kept cap) /\ downsample kept cap ⊆ kept
  /\ length (downsample kept cap) = cap
  /\ List.hd_error (downsample kept cap) = List.hd_error kept
  /\ last (downsample kept cap) = last kept.
Proof.
  intros sorted two big; rewrite downsample_fmap by (done || lia).
  assert (look : forall p, (p < cap)%nat -> exists a, kept !! sample_at (length kept) cap p = Some a).
  { intros p Hp; apply lookup_lt_is_Some_2, sample_at_bound; lia. }
  split_and!.
  - assert (general : forall m n, (m + n <= cap)%nat -> StronglySorted lt
      ((fun p => default 0%nat (kept !! sample_at (length kept) cap p)) <$> seq m n)); [| by apply general].
    intros m n; revert m; induction n as [|n IH]; intros m Hm; [constructor |]; cbn; constructor; [apply IH; lia |].
    apply Forall_fmap, Forall_forall; intros q Hq; apply elem_of_seq in Hq; cbn.
    destruct (look m ltac:(lia)) as [a Ha], (look q ltac:(lia)) as [b Hb]; rewrite Ha, Hb; cbn.
    eapply StronglySorted_lookup_lt; eauto; apply sample_at_lt; lia.
  - intros x Hx; apply list_elem_of_fmap in Hx as (p & -> & Hp); apply elem_of_seq in Hp.
    destruct (look p ltac:(lia)) as [a Ha]; rewrite Ha; cbn; by eapply list_elem_of_lookup_2.
  - by rewrite length_fmap, length_seq.
  - destruct cap as [|cap]; [lia |]; cbn; unfold sample_at; cbn; rewrite Nat.Div0.div_0_l by lia.
    destruct kept; [cbn in big; lia | done].
  - destruct cap as [|cap]; [lia |]; rewrite seq_S, fmap_app; cbn [fmap list_fmap plus]; rewrite last_snoc.
    unfold sample_at; replace (S cap - 1)%nat with cap by lia.
    rewrite Nat.mul_comm, Nat.div_mul by lia; rewrite last_lookup, Nat.sub_1_r.
    destruct (lookup_lt_is_Some_2 kept (pred (length kept)) ltac:(lia)) as [a Ha]; by rewrite Ha.
Qed.

Lemma canonical_rows_sorted rows : StronglySorted lt (canonical_rows rows).*1.
Proof.
  unfold canonical_rows; eapply sublist_sorted_lt with (k := (zip (seq 0 (length rows)) rows).*1).
  - generalize (zip (seq 0 (length rows)) rows) as l; induction l as [|e l IH]; cbn; [constructor |].
    destruct (negb _); cbn; [by apply sublist_skip | by apply sublist_cons].
  - rewrite fst_zip by (rewrite length_seq; lia); generalize 0%nat; generalize (length rows) as n.
    induction n as [|n IH]; intros m; cbn; constructor; [apply IH |].
    apply Forall_forall; intros x Hx; apply elem_of_seq in Hx; lia.
Qed.

Lemma elem_of_canonical rows i row :
  (i, row) ∈ canonical_rows rows <-> rows !! i = Some row /\ is_duplicate row = false.
Proof.
  unfold canonical_rows; rewrite elem_of_filter_bool; cbn; rewrite negb_true_iff.
  split; intros [Hin dup]; split; try done.
  - apply list_elem_of_lookup_1 in Hin as (k & look).
    apply lookup_zip_with_Some in look as (a & b & E & s & look); injection E as -> ->.
    apply lookup_seq in s as [-> _]; exact look.
  - apply list_elem_of_lookup_2 with (i := i), lookup_zip_with_Some; exists i, row; split_and!; [done | | done].
    apply lookup_seq; split; [done |]; by apply lookup_lt_Some in Hin.
Qed.

Lemma sorted_last_max (l : list nat) x y :
  StronglySorted lt l -> last l = Some x -> y ∈ l -> (y <= x)%nat.
Proof.
  intros sorted L Hy; apply list_elem_of_lookup in Hy as [i Hi]; rewrite last_lookup in L.
  destruct (decide (i = pred (length l))) as [-> | ne]; [rewrite Hi in L; injection L; lia |].
  pose proof (lookup_lt_Some _ _ _ Hi); pose proof (lookup_lt_Some _ _ _ L).
  pose proof (StronglySorted_lookup_lt lt l i (pred (length l)) y x sorted Hi L); lia.
Qed.

Lemma sorted_snoc (l : list nat) x :
  StronglySorted lt l -> (forall y, y ∈ l -> (y < x)%nat) -> StronglySorted lt (l ++ [x]).
Proof.
  induction 1 as [|y l sorted IH all]; intros below; cbn; [by repeat constructor |].
  constructor; [apply IH; intros z Hz; apply below; by constructor |].
  apply Forall_app; split; [done |]; constructor; [apply below; by constructor | constructor].
Qed.

Lemma with_last_ok (l canonical : list nat) :
  l `sublist_of` canonical -> StronglySorted lt canonical -> List.hd_error l = List.hd_error canonical ->
  StronglySorted lt (with_last l canonical) /\ with_last l canonical ⊆ canonical
  /\ List.hd_error (with_last l canonical) = List.hd_error canonical
  /\ last (with_last l canonical) = last canonical /\ l ⊆ with_last l canonical.
Proof.
  intros sub sorted head; pose proof (sublist_sorted_lt _ _ sub sorted) as sl.
  pose proof (sublist_subseteq _ _ sub) as incl; unfold with_last.
  destruct (last canonical) as [x|] eqn:L.
  - case_bool_decide as E; [by split_and! |].
    assert (Hx : x ∈ canonical) by (apply last_Some in L as [k ->]; apply elem_of_app; right; by constructor).
    split_and!.
    + apply sorted_snoc; [done |]; intros y Hy.
      pose proof (sorted_last_max canonical x y sorted L (incl y Hy)).
      destruct (decide (y = x)) as [-> | ne]; [| lia]; exfalso; apply E.
      destruct (last l) as [z|] eqn:Lz; [| apply last_None in Lz as ->; by apply elem_of_nil in Hy].
      pose proof (sorted_last_max l z x sl Lz Hy).
      assert (Hz : z ∈ l) by (apply last_Some in Lz as [k ->]; apply elem_of_app; right; by constructor).
      pose proof (sorted_last_max canonical x z sorted L (incl z Hz)); f_equal; lia.
    + intros y Hy; apply elem_of_app in Hy as [Hy | Hy]; [by apply incl |].
      by apply list_elem_of_singleton in Hy as ->.
    + destruct l as [|y l]; [| done]; cbn in head; symmetry in head.
      destruct canonical; [by apply elem_of_nil in Hx | discriminate].
    + by rewrite last_snoc.
    + intros y Hy; apply elem_of_app; auto.
  - apply last_None in L as ->; apply sublist_nil_r in sub as ->; by split_and!.
Qed.

Lemma representatives_ok rows :
  let canonical := (canonical_rows rows).*1 in
  StronglySorted lt (representatives rows) /\ representatives rows ⊆ canonical
  /\ List.hd_error (representatives rows) = List.hd_error canonical
  /\ last (representatives rows) = last canonical
  /\ forall i row, (i, row) ∈ canonical_rows rows -> i ∈ representatives rows
       \/ exists j before, j ∈ representatives rows /\ (j, before) ∈ canonical_rows rows
                          /\ covered_by row before.
Proof.
  intros canonical; destruct (select_loop_ok (canonical_rows rows)) as (sub & head & _ & cover).
  destruct (with_last_ok _ _ sub (canonical_rows_sorted rows) head) as (sorted & incl & hd & lst & keep).
  split_and!; auto; intros i row Hi; destruct (cover i row Hi) as [Hk | (j & b & Hj & Hb & c)].
  - left; by apply keep.
  - right; exists j, b; auto.
Qed.

(** The analysis reads at most the cap's number of canonical screens, in
    order, always the first and the last, and never a duplicate; everything
    else is elided and otherwise unchanged.  Unless the cap forces a
    downsample, an elided canonical screen repeats a selected one: the same
    application, URL and title, and either captured within two minutes of it
    or with materially the same text. *)
Theorem selection_representative rows cap :
  let kept := selected_indices rows cap in
  let canonical := (canonical_rows rows).*1 in
  StronglySorted lt kept /\ (length kept <= Nat.max cap 2)%nat
  /\ List.hd_error kept = List.hd_error canonical /\ last kept = last canonical
  /\ (forall i row, rows !! i = Some row ->
        select_finalizer_screens rows cap !! i
          = Some (set_elided row (negb (is_duplicate row) && negb (bool_decide (i ∈ kept))))
        /\ (i ∈ kept -> is_duplicate row = false))
  /\ ((length (representatives rows) <= Nat.max cap 2)%nat ->
      forall i row, rows !! i = Some row -> is_duplicate row = false ->
        i ∈ kept \/ exists j before, j ∈ kept /\ rows !! j = Some before /\ covered_by row before).
Proof.
  intros kept canonical; destruct (representatives_ok rows) as (sorted & incl & hd & lst & cover).
  assert (ends : StronglySorted lt kept /\ kept ⊆ representatives rows /\ (length kept <= Nat.max cap 2)%nat
                 /\ List.hd_error kept = List.hd_error (representatives rows)
                 /\ last kept = last (representatives rows)).
  { unfold kept, selected_indices; cbv zeta; destruct (_ <? _)%nat eqn:big; bool_prop; [| by split_and!].
    destruct (downsample_ok (representatives rows) (Nat.max cap 2) sorted) as (? & ? & len & ? & ?);
      [lia | lia |]; split_and!; try done; lia. }
  destruct ends as (ksorted & kincl & len & khd & klst); split_and!; [done | done | by rewrite khd | by rewrite klst | |].
  - intros i row look; split.
    + unfold select_finalizer_screens; rewrite list_lookup_imap, look; done.
    + intros Hi; apply kincl, incl in Hi; apply list_elem_of_fmap in Hi as ([j r] & E & Hj); cbn in E; subst j.
      apply elem_of_canonical in Hj as [look' dup]; congruence.
  - intros small i row look dup.
    assert (E : kept = representatives rows).
    { unfold kept, selected_indices; cbv zeta; destruct (_ <? _)%nat eqn:big; bool_prop; [lia | done]. }
    rewrite E; destruct (cover i row) as [Hi | (j & b & Hj & Hb & c)]; [by apply elem_of_canonical | by left |].
    right; exists j, b; apply elem_of_canonical in Hb as [? _]; auto.
Qed.
End SelectionProofs.

(** ** The bounded input *)

(** The caps the loop tries. *)
Definition tightening_caps : list nat := [40; 20; 10; 8]%nat.

Lemma render_fits `{Unicode} to_string from_str episode utterances rows candidates grounding reusable input :
  render_episode_analysis_input to_string from_str episode utterances rows candidates grounding reusable
    = Ok input -> byte_len input <= MAX_EPISODE_ANALYSIS_INPUT_BYTES.
Proof.
  unfold render_episode_analysis_input; intros E; apply result_bind_Ok in E as (rendered & _ & E).
  destruct (_ <? _) eqn:big; [discriminate |]; injection E as <-; bool_prop; lia.
Qed.

(** The loop ended after trying [tried] of [caps]: with the first input that
    fits, with the error of the last cap, or with a panic. *)
Definition rendered_with `{Unicode} to_string from_str episode utterances rows candidates reusable
    (caps tried : list nat)
    (result : option (option (res (str * list GroundingRequirement) * list FinalizationScreenshot))) : Prop :=
  let rows' := fold_left select_finalizer_screens tried rows in
  match grounding_requirements utterances rows' with
  | None => result = Some None
  | Some grounding =>
    match render_episode_analysis_input to_string from_str episode utterances rows' candidates
            grounding reusable with
    | Ok input => result = Some (Some (Ok (input, grounding), rows'))
                  /\ byte_len input <= MAX_EPISODE_ANALYSIS_INPUT_BYTES
    | Err e => tried = caps /\ result = Some (Some (Err e, rows'))
    end
  end.

(** Caps as the loop computes them, the last one at the minimum. *)
Fixpoint tightening (cap : nat) (rest : list nat) : Prop :=
  match rest with
  | [] => (cap <= MIN_FINALIZER_SCREENS)%nat
  | cap' :: rest =>
    (MIN_FINALIZER_SCREENS < cap)%nat /\ cap' = Nat.max (cap / 2) MIN_FINALIZER_SCREENS
    /\ tightening cap' rest
  end.

Lemma render_loop_S `{Unicode} to_string from_str fuel episode utterances rows candidates reusable cap :
  render_loop to_string from_str (S fuel) episode utterances rows candidates reusable cap
  = let rows := select_finalizer_screens rows cap in
    match grounding_requirements utterances rows with
    | None => Some None
    | Some grounding =>
      match render_episode_analysis_input to_string from_str episode utterances rows candidates
              grounding reusable with
      | Ok input => Some (Some (Ok (input, grounding), rows))
      | Err error =>
        if (cap <=? MIN_FINALIZER_SCREENS)%nat then Some (Some (Err error, rows))
        else render_loop to_string from_str fuel episode utterances rows candidates reusable
               (Nat.max (cap / 2) MIN_FINALIZER_SCREENS)
      end
    end.
Proof. reflexivity. Qed.

Lemma render_loop_ok `{Unicode} to_string from_str episode utterances rows candidates reusable cap rest :
  tightening cap rest ->
  exists tried, tried <> [] /\ tried `prefix_of` cap :: rest
    /\ rendered_with to_string from_str episode utterances rows candidates reusable (cap :: rest) tried
         (render_loop to_string from_str (S (length rest)) episode utterances rows candidates reusable cap).
Proof.
  revert cap rows; induction rest as [|cap' rest IH]; intros cap rows tight;
    rewrite render_loop_S; cbv zeta; set (rows1 := select_finalizer_screens rows cap);
    (destruct (grounding_requirements utterances rows1) as [grounding|] eqn:G;
      [destruct (render_episode_analysis_input to_string from_str episode utterances rows1 candidates
                   grounding reusable) as [input|e] eqn:R |]).
  1, 3, 4, 6: exists [cap]; split_and!; [done | by eexists |]; unfold rendered_with; cbn [fold_left];
    cbv zeta; fold rows1; rewrite G, ?R; try done; (split; [done | by eapply render_fits]).
  - exists [cap]; split_and!; [done | by eexists |]; unfold rendered_with; cbn [fold_left]; cbv zeta.
    fold rows1; rewrite G, R; cbn in tight; by rewrite (proj2 (Nat.leb_le _ _) tight).
  - destruct tight as (big & -> & tight); destruct (IH _ rows1 tight) as (tried & ne & pre & ok).
    exists (cap :: tried); split_and!; [done | by apply prefix_cons |].
    rewrite (proj2 (Nat.leb_gt _ _) big); unfold rendered_with in *; cbn [fold_left]; cbv zeta in *.
    fold rows1; set (rows' := fold_left select_finalizer_screens tried rows1) in *.
    destruct (grounding_requirements utterances rows') as [g|]; [| exact ok].
    destruct (render_episode_analysis_input _ _ _ _ rows' _ _ _); [exact ok |]; by destruct ok as [-> ok].
Qed.

(** The loop that fits the input under the single-call limit ends: it
    tries the caps 40, 20, 10 and 8 in turn, returns the first input that
    renders, which is within the limit and whose grounding requirements were
    computed on exactly the screens it shows, and fails only with the error of
    the tightest cap. *)
Theorem bounded_render_terminates `{Unicode} to_string from_str episode utterances rows candidates reusable :
  exists tried, tried <> [] /\ tried `prefix_of` tightening_caps
    /\ rendered_with to_string from_str episode utterances rows candidates reusable tightening_caps tried
         (render_bounded_episode_analysis to_string from_str episode utterances rows candidates reusable).
Proof.
  change tightening_caps with (MAX_FINALIZER_SCREENS :: [20; 10; 8]%nat).
  unfold render_bounded_episode_analysis; change 4%nat with (S (length [20; 10; 8]%nat)).
  apply render_loop_ok; vm_compute; lia.
Qed.

(** ** The kept timeline *)

(** Minutes in strictly increasing order inside the episode, with bounded
    gists. *)
Fixpoint minutes_within (lo hi : Z) (l : list GeminiMinuteSummary) : Prop :=
  match l with
  | [] => True
  | minute :: rest =>
    exists start, parse_epoch_millis (minute_start minute) = Some start /\ lo <= start <= hi
      /\ strict_stored_text (minute_gist minute) MAX_REUSED_GIST_CHARS = true
      /\ minutes_within (start + 1) hi rest
  end.

Lemma minutes_valid_within lo hi prior l :
  minutes_valid lo hi prior l = true ->
  minutes_within (match prior with Some p => Z.max lo (p + 1) | None => lo end) hi l.
Proof.
  revert prior; induction l as [|minute rest IH]; intros prior; [done |]; cbn [minutes_valid].
  destruct (parse_epoch_millis (minute_start minute)) as [start|] eqn:P; [| discriminate].
  intros ok; apply andb_true_iff in ok as [ok rest_ok]; apply negb_true_iff in ok.
  apply orb_false_iff in ok as [ok gist]; apply negb_false_iff in gist.
  apply orb_false_iff in ok as [ok order]; apply orb_false_iff in ok as [lo_ok hi_ok]; bool_prop.
  cbn; exists start; split_and!; [done | | lia | done |].
  - destruct prior as [p|]; cbn in order; bool_prop; lia.
  - apply IH in rest_ok; cbn in rest_ok; by rewrite Z.max_r in rest_ok by lia.
Qed.

(** A reconciled timeline is reused only when it is strict: a title,
    summary and gists without controls or padding and within their bounds, at
    most 512 minutes in strictly increasing order inside the episode, and a
    plain text that is exactly their gists.  When it is reused, finalisation
    writes the stored title, summary, minutes and text unchanged, whatever the
    model answered. *)
Theorem reused_timeline_preserved to_string minutes_to_string from_str_full from_str_reused episode timeline :
  reusable_timeline to_string episode = Some timeline ->
  (structure_state episode = lit "reconciled"
   /\ t_title timeline = fe_title episode /\ fe_summary episode = Some (t_summary timeline)
   /\ fe_minutes_text episode = Some (t_minutes_text timeline)
   /\ to_string (fe_minute_summaries episode) = Some (t_minute_summaries_json timeline)
   /\ t_minutes_text timeline = join [newline] (minute_gist <$> t_minute_summaries timeline)
   /\ (1 <= length (t_minute_summaries timeline) <= 512)%nat
   /\ exists lo hi, parse_epoch_millis (fe_started_at episode) = Some lo
        /\ parse_epoch_millis (fe_ended_at episode) = Some hi
        /\ minutes_within lo hi (t_minute_summaries timeline))
  /\ (forall response, finalized_timeline minutes_to_string response (Some timeline)
        = Ok {| f_title := fe_title episode; f_summary := t_summary timeline;
                f_minute_summaries_json := t_minute_summaries_json timeline;
                f_minutes_text := t_minutes_text timeline |})
  /\ (forall text response,
        parse_episode_analysis_response from_str_full from_str_reused text (Some timeline) = Some response ->
        r_title response = fe_title episode /\ r_summary response = t_summary timeline
        /\ r_minute_summaries response = t_minute_summaries timeline).
Proof.
  unfold reusable_timeline; destruct (str_eqb _ _) eqn:state; [| discriminate]; cbn [negb].
  apply str_eqb_eq in state.
  destruct (fe_summary episode) as [summary|]; [| discriminate].
  destruct (fe_minutes_text episode) as [minutes_text|]; [| discriminate].
  destruct (_ || _); [discriminate |].
  destruct (decode_list decode_minute _) as [l|]; [| discriminate].
  destruct (is_empty l || _) eqn:size; [discriminate |]; apply orb_false_iff in size as [ne size].
  destruct (parse_epoch_millis (fe_started_at episode)) as [lo|]; [| discriminate].
  destruct (parse_epoch_millis (fe_ended_at episode)) as [hi|]; [| discriminate].
  destruct (minutes_valid lo hi None l) eqn:valid; [| discriminate]; cbn [negb].
  destruct (str_eqb (join _ _) _) eqn:mirror; [| discriminate]; cbn [negb]; apply str_eqb_eq in mirror.
  destruct (to_string (fe_minute_summaries episode)) as [json|]; [| discriminate].
  intros E; injection E as <-; cbn; apply is_empty_false in ne.
  split_and!; try done.
  - destruct l; [done | cbn; lia].
  - bool_prop; unfold MAX_REUSED_MINUTES in size; lia.
  - exists lo, hi; split_and!; [done | done |]; by apply (minutes_valid_within lo hi None).
  - intros text response; destruct (from_str_reused text); [| discriminate]; intros E; by injection E as <-.
Qed.

(** ** The ranking *)

Lemma insert_stable {A} (key : A -> Z) (R : A -> A -> Prop) x l :
  StronglySorted (fun a b => key a < key b \/ key a = key b /\ R a b) l -> Forall (R x) l ->
  StronglySorted (fun a b => key a < key b \/ key a = key b /\ R a b) (insert_sorted (on_key key) x l).
Proof.
  induction 1 as [|y l sorted IH all]; intros after; cbn [insert_sorted]; [by repeat constructor |].
  apply Forall_cons_1 in after as [Rxy after]; unfold on_key at 1.
  destruct (ord_leb (key x) (key y)) eqn:le.
  - assert (key x <= key y).
    { apply ord_leb_cases in le as [-> | lt]; [lia |]; apply Z.lt_le_incl, Z.compare_lt_iff, lt. }
    constructor; [by constructor |]; constructor; [destruct (decide (key x = key y)); [right; auto | left; lia] |].
    apply Forall_forall; intros z Hz; rewrite Forall_forall in all, after.
    specialize (all z Hz); specialize (after z Hz); destruct (decide (key x = key z)); [right; auto | left; lia].
  - apply ord_leb_false_lt, Z.compare_lt_iff in le; constructor; [by apply IH |].
    apply Forall_forall; intros z Hz.
    rewrite (insert_sorted_perm (on_key key) x l) in Hz; apply elem_of_cons in Hz as [-> | Hz]; [by left |].
    rewrite Forall_forall in all; by apply all.
Qed.

(** Sorting by a key keeps the order of equal keys. *)
Lemma sort_by_key_stable {A} (key : A -> Z) (R : A -> A -> Prop) l :
  StronglySorted R l ->
  StronglySorted (fun a b => key a < key b \/ key a = key b /\ R a b) (sort_by_key key l).
Proof.
  induction 1 as [|x l sorted IH all]; [constructor |].
  change (sort_by_key key (x :: l)) with (insert_sorted (on_key key) x (sort_by_key key l)).
  apply insert_stable; [exact IH |]; rewrite Forall_forall in *; intros y Hy; apply all.
  unfold sort_by_key in Hy; by apply elem_of_sort_by in Hy.
Qed.

Lemma row_id_inj row row' : row_id row = row_id row' -> fs_id row = fs_id row'.
Proof. unfold row_id; intros E; apply app_inv_head in E; by apply dec_inj. Qed.

Lemma validate_screens_ok expected seen outputs :
  bset_wf seen -> validate_screens expected seen outputs = Ok tt ->
  NoDup (screen_id <$> outputs) /\ (screen_id <$> outputs) ⊆ expected
  /\ (forall x, x ∈ screen_id <$> outputs -> x ∉ (seen : list str))
  /\ Forall (fun output => output_valid output = true) outputs.
Proof.
  revert seen; induction outputs as [|output rest IH]; intros seen wf; cbn [validate_screens].
  { intros _; split_and!; [constructor | intros x Hx; by apply elem_of_nil in Hx .. | constructor]. }
  case_bool_decide as known; cbn [negb]; [| discriminate].
  destruct (bset_mem _ _) eqn:mem; [discriminate |]; destruct (output_valid output) eqn:valid; [| discriminate].
  intros E; cbn [negb] in E; destruct (IH _ (bset_add_wf _ _ wf) E) as (nd & incl & out & ok).
  assert (new : screen_id output ∉ (seen : list str)).
  { intros Hin; apply (bset_mem_spec _ _ wf) in Hin; congruence. }
  rewrite fmap_cons; split_and!.
  - constructor; [| done]; intros Hin; apply (out _ Hin), elem_of_bset_add; auto.
  - intros x Hx; apply elem_of_cons in Hx as [-> | Hx]; [done | by apply incl].
  - intros x Hx; apply elem_of_cons in Hx as [-> | Hx]; [done |].
    intros Hs; apply (out x Hx), elem_of_bset_add; auto.
  - by constructor.
Qed.

Lemma validate_screens_errors expected seen outputs e :
  validate_screens expected seen outputs = Err e ->
  e ∈ ["incomplete_screen_coverage"; "unknown_screen_id"; "duplicate_screen_id"; "invalid_screen_output"]%string.
Proof.
  revert seen; induction outputs as [|output rest IH]; intros seen; cbn [validate_screens]; [done |].
  destruct (negb _); [intros [= <-]; set_solver |]; destruct (bset_mem _ _); [intros [= <-]; set_solver |].
  destruct (negb _); [intros [= <-]; set_solver | apply IH].
Qed.

(** With distinct rows every row has its output. *)
Lemma outputs_cover rows outputs :
  NoDup (fs_id <$> rows) -> length outputs = length rows ->
  validate_screens (row_id <$> rows) [] outputs = Ok tt ->
  forall row, row ∈ rows -> is_Some (output_of outputs row).
Proof.
  intros nd len ok row Hrow; apply validate_screens_ok in ok as (nd' & incl & _); [| constructor].
  assert (perm : Permutation (screen_id <$> outputs) (row_id <$> rows)).
  { apply submseteq_length_Permutation; [by apply NoDup_submseteq |]; rewrite !length_fmap; lia. }
  unfold output_of; apply bget_is_Some; [apply bfrom_list_wf |]; apply bkeys_bfrom_list.
  rewrite <- list_fmap_compose; change (row_id row ∈ screen_id <$> outputs); rewrite perm.
  by apply list_elem_of_fmap_2.
Qed.

Lemma output_of_elem outputs row output :
  NoDup (screen_id <$> outputs) ->
  output_of outputs row = Some output <-> output ∈ outputs /\ screen_id output = row_id row.
Proof.
  intros nd; unfold output_of; rewrite bget_bfrom_list_NoDup by (by rewrite <- list_fmap_compose).
  rewrite list_elem_of_fmap; split.
  - intros (o & E & Hin); by injection E as -> ->.
  - intros [Hin <-]; by exists output.
Qed.

(** A list with its positions. *)
Lemma elem_of_indexed {A} (l : list A) i x : (i, x) ∈ zip (seq 0 (length l)) l <-> l !! i = Some x.
Proof.
  rewrite list_elem_of_lookup; split.
  - intros [k look]; apply lookup_zip_with_Some in look as (a & b & E & s & look); injection E as -> ->.
    apply lookup_seq in s as [-> _]; by rewrite Nat.add_0_l.
  - intros look; exists i; apply lookup_zip_with_Some; exists i, x; split_and!; [done | | done].
    apply lookup_seq; split; [done | by eapply lookup_lt_Some].
Qed.

Lemma indexed_sorted {A} (P : nat * A -> bool) (l : list A) :
  StronglySorted (fun a b => (a.1 < b.1)%nat) (List.filter P (zip (seq 0 (length l)) l)).
Proof.
  generalize 0%nat; induction l as [|x l IH]; intros start; cbn [length seq zip_with List.filter]; [constructor |].
  assert (above : Forall (fun e => (start < e.1)%nat) (List.filter P (zip (seq (S start) (length l)) l))).
  { apply Forall_forall; intros [i y] Hin; apply elem_of_filter_bool in Hin as [Hin _].
    apply list_elem_of_lookup_1 in Hin as [k look].
    apply lookup_zip_with_Some in look as (a & b & E & s & look); injection E as -> ->.
    apply lookup_seq in s as [-> _]; cbn; lia. }
  destruct (P (start, x)); [by constructor | done].
Qed.

(** ** The keys and their ranks *)

Lemma key_indices_spec ranked i :
  i ∈ key_indices ranked <-> exists item, ranked !! i = Some item /\ is_key_screen item = true.
Proof.
  unfold key_indices, sort_by_key; rewrite list_elem_of_fmap; split.
  - intros ([k item] & -> & Hin); apply elem_of_sort_by, elem_of_filter_bool in Hin as [Hin key].
    apply elem_of_indexed in Hin; eauto.
  - intros (item & look & key); exists (i, item); split; [done |].
    apply elem_of_sort_by, elem_of_filter_bool; split; [by apply elem_of_indexed | done].
Qed.

(** A screen that ranks before another: a higher score, or the same score and
    an earlier screen. *)
Definition ranks_before (a b : nat * RankedScreenAnalysis) : Prop :=
  base_score b.2 < base_score a.2 \/ base_score a.2 = base_score b.2 /\ (a.1 < b.1)%nat.

Lemma key_indices_sorted ranked p q i j a b :
  (p < q)%nat -> key_indices ranked !! p = Some i -> key_indices ranked !! q = Some j ->
  ranked !! i = Some a -> ranked !! j = Some b -> ranks_before (i, a) (j, b).
Proof.
  unfold key_indices; set (l := List.filter _ _); intros lt Hp Hq Ha Hb.
  pose proof (sort_by_key_stable (fun entry => - base_score entry.2) _ l (indexed_sorted _ ranked)) as sorted.
  assert (item : forall k e r, (fst <$> sort_by_key (fun entry => - base_score entry.2) l) !! k = Some e ->
      ranked !! e = Some r -> sort_by_key (fun entry => - base_score entry.2) l !! k = Some (e, r)).
  { intros k e r look Hr; rewrite list_lookup_fmap in look.
    destruct (sort_by_key _ l !! k) as [[e' r']|] eqn:E; [| discriminate]; injection look as ->.
    assert (Hin : (e, r') ∈ sort_by_key (fun entry => - base_score entry.2) l).
    { by apply list_elem_of_lookup_2 in E. }
    unfold sort_by_key in Hin; apply elem_of_sort_by, elem_of_filter_bool in Hin as [Hin _].
    apply elem_of_indexed in Hin; congruence. }
  apply (StronglySorted_lookup_lt _ _ p q (i, a) (j, b)) in sorted; [| eauto | eauto | done].
  unfold ranks_before; cbn in *; destruct sorted as [|[]]; [left | right]; split_and?; lia.
Qed.

Lemma key_indices_NoDup ranked : NoDup (key_indices ranked).
Proof.
  unfold key_indices, sort_by_key; set (l := List.filter _ _).
  rewrite (sort_by_perm (on_key (fun entry => - base_score entry.2)) l); subst l.
  pose proof (indexed_sorted (fun entry => is_key_screen entry.2) ranked) as sorted.
  apply sorted_lt_NoDup; eapply StronglySorted_fmap; [| exact sorted]; done.
Qed.

(** The screen after the loop, by its position among the keys. *)
Definition ranked_at (position : option nat) (item : RankedScreenAnalysis) : RankedScreenAnalysis :=
  match position with
  | Some p => if (p <? MAX_KEY_SCREENS_PER_EPISODE)%nat then mark_key item (Some (Z.of_nat p + 1)) (is_key_screen item)
              else mark_key item (key_rank item) false
  | None => item
  end.

Lemma assign_ranks_lookup keys ranked start :
  NoDup keys ->
  (forall p i, keys !! p = Some i ->
     fold_left assign_rank (zip (seq start (length keys)) keys) ranked !! i
     = ranked_at (Some (start + p)%nat) <$> ranked !! i)
  /\ (forall i, i ∉ keys ->
     fold_left assign_rank (zip (seq start (length keys)) keys) ranked !! i = ranked !! i).
Proof.
  revert start ranked; induction keys as [|k keys IH]; intros start ranked nd; [done |].
  apply NoDup_cons in nd as [new nd]; cbn [length seq zip_with fold_left].
  destruct (IH (S start) (assign_rank ranked (start, k)) nd) as [at_ out]; split.
  - intros [|p] i look; cbn in look.
    + injection look as ->; rewrite out by done; unfold assign_rank; rewrite list_lookup_alter_eq.
      by rewrite Nat.add_0_r.
    + rewrite (at_ p i look); unfold assign_rank; rewrite list_lookup_alter_ne.
      * by replace (start + S p)%nat with (S start + p)%nat by lia.
      * intros <-; by apply list_elem_of_lookup_2 in look.
  - intros i Hi; apply not_elem_of_cons in Hi as [ne Hi]; rewrite out by done.
    by unfold assign_rank; rewrite list_lookup_alter_ne by congruence.
Qed.

Lemma rank_keys_lookup ranked i :
  (exists p, key_indices ranked !! p = Some i /\ rank_keys ranked !! i = ranked_at (Some p) <$> ranked !! i)
  \/ i ∉ key_indices ranked /\ rank_keys ranked !! i = ranked !! i.
Proof.
  unfold rank_keys; destruct (assign_ranks_lookup (key_indices ranked) ranked 0 (key_indices_NoDup ranked)) as [at_ out].
  destruct (decide (i ∈ key_indices ranked)) as [Hi|]; [left | right; split; auto].
  apply list_elem_of_lookup_1 in Hi as [p look]; exists p; split; [done |]; by rewrite (at_ p i look).
Qed.

Lemma fold_assign_length l ranked : length (fold_left assign_rank l ranked) = length ranked.
Proof.
  revert ranked; induction l as [|[p k] l IH]; intros ranked; [done |]; cbn [fold_left]; rewrite IH.
  apply length_alter.
Qed.

Definition has_rank (ranked : list RankedScreenAnalysis) (i : nat) (item : RankedScreenAnalysis) (r : Z) : Prop :=
  ranked !! i = Some item /\ key_rank item = Some r.

(** The key screens are exactly the ranked ones; the ranks are 1, 2, ... up to
    at most 8, each held once, the better screen first. *)
Definition well_ranked (ranked : list RankedScreenAnalysis) : Prop :=
  (forall i item, ranked !! i = Some item -> (is_key_screen item = true <-> is_Some (key_rank item)))
  /\ (forall i item r, has_rank ranked i item r ->
        1 <= r <= 8 /\ forall r', 1 <= r' <= r -> exists j b, has_rank ranked j b r')
  /\ (forall i j a b r s, has_rank ranked i a r -> has_rank ranked j b s ->
        (r = s -> i = j) /\ (r < s -> ranks_before (i, a) (j, b))).

(** A candidate is ranked, or the eight ranks went to better screens. *)
Definition ranked_or_outranked (ranked : list RankedScreenAnalysis) (i : nat) (item : RankedScreenAnalysis) : Prop :=
  (exists item' r, has_rank ranked i item' r)
  \/ forall r, 1 <= r <= 8 -> exists j b, has_rank ranked j b r /\ ranks_before (j, b) (i, item).

Section RankKeys.
Context (ranked : list RankedScreenAnalysis).
Hypothesis unranked : forall i item, ranked !! i = Some item -> key_rank item = None.

Lemma rank_keys_rank i item r :
  has_rank (rank_keys ranked) i item r ->
  exists p before, r = Z.of_nat p + 1 /\ (p < 8)%nat /\ key_indices ranked !! p = Some i
    /\ ranked !! i = Some before /\ is_key_screen before = true /\ item = mark_key before (Some r) true.
Proof.
  intros [look rank]; destruct (rank_keys_lookup ranked i) as [(p & Hp & E) | [_ E]]; rewrite E in look.
  - destruct (ranked !! i) as [before|] eqn:B; [| discriminate]; injection look as <-; exists p, before.
    assert (key : is_key_screen before = true).
    { apply list_elem_of_lookup_2, key_indices_spec in Hp as (b & look & ?); congruence. }
    unfold ranked_at in *; change MAX_KEY_SCREENS_PER_EPISODE with 8%nat in *.
    destruct (p <? 8)%nat eqn:lt; cbn in rank; bool_prop.
    + injection rank as <-; rewrite key; split_and!; try done; lia.
    + rewrite (unranked _ _ B) in rank; discriminate.
  - rewrite (unranked _ _ look) in rank; discriminate.
Qed.

Lemma rank_keys_has p i :
  key_indices ranked !! p = Some i -> (p < 8)%nat ->
  exists item before, has_rank (rank_keys ranked) i item (Z.of_nat p + 1)
    /\ ranked !! i = Some before /\ base_score item = base_score before.
Proof.
  intros Hp lt; destruct (rank_keys_lookup ranked i) as [(q & Hq & E) | [out _]].
  - assert (q = p) as -> by (eapply NoDup_lookup; eauto using key_indices_NoDup).
    apply list_elem_of_lookup_2, key_indices_spec in Hp as (before & look & _).
    exists (mark_key before (Some (Z.of_nat p + 1)) (is_key_screen before)), before.
    split; [split; [| done] | by split]; rewrite E, look; unfold ranked_at; change MAX_KEY_SCREENS_PER_EPISODE with 8%nat.
    by rewrite (proj2 (Nat.ltb_lt _ _) lt).
  - by apply list_elem_of_lookup_2 in Hp.
Qed.

Lemma rank_keys_well : well_ranked (rank_keys ranked).
Proof.
  split_and!.
  - intros i item look; destruct (rank_keys_lookup ranked i) as [(p & Hp & E) | [out E]]; rewrite E in look.
    + apply list_elem_of_lookup_2, key_indices_spec in Hp as (before & B & key).
      rewrite B in look; injection look as <-; unfold ranked_at; destruct (_ <? _)%nat; cbn; split; try done.
      rewrite (unranked _ _ B); by intros [].
    + rewrite (unranked _ _ look); split; [| by intros []]; intros key; destruct out.
      apply key_indices_spec; eauto.
  - intros i item r rank; apply rank_keys_rank in rank as (p & before & -> & lt & Hp & _); split; [lia |].
    intros r' bound; assert (small : (Z.to_nat (r' - 1) < length (key_indices ranked))%nat).
    { apply lookup_lt_Some in Hp; lia. }
    apply lookup_lt_is_Some in small as [j Hj].
    destruct (rank_keys_has _ _ Hj) as (b & before' & rank & _); [lia |]; exists j, b.
    by replace (Z.of_nat _ + 1) with r' in rank by lia.
  - intros i j a b r s Ha Hb; apply rank_keys_rank in Ha as (p & a0 & -> & lt & Hp & La & _ & ->).
    apply rank_keys_rank in Hb as (q & b0 & -> & lt' & Hq & Lb & _ & ->); split; intros cmp.
    + assert (p = q) as -> by lia; congruence.
    + apply (key_indices_sorted ranked p q i j a0 b0) in Hp; [exact Hp | lia | done ..].
Qed.

Lemma rank_keys_keeps i item :
  ranked !! i = Some item -> is_key_screen item = true -> ranked_or_outranked (rank_keys ranked) i item.
Proof.
  intros look key; assert (Hi : i ∈ key_indices ranked) by (apply key_indices_spec; eauto).
  apply list_elem_of_lookup_1 in Hi as [p Hp]; destruct (decide (p < 8)%nat) as [lt|ge].
  - left; destruct (rank_keys_has p i Hp lt) as (item' & _ & rank & _); eauto.
  - right; intros r bound.
    assert (small : (Z.to_nat (r - 1) < length (key_indices ranked))%nat) by (apply lookup_lt_Some in Hp; lia).
    apply lookup_lt_is_Some in small as [j Hj].
    destruct (rank_keys_has _ _ Hj) as (b & before & rank & B & same); [lia |].
    exists j, b; replace (Z.of_nat _ + 1) with r in rank by lia; split; [done |].
    pose proof (key_indices_sorted ranked (Z.to_nat (r - 1)) p j i before item ltac:(lia) Hj Hp B look) as before_i.
    unfold ranks_before in *; cbn in *; by rewrite same.
Qed.
End RankKeys.

(** ** The promotion *)

Lemma best_index_is_Some ranked :
  (exists item, item ∈ ranked /\ 0 < k_relevance_level item) ->
  exists i item, best_index ranked = Some i /\ ranked !! i = Some item.
Proof.
  intros (item & Hin & relevant); unfold best_index; set (l := List.filter _ _).
  destruct (max_by _ l) as [[i best]|] eqn:M.
  - exists i, best; split; [done |]; apply max_by_elem in M; unfold l in M.
    apply elem_of_filter_bool in M as [M _]; by apply elem_of_indexed.
  - apply max_by_None in M; apply list_elem_of_lookup_1 in Hin as [k look].
    assert (Hk : (k, item) ∈ l) by (apply elem_of_filter_bool; split; [by apply elem_of_indexed | cbn; lia]).
    rewrite M in Hk; by apply elem_of_nil in Hk.
Qed.

Lemma promote_best_lookup ranked i item :
  promote_best ranked !! i = Some item ->
  exists before, ranked !! i = Some before /\ key_rank item = key_rank before
    /\ screenshot_id item = screenshot_id before /\ base_score item = base_score before.
Proof.
  unfold promote_best; destruct (existsb _ _); [eauto 10 |]; destruct (best_index ranked) as [k|]; [| eauto 10].
  intros look; destruct (decide (k = i)) as [-> | ne].
  - rewrite list_lookup_alter_eq in look; destruct (ranked !! i) as [before|]; [| discriminate].
    injection look as <-; eauto 10.
  - rewrite list_lookup_alter_ne in look by done; eauto 10.
Qed.

Lemma promote_best_key ranked :
  (exists item, item ∈ ranked /\ 0 < k_relevance_level item) ->
  exists i item, promote_best ranked !! i = Some item /\ is_key_screen item = true.
Proof.
  intros relevant; unfold promote_best; destruct (existsb is_key_screen ranked) eqn:E.
  - apply existsb_Exists in E as (item & Hin & key); apply list_elem_of_lookup_1 in Hin as [i look]; eauto.
  - destruct (best_index_is_Some ranked relevant) as (i & item & -> & look).
    exists i, (mark_key item (key_rank item) true); by rewrite list_lookup_alter_eq, look.
Qed.

Lemma promote_best_keeps ranked i item :
  ranked !! i = Some item -> is_key_screen item = true -> promote_best ranked = ranked.
Proof.
  intros look key; unfold promote_best; assert (existsb is_key_screen ranked = true) as ->; [| done].
  apply existsb_Exists; exists item; split; [by eapply list_elem_of_lookup_2 | done].
Qed.

Lemma promote_best_length ranked : length (promote_best ranked) = length ranked.
Proof.
  unfold promote_best; destruct (existsb _ _); [done |]; destruct (best_index _); [apply length_alter | done].
Qed.

Lemma ranked_first ranked i item :
  (forall i item, ranked !! i = Some item -> key_rank item = None) ->
  ranked !! i = Some item -> is_key_screen item = true -> exists j b, has_rank (rank_keys ranked) j b 1.
Proof.
  intros unranked look key; assert (Hi : i ∈ key_indices ranked) by (apply key_indices_spec; eauto).
  destruct (key_indices ranked) as [|j keys] eqn:K; [by apply elem_of_nil in Hi |].
  destruct (rank_keys_has ranked 0 j) as (b & _ & rank & _); [by rewrite K | lia | eauto].
Qed.

Lemma rank_keys_item ranked i item :
  rank_keys ranked !! i = Some item ->
  exists before, ranked !! i = Some before /\ screenshot_id item = screenshot_id before
                 /\ base_score item = base_score before.
Proof.
  intros look; destruct (rank_keys_lookup ranked i) as [(p & _ & E) | [_ E]]; rewrite E in look; [| eauto].
  destruct (ranked !! i) as [before|]; [| discriminate]; exists before; injection look as <-.
  by unfold ranked_at; destruct (_ <? _)%nat.
Qed.

(** From the rows and their outputs to the ranked screens. *)
Lemma ranked_rows_ok sha256 input_to_string items_to_string value_display outputs rows ranked :
  mapM (fun row => rank_row sha256 input_to_string items_to_string value_display row <$> output_of outputs row) rows
    = Some ranked ->
  length ranked = length rows
  /\ forall i row, rows !! i = Some row -> exists output,
       output_of outputs row = Some output
       /\ ranked !! i = Some (rank_row sha256 input_to_string items_to_string value_display row output).
Proof.
  intros M; apply mapM_Some_1 in M; split; [symmetry; by eapply Forall2_length |].
  intros i row look; destruct (Forall2_lookup_l _ _ _ _ _ M look) as (item & Hi & E).
  destruct (output_of outputs row) as [output|]; [| discriminate]; injection E as <-; eauto.
Qed.

(** The answer to a validated response: the shown screens in order, scored
    within 0 and 100 and well ranked; the model's strong candidates are ranked
    or outranked; a relevant screen makes a first rank. *)
Definition ranks_the_screens (screenshots : list FinalizationScreenshot) (outputs : list GeminiScreenAnalysis)
    (ranked : list RankedScreenAnalysis) : Prop :=
  screenshot_id <$> ranked = fs_id <$> List.filter shown screenshots
  /\ Forall (fun output => output_valid output = true) outputs
  /\ (forall i item, ranked !! i = Some item -> 0 <= base_score item <= 100)
  /\ well_ranked ranked
  /\ (forall i row output, List.filter shown screenshots !! i = Some row -> output ∈ outputs ->
        screen_id output = row_id row -> key_screen output = true -> 40 <= screen_score row output ->
        exists item, ranked !! i = Some item /\ ranked_or_outranked ranked i item)
  /\ ((exists output, output ∈ outputs /\ 0 < relevance_level output) ->
        exists i item, has_rank ranked i item 1).

Section RanksTheScreens.
Context (sha256 : bytes -> bytes) (input_to_string : ScreenObservationInput -> option str).
Context (items_to_string : list str -> option str) (value_display : Value -> str).
Let row_of := rank_row sha256 input_to_string items_to_string value_display.
Context (outputs : list GeminiScreenAnalysis) (rows : list FinalizationScreenshot) (ranked : list RankedScreenAnalysis).
Hypothesis nd : NoDup (screen_id <$> outputs).
Hypothesis M : mapM (fun row => row_of row <$> output_of outputs row) rows = Some ranked.

Lemma ranked_back i item :
  ranked !! i = Some item -> exists row output, rows !! i = Some row /\ item = row_of row output.
Proof.
  intros look; destruct (ranked_rows_ok _ _ _ _ _ _ _ M) as [len at_].
  pose proof (lookup_lt_Some _ _ _ look) as lt; rewrite len in lt.
  apply lookup_lt_is_Some in lt as [row Hrow]; destruct (at_ i row Hrow) as (output & _ & E).
  exists row, output; split; [done |]; fold row_of in E; congruence.
Qed.

Lemma promoted_unranked i item : promote_best ranked !! i = Some item -> key_rank item = None.
Proof.
  intros look; apply promote_best_lookup in look as (before & look & -> & _).
  by apply ranked_back in look as (? & ? & _ & ->).
Qed.

Lemma ranked_trace i item :
  rank_keys (promote_best ranked) !! i = Some item ->
  exists row output, rows !! i = Some row /\ screenshot_id item = fs_id row
    /\ base_score item = Z.max 0 (Z.min 100 (screen_score row output)).
Proof.
  intros look; apply rank_keys_item in look as (before & look & -> & ->).
  apply promote_best_lookup in look as (before' & look & _ & -> & ->).
  apply ranked_back in look as (row & output & Hrow & ->); eauto.
Qed.

Lemma ranked_ids : screenshot_id <$> rank_keys (promote_best ranked) = fs_id <$> rows.
Proof.
  apply list_eq; intros i; rewrite !list_lookup_fmap; destruct (rank_keys _ !! i) as [item|] eqn:look.
  - destruct (ranked_trace i item look) as (row & output & -> & E & _); cbn; by rewrite E.
  - apply lookup_ge_None in look; unfold rank_keys in look; rewrite fold_assign_length, promote_best_length in look.
    rewrite (proj1 (ranked_rows_ok _ _ _ _ _ _ _ M)) in look; by rewrite (proj2 (lookup_ge_None _ _) look).
Qed.

Lemma row_output i row output :
  rows !! i = Some row -> output ∈ outputs -> screen_id output = row_id row ->
  ranked !! i = Some (row_of row output).
Proof.
  intros Hrow Hout id; destruct (proj2 (ranked_rows_ok _ _ _ _ _ _ _ M) i row Hrow) as (output' & O & look).
  by rewrite (proj2 (output_of_elem outputs row output nd)) in O; [injection O as -> |].
Qed.

Lemma candidate_ranked i row output :
  rows !! i = Some row -> output ∈ outputs -> screen_id output = row_id row ->
  key_screen output = true -> 40 <= screen_score row output ->
  exists item, rank_keys (promote_best ranked) !! i = Some item
    /\ ranked_or_outranked (rank_keys (promote_best ranked)) i item.
Proof.
  intros Hrow Hout id key strong; pose proof (row_output i row output Hrow Hout id) as look.
  set (item := row_of row output) in *.
  assert (candidate : is_key_screen item = true) by (cbn; rewrite key; apply Z.leb_le, strong).
  pose proof promoted_unranked as unranked; rewrite (promote_best_keeps _ _ _ look candidate) in *.
  assert (alive : is_Some (rank_keys ranked !! i)).
  { apply lookup_lt_is_Some; unfold rank_keys; rewrite fold_assign_length; by eapply lookup_lt_Some. }
  destruct alive as [item' look']; exists item'; split; [done |].
  destruct (rank_keys_keeps ranked i item look candidate) as [|outranked]; [by left | right].
  apply rank_keys_item in look' as (before & Hb & _ & same); assert (before = item) as -> by congruence.
  intros r bound; destruct (outranked r bound) as (j & b & rank & before); exists j, b; split; [done |].
  unfold ranks_before in *; cbn in *; by rewrite same.
Qed.

Lemma relevant_first output :
  (screen_id <$> outputs) ⊆ (row_id <$> rows) -> output ∈ outputs -> 0 < relevance_level output ->
  exists i item, has_rank (rank_keys (promote_best ranked)) i item 1.
Proof.
  intros incl Hout relevant.
  assert (Hid : screen_id output ∈ row_id <$> rows) by (by apply incl, list_elem_of_fmap_2).
  apply list_elem_of_fmap in Hid as (row & id & Hrow); apply list_elem_of_lookup_1 in Hrow as [i Hrow].
  pose proof (row_output i row output Hrow Hout id) as look.
  destruct (promote_best_key ranked) as (k & item & Hk & key).
  { eexists; split; [by eapply list_elem_of_lookup_2 | exact relevant]. }
  eapply ranked_first; [apply promoted_unranked | exact Hk | exact key].
Qed.
End RanksTheScreens.

(** Validating and ranking never panics, and a response is refused unless
    it has exactly one valid output per shown screen.  An accepted response
    ranks exactly the shown screens, in their order and with scores within 0
    and 100: the key screens are those with a rank, the ranks are 1, 2, ... up
    to at most 8, each held once and given by score and then by order; a
    screen the model marks key with a score of at least 40 has a rank unless
    the eight ranks went to better screens; and when any screen is relevant
    there is a first rank. *)
Theorem ranking_sound sha256 input_to_string items_to_string value_display response screenshots :
  NoDup (fs_id <$> List.filter shown screenshots) ->
  match validate_and_rank_screens sha256 input_to_string items_to_string value_display response screenshots with
  | None => False
  | Some (Err e) =>
    e ∈ ["incomplete_screen_coverage"; "unknown_screen_id"; "duplicate_screen_id"; "invalid_screen_output"]%string
  | Some (Ok ranked) =>
    Permutation (screen_id <$> screens response) (row_id <$> List.filter shown screenshots)
    /\ ranks_the_screens screenshots (screens response) ranked
  end.
Proof.
  intros distinct; unfold validate_and_rank_screens; cbv zeta; set (rows := List.filter shown screenshots) in *.
  destruct (length _ =? length _)%nat eqn:len; cbn [negb]; [| by left]; bool_prop.
  destruct (validate_screens _ _ _) as [[]|e] eqn:V; [| by eapply validate_screens_errors].
  pose proof (outputs_cover rows (screens response) distinct len V) as cover.
  apply validate_screens_ok in V as (nd & incl & _ & valid); [| constructor].
  destruct (mapM _ rows) as [ranked|] eqn:M.
  - split.
    { apply submseteq_length_Permutation; [by apply NoDup_submseteq |]; rewrite !length_fmap; lia. }
    unfold ranks_the_screens; fold rows; split_and!.
    + by eapply ranked_ids.
    + exact valid.
    + intros i item look; eapply ranked_trace in look as (? & ? & _ & _ & ->); [lia | exact M].
    + apply rank_keys_well; by eapply promoted_unranked.
    + intros i row output; by eapply candidate_ranked.
    + intros (output & Hout & relevant); by eapply relevant_first.
  - apply mapM_None_1, Exists_exists in M as (row & Hrow & E).
    by destruct (cover row Hrow) as [output O]; rewrite O in E.
Qed.

(** ** Witnesses *)

Definition sample_screen (id : Z) (app : string) : FinalizationScreenshot :=
  {| fs_id := id; fs_captured_at := lit "2026-01-01T10:00:00Z"; captured_at_ms := 1767261600000 + id * 1000;
     fs_active_app := Some (lit app); fs_window_title := None; fs_url := None; fs_ocr_text := None;
     fs_salient_ocr_text := None; is_duplicate := false; elided := false; source_key := lit "k";
     capture_status := lit "stable"; visible_until := None; display_id := None; primary_bundle_id := None;
     visible_windows := Null; browser_context := Null; visual_signals := Null |}.

Definition sample_output (id : string) (relevance : Z) (key : bool) : GeminiScreenAnalysis :=
  {| screen_id := lit id; literal_description := lit "A window."; screen_state := lit "content";
     content_type := lit "code"; visible_text_summary := None; notable_items := []; activity_summary := None;
     relevance_level := relevance; relevance_reason := lit "shown"; milestone_type := lit "none";
     key_screen := key |}.

Definition sample_response : GeminiEpisodeAnalysisResponse :=
  {| r_title := lit "t"; r_summary := lit "s"; r_minute_summaries := []; overview := lit "o"; sections := None;
     decisions := []; r_action_items := []; important_links := []; open_questions := [];
     screens := [sample_output "S2" 3 true; sample_output "S1" 1 false; sample_output "S3" 3 true] |}.

Definition sample_screens : list FinalizationScreenshot :=
  [sample_screen 1 "Mail"; sample_screen 2 "Code"; sample_screen 3 "Terminal"].

(** Two keys of equal score rank in screen order; the third is not a key. *)
Lemma ranking_sound_witness :
  match validate_and_rank_screens (fun b => b) (fun _ => None) (fun _ => None) (fun _ => []) sample_response
          sample_screens with
  | Some (Ok ranked) => (key_rank <$> ranked) = [None; Some 1; Some 2]
                        /\ ranks_the_screens sample_screens (screens sample_response) ranked
  | _ => False
  end.
Proof.
  pose proof (ranking_sound (fun b => b) (fun _ => None) (fun _ => None) (fun _ => []) sample_response
                sample_screens ltac:(by apply (bool_decide_unpack _); vm_compute)) as sound.
  destruct (validate_and_rank_screens _ _ _ _ _ _) as [[ranked|e]|] eqn:E.
  - split; [| exact (proj2 sound)]; vm_compute in E; injection E as <-; reflexivity.
  - vm_compute in E; discriminate E.
  - exact sound.
Defined.

Definition sample_minutes : Value :=
  VArray [object [("start", VString (lit "2026-01-01T10:00:00Z")); ("gist", VString (lit "Opened mail"))];
          object [("start", VString (lit "2026-01-01T10:01:00Z")); ("gist", VString (lit "Wrote a reply"))]]%string.

Definition sample_episode : FinalizationEpisode :=
  {| fe_id := 7; fe_started_at := lit "2026-01-01T10:00:00Z"; fe_ended_at := lit "2026-01-01T10:05:00Z";
     fe_episode_type := None; fe_title := lit "Morning mail"; fe_summary := Some (lit "Replied to mail");
     fe_participants := None; fe_languages := None; fe_action_items := None;
     structure_state := lit "reconciled"; fe_minute_summaries := sample_minutes;
     fe_minutes_text := Some (lit "Opened mail" ++ newline :: lit "Wrote a reply") |}.

Lemma reused_timeline_preserved_witness :
  exists timeline, reusable_timeline (fun _ => Some (lit "[]")) sample_episode = Some timeline
    /\ forall response, finalized_timeline (fun _ => None) response (Some timeline)
         = Ok {| f_title := lit "Morning mail"; f_summary := t_summary timeline;
                 f_minute_summaries_json := t_minute_summaries_json timeline;
                 f_minutes_text := t_minutes_text timeline |}.
Proof.
  destruct (reusable_timeline (fun _ => Some (lit "[]")) sample_episode) as [timeline|] eqn:E;
    [exists timeline; split; [done |] | vm_compute in E; discriminate E].
  exact (proj1 (proj2 (reused_timeline_preserved (fun _ => Some (lit "[]")) (fun _ => None) (fun _ => None)
                         (fun _ => None) sample_episode timeline E))).
Defined.

