(* ===== verification/CaptureManifest.v ===== *)
(** * Capture manifests

    [cp/media.rs]: what a device uploads about one captured event, the checks
    of the ingest path over it, the container check of the media bytes, the
    browser-state evidence with its content commitment, and the batches of
    screen references.  SHA-256 and the JSON printer and parser of serde are
    parameters; the HTTP handlers are not part of this file.

    A test of a string's bytes against ASCII bytes is written on its
    characters ([Bytes.bytes_test_ascii]). *)
From Stdlib Require Import ZArith Lia.
From S2P Require Import Prelude OrdMap Text F64 Errors Bytes Json IsoTime MemoryLanguage.
Local Open Scope Z_scope.
Local Open Scope kioku_scope.

Definition MAX_AUDIO_BYTES : Z := 20 * 1024 * 1024.
Definition MAX_SCREENSHOT_BYTES : Z := 5 * 1024 * 1024.
Definition MAX_ID_LEN : nat := 128.
Definition MAX_DEVICE_TIMESTAMP_BYTES : Z := 64.
Definition MAX_MANIFEST_BYTES : Z := 128 * 1024.
Definition MAX_REFERENCE_BATCH_EVENTS : Z := 64.
Definition REFERENCE_BATCH_ID_DOMAIN : bytes := blit "kioku.screen-reference-batch.v1" ++ [0%N].
Definition REFERENCE_BATCH_MANIFEST_DOMAIN : bytes := blit "kioku.screen-reference-manifests.v1" ++ [0%N].

(** ** Data *)

Inductive StreamKind :=
| Mic
| SystemAudio
| MacScreen
| IosMic
| IosImportedScreenshot
| IosSharedPage.

#[export] Instance StreamKind_eq_dec : EqDecision StreamKind.
Proof. solve_decision. Defined.

Definition is_audio (k : StreamKind) : bool :=
  match k with Mic | SystemAudio | IosMic => true | _ => false end.

Definition stream_kind_as_str (k : StreamKind) : str :=
  match k with
  | Mic => lit "mic"
  | SystemAudio => lit "system_audio"
  | MacScreen => lit "mac_screen"
  | IosMic => lit "ios_mic"
  | IosImportedScreenshot => lit "ios_imported_screenshot"
  | IosSharedPage => lit "ios_shared_page"
  end.

Record MediaDescriptor := {
  asset_id : str;
  mime_type : str;
  codec : str;
  byte_length : Z;
  md_sha256 : str;
  sample_rate : option Z;
  channels : option Z;
  frame_count : option Z;
  width : option Z;
  height : option Z;
  scale : option f64;
  orientation : option str
}.

Inductive MediaDisposition := Canonical | Reference.

#[export] Instance MediaDisposition_eq_dec : EqDecision MediaDisposition.
Proof. solve_decision. Defined.

Record ScreenReferenceDescriptor := {
  canonical_event_id : str;
  canonical_asset_id : str;
  canonical_media_sha256 : str;
  perceptual_hash : str;
  hamming_distance : Z;
  pixel_change_ratio : f64;
  context_fingerprint : str;
  dedupe_version : Z
}.

Record BrowserTab := {
  window_index : Z;
  tab_index : Z;
  tab_title : option str;
  tab_url : option str;
  url_scheme : option str;
  is_active : bool;
  is_loading : option bool
}.

Record BrowserSnapshot := {
  state_key : str;
  browser_bundle_id : str;
  browser_name : str;
  permission_status : str;
  active_window_index : option Z;
  active_tab_index : option Z;
  reported_tab_count : Z;
  truncated : bool;
  ambient_tab_collection_enabled : option bool;
  content_hash : str;
  tabs : list BrowserTab
}.

Record CaptureContext := {
  capture_status : str;
  active_app : option str;
  primary_bundle_id : option str;
  primary_window_id : option Z;
  window_title : option str;
  display_id : option Z;
  active_url : option str;
  active_url_title : option str;
  browser_permission_status : option str;
  browser_state_key : option str;
  browser_snapshot : option BrowserSnapshot;
  visible_windows : option Value;
  visible_windows_truncated : option bool
}.

Record BrowserStateV2Envelope := {
  env_schema_version : Z;
  env_active_window_index : option Z;
  env_active_tab_index : option Z;
  env_reported_tab_count : Z;
  env_truncated : bool;
  env_ambient_tab_collection_enabled : bool;
  env_tabs : list BrowserTab
}.

#[export] Instance BrowserTab_eq_dec : EqDecision BrowserTab.
Proof. solve_decision. Defined.

#[export] Instance BrowserStateV2Envelope_eq_dec : EqDecision BrowserStateV2Envelope.
Proof. solve_decision. Defined.

Record BrowserV2PersistedEvidence := {
  ev_event_id : str;
  ev_device_id : str;
  ev_source_wall_at : str;
  ev_observation_id : str;
  ev_observed_at : str;
  ev_state_key : option str;
  ev_context_status : str;
  ev_active_url : option str;
  ev_active_title : option str;
  ev_browser_bundle_id : str;
  ev_browser_name : str;
  ev_permission_status : str;
  ev_content_hash : str;
  ev_tabs_json : str
}.

Record RecordingRetentionCaptureAuthority := {
  policy_revision : Z;
  policy_epoch : str;
  lease_id : str;
  authority_token : str
}.

Inductive CaptureEnrollmentKind := OwnerVoice.

Record CaptureEventManifest := {
  schema_version : Z;
  event_id : str;
  device_id : str;
  install_id : str;
  capture_session_id : str;
  stream_id : str;
  stream_kind : StreamKind;
  sequence : Z;
  source_wall_at : str;
  source_monotonic_ns : Z;
  started_at : str;
  ended_at : str;
  session_finished : option bool;
  timezone_id : str;
  utc_offset_minutes : Z;
  clock_uncertainty_ms : Z;
  locale_id : option str;
  media_disposition : MediaDisposition;
  media : option MediaDescriptor;
  reference : option ScreenReferenceDescriptor;
  context : option CaptureContext;
  audio_role : option str;
  audio_route : option str;
  route_epoch : option Z;
  recording_retention : option RecordingRetentionCaptureAuthority;
  enrollment : option CaptureEnrollmentKind;
  enrollment_revision : option Z
}.

(** ** The checks of a manifest *)

Definition is_ascii_hexdigit (c : char) : bool :=
  is_ascii_digit c || ((65 <=? c) && (c <=? 70))%N || ((97 <=? c) && (c <=? 102))%N.

Definition id_char (c : char) : bool := is_ascii_alphanumeric c || (c =? ch "-")%N || (c =? ch "_")%N.

Definition has_nul (s : str) : bool := existsb (N.eqb 0) s.

Definition some_and {A} (p : A -> bool) (o : option A) : bool :=
  match o with Some a => p a | None => false end.

Definition valid_id (value : str) : bool :=
  negb (is_empty value) && (byte_len value <=? Z.of_nat MAX_ID_LEN) && forallb id_char value.

Definition validate_id (name : string) (value : str) : res unit :=
  if valid_id value then Ok tt else Err (InvalidRequest (lit name ++ lit " has an invalid format")).

Definition state_key_char (c : char) : bool := id_char c || (c =? ch ".")%N || (c =? ch ":")%N.

Definition validate_state_key (name : string) (value : str) : res unit :=
  if negb (is_empty value) && (byte_len value <=? 512) && forallb state_key_char value then Ok tt
  else Err (InvalidRequest (lit name ++ lit " has an invalid format")).

Definition validate_sha256 (value : str) : bool :=
  (byte_len value =? 64) && forallb is_ascii_hexdigit value.

Definition in_unit_range (hi x : f64) : bool := f64_leb (f64_of_Z 0) x && f64_leb x hi.

Definition dedupe_bounds (r : ScreenReferenceDescriptor) : bool :=
  if dedupe_version r =? 1 then
    (hamming_distance r <=? 3) && in_unit_range (f64_lit 1 100) (pixel_change_ratio r)
  else if dedupe_version r =? 2 then
    (hamming_distance r <=? 8) && in_unit_range (f64_lit 3 100) (pixel_change_ratio r)
  else false.

Definition validate_screen_reference (r : ScreenReferenceDescriptor) : res unit :=
  let? _ := validate_id "reference.canonical_event_id" (canonical_event_id r) in
  let? _ := validate_id "reference.canonical_asset_id" (canonical_asset_id r) in
  let? _ := refuse (negb (validate_sha256 (canonical_media_sha256 r)))
    (invalid "reference.canonical_media_sha256 must be 64 hexadecimal characters") in
  let? _ := refuse (negb ((byte_len (perceptual_hash r) =? 16) && forallb is_ascii_hexdigit (perceptual_hash r)))
    (invalid "reference.perceptual_hash must be 16 hexadecimal characters") in
  refuse (negb (f64_is_finite (pixel_change_ratio r)) || negb (dedupe_bounds r)
          || negb (validate_sha256 (context_fingerprint r)))
    (InvalidRequest (lit "reference deduplication evidence is outside version "
       ++ dec (dedupe_version r) ++ lit " bounds")).

Definition within (lo hi x : Z) : bool := (lo <=? x) && (x <=? hi).

Definition validate_media (kind : StreamKind) (m : MediaDescriptor) : res unit :=
  let? _ := refuse (negb (validate_sha256 (md_sha256 m))) (invalid "media.sha256 must be 64 hexadecimal characters") in
  let max_bytes := if is_audio kind then MAX_AUDIO_BYTES else MAX_SCREENSHOT_BYTES in
  let? _ := refuse ((byte_length m <=? 0) || (max_bytes <? byte_length m))
    (invalid "media.byte_length is outside the allowed range") in
  let? _ := refuse (is_empty (mime_type m) || (128 <? byte_len (mime_type m))) (invalid "media.mime_type is invalid") in
  let? _ := refuse (is_empty (codec m) || (64 <? byte_len (codec m))) (invalid "media.codec is invalid") in
  if is_audio kind then
    let? rate := ok_or (sample_rate m) (invalid "audio sample_rate is required") in
    let? chans := ok_or (channels m) (invalid "audio channels is required") in
    let? frames := ok_or (frame_count m) (invalid "audio frame_count is required") in
    refuse (negb (within 8000 192000 rate) || negb (within 1 8 chans) || (frames <=? 0))
      (invalid "audio format fields are invalid")
  else
    let? w := ok_or (width m) (invalid "image width is required") in
    let? h := ok_or (height m) (invalid "image height is required") in
    refuse (negb (within 1 16384 w) || negb (within 1 16384 h)) (invalid "image dimensions are invalid").

(** *** Browser evidence *)

Definition expected_browser_name (bundle : str) : option str :=
  if str_eqb bundle (lit "com.apple.Safari") then Some (lit "Safari")
  else if str_eqb bundle (lit "com.google.Chrome") then Some (lit "Google Chrome")
  else if str_eqb bundle (lit "com.brave.Browser") then Some (lit "Brave Browser")
  else if str_eqb bundle (lit "com.microsoft.edgemac") then Some (lit "Microsoft Edge")
  else if str_eqb bundle (lit "company.thebrowser.Browser") then Some (lit "Arc")
  else None.

Definition opt_str_eqb (a b : option str) : bool := bool_decide (a = b).
Definition opt_Z_eqb (a b : option Z) : bool := bool_decide (a = b).

(** [!bytes.next().is_some_and(alphabetic) || !bytes.all(...)] *)
Definition bad_scheme (value : str) : bool :=
  (64 <? byte_len value) || has_nul value
  || negb (some_and is_ascii_alphabetic (head value))
  || negb (forallb (fun b => is_ascii_alphanumeric b || (b =? ch "+")%N || (b =? ch "-")%N || (b =? ch ".")%N)
             (tail value)).

Definition bad_text (limit : Z) (value : str) : bool := (limit <? byte_len value) || has_nul value.

Definition bad_v2_tab (coordinates : list (Z * Z)) (t : BrowserTab) : bool :=
  (window_index t <=? 0) || (tab_index t <=? 0)
  || bool_decide ((window_index t, tab_index t) ∈ coordinates)
  || some_and (bad_text 1000) (tab_title t)
  || some_and (bad_text 4096) (tab_url t)
  || some_and bad_scheme (url_scheme t).

(** The pass over the tabs: their coordinates so far, and the active one. *)
Fixpoint scan_tabs (coordinates : list (Z * Z)) (active : option BrowserTab) (l : list BrowserTab) :
  res (option BrowserTab) :=
  match l with
  | [] => Ok active
  | t :: l =>
    let? _ := refuse (bad_v2_tab coordinates t) (invalid "browser-v2 tab is invalid") in
    let? _ := refuse (is_active t && bool_decide (is_Some active))
      (invalid "browser-v2 must have exactly one active tab") in
    scan_tabs ((window_index t, tab_index t) :: coordinates) (if is_active t then Some t else active) l
  end.

Section Browser.
(** The [sha2] digest, and serde's reader of [BrowserStateV2Envelope]. *)
Context (sha256 : bytes -> bytes).
Context (envelope_from_str : str -> option BrowserStateV2Envelope).

Definition sha256_hex (b : bytes) : str := hex_of_bytes (sha256 b).

Definition field_too_large : EnclaveError := invalid "browser-v2 field is too large".
Definition append_u32 : Z -> res bytes := count_u32 field_too_large.
Definition append_i64 : Z -> res bytes := code_pure (be_bytes 8).
Definition append_text : str -> res bytes := code_text append_u32.
Definition append_optional_text : option str -> res bytes := code_option append_text.
Definition append_optional_i64 : option Z -> res bytes := code_option append_i64.
Definition append_bool : bool -> res bytes := code_pure (fun b => [if (b : bool) then 1%N else 0%N]).
Definition append_optional_bool : option bool -> res bytes := code_option append_bool.

Definition append_tab (t : BrowserTab) : res bytes :=
  let? w := append_i64 (window_index t) in
  let? i := append_i64 (tab_index t) in
  let? title := append_optional_text (tab_title t) in
  let? url := append_optional_text (tab_url t) in
  let? scheme := append_optional_text (url_scheme t) in
  let? active := append_bool (is_active t) in
  let? loading := append_optional_bool (is_loading t) in
  Ok (w ++ i ++ title ++ url ++ scheme ++ active ++ loading).

(** The message the content hash is taken of. *)
Definition browser_v2_content (s : BrowserSnapshot) : res bytes :=
  let? bundle := append_text (browser_bundle_id s) in
  let? permission := append_text (permission_status s) in
  let? aw := append_optional_i64 (active_window_index s) in
  let? at_ := append_optional_i64 (active_tab_index s) in
  let? reported := append_i64 (reported_tab_count s) in
  let? trunc := append_bool (truncated s) in
  let? ambient := append_bool (default false (ambient_tab_collection_enabled s)) in
  let? tabs_ := code_list append_u32 append_tab (tabs s) in
  Ok ((blit "kioku-browser-state-v2" ++ [0%N])
      ++ bundle ++ permission ++ aw ++ at_ ++ reported ++ trunc ++ ambient ++ tabs_).

Definition browser_v2_content_hash (s : BrowserSnapshot) : res str :=
  let? message := browser_v2_content s in
  Ok (sha256_hex message).

Definition bad_v2_metadata (c : CaptureContext) (s : BrowserSnapshot) (expected_name : str) : bool :=
  negb (str_eqb (browser_name s) expected_name)
  || negb (str_eqb (capture_status c) (lit "stable"))
  || negb (opt_str_eqb (primary_bundle_id c) (Some (browser_bundle_id s)))
  || negb (opt_str_eqb (browser_permission_status c) (Some (permission_status s)))
  || negb (opt_str_eqb (browser_state_key c) (Some (state_key s)))
  || negb (one_of (permission_status s)
             ["granted"; "not_determined"; "denied"; "unsupported"; "browser_not_running"; "timed_out";
              "script_error"]%string)
  || existsb (fun b => negb (is_ascii_lowercase b) && negb (is_ascii_digit b)) (content_hash s).

Definition invents_tabs (c : CaptureContext) (s : BrowserSnapshot) : bool :=
  bool_decide (is_Some (active_window_index s)) || bool_decide (is_Some (active_tab_index s))
  || negb (reported_tab_count s =? 0) || truncated s || negb (is_empty (tabs s))
  || bool_decide (is_Some (active_url c)) || bool_decide (is_Some (active_url_title c)).

Definition bad_tab_count (s : BrowserSnapshot) (ambient : bool) : bool :=
  let n := Z.of_nat (length (tabs s)) in
  is_empty (tabs s) || (reported_tab_count s <? n)
  || negb (Bool.eqb (truncated s) (n <? reported_tab_count s))
  || (negb ambient && (negb (n =? 1) || negb (reported_tab_count s =? 1) || truncated s)).

Definition active_differs (c : CaptureContext) (s : BrowserSnapshot) (t : BrowserTab) : bool :=
  negb (opt_Z_eqb (active_window_index s) (Some (window_index t)))
  || negb (opt_Z_eqb (active_tab_index s) (Some (tab_index t)))
  || negb (opt_str_eqb (active_url c) (tab_url t))
  || negb (opt_str_eqb (active_url_title c) (tab_title t)).

Definition validate_granted (c : CaptureContext) (s : BrowserSnapshot) (ambient : bool) : res unit :=
  let? _ := refuse (bad_tab_count s ambient) (invalid "browser-v2 tab count is inconsistent") in
  let? active := scan_tabs [] None (tabs s) in
  let? active := ok_or active (invalid "browser-v2 must have exactly one active tab") in
  refuse (active_differs c s active) (invalid "browser-v2 active evidence is inconsistent").

Definition validate_browser_v2_snapshot (c : CaptureContext) (s : BrowserSnapshot) (device : str) : res unit :=
  let? ambient := ok_or (ambient_tab_collection_enabled s)
    (invalid "browser-v2 requires ambient_tab_collection_enabled") in
  let? expected_name := ok_or (expected_browser_name (browser_bundle_id s))
    (invalid "browser-v2 bundle is unsupported") in
  let? _ := refuse (bad_v2_metadata c s expected_name) (invalid "browser-v2 metadata is invalid") in
  let expected_key := device ++ lit ":browser-v2:" ++ content_hash s in
  let? _ := refuse (negb (str_eqb (state_key s) expected_key))
    (invalid "browser-v2 state key does not bind device and content") in
  let? _ :=
    if negb (str_eqb (permission_status s) (lit "granted"))
    then refuse (invents_tabs c s) (invalid "non-granted browser-v2 state must not invent tabs")
    else validate_granted c s ambient in
  let? hash := browser_v2_content_hash s in
  refuse (negb (str_eqb hash (content_hash s))) (invalid "browser-v2 content commitment does not match").

Definition snapshot_of_envelope (key : str) (ev : BrowserV2PersistedEvidence) (e : BrowserStateV2Envelope) :
  BrowserSnapshot :=
  {| state_key := key; browser_bundle_id := ev_browser_bundle_id ev; browser_name := ev_browser_name ev;
     permission_status := ev_permission_status ev; active_window_index := env_active_window_index e;
     active_tab_index := env_active_tab_index e; reported_tab_count := env_reported_tab_count e;
     truncated := env_truncated e;
     ambient_tab_collection_enabled := Some (env_ambient_tab_collection_enabled e);
     content_hash := ev_content_hash ev; tabs := env_tabs e |}.

Definition envelope_of_snapshot (s : BrowserSnapshot) (ambient : bool) : BrowserStateV2Envelope :=
  {| env_schema_version := 2; env_active_window_index := active_window_index s;
     env_active_tab_index := active_tab_index s; env_reported_tab_count := reported_tab_count s;
     env_truncated := truncated s; env_ambient_tab_collection_enabled := ambient; env_tabs := tabs s |}.

Definition evidence_differs (c : CaptureContext) (ev : BrowserV2PersistedEvidence) (key : str)
    (s : BrowserSnapshot) (stored expected : BrowserStateV2Envelope) : bool :=
  negb (str_eqb (ev_observation_id ev) (ev_event_id ev))
  || negb (str_eqb (ev_observed_at ev) (ev_source_wall_at ev))
  || negb (str_eqb key (state_key s))
  || negb (str_eqb (ev_context_status ev) (capture_status c))
  || negb (opt_str_eqb (ev_active_url ev) (active_url c))
  || negb (opt_str_eqb (ev_active_title ev) (active_url_title c))
  || negb (str_eqb (ev_browser_bundle_id ev) (browser_bundle_id s))
  || negb (str_eqb (ev_browser_name ev) (browser_name s))
  || negb (str_eqb (ev_permission_status ev) (permission_status s))
  || negb (str_eqb (ev_content_hash ev) (content_hash s))
  || negb (bool_decide (stored = expected)).

(** [map_err] *)
Definition or_corrupt {A} (r : res A) (message : string) : res A :=
  match r with Ok a => Ok a | Err _ => Err (Store (lit message)) end.

Definition validate_browser_v2_persisted_evidence (c : CaptureContext) (ev : BrowserV2PersistedEvidence) :
  res BrowserSnapshot :=
  let? envelope := ok_or (envelope_from_str (ev_tabs_json ev)) (Store (lit "browser-v2 state is corrupt")) in
  let? _ := refuse (negb (env_schema_version envelope =? 2)) (Store (lit "browser-v2 state version is unsupported")) in
  let? key := ok_or (ev_state_key ev) (Store (lit "browser-v2 observation is missing state")) in
  let snapshot := default (snapshot_of_envelope key ev envelope) (browser_snapshot c) in
  let? _ := or_corrupt (validate_browser_v2_snapshot c snapshot (ev_device_id ev)) "browser-v2 snapshot is corrupt" in
  let? ambient := ok_or (ambient_tab_collection_enabled snapshot) (Store (lit "browser-v2 consent is missing")) in
  let? _ := refuse (evidence_differs c ev key snapshot envelope (envelope_of_snapshot snapshot ambient))
    (Store (lit "browser-v2 evidence is inconsistent")) in
  Ok snapshot.

(** *** The context and the whole manifest *)

Definition bad_context_text (limit : Z) (o : option str) : bool := some_and (bad_text limit) o.

Fixpoint check_context_texts (l : list (string * option str * Z)) : res unit :=
  match l with
  | [] => Ok tt
  | (name, value, limit) :: l =>
    let? _ := refuse (bad_context_text limit value)
      (InvalidRequest (lit "context." ++ lit name ++ lit " is invalid")) in
    check_context_texts l
  end.

Definition bad_snapshot_metadata (s : BrowserSnapshot) : bool :=
  is_empty (browser_bundle_id s) || (512 <? byte_len (browser_bundle_id s))
  || is_empty (browser_name s) || (512 <? byte_len (browser_name s))
  || (64 <? byte_len (permission_status s)) || (reported_tab_count s <? 0)
  || (500 <? Z.of_nat (length (tabs s))) || negb (validate_sha256 (content_hash s)).

Definition bad_v1_tab (t : BrowserTab) : bool :=
  (window_index t <? 0) || (tab_index t <? 0)
  || some_and (fun value => 2000 <? byte_len value) (tab_title t)
  || some_and (fun value => 8192 <? byte_len value) (tab_url t)
  || some_and (bad_text 64) (url_scheme t).

Definition is_v2_key (key : str) : bool := contains (lit ":browser-v2:") key.

Definition validate_context (c : CaptureContext) (device : str) : res unit :=
  let? _ := refuse (negb (one_of (capture_status c) ["stable"; "unstable"; "unavailable"]%string))
    (invalid "context.capture_status is invalid") in
  let? _ := check_context_texts
    [("active_app", active_app c, 512); ("primary_bundle_id", primary_bundle_id c, 512);
     ("window_title", window_title c, 2000); ("active_url", active_url c, 8192);
     ("active_url_title", active_url_title c, 2000)]%string in
  match browser_snapshot c with
  | Some s =>
    let? _ := validate_state_key "browser_snapshot.state_key" (state_key s) in
    let? _ := refuse (negb (opt_str_eqb (browser_state_key c) (Some (state_key s))))
      (invalid "browser_state_key must match browser_snapshot.state_key") in
    let? _ := refuse (bad_snapshot_metadata s) (invalid "browser snapshot metadata is invalid") in
    if is_v2_key (state_key s) then validate_browser_v2_snapshot c s device
    else refuse (existsb bad_v1_tab (tabs s)) (invalid "browser snapshot tab is invalid")
  | None =>
    match browser_state_key c with
    | Some key => validate_state_key "browser_state_key" key
    | None => Ok tt
    end
  end.

Definition bad_authority (m : CaptureEventManifest) (a : RecordingRetentionCaptureAuthority) : bool :=
  negb (is_audio (stream_kind m)) || negb (bool_decide (media_disposition m = Canonical))
  || (policy_revision a <=? 0)
  || negb (starts_with (lit "rpe_") (policy_epoch a)) || negb (byte_len (policy_epoch a) =? 68)
  || negb (forallb is_ascii_hexdigit (drop 4 (policy_epoch a)))
  || negb (starts_with (lit "lease_") (lease_id a)) || negb (byte_len (lease_id a) =? 70)
  || is_empty (authority_token a) || (2048 <? byte_len (authority_token a))
  || negb (forallb (fun b => (b <? 128)%N) (authority_token a)).

Definition check_device_timestamp (name : string) (value : str) : res unit :=
  refuse (MAX_DEVICE_TIMESTAMP_BYTES <? byte_len value)
    (InvalidRequest (lit name ++ lit " exceeds " ++ dec MAX_DEVICE_TIMESTAMP_BYTES ++ lit " bytes")).

Definition duration_ms (m : CaptureEventManifest) : res Z :=
  let? started := ok_or (parse_epoch_millis (started_at m)) (invalid "started_at must be ISO-8601") in
  let? ended := ok_or (parse_epoch_millis (ended_at m)) (invalid "ended_at must be ISO-8601") in
  let duration := I64.sub ended started in
  if duration <=? 0 then Err (invalid "ended_at must be after started_at") else Ok duration.

Definition check_disposition (m : CaptureEventManifest) : res unit :=
  match media_disposition m with
  | Canonical =>
    let? md := ok_or (media m) (invalid "canonical media is required") in
    let? _ := validate_id "asset_id" (asset_id md) in
    let? _ := validate_media (stream_kind m) md in
    refuse (bool_decide (is_Some (reference m))) (invalid "canonical events cannot contain a reference")
  | Reference =>
    let? _ := refuse (bool_decide (is_Some (media m))) (invalid "reference events cannot contain media") in
    let? _ := refuse (negb (bool_decide (stream_kind m = MacScreen)))
      (invalid "only mac_screen events may reference canonical media") in
    let? r := ok_or (reference m) (invalid "reference metadata is required") in
    let? _ := validate_screen_reference r in
    refuse (negb (some_and (fun c => str_eqb (capture_status c) (lit "stable")) (context m)))
      (invalid "reference events require stable capture context")
  end.

Definition carries_browser_v2 (c : CaptureContext) : bool :=
  some_and is_v2_key (browser_state_key c)
  || some_and (fun s => is_v2_key (state_key s)) (browser_snapshot c).

Definition check_context (m : CaptureEventManifest) : res unit :=
  match context m with
  | Some c =>
    let? _ := validate_context c (device_id m) in
    refuse (carries_browser_v2 c
            && (negb (bool_decide (stream_kind m = MacScreen)) || negb (str_eqb (capture_status c) (lit "stable"))))
      (invalid "browser-v2 evidence requires a stable mac_screen event")
  | None => Ok tt
  end.

Definition check_ids (m : CaptureEventManifest) : res unit :=
  let? _ := validate_id "event_id" (event_id m) in
  let? _ := validate_id "device_id" (device_id m) in
  let? _ := validate_id "install_id" (install_id m) in
  let? _ := validate_id "capture_session_id" (capture_session_id m) in
  validate_id "stream_id" (stream_id m).

(** [CaptureEventManifest::validate] *)
Definition validate (m : CaptureEventManifest) : res unit :=
  let? _ := refuse (negb (schema_version m =? 2) && negb (schema_version m =? 3))
    (invalid "schema_version must be 2 or 3") in
  let? _ := refuse (some_and (bad_authority m) (recording_retention m))
    (invalid "recording_retention authority is malformed") in
  let? _ := refuse (some_and (fun role => negb (one_of role ["local_transmit"; "remote_received"; "ambient"; "mixed"]%string))
                      (audio_role m))
    (invalid "audio_role must be one of 'local_transmit', 'remote_received', 'ambient', 'mixed'") in
  let? _ := check_ids m in
  let? _ := refuse (sequence m <? 0) (invalid "sequence must be non-negative") in
  let? _ := refuse (negb (bool_decide (is_Some (parse_epoch_millis (source_wall_at m)))))
    (invalid "source_wall_at must be ISO-8601") in
  let? _ := check_device_timestamp "started_at" (started_at m) in
  let? _ := check_device_timestamp "ended_at" (ended_at m) in
  let? duration := duration_ms m in
  let? _ := refuse (8 * 60 * 60 * 1000 <? duration) (invalid "capture event duration exceeds eight hours") in
  let? _ := refuse (bool_decide (session_finished m = Some true) && negb (is_audio (stream_kind m)))
    (invalid "session_finished is permitted only on a final audio event") in
  let? _ := refuse (is_empty (timezone_id m) || (128 <? byte_len (timezone_id m))) (invalid "timezone_id is invalid") in
  let? _ := refuse (negb (within (-14 * 60) (14 * 60) (utc_offset_minutes m))) (invalid "utc_offset_minutes is invalid") in
  let? _ := refuse (some_and (fun l => negb (is_bcp47_language_tag l)) (locale_id m))
    (invalid "locale_id must be a BCP-47 language tag") in
  let? _ := check_disposition m in
  check_context m.

Definition response_asset_id (m : CaptureEventManifest) : res str :=
  match media_disposition m with
  | Canonical => ok_or (asset_id <$> media m) (invalid "canonical media is required")
  | Reference => ok_or (canonical_asset_id <$> reference m) (invalid "reference metadata is required")
  end.

(** ** The uploaded bytes *)

Definition bytes_start (p b : bytes) : bool := bool_decide (take (length p) b = p).
Definition bytes_end (p b : bytes) : bool := bool_decide (drop (length b - length p) b = p).
(** [bytes.get(a..a + n) == Some(p)] *)
Definition bytes_at (a : nat) (p b : bytes) : bool :=
  (a + length p <=? length b)%nat && bool_decide (take (length p) (drop a b) = p).

Definition supported_container (m : CaptureEventManifest) (mime : str) (b : bytes) : bool :=
  if one_of mime ["audio/m4a"; "audio/mp4"]%string && is_audio (stream_kind m) then
    (12 <=? length b)%nat && bytes_at 4 (blit "ftyp") b
  else if one_of mime ["audio/wav"; "audio/x-wav"]%string && is_audio (stream_kind m) then
    (12 <=? length b)%nat && bytes_at 0 (blit "RIFF") b && bytes_at 8 (blit "WAVE") b
  else if str_eqb mime (lit "image/jpeg") && negb (is_audio (stream_kind m)) then
    bytes_start [0xff; 0xd8; 0xff]%N b && bytes_end [0xff; 0xd9]%N b
  else if str_eqb mime (lit "image/png") && negb (is_audio (stream_kind m)) then
    bytes_start ([0x89]%N ++ blit "PNG" ++ [13; 10; 26; 10]%N) b
  else false.

Definition validate_media_bytes (m : CaptureEventManifest) (b : bytes) (content_type : option str) : res unit :=
  let? _ := validate m in
  let? _ := refuse (negb (bool_decide (media_disposition m = Canonical)))
    (invalid "reference events cannot contain a media part") in
  let? md := ok_or (media m) (invalid "canonical media is required") in
  let? _ := refuse (negb (Z.of_nat (length b) =? byte_length md)) (invalid "media byte length does not match manifest") in
  let? _ := refuse (negb (eq_ignore_ascii_case (md_sha256 md) (sha256_hex b)))
    (invalid "media sha256 does not match manifest") in
  let? _ := refuse (some_and (fun v => negb (str_eqb v (mime_type md))) content_type)
    (invalid "multipart content type does not match manifest") in
  refuse (negb (supported_container m (mime_type md) b)) (invalid "media container is unsupported or malformed").

(** ** Batches of screen references *)

(** [serde_json::to_vec] at a manifest. *)
Context (manifest_to_vec : CaptureEventManifest -> option bytes).

Definition manifest_digest (m : CaptureEventManifest) : res str :=
  let? encoded := ok_or (manifest_to_vec m) Errors.Json in
  Ok (sha256_hex encoded).

Definition batch_count : Z -> res bytes := count_u32 (invalid "reference batch is too large").
Definition event_id_count : Z -> res bytes := count_u32 (invalid "event_id is too large").

(** [u64::try_from(sequence)] *)
Definition sequence_bytes (sequence : Z) : res bytes :=
  if sequence <? 0 then Err (invalid "sequence must be non-negative") else Ok (be_bytes 8 sequence).

Definition batch_entry (e : str * Z) : res bytes := code_pair (code_text event_id_count) sequence_bytes e.

(** The message the batch identifier is taken of. *)
Definition reference_batch_content (events : list CaptureEventManifest) : res bytes :=
  let? content := code_list batch_count batch_entry ((fun e => (event_id e, sequence e)) <$> events) in
  Ok (REFERENCE_BATCH_ID_DOMAIN ++ content).

Definition reference_batch_id (events : list CaptureEventManifest) : res str :=
  let? content := reference_batch_content events in
  Ok (sha256_hex content).

Definition manifest_digest_bytes (digest : str) : res bytes :=
  if validate_sha256 digest then Ok (as_bytes digest)
  else Err (invalid "reference batch manifest digest is invalid").

Definition reference_batch_manifest_digest (digests : list str) : res str :=
  let? content := code_list batch_count manifest_digest_bytes digests in
  Ok (sha256_hex (REFERENCE_BATCH_MANIFEST_DOMAIN ++ content)).

Record ScreenReferenceBatchRequest := {
  batch_schema_version : Z;
  batch_id : str;
  events : list CaptureEventManifest
}.

Record ValidatedReferenceBatch := {
  manifest_digests : list str;
  aggregate_manifest_digest : str;
  event_ids : list str;
  batch_stream_id : str;
  first_sequence : Z;
  last_sequence : Z
}.

Definition scope_differs (first e : CaptureEventManifest) : bool :=
  negb (str_eqb (device_id e) (device_id first)) || negb (str_eqb (install_id e) (install_id first))
  || negb (str_eqb (capture_session_id e) (capture_session_id first))
  || negb (str_eqb (stream_id e) (stream_id first)).

(** One event of a batch: its digest. *)
Definition check_batch_event (first : CaptureEventManifest) (expected_sequence : Z) (ids : list str)
    (e : CaptureEventManifest) : res str :=
  let? _ := validate e in
  let? _ := refuse (bool_decide (is_Some (enrollment e)) || bool_decide (is_Some (enrollment_revision e)))
    (invalid "reference batches do not admit voice enrollment") in
  let? _ := refuse (negb (bool_decide (stream_kind e = MacScreen)) || negb (bool_decide (media_disposition e = Reference)))
    (invalid "reference batches accept only metadata-only mac_screen references") in
  let? _ := refuse (scope_differs first e) (invalid "reference batch scope must be uniform") in
  let? _ := refuse (negb (sequence e =? expected_sequence)) (invalid "reference batch sequences must be contiguous") in
  let? _ := refuse (I64.max_value <? expected_sequence + 1) (invalid "reference batch sequence overflow") in
  let? _ := refuse (bool_decide (event_id e ∈ ids)) (invalid "reference batch event IDs must be unique") in
  let? normalized := ok_or (manifest_to_vec e) Errors.Json in
  let? _ := refuse (MAX_MANIFEST_BYTES <? Z.of_nat (length normalized))
    (invalid "reference batch event manifest is too large") in
  Ok (sha256_hex normalized).

Fixpoint check_batch (first : CaptureEventManifest) (expected_sequence : Z) (ids : list str)
    (l : list CaptureEventManifest) : res (list str) :=
  match l with
  | [] => Ok []
  | e :: l =>
    let? digest := check_batch_event first expected_sequence ids e in
    let? digests := check_batch first (expected_sequence + 1) (event_id e :: ids) l in
    Ok (digest :: digests)
  end.

Definition validate_reference_batch (request : ScreenReferenceBatchRequest) : res ValidatedReferenceBatch :=
  let? _ := refuse (negb (batch_schema_version request =? 1)) (invalid "reference batch schema_version must be 1") in
  match events request with
  | [] => Err (invalid "reference batch must contain between 1 and 64 events")
  | first :: rest =>
    let? _ := refuse (MAX_REFERENCE_BATCH_EVENTS <? Z.of_nat (length (first :: rest)))
      (invalid "reference batch must contain between 1 and 64 events") in
    let? digests := check_batch first (sequence first) [] (first :: rest) in
    let? expected_batch_id := reference_batch_id (first :: rest) in
    let? _ := refuse (negb (str_eqb (batch_id request) expected_batch_id))
      (invalid "reference batch_id does not match its ordered events") in
    let? aggregate := reference_batch_manifest_digest digests in
    Ok {| manifest_digests := digests; aggregate_manifest_digest := aggregate;
          event_ids := event_id <$> first :: rest; batch_stream_id := stream_id first;
          first_sequence := sequence first;
          last_sequence := sequence (List.last rest first) |}
  end.
End Browser.

(** ** The semantic context *)

Definition semantic_context_value (c : CaptureContext) (version : Z) : Value :=
  let foreground :=
    [("active_app", of_option VString (active_app c));
     ("active_url", of_option VString (active_url c));
     ("active_url_title", of_option VString (active_url_title c));
     ("browser_permission_status", of_option VString (browser_permission_status c));
     ("capture_status", VString (capture_status c));
     ("display_id", of_option of_Z (display_id c));
     ("primary_bundle_id", of_option VString (primary_bundle_id c));
     ("primary_window_id", of_option of_Z (primary_window_id c));
     ("window_title", of_option VString (window_title c))]%string in
  let inventory :=
    [("visible_windows", default Null (visible_windows c));
     ("visible_windows_truncated", of_option VBool (visible_windows_truncated c))]%string in
  object (if version <=? 1 then foreground ++ inventory else foreground).

Definition semantic_context_fingerprint (sha256 : bytes -> bytes) (to_vec : Value -> option bytes)
    (c : CaptureContext) (version : Z) : res str :=
  let? encoded := ok_or (to_vec (semantic_context_value c version)) Errors.Json in
  Ok (sha256_hex sha256 encoded).

(** ** The browser state's commitment *)

Definition tab_typed (t : BrowserTab) : Prop :=
  I64.in_range (window_index t) /\ I64.in_range (tab_index t)
  /\ option_wf (Forall is_scalar) (tab_title t) /\ option_wf (Forall is_scalar) (tab_url t)
  /\ option_wf (Forall is_scalar) (url_scheme t).

(** What the types of the fields ensure. *)
Definition snapshot_typed (s : BrowserSnapshot) : Prop :=
  Forall is_scalar (browser_bundle_id s) /\ Forall is_scalar (permission_status s)
  /\ option_wf I64.in_range (active_window_index s) /\ option_wf I64.in_range (active_tab_index s)
  /\ I64.in_range (reported_tab_count s) /\ Forall tab_typed (tabs s).

Definition tab_fields (t : BrowserTab) :=
  (window_index t, (tab_index t, (tab_title t, (tab_url t, (url_scheme t, (is_active t, is_loading t)))))).

Definition browser_fields (s : BrowserSnapshot) :=
  (browser_bundle_id s, (permission_status s, (active_window_index s, (active_tab_index s,
    (reported_tab_count s, (truncated s, (default false (ambient_tab_collection_enabled s), tabs s))))))).

Lemma tab_fields_inj t u : tab_fields t = tab_fields u -> t = u.
Proof. destruct t, u; cbv; congruence. Qed.

#[export] Instance append_text_prefix : PrefixCode (Forall is_scalar) append_text.
Proof. unfold append_text, append_u32; apply _. Qed.

(** Rewrite with the encodings of the fields. *)
Ltac encode_fields :=
  repeat match goal with H : ?f _ = Ok _ |- context [?f _] => rewrite H; cbn [result_bind] end;
  by rewrite <- ?app_assoc.

Definition code_tab_fields :=
  code_pair append_i64 (code_pair append_i64 (code_pair append_optional_text (code_pair append_optional_text
    (code_pair append_optional_text (code_pair append_bool append_optional_bool))))).

Lemma append_tab_code t x : append_tab t = Ok x -> code_tab_fields (tab_fields t) = Ok x.
Proof.
  intros E; unfold append_tab in E; all_ok; subst x.
  unfold code_tab_fields, code_pair, tab_fields; cbn [fst snd]; encode_fields.
Qed.

#[export] Instance append_tab_prefix : PrefixCode tab_typed append_tab.
Proof.
  intros t u x y r s Ht Hu E E' H.
  enough (tab_fields t = tab_fields u /\ r = s) as [F%tab_fields_inj ->] by done.
  revert Ht Hu E E' H; eapply (code_fields _ _ _ code_tab_fields);
    [unfold code_tab_fields; apply _|apply append_tab_code|].
  unfold tab_typed; intros b (? & ? & ? & ? & ?); unfold pair_wf, any_wf; cbn; by destruct (is_loading b).
Qed.

Definition code_browser_fields :=
  code_pair append_text (code_pair append_text (code_pair append_optional_i64 (code_pair append_optional_i64
    (code_pair append_i64 (code_pair append_bool (code_pair append_bool (code_list append_u32 append_tab))))))).

Lemma browser_v2_content_code s x :
  browser_v2_content s = Ok x ->
  exists c, code_browser_fields (browser_fields s) = Ok c /\ x = (blit "kioku-browser-state-v2" ++ [0%N]) ++ c.
Proof.
  intros E; unfold browser_v2_content in E; all_ok; subst x; eexists; split; [|done].
  unfold code_browser_fields, code_pair, browser_fields; cbn [fst snd]; encode_fields.
Qed.

(** The content message determines the browser's state. *)
Lemma browser_v2_content_inj a b x :
  snapshot_typed a -> snapshot_typed b -> browser_v2_content a = Ok x -> browser_v2_content b = Ok x ->
  browser_fields a = browser_fields b.
Proof.
  intros Ha Hb (c & Ec & ->)%browser_v2_content_code (d & Ed & E)%browser_v2_content_code.
  apply app_inv_head in E as <-.
  assert (C : PrefixCode (pair_wf (Forall is_scalar) (pair_wf (Forall is_scalar) (pair_wf (option_wf I64.in_range)
    (pair_wf (option_wf I64.in_range) (pair_wf I64.in_range (pair_wf any_wf (pair_wf any_wf (Forall tab_typed))))))))
    code_browser_fields) by (unfold code_browser_fields; apply _).
  apply (C _ _ c c [] []); [| |done..];
    [unfold snapshot_typed in Ha|unfold snapshot_typed in Hb]; unfold pair_wf, any_wf; cbn; intuition.
Qed.

Definition collision (sha256 : bytes -> bytes) : Prop := exists a b, a <> b /\ sha256 a = sha256 b.

Lemma sha256_hex_inj sha256 a b :
  (forall m, Forall is_byte (sha256 m)) -> sha256_hex sha256 a = sha256_hex sha256 b -> a = b \/ collision sha256.
Proof.
  intros H E; apply hex_of_bytes_inj in E; [|apply H..].
  destruct (decide (a = b)) as [->|N]; [by left|right; by exists a, b].
Qed.

Lemma valid_browser_v2 sha256 c s device u :
  validate_browser_v2_snapshot sha256 c s device = Ok u ->
  exists message, browser_v2_content s = Ok message /\ content_hash s = sha256_hex sha256 message
    /\ state_key s = device ++ lit ":browser-v2:" ++ content_hash s
    /\ is_Some (ambient_tab_collection_enabled s)
    /\ expected_browser_name (browser_bundle_id s) = Some (browser_name s).
Proof.
  unfold validate_browser_v2_snapshot, browser_v2_content_hash, bad_v2_metadata; intros H; all_ok.
  match goal with H : browser_v2_content s = Ok ?m |- _ => exists m; split; [exact H|] end.
  repeat match goal with H : str_eqb _ _ = true |- _ => apply str_eqb_eq in H end; subst; eauto.
Qed.

(** A browser state's key commits to its content.  Two states accepted
    for the same device under the same key have the same browser, permission,
    counts, active position and tabs, whatever contexts they came with, or a
    collision of the digest is at hand. *)
Theorem browser_key_commits sha256 c1 c2 s1 s2 device u1 u2 :
  (forall m, Forall is_byte (sha256 m)) -> snapshot_typed s1 -> snapshot_typed s2 ->
  validate_browser_v2_snapshot sha256 c1 s1 device = Ok u1 ->
  validate_browser_v2_snapshot sha256 c2 s2 device = Ok u2 ->
  state_key s1 = state_key s2 ->
  s1 = s2 \/ collision sha256.
Proof.
  intros Hsha T1 T2 (m1 & E1 & H1 & K1 & [a1 A1] & N1)%valid_browser_v2
    (m2 & E2 & H2 & K2 & [a2 A2] & N2)%valid_browser_v2 K.
  rewrite K1, K2 in K; do 2 apply app_inv_head in K; rewrite H1, H2 in K.
  apply sha256_hex_inj in K as [<-|?]; [left|by right|done].
  pose proof (browser_v2_content_inj s1 s2 m1 T1 T2 E1 E2) as F.
  destruct s1, s2; unfold browser_fields in F; cbn in *; simplify_eq/=; congruence.
Qed.

(** ** What an accepted batch of references is *)

Section Batch.
Context (sha256 : bytes -> bytes) (manifest_to_vec : CaptureEventManifest -> option bytes).

(** An event of a batch that starts with [first], at [sequence_]. *)
Definition batch_member (first : CaptureEventManifest) (sequence_ : Z) (e : CaptureEventManifest) : Prop :=
  validate sha256 e = Ok tt /\ sequence e = sequence_ /\ sequence_ < I64.max_value
  /\ stream_kind e = MacScreen /\ media_disposition e = Reference
  /\ enrollment e = None /\ enrollment_revision e = None
  /\ device_id e = device_id first /\ install_id e = install_id first
  /\ capture_session_id e = capture_session_id first /\ stream_id e = stream_id first.

Lemma bool_decide_is_Some_false {A} (o : option A) : bool_decide (is_Some o) = false -> o = None.
Proof. intros H%bool_decide_eq_false; by apply eq_None_not_Some. Qed.

Lemma check_batch_event_Ok first n ids e d :
  check_batch_event sha256 manifest_to_vec first n ids e = Ok d ->
  batch_member first n e /\ event_id e ∉ ids /\ manifest_digest sha256 manifest_to_vec e = Ok d.
Proof.
  unfold check_batch_event, scope_differs, manifest_digest; intros H; all_ok.
  repeat match goal with
         | H : bool_decide (is_Some _) = false |- _ => apply bool_decide_is_Some_false in H
         | H : bool_decide _ = true |- _ => apply bool_decide_eq_true in H
         | H : bool_decide _ = false |- _ => apply bool_decide_eq_false in H
         | H : str_eqb _ _ = true |- _ => apply str_eqb_eq in H
         | H : (_ =? _) = true |- _ => apply Z.eqb_eq in H
         | H : (_ <? _) = false |- _ => apply Z.ltb_ge in H
         | H : unit |- _ => destruct H
         end.
  unfold batch_member; split_and!; try done; try lia.
  by rewrite (proj2 (ok_or_Ok _ _ _) ltac:(eassumption)); cbn; f_equal.
Qed.

Lemma check_batch_Ok first n ids l ds :
  check_batch sha256 manifest_to_vec first n ids l = Ok ds ->
  (forall i e, l !! i = Some e -> batch_member first (n + Z.of_nat i) e)
  /\ NoDup (event_id <$> l) /\ (forall e, e ∈ l -> event_id e ∉ ids)
  /\ Forall2 (fun e d => manifest_digest sha256 manifest_to_vec e = Ok d) l ds.
Proof.
  revert n ids ds; induction l as [|e l IH]; intros n ids ds H.
  - injection H as <-; split_and!; [done|constructor|by intros ? ?%not_elem_of_nil|constructor].
  - cbn in H; all_ok; subst ds.
    repeat match goal with H : check_batch_event _ _ _ _ _ _ = Ok _ |- _ => apply check_batch_event_Ok in H as (He & Hn & Hd) end.
    repeat match goal with H : check_batch _ _ _ _ _ _ = Ok _ |- _ => apply IH in H as (Hl & Hnd & Hi & Hds) end.
    split_and!.
    + intros [|i] e' E; cbn in E; [by simplify_eq/=; rewrite Z.add_0_r|].
      replace (n + Z.of_nat (S i)) with (n + 1 + Z.of_nat i) by lia; by apply Hl.
    + cbn; constructor; [|done]; intros (e' & E & He')%list_elem_of_fmap.
      apply (Hi e' He'); rewrite <- E; left.
    + intros e' [->|He']%elem_of_cons; [done|]; intros Hin; apply (Hi e' He'); by right.
    + by constructor.
Qed.

Definition accepted_batch (request : ScreenReferenceBatchRequest) (v : ValidatedReferenceBatch) : Prop :=
  validate_reference_batch sha256 manifest_to_vec request = Ok v.

Lemma accepted_batch_inv request v :
  accepted_batch request v ->
  exists first rest content,
    events request = first :: rest /\ Z.of_nat (length (first :: rest)) <= MAX_REFERENCE_BATCH_EVENTS
    /\ check_batch sha256 manifest_to_vec first (sequence first) [] (first :: rest) = Ok (manifest_digests v)
    /\ reference_batch_content (events request) = Ok content /\ batch_id request = sha256_hex sha256 content
    /\ event_ids v = event_id <$> events request /\ batch_stream_id v = stream_id first
    /\ first_sequence v = sequence first /\ last_sequence v = sequence (List.last rest first).
Proof.
  unfold accepted_batch, validate_reference_batch; intros H; all_ok.
  destruct (events request) as [|first rest] eqn:E; [done|]; all_ok; subst v; cbn -[length check_batch].
  unfold reference_batch_id in *; all_ok.
  repeat match goal with
         | H : str_eqb _ _ = true |- _ => apply str_eqb_eq in H
         | H : (_ <? _) = false |- _ => apply Z.ltb_ge in H
         end.
  eexists first, rest, _; split_and!; try done; congruence.
Qed.

Lemma valid_id_scalar value : valid_id value = true -> Forall is_scalar value.
Proof.
  unfold valid_id; intros [[_ _]%andb_true_iff H]%andb_true_iff; rewrite forallb_Forall in H.
  eapply Forall_impl; [exact H|]; intros c Hc; unfold is_scalar.
  unfold id_char, is_ascii_alphanumeric, is_ascii_alphabetic, is_ascii_uppercase, is_ascii_lowercase, is_ascii_digit in Hc.
  change (ch "-") with 45%N in Hc; change (ch "_") with 95%N in Hc; bool_prop; lia.
Qed.

Lemma validated_event e u :
  validate sha256 e = Ok u -> valid_id (event_id e) = true /\ 0 <= sequence e.
Proof.
  unfold validate, check_ids, validate_id; intros H; all_ok.
  repeat match goal with H : (if valid_id ?x then _ else _) = Ok _ |- _ => destruct (valid_id x) eqn:?; [|done] end.
  split; [done|]; match goal with H : (sequence e <? 0) = false |- _ => apply Z.ltb_ge in H; exact H end.
Qed.

#[export] Instance sequence_bytes_prefix : PrefixCode I64.in_range sequence_bytes.
Proof.
  unfold sequence_bytes; intros a b x y r s Ha Hb; case_ifs; try done; intros E E'.
  by apply (prefix_code (enc := code_pure (be_bytes 8))).
Qed.

#[export] Instance batch_entry_prefix : PrefixCode (pair_wf (Forall is_scalar) I64.in_range) batch_entry.
Proof. unfold batch_entry, event_id_count; apply (code_pair_prefix _ _ _ _). Qed.

Lemma batch_content_inj l k content :
  Forall (fun e => valid_id (event_id e) = true /\ 0 <= sequence e < I64.max_value) l ->
  Forall (fun e => valid_id (event_id e) = true /\ 0 <= sequence e < I64.max_value) k ->
  reference_batch_content l = Ok content -> reference_batch_content k = Ok content ->
  (fun e => (event_id e, sequence e)) <$> l = (fun e => (event_id e, sequence e)) <$> k.
Proof.
  intros Hl Hk E E'; unfold reference_batch_content in *; all_ok; subst content.
  match goal with H : _ ++ _ = _ ++ _ |- _ => apply app_inv_head in H as -> end.
  assert (typed : forall l, Forall (fun e => valid_id (event_id e) = true /\ 0 <= sequence e < I64.max_value) l ->
    Forall (pair_wf (Forall is_scalar) I64.in_range) ((fun e => (event_id e, sequence e)) <$> l)).
  { intros l' Hl'; apply Forall_fmap; eapply Forall_impl; [exact Hl'|]; intros e [Hi Hs]; split; cbn;
      [by apply valid_id_scalar|unfold I64.in_range, I64.min_value in *; lia]. }
  eapply (prefix_code (enc := code_list batch_count batch_entry) _ _ _ _ [] []); [by apply typed..|eassumption|eassumption|done].
Qed.

Lemma batch_members_typed first n l :
  (forall i e, l !! i = Some e -> batch_member first (n + Z.of_nat i) e) ->
  Forall (fun e => valid_id (event_id e) = true /\ 0 <= sequence e < I64.max_value) l.
Proof.
  intros H; apply Forall_lookup; intros i e Hi; destruct (H i e Hi) as (V & Es & Hmax & _).
  destruct (validated_event e tt V); split; [done|lia].
Qed.

Lemma last_cons_eq {A} (x : A) l : (x :: l) !! length l = Some (List.last l x).
Proof.
  revert x; induction l as [|y l IH]; intros x; [done|].
  change ((x :: y :: l) !! length (y :: l)) with ((y :: l) !! length l); rewrite (IH y); f_equal.
  clear; revert y; induction l as [|z l IH]; intros y; [done|].
  cbn [List.last] in *; destruct l; [done|]; apply IH.
Qed.

(** An accepted batch of references is one run of one stream.  It holds
    1 to 64 valid events without media, of one device, install, session and
    stream, with distinct identifiers and consecutive sequence numbers, each
    with the digest of its manifest; and its identifier commits to the
    identifiers and numbers of the events in order, up to a collision. *)
Theorem reference_batch_sound request v :
  (forall m, Forall is_byte (sha256 m)) ->
  accepted_batch request v ->
  1 <= Z.of_nat (length (events request)) <= 64
  /\ (exists first, forall i e, events request !! i = Some e ->
        batch_member first (first_sequence v + Z.of_nat i) e /\ stream_id e = batch_stream_id v)
  /\ NoDup (event_ids v) /\ event_ids v = event_id <$> events request
  /\ Forall2 (fun e d => manifest_digest sha256 manifest_to_vec e = Ok d) (events request) (manifest_digests v)
  /\ last_sequence v = first_sequence v + Z.of_nat (length (events request)) - 1
  /\ forall request' v', accepted_batch request' v' -> batch_id request' = batch_id request ->
       (fun e => (event_id e, sequence e)) <$> events request'
         = (fun e => (event_id e, sequence e)) <$> events request
       \/ collision sha256.
Proof.
  intros Hsha H; pose proof H as (first & rest & content & E & L & C & Ec & Eb & Ei & Es & Ef & El)%accepted_batch_inv.
  apply check_batch_Ok in C as (Hm & Hnd & _ & Hd); rewrite <- E in *.
  split_and!.
  - rewrite E; cbn [length] in *; lia.
  - exact L.
  - exists first; intros i e Hi; rewrite Ef; pose proof (Hm i e Hi) as M; split; [done|].
    rewrite Es; apply M.
  - by rewrite Ei.
  - done.
  - done.
  - rewrite El, Ef.
    pose proof (last_cons_eq first rest) as Hlast; rewrite <- E in Hlast.
    destruct (Hm _ _ Hlast) as (_ & -> & _); rewrite E; cbn [length]; lia.
  - intros request' v' H' Eb'; pose proof H' as (first' & rest' & content' & E' & _ & C' & Ec' & Eb2 & _)%accepted_batch_inv.
    apply check_batch_Ok in C' as (Hm' & _); rewrite <- E' in Hm'.
    rewrite Eb, Eb2 in Eb'; apply sha256_hex_inj in Eb' as [->|?]; [left|by right|done].
    by eapply batch_content_inj; [eapply batch_members_typed, Hm'|eapply batch_members_typed, Hm|..].
Qed.
End Batch.

(** ** What an admitted upload is *)

Lemma duration_ms_Ok m d :
  duration_ms m = Ok d ->
  exists started ended, parse_epoch_millis (started_at m) = Some started
    /\ parse_epoch_millis (ended_at m) = Some ended /\ 0 < d /\ ended = started + d.
Proof.
  unfold duration_ms; intros H; all_ok.
  match goal with H : (if ?c then _ else _) = Ok _ |- _ => destruct c eqn:G; [done|]; apply Ok_inj in H as <- end.
  match goal with H : parse_epoch_millis (started_at m) = Some ?s, H' : parse_epoch_millis (ended_at m) = Some ?e |- _ =>
    exists s, e; pose proof (parse_epoch_millis_bounds _ _ H); pose proof (parse_epoch_millis_bounds _ _ H') end.
  unfold min_formatted_millis, max_formatted_millis, I64.sub in *; bool_prop.
  rewrite I64.wrap_small in * by (unfold I64.in_range, I64.min_value, I64.max_value; lia).
  split_and!; [done|done|lia|lia].
Qed.

(** The format fields and the container of a canonical upload. *)
Definition well_formed_media (m : CaptureEventManifest) (md : MediaDescriptor) (b : bytes) : Prop :=
  if is_audio (stream_kind m) then
    (exists rate chans frames, sample_rate md = Some rate /\ channels md = Some chans /\ frame_count md = Some frames
       /\ 8000 <= rate <= 192000 /\ 1 <= chans <= 8 /\ 0 < frames)
    /\ byte_length md <= MAX_AUDIO_BYTES
    /\ (one_of (mime_type md) ["audio/m4a"; "audio/mp4"]%string = true /\ bytes_at 4 (blit "ftyp") b = true
        \/ one_of (mime_type md) ["audio/wav"; "audio/x-wav"]%string = true /\ bytes_at 0 (blit "RIFF") b = true
           /\ bytes_at 8 (blit "WAVE") b = true)
  else
    (exists w h, width md = Some w /\ height md = Some h /\ 1 <= w <= 16384 /\ 1 <= h <= 16384)
    /\ byte_length md <= MAX_SCREENSHOT_BYTES
    /\ (mime_type md = lit "image/jpeg" /\ bytes_start [0xff; 0xd8; 0xff]%N b = true
           /\ bytes_end [0xff; 0xd9]%N b = true
        \/ mime_type md = lit "image/png" /\ bytes_start ([0x89]%N ++ blit "PNG" ++ [13; 10; 26; 10]%N) b = true).

Lemma within_spec lo hi x : within lo hi x = true <-> lo <= x <= hi.
Proof. unfold within; bool_prop; lia. Qed.

Lemma admitted_media m md b u :
  validate_media (stream_kind m) md = Ok u -> supported_container m (mime_type md) b = true ->
  0 < byte_length md /\ validate_sha256 (md_sha256 md) = true /\ well_formed_media m md b.
Proof.
  unfold validate_media, supported_container, well_formed_media; intros H S; all_ok.
  destruct (is_audio (stream_kind m)); all_ok; rewrite ?within_spec in *; bool_prop;
    (split; [lia|split; [done|split; [by eauto 10|split; [lia|]]]]).
  - rewrite !andb_true_r, !andb_false_r in S; case_ifs_in S; bool_prop; intuition discriminate.
  - rewrite !andb_true_r, !andb_false_r in S; case_ifs_in S; rewrite ?str_eqb_eq in *; bool_prop; intuition discriminate.
Qed.

(** Evidence of a browser's state that came with an upload. *)
Definition browser_evidence_bound (sha256 : bytes -> bytes) (m : CaptureEventManifest) : Prop :=
  forall c s, context m = Some c -> browser_snapshot c = Some s -> is_v2_key (state_key s) = true ->
    stream_kind m = MacScreen /\ capture_status c = lit "stable"
    /\ exists message, browser_v2_content s = Ok message
         /\ state_key s = device_id m ++ lit ":browser-v2:" ++ sha256_hex sha256 message.

Lemma check_context_bound sha256 m u : check_context sha256 m = Ok u -> browser_evidence_bound sha256 m.
Proof.
  unfold check_context, browser_evidence_bound; intros H c s Ec Es V; rewrite Ec in H.
  unfold validate_context, carries_browser_v2 in H; rewrite Es in H; cbn [some_and] in H; rewrite V in H.
  rewrite orb_true_r in H; cbn [andb] in H; all_ok.
  match goal with H : validate_browser_v2_snapshot _ _ _ _ = Ok _ |- _ =>
    apply valid_browser_v2 in H as (message & E & Eh & Ek & _) end.
  split_and!; [by eapply bool_decide_eq_true|by apply str_eqb_eq|exists message; by rewrite Ek, Eh].
Qed.

Lemma validate_inv sha256 m u :
  validate sha256 m = Ok u ->
  (exists d, duration_ms m = Ok d /\ d <= 8 * 60 * 60 * 1000)
  /\ (is_Some (recording_retention m) -> is_audio (stream_kind m) = true)
  /\ (session_finished m = Some true -> is_audio (stream_kind m) = true)
  /\ check_disposition m = Ok tt /\ browser_evidence_bound sha256 m.
Proof.
  unfold validate; intros H; all_ok; split_and!.
  - eexists; split; [eassumption|]; by apply Z.ltb_ge.
  - match goal with H : some_and _ (recording_retention m) = false |- _ => intros [a Ea]; rewrite Ea in H; cbn in H end.
    unfold bad_authority in *; all_ok; done.
  - match goal with H : bool_decide (session_finished m = _) && _ = false |- _ => intros Ef; revert H; rewrite Ef end.
    rewrite bool_decide_true by done; cbn; apply negb_false_iff.
  - by match goal with H : check_disposition m = Ok ?u |- _ => destruct u end.
  - by eapply check_context_bound.
Qed.

(** C40: an upload the ingest path admits is a canonical event whose bytes are
    the announced ones, of the announced length and digest, within the size
    cap of its kind and in a container its kind allows; it lasts more than
    nothing and at most eight hours; only audio claims retention or finishes
    a session; and a browser state rides only on a stable screen event, under
    a key that binds the device and its content. *)
Theorem admitted_upload_sound sha256 m b content_type :
  validate_media_bytes sha256 m b content_type = Ok tt ->
  exists md started ended,
    media_disposition m = Canonical /\ media m = Some md /\ reference m = None
    /\ Z.of_nat (length b) = byte_length md /\ 0 < byte_length md
    /\ eq_ignore_ascii_case (md_sha256 md) (sha256_hex sha256 b) = true
    /\ well_formed_media m md b
    /\ parse_epoch_millis (started_at m) = Some started /\ parse_epoch_millis (ended_at m) = Some ended
    /\ started < ended <= started + 8 * 60 * 60 * 1000
    /\ (is_Some (recording_retention m) -> is_audio (stream_kind m) = true)
    /\ (session_finished m = Some true -> is_audio (stream_kind m) = true)
    /\ browser_evidence_bound sha256 m.
Proof.
  unfold validate_media_bytes; intros H; all_ok.
  match goal with H : validate _ _ = Ok _ |- _ => apply validate_inv in H as ((d & D & Hd) & Hr & Hf & Hp & Hb) end.
  apply duration_ms_Ok in D as (started & ended & Es & Ee & Hpos & ->).
  match goal with H : media m = Some ?md |- _ => exists md, started, (started + d); rename H into Hmedia end.
  match goal with H : bool_decide (media_disposition m = Canonical) = true |- _ => apply bool_decide_eq_true in H as Hc end.
  unfold check_disposition in Hp; rewrite Hc, Hmedia in Hp; all_ok; simplify_eq/=.
  match goal with H : validate_media _ _ = Ok _, H' : supported_container _ _ _ = true |- _ =>
    destruct (admitted_media _ _ _ _ H H') as (? & _ & ?) end.
  split_and!; try done; [by apply bool_decide_is_Some_false|by apply Z.eqb_eq|lia|lia].
Qed.

(** ** Concrete captures *)

Definition sample_sha256 (b : bytes) : bytes := replicate 31 0%N ++ [N.of_nat (length b) mod 256]%N.

Lemma sample_sha256_bytes m : Forall is_byte (sample_sha256 m).
Proof.
  unfold sample_sha256, is_byte; apply Forall_app; split; [apply Forall_replicate; lia|].
  constructor; [apply N.mod_lt; lia|constructor].
Qed.

Definition sample_png : bytes := [0x89]%N ++ blit "PNG" ++ [13; 10; 26; 10; 0]%N.

Definition sample_media : MediaDescriptor := {|
  asset_id := lit "asset-1"; mime_type := lit "image/png"; codec := lit "png"; byte_length := 9;
  md_sha256 := sha256_hex sample_sha256 sample_png; sample_rate := None; channels := None; frame_count := None;
  width := Some 800; height := Some 600; scale := None; orientation := None |}.

(** A browser that denied access: nothing but its permission is evidence. *)
Definition denied_snapshot (hash : str) : BrowserSnapshot := {|
  state_key := lit "device-1:browser-v2:" ++ hash; browser_bundle_id := lit "com.apple.Safari";
  browser_name := lit "Safari"; permission_status := lit "denied"; active_window_index := None;
  active_tab_index := None; reported_tab_count := 0; truncated := false;
  ambient_tab_collection_enabled := Some true; content_hash := hash; tabs := [] |}.

Definition sample_snapshot : BrowserSnapshot :=
  denied_snapshot (match browser_v2_content_hash sample_sha256 (denied_snapshot []) with Ok h => h | Err _ => [] end).

Definition sample_context : CaptureContext := {|
  capture_status := lit "stable"; active_app := None; primary_bundle_id := Some (lit "com.apple.Safari");
  primary_window_id := None; window_title := None; display_id := None; active_url := None;
  active_url_title := None; browser_permission_status := Some (lit "denied");
  browser_state_key := Some (state_key sample_snapshot); browser_snapshot := Some sample_snapshot;
  visible_windows := None; visible_windows_truncated := None |}.

Definition sample_event (id : string) (n : Z) (d : MediaDisposition) (md : option MediaDescriptor)
    (r : option ScreenReferenceDescriptor) : CaptureEventManifest := {|
  schema_version := 3; event_id := lit id; device_id := lit "device-1"; install_id := lit "install-1";
  capture_session_id := lit "session-1"; stream_id := lit "stream-1"; stream_kind := MacScreen; sequence := n;
  source_wall_at := lit "2026-08-30T12:00:00.000Z"; source_monotonic_ns := 0;
  started_at := lit "2026-08-30T12:00:00.000Z"; ended_at := lit "2026-08-30T12:00:30.000Z";
  session_finished := None; timezone_id := lit "UTC"; utc_offset_minutes := 0; clock_uncertainty_ms := 0;
  locale_id := Some (lit "en-GB"); media_disposition := d; media := md; reference := r;
  context := Some sample_context; audio_role := None; audio_route := None; route_epoch := None;
  recording_retention := None; enrollment := None; enrollment_revision := None |}.

Definition sample_upload : CaptureEventManifest := sample_event "event-1" 7 Canonical (Some sample_media) None.

Definition sample_reference : ScreenReferenceDescriptor := {|
  canonical_event_id := lit "event-1"; canonical_asset_id := lit "asset-1";
  canonical_media_sha256 := md_sha256 sample_media; perceptual_hash := replicate 16 (ch "a");
  hamming_distance := 5; pixel_change_ratio := f64_lit 2 100; context_fingerprint := replicate 64 (ch "0");
  dedupe_version := 2 |}.

Definition sample_batch : ScreenReferenceBatchRequest :=
  let references :=
    [sample_event "event-2" 8 Reference None (Some sample_reference);
     sample_event "event-3" 9 Reference None (Some sample_reference)] in
  {| batch_schema_version := 1;
     batch_id := match reference_batch_id sample_sha256 references with Ok id => id | Err _ => [] end;
     events := references |}.

Definition sample_manifest_to_vec (m : CaptureEventManifest) : option bytes := Some (as_bytes (event_id m)).

Lemma admitted_upload_sound_witness :
  exists started ended, parse_epoch_millis (started_at sample_upload) = Some started
    /\ parse_epoch_millis (ended_at sample_upload) = Some ended /\ started < ended
    /\ browser_evidence_bound sample_sha256 sample_upload.
Proof.
  destruct (admitted_upload_sound sample_sha256 sample_upload sample_png (Some (lit "image/png")))
    as (md & started & ended & _ & _ & _ & _ & _ & _ & _ & Es & Ee & [H _] & _ & _ & B); [vm_compute; reflexivity|].
  by exists started, ended.
Defined.

Lemma sample_snapshot_typed : snapshot_typed sample_snapshot.
Proof.
  assert (forall s, forallb (fun c => (c <? 0x110000)%N) s = true -> Forall is_scalar s) as sc.
  { intros s H; rewrite forallb_Forall in H; eapply Forall_impl; [exact H|]; intros c Hc; by apply N.ltb_lt. }
  split; [apply sc; vm_compute; reflexivity|]; split; [apply sc; vm_compute; reflexivity|].
  split; [exact I|]; split; [exact I|]; split; [|constructor].
  split; vm_compute; discriminate.
Qed.

Lemma browser_key_commits_witness : sample_snapshot = sample_snapshot \/ collision sample_sha256.
Proof.
  apply (browser_key_commits sample_sha256 sample_context sample_context sample_snapshot sample_snapshot
           (lit "device-1") tt tt); [apply sample_sha256_bytes|apply sample_snapshot_typed..| | |done];
    vm_compute; reflexivity.
Defined.

Lemma reference_batch_sound_witness :
  exists v, accepted_batch sample_sha256 sample_manifest_to_vec sample_batch v /\ last_sequence v = 9.
Proof.
  eexists; assert (H : accepted_batch sample_sha256 sample_manifest_to_vec sample_batch _)
    by (unfold accepted_batch; vm_compute; reflexivity).
  split; [exact H|].
  destruct (reference_batch_sound sample_sha256 sample_manifest_to_vec _ _ sample_sha256_bytes H)
    as (_ & _ & _ & _ & _ & -> & _); reflexivity.
Defined.
