(* ===== verification/AudioResult.v ===== *)
(** * Transcripts of audio windows

    [cp/media.rs]: the provider's turns for one audio window, read under a
    versioned contract.  Contracts 1 and 2 refuse the whole result at its
    first malformed turn; contract 3 repairs or drops only that turn.  The
    JSON reader of serde is a parameter.  The record of a turn is
    [NameEvidence]'s. *)
From Stdlib Require Import ZArith Lia.
From S2P Require Import Prelude OrdMap Text F64 Errors Bytes NameEvidence CaptureManifest.
Local Open Scope Z_scope.
Local Open Scope kioku_scope.

Definition MAX_TEXT_LEN : Z := 20000.
Definition MAX_TURNS : Z := 10000.
Definition AUDIO_TURN_END_TOLERANCE_MS : Z := 2000.
Definition AUDIO_RESULT_CONTRACT_VERSION : Z := 3.
Definition INVALID_BOUNDARY_FLAG : str := lit "invalid_boundary".
Definition MAX_QUALITY_FLAGS : nat := 16.
Definition MAX_QUALITY_FLAG_LEN : Z := 64.
Definition MAX_PERSON_FACTS : nat := 20.
Definition ALLOWED_FACT_PREDICATES : list string :=
  ["role"; "organization"; "relationship"; "preference"; "responsibility"; "contact"; "location"; "other"]%string.

Record AudioResultSalvage := { dropped_turns : Z; adjusted_turns : Z }.

(** ** Assignments to the fields of a turn *)

Definition set_text (x : str) (t : AudioTurn) : AudioTurn :=
  {| turn_id := turn_id t; start_ms := start_ms t; end_ms := end_ms t; speaker_local_id := speaker_local_id t;
     text := x; language := language t; speaker_name := speaker_name t;
     speaker_name_confidence := speaker_name_confidence t; speaker_name_evidence := speaker_name_evidence t;
     speaker_name_kind := speaker_name_kind t; speaker_name_subject_turn_id := speaker_name_subject_turn_id t;
     speaker_name_target_turn_id := speaker_name_target_turn_id t; person_facts := person_facts t;
     overlap := overlap t; quality_flags := quality_flags t |}.

Definition set_ids (id speaker : str) (subject target : option str) (t : AudioTurn) : AudioTurn :=
  {| turn_id := id; start_ms := start_ms t; end_ms := end_ms t; speaker_local_id := speaker;
     text := text t; language := language t; speaker_name := speaker_name t;
     speaker_name_confidence := speaker_name_confidence t; speaker_name_evidence := speaker_name_evidence t;
     speaker_name_kind := speaker_name_kind t; speaker_name_subject_turn_id := subject;
     speaker_name_target_turn_id := target; person_facts := person_facts t;
     overlap := overlap t; quality_flags := quality_flags t |}.

Definition set_span (start end_ : Z) (o : bool) (flags : list str) (t : AudioTurn) : AudioTurn :=
  {| turn_id := turn_id t; start_ms := start; end_ms := end_; speaker_local_id := speaker_local_id t;
     text := text t; language := language t; speaker_name := speaker_name t;
     speaker_name_confidence := speaker_name_confidence t; speaker_name_evidence := speaker_name_evidence t;
     speaker_name_kind := speaker_name_kind t; speaker_name_subject_turn_id := speaker_name_subject_turn_id t;
     speaker_name_target_turn_id := speaker_name_target_turn_id t; person_facts := person_facts t;
     overlap := o; quality_flags := flags |}.

Definition set_language (l : option str) (t : AudioTurn) : AudioTurn :=
  {| turn_id := turn_id t; start_ms := start_ms t; end_ms := end_ms t; speaker_local_id := speaker_local_id t;
     text := text t; language := l; speaker_name := speaker_name t;
     speaker_name_confidence := speaker_name_confidence t; speaker_name_evidence := speaker_name_evidence t;
     speaker_name_kind := speaker_name_kind t; speaker_name_subject_turn_id := speaker_name_subject_turn_id t;
     speaker_name_target_turn_id := speaker_name_target_turn_id t; person_facts := person_facts t;
     overlap := overlap t; quality_flags := quality_flags t |}.

Definition set_facts (facts : list PersonFact) (t : AudioTurn) : AudioTurn :=
  {| turn_id := turn_id t; start_ms := start_ms t; end_ms := end_ms t; speaker_local_id := speaker_local_id t;
     text := text t; language := language t; speaker_name := speaker_name t;
     speaker_name_confidence := speaker_name_confidence t; speaker_name_evidence := speaker_name_evidence t;
     speaker_name_kind := speaker_name_kind t; speaker_name_subject_turn_id := speaker_name_subject_turn_id t;
     speaker_name_target_turn_id := speaker_name_target_turn_id t; person_facts := facts;
     overlap := overlap t; quality_flags := quality_flags t |}.

(** The six speaker-name fields are cleared together. *)
Definition clear_name (t : AudioTurn) : AudioTurn :=
  {| turn_id := turn_id t; start_ms := start_ms t; end_ms := end_ms t; speaker_local_id := speaker_local_id t;
     text := text t; language := language t; speaker_name := None; speaker_name_confidence := None;
     speaker_name_evidence := None; speaker_name_kind := None; speaker_name_subject_turn_id := None;
     speaker_name_target_turn_id := None; person_facts := person_facts t;
     overlap := overlap t; quality_flags := quality_flags t |}.

(** ** The checks of a turn *)

Definition bad_optional_text (limit : Z) (o : option str) : bool :=
  some_and (fun s => is_empty s || (limit <? byte_len s) || has_nul s) o.

Definition person_fact_is_valid (f : PersonFact) : bool :=
  one_of (predicate f) ALLOWED_FACT_PREDICATES
  && negb (is_empty (trim (pf_value f))) && (byte_len (pf_value f) <=? 2000)
  && negb (is_empty (trim (pf_evidence f))) && (byte_len (pf_evidence f) <=? 2000)
  && negb (bad_optional_text 2000 (replacement_of f))
  && some_and (fun score => f64_is_finite score && in_unit_range (f64_of_Z 1) score) (pf_confidence f).

Definition speaker_name_fields_are_valid (t : AudioTurn) : bool :=
  negb (bad_optional_text 256 (speaker_name t))
  && negb (some_and (fun c => negb (in_unit_range (f64_of_Z 1) c)) (speaker_name_confidence t))
  && negb (bad_optional_text 2000 (speaker_name_evidence t)).

Definition quality_flag_is_valid (flag : str) : bool :=
  (byte_len flag <=? MAX_QUALITY_FLAG_LEN) && negb (has_nul flag).

Definition quality_flags_are_valid (flags : list str) : bool :=
  (length flags <=? MAX_QUALITY_FLAGS)%nat && forallb quality_flag_is_valid flags.

Definition person_facts_are_valid (facts : list PersonFact) : bool :=
  (length facts <=? MAX_PERSON_FACTS)%nat && forallb person_fact_is_valid facts.

Definition text_is_valid (s : str) : bool :=
  negb (is_empty s) && (char_count s <=? MAX_TEXT_LEN) && negb (has_nul s).

Definition language_is_valid (l : option str) : bool := negb (some_and (fun s => (32 <? byte_len s) || has_nul s) l).

(** [value.trim()], the characters of the identifier grammar, at most 128. *)
Definition salvaged_id (s : str) : str := take MAX_ID_LEN (filter (fun c => id_char c = true) (trim s)).

(** The identifier with a suffix, cut so that both fit; identifiers are
    ASCII here, so bytes are characters. *)
Definition suffixed (id : str) (suffix : Z) : str :=
  let tail := ch "-" :: dec suffix in
  take (MAX_ID_LEN - length tail) id ++ tail.

(** The identifier of a turn, among those kept so far; the flag tells whether
    it is not the model's own.  The search runs over the suffixes 2, 3, ...;
    one more than the identifiers it must avoid is enough. *)
Definition unique_turn_id (reserved used : gset str) (id : str) (repaired : bool) : option (str * bool) :=
  if (negb repaired || bool_decide (id ∉ reserved)) && bool_decide (id ∉ used) then Some (id, repaired)
  else
    let suffixes := (fun n => Z.of_nat n) <$> seq 2 (S (size reserved + size used)) in
    let fresh n := bool_decide (suffixed id n ∉ reserved) && bool_decide (suffixed id n ∉ used) in
    (fun n => (suffixed id n, true)) <$> List.find fresh suffixes.

Definition push_quality_flag (flags : list str) (flag : str) : list str :=
  if existsb (str_eqb flag) flags then flags else take (MAX_QUALITY_FLAGS - 1) flags ++ [flag].

(** ** One turn

    The phases of the loop's body, in its order.  Each tells whether it
    changed the turn. *)

(** The text without its NUL characters. *)
Definition without_nul (s : str) : str := filter (fun c : N => c <> 0%N) (s : list N).

(** The repair of the text under contract 3. *)
Definition salvage_text (t : AudioTurn) : AudioTurn * bool :=
  let '(t, nul) := if has_nul (text t) then (set_text (without_nul (text t)) t, true) else (t, false) in
  if MAX_TEXT_LEN <? char_count (text t)
  then (set_text (take (Z.to_nat MAX_TEXT_LEN) (text t)) t, true)
  else (t, nul).

Section Turn.
Context (contract_version duration_ms : Z).
Let salvage := 3 <=? contract_version.

(** The turn's own identifier, repaired if need be. *)
Definition repair_turn_id (index : Z) (t : AudioTurn) : res (str * bool) :=
  if valid_id (turn_id t) then Ok (turn_id t, false)
  else if negb salvage then let? _ := validate_id "turn_id" (turn_id t) in Ok (turn_id t, false)
  else
    let repaired := salvaged_id (turn_id t) in
    Ok (if is_empty repaired then lit "turn-" ++ dec index else repaired, true).

(** The speaker; [None] when nothing of the identifier survives. *)
Definition repair_speaker (t : AudioTurn) : res (option (str * bool)) :=
  if valid_id (speaker_local_id t) then Ok (Some (speaker_local_id t, false))
  else if negb salvage then
    let? _ := validate_id "speaker_local_id" (speaker_local_id t) in Ok (Some (speaker_local_id t, false))
  else
    let repaired := salvaged_id (speaker_local_id t) in
    Ok (if is_empty repaired then None else Some (repaired, true)).

(** A turn's own name evidence keeps pointing at it. *)
Definition follow_rename (raw renamed : str) (o : option str) : option str :=
  if bool_decide (o = Some raw) then Some renamed else o.

Definition salvage_flags (flags : list str) : list str * bool :=
  if quality_flags_are_valid flags then (flags, false)
  else (take MAX_QUALITY_FLAGS (filter (fun f => quality_flag_is_valid f = true) flags), true).

(** The bounded overshoot of the final turn. *)
Definition clamped_end (t : AudioTurn) : Z :=
  if (start_ms t <? duration_ms) && (duration_ms <? end_ms t)
     && (I64.sub (end_ms t) duration_ms <=? AUDIO_TURN_END_TOLERANCE_MS)
  then duration_ms else end_ms t.

(** What the loop carries from turn to turn. *)
Record Pass := {
  report : AudioResultSalvage;
  turns : list AudioTurn;
  ids : gset str;
  previous_start : Z;
  previous_end : Z;
  previous_overlap : bool
}.

(** Contract 3's repair of the interval: the turn, whether it was changed,
    and whether a boundary was. *)
Definition salvage_interval (p : Pass) (t : AudioTurn) : AudioTurn * bool :=
  let start := start_ms t in
  let '(start, b) := if start <? 0 then (0, true) else (start, false) in
  let '(start, b) := if start <? previous_start p then (previous_start p, true) else (start, b) in
  let end_ := end_ms t in
  let '(end_, b) := if duration_ms <? end_ then (duration_ms, true) else (end_, b) in
  let '(end_, b) := if end_ <=? start then (Z.min (I64.saturating_add start 1000) duration_ms, true) else (end_, b) in
  let marked := (start <? previous_end p) && negb (overlap t) && negb (previous_overlap p) in
  let flags := if (b : bool) then push_quality_flag (quality_flags t) INVALID_BOUNDARY_FLAG else quality_flags t in
  (set_span start end_ (overlap t || marked) flags t, marked || b).

Definition check_interval (p : Pass) (t : AudioTurn) : res unit :=
  let? _ := refuse ((start_ms t <? 0) || (end_ms t <=? start_ms t) || (duration_ms <? end_ms t)
                    || (start_ms t <? previous_start p))
    (invalid "audio turn timestamps are invalid") in
  refuse ((start_ms t <? previous_end p) && negb (overlap t) && negb (previous_overlap p))
    (invalid "audio turns overlap without an overlap marker").

(** The remaining fields, checked by contracts 1 and 2 and repaired by
    contract 3. *)
Definition repair_language (t : AudioTurn) : res (AudioTurn * bool) :=
  if language_is_valid (language t) then Ok (t, false)
  else if salvage then Ok (set_language None t, true)
  else Err (invalid "audio turn language is invalid").

Definition repair_facts (t : AudioTurn) : res (AudioTurn * bool) :=
  if person_facts_are_valid (person_facts t) then Ok (t, false)
  else if salvage then
    Ok (set_facts (take MAX_PERSON_FACTS (filter (fun f => person_fact_is_valid f = true) (person_facts t))) t, true)
  else Err (invalid "audio turn person facts are invalid").

Definition repair_name (t : AudioTurn) : res (AudioTurn * bool) :=
  if speaker_name_fields_are_valid t then Ok (t, false)
  else if salvage then Ok (clear_name t, true)
  else Err (invalid "audio turn speaker-name evidence is invalid").

Definition repair_fields (t : AudioTurn) : res (AudioTurn * bool) :=
  let? _ := refuse (negb salvage && negb (text_is_valid (text t))) (invalid "audio turn text is invalid") in
  let? l := repair_language t in
  let? f := repair_facts l.1 in
  let? n := repair_name f.1 in
  let? _ := refuse (negb salvage && negb (quality_flags_are_valid (quality_flags n.1)))
    (invalid "audio turn quality flags are invalid") in
  Ok (n.1, l.2 || f.2 || n.2).

Definition keep (p : Pass) (t : AudioTurn) (adjusted : bool) (kept_ids : gset str) : Pass :=
  {| report := {| dropped_turns := dropped_turns (report p);
                  adjusted_turns := adjusted_turns (report p) + (if adjusted then 1 else 0) |};
     turns := turns p ++ [t]; ids := kept_ids; previous_start := start_ms t; previous_end := end_ms t;
     previous_overlap := overlap t |}.

Definition drop_turn (p : Pass) : Pass :=
  {| report := {| dropped_turns := dropped_turns (report p) + 1; adjusted_turns := adjusted_turns (report p) |};
     turns := turns p; ids := ids p; previous_start := previous_start p; previous_end := previous_end p;
     previous_overlap := previous_overlap p |}.

(** A turn under contracts 1 and 2. *)
Definition strict_turn (p : Pass) (index : Z) (t : AudioTurn) : res Pass :=
  let? _ := repair_turn_id index t in
  let? _ := repair_speaker t in
  let? _ := refuse (bool_decide (turn_id t ∈ ids p)) (invalid "audio result has duplicate turn_id") in
  let t := set_span (start_ms t) (clamped_end t) (overlap t) (quality_flags t) t in
  let? _ := check_interval p t in
  let? fields := repair_fields t in
  Ok (keep p fields.1 fields.2 ({[turn_id t]} ∪ ids p)).

(** A turn under contract 3, once its text is known to be usable; [None]
    when the search for an identifier does not end. *)
Definition salvage_turn (reserved : gset str) (p : Pass) (index : Z) (t : AudioTurn) (adjusted : bool) :
  option (res Pass) :=
  match repair_turn_id index t, repair_speaker t with
  | Err e, _ => Some (Err e)
  | Ok _, Err e => Some (Err e)
  | Ok _, Ok None => Some (Ok (drop_turn p))
  | Ok (id, repaired), Ok (Some (speaker, respelled)) =>
    let raw := turn_id t in
    '(id, renamed) ← unique_turn_id reserved (ids p) id repaired;
    let follow o := if str_eqb id raw then o else follow_rename raw id o in
    let t := set_ids id speaker (follow (speaker_name_subject_turn_id t)) (follow (speaker_name_target_turn_id t)) t in
    let '(flags, reflagged) := salvage_flags (quality_flags t) in
    let t := set_span (start_ms t) (clamped_end t) (overlap t) flags t in
    let '(t, moved) := salvage_interval p t in
    Some (let? fields := repair_fields t in
          Ok (keep p fields.1 (adjusted || respelled || renamed || reflagged || moved || fields.2)
                ({[id]} ∪ ids p)))
  end.

Definition audio_turn (reserved : gset str) (p : Pass) (index : Z) (t : AudioTurn) : option (res Pass) :=
  let t := if contract_version =? 1 then set_facts [] t else t in
  if salvage then
    let '(t, adjusted) := salvage_text t in
    if is_empty (text t) || (duration_ms <=? start_ms t) then Some (Ok (drop_turn p))
    else salvage_turn reserved p index t adjusted
  else Some (strict_turn p index t).

Fixpoint audio_turns (reserved : gset str) (p : Pass) (index : Z) (l : list AudioTurn) : option (res Pass) :=
  match l with
  | [] => Some (Ok p)
  | t :: l =>
    match audio_turn reserved p index t with
    | Some (Ok p) => audio_turns reserved p (index + 1) l
    | answer => answer
    end
  end.

Definition start_pass : Pass :=
  {| report := {| dropped_turns := 0; adjusted_turns := 0 |}; turns := []; ids := ∅; previous_start := -1;
     previous_end := 0; previous_overlap := false |}.

Definition reserved_ids (l : list AudioTurn) : gset str :=
  if salvage then list_to_set (turn_id <$> filter (fun t => valid_id (turn_id t) = true) l) else ∅.

(** The contract's reading of the provider's turns. *)
Definition read_turns (l : list AudioTurn) : option (res (list AudioTurn * AudioResultSalvage)) :=
  if MAX_TURNS <? Z.of_nat (length l) then Some (Err (invalid "audio result has too many turns"))
  else
    answer ← audio_turns (reserved_ids l) start_pass 0 l;
    Some (let? p := answer in Ok (turns p, report p)).

(** [parse_audio_result_with_salvage]; [audio_result_from_str] is
    [serde_json::from_str] at [AudioResult]. *)
Definition parse_audio_result_with_salvage (audio_result_from_str : str -> option (list AudioTurn)) (raw : str) :
  option (res (list AudioTurn * AudioResultSalvage)) :=
  if negb (within 1 3 contract_version) then Some (Err (invalid "audio result contract is unsupported"))
  else
    match audio_result_from_str raw with
    | None => Some (Err Errors.Json)
    | Some l => read_turns l
    end.
End Turn.

(** ** What a transcript is *)

Section Spec.
Context (duration_ms : Z).

Definition turn_ok (t : AudioTurn) : Prop :=
  valid_id (turn_id t) = true /\ valid_id (speaker_local_id t) = true
  /\ 0 <= start_ms t < end_ms t /\ end_ms t <= duration_ms
  /\ text_is_valid (text t) = true /\ language_is_valid (language t) = true
  /\ person_facts_are_valid (person_facts t) = true /\ speaker_name_fields_are_valid t = true
  /\ quality_flags_are_valid (quality_flags t) = true.

(** Turns come in order, and two that overlap say so. *)
Definition follows (a b : AudioTurn) : Prop :=
  start_ms a <= start_ms b
  /\ (start_ms b < end_ms a -> overlap a = true \/ overlap b = true).

Definition transcript_ok (l : list AudioTurn) : Prop :=
  Forall turn_ok l /\ NoDup (turn_id <$> l)
  /\ forall i a b, l !! i = Some a -> l !! S i = Some b -> follows a b.

Lemma transcript_nil : transcript_ok [].
Proof. split_and!; [constructor|constructor|done]. Qed.

Lemma transcript_snoc l t :
  transcript_ok (l ++ [t]) <->
  transcript_ok l /\ turn_ok t /\ turn_id t ∉ turn_id <$> l
  /\ match last l with Some a => follows a t | None => True end.
Proof.
  unfold transcript_ok; rewrite Forall_app, Forall_singleton, fmap_app, NoDup_app; cbn; split.
  - intros ((Hl & Ht) & (Hn & Hd & _) & Hf); split_and!; try done.
    + intros i a b Ha Hb; apply (Hf i); by apply lookup_app_l_Some.
    + intros Hin; apply (Hd _ Hin); by left.
    + destruct (last l) as [a|] eqn:E; [|done].
      assert (l <> []) by (by intros ->).
      rewrite last_lookup in E; apply (Hf (pred (length l))); [by apply lookup_app_l_Some|].
      rewrite lookup_app_r by (destruct l; cbn in *; [done|lia]).
      replace (S (pred (length l)) - length l)%nat with 0%nat; [done|destruct l; cbn in *; [done|lia]].
  - intros ((Hl & Hn & Hf) & Ht & Hid & Hlast); split_and!; try done.
    + intros x Hx ->%list_elem_of_singleton; done.
    + apply NoDup_singleton.
    + intros i a b Ha Hb.
      destruct (decide (S i < length l)%nat) as [Hi|Hi].
      * rewrite lookup_app_l in Ha, Hb by lia; by apply (Hf i).
      * pose proof (lookup_lt_Some _ _ _ Hb) as Hlen; rewrite length_app in Hlen; cbn in Hlen.
        assert (i = pred (length l)) as -> by lia; assert (length l <> 0)%nat by lia.
        rewrite lookup_app_l in Ha by lia; rewrite lookup_app_r in Hb by lia.
        replace (S (pred (length l)) - length l)%nat with 0%nat in Hb by lia; injection Hb as <-.
        rewrite last_lookup, Ha in Hlast; exact Hlast.
Qed.

Lemma transcript_prefix l k : transcript_ok (l ++ k) -> transcript_ok l.
Proof.
  induction k as [|t k IH] using rev_ind; [by rewrite app_nil_r|].
  rewrite app_assoc, transcript_snoc; intros [H _]; by apply IH.
Qed.
End Spec.

(** What the loop carries is what its kept turns say. *)
Definition tail_of (l : list AudioTurn) : Z * Z * bool :=
  match last l with Some a => (start_ms a, end_ms a, overlap a) | None => (-1, 0, false) end.

Definition pass_ok (duration_ms : Z) (p : Pass) : Prop :=
  transcript_ok duration_ms (turns p)
  /\ ids p = list_to_set (turn_id <$> turns p)
  /\ (previous_start p, previous_end p, previous_overlap p) = tail_of (turns p).

Lemma start_pass_ok d : pass_ok d start_pass.
Proof. split; [apply transcript_nil|done]. Qed.

Lemma pass_ids d p t : pass_ok d p -> turn_id t ∈ ids p <-> turn_id t ∈ turn_id <$> turns p.
Proof. intros (_ & -> & _); apply elem_of_list_to_set. Qed.

Lemma keep_ok d p t a :
  pass_ok d p -> transcript_ok d (turns p ++ [t]) -> pass_ok d (keep p t a ({[turn_id t]} ∪ ids p)).
Proof.
  intros (_ & Hi & _) H; split_and!; [done|cbn; rewrite Hi, fmap_app; set_solver|].
  by unfold tail_of; cbn; rewrite last_snoc.
Qed.

(** The interval checks against what the loop carries are the transcript's
    rule against the last turn. *)
Lemma follows_last d p t :
  pass_ok d p -> 0 <= start_ms t ->
  match last (turns p) with Some a => follows a t | None => True end
  <-> previous_start p <= start_ms t
      /\ (start_ms t < previous_end p -> overlap t = true \/ previous_overlap p = true).
Proof.
  intros (_ & _ & E) H; unfold tail_of in E; destruct (last (turns p)) as [a|]; injection E as -> -> ->.
  - unfold follows; tauto.
  - split; [intros _; split; [lia|lia]|done].
Qed.

Definition clamp_turn (d : Z) (t : AudioTurn) : AudioTurn :=
  set_span (start_ms t) (clamped_end d t) (overlap t) (quality_flags t) t.

Definition prepared (contract_version d : Z) (t : AudioTurn) : AudioTurn :=
  clamp_turn d (if contract_version =? 1 then set_facts [] t else t).

Lemma check_interval_Ok d p t u :
  check_interval d p t = Ok u <->
  0 <= start_ms t < end_ms t /\ end_ms t <= d /\ previous_start p <= start_ms t
  /\ (start_ms t < previous_end p -> overlap t = true \/ previous_overlap p = true).
Proof.
  unfold check_interval; rewrite result_bind_Ok; split.
  - intros (v & H1%refuse_Ok & H2%refuse_Ok); bool_prop; destruct (overlap t), (previous_overlap p); cbn in *; split_and!;
      try lia; intros; auto; destruct H2 as [[H2|?]|?]; try done; lia.
  - intros ([? ?] & ? & ? & Hm); exists tt; rewrite !refuse_Ok; split; bool_prop; [lia|].
    destruct (Z.lt_ge_cases (start_ms t) (previous_end p)) as [E|E]; [|by left; left].
    destruct (Hm E) as [->| ->]; auto.
Qed.

Lemma strict_fields cv t r :
  (3 <=? cv) = false ->
  repair_fields cv t = Ok r <->
  r = (t, false) /\ text_is_valid (text t) = true /\ language_is_valid (language t) = true
  /\ person_facts_are_valid (person_facts t) = true /\ speaker_name_fields_are_valid t = true
  /\ quality_flags_are_valid (quality_flags t) = true.
Proof.
  intros S; unfold repair_fields, repair_language, repair_facts, repair_name, refuse; rewrite S; cbn [negb andb].
  destruct (text_is_valid (text t)), (language_is_valid (language t)); cbn [negb result_bind fst snd];
    try (by split; [|intuition congruence]).
  destruct (person_facts_are_valid (person_facts t)); cbn [result_bind fst snd]; [|by split; [|intuition congruence]].
  destruct (speaker_name_fields_are_valid t); cbn [result_bind fst snd]; [|by split; [|intuition congruence]].
  destruct (quality_flags_are_valid (quality_flags t)); cbn [negb result_bind fst snd orb];
    [|by split; [|intuition congruence]].
  split; [intros <-%Ok_inj; done|by intros [-> _]].
Qed.

(** A turn is accepted by contracts 1 and 2 exactly when it extends the
    transcript. *)
Lemma strict_turn_Ok cv d p i t p' :
  (3 <=? cv) = false -> pass_ok d p ->
  strict_turn cv d p i t = Ok p' <->
  transcript_ok d (turns p ++ [clamp_turn d t]) /\ p' = keep p (clamp_turn d t) false ({[turn_id t]} ∪ ids p).
Proof.
  intros S Hp; rewrite transcript_snoc; unfold turn_ok, clamp_turn; cbn.
  unfold strict_turn, repair_turn_id, repair_speaker, validate_id; rewrite S; cbn [negb].
  destruct (valid_id (turn_id t)); cbn [result_bind]; [|by split; [|intuition congruence]].
  destruct (valid_id (speaker_local_id t)); cbn [result_bind]; [|by split; [|intuition congruence]].
  rewrite result_bind_Ok; split.
  - intros (? & N%refuse_Ok%bool_decide_eq_false & H); all_ok.
    match goal with H : check_interval _ _ _ = Ok _ |- _ => apply check_interval_Ok in H as (I1 & I2 & I3) end.
    match goal with H : repair_fields _ _ = Ok _ |- _ => apply strict_fields in H as (-> & F); [|done] end.
    rewrite (pass_ids d) in N by done; subst p'; split; [|done]; cbn in *.
    split_and!; try done; try lia; [apply Hp|by apply F..|].
    apply (follows_last d p (clamp_turn d t)); [done|cbn; lia|exact I3].
  - intros ((_ & (_ & _ & I1 & I2 & F) & N & L) & ->).
    rewrite <- (pass_ids d) in N by done; exists tt; split; [by apply refuse_Ok, bool_decide_eq_false|].
    apply (follows_last d p (clamp_turn d t)) in L as L'; [|done|cbn; lia].
    change (set_span _ _ _ _ t) with (clamp_turn d t).
    rewrite (proj2 (check_interval_Ok d p (clamp_turn d t) tt)) by (split_and!; try done; apply I1 || apply L').
    cbn [result_bind]; by rewrite (proj2 (strict_fields cv (clamp_turn d t) (clamp_turn d t, false) S)).
Qed.

Lemma strict_loop cv d reserved p i l :
  (3 <=? cv) = false -> pass_ok d p ->
  exists answer, audio_turns cv d reserved p i l = Some answer
    /\ match answer with
       | Ok p' => transcript_ok d (turns p ++ (prepared cv d <$> l))
                  /\ turns p' = turns p ++ (prepared cv d <$> l) /\ report p' = report p
       | Err _ => ~ transcript_ok d (turns p ++ (prepared cv d <$> l))
       end.
Proof.
  intros S; revert p i; induction l as [|t l IH]; intros p i Hp.
  { exists (Ok p); cbn; rewrite app_nil_r; split_and!; [done|apply Hp|done|done]. }
  cbn [audio_turns fmap list_fmap]; unfold audio_turn; rewrite S.
  set (t' := if cv =? 1 then set_facts [] t else t).
  change (turns p ++ prepared cv d t :: (prepared cv d <$> l))
    with (turns p ++ [clamp_turn d t'] ++ (prepared cv d <$> l)); rewrite app_assoc.
  destruct (strict_turn cv d p i t') as [p'|e] eqn:E.
  - apply strict_turn_Ok in E as [Hok ->]; [|done..].
    destruct (IH _ (i + 1) (keep_ok d p _ false Hp Hok)) as (answer & Ha & H).
    exists answer; split; [exact Ha|]; destruct answer as [p'|e]; [|exact H].
    destruct H as (H1 & H2 & H3); split_and!; [done|done|].
    rewrite H3; cbn; rewrite Z.add_0_r; by destruct (report p).
  - exists (Err e); split; [done|]; intros H%transcript_prefix.
    assert (strict_turn cv d p i t' = Ok (keep p (clamp_turn d t') false ({[turn_id t']} ∪ ids p))) as E'
      by by apply strict_turn_Ok.
    congruence.
Qed.

Definition untouched : AudioResultSalvage := {| dropped_turns := 0; adjusted_turns := 0 |}.


(** ** Repaired identifiers *)

Lemma id_char_ascii c : id_char c = true -> (c <? 0x80)%N = true.
Proof.
  unfold id_char, is_ascii_alphanumeric, is_ascii_alphabetic, is_ascii_uppercase, is_ascii_lowercase, is_ascii_digit.
  change (ch "-") with 45%N; change (ch "_") with 95%N; bool_prop; lia.
Qed.

Lemma digit_id_char c : is_ascii_digit c = true -> id_char c = true.
Proof. intros H; unfold id_char, is_ascii_alphanumeric; by rewrite H, orb_true_r. Qed.

Lemma valid_id_intro s :
  s <> [] -> (length s <= MAX_ID_LEN)%nat -> Forall (fun c => id_char c = true) s -> valid_id s = true.
Proof.
  intros Hne Hl Hs; unfold valid_id; rewrite byte_len_ascii; [|eapply Forall_impl; [exact Hs|apply id_char_ascii]].
  rewrite !andb_true_iff; split_and!; [by apply negb_true_iff, is_empty_false|unfold char_count; bool_prop; lia|].
  by apply forallb_Forall.
Qed.

Lemma dec_rev_length fuel z : (length (dec_rev fuel z) <= fuel)%nat.
Proof. revert z; induction fuel as [|n IH]; intros z; cbn; [lia|]; destruct (z <? 10); cbn; [lia|]; specialize (IH (z / 10)); lia. Qed.

Lemma dec_short z : 0 <= z < 2 ^ 64 -> (length (dec z) <= 64)%nat.
Proof.
  intros H; unfold dec; rewrite (proj2 (Z.ltb_ge z 0)) by lia; unfold dec_nonneg; rewrite length_reverse.
  pose proof (dec_rev_length (dec_fuel z) z) as L; unfold dec_fuel in *.
  assert (Z.log2 z < 64) by (destruct (Z.eq_dec z 0) as [->|]; [reflexivity|apply Z.log2_lt_pow2; lia]); lia.
Qed.

Lemma dec_digits z : 0 <= z -> Forall (fun c => is_ascii_digit c = true) (dec z).
Proof. intros H; unfold dec; rewrite (proj2 (Z.ltb_ge z 0)) by lia; by apply dec_nonneg_digits. Qed.

Lemma salvaged_id_valid s : is_empty (salvaged_id s) = false -> valid_id (salvaged_id s) = true.
Proof.
  intros H%is_empty_false; apply valid_id_intro; [done|unfold salvaged_id; rewrite length_take; lia|].
  unfold salvaged_id; apply Forall_take, Forall_forall; intros c Hc; by apply list_elem_of_filter in Hc as [? _].
Qed.

Lemma fallback_id_valid index : 0 <= index < 2 ^ 64 -> valid_id (lit "turn-" ++ dec index) = true.
Proof.
  intros H; apply valid_id_intro; [done|rewrite length_app; pose proof (dec_short index H); cbn; unfold MAX_ID_LEN; lia|].
  apply Forall_app; split; [by repeat constructor|].
  eapply Forall_impl; [apply dec_digits; lia|apply digit_id_char].
Qed.

Lemma suffixed_valid id n : valid_id id = true -> 0 <= n < 2 ^ 64 -> valid_id (suffixed id n) = true.
Proof.
  intros [_ Hid]%andb_true_iff H; rewrite forallb_Forall in Hid; pose proof (dec_short n H).
  unfold suffixed; apply valid_id_intro.
  - by destruct (take _ id).
  - rewrite length_app, length_take; cbn [length]; unfold MAX_ID_LEN; lia.
  - apply Forall_app; split; [by apply Forall_take|]; constructor; [done|].
    eapply Forall_impl; [apply dec_digits; lia|apply digit_id_char].
Qed.

(** The last occurrence of a separator splits a string in one way. *)
Lemma last_separator {A} (c : A) x1 y1 x2 y2 :
  x1 ++ c :: y1 = x2 ++ c :: y2 -> c ∉ y1 -> c ∉ y2 -> y1 = y2.
Proof.
  revert x2; induction x1 as [|a x1 IH]; intros [|b x2] E N1 N2; cbn in E; simplify_eq/=; [done|..].
  - exfalso; apply N1, elem_of_app; right; left.
  - exfalso; apply N2, elem_of_app; right; left.
  - by apply (IH x2).
Qed.

Lemma suffixed_inj id a b : 0 <= a -> 0 <= b -> suffixed id a = suffixed id b -> a = b.
Proof.
  intros Ha Hb E; unfold suffixed in E.
  assert (free : forall z, 0 <= z -> ch "-" ∉ dec z).
  { intros z Hz Hin; pose proof (dec_digits z Hz) as D; rewrite Forall_forall in D; by apply D in Hin. }
  apply last_separator in E; [|by apply free..]; by apply dec_inj in E.
Qed.

(** Some suffix among the first ones is free. *)
Lemma fresh_suffix (reserved used : gset str) id :
  exists n, List.find (fun n => bool_decide (suffixed id n ∉ reserved) && bool_decide (suffixed id n ∉ used))
              ((fun n => Z.of_nat n) <$> seq 2 (S (size reserved + size used))) = Some n.
Proof.
  destruct (List.find _ _) as [n|] eqn:E; [by exists n|exfalso].
  set (candidates := (fun n => suffixed id (Z.of_nat n)) <$> seq 2 (S (size reserved + size used))).
  assert (nd : NoDup candidates).
  { apply NoDup_fmap_2_strong; [|apply NoDup_seq].
    intros x y _ _ Exy; apply suffixed_inj in Exy; lia. }
  assert (sub : (list_to_set candidates : gset str) ⊆ reserved ∪ used).
  { intros x Hx; apply elem_of_list_to_set, list_elem_of_fmap in Hx as (n & -> & Hn).
    assert (F := List.find_none _ _ E (Z.of_nat n)).
    rewrite <- list_elem_of_In in F; specialize (F (list_elem_of_fmap_2 _ _ _ Hn)).
    apply andb_false_iff in F; destruct F as [F%bool_decide_eq_false|F%bool_decide_eq_false];
      apply elem_of_union; [left|right]; by apply dec_stable. }
  apply subseteq_size in sub; rewrite size_list_to_set in sub by exact nd.
  unfold candidates in sub; rewrite length_fmap, length_seq in sub.
  pose proof (size_union_alt reserved used); pose proof (subseteq_size (used ∖ reserved) used ltac:(set_solver)); lia.
Qed.

Lemma unique_turn_id_ok reserved used id repaired :
  valid_id id = true -> Z.of_nat (size reserved + size used) < 2 ^ 62 ->
  exists id' b, unique_turn_id reserved used id repaired = Some (id', b)
    /\ valid_id id' = true /\ id' ∉ used.
Proof.
  intros Hid Hs; unfold unique_turn_id; case_match eqn:C.
  - exists id, repaired; bool_prop; destruct C as [_ C%bool_decide_eq_true]; done.
  - destruct (fresh_suffix reserved used id) as [n E]; rewrite E; exists (suffixed id n), true.
    pose proof (List.find_some _ _ E) as [Hin F]; apply andb_true_iff in F as [_ F%bool_decide_eq_true].
    rewrite <- list_elem_of_In in Hin; apply list_elem_of_fmap in Hin as (k & -> & Hk); apply elem_of_seq in Hk.
    split_and!; [done|apply suffixed_valid; [done|lia]|done].
Qed.

(** ** Repaired fields *)

Lemma forallb_filter {A} (p : A -> bool) l : forallb p (filter (fun x => p x = true) l) = true.
Proof. apply forallb_Forall, Forall_forall; intros x Hx; by apply list_elem_of_filter in Hx as [? _]. Qed.

Lemma forallb_take {A} (p : A -> bool) n l : forallb p l = true -> forallb p (take n l) = true.
Proof. rewrite !forallb_Forall; apply Forall_take. Qed.

Lemma filter_forallb {A} (p : A -> bool) l : forallb p l = true -> filter (fun x => p x = true) l = l.
Proof. rewrite forallb_Forall; induction 1 as [|x l Hx _ IH]; [done|]; by rewrite filter_cons_True, IH. Qed.

(** Keeping the first valid items is the identity on a valid list. *)
Lemma kept_valid {A} (p : A -> bool) n l :
  (length l <= n)%nat -> forallb p l = true -> take n (filter (fun x => p x = true) l) = l.
Proof. intros Hn Hp; rewrite filter_forallb by done; by apply take_ge. Qed.

Definition valid_facts (facts : list PersonFact) : list PersonFact :=
  take MAX_PERSON_FACTS (filter (fun f => person_fact_is_valid f = true) facts).

Lemma salvage_fields_ok t :
  exists t' b, repair_fields 3 t = Ok (t', b)
    /\ (turn_id t', speaker_local_id t', start_ms t', end_ms t', text t', overlap t', quality_flags t')
       = (turn_id t, speaker_local_id t, start_ms t, end_ms t, text t, overlap t, quality_flags t)
    /\ language_is_valid (language t') = true /\ person_facts_are_valid (person_facts t') = true
    /\ speaker_name_fields_are_valid t' = true /\ person_facts t' = valid_facts (person_facts t)
    /\ (language_is_valid (language t) = true -> person_facts_are_valid (person_facts t) = true ->
        speaker_name_fields_are_valid t = true -> (t', b) = (t, false)).
Proof.
  assert (cut : forall facts, person_facts_are_valid (valid_facts facts) = true).
  { intros facts; unfold person_facts_are_valid, valid_facts; rewrite forallb_take by apply forallb_filter.
    rewrite length_take; bool_prop; split; [lia|done]. }
  assert (same : forall facts, person_facts_are_valid facts = true -> valid_facts facts = facts).
  { intros facts; unfold person_facts_are_valid; intros [H1 H2]%andb_true_iff; apply kept_valid; [by apply Nat.leb_le|done]. }
  unfold repair_fields, repair_language, repair_facts, repair_name, refuse; cbn [Z.leb Z.compare Pos.compare Pos.compare_cont negb andb result_bind].
  destruct (language_is_valid (language t)) eqn:L; cbn [result_bind fst snd set_language person_facts];
    destruct (person_facts_are_valid (person_facts t)) eqn:F; cbn [result_bind fst snd];
    match goal with |- context [speaker_name_fields_are_valid ?u] => destruct (speaker_name_fields_are_valid u) eqn:N end;
    cbn [result_bind fst snd orb]; do 2 eexists; split_and!;
    try done; cbn; first [done|exact (cut (person_facts t))|exact (eq_sym (same _ F))|by intros].
Qed.

Lemma salvage_text_ok t :
  exists t' b, salvage_text t = (t', b)
    /\ t' = set_text (take (Z.to_nat MAX_TEXT_LEN) (without_nul (text t))) t
    /\ (text_is_valid (text t) = true -> (t', b) = (t, false)).
Proof.
  assert (clean : forall s, has_nul s = false -> without_nul s = s).
  { intros s H; unfold without_nul, str, char, has_nul in *; rewrite existsb_false in H.
    induction s as [|c s IH]; [done|]; rewrite filter_cons_True, IH; [done|by intros x Hx; apply H; right|].
    intros ->; by specialize (H 0%N (list_elem_of_here _ _)). }
  assert (short : forall s, char_count s <= MAX_TEXT_LEN -> take (Z.to_nat MAX_TEXT_LEN) s = s).
  { intros s H; apply take_ge; unfold char_count, char in *; lia. }
  assert (eta : t = set_text (text t) t) by by destruct t.
  unfold salvage_text; destruct (has_nul (text t)) eqn:N; cbn [text set_text].
  - case_match eqn:C; bool_prop; do 2 eexists; (split; [done|]; split; [|unfold text_is_valid; by rewrite N, andb_false_r]).
    + done.
    + by rewrite short.
  - case_match eqn:C; bool_prop; do 2 eexists; (split; [done|]; split; [rewrite (clean _ N)|]).
    + done.
    + unfold text_is_valid; intros [[_ ?]%andb_true_iff _]%andb_true_iff; bool_prop; lia.
    + by rewrite short.
    + done.
Qed.

Lemma push_flag_valid flags :
  quality_flags_are_valid flags = true -> quality_flags_are_valid (push_quality_flag flags INVALID_BOUNDARY_FLAG) = true.
Proof.
  unfold push_quality_flag; case_match; [done|]; unfold quality_flags_are_valid; intros [H1 H2]%andb_true_iff.
  rewrite forallb_app, forallb_take by done; rewrite length_app, length_take; cbn [length forallb].
  rewrite andb_true_iff; split; [unfold MAX_QUALITY_FLAGS in *; bool_prop; lia|reflexivity].
Qed.

Lemma push_flag_in flags flag : flag ∈ push_quality_flag flags flag.
Proof.
  unfold push_quality_flag; case_match eqn:E; [|apply elem_of_app; right; left].
  apply existsb_Exists in E as (x & Hx & ->%str_eqb_eq); exact Hx.
Qed.

Lemma salvage_interval_ok d p t :
  0 < d <= I64.max_value -> -1 <= previous_start p < d -> start_ms t < d ->
  quality_flags_are_valid (quality_flags t) = true ->
  exists start end_ o flags b, salvage_interval d p t = (set_span start end_ o flags t, b)
    /\ 0 <= start < end_ /\ end_ <= d /\ previous_start p <= start
    /\ (start < previous_end p -> o = true \/ previous_overlap p = true)
    /\ (overlap t = true -> o = true)
    /\ quality_flags_are_valid flags = true
    /\ (start = start_ms t /\ end_ = end_ms t \/ INVALID_BOUNDARY_FLAG ∈ flags).
Proof.
  intros Hd Hp Ht Hf; unfold salvage_interval.
  set (s1 := if start_ms t <? 0 then (0, true) else (start_ms t, false)).
  assert (H1 : 0 <= s1.1 < d /\ (s1.2 = false -> s1.1 = start_ms t)).
  { unfold s1; case_ifs; bool_prop; cbn; split; try lia; done. }
  destruct s1 as [x1 b1]; cbn [fst snd] in H1.
  set (s2 := if x1 <? previous_start p then (previous_start p, true) else (x1, b1)).
  assert (H2 : 0 <= s2.1 < d /\ previous_start p <= s2.1 /\ (s2.2 = false -> s2.1 = start_ms t)).
  { unfold s2; case_ifs; bool_prop; cbn; split_and!; try lia; try done; apply H1. }
  destruct s2 as [x2 b2]; cbn [fst snd] in H2.
  set (s3 := if d <? end_ms t then (d, true) else (end_ms t, b2)).
  assert (H3 : s3.1 <= d /\ (s3.2 = false -> x2 = start_ms t /\ s3.1 = end_ms t)).
  { unfold s3; case_ifs; bool_prop; cbn; split_and!; try lia; try done; intros E; split; [apply H2, E|done]. }
  destruct s3 as [x3 b3]; cbn [fst snd] in H3.
  set (s4 := if x3 <=? x2 then (Z.min (I64.saturating_add x2 1000) d, true) else (x3, b3)).
  assert (H4 : x2 < s4.1 <= d /\ (s4.2 = false -> x2 = start_ms t /\ s4.1 = end_ms t)).
  { unfold s4; case_ifs; bool_prop; cbn; split_and!; try lia; try done; try apply H3.
    unfold I64.saturating_add, I64.clamp, I64.min_value, I64.max_value in *; lia. }
  destruct s4 as [x4 b4]; cbn [fst snd] in H4.
  do 5 eexists; split; [done|]; split_and!; try lia.
  - destruct (overlap t), (previous_overlap p); cbn; auto; intros E; left; bool_prop; lia.
  - intros ->; done.
  - destruct b4; [by apply push_flag_valid|done].
  - destruct b4; [right; apply push_flag_in|left; by apply H4].
Qed.

(** Nothing changes where nothing is wrong. *)
Lemma salvage_interval_id d p t :
  0 <= start_ms t < end_ms t -> end_ms t <= d -> previous_start p <= start_ms t ->
  (start_ms t < previous_end p -> overlap t = true \/ previous_overlap p = true) ->
  salvage_interval d p t = (t, false).
Proof.
  intros H1 H2 H3 H4; unfold salvage_interval.
  rewrite (proj2 (Z.ltb_ge (start_ms t) 0)) by lia; rewrite (proj2 (Z.ltb_ge (start_ms t) (previous_start p))) by lia.
  rewrite (proj2 (Z.ltb_ge d (end_ms t))) by lia; rewrite (proj2 (Z.leb_gt (end_ms t) (start_ms t))) by lia.
  assert ((start_ms t <? previous_end p) && negb (overlap t) && negb (previous_overlap p) = false) as ->.
  { destruct (start_ms t <? previous_end p) eqn:E; [|done]; apply Z.ltb_lt in E; destruct (H4 E) as [->| ->]; [done|].
    by rewrite andb_false_r. }
  rewrite orb_false_r; by destruct t.
Qed.

(** ** One turn under contract 3 *)

Definition salvaged_speaker (s : str) : str := if valid_id s then s else salvaged_id s.

(** A turn something remains of. *)
Definition usable (d : Z) (t : AudioTurn) : bool :=
  negb (is_empty (take (Z.to_nat MAX_TEXT_LEN) (without_nul (text t)))) && (start_ms t <? d)
  && negb (is_empty (salvaged_speaker (speaker_local_id t))).

(** What a kept turn has of the one it was made from. *)
Definition repaired (d : Z) (t t' : AudioTurn) : Prop :=
  text t' = take (Z.to_nat MAX_TEXT_LEN) (without_nul (text t))
  /\ speaker_local_id t' = salvaged_speaker (speaker_local_id t)
  /\ (start_ms t' = start_ms t /\ end_ms t' = clamped_end d t \/ INVALID_BOUNDARY_FLAG ∈ quality_flags t')
  /\ (overlap t = true -> overlap t' = true)
  /\ person_facts t' = valid_facts (person_facts t).

Lemma repair_turn_id_ok index t :
  0 <= index < 2 ^ 64 -> exists id b, repair_turn_id 3 index t = Ok (id, b) /\ valid_id id = true.
Proof.
  intros H; unfold repair_turn_id; cbn [Z.leb Z.compare Pos.compare Pos.compare_cont negb].
  destruct (valid_id (turn_id t)) eqn:V; [by do 2 eexists|]; do 2 eexists; split; [done|].
  case_match eqn:E; [by apply fallback_id_valid|by apply salvaged_id_valid].
Qed.

Lemma repair_speaker_ok t :
  exists b, repair_speaker 3 t =
    Ok (if is_empty (salvaged_speaker (speaker_local_id t)) then None
        else Some (salvaged_speaker (speaker_local_id t), b))
    /\ (is_empty (salvaged_speaker (speaker_local_id t)) = false ->
        valid_id (salvaged_speaker (speaker_local_id t)) = true).
Proof.
  unfold repair_speaker, salvaged_speaker; cbn [Z.leb Z.compare Pos.compare Pos.compare_cont negb].
  destruct (valid_id (speaker_local_id t)) eqn:V.
  - exists false; split; [|done]; assert (is_empty (speaker_local_id t) = false) as ->; [|done].
    by unfold valid_id in V; destruct (speaker_local_id t).
  - exists true; split; [by case_match|apply salvaged_id_valid].
Qed.

Lemma salvage_flags_ok flags : quality_flags_are_valid (salvage_flags flags).1 = true.
Proof.
  unfold salvage_flags; case_match; [done|]; cbn [fst]; unfold quality_flags_are_valid.
  rewrite forallb_take by apply forallb_filter; rewrite length_take; bool_prop; split; [lia|done].
Qed.

Lemma pass_start d p : pass_ok d p -> 0 < d -> -1 <= previous_start p < d.
Proof.
  intros ((Hok & _) & _ & E) Hd; unfold tail_of in E; destruct (last (turns p)) as [a|] eqn:L; injection E as -> _ _; [|lia].
  rewrite Forall_forall in Hok; destruct (Hok a) as (_ & _ & H & H' & _); [|lia].
  by apply last_Some_elem_of.
Qed.

Lemma salvage_turn_ok d reserved p index t :
  pass_ok d p -> 0 < d <= I64.max_value -> 0 <= index < 2 ^ 62 ->
  Z.of_nat (size reserved + size (ids p)) < 2 ^ 62 ->
  exists p', audio_turn 3 d reserved p index t = Some (Ok p')
    /\ if usable d t
       then exists t' a, p' = keep p t' a ({[turn_id t']} ∪ ids p)
              /\ transcript_ok d (turns p ++ [t']) /\ repaired d t t'
       else p' = drop_turn p.
Proof.
  intros Hp Hd Hi Hs; unfold audio_turn, usable; cbn [Z.eqb Pos.eqb Z.leb Z.compare Pos.compare Pos.compare_cont].
  destruct (salvage_text_ok t) as (t1 & a1 & -> & -> & _).
  set (s := take _ (without_nul (text t))); cbn [text start_ms set_text].
  destruct (is_empty s) eqn:Es; cbn [orb negb andb]; [by eexists|].
  destruct (d <=? start_ms t) eqn:Est; cbn [negb andb].
  { rewrite (proj2 (Z.ltb_ge (start_ms t) d)) by (bool_prop; lia); by eexists. }
  rewrite (proj2 (Z.ltb_lt (start_ms t) d)) by (bool_prop; lia); cbn [andb]; unfold salvage_turn.
  destruct (repair_turn_id_ok index (set_text s t)) as (id & r & -> & Vid); [lia|].
  destruct (repair_speaker_ok (set_text s t)) as (b & -> & Vsp); cbn [speaker_local_id set_text] in *.
  destruct (is_empty (salvaged_speaker _)) eqn:Esp; cbn [negb]; [by eexists|]; specialize (Vsp eq_refl).
  destruct (unique_turn_id_ok reserved (ids p) id r Vid Hs) as (id' & b' & -> & Vid' & Fresh); cbn [mbind option_bind].
  destruct (salvage_flags _) as [flags fl] eqn:Ef.
  assert (Vf : quality_flags_are_valid flags = true) by (pose proof (salvage_flags_ok (quality_flags (set_text s t))) as V;
    cbn in *; by rewrite Ef in V).
  match goal with |- context [salvage_interval d p ?u] =>
    destruct (salvage_interval_ok d p u Hd (pass_start d p Hp ltac:(lia)) ltac:(cbn; bool_prop; lia) Vf)
      as (st & en & o & fs & m & -> & I1 & I2 & I3 & I4 & I5 & I6 & I7) end.
  match goal with |- context [repair_fields 3 ?u] =>
    destruct (salvage_fields_ok u) as (t' & c & -> & Eq & Vl & Vp & Vn & Ff & _) end.
  cbn in Eq, Ff, I5, I7; injection Eq as E1 E2 E3 E4 E5 E6 E7.
  eexists; split; [done|]; cbn [result_bind fst snd]; exists t'; eexists; split; [by rewrite E1|].
  split; [|unfold repaired; rewrite E2, E3, E4, E5, E6, E7; split_and!; done].
  apply transcript_snoc; split; [apply Hp|]; split; [|split].
  - unfold turn_ok; rewrite E1, E2, E3, E4, E5, E7; split_and!; try done; try lia.
    unfold text_is_valid; rewrite Es; cbn [negb andb]; rewrite andb_true_iff; split.
    + unfold s, char_count; rewrite length_take; bool_prop; unfold MAX_TEXT_LEN; lia.
    + apply negb_true_iff, existsb_false; intros x Hx.
      apply elem_of_take in Hx as (k & Hx & _); apply list_elem_of_lookup_2 in Hx.
      unfold without_nul in Hx; apply list_elem_of_filter in Hx as [Hx _]; apply N.eqb_neq; congruence.
  - rewrite <- (pass_ids d) by done; by rewrite E1.
  - apply (follows_last d p); [done|lia|]; rewrite E3, E6; done.
Qed.

Lemma pass_size d p : pass_ok d p -> size (ids p) = length (turns p).
Proof. intros ((_ & Hn & _) & -> & _); by rewrite size_list_to_set, length_fmap. Qed.

Lemma salvage_loop d reserved p i l :
  pass_ok d p -> 0 < d <= I64.max_value -> Z.of_nat (length (turns p)) <= i ->
  i + Z.of_nat (length l) <= MAX_TURNS -> Z.of_nat (size reserved) <= MAX_TURNS ->
  exists p' kept, audio_turns 3 d reserved p i l = Some (Ok p')
    /\ transcript_ok d (turns p') /\ turns p' = turns p ++ kept
    /\ Forall2 (repaired d) (filter (fun t => usable d t = true) l) kept
    /\ dropped_turns (report p') = dropped_turns (report p) + Z.of_nat (length l) - Z.of_nat (length kept)
    /\ adjusted_turns (report p) <= adjusted_turns (report p') <= adjusted_turns (report p) + Z.of_nat (length kept).
Proof.
  intros Hp Hd; revert p i Hp; induction l as [|t l IH]; intros p i Hp Hn Hl Hr.
  { exists p, []; rewrite app_nil_r; split; [done|]; split; [apply Hp|]; split; [done|]; split; [constructor|].
    cbn [length]; lia. }
  pose proof (pass_size d p Hp) as Hs; unfold MAX_TURNS in *; cbn [length] in Hl.
  destruct (salvage_turn_ok d reserved p i t Hp Hd ltac:(lia) ltac:(rewrite Hs; lia)) as (p1 & E & H).
  cbn [audio_turns]; rewrite E; destruct (usable d t) eqn:U.
  - destruct H as (t' & a & -> & Hok & Hrep).
    destruct (IH _ (i + 1) (keep_ok d p t' a Hp Hok)) as (p' & kept & E' & H1 & H2 & H3 & H4 & H5); [|lia|done|].
    { cbn; rewrite length_app; cbn; lia. }
    exists p', (t' :: kept); rewrite filter_cons_True by done; cbn [length] in *; cbn in H2, H4, H5.
    split_and!; [done|done|by rewrite H2, <- app_assoc|by constructor|lia|destruct a; lia|destruct a; lia].
  - subst p1; destruct (IH (drop_turn p) (i + 1)) as (p' & kept & E' & H1 & H2 & H3 & H4 & H5); [exact Hp|cbn; lia|lia|done|].
    exists p', kept; rewrite filter_cons_False by (by rewrite U); cbn [length] in *; cbn in H2, H4, H5.
    split_and!; try done; lia.
Qed.

Lemma reserved_size cv l : Z.of_nat (size (reserved_ids cv l)) <= Z.of_nat (length l).
Proof.
  unfold reserved_ids; case_match; [|rewrite size_empty; lia].
  set (k := turn_id <$> _); assert (size (list_to_set k : gset str) <= length k)%nat.
  { clear; induction k as [|x k IH]; [done|]; cbn [list_to_set foldr length]; rewrite size_union_alt, size_singleton.
    pose proof (subseteq_size ((list_to_set k : gset str) ∖ {[x]}) (list_to_set k) ltac:(set_solver)).
    unfold list_to_set in *; cbn in *; lia. }
  unfold k in *; rewrite length_fmap in *; pose proof (length_filter (fun t => valid_id (turn_id t) = true) l); lia.
Qed.

(** Contract 3 never loses a window to one bad turn.  For every window
    and every result of at most ten thousand turns it returns, without error
    or divergence, a transcript of the window, strict in every respect.  The
    turns kept are in order those with text, inside the window and with a
    recoverable speaker; each keeps its text without NULs, its speaker, its
    valid facts and its overlap marker, and either its exact interval or the
    flag that bars it from voice matching.  The report counts the rest. *)
Theorem salvage_total_and_valid d audio_result_from_str raw l :
  0 < d <= I64.max_value -> audio_result_from_str raw = Some l -> Z.of_nat (length l) <= MAX_TURNS ->
  exists kept salvage,
    parse_audio_result_with_salvage 3 d audio_result_from_str raw = Some (Ok (kept, salvage))
    /\ transcript_ok d kept
    /\ Forall2 (repaired d) (filter (fun t => usable d t = true) l) kept
    /\ dropped_turns salvage = Z.of_nat (length l) - Z.of_nat (length kept)
    /\ 0 <= adjusted_turns salvage <= Z.of_nat (length kept).
Proof.
  intros Hd Hl Hn; unfold parse_audio_result_with_salvage, read_turns; rewrite Hl; cbn [within negb Z.leb Z.compare Pos.compare Pos.compare_cont andb].
  rewrite (proj2 (Z.ltb_ge MAX_TURNS _)) by done; pose proof (reserved_size 3 l).
  destruct (salvage_loop d (reserved_ids 3 l) start_pass 0 l (start_pass_ok d) Hd)
    as (p & kept & -> & H1 & H2 & H3 & H4 & H5); [done|lia|lia|]; cbn in H2, H4, H5; cbn [mbind option_bind result_bind].
  rewrite H2 in *; exists kept, (report p); split_and!; [done|done|done|lia|lia|lia].
Qed.

(** ** Contract 3 extends contract 2 *)

Lemma conservative_turn d reserved p i t :
  pass_ok d p -> transcript_ok d (turns p ++ [clamp_turn d t]) ->
  audio_turn 3 d reserved p i t = Some (Ok (keep p (clamp_turn d t) false ({[turn_id t]} ∪ ids p))).
Proof.
  intros Hp (_ & (V1 & V2 & I1 & I2 & Vt & Vl & Vf & Vn & Vq) & N & F)%transcript_snoc; cbn in *.
  unfold audio_turn; cbn [Z.eqb Pos.eqb Z.leb Z.compare Pos.compare Pos.compare_cont].
  destruct (salvage_text_ok t) as (t1 & a1 & -> & _ & E); specialize (E Vt); injection E as -> ->.
  assert (is_empty (text t) = false) as ->.
  { unfold text_is_valid in Vt; destruct (is_empty (text t)); done. }
  rewrite (proj2 (Z.leb_gt d (start_ms t))) by lia; cbn [orb]; unfold salvage_turn, repair_turn_id, repair_speaker.
  rewrite V1, V2; unfold unique_turn_id; rewrite <- (pass_ids d) in N by done.
  rewrite (bool_decide_eq_true_2 (turn_id t ∉ ids p)) by done; cbn [negb orb andb mbind option_bind].
  rewrite str_eqb_refl; unfold salvage_flags; cbn [quality_flags set_ids]; rewrite Vq.
  assert (set_ids (turn_id t) (speaker_local_id t) (speaker_name_subject_turn_id t)
            (speaker_name_target_turn_id t) t = t) as -> by by destruct t.
  change (set_span _ _ _ _ t) with (clamp_turn d t).
  apply (follows_last d p (clamp_turn d t)) in F as [F1 F2]; [|done|cbn; lia].
  rewrite salvage_interval_id by done.
  destruct (salvage_fields_ok (clamp_turn d t)) as (t' & c & -> & _ & _ & _ & _ & _ & E); specialize (E Vl Vf Vn).
  by injection E as -> ->.
Qed.

Lemma conservative_loop d reserved p i l :
  pass_ok d p -> transcript_ok d (turns p ++ (clamp_turn d <$> l)) ->
  exists p', audio_turns 3 d reserved p i l = Some (Ok p')
    /\ turns p' = turns p ++ (clamp_turn d <$> l) /\ report p' = report p.
Proof.
  revert p i; induction l as [|t l IH]; intros p i Hp H.
  { exists p; cbn; by rewrite app_nil_r. }
  change (turns p ++ (clamp_turn d <$> t :: l)) with (turns p ++ [clamp_turn d t] ++ (clamp_turn d <$> l)) in *.
  rewrite app_assoc in *; pose proof (transcript_prefix _ _ _ H) as H1.
  cbn [audio_turns]; rewrite conservative_turn by done.
  destruct (IH _ (i + 1) (keep_ok d p _ false Hp H1) H) as (p' & Ep & E & R); exists p'; split; [exact Ep|]; split; [exact E|].
  rewrite R; cbn; rewrite Z.add_0_r; by destruct (report p).
Qed.

(** Contract 3 is a conservative extension of contract 2: a result that
    contract 2 accepts is returned unchanged by contract 3, with nothing
    reported as salvaged. *)
Theorem salvage_conservative d audio_result_from_str raw kept salvage :
  parse_audio_result_with_salvage 2 d audio_result_from_str raw = Some (Ok (kept, salvage)) ->
  parse_audio_result_with_salvage 3 d audio_result_from_str raw = Some (Ok (kept, salvage)).
Proof.
  unfold parse_audio_result_with_salvage, read_turns; cbn [within negb Z.leb Z.compare Pos.compare Pos.compare_cont andb].
  destruct (audio_result_from_str raw) as [l|]; [|done].
  destruct (MAX_TURNS <? Z.of_nat (length l)); [done|].
  destruct (strict_loop 2 d (reserved_ids 2 l) start_pass 0 l eq_refl (start_pass_ok d)) as (answer & -> & H).
  destruct answer as [p|e]; cbn [mbind option_bind result_bind]; [|done]; intros E; injection E as <- <-.
  destruct H as (H1 & H2 & H3).
  destruct (conservative_loop d (reserved_ids 3 l) start_pass 0 l (start_pass_ok d) H1) as (p' & -> & H4 & H5).
  by cbn [mbind option_bind result_bind]; rewrite H2, H3, H4, H5.
Qed.

(** ** A concrete window *)

Definition sample_turn (id : string) (start end_ : Z) (speaker words : string) : AudioTurn := {|
  turn_id := lit id; start_ms := start; end_ms := end_; speaker_local_id := lit speaker; text := lit words;
  language := Some (lit "en"); speaker_name := None; speaker_name_confidence := None;
  speaker_name_evidence := None; speaker_name_kind := None; speaker_name_subject_turn_id := None;
  speaker_name_target_turn_id := None;
  person_facts := [{| predicate := lit "role"; pf_value := lit "engineer"; pf_evidence := lit "I build engines";
                      pf_confidence := Some (f64_lit 3 4); replacement_of := None |}];
  overlap := false; quality_flags := [] |}.

(** The last turn overshoots the window by less than the tolerance. *)
Definition sample_window : list AudioTurn :=
  [sample_turn "t1" 0 4000 "S1" "hello"; sample_turn "t2" 4000 9600 "S2" "good morning"].

(** A repeated identifier, a stray space in a speaker, an interval out of
    order, and a turn past the window. *)
Definition sample_damage : list AudioTurn :=
  [sample_turn "t1" 0 4000 "S1 " "hello"; sample_turn "t1" 3000 2000 "S2" "good morning";
   sample_turn "t3" 9500 9900 "S1" "lost"].


Lemma salvage_total_and_valid_witness :
  exists kept salvage,
    parse_audio_result_with_salvage 3 9000 (fun _ => Some sample_damage) [] = Some (Ok (kept, salvage))
    /\ transcript_ok 9000 kept /\ (turn_id <$> kept) = lit <$> ["t1"; "t1-2"]%string
    /\ dropped_turns salvage = 1.
Proof.
  destruct (salvage_total_and_valid 9000 (fun _ => Some sample_damage) [] sample_damage)
    as (kept & salvage & E & H & _); [vm_compute; split; [reflexivity|discriminate]|done|vm_compute; discriminate|].
  exists kept, salvage; split; [exact E|]; split; [exact H|].
  vm_compute in E; injection E as <- <-; split; reflexivity.
Defined.

Lemma salvage_conservative_witness :
  parse_audio_result_with_salvage 3 9000 (fun _ => Some sample_window) []
    = Some (Ok (prepared 2 9000 <$> sample_window, untouched)).
Proof. apply salvage_conservative; vm_compute; reflexivity. Defined.
