(* ===== verification/MediaKeys.v ===== *)
(** * Keys of stored media

    [gcs.rs]: the object names and encryption contexts of stored media;
    [crypto.rs]: the envelope that binds a ciphertext to its context;
    [cp/tokens.rs]: the lease that lets a device record under a retention
    policy.  The authenticated cipher, HMAC, base64 and serde's JSON are
    parameters; random nonces are arguments. *)
From Stdlib Require Import ZArith Lia.
From S2P Require Import Prelude OrdMap Text F64 Errors Bytes CaptureManifest.
Local Open Scope Z_scope.
Local Open Scope kioku_scope.

(** ** Object names and contexts *)

Definition validate_user_id (user_id : str) : res unit :=
  if valid_id user_id then Ok tt else Err (invalid "invalid user_id: must match [A-Za-z0-9_-]{1,128}").

Definition validate_asset_id (asset_id : str) (kind : string) : res unit :=
  if valid_id asset_id then Ok tt
  else Err (InvalidRequest (lit "invalid " ++ lit kind ++ lit " asset identifier")).

Definition canonical_capture_media_object_key (user_id asset_id : str) : res str :=
  let? _ := validate_user_id user_id in
  let? _ := validate_asset_id asset_id "canonical capture" in
  Ok (lit "raw/" ++ user_id ++ lit "/" ++ asset_id ++ lit ".enc").

Definition canonical_recording_media_object_key (user_id asset_id : str) : res str :=
  let? _ := validate_user_id user_id in
  let? _ := validate_asset_id asset_id "durable recording" in
  Ok (lit "recordings/" ++ user_id ++ lit "/" ++ asset_id ++ lit ".enc").

Definition media_blob_context (user_id object_key : str) : bytes :=
  as_bytes (lit "media" ++ [0%N] ++ user_id ++ [0%N] ++ object_key).

(** [rpe_] and 64 hexadecimal characters. *)
Definition valid_policy_epoch (epoch : str) : bool :=
  (byte_len epoch =? 68) && starts_with (lit "rpe_") epoch && forallb is_ascii_hexdigit (drop 4 epoch).

Section Contexts.
Context (sha256 : bytes -> bytes).

Definition recording_media_key_reference (key_epoch : Z) (policy_epoch : str) : res str :=
  if (key_epoch <=? 0) || negb (valid_policy_epoch policy_epoch)
  then Err (invalid "invalid durable recording key reference")
  else Ok (lit "recording-key-v1:" ++ dec key_epoch ++ lit ":" ++ sha256_hex sha256 (as_bytes policy_epoch)).

(** [is_ascii_control], on a character as on its bytes. *)
Definition is_ascii_control (c : char) : bool := (c <? 32)%N || (c =? 127)%N.

Definition bad_context_field (value : str) : bool :=
  is_empty value || (128 <? byte_len value) || existsb (fun c => (c =? 0)%N || is_ascii_control c) value.

Definition append_field : str -> res bytes :=
  code_text (count_u32 (invalid "durable recording context is too large")).

(** The facts a durable recording's ciphertext is bound to. *)
Record RecordingContext := {
  rc_user_id : str;
  rc_object_key : str;
  rc_key_epoch : Z;
  rc_policy_epoch : str;
  rc_event_id : str;
  rc_asset_id : str;
  rc_capture_session_id : str;
  rc_stream_kind : str;
  rc_codec : str;
  rc_byte_length : Z;
  rc_plaintext_sha256 : str
}.

Definition recording_context_is_invalid (c : RecordingContext) (expected_key : str) : bool :=
  negb (str_eqb (rc_object_key c) expected_key) || (rc_key_epoch c <=? 0)
  || negb (valid_policy_epoch (rc_policy_epoch c)) || (rc_byte_length c <=? 0)
  || negb (validate_sha256 (rc_plaintext_sha256 c))
  || existsb bad_context_field [rc_event_id c; rc_capture_session_id c; rc_stream_kind c; rc_codec c].

Definition recording_context_fields (c : RecordingContext) : list str :=
  [rc_user_id c; rc_object_key c; rc_policy_epoch c; rc_event_id c; rc_asset_id c; rc_capture_session_id c;
   rc_stream_kind c; rc_codec c; dec (rc_byte_length c); to_ascii_lowercase (rc_plaintext_sha256 c)].

Definition recording_media_blob_context (c : RecordingContext) : res bytes :=
  let? _ := validate_user_id (rc_user_id c) in
  let? expected_key := canonical_recording_media_object_key (rc_user_id c) (rc_asset_id c) in
  let? _ := refuse (recording_context_is_invalid c expected_key) (invalid "invalid durable recording encryption context") in
  let? fields := code_items append_field (recording_context_fields c) in
  Ok ((blit "kioku.recording-media.v1" ++ [0%N]) ++ fields ++ be_bytes 8 (rc_key_epoch c)).
End Contexts.

(** ** The envelope *)

Definition BOUND_BLOB_V2_MAGIC : bytes := blit "KIOKU-BLOB" ++ [2%N].
Definition BOUND_BLOB_V2_DOMAIN : bytes := blit "kioku-enclave:bound-blob:v2" ++ [0%N].

(** AES-256-GCM as the library exposes it: [seal] and [open] under a key, a
    nonce of twelve bytes and associated data. *)
Record Aead := {
  seal : bytes -> bytes -> bytes -> bytes -> option bytes;
  open : bytes -> bytes -> bytes -> bytes -> option bytes;
  aead_error : str  (* the text of the library's one error *)
}.

Section Envelope.
Context (aead : Aead).

Definition encrypt_blob_with_aad (dek nonce plaintext aad : bytes) : res bytes :=
  let? ciphertext := ok_or (seal aead dek nonce aad plaintext) (Crypto (aead_error aead)) in
  Ok (nonce ++ ciphertext).

Definition decrypt_blob_with_aad (dek blob aad : bytes) : res bytes :=
  if (length blob <? 12)%nat then Err (Crypto (lit "blob too short"))
  else ok_or (open aead dek (take 12 blob) aad (drop 12 blob)) (Crypto (lit "decrypt failed: " ++ aead_error aead)).

Definition bound_blob_aad (context : bytes) : bytes := BOUND_BLOB_V2_DOMAIN ++ context.

Definition encrypt_bound_blob (dek nonce plaintext context : bytes) : res bytes :=
  let? encrypted := encrypt_blob_with_aad dek nonce plaintext (bound_blob_aad context) in
  Ok (BOUND_BLOB_V2_MAGIC ++ encrypted).

Definition decrypt_bound_blob (dek blob context : bytes) : res bytes :=
  let? encrypted := ok_or (strip_prefix BOUND_BLOB_V2_MAGIC blob)
    (Crypto (lit "current media blob is not context-bound v2")) in
  decrypt_blob_with_aad dek encrypted (bound_blob_aad context).

Definition decrypt_bound_blob_v2 (dek blob context : bytes) : res bytes := decrypt_bound_blob dek blob context.
End Envelope.

(** ** The recording-retention lease *)

Definition RECORDING_RETENTION_LEASE_DOMAIN : bytes := blit "kioku.recording-retention-lease.v1" ++ [0%N].

Record RecordingRetentionLeaseClaims := {
  lc_user_id : str;
  lc_lease_id : str;
  lc_policy_revision : Z;
  lc_policy_epoch : str;
  valid_from_epoch_millis : Z;
  capture_started_before_epoch_millis : Z;
  valid_until_epoch_millis : Z
}.

Definition valid_recording_retention_lease_claims (c : RecordingRetentionLeaseClaims) : bool :=
  valid_id (lc_user_id c)
  && starts_with (lit "lease_") (lc_lease_id c) && (byte_len (lc_lease_id c) =? 70)
  && forallb (fun b => is_ascii_alphanumeric b || (b =? ch "_")%N) (lc_lease_id c)
  && (0 <? lc_policy_revision c) && valid_policy_epoch (lc_policy_epoch c)
  && (0 <=? valid_from_epoch_millis c)
  && (valid_from_epoch_millis c <? capture_started_before_epoch_millis c)
  && (capture_started_before_epoch_millis c <=? valid_until_epoch_millis c)
  && (I64.saturating_sub (valid_until_epoch_millis c) (valid_from_epoch_millis c) <=? 5 * 60 * 1000).

Definition hex_value (c : char) : N :=
  if is_ascii_digit c then (c - 48)%N else if is_ascii_lowercase c then (c - 87)%N else (c - 55)%N.

Fixpoint hex_pairs (s : str) : bytes :=
  match s with
  | a :: b :: s => (hex_value a * 16 + hex_value b)%N :: hex_pairs s
  | _ => []
  end.

Definition decode_hex_32 (value : str) : option bytes :=
  if negb (byte_len value =? 64) || negb (forallb is_ascii_hexdigit value) then None else Some (hex_pairs value).

Section Lease.
(** HMAC-SHA-256 of a key and a message; the claims' JSON; base64url. *)
Context (hmac : bytes -> bytes -> bytes).
Context (claims_to_vec : RecordingRetentionLeaseClaims -> option bytes).
Context (claims_from_slice : bytes -> option RecordingRetentionLeaseClaims).
Context (b64_encode : bytes -> str) (b64_decode : str -> option bytes).

Definition lease_mac (secret : str) (payload : str) : bytes :=
  hmac (as_bytes secret) (RECORDING_RETENTION_LEASE_DOMAIN ++ as_bytes payload).

Definition issue_recording_retention_lease (secret : str) (claims : RecordingRetentionLeaseClaims) : res str :=
  let? _ := refuse ((byte_len secret <? 16) || negb (valid_recording_retention_lease_claims claims))
    (invalid "invalid recording retention lease authority") in
  let? payload := ok_or (claims_to_vec claims) Errors.Json in
  let encoded := b64_encode payload in
  Ok (lit "rrl1." ++ encoded ++ lit "." ++ hex_of_bytes (lease_mac secret encoded)).

Definition lease_rejected : EnclaveError := Auth (lit "recording retention lease rejected").

Definition verify_recording_retention_lease (secrets : list str) (token : str) : res RecordingRetentionLeaseClaims :=
  if 2048 <? byte_len token then Err lease_rejected
  else
    match split (ch ".") token with
    | [version; payload; signature] =>
      let? _ := refuse (negb (str_eqb version (lit "rrl1"))) lease_rejected in
      let? signature := ok_or (decode_hex_32 signature) lease_rejected in
      let? _ := refuse (negb (existsb (fun secret => bool_decide (lease_mac secret payload = signature)) secrets))
        lease_rejected in
      let? decoded := ok_or (b64_decode payload) lease_rejected in
      let? claims := ok_or (claims_from_slice decoded) lease_rejected in
      let? _ := refuse (negb (valid_recording_retention_lease_claims claims)) lease_rejected in
      Ok claims
    | _ => Err lease_rejected
    end.
End Lease.

(** ** Names and contexts determine what they name *)

Lemma valid_id_chars s c : valid_id s = true -> id_char c = false -> c ∉ s.
Proof.
  intros [_ H]%andb_true_iff Hc Hin; rewrite forallb_Forall, Forall_forall in H; by rewrite H in Hc.
Qed.

Lemma key_inj prefix u a u' a' :
  valid_id u = true -> valid_id u' = true ->
  lit prefix ++ u ++ lit "/" ++ a ++ lit ".enc" = lit prefix ++ u' ++ lit "/" ++ a' ++ lit ".enc" -> u = u' /\ a = a'.
Proof.
  intros Hu Hu' E; apply app_inv_head in E.
  pose proof (split_once_app (ch "/") u (a ++ lit ".enc") (valid_id_chars u (ch "/") Hu eq_refl)) as S.
  pose proof (split_once_app (ch "/") u' (a' ++ lit ".enc") (valid_id_chars u' (ch "/") Hu' eq_refl)) as S'.
  change (lit "/") with [ch "/"] in E; cbn [app] in E; rewrite E, S' in S; injection S as -> Ea.
  by apply app_inv_tail in Ea.
Qed.

Lemma capture_key_Ok u a k :
  canonical_capture_media_object_key u a = Ok k ->
  valid_id u = true /\ valid_id a = true /\ k = lit "raw/" ++ u ++ lit "/" ++ a ++ lit ".enc".
Proof.
  unfold canonical_capture_media_object_key, validate_user_id, validate_asset_id; intros H; all_ok.
  by destruct (valid_id u), (valid_id a); simplify_eq.
Qed.

Lemma recording_key_Ok u a k :
  canonical_recording_media_object_key u a = Ok k ->
  valid_id u = true /\ valid_id a = true /\ k = lit "recordings/" ++ u ++ lit "/" ++ a ++ lit ".enc".
Proof.
  unfold canonical_recording_media_object_key, validate_user_id, validate_asset_id; intros H; all_ok.
  by destruct (valid_id u), (valid_id a); simplify_eq.
Qed.

(** A context of processing media determines its user and object. *)
Lemma media_blob_context_inj u k u' k' :
  valid_id u = true -> valid_id u' = true -> Forall is_scalar k -> Forall is_scalar k' ->
  media_blob_context u k = media_blob_context u' k' -> u = u' /\ k = k'.
Proof.
  intros Hu Hu' Hk Hk' E; unfold media_blob_context in E; apply as_bytes_inj in E.
  - do 2 apply app_inv_head in E.
    pose proof (split_once_app 0%N u k (valid_id_chars u 0%N Hu eq_refl)) as S.
    pose proof (split_once_app 0%N u' k' (valid_id_chars u' 0%N Hu' eq_refl)) as S'.
    pose proof (eq_trans (eq_sym S) (eq_trans (f_equal (split_once 0%N) E) S')) as X.
    by injection X as -> ->.
  - repeat (apply Forall_app; split); try done; [|by constructor|by apply valid_id_scalar|by constructor].
    repeat constructor.
  - repeat (apply Forall_app; split); try done; [|by constructor|by apply valid_id_scalar|by constructor].
    repeat constructor.
Qed.

(** What the types of a context's texts ensure. *)
Definition context_typed (c : RecordingContext) : Prop :=
  I64.in_range (rc_key_epoch c)
  /\ Forall (Forall is_scalar) [rc_event_id c; rc_capture_session_id c; rc_stream_kind c; rc_codec c].

Lemma ascii_scalar (p : char -> bool) s :
  (forall c, p c = true -> (c < 0x80)%N) -> forallb p s = true -> Forall is_scalar s.
Proof.
  intros Hp H; rewrite forallb_Forall in H; eapply Forall_impl; [exact H|]; intros c Hc%Hp; unfold is_scalar; lia.
Qed.

Lemma hexdigit_ascii c : is_ascii_hexdigit c = true -> (c < 0x80)%N.
Proof. unfold is_ascii_hexdigit, is_ascii_digit; bool_prop; lia. Qed.

Lemma policy_epoch_scalar e : valid_policy_epoch e = true -> Forall is_scalar e.
Proof.
  intros [[_ [r ->]%starts_with_spec]%andb_true_iff H]%andb_true_iff; apply Forall_app; split; [by repeat constructor|].
  by apply (ascii_scalar is_ascii_hexdigit); [apply hexdigit_ascii|].
Qed.

Lemma lowercase_scalar s : Forall is_scalar s -> Forall is_scalar (to_ascii_lowercase s).
Proof.
  intros H; apply Forall_fmap; eapply Forall_impl; [exact H|]; intros c Hc; unfold is_scalar in *; cbn.
  unfold to_ascii_lower_char; case_match eqn:E; [|exact Hc]; unfold is_ascii_uppercase in E; bool_prop; lia.
Qed.

#[export] Instance append_field_prefix : PrefixCode (Forall is_scalar) append_field.
Proof. unfold append_field; apply _. Qed.

Lemma recording_context_inv c x :
  recording_media_blob_context c = Ok x -> context_typed c ->
  exists fields, code_items append_field (recording_context_fields c) = Ok fields
    /\ x = (blit "kioku.recording-media.v1" ++ [0%N]) ++ fields ++ be_bytes 8 (rc_key_epoch c)
    /\ Forall (Forall is_scalar) (recording_context_fields c)
    /\ canonical_recording_media_object_key (rc_user_id c) (rc_asset_id c) = Ok (rc_object_key c).
Proof.
  unfold recording_media_blob_context, recording_context_is_invalid; intros H (_ & T); all_ok; subst x.
  match goal with H : canonical_recording_media_object_key _ _ = Ok _ |- _ =>
    pose proof (recording_key_Ok _ _ _ H) as (Hu & Ha & Ek) end.
  repeat match goal with H : str_eqb _ _ = true |- _ => apply str_eqb_eq in H end.
  match goal with H : rc_object_key c = _ |- _ => rewrite <- H in * end.
  eexists; split; [eassumption|]; split; [done|]; split; [|done]; unfold recording_context_fields.
  rewrite !Forall_cons in T; destruct T as (T1 & T2 & T3 & T4 & _).
  repeat (apply Forall_cons; split); try done; try by apply valid_id_scalar.
  - rewrite Ek; repeat (apply Forall_app; split); try (by apply valid_id_scalar); by repeat constructor.
  - by apply policy_epoch_scalar.
  - apply (ascii_scalar is_ascii_digit); [unfold is_ascii_digit; intros d; bool_prop; lia|].
    apply forallb_Forall; unfold dec; match goal with H : (rc_byte_length c <=? 0) = false |- _ => apply Z.leb_gt in H end.
    rewrite (proj2 (Z.ltb_ge (rc_byte_length c) 0)) by lia; apply dec_nonneg_digits; lia.
  - apply lowercase_scalar, (ascii_scalar is_ascii_hexdigit); [apply hexdigit_ascii|].
    match goal with H : validate_sha256 _ = true |- _ => by apply andb_true_iff in H as [_ H] end.
Qed.

(** Two contexts name the same recording, the digest up to its letter case. *)
Definition same_recording (c c' : RecordingContext) : Prop :=
  rc_user_id c = rc_user_id c' /\ rc_object_key c = rc_object_key c' /\ rc_key_epoch c = rc_key_epoch c'
  /\ rc_policy_epoch c = rc_policy_epoch c' /\ rc_event_id c = rc_event_id c' /\ rc_asset_id c = rc_asset_id c'
  /\ rc_capture_session_id c = rc_capture_session_id c' /\ rc_stream_kind c = rc_stream_kind c'
  /\ rc_codec c = rc_codec c' /\ rc_byte_length c = rc_byte_length c'
  /\ eq_ignore_ascii_case (rc_plaintext_sha256 c) (rc_plaintext_sha256 c') = true.

(** A durable recording's encryption context binds every fact it is made
    from, without any assumption on a hash. *)
Lemma recording_context_inj c c' x :
  context_typed c -> context_typed c' ->
  recording_media_blob_context c = Ok x -> recording_media_blob_context c' = Ok x ->
  canonical_recording_media_object_key (rc_user_id c) (rc_asset_id c) = Ok (rc_object_key c) /\ same_recording c c'.
Proof.
  intros T T' H H'; apply recording_context_inv in H as (f & E & -> & S & K); [|done].
  apply recording_context_inv in H' as (f' & E' & X & S' & _); [|done].
  apply app_inv_head in X.
  apply (code_items_inj _ _ _ _ _ _ _ _ S S' eq_refl E E') in X as [F N].
  apply be_bytes_inj_i64 in N; [|apply T|apply T'].
  unfold recording_context_fields in F; injection F as F1 F2 F3 F4 F5 F6 F7 F8 F9 F10; apply dec_inj in F9.
  split; [done|]; split_and!; try done; unfold eq_ignore_ascii_case; rewrite F10; apply str_eqb_refl.
Qed.

(** ** The lease *)

Lemma hex_pairs_of_bytes b : Forall is_byte b -> hex_pairs (hex_of_bytes b) = b.
Proof.
  unfold is_byte; induction 1 as [|x b Hx Hb IH]; [done|].
  change (hex_of_bytes (x :: b)) with (hex_digit (x / 16) :: hex_digit (x mod 16) :: hex_of_bytes b).
  cbn [hex_pairs]; rewrite IH; f_equal.
  assert (V : forall d, (d < 16)%N -> hex_value (hex_digit d) = d).
  { intros d Hd; unfold hex_digit, hex_value, is_ascii_digit, is_ascii_lowercase; destruct (d <? 10)%N eqn:E; bool_prop;
      repeat case_match; bool_prop; try lia. }
  pose proof (N.mod_upper_bound x 16 ltac:(lia)); rewrite !V; [|lia|apply N.Div0.div_lt_upper_bound; lia].
  rewrite (N.div_mod x 16) at 3 by lia; lia.
Qed.

Lemma hex_digits_of_bytes b : Forall is_byte b -> forallb is_ascii_hexdigit (hex_of_bytes b) = true.
Proof.
  unfold is_byte; induction 1 as [|x b Hx Hb IH]; [done|].
  change (hex_of_bytes (x :: b)) with (hex_digit (x / 16) :: hex_digit (x mod 16) :: hex_of_bytes b).
  assert (V : forall d, (d < 16)%N -> is_ascii_hexdigit (hex_digit d) = true).
  { intros d Hd; unfold hex_digit, is_ascii_hexdigit, is_ascii_digit; destruct (d <? 10)%N eqn:E; bool_prop;
      unfold char in *; repeat rewrite ?orb_true_iff, ?andb_true_iff, ?N.leb_le; lia. }
  pose proof (N.mod_upper_bound x 16 ltac:(lia)); cbn [forallb].
  rewrite IH, !V; [done|lia|apply N.Div0.div_lt_upper_bound; lia].
Qed.

Lemma decode_hex_32_of_bytes b : Forall is_byte b -> length b = 32%nat -> decode_hex_32 (hex_of_bytes b) = Some b.
Proof.
  intros H L; unfold decode_hex_32; rewrite hex_digits_of_bytes, hex_pairs_of_bytes by done.
  rewrite byte_len_ascii; unfold char_count; [by rewrite hex_of_bytes_length, L|].
  pose proof (hex_digits_of_bytes b H) as D; rewrite forallb_Forall in D.
  eapply Forall_impl; [exact D|]; intros c Hc%hexdigit_ascii; by apply N.ltb_lt.
Qed.

Lemma hex_no_dot b : Forall is_byte b -> ch "." ∉ hex_of_bytes b.
Proof.
  intros H Hin; pose proof (hex_digits_of_bytes b H) as D; rewrite forallb_Forall, Forall_forall in D.
  by apply D in Hin.
Qed.

Section LeaseAuthority.
Context (hmac : bytes -> bytes -> bytes).
Context (claims_to_vec : RecordingRetentionLeaseClaims -> option bytes).
Context (claims_from_slice : bytes -> option RecordingRetentionLeaseClaims).
Context (b64_encode : bytes -> str) (b64_decode : str -> option bytes).

Abbreviation issue := (issue_recording_retention_lease hmac claims_to_vec b64_encode).
Abbreviation verify := (verify_recording_retention_lease hmac claims_from_slice b64_decode).

(** What an accepted token shows. *)
Definition lease_grounded (secrets : list str) (token : str) (c : RecordingRetentionLeaseClaims) : Prop :=
  valid_recording_retention_lease_claims c = true
  /\ exists secret payload signature decoded,
    secret ∈ secrets /\ split (ch ".") token = [lit "rrl1"; payload; signature]
    /\ decode_hex_32 signature = Some (lease_mac hmac secret payload)
    /\ b64_decode payload = Some decoded /\ claims_from_slice decoded = Some c.

Lemma verify_grounded secrets token c : verify secrets token = Ok c -> lease_grounded secrets token c.
Proof.
  unfold verify_recording_retention_lease; intros H; case_match; [done|].
  destruct (split _ token) as [|v [|p [|s [|? ?]]]] eqn:Es; try done; all_ok.
  match goal with H : existsb _ _ = true |- _ => apply existsb_Exists in H as (secret & Hin & Hm) end.
  apply bool_decide_eq_true in Hm; match goal with H : str_eqb _ _ = true |- _ => apply str_eqb_eq in H end; subst.
  split; [done|]; by repeat eexists; eauto.
Qed.

(** What serde, base64 and HMAC promise of one lease: its JSON is bytes that
    parse back, base64 has no dot and decodes to what it encoded, and a tag
    is thirty-two bytes. *)
Definition lease_laws (c : RecordingRetentionLeaseClaims) : Prop :=
  (forall v, claims_to_vec c = Some v -> claims_from_slice v = Some c)
  /\ (forall b, ch "." ∉ b64_encode b /\ b64_decode (b64_encode b) = Some b)
  /\ (forall k m, Forall is_byte (hmac k m) /\ length (hmac k m) = 32%nat).

Lemma issued_verifies secret secrets c token :
  lease_laws c -> issue secret c = Ok token -> secret ∈ secrets -> byte_len token <= 2048 -> verify secrets token = Ok c.
Proof.
  intros (Hj & Hb & Hm) H Hin L; unfold issue_recording_retention_lease in H; all_ok; subst token.
  match goal with H : claims_to_vec c = Some ?v |- _ => rename v into p; specialize (Hj _ H) end.
  unfold verify_recording_retention_lease; rewrite (proj2 (Z.ltb_ge _ _) L).
  destruct (Hb p) as [Hd Hr]; destruct (Hm (as_bytes secret) (RECORDING_RETENTION_LEASE_DOMAIN ++ as_bytes (b64_encode p))) as [Hx Hl].
  assert (S : split (ch ".") (lit "rrl1." ++ b64_encode p ++ lit "." ++ hex_of_bytes (lease_mac hmac secret (b64_encode p)))
              = [lit "rrl1"; b64_encode p; hex_of_bytes (lease_mac hmac secret (b64_encode p))]).
  { change (lit "rrl1.") with (lit "rrl1" ++ [ch "."]); rewrite <- app_assoc; cbn [app]; rewrite split_app by by apply (bool_decide_unpack _).
    change (lit ".") with [ch "."]; cbn [app]; rewrite split_app by done; by rewrite split_none by apply hex_no_dot, Hx. }
  rewrite S; cbn [refuse negb]; rewrite str_eqb_refl, decode_hex_32_of_bytes by done; cbn.
  rewrite (proj2 (existsb_Exists _ _)); [|exists secret; by rewrite bool_decide_eq_true].
  cbn; rewrite Hr; cbn; rewrite Hj; cbn.
  by match goal with H : valid_recording_retention_lease_claims c = true |- _ => rewrite H end.
Qed.

(** A device's lease to record under a retention policy is exactly what
    the enclave issued: a token the enclave issued for well-formed claims is
    accepted as those claims by any verifier that holds its secret, and a
    token is accepted only when one of the verifier's secrets signed its
    payload, as well-formed claims that decode from that payload and last at
    most five minutes. *)
Theorem lease_authority secret secrets token c :
  (lease_laws c -> issue secret c = Ok token -> secret ∈ secrets -> byte_len token <= 2048 -> verify secrets token = Ok c)
  /\ (verify secrets token = Ok c ->
      lease_grounded secrets token c /\ 0 <= valid_from_epoch_millis c
      /\ valid_from_epoch_millis c < capture_started_before_epoch_millis c <= valid_until_epoch_millis c
      /\ (I64.in_range (valid_until_epoch_millis c) -> valid_until_epoch_millis c - valid_from_epoch_millis c <= 300000)).
Proof.
  split; [apply issued_verifies|]; intros G%verify_grounded; pose proof (proj1 G) as V.
  unfold valid_recording_retention_lease_claims in V; bool_prop; unfold I64.saturating_sub, I64.clamp in *.
  unfold I64.in_range, I64.min_value, I64.max_value in *; split; [done|]; lia.
Qed.
End LeaseAuthority.

(** ** The envelope *)

(** The cipher opens what it sealed, under the same key, nonce and data. *)
Definition aead_opens (aead : Aead) : Prop :=
  forall dek nonce aad plaintext c, seal aead dek nonce aad plaintext = Some c -> open aead dek nonce aad c = Some plaintext.

(** What opens was sealed under that key, nonce and data. *)
Definition aead_authentic (aead : Aead) : Prop :=
  forall dek nonce aad plaintext c, open aead dek nonce aad c = Some plaintext -> seal aead dek nonce aad plaintext = Some c.

Lemma decrypt_encrypted aead dek nonce plaintext context blob :
  aead_opens aead -> length nonce = 12%nat ->
  encrypt_bound_blob aead dek nonce plaintext context = Ok blob ->
  decrypt_bound_blob aead dek blob context = Ok plaintext.
Proof.
  intros Ho Hn H; unfold encrypt_bound_blob, encrypt_blob_with_aad in H; all_ok; subst.
  unfold decrypt_bound_blob; rewrite (proj2 (strip_prefix_Some BOUND_BLOB_V2_MAGIC _ _) eq_refl); cbn [ok_or result_bind].
  unfold decrypt_blob_with_aad; rewrite length_app, Hn; cbn [Nat.ltb Nat.leb Nat.add].
  rewrite take_app_le, take_ge, drop_app_ge, Hn, Nat.sub_diag by lia; cbn [drop].
  rewrite drop_0; match goal with H : seal _ _ _ _ _ = Some _ |- _ => by rewrite (Ho _ _ _ _ _ H) end.
Qed.

(** A blob that opens was sealed by the same envelope. *)
Lemma opened_was_encrypted aead dek blob context plaintext :
  aead_authentic aead -> decrypt_bound_blob aead dek blob context = Ok plaintext ->
  exists nonce, length nonce = 12%nat /\ encrypt_bound_blob aead dek nonce plaintext context = Ok blob.
Proof.
  intros Ha H; unfold decrypt_bound_blob in H; all_ok.
  match goal with H : strip_prefix _ _ = Some _ |- _ => apply strip_prefix_Some in H as -> end.
  unfold decrypt_blob_with_aad in H; case_match eqn:E; [done|]; all_ok; apply Nat.ltb_ge in E.
  apply Ha in H; eexists; split; [apply firstn_length_le, E|].
  unfold encrypt_bound_blob, encrypt_blob_with_aad; rewrite H; cbn; by rewrite take_drop.
Qed.

(** One ciphertext is the seal of two texts under different associated data. *)
Definition aead_collision (aead : Aead) : Prop :=
  exists dek nonce aad aad' p p' c,
    aad <> aad' /\ seal aead dek nonce aad p = Some c /\ seal aead dek nonce aad' p' = Some c.

Lemma opened_under_same_context aead dek nonce blob context context' p p' :
  aead_authentic aead -> length nonce = 12%nat ->
  encrypt_bound_blob aead dek nonce p context = Ok blob -> decrypt_bound_blob aead dek blob context' = Ok p' ->
  context = context' \/ aead_collision aead.
Proof.
  intros Ha Hn E D; destruct (opened_was_encrypted _ _ _ _ _ Ha D) as (nonce' & Hn' & E').
  unfold encrypt_bound_blob, encrypt_blob_with_aad in E, E'; all_ok; subst.
  match goal with H : _ ++ _ ++ _ = _ |- _ => 
    apply app_inv_head in H; destruct (app_inj_1 _ _ _ _ (eq_trans Hn' (eq_sym Hn)) H) as [-> ->] end.
  destruct (decide (context = context')) as [|Hc]; [by left|right].
  exists dek, nonce, (bound_blob_aad context), (bound_blob_aad context'); do 3 eexists.
  split; [|split; eassumption]; unfold bound_blob_aad; intros X; apply Hc, (app_inv_head _ _ _ X).
Qed.

(** C33: a stored recording opens only as the recording it was sealed as.
    The enclave opens what it sealed; and when a blob sealed for one
    recording opens as another under the same key, the two name the same
    account, object, key and policy epochs, event, asset, session, stream,
    codec, length and plaintext digest, or the cipher has a collision. *)
Theorem recording_substitution_rejected aead dek nonce blob p c c' x x' p' :
  aead_opens aead -> aead_authentic aead -> length nonce = 12%nat -> context_typed c -> context_typed c' ->
  recording_media_blob_context c = Ok x -> recording_media_blob_context c' = Ok x' ->
  encrypt_bound_blob aead dek nonce p x = Ok blob ->
  decrypt_bound_blob_v2 aead dek blob x = Ok p
  /\ (decrypt_bound_blob_v2 aead dek blob x' = Ok p' -> same_recording c c' \/ aead_collision aead).
Proof.
  intros Ho Ha Hn T T' X X' E; split; [by apply (decrypt_encrypted _ _ nonce)|]; intros D.
  destruct (opened_under_same_context _ _ _ _ _ _ _ _ Ha Hn E D) as [->|]; [left|by right].
  by apply (recording_context_inj c c' x').
Qed.

(** ** Examples *)

(** An envelope whose seal is the data and the text in order. *)
Definition sample_aead : Aead := {|
  seal := fun dek nonce aad p => Some (be_bytes 4 (Z.of_nat (length aad)) ++ aad ++ p);
  open := fun dek nonce aad c => strip_prefix (be_bytes 4 (Z.of_nat (length aad)) ++ aad) c;
  aead_error := lit "aead::Error"
|}.

Definition sample_recording : RecordingContext := {|
  rc_user_id := lit "user-1"; rc_object_key := lit "recordings/user-1/asset-1.enc"; rc_key_epoch := 3;
  rc_policy_epoch := lit "rpe_" ++ replicate 64 (ch "a"); rc_event_id := lit "event-1"; rc_asset_id := lit "asset-1";
  rc_capture_session_id := lit "session-1"; rc_stream_kind := lit "screen"; rc_codec := lit "image/png";
  rc_byte_length := 12; rc_plaintext_sha256 := replicate 64 (ch "b")
|}.

Lemma recording_substitution_rejected_witness :
  exists blob x, decrypt_bound_blob_v2 sample_aead [] blob x = Ok (blit "text")
    /\ recording_media_blob_context sample_recording = Ok x.
Proof.
  do 2 eexists; split; [|vm_compute; reflexivity].
  refine (proj1 (recording_substitution_rejected sample_aead [] (replicate 12 0%N) _ (blit "text") sample_recording sample_recording
            _ _ [] _ _ eq_refl _ _ _ _ _)).
  - intros ? ? ? ? ? [= <-]; by apply strip_prefix_Some.
  - intros ? ? ? ? ? H%strip_prefix_Some; by rewrite H.
  - split; [by vm_compute|]; repeat constructor; vm_compute; tauto.
  - split; [by vm_compute|]; repeat constructor; vm_compute; tauto.
  - vm_compute; reflexivity.
  - vm_compute; reflexivity.
  - vm_compute; reflexivity.
Defined.

Definition sample_lease : RecordingRetentionLeaseClaims := {|
  lc_user_id := lit "user-1"; lc_lease_id := lit "lease_" ++ replicate 64 (ch "a"); lc_policy_revision := 2;
  lc_policy_epoch := lit "rpe_" ++ replicate 64 (ch "a"); valid_from_epoch_millis := 1000;
  capture_started_before_epoch_millis := 2000; valid_until_epoch_millis := 61000
|}.

Definition sample_hmac (k m : bytes) : bytes := replicate 31 0%N ++ [N.of_nat (length k + length m) mod 256]%N.

Lemma lease_authority_witness :
  exists token, verify_recording_retention_lease sample_hmac (fun _ => Some sample_lease)
      (fun s => Some (map (fun c => c - 1000)%N s)) [lit "a-secret-of-enough-bytes"] token = Ok sample_lease.
Proof.
  eexists; refine (proj1 (lease_authority sample_hmac (fun _ => Some (as_bytes (lit "claims"))) (fun _ => Some sample_lease)
    (map (fun b => b + 1000)%N) (fun s => Some (map (fun c => c - 1000)%N s)) (lit "a-secret-of-enough-bytes") _ _ _) _ _ _ _).
  - split; [done|]; split.
    + intros b; split; [intros (y & H & _)%list_elem_of_fmap; change (46 = y + 1000)%N in H; lia|].
      f_equal; rewrite map_map; induction b as [|y b IH]; [done|]; cbn [map]; rewrite IH; f_equal; lia.
    + intros k m; unfold sample_hmac; split; [|done]; apply Forall_app; split; [by apply Forall_replicate|].
      repeat constructor; unfold is_byte; by apply N.mod_upper_bound.
  - vm_compute; reflexivity.
  - by left.
  - vm_compute; discriminate.
Defined.
