(* ===== verification/Http.v ===== *)
(** * Responses

    The answers of the HTTP handlers, and [error.rs]'s [into_response], which
    decides what a client learns of an error. *)
From Stdlib Require Import ZArith.
From S2P Require Import Prelude Text Errors Json.
Local Open Scope Z_scope.
Local Open Scope kioku_scope.

Inductive Body :=
| NoBody
| TextBody (text : str)
| JsonBody (value : Value).

Record Response := {
  status : Z;
  headers : list (str * str);
  body : Body
}.

Definition text_response (code : Z) (message : string) : Response :=
  {| status := code; headers := []; body := TextBody (lit message) |}.

Definition json_response (code : Z) (value : Value) : Response :=
  {| status := code; headers := []; body := JsonBody value |}.

Definition error_json (code : Z) (error : string) : Response :=
  json_response code (object [("error", VString (lit error))]%string).

(** [headers_mut().insert(...)] of a header the response does not have. *)
Definition with_header (name value : string) (r : Response) : Response :=
  {| status := status r; headers := headers r ++ [(lit name, lit value)]; body := body r |}.

Definition no_store : Response -> Response := with_header "cache-control" "no-store".

Definition bad_request (message : string) : Response := text_response 400 message.

Definition rate_limited_response : Response :=
  with_header "retry-after" "5"
    (json_response 429 (object [("error", VString (lit "rate_limited")); ("retry_after", of_Z 5)]%string)).

Definition reference_reason_as_str (r : CaptureReferenceFailureReason) : str :=
  match r with
  | CanonicalUnavailable => lit "canonical_unavailable"
  | ContextFingerprintMismatch => lit "context_fingerprint_mismatch"
  | TargetMismatch => lit "target_mismatch"
  | CanonicalContextUnavailable => lit "canonical_context_unavailable"
  | ContextTransition => lit "context_transition"
  end.

Definition deletion_reason_as_str (r : DeletionPendingReason) : str :=
  match r with SoftDeleteRetention => lit "soft_delete_retention" end.

Definition error_message (code : Z) (message : str) : Response :=
  json_response code (object [("error", VString message)]%string).

(** [EnclaveError::into_response] *)
Definition into_response (e : EnclaveError) : Response :=
  match e with
  | CaptureReference reason =>
    json_response 400 (object [("error", VString (lit "screen_reference_rebase_required"));
                               ("reason", VString (reference_reason_as_str reason))]%string)
  | CaptureReferenceBatch reason index sequence =>
    json_response 400 (object [("error", VString (lit "screen_reference_rebase_required"));
                               ("reason", VString (reference_reason_as_str reason));
                               ("index", of_Z index); ("sequence", of_Z sequence)]%string)
  | SignupLimited => error_json 429 "signup_limit_reached"
  | InvalidRequest message => error_message 400 (lit "invalid request: " ++ message)
  | NotFound => error_message 404 (lit "not found")
  | Conflict message => error_message 409 (lit "conflict: " ++ message)
  | DeletionPendingError pending =>
    error_message 409 (lit "account deletion pending: " ++ deletion_reason_as_str (reason pending))
  | _ => error_message 500 (lit "internal error")
  end.

Definition ROUTED_READ_UNAVAILABLE_REASON : string := "enclave_unavailable".

Definition routed_read_unavailable : Response := error_json 503 ROUTED_READ_UNAVAILABLE_REASON.
