(* ===== verification/CaptureIngest.v ===== *)
(** * Ingestion of captured events

    [cp/media.rs]: the handlers that accept an uploaded event and a batch of
    screen references, the decision of the retention authority its media is
    stored under, and the write of the media; [cp/billing.rs]: the recording
    entitlement they check; [cp/limits.rs]: the admission gates.  The
    repositories, the key service, object storage, the multipart stream, the
    clock and the random generators are the environment; every call is an
    event of the run's trace. *)
From Stdlib Require Import ZArith Lia.
From S2P Require Import Prelude Text F64 Errors Bytes Json Http IsoTime Effects CaptureManifest MediaKeys.
Local Open Scope Z_scope.
Local Open Scope kioku_scope.

(** ** Why an upload is refused *)

Inductive CaptureIngestFailureReason :=
| AccountSuspended | AccountStatusUnavailable | RateLimited | MultipartInvalid | ManifestMissing | ManifestTooLarge
| ManifestInvalid | MediaMissing | MediaTooLarge | MediaInvalid | RequestInvalid | IdempotencyConflict
| LifecycleUnavailable | RecordingLeaseInactive | RecordingLeaseConflict | RecordingLeaseUnavailable
| MediaStorageUnavailable | CanonicalUnavailable | ContextFingerprintMismatch | ReferenceTargetMismatch
| CanonicalContextUnavailable | ReferenceContextTransition | Internal.

Definition failure_reason_as_str (r : CaptureIngestFailureReason) : string :=
  match r with
  | AccountSuspended => "account_suspended"
  | AccountStatusUnavailable => "account_status_unavailable"
  | RateLimited => "rate_limited"
  | MultipartInvalid => "multipart_invalid"
  | ManifestMissing => "manifest_missing"
  | ManifestTooLarge => "manifest_too_large"
  | ManifestInvalid => "manifest_invalid"
  | MediaMissing => "media_missing"
  | MediaTooLarge => "media_too_large"
  | MediaInvalid => "media_invalid"
  | RequestInvalid => "request_invalid"
  | IdempotencyConflict => "idempotency_conflict"
  | LifecycleUnavailable => "lifecycle_unavailable"
  | RecordingLeaseInactive => "recording_lease_inactive"
  | RecordingLeaseConflict => "recording_lease_conflict"
  | RecordingLeaseUnavailable => "recording_lease_unavailable"
  | MediaStorageUnavailable => "media_storage_unavailable"
  | CanonicalUnavailable => "canonical_unavailable"
  | ContextFingerprintMismatch => "context_fingerprint_mismatch"
  | ReferenceTargetMismatch => "target_mismatch"
  | CanonicalContextUnavailable => "canonical_context_unavailable"
  | ReferenceContextTransition => "context_transition"
  | Internal => "internal"
  end.

(** The reason [capture_error_response_for_route] gives an error. *)
Definition failure_reason_of_error (e : EnclaveError) : CaptureIngestFailureReason :=
  match e with
  | CaptureReference reason | CaptureReferenceBatch reason _ _ =>
    match reason with
    | Errors.CanonicalUnavailable => CanonicalUnavailable
    | Errors.ContextFingerprintMismatch => ContextFingerprintMismatch
    | Errors.TargetMismatch => ReferenceTargetMismatch
    | Errors.CanonicalContextUnavailable => CanonicalContextUnavailable
    | Errors.ContextTransition => ReferenceContextTransition
    end
  | InvalidRequest _ => RequestInvalid
  | Conflict _ => IdempotencyConflict
  | _ => Internal
  end.

Definition recording_entitlement_failure_reason (code : Z) : CaptureIngestFailureReason :=
  if code =? 402 then RecordingLeaseInactive else if code =? 409 then RecordingLeaseConflict
  else RecordingLeaseUnavailable.

(** What [capture_failure_response_for_route] records of a refusal; the
    duration apart. *)
Record IngestFailure := {
  if_route : string;
  if_status : Z;
  if_status_class : string;
  if_stream_kind : str;
  if_media_disposition : str;
  if_reason : CaptureIngestFailureReason
}.

Definition media_disposition_as_str (d : MediaDisposition) : str :=
  match d with Canonical => lit "canonical" | Reference => lit "reference" end.

Definition ingest_failure (route : string) (manifest : option CaptureEventManifest) (reason : CaptureIngestFailureReason) (r : Response) :
    IngestFailure :=
  {| if_route := route; if_status := status r;
     if_status_class := if within 400 499 (status r) then "4xx" else if within 500 599 (status r) then "5xx" else "other";
     if_stream_kind := match manifest with Some m => stream_kind_as_str (stream_kind m) | None => lit "unknown" end;
     if_media_disposition :=
       match manifest with Some m => media_disposition_as_str (media_disposition m) | None => lit "unknown" end;
     if_reason := reason |}.

(** ** The data the handlers exchange with the repositories *)

(** The retention a canonical object is stored under. *)
Inductive RecordingMediaAuthorityDecision :=
| ProcessingWindow30d (capture_policy_revision : Z) (decision_at : str)
| UntilDeleted (capture_policy_revision retention_policy_revision : Z) (retention_policy_epoch : str)
    (recording_key_epoch : Z) (decision_at : str).

Definition processing (capture_policy_revision : Z) (decision_at : str) : RecordingMediaAuthorityDecision :=
  ProcessingWindow30d (Z.max capture_policy_revision 0) decision_at.

Definition authority_is_durable (d : RecordingMediaAuthorityDecision) : bool :=
  match d with UntilDeleted _ _ _ _ _ => true | _ => false end.

Inductive RecordingRetentionPolicy := PolicyProcessingWindow30d | PolicyUntilDeleted.

#[export] Instance RecordingRetentionPolicy_eq_dec : EqDecision RecordingRetentionPolicy.
Proof. solve_decision. Defined.

Record RecordingRetentionPreference := {
  policy : RecordingRetentionPolicy;
  consent_version : Z;
  revision : Z;
  pref_policy_epoch : option str;
  effective_at : str;
  revocation_cutoff : option str;
  active_operation_id : option str;
  operation_state : option str
}.

Record RecordingKeyEpoch := { key_epoch : Z; ke_policy_epoch : str; wrapped_dek_b64 : str }.

Inductive CapturePreflight := New | Duplicate (committed_through_sequence : Z).

Record CaptureUploadIdentity := {
  up_capture_session_id : str; up_stream_id : str; up_event_id : str; up_asset_id : str
}.

Record CaptureCommit := {
  account_id : str;
  manifest : CaptureEventManifest;
  cc_manifest_digest : str;
  object_key : option str;
  object_generation : option Z;
  upload_token : option str;
  media_authority : option RecordingMediaAuthorityDecision;
  committed_at : str
}.

Record CaptureCommitResult := { duplicate : bool; committed_through_sequence : Z }.

Record ReferenceBatchCommit := {
  rbc_account_id : str;
  rbc_events : list CaptureEventManifest;
  rbc_manifest_digests : list str;
  rbc_committed_at : str
}.

Record ReferenceBatchCommitResult := { new_count : Z; duplicate_count : Z; batch_committed_through : Z }.

Record GcsGetResponse := { ciphertext : bytes; object_wrapped_dek : str; generation : Z }.

(** The end of a spawned task: what it returned, or that it did not finish. *)
Inductive Joined (A : Type) := Finished (a : A) | JoinError.
Arguments Finished {A}.
Arguments JoinError {A}.

(** A multipart field as its headers name it. *)
Record Field := { f_name : option str; f_content_type : option str }.

Record RateLimiter := { capacity : f64; refill_per_sec : f64 }.

Record BatchDelivery := {
  bd_batch_id : str; bd_manifest_digest : str; bd_stream_id : str; bd_first_sequence : Z; bd_last_sequence : Z;
  bd_event_ids : list str; bd_new_event_ids : list str
}.

Record IngestConfig := {
  jwt_secrets : list str;
  durable_recording_storage_bound : bool;
  enforces : bool;
  capture_event_limiter : RateLimiter;
  reference_batch_limiter : RateLimiter
}.

(** ** The calls of a run, with their answers *)

Inductive Event :=
| EAccountActive (user : str) (answer : res bool)
| EConsumeRate (scope : string) (user : str) (limiter : RateLimiter) (answer : res bool)
| ENextField (answer : option (option Field))
| EFieldBytes (answer : option bytes)
| EPreflight (user : str) (m : CaptureEventManifest) (digest : str) (keys : option (list str)) (answer : res CapturePreflight)
| EActiveLease (user : str) (answer : res (option (str * str)))
| ENow (millis : Z)
| EReserveDelivery (user event_id : str) (media_bytes : Z) (answer : res bool)
| ECompleteDelivery (user event_id : str) (answer : res unit)
| EMediaDek (user : str) (answer : res (option str))
| EUnwrapDek (wrapped : str) (answer : res bytes)
| EGenerateDek (dek : bytes)
| EWrapDek (dek : bytes) (answer : res str)
| EInstallDek (user candidate : str) (answer : res str)
| EPreference (user : str) (answer : res RecordingRetentionPreference)
| EKeyEpoch (user : str) (epoch : Z) (policy_epoch : str) (answer : res (option RecordingKeyEpoch))
| ENonce (nonce : bytes)
| EReserveUpload (user : str) (identity : CaptureUploadIdentity) (key digest : str) (answer : res (option str))
| EPut (user key : str) (blob : bytes) (key_reference : str) (answer : Joined (res Z))
| EGetCurrent (key : str) (answer : res GcsGetResponse)
| ECommit (command : CaptureCommit) (answer : res CaptureCommitResult)
| EEnrollmentPreflight (user session : str) (answer : res unit)
| EConcurrency (scope : string) (holder : str) (limit seconds : Z) (answer : res bool)
| EReserveBatch (user : str) (delivery : BatchDelivery) (answer : res bool)
| ECompleteBatch (user batch_id digest : str) (event_ids : list str) (answer : res unit)
| ECommitBatch (command : ReferenceBatchCommit) (answer : res ReferenceBatchCommitResult)
| ERandom (number : Z)
| EFailureLogged (failure : IngestFailure).

(** The answers, each an arbitrary function of the history. *)
Record Env := {
  account_active : list Event -> res bool;
  consume_rate : list Event -> res bool;
  next_field : list Event -> option (option Field);
  field_bytes : list Event -> option bytes;
  preflight_event : list Event -> res CapturePreflight;
  active_recording_lease : list Event -> res (option (str * str));
  now_millis : list Event -> Z;
  reserve_recording_delivery_call : list Event -> res bool;
  complete_recording_delivery_call : list Event -> res unit;
  media_dek_wrapped : list Event -> res (option str);
  unwrap_dek : list Event -> res bytes;
  generate_dek : list Event -> bytes;
  wrap_dek : list Event -> res str;
  install_media_dek : list Event -> res str;
  preference : list Event -> res RecordingRetentionPreference;
  key_epoch_of : list Event -> res (option RecordingKeyEpoch);
  generate_nonce : list Event -> bytes;
  reserve_media_upload : list Event -> res (option str);
  put_current : list Event -> Joined (res Z);
  get_current : list Event -> res GcsGetResponse;
  commit_event : list Event -> res CaptureCommitResult;
  preflight_reference_batch_enrollment : list Event -> res unit;
  acquire_concurrency : list Event -> res bool;
  reserve_recording_delivery_batch_call : list Event -> res bool;
  complete_recording_delivery_batch_call : list Event -> res unit;
  commit_reference_batch : list Event -> res ReferenceBatchCommitResult;
  random_u128 : list Event -> Z
}.

(** ** The handlers *)

Section Handlers.
Context (sha256 : bytes -> bytes) (hmac : bytes -> bytes -> bytes) (aead : Aead).
(** [serde_json] at a manifest and at a lease's claims; base64url. *)
Context (manifest_to_vec : CaptureEventManifest -> option bytes).
Context (manifest_from_slice : bytes -> option CaptureEventManifest).
Context (claims_from_slice : bytes -> option RecordingRetentionLeaseClaims) (b64_decode : str -> option bytes).
Context (config : IngestConfig) (env : Env).

(** [return capture_failure_response_for_route(...)] *)
Definition capture_failure_response_for_route {A} (route : string) (m : option CaptureEventManifest) (reason : CaptureIngestFailureReason)
    (r : Response) : prog Event Response A :=
  call (fun _ : unit => EFailureLogged (ingest_failure route m reason r)) (fun _ => tt) ;! return_ r.

Definition capture_error_response_for_route {A} (route : string) (m : option CaptureEventManifest) (e : EnclaveError) :
    prog Event Response A :=
  capture_failure_response_for_route route m (failure_reason_of_error e) (into_response e).

Definition capture_failure_response {A} : option CaptureEventManifest -> CaptureIngestFailureReason -> Response -> prog Event Response A :=
  capture_failure_response_for_route "capture_event".

Definition capture_error_response {A} : option CaptureEventManifest -> EnclaveError -> prog Event Response A :=
  capture_error_response_for_route "capture_event".

(** [match r { Ok(value) => value, Err(error) => return capture_error_response(...) }] *)
Definition or_error {A} (route : string) (m : option CaptureEventManifest) (r : res A) : prog Event Response A :=
  match r with
  | Ok a => done_with a
  | Err e => capture_error_response_for_route route m e
  end.

(** *** Admission *)

Definition admit_account (route : string) (m : option CaptureEventManifest) (user : str) : prog Event Response unit :=
  let! active := call (EAccountActive user) (account_active env) in
  match active with
  | Ok true => done_with tt
  | Ok false =>
    capture_failure_response_for_route route m AccountSuspended (error_json 403 "account_suspended")
  | Err _ =>
    capture_failure_response_for_route route m AccountStatusUnavailable (text_response 503 "service unavailable")
  end.

(** [consume_scoped]: an unavailable limiter admits nothing. *)
Definition consume_scoped {R} (limiter : RateLimiter) (scope : string) (user : str) : prog Event R bool :=
  let! answer := call (EConsumeRate scope user limiter) (consume_rate env) in
  done_with (match answer with Ok allowed => allowed | Err _ => false end).

Definition consume_rate_or_refuse (route : string) (m : option CaptureEventManifest) (limiter : RateLimiter) (scope : string) (user : str) :
    prog Event Response unit :=
  let! allowed := consume_scoped limiter scope user in
  if allowed : bool then done_with tt
  else capture_failure_response_for_route route m RateLimited rate_limited_response.

(** *** The multipart body *)

Record Parts := { manifest_part : option bytes; media_part : option bytes; media_content_type : option str }.

Definition no_parts : Parts := {| manifest_part := None; media_part := None; media_content_type := None |}.

Definition read_field (p : Parts) (f : Field) : prog Event Response Parts :=
  let name := default [] (f_name f) in
  if str_eqb name (lit "manifest") && bool_decide (manifest_part p = None) then
    let! read := call EFieldBytes (field_bytes env) in
    match read with
    | None => capture_failure_response None MultipartInvalid (bad_request "invalid manifest field")
    | Some b =>
      if Z.of_nat (length b) <=? MAX_MANIFEST_BYTES
      then done_with {| manifest_part := Some b; media_part := media_part p; media_content_type := media_content_type p |}
      else capture_failure_response None ManifestTooLarge (bad_request "manifest is too large")
    end
  else if str_eqb name (lit "media") && bool_decide (media_part p = None) then
    let! read := call EFieldBytes (field_bytes env) in
    match read with
    | None => capture_failure_response None MultipartInvalid (bad_request "invalid media field")
    | Some b =>
      if Z.of_nat (length b) <=? MAX_AUDIO_BYTES
      then done_with {| manifest_part := manifest_part p; media_part := Some b; media_content_type := f_content_type f |}
      else capture_failure_response None MediaTooLarge (text_response 413 "media is too large")
    end
  else if one_of name ["manifest"; "media"]%string then
    capture_failure_response None MultipartInvalid (bad_request "duplicate multipart field")
  else capture_failure_response None MultipartInvalid (bad_request "unknown multipart field").

(** [loop { match multipart.next_field().await { ... } }] *)
Fixpoint read_parts (fuel : nat) (p : Parts) : prog Event Response Parts :=
  match fuel with
  | O => panic
  | S fuel =>
    let! next := call ENextField (next_field env) in
    match next with
    | None => capture_failure_response None MultipartInvalid (bad_request "invalid multipart body")
    | Some None => done_with p
    | Some (Some f) => let! p := read_field p f in read_parts fuel p
    end
  end.

(** Both parts are read at most once, so a fourth look at the stream never
    happens. *)
Definition PART_FUEL : nat := 3.

Definition check_parts (m : CaptureEventManifest) (p : Parts) : prog Event Response unit :=
  match media_disposition m with
  | Canonical =>
    match media_part p with
    | None => capture_failure_response (Some m) MediaMissing (bad_request "canonical events require a media field")
    | Some b =>
      match validate_media_bytes sha256 m b (media_content_type p) with
      | Ok _ => done_with tt
      | Err e => capture_failure_response (Some m) MediaInvalid (into_response e)
      end
    end
  | Reference =>
    match media_part p with
    | Some _ => capture_failure_response (Some m) MediaInvalid (bad_request "reference events cannot contain a media field")
    | None => done_with tt
    end
  end.

Definition object_key_candidates (user : str) (m : CaptureEventManifest) : res (option (list str)) :=
  match media m with
  | Some md =>
    let? processing_key := canonical_capture_media_object_key user (asset_id md) in
    let? durable := canonical_recording_media_object_key user (asset_id md) in
    Ok (Some [processing_key; durable])
  | None => Ok None
  end.

(** *** The recording entitlement *)

Definition inactive_lease : Response := no_store (error_json 402 "recording_lease_inactive").
Definition lease_conflict (error : string) : Response := no_store (error_json 409 error).
Definition service_unavailable : Response := no_store (error_json 503 "billing_unavailable").

(** [epoch_millis], of a clock in milliseconds of any width. *)
Definition epoch_millis {R} : prog Event R Z :=
  let! now := call ENow (now_millis env) in done_with (Z.min now I64.max_value).

(** Whether the answer proves a lease that has not expired; the clock is read
    only for a lease whose expiry parses. *)
Definition lease_is_live {R} (answer : res (option (str * str))) : prog Event R bool :=
  match answer with
  | Ok (Some (_, expires_at)) =>
    match parse_epoch_millis expires_at with
    | Some expires => let! now := epoch_millis in done_with (now <? expires)
    | None => done_with false
    end
  | _ => done_with false
  end.

Definition check_recording_entitlement {R} (user : str) : prog Event R (option Response) :=
  let! answer := call (EActiveLease user) (active_recording_lease env) in
  let! live := lease_is_live answer in
  done_with (if (live : bool) || negb (enforces config) then None
             else match answer with Ok _ => Some inactive_lease | Err _ => Some service_unavailable end).

Definition reserve_recording_delivery {R} (user event_id : str) (media_bytes : Z) : prog Event R (option Response) :=
  let! answer := call (EReserveDelivery user event_id media_bytes) (reserve_recording_delivery_call env) in
  done_with (match answer with
             | Ok true => None
             | Ok false => if enforces config then Some inactive_lease else None
             | Err _ => if enforces config then Some service_unavailable else None
             end).

Definition complete_recording_delivery {R} (user event_id : str) : prog Event R unit :=
  let! _ := call (ECompleteDelivery user event_id) (complete_recording_delivery_call env) in done_with tt.

Definition reserve_recording_delivery_batch {R} (user : str) (d : BatchDelivery) : prog Event R (option Response) :=
  let! answer := call (EReserveBatch user d) (reserve_recording_delivery_batch_call env) in
  done_with (match answer with
             | Ok true => None
             | Ok false => if enforces config then Some inactive_lease else None
             | Err (Conflict message) =>
               Some (lease_conflict (if contains (lit "too many pending") message then "reference_batch_limit"
                                     else "idempotency_conflict"))
             | Err _ => if enforces config then Some service_unavailable else None
             end).

Definition complete_recording_delivery_batch {R} (user batch_id digest : str) (event_ids : list str) : prog Event R unit :=
  let! _ := call (ECompleteBatch user batch_id digest event_ids) (complete_recording_delivery_batch_call env) in done_with tt.

Definition capture_requires_recording_lease (k : StreamKind) : bool := true.

(** *** Data encryption keys *)

Definition dek_length_error (n : nat) : EnclaveError :=
  Crypto (lit "DEK must be 32 bytes, got " ++ dec (Z.of_nat n)).

(** [crypto::load_dek] *)
Definition load_dek {R} (wrapped : str) : prog Event R (res bytes) :=
  let! raw := call (EUnwrapDek wrapped) (unwrap_dek env) in
  done_with (let? raw := raw in
             let? _ := refuse (negb (length raw =? 32)%nat) (dek_length_error (length raw)) in
             Ok raw).

(** [crypto::generate_and_wrap_dek] *)
Definition generate_and_wrap_dek {R} : prog Event R (res (bytes * str)) :=
  let! dek := call EGenerateDek (generate_dek env) in
  let! wrapped := call (EWrapDek dek) (wrap_dek env) in
  done_with (let? wrapped := wrapped in Ok (dek, wrapped)).

Definition load_or_create_media_dek (user : str) : prog Event (res (bytes * str)) (res (bytes * str)) :=
  let! existing := try_ (call (EMediaDek user) (media_dek_wrapped env)) in
  match existing with
  | Some wrapped =>
    let! dek := try_ (load_dek wrapped) in
    done_with (Ok (dek, wrapped))
  | None =>
    let! (candidate_dek, candidate_wrapped) := try_ generate_and_wrap_dek in
    let! winner := try_ (call (EInstallDek user candidate_wrapped) (install_media_dek env)) in
    if str_eqb winner candidate_wrapped then done_with (Ok (candidate_dek, winner))
    else
      let! dek := try_ (load_dek winner) in
      done_with (Ok (dek, winner))
  end.

(** *** The retention authority of an event's media *)

Definition lease_mismatch (user : str) (claims : RecordingRetentionLeaseClaims) (echo : RecordingRetentionCaptureAuthority) : bool :=
  negb (str_eqb (lc_user_id claims) user) || negb (str_eqb (lc_lease_id claims) (lease_id echo))
  || negb (lc_policy_revision claims =? policy_revision echo) || negb (str_eqb (lc_policy_epoch claims) (policy_epoch echo)).

Definition interval_covered (claims : RecordingRetentionLeaseClaims) (started_ms ended_ms : Z) : bool :=
  (valid_from_epoch_millis claims <=? started_ms) && (started_ms <? capture_started_before_epoch_millis claims)
  && (ended_ms <=? valid_until_epoch_millis claims).

Definition preference_withholds (p : RecordingRetentionPreference) (claims : RecordingRetentionLeaseClaims) : bool :=
  negb (bool_decide (policy p = PolicyUntilDeleted)) || negb (revision p =? lc_policy_revision claims)
  || negb (bool_decide (pref_policy_epoch p = Some (lc_policy_epoch claims)))
  || bool_decide (is_Some (operation_state p)).

Definition verify_lease (token : str) : res RecordingRetentionLeaseClaims :=
  match verify_recording_retention_lease hmac claims_from_slice b64_decode (jwt_secrets config) token with
  | Ok claims => Ok claims
  | Err _ => Err (invalid "recording retention authority was rejected")
  end.

Definition recording_media_authority_decision (user : str) (m : CaptureEventManifest) (decision_at : str) :
    prog Event (res RecordingMediaAuthorityDecision) (res RecordingMediaAuthorityDecision) :=
  if negb (is_audio (stream_kind m)) then done_with (Ok (processing 0 decision_at))
  else
    match recording_retention m with
    | None => done_with (Ok (processing 0 decision_at))
    | Some echo =>
      let! claims := try_pure (verify_lease (authority_token echo)) in
      if lease_mismatch user claims echo
      then return_ (Err (invalid "recording retention authority did not match the capture"))
      else
        let! started_ms := try_pure (ok_or (parse_epoch_millis (started_at m)) (invalid "started_at must be ISO-8601")) in
        let! ended_ms := try_pure (ok_or (parse_epoch_millis (ended_at m)) (invalid "ended_at must be ISO-8601")) in
        if negb (interval_covered claims started_ms ended_ms)
        then done_with (Ok (processing (lc_policy_revision claims) decision_at))
        else
          let! p := try_ (call (EPreference user) (preference env)) in
          if preference_withholds p claims then done_with (Ok (processing (lc_policy_revision claims) decision_at))
          else if negb (durable_recording_storage_bound config)
          then return_ (Err (Store (lit "durable recording storage is temporarily unavailable")))
          else
            let! key := try_ (call (EKeyEpoch user (revision p) (lc_policy_epoch claims)) (key_epoch_of env)) in
            match key with
            | None => return_ (Err (Store (lit "durable recording key authority is unavailable")))
            | Some _ =>
              done_with (Ok (UntilDeleted (lc_policy_revision claims) (revision p) (lc_policy_epoch claims)
                               (revision p) decision_at))
            end
    end.

(** *** The write of a canonical object *)

Record CanonicalMediaWrite := {
  cw_object_key : str;
  encryption_key : bytes;
  provider_key_reference : str;
  encryption_context : bytes;
  authority : RecordingMediaAuthorityDecision
}.

Definition recording_context_of (user key : str) (key_epoch : Z) (epoch : str) (m : CaptureEventManifest) (md : MediaDescriptor) :
    RecordingContext :=
  {| rc_user_id := user; rc_object_key := key; rc_key_epoch := key_epoch; rc_policy_epoch := epoch;
     rc_event_id := event_id m; rc_asset_id := asset_id md; rc_capture_session_id := capture_session_id m;
     rc_stream_kind := stream_kind_as_str (stream_kind m); rc_codec := codec md; rc_byte_length := byte_length md;
     rc_plaintext_sha256 := md_sha256 md |}.

Definition prepare_durable (user : str) (m : CaptureEventManifest) (md : MediaDescriptor)
    (d : RecordingMediaAuthorityDecision) (epoch : str) (recording_key_epoch : Z) :
    prog Event (res CanonicalMediaWrite) (res CanonicalMediaWrite) :=
  let! key := try_pure (canonical_recording_media_object_key user (asset_id md)) in
  let! found := try_ (call (EKeyEpoch user recording_key_epoch epoch) (key_epoch_of env)) in
  let! ke := try_pure (ok_or found (Store (lit "durable recording key authority is unavailable"))) in
  let! dek := try_ (load_dek (wrapped_dek_b64 ke)) in
  let! key_reference := try_pure (recording_media_key_reference sha256 recording_key_epoch epoch) in
  let! context := try_pure (recording_media_blob_context (recording_context_of user key recording_key_epoch epoch m md)) in
  done_with (Ok {| cw_object_key := key; encryption_key := dek; provider_key_reference := key_reference;
                   encryption_context := context; authority := d |}).

Definition prepare_processing (user : str) (md : MediaDescriptor) (d : RecordingMediaAuthorityDecision) :
    prog Event (res CanonicalMediaWrite) (res CanonicalMediaWrite) :=
  let! key := try_pure (canonical_capture_media_object_key user (asset_id md)) in
  let! (dek, key_reference) := try_ (invoke (load_or_create_media_dek user)) in
  done_with (Ok {| cw_object_key := key; encryption_key := dek; provider_key_reference := key_reference;
                   encryption_context := media_blob_context user key; authority := d |}).

Definition prepare_canonical_media_write (user : str) (m : CaptureEventManifest) (decision_at : str) :
    prog Event (res CanonicalMediaWrite) (res CanonicalMediaWrite) :=
  let! md := try_pure (ok_or (media m) (invalid "canonical media is required")) in
  let! d := try_ (invoke (recording_media_authority_decision user m decision_at)) in
  match d with
  | UntilDeleted _ _ epoch key_epoch _ => prepare_durable user m md d epoch key_epoch
  | ProcessingWindow30d _ _ => prepare_processing user md d
  end.

(** The stored object is this media, under this key and context. *)
Definition verify_stored (w : CanonicalMediaWrite) (expected : bytes) (existing : GcsGetResponse) : res Z :=
  let? _ := refuse ((generation existing <=? 0) || negb (str_eqb (object_wrapped_dek existing) (provider_key_reference w)))
    (Conflict (lit "existing canonical media does not match the installed account key")) in
  let? plaintext := decrypt_bound_blob_v2 aead (encryption_key w) (ciphertext existing) (encryption_context w) in
  let? _ := refuse (negb (bool_decide (plaintext = expected))) (Conflict (lit "asset_id was already used for different media")) in
  Ok (generation existing).

Definition verify_existing_media (w : CanonicalMediaWrite) (expected : bytes) : prog Event (res Z) (res Z) :=
  let! existing := try_ (call (EGetCurrent (cw_object_key w)) (get_current env)) in
  done_with (verify_stored w expected existing).

(** What a commit is told of the media. *)
Record StoredMedia := {
  sm_object_key : option str;
  sm_generation : option Z;
  sm_upload_token : option str;
  sm_authority : option RecordingMediaAuthorityDecision
}.

Definition no_media : StoredMedia :=
  {| sm_object_key := None; sm_generation := None; sm_upload_token := None; sm_authority := None |}.

Definition media_upload_failed {A} (m : CaptureEventManifest) : prog Event Response A :=
  capture_failure_response (Some m) MediaStorageUnavailable (text_response 500 "media upload failed").

Definition upload_identity (m : CaptureEventManifest) (md : MediaDescriptor) : CaptureUploadIdentity :=
  {| up_capture_session_id := capture_session_id m; up_stream_id := stream_id m; up_event_id := event_id m;
     up_asset_id := asset_id md |}.

(** The put of the encrypted object, or the adoption of the one an earlier
    attempt of this upload left. *)
Definition put_object (user : str) (m : CaptureEventManifest) (w : CanonicalMediaWrite) (media_bytes encrypted : bytes) :
    prog Event Response Z :=
  let! put := call (EPut user (cw_object_key w) encrypted (provider_key_reference w)) (put_current env) in
  match put with
  | Finished (Ok g) => done_with g
  | Finished (Err _) =>
    let! verified := invoke (verify_existing_media w media_bytes) in
    match verified with
    | Ok g => done_with g
    | Err _ => media_upload_failed m
    end
  | JoinError => media_upload_failed m
  end.

Definition store_media (user : str) (m : CaptureEventManifest) (media_bytes : option bytes) (digest commit_stamp : str) :
    prog Event Response StoredMedia :=
  let! md := or_panic (media m) in
  let! media_bytes := or_panic media_bytes in
  let! prepared := invoke (prepare_canonical_media_write user m commit_stamp) in
  match prepared with
  | Err _ => media_upload_failed m
  | Ok w =>
    let! nonce := call ENonce (generate_nonce env) in
    match encrypt_bound_blob aead (encryption_key w) nonce media_bytes (encryption_context w) with
    | Err _ => media_upload_failed m
    | Ok encrypted =>
      let! reserved := call (EReserveUpload user (upload_identity m md) (cw_object_key w) digest) (reserve_media_upload env) in
      match reserved with
      | Err e => capture_failure_response (Some m) LifecycleUnavailable (into_response e)
      | Ok token =>
        let! g := put_object user m w media_bytes encrypted in
        done_with {| sm_object_key := Some (cw_object_key w); sm_generation := Some g; sm_upload_token := token;
                     sm_authority := Some (authority w) |}
      end
    end
  end.

(** *** The upload of one event *)

Definition accepted (code : Z) (m : CaptureEventManifest) (asset : str) (committed : Z) : Response :=
  json_response code (object
    [("event_id", VString (event_id m)); ("asset_id", VString asset);
     ("media_disposition", VString (media_disposition_as_str (media_disposition m)));
     ("processing_state", VString (match media_disposition m with Canonical => lit "queued" | Reference => lit "ready" end));
     ("committed_through_sequence", of_Z committed)]%string).

(** [enclave_commit_stamp]: the milliseconds are cast to [i64]. *)
Definition enclave_commit_stamp {R} : prog Event R str :=
  let! now := call ENow (now_millis env) in done_with (format_epoch_millis (I64.wrap now)).

Definition check_entitlement (user : str) (outbox : bool) (m : CaptureEventManifest) (media_bytes : option bytes) :
    prog Event Response unit :=
  if capture_requires_recording_lease (stream_kind m) then
    let! refused :=
      if outbox
      then reserve_recording_delivery user (event_id m) (match media_bytes with Some b => Z.of_nat (length b) | None => 0 end)
      else check_recording_entitlement user in
    match refused with
    | None => done_with tt
    | Some r => capture_failure_response (Some m) (recording_entitlement_failure_reason (status r)) r
    end
  else done_with tt.

Definition commit_upload (user digest asset stamp : str) (outbox : bool) (m : CaptureEventManifest) (stored : StoredMedia) :
    prog Event Response Response :=
  let! committed := call (ECommit {| account_id := user; manifest := m; cc_manifest_digest := digest;
      object_key := sm_object_key stored; object_generation := sm_generation stored;
      upload_token := sm_upload_token stored; media_authority := sm_authority stored; committed_at := stamp |})
    (commit_event env) in
  let! result := or_error "capture_event" (Some m) committed in
  (if outbox then complete_recording_delivery user (event_id m) else done_with tt) ;!
  done_with (accepted (if duplicate result then 200 else 201) m asset (committed_through_sequence result)).

Definition upload_new_event (user digest asset : str) (outbox : bool) (m : CaptureEventManifest) (media_bytes : option bytes) :
    prog Event Response Response :=
  check_entitlement user outbox m media_bytes ;!
  let! stamp := enclave_commit_stamp in
  let! stored :=
    match media_disposition m with
    | Canonical => store_media user m media_bytes digest stamp
    | Reference => done_with no_media
    end in
  commit_upload user digest asset stamp outbox m stored.

Definition upload_manifest (user : str) (outbox : bool) (m : CaptureEventManifest) (p : Parts) : prog Event Response Response :=
  or_error "capture_event" (Some m) (validate sha256 m) ;!
  check_parts m p ;!
  let! digest := or_error "capture_event" (Some m) (manifest_digest sha256 manifest_to_vec m) in
  let! asset := or_error "capture_event" (Some m) (response_asset_id m) in
  let! keys := or_error "capture_event" (Some m) (object_key_candidates user m) in
  let! answer := call (EPreflight user m digest keys) (preflight_event env) in
  match answer with
  | Ok (Duplicate committed) =>
    (if outbox then complete_recording_delivery user (event_id m) else done_with tt) ;!
    return_ (accepted 200 m asset committed)
  | Ok New => upload_new_event user digest asset outbox m (media_part p)
  | Err e => capture_error_response (Some m) e
  end.

Definition OUTBOX_MODE : str := lit "encrypted-outbox-v1".

Definition upload_capture_event (user : str) (delivery_mode : option str) : prog Event Response Response :=
  let outbox := bool_decide (delivery_mode = Some OUTBOX_MODE) in
  admit_account "capture_event" None user ;!
  consume_rate_or_refuse "capture_event" None (capture_event_limiter config) "capture-event" user ;!
  let! p := read_parts PART_FUEL no_parts in
  match manifest_part p with
  | None => capture_failure_response None ManifestMissing (bad_request "manifest field is required")
  | Some b =>
    match manifest_from_slice b with
    | None =>
      capture_failure_response None ManifestInvalid (bad_request "manifest is not valid capture schema v2 JSON")
    | Some m => upload_manifest user outbox m p
    end
  end.

(** *** The upload of a batch of references *)

Definition MAX_SCREEN_DEDUPE_VERSION : Z := 2.

Definition batch_route : string := "screen_reference_batch".

Definition batch_concurrency (first : option CaptureEventManifest) (batch : str) : prog Event Response unit :=
  let! number := call ERandom (random_u128 env) in
  let! permit := call (EConcurrency "capture-reference-batch" (batch ++ lit ":" ++ hex_of_bytes (be_bytes 16 number)) 32 600)
    (acquire_concurrency env) in
  match permit with
  | Ok true => done_with tt
  | Ok false => capture_failure_response_for_route batch_route first RateLimited rate_limited_response
  | Err _ =>
    capture_failure_response_for_route batch_route first LifecycleUnavailable (text_response 503 "service unavailable")
  end.

(** The preflight of every event, in order. *)
Fixpoint preflight_batch (user : str) (first : option CaptureEventManifest) (index : nat)
    (l : list (CaptureEventManifest * str)) : prog Event Response (list CapturePreflight) :=
  match l with
  | [] => done_with []
  | (e, digest) :: l =>
    let! answer := call (EPreflight user e digest None) (preflight_event env) in
    match answer with
    | Ok outcome =>
      let! outcomes := preflight_batch user first (S index) l in
      done_with (outcome :: outcomes)
    | Err error =>
      capture_error_response_for_route batch_route first
        (for_capture_reference_batch_item error (Z.of_nat index) (sequence e))
    end
  end.

Definition new_event_ids (outcomes : list CapturePreflight) (ids : list str) : list str :=
  snd <$> List.filter (fun p => match p.1 with New => true | Duplicate _ => false end) (zip outcomes ids).

Definition batch_delivery (request : ScreenReferenceBatchRequest) (v : ValidatedReferenceBatch) (outcomes : list CapturePreflight) :
    BatchDelivery :=
  {| bd_batch_id := batch_id request; bd_manifest_digest := aggregate_manifest_digest v; bd_stream_id := batch_stream_id v;
     bd_first_sequence := first_sequence v; bd_last_sequence := last_sequence v; bd_event_ids := event_ids v;
     bd_new_event_ids := new_event_ids outcomes (event_ids v) |}.

Definition batch_accepted (code : Z) (request : ScreenReferenceBatchRequest) (v : ValidatedReferenceBatch)
    (r : ReferenceBatchCommitResult) : Response :=
  json_response code (object
    [("batch_id", VString (batch_id request)); ("stream_id", VString (batch_stream_id v));
     ("first_sequence", of_Z (first_sequence v)); ("last_sequence", of_Z (last_sequence v));
     ("new_count", of_Z (new_count r)); ("duplicate_count", of_Z (duplicate_count r));
     ("committed_through_sequence", of_Z (batch_committed_through r));
     ("max_screen_dedupe_version", of_Z MAX_SCREEN_DEDUPE_VERSION)]%string).

Definition commit_batch (user : str) (request : ScreenReferenceBatchRequest) (v : ValidatedReferenceBatch)
    (first : option CaptureEventManifest) : prog Event Response Response :=
  let! stamp := enclave_commit_stamp in
  let! committed := call (ECommitBatch {| rbc_account_id := user; rbc_events := events request;
      rbc_manifest_digests := manifest_digests v; rbc_committed_at := stamp |}) (commit_reference_batch env) in
  let! recorded := or_error batch_route first committed in
  complete_recording_delivery_batch user (batch_id request) (aggregate_manifest_digest v) (event_ids v) ;!
  done_with (batch_accepted (if new_count recorded =? 0 then 200 else 201) request v recorded).

Definition upload_valid_batch (user : str) (request : ScreenReferenceBatchRequest) (v : ValidatedReferenceBatch)
    (first : option CaptureEventManifest) : prog Event Response Response :=
  let! head_event := or_panic (head (events request)) in
  let! enrolled := call (EEnrollmentPreflight user (capture_session_id head_event)) (preflight_reference_batch_enrollment env) in
  or_error batch_route first enrolled ;!
  batch_concurrency first (batch_id request) ;!
  let! outcomes := preflight_batch user first 0 (zip (events request) (manifest_digests v)) in
  let! refused := reserve_recording_delivery_batch user (batch_delivery request v outcomes) in
  match refused with
  | Some r => capture_failure_response_for_route batch_route first (recording_entitlement_failure_reason (status r)) r
  | None => commit_batch user request v first
  end.

Definition upload_screen_reference_batch (user : str) (delivery_mode : option str) (request : ScreenReferenceBatchRequest) :
    prog Event Response Response :=
  let first := head (events request) in
  if negb (bool_decide (delivery_mode = Some OUTBOX_MODE))
  then capture_failure_response_for_route batch_route first RequestInvalid
         (bad_request "reference batches require encrypted outbox delivery mode")
  else
    admit_account batch_route first user ;!
    consume_rate_or_refuse batch_route first (reference_batch_limiter config) "capture-reference-batch" user ;!
    let! v := or_error batch_route first (validate_reference_batch sha256 manifest_to_vec request) in
    upload_valid_batch user request v first.
End Handlers.

(** ** What a commit rests on *)

Section Protocol.
Context (sha256 : bytes -> bytes) (hmac : bytes -> bytes -> bytes) (aead : Aead).
Context (manifest_to_vec : CaptureEventManifest -> option bytes).
Context (claims_from_slice : bytes -> option RecordingRetentionLeaseClaims) (b64_decode : str -> option bytes).
Context (config : IngestConfig) (env : Env).
Context (user : str) (outbox : bool).

(** The account is active and its rate allows the upload. *)
Definition gate_passed (h : list Event) : Prop :=
  EAccountActive user (Ok true) ∈ h /\ exists scope limiter, EConsumeRate scope user limiter (Ok true) ∈ h.

(** The event is one the checks pass, under its digest, with the media that
    its disposition calls for. *)
Definition event_checked (h : list Event) (m : CaptureEventManifest) (digest : str) (media_bytes : option bytes) : Prop :=
  validate sha256 m = Ok tt /\ manifest_digest sha256 manifest_to_vec m = Ok digest
  /\ match media_disposition m with
     | Canonical => exists b content_type, media_bytes = Some b /\ EFieldBytes (Some b) ∈ h
         /\ validate_media_bytes sha256 m b content_type = Ok tt
     | Reference => media_bytes = None
     end.

Definition event_is_new (h : list Event) (m : CaptureEventManifest) (digest : str) : Prop :=
  exists keys, EPreflight user m digest keys (Ok New) ∈ h.

(** Under enforcement, a delivery reserved for this event, or a recording
    lease read as unexpired. *)
Definition entitled (h : list Event) (m : CaptureEventManifest) (media_bytes : option bytes) : Prop :=
  enforces config = false
  \/ (outbox = true /\ EReserveDelivery user (event_id m) (match media_bytes with Some b => Z.of_nat (length b) | None => 0 end) (Ok true) ∈ h)
  \/ (outbox = false /\ exists lease expires_at expires now,
        EActiveLease user (Ok (Some (lease, expires_at))) ∈ h /\ parse_epoch_millis expires_at = Some expires
        /\ ENow now ∈ h /\ now < expires).

(** The grounds of durable storage: the device's lease, verified, covers the
    event, and the account's stored preference still says so, at the same
    revision and epoch, with no change in progress. *)
Definition durable_grounds (h : list Event) (m : CaptureEventManifest) (d : RecordingMediaAuthorityDecision) : Prop :=
  exists echo claims started ended p ke at_,
    is_audio (stream_kind m) = true /\ recording_retention m = Some echo
    /\ verify_recording_retention_lease hmac claims_from_slice b64_decode (jwt_secrets config) (authority_token echo) = Ok claims
    /\ lc_user_id claims = user /\ lc_lease_id claims = lease_id echo /\ lc_policy_revision claims = policy_revision echo
    /\ lc_policy_epoch claims = policy_epoch echo
    /\ parse_epoch_millis (started_at m) = Some started /\ parse_epoch_millis (ended_at m) = Some ended
    /\ valid_from_epoch_millis claims <= started < capture_started_before_epoch_millis claims
    /\ ended <= valid_until_epoch_millis claims
    /\ EPreference user (Ok p) ∈ h /\ policy p = PolicyUntilDeleted /\ revision p = policy_revision echo
    /\ pref_policy_epoch p = Some (policy_epoch echo) /\ operation_state p = None
    /\ durable_recording_storage_bound config = true
    /\ EKeyEpoch user (revision p) (policy_epoch echo) (Ok (Some ke)) ∈ h
    /\ d = UntilDeleted (policy_revision echo) (policy_revision echo) (policy_epoch echo) (policy_revision echo) at_.

(** The key, the encryption context and the key's reference an authority
    calls for. *)
Definition write_grounds (h : list Event) (m : CaptureEventManifest) (md : MediaDescriptor) (w : CanonicalMediaWrite) : Prop :=
  match authority w with
  | UntilDeleted _ _ epoch key_epoch _ =>
    durable_grounds h m (authority w)
    /\ canonical_recording_media_object_key user (asset_id md) = Ok (cw_object_key w)
    /\ recording_media_key_reference sha256 key_epoch epoch = Ok (provider_key_reference w)
    /\ recording_media_blob_context (recording_context_of user (cw_object_key w) key_epoch epoch m md) = Ok (encryption_context w)
  | ProcessingWindow30d _ _ =>
    canonical_capture_media_object_key user (asset_id md) = Ok (cw_object_key w)
    /\ encryption_context w = media_blob_context user (cw_object_key w)
  end.

(** The put of exactly this media, encrypted under its context, after its
    upload was reserved. *)
Definition put_grounds (h : list Event) (m : CaptureEventManifest) (digest : str) (b : bytes) (w : CanonicalMediaWrite)
    (token : option str) (blob : bytes) : Prop :=
  exists md nonce, media m = Some md /\ write_grounds h m md w
    /\ encrypt_bound_blob aead (encryption_key w) nonce b (encryption_context w) = Ok blob
    /\ EReserveUpload user (upload_identity m md) (cw_object_key w) digest (Ok token) ∈ h.

(** The object of generation [g] holds this media: the put stored it, or it
    was there, of the same key, and decrypted to it. *)
Definition object_holds (h : list Event) (b : bytes) (w : CanonicalMediaWrite) (blob : bytes) (g : Z) : Prop :=
  EPut user (cw_object_key w) blob (provider_key_reference w) (Finished (Ok g)) ∈ h
  \/ exists existing, EGetCurrent (cw_object_key w) (Ok existing) ∈ h /\ generation existing = g /\ 0 < g
      /\ object_wrapped_dek existing = provider_key_reference w
      /\ decrypt_bound_blob_v2 aead (encryption_key w) (ciphertext existing) (encryption_context w) = Ok b.

Definition no_commit (e : Event) : Prop := match e with ECommit _ _ | ECommitBatch _ _ => False | _ => True end.

Definition upload_grounds (h : list Event) (m : CaptureEventManifest) (digest : str) (media_bytes : option bytes) : Prop :=
  gate_passed h /\ event_checked h m digest media_bytes /\ event_is_new h m digest /\ entitled h m media_bytes.

(** What is told of the media: nothing for a reference, and for a canonical
    event the object that holds exactly its media. *)
Definition media_grounds (h : list Event) (m : CaptureEventManifest) (digest : str) (media_bytes : option bytes)
    (s : StoredMedia) : Prop :=
  match media_disposition m with
  | Reference => s = no_media
  | Canonical => exists b w token blob g, media_bytes = Some b /\ put_grounds h m digest b w token blob
      /\ object_holds h b w blob g
      /\ s = {| sm_object_key := Some (cw_object_key w); sm_generation := Some g; sm_upload_token := token;
                sm_authority := Some (authority w) |}
  end.

Definition commit_grounds (h : list Event) (c : CaptureCommit) : Prop :=
  account_id c = user /\ Forall no_commit h
  /\ exists media_bytes, upload_grounds h (manifest c) (cc_manifest_digest c) media_bytes
    /\ media_grounds h (manifest c) (cc_manifest_digest c) media_bytes
         {| sm_object_key := object_key c; sm_generation := object_generation c; sm_upload_token := upload_token c;
            sm_authority := media_authority c |}.

(** A batch is committed as it was validated, once every event of it has
    passed its preflight in order and its delivery is reserved. *)
Definition batch_grounds (h : list Event) (c : ReferenceBatchCommit) : Prop :=
  rbc_account_id c = user /\ Forall no_commit h /\ gate_passed h
  /\ exists request v outcomes holder,
    validate_reference_batch sha256 manifest_to_vec request = Ok v
    /\ rbc_events c = events request /\ rbc_manifest_digests c = manifest_digests v
    /\ Forall2 (fun ed outcome => EPreflight user ed.1 ed.2 None (Ok outcome) ∈ h) (zip (events request) (manifest_digests v)) outcomes
    /\ EConcurrency "capture-reference-batch" holder 32 600 (Ok true) ∈ h
    /\ (enforces config = false \/ EReserveBatch user (batch_delivery request v outcomes) (Ok true) ∈ h).

(** What each call is allowed to rest on. *)
Definition justified (h : list Event) (e : Event) : Prop :=
  match e with
  | EPreflight u m digest _ _ => u = user /\ gate_passed h /\ exists media_bytes, event_checked h m digest media_bytes
  | EReserveUpload u identity key digest _ =>
    u = user /\ exists m md b, upload_grounds h m digest (Some b) /\ media m = Some md /\ identity = upload_identity m md
  | EPut u key blob reference _ =>
    u = user /\ exists m digest b w token, upload_grounds h m digest (Some b) /\ put_grounds h m digest b w token blob
      /\ key = cw_object_key w /\ reference = provider_key_reference w
  | ECommit c _ => commit_grounds h c
  | ECommitBatch c _ => batch_grounds h c
  | _ => True
  end.

#[export] Instance gate_passed_monotone : Monotone gate_passed.
Proof. unfold gate_passed; monotone_by_shape. Qed.

#[export] Instance event_checked_monotone m d b : Monotone (fun h => event_checked h m d b).
Proof. unfold event_checked; destruct (media_disposition m); monotone_by_shape. Qed.

#[export] Instance event_is_new_monotone m d : Monotone (fun h => event_is_new h m d).
Proof. unfold event_is_new; monotone_by_shape. Qed.

#[export] Instance entitled_monotone m b : Monotone (fun h => entitled h m b).
Proof. unfold entitled; monotone_by_shape. Qed.

#[export] Instance durable_grounds_monotone m d : Monotone (fun h => durable_grounds h m d).
Proof. unfold durable_grounds; monotone_by_shape. Qed.

#[export] Instance write_grounds_monotone m md w : Monotone (fun h => write_grounds h m md w).
Proof. unfold write_grounds; destruct (authority w); monotone_by_shape. Qed.

#[export] Instance put_grounds_monotone m d b w token blob : Monotone (fun h => put_grounds h m d b w token blob).
Proof. unfold put_grounds; monotone_by_shape. Qed.

#[export] Instance upload_grounds_monotone m d b : Monotone (fun h => upload_grounds h m d b).
Proof. unfold upload_grounds; monotone_by_shape. Qed.

#[export] Instance media_grounds_monotone m d b s : Monotone (fun h => media_grounds h m d b s).
Proof. unfold media_grounds, object_holds; destruct (media_disposition m); monotone_by_shape. Qed.

(** A phase adds calls other than commits. *)
Definition quietly (h h' : list Event) : Prop := h ⊆ h' /\ (Forall no_commit h -> Forall no_commit h').

#[export] Instance quietly_preorder : PreOrder quietly.
Proof. split; [by intros h|]; intros a b c [s1 f1] [s2 f2]; split; [by etransitivity|auto]. Qed.

Lemma quietly_snoc h h' e : quietly h h' -> no_commit e -> quietly h (h' ++ [e]).
Proof.
  intros [s f] He; split; [set_solver|]; intros Hh; apply Forall_app; split; [auto|by constructor].
Qed.
#[local] Hint Resolve quietly_snoc : core.
#[local] Hint Extern 0 (no_commit _) => exact I : core.
#[local] Hint Extern 0 (quietly ?h ?h) => reflexivity : core.

Lemma later {F : list Event -> Prop} `{!Monotone F} h h' : quietly h h' -> F h -> F h'.
Proof. intros [s _]; by apply monotone. Qed.

(** What a fallible phase comes to. *)
Definition phase {A} (h : list Event) (Q : A -> list Event -> Prop) (r : res A) (h' : list Event) : Prop :=
  quietly h h' /\ match r with Ok a => Q a h' | Err _ => True end.

Abbreviation asks h m Q := (follows (extends justified) h m (phase h Q) (phase h Q) (fun _ => False)).

Lemma phase_err {A} h h' (Q : A -> list Event -> Prop) e : quietly h h' -> phase h Q (Err e) h'.
Proof. by split. Qed.
#[local] Hint Resolve phase_err : core.

Lemma then_load_dek {B T} h0 h wrapped (k : bytes -> prog Event (res T) B) (post : B -> list Event -> Prop) (Q : T -> list Event -> Prop) :
  quietly h0 h ->
  (forall dek h', quietly h0 h' -> quietly h h' -> follows (extends justified) h' (k dek) post (phase h0 Q) (fun _ => False)) ->
  follows (extends justified) h (bind (try_ (load_dek env wrapped)) k) post (phase h0 Q) (fun _ => False).
Proof.
  intros q rest; apply then_try with (mid := fun _ h' => quietly h0 h' /\ quietly h h').
  - apply then_call; [done|]; intros a; apply follows_done; destruct a as [raw|]; cbn; [|auto].
    destruct (refuse _ _); cbn; auto.
  - by intros dek h' [q0 q1]; apply rest.
Qed.

Lemma media_dek_asks h : asks h (load_or_create_media_dek env user) (fun _ _ => True).
Proof.
  apply then_try_call; [done|auto|]; intros [wrapped|].
  - apply then_load_dek; [auto|]; intros dek h' q _; by apply follows_done.
  - apply then_try with (mid := fun _ h' => quietly h h').
    + apply then_call; [done|]; intros dek; apply then_call; [done|]; intros w; apply follows_done; destruct w; cbn; auto.
    + intros [dek candidate] h' q; apply then_try_call; [done|auto|]; intros winner; case_match.
      { apply follows_done; split; auto. }
      apply then_load_dek; [auto|]; intros dek' h1 q1 _; by apply follows_done.
Qed.

Lemma lease_matches claims echo :
  lease_mismatch user claims echo = false ->
  lc_user_id claims = user /\ lc_lease_id claims = lease_id echo /\ lc_policy_revision claims = policy_revision echo
  /\ lc_policy_epoch claims = policy_epoch echo.
Proof.
  unfold lease_mismatch; intros H; all_ok; repeat match goal with H : str_eqb _ _ = true |- _ => apply str_eqb_eq in H end.
  by match goal with H : (_ =? _) = true |- _ => apply Z.eqb_eq in H end.
Qed.

Lemma preference_grants p claims :
  preference_withholds p claims = false ->
  policy p = PolicyUntilDeleted /\ revision p = lc_policy_revision claims
  /\ pref_policy_epoch p = Some (lc_policy_epoch claims) /\ operation_state p = None.
Proof.
  unfold preference_withholds; intros H; all_ok; repeat case_bool_decide; try done.
  match goal with H : (_ =? _) = true |- _ => apply Z.eqb_eq in H end.
  split_and!; try done; destruct (operation_state p); [|done]; naive_solver.
Qed.

Definition authority_of (m : CaptureEventManifest) (d : RecordingMediaAuthorityDecision) (h : list Event) : Prop :=
  authority_is_durable d = true -> durable_grounds h m d.

Lemma authority_asks h m at_ :
  asks h (recording_media_authority_decision hmac claims_from_slice b64_decode config env user m at_) (authority_of m).
Proof.
  unfold recording_media_authority_decision.
  assert (P0 : forall h' rev, quietly h h' ->
    phase h (authority_of m) (Ok (processing rev at_)) h') by done.
  destruct (is_audio (stream_kind m)) eqn:Ea; cbn [negb]; [|by apply follows_done, P0].
  destruct (recording_retention m) as [echo|] eqn:Er; [|by apply follows_done, P0].
  apply then_try_pure; [auto|]; intros claims Hv; unfold verify_lease in Hv; case_match; simplify_eq.
  destruct (lease_mismatch _ _ _) eqn:Em; [apply follows_return; auto|].
  apply lease_matches in Em as (E1 & E2 & E3 & E4).
  apply then_try_pure; [auto|]; intros started Es%ok_or_Ok; apply then_try_pure; [auto|]; intros ended Ee%ok_or_Ok.
  destruct (interval_covered _ _ _) eqn:Ec; cbn [negb]; [|by apply follows_done, P0].
  apply then_try_call; [done|auto|]; intros p.
  destruct (preference_withholds _ _) eqn:Ep; [apply follows_done, P0; auto|].
  apply preference_grants in Ep as (F1 & F2 & F3 & F4).
  destruct (durable_recording_storage_bound config) eqn:Eb; cbn [negb]; [|apply follows_return; auto].
  apply then_try_call; [done|auto|]; intros [ke|]; [|apply follows_return; auto].
  apply follows_done; split; [auto|]; intros _; unfold interval_covered in Ec; bool_prop.
  exists echo, claims, started, ended, p, ke, at_; rewrite <- E3, <- E4.
  split_and!; try done; try congruence; try lia; set_solver.
Qed.

(** [?] on the result of another phase. *)
Lemma then_ask {A T B} h0 h (m : prog Event (res A) (res A)) (k : A -> prog Event (res T) B) Q (post : B -> list Event -> Prop)
    (Q' : T -> list Event -> Prop) :
  quietly h0 h -> asks h m Q ->
  (forall a h', quietly h0 h' -> Q a h' -> follows (extends justified) h' (k a) post (phase h0 Q') (fun _ => False)) ->
  follows (extends justified) h (bind (try_ (invoke m)) k) post (phase h0 Q') (fun _ => False).
Proof.
  intros q ok rest; apply then_try with (mid := fun a h' => quietly h0 h' /\ Q a h').
  - eapply follows_weaken; [by apply follows_invoke, ok|]; intros r h' [q' Hr].
    assert (quietly h0 h') by (by transitivity h); destruct r; [done|by apply phase_err].
  - by intros a h' [q' Ha]; apply rest.
Qed.

Definition prepared (m : CaptureEventManifest) (w : CanonicalMediaWrite) (h : list Event) : Prop :=
  exists md, media m = Some md /\ write_grounds h m md w.

Lemma durable_asks h0 h m md rev rev' epoch ke at_ :
  quietly h0 h -> media m = Some md -> durable_grounds h m (UntilDeleted rev rev' epoch ke at_) ->
  follows (extends justified) h (prepare_durable sha256 env user m md (UntilDeleted rev rev' epoch ke at_) epoch ke)
    (phase h0 (prepared m)) (phase h0 (prepared m)) (fun _ => False).
Proof.
  intros q Em Hd; unfold prepare_durable.
  apply then_try_pure; [auto|]; intros key Hk; apply then_try_call; [done|auto|]; intros found.
  apply then_try_pure; [auto|]; intros k _.
  apply then_load_dek; [auto|]; intros dek h' q' q1.
  apply then_try_pure; [auto|]; intros reference Hr; apply then_try_pure; [auto|]; intros ctx Hc.
  assert (durable_grounds h' m (UntilDeleted rev rev' epoch ke at_)).
  { apply (later (F := fun h => durable_grounds h m _) h); [|exact Hd]; etransitivity; [|exact q1]; auto. }
  apply follows_done; split; [done|]; by exists md.
Qed.

Lemma processing_asks h0 h m md rev at_ :
  quietly h0 h -> media m = Some md ->
  follows (extends justified) h (prepare_processing env user md (ProcessingWindow30d rev at_))
    (phase h0 (prepared m)) (phase h0 (prepared m)) (fun _ => False).
Proof.
  intros q Em; unfold prepare_processing; apply then_try_pure; [auto|]; intros key Hk.
  eapply then_ask; [done|apply media_dek_asks|]; intros [dek reference] h' q' _.
  apply follows_done; split; [done|]; by exists md.
Qed.

Lemma prepare_asks h m at_ :
  asks h (prepare_canonical_media_write sha256 hmac claims_from_slice b64_decode config env user m at_) (prepared m).
Proof.
  unfold prepare_canonical_media_write; apply then_try_pure; [auto|]; intros md Em%ok_or_Ok.
  eapply then_ask; [done|apply authority_asks|]; intros [rev d|rev rev' epoch ke d] h' q Hd.
  - by apply processing_asks.
  - by apply durable_asks; [..|apply Hd].
Qed.

Lemma existing_asks h w b blob :
  asks h (verify_existing_media aead env w b) (fun g h' => object_holds h' b w blob g).
Proof.
  apply then_try_call; [done|auto|]; intros existing; apply follows_done; split; [auto|].
  destruct (verify_stored _ _ _ _) as [g|] eqn:E; [|done]; unfold verify_stored in E; all_ok; bool_prop.
  case_bool_decide; [|done]; match goal with H : str_eqb _ _ = true |- _ => apply str_eqb_eq in H end; subst.
  right; exists existing; split; [set_solver|]; by split_and!.
Qed.

(** *** How an upload is answered *)

Definition accepted_commit (e : Event) : Prop :=
  match e with ECommit _ (Ok _) | ECommitBatch _ (Ok _) => True | _ => False end.

Definition not_committed (h : list Event) : Prop := Forall (fun e => ~ accepted_commit e) h.

(** A refusal: logged last with its status, and nothing was committed. *)
Definition refused (r : Response) (h : list Event) : Prop :=
  400 <= status r < 600
  /\ (exists h' f, h = h' ++ [EFailureLogged f] /\ if_status f = status r)
  /\ not_committed h.

(** A commit that the store accepted, its duplicates told apart. *)
Definition committed (r : Response) (h : list Event) : Prop :=
  exists c result asset, ECommit c (Ok result) ∈ h
    /\ r = accepted (if duplicate result then 200 else 201) (manifest c) asset (committed_through_sequence result).

(** The event was there already: nothing is committed. *)
Definition already_there (r : Response) (h : list Event) : Prop :=
  Forall no_commit h /\ exists m digest keys n asset,
    EPreflight user m digest keys (Ok (Duplicate n)) ∈ h /\ r = accepted 200 m asset n.

(** A batch the store accepted. *)
Definition batch_committed (r : Response) (h : list Event) : Prop :=
  exists c result request v, ECommitBatch c (Ok result) ∈ h
    /\ r = batch_accepted (if new_count result =? 0 then 200 else 201) request v result.

Definition settled (r : Response) (h : list Event) : Prop :=
  refused r h \/ committed r h \/ already_there r h \/ batch_committed r h.

Abbreviation runs h m post := (follows (extends justified) h m post settled (fun _ => False)).

Lemma no_commit_not h : Forall no_commit h -> not_committed h.
Proof. intros all; eapply Forall_impl; [exact all|]; intros []; cbn; tauto. Qed.
#[local] Hint Resolve no_commit_not : core.

Lemma failure_runs {A} h route m reason r (post : A -> list Event -> Prop) :
  not_committed h -> 400 <= status r < 600 -> runs h (capture_failure_response_for_route route m reason r) post.
Proof.
  intros none st; unfold capture_failure_response_for_route; apply then_call; [done|]; intros [].
  apply follows_return; left; split; [done|]; split; [by eexists _, _|].
  apply Forall_app; split; [done|]; constructor; [by intros []|constructor].
Qed.

Lemma error_status e : 400 <= status (into_response e) < 600.
Proof. destruct e; cbn; lia. Qed.

Lemma or_error_runs {A B} h route m (r : res A) (k : A -> prog Event Response B) post :
  not_committed h -> (forall a, r = Ok a -> runs h (k a) post) -> runs h (bind (or_error route m r) k) post.
Proof.
  intros none rest; eapply follows_bind with (mid := fun a h' => r = Ok a /\ h' = h).
  - destruct r; [by apply follows_done|]; apply failure_runs; [done|apply error_status].
  - by intros a h' [E ->]; apply rest.
Qed.

(** A refusal on some answers, and the rest of the handler on the others. *)
Lemma then_phase {A B} h (m : prog Event Response A) (k : A -> prog Event Response B) mid post :
  runs h m mid -> (forall a h', mid a h' -> runs h' (k a) post) -> runs h (bind m k) post.
Proof. intros ok rest; by eapply follows_bind. Qed.

Lemma invoke_runs {A B} h0 h (m : prog Event (res A) (res A)) (k : res A -> prog Event Response B) Q post :
  quietly h0 h -> asks h m Q ->
  (forall a h', quietly h0 h' -> quietly h h' -> Q a h' -> runs h' (k (Ok a)) post) ->
  (forall e h', quietly h0 h' -> runs h' (k (Err e)) post) ->
  runs h (bind (invoke m) k) post.
Proof.
  intros q ok rest err; eapply follows_bind; [by apply follows_invoke, ok|]; intros r h' [q' Hr].
  assert (quietly h0 h') by (by transitivity h); destruct r; auto.
Qed.

Lemma put_runs h m digest b w token encrypted :
  Forall no_commit h -> upload_grounds h m digest (Some b) -> put_grounds h m digest b w token encrypted ->
  runs h (put_object aead env user m w b encrypted) (fun g h' => quietly h h' /\ object_holds h' b w encrypted g).
Proof.
  intros none up put; unfold put_object; apply then_call.
  { intros a; split; [done|]; by exists m, digest, b, w, token. }
  intros [[g|e]|].
  - apply follows_done; split; [auto|]; left; set_solver.
  - eapply (invoke_runs h); [auto|apply existing_asks| |].
    + intros g h' q _ Hg; apply follows_done; split; [exact q|exact Hg].
    + intros e' h' q; apply failure_runs; [|cbn; lia]; by apply no_commit_not, (proj2 q).
  - apply failure_runs; [|cbn; lia]; apply no_commit_not, Forall_app; split; [done|by constructor].
Qed.

Lemma upload_later m d b h h' : quietly h h' -> upload_grounds h m d b -> upload_grounds h' m d b.
Proof. intros q; apply (later (F := fun h => upload_grounds h m d b) _ _ q). Qed.

Lemma put_later m d b w token blob h h' :
  quietly h h' -> put_grounds h m d b w token blob -> put_grounds h' m d b w token blob.
Proof. intros q; apply (later (F := fun h => put_grounds h m d b w token blob) _ _ q). Qed.

Lemma failure_later {A} h h' route m reason r (post : A -> list Event -> Prop) :
  Forall no_commit h -> quietly h h' -> 400 <= status r < 600 ->
  runs h' (capture_failure_response_for_route route m reason r) post.
Proof. intros none q; by apply failure_runs, no_commit_not, (proj2 q). Qed.

Lemma canonical_parts h m digest mb :
  event_checked h m digest mb -> media_disposition m = Canonical ->
  exists md b, media m = Some md /\ mb = Some b.
Proof.
  intros (_ & _ & H) E; rewrite E in H; destruct H as (b & ct & -> & _ & V); unfold validate_media_bytes in V; all_ok.
  by eexists _, b.
Qed.

Lemma store_runs h m digest mb stamp :
  Forall no_commit h -> upload_grounds h m digest mb -> media_disposition m = Canonical ->
  runs h (store_media sha256 hmac aead claims_from_slice b64_decode config env user m mb digest stamp)
    (fun s h' => quietly h h' /\ media_grounds h' m digest mb s).
Proof.
  intros none up Ec; destruct (canonical_parts h m digest mb) as (md & b & Em & ->); [apply up|done|].
  unfold store_media; rewrite Em; cbn [or_panic].
  eapply follows_bind with (mid := fun x h' => x = md /\ h' = h); [by apply follows_done|]; intros ? ? [-> ->].
  eapply follows_bind with (mid := fun x h' => x = b /\ h' = h); [by apply follows_done|]; intros ? ? [-> ->].
  assert (F : forall h', quietly h h' -> runs h' (media_upload_failed m)
    (fun s h' => quietly h h' /\ media_grounds h' m digest (Some b) s)).
  { intros h' q; apply (failure_later h); [done|done|cbn; lia]. }
  eapply (invoke_runs h); [done|apply prepare_asks| |auto].
  intros w h1 q _ (md' & Em' & Hw); rewrite Em in Em'; injection Em' as <-.
  apply then_call; [done|]; intros nonce.
  destruct (encrypt_bound_blob _ _ _ _ _) as [blob|] eqn:Eb; [|auto].
  apply then_call.
  { intros a; split; [done|]; exists m, md, b; split; [|done]; eapply upload_later; [|exact up]; auto. }
  intros [token|e]; [|apply (failure_later h); [done|auto|apply error_status]].
  set (h2 := (h1 ++ _) ++ _); assert (q2 : quietly h h2) by (unfold h2; auto).
  assert (put_grounds h2 m digest b w token blob) as Hput.
  { exists md, nonce; split; [done|]; split; [|split; [done|unfold h2; set_solver]].
    apply (monotone (F := fun h => write_grounds h m md w) h1); [unfold h2; set_solver|done]. }
  eapply follows_bind; [apply (put_runs h2 m digest b w token blob); [by apply (proj2 q2)|by apply (upload_later m digest _ h)|done]|].
  intros g h3 [q3 Hg]; apply follows_done; split; [by transitivity h2|].
  unfold media_grounds; rewrite Ec; exists b, w, token, blob, g; split_and!; try done; by apply (put_later _ _ _ _ _ _ h2).
Qed.

Lemma epoch_millis_runs {R} h (post : Z -> list Event -> Prop) (returned : R -> list Event -> Prop) :
  (forall now, post (Z.min now I64.max_value) (h ++ [ENow now])) ->
  follows (extends justified) h (epoch_millis env) post returned (fun _ => False).
Proof. intros ok; apply then_call; [done|]; intros now; by apply follows_done. Qed.

(** The expiry of a lease is compared with a clock read of its own. *)
Lemma lease_runs {R} h answer (returned : R -> list Event -> Prop) :
  follows (extends justified) h (lease_is_live env answer)
    (fun live h' => quietly h h' /\ (live = true -> exists lease expires_at expires now,
       answer = Ok (Some (lease, expires_at)) /\ parse_epoch_millis expires_at = Some expires /\ ENow now ∈ h' /\ Z.min now I64.max_value < expires))
    returned (fun _ => False).
Proof.
  destruct answer as [[[lease expires_at]|]|]; cbn [lease_is_live]; try by apply follows_done.
  destruct (parse_epoch_millis expires_at) as [expires|] eqn:E; [|by apply follows_done].
  eapply follows_bind; [apply (epoch_millis_runs h (fun now h' => exists n, now = Z.min n I64.max_value /\ h' = h ++ [ENow n])); eauto|].
  intros now h' (n & -> & ->); apply follows_done; split; [auto|]; intros ?%Z.ltb_lt.
  exists lease, expires_at, expires, n; split_and!; [done|done|set_solver|done].
Qed.

Lemma entitlement_status :
  400 <= status inactive_lease < 600 /\ 400 <= status service_unavailable < 600.
Proof. cbn; lia. Qed.

Lemma entitlement_runs h m mb :
  Forall no_commit h ->
  runs h (check_entitlement config env user outbox m mb) (fun _ h' => quietly h h' /\ entitled h' m mb).
Proof.
  intros none; unfold check_entitlement; cbn [capture_requires_recording_lease].
  apply then_phase with (mid := fun refused h' => quietly h h'
    /\ match refused with None => entitled h' m mb | Some r => 400 <= status r < 600 end).
  - unfold entitled; destruct outbox eqn:Eo.
    + apply then_call; [done|]; intros a; apply follows_done; split; [auto|].
      destruct a as [[]|]; [|destruct (enforces config); [apply entitlement_status|by left]..].
      right; left; split; [done|set_solver].
    + apply then_call; [done|]; intros a; eapply follows_bind; [apply lease_runs|]; intros live h' [q Hl].
      assert (quietly h h') by (etransitivity; [|exact q]; auto).
      apply follows_done; split; [done|]; destruct live; cbn [orb].
      { destruct (Hl eq_refl) as (lease & at_ & expires & now & -> & Ep & En & Hlt); right; right; split; [done|].
        exists lease, at_, expires, now; split_and!; [apply (proj1 q); set_solver|done|done|].
        pose proof (parse_epoch_millis_bounds at_ expires Ep).
        assert (max_formatted_millis + 176401000 < I64.max_value) by done; lia. }
      destruct (enforces config); [destruct a; apply entitlement_status|by left].
  - intros [r|] h' [q Hr]; [by apply (failure_later h)|by apply follows_done].
Qed.

Lemma complete_runs h h0 event :
  quietly h0 h ->
  runs h (if outbox then complete_recording_delivery env user event else done_with tt) (fun _ h' => quietly h0 h').
Proof. intros q; destruct outbox; [apply then_call; [done|]; intros a|]; apply follows_done; auto. Qed.

(** Only the commit of an upload may be answered with an error afterwards. *)
Lemma commit_error h e : Forall no_commit h -> ~ accepted_commit e -> not_committed (h ++ [e]).
Proof. intros none err; apply Forall_app; split; [by apply no_commit_not|by constructor]. Qed.

Lemma commit_runs h digest asset stamp m mb stored :
  Forall no_commit h -> upload_grounds h m digest mb -> media_grounds h m digest mb stored ->
  runs h (commit_upload env user digest asset stamp outbox m stored) settled.
Proof.
  intros none up md; unfold commit_upload; apply then_call.
  { intros a; split; [done|]; split; [done|]; exists mb; split; [done|]; by destruct stored. }
  intros [result|e].
  - eapply follows_bind with (mid := fun x h' => x = result /\ _ = h'); [by apply follows_done|]; intros ? ? [-> <-].
    eapply then_phase; [by apply complete_runs|]; intros [] h' q; apply follows_done; right; left.
    eexists _, result, asset; split; [apply (proj1 q), elem_of_app; right; by apply list_elem_of_singleton|done].
  - eapply then_phase with (mid := fun _ _ => False); [|by intros ? ? []].
    apply failure_runs; [by apply commit_error; [|intros []]|apply error_status].
Qed.

Lemma new_event_runs h digest asset m mb :
  Forall no_commit h -> gate_passed h -> event_checked h m digest mb -> event_is_new h m digest ->
  runs h (upload_new_event sha256 hmac aead claims_from_slice b64_decode config env user digest asset outbox m mb) settled.
Proof.
  intros none gate checked new; unfold upload_new_event.
  eapply then_phase; [by apply entitlement_runs|]; intros [] h1 [q1 He].
  unfold enclave_commit_stamp; eapply then_phase with (mid := fun _ h' => quietly h1 h').
  { apply then_call; [done|]; intros now; apply follows_done; auto. }
  intros stamp h2 q2; assert (q : quietly h h2) by (by transitivity h1).
  assert (upload_grounds h2 m digest mb).
  { apply (later (F := fun h => upload_grounds h m digest mb) h1); [done|]; split_and!; [..|done];
      [apply (later (F := gate_passed) h)|apply (later (F := fun h => event_checked h m digest mb) h)
      |apply (later (F := fun h => event_is_new h m digest) h)]; done. }
  apply then_phase with (mid := fun s h' => quietly h2 h' /\ media_grounds h' m digest mb s).
  - destruct (media_disposition m) eqn:Ec; [by apply store_runs; [apply (proj2 q)|..]|].
    apply follows_done; split; [done|]; unfold media_grounds; by rewrite Ec.
  - intros s h3 [q3 Hm]; apply (commit_runs h3 digest asset stamp m mb); [by apply (proj2 q3), (proj2 q)| |done].
    by apply (upload_later m digest mb h2).
Qed.

(** *** Reading the parts *)

(** Which parts may still be read: the loop ends within the fuel. *)
Definition parts_left (p : Parts) : nat :=
  match manifest_part p with Some _ => 0 | None => 1 end + match media_part p with Some _ => 0 | None => 1 end.

(** The media part is bytes the stream gave. *)
Definition parts_read (p : Parts) (h : list Event) : Prop :=
  match media_part p with Some b => EFieldBytes (Some b) ∈ h | None => True end.

#[export] Instance parts_read_monotone p : Monotone (parts_read p).
Proof. unfold parts_read; destruct (media_part p); monotone_by_shape. Qed.

Lemma read_field_runs h p f :
  Forall no_commit h -> parts_read p h ->
  runs h (read_field env p f) (fun p' h' => quietly h h' /\ parts_read p' h' /\ (parts_left p' < parts_left p)%nat).
Proof.
  intros none read; unfold read_field.
  assert (F : forall h' reason r, quietly h h' -> 400 <= status r < 600 ->
    runs h' (capture_failure_response None reason r)
      (fun p' h' => quietly h h' /\ parts_read p' h' /\ (parts_left p' < parts_left p)%nat)).
  { intros h' reason r q st; by apply (failure_later h). }
  unfold parts_left; destruct (str_eqb _ _ && bool_decide (manifest_part p = None)) eqn:E1.
  { apply andb_true_iff in E1 as [_ E1]; apply bool_decide_eq_true in E1; rewrite E1.
    apply then_call; [done|]; intros [b|]; [|apply F; [auto|cbn; lia]]; case_match; [|apply F; [auto|cbn; lia]].
    apply follows_done; split; [auto|]; split; [|cbn; destruct (media_part p); lia].
    apply (later (F := parts_read p) h); [auto|done]. }
  destruct (str_eqb _ _ && bool_decide (media_part p = None)) eqn:E2.
  { apply andb_true_iff in E2 as [_ E2]; apply bool_decide_eq_true in E2; rewrite E2.
    apply then_call; [done|]; intros [b|]; [|apply F; [auto|cbn; lia]]; case_match; [|apply F; [auto|cbn; lia]].
    apply follows_done; split; [auto|]; split; [unfold parts_read; cbn; set_solver|cbn; destruct (manifest_part p); lia]. }
  case_match; apply F; [auto|cbn; lia|auto|cbn; lia].
Qed.

Lemma read_parts_runs fuel h p :
  Forall no_commit h -> parts_read p h -> (parts_left p < fuel)%nat ->
  runs h (read_parts env fuel p) (fun p' h' => quietly h h' /\ parts_read p' h').
Proof.
  revert h p; induction fuel as [|fuel IH]; intros h p none read left; [lia|]; cbn [read_parts].
  assert (N : forall e, no_commit e -> Forall no_commit (h ++ [e])) by (intros; apply Forall_app; auto).
  apply then_call; [done|]; intros [[f|]|].
  - eapply then_phase; [apply read_field_runs; [auto|by apply (later (F := parts_read p) h); auto]|].
    intros p' h' (q & read' & less); eapply follows_weaken; [apply IH; [by apply (proj2 q), N|done|lia]|].
    intros p'' h'' [q' r']; split; [|done]; etransitivity; [|exact q']; etransitivity; [|exact q]; auto.
  - apply follows_done; split; [auto|]; apply (later (F := parts_read p) h); auto.
  - apply (failure_later h); [done|auto|cbn; lia].
Qed.

Lemma check_parts_runs h m p :
  Forall no_commit h -> parts_read p h -> validate sha256 m = Ok tt ->
  runs h (check_parts sha256 m p) (fun _ h' => h' = h /\ forall digest,
    manifest_digest sha256 manifest_to_vec m = Ok digest -> event_checked h m digest (media_part p)).
Proof.
  intros none read valid; unfold check_parts, event_checked; unfold parts_read in read.
  assert (F : forall reason r (post : unit -> list Event -> Prop), 400 <= status r < 600 -> runs h (capture_failure_response (Some m) reason r) post)
    by (intros; by apply (failure_later h)).
  destruct (media_disposition m); destruct (media_part p) as [b|]; try by apply F; cbn; lia.
  - destruct (validate_media_bytes _ _ _ _) as [[]|e] eqn:E; [|apply F, error_status].
    apply follows_done; split; [done|]; intros digest Hd; split_and!; [done..|]; by exists b, (media_content_type p).
  - by apply follows_done.
Qed.

Lemma manifest_runs h m p :
  Forall no_commit h -> gate_passed h -> parts_read p h ->
  runs h (upload_manifest sha256 hmac aead manifest_to_vec claims_from_slice b64_decode config env user outbox m p) settled.
Proof.
  intros none gate read; unfold upload_manifest; apply or_error_runs; [auto|]; intros [] valid.
  eapply then_phase; [by apply check_parts_runs|]; intros [] ? [-> checked].
  apply or_error_runs; [auto|]; intros digest Hd; apply or_error_runs; [auto|]; intros asset _.
  apply or_error_runs; [auto|]; intros keys _; specialize (checked digest Hd).
  apply then_call; [intros a; by split_and!; [..|exists (media_part p)]|]; intros [[|n]|e].
  - apply new_event_runs; [apply Forall_app; auto| | |].
    + apply (later (F := gate_passed) h); auto.
    + apply (later (F := fun h => event_checked h m digest (media_part p)) h); auto.
    + exists keys; apply elem_of_app; right; by apply list_elem_of_singleton.
  - eapply then_phase; [by apply complete_runs|]; intros [] h' q; apply follows_return; right; right; left.
    split; [apply (proj2 q), Forall_app; auto|]; exists m, digest, keys, n, asset; split; [|done].
    apply (proj1 q), elem_of_app; right; by apply list_elem_of_singleton.
  - apply (failure_later h); [done|auto|apply error_status].
Qed.
(** *** Admission *)

Lemma admit_runs h route m :
  Forall no_commit h ->
  runs h (admit_account env route m user) (fun _ h' => Forall no_commit h' /\ EAccountActive user (Ok true) ∈ h').
Proof.
  intros none; apply then_call; [done|]; intros [[]|].
  - apply follows_done; split; [apply Forall_app; auto|apply elem_of_app; right; by left].
  - apply (failure_later h); [done|auto|cbn; lia].
  - apply (failure_later h); [done|auto|cbn; lia].
Qed.

Lemma rate_runs h route m limiter scope :
  Forall no_commit h -> EAccountActive user (Ok true) ∈ h ->
  runs h (consume_rate_or_refuse env route m limiter scope user) (fun _ h' => Forall no_commit h' /\ gate_passed h').
Proof.
  intros none active; unfold consume_rate_or_refuse, consume_scoped.
  eapply follows_bind with (mid := fun allowed h' => quietly h h' /\ (allowed = true -> gate_passed h')).
  - apply then_call; [done|]; intros a; apply follows_done; split; [auto|].
    destruct a as [[]|]; [intros _|done..]; split; [apply elem_of_app; by left|].
    eexists _, _; apply elem_of_app; right; by apply list_elem_of_singleton.
  - intros [] h' [q gate]; [apply follows_done; split; [by apply (proj2 q)|auto]|].
    by apply (failure_later h); [| |cbn; lia].
Qed.

(** *** Batches *)

Lemma reference_checked h e digest :
  validate sha256 e = Ok tt -> manifest_digest sha256 manifest_to_vec e = Ok digest -> media_disposition e = Reference ->
  event_checked h e digest None.
Proof. intros V D R; unfold event_checked; by rewrite R. Qed.

Definition batch_checked (l : list (CaptureEventManifest * str)) : Prop :=
  Forall (fun ed => forall h, event_checked h ed.1 ed.2 None) l.

Lemma preflight_batch_runs h first index l :
  Forall no_commit h -> gate_passed h -> batch_checked l ->
  runs h (preflight_batch env user first index l)
    (fun outcomes h' => quietly h h' /\ Forall2 (fun ed outcome => EPreflight user ed.1 ed.2 None (Ok outcome) ∈ h') l outcomes).
Proof.
  intros none gate checked; revert h index none gate; induction checked as [|[e digest] l He _ IH]; intros h index none gate;
    cbn [preflight_batch]; [by apply follows_done|].
  apply then_call; [intros a; split_and!; [done..|by exists None]|]; intros [outcome|error].
  - eapply then_phase; [apply IH; [apply Forall_app; auto|apply (later (F := gate_passed) h); auto]|].
    intros outcomes h' [q all]; apply follows_done; split; [by etransitivity; [|exact q]; auto|].
    constructor; [|done]; apply (proj1 q), elem_of_app; right; by apply list_elem_of_singleton.
  - apply (failure_later h); [done|auto|apply error_status].
Qed.

Lemma batch_reserve_runs {B} h d (k : option Response -> prog Event Response B) post :
  (forall r h', quietly h h' -> 400 <= status r < 600 -> runs h' (k (Some r)) post) ->
  (forall h', quietly h h' -> enforces config = false \/ EReserveBatch user d (Ok true) ∈ h' -> runs h' (k None) post) ->
  runs h (bind (reserve_recording_delivery_batch config env user d) k) post.
Proof.
  intros no yes; eapply follows_bind with (mid := fun refused h' => quietly h h' /\ match refused with
    | Some r => 400 <= status r < 600 | None => enforces config = false \/ EReserveBatch user d (Ok true) ∈ h' end).
  - apply then_call; [done|]; intros a; apply follows_done; split; [auto|].
    assert (EReserveBatch user d a ∈ h ++ [EReserveBatch user d a]) by (apply elem_of_app; right; by apply list_elem_of_singleton).
    destruct a as [[]|[]]; try by right.
    all: try (destruct (enforces config); [apply entitlement_status|by left]).
    case_match; cbn; lia.
  - intros [r|] h' [q Hr]; auto.
Qed.

Lemma accepted_batch_checked request v :
  validate_reference_batch sha256 manifest_to_vec request = Ok v ->
  head (events request) <> None /\ batch_checked (zip (events request) (manifest_digests v)).
Proof.
  intros (first & rest & content & E & _ & C & _)%accepted_batch_inv; rewrite E; split; [done|].
  apply check_batch_Ok in C as (members & _ & _ & digests); rewrite <- E in *; clear E.
  apply Forall_lookup_2; intros i [e d] [He Hd]%lookup_zip_Some h.
  destruct (members i e He) as (V & _ & _ & _ & R & _).
  apply reference_checked; [done| |done]; by apply (Forall2_lookup_lr _ _ _ i e d digests).
Qed.

Lemma commit_batch_runs h request v outcomes holder first :
  Forall no_commit h -> gate_passed h -> validate_reference_batch sha256 manifest_to_vec request = Ok v ->
  Forall2 (fun ed outcome => EPreflight user ed.1 ed.2 None (Ok outcome) ∈ h) (zip (events request) (manifest_digests v)) outcomes ->
  EConcurrency "capture-reference-batch" holder 32 600 (Ok true) ∈ h ->
  enforces config = false \/ EReserveBatch user (batch_delivery request v outcomes) (Ok true) ∈ h ->
  runs h (commit_batch env user request v first) settled.
Proof.
  intros none gate V F2 C R; unfold commit_batch, enclave_commit_stamp.
  eapply follows_bind with (mid := fun _ h' => quietly h h').
  { apply then_call; [done|]; intros now; apply follows_done; auto. }
  intros stamp h1 q; apply then_call.
  { intros a; split; [done|]; split; [by apply (proj2 q)|]; split; [by apply (later (F := gate_passed) h)|].
    exists request, v, outcomes, holder; split_and!; try done; [|by apply (proj1 q)|destruct R; [by left|right; by apply (proj1 q)]].
    eapply Forall2_impl; [exact F2|]; intros ed o Hin; by apply (proj1 q). }
  assert (none1 : Forall no_commit h1) by (by apply (proj2 q)).
  intros [result|e].
  - eapply follows_bind with (mid := fun x h' => x = result /\ _ = h'); [by apply follows_done|]; intros ? ? [-> <-].
    set (h2 := h1 ++ _); eapply then_phase with (mid := fun _ h' => h2 ⊆ h').
    { unfold complete_recording_delivery_batch; apply then_call; [done|]; intros a; apply follows_done.
      intros e Hin; apply elem_of_app; by left. }
    intros [] h' sub; apply follows_done; do 3 right; eexists _, result, request, v; split; [|done].
    apply sub, elem_of_app; right; by apply list_elem_of_singleton.
  - eapply then_phase with (mid := fun _ _ => False); [|by intros ? ? []].
    apply failure_runs; [by apply commit_error; [|intros []]|apply error_status].
Qed.

Lemma valid_batch_runs h request v first :
  Forall no_commit h -> gate_passed h -> validate_reference_batch sha256 manifest_to_vec request = Ok v ->
  runs h (upload_valid_batch config env user request v first) settled.
Proof.
  intros none gate V; destruct (accepted_batch_checked request v V) as [ne checked]; unfold upload_valid_batch.
  destruct (head (events request)) as [e0|]; [clear ne|done]; cbn [or_panic].
  eapply follows_bind with (mid := fun x h' => x = e0 /\ h' = h); [by apply follows_done|]; intros ? ? [-> ->].
  apply then_call; [done|]; intros enrolled; apply or_error_runs; [apply no_commit_not, Forall_app; auto|]; intros [] _.
  set (h1 := h ++ _); assert (q1 : quietly h h1) by (unfold h1; auto).
  eapply then_phase with (mid := fun _ h' => quietly h h' /\ exists holder, EConcurrency "capture-reference-batch" holder 32 600 (Ok true) ∈ h').
  { unfold batch_concurrency; apply then_call; [done|]; intros n; apply then_call; [done|]; intros [[]|].
    - apply follows_done; split; [auto|]; eexists; apply elem_of_app; right; by apply list_elem_of_singleton.
    - apply (failure_later h); [done|auto|cbn; lia].
    - apply (failure_later h); [done|auto|cbn; lia]. }
  intros [] h2 [q2 [holder C]]; assert (none2 : Forall no_commit h2) by (by apply (proj2 q2)).
  eapply then_phase; [apply preflight_batch_runs; [done|by apply (later (F := gate_passed) h)|done]|].
  intros outcomes h3 [q3 F2]; assert (none3 : Forall no_commit h3) by (by apply (proj2 q3)).
  apply batch_reserve_runs.
  - intros r h4 q4 st; by apply (failure_later h3).
  - intros h4 q4 R; apply (commit_batch_runs h4 request v outcomes holder); [by apply (proj2 q4)| |done| | |done].
    + apply (later (F := gate_passed) h); [|done]; transitivity h2; [done|]; by transitivity h3.
    + eapply Forall2_impl; [exact F2|]; intros ed o Hin; by apply (proj1 q4).
    + by apply (proj1 q4), (proj1 q3).
Qed.
End Protocol.

Section Upload.
Context (sha256 : bytes -> bytes) (hmac : bytes -> bytes -> bytes) (aead : Aead).
Context (manifest_to_vec : CaptureEventManifest -> option bytes).
Context (manifest_from_slice : bytes -> option CaptureEventManifest).
Context (claims_from_slice : bytes -> option RecordingRetentionLeaseClaims) (b64_decode : str -> option bytes).
Context (config : IngestConfig) (env : Env) (user : str) (delivery_mode : option str).

Definition outbox_delivery : bool := bool_decide (delivery_mode = Some OUTBOX_MODE).

Abbreviation upload := (upload_capture_event sha256 hmac aead manifest_to_vec manifest_from_slice claims_from_slice b64_decode
  config env user delivery_mode).
Abbreviation justified_upload :=
  (justified sha256 hmac aead manifest_to_vec claims_from_slice b64_decode config user outbox_delivery).

Lemma upload_follows :
  follows (extends justified_upload) [] upload (settled user) (settled user) (fun _ => False).
Proof.
  unfold upload_capture_event; fold outbox_delivery.
  eapply then_phase; [by apply admit_runs|]; intros [] h1 [none1 active].
  eapply then_phase; [by apply rate_runs|]; intros [] h2 [none2 gate].
  eapply then_phase; [by apply read_parts_runs; [done|done|cbn; unfold PART_FUEL; lia]|]; intros p h3 [q read].
  assert (none3 : Forall no_commit h3) by (by apply (proj2 q)).
  destruct (manifest_part p) as [b|]; [|by eapply (failure_later) with (h := h3); [| |cbn; lia]].
  destruct (manifest_from_slice b) as [m|]; [|by eapply (failure_later) with (h := h3); [| |cbn; lia]].
  apply manifest_runs; [done| |done]; by apply (later (F := gate_passed user) h2).
Qed.

(** C29: an upload is committed at most once, and only on its grounds.
    Whatever the repositories, the key service, object storage and the
    client's stream answer: the event is preflighted, its upload reserved,
    its object put and its row committed only for an active account within
    its rate, for a manifest that the checks pass and its own digest, with
    the media bytes that were read and validated against it, once the
    preflight called it new and the recording entitlement admitted it.  The
    committed key, generation, upload token and authority are those of an
    object that holds exactly these bytes, sealed under the key, the context
    and the name its authority calls for; and the authority is the durable
    one only on the grounds of [durable_grounds]: a verified lease of this
    account that covers the event, and the stored preference at the same
    revision and epoch. *)
Theorem upload_commits_grounded h :
  exists l, (upload h).2 = h ++ l /\ always justified_upload l.
Proof. destruct (history_run _ _ _ _ _ upload_follows h) as (l & E & all & _); eauto. Qed.

(** An upload is always answered, without a panic, and its answer is
    what happened: 201 for an event the store took and 200 for its duplicate
    under the store's committed sequence, 200 with nothing committed for an
    event the preflight knew, and otherwise a refusal of status 400 to 599
    with no accepted commit, logged last under its own status.  The loop
    over the multipart stream ends whatever the stream gives. *)
Theorem upload_answer_truthful h :
  exists r l, invoke (R := Response) upload h = (Continue r, h ++ l) /\ settled user r l.
Proof.
  destruct (history_run _ _ _ _ _ upload_follows h) as (l & E & _ & ans); unfold invoke.
  destruct (upload h) as [[r|r|] h']; cbn in E, ans; subst; [by exists r, l..|done].
Qed.

Context (request : ScreenReferenceBatchRequest).

Abbreviation upload_batch := (upload_screen_reference_batch sha256 manifest_to_vec config env user delivery_mode request).

Lemma batch_follows :
  follows (extends justified_upload) [] upload_batch (settled user) (settled user) (fun _ => False).
Proof.
  unfold upload_screen_reference_batch; destruct (bool_decide _); cbn [negb].
  - eapply then_phase; [by apply admit_runs|]; intros [] h1 [none1 active].
    eapply then_phase; [by apply rate_runs|]; intros [] h2 [none2 gate].
    apply or_error_runs; [by apply no_commit_not|]; intros v V; by apply valid_batch_runs.
  - eapply failure_later with (h := []); [done|done|cbn; lia].
Qed.

(** A batch of screen references is committed at most once, as it was
    validated, after every one of its events passed its own preflight in
    order, under a concurrency permit and, when billing is enforced, a
    reserved delivery that lists exactly the new events; and the answer is
    what happened, without a panic. *)
Theorem batch_commits_grounded h :
  exists r l, invoke (R := Response) upload_batch h = (Continue r, h ++ l) /\ always justified_upload l /\ settled user r l.
Proof.
  destruct (history_run _ _ _ _ _ batch_follows h) as (l & E & all & ans); unfold invoke.
  destruct (upload_batch h) as [[r|r|] h']; cbn in E, ans; subst; [by exists r, l..|done].
Qed.
End Upload.
