(* ===== verification/CaptureReads.v ===== *)
(** * Reads of captured state

    [cp/media.rs]: the handlers that report the state of streams, events,
    sessions and people, and the one that finishes a session.  Each makes one
    call of a repository, which is a parameter, as is the JSON of the records
    it returns; the summariser's cursor is a second, best-effort call. *)
From Stdlib Require Import ZArith Lia.
From S2P Require Import Prelude Text Errors Json Http IsoTime CaptureManifest.
Local Open Scope Z_scope.
Local Open Scope kioku_scope.

Definition clamp (lo hi x : Z) : Z := Z.max lo (Z.min hi x).

Inductive PublicPersonStatus := Identified | Recurring.

Definition person_status_as_str (s : PublicPersonStatus) : str :=
  match s with Identified => lit "identified" | Recurring => lit "recurring" end.

Record PeopleListRequest := {
  pl_kind : PublicPersonStatus;
  pl_after_id : Z;
  pl_limit : Z;
  pl_query : option str
}.

Record PeopleListQuery := {
  plq_kind : PublicPersonStatus;
  plq_after_id : option Z;
  plq_limit : option Z;
  plq_q : option str
}.

Record DescendingPageQuery := { before_id : option Z; page_limit : option Z }.

Record CaptureSessionListQuery := { window_hours : option Z; max_sessions : option Z }.

Section Reads.
Context (user : str).

(** [Err(error) => routed_read_unavailable(...)]: a store that cannot answer
    is never an absence. *)
Definition routed_read {A} (found : A -> Response) (answer : res A) : Response :=
  match answer with Ok a => found a | Err _ => routed_read_unavailable end.

Definition or_absent {A} (to_value : A -> Value) (answer : option A) : Response :=
  match answer with Some a => json_response 200 (to_value a) | None => into_response NotFound end.

Definition validated_id (name : string) (value : str) (k : Response) : Response :=
  match validate_id name value with Ok _ => k | Err e => into_response e end.

Definition stream_ack (ack : str -> str -> res Z) (stream : str) : Response :=
  validated_id "stream_id" stream
    match ack user stream with
    | Ok committed =>
      json_response 200 (object [("stream_id", VString stream); ("committed_through_sequence", of_Z committed)]%string)
    | Err NotFound => into_response NotFound
    | Err _ => routed_read_unavailable
    end.

Section Events.
Context {Status : Type} (to_value : Status -> Value).

Definition capture_status (event_status : str -> str -> res (option Status)) (event : str) : Response :=
  validated_id "event_id" event (routed_read (or_absent to_value) (event_status user event)).

(** [summarized_until_ms]: an unreadable cursor is unknown. *)
Definition summarized_until_ms (summarized_until : str -> res (option str)) : option Z :=
  match summarized_until user with
  | Ok cursor => cursor ≫= parse_epoch_millis
  | Err _ => None
  end.

Definition capture_session_status (summarized_until : str -> res (option str))
    (session_status : str -> str -> option Z -> res (option Status)) (session : str) : Response :=
  validated_id "capture_session_id" session
    (routed_read (or_absent to_value) (session_status user session (summarized_until_ms summarized_until))).

Definition list_capture_sessions (summarized_until : str -> res (option str))
    (recent_sessions : str -> Z -> Z -> option Z -> res (list Status)) (q : CaptureSessionListQuery) : Response :=
  let hours := clamp 1 24 (default 8 (window_hours q)) in
  let sessions := clamp 1 10 (default 5 (max_sessions q)) in
  routed_read (fun l => json_response 200 (object [("sessions", VArray (to_value <$> l))]%string))
    (recent_sessions user hours sessions (summarized_until_ms summarized_until)).

(** The response, and whether the summariser is told the session settled. *)
Definition finish_capture_session (finish_session : str -> str -> res (option Status)) (session : str) : Response * bool :=
  match validate_id "capture_session_id" session with
  | Err e => (into_response e, false)
  | Ok _ =>
    match finish_session user session with
    | Ok (Some s) => (json_response 200 (to_value s), true)
    | Ok None => ({| status := 204; headers := []; body := NoBody |}, false)
    | Err e => (into_response e, false)
    end
  end.
End Events.

Section People.
Context {Page : Type} (to_value : Page -> Value).

(** [Err(error) => error.into_response()] *)
Definition answer_page (answer : res Page) : Response :=
  match answer with Ok page => json_response 200 (to_value page) | Err e => into_response e end.

Definition people_request (q : PeopleListQuery) : PeopleListRequest :=
  {| pl_kind := plq_kind q; pl_after_id := Z.max (default 0 (plq_after_id q)) 0;
     pl_limit := clamp 1 100 (default 50 (plq_limit q));
     pl_query := match trim <$> plq_q q with
                 | Some s => if is_empty s then None else Some s
                 | None => None
                 end |}.

Definition list_people (people : str -> PeopleListRequest -> res Page) (q : PeopleListQuery) : Response :=
  answer_page (people user (people_request q)).

Definition person_profile (profile : str -> Z -> res Page) (person_id : Z) : Response :=
  if person_id <=? 0 then bad_request "person_id must be positive" else answer_page (profile user person_id).

(** [person_evidence] and [person_statements] differ in the repository
    call alone. *)
Definition person_page (page : str -> Z -> option Z -> Z -> res Page) (person_id : Z) (q : DescendingPageQuery) : Response :=
  if (person_id <=? 0) || some_and (fun cursor => cursor <=? 0) (before_id q)
  then bad_request "person_id and before_id must be positive"
  else answer_page (page user person_id (before_id q) (clamp 1 100 (default 50 (page_limit q)))).

Definition person_evidence := person_page.
Definition person_statements := person_page.
End People.
End Reads.

(** ** What a read reports *)

Lemma clamp_range lo hi x : lo <= hi -> lo <= clamp lo hi x <= hi.
Proof. unfold clamp; lia. Qed.

Lemma unavailable_is_not_absent e : status routed_read_unavailable <> status (into_response e).
Proof. by destruct e. Qed.

Lemma stream_ack_absence user ack stream :
  status (stream_ack user ack stream) = 404 <->
  (exists u, validate_id "stream_id" stream = Ok u) /\ ack user stream = Err NotFound.
Proof.
  unfold stream_ack, validated_id; destruct (validate_id _ _) as [u|e] eqn:V.
  - destruct (ack user stream) as [z|[]] eqn:A; cbn; split; intros H; try done; try (by destruct H); eauto.
  - assert (exists m, e = InvalidRequest m) as [m ->].
    { unfold validate_id in V; destruct (valid_id stream); [done|]; injection V as <-; by eexists. }
    split; [done|by intros [[? ?] _]].
Qed.

Lemma event_absence {Status} user (to_value : Status -> Value) event_status event :
  status (capture_status user to_value event_status event) = 404 <->
  (exists u, validate_id "event_id" event = Ok u) /\ event_status user event = Ok None.
Proof.
  unfold capture_status, validated_id; destruct (validate_id _ _) as [u|e] eqn:V.
  - destruct (event_status user event) as [[s|]|e] eqn:A; cbn; split; intros H; try done; try (by destruct H); eauto.
  - assert (exists m, e = InvalidRequest m) as [m ->].
    { unfold validate_id in V; destruct (valid_id event); [done|]; injection V as <-; by eexists. }
    split; [done|by intros [[? ?] _]].
Qed.
