(* ===== verification/Txn.v ===== *)
(** * Transactions

    A serialisable database transaction as a state monad with errors: it
    reads and writes the rows, and a failure rolls all of it back. *)
From S2P Require Import Prelude Errors.

Section Transactions.
Context {Store : Type}.

Definition txn (A : Type) : Type := Store -> res (A * Store).

Definition commits {A} (a : A) : txn A := fun s => Ok (a, s).
Definition aborts {A} (e : EnclaveError) : txn A := fun _ => Err e.

Definition then_ {A B} (m : txn A) (k : A -> txn B) : txn B :=
  fun s => match m s with Ok (a, s') => k a s' | Err e => Err e end.

(** A query, a statement, and a pure check. *)
Definition select {A} (f : Store -> A) : txn A := fun s => Ok (f s, s).
Definition execute (f : Store -> Store) : txn unit := fun s => Ok (tt, f s).
Definition try_res {A} (r : res A) : txn A := fun s => match r with Ok a => Ok (a, s) | Err e => Err e end.

(** [if condition { return Err(error); }] *)
Definition abort_if (condition : bool) (e : EnclaveError) : txn unit := try_res (refuse condition e).

(** [for x in l { ... }] *)
Fixpoint for_each {A} (l : list A) (body : A -> txn unit) : txn unit :=
  match l with
  | [] => commits tt
  | x :: rest => then_ (body x) (fun _ => for_each rest body)
  end.

(** [begin(); ...; commit()]: the store is as it was when anything failed. *)
Definition transact {A} (m : txn A) (s : Store) : res A * Store :=
  match m s with Ok (a, s') => (Ok a, s') | Err e => (Err e, s) end.
End Transactions.
Arguments txn : clear implicits.

Notation "'let^' x ':=' m 'in' k" := (then_ m (fun x => k))
  (at level 200, x pattern, m at level 100, k at level 200, right associativity) : kioku_scope.
Notation "m '^;' k" := (then_ m (fun _ => k)) (at level 100, k at level 200, right associativity) : kioku_scope.

(** ** Committed transactions *)

Section Rules.
Context {Store : Type}.

Lemma then_Ok {A B} (m : txn Store A) (k : A -> txn Store B) s b s' :
  then_ m k s = Ok (b, s') <-> exists a s1, m s = Ok (a, s1) /\ k a s1 = Ok (b, s').
Proof.
  unfold then_; destruct (m s) as [[a s1]|]; split; [by exists a, s1 | | done | ].
  - by intros (? & ? & [= -> ->] & H).
  - by intros (? & ? & ? & ?).
Qed.

Lemma commits_Ok {A} (x : A) (s : Store) a s' : commits x s = Ok (a, s') <-> a = x /\ s' = s.
Proof. unfold commits; split; [by intros [= <- <-] | by intros [-> ->]]. Qed.

Lemma select_Ok {A} (f : Store -> A) s a s' : select f s = Ok (a, s') <-> a = f s /\ s' = s.
Proof. unfold select; split; [by intros [= <- <-] | by intros [-> ->]]. Qed.

Lemma execute_Ok (f : Store -> Store) s u s' : execute f s = Ok (u, s') <-> s' = f s.
Proof. unfold execute; destruct u; split; [by intros [= <-] | by intros ->]. Qed.

Lemma try_res_Ok {A} (r : res A) (s : Store) a s' : try_res r s = Ok (a, s') <-> r = Ok a /\ s' = s.
Proof. unfold try_res; destruct r; split; [by intros [= -> ->] | by intros [[= ->] ->] | done | by intros [? _]]. Qed.

Lemma abort_if_Ok c e (s : Store) u s' : abort_if c e s = Ok (u, s') <-> c = false /\ s' = s.
Proof. unfold abort_if; by rewrite try_res_Ok, refuse_Ok. Qed.

Lemma transact_Ok {A} (m : txn Store A) s a s' : transact m s = (Ok a, s') <-> m s = Ok (a, s').
Proof.
  unfold transact; destruct (m s) as [[x s1]|e]; split; intros H; try done.
  - injection H as -> ->; done.
  - injection H as -> ->; done.
Qed.

Lemma transact_Err {A} (m : txn Store A) s e s' : transact m s = (Err e, s') -> s' = s.
Proof. unfold transact; destruct (m s) as [[x s1]|x]; [done | by intros [= _ ->]]. Qed.

(** The store after a transaction, which is the one before if it aborts. *)
Definition after {A} (m : txn Store A) (s : Store) : Store := (transact m s).2.

Lemma transact_after {A} (m : txn Store A) s : transact m s = ((transact m s).1, after m s).
Proof. unfold after; by destruct (transact m s). Qed.

Lemma transact_to {A} (m : txn Store A) s r : (transact m s).1 = r -> transact m s = (r, after m s).
Proof. intros <-; apply transact_after. Qed.

(** A transaction answers what it computed, or a failure of the connection,
    before or after it was committed. *)
Definition answers {A} (m : txn Store A) (r : res A) (s s' : Store) : Prop :=
  transact m s = (r, s') \/ exists e, r = Err e /\ (s' = s \/ exists a, m s = Ok (a, s')).

(** A transaction may answer what it computes. *)
Lemma fires {A} (m : txn Store A) s r : (transact m s).1 = r -> answers m r s (after m s).
Proof. intros Hr; left; by apply transact_to. Qed.
End Rules.

(** ** What a transaction keeps

    [keeps R m]: a committed run of [m] relates the store before it to the one
    after it.  With [R] the equality of some tables this is a frame rule. *)
Definition keeps {Store A} (R : Store -> Store -> Prop) (m : txn Store A) : Prop :=
  forall s a s', m s = Ok (a, s') -> R s s'.

Section Keeps.
Context {Store : Type} (R : Store -> Store -> Prop) `{!PreOrder R}.

Lemma keeps_then {A B} (m : txn Store A) (k : A -> txn Store B) : keeps R m -> (forall a, keeps R (k a)) -> keeps R (then_ m k).
Proof. intros Hm Hk s b s' H; apply then_Ok in H as (a & s1 & H1 & H2); transitivity s1; [by eapply Hm | by eapply Hk]. Qed.

Lemma keeps_same {A} (m : txn Store A) : (forall s a s', m s = Ok (a, s') -> s' = s) -> keeps R m.
Proof. intros H s a s' Hm; by rewrite (H s a s' Hm). Qed.

Lemma keeps_commits {A} (x : A) : keeps R (commits x).
Proof. apply keeps_same; by intros ? ? ? [_ ?]%commits_Ok. Qed.

Lemma keeps_select {A} (f : Store -> A) : keeps R (select f).
Proof. apply keeps_same; by intros ? ? ? [_ ?]%select_Ok. Qed.

Lemma keeps_try_res {A} (r : res A) : keeps R (try_res r).
Proof. apply keeps_same; by intros ? ? ? [_ ?]%try_res_Ok. Qed.

Lemma keeps_abort_if c e : keeps R (abort_if c e).
Proof. apply keeps_try_res. Qed.

Lemma keeps_aborts {A} e : keeps R (aborts (A := A) e).
Proof. by intros s a s' H. Qed.

Lemma keeps_execute f : (forall s, R s (f s)) -> keeps R (execute f).
Proof. intros H s a s' Hx; apply execute_Ok in Hx; by subst. Qed.

Lemma keeps_for_each {A} (l : list A) body : (forall x, x ∈ l -> keeps R (body x)) -> keeps R (for_each l body).
Proof.
  induction l as [|x l IH]; intros H; [apply keeps_commits |].
  apply keeps_then; [apply H; left | intros _; apply IH; intros y Hy; apply H; by right].
Qed.
End Keeps.

(** Keeping a part of the store. *)
Definition same {Store T} (f : Store -> T) (s s' : Store) : Prop := f s' = f s.

#[export] Instance same_preorder {Store T} (f : Store -> T) : PreOrder (same f).
Proof. split; [by intros s | intros s1 s2 s3 A B; unfold same in *; congruence]. Qed.

(** Keeping a property of the store. *)
Definition preserves {Store A} (P : Store -> Prop) (m : txn Store A) : Prop := keeps (fun s s' => P s -> P s') m.

#[export] Instance preserving_preorder {Store} (P : Store -> Prop) : PreOrder (fun s s' => P s -> P s').
Proof. split; [by intros s | by intros s1 s2 s3 A B Hs; apply B, A]. Qed.

Lemma preserves_run {Store A} (P : Store -> Prop) (m : txn Store A) s r s' :
  preserves P m -> P s -> transact m s = (r, s') -> P s'.
Proof.
  unfold transact; intros Hm Hs Ht; destruct (m s) as [[a s1]|e] eqn:E; injection Ht as <- <-; [by eapply Hm | done].
Qed.

(** Walks a transaction; the statements it writes with are left. *)
Ltac keeps_step :=
  first
    [ apply keeps_commits; tc_solve | apply keeps_select; tc_solve | apply keeps_abort_if; tc_solve
    | apply keeps_try_res; tc_solve | apply keeps_aborts
    | apply keeps_then; [tc_solve | | intros ?]
    | apply keeps_for_each; [tc_solve | intros ? ?]
    | apply keeps_execute; intros ?
    | match goal with |- keeps _ (match ?x with _ => _ end) => destruct x end ].

Ltac keeps_by_shape := repeat keeps_step.

(** The same, with some transactions dealt with whole. *)
Ltac keeps_until known := repeat first [known | keeps_step].

(** Decomposes a committed transaction into its statements. *)
Ltac all_txn :=
  repeat match goal with
         | H : then_ _ _ _ = Ok (_, _) |- _ => apply then_Ok in H as (? & ? & ? & H)
         | H : commits _ _ = Ok (_, _) |- _ => apply commits_Ok in H as [? ?]
         | H : select _ _ = Ok (_, _) |- _ => apply select_Ok in H as [? ?]
         | H : execute _ _ = Ok (_, _) |- _ => apply execute_Ok in H
         | H : abort_if _ _ _ = Ok (_, _) |- _ => apply abort_if_Ok in H as [? ?]
         | H : try_res _ _ = Ok (_, _) |- _ => apply try_res_Ok in H as [? ?]
         | H : aborts _ _ = Ok (_, _) |- _ => discriminate H
         | H : ?x = ?y |- _ => is_var x; subst x
         | H : ?y = ?x |- _ => is_var x; subst x
         end.
