(* ===== verification/VoiceEnrollment.v ===== *)
(** * Voice enrollment

    [persistence/voice_identity.rs]'s enrollment states and reasons,
    [cp/voice_identity.rs]'s [channel_domain], and the decisions of
    [persistence/postgres/capture_enrollment.rs] and
    [voice_enrollment.rs]'s [invalidate_owner_enrollment] over one account's
    enrollment sessions.  The voice samples and profiles they withdraw belong
    to another component, reached through the class [VoiceGraph]. *)
From stdpp Require Import gmap.
From Stdlib Require Import ZArith Lia.
From S2P Require Import Prelude Text F64 Errors IsoTime CaptureManifest.
Local Open Scope Z_scope.
Local Open Scope kioku_scope.

(** ** States and reasons *)

Inductive VoiceEnrollmentState := Recording | Processing | Enrolled | Inconclusive | Expired.

#[export] Instance VoiceEnrollmentState_eq_dec : EqDecision VoiceEnrollmentState.
Proof. solve_decision. Defined.

Definition enrollment_state_as_str (s : VoiceEnrollmentState) : str :=
  lit match s with
      | Recording => "recording" | Processing => "processing" | Enrolled => "enrolled"
      | Inconclusive => "inconclusive" | Expired => "expired"
      end.

Definition all_states : list VoiceEnrollmentState := [Recording; Processing; Enrolled; Inconclusive; Expired].

Definition enrollment_state_parse (value : str) : res VoiceEnrollmentState :=
  ok_or (List.find (fun s => str_eqb value (enrollment_state_as_str s)) all_states)
        (Store (lit "invalid voice enrollment state")).

Inductive VoiceEnrollmentReason :=
| MarkerMissing | MarkerAfterOrdinaryStart | UnsupportedStream | MultipleStreams | MultipleDevices | RouteChanged
| EnrollmentRevoked | NoSpeech | NoEligibleSample | NoDominantVoice | OverlappingSpeech | RawMediaExpired
| SourceDeleted | Forgotten | ProcessingFailed | SourceChanged.

#[export] Instance VoiceEnrollmentReason_eq_dec : EqDecision VoiceEnrollmentReason.
Proof. solve_decision. Defined.

Definition enrollment_reason_as_str (r : VoiceEnrollmentReason) : str :=
  lit match r with
      | MarkerMissing => "marker_missing"
      | MarkerAfterOrdinaryStart => "marker_after_ordinary_start"
      | UnsupportedStream => "unsupported_stream"
      | MultipleStreams => "multiple_streams"
      | MultipleDevices => "multiple_devices"
      | RouteChanged => "route_changed"
      | EnrollmentRevoked => "enrollment_revoked"
      | NoSpeech => "no_speech"
      | NoEligibleSample => "no_eligible_sample"
      | NoDominantVoice => "no_dominant_voice"
      | OverlappingSpeech => "overlapping_speech"
      | RawMediaExpired => "raw_media_expired"
      | SourceDeleted => "source_deleted"
      | Forgotten => "forgotten"
      | ProcessingFailed => "processing_failed"
      | SourceChanged => "source_changed"
      end.

Definition all_reasons : list VoiceEnrollmentReason :=
  [MarkerMissing; MarkerAfterOrdinaryStart; UnsupportedStream; MultipleStreams; MultipleDevices; RouteChanged;
   EnrollmentRevoked; NoSpeech; NoEligibleSample; NoDominantVoice; OverlappingSpeech; RawMediaExpired; SourceDeleted;
   Forgotten; ProcessingFailed; SourceChanged].

Definition enrollment_reason_parse (value : str) : res VoiceEnrollmentReason :=
  ok_or (List.find (fun r => str_eqb value (enrollment_reason_as_str r)) all_reasons)
        (Store (lit "invalid voice enrollment reason")).

Lemma enrollment_state_roundtrip s : enrollment_state_parse (enrollment_state_as_str s) = Ok s.
Proof. by destruct s. Qed.

Lemma enrollment_reason_roundtrip r : enrollment_reason_parse (enrollment_reason_as_str r) = Ok r.
Proof. by destruct r. Qed.

(** ** Acoustic domains *)

Definition channel_domain (kind : str) (audio_role audio_route : option str) : str :=
  let platform :=
    if str_eqb kind (lit "ios_mic") then lit "ios"
    else if one_of kind ["mic"; "system_audio"]%string then lit "macos" else lit "unknown" in
  let route :=
    if str_eqb kind (lit "system_audio") && bool_decide (audio_role = Some (lit "remote_received")) then lit "system_output"
    else match audio_route with
         | Some value =>
           if one_of value ["builtin_mic"; "wired_headset"; "bluetooth_headset"; "system_output"]%string then value
           else lit "unknown-" ++ value
         | None => lit "unknown"
         end in
  platform ++ lit ":" ++ route.

(** [domain]: only a microphone stream can enroll. *)
Definition domain (m : CaptureEventManifest) : option str :=
  match stream_kind m with
  | Mic => Some (channel_domain (lit "mic") (audio_role m) (audio_route m))
  | IosMic => Some (channel_domain (lit "ios_mic") (audio_role m) (audio_route m))
  | _ => None
  end.

Definition terminal_admission_reason (reason : option VoiceEnrollmentReason) : bool :=
  some_and (fun r => bool_decide (r ∈ [MarkerMissing; MarkerAfterOrdinaryStart; UnsupportedStream; MultipleStreams;
    MultipleDevices; RouteChanged; EnrollmentRevoked; RawMediaExpired; SourceDeleted; Forgotten])) reason.

(** ** One account's enrollment sessions *)

Record EnrollmentRow := {
  en_designated : bool; en_revision : Z; en_first_event_id : str; en_device_id : str; en_install_id : str;
  en_stream_id : str; en_state : str; en_reason : option str; en_channel_domain : option str;
  timeline_started_ms : option Z; timeline_cutoff_ms : option Z; dominant_share : option f64; accepted_sample_count : Z;
  voice_profile_id : option Z; en_source_revision : option Z; en_seal_generation : option Z
}.

(** The voice samples and profiles, as a withdrawal changes them: the owner's
    samples drawn from a session's events are erased, a domain's owner
    profile is recomputed, and the session's observations await embedding. *)
Class VoiceGraph (Voice : Type) := {
  erase_owner_samples : list str -> Voice -> res Voice;
  refresh_domains : list str -> Voice -> res Voice;
  requeue_embeddings : list str -> Voice -> Voice
}.

Record Enrollment {Voice : Type} := { enrollment_rows : gmap str EnrollmentRow; enrollment_revision_of : Z; voice : Voice }.
Arguments Enrollment : clear implicits.

Section Operations.
Context {Voice : Type} `{VoiceGraph Voice}.
Implicit Types e : Enrollment Voice.

Definition set_row session row e : Enrollment Voice :=
  {| enrollment_rows := <[session := row]> (enrollment_rows e); enrollment_revision_of := enrollment_revision_of e; voice := voice e |}.

Definition set_voice v e : Enrollment Voice :=
  {| enrollment_rows := enrollment_rows e; enrollment_revision_of := enrollment_revision_of e; voice := v |}.

Definition designated (session : str) e : bool := some_and en_designated (enrollment_rows e !! session).

(** [refuse_reference_batch] *)
Definition refuse_reference_batch (session : str) e : res unit :=
  refuse (designated session e) (invalid "reference batches do not admit voice enrollment sessions").

(** The state a reason settles a session in. *)
Definition settled_state (reason : VoiceEnrollmentReason) : str * option str :=
  match reason with
  | SourceChanged => (lit "processing", None)
  | RawMediaExpired | SourceDeleted | Forgotten => (lit "expired", Some (enrollment_reason_as_str reason))
  | _ => (lit "inconclusive", Some (enrollment_reason_as_str reason))
  end.

Definition sticky_withdrawal (row : EnrollmentRow) : bool := some_and (fun r => one_of r ["forgotten"; "enrollment_revoked"]%string) (en_reason row).

Definition keeps_decision (reason : VoiceEnrollmentReason) (row : EnrollmentRow) : bool :=
  bool_decide (reason = SourceChanged)
  && (str_eqb (en_state row) (lit "expired")
      || some_and (fun r => negb (one_of r ["source_changed"; "no_speech"; "no_eligible_sample"; "no_dominant_voice";
           "overlapping_speech"; "processing_failed"]%string)) (en_reason row)).

(** [events] are the session's accepted events. *)
Definition invalidate_owner_enrollment (session : str) (events : list str) (reason : VoiceEnrollmentReason) e : res (Enrollment Voice) :=
  match enrollment_rows e !! session with
  | None => Ok e
  | Some row =>
    if sticky_withdrawal row || keeps_decision reason row then Ok e
    else
      let? erased := erase_owner_samples events (voice e) in
      let '(state, reason_value) := settled_state reason in
      let row' := {| en_designated := en_designated row; en_revision := en_revision row;
        en_first_event_id := en_first_event_id row; en_device_id := en_device_id row; en_install_id := en_install_id row;
        en_stream_id := en_stream_id row; en_state := state; en_reason := reason_value;
        en_channel_domain := en_channel_domain row; timeline_started_ms := timeline_started_ms row;
        timeline_cutoff_ms := timeline_cutoff_ms row; dominant_share := None; accepted_sample_count := 0;
        voice_profile_id := None; en_source_revision := None; en_seal_generation := None |} in
      let? refreshed := match en_channel_domain row with Some d => refresh_domains [d] erased | None => Ok erased end in
      let voice' := match reason with SourceChanged => requeue_embeddings events refreshed | _ => refreshed end in
      Ok (set_voice voice' (set_row session row' e))
  end.

(** Why an event of a session already known cannot (or can) extend its
    enrollment; a missing session is judged by [first_event_reason]. *)
Definition later_event_reason (current : Z) (m : CaptureEventManifest) (row : EnrollmentRow) : option VoiceEnrollmentReason :=
  if negb (en_revision row =? current) || negb (default 0 (enrollment_revision m) =? current) then Some EnrollmentRevoked
  else if negb (bool_decide (is_Some (enrollment m))) then Some MarkerMissing
  else if negb (str_eqb (en_device_id row) (device_id m)) || negb (str_eqb (en_install_id row) (install_id m)) then Some MultipleDevices
  else if negb (str_eqb (en_stream_id row) (stream_id m)) then Some MultipleStreams
  else if negb (bool_decide (is_Some (domain m))) then Some UnsupportedStream
  else if negb (bool_decide (en_channel_domain row = domain m)) then Some RouteChanged
  else None.

Definition first_event_reason (current : Z) (m : CaptureEventManifest) (session_was_new : bool) : option VoiceEnrollmentReason :=
  if negb session_was_new then Some MarkerAfterOrdinaryStart
  else if negb (default 0 (enrollment_revision m) =? current) then Some EnrollmentRevoked
  else if negb (bool_decide (is_Some (domain m))) then Some UnsupportedStream
  else None.

Definition state_of_reason (reason : option VoiceEnrollmentReason) : VoiceEnrollmentState :=
  match reason with Some _ => Inconclusive | None => Recording end.

Definition ENROLLMENT_TIMELINE_MS : Z := 180 * 1000.

(** The row an accepted event of a known session leaves. *)
Definition extended_row (reason : option VoiceEnrollmentReason) (event_start : Z) (row : EnrollmentRow) : EnrollmentRow :=
  (* [least] ignores a missing start *)
  let earliest := match timeline_started_ms row with Some started => Z.min started event_start | None => event_start end in
  {| en_designated := en_designated row; en_revision := en_revision row; en_first_event_id := en_first_event_id row;
     en_device_id := en_device_id row; en_install_id := en_install_id row; en_stream_id := en_stream_id row;
     en_state := enrollment_state_as_str (state_of_reason reason); en_reason := enrollment_reason_as_str <$> reason;
     en_channel_domain := en_channel_domain row; 
     timeline_started_ms := match reason with None => Some earliest | _ => timeline_started_ms row end;
     timeline_cutoff_ms := match reason with None => Some (earliest + ENROLLMENT_TIMELINE_MS) | _ => timeline_cutoff_ms row end;
     dominant_share := dominant_share row; accepted_sample_count := accepted_sample_count row;
     voice_profile_id := voice_profile_id row; en_source_revision := None; en_seal_generation := None |}.

Definition first_row (m : CaptureEventManifest) (session_was_new : bool) (reason : option VoiceEnrollmentReason)
    (event_start : Z) : EnrollmentRow :=
  {| en_designated := session_was_new; en_revision := default 0 (enrollment_revision m); en_first_event_id := event_id m;
     en_device_id := device_id m; en_install_id := install_id m; en_stream_id := stream_id m;
     en_state := enrollment_state_as_str (state_of_reason reason); en_reason := enrollment_reason_as_str <$> reason;
     en_channel_domain := domain m; timeline_started_ms := Some event_start;
     timeline_cutoff_ms := Some (event_start + ENROLLMENT_TIMELINE_MS); dominant_share := None; accepted_sample_count := 0;
     voice_profile_id := None; en_source_revision := None; en_seal_generation := None |}.

(** [record_event], after the event is accepted; [events] are the session's. *)
Definition record_event (m : CaptureEventManifest) (session_was_new : bool) (events : list str) e : res (Enrollment Voice) :=
  let session := capture_session_id m in
  match enrollment_rows e !! session, enrollment m with
  | None, None => Ok e
  | found, _ =>
    let current := enrollment_revision_of e in
    let? event_start := ok_or (parse_epoch_millis (started_at m)) (invalid "started_at must be ISO-8601") in
    match found with
    | None =>
      Ok (set_row session (first_row m session_was_new (first_event_reason current m session_was_new) event_start) e)
    | Some row =>
      let? state := enrollment_state_parse (en_state row) in
      let? previous := match en_reason row with
                       | Some r => let? parsed := enrollment_reason_parse r in Ok (Some parsed)
                       | None => Ok None
                       end in
      if bool_decide (state = Expired) || terminal_admission_reason previous then Ok e
      else
        let reason := later_event_reason current m row in
        let? e' := invalidate_owner_enrollment session events (default SourceChanged reason) e in
        match enrollment_rows e' !! session with
        | Some row' => Ok (set_row session (extended_row reason event_start row') e')
        | None => Ok e'
        end
    end
  end.
End Operations.
