(* ===== verification/CaptureStore.v ===== *)
(** * The store of captured events

    [persistence/postgres/capture.rs]: the transactions that admit, commit and
    acknowledge captured events of one account, finish its sessions and
    reopen their seals; [memory_formation.rs]: the quiet sealer that fixes a
    finished session's stream boundaries.  The tables are finite maps over
    their primary keys; a transaction is serial (the account's advisory lock
    serialises it) and reads one clock.  JSON columns are the texts the
    database keeps.  This file has the rows and the decisions that need no
    database; the transactions are in [CaptureCommit]. *)
From stdpp Require Import gmap sorting.
From Stdlib Require Import ZArith Lia.
From S2P Require Import Prelude OrdMap Text F64 Errors Bytes Json IsoTime CaptureManifest MediaKeys CaptureIngest VoiceEnrollment.
Local Open Scope Z_scope.
Local Open Scope kioku_scope.

(** ** Rows *)

Record SessionRow := {
  cs_device_id : str; cs_install_id : str; cs_started_ms : Z; cs_last_event_ms : Z; cs_ended_ms : option Z;
  cs_created_ms : Z
}.

Record StreamRow := {
  st_session : str; st_device_id : str; st_kind : StreamKind;
  committed_through : Z; sealed_sequence : option Z
}.

Record EventRow := {
  er_device_id : str; er_install_id : str; er_session : str; er_stream : str; er_kind : StreamKind; er_sequence : Z;
  er_source_wall_ms : Z; er_source_monotonic_ns : str; er_started_ms : Z; er_ended_ms : Z; er_timezone_id : str;
  er_utc_offset_minutes : Z; er_clock_uncertainty_ms : Z; er_asset_id : str; er_manifest_digest : str;
  er_context_json : option str; er_disposition : MediaDisposition; er_reference : option ScreenReferenceDescriptor;
  er_audio_role : option str; er_audio_route : option str; er_route_epoch : option Z; er_locale_id : option str;
  er_received_at : Z
}.

(** A tombstone of an erased event's place in its stream. *)
Record DeletedRow := {
  dr_stream : str; dr_sequence : Z; dr_manifest_digest : str; dr_deletion_episode_id : Z; dr_provenance : str;
  dr_deleted_at : Z
}.

(** Keyed by its event, which is unique, as its asset is. *)
Record MediaRow := {
  mr_object_key : str; mr_generation : Z; mr_media : MediaDescriptor; mr_retain_until : option Z;
  mr_created_ms : Z; mr_processing_state : str; mr_deleted_ms : option Z
}.

Record AuthorityRow := {
  ar_capture_revision : Z; ar_retention_revision : Z; ar_epoch : option str; ar_decision : str; ar_backend : str;
  ar_key_epoch : option Z; ar_state : str; ar_decision_ms : Z
}.

Record JobRow := {
  jr_event_id : str; jr_kind : str; jr_input_revision : str; jr_version : Z; jr_state : str; jr_error_code : option str;
  jr_attempt_count : Z; jr_updated_ms : Z
}.

Record OutboxRow := { ob_kind : str; ob_aggregate : str; ob_payload : str; ob_created_ms : Z }.

Record UploadIntent := {
  in_token : str; in_asset_id : str; in_object_key : str; in_manifest_digest : str; in_expires_at : Z
}.

Record BrowserStateRow := {
  bs_bundle_id : str; bs_name : str; bs_permission_status : str; bs_content_hash : str; bs_tabs : str
}.

Record ObservationRow := {
  ob_observed_ms : Z; ob_state_key : option str; ob_context_status : str; ob_active_url : option str;
  ob_active_title : option str
}.

Inductive ReceiptState := ReceiptPending | ReceiptProcessing | ReceiptRetryWait | ReceiptComplete.

#[export] Instance ReceiptState_eq_dec : EqDecision ReceiptState.
Proof. solve_decision. Defined.

(** A session's formation receipt; its claim is the revision claimed, the
    token and the expiry. *)
Record ReceiptRow := {
  source_revision : Z; completed_revision : Z; rc_state : ReceiptState; rc_claim : option (Z * str * Z);
  rc_next_attempt_at : option Z; rc_attempt_count : Z; rc_updated_at : Z; rc_claimed_fingerprint : option bytes; rc_completed_outcome : option str;
  rc_completed_claim_token : option str; rc_completed_fingerprint : option bytes; rc_completed_at : option Z;
  rc_last_error : option str; finish_requested_at : option Z; finish_provenance : option str;
  seal_finalized_at : option Z; seal_generation : Z; seal_provenance : option str
}.

(** The evidence a page covers, fixed when the page is made. *)
Record PageSource := {
  pg_session : str; pg_source_revision : Z; pg_index : Z; pg_fingerprint : bytes; pg_commitment : bytes;
  pg_covered_utterances : list Z; pg_covered_screenshots : list Z; pg_provider_utterances : list Z; pg_provider_screenshots : list Z;
  pg_has_more : bool
}.

Inductive PageState := PageProcessing | PageRetryWait | PageComplete | PageInvalidated.

#[export] Instance PageState_eq_dec : EqDecision PageState.
Proof. solve_decision. Defined.

(** The columns that are set together when a page completes. *)
Record PageCompletion := { pc_outcome : str; pc_successors : list Z; pc_claim_token : str; pc_at : Z }.

(** A page of a session's evidence at a revision: its claim is a token and an
    expiry, its request a text and the digest of it, its staged response the
    same with the event of the invocation. *)
Record PageRow := {
  pg_source : PageSource; pg_state : PageState; pg_claim : option (str * Z); pg_attempt : Z;
  pg_provider_request : option (str * bytes); pg_staged_response : option (str * bytes * str);
  pg_completed : option PageCompletion; pg_last_error : option str
}.

Inductive SealEventKind := Seal | Reopen.

#[export] Instance SealEventKind_eq_dec : EqDecision SealEventKind.
Proof. solve_decision. Defined.

Record SealEvent := {
  se_session : str; se_generation : Z; se_source_revision : Z; se_kind : SealEventKind; se_maxima : bytes;
  se_provenance : str; se_trigger : option str; se_recorded_at : Z
}.

(** The fences of owner-authorised erasure. *)
Record Erasure := {
  upload_fenced : bool; erased_sessions : gset str; erased_streams : gset str; erased_events : gset str; erased_assets : gset str
}.

Record Store {Voice : Type} := {
  account_status : option str;
  sessions : gmap str SessionRow;
  streams : gmap str StreamRow;
  capture_events : gmap str EventRow;
  deleted_sequences : gmap str DeletedRow;
  media_objects : gmap str MediaRow;
  media_authorities : gmap str AuthorityRow;
  processing_jobs : list JobRow;
  outbox : gmap str OutboxRow;
  upload_intents : gmap str UploadIntent;
  media_key : option str;
  browser_states : gmap str BrowserStateRow;
  observations : gmap str ObservationRow;
  receipts : gmap str ReceiptRow;
  formation_pages : list PageRow;
  seal_events : list SealEvent;
  neighborhood_scans : list str;
  formation_installed : bool;
  interrupted_schema : res unit;
  activation_phase : option str;
  pending_deletions : list (list str);
  erasure : res (option Erasure);
  voice_enrollment : Enrollment Voice
}.
Arguments Store : clear implicits.

(** *** Updates of one table *)

Section Updates.
Context {Voice : Type}.
Implicit Types s : Store Voice.

(** The tables a statement writes, the rest kept. *)
Definition with_capture s sessions' streams' capture_events' : Store Voice :=
  {| account_status := account_status s; sessions := sessions'; streams := streams'; capture_events := capture_events';
     deleted_sequences := deleted_sequences s; media_objects := media_objects s; media_authorities := media_authorities s;
     processing_jobs := processing_jobs s; outbox := outbox s; upload_intents := upload_intents s;
     media_key := media_key s; browser_states := browser_states s; observations := observations s; receipts := receipts s;
     formation_pages := formation_pages s; seal_events := seal_events s; neighborhood_scans := neighborhood_scans s;
     formation_installed := formation_installed s; interrupted_schema := interrupted_schema s;
     activation_phase := activation_phase s; pending_deletions := pending_deletions s; erasure := erasure s;
     voice_enrollment := voice_enrollment s |}.

Definition set_sessions f s : Store Voice := with_capture s (f (sessions s)) (streams s) (capture_events s).
Definition set_streams f s : Store Voice := with_capture s (sessions s) (f (streams s)) (capture_events s).
Definition set_events f s : Store Voice := with_capture s (sessions s) (streams s) (f (capture_events s)).

Definition with_media s media_objects' media_authorities' processing_jobs' outbox' upload_intents' media_key' : Store Voice :=
  {| account_status := account_status s; sessions := sessions s; streams := streams s; capture_events := capture_events s;
     deleted_sequences := deleted_sequences s; media_objects := media_objects'; media_authorities := media_authorities';
     processing_jobs := processing_jobs'; outbox := outbox'; upload_intents := upload_intents'; media_key := media_key';
     browser_states := browser_states s; observations := observations s; receipts := receipts s;
     formation_pages := formation_pages s; seal_events := seal_events s; neighborhood_scans := neighborhood_scans s;
     formation_installed := formation_installed s; interrupted_schema := interrupted_schema s;
     activation_phase := activation_phase s; pending_deletions := pending_deletions s; erasure := erasure s;
     voice_enrollment := voice_enrollment s |}.

Definition set_media f s : Store Voice := with_media s (f (media_objects s)) (media_authorities s) (processing_jobs s) (outbox s) (upload_intents s) (media_key s).
Definition set_authorities f s : Store Voice := with_media s (media_objects s) (f (media_authorities s)) (processing_jobs s) (outbox s) (upload_intents s) (media_key s).
Definition set_jobs f s : Store Voice := with_media s (media_objects s) (media_authorities s) (f (processing_jobs s)) (outbox s) (upload_intents s) (media_key s).
Definition set_outbox f s : Store Voice := with_media s (media_objects s) (media_authorities s) (processing_jobs s) (f (outbox s)) (upload_intents s) (media_key s).
Definition set_intents f s : Store Voice := with_media s (media_objects s) (media_authorities s) (processing_jobs s) (outbox s) (f (upload_intents s)) (media_key s).
Definition set_media_key v s : Store Voice := with_media s (media_objects s) (media_authorities s) (processing_jobs s) (outbox s) (upload_intents s) v.

Definition with_formation s browser_states' observations' receipts' formation_pages' seal_events' neighborhood_scans' voice_enrollment' : Store Voice :=
  {| account_status := account_status s; sessions := sessions s; streams := streams s; capture_events := capture_events s;
     deleted_sequences := deleted_sequences s; media_objects := media_objects s; media_authorities := media_authorities s;
     processing_jobs := processing_jobs s; outbox := outbox s; upload_intents := upload_intents s;
     media_key := media_key s; browser_states := browser_states'; observations := observations'; receipts := receipts';
     formation_pages := formation_pages'; seal_events := seal_events'; neighborhood_scans := neighborhood_scans';
     formation_installed := formation_installed s; interrupted_schema := interrupted_schema s;
     activation_phase := activation_phase s; pending_deletions := pending_deletions s; erasure := erasure s;
     voice_enrollment := voice_enrollment' |}.

Definition set_states f s : Store Voice := with_formation s (f (browser_states s)) (observations s) (receipts s) (formation_pages s) (seal_events s) (neighborhood_scans s) (voice_enrollment s).
Definition set_observations f s : Store Voice := with_formation s (browser_states s) (f (observations s)) (receipts s) (formation_pages s) (seal_events s) (neighborhood_scans s) (voice_enrollment s).
Definition set_receipts f s : Store Voice := with_formation s (browser_states s) (observations s) (f (receipts s)) (formation_pages s) (seal_events s) (neighborhood_scans s) (voice_enrollment s).
Definition set_pages f s : Store Voice := with_formation s (browser_states s) (observations s) (receipts s) (f (formation_pages s)) (seal_events s) (neighborhood_scans s) (voice_enrollment s).
Definition set_seals f s : Store Voice := with_formation s (browser_states s) (observations s) (receipts s) (formation_pages s) (f (seal_events s)) (neighborhood_scans s) (voice_enrollment s).
Definition set_scans v s : Store Voice := with_formation s (browser_states s) (observations s) (receipts s) (formation_pages s) (seal_events s) v (voice_enrollment s).
Definition set_enrollment v s : Store Voice := with_formation s (browser_states s) (observations s) (receipts s) (formation_pages s) (seal_events s) (neighborhood_scans s) v.

End Updates.

(** ** Pure decisions *)

Definition timestamp (value : str) (field : string) : res Z :=
  ok_or (parse_epoch_millis value) (InvalidRequest (lit field ++ lit " must be a valid ISO-8601 timestamp")).

Inductive StreamAdmission := Open | ProvisionalFinish | SealedGapFill | LateSealReopen.

#[export] Instance StreamAdmission_eq_dec : EqDecision StreamAdmission.
Proof. solve_decision. Defined.

Definition stream_admission (session_ended provisional_finish_authorized late_seal_reopen_authorized : bool)
    (sealed : option Z) (sequence : Z) (session_finished : bool) : res StreamAdmission :=
  if negb session_ended then
    match sealed with
    | Some _ => Err (Errors.Store (lit "open capture session contains a sealed stream"))
    | None => Ok Open
    end
  else
    match sealed with
    | None =>
      if provisional_finish_authorized then Ok ProvisionalFinish
      else Err (Conflict (lit "ended capture session has no authorized provisional finish request"))
    | Some sealed_sequence =>
      if (sealed_sequence <? sequence) && late_seal_reopen_authorized then Ok LateSealReopen
      else if session_finished || (sealed_sequence <? sequence)
      then Err (Conflict (lit "capture event exceeds the sealed stream boundary"))
      else Ok SealedGapFill
    end.

Definition provisional_finish_state_authorized (phase : option str) (receipt_exists finish_requested seal_finalized : bool) : bool :=
  negb seal_finalized
  && (bool_decide (phase = Some (lit "installed")) || finish_requested
      || (receipt_exists && some_and (fun p => one_of p ["draining"; "active"; "paused"]%string) phase)).

Definition exact_deleted_event_replay (stored_stream_id : str) (stored_sequence : Z) (stored_manifest_digest replay_stream_id : str)
    (replay_sequence : Z) (replay_manifest_digest : str) : bool :=
  str_eqb stored_stream_id replay_stream_id && (stored_sequence =? replay_sequence)
  && str_eqb stored_manifest_digest replay_manifest_digest.

(** The furthest sequence reached without a gap. *)
Fixpoint contiguous_ack (advanced : Z) (sequences : list Z) : Z :=
  match sequences with
  | [] => advanced
  | sequence :: rest =>
    if sequence =? advanced + 1 then contiguous_ack sequence rest
    else if advanced + 1 <? sequence then advanced
    else contiguous_ack advanced rest
  end.

Inductive CaptureSessionStage := Received | Processing | Organizing | PreparingRecap | Ready | NoMemory.

Definition capture_session_stage (queued processing retry_wait failed : Z) (has_ready_memory has_memories ended summarized_past_end : bool) :
    CaptureSessionStage :=
  if 0 <? queued + processing then Processing
  else if has_ready_memory then Ready
  else if 0 <? retry_wait then Processing
  else if has_memories then PreparingRecap
  else if 0 <? failed then if ended && summarized_past_end then NoMemory else Processing
  else if ended then if summarized_past_end then NoMemory else Organizing
  else Received.
