(* ===== verification/CaptureCommit.v ===== *)
(** * The transactions that accept captured events

    [persistence/postgres/capture.rs] over the tables of [CaptureStore]:
    preflight, upload reservation, the commit of an event or of a batch of
    references, acknowledgement, finishing a session, and the reopening of a
    sealed session by a late event.  A violated constraint of the schema is a
    [Postgres] error. *)
From stdpp Require Import gmap sorting.
From Stdlib Require Import ZArith Lia.
From S2P Require Import Prelude OrdMap Text F64 Errors Bytes Json IsoTime CaptureManifest MediaKeys CaptureIngest Txn VoiceEnrollment.
From S2P Require Import CaptureStore.
Local Open Scope Z_scope.
Local Open Scope kioku_scope.

(** [serde_json] at the types the transactions store, and the text a [jsonb]
    column gives back for the text written to it. *)
Record Codec := {
  value_to_vec : Value -> option bytes;
  context_to_text : CaptureContext -> option str;
  context_of_text : str -> option CaptureContext;
  envelope_to_value : BrowserStateV2Envelope -> option Value;
  tabs_to_value : list BrowserTab -> option Value;
  value_to_text : Value -> option str;
  value_of_text : str -> option Value;
  jsonb : str -> option str;
  jsonb_text : Value -> str
}.

(** ** Streams and what they have accepted *)

Section Sequences.
Context {Voice : Type}.
Implicit Types s : Store Voice.

(** The sequences of a map's rows that satisfy a predicate. *)
Definition sequences_of {R} (keep : R -> bool) (sequence_of : R -> Z) (rows : gmap str R) : gset Z :=
  list_to_set ((fun kv => sequence_of kv.2) <$> List.filter (fun kv => keep kv.2) (map_to_list rows)).

Definition event_sequences (stream : str) s : gset Z :=
  sequences_of (fun e => str_eqb (er_stream e) stream) er_sequence (capture_events s).

Definition deleted_of (stream : str) s : gset Z :=
  sequences_of (fun d => str_eqb (dr_stream d) stream) dr_sequence (deleted_sequences s).

(** The sequences that count as accepted: an erased event keeps its place
    once the formation contract is installed. *)
Definition accepted_sequences (stream : str) s : gset Z :=
  if formation_installed s then event_sequences stream s ∪ deleted_of stream s else event_sequences stream s.

(** [capture_formation_stream_accepted_max] *)
Definition accepted_max (stream : str) s : Z :=
  default (-1) (max_Z (elements (event_sequences stream s ∪ deleted_of stream s))).

(** [capture_formation_stream_contiguous_through]: [-1] for no sequence,
    [-2] when the accepted ones leave a gap. *)
Definition contiguous_through (stream : str) s : Z :=
  let accepted := event_sequences stream s ∪ deleted_of stream s in
  match min_Z (elements accepted), max_Z (elements accepted) with
  | Some minimum, Some maximum =>
    if (minimum =? 0) && (maximum =? Z.of_nat (size accepted) - 1) then maximum else -2
  | _, _ => -1
  end.

(** A session's streams, [ORDER BY id]. *)
Definition session_streams (session : str) s : list (str * StreamRow) :=
  sort_by_key fst (List.filter (fun kv => str_eqb (st_session kv.2) session) (map_to_list (streams s))).

Definition session_events (session : str) s : list str :=
  fst <$> List.filter (fun kv => str_eqb (er_session kv.2) session) (map_to_list (capture_events s)).

(** The tombstones of a stream, [ORDER BY sequence]. *)
Definition tombstones (stream : str) s : list (str * DeletedRow) :=
  sort_by_key (fun kv => dr_sequence kv.2) (List.filter (fun kv => str_eqb (dr_stream kv.2) stream) (map_to_list (deleted_sequences s))).

Definition tombstone_json (kv : str * DeletedRow) : Value :=
  let '(id, d) := kv in
  VArray [of_Z (dr_sequence d); VString id; VString (dr_manifest_digest d); of_Z (dr_deletion_episode_id d); VString (dr_provenance d)].

Definition maximum_json s (kv : str * StreamRow) : Value :=
  let '(id, row) := kv in
  VArray [VString id; of_Z (committed_through row); of_Z (accepted_max id s); of_option of_Z (sealed_sequence row);
          VArray (tombstone_json <$> tombstones id s)].

(** [capture_formation_stream_maxima_sha256] *)
Definition stream_maxima_sha256 (sha256 : bytes -> bytes) (codecs : Codec) (session : str) s : bytes :=
  sha256 (as_bytes (jsonb_text codecs (VArray (maximum_json s <$> session_streams session s)))).
End Sequences.

(** ** Admission *)

Section Admission.
Context {Voice : Type} `{VoiceGraph Voice}.
Context (sha256 : bytes -> bytes) (codecs : Codec).

#[local] Abbreviation txn := (txn (Store Voice)).

(** A statement the schema's constraints refuse. *)
Definition violates (condition : bool) : txn unit := abort_if condition Postgres.

(** [require_capture_admission] *)
Definition fenced (identity : CaptureUploadIdentity) (canonical : option str) (e : Erasure) : bool :=
  upload_fenced e
  || bool_decide (up_capture_session_id identity ∈ erased_sessions e)
  || bool_decide (up_stream_id identity ∈ erased_streams e)
  || bool_decide (up_event_id identity ∈ erased_events e) || bool_decide (up_asset_id identity ∈ erased_assets e)
  || some_and (fun id => bool_decide (id ∈ erased_events e)) canonical.

Definition require_capture_admission (identity : CaptureUploadIdentity) (canonical : option str) : txn unit :=
  let^ receipt := select erasure in
  let^ installed := try_res receipt in
  match installed with
  | None => aborts (Config (lit "orphan erasure admission contract is not installed"))
  | Some e => abort_if (fenced identity canonical e) (Conflict (lit "capture is fenced by owner-authorized erasure"))
  end.

(** [provisional_finish_authorized] *)
Definition provisional_finish_authorized (session : str) (s : Store Voice) : bool :=
  if negb (formation_installed s) then true
  else
    let receipt := receipts s !! session in
    provisional_finish_state_authorized (activation_phase s) (bool_decide (is_Some receipt))
      (some_and (fun r => bool_decide (is_Some (finish_requested_at r))) receipt)
      (some_and (fun r => bool_decide (is_Some (seal_finalized_at r))) receipt).

Definition is_seal_event (session : str) (generation : Z) (kind : SealEventKind) (e : SealEvent) : bool :=
  str_eqb (se_session e) session && (se_generation e =? generation) && bool_decide (se_kind e = kind).

(** [current_finalized_seal]: the generation of the session's audited seal. *)
Definition current_finalized_seal (session : str) (s : Store Voice) : option Z :=
  if negb (formation_installed s) then None
  else
    match receipts s !! session with
    | Some r =>
      let generation := seal_generation r in
      if bool_decide (is_Some (seal_finalized_at r)) && (1 <=? generation)
         && existsb (fun e => is_seal_event session generation Seal e
                       && bool_decide (se_maxima e = stream_maxima_sha256 sha256 codecs session s)) (seal_events s)
         && negb (existsb (is_seal_event session generation Reopen) (seal_events s))
      then Some generation else None
    | None => None
    end.

(** [capture_enrollment::admits_new_device_stream] *)
Definition admits_new_device_stream (m : CaptureEventManifest) (s : Store Voice) : bool :=
  designated (capture_session_id m) (voice_enrollment s) && negb (bool_decide (is_Some (streams s !! stream_id m))).

Definition ended (row : SessionRow) : bool := bool_decide (is_Some (cs_ended_ms row)).

Definition session_mismatch (m : CaptureEventManifest) (row : SessionRow) (s : Store Voice) : bool :=
  (negb (str_eqb (cs_device_id row) (device_id m)) || negb (str_eqb (cs_install_id row) (install_id m)))
  && negb (admits_new_device_stream m s).

Definition stream_mismatch (m : CaptureEventManifest) (row : StreamRow) : bool :=
  negb (str_eqb (st_session row) (capture_session_id m)) || negb (str_eqb (st_device_id row) (device_id m))
  || negb (bool_decide (st_kind row = stream_kind m)).

Definition session_reused : EnclaveError := Conflict (lit "capture session ID was reused across devices or installs").
Definition stream_reused : EnclaveError := Conflict (lit "capture stream ID was reused with a different scope").
Definition no_new_stream : EnclaveError := Conflict (lit "ended capture session does not admit a new stream").

Definition finished (m : CaptureEventManifest) : bool := default false (session_finished m).

Definition validate_new_event_admission (m : CaptureEventManifest) (s : Store Voice) : res unit :=
  match sessions s !! capture_session_id m with
  | None => Ok tt
  | Some session =>
    let? _ := refuse (session_mismatch m session s) session_reused in
    let provisional := ended session && provisional_finish_authorized (capture_session_id m) s in
    let late := ended session && bool_decide (is_Some (current_finalized_seal (capture_session_id m) s)) in
    match streams s !! stream_id m with
    | None => refuse (ended session && negb provisional && negb late) no_new_stream
    | Some stream =>
      let? _ := refuse (stream_mismatch m stream) stream_reused in
      let? _ := stream_admission (ended session) provisional late (sealed_sequence stream) (sequence m) (finished m) in
      Ok tt
    end
  end.

Definition require_capture_account : txn unit :=
  let^ status := select account_status in
  match status with
  | Some s => abort_if (negb (str_eqb s (lit "active"))) (Conflict (lit "account does not admit capture writes"))
  | None => aborts NotFound
  end.

Definition stream_ack (stream : str) (s : Store Voice) : res Z :=
  ok_or (committed_through <$> streams s !! stream) NotFound.

(** [preflight]'s asset: the media's, or the canonical one referred to. *)
Definition admission_asset (m : CaptureEventManifest) : str :=
  match media m, reference m with
  | Some md, _ => asset_id md
  | None, Some r => canonical_asset_id r
  | None, None => []
  end.

Definition admission_identity (m : CaptureEventManifest) : CaptureUploadIdentity :=
  {| up_capture_session_id := capture_session_id m; up_stream_id := stream_id m; up_event_id := event_id m;
     up_asset_id := admission_asset m |}.

(** A stored event answers a replay of the same event. *)
Definition replay_matches (m : CaptureEventManifest) (digest : str) (allowed : option (list str)) (row : EventRow)
    (object : option MediaRow) : bool :=
  str_eqb (er_manifest_digest row) digest && bool_decide (er_disposition row = media_disposition m)
  && match allowed with
     | Some keys => some_and (fun o => existsb (str_eqb (mr_object_key o)) keys) object
     | None => bool_decide (object = None)
     end.

Definition preflight_row (m : CaptureEventManifest) (digest : str) (allowed : option (list str)) (s : Store Voice) : res CapturePreflight :=
  match capture_events s !! event_id m with
  | None =>
    match (if formation_installed s then deleted_sequences s !! event_id m else None) with
    | Some d =>
      let? _ := refuse (negb (exact_deleted_event_replay (dr_stream d) (dr_sequence d) (dr_manifest_digest d)
                                (stream_id m) (sequence m) digest))
                       (Conflict (lit "idempotency conflict for erased capture event")) in
      let? ack := stream_ack (dr_stream d) s in
      Ok (Duplicate ack)
    | None => let? _ := validate_new_event_admission m s in Ok New
    end
  | Some row =>
    let? _ := refuse (negb (replay_matches m digest allowed row (media_objects s !! event_id m)))
                     (Conflict (lit "idempotency conflict for event_id")) in
    let? ack := ok_or (committed_through <$> streams s !! er_stream row)
                      (Errors.Store (lit "capture stream receipt is missing")) in
    Ok (Duplicate ack)
  end.

Definition preflight (m : CaptureEventManifest) (digest : str) (allowed : option (list str)) : txn CapturePreflight :=
  require_capture_admission (admission_identity m) (canonical_event_id <$> reference m) ^;
  let^ answer := select (preflight_row m digest allowed) in
  try_res answer.

(** ** Upload reservation and the account's media key *)

Definition UPLOAD_INTENT_MS : Z := 10 * 60 * 1000.

(** A [~ '^[0-9a-f]{64}$'] check. *)
Definition lower_hex_digest (digest : str) : bool :=
  Nat.eqb (length digest) 64 && forallb (fun c => is_ascii_digit c || ((97 <=? c) && (c <=? 102))%N) digest.

Definition foreign_key (account asset key : str) : res bool :=
  let? capture_key := canonical_capture_media_object_key account asset in
  if str_eqb key capture_key then Ok false
  else let? recording_key := canonical_recording_media_object_key account asset in Ok (negb (str_eqb key recording_key)).

Definition bad_reservation (account : str) (identity : CaptureUploadIdentity) (key digest : str) : res bool :=
  if is_empty (up_capture_session_id identity) || is_empty (up_stream_id identity) || is_empty (up_event_id identity)
     || is_empty (up_asset_id identity) then Ok true
  else
    let? foreign := foreign_key account (up_asset_id identity) key in
    Ok (foreign || negb (byte_len digest =? 64) || negb (forallb is_ascii_hexdigit digest)).

(** The row an upload intent is inserted as, or extended to. *)
Definition reserved_intent (now : Z) (candidate asset key digest : str) (existing : option UploadIntent) : option UploadIntent :=
  let fresh token := {| in_token := token; in_asset_id := asset; in_object_key := key; in_manifest_digest := digest;
                        in_expires_at := now + UPLOAD_INTENT_MS |} in
  match existing with
  | None => Some (fresh candidate)
  | Some i =>
    if str_eqb (in_asset_id i) asset && str_eqb (in_object_key i) key && str_eqb (in_manifest_digest i) digest
    then Some (fresh (if in_expires_at i <=? now then candidate else in_token i))
    else None
  end.

Definition token_taken (event token : str) (s : Store Voice) : bool :=
  existsb (fun kv => negb (str_eqb kv.1 event) && str_eqb (in_token kv.2) token) (map_to_list (upload_intents s)).

Definition reserve_media_upload (now : Z) (account : str) (identity : CaptureUploadIdentity) (key digest random : str) :
    txn (option str) :=
  let^ bad := try_res (bad_reservation account identity key digest) in
  abort_if bad (invalid "canonical media upload admission is invalid") ^;
  require_capture_account ^;
  require_capture_admission identity None ^;
  let^ existing := select (fun s => upload_intents s !! up_event_id identity) in
  let reserved := reserved_intent now (lit "upl_" ++ random) (up_asset_id identity) key (to_ascii_lowercase digest) existing in
  let^ intent := try_res (ok_or reserved (Conflict (lit "idempotency conflict for media upload admission"))) in
  let^ taken := select (token_taken (up_event_id identity) (in_token intent)) in
  violates taken ^;
  execute (set_intents (insert (up_event_id identity) intent)) ^;
  commits (Some (in_token intent)).

Definition media_dek_wrapped (s : Store Voice) : option str :=
  if bool_decide (account_status s = Some (lit "active")) then media_key s else None.

Definition install_media_dek (candidate : str) : txn str :=
  abort_if (is_empty candidate) (invalid "wrapped media DEK must not be empty") ^;
  require_capture_account ^;
  let^ existing := select media_key in
  let winner := default candidate existing in
  execute (set_media_key (Some winner)) ^;
  commits winner.

(** ** The session and the stream of an accepted event *)

Record SealReopen := { reopen_generation : Z; sealed_stream_count : Z }.

Definition new_session (now started last : Z) (m : CaptureEventManifest) : SessionRow :=
  {| cs_device_id := device_id m; cs_install_id := install_id m; cs_started_ms := started; cs_last_event_ms := last;
     cs_ended_ms := None; cs_created_ms := now |}.

Definition touch_session (last : Z) (row : SessionRow) : SessionRow :=
  {| cs_device_id := cs_device_id row; cs_install_id := cs_install_id row; cs_started_ms := cs_started_ms row;
     cs_last_event_ms := Z.max (cs_last_event_ms row) last; cs_ended_ms := cs_ended_ms row; cs_created_ms := cs_created_ms row |}.

(** The session, inserted or touched; whether it had ended. *)
Definition upsert_session (now : Z) (m : CaptureEventManifest) (started last : Z) : txn bool :=
  let^ found := select (fun s => sessions s !! capture_session_id m) in
  match found with
  | Some row =>
    let^ mismatch := select (session_mismatch m row) in
    abort_if mismatch session_reused ^;
    execute (set_sessions (insert (capture_session_id m) (touch_session last row))) ^;
    commits (ended row)
  | None => execute (set_sessions (insert (capture_session_id m) (new_session now started last m))) ^; commits false
  end.

Definition stream_admission_of (m : CaptureEventManifest) (session_ended : bool) (s : Store Voice) : res StreamAdmission :=
  let provisional := session_ended && provisional_finish_authorized (capture_session_id m) s in
  let late := session_ended && bool_decide (is_Some (current_finalized_seal (capture_session_id m) s)) in
  match streams s !! stream_id m with
  | Some row =>
    let? _ := refuse (stream_mismatch m row) stream_reused in
    stream_admission session_ended provisional late (sealed_sequence row) (sequence m) (finished m)
  | None =>
    let? _ := refuse (session_ended && negb provisional && negb late) no_new_stream in
    if session_ended && late then Ok LateSealReopen
    else stream_admission session_ended provisional late None (sequence m) (finished m)
  end.

(** A stream whose seal is exactly what it has committed and accepted. *)
Definition exact_boundary (s : Store Voice) (kv : str * StreamRow) : bool :=
  let '(id, row) := kv in
  some_and (fun sealed => (sealed =? committed_through row) && (sealed =? accepted_max id s) && (sealed =? contiguous_through id s))
    (sealed_sequence row).

(** What a late event must reopen: every stream of the session, each sealed
    exactly. *)
Definition plan_reopen (m : CaptureEventManifest) (admission : StreamAdmission) (s : Store Voice) : res (option SealReopen) :=
  if bool_decide (admission = LateSealReopen) then
    let? generation := ok_or (current_finalized_seal (capture_session_id m) s)
                             (Conflict (lit "capture seal reopen lost its audit authority")) in
    let sealed := session_streams (capture_session_id m) s in
    let? _ := refuse (is_empty sealed || existsb (fun kv => negb (exact_boundary s kv)) sealed)
                     (Conflict (lit "capture seal reopen found an inexact current stream boundary")) in
    Ok (Some {| reopen_generation := generation; sealed_stream_count := Z.of_nat (length sealed) |})
  else Ok None.

Definition new_stream (m : CaptureEventManifest) : StreamRow :=
  {| st_session := capture_session_id m; st_device_id := device_id m; st_kind := stream_kind m;
     committed_through := -1; sealed_sequence := None |}.

Definition upsert_session_and_stream (now : Z) (m : CaptureEventManifest) : txn (option SealReopen) :=
  let^ started := try_res (timestamp (started_at m) "started_at") in
  let^ last := try_res (timestamp (ended_at m) "ended_at") in
  let^ session_ended := upsert_session now m started last in
  let^ decision := select (stream_admission_of m session_ended) in
  let^ admission := try_res decision in
  let^ plan := select (plan_reopen m admission) in
  let^ reopen := try_res plan in
  let^ exists_ := select (fun s => bool_decide (is_Some (streams s !! stream_id m))) in
  execute (fun s => if exists_ then s else set_streams (insert (stream_id m) (new_stream m)) s) ^;
  commits reopen.

(** ** Formation receipts and seals *)

Definition FINISH_PROVENANCES : list string :=
  ["event_finish_v1"; "finish_endpoint_v1"; "legacy_client_refinish_v1"; "server_inactivity_v1"]%string.

(** [ended_at=coalesce(ended_at, ...)] *)
Definition end_session (at_ms : Z) (row : SessionRow) : SessionRow :=
  {| cs_device_id := cs_device_id row; cs_install_id := cs_install_id row; cs_started_ms := cs_started_ms row;
     cs_last_event_ms := cs_last_event_ms row; cs_ended_ms := Some (default at_ms (cs_ended_ms row));
     cs_created_ms := cs_created_ms row |}.

(** A receipt as [INSERT] makes it. *)
Definition new_receipt (now : Z) (finish : option (Z * str)) : ReceiptRow :=
  {| source_revision := 1; completed_revision := 0; rc_state := ReceiptPending; rc_claim := None; rc_next_attempt_at := None;
     rc_attempt_count := 0; rc_updated_at := now; rc_claimed_fingerprint := None; rc_completed_outcome := None; rc_completed_claim_token := None;
     rc_completed_fingerprint := None; rc_completed_at := None; rc_last_error := None;
     finish_requested_at := fst <$> finish; finish_provenance := snd <$> finish; seal_finalized_at := None;
     seal_generation := 0; seal_provenance := None |}.

(** A receipt with its finish request and its seal changed. *)
Definition with_lifecycle (now : Z) (r : ReceiptRow) (finish : option Z) (provenance : option str) (sealed : option Z) (generation : Z)
    (seal_prov : option str) : ReceiptRow :=
  {| source_revision := source_revision r; completed_revision := completed_revision r; rc_state := rc_state r;
     rc_claim := rc_claim r; rc_next_attempt_at := rc_next_attempt_at r; rc_attempt_count := rc_attempt_count r;
     rc_updated_at := now; rc_claimed_fingerprint := rc_claimed_fingerprint r;
     rc_completed_outcome := rc_completed_outcome r; rc_completed_claim_token := rc_completed_claim_token r;
     rc_completed_fingerprint := rc_completed_fingerprint r; rc_completed_at := rc_completed_at r;
     rc_last_error := rc_last_error r; finish_requested_at := finish; finish_provenance := provenance;
     seal_finalized_at := sealed; seal_generation := generation; seal_provenance := seal_prov |}.

Definition request_finish (now at_ms : Z) (provenance : str) (existing : option ReceiptRow) : ReceiptRow :=
  match existing with
  | None => new_receipt now (Some (at_ms, provenance))
  | Some r =>
    with_lifecycle now r (Some (default at_ms (finish_requested_at r))) (Some (default provenance (finish_provenance r)))
      (seal_finalized_at r) (seal_generation r) (seal_provenance r)
  end.

Definition record_provisional_finish (now : Z) (session : str) (ended_ms : option Z) (provenance : string) : txn unit :=
  abort_if (negb (one_of (lit provenance) FINISH_PROVENANCES)) (Errors.Store (lit "capture finish provenance is invalid")) ^;
  let^ own := select (session_streams session) in
  abort_if (is_empty own) (Errors.Store (lit "capture session cannot finish without streams")) ^;
  let^ found := select (fun s => sessions s !! session) in
  let^ row := try_res (ok_or found NotFound) in
  let finished_row := end_session (default now ended_ms) row in
  execute (set_sessions (insert session finished_row)) ^;
  let^ installed := select formation_installed in
  if installed then
    let requested := if str_eqb (lit provenance) (lit "legacy_client_refinish_v1")
                     then default now (cs_ended_ms finished_row) else now in
    execute (fun s => set_receipts (insert session (request_finish now requested (lit provenance) (receipts s !! session))) s)
  else commits tt.

(** New source invalidates the formation work done on the session. *)
Definition dirty_receipt (now : Z) (existing : option ReceiptRow) : ReceiptRow :=
  match existing with
  | None => new_receipt now None
  | Some r =>
    {| source_revision := source_revision r + 1; completed_revision := completed_revision r; rc_state := ReceiptPending;
       rc_claim := None; rc_next_attempt_at := None; rc_attempt_count := rc_attempt_count r; rc_updated_at := now; rc_claimed_fingerprint := None; rc_completed_outcome := None;
       rc_completed_claim_token := None; rc_completed_fingerprint := None; rc_completed_at := None; rc_last_error := None;
       finish_requested_at := finish_requested_at r; finish_provenance := finish_provenance r;
       seal_finalized_at := seal_finalized_at r; seal_generation := seal_generation r; seal_provenance := seal_provenance r |}
  end.

(** [state='invalidated'], with the claim, the request and the response
    cleared. *)
Definition invalidated (p : PageRow) : PageRow :=
  {| pg_source := pg_source p; pg_state := PageInvalidated; pg_claim := None; pg_attempt := pg_attempt p;
     pg_provider_request := None; pg_staged_response := None; pg_completed := pg_completed p;
     pg_last_error := Some (lit "source_revision_invalidated") |}.

Definition invalidate_page (session : str) (revision : Z) (p : PageRow) : PageRow :=
  if str_eqb (pg_session (pg_source p)) session && (pg_source_revision (pg_source p) <? revision)
     && negb (bool_decide (pg_state p = PageComplete))
  then invalidated p
  else p.

Definition mark_session_dirty (now : Z) (session : str) : txn unit :=
  let^ existing := select (fun s => receipts s !! session) in
  let r := dirty_receipt now existing in
  violates (negb (I64.in_rangeb (source_revision r))) ^;
  execute (set_receipts (insert session r)) ^;
  execute (set_pages (fmap (invalidate_page session (source_revision r)))).

Definition mark_capture_formation_dirty (now : Z) (session_ids : list str) : txn unit :=
  let^ installed := select formation_installed in
  if installed then
    for_each (sort_by ord_leb (remove_dups session_ids)) (mark_session_dirty now) ^;
    execute (set_scans [])
  else commits tt.

(** [append_capture_formation_seal_event], the trigger of the seal history:
    what it admits for a session's receipt. *)
Definition prior_seal_generation (session : str) (s : Store Voice) : Z :=
  default 0 (max_Z (se_generation <$> List.filter (fun e => str_eqb (se_session e) session && bool_decide (se_kind e = Seal)) (seal_events s))).

Definition seal_admitted (session : str) (e : SealEvent) (r : ReceiptRow) (s : Store Voice) : bool :=
  bool_decide (se_trigger e = None) && bool_decide (is_Some (finish_requested_at r)) && bool_decide (seal_finalized_at r = None)
  && (seal_generation r =? prior_seal_generation session s) && (se_generation e =? prior_seal_generation session s + 1)
  && one_of (se_provenance e) ["quiet_contiguous_v1"; "legacy_quiet_contiguous_v1"; "topology_rebind_v1"]%string
  && negb (is_empty (session_streams session s)) && forallb (exact_boundary s) (session_streams session s).

Definition reopen_admitted (session : str) (e : SealEvent) (r : ReceiptRow) (s : Store Voice) : bool :=
  bool_decide (is_Some (seal_finalized_at r))
  && (se_generation e =? seal_generation r) && (se_generation e =? prior_seal_generation session s)
  && str_eqb (se_provenance e) (lit "late_source_reopen_v1")
  && existsb (is_seal_event session (se_generation e) Seal) (seal_events s)
  && some_and (fun t => some_and (fun row => str_eqb (er_session row) session) (capture_events s !! t)) (se_trigger e).

Definition seal_event_admitted (e : SealEvent) (s : Store Voice) : bool :=
  match receipts s !! se_session e with
  | None => false
  | Some r =>
    (se_source_revision e =? source_revision r)
    && match se_kind e with Seal => seal_admitted (se_session e) e r s | Reopen => reopen_admitted (se_session e) e r s end
    && bool_decide (se_maxima e = stream_maxima_sha256 sha256 codecs (se_session e) s)
    && (1 <=? se_generation e) && Nat.eqb (length (se_maxima e)) 32
    && negb (existsb (is_seal_event (se_session e) (se_generation e) (se_kind e)) (seal_events s))
  end.

Definition append_seal_event (e : SealEvent) : txn unit :=
  let^ admitted := select (seal_event_admitted e) in
  violates (negb admitted) ^;
  execute (set_seals (fun l => l ++ [e])).

Definition unseal (session : str) (row : StreamRow) : StreamRow :=
  if str_eqb (st_session row) session
  then {| st_session := st_session row; st_device_id := st_device_id row; st_kind := st_kind row;
          committed_through := committed_through row; sealed_sequence := None |}
  else row.

Definition sealed_count (session : str) (s : Store Voice) : Z :=
  Z.of_nat (length (List.filter (fun kv => bool_decide (is_Some (sealed_sequence kv.2))) (session_streams session s))).

Definition record_capture_seal_reopen (now : Z) (session trigger : str) (reopen : SealReopen) : txn unit :=
  abort_if ((reopen_generation reopen <? 1) || (sealed_stream_count reopen =? 0))
           (Errors.Store (lit "capture seal reopen proof is malformed")) ^;
  let lost := Conflict (lit "capture seal reopen lost its append-only audit claim") in
  let^ found := select (fun s => receipts s !! session) in
  let^ r := try_res (ok_or found lost) in
  abort_if (negb ((seal_generation r =? reopen_generation reopen) && bool_decide (is_Some (seal_finalized_at r)))) lost ^;
  let^ maxima := select (stream_maxima_sha256 sha256 codecs session) in
  append_seal_event {| se_session := session; se_generation := seal_generation r; se_source_revision := source_revision r;
    se_kind := Reopen; se_maxima := maxima; se_provenance := lit "late_source_reopen_v1"; se_trigger := Some trigger;
    se_recorded_at := now |} ^;
  let^ cleared := select (sealed_count session) in
  execute (set_streams (fmap (unseal session))) ^;
  abort_if (negb (cleared =? sealed_stream_count reopen))
           (Conflict (lit "capture seal reopen did not clear every prior stream boundary")) ^;
  execute (set_receipts (insert session (with_lifecycle now r (finish_requested_at r) (finish_provenance r) None
                                           (seal_generation r) None))).

(** ** Acknowledgement *)

Definition acknowledge (advanced : Z) (row : StreamRow) : StreamRow :=
  {| st_session := st_session row; st_device_id := st_device_id row; st_kind := st_kind row;
     committed_through := advanced; sealed_sequence := sealed_sequence row |}.

(** The accepted sequences past the acknowledged one, up to the seal. *)
Definition pending_sequences (stream : str) (row : StreamRow) (s : Store Voice) : list Z :=
  sort_by Z.leb (List.filter (fun q => (committed_through row <? q)
                                && match sealed_sequence row with Some sealed => q <=? sealed | None => true end)
                             (elements (accepted_sequences stream s))).

Definition advance_ack (stream : str) : txn Z :=
  let^ found := select (fun s => streams s !! stream) in
  let^ row := try_res (ok_or found NotFound) in
  let current := committed_through row in
  abort_if (some_and (fun sealed => sealed <? current) (sealed_sequence row))
           (Errors.Store (lit "capture acknowledgement exceeds its sealed stream boundary")) ^;
  let^ sequences := select (pending_sequences stream row) in
  let advanced := contiguous_ack current sequences in
  execute (fun s => if current <? advanced then set_streams (insert stream (acknowledge advanced row)) s else s) ^;
  commits advanced.

(** ** Browser evidence *)

Definition json_ok {A} (o : option A) : txn A := try_res (ok_or o Errors.Json).

Definition envelope_of (snapshot : BrowserSnapshot) : BrowserStateV2Envelope :=
  {| env_schema_version := 2; env_active_window_index := active_window_index snapshot;
     env_active_tab_index := active_tab_index snapshot; env_reported_tab_count := reported_tab_count snapshot;
     env_truncated := truncated snapshot;
     env_ambient_tab_collection_enabled := default false (ambient_tab_collection_enabled snapshot); env_tabs := tabs snapshot |}.

Definition snapshot_tabs (snapshot : BrowserSnapshot) : option Value :=
  if is_v2_key (state_key snapshot) then envelope_to_value codecs (envelope_of snapshot) else tabs_to_value codecs (tabs snapshot).

Definition state_differs (snapshot : BrowserSnapshot) (tabs : Value) (stored : BrowserStateRow) (stored_tabs : Value) : bool :=
  negb (str_eqb (bs_bundle_id stored) (browser_bundle_id snapshot)) || negb (str_eqb (bs_name stored) (browser_name snapshot))
  || negb (str_eqb (bs_permission_status stored) (permission_status snapshot))
  || negb (str_eqb (bs_content_hash stored) (to_ascii_lowercase (content_hash snapshot)))
  || negb (value_eqb stored_tabs tabs).

(** The state a snapshot names, stored unless its key is taken. *)
Definition insert_browser_state (snapshot : BrowserSnapshot) : txn unit :=
  let^ tabs := json_ok (snapshot_tabs snapshot) in
  let^ text := json_ok (value_to_text codecs tabs) in
  let^ column := try_res (ok_or (jsonb codecs text) Postgres) in
  let^ existing := select (fun s => browser_states s !! state_key snapshot) in
  let stored := default {| bs_bundle_id := browser_bundle_id snapshot; bs_name := browser_name snapshot;
                           bs_permission_status := permission_status snapshot;
                           bs_content_hash := to_ascii_lowercase (content_hash snapshot); bs_tabs := column |} existing in
  execute (set_states (insert (state_key snapshot) stored)) ^;
  let^ stored_tabs := json_ok (value_of_text codecs (bs_tabs stored)) in
  abort_if (state_differs snapshot tabs stored stored_tabs) (Conflict (lit "browser state key was reused with different content")).

Definition insert_browser_observation (m : CaptureEventManifest) : txn unit :=
  match context m with
  | None => commits tt
  | Some c =>
    match browser_snapshot c with Some snapshot => insert_browser_state snapshot | None => commits tt end ^;
    match browser_state_key c with
    | Some key =>
      let^ known := select (fun s => bool_decide (is_Some (browser_states s !! key))) in
      abort_if (negb known) (invalid "browser_state_key does not name an existing exact state")
    | None => commits tt
    end ^;
    let^ observed := try_res (timestamp (source_wall_at m) "source_wall_at") in
    let^ taken := select (fun s => bool_decide (is_Some (observations s !! event_id m))) in
    violates taken ^;
    execute (set_observations (insert (event_id m)
      {| ob_observed_ms := observed; ob_state_key := browser_state_key c; ob_context_status := capture_status c;
         ob_active_url := active_url c; ob_active_title := active_url_title c |}))
  end.

(** ** The commit of one event *)

Section Commit.
Context (now : Z) (c : CaptureCommit).

#[local] Abbreviation m := (manifest c).

Definition upload_admitted (md : MediaDescriptor) (key token : str) (s : Store Voice) : bool :=
  some_and (fun i => str_eqb (in_token i) token && str_eqb (in_asset_id i) (asset_id md) && str_eqb (in_object_key i) key
              && str_eqb (in_manifest_digest i) (to_ascii_lowercase (cc_manifest_digest c)) && (now <? in_expires_at i))
    (upload_intents s !! event_id m).

Definition check_upload_admission : txn unit :=
  match media_disposition m with
  | Canonical =>
    let^ md := try_res (ok_or (media m) (invalid "canonical media is required")) in
    let^ key := try_res (ok_or (object_key c) (invalid "canonical capture object key is required")) in
    let^ token := try_res (ok_or (upload_token c) (Conflict (lit "canonical media upload admission is missing"))) in
    let^ admitted := select (upload_admitted md key token) in
    abort_if (negb admitted) (Conflict (lit "canonical media upload admission is unavailable"))
  | Reference => abort_if (bool_decide (is_Some (upload_token c))) (invalid "reference capture cannot carry media upload admission")
  end.

Definition sequence_used (s : Store Voice) : bool :=
  if formation_installed s then bool_decide (sequence m ∈ event_sequences (stream_id m) s ∪ deleted_of (stream_id m) s)
  else existsb (fun kv => str_eqb (er_device_id kv.2) (device_id m) && str_eqb (er_stream kv.2) (stream_id m)
                  && (er_sequence kv.2 =? sequence m)) (map_to_list (capture_events s)).

(** A reference names an earlier canonical event of its own stream, with the
    same bytes. *)
Definition target_mismatch (r : ScreenReferenceDescriptor) (row : EventRow) (object : MediaRow) : bool :=
  negb (bool_decide (er_disposition row = Canonical))
  || negb (str_eqb (er_device_id row) (device_id m)) || negb (str_eqb (er_install_id row) (install_id m))
  || negb (str_eqb (er_session row) (capture_session_id m)) || negb (str_eqb (er_stream row) (stream_id m))
  || (sequence m <=? er_sequence row)
  || negb (str_eqb (asset_id (mr_media object)) (canonical_asset_id r))
  || negb (eq_ignore_ascii_case (md_sha256 (mr_media object)) (canonical_media_sha256 r)).

Definition check_reference (s : Store Voice) : res ScreenReferenceDescriptor :=
  let? r := ok_or (reference m) (invalid "reference metadata is required") in
  let? ctx := ok_or (context m) (invalid "reference events require capture context") in
  let? fingerprint := semantic_context_fingerprint sha256 (value_to_vec codecs) ctx (dedupe_version r) in
  let? _ := refuse (negb (eq_ignore_ascii_case (context_fingerprint r) fingerprint)) (CaptureReference Errors.ContextFingerprintMismatch) in
  let? _ := refuse (existsb (existsb (str_eqb (canonical_event_id r))) (pending_deletions s))
                   (Conflict (lit "capture reference target is pending episode deletion")) in
  match capture_events s !! canonical_event_id r, media_objects s !! canonical_event_id r with
  | Some row, Some object =>
    let? _ := refuse (target_mismatch r row object) (CaptureReference Errors.TargetMismatch) in
    let unavailable := CaptureReference Errors.CanonicalContextUnavailable in
    let? raw := ok_or (er_context_json row) unavailable in
    let? canonical := ok_or (context_of_text codecs raw) unavailable in
    let? _ := refuse (negb (value_eqb (semantic_context_value canonical (dedupe_version r)) (semantic_context_value ctx (dedupe_version r))))
                     (CaptureReference Errors.ContextTransition) in
    Ok r
  | _, _ => Err (CaptureReference Errors.CanonicalUnavailable)
  end.

Definition event_asset (s : Store Voice) : res (str * option ScreenReferenceDescriptor) :=
  match media_disposition m with
  | Canonical => let? md := ok_or (media m) (invalid "canonical media is required") in Ok (asset_id md, None)
  | Reference => let? r := check_reference s in Ok (lit "reference-" ++ event_id m, Some r)
  end.

Definition lower_reference (r : ScreenReferenceDescriptor) : ScreenReferenceDescriptor :=
  {| canonical_event_id := canonical_event_id r; canonical_asset_id := canonical_asset_id r;
     canonical_media_sha256 := to_ascii_lowercase (canonical_media_sha256 r);
     perceptual_hash := to_ascii_lowercase (perceptual_hash r); hamming_distance := hamming_distance r;
     pixel_change_ratio := pixel_change_ratio r; context_fingerprint := to_ascii_lowercase (context_fingerprint r);
     dedupe_version := dedupe_version r |}.

Definition event_row (asset : str) (r : option ScreenReferenceDescriptor) (context_json : option str) (wall started last : Z) : EventRow :=
  {| er_device_id := device_id m; er_install_id := install_id m; er_session := capture_session_id m; er_stream := stream_id m;
     er_kind := stream_kind m; er_sequence := sequence m; er_source_wall_ms := wall;
     er_source_monotonic_ns := dec (source_monotonic_ns m); er_started_ms := started; er_ended_ms := last;
     er_timezone_id := timezone_id m; er_utc_offset_minutes := utc_offset_minutes m;
     er_clock_uncertainty_ms := clock_uncertainty_ms m; er_asset_id := asset;
     er_manifest_digest := to_ascii_lowercase (cc_manifest_digest c); er_context_json := context_json;
     er_disposition := media_disposition m; er_reference := lower_reference <$> r; er_audio_role := audio_role m;
     er_audio_route := audio_route m; er_route_epoch := I64.wrap <$> route_epoch m; er_locale_id := locale_id m;
     er_received_at := now |}.

(** The keys and checks of [capture_events]. *)
Definition event_row_refused (row : EventRow) (s : Store Voice) : bool :=
  bool_decide (is_Some (capture_events s !! event_id m))
  || existsb (fun kv => str_eqb (er_asset_id kv.2) (er_asset_id row)
                || (str_eqb (er_device_id kv.2) (er_device_id row) && str_eqb (er_stream kv.2) (er_stream row)
                    && (er_sequence kv.2 =? er_sequence row))) (map_to_list (capture_events s))
  || negb (lower_hex_digest (er_manifest_digest row)).

Definition insert_capture_event : txn unit :=
  let^ decision := select event_asset in
  let^ (asset, r) := try_res decision in
  let^ text := match context m with
               | Some ctx => let^ t := json_ok (context_to_text codecs ctx) in commits (Some t)
               | None => commits None
               end in
  let^ wall := try_res (timestamp (source_wall_at m) "source_wall_at") in
  let^ started := try_res (timestamp (started_at m) "started_at") in
  let^ last := try_res (timestamp (ended_at m) "ended_at") in
  let^ column := match text with
                 | Some t => let^ j := try_res (ok_or (jsonb codecs t) Postgres) in commits (Some j)
                 | None => commits None
                 end in
  let row := event_row asset r column wall started last in
  let^ bad := select (event_row_refused row) in
  violates bad ^;
  execute (set_events (insert (event_id m) row)).

(** ** The media of a canonical event *)

Definition retain_until (authority : RecordingMediaAuthorityDecision) : option Z :=
  match authority with
  | ProcessingWindow30d _ _ => parse_epoch_millis (add_seconds (ended_at m) (f64_of_Z (30 * 86400)))
  | UntilDeleted _ _ _ _ _ => None
  end.

Definition lower_media (md : MediaDescriptor) : MediaDescriptor :=
  {| asset_id := asset_id md; mime_type := mime_type md; codec := codec md; byte_length := byte_length md;
     md_sha256 := to_ascii_lowercase (md_sha256 md); sample_rate := sample_rate md; channels := channels md;
     frame_count := frame_count md; width := width md; height := height md; scale := scale md; orientation := orientation md |}.

Definition media_row_refused (row : MediaRow) (s : Store Voice) : bool :=
  existsb (fun kv => str_eqb kv.1 (event_id m) || str_eqb (asset_id (mr_media kv.2)) (asset_id (mr_media row))
             || str_eqb (mr_object_key kv.2) (mr_object_key row)) (map_to_list (media_objects s))
  || (byte_length (mr_media row) <? 0) || negb (lower_hex_digest (md_sha256 (mr_media row))).

Definition authority_row (authority : RecordingMediaAuthorityDecision) : res AuthorityRow :=
  match authority with
  | ProcessingWindow30d capture_revision decision_at =>
    let? at_ms := timestamp decision_at "media authority decision_at" in
    Ok {| ar_capture_revision := capture_revision; ar_retention_revision := 0; ar_epoch := None;
          ar_decision := lit "processing_window_30d"; ar_backend := lit "processing"; ar_key_epoch := None;
          ar_state := lit "processing_only"; ar_decision_ms := at_ms |}
  | UntilDeleted capture_revision retention_revision epoch key_epoch decision_at =>
    let? at_ms := timestamp decision_at "media authority decision_at" in
    Ok {| ar_capture_revision := capture_revision; ar_retention_revision := retention_revision; ar_epoch := Some epoch;
          ar_decision := lit "until_deleted"; ar_backend := lit "recordings"; ar_key_epoch := Some key_epoch;
          ar_state := lit "durable"; ar_decision_ms := at_ms |}
  end.

Definition expected_object_key (authority : RecordingMediaAuthorityDecision) (md : MediaDescriptor) : res str :=
  if authority_is_durable authority then canonical_recording_media_object_key (account_id c) (asset_id md)
  else canonical_capture_media_object_key (account_id c) (asset_id md).

Definition insert_media_object (committed_ms : Z) (md : MediaDescriptor) (authority : RecordingMediaAuthorityDecision)
    (key : str) (generation : Z) : txn unit :=
  let^ expected := try_res (expected_object_key authority md) in
  abort_if (negb (str_eqb key expected)) (invalid "object_key does not match the settled retention decision") ^;
  let row := {| mr_object_key := key; mr_generation := generation; mr_media := lower_media md;
                mr_retain_until := retain_until authority; mr_created_ms := committed_ms; mr_processing_state := lit "queued";
                mr_deleted_ms := None |} in
  let^ bad := select (media_row_refused row) in
  violates bad ^;
  execute (set_media (insert (event_id m) row)) ^;
  let^ decided := try_res (authority_row authority) in
  let^ taken := select (fun s => bool_decide (is_Some (media_authorities s !! asset_id md))) in
  violates (taken || (ar_capture_revision decided <? 0) || (ar_retention_revision decided <? 0)) ^;
  execute (set_authorities (insert (asset_id md) decided)).

Definition job_kind : str := if is_audio (stream_kind m) then lit "gemini_audio" else lit "gemini_screen".

Definition queue_media_job (committed_ms : Z) : txn unit :=
  let same j := str_eqb (jr_kind j) job_kind && str_eqb (jr_input_revision j) (cc_manifest_digest c) && (jr_version j =? 1) in
  let^ taken := select (fun s => existsb same (processing_jobs s)) in
  violates taken ^;
  execute (set_jobs (fun l => l ++ [{| jr_event_id := event_id m; jr_kind := job_kind; jr_input_revision := cc_manifest_digest c;
    jr_version := 1; jr_state := lit "pending"; jr_error_code := None; jr_attempt_count := 0; jr_updated_ms := now |}])) ^;
  let payload := object [("event_id", VString (event_id m)); ("job_kind", VString job_kind);
                         ("input_revision", VString (cc_manifest_digest c))]%string in
  let^ text := json_ok (value_to_text codecs payload) in
  let^ column := try_res (ok_or (jsonb codecs text) Postgres) in
  let key := lit "capture:" ++ event_id m in
  let^ published := select (fun s => bool_decide (is_Some (outbox s !! key))) in
  violates published ^;
  execute (set_outbox (insert key {| ob_kind := lit "capture_media_queued"; ob_aggregate := event_id m; ob_payload := column;
                                     ob_created_ms := committed_ms |})).

Definition insert_media (committed_ms : Z) : txn unit :=
  match media_disposition m with
  | Canonical =>
    let^ md := try_res (ok_or (media m) (invalid "canonical media is required")) in
    let^ key := try_res (ok_or (object_key c) (invalid "canonical capture object key is required")) in
    let^ generation := try_res (ok_or (match object_generation c with Some g => if 0 <? g then Some g else None | None => None end)
                                      (invalid "canonical capture generation must be positive")) in
    let^ authority := try_res (ok_or (media_authority c) (invalid "canonical media authority is required")) in
    insert_media_object committed_ms md authority key generation ^;
    insert_browser_observation m ^;
    queue_media_job committed_ms
  | Reference => insert_browser_observation m
  end.

Definition intent_matches (token : str) (s : Store Voice) : bool :=
  some_and (fun i => str_eqb (in_token i) token) (upload_intents s !! event_id m).

Definition delete_intent (token : str) (s : Store Voice) : Store Voice :=
  if intent_matches token s then set_intents (delete (event_id m)) s else s.

Definition consume_intent : txn unit :=
  match upload_token c with
  | Some token =>
    let^ there := select (intent_matches token) in
    execute (delete_intent token) ^;
    abort_if (negb there) (Conflict (lit "canonical media upload admission disappeared"))
  | None => commits tt
  end.

(** The acknowledgement: first against the seal in force, then, when the
    event reopens the session, past it. *)
Definition acknowledge_event (reopen : option SealReopen) : txn Z :=
  let^ first_ack := advance_ack (stream_id m) in
  mark_capture_formation_dirty now [capture_session_id m] ^;
  match reopen with
  | Some r => record_capture_seal_reopen now (capture_session_id m) (event_id m) r ^; advance_ack (stream_id m)
  | None => commits first_ack
  end.

Definition finish_if_marked : txn unit :=
  if finished m then
    let^ last := try_res (timestamp (ended_at m) "ended_at") in
    record_provisional_finish now (capture_session_id m) (Some last) "event_finish_v1"
  else commits tt.

Definition record_enrollment (session_was_new : bool) : txn unit :=
  let^ recorded := select (fun s => record_event m session_was_new (session_events (capture_session_id m) s) (voice_enrollment s)) in
  let^ e := try_res recorded in
  execute (set_enrollment e).

Definition insert_new_event : txn CaptureCommitResult :=
  check_upload_admission ^;
  let^ committed_ms := try_res (timestamp (committed_at c) "committed_at") in
  let^ known := select (fun s => bool_decide (is_Some (sessions s !! capture_session_id m))) in
  let^ reopen := upsert_session_and_stream now m in
  let^ used := select sequence_used in
  abort_if used (Conflict (lit "idempotency conflict for stream sequence")) ^;
  insert_capture_event ^;
  insert_media committed_ms ^;
  consume_intent ^;
  let^ ack := acknowledge_event reopen in
  finish_if_marked ^;
  record_enrollment (negb known) ^;
  commits {| duplicate := false; committed_through_sequence := ack |}.

(** [insert_event] *)
Definition insert_event : txn CaptureCommitResult :=
  try_res (validate sha256 m) ^;
  let^ answer := preflight m (cc_manifest_digest c) ((fun key => [key]) <$> object_key c) in
  match answer with
  | Duplicate ack => commits {| duplicate := true; committed_through_sequence := ack |}
  | New => insert_new_event
  end.

(** [commit_event] *)
Definition commit_event : txn CaptureCommitResult :=
  require_capture_account ^;
  let^ result := insert_event in
  match duplicate result, upload_token c with
  | true, Some token => execute (delete_intent token)
  | _, _ => commits tt
  end ^;
  commits result.
End Commit.

(** ** The commit of a batch of references *)

Definition batch_commit (command : ReferenceBatchCommit) (m : CaptureEventManifest) (digest : str) : CaptureCommit :=
  {| account_id := rbc_account_id command; manifest := m; cc_manifest_digest := digest; object_key := None;
     object_generation := None; upload_token := None; media_authority := None; committed_at := rbc_committed_at command |}.

Definition admit_batch_event (m : CaptureEventManifest) : txn unit :=
  abort_if (bool_decide (is_Some (enrollment m)) || bool_decide (is_Some (enrollment_revision m)))
           (invalid "reference batches do not admit voice enrollment") ^;
  let^ decision := select (fun s => refuse_reference_batch (capture_session_id m) (voice_enrollment s)) in
  try_res decision.

(** [map_err] of one item's commit. *)
Definition located {A} (index : nat) (m : CaptureEventManifest) (t : txn A) : txn A :=
  fun s => match t s with
           | Ok r => Ok r
           | Err e => Err (for_capture_reference_batch_item e (Z.of_nat index) (sequence m))
           end.

Fixpoint commit_batch_items (now : Z) (command : ReferenceBatchCommit) (index : nat) (l : list (CaptureEventManifest * str))
    (so_far : ReferenceBatchCommitResult) : txn ReferenceBatchCommitResult :=
  match l with
  | [] => commits so_far
  | (m, digest) :: rest =>
    let^ result := located index m (insert_event now (batch_commit command m digest)) in
    commit_batch_items now command (S index) rest
      {| new_count := new_count so_far + (if duplicate result then 0 else 1);
         duplicate_count := duplicate_count so_far + (if duplicate result then 1 else 0);
         batch_committed_through := committed_through_sequence result |}
  end.

Definition commit_reference_batch (now : Z) (command : ReferenceBatchCommit) : txn ReferenceBatchCommitResult :=
  abort_if (is_empty (rbc_events command) || negb (Nat.eqb (length (rbc_events command)) (length (rbc_manifest_digests command))))
           (invalid "reference batch digest count is invalid") ^;
  require_capture_account ^;
  for_each (rbc_events command) admit_batch_event ^;
  commit_batch_items now command 0 (zip (rbc_events command) (rbc_manifest_digests command))
    {| new_count := 0; duplicate_count := 0; batch_committed_through := -1 |}.

(** ** Finishing a session *)

(** [finish_session]: whether the session exists; the status read that
    follows is not part of the transaction. *)
Definition finish_session (now : Z) (session : str) : txn bool :=
  let^ found := select (fun s => sessions s !! session) in
  match found with
  | None => commits false
  | Some row =>
    let^ installed := select formation_installed in
    let^ receipt := select (fun s => receipts s !! session) in
    let requested := some_and (fun r => bool_decide (is_Some (finish_requested_at r))) receipt in
    let provenance := if ended row && installed && negb requested then "legacy_client_refinish_v1"%string else "finish_endpoint_v1"%string in
    record_provisional_finish now session None provenance ^;
    commits true
  end.
End Admission.
