(* ===== verification/CaptureSeal.v ===== *)
(** * Sealing finished sessions

    [persistence/postgres/memory_formation.rs]: the import of finish requests
    left by older clients and the quiet sealer, which fixes the boundary of
    every stream of a finished session once nothing about it has changed for
    four hours; [capture_recovery.rs]: the finish of a session its client
    never finished.  Row locks are not modelled: an account's transactions
    are serial. *)
From stdpp Require Import gmap sorting.
From Stdlib Require Import ZArith Lia.
From S2P Require Import Prelude OrdMap Text F64 Errors Bytes Json CaptureManifest Txn VoiceEnrollment CaptureStore CaptureCommit.
Local Open Scope Z_scope.
Local Open Scope kioku_scope.

Definition CAPTURE_SEAL_QUIET_MS : Z := 4 * 60 * 60 * 1000.
Definition CAPTURE_SEAL_BATCH_SIZE : nat := 32.
Definition PROCESSOR_VERSION : Z := 1.
Definition RESURRECTION_TOTAL_ATTEMPT_CAP : Z := 9.
Definition RESURRECTION_WINDOW_MS : Z := 7 * 24 * 3600 * 1000.
Definition NON_RESURRECTABLE_MEDIA_ERROR_CODES : list string :=
  ["media_integrity"; "transcript_target_conflict"; "unplannable_media"; "vertex_ambiguous"; "invalid_model_output";
   "persisted_work_compatibility_hold"]%string.
Definition INACTIVITY_MS : Z := 30 * 60 * 1000.
Definition RECOVERY_BATCH_SIZE : nat := 32.

Section Seal.
Context {Voice : Type} `{VoiceGraph Voice}.
Context (sha256 : bytes -> bytes) (codecs : Codec).
Context (now : Z).
Implicit Types s : Store Voice.

#[local] Abbreviation txn := (txn (Store Voice)).

(** The activation phases in which no older binary writes. *)
Definition predecessor_drained s : bool :=
  some_and (fun p => one_of p ["draining"; "active"; "paused"]%string) (activation_phase s).

Definition rows_of {R} (keep : R -> bool) (rows : gmap str R) : list (str * R) :=
  List.filter (fun kv => keep kv.2) (map_to_list rows).

Definition events_of (session : str) s : list (str * EventRow) := rows_of (fun e => str_eqb (er_session e) session) (capture_events s).

Definition jobs_of (event : str) s : list JobRow := List.filter (fun j => str_eqb (jr_event_id j) event) (processing_jobs s).

(** A job that may still change its event's evidence. *)
Definition unsettled_job (event : EventRow) (j : JobRow) : bool :=
  negb (one_of (jr_state j) ["succeeded"; "canceled"]%string)
  && (negb (str_eqb (jr_state j) (lit "failed_terminal"))
      || ((jr_version j =? PROCESSOR_VERSION)
          && negb (one_of (default [] (jr_error_code j)) NON_RESURRECTABLE_MEDIA_ERROR_CODES)
          && (jr_attempt_count j <? RESURRECTION_TOTAL_ATTEMPT_CAP)
          && (now - RESURRECTION_WINDOW_MS <=? er_started_ms event))).

Definition unsettled_object (o : MediaRow) : bool :=
  bool_decide (mr_deleted_ms o = None) && one_of (mr_processing_state o) ["queued"; "processing"; "retry_wait"]%string.

Definition receipts_with_sessions s : list (str * (ReceiptRow * SessionRow)) :=
  omap (fun kv => match sessions s !! kv.1 with Some row => Some (kv.1, (kv.2, row)) | None => None end) (map_to_list (receipts s)).

(** ** Finish requests of older clients *)

Definition legacy_finish (kv : str * (ReceiptRow * SessionRow)) : bool :=
  let '(_, (r, row)) := kv in
  ended row && bool_decide (finish_requested_at r = None) && bool_decide (seal_finalized_at r = None).

Definition import_one (kv : str * (ReceiptRow * SessionRow)) : txn unit :=
  let '(session, (r, row)) := kv in
  execute (set_receipts (insert session (with_lifecycle now r (cs_ended_ms row) (Some (lit "legacy_ended_v1")) (seal_finalized_at r)
                                           (seal_generation r) (seal_provenance r)))).

Definition legacy_finishes s : list (str * (ReceiptRow * SessionRow)) :=
  take CAPTURE_SEAL_BATCH_SIZE
    (sort_by_key (fun kv => (default 0 (cs_ended_ms kv.2.2), kv.1)) (List.filter legacy_finish (receipts_with_sessions s))).

Definition import_legacy_provisional_finishes : txn Z :=
  let^ drained := select predecessor_drained in
  if negb drained then commits 0
  else
    let^ batch := select legacy_finishes in
    for_each batch import_one ^;
    commits (Z.of_nat (length batch)).

(** ** The quiet sealer *)

(** A stream whose acknowledgement is exactly what it accepted, with no other
    seal than it. *)
Definition settled_stream s (kv : str * StreamRow) : bool :=
  let '(id, row) := kv in
  (committed_through row =? accepted_max id s) && (contiguous_through id s =? committed_through row)
  && match sealed_sequence row with Some sealed => sealed =? committed_through row | None => true end.

(** An event received, and whose media was last processed, a while ago, with
    nothing left to process. *)
Definition settled_event (quiet : Z) s (kv : str * EventRow) : bool :=
  let '(id, e) := kv in
  (er_received_at e <=? now - quiet)
  && (negb (bool_decide (er_disposition e = Canonical)) || negb (is_empty (jobs_of id s)))
  && forallb (fun j => (jr_updated_ms j <=? now - quiet) && negb (unsettled_job e j)) (jobs_of id s)
  && negb (some_and unsettled_object (media_objects s !! id)).

Definition quiet_event : Store Voice -> str * EventRow -> bool := settled_event CAPTURE_SEAL_QUIET_MS.

Definition seal_ready s (kv : str * (ReceiptRow * SessionRow)) : bool :=
  let '(session, (r, row)) := kv in
  some_and (fun requested => requested <=? now - CAPTURE_SEAL_QUIET_MS) (finish_requested_at r)
  && bool_decide (seal_finalized_at r = None) && ended row
  && negb (is_empty (session_streams session s)) && forallb (settled_stream s) (session_streams session s)
  && forallb (quiet_event s) (events_of session s).

Definition seal_candidates s : list str :=
  take CAPTURE_SEAL_BATCH_SIZE
    (fst <$> sort_by_key (fun kv => (default 0 (finish_requested_at kv.2.1), kv.1))
               (List.filter (seal_ready s) (receipts_with_sessions s))).

Definition stream_changed : EnclaveError := Conflict (lit "capture stream changed during quiet seal finalization").

Definition seal_at (maximum : Z) (row : StreamRow) : StreamRow :=
  {| st_session := st_session row; st_device_id := st_device_id row; st_kind := st_kind row;
     committed_through := committed_through row; sealed_sequence := Some maximum |}.

(** One stream of the loop, as it was read before the loop. *)
Definition seal_stream (observed : str * StreamRow * Z * Z) : txn unit :=
  let '(id, row, maximum, contiguous) := observed in
  abort_if (negb ((maximum =? committed_through row) && (maximum =? contiguous))) stream_changed ^;
  abort_if (some_and (fun sealed => negb (sealed =? maximum)) (sealed_sequence row))
           (Conflict (lit "capture stream contains a stale legacy seal boundary")) ^;
  let^ current := select (fun s => streams s !! id) in
  let^ accepted := select (accepted_max id) in
  let^ through := select (contiguous_through id) in
  match current with
  | Some live =>
    abort_if (negb (match sealed_sequence live with Some sealed => sealed =? maximum | None => true end
                    && (committed_through live =? maximum) && (accepted =? maximum) && (through =? maximum)))
             (Conflict (lit "capture stream seal lost its authority")) ^;
    execute (set_streams (insert id (seal_at maximum live)))
  | None => aborts (Conflict (lit "capture stream seal lost its authority"))
  end.

Definition observe_streams (session : str) s : list (str * StreamRow * Z * Z) :=
  (fun kv => (kv.1, kv.2, accepted_max kv.1 s, contiguous_through kv.1 s)) <$> session_streams session s.

Definition finalization_provenance (r : ReceiptRow) : str :=
  if some_and (fun p => one_of p ["legacy_client_refinish_v1"; "legacy_ended_v1"]%string) (finish_provenance r)
  then lit "legacy_quiet_contiguous_v1" else lit "quiet_contiguous_v1".

Definition seal_session (session : str) : txn unit :=
  let^ found := select (fun s => receipts s !! session) in
  let lost := Conflict (lit "capture seal candidate lost its receipt") in
  let^ r := try_res (ok_or found lost) in
  abort_if (bool_decide (finish_requested_at r = None) || bool_decide (is_Some (seal_finalized_at r))) lost ^;
  let generation := seal_generation r + 1 in
  abort_if (negb (I64.in_rangeb generation)) (Errors.Store (lit "capture seal generation overflowed")) ^;
  let^ observed := select (observe_streams session) in
  abort_if (is_empty observed) stream_changed ^;
  for_each observed seal_stream ^;
  let^ maxima := select (stream_maxima_sha256 sha256 codecs session) in
  abort_if (negb (Nat.eqb (length maxima) 32)) (Errors.Store (lit "capture stream maxima commitment is malformed")) ^;
  append_seal_event sha256 codecs {| se_session := session; se_generation := generation; se_source_revision := source_revision r;
    se_kind := Seal; se_maxima := maxima; se_provenance := finalization_provenance r; se_trigger := None;
    se_recorded_at := now |} ^;
  execute (set_receipts (insert session (with_lifecycle now r (finish_requested_at r) (finish_provenance r) (Some now) generation
                                           (Some (finalization_provenance r))))) ^;
  execute (set_scans []).

Definition finalize_quiet_capture_seals : txn Z :=
  let^ drained := select predecessor_drained in
  if negb drained then commits 0
  else
    let^ candidates := select seal_candidates in
    for_each candidates seal_session ^;
    commits (Z.of_nat (length candidates)).

(** ** Sessions their client never finished *)

Definition recovery_held s : bool :=
  existsb (fun kv => now <? in_expires_at kv.2) (map_to_list (upload_intents s))
  || negb (is_empty (pending_deletions s))
  || match erasure s with Ok (Some e) => upload_fenced e | _ => false end.

(** The event whose media an event shows: a reference's is its target's. *)
Definition root_of (id : str) (e : EventRow) : str := match er_reference e with Some r => canonical_event_id r | None => id end.

Definition unsettled_root s (kv : str * EventRow) : bool :=
  let '(id, e) := kv in
  let root := root_of id e in
  match capture_events s !! root, media_objects s !! root with
  | Some event, Some object =>
    is_empty (jobs_of root s) || existsb (unsettled_job event) (jobs_of root s) || unsettled_object object
  | _, _ => true
  end.

Definition unsealed_settled s (kv : str * StreamRow) : bool :=
  bool_decide (sealed_sequence kv.2 = None) && settled_stream s kv.

Definition inactive s (kv : str * (ReceiptRow * SessionRow)) : bool :=
  let '(session, (r, row)) := kv in
  negb (ended row) && bool_decide (finish_requested_at r = None) && bool_decide (seal_finalized_at r = None)
  && match rc_claim r with Some (_, _, until) => until <=? now | None => true end
  && (cs_created_ms row <=? now - INACTIVITY_MS)
  && negb (is_empty (events_of session s))
  && forallb (fun kv => er_received_at kv.2 <=? now - INACTIVITY_MS) (events_of session s)
  && negb (is_empty (session_streams session s)) && forallb (unsealed_settled s) (session_streams session s)
  && forallb (fun kv => negb (unsettled_root s kv)) (events_of session s).

(** When the evidence of a session ended. *)
Definition last_evidence s (session : str) (row : SessionRow) : Z :=
  foldr Z.max (cs_last_event_ms row) ((fun kv => er_ended_ms kv.2) <$> events_of session s).

Definition inactive_sessions s : list (str * Z) :=
  (fun kv => (kv.1, last_evidence s kv.1 kv.2.2)) <$>
  take RECOVERY_BATCH_SIZE
    (sort_by_key (fun kv => (cs_created_ms kv.2.2, kv.1)) (List.filter (inactive s) (receipts_with_sessions s))).

Definition recover_inactive_sessions : txn Z :=
  let^ installed := select formation_installed in
  if negb installed then commits 0
  else
    let^ schema := select interrupted_schema in
    try_res schema ^;
    let^ drained := select predecessor_drained in
    let^ active := select (fun s => bool_decide (account_status s = Some (lit "active"))) in
    let^ held := select recovery_held in
    if negb drained || negb active || held then commits 0
    else
      let^ batch := select inactive_sessions in
      for_each batch (fun kv => record_provisional_finish now kv.1 (Some kv.2) "server_inactivity_v1") ^;
      commits (Z.of_nat (length batch)).
End Seal.
