(* ===== verification/CaptureLedger.v ===== *)
(** * The ledger of captured events

    What the transactions of [CaptureCommit] and [CaptureSeal] keep true of
    an account's sessions, streams and events: the steps an account's store
    takes, the invariant of every store they reach, and the theorems about
    acknowledgement, replays, references and seals. *)
From stdpp Require Import gmap sorting.
From Stdlib Require Import ZArith Lia.
From S2P Require Import Prelude OrdMap Text F64 Errors Bytes Json IsoTime CaptureManifest MediaKeys CaptureIngest Txn VoiceEnrollment.
From S2P Require Import CaptureStore CaptureCommit CaptureSeal.
Local Open Scope Z_scope.
Local Open Scope kioku_scope.

(** ** Acknowledged prefixes *)

(** [contiguous_ack] stops at the first gap. *)
Lemma contiguous_ack_spec l : forall current,
  StronglySorted (fun a b => Z.leb a b = true) l ->
  let reached := contiguous_ack current l in
  current <= reached /\ (forall q, current < q <= reached -> q ∈ l) /\ reached + 1 ∉ l.
Proof.
  induction l as [|x l IH]; intros current Hs; simpl; [split_and!; [lia | lia | by apply not_elem_of_nil] |].
  apply StronglySorted_inv in Hs as [Hs Hx].
  case_match eqn:E1; [|case_match eqn:E2].
  - destruct (IH x Hs) as (A & B & C); split_and!; [lia | intros q Hq | rewrite not_elem_of_cons; split; [lia | done]].
    destruct (decide (q = x)) as [->|]; [left | right; apply B; lia].
  - split_and!; [lia | lia | rewrite not_elem_of_cons; split; [lia |]].
    intros Hin; rewrite Forall_forall in Hx; apply Hx in Hin; lia.
  - destruct (IH current Hs) as (A & B & C); split_and!; [done | intros q Hq; right; by apply B |].
    rewrite not_elem_of_cons; split; [lia | done].
Qed.

Lemma Z_leb_sorted l : StronglySorted (fun a b => Z.leb a b = true) (sort_by Z.leb l).
Proof. apply sort_by_sorted; intros; rewrite ?Z.leb_le in *; lia. Qed.

(** ** The sequences of a stream *)

Lemma elem_of_sequences {R} (keep : R -> bool) (f : R -> Z) (rows : gmap str R) q :
  q ∈ sequences_of keep f rows <-> exists id r, rows !! id = Some r /\ keep r = true /\ f r = q.
Proof.
  unfold sequences_of; rewrite elem_of_list_to_set, list_elem_of_fmap; split.
  - intros ([id r] & -> & H); apply elem_of_filter_bool in H as [H K]; apply elem_of_map_to_list in H; eauto.
  - intros (id & r & Hr & K & <-); exists (id, r); split; [done|].
    by apply elem_of_filter_bool; split; [apply elem_of_map_to_list |].
Qed.

(** A transaction whose statements leave some tables alone. *)
Ltac frame_txn :=
  unfold consume_intent, delete_intent, mark_capture_formation_dirty, mark_session_dirty, record_enrollment, violates, json_ok,
    check_upload_admission, require_capture_account, require_capture_admission, preflight, append_seal_event in *;
  keeps_by_shape; unfold same; try done; repeat case_match; done.

Section Ledger.
Context {Voice : Type} `{VoiceGraph Voice}.
Context (sha256 : bytes -> bytes) (codecs : Codec).
Implicit Types s : Store Voice.

Lemma elem_of_events q id s :
  q ∈ event_sequences id s <-> exists e row, capture_events s !! e = Some row /\ er_stream row = id /\ er_sequence row = q.
Proof. unfold event_sequences; rewrite elem_of_sequences; by setoid_rewrite str_eqb_eq. Qed.

Lemma elem_of_deleted q id s :
  q ∈ deleted_of id s <-> exists e row, deleted_sequences s !! e = Some row /\ dr_stream row = id /\ dr_sequence row = q.
Proof. unfold deleted_of; rewrite elem_of_sequences; by setoid_rewrite str_eqb_eq. Qed.

(** The tables acknowledgement is computed from. *)
Definition ledger s := (sessions s, streams s, capture_events s, deleted_sequences s, formation_installed s).

(** What no capture transaction changes. *)
Definition surroundings s := (account_status s, deleted_sequences s, formation_installed s, erasure s, pending_deletions s).

Lemma accepted_ledger id s s' : capture_events s' = capture_events s -> deleted_sequences s' = deleted_sequences s ->
  formation_installed s' = formation_installed s -> accepted_sequences id s' = accepted_sequences id s.
Proof. unfold accepted_sequences, event_sequences, deleted_of; by intros -> -> ->. Qed.

(** *** Frames *)

Lemma observation_frame {T} (f : Store Voice -> T) m :
  (forall g s, f (set_states g s) = f s) -> (forall g s, f (set_observations g s) = f s) ->
  keeps (same f) (insert_browser_observation codecs m).
Proof.
  intros Hs Ho; unfold insert_browser_observation, insert_browser_state, violates, json_ok; keeps_by_shape; unfold same; done.
Qed.

Lemma media_frame {T} (f : Store Voice -> T) c committed_ms :
  (forall g s, f (set_states g s) = f s) -> (forall g s, f (set_observations g s) = f s) -> (forall g s, f (set_media g s) = f s) ->
  (forall g s, f (set_authorities g s) = f s) -> (forall g s, f (set_jobs g s) = f s) -> (forall g s, f (set_outbox g s) = f s) ->
  forall now, keeps (same f) (insert_media codecs now c committed_ms).
Proof.
  intros Hs Ho Hm Ha Hj Hx now; unfold insert_media, insert_media_object, queue_media_job, violates, json_ok.
  keeps_by_shape; try by apply observation_frame; unfold same; done.
  all: unfold same; done.
Qed.

Lemma consume_intent_ledger c : keeps (same ledger) (consume_intent (Voice := Voice) c).
Proof. frame_txn. Qed.

Lemma dirty_ledger now ids : keeps (same ledger) (mark_capture_formation_dirty (Voice := Voice) now ids).
Proof. frame_txn. Qed.

Lemma enrollment_ledger c known : keeps (same ledger) (record_enrollment (Voice := Voice) c known).
Proof. frame_txn. Qed.

Lemma append_seal_ledger e : keeps (same ledger) (append_seal_event (Voice := Voice) sha256 codecs e).
Proof. frame_txn. Qed.

Lemma insert_media_ledger now c ms : keeps (same ledger) (insert_media codecs (Voice := Voice) now c ms).
Proof. by apply media_frame. Qed.

(** *** Effects on the ledger *)

Lemma check_upload_same now c : keeps eq (check_upload_admission (Voice := Voice) now c).
Proof.
  unfold check_upload_admission; keeps_by_shape.
Qed.

Lemma accepted_le_max q id s : q ∈ accepted_sequences id s -> q <= accepted_max id s.
Proof.
  intros Hq; assert (Hu : q ∈ elements (event_sequences id s ∪ deleted_of id s)).
  { apply elem_of_elements; unfold accepted_sequences in Hq; case_match; set_solver. }
  unfold accepted_max; destruct (max_Z _) as [x|] eqn:E; simpl; [by eapply max_Z_ge |].
  unfold max_Z in E; apply max_by_None in E; rewrite E in Hu; by apply not_elem_of_nil in Hu.
Qed.

Lemma elem_of_session_streams session s id row :
  (id, row) ∈ session_streams session s <-> streams s !! id = Some row /\ st_session row = session.
Proof.
  unfold session_streams, sort_by_key; by rewrite elem_of_sort_by, elem_of_filter_bool, elem_of_map_to_list, str_eqb_eq.
Qed.

Lemma plan_reopen_inv m admission s reopen :
  plan_reopen sha256 codecs m admission s = Ok (Some reopen) ->
  admission = LateSealReopen /\ current_finalized_seal sha256 codecs (capture_session_id m) s = Some (reopen_generation reopen)
  /\ sealed_stream_count reopen = Z.of_nat (length (session_streams (capture_session_id m) s))
  /\ forall id row, streams s !! id = Some row -> st_session row = capture_session_id m ->
     sealed_sequence row = Some (committed_through row) /\ committed_through row + 1 ∉ accepted_sequences id s.
Proof.
  unfold plan_reopen; case_bool_decide as Hd; [| done]; intros Hp; all_ok; injection Hp as <-.
  match goal with Hx : existsb _ _ = false |- _ => rewrite existsb_false in Hx; rename Hx into He end.
  split_and!; [done.. | intros id row Hr Hs].
  assert (Hb : negb (exact_boundary s (id, row)) = false) by (apply He; by apply elem_of_session_streams).
  apply negb_false_iff in Hb; unfold exact_boundary, some_and in Hb.
  destruct (sealed_sequence row) as [z|]; [| done].
  apply andb_prop in Hb as [Hb _]; apply andb_prop in Hb as [Hc Hm]; rewrite Z.eqb_eq in Hc, Hm.
  split; [by rewrite Hc | intros Hin; apply accepted_le_max in Hin; lia].
Qed.

(** The session row of an accepted event, and the store with it. *)
Definition session_after m s (row : SessionRow) : Prop :=
  match sessions s !! capture_session_id m with
  | Some old => cs_ended_ms row = cs_ended_ms old /\ session_mismatch m old s = false
  | None => cs_ended_ms row = None
  end.

Definition with_session m row s : Store Voice := set_sessions (insert (capture_session_id m) row) s.

Definition with_stream m s : Store Voice :=
  if bool_decide (is_Some (streams s !! stream_id m)) then s else set_streams (insert (stream_id m) (new_stream m)) s.

Lemma upsert_effect now m s reopen s' :
  upsert_session_and_stream sha256 codecs now m s = Ok (reopen, s') ->
  exists row admission, session_after m s row /\ s' = with_stream m (with_session m row s)
    /\ stream_admission_of sha256 codecs m (ended row) (with_session m row s) = Ok admission
    /\ plan_reopen sha256 codecs m admission (with_session m row s) = Ok reopen.
Proof.
  unfold upsert_session_and_stream; intros Hx.
  apply then_Ok in Hx as (started & ? & [? ->]%try_res_Ok & Hx).
  apply then_Ok in Hx as (last & ? & [? ->]%try_res_Ok & Hx).
  apply then_Ok in Hx as (was_ended & s1 & Hs & Hx).
  assert (Hrow : exists row, session_after m s row /\ s1 = with_session m row s /\ was_ended = ended row).
  { clear Hx; unfold upsert_session in Hs; unfold session_after, with_session; all_txn.
    destruct (sessions s !! capture_session_id m) as [old|] eqn:E; all_txn;
      [by exists (touch_session last old) | by exists (new_session now started last m)]. }
  destruct Hrow as (row & Ha & -> & ->); exists row; all_txn.
  eexists; split_and!; [done | | done | done].
  unfold with_stream; by case_bool_decide.
Qed.

Lemma insert_event_effect now c s s' u :
  insert_capture_event sha256 codecs now c s = Ok (u, s') ->
  exists asset r column wall started last, let row := event_row now c asset r column wall started last in
    s' = set_events (insert (event_id (manifest c)) row) s
    /\ capture_events s !! event_id (manifest c) = None
    /\ event_asset sha256 codecs c s = Ok (asset, r)
    /\ lower_hex_digest (to_ascii_lowercase (cc_manifest_digest c)) = true.
Proof.
  unfold insert_capture_event, violates, json_ok; intros Hx.
  apply then_Ok in Hx as (decision & ? & [-> ->]%select_Ok & Hx).
  apply then_Ok in Hx as ([asset r] & ? & [Ha ->]%try_res_Ok & Hx).
  apply then_Ok in Hx as (text & s1 & Ht & Hx).
  assert (s1 = s) as -> by (destruct (context (manifest c)); all_txn; done).
  all_txn.
  match goal with Hj : match text with _ => _ end _ = Ok (?j, ?s2) |- _ => rename Hj into Hcol; assert (s2 = s) as -> by (clear -Hcol; destruct text; all_txn; done) end.
  match goal with Hr : event_row_refused _ _ _ = false |- _ => rename Hr into Hb end.
  unfold event_row_refused in Hb; rewrite !orb_false_iff in Hb; destruct Hb as [[Hb _] Hd].
  apply bool_decide_eq_false in Hb; apply eq_None_not_Some in Hb; apply negb_false_iff in Hd.
  do 6 eexists; split_and!; [reflexivity | done | done | done].
Qed.

(** ** The invariant *)

(** A stream's acknowledgement against what the stream accepted: everything
    up to it is accepted, it never passes the seal, and the next sequence is
    accepted only beyond a seal. *)
Definition acknowledged (accepted : gset Z) (row : StreamRow) : Prop :=
  -1 <= committed_through row
  /\ (forall q, 0 <= q <= committed_through row -> q ∈ accepted)
  /\ (forall z, sealed_sequence row = Some z -> committed_through row <= z).

Definition maximal (accepted : gset Z) (row : StreamRow) : Prop :=
  committed_through row + 1 ∈ accepted -> sealed_sequence row = Some (committed_through row).

(** Within a transaction the acknowledgement of one stream may lag. *)
Record ledger_inv (exempt : option str) s : Prop := {
  streams_acknowledged : forall id row, streams s !! id = Some row -> acknowledged (accepted_sequences id s) row;
  streams_maximal : forall id row, streams s !! id = Some row -> exempt <> Some id -> maximal (accepted_sequences id s) row;
  streams_in_sessions : forall id row, streams s !! id = Some row ->
    exists session, sessions s !! st_session row = Some session /\ (cs_ended_ms session = None -> sealed_sequence row = None);
  events_in_streams : forall e row, capture_events s !! e = Some row ->
    0 <= er_sequence row
    /\ exists stream, streams s !! er_stream row = Some stream /\ st_device_id stream = er_device_id row /\ st_session stream = er_session row;
  deleted_in_streams : forall e row, deleted_sequences s !! e = Some row ->
    0 <= dr_sequence row /\ is_Some (streams s !! dr_stream row);
  references_grounded : forall e row r, capture_events s !! e = Some row -> er_reference row = Some r ->
    er_disposition row = Reference
    /\ exists target, capture_events s !! canonical_event_id r = Some target /\ er_disposition target = Canonical
       /\ er_reference target = None
       /\ er_stream target = er_stream row /\ er_session target = er_session row /\ er_device_id target = er_device_id row
       /\ er_sequence target < er_sequence row
}.

Definition ledger_ok : Store Voice -> Prop := ledger_inv None.

Lemma acknowledged_mono a b row : a ⊆ b -> acknowledged a row -> acknowledged b row.
Proof. intros Hab (A & B & C); split_and!; [done | intros q Hq; by apply Hab, B | done]. Qed.

Lemma no_sequences exempt id s : ledger_inv exempt s -> streams s !! id = None -> accepted_sequences id s = ∅.
Proof.
  intros Hok Hn; apply elem_of_equiv_empty_L; intros q Hq.
  assert (Hu : q ∈ event_sequences id s \/ q ∈ deleted_of id s) by (unfold accepted_sequences in Hq; case_match; set_solver).
  destruct Hu as [(e & row & He & <- & <-)%elem_of_events | (e & row & He & <- & <-)%elem_of_deleted].
  - destruct (events_in_streams _ _ Hok _ _ He) as (_ & stream & Hs & _); congruence.
  - destruct (deleted_in_streams _ _ Hok _ _ He) as (_ & stream & Hs); congruence.
Qed.

Lemma accepted_nonneg exempt id s q : ledger_inv exempt s -> q ∈ accepted_sequences id s -> 0 <= q.
Proof.
  intros Hok Hq.
  assert (Hu : q ∈ event_sequences id s \/ q ∈ deleted_of id s) by (unfold accepted_sequences in Hq; case_match; set_solver).
  destruct Hu as [(e & row & He & <- & <-)%elem_of_events | (e & row & He & <- & <-)%elem_of_deleted].
  - by apply (events_in_streams _ _ Hok) in He as [? _].
  - by apply (deleted_in_streams _ _ Hok) in He as [? _].
Qed.

Lemma ledger_inv_same exempt s s' : same ledger s s' -> ledger_inv exempt s -> ledger_inv exempt s'.
Proof.
  unfold same, ledger; intros [= Hs Ht He Hd Hi] [A A' B C D E].
  assert (Hacc : forall id, accepted_sequences id s' = accepted_sequences id s) by (intros id; by apply accepted_ledger).
  split; intros *; rewrite ?Hacc, ?Hs, ?Ht, ?He, ?Hd; eauto.
Qed.

(** *** The invariant along a commit *)

Lemma session_inv exempt m row s :
  ledger_inv exempt s -> session_after m s row -> ledger_inv exempt (with_session m row s).
Proof.
  intros Hok Ha; destruct Hok as [A A' B C D E]; split; try done; simpl.
  intros id stream Hs; destruct (B id stream Hs) as (session & Hl & Hu).
  unfold session_after in Ha.
  destruct (decide (st_session stream = capture_session_id m)) as [Heq|Hne].
  - rewrite Heq in *; rewrite lookup_insert_eq; rewrite Hl in Ha; destruct Ha as [Ha _].
    exists row; split; [done | by rewrite Ha].
  - rewrite lookup_insert_ne by done; eauto.
Qed.

Lemma stream_inv m s row :
  ledger_ok s -> sessions s !! capture_session_id m = Some row -> ledger_ok (with_stream m s).
Proof.
  intros Hok Hrow; unfold with_stream; case_bool_decide as Hd; [done |].
  apply eq_None_not_Some in Hd; assert (Hn := no_sequences _ _ _ Hok Hd).
  destruct Hok as [A A' B C D E].
  assert (Hacc : forall id g, accepted_sequences id (set_streams g s) = accepted_sequences id s) by done.
  split; simpl.
  - intros id stream; rewrite lookup_insert_Some; intros [[<- <-]|[_ Hs]]; rewrite Hacc; [| eauto].
    rewrite Hn; split_and!; simpl; [lia | lia | done].
  - intros id stream; rewrite lookup_insert_Some; intros [[<- <-]|[_ Hs]]; rewrite Hacc; [| eauto].
    rewrite Hn; intros _ Hin; set_solver.
  - intros id stream; rewrite lookup_insert_Some; intros [[<- <-]|[_ Hs]]; [| eauto].
    exists row; split; [done | by simpl].
  - intros e r Hr; destruct (C e r Hr) as (Hq & st & Hst & Hdev & Hses); split; [done |].
    exists st; split_and!; [| done..]; rewrite lookup_insert_ne; [done | congruence].
  - intros e r Hr; destruct (D e r Hr) as (Hq & Hst); split; [done |].
    rewrite lookup_insert_is_Some'; by right.
  - done.
Qed.

(** What a new event adds to the accepted sequences. *)
Lemma elem_of_events_insert e row s id q :
  capture_events s !! e = None ->
  q ∈ event_sequences id (set_events (insert e row) s)
  <-> (id = er_stream row /\ q = er_sequence row) \/ q ∈ event_sequences id s.
Proof.
  intros Hn; rewrite !elem_of_events; simpl; split.
  - intros (e' & r & Hr & <- & <-); apply lookup_insert_Some in Hr as [[<- <-]|[_ Hr]]; [by left | right; eauto].
  - intros [[-> ->]|(e' & r & Hr & <- & <-)]; [exists e, row; by rewrite lookup_insert_eq |].
    exists e', r; rewrite lookup_insert_ne; [done | congruence].
Qed.

Lemma accepted_insert_sub e row s :
  capture_events s !! e = None -> forall id, accepted_sequences id s ⊆ accepted_sequences id (set_events (insert e row) s).
Proof.
  intros Hn id q; unfold accepted_sequences; simpl; case_match; rewrite ?elem_of_union, ?elem_of_events_insert by done; tauto.
Qed.

Lemma accepted_insert_ne e row s :
  capture_events s !! e = None -> forall id, id <> er_stream row ->
  accepted_sequences id (set_events (insert e row) s) = accepted_sequences id s.
Proof.
  intros Hn id Hne; apply set_eq; intros q; unfold accepted_sequences; simpl; case_match;
    rewrite ?elem_of_union, ?elem_of_events_insert by done; tauto.
Qed.

Lemma with_stream_frame m s :
  capture_events (with_stream m s) = capture_events s /\ deleted_sequences (with_stream m s) = deleted_sequences s
  /\ formation_installed (with_stream m s) = formation_installed s
  /\ forall id, id <> stream_id m -> streams (with_stream m s) !! id = streams s !! id.
Proof. unfold with_stream; case_bool_decide; split_and!; try done; simpl; intros id Hne; by rewrite lookup_insert_ne. Qed.

(** A new event of an existing stream. *)
Lemma event_inv e row s :
  ledger_ok s -> capture_events s !! e = None -> 0 <= er_sequence row ->
  (exists stream, streams s !! er_stream row = Some stream /\ st_device_id stream = er_device_id row /\ st_session stream = er_session row) ->
  (forall r, er_reference row = Some r -> er_disposition row = Reference
    /\ exists target, capture_events s !! canonical_event_id r = Some target /\ er_disposition target = Canonical
       /\ er_stream target = er_stream row /\ er_session target = er_session row /\ er_device_id target = er_device_id row
       /\ er_sequence target < er_sequence row) ->
  ledger_inv (Some (er_stream row)) (set_events (insert e row) s).
Proof.
  intros Hok Hn Hq Hst Href.
  assert (Hsub := accepted_insert_sub e row s Hn); assert (Heq := accepted_insert_ne e row s Hn).
  destruct Hok as [A A' B C D E]; split; simpl.
  - intros id stream Hs; eapply acknowledged_mono; [apply Hsub | eauto].
  - intros id stream Hs Hne; rewrite Heq by congruence; by apply A'.
  - done.
  - intros e' r; rewrite lookup_insert_Some; intros [[<- <-]|[_ Hr]]; [done | eauto].
  - done.
  - intros e' r d; rewrite lookup_insert_Some; intros [[<- <-]|[_ Hr]] Hd.
    + destruct (Href d Hd) as (Hdis & t & Ht & Hcan & Hrest); split; [done |].
      exists t; split_and!; try tauto; [rewrite lookup_insert_ne; [done | congruence] |].
      destruct (er_reference t) as [d'|] eqn:Hd'; [| done].
      destruct (E _ _ _ Ht Hd') as [Hbad _]; congruence.
    + destruct (E _ _ _ Hr Hd) as (Hdis & t & Ht & Hrest); split; [done |].
      exists t; split; [rewrite lookup_insert_ne; [done | congruence] | done].
Qed.

(** [advance_ack] moves one stream to the end of what it accepted. *)
Lemma advance_effect id s ack s' :
  advance_ack id s = Ok (ack, s') ->
  exists row, streams s !! id = Some row
    /\ ack = contiguous_ack (committed_through row) (pending_sequences id row s)
    /\ s' = (if committed_through row <? ack then set_streams (insert id (acknowledge ack row)) s else s).
Proof. unfold advance_ack; intros Hx; all_txn; all_ok; eauto. Qed.

Lemma elem_of_pending id row s q :
  q ∈ pending_sequences id row s
  <-> q ∈ accepted_sequences id s /\ committed_through row < q /\ (forall z, sealed_sequence row = Some z -> q <= z).
Proof.
  unfold pending_sequences; rewrite elem_of_sort_by, elem_of_filter_bool, elem_of_elements, andb_true_iff, Z.ltb_lt.
  destruct (sealed_sequence row) as [z|]; [rewrite Z.leb_le | split; [by intros (? & ? & _) | by intros (? & ? & _)]].
  split; [intros (? & ? & ?); split_and!; [done.. | by intros ? [= <-]] | intros (? & ? & Hz); split_and!; [done.. | by apply Hz]].
Qed.

Lemma advance_inv id s ack s' :
  ledger_inv (Some id) s -> advance_ack id s = Ok (ack, s') ->
  ledger_ok s' /\ exists row, streams s' !! id = Some row /\ committed_through row = ack.
Proof.
  intros Hok Hx; destruct (advance_effect _ _ _ _ Hx) as (row & Hrow & -> & ->); clear Hx.
  destruct (contiguous_ack_spec _ (committed_through row) (Z_leb_sorted
    (List.filter (fun q => (committed_through row <? q)
       && match sealed_sequence row with Some sealed => q <=? sealed | None => true end) (elements (accepted_sequences id s)))))
    as (Hle & Hall & Hnext); fold (pending_sequences id row s) in Hle, Hall, Hnext.
  set (reached := contiguous_ack _ _) in *.
  destruct (streams_acknowledged _ _ Hok _ _ Hrow) as (Hlo & Hpre & Hseal).
  assert (Hack : acknowledged (accepted_sequences id s) (acknowledge reached row)).
  { split_and!; simpl; [lia | |].
    - intros q Hq; destruct (decide (q <= committed_through row)); [apply Hpre; lia |].
      assert (Hin : q ∈ pending_sequences id row s) by (apply Hall; lia); by apply elem_of_pending in Hin as [? _].
    - intros z Hz; destruct (decide (reached = committed_through row)) as [->|Hne]; [by apply Hseal |].
      assert (Hin : reached ∈ pending_sequences id row s) by (apply Hall; lia).
      apply elem_of_pending in Hin as (_ & _ & Hz'); by apply Hz'. }
  assert (Hmax : maximal (accepted_sequences id s) (acknowledge reached row)).
  { intros Hin; simpl in *; destruct (sealed_sequence row) as [z|] eqn:Ez.
    - destruct Hack as (_ & _ & Hz); specialize (Hz z Ez); simpl in Hz; f_equal.
      destruct (decide (reached + 1 <= z)); [| lia]; destruct Hnext; apply elem_of_pending; split_and!; [done | lia |].
      intros z'; rewrite Ez; by intros [= <-].
    - destruct Hnext; apply elem_of_pending; split_and!; [done | lia | by rewrite Ez]. }
  destruct Hok as [A A' B C D E].
  case_match eqn:Elt.
  - split; [| exists (acknowledge reached row); split; [simpl; by rewrite lookup_insert_eq | done]].
    split; simpl; try done.
    + intros id' r; rewrite lookup_insert_Some; intros [[<- <-]|[_ Hr]]; [done | by apply A].
    + intros id' r; rewrite lookup_insert_Some; intros [[<- <-]|[Hne Hr]] _; [done | apply A'; [done | congruence]].
    + intros id' r; rewrite lookup_insert_Some; intros [[<- <-]|[_ Hr]]; simpl; eauto.
    + intros e r Hr; destruct (C e r Hr) as (Hq & st & Hst & Hdev & Hses); split; [done |].
      destruct (decide (er_stream r = id)) as [<-|Hne].
      * exists (acknowledge reached row); rewrite lookup_insert_eq; simpl; split; [done |]; by simplify_eq.
      * exists st; by rewrite lookup_insert_ne.
    + intros e r Hr; destruct (D e r Hr) as (Hq & Hst); split; [done |].
      rewrite lookup_insert_is_Some'; by right.
  - apply Z.ltb_ge in Elt; assert (Heq : reached = committed_through row) by lia.
    split; [| exists row; by split].
    split; try done; intros id' r Hr _; destruct (decide (id' = id)) as [->|Hne]; [| apply A'; [done | congruence]].
    simplify_eq; revert Hmax; unfold maximal; simpl; by rewrite Heq.
Qed.

(** Clearing the seals of a session whose other streams accepted nothing
    past their acknowledgement. *)
Lemma unseal_inv session id s :
  ledger_ok s ->
  (forall id' row, id' <> id -> streams s !! id' = Some row -> st_session row = session ->
     committed_through row + 1 ∉ accepted_sequences id' s) ->
  ledger_inv (Some id) (set_streams (fmap (unseal session)) s).
Proof.
  intros [A A' B C D E] Hother.
  assert (Hu : forall row, committed_through (unseal session row) = committed_through row /\ st_session (unseal session row) = st_session row
    /\ st_device_id (unseal session row) = st_device_id row
    /\ (sealed_sequence (unseal session row) = None \/ sealed_sequence (unseal session row) = sealed_sequence row /\ st_session row <> session)).
  { intros row; unfold unseal; case_match eqn:Es; simpl; [split_and!; by auto |].
    split_and!; [done.. | right; split; [done |]; intros Heq; by apply str_eqb_eq in Heq; congruence]. }
  split; simpl; try done.
  - intros id' r; rewrite lookup_fmap; intros (row & Hr & ->)%fmap_Some; destruct (A id' row Hr) as (X & Y & Z).
    destruct (Hu row) as (Hc & _ & _ & Hs).
    split_and!; rewrite ?Hc; [done.. | intros z Hz; apply Z; destruct Hs as [Hs|[Hs _]]; congruence].
  - intros id' r; rewrite lookup_fmap; intros (row & Hr & ->)%fmap_Some Hne.
    destruct (Hu row) as (Hc & _ & _ & Hs); unfold maximal; rewrite Hc; intros Hin.
    assert (Hmax := A' id' row Hr ltac:(done) Hin).
    destruct Hs as [Hs|[Hs _]]; [| by rewrite Hs].
    exfalso; unfold unseal in Hs; case_match eqn:Es; [| congruence].
    apply str_eqb_eq in Es; apply (Hother id' row); [congruence | done..].
  - intros id' r; rewrite lookup_fmap; intros (row & Hr & ->)%fmap_Some.
    destruct (Hu row) as (_ & Hses & _ & Hs); rewrite Hses; destruct (B id' row Hr) as (ses & Hl & Hopen).
    exists ses; split; [done | intros Hn; specialize (Hopen Hn)]; destruct Hs as [Hs|[Hs _]]; congruence.
  - intros e r Hr; destruct (C e r Hr) as (Hq & st & Hst & Hdev & Hses); split; [done |].
    exists (unseal session st); rewrite lookup_fmap, Hst; destruct (Hu st) as (_ & Hs1 & Hs2 & _); split_and!; [done | congruence | congruence].
  - intros e r Hr; destruct (D e r Hr) as (Hq & [st Hst]); split; [done |]; rewrite lookup_fmap, Hst; by eexists.
Qed.

Lemma end_session_inv exempt session at_ms row s :
  ledger_inv exempt s -> sessions s !! session = Some row ->
  ledger_inv exempt (set_sessions (insert session (end_session at_ms row)) s).
Proof.
  intros [A A' B C D E] Hrow; split; try done; simpl.
  intros id st Hs; destruct (B id st Hs) as (ses & Hl & Hopen).
  destruct (decide (st_session st = session)) as [<-|Hne]; [| by exists ses; rewrite lookup_insert_ne].
  exists (end_session at_ms row); by rewrite lookup_insert_eq.
Qed.

(** *** The steps of a commit *)

Lemma reopen_ledger now session trigger r s u s' :
  record_capture_seal_reopen sha256 codecs now session trigger r s = Ok (u, s') ->
  ledger s' = ledger (set_streams (fmap (unseal session)) s).
Proof. unfold record_capture_seal_reopen, append_seal_event, violates; intros Hx; all_txn; done. Qed.

Lemma acknowledge_inv now c reopen s ack s' :
  ledger_inv (Some (stream_id (manifest c))) s ->
  (forall r id row, reopen = Some r -> id <> stream_id (manifest c) -> streams s !! id = Some row ->
     st_session row = capture_session_id (manifest c) -> committed_through row + 1 ∉ accepted_sequences id s) ->
  acknowledge_event sha256 codecs now c reopen s = Ok (ack, s') ->
  ledger_ok s' /\ exists row, streams s' !! stream_id (manifest c) = Some row /\ committed_through row = ack.
Proof.
  intros Hok Hother Hx; unfold acknowledge_event in Hx.
  apply then_Ok in Hx as (first & s1 & H1 & Hx); apply then_Ok in Hx as (u & s2 & H2 & Hx).
  apply dirty_ledger in H2; destruct (advance_effect _ _ _ _ H1) as (row0 & Hrow0 & _ & He1).
  apply advance_inv in H1 as [Hok1 Hrow]; [| done].
  assert (Hst : streams s2 = streams s1) by (unfold same, ledger in H2; congruence).
  apply ledger_inv_same with (1 := H2) in Hok1.
  destruct reopen as [r|]; [| apply commits_Ok in Hx as [-> ->]; by rewrite Hst].
  apply then_Ok in Hx as (u' & s3 & H3 & Hx); apply reopen_ledger in H3.
  eapply advance_inv; [| exact Hx]; eapply ledger_inv_same; [exact H3 |].
  apply unseal_inv; [done |]; intros id row Hne Hr Hs.
  assert (Ha : forall g, accepted_sequences id (set_streams g s) = accepted_sequences id s) by done.
  assert (Hs1 : streams s1 !! id = streams s !! id /\ accepted_sequences id s1 = accepted_sequences id s).
  { subst s1; case_match; split; try done; simpl; by rewrite lookup_insert_ne. }
  rewrite Hst in Hr; unfold same, ledger in H2; injection H2 as _ _ Hev Hdel Hin.
  rewrite (accepted_ledger id s1 s2) by done; destruct Hs1 as [Hl ->]; rewrite Hl in Hr; by eapply Hother.
Qed.

Lemma finish_inv now exempt session at_ms provenance s u s' :
  ledger_inv exempt s -> record_provisional_finish now session at_ms provenance s = Ok (u, s') ->
  ledger_inv exempt s' /\ streams s' = streams s /\ capture_events s' = capture_events s.
Proof.
  intros Hok Hx; unfold record_provisional_finish in Hx; all_txn; all_ok.
  match goal with Hr : sessions s !! session = Some ?row |- _ => apply (end_session_inv exempt session (default now at_ms) row) in Hr; [| done] end.
  case_match; all_txn; split; [eapply ledger_inv_same; [| eassumption] | | |]; done.
Qed.

Lemma finish_if_marked_inv now c s u s' :
  ledger_ok s -> finish_if_marked now c s = Ok (u, s') ->
  ledger_ok s' /\ streams s' = streams s /\ capture_events s' = capture_events s.
Proof.
  intros Hok Hx; unfold finish_if_marked in Hx; case_match; all_txn; [by eapply finish_inv | done].
Qed.

Lemma validate_sequence m : validate sha256 m = Ok tt -> 0 <= sequence m.
Proof. unfold validate; intros Hv; all_ok; by apply Z.ltb_ge. Qed.

(** What a reference's commit found at its target. *)
Definition grounded c (r : ScreenReferenceDescriptor) (target : EventRow) (object : MediaRow) : Prop :=
  let m := manifest c in
  er_disposition target = Canonical /\ er_device_id target = device_id m /\ er_install_id target = install_id m
  /\ er_session target = capture_session_id m /\ er_stream target = stream_id m /\ er_sequence target < sequence m
  /\ asset_id (mr_media object) = canonical_asset_id r
  /\ eq_ignore_ascii_case (md_sha256 (mr_media object)) (canonical_media_sha256 r) = true.

Lemma check_reference_inv c s r :
  check_reference sha256 codecs c s = Ok r ->
  reference (manifest c) = Some r
  /\ exists target object, capture_events s !! canonical_event_id r = Some target
     /\ media_objects s !! canonical_event_id r = Some object /\ grounded c r target object
     /\ exists raw ctx ctx', er_context_json target = Some raw /\ context_of_text codecs raw = Some ctx
        /\ context (manifest c) = Some ctx'
        /\ value_eqb (semantic_context_value ctx (dedupe_version r)) (semantic_context_value ctx' (dedupe_version r)) = true.
Proof.
  unfold check_reference; intros Hx; all_ok.
  repeat case_match; all_ok; [| done..]; simplify_eq.
  match goal with Ht : target_mismatch _ _ _ _ = false |- _ => rename Ht into Hm end.
  unfold target_mismatch in Hm; rewrite !orb_false_iff, !negb_false_iff, !str_eqb_eq, bool_decide_eq_true, Z.leb_gt in Hm.
  split; [done |]; do 2 eexists; split_and!; [done | done | unfold grounded; tauto | eauto 10].
Qed.

Lemma event_asset_inv c s asset r :
  event_asset sha256 codecs c s = Ok (asset, Some r) ->
  media_disposition (manifest c) = Reference /\ check_reference sha256 codecs c s = Ok r.
Proof. unfold event_asset; case_match; intros Hx; all_ok; by simplify_eq. Qed.

(** The stream of an accepted event is the session's and the device's. *)
Lemma stream_scope m row was_ended s admission :
  stream_admission_of sha256 codecs m was_ended (with_session m row s) = Ok admission ->
  exists stream, streams (with_stream m (with_session m row s)) !! stream_id m = Some stream
    /\ st_session stream = capture_session_id m /\ st_device_id stream = device_id m
    /\ (forall old, streams s !! stream_id m = Some old -> stream = old).
Proof.
  unfold stream_admission_of, with_stream; simpl; destruct (streams s !! stream_id m) as [stream|] eqn:Hs.
  - intros Hx; exists stream; rewrite (bool_decide_true (is_Some (Some stream))) by (by eexists); all_ok.
    match goal with Hm : stream_mismatch _ _ = false |- _ => rename Hm into Hmis end.
    unfold stream_mismatch in Hmis; rewrite !orb_false_iff, !negb_false_iff, !str_eqb_eq in Hmis; destruct Hmis as [[? ?] _].
    split_and!; [done.. | congruence].
  - intros _; rewrite (bool_decide_false (is_Some None)) by (by intros []); exists (new_stream m); simpl; by rewrite lookup_insert_eq.
Qed.

(** The phases of the commit of a new event, with the stores between them. *)
Inductive phases now c s (result : CaptureCommitResult) s' : Prop :=
| Phases row admission reopen asset r column wall started last ms known ack s3 s4 s5 s6 :
    let m := manifest c in
    let s1 := with_stream m (with_session m row s) in
    let s2 := set_events (insert (event_id m) (event_row now c asset r column wall started last)) s1 in
    session_after m s row ->
    stream_admission_of sha256 codecs m (ended row) (with_session m row s) = Ok admission ->
    plan_reopen sha256 codecs m admission (with_session m row s) = Ok reopen ->
    capture_events s1 !! event_id m = None ->
    event_asset sha256 codecs c s1 = Ok (asset, r) ->
    insert_media codecs now c ms s2 = Ok (tt, s3) ->
    consume_intent c s3 = Ok (tt, s4) ->
    acknowledge_event sha256 codecs now c reopen s4 = Ok (ack, s5) ->
    finish_if_marked now c s5 = Ok (tt, s6) ->
    record_enrollment c known s6 = Ok (tt, s') ->
    result = {| duplicate := false; committed_through_sequence := ack |} ->
    phases now c s result s'.

Lemma insert_new_event_phases now c s result s' :
  insert_new_event sha256 codecs now c s = Ok (result, s') -> phases now c s result s'.
Proof.
  intros Hx; unfold insert_new_event in Hx.
  apply then_Ok in Hx as (u0 & s0 & H0 & Hx); apply check_upload_same in H0; subst s0.
  apply then_Ok in Hx as (ms & ? & [_ ->]%try_res_Ok & Hx).
  apply then_Ok in Hx as (known & ? & [_ ->]%select_Ok & Hx).
  apply then_Ok in Hx as (reopen & s1 & H1 & Hx).
  destruct (upsert_effect _ _ _ _ _ H1) as (row & admission & Hrow & -> & Hadm & Hplan); clear H1.
  apply then_Ok in Hx as (used & ? & [_ ->]%select_Ok & Hx); apply then_Ok in Hx as (u1 & ? & [_ ->]%abort_if_Ok & Hx).
  apply then_Ok in Hx as (u2 & s2 & H2 & Hx).
  destruct (insert_event_effect _ _ _ _ _ H2) as (asset & r & column & wall & started & last & -> & Hn & Has & _); clear H2.
  apply then_Ok in Hx as ([] & s3 & H3 & Hx); apply then_Ok in Hx as ([] & s4 & H4 & Hx).
  apply then_Ok in Hx as (ack & s5 & H5 & Hx); apply then_Ok in Hx as ([] & s6 & H6 & Hx).
  apply then_Ok in Hx as ([] & s7 & H7 & Hx); apply commits_Ok in Hx as [-> ->].
  by eapply Phases.
Qed.

(** The ledger once the event is in, before it is acknowledged. *)
Lemma new_event_inv now c s row admission asset r column wall started last :
  let m := manifest c in
  let s1 := with_stream m (with_session m row s) in
  ledger_ok s -> validate sha256 m = Ok tt -> session_after m s row ->
  stream_admission_of sha256 codecs m (ended row) (with_session m row s) = Ok admission ->
  capture_events s1 !! event_id m = None -> event_asset sha256 codecs c s1 = Ok (asset, r) ->
  ledger_inv (Some (stream_id m)) (set_events (insert (event_id m) (event_row now c asset r column wall started last)) s1).
Proof.
  intros m s1 Hok Hv Hrow Hadm Hn Has.
  destruct (stream_scope _ _ _ _ _ Hadm) as (stream & Hst & Hses & Hdev & _).
  assert (Hok1 : ledger_ok s1) by (eapply stream_inv; [by apply session_inv | apply lookup_insert_eq]).
  apply (event_inv (event_id m) (event_row now c asset r column wall started last) s1);
    [done | done | by apply validate_sequence | by exists stream |].
  intros d; simpl; destruct r as [r|]; [| done]; intros [= <-].
  apply event_asset_inv in Has as [Hdis Hch]; split; [done |].
  apply check_reference_inv in Hch as (_ & target & object & Ht & _ & Hg & _); unfold grounded in Hg.
  exists target; simpl; intuition congruence.
Qed.

(** The other streams of a session to reopen accepted nothing more. *)
Lemma others_exact now c s row admission reopen asset r column wall started last id other :
  let m := manifest c in
  let s1 := with_stream m (with_session m row s) in
  let s2 := set_events (insert (event_id m) (event_row now c asset r column wall started last)) s1 in
  plan_reopen sha256 codecs m admission (with_session m row s) = Ok (Some reopen) -> capture_events s1 !! event_id m = None ->
  id <> stream_id m -> streams s2 !! id = Some other -> st_session other = capture_session_id m ->
  committed_through other + 1 ∉ accepted_sequences id s2.
Proof.
  intros m s1 s2 Hplan Hn Hne Hr Hs; apply plan_reopen_inv in Hplan as (_ & _ & _ & Hexact).
  destruct (with_stream_frame m (with_session m row s)) as (Hev & Hdel & Hin & Hst); fold s1 in Hev, Hdel, Hin, Hst.
  subst s2; rewrite accepted_insert_ne by done; rewrite (accepted_ledger id (with_session m row s) s1 Hev Hdel Hin).
  apply (Hexact id other); [| done]; by rewrite <- Hst.
Qed.

(** The commit of a new event keeps the invariant, and answers what the
    stream then acknowledges. *)
Lemma insert_new_event_inv now c s result s' :
  ledger_ok s -> validate sha256 (manifest c) = Ok tt -> insert_new_event sha256 codecs now c s = Ok (result, s') ->
  ledger_ok s'
  /\ exists stream, streams s' !! stream_id (manifest c) = Some stream /\ committed_through stream = committed_through_sequence result.
Proof.
  intros Hok Hv Hx; apply insert_new_event_phases in Hx as [row admission reopen asset r column wall started last
    ms known ack s3 s4 s5 s6 m s1 s2 Hrow Hadm Hplan Hn Has H3 H4 H5 H6 H7 ->].
  assert (Hok2 : ledger_inv (Some (stream_id m)) s2) by (by eapply new_event_inv).
  apply insert_media_ledger in H3; apply consume_intent_ledger in H4.
  assert (H24 : same ledger s2 s4) by (by transitivity s3).
  assert (Hst : streams s4 = streams s2) by (unfold same, ledger in H24; congruence).
  assert (Hacc : forall id, accepted_sequences id s4 = accepted_sequences id s2)
    by (intros id; unfold same, ledger in H24; rewrite !pair_equal_spec in H24; destruct H24 as [[[_ He] Hd] Hi]; by apply accepted_ledger).
  apply acknowledge_inv in H5 as (Hok5 & row5 & Hrow5 & Hack);
    [| by eapply ledger_inv_same | intros rp id other -> Hne Hr Hs; rewrite Hacc; rewrite Hst in Hr; by eapply others_exact].
  apply finish_if_marked_inv in H6 as (Hok6 & Hst6 & _); [| done]; apply enrollment_ledger in H7.
  split; [by eapply ledger_inv_same |]; exists row5; split; [| done]; unfold same, ledger in H7; congruence.
Qed.

Lemma preflight_same m digest allowed : keeps eq (preflight (Voice := Voice) sha256 codecs m digest allowed).
Proof. unfold preflight, require_capture_admission; keeps_by_shape. Qed.

Lemma preserves_same {A} (m : txn (Store Voice) A) : keeps (same ledger) m -> preserves ledger_ok m.
Proof. intros Hm s a s' Hx; by eapply ledger_inv_same, Hm. Qed.

Lemma insert_event_preserves now c : preserves ledger_ok (insert_event sha256 codecs now c).
Proof.
  intros s result s' Hx Hok; unfold insert_event in Hx.
  apply then_Ok in Hx as ([] & ? & [Hv ->]%try_res_Ok & Hx); apply then_Ok in Hx as (answer & s1 & H1 & Hx).
  apply preflight_same in H1 as <-; destruct answer as [|ack]; [by eapply insert_new_event_inv in Hx as [? _] | by all_txn].
Qed.

Lemma preserves_then {A B} P (m : txn (Store Voice) A) (k : A -> txn (Store Voice) B) :
  preserves P m -> (forall a, preserves P (k a)) -> preserves P (then_ m k).
Proof. apply keeps_then; tc_solve. Qed.

Lemma commit_event_preserves now c : preserves ledger_ok (commit_event sha256 codecs now c).
Proof.
  apply preserves_then; [apply preserves_same; frame_txn | intros _].
  apply preserves_then; [apply insert_event_preserves | intros result].
  apply preserves_same; frame_txn.
Qed.

Lemma batch_items_preserves now command l : forall index so_far,
  preserves ledger_ok (commit_batch_items sha256 codecs now command index l so_far).
Proof.
  induction l as [|[m digest] l IH]; intros index so_far; [by apply keeps_commits; tc_solve |].
  apply preserves_then; [| intros result; apply IH].
  intros s a s' Hx; unfold located in Hx; case_match; [| done]; simplify_eq; by eapply insert_event_preserves.
Qed.

Lemma commit_reference_batch_preserves now command : preserves ledger_ok (commit_reference_batch sha256 codecs now command).
Proof.
  apply preserves_then; [apply preserves_same; frame_txn | intros _].
  apply preserves_then; [apply preserves_same; frame_txn | intros _].
  apply preserves_then; [apply preserves_same; unfold admit_batch_event; frame_txn | intros _].
  apply batch_items_preserves.
Qed.

Lemma finish_session_preserves now session : preserves ledger_ok (finish_session (Voice := Voice) now session).
Proof.
  unfold finish_session; repeat (apply preserves_then; [apply preserves_same; frame_txn | intros ?]).
  case_match; [| by apply keeps_commits; tc_solve].
  repeat (apply preserves_then; [apply preserves_same; frame_txn | intros ?]).
  apply preserves_then; [| intros _; by apply keeps_commits; tc_solve].
  intros store u store' Hx Hok; by eapply finish_inv.
Qed.

(** *** The sealer *)

(** The streams being sealed belong to one ended session. *)
Definition sealing session row0 (observed : list (str * StreamRow * Z * Z)) s : Prop :=
  ledger_ok s /\ sessions s !! session = Some row0 /\ ended row0 = true
  /\ forall o row, o ∈ observed -> streams s !! o.1.1.1 = Some row -> st_session row = session.

(** A sealed stream: its seal is what it has committed and all it accepted. *)
Lemma seal_stream_effect o s u s' :
  seal_stream (Voice := Voice) o s = Ok (u, s') ->
  exists row, streams s !! o.1.1.1 = Some row /\ s' = set_streams (insert o.1.1.1 (seal_at (committed_through row) row)) s
    /\ accepted_max o.1.1.1 s = committed_through row /\ contiguous_through o.1.1.1 s = committed_through row.
Proof.
  destruct o as [[[id row] maximum] contiguous]; simpl; intros Hx; all_txn; case_match eqn:Hlive; all_txn.
  repeat match goal with Hn : negb _ = false |- _ => apply negb_false_iff in Hn end.
  repeat match goal with Hn : _ && _ = true |- _ => apply andb_prop in Hn as [? ?] end.
  rewrite Z.eqb_eq in *; subst; eexists; split_and!; [done | f_equal; congruence | congruence | congruence].
Qed.

Lemma seal_stream_preserves session row0 observed o :
  o ∈ observed -> preserves (sealing session row0 observed) (seal_stream (Voice := Voice) o).
Proof.
  intros Ho s u s' Hx (Hok & Hses & Hend & Hst).
  destruct (seal_stream_effect _ _ _ _ Hx) as (live & Hlive & -> & _ & _); clear Hx.
  assert (Hls := Hst o live Ho Hlive); set (id := o.1.1.1) in *.
  destruct Hok as [A A' B C D E]; split; [split; simpl; try done | split_and!; try done].
  - intros id' r; rewrite lookup_insert_Some; intros [[<- <-]|[_ Hr]]; [| exact (A _ _ Hr)].
    destruct (A _ _ Hlive) as (X & Y & Z); split_and!; simpl; [done.. | intros z [= <-]; lia].
  - intros id' r; rewrite lookup_insert_Some; intros [[<- <-]|[_ Hr]] _; [by intros Hin | by apply A'].
  - intros id' r; rewrite lookup_insert_Some; intros [[<- <-]|[_ Hr]]; [| exact (B _ _ Hr)].
    simpl; rewrite Hls; exists row0; split; [done |].
    intros Hn; unfold ended in Hend; rewrite Hn in Hend; by apply bool_decide_eq_true in Hend as [].
  - intros e r Hr; destruct (C e r Hr) as (Hq & st & Hs & Hdev & Hss); split; [done |].
    destruct (decide (er_stream r = id)) as [Heq|Hne]; [| exists st; by rewrite lookup_insert_ne].
    eexists; rewrite Heq, lookup_insert_eq; split; [done |]; simpl; rewrite Heq in Hs; by simplify_eq.
  - intros e r Hr; destruct (D e r Hr) as (Hq & Hs); split; [done |]; rewrite lookup_insert_is_Some'; by right.
  - intros o' r Ho'; simpl; rewrite lookup_insert_Some; intros [[_ <-]|[_ Hr]]; [done | by eapply Hst].
Qed.

Lemma seal_stream_sessions o : keeps (same sessions) (seal_stream (Voice := Voice) o).
Proof. destruct o as [[[? ?] ?] ?]; simpl; frame_txn. Qed.

Lemma seal_session_preserves now session row0 :
  ended row0 = true ->
  preserves (fun s => ledger_ok s /\ sessions s !! session = Some row0) (seal_session sha256 codecs now session).
Proof.
  intros Hend s u s' Hx [Hok Hses]; unfold seal_session in Hx; all_txn.
  match goal with Hf : for_each _ _ s = Ok (_, ?s1) |- _ => rename s1 into mid; rename Hf into Hloop end.
  match goal with Ha : append_seal_event _ _ _ mid = Ok (_, ?s2) |- _ => rename Ha into Happ; rename s2 into late end.
  assert (Hmid : sealing session row0 (observe_streams session s) mid).
  { refine (keeps_for_each (fun a b => sealing session row0 (observe_streams session s) a -> sealing session row0 (observe_streams session s) b)
      _ _ _ _ _ _ Hloop _); [intros o Ho; by apply seal_stream_preserves |].
    split_and!; [done.. |]; intros o row (kv & -> & Hkv)%list_elem_of_fmap; simpl; destruct kv as [id r].
    apply elem_of_session_streams in Hkv as [Hr <-]; intros Hr'; simpl in *; congruence. }
  destruct Hmid as (Hok' & Hses' & _).
  apply append_seal_ledger in Happ.
  split; [eapply ledger_inv_same; [| exact Hok'] | ]; unfold same, ledger in *; simpl; congruence.
Qed.

Lemma seal_session_sessions now session : keeps (same sessions) (seal_session (Voice := Voice) sha256 codecs now session).
Proof.
  unfold seal_session, append_seal_event, violates; keeps_by_shape; try done; apply seal_stream_sessions.
Qed.

Lemma elem_of_receipts_with_sessions s session r row :
  (session, (r, row)) ∈ receipts_with_sessions s <-> receipts s !! session = Some r /\ sessions s !! session = Some row.
Proof.
  unfold receipts_with_sessions; rewrite list_elem_of_omap; split.
  - intros ([id r'] & Hin & Hm); apply elem_of_map_to_list in Hin; simpl in Hm; case_match; by simplify_eq.
  - intros [Hr Hs]; exists (session, r); rewrite elem_of_map_to_list; split; [done |]; simpl; by rewrite Hs.
Qed.

(** A candidate of the sealer was ready. *)
Lemma seal_candidate_ready now s session :
  session ∈ seal_candidates now s ->
  exists r row, receipts s !! session = Some r /\ sessions s !! session = Some row /\ seal_ready now s (session, (r, row)) = true.
Proof.
  unfold seal_candidates; intros Hin; apply elem_of_take in Hin as (i & Hi & _).
  apply list_elem_of_lookup_2, list_elem_of_fmap in Hi as ([id [r row]] & -> & Hi).
  unfold sort_by_key in Hi; apply elem_of_sort_by, elem_of_filter_bool in Hi as [Hi Hready].
  apply elem_of_receipts_with_sessions in Hi as [? ?]; eauto.
Qed.

Lemma finalize_preserves now : preserves ledger_ok (finalize_quiet_capture_seals (Voice := Voice) sha256 codecs now).
Proof.
  intros s u s' Hx Hok; unfold finalize_quiet_capture_seals in Hx; all_txn; case_match; all_txn; [done |].
  match goal with Hf : for_each _ _ s = Ok _ |- _ => rename Hf into Hloop end.
  refine (proj1 (keeps_for_each (fun a b => (ledger_ok a /\ sessions a = sessions s) -> ledger_ok b /\ sessions b = sessions s)
      _ _ _ _ _ _ Hloop _)); [| done].
  intros session Hin s1 u1 s2 H1 [Hok1 Hs1].
  destruct (seal_candidate_ready _ _ _ Hin) as (r & row & _ & Hrow & Hready).
  assert (Hend : ended row = true) by (unfold seal_ready in Hready; rewrite !andb_true_iff in Hready; tauto).
  split; [| apply seal_session_sessions in H1; unfold same in H1; congruence].
  destruct (seal_session_preserves now session row Hend _ _ _ H1) as [? _]; [split; [done | congruence] | done].
Qed.

Lemma import_ledger now : keeps (same ledger) (import_legacy_provisional_finishes (Voice := Voice) now).
Proof. unfold import_legacy_provisional_finishes, import_one; frame_txn. Qed.

Lemma recover_preserves now : preserves ledger_ok (recover_inactive_sessions (Voice := Voice) now).
Proof.
  intros s u s' Hx Hok; unfold recover_inactive_sessions in Hx; all_txn; case_match; all_txn; [done |].
  case_match; all_txn; [done |].
  match goal with Hf : for_each _ _ s = Ok _ |- _ => rename Hf into Hloop end.
  refine (keeps_for_each (fun a b => ledger_ok a -> ledger_ok b) _ _ _ _ _ _ Hloop Hok).
  intros kv _ s1 u1 s2 Hone Hok1; by eapply finish_inv.
Qed.

(** ** The steps of an account's store *)

(** The refresh of a formation receipt, which may remove the seal of a
    session's streams when its sources changed, is not among them: it is
    [Formation.reopen_revision].  Neither is an erasure before the formation
    contract is installed, which keeps no tombstone. *)
Inductive step s : Store Voice -> Prop :=
| step_reserve now account identity key digest random r s' :
    transact (reserve_media_upload now account identity key digest random) s = (r, s') -> step s s'
| step_media_key candidate r s' : transact (install_media_dek candidate) s = (r, s') -> step s s'
| step_commit now c r s' : transact (commit_event sha256 codecs now c) s = (r, s') -> step s s'
| step_batch now command r s' : transact (commit_reference_batch sha256 codecs now command) s = (r, s') -> step s s'
| step_finish now session r s' : transact (finish_session now session) s = (r, s') -> step s s'
| step_import now r s' : transact (import_legacy_provisional_finishes now) s = (r, s') -> step s s'
| step_seal now r s' : transact (finalize_quiet_capture_seals sha256 codecs now) s = (r, s') -> step s s'
| step_recover now r s' : transact (recover_inactive_sessions now) s = (r, s') -> step s s'
(* Any other component that leaves these tables alone: the media worker,
   formation but for that refresh, retention, enrollment. *)
| step_other s' : ledger s' = ledger s -> step s s'
(* The formation contract is installed before any event is erased. *)
| step_install s' : deleted_sequences s = ∅ ->
    ledger s' = (sessions s, streams s, capture_events s, deleted_sequences s, true) -> step s s'
(* An event is erased only with a tombstone that keeps its place, its
   references before it. *)
| step_erase id row d s' : formation_installed s = true -> capture_events s !! id = Some row ->
    (forall e row' r, capture_events s !! e = Some row' -> er_reference row' = Some r -> canonical_event_id r <> id) ->
    dr_stream d = er_stream row -> dr_sequence d = er_sequence row -> deleted_sequences s !! id = None ->
    ledger s' = (sessions s, streams s, delete id (capture_events s), <[id := d]> (deleted_sequences s), true) -> step s s'.

(** An account before its first event. *)
Definition fresh s : Prop := sessions s = ∅ /\ streams s = ∅ /\ capture_events s = ∅ /\ deleted_sequences s = ∅.

Definition reachable s : Prop := exists s0, fresh s0 /\ rtc step s0 s.

Lemma erase_accepted id row d s s' :
  formation_installed s = true -> capture_events s !! id = Some row ->
  dr_stream d = er_stream row -> dr_sequence d = er_sequence row -> deleted_sequences s !! id = None ->
  ledger s' = (sessions s, streams s, delete id (capture_events s), <[id := d]> (deleted_sequences s), true) ->
  forall stream, accepted_sequences stream s' = accepted_sequences stream s.
Proof.
  intros Hi Hrow Hd1 Hd2 Hn Hl stream; unfold ledger in Hl; injection Hl as _ _ He Hd Hi'.
  apply set_eq; intros q; unfold accepted_sequences; rewrite Hi, Hi', !elem_of_union, !elem_of_events, !elem_of_deleted, He, Hd.
  split.
  - intros [(e & r & Hr & <- & <-)|(e & r & Hr & <- & <-)].
    + apply lookup_delete_Some in Hr as [_ Hr]; left; eauto.
    + apply lookup_insert_Some in Hr as [[<- <-]|[_ Hr]]; [left; exists id, row; split_and!; congruence | right; eauto].
  - intros [(e & r & Hr & <- & <-)|(e & r & Hr & <- & <-)].
    + destruct (decide (e = id)) as [->|Hne]; [right; exists id, d; rewrite lookup_insert_eq; split_and!; congruence |].
      left; exists e, r; by rewrite lookup_delete_ne.
    + right; exists e, r; rewrite lookup_insert_ne; [done | congruence].
Qed.

Lemma step_preserves s s' : step s s' -> ledger_ok s -> ledger_ok s'.
Proof.
  intros Hstep Hok; destruct Hstep as [? ? ? ? ? ? ? ? H1|? ? ? H1|? ? ? ? H1|? ? ? ? H1|? ? ? ? H1|? ? ? H1|? ? ? H1|? ? ? H1|? H1|? Hempty H1|id row d ? Hin Hrow Hfree Hd1 Hd2 Hn H1].
  - refine (preserves_run _ _ _ _ _ (preserves_same _ _) Hok H1); unfold reserve_media_upload; frame_txn.
  - refine (preserves_run _ _ _ _ _ (preserves_same _ _) Hok H1); unfold install_media_dek; frame_txn.
  - exact (preserves_run _ _ _ _ _ (commit_event_preserves _ _) Hok H1).
  - exact (preserves_run _ _ _ _ _ (commit_reference_batch_preserves _ _) Hok H1).
  - exact (preserves_run _ _ _ _ _ (finish_session_preserves _ _) Hok H1).
  - exact (preserves_run _ _ _ _ _ (preserves_same _ (import_ledger _)) Hok H1).
  - exact (preserves_run _ _ _ _ _ (finalize_preserves _) Hok H1).
  - exact (preserves_run _ _ _ _ _ (recover_preserves _) Hok H1).
  - by eapply ledger_inv_same.
  - assert (Hacc : forall id, accepted_sequences id s' = accepted_sequences id s).
    { intros id; unfold ledger in H1; injection H1 as _ _ He Hd Hi; apply set_eq; intros q.
      unfold accepted_sequences, event_sequences, deleted_of; rewrite He, Hd, Hi; case_match; [done |].
      rewrite elem_of_union, Hempty, (elem_of_sequences _ _ ∅); split; [intros [?|(? & ? & Hbad & _)]; [done | by rewrite lookup_empty in Hbad] | by left]. }
    unfold ledger in H1; injection H1 as H1 H2 H3 H4 _; destruct Hok as [A A' B C D E].
    split; intros *; rewrite ?Hacc, ?H1, ?H2, ?H3, ?H4; eauto.
  - assert (Hacc := erase_accepted _ _ _ _ _ Hin Hrow Hd1 Hd2 Hn H1).
    unfold ledger in H1; injection H1 as H1 H2 H3 H4 _; destruct Hok as [A A' B C D E].
    split; intros *; rewrite ?Hacc, ?H1, ?H2, ?H3, ?H4; [eauto.. | | |].
    + intros [_ Hr]%lookup_delete_Some; eauto.
    + intros [[<- <-]|[_ Hr]]%lookup_insert_Some; [| eauto].
      destruct (C _ _ Hrow) as (Hq & st & Hst & _); rewrite Hd1, Hd2; split; [done | by exists st].
    + intros [_ Hr]%lookup_delete_Some Hd; destruct (E _ _ _ Hr Hd) as (Hdis & t & Ht & Hrest); split; [done |].
      exists t; split; [rewrite lookup_delete_ne; [done | intros Heq; by apply (Hfree _ _ _ Hr Hd)] | done].
Qed.

Lemma fresh_ok s : fresh s -> ledger_ok s.
Proof. intros (A & B & C & D); split; intros *; rewrite ?A, ?B, ?C, ?D; done. Qed.

Lemma reachable_ok s : reachable s -> ledger_ok s.
Proof.
  intros (s0 & Hf & Hr); apply fresh_ok in Hf; induction Hr as [|a b c Hab _ IH]; [done | by apply IH, (step_preserves a)].
Qed.
End Ledger.
