(* ===== verification/CaptureTheorems.v ===== *)
(** * Acknowledgement, replays, references and seals

    The theorems about the capture store: what every reachable store
    acknowledges, that a replayed commit answers as the first one did and
    changes nothing, that a reference stays grounded in an earlier canonical
    event, that a late event reopens the seals of its session, audited, and
    that the sealer fixes only the streams of a quiet session. *)
From stdpp Require Import gmap sorting.
From Stdlib Require Import ZArith Lia.
From S2P Require Import Prelude OrdMap Text F64 Errors Bytes Json IsoTime CaptureManifest MediaKeys CaptureIngest Txn VoiceEnrollment.
From S2P Require Import CaptureStore CaptureCommit CaptureSeal CaptureLedger.
Local Open Scope Z_scope.
Local Open Scope kioku_scope.

Section Theorems.
Context {Voice : Type} `{VoiceGraph Voice}.
Context (sha256 : bytes -> bytes) (codecs : Codec).
Implicit Types s : Store Voice.

(** ** The record of an accepted event *)

(** What answers a replay. *)
Definition event_record s := (surroundings s, capture_events s, media_objects s, upload_intents s).

Lemma event_record_eq s s' :
  event_record s' = event_record s ->
  surroundings s' = surroundings s /\ capture_events s' = capture_events s /\ media_objects s' = media_objects s
  /\ upload_intents s' = upload_intents s.
Proof. unfold event_record; rewrite !pair_equal_spec; tauto. Qed.

Lemma media_record now c ms :
  keeps (same (fun s => (surroundings s, capture_events s, upload_intents s))) (insert_media (Voice := Voice) codecs now c ms).
Proof. by apply media_frame. Qed.

Lemma consume_record c :
  keeps (same (fun s => (surroundings s, capture_events s, media_objects s))) (consume_intent (Voice := Voice) c).
Proof. frame_txn. Qed.

Lemma acknowledge_record now c reopen : keeps (same event_record) (acknowledge_event (Voice := Voice) sha256 codecs now c reopen).
Proof.
  unfold acknowledge_event, advance_ack, record_capture_seal_reopen, append_seal_event, mark_capture_formation_dirty, mark_session_dirty.
  frame_txn.
Qed.

Lemma finish_record now c : keeps (same event_record) (finish_if_marked (Voice := Voice) now c).
Proof. unfold finish_if_marked, record_provisional_finish; frame_txn. Qed.

Lemma enrollment_record c known : keeps (same event_record) (record_enrollment (Voice := Voice) c known).
Proof. frame_txn. Qed.

(** The media row a canonical event leaves. *)
Lemma insert_media_row now c ms s u s' :
  insert_media codecs now c ms s = Ok (u, s') ->
  match media_disposition (manifest c) with
  | Canonical => exists key o, object_key c = Some key /\ media_objects s' !! event_id (manifest c) = Some o /\ mr_object_key o = key
  | Reference => media_objects s' = media_objects s
  end.
Proof.
  unfold insert_media; case_match; intros Hx.
  - apply then_Ok in Hx as (md & ? & [_ ->]%try_res_Ok & Hx); apply then_Ok in Hx as (key & ? & [Hkey ->]%try_res_Ok & Hx).
    apply then_Ok in Hx as (g & ? & [_ ->]%try_res_Ok & Hx); apply then_Ok in Hx as (a & ? & [_ ->]%try_res_Ok & Hx).
    apply then_Ok in Hx as (u1 & s1 & H1 & Hx); apply then_Ok in Hx as (u2 & s2 & H2 & Hx).
    assert (Hm : media_objects s' = media_objects s1).
    { transitivity (media_objects s2);
        [change (same media_objects s2 s'); revert Hx; generalize s2 u s'; unfold queue_media_job, violates, json_ok; by keeps_by_shape |].
      change (same media_objects s1 s2); revert H2; generalize s1 u2 s2; by apply observation_frame. }
    rewrite Hm; unfold insert_media_object, violates in H1; all_txn; all_ok; exists key; eexists.
    simpl; rewrite lookup_insert_eq; done.
  - change (same media_objects s s'); revert Hx; generalize s u s'; by apply observation_frame.
Qed.

Lemma consumed_intent c s u s' token :
  consume_intent (Voice := Voice) c s = Ok (u, s') -> upload_token c = Some token ->
  intent_matches c token s' = false.
Proof.
  unfold consume_intent; intros Hx Ht; rewrite Ht in Hx; all_txn.
  match goal with Hm : negb (intent_matches c token s) = false |- _ => apply negb_false_iff in Hm; unfold delete_intent; rewrite Hm end.
  unfold intent_matches; simpl; by rewrite lookup_delete_eq.
Qed.

(** What the commit of a new event records. *)
Definition recorded c s s' : Prop :=
  let m := manifest c in
  surroundings s' = surroundings s /\ capture_events s !! event_id m = None
  /\ (exists row, capture_events s' = <[event_id m := row]> (capture_events s)
        /\ er_manifest_digest row = to_ascii_lowercase (cc_manifest_digest c) /\ er_disposition row = media_disposition m
        /\ er_stream row = stream_id m /\ er_session row = capture_session_id m /\ er_sequence row = sequence m)
  /\ match media_disposition m with
     | Canonical => exists key o, object_key c = Some key /\ media_objects s' !! event_id m = Some o /\ mr_object_key o = key
     | Reference => media_objects s' = media_objects s
     end
  /\ (forall token, upload_token c = Some token -> intent_matches c token s' = false).

Lemma insert_new_event_recorded now c s result s' :
  insert_new_event sha256 codecs now c s = Ok (result, s') -> recorded c s s'.
Proof.
  intros Hx; apply insert_new_event_phases in Hx as [row admission reopen asset r column wall started last
    ms known ack s3 s4 s5 s6 m s1 s2 _ _ _ Hn _ H3 H4 H5 H6 H7 _].
  assert (Hmedia := insert_media_row _ _ _ _ _ _ H3); apply media_record in H3.
  assert (Hi : forall token, upload_token c = Some token -> intent_matches c token s4 = false) by (intros token; by apply (consumed_intent c s3 tt)).
  apply consume_record in H4; apply acknowledge_record in H5; apply finish_record in H6; apply enrollment_record in H7.
  assert (Hend : event_record s' = event_record s4) by (unfold same in *; congruence).
  apply event_record_eq in Hend as (Hs7 & He7 & Hm7 & Hi7).
  assert (H1 : event_record s1 = event_record s) by (subst s1; unfold with_stream; by case_bool_decide).
  apply event_record_eq in H1 as (Hs1 & He1 & Hm1 & _).
  unfold same in H3, H4; rewrite !pair_equal_spec in H3, H4; destruct H3 as [[Hs3 He3] _], H4 as [[Hs4 He4] Hm4].
  unfold recorded; split_and!; [by rewrite Hs7, Hs4, Hs3, <- Hs1 | by rewrite <- He1 | | |].
  - eexists; rewrite He7, He4, He3; simpl; rewrite He1; by split_and!.
  - rewrite Hm7, Hm4; subst m; case_match; [done |]; by rewrite Hmedia, <- Hm1.
  - intros token Ht; unfold intent_matches; rewrite Hi7; by apply Hi.
Qed.

(** ** A replayed commit *)

(** The command passes the checks made before its event is looked up. *)
Definition admitted c s : Prop :=
  account_status s = Some (lit "active") /\ validate sha256 (manifest c) = Ok tt
  /\ exists e, erasure s = Ok (Some e)
     /\ fenced (admission_identity (manifest c)) (canonical_event_id <$> reference (manifest c)) e = false.

Definition keys_of c : option (list str) := (fun key => [key]) <$> object_key c.

Definition drop_intent c s : Store Voice :=
  match upload_token c with Some token => delete_intent c token s | None => s end.

Lemma require_active_Ok s u s' :
  require_capture_account s = Ok (u, s') -> account_status s = Some (lit "active") /\ s' = s.
Proof.
  unfold require_capture_account; intros Hx; all_txn; case_match; all_txn.
  match goal with Hn : negb _ = false |- _ => apply negb_false_iff, str_eqb_eq in Hn; by subst end.
Qed.

Lemma require_admission_Ok identity canonical s u s' :
  require_capture_admission identity canonical s = Ok (u, s') ->
  (exists e, erasure s = Ok (Some e) /\ fenced identity canonical e = false) /\ s' = s.
Proof. unfold require_capture_admission; intros Hx; all_txn; case_match; all_txn; eauto. Qed.

Lemma commit_event_inv now c s result s' :
  commit_event sha256 codecs now c s = Ok (result, s') ->
  admitted c s
  /\ ((exists ack, preflight_row sha256 codecs (manifest c) (cc_manifest_digest c) (keys_of c) s = Ok (Duplicate ack)
         /\ result = {| duplicate := true; committed_through_sequence := ack |} /\ s' = drop_intent c s)
      \/ (preflight_row sha256 codecs (manifest c) (cc_manifest_digest c) (keys_of c) s = Ok New
          /\ insert_new_event sha256 codecs now c s = Ok (result, s') /\ duplicate result = false)).
Proof.
  intros Hx; unfold commit_event in Hx.
  apply then_Ok in Hx as (u0 & s0 & H0 & Hx).
  apply require_active_Ok in H0 as [Hact ->]; apply then_Ok in Hx as (r0 & s1 & H1 & Hx); unfold insert_event, preflight in H1.
  apply then_Ok in H1 as ([] & ? & [Hv ->]%try_res_Ok & H1); apply then_Ok in H1 as (answer & s2 & H2 & H1).
  apply then_Ok in H2 as (u1 & s3 & H3 & H2).
  apply require_admission_Ok in H3 as [Hfence ->]; split; [by split_and! |].
  apply then_Ok in H2 as (decision & ? & [-> ->]%select_Ok & [Hp ->]%try_res_Ok); fold (keys_of c) in Hp.
  destruct answer as [|ack].
  - right; assert (Hd : duplicate r0 = false).
    { unfold insert_new_event in H1; repeat (apply then_Ok in H1 as (? & ? & _ & H1)); by apply commits_Ok in H1 as [-> _]. }
    rewrite Hd in Hx; all_txn; done.
  - left; apply commits_Ok in H1 as [-> ->]; simpl in Hx; exists ack; unfold drop_intent; case_match; all_txn; done.
Qed.

Lemma commit_event_duplicate now c s ack :
  admitted c s -> preflight_row sha256 codecs (manifest c) (cc_manifest_digest c) (keys_of c) s = Ok (Duplicate ack) ->
  drop_intent c s = s ->
  commit_event sha256 codecs now c s = Ok ({| duplicate := true; committed_through_sequence := ack |}, s).
Proof.
  intros (Hact & Hv & e & He & Hf) Hp Hdrop.
  unfold commit_event, insert_event, preflight, require_capture_account, require_capture_admission, then_, select, try_res, abort_if.
  rewrite Hact, str_eqb_refl; simpl; rewrite Hv, He; simpl; unfold try_res; rewrite Hf; simpl.
  fold (keys_of c); rewrite Hp; simpl; unfold drop_intent in Hdrop.
  unfold commits, execute; case_match; by rewrite ?Hdrop.
Qed.

Lemma admitted_stable c s s' : surroundings s' = surroundings s -> admitted c s -> admitted c s'.
Proof. unfold surroundings, admitted; rewrite !pair_equal_spec; intros ([[[-> _] _] ->] & _); done. Qed.

Lemma drop_intent_twice c s : drop_intent c (drop_intent c s) = drop_intent c s.
Proof.
  unfold drop_intent; destruct (upload_token c) as [token|]; [| done]; unfold delete_intent at 2 3.
  destruct (intent_matches c token s) eqn:E; unfold delete_intent; [| by rewrite E].
  unfold intent_matches; simpl; by rewrite lookup_delete_eq.
Qed.

Lemma drop_intent_preflight c s m digest keys :
  preflight_row sha256 codecs m digest keys (drop_intent c s) = preflight_row sha256 codecs m digest keys s.
Proof. unfold drop_intent, delete_intent; repeat case_match; done. Qed.

Lemma drop_intent_surroundings c s : surroundings (drop_intent c s) = surroundings s.
Proof. unfold drop_intent, delete_intent; repeat case_match; done. Qed.

(** An answered event is known by its digest, and no other digest is
    admitted for it. *)
Lemma known_digest m digest keys s ack :
  preflight_row sha256 codecs m digest keys s = Ok (Duplicate ack) ->
  forall m' digest' keys', event_id m' = event_id m -> digest' <> digest ->
  exists e, preflight_row sha256 codecs m' digest' keys' s = Err (Conflict e).
Proof.
  unfold preflight_row; intros Hp m' digest' keys' Hid Hne; rewrite Hid.
  destruct (capture_events s !! event_id m) as [row|].
  - all_ok; match goal with Hr : replay_matches _ _ _ _ _ = true |- _ => unfold replay_matches in Hr; rewrite !andb_true_iff, str_eqb_eq in Hr; destruct Hr as [[Hd _] _] end.
    eexists; unfold replay_matches, str_eqb; rewrite (bool_decide_false (er_manifest_digest row = digest')) by congruence; simpl; reflexivity.
  - destruct (if formation_installed s then _ else _) as [d|]; all_ok; [| done].
    match goal with Hr : exact_deleted_event_replay _ _ _ _ _ _ = true |- _ => unfold exact_deleted_event_replay in Hr; rewrite !andb_true_iff, !str_eqb_eq in Hr; destruct Hr as [_ Hd] end.
    eexists; unfold exact_deleted_event_replay, str_eqb; rewrite (bool_decide_false (dr_manifest_digest d = digest')) by congruence.
    rewrite andb_false_r; simpl; reflexivity.
Qed.

(** The event a commit has recorded answers its replay. *)
Lemma recorded_answers c s s' ack stream :
  recorded c s s' -> to_ascii_lowercase (cc_manifest_digest c) = cc_manifest_digest c ->
  (media_disposition (manifest c) = Reference -> object_key c = None) ->
  (forall e o, media_objects s !! e = Some o -> is_Some (capture_events s !! e)) ->
  streams s' !! stream_id (manifest c) = Some stream -> committed_through stream = ack ->
  preflight_row sha256 codecs (manifest c) (cc_manifest_digest c) (keys_of c) s' = Ok (Duplicate ack) /\ drop_intent c s' = s'.
Proof.
  intros (_ & Hn & (row & He & Hd & Hdis & Hst & _) & Hmedia & Hgone) Hlow Hkey Hfk Hstream Hack; split.
  - unfold preflight_row; rewrite He, lookup_insert_eq; simpl; rewrite Hst, Hstream; simpl; rewrite Hack.
    assert (Hm : replay_matches (manifest c) (cc_manifest_digest c) (keys_of c) row (media_objects s' !! event_id (manifest c)) = true).
    { unfold replay_matches, keys_of; rewrite Hd, Hlow, str_eqb_refl, Hdis, bool_decide_true by done; simpl.
      destruct (media_disposition (manifest c)) eqn:E.
      - destruct Hmedia as (key & o & -> & -> & <-); simpl; by rewrite str_eqb_refl.
      - rewrite Hkey by done; simpl; apply bool_decide_eq_true; rewrite Hmedia.
        destruct (media_objects s !! event_id (manifest c)) as [o|] eqn:Eo; [| done].
        apply Hfk in Eo as [x Hx]; congruence. }
    by rewrite Hm.
  - unfold drop_intent; destruct (upload_token c) as [token|] eqn:E; [| done].
    unfold delete_intent; by rewrite Hgone.
Qed.

(** ** Seals *)

(** The tables a seal is recorded in. *)
Definition seal_record s := (streams s, seal_events s, receipts s).

Lemma media_seals now c ms : keeps (same seal_record) (insert_media (Voice := Voice) codecs now c ms).
Proof. by apply media_frame. Qed.

Lemma consume_seals c : keeps (same seal_record) (consume_intent (Voice := Voice) c).
Proof. frame_txn. Qed.

Lemma enrollment_seals c known : keeps (same seal_record) (record_enrollment (Voice := Voice) c known).
Proof. frame_txn. Qed.

Lemma dirty_effect now session s u s' :
  mark_capture_formation_dirty now [session] s = Ok (u, s') -> formation_installed s = true ->
  receipts s' = <[session := dirty_receipt now (receipts s !! session)]> (receipts s)
  /\ seal_events s' = seal_events s /\ streams s' = streams s.
Proof.
  intros Hx Hin; unfold mark_capture_formation_dirty in Hx; all_txn; rewrite Hin in Hx.
  apply then_Ok in Hx as (u1 & s1 & H1 & Hx); apply execute_Ok in Hx as ->.
  assert (Hs : sort_by ord_leb (remove_dups [session]) = [session]) by (unfold remove_dups; case_decide as Hd; [by apply not_elem_of_nil in Hd | done]).
  rewrite Hs in H1; unfold mark_session_dirty, violates in H1; simpl in H1; all_txn; done.
Qed.

Definition reopen_event now session trigger (rc : ReceiptRow) (maxima : bytes) : SealEvent :=
  {| se_session := session; se_generation := seal_generation rc; se_source_revision := source_revision rc; se_kind := Reopen;
     se_maxima := maxima; se_provenance := lit "late_source_reopen_v1"; se_trigger := Some trigger;
     se_recorded_at := now |}.

Lemma reopen_effect now session trigger r s u s' :
  record_capture_seal_reopen sha256 codecs now session trigger r s = Ok (u, s') ->
  exists rc, receipts s !! session = Some rc /\ seal_generation rc = reopen_generation r
    /\ seal_events s' = seal_events s ++ [reopen_event now session trigger rc (stream_maxima_sha256 sha256 codecs session s)]
    /\ receipts s' = <[session := with_lifecycle now rc (finish_requested_at rc) (finish_provenance rc) None (seal_generation rc) None]> (receipts s)
    /\ streams s' = unseal session <$> streams s.
Proof.
  unfold record_capture_seal_reopen, append_seal_event, violates; intros Hx; all_txn; all_ok.
  repeat match goal with Hn : negb _ = false |- _ => apply negb_false_iff in Hn end.
  match goal with Hn : _ && _ = true |- _ => apply andb_prop in Hn as [Hg _]; apply Z.eqb_eq in Hg end.
  eexists; split_and!; try done; simpl; congruence.
Qed.

Lemma advance_seals id : keeps (same (fun s => (seal_events s, receipts s))) (advance_ack (Voice := Voice) id).
Proof. unfold advance_ack; frame_txn. Qed.

(** Advancing never changes a seal. *)
Lemma advance_keeps_seals id s ack s' :
  advance_ack id s = Ok (ack, s') ->
  forall id' row, streams s' !! id' = Some row ->
  exists old, streams s !! id' = Some old /\ sealed_sequence row = sealed_sequence old /\ st_session row = st_session old.
Proof.
  intros Hx id' row Hr; destruct (advance_effect _ _ _ _ Hx) as (old & Hold & _ & ->).
  case_match; [| eauto]; simpl in Hr; apply lookup_insert_Some in Hr as [[<- <-]|[_ Hr]]; eauto.
Qed.

Lemma finish_seals now c s u s' :
  finish_if_marked now c s = Ok (u, s') ->
  seal_events s' = seal_events s /\ forall session rc, receipts s !! session = Some rc ->
  exists rc', receipts s' !! session = Some rc' /\ seal_finalized_at rc' = seal_finalized_at rc
    /\ source_revision rc' = source_revision rc /\ rc_state rc' = rc_state rc /\ rc_claim rc' = rc_claim rc.
Proof.
  intros Hx; unfold finish_if_marked in Hx; case_match; all_txn; [| split; eauto 10].
  unfold record_provisional_finish in *; all_txn; case_match; all_txn; [| split; simpl; eauto 10].
  split; [done |]; intros session rc Hrc; simpl.
  destruct (decide (session = capture_session_id (manifest c))) as [->|Hne]; [| rewrite lookup_insert_ne by done; eauto 10].
  rewrite lookup_insert_eq; eexists; split; [done |]; simpl in *; by rewrite Hrc.
Qed.

(** A finalized seal is audited: its receipt, its seal event, no reopening. *)
Definition audited session g s : Prop :=
  formation_installed s = true
  /\ (exists rc, receipts s !! session = Some rc /\ seal_generation rc = g /\ is_Some (seal_finalized_at rc))
  /\ existsb (is_seal_event session g Seal) (seal_events s) = true
  /\ existsb (is_seal_event session g Reopen) (seal_events s) = false.

Lemma finalized_seal_audited session s g :
  current_finalized_seal sha256 codecs session s = Some g -> audited session g s.
Proof.
  unfold current_finalized_seal, audited; intros Hx.
  destruct (formation_installed s); [| done]; simpl in Hx; split; [done |].
  destruct (receipts s !! session) as [rc|]; [| done].
  destruct (_ && negb _) eqn:E in Hx; [| done]; injection Hx as <-.
  rewrite !andb_true_iff, negb_true_iff in E; destruct E as [[[Hf _] He] Hr]; apply bool_decide_eq_true in Hf.
  split_and!; [by exists rc | | done].
  apply existsb_Exists in He as (e & Hin & He); apply andb_prop in He as [He _]; apply existsb_Exists; eauto.
Qed.

(** An event past the seal of its stream is admitted only to reopen it. *)
Lemma late_admission m row s z admission old :
  streams s !! stream_id m = Some old -> sealed_sequence old = Some z -> z < sequence m ->
  stream_admission_of sha256 codecs m (ended row) s = Ok admission -> admission = LateSealReopen.
Proof.
  intros Hs Hz Hlt; unfold stream_admission_of; rewrite Hs; intros Hx; all_ok.
  unfold stream_admission in Hx; rewrite Hz in Hx.
  destruct (ended row); simpl in Hx; [| done].
  rewrite (proj2 (Z.ltb_lt _ _) Hlt) in Hx; simpl in Hx.
  case_match; [by injection Hx as <- | by rewrite orb_true_r in Hx].
Qed.

(** Every seal of a session is gone. *)
Definition unsealed session s : Prop :=
  forall id row, streams s !! id = Some row -> st_session row = session -> sealed_sequence row = None.

(** The acknowledgement of an event that reopens its session. *)
Lemma acknowledge_reopens now c r s ack s' :
  formation_installed s = true ->
  acknowledge_event sha256 codecs now c (Some r) s = Ok (ack, s') ->
  let session := capture_session_id (manifest c) in
  unsealed session s'
  /\ exists maxima, let rc := dirty_receipt now (receipts s !! session) in
       seal_generation rc = reopen_generation r
       /\ seal_events s' = seal_events s ++ [reopen_event now session (event_id (manifest c)) rc maxima]
       /\ receipts s' !! session = Some (with_lifecycle now rc (finish_requested_at rc) (finish_provenance rc) None (seal_generation rc) None).
Proof.
  intros Hin Hx session; unfold acknowledge_event in Hx.
  apply then_Ok in Hx as (a1 & s1 & H1 & Hx); apply then_Ok in Hx as (u2 & s2 & H2 & Hx); apply then_Ok in Hx as (u3 & s3 & H3 & Hx).
  assert (Hi1 : formation_installed s1 = true).
  { destruct (advance_effect _ _ _ _ H1) as (? & _ & _ & ->); by case_match. }
  apply advance_seals in H1; unfold same in H1; rewrite pair_equal_spec in H1; destruct H1 as [Hse1 Hrc1].
  destruct (dirty_effect _ _ _ _ _ H2 Hi1) as (Hrc2 & Hse2 & _).
  destruct (reopen_effect _ _ _ _ _ _ _ H3) as (rc & Hrc & Hg & Hse3 & Hrc3 & Hst3).
  rewrite Hrc2, Hrc1 in Hrc; rewrite lookup_insert_eq in Hrc; injection Hrc as <-; split.
  - intros id row Hr Hs; destruct (advance_keeps_seals _ _ _ _ Hx _ _ Hr) as (old & Hold & -> & Hss).
    rewrite Hst3, lookup_fmap in Hold; apply fmap_Some in Hold as (r0 & _ & ->); rewrite Hs in Hss.
    unfold unseal in *; case_match eqn:E; [done |]; subst session; by rewrite <- Hss, str_eqb_refl in E.
  - apply advance_seals in Hx; unfold same in Hx; rewrite pair_equal_spec in Hx; destruct Hx as [Hse Hrcs].
    eexists; split_and!; [done | rewrite Hse, Hse3, Hse2, Hse1; reflexivity |].
    rewrite Hrcs, Hrc3; apply lookup_insert_eq.
Qed.

(** *** What the sealer leaves *)

(** A stream sealed exactly: at its acknowledgement, at the greatest sequence
    it accepted, with no gap below. *)
Definition boundary s id (row : StreamRow) : Prop :=
  sealed_sequence row = Some (committed_through row)
  /\ accepted_max id s = committed_through row /\ contiguous_through id s = committed_through row.

Lemma extremes_same s s' id : capture_events s' = capture_events s -> deleted_sequences s' = deleted_sequences s ->
  accepted_max id s' = accepted_max id s /\ contiguous_through id s' = contiguous_through id s.
Proof. unfold accepted_max, contiguous_through, event_sequences, deleted_of; by intros -> ->. Qed.

Lemma seal_stream_sources o : keeps (same (fun s => (capture_events s, deleted_sequences s, receipts s))) (seal_stream (Voice := Voice) o).
Proof. destruct o as [[[? ?] ?] ?]; simpl; frame_txn. Qed.

Lemma seal_streams_effect observed : forall s u s',
  for_each observed (seal_stream (Voice := Voice)) s = Ok (u, s') ->
  forall id row', streams s' !! id = Some row' ->
  exists row, streams s !! id = Some row /\ st_session row = st_session row'
    /\ (row' = row \/ boundary s' id row') /\ (forall o, o ∈ observed -> o.1.1.1 = id -> boundary s' id row').
Proof.
  induction observed as [|o l IH]; intros s u s' Hx id row' Hr'; simpl in Hx.
  { apply commits_Ok in Hx as [_ ->]; exists row'; split_and!; try done; [by left | by intros o Ho%not_elem_of_nil]. }
  apply then_Ok in Hx as (u1 & s1 & H1 & Hx); destruct (IH _ _ _ Hx _ _ Hr') as (row & Hr & Hs & Hor & Hin).
  assert (Hsrc : keeps (same (fun s => (capture_events s, deleted_sequences s, receipts s))) (for_each l (seal_stream (Voice := Voice))))
    by (apply keeps_for_each; [tc_solve | intros; apply seal_stream_sources]).
  apply Hsrc in Hx; assert (H1' := seal_stream_sources _ _ _ _ H1); unfold same in *; rewrite !pair_equal_spec in *.
  destruct Hx as [[He Hd] _], H1' as [[He1 Hd1] _].
  destruct (extremes_same s1 s' id He Hd) as [Hmax Hcon], (extremes_same s s1 id He1 Hd1) as [Hmax1 Hcon1].
  destruct (seal_stream_effect _ _ _ _ H1) as (live & Hlive & -> & Ha & Hc); simpl in Hr.
  destruct (decide (o.1.1.1 = id)) as [Heq|Hne].
  - rewrite Heq in *; rewrite lookup_insert_eq in Hr; injection Hr as <-; exists live; split_and!; [done | done | |].
    + right; destruct Hor as [->|]; [| done]; split_and!; simpl; [done | congruence | congruence].
    + intros o' _ _; destruct Hor as [->|]; [| done]; split_and!; simpl; [done | congruence | congruence].
  - rewrite lookup_insert_ne in Hr by done; exists row; split_and!; [done | done | done |].
    intros o' Ho' Hid; apply elem_of_cons in Ho' as [->|Ho']; [done | by eapply Hin].
Qed.

(** A receipt whose session was sealed. *)
Definition sealed_receipt now (r : ReceiptRow) : ReceiptRow :=
  with_lifecycle now r (finish_requested_at r) (finish_provenance r) (Some now) (seal_generation r + 1) (Some (finalization_provenance r)).

Lemma seal_session_effect now session s u s' :
  seal_session sha256 codecs now session s = Ok (u, s') ->
  exists r, receipts s !! session = Some r /\ seal_finalized_at r = None /\ receipts s' = <[session := sealed_receipt now r]> (receipts s)
    /\ forall id row', streams s' !! id = Some row' -> exists row, streams s !! id = Some row /\ st_session row = st_session row'
       /\ (row' = row \/ boundary s' id row') /\ (st_session row' = session -> boundary s' id row').
Proof.
  intros Hx; unfold seal_session in Hx; all_txn; all_ok.
  match goal with Hf : for_each _ _ s = Ok (_, ?s1) |- _ => rename s1 into mid; rename Hf into Hloop end.
  match goal with Ha : append_seal_event _ _ _ mid = Ok (_, ?s2) |- _ => rename Ha into Happ; rename s2 into late end.
  match goal with Hn : bool_decide (is_Some (seal_finalized_at ?x)) = false |- _ => apply bool_decide_is_Some_false in Hn; rename x into r end.
  assert (Hl : streams late = streams mid /\ receipts late = receipts mid /\ capture_events late = capture_events mid
    /\ deleted_sequences late = deleted_sequences mid) by (unfold append_seal_event, violates in Happ; all_txn; done).
  destruct Hl as (Hst & Hrc & Hev & Hdel).
  assert (Hsrc : keeps (same (fun s => (capture_events s, deleted_sequences s, receipts s))) (for_each (observe_streams session s) (seal_stream (Voice := Voice))))
    by (apply keeps_for_each; [tc_solve | intros; apply seal_stream_sources]).
  assert (Hmid := Hsrc _ _ _ Hloop); unfold same in Hmid; rewrite !pair_equal_spec in Hmid; destruct Hmid as [[He Hd] Hr].
  exists r; split_and!; [done | done | simpl; by rewrite Hrc, Hr |].
  intros id row'; simpl; rewrite Hst; intros Hrow'; destruct (seal_streams_effect _ _ _ _ Hloop _ _ Hrow') as (row & Hrow & Hs & Hor & Hin).
  assert (Hb : boundary mid id row' -> boundary (set_scans [] (set_receipts (insert session (sealed_receipt now r)) late)) id row').
  { intros (A & B & C); split; [done |]; destruct (extremes_same mid (set_scans [] (set_receipts (insert session (sealed_receipt now r)) late)) id Hev Hdel) as [-> ->]; done. }
  exists row; split_and!; [done | done | destruct Hor; [by left | right; by apply Hb] |].
  intros Hsess; apply Hb, (Hin (id, row, accepted_max id s, contiguous_through id s)); [| done].
  unfold observe_streams; apply list_elem_of_fmap; exists (id, row); split; [reflexivity |]; by apply elem_of_session_streams; split; [| congruence].
Qed.

Lemma seal_session_extremes now session s u s' id :
  seal_session sha256 codecs now session s = Ok (u, s') ->
  accepted_max id s' = accepted_max id s /\ contiguous_through id s' = contiguous_through id s.
Proof.
  assert (Hk : keeps (same (fun s => (capture_events s, deleted_sequences s))) (seal_session sha256 codecs now session)).
  { unfold seal_session, append_seal_event, violates; keeps_by_shape; try done.
    intros s1 b s2 Hs; apply seal_stream_sources in Hs; unfold same in *; rewrite !pair_equal_spec in *; tauto. }
  intros Hx; apply Hk in Hx; unfold same in Hx; rewrite pair_equal_spec in Hx; destruct Hx; by apply extremes_same.
Qed.

(** The reopening such an event plans. *)
Lemma reopen_planned m row s z admission old reopen :
  streams s !! stream_id m = Some old -> sealed_sequence old = Some z -> z < sequence m ->
  stream_admission_of sha256 codecs m (ended row) (with_session m row s) = Ok admission ->
  plan_reopen sha256 codecs m admission (with_session m row s) = Ok reopen ->
  exists r, reopen = Some r /\ current_finalized_seal sha256 codecs (capture_session_id m) s = Some (reopen_generation r)
    /\ (forall id row', streams s !! id = Some row' -> st_session row' = capture_session_id m ->
         sealed_sequence row' = Some (committed_through row') /\ committed_through row' + 1 ∉ accepted_sequences id s)
    /\ with_stream m (with_session m row s) = with_session m row s.
Proof.
  intros Hold Hz Hlt Hadm Hplan; apply (late_admission _ _ _ z _ old) in Hadm as ->; [| done..].
  destruct reopen as [r|]; [| unfold plan_reopen in Hplan; simpl in Hplan; all_ok; done].
  apply plan_reopen_inv in Hplan as (_ & Hseal & _ & Hexact); exists r; split_and!; [done | exact Hseal | exact Hexact |].
  unfold with_stream; simpl; by rewrite Hold, bool_decide_true by (by eexists).
Qed.

Lemma finish_streams now c s u s' : finish_if_marked now c s = Ok (u, s') -> streams s' = streams s.
Proof.
  assert (Hk : keeps (same streams) (finish_if_marked (Voice := Voice) now c))
    by (unfold finish_if_marked, record_provisional_finish; frame_txn).
  apply Hk.
Qed.

(** The session is finished and quiet: the request to finish, every event of
    it and every media job of theirs are four hours old, no such job or media
    object is still waiting for work, every canonical event had a job, and
    each stream is acknowledged exactly as far as it accepted, without a gap. *)
Definition quiet now s session (r : ReceiptRow) (row : SessionRow) : Prop :=
  (exists requested, finish_requested_at r = Some requested /\ requested <= now - CAPTURE_SEAL_QUIET_MS)
  /\ seal_finalized_at r = None /\ is_Some (cs_ended_ms row)
  /\ (exists id stream, streams s !! id = Some stream /\ st_session stream = session)
  /\ (forall id stream, streams s !! id = Some stream -> st_session stream = session ->
        accepted_max id s = committed_through stream /\ contiguous_through id s = committed_through stream
        /\ forall sealed, sealed_sequence stream = Some sealed -> sealed = committed_through stream)
  /\ (forall id e, capture_events s !! id = Some e -> er_session e = session ->
        er_received_at e <= now - CAPTURE_SEAL_QUIET_MS
        /\ (er_disposition e = Canonical -> exists j, j ∈ processing_jobs s /\ jr_event_id j = id)
        /\ (forall j, j ∈ processing_jobs s -> jr_event_id j = id ->
              jr_updated_ms j <= now - CAPTURE_SEAL_QUIET_MS /\ unsettled_job now e j = false)
        /\ (forall o, media_objects s !! id = Some o -> unsettled_object o = false)).

Lemma seal_ready_quiet now s session r row : seal_ready now s (session, (r, row)) = true -> quiet now s session r row.
Proof.
  unfold seal_ready; rewrite !andb_true_iff; intros [[[[[Hreq Hfin] Hend] Hne] Hst] Hev].
  apply bool_decide_eq_true in Hfin; unfold ended in Hend; apply bool_decide_eq_true in Hend.
  rewrite forallb_forall in Hst, Hev; split_and!; [| done | done | | |].
  - destruct (finish_requested_at r) as [t|]; [| done]; exists t; simpl in Hreq; split; [done | lia].
  - destruct (session_streams session s) as [|[id st] l] eqn:E; [done |]; exists id, st.
    by apply elem_of_session_streams; rewrite E; left.
  - intros id st Hs Hss; assert (Hin : (id, st) ∈ session_streams session s) by by apply elem_of_session_streams.
    apply list_elem_of_In, Hst in Hin; simpl in Hin; rewrite !andb_true_iff in Hin; destruct Hin as [[H1 H2] H3].
    split_and!; [lia.. |]; intros z Hz; rewrite Hz in H3; lia.
  - intros id e He Hs; assert (Hin : (id, e) ∈ events_of session s) by (unfold events_of, rows_of; rewrite elem_of_filter_bool, elem_of_map_to_list, str_eqb_eq; done).
    apply list_elem_of_In, Hev in Hin; simpl in Hin; rewrite !andb_true_iff in Hin; destruct Hin as [[[H1 H2] H3] H4].
    rewrite forallb_forall in H3; assert (Hj : forall j, List.In j (jobs_of id s) <-> j ∈ processing_jobs s /\ jr_event_id j = id)
      by (intros j; unfold jobs_of; rewrite filter_In, list_elem_of_In, str_eqb_eq; done).
    split_and!; [lia | | |].
    + intros Hc; rewrite bool_decide_true in H2 by done; simpl in H2; destruct (jobs_of id s) as [|j l]; [done |].
      exists j; apply Hj; by left.
    + intros j Hin Hid; assert (Hb := H3 j (proj2 (Hj j) (conj Hin Hid))); rewrite andb_true_iff, negb_true_iff in Hb; destruct Hb; split; [lia | done].
    + intros o Ho; rewrite Ho in H4; by apply negb_true_iff.
Qed.

(** ** The theorems *)


(** C8: in every reachable store a reference event still has its target: a
    canonical event of the same device, session and stream, earlier in the
    stream, which refers to nothing itself; so references never form a cycle
    or a chain, and erasing events never leaves one dangling. *)
Theorem references_stay_grounded s e row r :
  reachable sha256 codecs s -> capture_events s !! e = Some row -> er_reference row = Some r ->
  er_disposition row = Reference
  /\ exists target, capture_events s !! canonical_event_id r = Some target /\ er_disposition target = Canonical
     /\ er_reference target = None /\ er_stream target = er_stream row /\ er_session target = er_session row
     /\ er_device_id target = er_device_id row /\ er_sequence target < er_sequence row.
Proof. intros Hr; apply (references_grounded _ _ (reachable_ok _ _ _ Hr)). Qed.

(** C6: a commit that succeeded, played again, is answered as a duplicate
    with the acknowledgement of the first, and leaves the store as it is;
    and no other content is ever accepted under its event id. *)
Theorem replay_is_duplicate now c s result s' :
  reachable sha256 codecs s -> commit_event sha256 codecs now c s = Ok (result, s') ->
  to_ascii_lowercase (cc_manifest_digest c) = cc_manifest_digest c ->
  (media_disposition (manifest c) = Reference -> object_key c = None) ->
  (forall e o, media_objects s !! e = Some o -> is_Some (capture_events s !! e)) ->
  (forall later, commit_event sha256 codecs later c s'
     = Ok ({| duplicate := true; committed_through_sequence := committed_through_sequence result |}, s'))
  /\ (forall later c', event_id (manifest c') = event_id (manifest c) -> cc_manifest_digest c' <> cc_manifest_digest c ->
        exists e, commit_event sha256 codecs later c' s' = Err e).
Proof.
  intros Hreach Hx Hlow Hkey Hfk; apply reachable_ok in Hreach.
  destruct (commit_event_inv _ _ _ _ _ Hx) as [Had Hcase].
  assert (Hdup : admitted c s' /\ drop_intent c s' = s'
    /\ preflight_row sha256 codecs (manifest c) (cc_manifest_digest c) (keys_of c) s' = Ok (Duplicate (committed_through_sequence result))).
  { destruct Hcase as [(ack & Hp & -> & ->)|(_ & Hn & _)].
    - split_and!; [by apply (admitted_stable _ s); [apply drop_intent_surroundings |] | apply drop_intent_twice |].
      by rewrite drop_intent_preflight.
    - assert (Hrec := insert_new_event_recorded _ _ _ _ _ Hn).
      destruct (insert_new_event_inv _ _ _ _ _ _ _ Hreach (proj1 (proj2 Had)) Hn) as (_ & stream & Hs & Hack).
      destruct (recorded_answers _ _ _ _ _ Hrec Hlow Hkey Hfk Hs Hack); split_and!; [| done..].
      by apply (admitted_stable _ s); [apply Hrec |]. }
  destruct Hdup as (Had' & Hdrop & Hp); split; [intros later; by apply commit_event_duplicate |].
  intros later c' Hid Hne; destruct (commit_event sha256 codecs later c' s') as [[r2 s2]|e] eqn:E; [| by exists e].
  destruct (known_digest _ _ _ _ _ Hp (manifest c') (cc_manifest_digest c') (keys_of c') Hid Hne) as (e & Herr).
  apply commit_event_inv in E as [_ [(ack & Hp' & _)|(Hp' & _)]]; congruence.
Qed.

(** An event past the seal of its stream is committed only by reopening
    its session: the seal was the audited current one, it fixed every stream
    of the session exactly at what it had acknowledged, and afterwards no
    stream of the session is sealed, the history has one more event, the
    reopening of that generation by this very event, and the session's
    formation is pending again with a new source revision. *)
Theorem late_event_reopens_session now c s result s' old z :
  commit_event sha256 codecs now c s = Ok (result, s') -> duplicate result = false ->
  streams s !! stream_id (manifest c) = Some old -> sealed_sequence old = Some z -> z < sequence (manifest c) ->
  let session := capture_session_id (manifest c) in
  exists generation rc maxima,
    audited session generation s
    /\ (forall id row, streams s !! id = Some row -> st_session row = session -> sealed_sequence row = Some (committed_through row))
    /\ unsealed session s'
    /\ receipts s !! session = Some rc /\ seal_generation rc = generation
    /\ seal_events s' = seal_events s ++ [reopen_event now session (event_id (manifest c)) (dirty_receipt now (Some rc)) maxima]
    /\ exists rc', receipts s' !! session = Some rc' /\ seal_finalized_at rc' = None
       /\ source_revision rc' = source_revision rc + 1 /\ rc_state rc' = ReceiptPending /\ rc_claim rc' = None.
Proof.
  intros Hx Hdup Hold Hz Hlt session; apply commit_event_inv in Hx as [_ [(ack & _ & -> & _)|(_ & Hx & _)]]; [done |].
  apply insert_new_event_phases in Hx as [row admission reopen asset r column wall started last
    ms known ack s3 s4 s5 s6 m s1 s2 _ Hadm Hplan _ _ H3 H4 H5 H6 H7 _].
  destruct (reopen_planned _ _ _ _ _ _ _ Hold Hz Hlt Hadm Hplan) as (rp & -> & Hseal & Hexact & Hs1); fold m s1 in Hs1, Hseal, Hexact; fold session in Hseal, Hexact.
  assert (Hin4 : formation_installed s4 = formation_installed s).
  { apply insert_media_ledger in H3; apply consume_intent_ledger in H4; unfold same, ledger in *; subst s2; rewrite Hs1 in *; simpl in *; congruence. }
  apply media_seals in H3; apply consume_seals in H4.
  assert (H24 : seal_record s4 = seal_record s) by (unfold same in *; rewrite H4, H3; subst s2; by rewrite Hs1).
  unfold seal_record in H24; rewrite !pair_equal_spec in H24; destruct H24 as [[_ Hse4] Hrc4].
  destruct (finalized_seal_audited _ _ _ Hseal) as (Hinst & (rc & Hrc & Hgen & Hfin) & Haud).
  apply acknowledge_reopens in H5 as (Hun & maxima & _ & Hse5 & Hrc5); [| by rewrite Hin4].
  fold m session in Hse5, Hrc5, Hun; rewrite Hrc4, Hrc in Hse5, Hrc5.
  assert (Hst6 := finish_streams _ _ _ _ _ H6).
  apply finish_seals in H6 as [Hse6 Hrc6]; destruct (Hrc6 _ _ Hrc5) as (rc' & Hrc' & Hf' & Hr' & Hs' & Hc').
  apply enrollment_seals in H7; unfold same, seal_record in H7; rewrite !pair_equal_spec in H7; destruct H7 as [[Hst7 Hse7] Hrc7].
  exists (reopen_generation rp), rc, maxima; split_and!; try done.
  - split_and!; [done | by exists rc | by apply Haud..].
  - intros id row' Hr Hs; by destruct (Hexact id row' Hr Hs).
  - intros id row'; rewrite Hst7, Hst6; apply Hun.
  - by rewrite Hse7, Hse6, Hse5, Hse4.
  - exists rc'; rewrite Hrc7; by split_and!.
Qed.

(** C7: the sealer finalizes a session's receipt only when older binaries are
    drained and the session was ready: finished and quiet for four hours,
    with every stream acknowledged exactly as far as it accepted, without a
    gap, and no media work left; and then every stream of the session is
    sealed, exactly there. *)
Theorem sealer_seals_quiet_sessions now s n s' session r' :
  finalize_quiet_capture_seals sha256 codecs now s = Ok (n, s') ->
  receipts s' !! session = Some r' -> receipts s !! session <> Some r' ->
  predecessor_drained s = true
  /\ exists r row, receipts s !! session = Some r /\ sessions s !! session = Some row
     /\ quiet now s session r row /\ r' = sealed_receipt now r
     /\ forall id stream, streams s' !! id = Some stream -> st_session stream = session -> boundary s' id stream.
Proof.
  intros Hx Hr' Hne; unfold finalize_quiet_capture_seals in Hx.
  apply then_Ok in Hx as (drained & ? & [-> ->]%select_Ok & Hx).
  destruct (predecessor_drained s) eqn:Hdr; simpl in Hx; [split; [done |] | by apply commits_Ok in Hx as [_ ->]].
  apply then_Ok in Hx as (candidates & ? & [-> ->]%select_Ok & Hx).
  apply then_Ok in Hx as (u & mid & Hloop & Hx); apply commits_Ok in Hx as [_ <-].
  set (untouched := fun s1 => receipts s1 !! session = receipts s !! session).
  set (done_ := fun s1 => exists r, session ∈ seal_candidates now s /\ receipts s !! session = Some r
    /\ receipts s1 !! session = Some (sealed_receipt now r)
    /\ forall id stream, streams s1 !! id = Some stream -> st_session stream = session -> boundary s1 id stream).
  assert (Hend : untouched s' \/ done_ s').
  { refine (keeps_for_each (fun a b => (untouched a \/ done_ a) -> (untouched b \/ done_ b)) _ _ _ _ _ _ Hloop (or_introl eq_refl)).
    intros other Hin s1 u1 s2 H1; destruct (seal_session_effect _ _ _ _ _ H1) as (r & Hr & Hfin & Hrc & Hst).
    destruct (decide (other = session)) as [->|Hoth].
    - intros [Hu|(r0 & _ & _ & Hd & _)]; [| by rewrite Hd in Hr; injection Hr as <-].
      right; exists r; split_and!; [done | by rewrite <- Hu | rewrite Hrc; apply lookup_insert_eq |].
      intros id stream Hs Hss; destruct (Hst _ _ Hs) as (? & _ & _ & _ & Hb); by apply Hb.
    - intros [Hu|(r0 & Hc & Hr0 & Hd & Hb)]; [left; unfold untouched; by rewrite Hrc, lookup_insert_ne |].
      right; exists r0; split_and!; [done | done | by rewrite Hrc, lookup_insert_ne |].
      intros id stream Hs Hss; destruct (Hst _ _ Hs) as (row & Hrow & Hsess & [->|Hbd] & _); [| done].
      destruct (Hb id row Hrow Hss) as (A & B & C).
      destruct (seal_session_extremes _ _ _ _ _ id H1) as [Hm Hn]; unfold boundary; by rewrite Hm, Hn. }
  destruct Hend as [Hu|(r & Hc & Hr & Hd & Hb)]; [by unfold untouched in Hu; congruence |].
  destruct (seal_candidate_ready _ _ _ Hc) as (r0 & row & Hr0 & Hrow & Hready).
  rewrite Hr in Hr0; injection Hr0 as <-; exists r, row; split_and!; [done.. | by apply seal_ready_quiet | congruence | done].
Qed.
End Theorems.

(** ** A concrete account *)

#[local] Instance no_voice : VoiceGraph unit :=
  {| erase_owner_samples := fun _ v => Ok v; refresh_domains := fun _ v => Ok v; requeue_embeddings := fun _ v => v |}.

Definition sample_codec : Codec := {|
  value_to_vec := fun _ => Some []; context_to_text := fun _ => Some (lit "context"); context_of_text := fun _ => Some sample_context;
  envelope_to_value := fun _ => Some Null; tabs_to_value := fun _ => Some Null; value_to_text := fun _ => Some (lit "null");
  value_of_text := fun _ => Some Null; jsonb := Some; jsonb_text := fun _ => [] |}.

Definition sample_account : Store unit := {|
  account_status := Some (lit "active"); sessions := ∅; streams := ∅; capture_events := ∅; deleted_sequences := ∅;
  media_objects := ∅; media_authorities := ∅; processing_jobs := []; outbox := ∅; upload_intents := ∅; media_key := None;
  browser_states := ∅; observations := ∅; receipts := ∅; formation_pages := []; seal_events := []; neighborhood_scans := [];
  formation_installed := true; interrupted_schema := Ok tt; activation_phase := Some (lit "active"); pending_deletions := [];
  erasure := Ok (Some {| upload_fenced := false; erased_sessions := ∅; erased_streams := ∅; erased_events := ∅; erased_assets := ∅ |});
  voice_enrollment := {| enrollment_rows := ∅; enrollment_revision_of := 0; voice := tt |} |}.

Definition sample_digest : str := replicate 64 (ch "a").

Definition first_event : CaptureEventManifest := sample_event "event-1" 0 Canonical (Some sample_media) None.

Definition first_commit : CaptureCommit := {|
  account_id := lit "user-1"; manifest := first_event; cc_manifest_digest := sample_digest;
  object_key := Some (lit "raw/user-1/asset-1.enc"); object_generation := Some 1; upload_token := Some (lit "upl_token");
  media_authority := Some (ProcessingWindow30d 0 (lit "2026-08-30T12:00:31.000Z"));
  committed_at := lit "2026-08-30T12:00:31.000Z" |}.

Definition reference_commit (id : string) (n : Z) : CaptureCommit := {|
  account_id := lit "user-1"; manifest := sample_event id n Reference None (Some sample_reference);
  cc_manifest_digest := sample_digest; object_key := None; object_generation := None; upload_token := None;
  media_authority := None; committed_at := lit "2026-08-30T12:00:31.000Z" |}.

#[local] Abbreviation commit now c := (commit_event (Voice := unit) sample_sha256 sample_codec now c).

Definition reserved_account : Store unit :=
  after (reserve_media_upload 0 (lit "user-1") (admission_identity first_event) (lit "raw/user-1/asset-1.enc") sample_digest (lit "token"))
    sample_account.
Definition account_1 : Store unit := after (commit 1 first_commit) reserved_account.
Definition account_2 : Store unit := after (commit 2 (reference_commit "event-2" 1)) account_1.

(** The media worker is done with the event, and the session is finished. *)
Definition finished_account : Store unit :=
  after (finish_session 4 (lit "session-1"))
    (set_jobs (fmap (fun j => {| jr_event_id := jr_event_id j; jr_kind := jr_kind j; jr_input_revision := jr_input_revision j;
       jr_version := jr_version j; jr_state := lit "succeeded"; jr_error_code := None; jr_attempt_count := 1; jr_updated_ms := 3 |}))
    (set_media (fmap (fun o => {| mr_object_key := mr_object_key o; mr_generation := mr_generation o; mr_media := mr_media o;
       mr_retain_until := mr_retain_until o; mr_created_ms := mr_created_ms o; mr_processing_state := lit "ready"; mr_deleted_ms := None |}))
    account_2)).
Definition quiet_time : Z := CAPTURE_SEAL_QUIET_MS + 4.
Definition sealed_account : Store unit :=
  after (finalize_quiet_capture_seals sample_sha256 sample_codec quiet_time) finished_account.

Lemma account_2_reachable : reachable sample_sha256 sample_codec account_2.
Proof.
  exists sample_account; split; [by split_and! |].
  eapply rtc_l; [eapply step_reserve, transact_after |].
  eapply rtc_l; [eapply step_commit, transact_after |].
  apply rtc_once; eapply step_commit, transact_after.
Qed.

Lemma reserved_reachable : reachable sample_sha256 sample_codec reserved_account.
Proof. exists sample_account; split; [by split_and! |]; apply rtc_once; eapply step_reserve, transact_after. Qed.


Lemma references_stay_grounded_witness :
  exists target, capture_events account_2 !! lit "event-1" = Some target /\ er_disposition target = Canonical.
Proof.
  destruct (references_stay_grounded sample_sha256 sample_codec account_2 (lit "event-2")
              (default (event_row 0 first_commit [] None None 0 0 0) (capture_events account_2 !! lit "event-2"))
              (lower_reference sample_reference) account_2_reachable) as (_ & target & Ht & Hc & _); [vm_compute; reflexivity.. |].
  exact (ex_intro _ target (conj Ht Hc)).
Defined.

Lemma replay_is_duplicate_witness :
  exists ack, commit 5 first_commit account_1 = Ok ({| duplicate := true; committed_through_sequence := ack |}, account_1).
Proof.
  assert (Hc : commit 1 first_commit reserved_account = Ok ({| duplicate := false; committed_through_sequence := 0 |}, account_1))
    by (vm_compute; reflexivity).
  assert (Hm : media_objects reserved_account = ∅) by (vm_compute; reflexivity).
  destruct (replay_is_duplicate sample_sha256 sample_codec 1 first_commit reserved_account _ account_1 reserved_reachable Hc) as [Hd _];
    [vm_compute; reflexivity | intros Hr; discriminate Hr | intros e o Ho; destruct (lookup_empty_Some e o (eq_trans (f_equal (lookup e) (eq_sym Hm)) Ho)) |].
  exists 0; exact (Hd 5).
Defined.

Lemma late_event_reopens_session_witness :
  exists s', commit quiet_time (reference_commit "event-3" 2) sealed_account
               = Ok ({| duplicate := false; committed_through_sequence := 2 |}, s')
    /\ unsealed (lit "session-1") s'.
Proof.
  eexists; assert (Hc : commit quiet_time (reference_commit "event-3" 2) sealed_account = Ok ({| duplicate := false; committed_through_sequence := 2 |}, _))
    by (vm_compute; reflexivity).
  split; [exact Hc |].
  destruct (late_event_reopens_session sample_sha256 sample_codec quiet_time (reference_commit "event-3" 2) sealed_account _ _
              (seal_at 1 (acknowledge 1 (new_stream first_event))) 1 Hc)
    as (g & rc & maxima & _ & _ & Hu & _); [done | vm_compute; reflexivity.. | exact Hu].
Defined.

Lemma sealer_seals_quiet_sessions_witness :
  exists row, streams sealed_account !! lit "stream-1" = Some row /\ boundary sealed_account (lit "stream-1") row.
Proof.
  eexists; split; [vm_compute; reflexivity |].
  destruct (sealer_seals_quiet_sessions sample_sha256 sample_codec quiet_time finished_account 1 sealed_account (lit "session-1")
              (default (new_receipt 0 None) (receipts sealed_account !! lit "session-1")))
    as (_ & r & row & _ & _ & _ & _ & Hb); [vm_compute; reflexivity.. | vm_compute; discriminate |].
  apply Hb; vm_compute; reflexivity.
Defined.
