(* ===== verification/AccountDb.v ===== *)
(** * The tables of accounts

    [migrations/0001_identity_oauth.sql], [0005_account_lifecycle.sql] and
    [0025]: accounts, their identities and Apple credentials, the tombstones
    of deleted ones, the signup budget, deletion operations, and the OAuth
    clients, consents, codes and refresh tokens.  A table is a finite map over
    its primary key; deleting a row deletes the rows whose foreign keys
    cascade from it.  Times are microseconds since the epoch, as Postgres
    keeps them, and a transaction reads one clock, [now()]. *)
From stdpp Require Import gmap.
From Stdlib Require Import ZArith Lia.
From S2P Require Import Prelude OrdMap Text Errors Txn.
Local Open Scope Z_scope.
Local Open Scope kioku_scope.

(** ** Rows *)

Record AccountRow := {
  a_email : str; a_status : str; a_primary_provider : str; a_primary_subject : str; a_created : Z; a_updated : Z
}.

(** Keyed by provider and subject. *)
Record IdentityRow := { i_account : str; i_email : str; i_last_seen : Z }.

(** Keyed by account and client. *)
Record CredentialRow := { cr_refresh_token : str; cr_validated : Z; cr_revoked : option Z }.

(** The hard-delete time is kept to the millisecond it is set and read with. *)
Record OperationRow := {
  op_operation_id : str; op_status : str; op_reason : str; op_retry_after_seconds : option Z;
  op_hard_delete_ms : option Z; op_updated : Z
}.

Record ClientRow := { c_name : option str; c_redirect_uris : list str; c_created : Z }.

Record ConsentRow := { cn_account : str; cn_client : str; cn_redirect_uri : str; cn_expires : Z }.

Record CodeRow := { co_account : str; co_client : str; co_expires : Z }.

Record RefreshRow := { rt_account : str; rt_client : str; rt_expires : Z; rt_revoked : option Z }.

(** ** The database *)

Record Identities := {
  accounts : gmap str AccountRow;
  identities : gmap (str * str) IdentityRow;
  credentials : gmap (str * str) CredentialRow;
  deleted_accounts : gset str;
  deleted_identities : gset (str * str);
  signups : gmap Z Z;
  operations : gmap str OperationRow
}.

Record Grants := {
  clients : gmap str ClientRow;
  consents : gmap str ConsentRow;
  codes : gmap str CodeRow;
  refresh_tokens : gmap str RefreshRow
}.

(** What account deletion needs of the delivery workers' tables: expired
    claims are recovered, open send fences are seen, delivery is switched off,
    and an account's rows go with it. *)
Class Delivery (Outbox : Type) := {
  recover_expired_claims : Z -> str -> Outbox -> res Outbox;
  has_email_fence : str -> Outbox -> bool;
  has_webhook_fence : str -> Outbox -> bool;
  has_push_fence : str -> Outbox -> bool;
  disable_delivery : Z -> str -> Outbox -> Outbox;
  erase_delivery : str -> Outbox -> Outbox
}.

Record Db {Outbox : Type} := {
  ids : Identities;
  grants : Grants;
  upload_intents : gmap (str * str) Z;  (* by account and event: when it expires *)
  reviewer_fixtures : gset str;
  started_invocations : gset str;
  billing_accounts : gmap str str;
  billing_detach_outbox : gset str;
  outbox : Outbox
}.
Arguments Db : clear implicits.

(** ** Statements *)

(** [SELECT EXISTS(SELECT 1 FROM table WHERE ...)] *)
Definition some_row {K R} `{Countable K} (keep : K * R -> bool) (rows : gmap K R) : bool :=
  existsb keep (map_to_list rows).

(** [DELETE FROM table WHERE NOT keep] *)
Definition keep_rows {K R} `{Countable K} (keep : R -> bool) (rows : gmap K R) : gmap K R :=
  filter (fun kv => keep kv.2 = true) rows.

Lemma lookup_keep_rows {K R} `{Countable K} (keep : R -> bool) (rows : gmap K R) k r :
  keep_rows keep rows !! k = Some r <-> rows !! k = Some r /\ keep r = true.
Proof. unfold keep_rows; by rewrite map_lookup_filter_Some. Qed.

Lemma some_row_true {K R} `{Countable K} (keep : K * R -> bool) (rows : gmap K R) :
  some_row keep rows = true <-> exists k r, rows !! k = Some r /\ keep (k, r) = true.
Proof.
  unfold some_row; rewrite existsb_exists; split.
  - intros ([k r] & Hin & Hk); exists k, r; split; [by apply elem_of_map_to_list, list_elem_of_In | done].
  - intros (k & r & Hr & Hk); exists (k, r); split; [by apply list_elem_of_In, elem_of_map_to_list | done].
Qed.

Lemma str_eqb_neq a b : str_eqb a b = false <-> a <> b.
Proof. unfold str_eqb; by rewrite bool_decide_eq_false. Qed.

Section Statements.
Context {Outbox : Type}.
Implicit Types s : Db Outbox.

Definition set_ids (f : Identities -> Identities) s : Db Outbox :=
  {| ids := f (ids s); grants := grants s; upload_intents := upload_intents s; reviewer_fixtures := reviewer_fixtures s;
     started_invocations := started_invocations s; billing_accounts := billing_accounts s;
     billing_detach_outbox := billing_detach_outbox s; outbox := outbox s |}.

Definition set_grants (f : Grants -> Grants) s : Db Outbox :=
  {| ids := ids s; grants := f (grants s); upload_intents := upload_intents s; reviewer_fixtures := reviewer_fixtures s;
     started_invocations := started_invocations s; billing_accounts := billing_accounts s;
     billing_detach_outbox := billing_detach_outbox s; outbox := outbox s |}.

Definition set_uploads (f : gmap (str * str) Z -> gmap (str * str) Z) s : Db Outbox :=
  {| ids := ids s; grants := grants s; upload_intents := f (upload_intents s); reviewer_fixtures := reviewer_fixtures s;
     started_invocations := started_invocations s; billing_accounts := billing_accounts s;
     billing_detach_outbox := billing_detach_outbox s; outbox := outbox s |}.

Definition set_outbox (f : Outbox -> Outbox) s : Db Outbox :=
  {| ids := ids s; grants := grants s; upload_intents := upload_intents s; reviewer_fixtures := reviewer_fixtures s;
     started_invocations := started_invocations s; billing_accounts := billing_accounts s;
     billing_detach_outbox := billing_detach_outbox s; outbox := f (outbox s) |}.

Definition set_detach (f : gset str -> gset str) s : Db Outbox :=
  {| ids := ids s; grants := grants s; upload_intents := upload_intents s; reviewer_fixtures := reviewer_fixtures s;
     started_invocations := started_invocations s; billing_accounts := billing_accounts s;
     billing_detach_outbox := f (billing_detach_outbox s); outbox := outbox s |}.

Definition set_accounts f : Db Outbox -> Db Outbox := set_ids (fun i =>
  {| accounts := f (accounts i); identities := identities i; credentials := credentials i; deleted_accounts := deleted_accounts i;
     deleted_identities := deleted_identities i; signups := signups i; operations := operations i |}).

Definition set_identities f : Db Outbox -> Db Outbox := set_ids (fun i =>
  {| accounts := accounts i; identities := f (identities i); credentials := credentials i; deleted_accounts := deleted_accounts i;
     deleted_identities := deleted_identities i; signups := signups i; operations := operations i |}).

Definition set_credentials f : Db Outbox -> Db Outbox := set_ids (fun i =>
  {| accounts := accounts i; identities := identities i; credentials := f (credentials i); deleted_accounts := deleted_accounts i;
     deleted_identities := deleted_identities i; signups := signups i; operations := operations i |}).

Definition set_deleted_accounts f : Db Outbox -> Db Outbox := set_ids (fun i =>
  {| accounts := accounts i; identities := identities i; credentials := credentials i; deleted_accounts := f (deleted_accounts i);
     deleted_identities := deleted_identities i; signups := signups i; operations := operations i |}).

Definition set_deleted_identities f : Db Outbox -> Db Outbox := set_ids (fun i =>
  {| accounts := accounts i; identities := identities i; credentials := credentials i; deleted_accounts := deleted_accounts i;
     deleted_identities := f (deleted_identities i); signups := signups i; operations := operations i |}).

Definition set_signups f : Db Outbox -> Db Outbox := set_ids (fun i =>
  {| accounts := accounts i; identities := identities i; credentials := credentials i; deleted_accounts := deleted_accounts i;
     deleted_identities := deleted_identities i; signups := f (signups i); operations := operations i |}).

Definition set_operations f : Db Outbox -> Db Outbox := set_ids (fun i =>
  {| accounts := accounts i; identities := identities i; credentials := credentials i; deleted_accounts := deleted_accounts i;
     deleted_identities := deleted_identities i; signups := signups i; operations := f (operations i) |}).

Definition set_clients f : Db Outbox -> Db Outbox := set_grants (fun g =>
  {| clients := f (clients g); consents := consents g; codes := codes g; refresh_tokens := refresh_tokens g |}).

Definition set_consents f : Db Outbox -> Db Outbox := set_grants (fun g =>
  {| clients := clients g; consents := f (consents g); codes := codes g; refresh_tokens := refresh_tokens g |}).

Definition set_codes f : Db Outbox -> Db Outbox := set_grants (fun g =>
  {| clients := clients g; consents := consents g; codes := f (codes g); refresh_tokens := refresh_tokens g |}).

Definition set_refresh_tokens f : Db Outbox -> Db Outbox := set_grants (fun g =>
  {| clients := clients g; consents := consents g; codes := codes g; refresh_tokens := f (refresh_tokens g) |}).

(** A statement the schema's constraints refuse. *)
Definition violates (condition : bool) : txn (Db Outbox) unit := abort_if condition Postgres.

(** [EXISTS (SELECT 1 FROM accounts WHERE id = $1 AND status = 'active')] *)
Definition status_of (account : str) s : option str := a_status <$> accounts (ids s) !! account.

Definition is_active (account : str) s : bool := bool_decide (status_of account s = Some (lit "active")).

(** [DELETE FROM oauth_clients WHERE client_id = ...]: the client's grants go
    with it. *)
Definition delete_clients (gone : str -> bool) : Db Outbox -> Db Outbox := set_grants (fun g =>
  {| clients := filter (fun kv => gone kv.1 = false) (clients g);
     consents := keep_rows (fun r => negb (gone (cn_client r))) (consents g);
     codes := keep_rows (fun r => negb (gone (co_client r))) (codes g);
     refresh_tokens := keep_rows (fun r => negb (gone (rt_client r))) (refresh_tokens g) |}).

(** An account's consents, codes and refresh tokens. *)
Definition delete_grants (account : str) : Db Outbox -> Db Outbox := set_grants (fun g =>
  {| clients := clients g;
     consents := keep_rows (fun r => negb (str_eqb (cn_account r) account)) (consents g);
     codes := keep_rows (fun r => negb (str_eqb (co_account r) account)) (codes g);
     refresh_tokens := keep_rows (fun r => negb (str_eqb (rt_account r) account)) (refresh_tokens g) |}).

(** [DELETE FROM accounts WHERE id = $1], which cascades to every row the
    account owns. *)
Definition delete_account `{Delivery Outbox} (account : str) s : Db Outbox :=
  let s1 := delete_grants account (set_ids (fun i =>
    {| accounts := delete account (accounts i);
       identities := keep_rows (fun r => negb (str_eqb (i_account r) account)) (identities i);
       credentials := filter (fun kv => str_eqb kv.1.1 account = false) (credentials i);
       deleted_accounts := deleted_accounts i; deleted_identities := deleted_identities i;
       signups := signups i; operations := operations i |}) s) in
  {| ids := ids s1; grants := grants s1;
     upload_intents := filter (fun kv => str_eqb kv.1.1 account = false) (upload_intents s1);
     reviewer_fixtures := reviewer_fixtures s1 ∖ {[account]}; started_invocations := started_invocations s1 ∖ {[account]};
     billing_accounts := delete account (billing_accounts s1); billing_detach_outbox := billing_detach_outbox s1;
     outbox := erase_delivery account (outbox s1) |}.
End Statements.
