(* ===== verification/Identity.v ===== *)
(** * Accounts and their identities

    The account ids of [cp/tokens.rs] and the repository of
    [persistence/identity.rs], as [persistence/postgres/identity.rs]
    implements it: an account is made for a verified subject under the day's
    signup budget, or found again by its identity; a tombstoned account or
    identity is refused; an Apple identity may be linked to an account. *)
From stdpp Require Import gmap.
From Stdlib Require Import ZArith Lia.
From S2P Require Import Prelude OrdMap Text Errors Bytes Txn AccountDb.
Local Open Scope Z_scope.
Local Open Scope kioku_scope.

(** ** Account ids, as [tokens.rs] derives them *)

Definition NAMESPACE_KIOKU_USER : bytes :=
  [0xa7; 0x4f; 0x6e; 0x9c; 0xc4; 0x76; 0x4b; 0x8f; 0x83; 0x8e; 0x92; 0xd3; 0xf6; 0x04; 0x2e; 0x9a]%N.

(** The hexadecimal form of sixteen bytes, 8-4-4-4-12. *)
Definition uuid_text (b : bytes) : str :=
  join (lit "-") [hex_of_bytes (take 4 b); hex_of_bytes (take 2 (drop 4 b)); hex_of_bytes (take 2 (drop 6 b));
                  hex_of_bytes (take 2 (drop 8 b)); hex_of_bytes (drop 10 b)].

(** [b[6] = (b[6] & 0x0f) | version; b[8] = (b[8] & 0x3f) | 0x80] *)
Definition stamp_version (version : N) (b : bytes) : bytes :=
  alter (fun x => N.lor (N.land x 0x3f) 0x80) 8%nat (alter (fun x => N.lor (N.land x 0x0f) version) 6%nat b).

Section Ids.
Context (sha256 : bytes -> bytes).

Definition derive_stable_uuid (google_sub : str) : str :=
  uuid_text (stamp_version 0x50 (take 16 (sha256 (NAMESPACE_KIOKU_USER ++ as_bytes google_sub)))).

Definition derive_provider_uuid (provider subject : str) : str :=
  if str_eqb provider (lit "google") then derive_stable_uuid subject
  else derive_stable_uuid (provider ++ [0%N] ++ subject).
End Ids.

(** ** The repository's data *)

Record Account := { account_id : str; email : str }.

Record AccountUpsert := { account : Account; signup_accounts_today : option Z }.

Inductive AccountStatus := Active | DeletionRequested | Deleting | Deleted | Unavailable.

Definition from_database (value : str) : AccountStatus :=
  if str_eqb value (lit "active") then Active
  else if str_eqb value (lit "deletion_requested") then DeletionRequested
  else if str_eqb value (lit "deleting") then Deleting
  else if str_eqb value (lit "deleted") then Deleted
  else Unavailable.

Record AccountSession := { session_account : Account; providers : list str }.

Record AppleAccountGrant := { g_subject : str; g_email : str; g_client_id : str; g_refresh_token : str }.

(** ** The repository *)

Definition DAY_US : Z := 86_400_000_000.
(** [CURRENT_DATE], in UTC. *)
Definition current_date (now : Z) : Z := now / DAY_US.

Definition google : str := lit "google".
Definition apple : str := lit "apple".

Section Repository.
Context {Outbox : Type} (sha256 : bytes -> bytes) `{Unicode}.
Implicit Types s : Db Outbox.

#[local] Abbreviation txn := (txn (Db Outbox)).

Definition deleted_account_or_identity (account : str) (identity : str * str) s : bool :=
  bool_decide (account ∈ deleted_accounts (ids s)) || bool_decide (identity ∈ deleted_identities (ids s)).

(** One unit of the day's budget. *)
Definition reserve_signup (now limit : Z) : txn Z :=
  abort_if (limit <=? 0) SignupLimited ^;
  let day := current_date now in
  let^ used := select (fun s => signups (ids s) !! day) in
  match used with
  | Some n => if n <? limit then execute (set_signups (insert day (n + 1))) else aborts SignupLimited
  | None => execute (set_signups (insert day 1))
  end ^;
  execute (set_signups (filter (fun kv => day - 30 <= kv.1))) ^;
  commits (default 0 used + 1).

Definition insert_account (now : Z) (id : str) (email : str) (provider subject : str) : txn unit :=
  let^ taken := select (fun s => bool_decide (is_Some (accounts (ids s) !! id))
    || some_row (fun kv => str_eqb (a_primary_provider kv.2) provider && str_eqb (a_primary_subject kv.2) subject) (accounts (ids s))) in
  violates taken ^;
  execute (set_accounts (insert id {| a_email := email; a_status := lit "active"; a_primary_provider := provider;
    a_primary_subject := subject; a_created := now; a_updated := now |})).

(** The account's identity with the provider, if it has one. *)
Definition linked_subject (provider account : str) s : option str :=
  (fun kv => kv.1.2) <$> List.find (fun kv => str_eqb kv.1.1 provider && str_eqb (i_account kv.2) account) (map_to_list (identities (ids s))).

Definition insert_identity (now : Z) (identity : str * str) (account email : str) : txn unit :=
  let^ taken := select (fun s => bool_decide (is_Some (identities (ids s) !! identity))
    || bool_decide (is_Some (linked_subject identity.1 account s)) || bool_decide (accounts (ids s) !! account = None)) in
  violates taken ^;
  execute (set_identities (insert identity {| i_account := account; i_email := email; i_last_seen := now |})).

Definition see_identity (now : Z) (identity : str * str) (email : str) : txn unit :=
  execute (set_identities (alter (fun r => {| i_account := i_account r; i_email := email; i_last_seen := now |}) identity)).

Definition set_account_email (now : Z) (id email : str) : txn unit :=
  execute (set_accounts (alter (fun r => {| a_email := email; a_status := a_status r; a_primary_provider := a_primary_provider r;
    a_primary_subject := a_primary_subject r; a_created := a_created r; a_updated := now |}) id)).

(** The identity joined with its account. *)
Definition account_of (identity : str * str) s : option (str * AccountRow) :=
  match identities (ids s) !! identity with
  | Some i => match accounts (ids s) !! i_account i with Some a => Some (i_account i, a) | None => None end
  | None => None
  end.

Definition upsert_subject_account (now : Z) (subject email : str) (signup_limit_per_day : Z) : txn AccountUpsert :=
  let provider := google in
  let stable_id := derive_stable_uuid sha256 subject in
  let^ deleted := select (deleted_account_or_identity stable_id (provider, subject)) in
  abort_if deleted (Auth (lit "account deleted")) ^;
  let^ existing := select (account_of (provider, subject)) in
  match existing with
  | Some (account_id, a) =>
    abort_if (negb (str_eqb (a_status a) (lit "active"))) (Auth (lit "account inactive")) ^;
    abort_if (negb (str_eqb account_id stable_id)) (Conflict (lit "provider identity resolved to an unexpected account")) ^;
    see_identity now (provider, subject) email ^;
    set_account_email now account_id email ^;
    commits {| account := {| account_id := account_id; email := email |}; signup_accounts_today := None |}
  | None =>
    let^ accounts_today := reserve_signup now signup_limit_per_day in
    insert_account now stable_id email provider subject ^;
    insert_identity now (provider, subject) stable_id email ^;
    commits {| account := {| account_id := stable_id; email := email |}; signup_accounts_today := Some accounts_today |}
  end.

(** A live credential, whatever was there. *)
Definition upsert_credential (now : Z) (account client refresh_token : str) : txn unit :=
  let^ orphan := select (fun s => bool_decide (accounts (ids s) !! account = None)) in
  violates orphan ^;
  execute (set_credentials (insert (account, client)
    {| cr_refresh_token := refresh_token; cr_validated := now; cr_revoked := None |})).

(** The account found by an Apple identity, or made for it. *)
Definition apple_account (now : Z) (grant : AppleAccountGrant) (email stable_id : str) (signup_limit_per_day : Z) :
    txn (str * str * option Z) :=
  let subject := g_subject grant in
  let^ existing := select (account_of (apple, subject)) in
  match existing with
  | Some (account_id, a) =>
    abort_if (negb (str_eqb (a_status a) (lit "active"))) (Auth (lit "account inactive")) ^;
    see_identity now (apple, subject) email ^;
    if str_eqb (a_primary_provider a) apple && str_eqb (a_primary_subject a) subject
    then set_account_email now account_id email ^; commits (account_id, email, None)
    else commits (account_id, a_email a, None)
  | None =>
    let^ collision := select (fun s => accounts (ids s) !! stable_id) in
    abort_if (bool_decide (is_Some collision)) (Conflict (lit "provider identity collision")) ^;
    let^ accounts_today := reserve_signup now signup_limit_per_day in
    insert_account now stable_id email apple subject ^;
    insert_identity now (apple, subject) stable_id email ^;
    commits (stable_id, email, Some accounts_today)
  end.

Definition upsert_apple_account (now : Z) (grant : AppleAccountGrant) (signup_limit_per_day : Z) : txn AccountUpsert :=
  let email := to_lowercase (g_email grant) in
  let stable_id := derive_provider_uuid sha256 apple (g_subject grant) in
  let^ deleted := select (deleted_account_or_identity stable_id (apple, g_subject grant)) in
  abort_if deleted (Auth (lit "account deleted")) ^;
  let^ (account_id, primary_email, signup_accounts_today) := apple_account now grant email stable_id signup_limit_per_day in
  upsert_credential now account_id (g_client_id grant) (g_refresh_token grant) ^;
  commits {| account := {| account_id := account_id; email := primary_email |}; signup_accounts_today := signup_accounts_today |}.

Definition link_apple_identity (now : Z) (account_id : str) (grant : AppleAccountGrant) : txn unit :=
  let email := to_lowercase (g_email grant) in
  let identity := (apple, g_subject grant) in
  let^ status := select (status_of account_id) in
  abort_if (negb (bool_decide (status = Some (lit "active")))) (Auth (lit "account inactive")) ^;
  let^ identity_deleted := select (fun s => bool_decide (identity ∈ deleted_identities (ids s))) in
  abort_if identity_deleted (Auth (lit "identity deleted")) ^;
  let^ owner := select (fun s => i_account <$> identities (ids s) !! identity) in
  abort_if (match owner with Some o => negb (str_eqb o account_id) | None => false end)
           (Conflict (lit "Apple identity is linked to another account")) ^;
  let^ other := select (linked_subject apple account_id) in
  abort_if (match other with Some linked => negb (str_eqb linked (g_subject grant)) | None => false end)
           (Conflict (lit "account already has a different Apple identity")) ^;
  match owner with
  | Some _ => see_identity now identity email
  | None => insert_identity now identity account_id email
  end ^;
  upsert_credential now account_id (g_client_id grant) (g_refresh_token grant).

(** ** Reads *)

Definition account_status (account_id : str) s : option AccountStatus :=
  from_database <$>
    match status_of account_id s with
    | Some status => Some status
    | None => if decide (account_id ∈ deleted_accounts (ids s)) then Some (lit "deleted") else None
    end.

Definition account_session (account_id : str) s : option AccountSession :=
  match accounts (ids s) !! account_id with
  | Some a =>
    if str_eqb (a_status a) (lit "active")
    then Some {| session_account := {| account_id := account_id; email := a_email a |};
                 providers := sort_by ord_leb
                   ((fun kv => kv.1.1) <$> List.filter (fun kv => str_eqb (i_account kv.2) account_id) (map_to_list (identities (ids s)))) |}
    else None
  | None => None
  end.
End Repository.
