(* ===== verification/Lifecycle.v ===== *)
(** * The deletion of an account

    [persistence/lifecycle.rs], as [persistence/postgres/lifecycle.rs]
    implements it.  A request closes admission and records an operation; once
    admitted work has settled the deletion begins, which revokes every grant;
    at the end the account's row is deleted with all it owns, and tombstones
    of the account and its identities remain. *)
From stdpp Require Import gmap.
From Stdlib Require Import ZArith Lia.
From S2P Require Import Prelude OrdMap Text Errors IsoTime Txn AccountDb.
Local Open Scope Z_scope.
Local Open Scope kioku_scope.

Record AccountDeletionOperation := {
  operation_id : str; status : str; reason : str; retry_after_seconds : option Z; hard_delete_time : option str
}.

Definition DELETION_REQUEST_REASON : str := lit "billing_fence_in_progress".
Definition DELETION_PENDING_REASON : str := lit "content_deletion_in_progress".

(** A retry delay the schema keeps nonnegative. *)
Definition deletion_operation_from_row (r : OperationRow) : res AccountDeletionOperation :=
  match op_retry_after_seconds r with
  | Some n =>
    let? _ := refuse (n <? 0) (Errors.Store (lit "invalid persisted account-deletion retry delay")) in
    Ok {| operation_id := op_operation_id r; status := op_status r; reason := op_reason r; retry_after_seconds := Some n;
          hard_delete_time := format_epoch_millis <$> op_hard_delete_ms r |}
  | None =>
    Ok {| operation_id := op_operation_id r; status := op_status r; reason := op_reason r; retry_after_seconds := None;
          hard_delete_time := format_epoch_millis <$> op_hard_delete_ms r |}
  end.

Section Lifecycle.
Context {Outbox : Type} `{D : Delivery Outbox} (now : Z).
Implicit Types s : Db Outbox.

#[local] Abbreviation txn := (txn (Db Outbox)).

Definition load_operation (account : str) : txn (option AccountDeletionOperation) :=
  let^ row := select (fun s => operations (ids s) !! account) in
  match row with
  | Some r => let^ operation := try_res (deletion_operation_from_row r) in commits (Some operation)
  | None => commits None
  end.

(** The operation of an account that must have one. *)
Definition loaded_operation (account : str) (missing : EnclaveError) : txn AccountDeletionOperation :=
  let^ operation := load_operation account in try_res (ok_or operation missing).

(** [random] is the token the operation's id is made of. *)
Definition ensure_deletion_operation (random account reason : str) : txn AccountDeletionOperation :=
  execute (set_operations (fun m => match m !! account with
    | Some _ => m
    | None => <[account := {| op_operation_id := lit "del_" ++ random; op_status := lit "pending"; op_reason := reason;
        op_retry_after_seconds := Some 30; op_hard_delete_ms := None; op_updated := now |}]> m
    end)) ^;
  loaded_operation account (Errors.Store (lit "failed to initialize account deletion operation")).

(** The first kind of provider whose send is in flight. *)
Definition open_provider_fence (account : str) s : option EnclaveError :=
  if has_email_fence account (outbox s) then Some (Conflict (lit "account has an in-flight email send"))
  else if has_webhook_fence account (outbox s) then Some (Conflict (lit "account has an in-flight webhook send"))
  else if has_push_fence account (outbox s) then Some (Conflict (lit "account has an in-flight push send"))
  else None.

Definition refuse_open_provider_fences (account : str) : txn unit :=
  let^ fence := select (open_provider_fence account) in
  match fence with Some e => aborts e | None => commits tt end.

Definition refuse_started_vertex_invocations (account : str) : txn unit :=
  let^ started := select (fun s => bool_decide (account ∈ started_invocations s)) in
  abort_if started (Conflict (lit "account has an in-flight Vertex invocation")).

Definition recover_expired_provider_claims (account : str) : txn unit :=
  let^ recovered := select (fun s => recover_expired_claims now account (outbox s)) in
  let^ o := try_res recovered in
  execute (set_outbox (fun _ => o)).

Definition refuse_reviewer_fixture_deletion (account : str) : txn unit :=
  let^ protected := select (fun s => bool_decide (account ∈ reviewer_fixtures s)) in
  abort_if protected (Conflict (lit "reviewer fixture accounts cannot be deleted")).

(** Expired upload intents go; whether one is left. *)
Definition expire_media_uploads (account : str) : txn bool :=
  execute (set_uploads (filter (fun kv => str_eqb kv.1.1 account && (kv.2 <=? now) = false))) ^;
  select (fun s => some_row (fun kv => str_eqb kv.1.1 account) (upload_intents s)).

Definition refuse_active_media_uploads (account : str) : txn unit :=
  let^ active := expire_media_uploads account in
  abort_if active (Conflict (lit "account has an in-flight media upload")).

Definition tombstoned (account : str) s : bool :=
  bool_decide (accounts (ids s) !! account = None) && bool_decide (account ∈ deleted_accounts (ids s)).

Definition in_deletion (status : option str) : bool :=
  match status with Some v => one_of v ["deletion_requested"; "deleting"]%string | None => false end.

Definition set_status (account status : str) : Db Outbox -> Db Outbox :=
  set_accounts (alter (fun r => {| a_email := a_email r; a_status := status; a_primary_provider := a_primary_provider r;
    a_primary_subject := a_primary_subject r; a_created := a_created r; a_updated := now |}) account).

Definition identity_row_remains : EnclaveError := Conflict (lit "physically complete deletion operation still has an identity row").

(** ** The operations *)

Definition request_account_deletion (random account : str) : txn (option AccountDeletionOperation) :=
  refuse_reviewer_fixture_deletion account ^;
  let^ current := select (status_of account) in
  let^ gone := select (tombstoned account) in
  if gone then load_operation account
  else if negb (in_deletion current || bool_decide (current = Some (lit "active"))) then commits None
  else
    let^ operation := ensure_deletion_operation random account DELETION_REQUEST_REASON in
    abort_if (str_eqb (status operation) (lit "physical_complete")) identity_row_remains ^;
    (if bool_decide (current = Some (lit "active")) then execute (set_status account (lit "deletion_requested")) else commits tt) ^;
    commits (Some operation).

Definition account_deletion_preflight_complete (account : str) : txn bool :=
  let^ current := select (status_of account) in
  if negb (in_deletion current) then commits false
  else
    recover_expired_provider_claims account ^;
    let^ fence := select (open_provider_fence account) in
    let^ active := expire_media_uploads account in
    commits (bool_decide (fence = None) && negb active).

(** What the beginning of a requested deletion revokes. *)
Definition revoke_everything (account : str) s : Db Outbox :=
  set_outbox (disable_delivery now account) (delete_grants account (set_status account (lit "deleting") s)).

Definition set_operation_reason (account reason : str) : Db Outbox -> Db Outbox :=
  set_operations (alter (fun r => if str_eqb (op_status r) (lit "pending")
    then {| op_operation_id := op_operation_id r; op_status := op_status r; op_reason := reason; op_retry_after_seconds := Some 30;
            op_hard_delete_ms := op_hard_delete_ms r; op_updated := now |}
    else r) account).

Definition begin_account_deletion (random account : str) : txn (option AccountDeletionOperation) :=
  refuse_reviewer_fixture_deletion account ^;
  let^ current := select (status_of account) in
  let^ gone := select (tombstoned account) in
  refuse_open_provider_fences account ^;
  refuse_started_vertex_invocations account ^;
  refuse_active_media_uploads account ^;
  if negb gone && negb (in_deletion current) then commits None
  else
    (if bool_decide (current = Some (lit "deletion_requested")) then execute (revoke_everything account) else commits tt) ^;
    let^ operation := ensure_deletion_operation random account DELETION_PENDING_REASON in
    let^ operation :=
      (if str_eqb (reason operation) DELETION_REQUEST_REASON
       then execute (set_operation_reason account DELETION_PENDING_REASON) ^;
            loaded_operation account (Errors.Store (lit "account deletion operation disappeared"))
       else commits operation) in
    abort_if (negb gone && str_eqb (status operation) (lit "physical_complete")) identity_row_remains ^;
    commits (Some operation).

(** An update of the account's operation, which must exist. *)
Definition update_operation (account : str) (f : OperationRow -> OperationRow) : txn AccountDeletionOperation :=
  let^ row := select (fun s => operations (ids s) !! account) in
  abort_if (bool_decide (row = None)) (Conflict (lit "account deletion operation was not initialized")) ^;
  execute (set_operations (alter f account)) ^;
  loaded_operation account (Errors.Store (lit "account deletion operation disappeared")).

Definition update_account_deletion_status (account reason : str) (retry_after_seconds : option Z) (hard_delete_time : option str) :
    txn AccountDeletionOperation :=
  abort_if (match retry_after_seconds with Some n => I64.max_value <? n | None => false end)
           (Errors.Store (lit "account-deletion retry delay is too large")) ^;
  let^ hard_delete_millis := try_res
    match hard_delete_time with
    | Some value => let? ms := ok_or (parse_epoch_millis value) (Errors.Store (lit "account-deletion hard-delete time is invalid")) in Ok (Some ms)
    | None => Ok None
    end in
  update_operation account (fun r => {| op_operation_id := op_operation_id r; op_status := lit "pending"; op_reason := reason;
    op_retry_after_seconds := retry_after_seconds; op_hard_delete_ms := hard_delete_millis; op_updated := now |}).

(** The tombstones of an account and its identities, and the erasure of its
    row with all it owns. *)
Definition bury_account (account : str) s : Db Outbox :=
  delete_account account
    (set_detach (fun l => match billing_accounts s !! account with Some billing => {[billing]} ∪ l | None => l end)
      (set_deleted_accounts (fun d => {[account]} ∪ d)
        (set_deleted_identities (fun d => list_to_set ((fun kv => kv.1) <$>
           List.filter (fun kv => str_eqb (i_account kv.2) account) (map_to_list (identities (ids s)))) ∪ d) s))).

Definition finalize_account_deletion (account : str) : txn AccountDeletionOperation :=
  refuse_open_provider_fences account ^;
  let^ current := select (status_of account) in
  refuse_active_media_uploads account ^;
  match current with
  | None =>
    let^ gone := select (fun s => bool_decide (account ∈ deleted_accounts (ids s))) in
    abort_if (negb gone) (Conflict (lit "account is unavailable"))
  | Some status =>
    abort_if (negb (str_eqb status (lit "deleting"))) (Conflict (lit "account deletion was not initialized")) ^;
    let^ unrevoked := select (fun s =>
      some_row (fun kv => str_eqb kv.1.1 account && bool_decide (cr_revoked kv.2 = None)) (credentials (ids s))) in
    abort_if unrevoked (Conflict (lit "Apple credential revocation is incomplete")) ^;
    execute (bury_account account)
  end ^;
  update_operation account (fun r => {| op_operation_id := op_operation_id r; op_status := lit "physical_complete";
    op_reason := lit "content_deleted"; op_retry_after_seconds := None; op_hard_delete_ms := None; op_updated := now |}).

Definition mark_apple_credential_revoked (account client : str) : txn unit :=
  let^ row := select (fun s => credentials (ids s) !! (account, client)) in
  abort_if (bool_decide (row = None)) (Conflict (lit "Apple credential disappeared before revocation settlement")) ^;
  execute (set_credentials (alter (fun r => {| cr_refresh_token := cr_refresh_token r; cr_validated := cr_validated r;
    cr_revoked := Some (default now (cr_revoked r)) |}) (account, client))).

(** ** Reads *)

(** The accounts whose deletion the sweep still has to do, the least recently
    touched first. *)
Definition deleting_account_ids (limit : Z) s : res (list str) :=
  let? _ := refuse (I64.max_value <? limit) (Errors.Store (lit "account-deletion sweep limit is too large")) in
  let pending := List.filter (fun kv => in_deletion (Some (a_status kv.2))
    && match operations (ids s) !! kv.1 with Some o => str_eqb (op_status o) (lit "pending") | None => true end)
    (map_to_list (accounts (ids s))) in
  Ok (take (Z.to_nat limit) (fst <$> sort_by_key (fun kv =>
    (match operations (ids s) !! kv.1 with Some o => op_updated o | None => a_created kv.2 end, kv.1)) pending)).

Definition apple_refresh_credentials (account : str) s : list (str * str) :=
  sort_by_key fst ((fun kv => (kv.1.2, cr_refresh_token kv.2)) <$>
    List.filter (fun kv => str_eqb kv.1.1 account && bool_decide (cr_revoked kv.2 = None)) (map_to_list (credentials (ids s)))).
End Lifecycle.
