(* ===== verification/OAuthStore.v ===== *)
(** * OAuth clients, consents, codes and refresh tokens

    [persistence/oauth.rs], as [persistence/postgres/oauth.rs] implements it.
    Only digests of tokens reach these transactions; each consumes and
    replaces rows atomically. *)
From stdpp Require Import gmap.
From Stdlib Require Import ZArith Lia.
From S2P Require Import Prelude OrdMap Text Errors Txn AccountDb.
Local Open Scope Z_scope.
Local Open Scope kioku_scope.

(** ** Requests.  A duration is in whole seconds. *)

Record OAuthClient := { cl_id : str; cl_name : option str; cl_redirect_uris : list str }.

Record OAuthClientDefinition := {
  cd_id : str; cd_name : str; cd_redirect_uris : list str; cd_allow_empty_redirect_upgrade : bool
}.

Record OAuthClientRegistrationRequest := {
  rg_proposed_id : str; rg_name : option str; rg_redirect_uris : list str; rg_protected : str * str; rg_capacity : Z; rg_unused_ttl : Z
}.

Inductive OAuthClientRegistration := Existing (client : str) | Created (client : str) | AtCapacity.

Record PendingConsent := { pc_consent_hash : str; pc_account : str; pc_client : str; pc_redirect_uri : str; pc_ttl : Z }.

Record ConsentApproval := {
  ap_consent_hash : str; ap_code_hash : str; ap_account : str; ap_client : str; ap_redirect_uri : str; ap_code_ttl : Z
}.

Record DirectAuthorizationCode := { dc_code_hash : str; dc_account : str; dc_client : str; dc_ttl : Z }.

Record AuthorizationCodeExchange := {
  ex_code_hash : str; ex_account : str; ex_client : str; ex_refresh_token_hash : str; ex_refresh_ttl : Z
}.

Record RefreshTokenRotation := { ro_old_token_hash : str; ro_client : str; ro_new_token_hash : str; ro_refresh_ttl : Z }.

Record NativeSessionRefresh := { ns_account : str; ns_client : OAuthClientDefinition; ns_refresh_token_hash : str; ns_refresh_ttl : Z }.

(** [duration_seconds] and [make_interval(secs => ...)]: the seconds the
    program passes are exact as doubles. *)
Definition duration_seconds (seconds : Z) : res Z :=
  let? _ := refuse (I64.max_value <? seconds) (Errors.Store (lit "persistence duration exceeds PostgreSQL interval range")) in
  Ok (seconds * 1_000_000).

Section Store.
Context {Outbox : Type} (now : Z).
Implicit Types s : Db Outbox.

#[local] Abbreviation txn := (txn (Db Outbox)).

Definition same_strs (a b : list str) : bool := bool_decide (a = b).

Definition known_client (client : str) s : bool := bool_decide (is_Some (clients (grants s) !! client)).

Definition ensure_client (d : OAuthClientDefinition) : txn unit :=
  let^ existing := select (fun s => clients (grants s) !! cd_id d) in
  match existing with
  | Some row =>
    let named := bool_decide (c_name row = Some (cd_name d)) in
    if named && same_strs (c_redirect_uris row) (cd_redirect_uris d) then commits tt
    else if cd_allow_empty_redirect_upgrade d && named && is_empty (c_redirect_uris row)
    then execute (set_clients (insert (cd_id d) {| c_name := c_name row; c_redirect_uris := cd_redirect_uris d; c_created := c_created row |}))
    else aborts (Conflict (lit "first-party OAuth client configuration mismatch"))
  | None => execute (set_clients (insert (cd_id d) {| c_name := Some (cd_name d); c_redirect_uris := cd_redirect_uris d; c_created := now |}))
  end.

Definition insert_client (id : str) (name : option str) (redirect_uris : list str) : txn unit :=
  let^ taken := select (known_client id) in
  violates taken ^;
  execute (set_clients (insert id {| c_name := name; c_redirect_uris := redirect_uris; c_created := now |})).

Definition is_protected (q : OAuthClientRegistrationRequest) (client : str) : bool :=
  str_eqb client (rg_protected q).1 || str_eqb client (rg_protected q).2.

Definition dynamic_clients (q : OAuthClientRegistrationRequest) s : Z :=
  Z.of_nat (length (List.filter (fun kv => negb (is_protected q kv.1)) (map_to_list (clients (grants s))))).

(** A client that still has a consent, a code or a refresh token alive. *)
Definition client_in_use (client : str) s : bool :=
  some_row (fun kv => str_eqb (cn_client kv.2) client && (now <? cn_expires kv.2)) (consents (grants s))
  || some_row (fun kv => str_eqb (co_client kv.2) client && (now <? co_expires kv.2)) (codes (grants s))
  || some_row (fun kv => str_eqb (rt_client kv.2) client && bool_decide (rt_revoked kv.2 = None) && (now <? rt_expires kv.2))
       (refresh_tokens (grants s)).

Definition reclaimable (q : OAuthClientRegistrationRequest) (unused : Z) s (client : str) : bool :=
  negb (is_protected q client)
  && match clients (grants s) !! client with Some row => c_created row <=? now - unused | None => false end
  && negb (client_in_use client s).

(** The query has no order: any client with these redirects may answer, here
    the first of the table. *)
Definition client_with_redirects (redirect_uris : list str) s : option str :=
  fst <$> List.find (fun kv => same_strs (c_redirect_uris kv.2) redirect_uris) (map_to_list (clients (grants s))).

Definition register_client (q : OAuthClientRegistrationRequest) : txn OAuthClientRegistration :=
  let^ unused := try_res (duration_seconds (rg_unused_ttl q)) in
  let^ existing := select (client_with_redirects (rg_redirect_uris q)) in
  match existing with
  | Some client => commits (Existing client)
  | None =>
    let^ count := select (dynamic_clients q) in
    let^ count :=
      (if rg_capacity q <=? count
       then (let^ gone := select (reclaimable q unused) in execute (delete_clients gone)) ^;
            select (dynamic_clients q)
       else commits count) in
    if rg_capacity q <=? count then commits AtCapacity
    else
      insert_client (rg_proposed_id q) (rg_name q) (rg_redirect_uris q) ^;
      commits (Created (rg_proposed_id q))
  end.

Definition client (id : str) s : option OAuthClient :=
  (fun row => {| cl_id := id; cl_name := c_name row; cl_redirect_uris := c_redirect_uris row |}) <$> clients (grants s) !! id.

(** [INSERT ... SELECT ... WHERE EXISTS (active account) AND EXISTS (client)
    ON CONFLICT DO NOTHING]: whether a row was inserted.  A transaction that
    inserts none is rolled back. *)
Definition may_grant (account client : str) s : bool := is_active account s && known_client client s.

(** [return Ok(false)] without a commit: what the transaction wrote before is
    rolled back. *)
Definition or_rolled_back {A} (answer : A) (m : txn A) (applies : Db Outbox -> bool) : txn A :=
  fun s => if applies s then m s else Ok (answer, s).

Definition store_pending_consent (c : PendingConsent) : txn bool :=
  let^ ttl := try_res (duration_seconds (pc_ttl c)) in
  let live := keep_rows (fun r => now <? cn_expires r) in
  or_rolled_back false
    (execute (set_consents live) ^;
     execute (set_consents (insert (pc_consent_hash c)
       {| cn_account := pc_account c; cn_client := pc_client c; cn_redirect_uri := pc_redirect_uri c; cn_expires := now + ttl |})) ^;
     commits true)
    (fun s => may_grant (pc_account c) (pc_client c) s && bool_decide (live (consents (grants s)) !! pc_consent_hash c = None)).

(** The consent a [DELETE ... USING accounts, oauth_clients] consumes. *)
Definition consumes_consent (a : ConsentApproval) s : bool :=
  match consents (grants s) !! ap_consent_hash a with
  | Some r =>
    str_eqb (cn_account r) (ap_account a) && str_eqb (cn_client r) (ap_client a) && str_eqb (cn_redirect_uri r) (ap_redirect_uri a)
    && (now <? cn_expires r) && may_grant (cn_account r) (cn_client r) s
  | None => false
  end.

(** [INSERT INTO oauth_authorization_codes], with its primary key and foreign
    keys. *)
Definition insert_code (hash account client : str) (ttl : Z) : txn unit :=
  let^ taken := select (fun s => bool_decide (is_Some (codes (grants s) !! hash))
    || bool_decide (accounts (ids s) !! account = None) || negb (known_client client s)) in
  violates taken ^;
  execute (set_codes (insert hash {| co_account := account; co_client := client; co_expires := now + ttl |})).

Definition insert_refresh_token (hash account client : str) (ttl : Z) : txn unit :=
  let^ taken := select (fun s => bool_decide (is_Some (refresh_tokens (grants s) !! hash))
    || bool_decide (accounts (ids s) !! account = None) || negb (known_client client s)) in
  violates taken ^;
  execute (set_refresh_tokens (insert hash {| rt_account := account; rt_client := client; rt_expires := now + ttl; rt_revoked := None |})).

Definition approve_consent (a : ConsentApproval) : txn bool :=
  let^ ttl := try_res (duration_seconds (ap_code_ttl a)) in
  let^ consumed := select (consumes_consent a) in
  if negb consumed then commits false
  else
    execute (set_consents (delete (ap_consent_hash a))) ^;
    insert_code (ap_code_hash a) (ap_account a) (ap_client a) ttl ^;
    commits true.

Definition store_direct_authorization_code (c : DirectAuthorizationCode) : txn bool :=
  let^ ttl := try_res (duration_seconds (dc_ttl c)) in
  let live := keep_rows (fun r => now <? co_expires r) in
  or_rolled_back false
    (execute (set_codes live) ^;
     execute (set_codes (insert (dc_code_hash c) {| co_account := dc_account c; co_client := dc_client c; co_expires := now + ttl |})) ^;
     commits true)
    (fun s => may_grant (dc_account c) (dc_client c) s && bool_decide (live (codes (grants s)) !! dc_code_hash c = None)).

Definition consumes_code (x : AuthorizationCodeExchange) s : bool :=
  match codes (grants s) !! ex_code_hash x with
  | Some r =>
    str_eqb (co_account r) (ex_account x) && str_eqb (co_client r) (ex_client x) && (now <? co_expires r)
    && may_grant (co_account r) (co_client r) s
  | None => false
  end.

Definition exchange_authorization_code (x : AuthorizationCodeExchange) : txn bool :=
  let^ ttl := try_res (duration_seconds (ex_refresh_ttl x)) in
  let^ consumed := select (consumes_code x) in
  if negb consumed then commits false
  else
    execute (set_codes (delete (ex_code_hash x))) ^;
    insert_refresh_token (ex_refresh_token_hash x) (ex_account x) (ex_client x) ttl ^;
    commits true.

(** The account of a live refresh token of the client. *)
Definition live_refresh (hash client : str) s : option str :=
  match refresh_tokens (grants s) !! hash with
  | Some r =>
    if str_eqb (rt_client r) client && bool_decide (rt_revoked r = None) && (now <? rt_expires r) && may_grant (rt_account r) (rt_client r) s
    then Some (rt_account r) else None
  | None => None
  end.

Definition revoke_refresh_token (hash : str) : Db Outbox -> Db Outbox :=
  set_refresh_tokens (alter (fun r =>
    {| rt_account := rt_account r; rt_client := rt_client r; rt_expires := rt_expires r; rt_revoked := Some now |}) hash).

Definition rotate_refresh_token (r : RefreshTokenRotation) : txn (option str) :=
  let^ ttl := try_res (duration_seconds (ro_refresh_ttl r)) in
  let^ account := select (live_refresh (ro_old_token_hash r) (ro_client r)) in
  match account with
  | None => commits None
  | Some account =>
    execute (revoke_refresh_token (ro_old_token_hash r)) ^;
    insert_refresh_token (ro_new_token_hash r) account (ro_client r) ttl ^;
    commits (Some account)
  end.

Definition create_native_session_refresh (n : NativeSessionRefresh) : txn unit :=
  let^ ttl := try_res (duration_seconds (ns_refresh_ttl n)) in
  let^ active := select (is_active (ns_account n)) in
  abort_if (negb active) (Auth (lit "account inactive")) ^;
  execute (set_clients (fun m => match m !! cd_id (ns_client n) with
    | Some _ => m
    | None => <[cd_id (ns_client n) := {| c_name := Some (cd_name (ns_client n)); c_redirect_uris := cd_redirect_uris (ns_client n); c_created := now |}]> m
    end)) ^;
  insert_refresh_token (ns_refresh_token_hash n) (ns_account n) (cd_id (ns_client n)) ttl.
End Store.
