(* ===== verification/AccountLedger.v ===== *)
(** * What the account transactions keep true

    The invariant of every database the transactions of [Identity],
    [Lifecycle] and [OAuthStore] reach: every row has its owners, a tombstoned
    account or identity has no row, a Google identity belongs to the account
    derived from it, and an account whose deletion has begun holds no grant.
    The transactions are the events of a trace; an event's answer may also be
    a database failure, whether or not the transaction was committed. *)
From stdpp Require Import gmap.
From Stdlib Require Import ZArith Lia.
From S2P Require Import Prelude OrdMap Text Errors Bytes IsoTime Effects Txn AccountDb Identity Lifecycle OAuthStore.
Local Open Scope Z_scope.
Local Open Scope kioku_scope.

(** ** The events of a trace *)

Inductive StoreEvent :=
| SUpsert (subject email : str) (limit : Z) (r : res AccountUpsert)
| SApple (grant : AppleAccountGrant) (limit : Z) (r : res AccountUpsert)
| SLink (account : str) (grant : AppleAccountGrant) (r : res unit)
| SRequest (random account : str) (r : res (option AccountDeletionOperation))
| SPreflight (account : str) (r : res bool)
| SBegin (random account : str) (r : res (option AccountDeletionOperation))
| SUpdate (account reason : str) (retry : option Z) (hard_delete : option str) (r : res AccountDeletionOperation)
| SFinalize (account : str) (r : res AccountDeletionOperation)
| SRevoked (account client : str) (r : res unit)
| SEnsure (d : OAuthClientDefinition) (r : res unit)
| SRegister (q : OAuthClientRegistrationRequest) (r : res OAuthClientRegistration)
| SConsent (c : PendingConsent) (r : res bool)
| SApprove (a : ConsentApproval) (r : res bool)
| SDirect (c : DirectAuthorizationCode) (r : res bool)
| SExchange (x : AuthorizationCodeExchange) (r : res bool)
| SRotate (q : RefreshTokenRotation) (r : res (option str))
| SNative (n : NativeSessionRefresh) (r : res unit)
| SOther.

Section Ledger.
Context {Outbox : Type} `{D : Delivery Outbox} (sha256 : bytes -> bytes) `{U : Unicode}.
Implicit Types s : Db Outbox.

(** What an event at time [now] does to the database.  Other components do not
    write the tables of accounts and grants. *)
Definition effect (now : Z) (e : StoreEvent) s s' : Prop :=
  match e with
  | SUpsert subject email limit r => answers (upsert_subject_account sha256 now subject email limit) r s s'
  | SApple grant limit r => answers (upsert_apple_account sha256 now grant limit) r s s'
  | SLink account grant r => answers (link_apple_identity now account grant) r s s'
  | SRequest random account r => answers (request_account_deletion now random account) r s s'
  | SPreflight account r => answers (account_deletion_preflight_complete now account) r s s'
  | SBegin random account r => answers (begin_account_deletion now random account) r s s'
  | SUpdate account reason retry hard_delete r => answers (update_account_deletion_status now account reason retry hard_delete) r s s'
  | SFinalize account r => answers (finalize_account_deletion now account) r s s'
  | SRevoked account client r => answers (mark_apple_credential_revoked now account client) r s s'
  | SEnsure d r => answers (ensure_client now d) r s s'
  | SRegister q r => answers (register_client now q) r s s'
  | SConsent c r => answers (store_pending_consent now c) r s s'
  | SApprove a r => answers (approve_consent now a) r s s'
  | SDirect c r => answers (store_direct_authorization_code now c) r s s'
  | SExchange x r => answers (exchange_authorization_code now x) r s s'
  | SRotate q r => answers (rotate_refresh_token now q) r s s'
  | SNative n r => answers (create_native_session_refresh now n) r s s'
  | SOther => ids s' = ids s /\ grants s' = grants s
  end.

Definition moves s (e : Z * StoreEvent) s' : Prop := effect e.1 e.2 s s'.

(** The event recorded what its transaction answers, and where that leaves
    the database. *)
Definition attempt (now : Z) (e : StoreEvent) s : Prop * Db Outbox :=
  let run {A} (m : txn (Db Outbox) A) (r : res A) := ((transact m s).1 = r, after m s) in
  match e with
  | SUpsert subject email limit r => run (upsert_subject_account sha256 now subject email limit) r
  | SApple grant limit r => run (upsert_apple_account sha256 now grant limit) r
  | SLink account grant r => run (link_apple_identity now account grant) r
  | SRequest random account r => run (request_account_deletion now random account) r
  | SPreflight account r => run (account_deletion_preflight_complete now account) r
  | SBegin random account r => run (begin_account_deletion now random account) r
  | SUpdate account reason retry hard_delete r => run (update_account_deletion_status now account reason retry hard_delete) r
  | SFinalize account r => run (finalize_account_deletion now account) r
  | SRevoked account client r => run (mark_apple_credential_revoked now account client) r
  | SEnsure d r => run (ensure_client now d) r
  | SRegister q r => run (register_client now q) r
  | SConsent c r => run (store_pending_consent now c) r
  | SApprove a r => run (approve_consent now a) r
  | SDirect c r => run (store_direct_authorization_code now c) r
  | SExchange x r => run (exchange_authorization_code now x) r
  | SRotate q r => run (rotate_refresh_token now q) r
  | SNative n r => run (create_native_session_refresh now n) r
  | SOther => (True, s)
  end.

Lemma attempt_effect now e s : (attempt now e s).1 -> effect now e s (attempt now e s).2.
Proof. destruct e; simpl; try (intros Hr; left; by apply transact_to); done. Qed.

(** A recorded trace of transactions, and the database it leaves. *)
Fixpoint recorded s (h : list (Z * StoreEvent)) : Prop :=
  match h with [] => True | e :: h' => (attempt e.1 e.2 s).1 /\ recorded (attempt e.1 e.2 s).2 h' end.

Definition replayed s (h : list (Z * StoreEvent)) : Db Outbox := foldl (fun s e => (attempt e.1 e.2 s).2) s h.

Lemma recorded_steps s h : recorded s h -> steps moves s h (replayed s h).
Proof.
  revert s; induction h as [|e h IH]; intros s; [constructor |]; intros [He Hh]; econstructor; [by apply attempt_effect | by apply IH].
Qed.

(** No account, no grant: a database no event has touched. *)
Definition empty_db s : Prop :=
  ids s = {| accounts := ∅; identities := ∅; credentials := ∅; deleted_accounts := ∅; deleted_identities := ∅; signups := ∅; operations := ∅ |}
  /\ grants s = {| clients := ∅; consents := ∅; codes := ∅; refresh_tokens := ∅ |}.

Definition reachable s : Prop := exists s0 h, empty_db s0 /\ steps moves s0 h s.

(** ** The invariant *)

Definition owned account client s : Prop := is_Some (accounts (ids s) !! account) /\ is_Some (clients (grants s) !! client).

(** The account's status admits grants. *)
Definition admits_grants account s : Prop :=
  forall row, accounts (ids s) !! account = Some row -> one_of (a_status row) ["active"; "deletion_requested"]%string = true.

Record ok s : Prop := {
  identities_owned : forall k i, identities (ids s) !! k = Some i -> is_Some (accounts (ids s) !! i_account i);
  credentials_owned : forall k c, credentials (ids s) !! k = Some c -> is_Some (accounts (ids s) !! k.1);
  consents_owned : forall h r, consents (grants s) !! h = Some r -> owned (cn_account r) (cn_client r) s /\ admits_grants (cn_account r) s;
  codes_owned : forall h r, codes (grants s) !! h = Some r -> owned (co_account r) (co_client r) s /\ admits_grants (co_account r) s;
  tokens_owned : forall h r, refresh_tokens (grants s) !! h = Some r -> owned (rt_account r) (rt_client r) s /\ admits_grants (rt_account r) s;
  tombs_stand : forall a, a ∈ deleted_accounts (ids s) -> accounts (ids s) !! a = None;
  identity_tombs_stand : forall k, k ∈ deleted_identities (ids s) -> identities (ids s) !! k = None;
  google_ids_derived : forall subject i, identities (ids s) !! (google, subject) = Some i -> i_account i = derive_stable_uuid sha256 subject
}.

Lemma empty_ok s : empty_db s -> ok s.
Proof. intros [Hi Hg]; split; rewrite ?Hi, ?Hg; simpl; intros *; rewrite ?lookup_empty, ?elem_of_empty; done. Qed.

(** The tables the invariant speaks of. *)
Definition core s :=
  (accounts (ids s), identities (ids s), credentials (ids s), deleted_accounts (ids s), deleted_identities (ids s), grants s).

Lemma ok_core s s' : core s' = core s -> ok s -> ok s'.
Proof.
  unfold core; rewrite !pair_equal_spec; intros [[[[[Ha Hi] Hc] Hd] Hdi] Hg] [? ? ? ? ? ? ? ?].
  split; unfold owned, admits_grants in *; rewrite ?Ha, ?Hi, ?Hc, ?Hd, ?Hdi, ?Hg; done.
Qed.

(** *** Accounts *)

(** An update of an account's row that leaves its grants admitted. *)
Lemma ok_alter_account f id s :
  (forall r, one_of (a_status r) ["active"; "deletion_requested"]%string = true ->
             one_of (a_status (f r)) ["active"; "deletion_requested"]%string = true) ->
  ok s -> ok (set_accounts (alter f id) s).
Proof.
  intros Hf [? ? Hcn Hco Hrt Ht ? ?].
  assert (Hsome : forall a, is_Some (accounts (ids s) !! a) -> is_Some (accounts (ids (set_accounts (alter f id) s)) !! a)).
  { intros a; simpl; rewrite lookup_alter; case_decide; [subst |]; by rewrite ?fmap_is_Some. }
  assert (Hadm : forall a, admits_grants a s -> admits_grants a (set_accounts (alter f id) s)).
  { intros a Ha row; simpl; rewrite lookup_alter; case_decide; [subst | apply Ha].
    intros (r & Hr & ->)%fmap_Some; apply Hf, Ha, Hr. }
  split; simpl in *; unfold owned in *; try done; try (intros; eapply Hsome; eauto).
  - intros h r Hr; destruct (Hcn h r Hr) as [[] ?]; auto.
  - intros h r Hr; destruct (Hco h r Hr) as [[] ?]; auto.
  - intros h r Hr; destruct (Hrt h r Hr) as [[] ?]; auto.
  - intros a Ha; rewrite lookup_alter_None; auto.
Qed.

(** A row whose update the invariant does not see. *)
Lemma alter_Some {R} `{Countable K} (f : R -> R) (m : gmap K R) k k' r' :
  alter f k m !! k' = Some r' -> exists r, m !! k' = Some r /\ (r' = r \/ r' = f r).
Proof. rewrite lookup_alter_Some; intros [(-> & r & Hr & ->)|[_ Hr]]; eauto. Qed.

Lemma ok_new_account id row s :
  accounts (ids s) !! id = None -> id ∉ deleted_accounts (ids s) -> ok s -> ok (set_accounts (insert id row) s).
Proof.
  intros Hn Hd [? ? Hcn Hco Hrt Ht ? ?].
  assert (Hsome : forall a, is_Some (accounts (ids s) !! a) -> is_Some (accounts (ids (set_accounts (insert id row) s)) !! a)).
  { intros a Ha; simpl; by apply lookup_insert_is_Some'; right. }
  assert (Hadm : forall a, is_Some (accounts (ids s) !! a) -> admits_grants a s -> admits_grants a (set_accounts (insert id row) s)).
  { intros a Hs Ha r; simpl; rewrite lookup_insert_ne; [apply Ha | intros <-; rewrite Hn in Hs; by destruct Hs]. }
  split; simpl in *; unfold owned in *; try done; try (intros; eapply Hsome; eauto).
  - intros h r Hr; destruct (Hcn h r Hr) as [[] ?]; auto.
  - intros h r Hr; destruct (Hco h r Hr) as [[] ?]; auto.
  - intros h r Hr; destruct (Hrt h r Hr) as [[] ?]; auto.
  - intros a Ha; apply lookup_insert_None; split; [auto | by intros ->].
Qed.

Lemma ok_alter_identity f k s :
  (forall r, i_account (f r) = i_account r) -> ok s -> ok (set_identities (alter f k) s).
Proof.
  intros Hf [Hi ? ? ? ? ? Hit Hg]; split; simpl; try done.
  - intros k' i (r & Hr & [->| ->])%alter_Some; rewrite ?Hf; eauto.
  - intros k' Hk; rewrite lookup_alter_None; auto.
  - intros sub i (r & Hr & [->| ->])%alter_Some; rewrite ?Hf; eauto.
Qed.

Lemma ok_new_identity k row s :
  is_Some (accounts (ids s) !! i_account row) -> k ∉ deleted_identities (ids s) ->
  (k.1 = google -> i_account row = derive_stable_uuid sha256 k.2) -> ok s -> ok (set_identities (insert k row) s).
Proof.
  intros Ha Hk Hd [Hi ? ? ? ? ? Hit Hg]; split; simpl; try done.
  - intros k' i [[_ <-]|[_ Hr]]%lookup_insert_Some; eauto.
  - intros k' Hk'; apply lookup_insert_None; split; [auto | by intros ->].
  - intros sub i [[-> <-]|[_ Hr]]%lookup_insert_Some; [by apply Hd | eauto].
Qed.

Lemma ok_alter_credential f k s : ok s -> ok (set_credentials (alter f k) s).
Proof. intros [? Hc ? ? ? ? ? ?]; split; simpl; try done; intros k' i (r & Hr & _)%alter_Some; eauto. Qed.

Lemma ok_new_credential k row s : is_Some (accounts (ids s) !! k.1) -> ok s -> ok (set_credentials (insert k row) s).
Proof. intros Ha [? Hc ? ? ? ? ? ?]; split; simpl; try done; intros k' i [[<- _]|[_ Hr]]%lookup_insert_Some; eauto. Qed.

(** *** Grants *)

(** Grants are taken away, clients only with their grants. *)
Lemma ok_fewer_grants f s :
  (forall h r, consents (f (grants s)) !! h = Some r -> consents (grants s) !! h = Some r /\ is_Some (clients (f (grants s)) !! cn_client r)) ->
  (forall h r, codes (f (grants s)) !! h = Some r -> codes (grants s) !! h = Some r /\ is_Some (clients (f (grants s)) !! co_client r)) ->
  (forall h r, refresh_tokens (f (grants s)) !! h = Some r ->
     exists r0, refresh_tokens (grants s) !! h = Some r0 /\ rt_account r0 = rt_account r /\ is_Some (clients (f (grants s)) !! rt_client r)) ->
  ok s -> ok (set_grants f s).
Proof.
  intros Hcn Hco Hrt [? ? Ocn Oco Ort ? ? ?]; split; simpl; try done; unfold owned, admits_grants in *; simpl.
  - intros h r (Hr & Hc)%Hcn; destruct (Ocn _ _ Hr) as [[] ?]; auto.
  - intros h r (Hr & Hc)%Hco; destruct (Oco _ _ Hr) as [[] ?]; auto.
  - intros h r (r0 & Hr & <- & Hc)%Hrt; destruct (Ort _ _ Hr) as [[] ?]; auto.
Qed.

Lemma ok_delete_clients gone s : ok s -> ok (delete_clients gone s).
Proof.
  intros Hok; assert (Hc : forall c, is_Some (clients (grants s) !! c) -> negb (gone c) = true ->
    is_Some (filter (fun kv => gone kv.1 = false) (clients (grants s)) !! c)).
  { intros c [row Hr] Hg; exists row; apply map_lookup_filter_Some; split; [done | by apply negb_true_iff]. }
  apply ok_fewer_grants; [| | | done]; simpl; intros h r (Hr & Hk)%lookup_keep_rows.
  - split; [done |]; by apply Hc; [apply (consents_owned _ Hok h r Hr) |].
  - split; [done |]; by apply Hc; [apply (codes_owned _ Hok h r Hr) |].
  - exists r; split_and!; [done | done |]; by apply Hc; [apply (tokens_owned _ Hok h r Hr) |].
Qed.

Lemma ok_delete_grants account s : ok s -> ok (delete_grants account s).
Proof.
  intros Hok; apply ok_fewer_grants; [| | | done]; simpl; intros h r (Hr & Hk)%lookup_keep_rows.
  - split; [done |]; apply (consents_owned _ Hok h r Hr).
  - split; [done |]; apply (codes_owned _ Hok h r Hr).
  - exists r; split_and!; [done | done |]; apply (tokens_owned _ Hok h r Hr).
Qed.

Lemma ok_delete_consents f s :
  (forall h r, f (consents (grants s)) !! h = Some r -> consents (grants s) !! h = Some r) -> ok s -> ok (set_consents f s).
Proof.
  intros Hf Hok; apply ok_fewer_grants; [| | | done]; simpl; intros h r Hr.
  - apply Hf in Hr; split; [done |]; apply (consents_owned _ Hok h r Hr).
  - split; [done |]; apply (codes_owned _ Hok h r Hr).
  - exists r; split_and!; [done | done |]; apply (tokens_owned _ Hok h r Hr).
Qed.

Lemma ok_delete_codes f s :
  (forall h r, f (codes (grants s)) !! h = Some r -> codes (grants s) !! h = Some r) -> ok s -> ok (set_codes f s).
Proof.
  intros Hf Hok; apply ok_fewer_grants; [| | | done]; simpl; intros h r Hr.
  - split; [done |]; apply (consents_owned _ Hok h r Hr).
  - apply Hf in Hr; split; [done |]; apply (codes_owned _ Hok h r Hr).
  - exists r; split_and!; [done | done |]; apply (tokens_owned _ Hok h r Hr).
Qed.

Lemma ok_alter_token f h s :
  (forall r, rt_account (f r) = rt_account r /\ rt_client (f r) = rt_client r) -> ok s -> ok (set_refresh_tokens (alter f h) s).
Proof.
  intros Hf Hok; apply ok_fewer_grants; [| | | done]; simpl; intros h' r Hr.
  - split; [done |]; apply (consents_owned _ Hok h' r Hr).
  - split; [done |]; apply (codes_owned _ Hok h' r Hr).
  - apply alter_Some in Hr as (r0 & Hr & Hor); exists r0; destruct (Hf r0) as [Ha Hc].
    split_and!; [done | by destruct Hor as [->| ->] |].
    replace (rt_client r) with (rt_client r0) by (by destruct Hor as [->| ->]); apply (tokens_owned _ Hok h' r0 Hr).
Qed.

(** A grant is given to an active account and a known client. *)
Definition grantable account client s : Prop := owned account client s /\ admits_grants account s.

Lemma may_grant_true account client s : may_grant account client s = true -> grantable account client s.
Proof.
  unfold may_grant, is_active, known_client, status_of; rewrite andb_true_iff, !bool_decide_eq_true; intros [Ha Hc].
  apply fmap_Some in Ha as (row & Hr & Hs); split; [by split; [exists row |] |].
  intros r' Hr'; rewrite Hr in Hr'; injection Hr' as <-; by rewrite <- Hs.
Qed.

Lemma ok_new_consent h r s : grantable (cn_account r) (cn_client r) s -> ok s -> ok (set_consents (insert h r) s).
Proof. intros Hg [? ? Ocn Oco Ort ? ? ?]; split; try done; intros h' r'; simpl; intros [[_ <-]|[_ Hr]]%lookup_insert_Some; [done | by apply (Ocn h')]. Qed.

Lemma ok_new_code h r s : grantable (co_account r) (co_client r) s -> ok s -> ok (set_codes (insert h r) s).
Proof. intros Hg [? ? Ocn Oco Ort ? ? ?]; split; try done; intros h' r'; simpl; intros [[_ <-]|[_ Hr]]%lookup_insert_Some; [done | by apply (Oco h')]. Qed.

Lemma ok_new_token h r s : grantable (rt_account r) (rt_client r) s -> ok s -> ok (set_refresh_tokens (insert h r) s).
Proof. intros Hg [? ? Ocn Oco Ort ? ? ?]; split; try done; intros h' r'; simpl; intros [[_ <-]|[_ Hr]]%lookup_insert_Some; [done | by apply (Ort h')]. Qed.

Lemma ok_more_clients f s :
  (forall c, is_Some (clients (grants s) !! c) -> is_Some (f (clients (grants s)) !! c)) -> ok s -> ok (set_clients f s).
Proof.
  intros Hf [? ? Ocn Oco Ort ? ? ?]; split; simpl; try done; unfold owned, admits_grants in *; simpl.
  - intros h r Hr; destruct (Ocn h r Hr) as [[] ?]; auto.
  - intros h r Hr; destruct (Oco h r Hr) as [[] ?]; auto.
  - intros h r Hr; destruct (Ort h r Hr) as [[] ?]; auto.
Qed.

(** *** Deletion *)

(** An account without grants may take any status. *)
Lemma ok_any_status f id s :
  (forall h r, consents (grants s) !! h = Some r -> cn_account r <> id) -> (forall h r, codes (grants s) !! h = Some r -> co_account r <> id) ->
  (forall h r, refresh_tokens (grants s) !! h = Some r -> rt_account r <> id) ->
  ok s -> ok (set_accounts (alter f id) s).
Proof.
  intros Ncn Nco Nrt [? ? Hcn Hco Hrt Ht ? ?].
  assert (Hsome : forall a, is_Some (accounts (ids s) !! a) -> is_Some (accounts (ids (set_accounts (alter f id) s)) !! a))
    by (intros a; simpl; by rewrite lookup_alter_is_Some).
  assert (Hadm : forall a, a <> id -> admits_grants a s -> admits_grants a (set_accounts (alter f id) s))
    by (intros a Hne Ha row; simpl; rewrite lookup_alter_ne by done; apply Ha).
  split; simpl in *; unfold owned in *; try done; try (intros; eapply Hsome; eauto).
  - intros h r Hr; destruct (Hcn h r Hr) as [[] ?]; auto; split; [auto | apply Hadm; eauto].
  - intros h r Hr; destruct (Hco h r Hr) as [[] ?]; auto; split; [auto | apply Hadm; eauto].
  - intros h r Hr; destruct (Hrt h r Hr) as [[] ?]; auto; split; [auto | apply Hadm; eauto].
  - intros a Ha; rewrite lookup_alter_None; auto.
Qed.

Lemma delete_grants_gone account s :
  (forall h r, consents (grants (delete_grants account s)) !! h = Some r -> cn_account r <> account)
  /\ (forall h r, codes (grants (delete_grants account s)) !! h = Some r -> co_account r <> account)
  /\ (forall h r, refresh_tokens (grants (delete_grants account s)) !! h = Some r -> rt_account r <> account).
Proof. by split_and!; simpl; intros h r (_ & Hk)%lookup_keep_rows; apply negb_true_iff, str_eqb_neq in Hk. Qed.

Lemma ok_revoke_everything now account s : ok s -> ok (revoke_everything now account s).
Proof.
  intros Hok; apply ok_core with (s := set_status now account (lit "deleting") (delete_grants account s)); [done |].
  destruct (delete_grants_gone account s) as (A & B & C); by apply ok_any_status; [.. | apply ok_delete_grants].
Qed.

Lemma elem_of_owned_identities account s k :
  k ∈ (list_to_set ((fun kv => kv.1) <$> List.filter (fun kv => str_eqb (i_account kv.2) account) (map_to_list (identities (ids s)))) : gset (str * str))
  <-> exists i, identities (ids s) !! k = Some i /\ i_account i = account.
Proof.
  rewrite elem_of_list_to_set, list_elem_of_fmap; split.
  - intros ([k' i] & -> & Hin); apply elem_of_filter_bool in Hin as [Hin Hs]; apply elem_of_map_to_list in Hin.
    exists i; by rewrite str_eqb_eq in Hs.
  - intros (i & Hi & <-); exists (k, i); split; [done |]; apply elem_of_filter_bool; split; [by apply elem_of_map_to_list | by apply str_eqb_refl].
Qed.

Lemma ok_bury account s : ok s -> ok (bury_account account s).
Proof.
  intros Hok; destruct Hok as [Hi Hc Hcn Hco Hrt Ht Hit Hg].
  assert (Hown : forall a c, a <> account -> owned a c s -> owned a c (bury_account account s)).
  { intros a c Hne [Ha Hcl]; split; simpl; [by rewrite lookup_delete_ne | done]. }
  assert (Hadm : forall a, admits_grants a s -> admits_grants a (bury_account account s)).
  { intros a Ha row; simpl; intros [_ Hr]%lookup_delete_Some; by apply Ha. }
  split; simpl.
  - intros k i (Hk & Hn)%lookup_keep_rows; apply negb_true_iff, str_eqb_neq in Hn; rewrite lookup_delete_ne by done; eauto.
  - intros k c (Hk & Hn)%map_lookup_filter_Some; simpl in Hn; apply str_eqb_neq in Hn; rewrite lookup_delete_ne by done; eauto.
  - intros h r (Hr & Hn)%lookup_keep_rows; apply negb_true_iff, str_eqb_neq in Hn; destruct (Hcn h r Hr); auto.
  - intros h r (Hr & Hn)%lookup_keep_rows; apply negb_true_iff, str_eqb_neq in Hn; destruct (Hco h r Hr); auto.
  - intros h r (Hr & Hn)%lookup_keep_rows; apply negb_true_iff, str_eqb_neq in Hn; destruct (Hrt h r Hr); auto.
  - intros a [->%elem_of_singleton|Ha]%elem_of_union; apply lookup_delete_None; auto.
  - intros k [Hk|Hk]%elem_of_union.
    + apply elem_of_owned_identities in Hk as (i & Hk & Hown').
      destruct (keep_rows _ _ !! k) as [i'|] eqn:E; [| done]; apply lookup_keep_rows in E as [E Hn].
      apply negb_true_iff, str_eqb_neq in Hn; congruence.
    + destruct (keep_rows _ _ !! k) as [i'|] eqn:E; [| done]; apply lookup_keep_rows in E as [E _]; by rewrite Hit in E.
  - intros sub i (Hk & _)%lookup_keep_rows; eauto.
Qed.

(** ** Every transaction keeps the invariant *)

(** A transaction that leaves the invariant's tables alone. *)
Lemma ok_same_core {A} (m : txn (Db Outbox) A) : keeps (same core) m -> preserves ok m.
Proof. intros Hm s a s' Hx; by apply ok_core, (Hm s a s'). Qed.

Lemma reserve_signup_core now limit : keeps (same core) (reserve_signup (Outbox := Outbox) now limit).
Proof. unfold reserve_signup; by keeps_by_shape. Qed.

Lemma insert_account_Ok now id email provider subject s u s' :
  insert_account now id email provider subject s = Ok (u, s') ->
  accounts (ids s) !! id = None
  /\ s' = set_accounts (insert id {| a_email := email; a_status := lit "active"; a_primary_provider := provider;
            a_primary_subject := subject; a_created := now; a_updated := now |}) s.
Proof.
  unfold insert_account, violates; intros Hx; all_txn; all_ok; split; [| done].
  match goal with Hb : bool_decide (is_Some _) = false |- _ => apply bool_decide_eq_false in Hb; by apply eq_None_not_Some end.
Qed.

Lemma insert_identity_Ok now k account email s u s' :
  insert_identity now k account email s = Ok (u, s') ->
  is_Some (accounts (ids s) !! account) /\ s' = set_identities (insert k {| i_account := account; i_email := email; i_last_seen := now |}) s.
Proof.
  unfold insert_identity, violates; intros Hx; all_txn; all_ok; split; [| done].
  match goal with Hb : bool_decide (_ = None) = false |- _ => apply bool_decide_eq_false in Hb; by apply not_eq_None_Some end.
Qed.

Lemma upsert_credential_Ok now account client token s u s' :
  upsert_credential now account client token s = Ok (u, s') ->
  is_Some (accounts (ids s) !! account)
  /\ s' = set_credentials (insert (account, client) {| cr_refresh_token := token; cr_validated := now; cr_revoked := None |}) s.
Proof.
  unfold upsert_credential, violates; intros Hx; all_txn; split; [| done].
  match goal with Hb : bool_decide (_ = None) = false |- _ => apply bool_decide_eq_false in Hb; by apply not_eq_None_Some end.
Qed.

Lemma ok_set_email now id email s : ok s -> ok (set_accounts (alter (fun r => {| a_email := email; a_status := a_status r;
  a_primary_provider := a_primary_provider r; a_primary_subject := a_primary_subject r; a_created := a_created r; a_updated := now |}) id) s).
Proof. by apply ok_alter_account. Qed.

Lemma not_deleted_inv account k s :
  deleted_account_or_identity account k s = false -> (account ∉ deleted_accounts (ids s)) /\ (k ∉ deleted_identities (ids s)).
Proof. unfold deleted_account_or_identity; intros [A B]%orb_false_iff; by rewrite !bool_decide_eq_false in *. Qed.

(** A new account with its first identity, after the budget is charged. *)
Lemma ok_signup now id email provider subject s s1 s2 s3 u v n :
  id ∉ deleted_accounts (ids s) -> (provider, subject) ∉ deleted_identities (ids s) ->
  (provider = google -> id = derive_stable_uuid sha256 subject) ->
  reserve_signup now n s = Ok (v, s1) -> insert_account now id email provider subject s1 = Ok (u, s2) ->
  insert_identity now (provider, subject) id email s2 = Ok (u, s3) -> ok s -> ok s3.
Proof.
  intros Hd Hk Hg H1 H2 H3 Hok; apply reserve_signup_core in H1.
  apply insert_account_Ok in H2 as [Hn ->]; apply insert_identity_Ok in H3 as [Ha ->].
  unfold same, core in H1; rewrite !pair_equal_spec in H1; destruct H1 as [[[[[Ha1 Hi1] Hc1] Hd1] Hdi1] Hg1].
  apply ok_new_identity; [done | simpl; by rewrite Hdi1 | by intros ->%Hg |].
  apply ok_new_account; [done | by rewrite Hd1 |].
  apply ok_core with (s := s); [unfold core; congruence | done].
Qed.

Lemma upsert_subject_ok now subject email limit : preserves ok (upsert_subject_account (Outbox := Outbox) sha256 now subject email limit).
Proof.
  intros s a s' Hx Hok; unfold upsert_subject_account in Hx.
  apply then_Ok in Hx as (d & ? & [-> ->]%select_Ok & Hx); apply then_Ok in Hx as (? & ? & [Hd ->]%abort_if_Ok & Hx).
  apply not_deleted_inv in Hd as [Hd Hk]; apply then_Ok in Hx as (existing & ? & [-> ->]%select_Ok & Hx).
  destruct (account_of (google, subject) s) as [[id row]|].
  - unfold see_identity, set_account_email in Hx; all_txn; apply ok_set_email; by apply ok_alter_identity.
  - apply then_Ok in Hx as (n & s1 & H1 & Hx); apply then_Ok in Hx as ([] & s2 & H2 & Hx); apply then_Ok in Hx as ([] & s3 & H3 & Hx).
    apply commits_Ok in Hx as [_ ->]; by eapply (ok_signup now _ email google subject).
Qed.

Lemma apple_account_ok now grant email limit :
  let stable_id := derive_provider_uuid sha256 apple (g_subject grant) in
  forall s a s', deleted_account_or_identity stable_id (apple, g_subject grant) s = false ->
  apple_account (Outbox := Outbox) now grant email stable_id limit s = Ok (a, s') -> ok s -> ok s'.
Proof.
  intros stable_id s a s' [Hd Hk]%not_deleted_inv Hx Hok; unfold apple_account in Hx.
  apply then_Ok in Hx as (existing & ? & [-> ->]%select_Ok & Hx); destruct (account_of (apple, g_subject grant) s) as [[id row]|].
  - unfold see_identity, set_account_email in Hx; apply then_Ok in Hx as (? & ? & [_ ->]%abort_if_Ok & Hx); apply then_Ok in Hx as (? & ? & ->%execute_Ok & Hx).
    case_match; all_txn; [apply ok_set_email |]; by apply ok_alter_identity.
  - apply then_Ok in Hx as (? & ? & [-> ->]%select_Ok & Hx); apply then_Ok in Hx as (? & ? & [_ ->]%abort_if_Ok & Hx).
    apply then_Ok in Hx as (n & s1 & H1 & Hx); apply then_Ok in Hx as ([] & s2 & H2 & Hx); apply then_Ok in Hx as ([] & s3 & H3 & Hx).
    apply commits_Ok in Hx as [_ ->]; by eapply (ok_signup now _ email apple (g_subject grant)).
Qed.

Lemma upsert_apple_ok now grant limit : preserves ok (upsert_apple_account (Outbox := Outbox) sha256 now grant limit).
Proof.
  intros s a s' Hx Hok; unfold upsert_apple_account in Hx.
  apply then_Ok in Hx as (d & ? & [-> ->]%select_Ok & Hx); apply then_Ok in Hx as (? & ? & [Hd ->]%abort_if_Ok & Hx).
  apply then_Ok in Hx as ([[id primary] today] & s1 & H1 & Hx); apply then_Ok in Hx as (? & s2 & H2 & [_ ->]%commits_Ok).
  apply upsert_credential_Ok in H2 as [Ha ->]; apply ok_new_credential; [done |]; by eapply apple_account_ok.
Qed.

Lemma link_apple_ok now account grant : preserves ok (link_apple_identity (Outbox := Outbox) now account grant).
Proof.
  intros s a s' Hx Hok; unfold link_apple_identity in Hx.
  do 2 (apply then_Ok in Hx as (? & ? & [-> ->]%select_Ok & Hx); apply then_Ok in Hx as (? & ? & [? ->]%abort_if_Ok & Hx)).
  do 2 (apply then_Ok in Hx as (? & ? & [-> ->]%select_Ok & Hx); apply then_Ok in Hx as (? & ? & [_ ->]%abort_if_Ok & Hx)).
  apply then_Ok in Hx as ([] & s1 & H1 & H2); apply upsert_credential_Ok in H2 as [Ha ->]; apply ok_new_credential; [done |].
  destruct (i_account <$> identities (ids s) !! (apple, g_subject grant)).
  - unfold see_identity in H1; apply execute_Ok in H1 as ->; by apply ok_alter_identity.
  - apply insert_identity_Ok in H1 as [Hid ->]; apply ok_new_identity; [done | | done | done].
    by match goal with Hb : bool_decide (_ ∈ _) = false |- _ => apply bool_decide_eq_false in Hb end.
Qed.

(** *** Deletion *)

Lemma ensure_operation_core now random account reason : keeps (same core) (ensure_deletion_operation (Outbox := Outbox) now random account reason).
Proof. unfold ensure_deletion_operation, loaded_operation, load_operation; by keeps_by_shape. Qed.

Lemma loaded_operation_core account e : keeps (same core) (loaded_operation (Outbox := Outbox) account e).
Proof. unfold loaded_operation, load_operation; by keeps_by_shape. Qed.

Lemma refusals_core now account :
  keeps (same core) (refuse_reviewer_fixture_deletion (Outbox := Outbox) account)
  /\ keeps (same core) (refuse_open_provider_fences (Outbox := Outbox) account)
  /\ keeps (same core) (refuse_started_vertex_invocations (Outbox := Outbox) account)
  /\ keeps (same core) (refuse_active_media_uploads (Outbox := Outbox) now account).
Proof.
  split_and!; unfold refuse_reviewer_fixture_deletion, refuse_open_provider_fences, refuse_started_vertex_invocations,
    refuse_active_media_uploads, expire_media_uploads; by keeps_by_shape.
Qed.

Lemma update_operation_core account f : keeps (same core) (update_operation (Outbox := Outbox) account f).
Proof. unfold update_operation, loaded_operation, load_operation; by keeps_by_shape. Qed.

Lemma request_deletion_ok now random account : preserves ok (request_account_deletion (Outbox := Outbox) now random account).
Proof.
  unfold request_account_deletion; apply keeps_then; [tc_solve | apply ok_same_core, (refusals_core now) | intros _].
  unfold load_operation; repeat (apply keeps_then; [tc_solve | solve [apply keeps_select; tc_solve | apply keeps_abort_if; tc_solve] | intros ?]).
  case_match; [apply ok_same_core; by keeps_by_shape |].
  case_match; [apply keeps_commits; tc_solve |].
  apply keeps_then; [tc_solve | apply ok_same_core, ensure_operation_core | intros operation].
  apply keeps_then; [tc_solve | apply keeps_abort_if; tc_solve | intros _].
  apply keeps_then; [tc_solve | | intros _; apply keeps_commits; tc_solve].
  case_match; [| apply keeps_commits; tc_solve]; apply keeps_execute; intros s Hok; by apply ok_alter_account.
Qed.

Lemma preflight_ok now account : preserves ok (account_deletion_preflight_complete (Outbox := Outbox) now account).
Proof.
  apply ok_same_core; unfold account_deletion_preflight_complete, recover_expired_provider_claims, expire_media_uploads; by keeps_by_shape.
Qed.

Lemma begin_deletion_ok now random account : preserves ok (begin_account_deletion (Outbox := Outbox) now random account).
Proof.
  destruct (refusals_core now account) as (A & B & C & E); unfold begin_account_deletion.
  apply keeps_then; [tc_solve | by apply ok_same_core | intros _].
  do 2 (apply keeps_then; [tc_solve | apply keeps_select; tc_solve | intros ?]).
  do 3 (apply keeps_then; [tc_solve | by apply ok_same_core | intros _]).
  case_match; [apply keeps_commits; tc_solve |].
  apply keeps_then; [tc_solve | | intros _].
  { case_match; [| apply keeps_commits; tc_solve]; apply keeps_execute; intros s; apply ok_revoke_everything. }
  apply keeps_then; [tc_solve | apply ok_same_core, ensure_operation_core | intros operation].
  apply keeps_then; [tc_solve | | intros ?; apply ok_same_core; by keeps_by_shape].
  case_match; [| apply keeps_commits; tc_solve].
  apply keeps_then; [tc_solve | apply ok_same_core, keeps_execute; done | intros _; apply ok_same_core, loaded_operation_core].
Qed.

Lemma update_status_ok now account reason retry hard :
  preserves ok (update_account_deletion_status (Outbox := Outbox) now account reason retry hard).
Proof.
  unfold update_account_deletion_status; apply keeps_then; [tc_solve | apply keeps_abort_if; tc_solve | intros _].
  apply keeps_then; [tc_solve | apply keeps_try_res; tc_solve | intros ?]; apply ok_same_core, update_operation_core.
Qed.

Lemma finalize_ok now account : preserves ok (finalize_account_deletion (Outbox := Outbox) now account).
Proof.
  destruct (refusals_core now account) as (A & B & C & E); unfold finalize_account_deletion.
  apply keeps_then; [tc_solve | by apply ok_same_core | intros _].
  apply keeps_then; [tc_solve | apply keeps_select; tc_solve | intros status].
  apply keeps_then; [tc_solve | by apply ok_same_core | intros _].
  apply keeps_then; [tc_solve | | intros _; apply ok_same_core, update_operation_core].
  destruct status as [st|]; [| apply ok_same_core; by keeps_by_shape].
  apply keeps_then; [tc_solve | apply keeps_abort_if; tc_solve | intros _].
  apply keeps_then; [tc_solve | apply keeps_select; tc_solve | intros unrevoked].
  apply keeps_then; [tc_solve | apply keeps_abort_if; tc_solve | intros _].
  apply keeps_execute; intros s; apply ok_bury.
Qed.

Lemma mark_revoked_ok now account client : preserves ok (mark_apple_credential_revoked (Outbox := Outbox) now account client).
Proof.
  intros s a s' Hx Hok; unfold mark_apple_credential_revoked in Hx; all_txn; by apply ok_alter_credential.
Qed.

(** *** Grants *)

Lemma ensure_client_ok now d : preserves ok (ensure_client (Outbox := Outbox) now d).
Proof.
  intros s a s' Hx Hok; unfold ensure_client in Hx; apply then_Ok in Hx as (? & ? & [-> ->]%select_Ok & Hx).
  repeat case_match; all_txn; try done; apply ok_more_clients; try done; intros ? ?; by apply lookup_insert_is_Some'; right.
Qed.

Lemma insert_client_ok now id name uris : preserves ok (insert_client (Outbox := Outbox) now id name uris).
Proof.
  intros s a s' Hx Hok; unfold insert_client, violates in Hx; all_txn.
  apply ok_more_clients; [| done]; intros c Hc; by apply lookup_insert_is_Some'; right.
Qed.

Lemma register_client_ok now q : preserves ok (register_client (Outbox := Outbox) now q).
Proof.
  unfold register_client; do 2 (apply keeps_then; [tc_solve | solve [apply keeps_select; tc_solve | apply keeps_try_res; tc_solve] | intros ?]).
  case_match; [apply keeps_commits; tc_solve |].
  apply keeps_then; [tc_solve | apply keeps_select; tc_solve | intros ?].
  apply keeps_then; [tc_solve | | intros ?].
  - case_match; [| apply keeps_commits; tc_solve].
    apply keeps_then; [tc_solve | | intros _; apply keeps_select; tc_solve].
    apply keeps_then; [tc_solve | apply keeps_select; tc_solve | intros gone].
    apply keeps_execute; intros s; apply ok_delete_clients.
  - case_match; [apply keeps_commits; tc_solve |].
    apply keeps_then; [tc_solve | apply insert_client_ok | intros _; apply keeps_commits; tc_solve].
Qed.

Lemma or_rolled_back_Ok {A} (answer : A) (m : txn (Db Outbox) A) applies s a s' :
  or_rolled_back answer m applies s = Ok (a, s') -> (applies s = true /\ m s = Ok (a, s')) \/ (applies s = false /\ a = answer /\ s' = s).
Proof. unfold or_rolled_back; destruct (applies s); [by left | intros [= <- <-]; by right]. Qed.

Lemma keep_rows_subset {K R} `{Countable K} (keep : R -> bool) (rows : gmap K R) k r :
  keep_rows keep rows !! k = Some r -> rows !! k = Some r.
Proof. by intros [? _]%lookup_keep_rows. Qed.

(** What storing a consent did, when it did. *)
Lemma store_consent_Ok now c s b s' :
  store_pending_consent now c s = Ok (b, s') ->
  (b = false /\ s' = s)
  \/ (b = true /\ exists ttl, duration_seconds (pc_ttl c) = Ok ttl /\ grantable (pc_account c) (pc_client c) s
      /\ s' = set_consents (fun m => <[pc_consent_hash c := {| cn_account := pc_account c; cn_client := pc_client c;
           cn_redirect_uri := pc_redirect_uri c; cn_expires := now + ttl |}]> (keep_rows (fun r => now <? cn_expires r) m)) s).
Proof.
  unfold store_pending_consent; intros Hx; apply then_Ok in Hx as (ttl & ? & [Ht ->]%try_res_Ok & Hx).
  apply or_rolled_back_Ok in Hx as [[Hg Hx]|(_ & -> & ->)]; [right | by left].
  apply andb_true_iff in Hg as [Hg _]; apply may_grant_true in Hg; all_txn; split; [done | by exists ttl].
Qed.

Lemma store_consent_ok now c : preserves ok (store_pending_consent (Outbox := Outbox) now c).
Proof.
  intros s a s' Hx Hok; apply store_consent_Ok in Hx as [[_ ->]|(_ & ttl & _ & Hg & ->)]; [done |].
  set (live := set_consents (keep_rows (fun r => now <? cn_expires r)) s).
  apply (ok_new_consent (pc_consent_hash c) _ live); [done |].
  apply ok_delete_consents; [| done]; intros h r; apply keep_rows_subset.
Qed.

Lemma insert_code_Ok now hash account client ttl s u s' :
  insert_code now hash account client ttl s = Ok (u, s') ->
  codes (grants s) !! hash = None
  /\ s' = set_codes (insert hash {| co_account := account; co_client := client; co_expires := now + ttl |}) s.
Proof.
  unfold insert_code, violates; intros Hx; all_txn; all_ok; split; [| done].
  match goal with Hb : bool_decide (is_Some _) = false |- _ => apply bool_decide_eq_false in Hb; by apply eq_None_not_Some end.
Qed.

Lemma insert_refresh_Ok now hash account client ttl s u s' :
  insert_refresh_token now hash account client ttl s = Ok (u, s') ->
  refresh_tokens (grants s) !! hash = None
  /\ s' = set_refresh_tokens (insert hash {| rt_account := account; rt_client := client; rt_expires := now + ttl; rt_revoked := None |}) s.
Proof.
  unfold insert_refresh_token, violates; intros Hx; all_txn; all_ok; split; [| done].
  match goal with Hb : bool_decide (is_Some _) = false |- _ => apply bool_decide_eq_false in Hb; by apply eq_None_not_Some end.
Qed.

(** The consumption of a consent. *)
Lemma approve_consent_Ok now a s b s' :
  approve_consent now a s = Ok (b, s') ->
  (b = false /\ s' = s)
  \/ (b = true /\ exists r ttl, duration_seconds (ap_code_ttl a) = Ok ttl /\ consents (grants s) !! ap_consent_hash a = Some r
      /\ cn_account r = ap_account a /\ cn_client r = ap_client a /\ cn_redirect_uri r = ap_redirect_uri a /\ now < cn_expires r
      /\ grantable (ap_account a) (ap_client a) s /\ codes (grants s) !! ap_code_hash a = None
      /\ s' = set_codes (insert (ap_code_hash a) {| co_account := ap_account a; co_client := ap_client a; co_expires := now + ttl |})
               (set_consents (delete (ap_consent_hash a)) s)).
Proof.
  unfold approve_consent; intros Hx; apply then_Ok in Hx as (ttl & ? & [Ht ->]%try_res_Ok & Hx).
  apply then_Ok in Hx as (? & ? & [-> ->]%select_Ok & Hx); unfold consumes_consent in Hx.
  destruct (consents (grants s) !! ap_consent_hash a) as [r|]; simpl in Hx; [| apply commits_Ok in Hx as [-> ->]; by left].
  destruct (str_eqb (cn_account r) (ap_account a) && _ && _ && _ && _) eqn:E; simpl in Hx; [| apply commits_Ok in Hx as [-> ->]; by left].
  rewrite !andb_true_iff, !str_eqb_eq in E; destruct E as [[[[Ha Hc] Hr] Ht'] Hg]; apply may_grant_true in Hg; right.
  apply then_Ok in Hx as (? & ? & ->%execute_Ok & Hx); apply then_Ok in Hx as (? & ? & [Hn ->]%insert_code_Ok & [-> ->]%commits_Ok).
  split; [done |]; exists r, ttl; rewrite <- Ha, <- Hc; split_and!; try done; lia.
Qed.

Lemma approve_consent_ok now a : preserves ok (approve_consent (Outbox := Outbox) now a).
Proof.
  intros s b s' Hx Hok; apply approve_consent_Ok in Hx as [[_ ->]|(_ & r & ttl & _ & _ & _ & _ & _ & _ & Hg & _ & ->)]; [done |].
  apply ok_new_code; [done |]; apply ok_delete_consents; [| done]; by intros h r' [_ ?]%lookup_delete_Some.
Qed.

Lemma store_direct_Ok now c s b s' :
  store_direct_authorization_code now c s = Ok (b, s') ->
  (b = false /\ s' = s)
  \/ (b = true /\ exists ttl, duration_seconds (dc_ttl c) = Ok ttl /\ grantable (dc_account c) (dc_client c) s
      /\ keep_rows (fun r => now <? co_expires r) (codes (grants s)) !! dc_code_hash c = None
      /\ s' = set_codes (fun m => <[dc_code_hash c := {| co_account := dc_account c; co_client := dc_client c; co_expires := now + ttl |}]>
               (keep_rows (fun r => now <? co_expires r) m)) s).
Proof.
  unfold store_direct_authorization_code; intros Hx; apply then_Ok in Hx as (ttl & ? & [Ht ->]%try_res_Ok & Hx).
  apply or_rolled_back_Ok in Hx as [[Hg Hx]|(_ & -> & ->)]; [right | by left].
  apply andb_true_iff in Hg as [Hg Hn]; apply may_grant_true in Hg; apply bool_decide_eq_true in Hn; all_txn; split; [done | by exists ttl].
Qed.

Lemma store_direct_ok now c : preserves ok (store_direct_authorization_code (Outbox := Outbox) now c).
Proof.
  intros s a s' Hx Hok; apply store_direct_Ok in Hx as [[_ ->]|(_ & ttl & _ & Hg & _ & ->)]; [done |].
  set (live := set_codes (keep_rows (fun r => now <? co_expires r)) s).
  apply (ok_new_code (dc_code_hash c) _ live); [done |].
  apply ok_delete_codes; [| done]; intros h r; apply keep_rows_subset.
Qed.

Lemma exchange_Ok now x s b s' :
  exchange_authorization_code now x s = Ok (b, s') ->
  (b = false /\ s' = s)
  \/ (b = true /\ exists r ttl, duration_seconds (ex_refresh_ttl x) = Ok ttl /\ codes (grants s) !! ex_code_hash x = Some r
      /\ co_account r = ex_account x /\ co_client r = ex_client x /\ now < co_expires r
      /\ grantable (ex_account x) (ex_client x) s /\ refresh_tokens (grants s) !! ex_refresh_token_hash x = None
      /\ s' = set_refresh_tokens (insert (ex_refresh_token_hash x)
                 {| rt_account := ex_account x; rt_client := ex_client x; rt_expires := now + ttl; rt_revoked := None |})
               (set_codes (delete (ex_code_hash x)) s)).
Proof.
  unfold exchange_authorization_code; intros Hx; apply then_Ok in Hx as (ttl & ? & [Ht ->]%try_res_Ok & Hx).
  apply then_Ok in Hx as (? & ? & [-> ->]%select_Ok & Hx); unfold consumes_code in Hx.
  destruct (codes (grants s) !! ex_code_hash x) as [r|]; simpl in Hx; [| apply commits_Ok in Hx as [-> ->]; by left].
  destruct (str_eqb (co_account r) (ex_account x) && _ && _ && _) eqn:E; simpl in Hx; [| apply commits_Ok in Hx as [-> ->]; by left].
  rewrite !andb_true_iff, !str_eqb_eq in E; destruct E as [[[Ha Hc] Ht'] Hg]; apply may_grant_true in Hg; right.
  apply then_Ok in Hx as (? & ? & ->%execute_Ok & Hx); apply then_Ok in Hx as (? & ? & [Hn ->]%insert_refresh_Ok & [-> ->]%commits_Ok).
  split; [done |]; exists r, ttl; rewrite <- Ha, <- Hc; split_and!; try done; lia.
Qed.

Lemma exchange_ok now x : preserves ok (exchange_authorization_code (Outbox := Outbox) now x).
Proof.
  intros s b s' Hx Hok; apply exchange_Ok in Hx as [[_ ->]|(_ & r & ttl & _ & _ & _ & _ & _ & Hg & _ & ->)]; [done |].
  apply ok_new_token; [done |]; apply ok_delete_codes; [| done]; by intros h r' [_ ?]%lookup_delete_Some.
Qed.

Lemma rotate_Ok now q s o s' :
  rotate_refresh_token now q s = Ok (o, s') ->
  (o = None /\ s' = s)
  \/ exists r account ttl, o = Some account /\ duration_seconds (ro_refresh_ttl q) = Ok ttl
      /\ refresh_tokens (grants s) !! ro_old_token_hash q = Some r /\ rt_account r = account /\ rt_client r = ro_client q
      /\ rt_revoked r = None /\ now < rt_expires r /\ grantable account (ro_client q) s
      /\ refresh_tokens (grants (revoke_refresh_token now (ro_old_token_hash q) s)) !! ro_new_token_hash q = None
      /\ s' = set_refresh_tokens (insert (ro_new_token_hash q)
                 {| rt_account := account; rt_client := ro_client q; rt_expires := now + ttl; rt_revoked := None |})
               (revoke_refresh_token now (ro_old_token_hash q) s).
Proof.
  unfold rotate_refresh_token; intros Hx; apply then_Ok in Hx as (ttl & ? & [Ht ->]%try_res_Ok & Hx).
  apply then_Ok in Hx as (? & ? & [-> ->]%select_Ok & Hx); unfold live_refresh in Hx.
  destruct (refresh_tokens (grants s) !! ro_old_token_hash q) as [r|]; simpl in Hx; [| apply commits_Ok in Hx as [-> ->]; by left].
  destruct (str_eqb (rt_client r) (ro_client q) && _ && _ && _) eqn:E; simpl in Hx; [| apply commits_Ok in Hx as [-> ->]; by left].
  rewrite !andb_true_iff, !str_eqb_eq, bool_decide_eq_true in E; destruct E as [[[Hc Hrev] Ht'] Hg]; apply may_grant_true in Hg; right.
  apply then_Ok in Hx as (? & ? & ->%execute_Ok & Hx); apply then_Ok in Hx as (? & ? & [Hn ->]%insert_refresh_Ok & [-> ->]%commits_Ok).
  exists r, (rt_account r), ttl; rewrite <- Hc; split_and!; try done; lia.
Qed.

Lemma rotate_ok now q : preserves ok (rotate_refresh_token (Outbox := Outbox) now q).
Proof.
  intros s b s' Hx Hok; apply rotate_Ok in Hx as [[_ ->]|(r & account & ttl & _ & _ & _ & _ & _ & _ & _ & Hg & _ & ->)]; [done |].
  apply ok_new_token; [done |]; by apply ok_alter_token.
Qed.

Definition with_client (now : Z) (d : OAuthClientDefinition) (m : gmap str ClientRow) : gmap str ClientRow :=
  match m !! cd_id d with
  | Some _ => m
  | None => <[cd_id d := {| c_name := Some (cd_name d); c_redirect_uris := cd_redirect_uris d; c_created := now |}]> m
  end.

Lemma with_client_more now d m c : is_Some (m !! c) -> is_Some (with_client now d m !! c).
Proof. unfold with_client; case_match; [done | intros Hc; by apply lookup_insert_is_Some'; right]. Qed.

Lemma native_Ok now n s u s' :
  create_native_session_refresh now n s = Ok (u, s') ->
  exists ttl, duration_seconds (ns_refresh_ttl n) = Ok ttl /\ status_of (ns_account n) s = Some (lit "active")
    /\ refresh_tokens (grants s) !! ns_refresh_token_hash n = None
    /\ s' = set_refresh_tokens (insert (ns_refresh_token_hash n)
               {| rt_account := ns_account n; rt_client := cd_id (ns_client n); rt_expires := now + ttl; rt_revoked := None |})
             (set_clients (with_client now (ns_client n)) s).
Proof.
  unfold create_native_session_refresh; intros Hx; apply then_Ok in Hx as (ttl & ? & [Ht ->]%try_res_Ok & Hx).
  apply then_Ok in Hx as (? & ? & [-> ->]%select_Ok & Hx); apply then_Ok in Hx as (? & ? & [Ha ->]%abort_if_Ok & Hx).
  apply then_Ok in Hx as (? & ? & ->%execute_Ok & [Hn ->]%insert_refresh_Ok).
  apply negb_false_iff, bool_decide_eq_true in Ha; by exists ttl.
Qed.

Lemma native_ok now n : preserves ok (create_native_session_refresh (Outbox := Outbox) now n).
Proof.
  intros s b s' Hx Hok; apply native_Ok in Hx as (ttl & _ & Ha & _ & ->).
  apply fmap_Some in Ha as (row & Hr & Hs); apply ok_new_token.
  - split; [split; simpl; [by exists row |] | intros r'; simpl; rewrite Hr; intros [= <-]; by rewrite <- Hs].
    unfold with_client; case_match; [done | by rewrite lookup_insert_eq].
  - apply ok_more_clients; [intros c; apply with_client_more | done].
Qed.

(** *** Every event keeps the invariant *)

Lemma answers_ok {A} (m : txn (Db Outbox) A) r s s' : preserves ok m -> answers m r s s' -> ok s -> ok s'.
Proof.
  intros Hm [Ht|(e & _ & [->|(a & Ha)])] Hok; [by eapply preserves_run | done | by eapply Hm].
Qed.

Lemma effect_ok now e s s' : effect now e s s' -> ok s -> ok s'.
Proof.
  destruct e; simpl; try (apply answers_ok).
  - apply upsert_subject_ok. - apply upsert_apple_ok. - apply link_apple_ok. - apply request_deletion_ok. - apply preflight_ok.
  - apply begin_deletion_ok. - apply update_status_ok. - apply finalize_ok. - apply mark_revoked_ok. - apply ensure_client_ok.
  - apply register_client_ok. - apply store_consent_ok. - apply approve_consent_ok. - apply store_direct_ok. - apply exchange_ok.
  - apply rotate_ok. - apply native_ok.
  - intros [Hi Hg]; apply ok_core; unfold core; by rewrite Hi, Hg.
Qed.

Lemma steps_ok s h s' : steps moves s h s' -> ok s -> ok s'.
Proof. induction 1 as [|s e s1 h s2 Hm _ IH]; [done | intros Hok; apply IH; by eapply effect_ok]. Qed.

Lemma reachable_accounts_ok s : reachable s -> ok s.
Proof. intros (s0 & h & He & Hs); eapply steps_ok; [done | by apply empty_ok]. Qed.
End Ledger.
