(* ===== verification/Tickets.v ===== *)
(** * Single-use tickets

    A ticket is issued by some events and redeemed by others; the state says
    whether it is there to be redeemed.  When every step pays for what it
    redeems and what it leaves, a trace redeems a ticket at most as often as
    it was issued. *)
From Stdlib Require Import ZArith Lia.
From S2P Require Import Prelude Effects.

(** The events of a trace that satisfy a test. *)
Definition tally {E} (p : E -> bool) (h : list E) : nat := length (List.filter p h).

Lemma tally_cons {E} (p : E -> bool) e h : tally p (e :: h) = (Nat.b2n (p e) + tally p h)%nat.
Proof. unfold tally; simpl; by destruct (p e). Qed.

Lemma tally_app {E} (p : E -> bool) h h' : tally p (h ++ h') = (tally p h + tally p h')%nat.
Proof. unfold tally; by rewrite List.filter_app, length_app. Qed.

Lemma tally_absent {E} (p : E -> bool) h : (forall e, e ∈ h -> p e = false) -> tally p h = 0%nat.
Proof.
  induction h as [|e h IH]; intros H; [done |]; rewrite tally_cons, H by left; apply IH; intros x Hx; apply H; by right.
Qed.

Lemma tally_none {A} (p : A -> bool) l : Forall (fun a => p a = false) l -> tally p l = 0%nat.
Proof. induction 1 as [|a l Ha _ IH]; [done | by rewrite tally_cons, Ha, IH]. Qed.

(** A sum over a list. *)
Definition sum_of {A} (f : A -> nat) (l : list A) : nat := sum_list (f <$> l).

Lemma sum_of_cons {A} (f : A -> nat) a l : sum_of f (a :: l) = (f a + sum_of f l)%nat.
Proof. done. Qed.

Lemma sum_of_app {A} (f : A -> nat) l l' : sum_of f (l ++ l') = (sum_of f l + sum_of f l')%nat.
Proof. induction l as [|a l IH]; [done |]; rewrite <- app_comm_cons, !sum_of_cons, IH; lia. Qed.

Lemma sum_of_insert {A} (f : A -> nat) l i a b : l !! i = Some a -> (sum_of f (<[i := b]> l) + f a = sum_of f l + f b)%nat.
Proof.
  revert i; induction l as [|x l IH]; intros [|i] Hi; [done | done | injection Hi as ->; simpl; rewrite !sum_of_cons; lia |].
  specialize (IH i Hi); simpl; rewrite !sum_of_cons; lia.
Qed.

Lemma sum_of_le {A} (f g : A -> nat) l : (forall a, a ∈ l -> (f a <= g a)%nat) -> (sum_of f l <= sum_of g l)%nat.
Proof.
  induction l as [|a l IH]; intros H; [done |]; rewrite !sum_of_cons; assert (f a <= g a)%nat by (apply H; left).
  assert (sum_of f l <= sum_of g l)%nat by (apply IH; intros b Hb; apply H; by right); lia.
Qed.

Lemma sum_of_plus {A} (f g : A -> nat) l : sum_of (fun a => (f a + g a)%nat) l = (sum_of f l + sum_of g l)%nat.
Proof. induction l as [|a l IH]; [done |]; rewrite !sum_of_cons, IH; lia. Qed.

Section Tickets.
Context {State Event : Type} (step : State -> Event -> State -> Prop).
Context (I : State -> Prop) (holds : State -> bool) (issues redeems : Event -> bool).
Hypothesis I_kept : forall s e s', I s -> step s e s' -> I s'.
Hypothesis paid : forall s e s', I s -> step s e s' ->
  (Nat.b2n (redeems e) + Nat.b2n (holds s') <= Nat.b2n (holds s) + Nat.b2n (issues e))%nat.

Lemma tickets_balance s h s' :
  I s -> steps step s h s' -> (tally redeems h + Nat.b2n (holds s') <= Nat.b2n (holds s) + tally issues h)%nat.
Proof.
  intros Hi st; revert Hi; induction st as [s | s e s1 h s2 Hm _ IH]; intros Hi; [unfold tally; simpl; lia |].
  rewrite !tally_cons; assert (Hp := paid _ _ _ Hi Hm); specialize (IH (I_kept _ _ _ Hi Hm)); lia.
Qed.
End Tickets.

(** ** Where the rows of a state come from *)

Section Origins.
Context {State Event : Type} (step : State -> Event -> State -> Prop).

(** A trace seen at one of its events. *)
Lemma steps_split s h1 e h2 s' : steps step s (h1 ++ e :: h2) s' ->
  exists s1 s2, steps step s h1 s1 /\ step s1 e s2 /\ steps step s2 h2 s'.
Proof.
  revert s; induction h1 as [|x h1 IH]; intros s st; simpl in st; inversion st; subst.
  - eauto using steps_nil.
  - match goal with Hs : steps _ _ (h1 ++ _) _ |- _ => destruct (IH _ Hs) as (s1 & s2 & A & B & C) end.
    exists s1, s2; split_and!; [by econstructor | done | done].
Qed.

Lemma steps_split_app s h1 h2 s' : steps step s (h1 ++ h2) s' -> exists s1, steps step s h1 s1 /\ steps step s1 h2 s'.
Proof.
  revert s; induction h1 as [|x h1 IH]; intros s st; simpl in st; [eauto using steps_nil |].
  inversion st; subst; match goal with Hs : steps _ _ (h1 ++ _) _ |- _ => destruct (IH _ Hs) as (s1 & A & B) end.
  exists s1; split; [by econstructor | done].
Qed.
End Origins.
