(* ===== verification/AccountTheorems.v ===== *)
(** * Deletion, grants and the signup budget

    The theorems about the account database: a finalized deletion is final, a
    grant is redeemed at most as often as it was given and only as it was
    given, and a day's new accounts stay within its budget. *)
From stdpp Require Import gmap.
From Stdlib Require Import ZArith Lia.
From S2P Require Import Prelude OrdMap Text Errors Bytes IsoTime Effects Tickets Txn AccountDb Identity Lifecycle OAuthStore AccountLedger.
Local Open Scope Z_scope.
Local Open Scope kioku_scope.

Section Theorems.
Context {Outbox : Type} `{D : Delivery Outbox} (sha256 : bytes -> bytes) `{U : Unicode}.
Implicit Types s : Db Outbox.

#[local] Abbreviation moves := (moves (Outbox := Outbox) sha256).
#[local] Abbreviation effect := (effect (Outbox := Outbox) sha256).
#[local] Abbreviation ok := (ok (Outbox := Outbox) sha256).
#[local] Abbreviation reachable := (reachable (Outbox := Outbox) sha256).

(** A committed transaction, whatever it answers. *)
Lemma answers_keeps {A} (R : Db Outbox -> Db Outbox -> Prop) `{!PreOrder R} (m : txn (Db Outbox) A) r s s' :
  keeps R m -> answers m r s s' -> R s s'.
Proof.
  intros Hm [Ht|(e & _ & [->|(a & Ha)])]; [| done | by eapply Hm].
  unfold transact in Ht; destruct (m s) as [[a s1]|x] eqn:E; injection Ht as <- <-; [by eapply Hm | done].
Qed.

Lemma answers_Ok {A} (m : txn (Db Outbox) A) a s s' : answers m (Ok a) s s' -> m s = Ok (a, s').
Proof. by intros [Ht%transact_Ok|(e & He & _)]. Qed.

(** What an event did: nothing, or a committed transaction with this answer
    or an answer that was lost. *)
Lemma answers_cases {A} (m : txn (Db Outbox) A) r s s' :
  answers m r s s' -> (s' = s /\ exists e, r = Err e) \/ exists a, m s = Ok (a, s') /\ (r = Ok a \/ exists e, r = Err e).
Proof.
  intros [Ht|(e & -> & [->|(a & Ha)])]; [| left; eauto | right; eauto].
  unfold transact in Ht; destruct (m s) as [[a s1]|x] eqn:E; injection Ht as <- <-; [right | left]; eauto.
Qed.

(** ** Graves *)

Definition graves s := (deleted_accounts (ids s), deleted_identities (ids s)).

Definition more_graves s s' : Prop :=
  deleted_accounts (ids s) ⊆ deleted_accounts (ids s') /\ deleted_identities (ids s) ⊆ deleted_identities (ids s').

#[local] Instance more_graves_preorder : PreOrder more_graves.
Proof. split; [by split | intros s1 s2 s3 [A B] [A' B']; split; by etrans]. Qed.

Lemma same_graves {A} (m : txn (Db Outbox) A) : keeps (same graves) m -> keeps more_graves m.
Proof. intros Hm s a s' Hx; apply Hm in Hx; unfold same, graves in Hx; injection Hx as Ha Hi; split; by rewrite ?Ha, ?Hi. Qed.

Lemma bury_graves account s : more_graves s (bury_account account s).
Proof. split; simpl; set_solver. Qed.

Ltac graves_kept :=
  unfold violates, insert_client, insert_code, insert_refresh_token, insert_account, insert_identity, upsert_credential, reserve_signup,
    see_identity, set_account_email, apple_account, load_operation, loaded_operation, ensure_deletion_operation, update_operation,
    refuse_open_provider_fences, refuse_started_vertex_invocations, recover_expired_provider_claims, refuse_reviewer_fixture_deletion,
    expire_media_uploads, refuse_active_media_uploads; unfold refuse_active_media_uploads, expire_media_uploads; keeps_by_shape; done.

Lemma effect_graves now e s s' : effect now e s s' -> more_graves s s'.
Proof.
  destruct e; simpl; try apply answers_keeps; try tc_solve.
  1-7, 9-17: apply same_graves.
  - unfold upsert_subject_account; graves_kept.
  - unfold upsert_apple_account; graves_kept.
  - unfold link_apple_identity; graves_kept.
  - unfold request_account_deletion; graves_kept.
  - unfold account_deletion_preflight_complete; graves_kept.
  - unfold begin_account_deletion; graves_kept.
  - unfold update_account_deletion_status; graves_kept.
  - unfold mark_apple_credential_revoked; graves_kept.
  - unfold ensure_client; graves_kept.
  - unfold register_client; graves_kept.
  - intros x a x'; intros [[_ ->]|(_ & ttl & _ & _ & ->)]%store_consent_Ok; done.
  - unfold approve_consent; graves_kept.
  - intros x a x'; intros [[_ ->]|(_ & ttl & _ & _ & _ & ->)]%store_direct_Ok; done.
  - unfold exchange_authorization_code; graves_kept.
  - unfold rotate_refresh_token; graves_kept.
  - unfold create_native_session_refresh; graves_kept.
  - unfold finalize_account_deletion.
    apply keeps_then; [tc_solve | apply same_graves; graves_kept | intros _].
    apply keeps_then; [tc_solve | apply same_graves; graves_kept | intros status].
    apply keeps_then; [tc_solve | apply same_graves; graves_kept | intros _].
    apply keeps_then; [tc_solve | | intros _; apply same_graves; graves_kept].
    destruct status as [st|]; [| apply same_graves; graves_kept].
    do 3 (apply keeps_then; [tc_solve | apply same_graves; graves_kept | intros ?]).
    apply keeps_execute; intros x; apply bury_graves.
  - intros [Hi _]; split; by rewrite Hi.
Qed.

Lemma steps_graves s h s' : steps moves s h s' -> more_graves s s'.
Proof. induction 1 as [|s e s1 h s2 Hm _ IH]; [done | etrans; [by eapply effect_graves | done]]. Qed.

(** ** What an answer says of an account *)

(** The account a successful answer is about, which it admits. *)
Definition answered_for (e : StoreEvent) : option str :=
  match e with
  | SUpsert _ _ _ (Ok u) | SApple _ _ (Ok u) => Some (account_id (account u))
  | SLink a _ (Ok _) => Some a
  | SConsent c (Ok true) => Some (pc_account c)
  | SApprove a (Ok true) => Some (ap_account a)
  | SDirect c (Ok true) => Some (dc_account c)
  | SExchange x (Ok true) => Some (ex_account x)
  | SRotate _ (Ok (Some a)) => Some a
  | SNative n (Ok _) => Some (ns_account n)
  | _ => None
  end.

(** The identity a sign-in or a link is made with. *)
Definition signs_in_with (e : StoreEvent) : option (str * str) :=
  match e with
  | SUpsert subject _ _ _ => Some (google, subject)
  | SApple g _ _ | SLink _ g _ => Some (apple, g_subject g)
  | _ => None
  end.

Definition succeeded (e : StoreEvent) : bool :=
  match e with SUpsert _ _ _ (Ok _) | SApple _ _ (Ok _) | SLink _ _ (Ok _) => true | _ => false end.

Lemma upsert_subject_answer now subject email limit s u s' :
  upsert_subject_account sha256 now subject email limit s = Ok (u, s') ->
  ((google, subject) ∉ deleted_identities (ids s)) /\ is_Some (accounts (ids s') !! account_id (account u)).
Proof.
  unfold upsert_subject_account; intros Hx.
  apply then_Ok in Hx as (d & ? & [-> ->]%select_Ok & Hx); apply then_Ok in Hx as (? & ? & [Hd ->]%abort_if_Ok & Hx).
  apply not_deleted_inv in Hd as [_ Hk]; split; [done |]; apply then_Ok in Hx as (existing & ? & [-> ->]%select_Ok & Hx).
  destruct (account_of (google, subject) s) as [[id row]|] eqn:E.
  - unfold see_identity, set_account_email in Hx; all_txn; simpl; rewrite lookup_alter_is_Some.
    unfold account_of in E; repeat case_match; try done; injection E as <- <-; eauto.
  - apply then_Ok in Hx as (n & s1 & H1 & Hx); apply then_Ok in Hx as (? & s2 & H2 & Hx); apply then_Ok in Hx as (? & s3 & H3 & [-> ->]%commits_Ok).
    by apply insert_identity_Ok in H3 as [Ha ->].
Qed.

Lemma upsert_apple_answer now grant limit s u s' :
  upsert_apple_account sha256 now grant limit s = Ok (u, s') ->
  ((apple, g_subject grant) ∉ deleted_identities (ids s)) /\ is_Some (accounts (ids s') !! account_id (account u)).
Proof.
  unfold upsert_apple_account; intros Hx.
  apply then_Ok in Hx as (d & ? & [-> ->]%select_Ok & Hx); apply then_Ok in Hx as (? & ? & [Hd ->]%abort_if_Ok & Hx).
  apply not_deleted_inv in Hd as [_ Hk]; split; [done |].
  apply then_Ok in Hx as ([[id primary] today] & s1 & H1 & Hx); apply then_Ok in Hx as (? & s2 & H2 & [-> ->]%commits_Ok).
  by apply upsert_credential_Ok in H2 as [Ha ->].
Qed.

Lemma link_apple_answer now id grant s u s' :
  link_apple_identity now id grant s = Ok (u, s') ->
  ((apple, g_subject grant) ∉ deleted_identities (ids s)) /\ is_Some (accounts (ids s') !! id).
Proof.
  unfold link_apple_identity; intros Hx.
  do 2 (apply then_Ok in Hx as (? & ? & [-> ->]%select_Ok & Hx); apply then_Ok in Hx as (? & ? & [? ->]%abort_if_Ok & Hx)).
  do 2 (apply then_Ok in Hx as (? & ? & [-> ->]%select_Ok & Hx); apply then_Ok in Hx as (? & ? & [_ ->]%abort_if_Ok & Hx)).
  apply then_Ok in Hx as (? & s1 & _ & H2); apply upsert_credential_Ok in H2 as [Ha ->]; split; [| done].
  by match goal with Hb : bool_decide (_ ∈ _) = false |- _ => apply bool_decide_eq_false in Hb end.
Qed.

(** A successful answer is about an account that has its row. *)
Lemma answered_for_exists now e s s' a : effect now e s s' -> answered_for e = Some a -> is_Some (accounts (ids s') !! a).
Proof.
  intros He Ha; destruct e; simpl in Ha; try done; repeat (case_match; try done); injection Ha as <-; subst;
    simpl in He; apply answers_Ok in He.
  - by apply upsert_subject_answer in He as [_ ?].
  - by apply upsert_apple_answer in He as [_ ?].
  - by apply link_apple_answer in He as [_ ?].
  - apply store_consent_Ok in He as [[? _]|(_ & ttl & _ & [[? _] _] & ->)]; done.
  - apply approve_consent_Ok in He as [[? _]|(_ & r & ttl & _ & _ & _ & _ & _ & _ & [[? _] _] & _ & ->)]; done.
  - apply store_direct_Ok in He as [[? _]|(_ & ttl & _ & [[? _] _] & _ & ->)]; done.
  - apply exchange_Ok in He as [[? _]|(_ & r & ttl & _ & _ & _ & _ & _ & [[? _] _] & _ & ->)]; done.
  - apply rotate_Ok in He as [[? _]|(r & id & ttl & [= ->] & _ & _ & _ & _ & _ & _ & [[? _] _] & _ & ->)]; done.
  - apply native_Ok in He as (ttl & _ & Hs & _ & ->); apply fmap_Some in Hs as (row & Hr & _); simpl; by exists row.
Qed.

Lemma sign_in_with_live_identity now e s s' k :
  effect now e s s' -> signs_in_with e = Some k -> succeeded e = true -> k ∉ deleted_identities (ids s).
Proof.
  intros He Hk Hs; destruct e; try done; simpl in *; repeat (case_match; try done); subst; apply answers_Ok in He; injection Hk as <-.
  - by apply upsert_subject_answer in He as [? _].
  - by apply upsert_apple_answer in He as [? _].
  - by apply link_apple_answer in He as [? _].
Qed.

(** What the account of a store owns nothing means. *)
Definition owns_nothing account s : Prop :=
  accounts (ids s) !! account = None
  /\ (forall k i, identities (ids s) !! k = Some i -> i_account i <> account)
  /\ (forall k c, credentials (ids s) !! k = Some c -> k.1 <> account)
  /\ (forall h r, consents (grants s) !! h = Some r -> cn_account r <> account)
  /\ (forall h r, codes (grants s) !! h = Some r -> co_account r <> account)
  /\ (forall h r, refresh_tokens (grants s) !! h = Some r -> rt_account r <> account).

Lemma absent_owns_nothing account s : ok s -> accounts (ids s) !! account = None -> owns_nothing account s.
Proof.
  intros Hok Hn; assert (Hno : forall a, is_Some (accounts (ids s) !! a) -> a <> account) by (intros a [x Ha] ->; congruence).
  split_and!; [done | | | | |]; intros h r Hr; apply Hno.
  - by eapply identities_owned. - by eapply credentials_owned.
  - by eapply (consents_owned _ _ Hok). - by eapply (codes_owned _ _ Hok). - by eapply (tokens_owned _ _ Hok).
Qed.

(** A finalized deletion leaves its account and identities entombed. *)
Lemma finalize_entombs now account s op s' :
  ok s -> finalize_account_deletion now account s = Ok (op, s') ->
  account ∈ deleted_accounts (ids s')
  /\ forall k i, identities (ids s) !! k = Some i -> i_account i = account -> k ∈ deleted_identities (ids s').
Proof.
  intros Hok Hx; unfold finalize_account_deletion in Hx.
  apply then_Ok in Hx as (? & s1 & H1 & Hx); apply then_Ok in Hx as (status & ? & [-> ->]%select_Ok & Hx).
  apply then_Ok in Hx as (? & s2 & H2 & Hx); apply then_Ok in Hx as (? & s3 & H3 & H4).
  destruct (refusals_core (Outbox := Outbox) now account) as (_ & A & _ & B).
  apply A in H1; apply B in H2; apply update_operation_core in H4; unfold same, core in H1, H2, H4.
  rewrite !pair_equal_spec in H1, H2, H4; destruct H1 as [[[[[Ha1 Hi1] _] Hd1] Hdi1] _], H2 as [[[[[Ha2 Hi2] _] Hd2] Hdi2] _], H4 as [[[[[_ _] _] Hd4] Hdi4] _].
  rewrite Hd4, Hdi4; destruct (status_of account s1) as [st|] eqn:E.
  - all_txn; simpl; split; [set_solver |]; intros k i Hk Hown; apply elem_of_union_l, elem_of_owned_identities.
    exists i; split; [congruence | done].
  - apply then_Ok in H3 as (? & ? & [-> ->]%select_Ok & [Hg ->]%abort_if_Ok); apply negb_false_iff, bool_decide_eq_true in Hg.
    split; [done |]; intros k i Hk <-; exfalso; destruct (identities_owned _ _ Hok k i Hk) as [row Hrow].
    unfold status_of in E; rewrite Ha1, Hrow in E; done.
Qed.

(** ** Grants that are taken away only *)

(** Every row of the grants was there before; a token may have been revoked. *)
Definition fewer_grants s s' : Prop :=
  (forall h r, consents (grants s') !! h = Some r -> consents (grants s) !! h = Some r)
  /\ (forall h r, codes (grants s') !! h = Some r -> codes (grants s) !! h = Some r)
  /\ (forall h r, refresh_tokens (grants s') !! h = Some r -> refresh_tokens (grants s) !! h = Some r).

#[local] Instance fewer_grants_preorder : PreOrder fewer_grants.
Proof. split; [by split | intros s1 s2 s3 (A & B & C) (A' & B' & C'); split_and!; intros h r Hr; auto]. Qed.

Lemma same_grants s s' : grants s' = grants s -> fewer_grants s s'.
Proof. intros E; unfold fewer_grants; rewrite E; by split_and!. Qed.

Lemma fewer_delete_clients gone s : fewer_grants s (delete_clients gone s).
Proof. split_and!; simpl; intros h r; apply keep_rows_subset. Qed.

Lemma fewer_delete_grants account s : fewer_grants s (delete_grants account s).
Proof. split_and!; simpl; intros h r; apply keep_rows_subset. Qed.

Lemma fewer_revoke now account s : fewer_grants s (revoke_everything now account s).
Proof. etrans; [apply (fewer_delete_grants account) | by apply same_grants]. Qed.

Lemma fewer_bury account s : fewer_grants s (bury_account account s).
Proof. apply (fewer_delete_grants account s). Qed.

(** The events that give or redeem grants. *)
Definition moves_grants (e : StoreEvent) : bool :=
  match e with SConsent _ _ | SApprove _ _ | SDirect _ _ | SExchange _ _ | SRotate _ _ | SNative _ _ => true | _ => false end.

Ltac fewer_kept :=
  unfold violates, insert_client, insert_account, insert_identity, upsert_credential, reserve_signup,
    see_identity, set_account_email, apple_account, load_operation, loaded_operation, ensure_deletion_operation, update_operation,
    refuse_open_provider_fences, refuse_started_vertex_invocations, recover_expired_provider_claims, refuse_reviewer_fixture_deletion,
    refuse_active_media_uploads, expire_media_uploads; keeps_by_shape;
  first [by apply same_grants | apply fewer_revoke | apply fewer_bury | apply fewer_delete_clients | by split_and!].

Lemma other_events_fewer_grants now e s s' : moves_grants e = false -> effect now e s s' -> fewer_grants s s'.
Proof.
  destruct e; simpl; try done; intros _; try (apply answers_keeps; tc_solve).
  - apply answers_keeps; [tc_solve |]; unfold upsert_subject_account; fewer_kept.
  - apply answers_keeps; [tc_solve |]; unfold upsert_apple_account; fewer_kept.
  - apply answers_keeps; [tc_solve |]; unfold link_apple_identity; fewer_kept.
  - apply answers_keeps; [tc_solve |]; unfold request_account_deletion; fewer_kept.
  - apply answers_keeps; [tc_solve |]; unfold account_deletion_preflight_complete; fewer_kept.
  - apply answers_keeps; [tc_solve |]; unfold begin_account_deletion; fewer_kept.
  - apply answers_keeps; [tc_solve |]; unfold update_account_deletion_status; fewer_kept.
  - apply answers_keeps; [tc_solve |]; unfold finalize_account_deletion; fewer_kept.
  - apply answers_keeps; [tc_solve |]; unfold mark_apple_credential_revoked; fewer_kept.
  - apply answers_keeps; [tc_solve |]; unfold ensure_client; fewer_kept.
  - apply answers_keeps; [tc_solve |]; unfold register_client; fewer_kept.
  - intros [_ Hg]; by apply same_grants.
Qed.

(** ** Where a grant comes from *)

#[local] Abbreviation event := (Z * StoreEvent)%type.

(** The expiry of a row inserted at a time with a duration. *)
Definition expiry (now ttl : Z) : Z := now + ttl * 1_000_000.

Lemma duration_expiry now ttl d : duration_seconds ttl = Ok d -> now + d = expiry now ttl.
Proof. unfold duration_seconds, expiry; intros Hd; all_ok; lia. Qed.

(** The consent was stored by an event of the trace. *)
Definition consent_stored (h : list event) (hash : str) (r : ConsentRow) : Prop :=
  exists t c a, (t, SConsent c a) ∈ h /\ a <> Ok false /\ pc_consent_hash c = hash
    /\ r = {| cn_account := pc_account c; cn_client := pc_client c; cn_redirect_uri := pc_redirect_uri c; cn_expires := expiry t (pc_ttl c) |}.

(** A code was issued by the approval of a stored, unexpired consent of the
    same account, client and redirect, or directly. *)
Definition code_issued (h : list event) (hash : str) (r : CodeRow) : Prop :=
  (exists t a b consent, (t, SApprove a b) ∈ h /\ b <> Ok false /\ ap_code_hash a = hash
     /\ r = {| co_account := ap_account a; co_client := ap_client a; co_expires := expiry t (ap_code_ttl a) |}
     /\ consent_stored h (ap_consent_hash a) consent /\ cn_account consent = ap_account a /\ cn_client consent = ap_client a
     /\ cn_redirect_uri consent = ap_redirect_uri a /\ t < cn_expires consent)
  \/ (exists t c b, (t, SDirect c b) ∈ h /\ b <> Ok false /\ dc_code_hash c = hash
     /\ r = {| co_account := dc_account c; co_client := dc_client c; co_expires := expiry t (dc_ttl c) |}).

(** The event opens a session with its first refresh token: it exchanges an
    issued code, or it is a native sign-in, for the account and client. *)
Definition opens (h : list event) (e : event) (token account client : str) : Prop :=
  match e.2 with
  | SExchange x b =>
    b <> Ok false /\ ex_refresh_token_hash x = token /\ ex_account x = account /\ ex_client x = client
    /\ exists r, code_issued h (ex_code_hash x) r /\ co_account r = account /\ co_client r = client
  | SNative n _ => ns_refresh_token_hash n = token /\ ns_account n = account /\ cd_id (ns_client n) = client
  | _ => False
  end.

(** The tokens of the session an event opens: the one it was opened with, and
    what a rotation of one of them, in the order of the trace, gave for it to
    the same account and client. *)
Inductive in_session (opening : event) (account client : str) : list event -> str -> Prop :=
| session_root h token h' : opens h opening token account client -> in_session opening account client (h ++ opening :: h') token
| session_rotated h t q b h' :
  in_session opening account client h (ro_old_token_hash q) -> ro_client q = client -> (b = Ok (Some account) \/ exists e, b = Err e) ->
  in_session opening account client (h ++ (t, SRotate q b) :: h') (ro_new_token_hash q).

Lemma in_session_app o a c h l token : in_session o a c h token -> in_session o a c (h ++ l) token.
Proof. intros [h1 k h2 Ho|h1 t q b h2 H Hc Hb]; rewrite <- app_assoc; simpl; [by apply session_root | by apply session_rotated]. Qed.

Definition grants_explained (h : list event) s : Prop :=
  (forall hash r, consents (grants s) !! hash = Some r -> consent_stored h hash r)
  /\ (forall hash r, codes (grants s) !! hash = Some r -> code_issued h hash r)
  /\ (forall hash r, refresh_tokens (grants s) !! hash = Some r -> exists o, in_session o (rt_account r) (rt_client r) h hash).

Lemma consent_stored_mono h h' hash r : h ⊆ h' -> consent_stored h hash r -> consent_stored h' hash r.
Proof. intros Hs (t & c & a & Hin & Hrest); exists t, c, a; split; [by apply Hs | done]. Qed.

Lemma code_issued_mono h h' hash r : h ⊆ h' -> code_issued h hash r -> code_issued h' hash r.
Proof.
  intros Hs [(t & a & b & cn & Hin & Hb & Hh & Hr & Hc & Hrest)|(t & c & b & Hin & Hrest)]; [left | right].
  - exists t, a, b, cn; split_and!; [by apply Hs | done | done | done | by eapply consent_stored_mono | apply Hrest..].
  - exists t, c, b; split; [by apply Hs | done].
Qed.

Lemma in_session_opened o a c h token : in_session o a c h token -> exists h1 h2 k, h = h1 ++ o :: h2 /\ opens h1 o k a c.
Proof.
  induction 1 as [h token h' Ho|h t q b h' _ (h1 & h2 & k & -> & Ho) _ _]; [by exists h, h', token |].
  exists h1, (h2 ++ (t, SRotate q b) :: h'), k; by rewrite <- app_assoc.
Qed.

Lemma grants_explained_mono h l s s' : fewer_grants s s' -> grants_explained h s -> grants_explained (h ++ l) s'.
Proof.
  assert (Hs : h ⊆ h ++ l) by set_solver; intros (A & B & C) (A' & B' & C'); split_and!; intros k r Hr.
  - by eapply consent_stored_mono, A', A. - by eapply code_issued_mono, B', B.
  - destruct (C' k r (C k r Hr)) as [o Ho]; exists o; by apply in_session_app.
Qed.

(** A committed transaction's event did not answer [false]. *)
Lemma committed_answer {A} (r : res A) a (bad : A) : a <> bad -> (r = Ok a \/ exists e, r = Err e) -> r <> Ok bad.
Proof. intros Hne [->|[e ->]]; [by intros [= ->] | done]. Qed.

Lemma explained_kept h s t e s' : grants_explained h s -> effect t e s s' -> grants_explained (h ++ [(t, e)]) s'.
Proof.
  intros Hex He; assert (Hsub : h ⊆ h ++ [(t, e)]) by set_solver.
  assert (Hlast : (t, e) ∈ h ++ [(t, e)]) by set_solver.
  destruct (moves_grants e) eqn:Hm; [| by eapply grants_explained_mono, Hex; eapply other_events_fewer_grants].
  assert (Hstay : s' = s -> grants_explained (h ++ [(t, e)]) s') by (intros ->; by eapply grants_explained_mono).
  assert (Hold := grants_explained_mono h [(t, e)] _ _ (reflexivity s) Hex); destruct Hold as (A & B & C).
  destruct e as [ | | | | | | | | | | | c r|a r|c r|x r|q r|n r|]; try done; simpl in He;
    apply answers_cases in He as [[He _]|(a0 & He & Hr)]; auto.
  - apply store_consent_Ok in He as [[_ ->]|(-> & ttl & Ht & _ & ->)]; auto; split_and!; [| done | done].
    intros k r0; simpl; intros [[<- <-]|[_ Hk]]%lookup_insert_Some; [| by apply A; eapply keep_rows_subset].
    exists t, c, r; rewrite (duration_expiry _ _ _ Ht); split_and!; try done; by apply (committed_answer r true false).
  - apply approve_consent_Ok in He as [[_ ->]|(-> & cn & ttl & Ht & Hcn & Ha & Hcl & Hred & Hexp & _ & _ & ->)]; auto; split_and!; [| | done].
    + intros k r0; simpl; intros [_ Hk]%lookup_delete_Some; by apply A.
    + intros k r0; simpl; intros [[<- <-]|[_ Hk]]%lookup_insert_Some; [left | by apply B].
      exists t, a, r, cn; rewrite (duration_expiry _ _ _ Ht); split_and!; try done; [by apply (committed_answer r true false) | by apply A].
  - apply store_direct_Ok in He as [[_ ->]|(-> & ttl & Ht & _ & _ & ->)]; auto; split_and!; [done | | done].
    intros k r0; simpl; intros [[<- <-]|[_ Hk]]%lookup_insert_Some; [right | by apply B; eapply keep_rows_subset].
    exists t, c, r; rewrite (duration_expiry _ _ _ Ht); split_and!; try done; by apply (committed_answer r true false).
  - apply exchange_Ok in He as [[_ ->]|(-> & r0 & ttl & _ & Hco & Ha & Hc & _ & _ & _ & ->)]; auto; split_and!; [done | |].
    + intros k r1; simpl; intros [_ Hk]%lookup_delete_Some; by apply B.
    + intros k r1; simpl; intros [[<- <-]|[_ Hk]]%lookup_insert_Some; [| by eapply C].
      exists (t, SExchange x r); apply (session_root _ _ _ h _ []); split; [by apply (committed_answer r true false) |].
      split_and!; [done.. |]; exists r0; split_and!; [by apply (proj1 (proj2 Hex)) | done | done].
  - apply rotate_Ok in He as [[_ ->]|(r0 & account & ttl & -> & _ & Hold & Ha & Hc & _ & _ & _ & _ & ->)]; auto; split_and!; [done | done |].
    intros k r1; simpl; intros [[<- <-]|[_ Hk]]%lookup_insert_Some; simpl.
    { destruct (proj2 (proj2 Hex) _ _ Hold) as [o Ho]; rewrite Ha, Hc in Ho; exists o; by apply (session_rotated _ _ _ h t q r []). }
    apply alter_Some in Hk as (r2 & Hk & [->| ->]); simpl; by eapply C.
  - apply native_Ok in He as (ttl & _ & _ & _ & ->); split_and!; [done | done |].
    intros k r1; simpl; intros [[<- <-]|[_ Hk]]%lookup_insert_Some; simpl; [| by eapply C].
    exists (t, SNative n r); by apply (session_root _ _ _ h _ []).
Qed.

Lemma empty_explained s : empty_db s -> grants_explained [] s.
Proof. intros [_ Hg]; split_and!; rewrite Hg; simpl; intros k r; rewrite lookup_empty; done. Qed.

Lemma trace_explained s0 h s : empty_db s0 -> steps moves s0 h s -> grants_explained h s.
Proof.
  intros He; apply (steps_invariant moves (fun h s => grants_explained h s)); [by apply empty_explained |].
  intros h' s1 [t e] s2; apply explained_kept.
Qed.

(** ** Tickets *)

#[local] Arguments Nat.b2n !b /.

Definition not_false (r : res bool) : bool := match r with Ok false => false | _ => true end.

Definition stores_consent (hash : str) (e : event) : bool :=
  match e.2 with SConsent c r => str_eqb (pc_consent_hash c) hash && not_false r | _ => false end.
Definition approves_consent (hash : str) (e : event) : bool :=
  match e.2 with SApprove a (Ok true) => str_eqb (ap_consent_hash a) hash | _ => false end.

Definition issues_code (hash : str) (e : event) : bool :=
  match e.2 with
  | SApprove a r => str_eqb (ap_code_hash a) hash && not_false r
  | SDirect c r => str_eqb (dc_code_hash c) hash && not_false r
  | _ => false
  end.
Definition exchanges_code (hash : str) (e : event) : bool :=
  match e.2 with SExchange x (Ok true) => str_eqb (ex_code_hash x) hash | _ => false end.

Definition issues_token (hash : str) (e : event) : bool :=
  match e.2 with
  | SExchange x r => str_eqb (ex_refresh_token_hash x) hash && not_false r
  | SRotate q r => str_eqb (ro_new_token_hash q) hash && match r with Ok None => false | _ => true end
  | SNative n _ => str_eqb (ns_refresh_token_hash n) hash
  | _ => false
  end.
Definition rotates_token (hash : str) (e : event) : bool :=
  match e.2 with SRotate q (Ok (Some _)) => str_eqb (ro_old_token_hash q) hash | _ => false end.

Definition has_consent (hash : str) s : bool := bool_decide (is_Some (consents (grants s) !! hash)).
Definition has_code (hash : str) s : bool := bool_decide (is_Some (codes (grants s) !! hash)).
Definition has_live_token (hash : str) s : bool :=
  match refresh_tokens (grants s) !! hash with Some r => bool_decide (rt_revoked r = None) | None => false end.

Lemma fewer_tickets s s' k : fewer_grants s s' ->
  (Nat.b2n (has_consent k s') <= Nat.b2n (has_consent k s))%nat /\ (Nat.b2n (has_code k s') <= Nat.b2n (has_code k s))%nat
  /\ (Nat.b2n (has_live_token k s') <= Nat.b2n (has_live_token k s))%nat.
Proof.
  intros (A & B & C); unfold has_consent, has_code, has_live_token; split_and!.
  - case_bool_decide as E; [| simpl; lia]; destruct E as [r Hr]; apply A in Hr; by rewrite Hr.
  - case_bool_decide as E; [| simpl; lia]; destruct E as [r Hr]; apply B in Hr; by rewrite Hr.
  - destruct (refresh_tokens (grants s') !! k) as [r|] eqn:E; [| simpl; lia]; apply C in E; by rewrite E.
Qed.

Lemma b2n_le_1 b : (Nat.b2n b <= 1)%nat.
Proof. destruct b; simpl; lia. Qed.

(** The row of a key after an insertion or a deletion elsewhere. *)
Lemma lookup_is_Some_insert {R} (m : gmap str R) k j r :
  bool_decide (is_Some (<[j := r]> m !! k)) = str_eqb j k || bool_decide (is_Some (m !! k)).
Proof.
  unfold str_eqb; destruct (decide (j = k)) as [->|Hne].
  - rewrite lookup_insert_eq, (bool_decide_true (k = k)) by done; by apply bool_decide_eq_true.
  - by rewrite lookup_insert_ne, (bool_decide_false (j = k)) by done.
Qed.

Lemma lookup_is_Some_delete {R} (m : gmap str R) k j :
  bool_decide (is_Some (delete j m !! k)) = negb (str_eqb j k) && bool_decide (is_Some (m !! k)).
Proof.
  unfold str_eqb; destruct (decide (j = k)) as [->|Hne].
  - rewrite lookup_delete_eq, (bool_decide_true (k = k)) by done; by apply bool_decide_eq_false; intros [? ?].
  - by rewrite lookup_delete_ne, (bool_decide_false (j = k)) by done.
Qed.

Lemma keep_rows_tickets {R} (keep : R -> bool) (m : gmap str R) k :
  (Nat.b2n (bool_decide (is_Some (keep_rows keep m !! k))) <= Nat.b2n (bool_decide (is_Some (m !! k))))%nat.
Proof. case_bool_decide as E; [| simpl; lia]; destruct E as [r Hr]; apply keep_rows_subset in Hr; by rewrite Hr. Qed.

(** A ticket's law, for the events that move grants. *)
Lemma paid_by_cases (redeems issues : event -> bool) (holds : Db Outbox -> bool) t e s s' :
  (forall x, moves_grants x.2 = false -> redeems x = false) ->
  (forall x y, fewer_grants x y -> (Nat.b2n (holds y) <= Nat.b2n (holds x))%nat) ->
  effect t e s s' -> (moves_grants e = true -> (Nat.b2n (redeems (t, e)) + Nat.b2n (holds s') <= Nat.b2n (holds s) + Nat.b2n (issues (t, e)))%nat) ->
  (Nat.b2n (redeems (t, e)) + Nat.b2n (holds s') <= Nat.b2n (holds s) + Nat.b2n (issues (t, e)))%nat.
Proof.
  intros Hr Hf He Hm; destruct (moves_grants e) eqn:E; [by apply Hm |].
  rewrite Hr by done; apply (other_events_fewer_grants t) in He; [| done]; apply Hf in He; simpl; lia.
Qed.

Lemma consent_paid k s e s' : moves s e s' ->
  (Nat.b2n (approves_consent k e) + Nat.b2n (has_consent k s') <= Nat.b2n (has_consent k s) + Nat.b2n (stores_consent k e))%nat.
Proof.
  destruct e as [t e]; intros He; simpl in He.
  apply (paid_by_cases _ _ _ t e s s'); [by intros [? []] | intros x y Hf; by apply (fewer_tickets x y k Hf) | done | intros Hm].
  destruct e as [ | | | | | | | | | | | c r|a r|c r|x r|q r|n r|]; try done; simpl in He; unfold stores_consent, approves_consent, has_consent; simpl;
    apply answers_cases in He as [[-> [e ->]]|(a0 & He & Hr)]; try (simpl; lia).
  - apply store_consent_Ok in He as [[-> ->]|(-> & ttl & Ht & _ & ->)]; [lia |]; simpl; rewrite lookup_is_Some_insert.
    assert (Hk := keep_rows_tickets (fun r => t <? cn_expires r) (consents (grants s)) k).
    destruct Hr as [->|[e ->]]; simpl; rewrite andb_true_r; destruct (str_eqb (pc_consent_hash c) k); simpl; lia.
  - apply approve_consent_Ok in He as [[-> ->]|(-> & cn & ttl & Ht & Hcn & _ & _ & _ & _ & _ & _ & ->)].
    { destruct Hr as [->|[e ->]]; simpl; lia. }
    simpl; rewrite lookup_is_Some_delete; destruct (str_eqb (ap_consent_hash a) k) eqn:E; simpl.
    + apply str_eqb_eq in E as <-; rewrite Hcn; destruct Hr as [->|[e ->]]; simpl; lia.
    + destruct Hr as [->|[e ->]]; simpl; lia.
  - apply store_direct_Ok in He as [[-> ->]|(-> & ttl & _ & _ & _ & ->)]; simpl; lia.
  - apply exchange_Ok in He as [[-> ->]|(-> & r0 & ttl & _ & _ & _ & _ & _ & _ & _ & ->)]; simpl; lia.
  - apply rotate_Ok in He as [[_ ->]|(r0 & account & ttl & _ & _ & _ & _ & _ & _ & _ & _ & _ & ->)]; simpl; lia.
  - apply native_Ok in He as (ttl & _ & _ & _ & ->); simpl; lia.
Qed.

Lemma code_paid k s e s' : moves s e s' ->
  (Nat.b2n (exchanges_code k e) + Nat.b2n (has_code k s') <= Nat.b2n (has_code k s) + Nat.b2n (issues_code k e))%nat.
Proof.
  destruct e as [t e]; intros He; simpl in He.
  apply (paid_by_cases _ _ _ t e s s'); [by intros [? []] | intros x y Hf; by apply (fewer_tickets x y k Hf) | done | intros Hm].
  destruct e as [ | | | | | | | | | | | c r|a r|c r|x r|q r|n r|]; try done; simpl in He; unfold issues_code, exchanges_code, has_code; simpl;
    apply answers_cases in He as [[-> [e ->]]|(a0 & He & Hr)]; try (simpl; lia).
  - apply store_consent_Ok in He as [[-> ->]|(-> & ttl & Ht & _ & ->)]; simpl; lia.
  - apply approve_consent_Ok in He as [[-> ->]|(-> & cn & ttl & Ht & Hcn & _ & _ & _ & _ & _ & Hn & ->)]; simpl; [lia |].
    rewrite lookup_is_Some_insert; destruct (str_eqb (ap_code_hash a) k); destruct Hr as [->|[e ->]]; simpl; lia.
  - apply store_direct_Ok in He as [[-> ->]|(-> & ttl & _ & _ & _ & ->)]; simpl; [lia |]; rewrite lookup_is_Some_insert.
    assert (Hk := keep_rows_tickets (fun r => t <? co_expires r) (codes (grants s)) k).
    destruct (str_eqb (dc_code_hash c) k); destruct Hr as [->|[e ->]]; simpl; lia.
  - apply exchange_Ok in He as [[-> ->]|(-> & r0 & ttl & _ & Hco & _ & _ & _ & _ & _ & ->)].
    { destruct Hr as [->|[e ->]]; simpl; lia. }
    simpl; rewrite lookup_is_Some_delete; destruct (str_eqb (ex_code_hash x) k) eqn:E; simpl.
    + apply str_eqb_eq in E as <-; rewrite Hco; destruct Hr as [->|[e ->]]; simpl; lia.
    + destruct Hr as [->|[e ->]]; simpl; lia.
  - apply rotate_Ok in He as [[_ ->]|(r0 & account & ttl & _ & _ & _ & _ & _ & _ & _ & _ & _ & ->)]; simpl; lia.
  - apply native_Ok in He as (ttl & _ & _ & _ & ->); simpl; lia.
Qed.

Lemma live_token_insert k j r s :
  Nat.b2n (has_live_token k (set_refresh_tokens (insert j r) s))
  = Nat.b2n (if str_eqb j k then bool_decide (rt_revoked r = None) else has_live_token k s).
Proof.
  unfold has_live_token; simpl; unfold str_eqb; case_bool_decide as E; [subst; by rewrite lookup_insert_eq | by rewrite lookup_insert_ne].
Qed.

Lemma live_token_revoked k j now s :
  Nat.b2n (has_live_token k (revoke_refresh_token now j s)) = Nat.b2n (negb (str_eqb j k) && has_live_token k s).
Proof.
  unfold has_live_token; simpl; unfold str_eqb; case_bool_decide as E; simpl.
  - subst; rewrite lookup_alter_eq; by destruct (refresh_tokens (grants s) !! k).
  - by rewrite lookup_alter_ne.
Qed.

Lemma token_paid k s e s' : moves s e s' ->
  (Nat.b2n (rotates_token k e) + Nat.b2n (has_live_token k s') <= Nat.b2n (has_live_token k s) + Nat.b2n (issues_token k e))%nat.
Proof.
  destruct e as [t e]; intros He; simpl in He.
  apply (paid_by_cases _ _ _ t e s s'); [by intros [? []] | intros x y Hf; by apply (fewer_tickets x y k Hf) | done | intros Hm].
  destruct e as [ | | | | | | | | | | | c r|a r|c r|x r|q r|n r|]; try done; simpl in He; unfold issues_token, rotates_token; simpl;
    apply answers_cases in He as [[-> [e ->]]|(a0 & He & Hr)]; try (simpl; lia).
  - apply store_consent_Ok in He as [[-> ->]|(-> & ttl & Ht & _ & ->)]; unfold has_live_token; simpl; lia.
  - apply approve_consent_Ok in He as [[-> ->]|(-> & cn & ttl & _ & _ & _ & _ & _ & _ & _ & _ & ->)]; unfold has_live_token; simpl; lia.
  - apply store_direct_Ok in He as [[-> ->]|(-> & ttl & _ & _ & _ & ->)]; unfold has_live_token; simpl; lia.
  - apply exchange_Ok in He as [[-> ->]|(-> & r0 & ttl & _ & _ & _ & _ & _ & _ & _ & ->)]; [simpl; lia |].
    rewrite live_token_insert; destruct (str_eqb (ex_refresh_token_hash x) k); destruct Hr as [->|[e ->]]; unfold has_live_token; simpl; lia.
  - apply rotate_Ok in He as [[-> ->]|(r0 & account & ttl & -> & _ & Hold & _ & _ & Hrev & _ & _ & _ & ->)].
    { destruct Hr as [->|[e ->]]; simpl; lia. }
    rewrite live_token_insert; destruct (str_eqb (ro_new_token_hash q) k) eqn:En; simpl.
    + destruct Hr as [->|[e ->]]; simpl; [| lia]; destruct (str_eqb (ro_old_token_hash q) k) eqn:Eo; simpl; [| lia].
      apply str_eqb_eq in Eo as <-; unfold has_live_token; rewrite Hold, bool_decide_true by done; simpl; lia.
    + rewrite live_token_revoked; destruct (str_eqb (ro_old_token_hash q) k) eqn:Eo; simpl.
      * apply str_eqb_eq in Eo as <-; unfold has_live_token; rewrite Hold, bool_decide_true by done; destruct Hr as [->|[e ->]]; simpl; lia.
      * destruct Hr as [->|[e ->]]; simpl; lia.
  - apply native_Ok in He as (ttl & _ & _ & _ & ->); rewrite live_token_insert; destruct (str_eqb (ns_refresh_token_hash n) k); unfold has_live_token; simpl; lia.
Qed.

(** In a trace from a database without grants, a ticket is redeemed at most as
    often as it was issued. *)
Lemma tickets_of (redeems issues : event -> bool) (holds : Db Outbox -> bool) s0 h s :
  (forall x e y, moves x e y -> (Nat.b2n (redeems e) + Nat.b2n (holds y) <= Nat.b2n (holds x) + Nat.b2n (issues e))%nat) ->
  holds s0 = false -> steps moves s0 h s -> (tally redeems h <= tally issues h)%nat.
Proof.
  intros Hpaid H0 Hst; assert (Hb := tickets_balance moves (fun _ => True) holds issues redeems (fun _ _ _ _ _ => I) (fun x e y _ => Hpaid x e y) _ _ _ I Hst).
  rewrite H0 in Hb; simpl in Hb; lia.
Qed.
(** ** The signup budget *)

Definition spent (day : Z) s : Z := default 0 (signups (ids s) !! day).

(** A new account was made on the day. *)
Definition signed_up (day : Z) (e : event) : bool :=
  (current_date e.1 =? day)
  && match e.2 with SUpsert _ _ _ (Ok u) | SApple _ _ (Ok u) => bool_decide (is_Some (signup_accounts_today u)) | _ => false end.

(** The limit an event on the day is made under. *)
Definition limited (day limit : Z) (e : event) : Prop :=
  match e.2 with SUpsert _ _ n _ | SApple _ n _ => current_date e.1 = day -> n <= limit | _ => True end.

Lemma reserve_signup_Ok now limit s n s' :
  reserve_signup now limit s = Ok (n, s') ->
  n = spent (current_date now) s + 1 /\ n <= limit
  /\ forall day, current_date now - 30 <= day -> spent day s' = if decide (day = current_date now) then n else spent day s.
Proof.
  unfold reserve_signup, spent; intros Hx; apply then_Ok in Hx as (? & ? & [Hl ->]%abort_if_Ok & Hx).
  apply then_Ok in Hx as (? & ? & [-> ->]%select_Ok & Hx); apply then_Ok in Hx as (? & s1 & H1 & Hx).
  apply then_Ok in Hx as (? & ? & ->%execute_Ok & [-> ->]%commits_Ok); set (today := current_date now) in *; simpl.
  assert (Hs1 : signups (ids s1) = <[today := default 0 (signups (ids s) !! today) + 1]> (signups (ids s)) /\ default 0 (signups (ids s) !! today) + 1 <= limit).
  { destruct (signups (ids s) !! today) as [m|] eqn:E; [case_match; all_txn; simpl; split; [done | lia] |]; all_txn; simpl; split; [done | lia]. }
  destruct Hs1 as [Hs1 Hle]; split_and!; [done | done |]; intros day Hd; rewrite Hs1.
  destruct (decide (day = today)) as [->|Hne].
  - rewrite (map_lookup_filter_Some_2 _ _ _ (default 0 (signups (ids s) !! today) + 1)); [done | by rewrite lookup_insert_eq | simpl; lia].
  - f_equal; apply option_eq; intros v; rewrite map_lookup_filter_Some, lookup_insert_ne by done; naive_solver.
Qed.

(** A sign-in that made an account charged the budget for it. *)
Definition charges (now limit : Z) (today : option Z) s s' : Prop :=
  (forall day, current_date now - 30 <= day -> spent day s' = if decide (day = current_date now) then spent day s + Z.b2z (bool_decide (is_Some today)) else spent day s)
  /\ forall n, today = Some n -> n = spent (current_date now) s + 1 /\ n <= limit.

Lemma spent_same s s' day : signups (ids s') = signups (ids s) -> spent day s' = spent day s.
Proof. unfold spent; by intros ->. Qed.

Lemma no_charge now limit s s' : signups (ids s') = signups (ids s) -> charges now limit None s s'.
Proof. intros E; split; [intros day _; rewrite (spent_same _ _ day E), Z.add_0_r; by case_decide | done]. Qed.

Lemma signup_charge now limit n id email provider subject s s1 s2 s3 u :
  reserve_signup now limit s = Ok (n, s1) -> insert_account now id email provider subject s1 = Ok (u, s2) ->
  insert_identity now (provider, subject) id email s2 = Ok (u, s3) -> charges now limit (Some n) s s3.
Proof.
  intros (-> & Hl & Hs)%reserve_signup_Ok (_ & ->)%insert_account_Ok (_ & ->)%insert_identity_Ok; split.
  - intros day Hd; unfold spent at 1; simpl; change (spent day s1 = if decide (day = current_date now) then spent day s + 1 else spent day s).
    rewrite (Hs day Hd); case_decide; by subst.
  - by intros n [= <-].
Qed.

Lemma upsert_subject_charge now subject email limit s u s' :
  upsert_subject_account sha256 now subject email limit s = Ok (u, s') -> charges now limit (signup_accounts_today u) s s'.
Proof.
  unfold upsert_subject_account; intros Hx.
  apply then_Ok in Hx as (d & ? & [-> ->]%select_Ok & Hx); apply then_Ok in Hx as (? & ? & [Hd ->]%abort_if_Ok & Hx).
  apply then_Ok in Hx as (existing & ? & [-> ->]%select_Ok & Hx); destruct (account_of (google, subject) s) as [[id row]|].
  - unfold see_identity, set_account_email in Hx; all_txn; by apply no_charge.
  - apply then_Ok in Hx as (n & s1 & H1 & Hx); apply then_Ok in Hx as ([] & s2 & H2 & Hx); apply then_Ok in Hx as ([] & s3 & H3 & [-> ->]%commits_Ok).
    by eapply signup_charge.
Qed.

Lemma upsert_apple_charge now grant limit s u s' :
  upsert_apple_account sha256 now grant limit s = Ok (u, s') -> charges now limit (signup_accounts_today u) s s'.
Proof.
  unfold upsert_apple_account; intros Hx.
  apply then_Ok in Hx as (d & ? & [-> ->]%select_Ok & Hx); apply then_Ok in Hx as (? & ? & [Hd ->]%abort_if_Ok & Hx).
  apply then_Ok in Hx as ([[id primary] today] & s1 & H1 & Hx); apply then_Ok in Hx as (? & s2 & H2 & [-> ->]%commits_Ok).
  apply upsert_credential_Ok in H2 as [_ ->]; simpl; change (charges now limit today s s1).
  unfold apple_account in H1; apply then_Ok in H1 as (existing & ? & [-> ->]%select_Ok & H1).
  destruct (account_of (apple, g_subject grant) s) as [[id' row]|].
  - unfold see_identity, set_account_email in H1; apply then_Ok in H1 as (? & ? & [_ ->]%abort_if_Ok & H1); apply then_Ok in H1 as (? & ? & ->%execute_Ok & H1).
    case_match; all_txn; match goal with E : (_, _, _) = (_, _, _) |- _ => injection E as _ _ -> end; by apply no_charge.
  - apply then_Ok in H1 as (? & ? & [-> ->]%select_Ok & H1); apply then_Ok in H1 as (? & ? & [_ ->]%abort_if_Ok & H1).
    apply then_Ok in H1 as (n & s2 & H2 & H1); apply then_Ok in H1 as ([] & s3 & H3 & H1); apply then_Ok in H1 as ([] & s4 & H4 & [E ->]%commits_Ok).
    injection E as _ _ ->; by eapply signup_charge.
Qed.

(** No other transaction touches the budget. *)
Definition signs_up (e : StoreEvent) : bool := match e with SUpsert _ _ _ _ | SApple _ _ _ => true | _ => false end.

Lemma other_events_spend_nothing now e s s' : signs_up e = false -> effect now e s s' -> signups (ids s') = signups (ids s).
Proof.
  intros Hs He; change (same (fun s => signups (ids s)) s s'); destruct e; try done; simpl in He; try (revert He; apply answers_keeps; [tc_solve |]).
  - unfold link_apple_identity; graves_kept. - unfold request_account_deletion; graves_kept.
  - unfold account_deletion_preflight_complete; graves_kept. - unfold begin_account_deletion; graves_kept.
  - unfold update_account_deletion_status; graves_kept. - unfold finalize_account_deletion; graves_kept.
  - unfold mark_apple_credential_revoked; graves_kept. - unfold ensure_client; graves_kept. - unfold register_client; graves_kept.
  - intros x a x'; intros [[_ ->]|(_ & ttl & _ & _ & ->)]%store_consent_Ok; done.
  - unfold approve_consent; graves_kept.
  - intros x a x'; intros [[_ ->]|(_ & ttl & _ & _ & _ & ->)]%store_direct_Ok; done.
  - unfold exchange_authorization_code; graves_kept. - unfold rotate_refresh_token; graves_kept. - unfold create_native_session_refresh; graves_kept.
  - destruct He as [Hi _]; unfold same; by rewrite Hi.
Qed.

(** What an event does to a day's budget. *)
Definition budgeted day limit s s' (e : event) : Prop :=
  spent day s + Z.b2z (signed_up day e) <= spent day s' /\ spent day s' <= Z.max (spent day s) limit
  /\ forall u n, (exists a b l, e.2 = SUpsert a b l (Ok u)) \/ (exists g l, e.2 = SApple g l (Ok u)) ->
       current_date e.1 = day -> signup_accounts_today u = Some n -> spent day s < n <= limit.

Lemma charges_budgeted now limit' (r : res AccountUpsert) u day limit s s' e :
  charges now limit' (signup_accounts_today u) s s' -> (current_date now = day -> limit' <= limit) -> current_date now <= day + 30 ->
  (r = Ok u \/ exists x, r = Err x) -> e.1 = now -> (exists a b l, e.2 = SUpsert a b l r) \/ (exists g l, e.2 = SApple g l r) ->
  budgeted day limit s s' e.
Proof.
  intros [H1 H2] Hl Hd Hr He Hshape; unfold budgeted; rewrite (H1 day) by lia.
  assert (Hsigned : Z.b2z (signed_up day e) <= if decide (day = current_date now) then Z.b2z (bool_decide (is_Some (signup_accounts_today u))) else 0).
  { unfold signed_up; rewrite He; case_decide as E; [subst day; rewrite Z.eqb_refl | rewrite (proj2 (Z.eqb_neq _ _)) by congruence; simpl; lia].
    destruct Hshape as [(a & b & l & ->)|(g & l & ->)], Hr as [->|[x ->]]; simpl; try lia; by destruct (bool_decide _). }
  destruct (signup_accounts_today u) as [n|] eqn:En; simpl in *.
  - destruct (H2 n eq_refl) as [-> Hle]; split_and!; [case_decide; simpl in *; subst; lia | case_decide as E; [subst; specialize (Hl eq_refl); simpl; lia | lia] |].
    intros u' n' Hu' <- Hn'; specialize (Hl (f_equal current_date (eq_sym He))); rewrite He in *.
    assert (u' = u) as -> by (destruct Hshape as [(a & b & l & E)|(g & l & E)], Hu' as [(a' & b' & l' & E')|(g' & l' & E')], Hr as [->|[x ->]]; congruence).
    rewrite En in Hn'; injection Hn' as <-; lia.
  - split_and!; [case_decide; simpl in *; lia | case_decide; simpl; lia |]; intros u' n' Hu' <- Hn'.
    assert (u' = u) as -> by (destruct Hshape as [(a & b & l & E)|(g & l & E)], Hu' as [(a' & b' & l' & E')|(g' & l' & E')], Hr as [->|[x ->]]; congruence).
    congruence.
Qed.

Lemma unspent_budgeted day limit s s' e :
  spent day s' = spent day s -> (forall u, ~ ((exists a b l, e.2 = SUpsert a b l (Ok u)) \/ (exists g l, e.2 = SApple g l (Ok u)))) ->
  budgeted day limit s s' e.
Proof.
  intros Hs Hn; unfold budgeted; rewrite Hs; split_and!; [| lia | intros u n Hu; by destruct (Hn u)].
  assert (signed_up day e = false) as ->; [| simpl; lia]; unfold signed_up; destruct (e.2) as [a b l [u|]|g l [u|]| | | | | | | | | | | | | | | |] eqn:E; rewrite ?andb_false_r; try done.
  - exfalso; apply (Hn u); left; eauto. - exfalso; apply (Hn u); right; eauto.
Qed.

Lemma moves_budgeted day limit s e s' :
  moves s e s' -> limited day limit e -> current_date e.1 <= day + 30 -> budgeted day limit s s' e.
Proof.
  destruct e as [t e]; intros He Hlim Hd; simpl in *; destruct (signs_up e) eqn:Hs.
  - destruct e; try done; simpl in He, Hlim; apply answers_cases in He as [[-> [x ->]]|(u & Hx & Hr)].
    + apply unspent_budgeted; [done |]; simpl; intros u [(a & b & l & ?)|(g & l & ?)]; done.
    + eapply charges_budgeted; [by eapply upsert_subject_charge | done | done | done | done | left; eauto].
    + apply unspent_budgeted; [done |]; simpl; intros u [(a & b & l & ?)|(g & l & ?)]; done.
    + eapply charges_budgeted; [by eapply upsert_apple_charge | done | done | done | done | right; eauto].
  - apply unspent_budgeted; [apply spent_same; by eapply other_events_spend_nothing |].
    intros u [(a & b & l & E)|(g & l & E)]; simpl in E; by subst.
Qed.

(** ** The theorems *)

(** From then on the account has no row, and its tombstone stands. *)
Lemma finalized_stays s now account op s0 :
  reachable s -> effect now (SFinalize account (Ok op)) s s0 ->
  forall h x, steps moves s0 h x -> accounts (ids x) !! account = None /\ account ∈ deleted_accounts (ids x).
Proof.
  intros Hs He h x Hx; apply reachable_accounts_ok in Hs; assert (Hfin := answers_Ok _ _ _ _ He).
  assert (Hacc := proj1 (finalize_entombs _ _ _ _ _ Hs Hfin)); assert (Hok : ok s0) by (eapply effect_ok; [exact He | done]).
  apply (steps_graves _ _ _ Hx) in Hacc; split; [| done]; by apply (tombs_stand _ _ (steps_ok _ _ _ _ Hx Hok)).
Qed.

(** An account that is gone is in no answer. *)
Lemma finalized_unanswered s now account op s0 h s' e :
  reachable s -> effect now (SFinalize account (Ok op)) s s0 -> steps moves s0 h s' -> e ∈ h -> answered_for e.2 <> Some account.
Proof.
  intros Hs He Hst Hin Ha; apply list_elem_of_split in Hin as (h1 & h2 & ->).
  apply steps_split in Hst as (s1 & s2 & A & B & _); destruct (answered_for_exists _ _ _ _ _ B Ha) as [row Hrow].
  destruct (finalized_stays _ _ _ _ _ Hs He (h1 ++ [e]) s2) as [Hn _]; [| congruence].
  eapply steps_app; [done |]; econstructor; [done | constructor].
Qed.

(** C4: once a deletion has been finalized it is final: from then on, whatever
    transactions run, the account has no row and owns no identity, credential,
    consent, code or refresh token; no answer signs it in, links it or grants
    it anything; and no sign-in or link with an identity it had succeeds. *)
Theorem finalized_deletion_is_final s now account op s0 h s' :
  reachable s -> effect now (SFinalize account (Ok op)) s s0 -> steps moves s0 h s' ->
  owns_nothing account s'
  /\ (forall e, e ∈ h -> answered_for e.2 <> Some account)
  /\ (forall k i e, identities (ids s) !! k = Some i -> i_account i = account -> e ∈ h -> signs_in_with e.2 = Some k -> succeeded e.2 = false).
Proof.
  intros Hs He Hst; assert (Hgone := finalized_stays _ _ _ _ _ Hs He).
  assert (Hok : ok s0) by (eapply effect_ok; [exact He | exact (reachable_accounts_ok _ _ Hs)]).
  assert (Hids := proj2 (finalize_entombs _ _ _ _ _ (reachable_accounts_ok _ _ Hs) (answers_Ok _ _ _ _ He))).
  split_and!.
  - apply absent_owns_nothing; [by eapply steps_ok | by eapply Hgone].
  - intros e Hin; by eapply finalized_unanswered.
  - intros k i e Hk Hown Hin Hsign; apply list_elem_of_split in Hin as (h1 & h2 & ->).
    apply steps_split in Hst as (s1 & s2 & A & B & _); destruct (succeeded e.2) eqn:E; [| done].
    destruct (sign_in_with_live_identity _ _ _ _ _ B Hsign E); apply (proj2 (steps_graves _ _ _ A)); eauto.
Qed.

(** An exchange answers [true] found its code, and a rotation its session. *)
Lemma exchange_explained s0 h1 t x h2 s :
  empty_db s0 -> steps moves s0 (h1 ++ (t, SExchange x (Ok true)) :: h2) s ->
  exists r, code_issued h1 (ex_code_hash x) r /\ co_account r = ex_account x /\ co_client r = ex_client x /\ t < co_expires r.
Proof.
  intros He Hst; apply steps_split in Hst as (s1 & s2 & H1 & Hx & _); apply (trace_explained _ _ _ He) in H1 as (_ & B & _).
  simpl in Hx; apply answers_Ok, exchange_Ok in Hx as [[? _]|(_ & r & ttl & _ & Hr & Ha & Hc & Hexp & _)]; [done |].
  exists r; split_and!; auto.
Qed.

Lemma rotation_explained s0 h1 t q account h2 s :
  empty_db s0 -> steps moves s0 (h1 ++ (t, SRotate q (Ok (Some account))) :: h2) s ->
  exists opening, in_session opening account (ro_client q) h1 (ro_old_token_hash q).
Proof.
  intros He Hst; apply steps_split in Hst as (s1 & s2 & H1 & Hx & _); apply (trace_explained _ _ _ He) in H1 as (_ & _ & C).
  simpl in Hx; apply answers_Ok, rotate_Ok in Hx as [[? _]|(r & a & ttl & [= ->] & _ & Hr & <- & <- & _)]; [done |]; by eapply C.
Qed.

(** A rotated token is not live, until it is issued again. *)
Lemma rotation_spends t q account s s' : moves s (t, SRotate q (Ok (Some account))) s' -> has_live_token (ro_old_token_hash q) s' = false.
Proof.
  simpl; intros Hx; apply answers_Ok, rotate_Ok in Hx as [[? _]|(r & a & ttl & _ & _ & Hold & _ & _ & _ & _ & _ & Hnew & ->)]; [done |].
  unfold has_live_token; simpl in *; destruct (decide (ro_new_token_hash q = ro_old_token_hash q)) as [E|E].
  - by rewrite E, lookup_alter_eq, Hold in Hnew.
  - by rewrite lookup_insert_ne, lookup_alter_eq, Hold by done.
Qed.

Lemma rotation_needs_token t q account s s' : moves s (t, SRotate q (Ok (Some account))) s' -> has_live_token (ro_old_token_hash q) s = true.
Proof.
  simpl; intros Hx; apply answers_Ok, rotate_Ok in Hx as [[? _]|(r & a & ttl & _ & _ & Hold & _ & _ & Hrev & _)]; [done |].
  unfold has_live_token; rewrite Hold; by apply bool_decide_eq_true.
Qed.

(** A token that is not live and is live later was issued in between. *)
Lemma live_again k s h s' : steps moves s h s' -> has_live_token k s = false -> has_live_token k s' = true -> (0 < tally (issues_token k) h)%nat.
Proof.
  intros Hst H0 H1; assert (Hb := tickets_balance moves (fun _ => True) (has_live_token k) (issues_token k) (rotates_token k)
    (fun _ _ _ _ _ => I) (fun x e y _ => token_paid k x e y) _ _ _ I Hst); rewrite H0, H1 in Hb; simpl in Hb; lia.
Qed.

(** C30: a code is exchanged only as it was issued: an earlier event issued it to
    the same account and client, unexpired, either directly or by approving a
    stored and unexpired consent of that account to that client and redirect.
    It is exchanged at most as often as it was issued, and a consent is
    approved at most as often as it was stored. *)
Theorem exchanges_are_authorized s0 h1 t x h2 s :
  empty_db s0 -> steps moves s0 (h1 ++ (t, SExchange x (Ok true)) :: h2) s ->
  let h := h1 ++ (t, SExchange x (Ok true)) :: h2 in
  (exists r, code_issued h1 (ex_code_hash x) r /\ co_account r = ex_account x /\ co_client r = ex_client x /\ t < co_expires r)
  /\ (forall hash, (tally (exchanges_code hash) h <= tally (issues_code hash) h)%nat)
  /\ (forall hash, (tally (approves_consent hash) h <= tally (stores_consent hash) h)%nat).
Proof.
  intros He Hst h; split_and!.
  - by eapply exchange_explained.
  - intros hash; apply (tickets_of _ _ (has_code hash) s0 h s); [intros y e z; apply code_paid | | done].
    unfold has_code; destruct He as [_ ->]; simpl; rewrite lookup_empty; by apply bool_decide_eq_false; intros [].
  - intros hash; apply (tickets_of _ _ (has_consent hash) s0 h s); [intros y e z; apply consent_paid | | done].
    unfold has_consent; destruct He as [_ ->]; simpl; rewrite lookup_empty; by apply bool_decide_eq_false; intros [].
Qed.

(** C31: a refresh token is rotated only within its session: the token that is
    rotated goes back, from one rotation to the one before it, to the first
    token of a session that an exchange of an issued code or a native sign-in
    opened for the account that is answered and the client it is rotated for.
    A token is rotated at most as often as it was issued, and once rotated not
    again before it is issued again. *)
Theorem rotations_stay_in_their_session s0 h1 t q account h2 s :
  empty_db s0 -> steps moves s0 (h1 ++ (t, SRotate q (Ok (Some account))) :: h2) s ->
  let h := h1 ++ (t, SRotate q (Ok (Some account))) :: h2 in
  (exists opening, in_session opening account (ro_client q) h1 (ro_old_token_hash q))
  /\ (forall hash, (tally (rotates_token hash) h <= tally (issues_token hash) h)%nat)
  /\ (forall h3 t' q' b h4, h2 = h3 ++ (t', SRotate q' (Ok (Some b))) :: h4 -> ro_old_token_hash q' = ro_old_token_hash q ->
       (0 < tally (issues_token (ro_old_token_hash q)) h3)%nat).
Proof.
  intros He Hst h; split_and!.
  - by eapply rotation_explained.
  - intros hash; apply (tickets_of _ _ (has_live_token hash) s0 h s); [intros y e z; apply token_paid | | done].
    unfold has_live_token; destruct He as [_ ->]; simpl; by rewrite lookup_empty.
  - intros h3 t' q' b h4 -> Hq; apply steps_split in Hst as (s1 & s2 & _ & Hx & Hst); apply steps_split in Hst as (s3 & s4 & H3 & Hx' & _).
    apply rotation_spends in Hx; apply rotation_needs_token in Hx'; rewrite Hq in Hx'; by eapply live_again.
Qed.

(** On any day at most as many accounts are made as the limit its sign-ins
    are made under allows beyond those already made, and each receipt's count
    is the day's number of accounts so far; as long as no clock runs more
    than 30 days ahead of that day. *)
Theorem signups_within_budget s0 h s day limit :
  steps moves s0 h s -> (forall e, e ∈ h -> limited day limit e /\ current_date e.1 <= day + 30) ->
  Z.of_nat (tally (signed_up day) h) <= Z.max 0 (limit - spent day s0)
  /\ forall t e n u, (t, e) ∈ h -> current_date t = day ->
       (exists a b l, e = SUpsert a b l (Ok u)) \/ (exists g l, e = SApple g l (Ok u)) ->
       signup_accounts_today u = Some n -> spent day s0 < n <= limit.
Proof.
  intros Hst Hall.
  assert (Hinv : Z.of_nat (tally (signed_up day) h) + spent day s0 <= spent day s /\ spent day s <= Z.max (spent day s0) limit
    /\ (forall t e n u, (t, e) ∈ h -> current_date t = day ->
         (exists a b l, e = SUpsert a b l (Ok u)) \/ (exists g l, e = SApple g l (Ok u)) ->
         signup_accounts_today u = Some n -> spent day s0 < n <= limit)).
  { revert Hall; apply (steps_invariant moves (fun h s => (forall e, e ∈ h -> limited day limit e /\ current_date e.1 <= day + 30) ->
      Z.of_nat (tally (signed_up day) h) + spent day s0 <= spent day s /\ spent day s <= Z.max (spent day s0) limit
      /\ (forall t e n u, (t, e) ∈ h -> current_date t = day ->
           (exists a b l, e = SUpsert a b l (Ok u)) \/ (exists g l, e = SApple g l (Ok u)) ->
           signup_accounts_today u = Some n -> spent day s0 < n <= limit)) s0); [| | done].
    - intros _; unfold tally; simpl; split_and!; [lia | lia |]; intros t e n u Hin; by apply not_elem_of_nil in Hin.
    - intros h1 s1 e s2 IH Hm Hall; destruct IH as (A & B & C); [intros x Hx; apply Hall; set_solver |].
      destruct (Hall e) as [Hlim Hday]; [set_solver |]; destruct (moves_budgeted day limit _ _ _ Hm Hlim Hday) as (X & Y & Z0).
      rewrite tally_app, tally_cons; unfold tally at 2; simpl; split_and!; [| lia |].
      + destruct (signed_up day e); simpl in *; lia.
      + intros t e' n u [Hin|Hin]%elem_of_app Hd Hu Hn; [by eapply C |]; apply list_elem_of_singleton in Hin as <-.
        destruct (Z0 u n Hu Hd Hn); lia. }
  destruct Hinv as (A & B & C); split; [lia | done].
Qed.
End Theorems.

(** ** A database that runs *)

(** Nothing is being delivered. *)
Definition no_delivery : Delivery unit := {|
  recover_expired_claims := fun _ _ o => Ok o; has_email_fence := fun _ _ => false; has_webhook_fence := fun _ _ => false;
  has_push_fence := fun _ _ => false; disable_delivery := fun _ _ o => o; erase_delivery := fun _ o => o |}.
#[local] Existing Instance no_delivery.
#[local] Existing Instance ascii_unicode.

Definition sample_digest (b : bytes) : bytes := take 32 (reverse b ++ replicate 32 0%N).

Definition blank_db : Db unit := {|
  ids := {| accounts := ∅; identities := ∅; credentials := ∅; deleted_accounts := ∅; deleted_identities := ∅; signups := ∅; operations := ∅ |};
  grants := {| clients := ∅; consents := ∅; codes := ∅; refresh_tokens := ∅ |};
  upload_intents := ∅; reviewer_fixtures := ∅; started_invocations := ∅; billing_accounts := ∅; billing_detach_outbox := ∅; outbox := tt |}.

Lemma blank_is_empty : empty_db blank_db.
Proof. by split. Qed.

Lemma runs {A} (m : txn (Db unit) A) s : answers m (transact m s).1 s (after m s).
Proof. left; apply transact_after. Qed.


Definition the_user : str := derive_stable_uuid sample_digest (lit "subject-1").
Definition the_client : OAuthClientDefinition :=
  {| cd_id := lit "client-1"; cd_name := lit "Client"; cd_redirect_uris := [lit "https://client/cb"]; cd_allow_empty_redirect_upgrade := false |}.
Definition the_consent : PendingConsent :=
  {| pc_consent_hash := lit "consent"; pc_account := the_user; pc_client := lit "client-1"; pc_redirect_uri := lit "https://client/cb"; pc_ttl := 300 |}.
Definition the_approval : ConsentApproval :=
  {| ap_consent_hash := lit "consent"; ap_code_hash := lit "code"; ap_account := the_user; ap_client := lit "client-1";
     ap_redirect_uri := lit "https://client/cb"; ap_code_ttl := 300 |}.
Definition the_exchange : AuthorizationCodeExchange :=
  {| ex_code_hash := lit "code"; ex_account := the_user; ex_client := lit "client-1"; ex_refresh_token_hash := lit "refresh-1"; ex_refresh_ttl := 900 |}.
Definition the_rotation : RefreshTokenRotation :=
  {| ro_old_token_hash := lit "refresh-1"; ro_client := lit "client-1"; ro_new_token_hash := lit "refresh-2"; ro_refresh_ttl := 900 |}.

#[local] Abbreviation upsert now := (upsert_subject_account (Outbox := unit) sample_digest now (lit "subject-1") (lit "a@b") 1).

Definition signed_in_db : Db unit := after (upsert 0) (after (ensure_client 0 the_client) blank_db).
Definition consenting_db : Db unit := after (store_pending_consent 2 the_consent) signed_in_db.
Definition coded_db : Db unit := after (approve_consent 3 the_approval) consenting_db.
Definition exchanged_db : Db unit := after (exchange_authorization_code 4 the_exchange) coded_db.
Definition rotated_db : Db unit := after (rotate_refresh_token 5 the_rotation) exchanged_db.

Definition sign_in_answer : AccountUpsert := {| account := {| account_id := the_user; email := lit "a@b" |}; signup_accounts_today := Some 1 |}.

(** Sign-in, consent, code and session. *)
Definition opening : list (Z * StoreEvent) :=
  [(0, SEnsure the_client (Ok tt)); (0, SUpsert (lit "subject-1") (lit "a@b") 1 (Ok sign_in_answer));
   (2, SConsent the_consent (Ok true)); (3, SApprove the_approval (Ok true))].

#[local] Abbreviation sample_moves := (moves (Outbox := unit) sample_digest).

Lemma opening_runs : steps sample_moves blank_db opening coded_db.
Proof. repeat (eapply steps_cons; [apply fires; vm_compute; reflexivity |]); apply steps_nil. Qed.

Lemma exchange_runs : steps sample_moves blank_db (opening ++ [(4, SExchange the_exchange (Ok true))]) exchanged_db.
Proof. eapply steps_app; [apply opening_runs |]; eapply steps_cons; [apply fires; vm_compute; reflexivity | apply steps_nil]. Qed.

Lemma exchanges_are_authorized_witness :
  exists r, code_issued opening (lit "code") r /\ co_account r = the_user /\ co_client r = lit "client-1".
Proof.
  destruct (proj1 (exchanges_are_authorized sample_digest blank_db opening 4 the_exchange [] exchanged_db blank_is_empty exchange_runs))
    as (r & Hr & Ha & Hc & _).
  exact (ex_intro _ r (conj Hr (conj Ha Hc))).
Defined.

Definition session : list (Z * StoreEvent) := opening ++ [(4, SExchange the_exchange (Ok true))].

Lemma rotation_runs : steps sample_moves blank_db (session ++ [(5, SRotate the_rotation (Ok (Some the_user)))]) rotated_db.
Proof. eapply steps_app; [apply exchange_runs |]; eapply steps_cons; [apply fires; vm_compute; reflexivity | apply steps_nil]. Qed.

Lemma rotations_stay_in_their_session_witness :
  exists opening, in_session opening the_user (lit "client-1") session (lit "refresh-1").
Proof.
  exact (proj1 (rotations_stay_in_their_session sample_digest blank_db session 5 the_rotation the_user [] rotated_db blank_is_empty rotation_runs)).
Defined.

Definition requested_db : Db unit := after (request_account_deletion 6 (lit "r") the_user) rotated_db.
Definition deleting_db : Db unit := after (begin_account_deletion 7 (lit "r") the_user) requested_db.
Definition erased_db : Db unit := after (finalize_account_deletion 8 the_user) deleting_db.

Definition erased_operation : AccountDeletionOperation := {|
  operation_id := lit "del_r"; status := lit "physical_complete"; reason := lit "content_deleted"; retry_after_seconds := None;
  hard_delete_time := None |}.

#[local] Abbreviation request := (request_account_deletion (Outbox := unit) 6 (lit "r") the_user).
#[local] Abbreviation begin := (begin_account_deletion (Outbox := unit) 7 (lit "r") the_user).

Definition request_event : Z * StoreEvent := (6, SRequest (lit "r") the_user (transact request rotated_db).1).
Definition begin_event : Z * StoreEvent := (7, SBegin (lit "r") the_user (transact begin requested_db).1).

Lemma request_moves : sample_moves rotated_db request_event requested_db.
Proof. assert (X : answers request (transact request rotated_db).1 rotated_db requested_db) by exact (runs _ _); exact X. Qed.

Lemma begin_moves : sample_moves requested_db begin_event deleting_db.
Proof. assert (X : answers begin (transact begin requested_db).1 requested_db deleting_db) by exact (runs _ _); exact X. Qed.

Lemma deleting_reachable : reachable sample_digest deleting_db.
Proof.
  exists blank_db, ((session ++ [(5, SRotate the_rotation (Ok (Some the_user)))]) ++ [request_event; begin_event]).
  split; [apply blank_is_empty |]; apply (steps_app _ _ _ rotated_db); [exact rotation_runs |].
  exact (steps_cons _ _ _ _ _ _ request_moves (steps_cons _ _ _ _ _ _ begin_moves (steps_nil _ _))).
Qed.

Lemma finalize_moves : sample_moves deleting_db (8, SFinalize the_user (Ok erased_operation)) erased_db.
Proof.
  assert (X : answers (finalize_account_deletion (Outbox := unit) 8 the_user) (Ok erased_operation) deleting_db erased_db)
    by (refine (fires _ _ _ _); vm_compute; reflexivity).
  exact X.
Qed.

(** The erased user tries to sign in again. *)
Definition returning_db : Db unit := after (upsert 9) erased_db.
Definition return_event : Z * StoreEvent := (9, SUpsert (lit "subject-1") (lit "a@b") 1 (Err (Auth (lit "account deleted")))).

Lemma return_moves : sample_moves erased_db return_event returning_db.
Proof.
  assert (X : answers (upsert 9) (Err (Auth (lit "account deleted"))) erased_db returning_db) by (refine (fires _ _ _ _); vm_compute; reflexivity).
  exact X.
Qed.

Lemma finalized_deletion_is_final_witness :
  owns_nothing the_user returning_db /\ is_Some (identities (ids deleting_db) !! (google, lit "subject-1")).
Proof.
  split; [| eexists; vm_compute; reflexivity].
  exact (proj1 (finalized_deletion_is_final sample_digest deleting_db 8 the_user erased_operation erased_db [return_event] returning_db
    deleting_reachable finalize_moves (steps_cons _ _ _ _ _ _ return_moves (steps_nil _ _)))).
Defined.

(** The day's budget of one account is spent on the first sign-in. *)
Lemma opening_limited : forall e, e ∈ opening -> limited 0 1 e /\ current_date e.1 <= 0 + 30.
Proof.
  intros e He; apply list_elem_of_In in He; revert e He; apply List.Forall_forall.
  repeat constructor; vm_compute; try discriminate; intros _; discriminate.
Qed.

Lemma signups_within_budget_witness : tally (signed_up 0) opening = 1%nat /\ Z.of_nat (tally (signed_up 0) opening) <= 1.
Proof.
  split; [vm_compute; reflexivity |].
  exact (proj1 (signups_within_budget sample_digest blank_db opening coded_db 0 1 opening_runs opening_limited)).
Defined.
