(* ===== verification/Net.v ===== *)
(** * Internet addresses

    [std::net]: the parser of [IpAddr] and the tests of addresses the program
    makes.  An IPv4 address is its four octets, an IPv6 address its eight
    segments. *)
From Stdlib Require Import ZArith Lia ZifyN.
From S2P Require Import Prelude Text.
Local Open Scope Z_scope.
Local Open Scope kioku_scope.

Inductive IpAddr := V4 (octets : list Z) | V6 (segments : list Z).

(** ** The parser

    Each reader consumes a prefix of the input or fails. *)

Definition reader (A : Type) : Type := str -> option (A * str).

Definition hex_value (c : char) : option Z :=
  if is_ascii_digit c then Some (Z.of_N c - 48)
  else if ((97 <=? c) && (c <=? 102))%N then Some (Z.of_N c - 87)
  else if ((65 <=? c) && (c <=? 70))%N then Some (Z.of_N c - 55) else None.

(** [char::to_digit(radix)] *)
Definition to_digit (radix : Z) (c : char) : option Z :=
  match hex_value c with Some d => if d <? radix then Some d else None | None => None end.

Definition read_given_char (c : char) : reader unit :=
  fun s => match s with x :: s' => if N.eqb x c then Some (tt, s') else None | [] => None end.

(** The digits of a number of at most [max_digits] digits below [bound]. *)
Fixpoint read_digits (radix bound : Z) (max_digits : nat) (count : nat) (value : Z) (s : str) : option (nat * Z * str) :=
  match s with
  | [] => Some (count, value, [])
  | c :: s' =>
    match to_digit radix c with
    | None => Some (count, value, s)
    | Some d =>
      let value' := value * radix + d in
      if (bound <=? value') then None
      else if (max_digits <? S count)%nat then None
      else read_digits radix bound max_digits (S count) value' s'
    end
  end.

Definition read_number (radix bound : Z) (max_digits : nat) (allow_zero_prefix : bool) : reader Z :=
  fun s =>
    let has_leading_zero := match s with c :: _ => N.eqb c (ch "0") | [] => false end in
    match read_digits radix bound max_digits 0 0 s with
    | Some (count, value, rest) =>
      if (count =? 0)%nat then None
      else if negb allow_zero_prefix && has_leading_zero && (1 <? count)%nat then None
      else Some (value, rest)
    | None => None
    end.

(** [read_separator]: the separator comes before all but the first. *)
Definition read_separator {A} (sep : char) (index : nat) (inner : reader A) : reader A :=
  fun s =>
    if (0 <? index)%nat then match read_given_char sep s with Some (_, s') => inner s' | None => None end
    else inner s.

Fixpoint read_octets (index todo : nat) : reader (list Z) :=
  match todo with
  | O => fun s => Some ([], s)
  | S todo' => fun s =>
    match read_separator (ch ".") index (read_number 10 256 3 false) s with
    | Some (o, s') => match read_octets (S index) todo' s' with Some (l, rest) => Some (o :: l, rest) | None => None end
    | None => None
    end
  end.

Definition read_ipv4_addr : reader (list Z) := read_octets 0 4.

(** Up to [todo] groups; whether the last two came from an IPv4 address. *)
Fixpoint read_groups (index todo : nat) (s : str) : list Z * bool * str :=
  match todo with
  | O => ([], false, s)
  | S todo' =>
    match (if (1 <? todo)%nat then read_separator (ch ":") index read_ipv4_addr s else None) with
    | Some (l, rest) =>
      ([256 * default 0 (l !! 0%nat) + default 0 (l !! 1%nat); 256 * default 0 (l !! 2%nat) + default 0 (l !! 3%nat)], true, rest)
    | None =>
      match read_separator (ch ":") index (read_number 16 65536 4 true) s with
      | Some (g, rest) => let '(l, v4, rest') := read_groups (S index) todo' rest in (g :: l, v4, rest')
      | None => ([], false, s)
      end
    end
  end.

Definition read_ipv6_addr : reader (list Z) :=
  fun s =>
    let '(head, head_ipv4, rest) := read_groups 0 8 s in
    if (length head =? 8)%nat then Some (head, rest)
    else if head_ipv4 then None
    else
      match read_given_char (ch ":") rest with
      | Some (_, rest) =>
        match read_given_char (ch ":") rest with
        | Some (_, rest) =>
          let '(tail, _, rest) := read_groups 0 (8 - (length head + 1)) rest in
          Some (head ++ replicate (8 - length head - length tail) 0 ++ tail, rest)
        | None => None
        end
      | None => None
      end.

(** [value.parse::<IpAddr>()]: the whole input is one address. *)
Definition parse_ip (s : str) : option IpAddr :=
  match read_ipv4_addr s with
  | Some (l, []) => Some (V4 l)
  | Some (_, _ :: _) => None
  | None => match read_ipv6_addr s with Some (l, []) => Some (V6 l) | _ => None end
  end.

(** ** Classes of addresses *)

Definition segment (l : list Z) (i : nat) : Z := default 0 (l !! i).

Definition is_loopback (ip : IpAddr) : bool :=
  match ip with
  | V4 l => segment l 0 =? 127
  | V6 l => bool_decide (l = [0; 0; 0; 0; 0; 0; 0; 1])
  end.

Definition is_unspecified_v6 (l : list Z) : bool := bool_decide (l = [0; 0; 0; 0; 0; 0; 0; 0]).
Definition is_multicast_v6 (l : list Z) : bool := Z.land (segment l 0) 0xff00 =? 0xff00.

(** [to_ipv4_mapped]: the octets of [::ffff:a.b.c.d]. *)
Definition to_ipv4_mapped (l : list Z) : option (list Z) :=
  if bool_decide (take 5 l = [0; 0; 0; 0; 0]) && (segment l 5 =? 0xffff)
  then Some [segment l 6 / 256; segment l 6 mod 256; segment l 7 / 256; segment l 7 mod 256]
  else None.

Example parse_mapped : parse_ip (lit "::ffff:127.0.0.1") = Some (V6 [0; 0; 0; 0; 0; 65535; 32512; 1]).
Proof. reflexivity. Qed.
Example parse_loopback : parse_ip (lit "::1") = Some (V6 [0; 0; 0; 0; 0; 0; 0; 1]).
Proof. reflexivity. Qed.
Example parse_leading_zero : parse_ip (lit "127.0.0.01") = None.
Proof. reflexivity. Qed.

(** ** What is parsed is an address *)

Definition valid_ip (ip : IpAddr) : Prop :=
  match ip with
  | V4 l => length l = 4%nat /\ Forall (fun o => 0 <= o < 256) l
  | V6 l => length l = 8%nat /\ Forall (fun o => 0 <= o < 65536) l
  end.

Lemma hex_value_range c d : hex_value c = Some d -> 0 <= d < 16.
Proof. unfold hex_value, is_ascii_digit; intros E; repeat case_match; simplify_eq; bool_prop; lia. Qed.

Lemma to_digit_range radix c d : to_digit radix c = Some d -> 0 <= d < 16.
Proof. unfold to_digit; destruct (hex_value c) eqn:E; [| done]; case_match; [intros [= <-]; by apply hex_value_range in E | done]. Qed.

Lemma read_digits_range radix bound max_digits : 0 <= radix -> forall s count value c v rest,
  0 <= value < bound -> read_digits radix bound max_digits count value s = Some (c, v, rest) -> 0 <= v < bound.
Proof.
  intros Hr; induction s as [|x s IH]; intros count value c v rest Hv; simpl; [by intros [= _ <- _] |].
  destruct (to_digit radix x) as [d|] eqn:Ed; [| by intros [= _ <- _]].
  apply to_digit_range in Ed; destruct (bound <=? value * radix + d) eqn:Eb; [done |]; destruct (max_digits <? S count)%nat; [done |].
  apply IH; assert (0 <= value * radix) by (apply Z.mul_nonneg_nonneg; lia); lia.
Qed.

Lemma read_number_range radix bound max_digits zero s v rest :
  0 <= radix -> 0 < bound -> read_number radix bound max_digits zero s = Some (v, rest) -> 0 <= v < bound.
Proof.
  unfold read_number; intros Hr Hb; destruct (read_digits _ _ _ _ _ s) as [[[c v'] r]|] eqn:E; [| done].
  apply (read_digits_range radix bound max_digits Hr s 0 0) in E; [| lia]; repeat case_match; try done; by intros [= <- _].
Qed.

Lemma read_separator_Some {A} sep i (inner : reader A) s a rest :
  read_separator sep i inner s = Some (a, rest) -> exists s', inner s' = Some (a, rest).
Proof. unfold read_separator; case_match; [| eauto]; destruct (read_given_char sep s) as [[[] s']|]; [eauto | done]. Qed.

Lemma read_octets_valid todo : forall i s l rest, read_octets i todo s = Some (l, rest) ->
  length l = todo /\ Forall (fun o => 0 <= o < 256) l.
Proof.
  induction todo as [|todo IH]; intros i s l rest; simpl; [intros [= <- _]; by split |].
  destruct (read_separator _ _ _ s) as [[o s']|] eqn:E; [| done]; destruct (read_octets (S i) todo s') as [[l' r]|] eqn:E2; [| done].
  intros [= <- _]; apply IH in E2 as [<- Hl]; apply read_separator_Some in E as [s0 E]; apply read_number_range in E; [| lia..].
  split; [done | by constructor].
Qed.

Lemma read_groups_valid todo : forall i s, let '(l, _, _) := read_groups i todo s in
  (length l <= todo)%nat /\ Forall (fun o => 0 <= o < 65536) l.
Proof.
  induction todo as [|todo IH]; intros i s; [by split; [simpl; lia | constructor] |]; cbn [read_groups].
  destruct (if (1 <? S todo)%nat then _ else None) as [[l r]|] eqn:E4.
  - destruct (1 <? S todo)%nat eqn:Et; [| done]; apply Nat.ltb_lt in Et.
    apply read_separator_Some in E4 as [s' E4]; apply read_octets_valid in E4 as [Hlen Hf].
    destruct l as [|a [|b [|c [|d [|]]]]]; try done; simpl; inversion_clear Hf as [|? ? Ha Hf1]; inversion_clear Hf1 as [|? ? Hb Hf2];
      inversion_clear Hf2 as [|? ? Hc Hf3]; inversion_clear Hf3 as [|? ? Hd _].
    split; [lia |]; repeat constructor; lia.
  - destruct (read_separator (ch ":") i (read_number 16 65536 4 true) s) as [[g r]|] eqn:E; [| simpl; split; [lia | constructor]].
    specialize (IH (S i) r); destruct (read_groups (S i) todo r) as [[l v4] r']; destruct IH as [Hlen Hf].
    apply read_separator_Some in E as [s' E]; apply read_number_range in E; [| lia..]; simpl; split; [lia | by constructor].
Qed.

Lemma parse_ip_valid s ip : parse_ip s = Some ip -> valid_ip ip.
Proof.
  unfold parse_ip; destruct (read_ipv4_addr s) as [[l [|]]|] eqn:E4; [| done |].
  { intros [= <-]; by apply read_octets_valid in E4. }
  destruct (read_ipv6_addr s) as [[l [|]]|] eqn:E6; [| done | done]; intros [= <-]; unfold read_ipv6_addr in E6.
  assert (Hh := read_groups_valid 8 0 s); destruct (read_groups 0 8 s) as [[head v4] r]; destruct Hh as [Hlen Hf].
  destruct (length head =? 8)%nat eqn:E8; [injection E6 as <- _; by apply Nat.eqb_eq in E8 |]; apply Nat.eqb_neq in E8.
  destruct v4; [done |]; destruct (read_given_char _ r) as [[? r1]|]; [| done]; destruct (read_given_char _ r1) as [[? r2]|]; [| done].
  assert (Ht := read_groups_valid (8 - (length head + 1)) 0 r2); destruct (read_groups 0 _ r2) as [[tail w4] r3]; destruct Ht as [Hlen2 Hf2].
  injection E6 as <- _; split; [rewrite !length_app, length_replicate; lia |].
  apply Forall_app; split; [done |]; apply Forall_app; split; [apply Forall_replicate; lia | done].
Qed.
