(* ===== verification/Tokens.v ===== *)
(** * Tokens

    [cp/tokens.rs]: the HS256 tokens of the control plane, PKCE, and the
    digests under which tokens are stored.  Signing and checking a token is
    the work of [jsonwebtoken]: [jwt_encode] signs claims with a secret, and
    [jwt_decode] answers the claims of a token that passes a validation at a
    time.  SHA-256 and base64 are parameters too.  Claims are the JSON object
    serde makes of a struct; a struct is read back ignoring other fields. *)
From Stdlib Require Import ZArith Lia.
From S2P Require Import Prelude OrdMap Text Errors Bytes Json.
Local Open Scope Z_scope.
Local Open Scope kioku_scope.

Definition LEGACY_ACCESS_TOKEN_AUD : str := lit "kioku-mcp".
Definition ACCESS_TOKEN_TTL_SECS : Z := 15 * 60.
Definition STATE_TTL_SECS : Z := 600.
Definition AUTH_CODE_TTL_SECS : Z := 300.
Definition CONSENT_TTL_SECS : Z := 300.

(** [Validation], the fields the program sets over [Validation::new]. *)
Record Validation := {
  v_issuer : option (list str); v_audience : option (list str); v_validate_aud : bool; v_required_spec_claims : bool; v_validate_exp : bool
}.

Class Jwt := {
  jwt_encode : str -> Value -> option str;
  jwt_decode : Validation -> Z -> str -> str -> option Value
}.

(** What the program relies on: a token carries its claims, and decoding
    answers the claims it carries. *)
Class JwtLaws `{Jwt} := {
  jwt_payload : str -> option Value;
  encode_payload secret claims token : jwt_encode secret claims = Some token -> jwt_payload token = Some claims;
  decode_payload v now secret token claims : jwt_decode v now secret token = Some claims -> jwt_payload token = Some claims
}.

(** ** Claims *)

Record AccessClaims := { sub : str; iss : str; aud : str; iat : option Z; access_exp : Z }.

Record StateClaims := {
  s_client_id : str; s_redirect_uri : str; s_client_state : str; s_code_challenge : str; s_resource : str;
  apple_nonce : str; apple_link_user_id : str; s_exp : Z
}.

Record AuthCodeClaims := { ac_user_id : str; ac_client_id : str; ac_code_challenge : str; ac_resource : str; ac_exp : Z }.

Record ConsentClaims := {
  cc_user_id : str; cc_client_id : str; cc_redirect_uri : str; cc_client_state : str; cc_code_challenge : str; cc_resource : str; cc_exp : Z
}.

Definition access_value (c : AccessClaims) : Value :=
  object [("sub", VString (sub c)); ("iss", VString (iss c)); ("aud", VString (aud c)); ("iat", of_option of_Z (iat c));
          ("exp", of_Z (access_exp c))]%string.

Definition state_value (c : StateClaims) : Value :=
  object [("client_id", VString (s_client_id c)); ("redirect_uri", VString (s_redirect_uri c)); ("client_state", VString (s_client_state c));
          ("code_challenge", VString (s_code_challenge c)); ("resource", VString (s_resource c)); ("apple_nonce", VString (apple_nonce c));
          ("apple_link_user_id", VString (apple_link_user_id c)); ("exp", of_Z (s_exp c))]%string.

Definition auth_code_value (c : AuthCodeClaims) : Value :=
  object [("user_id", VString (ac_user_id c)); ("client_id", VString (ac_client_id c)); ("code_challenge", VString (ac_code_challenge c));
          ("resource", VString (ac_resource c)); ("exp", of_Z (ac_exp c))]%string.

Definition consent_value (c : ConsentClaims) : Value :=
  object [("user_id", VString (cc_user_id c)); ("client_id", VString (cc_client_id c)); ("redirect_uri", VString (cc_redirect_uri c));
          ("client_state", VString (cc_client_state c)); ("code_challenge", VString (cc_code_challenge c)); ("resource", VString (cc_resource c));
          ("exp", of_Z (cc_exp c))]%string.

(** A field of the claims object, as text; a [#[serde(default)]] one may be
    missing. *)
Definition text_field (name : string) (v : Value) : option str :=
  match get (lit name) v with Some (VString s) => Some s | _ => None end.
Definition text_field_or_default (name : string) (v : Value) : option str :=
  match get (lit name) v with Some (VString s) => Some s | Some _ => None | None => Some [] end.
Definition u64_field (name : string) (v : Value) : option Z :=
  match get (lit name) v with Some x => as_u64 x | None => None end.

Definition decode_access (v : Value) : option (str * option Z) :=
  sub ← text_field "sub" v; _ ← text_field "iss" v; _ ← text_field "aud" v; _ ← u64_field "exp" v;
  match get (lit "iat") v with
  | Some Null | None => Some (sub, None)
  | Some x => n ← as_u64 x; Some (sub, Some n)
  end.

Definition decode_state (v : Value) : option StateClaims :=
  client_id ← text_field "client_id" v; redirect_uri ← text_field "redirect_uri" v; client_state ← text_field "client_state" v;
  code_challenge ← text_field "code_challenge" v; resource ← text_field_or_default "resource" v;
  nonce ← text_field_or_default "apple_nonce" v; link ← text_field_or_default "apple_link_user_id" v; exp ← u64_field "exp" v;
  Some {| s_client_id := client_id; s_redirect_uri := redirect_uri; s_client_state := client_state; s_code_challenge := code_challenge;
          s_resource := resource; apple_nonce := nonce; apple_link_user_id := link; s_exp := exp |}.

Definition decode_auth_code (v : Value) : option AuthCodeClaims :=
  user_id ← text_field "user_id" v; client_id ← text_field "client_id" v; code_challenge ← text_field "code_challenge" v;
  resource ← text_field_or_default "resource" v; exp ← u64_field "exp" v;
  Some {| ac_user_id := user_id; ac_client_id := client_id; ac_code_challenge := code_challenge; ac_resource := resource; ac_exp := exp |}.

Definition decode_consent (v : Value) : option ConsentClaims :=
  user_id ← text_field "user_id" v; client_id ← text_field "client_id" v; redirect_uri ← text_field "redirect_uri" v;
  client_state ← text_field "client_state" v; code_challenge ← text_field "code_challenge" v;
  resource ← text_field_or_default "resource" v; exp ← u64_field "exp" v;
  Some {| cc_user_id := user_id; cc_client_id := client_id; cc_redirect_uri := redirect_uri; cc_client_state := client_state;
          cc_code_challenge := code_challenge; cc_resource := resource; cc_exp := exp |}.

(** ** Digests *)

Section Digests.
Context (sha256 : bytes -> bytes) (base64url : bytes -> str).

Definition sha256_hex (s : str) : str := hex_of_bytes (sha256 (as_bytes s)).

(** PKCE S256: base64url without padding of the verifier's digest. *)
Definition pkce_s256 (verifier : str) : str := base64url (sha256 (as_bytes verifier)).
End Digests.

(** ** Issuing and verifying *)

Section Issue.
Context `{Jwt}.

Definition rejected (what : string) : EnclaveError := Auth (lit what).
Arguments rejected what%_string.

Definition issue (what : string) (secret : str) (claims : Value) : res str := ok_or (jwt_encode secret claims) (rejected what).
Arguments issue what%_string.

(** Only HS256 and the expiry are checked. *)
Definition exp_only_validation : Validation :=
  {| v_issuer := None; v_audience := None; v_validate_aud := false; v_required_spec_claims := false; v_validate_exp := true |}.

Definition access_validation (base_url : str) : Validation :=
  {| v_issuer := Some [base_url]; v_audience := Some [base_url; LEGACY_ACCESS_TOKEN_AUD]; v_validate_aud := true;
     v_required_spec_claims := true; v_validate_exp := true |}.

(** The clock is read for [iat] and [exp] apart. *)
Definition issue_access_token (secret base_url user_id : str) (now_iat now_exp : Z) : res str :=
  issue "issue access token" secret (access_value
    {| sub := user_id; iss := base_url; aud := base_url; iat := Some now_iat; access_exp := now_exp + ACCESS_TOKEN_TTL_SECS |}).

(** The first secret that accepts a token. *)
Fixpoint first_accepting {A} (verify : str -> option A) (secrets : list str) : option A :=
  match secrets with
  | [] => None
  | secret :: rest => match verify secret with Some a => Some a | None => first_accepting verify rest end
  end.

Definition verify_access_token_with_issued_at (secrets : list str) (base_url token : str) (now : Z) : res (str * option Z) :=
  ok_or (first_accepting (fun secret => claims ← jwt_decode (access_validation base_url) now secret token; decode_access claims) secrets)
        (rejected "access token rejected").

Definition issue_state (secret : str) (c : StateClaims) (now : Z) : res str :=
  issue "issue state" secret (state_value
    {| s_client_id := s_client_id c; s_redirect_uri := s_redirect_uri c; s_client_state := s_client_state c; s_code_challenge := s_code_challenge c;
       s_resource := s_resource c; apple_nonce := apple_nonce c; apple_link_user_id := apple_link_user_id c;
       s_exp := if s_exp c =? 0 then now + STATE_TTL_SECS else s_exp c |}).

Definition verify_state (token : str) (now : Z) (secret : str) : option StateClaims :=
  claims ← jwt_decode exp_only_validation now secret token; decode_state claims.

Definition issue_auth_code (secret user_id client_id code_challenge resource : str) (now : Z) : res str :=
  issue "issue auth code" secret (auth_code_value
    {| ac_user_id := user_id; ac_client_id := client_id; ac_code_challenge := code_challenge; ac_resource := resource;
       ac_exp := now + AUTH_CODE_TTL_SECS |}).

Definition verify_auth_code (token : str) (now : Z) (secret : str) : option AuthCodeClaims :=
  claims ← jwt_decode exp_only_validation now secret token; decode_auth_code claims.

Definition issue_consent (secret : str) (c : ConsentClaims) (now : Z) : res str :=
  issue "issue consent" secret (consent_value
    {| cc_user_id := cc_user_id c; cc_client_id := cc_client_id c; cc_redirect_uri := cc_redirect_uri c; cc_client_state := cc_client_state c;
       cc_code_challenge := cc_code_challenge c; cc_resource := cc_resource c; cc_exp := now + CONSENT_TTL_SECS |}).

Definition verify_consent (token : str) (now : Z) (secret : str) : option ConsentClaims :=
  claims ← jwt_decode exp_only_validation now secret token; decode_consent claims.
End Issue.

(** ** What a token says *)

Lemma first_accepting_Some {A} (verify : str -> option A) secrets a :
  first_accepting verify secrets = Some a -> exists secret, secret ∈ secrets /\ verify secret = Some a.
Proof.
  induction secrets as [|x l IH]; simpl; [done |]; destruct (verify x) as [b|] eqn:E.
  - intros [= <-]; exists x; split; [by left | done].
  - intros (y & Hy & Hv)%IH; exists y; split; [by right | done].
Qed.

Section Meaning.
Context `{JwtLaws}.

(** An authorization code, decoded, is the code that was issued. *)
Lemma auth_code_says secret user client challenge resource now code now' secret' c :
  0 <= now -> issue_auth_code secret user client challenge resource now = Ok code -> verify_auth_code code now' secret' = Some c ->
  ac_user_id c = user /\ ac_client_id c = client /\ ac_code_challenge c = challenge.
Proof.
  unfold issue_auth_code, issue, verify_auth_code; intros Hn Hi Hv; apply ok_or_Ok, encode_payload in Hi.
  destruct (jwt_decode _ now' secret' code) as [claims|] eqn:E; [| done]; apply decode_payload in E; rewrite Hi in E; injection E as <-.
  simpl in Hv; unfold decode_auth_code, text_field, text_field_or_default, u64_field in Hv; simpl in Hv.
  unfold of_Z in Hv; rewrite (proj2 (Z.leb_le 0 (now + AUTH_CODE_TTL_SECS))) in Hv by (unfold AUTH_CODE_TTL_SECS; lia); simpl in Hv.
  by injection Hv as <-.
Qed.

Lemma consent_says secret c now token now' secret' d :
  0 <= now -> issue_consent secret c now = Ok token -> verify_consent token now' secret' = Some d ->
  cc_user_id d = cc_user_id c /\ cc_client_id d = cc_client_id c /\ cc_redirect_uri d = cc_redirect_uri c
  /\ cc_code_challenge d = cc_code_challenge c /\ cc_resource d = cc_resource c /\ cc_client_state d = cc_client_state c.
Proof.
  unfold issue_consent, issue, verify_consent; intros Hn Hi Hv; apply ok_or_Ok, encode_payload in Hi.
  destruct (jwt_decode _ now' secret' token) as [claims|] eqn:E; [| done]; apply decode_payload in E; rewrite Hi in E; injection E as <-.
  simpl in Hv; unfold decode_consent, text_field, text_field_or_default, u64_field in Hv; simpl in Hv.
  unfold of_Z in Hv; rewrite (proj2 (Z.leb_le 0 (now + CONSENT_TTL_SECS))) in Hv by (unfold CONSENT_TTL_SECS; lia); simpl in Hv.
  injection Hv as <-; by split_and!.
Qed.
End Meaning.
