(* ===== verification/AuthEnv.v ===== *)
(** * The handlers' surroundings

    What the handlers of [cp/auth.rs], [cp/oauth.rs] and [cp/apple.rs] call:
    the repositories of the accounts, the clock, the source of random tokens,
    and the identity providers, which are remote services.  Each call is an
    event; an environment answers it given the calls so far.  Checking an
    identity token against its provider's published keys is the work of
    [jsonwebtoken] and the provider: [GoogleDecode], [AppleDecode]. *)
From Stdlib Require Import ZArith Lia.
From S2P Require Import Prelude OrdMap Text Errors Json Effects AccountDb Identity Lifecycle OAuthStore AccountLedger Http.
Local Open Scope Z_scope.
Local Open Scope kioku_scope.

(** What a client is answered: a response, or an HTML page by what it shows. *)
Inductive Answer :=
| Reply (r : Response)
| Page (status : Z) (heading message : string)
| ConsentPage (owned_web_sign_in : bool) (client_name : option str) (origin consent_token : str).

(** ** The environment *)

(** How Apple's part of a sign-in fails. *)
Inductive AppleFlowError := Rejected | AppleUnavailable.
Record AppleIdClaims := { ai_sub : str; ai_aud : str; ai_email : option str; ai_email_verified : option Value; ai_nonce : option str }.
Record AppleTokenResponse := { at_id_token : str; at_refresh_token : str }.

(** The claims of a Google identity token, signed for one of the audiences. *)
Record UserClaims := { uc_sub : str; uc_email : str; email_verified : bool; uc_iat : option Z; auth_time : option Z }.

Record ReviewerIdentity := { local_id : str; ri_email : str; disabled : bool }.
Record ReviewerAuthConfig := { uid : str; rc_email : str }.

Record AppleSignInConfig := { ios_client_id : str; macos_client_id : str; apple_web_client_id : str; web_redirect_uri : str }.

Inductive Event :=
| Store (e : StoreEvent)
| FindClient (id : str) (r : res (option OAuthClient))
| FindSession (account : str) (r : res (option AccountSession))
| FindStatus (account : str) (r : res (option AccountStatus))
| Clock (now : N)
| Random (token : str)
| GoogleToken (code : str) (r : option (option str))
| GoogleDecode (token : str) (r : res UserClaims)
| ReviewerLookup (token : str) (r : res (list ReviewerIdentity))
| ReviewerFixture (account : str) (r : res unit)
| AppleDecode (token : str) (r : result AppleFlowError AppleIdClaims)
| AppleExchange (client code : str) (r : result AppleFlowError AppleTokenResponse).

Record Env := {
  env_ensure : OAuthClientDefinition -> list Event -> res unit;
  env_register : OAuthClientRegistrationRequest -> list Event -> res OAuthClientRegistration;
  env_client : str -> list Event -> res (option OAuthClient);
  env_consent : PendingConsent -> list Event -> res bool;
  env_approve : ConsentApproval -> list Event -> res bool;
  env_direct : DirectAuthorizationCode -> list Event -> res bool;
  env_exchange : AuthorizationCodeExchange -> list Event -> res bool;
  env_rotate : RefreshTokenRotation -> list Event -> res (option str);
  env_native : NativeSessionRefresh -> list Event -> res unit;
  env_upsert : str -> str -> Z -> list Event -> res AccountUpsert;
  env_apple : AppleAccountGrant -> Z -> list Event -> res AccountUpsert;
  env_link : str -> AppleAccountGrant -> list Event -> res unit;
  env_session : str -> list Event -> res (option AccountSession);
  env_status : str -> list Event -> res (option AccountStatus);
  env_clock : list Event -> N;  (* seconds since the epoch *)
  env_random : list Event -> str;
  env_google : str -> list Event -> option (option str);
  env_google_decode : str -> list Event -> res UserClaims;
  env_reviewer_lookup : str -> list Event -> res (list ReviewerIdentity);
  env_fixture : str -> list Event -> res unit;
  env_apple_decode : str -> list Event -> result AppleFlowError AppleIdClaims;
  env_apple_exchange : str -> str -> list Event -> result AppleFlowError AppleTokenResponse
}.

Record Config := {
  base_url : str; web_origin : str; jwt_secret : str; jwt_fallbacks : list str; google_web_client_id : str;
  google_audiences : list str; signup_limit_per_day : Z; reviewer_verifier : option ReviewerAuthConfig;
  apple_provider : option AppleSignInConfig
}.

Definition jwt_secrets (c : Config) : list str := jwt_secret c :: jwt_fallbacks c.

(** ** Handlers *)

Definition page {A} (status : Z) (heading message : string) : prog Event Answer A := return_ (Page status heading message).
Definition reply {A} (r : Response) : prog Event Answer A := return_ (Reply r).

(** [let Some(x) = o else { return ... }] *)
Definition or_return {R A} (r : R) (o : option A) : prog Event R A := match o with Some a => done_with a | None => return_ r end.
Definition clock {R} (env : Env) : prog Event R Z := let! now := call Clock (env_clock env) in done_with (Z.of_N now).
Definition unless {R} (condition : bool) (r : R) : prog Event R unit := if condition then return_ r else done_with tt.

