(* ===== verification/Auth.v ===== *)
(** * Who is asking

    [cp/auth.rs]: identity tokens of Google and of the reviewers' identity
    platform, and the middleware that resolves a request's bearer token to an
    account before a handler runs.  The cache of published keys is not
    modelled. *)
From Stdlib Require Import ZArith Lia.
From S2P Require Import Prelude OrdMap Text Errors Bytes Json Effects AccountDb Identity Lifecycle OAuthStore AccountLedger Tokens Http AuthEnv.
Local Open Scope Z_scope.
Local Open Scope kioku_scope.

Definition EXP_LEEWAY_SECS : Z := 30.
Definition REVIEWER_TOKEN_MAX_BYTES : Z := 8192.

#[export] Instance AccountStatus_eq_dec : EqDecision AccountStatus.
Proof. solve_decision. Defined.

Inductive AuthCredentialKind := KiokuAccessToken | GoogleIdToken.

Record AuthEvidence := { kind : AuthCredentialKind; authenticated_at_epoch_seconds : option Z }.

(** [now] is the clock, in seconds; 64-bit arithmetic saturates. *)
Definition is_recent_provider_auth (e : AuthEvidence) (max_age now : Z) : bool :=
  match kind e, authenticated_at_epoch_seconds e with
  | GoogleIdToken, Some authenticated_at =>
    (authenticated_at <=? Z.min (2 ^ 64 - 1) (now + EXP_LEEWAY_SECS)) && (Z.max 0 (now - authenticated_at) <=? max_age)
  | _, _ => false
  end.

Record VerifiedUserToken := { subject : str; vt_email : str; vt_authenticated_at : option Z }.

(** [GET /api/account/deletion] and [DELETE /api/account]. *)
Definition deletion_status_access (method path : str) : bool :=
  (str_eqb method (lit "DELETE") && str_eqb path (lit "/api/account"))
  || (str_eqb method (lit "GET") && str_eqb path (lit "/api/account/deletion")).

(** The header's bearer token. *)
Definition bearer_token (authorization : option str) : option str :=
  header ← authorization; token ← strip_prefix (lit "Bearer ") header; Some (trim token).

Definition exact_reviewer_identity `{Unicode} (config : ReviewerAuthConfig) (users : list ReviewerIdentity) : res (str * str) :=
  let rejected := Errors.Auth (lit "review identity rejected") in
  match users with
  | [user] =>
    let? _ := refuse (disabled user || negb (str_eqb (local_id user) (uid config))
                      || negb (eq_ignore_ascii_case (ri_email user) (rc_email config))) rejected in
    Ok (local_id user, to_lowercase (ri_email user))
  | _ => Err rejected
  end.

Section Verification.
Context `{Unicode} (config : Config) (env : Env).

(** Errors of the token's header, keys and signature are the environment's. *)
Definition verify_with_evidence (token : str) : prog Event (res VerifiedUserToken) (res VerifiedUserToken) :=
  unless (is_empty (google_audiences config)) (Err (Errors.Auth (lit "no Google client ids configured"))) ;!
  let! claims := try_ (call (GoogleDecode token) (env_google_decode env token)) in
  unless (negb (email_verified claims)) (Err (Errors.Auth (lit "email_verified false"))) ;!
  done_with (Ok {| subject := uc_sub claims; vt_email := uc_email claims;
    vt_authenticated_at := match auth_time claims with Some t => Some t | None => uc_iat claims end |}).

Definition verify_reviewer (reviewer : ReviewerAuthConfig) (token : str) : prog Event (res (str * str)) (res (str * str)) :=
  unless (is_empty token || (REVIEWER_TOKEN_MAX_BYTES <? byte_len token) || negb (forallb (fun c => (c <? 128)%N) token))
    (Err (Errors.Auth (lit "invalid reviewer identity token"))) ;!
  let! users := try_ (call (ReviewerLookup token) (env_reviewer_lookup env token)) in
  done_with (exact_reviewer_identity reviewer users).

(** ** The middleware *)

(** The handler runs for an account, or the request is answered. *)
Inductive Admission :=
| Passed (user : str) (evidence : AuthEvidence)
| Refused (r : Response).

Definition unauthorized : Response :=
  {| status := 401;
     headers := [(lit "www-authenticate", lit "Bearer resource_metadata=" ++ [34%N] ++ base_url config
       ++ lit "/.well-known/oauth-protected-resource" ++ [34%N] ++ lit ", scope=" ++ [34%N] ++ lit "kioku:read" ++ [34%N])];
     body := JsonBody (object [("error", VString (lit "unauthorized"))]%string) |}.

Definition unavailable_account : Response :=
  json_response 403 (object [("error", VString (lit "forbidden")); ("error_description", VString (lit "Account is unavailable"))]%string).

Definition signup_limited : Response :=
  json_response 429 (object [("error", VString (lit "signup_limit_reached"));
    ("error_description", VString (lit "Kioku is accepting a limited number of new accounts per day. Please try again tomorrow."))]%string).

Definition auth_store_error : Response := error_json 503 "temporarily_unavailable".

Definition being_deleted (status : AccountStatus) : bool :=
  match status with DeletionRequested | Deleting | Deleted => true | Active | Unavailable => false end.

Definition find_status {R} (user : str) : prog Event R (res (option AccountStatus)) := call (FindStatus user) (env_status env user).

(** The account of an access token, if the token is one of ours. *)
Definition admit_access_token (deletion_status : bool) (user : str) (issued_at : option Z) : prog Event Admission Admission :=
  let! found := find_status user in
  match found with
  | Ok (Some status) =>
    if bool_decide (status = Active) || (deletion_status && being_deleted status)
    then done_with (Passed user {| kind := KiokuAccessToken; authenticated_at_epoch_seconds := issued_at |})
    else done_with (Refused unavailable_account)
  | Ok None => done_with (Refused unavailable_account)
  | Err _ => done_with (Refused auth_store_error)
  end.

(** The account of a verified Google identity; it is made if there is none. *)
Definition admit_google (sha256 : bytes -> bytes) (deletion_status : bool) (verified : VerifiedUserToken) : prog Event Admission Admission :=
  let evidence := {| kind := GoogleIdToken; authenticated_at_epoch_seconds := vt_authenticated_at verified |} in
  (if deletion_status
   then
     let user := derive_stable_uuid sha256 (subject verified) in
     let! found := find_status user in
     match found with
     | Ok (Some Active) => done_with tt
     | Ok (Some status) => return_ (if being_deleted status then Passed user evidence else Refused unavailable_account)
     | Ok None => return_ (Refused unavailable_account)
     | Err _ => return_ (Refused auth_store_error)
     end
   else done_with tt) ;!
  let limit := signup_limit_per_day config in
  let! upsert := call (fun r => Store (SUpsert (subject verified) (vt_email verified) limit r))
                   (env_upsert env (subject verified) (vt_email verified) limit) in
  match upsert with
  | Ok u => done_with (Passed (account_id (account u)) evidence)
  | Err SignupLimited => done_with (Refused signup_limited)
  | Err (Errors.Auth _) => done_with (Refused unavailable_account)
  | Err _ => done_with (Refused (error_json 500 "server_error"))
  end.

Definition require_auth `{Jwt} (sha256 : bytes -> bytes) (method path : str) (authorization : option str) : prog Event Admission Admission :=
  let deletion_status := deletion_status_access method path in
  let! token := or_return (Refused unauthorized) (bearer_token authorization) in
  let! now := clock env in
  match verify_access_token_with_issued_at (jwt_secrets config) (base_url config) token now with
  | Ok (user, issued_at) => admit_access_token deletion_status user issued_at
  | Err _ =>
    let! verified := invoke (verify_with_evidence token) in
    match verified with
    | Ok verified => admit_google sha256 deletion_status verified
    | Err _ => done_with (Refused unauthorized)
    end
  end.
End Verification.
