(* ===== verification/OAuth.v ===== *)
(** * The OAuth server

    [cp/oauth.rs]: client registration, the authorization request, the
    Google callback, the reviewer bridge, consent and the token endpoint; a
    handler is a program over the history of its calls.  URLs, percent
    encoding and the identity providers are third-party code and remote
    services: parameters and answers of the environment.  An HTML page is
    kept as what it shows; logging is not modelled. *)
From Stdlib Require Import ZArith Lia.
From S2P Require Import Prelude OrdMap Text Errors Bytes Json Net Effects AccountDb Identity Lifecycle OAuthStore AccountLedger Tokens Http AuthEnv Auth.
Local Open Scope Z_scope.
Local Open Scope kioku_scope.

Definition MAX_CLIENT_NAME_BYTES : Z := 128.
Definition MAX_REDIRECT_URIS : Z := 5.
Definition MAX_REDIRECT_URI_BYTES : Z := 2048.
Definition MAX_OAUTH_CLIENTS : Z := 256.
Definition UNUSED_CLIENT_TTL_SECS : Z := 60 * 60.
Definition MAX_CLIENT_STATE_BYTES : Z := 1024.
Definition CODE_TTL_SECS : Z := 5 * 60.
Definition REFRESH_TTL_SECS : Z := 90 * 24 * 60 * 60.
Definition MCP_SCOPE : str := lit "kioku:read".
Definition FIRST_PARTY_NATIVE_CLIENT_ID : str := lit "a3f42956-2dc1-4e58-9f05-a83fac1f9328".
Definition FIRST_PARTY_NATIVE_REDIRECT_URI : str := lit "http://127.0.0.1/oauth/callback".
Definition FIRST_PARTY_WEB_CLIENT_ID : str := lit "b9b7d59f-3fdd-4cd4-93a2-a68972aef42f".

(** ** Validation of identifiers *)

Definition all_bytes (p : char -> bool) (s : str) : bool := forallb p s.

Definition is_hexdigit (c : char) : bool := match hex_value c with Some _ => true | None => false end.

(** A UUID.  The text is ASCII when it passes, so its characters are its
    bytes. *)
Definition is_valid_client_id (value : str) : bool :=
  (byte_len value =? 36)
  && forallb (fun ic => if bool_decide (ic.1 ∈ [8; 13; 18; 23]%nat) then N.eqb ic.2 (ch "-") else is_hexdigit ic.2)
       (imap (fun i c => (i, c)) value).

Definition url_safe (c : char) : bool := is_ascii_alphanumeric c || N.eqb c (ch "-") || N.eqb c (ch "_").

Definition is_valid_pkce_challenge (value : str) : bool := (byte_len value =? 43) && forallb url_safe value.

Definition is_valid_pkce_verifier (value : str) : bool :=
  (43 <=? byte_len value) && (byte_len value <=? 128)
  && forallb (fun c => url_safe c || N.eqb c (ch ".") || N.eqb c (ch "~")) value.

Definition is_ascii (s : str) : bool := forallb (fun c => (c <? 128)%N) s.
Definition is_ascii_control (c : char) : bool := ((c <? 32) || (c =? 127))%N.
(** [u8::is_ascii_whitespace]: no vertical tab. *)
Definition is_ascii_whitespace (c : char) : bool := ((c =? 32) || (c =? 9) || (c =? 10) || (c =? 12) || (c =? 13))%N.

Definition is_loopback_host (host : str) : bool :=
  eq_ignore_ascii_case host (lit "localhost")
  || match parse_ip (reverse (drop_while (N.eqb (ch "]")) (reverse (drop_while (N.eqb (ch "[")) host)))) with
     | Some ip => is_loopback ip
     | None => false
     end.

(** [http::Uri] *)
Record Uri := {
  scheme_str : option str; authority : option str; host : option str; port_u16 : option Z; path : str; query : option str
}.

(** ** Requests and answers *)

Record RegisterBody := { client_name : option str; redirect_uris : list str }.

Record AuthorizeQuery := {
  q_client_id : option str; q_redirect_uri : option str; q_state : option str; q_code_challenge : option str;
  q_code_challenge_method : option str; q_response_type : option str; q_scope : option str; q_resource : option str
}.

Record CallbackQuery := { cb_code : option str; cb_state : option str; cb_error : option str }.

Record ReviewerLoginBody := { rl_id_token : option str; rl_authorization : AuthorizeQuery }.

Record ConsentForm := { cf_consent_token : option str; cf_decision : option str }.

Record TokenForm := {
  tf_grant_type : option str; tf_code : option str; tf_code_verifier : option str; tf_client_id : option str;
  tf_refresh_token : option str; tf_resource : option str
}.

Definition redirect_302 (url : str) : Answer := Reply {| status := 302; headers := [(lit "location", url)]; body := NoBody |}.

Definition bad_request (e : string) : Response := error_json 400 e.
Definition bad_request_desc (e d : string) : Response :=
  json_response 400 (object [("error", VString (lit e)); ("error_description", VString (lit d))]%string).
Definition server_error : Response := error_json 500 "server_error".

Definition token_response (access refresh : str) : Response :=
  with_header "x-content-type-options" "nosniff" (with_header "pragma" "no-cache" (with_header "cache-control" "no-store"
    (json_response 200 (object [("access_token", VString access); ("token_type", VString (lit "bearer")); ("expires_in", of_Z 900);
      ("refresh_token", VString refresh); ("scope", VString MCP_SCOPE)]%string)))).

Definition signup_limited_page : Answer :=
  Page 429 "Not accepting new accounts right now"
    "Kioku is opening a limited number of new accounts each day, and today's are taken. Please try again tomorrow.".

(** [serde]'s derived reading of a form: a field given twice is refused. *)
Definition form_field (name : string) (pairs : list (str * str)) : option (option str) :=
  match List.filter (fun kv => str_eqb kv.1 (lit name)) pairs with
  | [] => Some None
  | [kv] => Some (Some kv.2)
  | _ => None
  end.

Definition consent_form (pairs : list (str * str)) : option ConsentForm :=
  token ← form_field "consent_token" pairs; decision ← form_field "decision" pairs;
  Some {| cf_consent_token := token; cf_decision := decision |}.

Definition token_form (pairs : list (str * str)) : option TokenForm :=
  grant_type ← form_field "grant_type" pairs; code ← form_field "code" pairs; verifier ← form_field "code_verifier" pairs;
  client_id ← form_field "client_id" pairs; refresh ← form_field "refresh_token" pairs; resource ← form_field "resource" pairs;
  Some {| tf_grant_type := grant_type; tf_code := code; tf_code_verifier := verifier; tf_client_id := client_id;
          tf_refresh_token := refresh; tf_resource := resource |}.

Section Handlers.
Context (sha256 : bytes -> bytes) (base64url : bytes -> str) `{Jwt} `{Unicode}.
(** Third-party code: the URL parser, the order of strings [sort] uses, the
    encoding of query strings and the decoding of forms. *)
Context (parse_uri : str -> option Uri) (urlencode : list (str * str) -> option str) (form_pairs : str -> option (list (str * str))).
Context (config : Config) (env : Env).

#[local] Abbreviation digest := (sha256_hex sha256).
#[local] Abbreviation pkce := (pkce_s256 sha256 base64url).

Definition is_valid_redirect_uri (uri : str) : bool :=
  if is_empty uri || (MAX_REDIRECT_URI_BYTES <? byte_len uri) || existsb (fun c => N.eqb c (ch "#") || N.eqb c (ch "\")) uri
     || existsb (fun c => is_ascii_control c || is_ascii_whitespace c) uri
  then false
  else
    match parse_uri uri with
    | Some u =>
      match scheme_str u, authority u, host u with
      | Some scheme, Some auth, Some h =>
        if existsb (N.eqb (ch "@")) auth then false
        else if str_eqb scheme (lit "https") then starts_with (lit "https://") uri
        else if str_eqb scheme (lit "http") then starts_with (lit "http://") uri && is_loopback_host h
        else false
      | _, _, _ => false
      end
    | None => false
    end.

(** ** Clients *)

Definition web_client : OAuthClientDefinition :=
  {| cd_id := FIRST_PARTY_WEB_CLIENT_ID; cd_name := lit "Kioku Web";
     cd_redirect_uris := [web_origin config ++ lit "/app/apple-callback"]; cd_allow_empty_redirect_upgrade := false |}.

Definition native_client : OAuthClientDefinition :=
  {| cd_id := FIRST_PARTY_NATIVE_CLIENT_ID; cd_name := lit "Kioku Native Apps";
     cd_redirect_uris := [FIRST_PARTY_NATIVE_REDIRECT_URI]; cd_allow_empty_redirect_upgrade := true |}.

Definition ensure_first_party {R} (d : OAuthClientDefinition) : prog Event R (res unit) :=
  call (fun r => Store (SEnsure d r)) (env_ensure env d).

Definition find_client {R} (id : str) : prog Event R (res (option OAuthClient)) := call (FindClient id) (env_client env id).

Definition random_token_hex {R} : prog Event R str := call Random (env_random env).

Definition validated_registration (b : RegisterBody) : result string (option str * list str) :=
  if is_empty (redirect_uris b) || (MAX_REDIRECT_URIS <? Z.of_nat (length (redirect_uris b)))
  then Err "redirect_uris must contain between 1 and 5 entries"%string
  else if existsb (fun uri => negb (is_valid_redirect_uri uri)) (redirect_uris b)
  then Err "redirect_uris must be absolute HTTPS URLs or loopback HTTP URLs"%string
  else
    let name :=
      match client_name b with
      | Some n =>
        let trimmed := trim n in
        if is_empty trimmed || (MAX_CLIENT_NAME_BYTES <? byte_len trimmed) || existsb is_control trimmed
        then Err "client_name is invalid or too long"%string else Ok (Some trimmed)
      | None => Ok None
      end in
    match name with
    | Err e => Err e
    | Ok name =>
      let uris := sort_by ord_leb (redirect_uris b) in
      if bool_decide (NoDup uris) then Ok (name, uris) else Err "redirect_uris must not contain duplicates"%string
    end.

Definition registration_answer (uris : list str) (client : str) : Response :=
  json_response 201 (object [("client_id", VString client); ("redirect_uris", of_strs uris);
    ("token_endpoint_auth_method", VString (lit "none"));
    ("grant_types", of_strs [lit "authorization_code"; lit "refresh_token"]); ("response_types", of_strs [lit "code"])]%string).

(** The proposed id is a random UUID. *)
Definition register (b : RegisterBody) : prog Event Answer Answer :=
  match validated_registration b with
  | Err description => reply (bad_request_desc "invalid_client_metadata" description)
  | Ok (name, uris) =>
    let! proposed := random_token_hex in
    let q := {| rg_proposed_id := proposed; rg_name := name; rg_redirect_uris := uris;
                rg_protected := (FIRST_PARTY_NATIVE_CLIENT_ID, FIRST_PARTY_WEB_CLIENT_ID);
                rg_capacity := MAX_OAUTH_CLIENTS; rg_unused_ttl := UNUSED_CLIENT_TTL_SECS |} in
    let! r := call (fun r => Store (SRegister q r)) (env_register env q) in
    match r with
    | Ok (Existing client) | Ok (Created client) => done_with (Reply (registration_answer uris client))
    | Ok AtCapacity =>
      done_with (Reply (json_response 429 (object [("error", VString (lit "invalid_client_metadata"));
        ("error_description", VString (lit "client registration capacity reached"))]%string)))
    | Err _ => done_with (Reply server_error)
    end
  end.

Definition native_loopback_redirect_matches (redirect_uri : str) : bool :=
  match parse_uri redirect_uri with
  | Some u =>
    bool_decide (scheme_str u = Some (lit "http")) && bool_decide (host u = Some (lit "127.0.0.1"))
    && bool_decide (is_Some (authority u)) && bool_decide (is_Some (port_u16 u))
    && str_eqb (path u) (lit "/oauth/callback") && bool_decide (query u = None)
  | None => false
  end.

(** The client's name, when the redirect is one it may use. *)
Definition registered_client (c : OAuthClient) (redirect_uri : str) : option (option str) :=
  let redirect_matches :=
    if str_eqb (cl_id c) FIRST_PARTY_NATIVE_CLIENT_ID then native_loopback_redirect_matches redirect_uri
    else existsb (str_eqb redirect_uri) (cl_redirect_uris c) in
  if is_valid_redirect_uri redirect_uri && redirect_matches then Some (cl_name c) else None.

(** ** The authorization request *)

(** Either the claims of the request's state or the answer that refuses it. *)
Definition validated_authorization_request (q : AuthorizeQuery) : prog Event (result Response StateClaims) (result Response StateClaims) :=
  unless (negb (bool_decide (q_response_type q = Some (lit "code")))) (Err (error_json 400 "unsupported_response_type")) ;!
  let! code_challenge := or_return (Err (bad_request_desc "invalid_request" "code_challenge required")) (q_code_challenge q) in
  unless (negb (is_valid_pkce_challenge code_challenge)) (Err (bad_request_desc "invalid_request" "invalid S256 code_challenge")) ;!
  unless (negb (bool_decide (q_code_challenge_method q = Some (lit "S256"))))
    (Err (bad_request_desc "invalid_request" "code_challenge_method must be S256")) ;!
  unless (match q_scope q with Some scope => negb (bool_decide (split_whitespace scope = [MCP_SCOPE])) | None => false end)
    (Err (bad_request_desc "invalid_scope" "only kioku:read is supported")) ;!
  let! client_id := or_return (Err (bad_request_desc "invalid_request" "client_id and redirect_uri required")) (q_client_id q) in
  let! redirect_uri := or_return (Err (bad_request_desc "invalid_request" "client_id and redirect_uri required")) (q_redirect_uri q) in
  unless (negb (is_valid_client_id client_id) || negb (is_valid_redirect_uri redirect_uri))
    (Err (bad_request_desc "invalid_request" "invalid client_id or redirect_uri")) ;!
  let client_state := default [] (q_state q) in
  unless ((MAX_CLIENT_STATE_BYTES <? byte_len client_state) || existsb is_control client_state)
    (Err (bad_request_desc "invalid_request" "state is invalid or too long")) ;!
  let resource := default (base_url config) (q_resource q) in
  unless (negb (str_eqb resource (base_url config))) (Err (bad_request_desc "invalid_target" "resource must match the Kioku MCP server")) ;!
  let! registered := find_client client_id in
  match registered with
  | Ok (Some client) =>
    match registered_client client redirect_uri with
    | Some _ =>
      done_with (Ok {| s_client_id := client_id; s_redirect_uri := redirect_uri; s_client_state := client_state;
        s_code_challenge := code_challenge; s_resource := resource; apple_nonce := []; apple_link_user_id := []; s_exp := 0 |})
    | None => done_with (Err (error_json 400 "invalid_client"))
    end
  | Ok None => done_with (Err (error_json 400 "invalid_client"))
  | Err _ => done_with (Err server_error)
  end.

Definition google_redirect : str := base_url config ++ lit "/oauth/google/callback".

Definition authorize (q : AuthorizeQuery) : prog Event Answer Answer :=
  (if bool_decide (q_client_id q = Some FIRST_PARTY_WEB_CLIENT_ID)
   then let! ensured := ensure_first_party web_client in
        unless (match ensured with Ok _ => false | Err _ => true end) (Reply server_error)
   else done_with tt) ;!
  let! validated := invoke (validated_authorization_request q) in
  match validated with
  | Err response => reply response
  | Ok state =>
    let! now := clock env in
    match issue_state (jwt_secret config) state now with
    | Err _ => reply server_error
    | Ok state_jwt =>
      done_with (redirect_302 (lit "https://accounts.google.com/o/oauth2/v2/auth?" ++ default [] (urlencode
        [(lit "client_id", google_web_client_id config); (lit "redirect_uri", google_redirect); (lit "response_type", lit "code");
         (lit "scope", lit "openid email profile"); (lit "state", state_jwt); (lit "prompt", lit "select_account")])))
    end
  end.

Definition authorization_redirect (redirect_uri client_state auth_code : str) : str :=
  redirect_uri ++ [if existsb (N.eqb (ch "?")) redirect_uri then ch "&" else ch "?"]
  ++ default [] (urlencode ((lit "code", auth_code) :: if is_empty client_state then [] else [(lit "state", client_state)])).

(** ** Consent *)

Definition redirect_origin (redirect_uri : str) : option str :=
  u ← parse_uri redirect_uri; scheme ← scheme_str u; auth ← authority u; Some (scheme ++ lit "://" ++ auth).

Definition registration_unavailable : Answer := Page 400 "Authentication failed" "The OAuth client registration is unavailable.".
Definition incomplete : Answer := Page 500 "Authentication failed" "The authorization could not be completed.".

Definition begin_authorization_consent (state : StateClaims) (user_id : str) : prog Event Answer Answer :=
  let client_id := s_client_id state in
  let redirect_uri := s_redirect_uri state in
  let! registered := find_client client_id in
  match registered with
  | Ok (Some client) =>
    let! name := or_return registration_unavailable (registered_client client redirect_uri) in
    let! origin := or_return (Page 400 "Authentication failed" "The OAuth client redirect is invalid.") (redirect_origin redirect_uri) in
    let claims := {| cc_user_id := user_id; cc_client_id := client_id; cc_redirect_uri := redirect_uri; cc_client_state := s_client_state state;
                     cc_code_challenge := s_code_challenge state; cc_resource := s_resource state; cc_exp := 0 |} in
    let! now := clock env in
    match issue_consent (jwt_secret config) claims now with
    | Err _ => return_ incomplete
    | Ok consent_token =>
      let pending := {| pc_consent_hash := digest consent_token; pc_account := user_id; pc_client := client_id;
                        pc_redirect_uri := redirect_uri; pc_ttl := CODE_TTL_SECS |} in
      let! stored := call (fun r => Store (SConsent pending r)) (env_consent env pending) in
      match stored with
      | Ok true => done_with (ConsentPage (str_eqb client_id FIRST_PARTY_WEB_CLIENT_ID) name origin consent_token)
      | _ => return_ incomplete
      end
    end
  | _ => return_ registration_unavailable
  end.

(** The Google callback.  The provider's token endpoint answers nothing, an
    invalid body, or an id token. *)
Definition google_callback (q : CallbackQuery) : prog Event Answer Answer :=
  unless (bool_decide (is_Some (cb_error q))) (Page 400 "Authentication failed" "Authentication was not completed.") ;!
  let missing := Page 400 "Authentication failed" "The callback was missing required parameters." in
  let! code := or_return missing (cb_code q) in
  let! state_jwt := or_return missing (cb_state q) in
  let! now := clock env in
  let! state := or_return (Page 400 "Authentication failed" "The authorization request is invalid or expired.")
                  (first_accepting (verify_state state_jwt now) (jwt_secrets config)) in
  let! answer := call (GoogleToken code) (env_google env code) in
  match answer with
  | None => page 502 "Authentication failed" "The identity provider could not complete authentication."
  | Some None => page 502 "Authentication failed" "The identity provider returned an invalid response."
  | Some (Some id_token) =>
    let! verified := invoke (verify_with_evidence config env id_token) in
    match verified with
    | Err _ => page 502 "Authentication failed" "The identity response could not be verified."
    | Ok user =>
      let google_sub := subject user in
      let email := vt_email user in
      let limit := signup_limit_per_day config in
      let! upsert := call (fun r => Store (SUpsert google_sub email limit r)) (env_upsert env google_sub email limit) in
      match upsert with
      | Ok u => begin_authorization_consent state (account_id (account u))
      | Err SignupLimited => return_ signup_limited_page
      | Err _ => page 403 "Access denied" "This account is unavailable."
      end
    end
  end.

Definition invalid_consent : Answer := Page 400 "Authorization failed" "The consent response is invalid.".
Definition expired_consent : Answer := Page 400 "Authorization failed" "The consent response is invalid or expired.".

(** What a consent token must still say when it comes back. *)
Definition consent_claims_valid (c : ConsentClaims) : bool :=
  is_valid_client_id (cc_client_id c) && is_valid_redirect_uri (cc_redirect_uri c) && is_valid_pkce_challenge (cc_code_challenge c)
  && negb (MAX_CLIENT_STATE_BYTES <? byte_len (cc_client_state c))
  && (is_empty (cc_resource c) || str_eqb (cc_resource c) (base_url config)).

Definition consent (body : str) : prog Event Answer Answer :=
  unless (8192 <? byte_len body) invalid_consent ;!
  let! form := or_return invalid_consent (pairs ← form_pairs body; consent_form pairs) in
  unless (negb (bool_decide (cf_decision form = Some (lit "approve"))))
    (Page 400 "Authorization denied" "Full archive access was not approved.") ;!
  let! consent_token := or_return invalid_consent (cf_consent_token form) in
  unless ((4096 <? byte_len consent_token) || negb (is_ascii consent_token)) expired_consent ;!
  let! now := clock env in
  let! claims := or_return expired_consent (first_accepting (verify_consent consent_token now) (jwt_secrets config)) in
  unless (negb (consent_claims_valid claims)) invalid_consent ;!
  let unavailable := Page 400 "Authorization failed" "The OAuth client registration is unavailable." in
  let! registered := find_client (cc_client_id claims) in
  unless (match registered with
          | Ok (Some client) => bool_decide (registered_client client (cc_redirect_uri claims) = None)
          | _ => true
          end) unavailable ;!
  let! now := clock env in
  match issue_auth_code (jwt_secret config) (cc_user_id claims) (cc_client_id claims) (cc_code_challenge claims) (cc_resource claims) now with
  | Err _ => reply server_error
  | Ok auth_code =>
    let approval := {| ap_consent_hash := digest consent_token; ap_code_hash := digest auth_code; ap_account := cc_user_id claims;
                       ap_client := cc_client_id claims; ap_redirect_uri := cc_redirect_uri claims; ap_code_ttl := CODE_TTL_SECS |} in
    let! approved := call (fun r => Store (SApprove approval r)) (env_approve env approval) in
    match approved with
    | Ok true => done_with (redirect_302 (authorization_redirect (cc_redirect_uri claims) (cc_client_state claims) auth_code))
    | Ok false => page 400 "Authorization failed" "This consent response was already used or has expired."
    | Err _ => reply server_error
    end
  end.

(** ** The token endpoint *)

Definition wrong_resource (resource : option str) : bool :=
  match resource with Some r => negb (str_eqb r (base_url config)) | None => false end.

Definition invalid_target : Response := bad_request_desc "invalid_target" "resource must match the Kioku MCP server".

Definition access_token {R} (user_id : str) : prog Event R (res str) :=
  let! iat := clock env in let! exp := clock env in
  done_with (issue_access_token (jwt_secret config) (base_url config) user_id iat exp).

(** The code's claims, when the form's verifier, client and resource are the
    ones they name. *)
Definition check_code (form : TokenForm) (code : str) (claims : AuthCodeClaims) : prog Event Answer str :=
  let! verifier := or_return (Reply (bad_request_desc "invalid_request" "code_verifier required")) (tf_code_verifier form) in
  unless (negb (is_valid_pkce_verifier verifier)) (Reply (bad_request_desc "invalid_request" "invalid code_verifier")) ;!
  unless (negb (str_eqb (pkce verifier) (ac_code_challenge claims))) (Reply (bad_request_desc "invalid_grant" "PKCE verification failed")) ;!
  let! client_id := or_return (Reply (bad_request_desc "invalid_request" "client_id required")) (tf_client_id form) in
  unless (negb (is_valid_client_id client_id) || negb (str_eqb client_id (ac_client_id claims))
          || negb (is_valid_pkce_challenge (ac_code_challenge claims))) (Reply (bad_request_desc "invalid_grant" "client_id mismatch")) ;!
  let code_resource := if is_empty (ac_resource claims) then base_url config else ac_resource claims in
  unless (negb (str_eqb code_resource (base_url config)) || wrong_resource (tf_resource form)) (Reply invalid_target) ;!
  done_with client_id.

Definition token_auth_code (form : TokenForm) : prog Event Answer Answer :=
  let! code := or_return (Reply (bad_request_desc "invalid_request" "code required")) (tf_code form) in
  let refused := Reply (bad_request_desc "invalid_grant" "Invalid or expired code") in
  unless ((4096 <? byte_len code) || negb (is_ascii code)) refused ;!
  let! now := clock env in
  let! claims := or_return refused (first_accepting (verify_auth_code code now) (jwt_secrets config)) in
  let! client_id := check_code form code claims in
  let! issued := access_token (ac_user_id claims) in
  match issued with
  | Err _ => reply server_error
  | Ok access =>
    let! raw_refresh := random_token_hex in
    let x := {| ex_code_hash := digest code; ex_account := ac_user_id claims; ex_client := client_id;
                ex_refresh_token_hash := digest raw_refresh; ex_refresh_ttl := REFRESH_TTL_SECS |} in
    let! exchanged := call (fun r => Store (SExchange x r)) (env_exchange env x) in
    match exchanged with
    | Ok true => done_with (Reply (token_response access raw_refresh))
    | Ok false => reply (bad_request_desc "invalid_grant" "Invalid or already-used code")
    | Err _ => reply server_error
    end
  end.

Definition token_refresh (form : TokenForm) : prog Event Answer Answer :=
  let! incoming := or_return (Reply (bad_request_desc "invalid_request" "refresh_token required")) (tf_refresh_token form) in
  let! client_id := or_return (Reply (bad_request_desc "invalid_request" "client_id required")) (tf_client_id form) in
  unless (negb (byte_len incoming =? 64) || negb (forallb is_hexdigit incoming) || negb (is_valid_client_id client_id))
    (Reply (bad_request_desc "invalid_grant" "Invalid refresh token")) ;!
  unless (wrong_resource (tf_resource form)) (Reply invalid_target) ;!
  let! raw_refresh := random_token_hex in
  let q := {| ro_old_token_hash := digest incoming; ro_client := client_id; ro_new_token_hash := digest raw_refresh;
              ro_refresh_ttl := REFRESH_TTL_SECS |} in
  let! rotated := call (fun r => Store (SRotate q r)) (env_rotate env q) in
  match rotated with
  | Ok (Some user_id) =>
    let! issued := access_token user_id in
    match issued with
    | Ok access => done_with (Reply (token_response access raw_refresh))
    | Err _ => reply server_error
    end
  | Ok None => reply (bad_request_desc "invalid_grant" "Invalid refresh token")
  | Err _ => reply server_error
  end.

(** The description of an unsupported grant echoes what was asked. *)
Definition unsupported_grant (form : TokenForm) : str :=
  lit "Unsupported grant_type: " ++ default [] (tf_grant_type form).

Definition token (body : str) : prog Event Answer Answer :=
  unless (8192 <? byte_len body) (Reply (error_json 400 "invalid_request")) ;!
  let! form := or_return (Reply (error_json 400 "invalid_request")) (pairs ← form_pairs body; token_form pairs) in
  if bool_decide (tf_grant_type form = Some (lit "authorization_code")) then token_auth_code form
  else if bool_decide (tf_grant_type form = Some (lit "refresh_token")) then token_refresh form
  else
    reply (json_response 400 (object [("error", VString (lit "unsupported_grant_type"));
      ("error_description", VString (unsupported_grant form))]%string)).

(** The first session of a native sign-in. *)
Definition issue_native_session (user_id : str) : prog Event (res (str * str)) (res (str * str)) :=
  let! access := try_ (access_token user_id) in
  let! raw_refresh := random_token_hex in
  let n := {| ns_account := user_id;
              ns_client := {| cd_id := FIRST_PARTY_NATIVE_CLIENT_ID; cd_name := lit "Kioku Native Apps"; cd_redirect_uris := [];
                              cd_allow_empty_redirect_upgrade := true |};
              ns_refresh_token_hash := digest raw_refresh; ns_refresh_ttl := REFRESH_TTL_SECS |} in
  try_ (call (fun r => Store (SNative n r)) (env_native env n)) ;!
  done_with (Ok (access, raw_refresh)).

(** ** The reviewer bridge *)

Definition REVIEWER_SIGNUP_EXEMPT : Z := I64.max_value.
Definition reviewer_identity_subject (uid : str) : str := lit "reviewer:identity-platform:" ++ uid.

Definition reviewer_origin_allowed (origin : option str) : bool := bool_decide (origin = Some (web_origin config)).

Definition attach_reviewer_cors (origin : option str) (r : Response) : Response :=
  if reviewer_origin_allowed origin
  then {| status := status r; headers := headers r ++ [(lit "access-control-allow-origin", web_origin config); (lit "vary", lit "Origin")];
          body := body r |}
  else r.

Definition reviewer_json (origin : option str) (code : Z) (value : Value) : Answer :=
  Reply (attach_reviewer_cors origin (json_response code value)).

Definition reviewer_error (origin : option str) (code : Z) (error : string) : Answer :=
  reviewer_json origin code (object [("error", VString (lit error))]%string).

Definition no_body (code : Z) : Response := {| status := code; headers := []; body := NoBody |}.

Definition reviewer_preflight (origin : option str) : Answer :=
  if reviewer_origin_allowed origin
  then Reply (with_header "access-control-allow-headers" "Content-Type"
               (with_header "access-control-allow-methods" "POST, OPTIONS" (attach_reviewer_cors origin (no_body 204))))
  else Reply (no_body 403).

Definition reviewer_login (origin : option str) (b : ReviewerLoginBody) : prog Event Answer Answer :=
  unless (negb (reviewer_origin_allowed origin)) (Reply (no_body 403)) ;!
  let! validated := invoke (validated_authorization_request (rl_authorization b)) in
  match validated with
  | Err response => return_ (Reply (attach_reviewer_cors origin response))
  | Ok state =>
    let! id_token := or_return (reviewer_error origin 400 "invalid_request") (rl_id_token b) in
    let! reviewer := or_return (reviewer_error origin 403 "review_access_denied") (reviewer_verifier config) in
    let! verified := invoke (verify_reviewer env reviewer id_token) in
    match verified with
    | Err _ => return_ (reviewer_error origin 403 "review_access_denied")
    | Ok (uid, email) =>
      let subject := reviewer_identity_subject uid in
      let! upsert := call (fun r => Store (SUpsert subject email REVIEWER_SIGNUP_EXEMPT r)) (env_upsert env subject email REVIEWER_SIGNUP_EXEMPT) in
      match upsert with
      | Err _ => return_ (reviewer_error origin 403 "review_access_denied")
      | Ok u =>
        let user := account_id (account u) in
        let! fixture := call (ReviewerFixture user) (env_fixture env user) in
        match fixture with
        | Err _ => return_ (reviewer_error origin 503 "temporarily_unavailable")
        | Ok _ =>
          let! now := clock env in
          match issue_auth_code (jwt_secret config) user (s_client_id state) (s_code_challenge state) (s_resource state) now with
          | Err _ => return_ (reviewer_error origin 500 "server_error")
          | Ok auth_code =>
            let c := {| dc_code_hash := digest auth_code; dc_account := user; dc_client := s_client_id state; dc_ttl := CODE_TTL_SECS |} in
            let! stored := call (fun r => Store (SDirect c r)) (env_direct env c) in
            match stored with
            | Ok true =>
              done_with (reviewer_json origin 200 (object [("redirect_to",
                VString (authorization_redirect (s_redirect_uri state) (s_client_state state) auth_code))]%string))
            | _ => return_ (reviewer_error origin 500 "server_error")
            end
          end
        end
      end
    end
  end.
End Handlers.
