(* ===== verification/Apple.v ===== *)
(** * Sign in with Apple

    [cp/apple.rs]: the verification of an Apple authorization, native and web
    sign-in, and the linking of an Apple identity to an account.  An identity
    token is checked against Apple's keys, issuer and our client ids by
    [AppleDecode]; exchanging a code is Apple's ([AppleExchange]). *)
From Stdlib Require Import ZArith Lia.
From S2P Require Import Prelude OrdMap Text Errors Bytes Json Net Effects AccountDb Identity Lifecycle OAuthStore AccountLedger Tokens Http AuthEnv Auth OAuth.
Local Open Scope Z_scope.
Local Open Scope kioku_scope.

Definition MAX_TOKEN_BYTES : Z := 8192.
Definition MAX_CODE_BYTES : Z := 4096.
Definition MAX_NONCE_BYTES : Z := 128.

Inductive AppleClientKind := Native | Web.
#[export] Instance AppleClientKind_eq_dec : EqDecision AppleClientKind.
Proof. solve_decision. Defined.

Record VerifiedAppleGrant := { vg_subject : str; vg_email : str; vg_refresh_token : str; vg_client_id : str }.

Definition persistence_grant (g : VerifiedAppleGrant) : AppleAccountGrant :=
  {| g_subject := vg_subject g; g_email := vg_email g; g_client_id := vg_client_id g; g_refresh_token := vg_refresh_token g |}.

(** [Boolish]: a boolean or a string. *)
Definition is_true (v : Value) : bool :=
  match v with VBool b => b | VString s => eq_ignore_ascii_case s (lit "true") | _ => false end.

Definition client_kind (c : AppleSignInConfig) (client : str) : option AppleClientKind :=
  if str_eqb client (ios_client_id c) || str_eqb client (macos_client_id c) then Some Native
  else if str_eqb client (apple_web_client_id c) then Some Web
  else None.

Definition valid_nonce (nonce : str) : bool :=
  (43 <=? byte_len nonce) && (byte_len nonce <=? MAX_NONCE_BYTES) && forallb url_safe nonce.

Definition validate_request_shape (identity_token code nonce : str) : bool :=
  negb (is_empty identity_token || (MAX_TOKEN_BYTES <? byte_len identity_token) || negb (is_ascii identity_token)
        || is_empty code || (MAX_CODE_BYTES <? byte_len code) || negb (is_ascii code) || negb (valid_nonce nonce)).

Definition valid_email (value : str) : bool :=
  (byte_len value <=? 254) && (length (List.filter (N.eqb (ch "@")) value) =? 1)%nat
  && negb (existsb (fun c => is_ascii_control c || is_ascii_whitespace c) value).

Record AppleAuthorizationBody := { ab_identity_token : str; ab_authorization_code : str; ab_nonce : str }.
Record AppleWebCallbackBody := { aw_code : option str; aw_id_token : option str; aw_state : option str; aw_error : option str }.

Definition callback_form (pairs : list (str * str)) : option AppleWebCallbackBody :=
  code ← form_field "code" pairs; id_token ← form_field "id_token" pairs; state ← form_field "state" pairs; error ← form_field "error" pairs;
  Some {| aw_code := code; aw_id_token := id_token; aw_state := state; aw_error := error |}.

Definition no_store_json (v : Value) : Response :=
  with_header "x-content-type-options" "nosniff" (with_header "pragma" "no-cache" (with_header "cache-control" "no-store" (json_response 200 v))).

Section Handlers.
Context (sha256 : bytes -> bytes) `{Jwt} `{Unicode}.
Context (parse_uri : str -> option Uri) (urlencode : list (str * str) -> option str) (form_pairs : str -> option (list (str * str))).
Context (config : Config) (env : Env).

(** ** The provider *)

Section Provider.
Context (provider : AppleSignInConfig).

#[local] Abbreviation flow := (result AppleFlowError).

(** The token is for a client of the expected kind, and its nonce is ours:
    native apps give Apple the digest of theirs. *)
Definition verify_identity_token {R} (token raw_nonce : str) (expected : AppleClientKind) : prog Event R (flow AppleIdClaims) :=
  let! decoded := call (AppleDecode token) (env_apple_decode env token) in
  done_with match decoded with
  | Err e => Err e
  | Ok claims =>
    let expected_nonce := match expected with Native => sha256_hex sha256 raw_nonce | Web => raw_nonce end in
    if is_empty (trim (ai_sub claims)) || (255 <? byte_len (ai_sub claims))
       || negb (bool_decide (client_kind provider (ai_aud claims) = Some expected))
       || negb (bool_decide (ai_nonce claims = Some expected_nonce))
       || (bool_decide (is_Some (ai_email claims)) && negb (match ai_email_verified claims with Some v => is_true v | None => false end))
    then Err Rejected else Ok claims
  end.

(** [?] on the provider's steps. *)
Definition try_flow {A B} (m : prog Event (flow B) (flow A)) : prog Event (flow B) A :=
  bind m (fun r => match r with Ok a => done_with a | Err e => return_ (Err e) end).

Definition authenticate (identity_token code raw_nonce : str) (expected : AppleClientKind) : prog Event (flow VerifiedAppleGrant) (flow VerifiedAppleGrant) :=
  unless (negb (validate_request_shape identity_token code raw_nonce)) (Err Rejected) ;!
  let! first := try_flow (verify_identity_token identity_token raw_nonce expected) in
  let! exchanged := try_flow (call (AppleExchange (ai_aud first) code) (env_apple_exchange env (ai_aud first) code)) in
  let! confirmed := try_flow (verify_identity_token (at_id_token exchanged) raw_nonce expected) in
  unless (negb (str_eqb (ai_sub confirmed) (ai_sub first)) || negb (str_eqb (ai_aud confirmed) (ai_aud first))) (Err Rejected) ;!
  let given := match ai_email first with Some e => Some e | None => ai_email confirmed end in
  let! email := or_return (Err Rejected) (e ← given; let e := to_lowercase (trim e) in if valid_email e then Some e else None) in
  let refresh := at_refresh_token exchanged in
  unless (is_empty refresh || (MAX_TOKEN_BYTES <? byte_len refresh) || negb (is_ascii refresh)) (Err Rejected) ;!
  done_with (Ok {| vg_subject := ai_sub first; vg_email := email; vg_refresh_token := refresh; vg_client_id := ai_aud confirmed |}).

Definition apple_authorization_url (downstream : StateClaims) (now : Z) : option str :=
  match issue_state (jwt_secret config) downstream now with
  | Err _ => None
  | Ok signed_state =>
    query ← urlencode [(lit "client_id", apple_web_client_id provider); (lit "redirect_uri", web_redirect_uri provider);
      (lit "response_type", lit "code id_token"); (lit "response_mode", lit "form_post"); (lit "scope", lit "email");
      (lit "state", signed_state); (lit "nonce", apple_nonce downstream)];
    Some (lit "https://appleid.apple.com/auth/authorize?" ++ query)
  end.
End Provider.

(** ** Native sign-in *)

Definition unconfigured : Answer := Reply (error_json 503 "apple_sign_in_unavailable").

(** The answer to an authorization Apple did not confirm. *)
Definition flow_error (e : AppleFlowError) : Answer :=
  match e with
  | Rejected => Reply (error_json 401 "invalid_apple_authorization")
  | AppleUnavailable => Reply (error_json 502 "apple_identity_provider_unavailable")
  end.

Definition upsert_apple {R} (grant : VerifiedAppleGrant) : prog Event R (res AccountUpsert) :=
  let g := persistence_grant grant in
  let limit := signup_limit_per_day config in
  call (fun r => Store (SApple g limit r)) (env_apple env g limit).

Definition find_session {R} (user : str) : prog Event R (res (option AccountSession)) := call (FindSession user) (env_session env user).

Definition finish_native_login (grant : VerifiedAppleGrant) : prog Event Answer Answer :=
  let! upsert := upsert_apple grant in
  match upsert with
  | Err SignupLimited => reply (error_json 429 "signup_limit_reached")
  | Err (Errors.Auth _) | Err (Conflict _) => reply (error_json 403 "account_unavailable")
  | Err _ => reply server_error
  | Ok u =>
    let user := account_id (account u) in
    let! issued := invoke (issue_native_session sha256 config env user) in
    match issued with
    | Err _ => reply server_error
    | Ok (access, refresh) =>
      let! found := find_session user in
      match found with
      | Ok (Some session) =>
        done_with (Reply (no_store_json (object [("access_token", VString access); ("token_type", VString (lit "bearer")); ("expires_in", of_Z 900);
          ("refresh_token", VString refresh); ("account_id", VString user); ("email", VString (email (account u)));
          ("provider", VString (lit "apple")); ("provider_subject", VString (vg_subject grant)); ("providers", of_strs (providers session));
          ("issuer", VString (base_url config))]%string)))
      | _ => reply server_error
      end
    end
  end.

Definition native_login (body : AppleAuthorizationBody) : prog Event Answer Answer :=
  let! provider := or_return unconfigured (apple_provider config) in
  let! grant := invoke (authenticate provider (ab_identity_token body) (ab_authorization_code body) (ab_nonce body) Native) in
  match grant with
  | Ok grant => finish_native_login grant
  | Err e => return_ (flow_error e)
  end.

(** ** Web sign-in *)

Definition apple_unconfigured : Answer :=
  Page 503 "Apple sign-in unavailable" "Sign in with Apple has not been configured for this Kioku deployment.".

Definition with_nonce (nonce : str) (s : StateClaims) : StateClaims :=
  {| s_client_id := s_client_id s; s_redirect_uri := s_redirect_uri s; s_client_state := s_client_state s; s_code_challenge := s_code_challenge s;
     s_resource := s_resource s; apple_nonce := nonce; apple_link_user_id := apple_link_user_id s; s_exp := s_exp s |}.

Definition web_authorize (q : AuthorizeQuery) : prog Event Answer Answer :=
  let! provider := or_return apple_unconfigured (apple_provider config) in
  let! ensured := ensure_first_party env native_client in
  unless (match ensured with Ok _ => false | Err _ => true end) (Reply server_error) ;!
  let! ensured := ensure_first_party env (web_client config) in
  unless (match ensured with Ok _ => false | Err _ => true end) (Reply server_error) ;!
  let! validated := invoke (validated_authorization_request parse_uri config env q) in
  match validated with
  | Err response => reply response
  | Ok state =>
    let! nonce := random_token_hex env in
    let! now := clock env in
    let! location := or_return (Reply server_error) (apple_authorization_url provider (with_nonce nonce state) now) in
    done_with (redirect_302 location)
  end.

Definition begin_web_link (user : str) : prog Event Answer Answer :=
  let! provider := or_return unconfigured (apple_provider config) in
  let! nonce := random_token_hex env in
  let downstream := {| s_client_id := []; s_redirect_uri := []; s_client_state := []; s_code_challenge := []; s_resource := [];
                       apple_nonce := nonce; apple_link_user_id := user; s_exp := 0 |} in
  let! now := clock env in
  let! url := or_return (Reply server_error) (apple_authorization_url provider downstream now) in
  done_with (Reply (no_store_json (object [("authorize_url", VString url)]%string))).

Definition web_link_redirect (status : string) : Answer :=
  Reply {| status := 303; headers := [(lit "location", web_origin config ++ lit "/app/apple-link-callback?status=" ++ lit status)]; body := NoBody |}.

Definition link_identity {R} (user : str) (grant : VerifiedAppleGrant) : prog Event R (res unit) :=
  let g := persistence_grant grant in call (fun r => Store (SLink user g r)) (env_link env user g).

Definition finish_web_link (user : str) (grant : VerifiedAppleGrant) : prog Event Answer Answer :=
  let! linked := link_identity user grant in
  done_with (web_link_redirect match linked with
    | Ok _ => "linked"
    | Err (Conflict _) => "already-linked"
    | Err (Errors.Auth _) => "account-unavailable"
    | Err _ => "failed"
    end%string).

Definition failed (status : Z) (message : string) : Answer := Page status "Authentication failed" message.

(** The state that came back, with the nonce Apple was given. *)
Definition callback_state (signed_state : str) (now : Z) : option StateClaims :=
  state ← first_accepting (verify_state signed_state now) (jwt_secrets config);
  if valid_nonce (apple_nonce state) then Some state else None.

Definition web_callback (body : str) : prog Event Answer Answer :=
  let! form := or_return (failed 400 "Apple returned an invalid authorization response.") (pairs ← form_pairs body; callback_form pairs) in
  let! signed_state := or_return (failed 400 "Apple's response was missing the authorization state.") (aw_state form) in
  let! now := clock env in
  let! downstream := or_return (failed 400 "The Apple authorization request is invalid or expired.") (callback_state signed_state now) in
  let linking := negb (is_empty (apple_link_user_id downstream)) in
  unless (bool_decide (is_Some (aw_error form)))
    (if linking then web_link_redirect "cancelled" else failed 400 "Sign in with Apple was not completed.") ;!
  let missing := failed 400 "Apple's response was missing required authorization values." in
  let! code := or_return missing (aw_code form) in
  let! identity_token := or_return missing (aw_id_token form) in
  let! provider := or_return (Page 503 "Apple sign-in unavailable" "Sign in with Apple is temporarily unavailable.") (apple_provider config) in
  let! grant := invoke (authenticate provider identity_token code (apple_nonce downstream) Web) in
  match grant with
  | Err Rejected => return_ (failed 401 "Apple's authorization could not be verified.")
  | Err AppleUnavailable => return_ (failed 502 "Apple could not complete authentication right now.")
  | Ok grant =>
    if linking then finish_web_link (apple_link_user_id downstream) grant
    else
      let! upsert := upsert_apple grant in
      match upsert with
      | Ok u => begin_authorization_consent sha256 parse_uri config env downstream (account_id (account u))
      | Err SignupLimited => return_ signup_limited_page
      | Err _ => page 403 "Access denied" "This account is unavailable."
      end
  end.

(** ** The session and the link of a signed-in user *)

Definition session (user : str) : prog Event Answer Answer :=
  let! found := find_session user in
  match found with
  | Ok (Some session) =>
    done_with (Reply (no_store_json (object [("account_id", VString user); ("email", VString (email (session_account session)));
      ("issuer", VString (base_url config)); ("providers", of_strs (providers session))]%string)))
  | Ok None => reply (error_json 403 "account_unavailable")
  | Err _ => reply server_error
  end.

Definition link (user : str) (body : AppleAuthorizationBody) : prog Event Answer Answer :=
  let! provider := or_return unconfigured (apple_provider config) in
  let! grant := invoke (authenticate provider (ab_identity_token body) (ab_authorization_code body) (ab_nonce body) Native) in
  match grant with
  | Err e => return_ (flow_error e)
  | Ok grant =>
    let! linked := link_identity user grant in
    match linked with
    | Ok _ =>
      let! found := find_session user in
      let shown := match found with Ok (Some session) => providers session | _ => [lit "apple"] end in
      done_with (Reply (no_store_json (object [("linked", VBool true); ("providers", of_strs shown)]%string)))
    | Err (Conflict _) => reply (error_json 409 "apple_identity_already_linked")
    | Err (Errors.Auth _) => reply (error_json 403 "account_unavailable")
    | Err _ => reply server_error
    end
  end.
End Handlers.
