(* ===== verification/Interleave.v ===== *)
(** * Interleavings

    Handlers run concurrently: the trace of a server interleaves the traces of
    its runs, each of which may have stopped at any of its calls.  What
    justifies an event within its run justifies it in the interleaving. *)
From Stdlib Require Import Lia.
From S2P Require Import Prelude Effects Tickets.

Section Interleavings.
Context {Event : Type}.

(** A run starts, or takes its next step. *)
Inductive interleaves : list (list Event) -> list Event -> Prop :=
| interleaves_none : interleaves [] []
| interleaves_start runs h : interleaves runs h -> interleaves (runs ++ [[]]) h
| interleaves_step runs h i l e : interleaves runs h -> runs !! i = Some l -> interleaves (<[i := l ++ [e]]> runs) (h ++ [e]).

(** The events of a run are events of the trace. *)
Lemma interleaves_run runs h l : interleaves runs h -> l ∈ runs -> l ⊆ h.
Proof.
  intros Hi; revert l; induction Hi as [|runs h Hi IH|runs h i l0 e Hi IH Hl]; intros l Hin.
  - by apply not_elem_of_nil in Hin.
  - apply elem_of_app in Hin as [Hin|Hin]; [by apply IH |]; apply list_elem_of_singleton in Hin as ->; by intros x Hx%not_elem_of_nil.
  - apply list_elem_of_lookup in Hin as (j & Hj); destruct (decide (i = j)) as [<-|Hne].
    + rewrite list_lookup_insert_eq in Hj by (by eapply lookup_lt_Some); injection Hj as <-.
      assert (l0 ⊆ h) by (by apply IH, (list_elem_of_lookup_2 _ i)); set_solver.
    + rewrite list_lookup_insert_ne in Hj by done; apply list_elem_of_lookup_2, IH in Hj; set_solver.
Qed.

Lemma always_prefix (P : list Event -> Event -> Prop) l l' : always P (l ++ l') -> always P l.
Proof. intros H h1 e h2 ->; apply (H h1 e (h2 ++ l')); by rewrite <- app_assoc. Qed.

(** A property of runs that their beginnings share. *)
Lemma interleaves_always (P : list Event -> Event -> Prop) runs h :
  (forall h1 h2 e, h1 ⊆ h2 -> P h1 e -> P h2 e) -> interleaves runs h -> (forall l, l ∈ runs -> always P l) -> always P h.
Proof.
  intros mono Hi; induction Hi as [|runs h Hi IH|runs h i l e Hi IH Hl]; intros all.
  - apply always_nil.
  - apply IH; intros l Hin; apply all; set_solver.
  - assert (Hnew : l ++ [e] ∈ <[i:=l ++ [e]]> runs)
      by (apply (list_elem_of_lookup_2 _ i), list_lookup_insert_eq; by eapply lookup_lt_Some).
    apply always_snoc.
    + apply IH; intros l' Hin; apply list_elem_of_lookup in Hin as (j & Hj); destruct (decide (i = j)) as [<-|Hne].
      * assert (l' = l) as -> by congruence; by eapply always_prefix, all.
      * apply all, (list_elem_of_lookup_2 _ j); by rewrite list_lookup_insert_ne.
    + apply (mono l); [by eapply interleaves_run, list_elem_of_lookup_2 |]; by apply (all _ Hnew l e []).
Qed.

(** Runs one after the other. *)
Lemma interleaves_append runs h l : interleaves runs h -> interleaves (runs ++ [l]) (h ++ l).
Proof.
  intros Hi; induction l as [|e l IH] using rev_ind; [rewrite app_nil_r; by constructor |].
  rewrite app_assoc; replace (runs ++ [l ++ [e]]) with (<[length runs := l ++ [e]]> (runs ++ [l])).
  - apply interleaves_step; [done |]; by rewrite lookup_app_r, Nat.sub_diag.
  - rewrite insert_app_r_alt, Nat.sub_diag by done; done.
Qed.

Lemma interleaves_sequence runs : interleaves runs (concat runs).
Proof.
  induction runs as [|l runs IH] using rev_ind; [constructor |]; rewrite concat_app; simpl; rewrite app_nil_r; by apply interleaves_append.
Qed.

(** An interleaving has as many events of a kind as its runs together. *)
Lemma interleaves_tally (p : Event -> bool) runs h : interleaves runs h -> tally p h = sum_of (tally p) runs.
Proof.
  induction 1 as [|runs h Hi IH|runs h i l e Hi IH Hl]; [done | rewrite sum_of_app, IH; change (sum_of (tally p) [[]]) with 0%nat; lia |].
  assert (H0 := sum_of_insert (tally p) runs i l (l ++ [e]) Hl); rewrite tally_app in H0; rewrite tally_app; lia.
Qed.
End Interleavings.
