(* ===== verification/OAuthTheorems.v ===== *)
(** * What a token stands for

    The handlers of [OAuth], [Apple] and [Auth] as they run concurrently over
    the account database: every call of a handler is justified by the calls
    before it, the database explains every grant, and together an access
    token stands for a sign-in, an approval and a proof of possession. *)
From stdpp Require Import gmap.
From Stdlib Require Import ZArith Lia.
From S2P Require Import Prelude OrdMap Text Errors Bytes Json Net Effects Interleave Tickets Txn AccountDb Identity Lifecycle OAuthStore AccountLedger AccountTheorems Tokens Http AuthEnv Auth OAuth Apple.
Local Open Scope Z_scope.
Local Open Scope kioku_scope.

(** ** Rules for handlers *)

Section Rules.
Context {R : Type} (P : list Event -> Event -> Prop) {returned : R -> list Event -> Prop} {panicked : list Event -> Prop}.

#[local] Abbreviation runs h m post := (follows (extends P) h m post returned panicked).

Lemma runs_assoc {A B C} h (m : prog Event R A) (f : A -> prog Event R B) (k : B -> prog Event R C) post :
  runs h (let! a := m in let! b := f a in k b) post -> runs h (let! b := (let! a := m in f a) in k b) post.
Proof. intros H h0; destruct (H h0) as (h' & s' & E & st & Hp); exists h', s'; unfold bind in *; by destruct (m h0) as [[a|r|] h1]. Qed.

Lemma runs_weaken {A} h (m : prog Event R A) (post post' : A -> list Event -> Prop) (returned' : R -> list Event -> Prop) :
  follows (extends P) h m post returned' panicked -> (forall a h', post a h' -> post' a h') -> (forall r h', returned' r h' -> returned r h') ->
  runs h m post'.
Proof. intros H Hp Hr h0; destruct (H h0) as (h' & s' & E & st & Q); exists h', s'; split_and!; [done | done |]; destruct (m h0).1; auto. Qed.

Lemma runs_return {A B} h (r : R) (k : A -> prog Event R B) post : returned r h -> runs h (bind (return_ r) k) post.
Proof. intros H h0; exists [], h; cbn; rewrite app_nil_r; auto using steps_nil. Qed.

Lemma runs_if {A} h (c : bool) (r : R) (k : unit -> prog Event R A) post :
  (c = true -> returned r h) -> (c = false -> runs h (k tt) post) -> runs h (bind (unless c r) k) post.
Proof. destruct c; intros Ht Hf; [by apply runs_return, Ht | exact (Hf eq_refl)]. Qed.

Lemma runs_option {A B} h (o : option A) (r : R) (k : A -> prog Event R B) post :
  (o = None -> returned r h) -> (forall a, o = Some a -> runs h (k a) post) -> runs h (bind (or_return r o) k) post.
Proof. destruct o as [a|]; intros Hn Hs; [exact (Hs a eq_refl) | by apply runs_return, Hn]. Qed.

Lemma runs_clock {A} h env (k : Z -> prog Event R A) post :
  (forall n, P h (Clock n)) -> (forall n, runs (h ++ [Clock n]) (k (Z.of_N n)) post) -> runs h (bind (clock env) k) post.
Proof. intros H1 H2; apply runs_assoc, then_call; [exact H1 | intros n; exact (H2 n)]. Qed.

Lemma runs_invoke {R' B} h (m : prog Event R' R') (mid : R' -> list Event -> Prop) (k : R' -> prog Event R B) post :
  follows (extends P) h m mid mid panicked -> (forall r h', mid r h' -> runs h' (k r) post) -> runs h (bind (invoke m) k) post.
Proof. intros Hm Hk; eapply follows_bind; [by apply follows_invoke | exact Hk]. Qed.
End Rules.

(** One step of a handler. *)
Ltac serve_step :=
  lazymatch goal with
  | |- follows _ _ (bind (clock _) _) _ _ _ => apply runs_clock; intros ?
  | |- follows _ _ (bind (call _ _) _) _ _ _ => apply then_call; intros ?
  | |- follows _ _ (bind (done_with ?a) ?k) _ _ _ => change (bind (done_with a) k) with (k a); cbv beta
  | |- follows _ _ (bind (return_ _) _) _ _ _ => apply runs_return
  | |- follows _ _ (bind (unless _ _) _) _ _ _ => apply runs_if; intros ?
  | |- follows _ _ (bind (or_return _ _) _) _ _ _ => apply runs_option; [intros ? | intros ? ?]
  | |- follows _ _ (bind (bind _ _) _) _ _ _ => apply runs_assoc
  | |- follows _ _ (bind (match ?x with _ => _ end) _) _ _ _ => destruct x eqn:?
  | |- follows _ _ (let _ := _ in _) _ _ _ => cbv zeta
  | |- follows _ _ (match ?x with _ => _ end) _ _ _ => destruct x eqn:?
  | |- follows _ _ (done_with _) _ _ _ => apply follows_done
  | |- follows _ _ (return_ _) _ _ _ => apply follows_return
  end.

(** An event of a trace just extended. *)
Ltac in_trace := repeat (apply elem_of_app; first [by right; apply list_elem_of_singleton | left]); try eassumption.

(** How a run ended. *)
Definition answer_of {A} (o : outcome A A) : option A := match o with Continue a | Return a => Some a | Panicked => None end.

Lemma answer_post {A} (P : list Event -> Event -> Prop) (m : prog Event A A) (post : A -> list Event -> Prop) o l a :
  (forall h, follows (extends P) h m post post (fun _ => True)) -> m [] = (o, l) -> answer_of o = Some a -> post a l.
Proof.
  intros H Hm Ho; destruct (history_run _ _ _ _ _ (H []) []) as (l' & E & _ & Hp); rewrite Hm in E, Hp; simpl in *; subst l'.
  by destruct o; simpl in *; [injection Ho as -> | injection Ho as -> |].
Qed.

(** ** The middleware *)

(** A call that gives no grant. *)
Definition gives_nothing (e : Event) : Prop := match e with Store x => moves_grants x = false | _ => True end.

Section Middleware.
Context (sha256 : bytes -> bytes) `{J : Jwt} `{U : Unicode} (config : Config) (env : Env).
(** Calls that give no grant need no justification. *)
Context (P : list Event -> Event -> Prop).
Hypothesis free : forall h e, gives_nothing e -> P h e.

#[local] Abbreviation serves h m post := (follows (extends P) h m post post (fun _ => True)).

Ltac no_tokens := try exact I; try (apply free; done); try (intros ? ? ?; discriminate).

(** A verified Google identity. *)
Definition verified_google (h : list Event) (v : VerifiedUserToken) : Prop :=
  exists token claims, GoogleDecode token (Ok claims) ∈ h /\ email_verified claims = true /\ subject v = uc_sub claims /\ vt_email v = uc_email claims.

Lemma serves_google token h :
  serves h (verify_with_evidence config env token) (fun r h' => match r with Ok v => verified_google h' v | Err _ => True end).
Proof.
  unfold verify_with_evidence; serve_step; [exact I |].
  apply then_try_call; [by intros; apply free | done | intros claims]; repeat (serve_step; no_tokens).
  exists token, claims; split_and!; [set_solver | by apply negb_false_iff | done | done].
Qed.

Definition admission_grounded (deletion_status : bool) (a : Admission) (h : list Event) : Prop :=
  forall user evidence, a = Passed user evidence ->
    (exists status, FindStatus user (Ok (Some status)) ∈ h /\ (status = Active \/ deletion_status = true /\ being_deleted status = true))
    \/ (exists subject email limit u, Store (SUpsert subject email limit (Ok u)) ∈ h /\ account_id (account u) = user).

Lemma serves_access_token deletion_status user issued_at h :
  serves h (admit_access_token env deletion_status user issued_at) (admission_grounded deletion_status).
Proof.
  unfold admit_access_token, find_status; repeat (serve_step; no_tokens).
  intros user' evidence [= <- <-]; left; eexists; split; [in_trace |].
  match goal with E : _ || _ = true |- _ => apply orb_true_iff in E as [Hs|Hs] end;
    [left; by apply bool_decide_eq_true in Hs | right; by apply andb_true_iff in Hs].
Qed.

Lemma serves_admit_google deletion_status v h :
  serves h (admit_google config env sha256 deletion_status v) (admission_grounded deletion_status).
Proof.
  unfold admit_google, find_status; repeat (serve_step; no_tokens).
  all: intros user evidence [= <- <-].
  all: first [right; do 4 eexists; split; [in_trace | reflexivity] | left; eexists; split; [in_trace | by right]].
Qed.

Lemma serves_auth method path authorization h :
  serves h (require_auth config env sha256 method path authorization) (admission_grounded (deletion_status_access method path)).
Proof.
  unfold require_auth; do 2 (serve_step; no_tokens); case_match.
  - case_match; subst; eapply runs_weaken; [apply serves_access_token | done | done].
  - eapply runs_invoke; [apply serves_google | intros r h' _]; case_match; [| by serve_step].
    eapply runs_weaken; [apply serves_admit_google | done | done].
Qed.
End Middleware.

Section Theorems.
Context (sha256 : bytes -> bytes) (base64url : bytes -> str) `{J : Jwt} {JL : JwtLaws} `{U : Unicode}.
Context (parse_uri : str -> option Uri) (urlencode : list (str * str) -> option str) (form_pairs : str -> option (list (str * str))).
Context (config : Config).

#[local] Abbreviation digest := (sha256_hex sha256).
#[local] Abbreviation pkce := (pkce_s256 sha256 base64url).
#[local] Abbreviation secret := (jwt_secret config).
#[local] Abbreviation secrets := (jwt_secrets config).

(** ** What a trace shows *)

(** A user signed in: Google's token, signed for us and of a verified
    address, gave the subject. *)
Definition google_signed_in (user : str) (h : list Event) : Prop :=
  exists token claims limit u, GoogleDecode token (Ok claims) ∈ h /\ email_verified claims = true
    /\ Store (SUpsert (uc_sub claims) (uc_email claims) limit (Ok u)) ∈ h /\ account_id (account u) = user.

(** Apple's token gave the subject, for a client of this kind, under a nonce
    of ours; and Apple exchanged the code. *)
Definition apple_signed_in (expected : AppleClientKind) (user : str) (h : list Event) : Prop :=
  exists provider token claims nonce code tokens grant limit u, apple_provider config = Some provider
    /\ AppleDecode token (Ok claims) ∈ h /\ client_kind provider (ai_aud claims) = Some expected
    /\ ai_nonce claims = Some (match expected with Native => digest nonce | Web => nonce end)
    /\ AppleExchange (ai_aud claims) code (Ok tokens) ∈ h
    /\ Store (SApple grant limit (Ok u)) ∈ h /\ g_subject grant = ai_sub claims /\ account_id (account u) = user.

(** The configured reviewer signed in. *)
Definition reviewer_signed_in (user : str) (h : list Event) : Prop :=
  exists reviewer token users id email limit u, reviewer_verifier config = Some reviewer
    /\ ReviewerLookup token (Ok users) ∈ h /\ exact_reviewer_identity reviewer users = Ok (id, email)
    /\ Store (SUpsert (reviewer_identity_subject id) email limit (Ok u)) ∈ h /\ account_id (account u) = user.

(** A consent page was made for a user who signed in, from the state of an
    authorization request. *)
Definition consent_asked (c : PendingConsent) (state : StateClaims) (token : str) (h : list Event) : Prop :=
  (exists jwt now, first_accepting (verify_state jwt now) secrets = Some state)
  /\ (google_signed_in (pc_account c) h \/ apple_signed_in Web (pc_account c) h)
  /\ (exists now, issue_consent secret {| cc_user_id := pc_account c; cc_client_id := s_client_id state; cc_redirect_uri := s_redirect_uri state;
        cc_client_state := s_client_state state; cc_code_challenge := s_code_challenge state; cc_resource := s_resource state; cc_exp := 0 |}
        (Z.of_N now) = Ok token)
  /\ pc_consent_hash c = digest token /\ pc_client c = s_client_id state /\ pc_redirect_uri c = s_redirect_uri state.

(** The form says approve, and carries the consent's token. *)
Definition approval_given (a : ConsentApproval) (claims : ConsentClaims) (code : str) : Prop :=
  exists body pairs form token now, form_pairs body = Some pairs /\ consent_form pairs = Some form
    /\ cf_decision form = Some (lit "approve") /\ cf_consent_token form = Some token
    /\ first_accepting (verify_consent token now) secrets = Some claims /\ ap_consent_hash a = digest token
    /\ (exists now', issue_auth_code secret (cc_user_id claims) (cc_client_id claims) (cc_code_challenge claims) (cc_resource claims) (Z.of_N now') = Ok code)
    /\ ap_code_hash a = digest code /\ ap_account a = cc_user_id claims /\ ap_client a = cc_client_id claims /\ ap_redirect_uri a = cc_redirect_uri claims.

(** A reviewer's code. *)
Definition code_bridged (c : DirectAuthorizationCode) (challenge code : str) (h : list Event) : Prop :=
  reviewer_signed_in (dc_account c) h
  /\ (exists resource now, issue_auth_code secret (dc_account c) (dc_client c) challenge resource (Z.of_N now) = Ok code)
  /\ dc_code_hash c = digest code.

(** The code names the account and the client, and the verifier is the one
    its challenge was made of. *)
Definition possession_proved (x : AuthorizationCodeExchange) (code verifier : str) : Prop :=
  exists now claims, first_accepting (verify_auth_code code now) secrets = Some claims
    /\ pkce verifier = ac_code_challenge claims /\ ex_code_hash x = digest code
    /\ ex_account x = ac_user_id claims /\ ex_client x = ac_client_id claims.

(** What justifies an event of a handler. *)
Definition justified (h : list Event) (e : Event) : Prop :=
  match e with
  | Store (SConsent c _) => exists state token, consent_asked c state token h
  | Store (SApprove a _) => exists claims code, approval_given a claims code
  | Store (SDirect c _) => exists challenge code, code_bridged c challenge code h
  | Store (SExchange x _) => exists code verifier, possession_proved x code verifier
  | Store (SNative n _) => apple_signed_in Native (ns_account n) h /\ cd_id (ns_client n) = FIRST_PARTY_NATIVE_CLIENT_ID
  | _ => True
  end.

#[local] Instance google_signed_in_mono user : Monotone (google_signed_in user).
Proof. unfold google_signed_in; monotone_by_shape. Qed.
#[local] Instance apple_signed_in_mono k user : Monotone (apple_signed_in k user).
Proof. unfold apple_signed_in; monotone_by_shape. Qed.
#[local] Instance reviewer_signed_in_mono user : Monotone (reviewer_signed_in user).
Proof. unfold reviewer_signed_in; monotone_by_shape. Qed.
#[local] Instance consent_asked_mono c state token : Monotone (consent_asked c state token).
Proof. unfold consent_asked; monotone_by_shape. Qed.
#[local] Instance code_bridged_mono c challenge code : Monotone (code_bridged c challenge code).
Proof. unfold code_bridged; monotone_by_shape. Qed.

Lemma justified_mono h h' e : h ⊆ h' -> justified h e -> justified h' e.
Proof.
  intros Hs; destruct e as [e| | | | | | | | | | |]; try done; destruct e; try done; simpl.
  - intros (state & token & Hc); exists state, token; by eapply consent_asked_mono.
  - intros (challenge & code & Hc); exists challenge, code; by eapply code_bridged_mono.
  - intros [Ha Hc]; split; [by eapply apple_signed_in_mono | done].
Qed.

Lemma nothing_justified h e : gives_nothing e -> justified h e.
Proof. destruct e as [e| | | | | | | | | | |]; try done; by destruct e. Qed.

(** ** The handlers *)

Section Handlers.
Context (env : Env).

(** From any history, the handler's events are justified; how it ends. *)
#[local] Abbreviation serves h m post := (follows (extends justified) h m post post (fun _ => True)).
#[local] Abbreviation anyway := (fun _ _ => True).

Ltac serve :=
  unfold reply, page, find_client, random_token_hex, ensure_first_party, upsert_apple, link_identity, find_session, find_status;
  repeat (serve_step; try exact I).

Lemma serves_registration b h : serves h (register parse_uri env b) (fun _ _ => True).
Proof. unfold register, reply; serve. Qed.

Lemma serves_request q h : serves h (validated_authorization_request parse_uri config env q) (fun _ _ => True).
Proof. unfold validated_authorization_request, find_client; serve. Qed.

Lemma serves_authorize q h : serves h (authorize parse_uri urlencode config env q) (fun _ _ => True).
Proof.
  unfold authorize, ensure_first_party, reply; serve.
  all: eapply runs_invoke; [apply serves_request | intros r h' _]; serve.
Qed.

Lemma serves_consent_page state user jwt now h :
  first_accepting (verify_state jwt now) secrets = Some state -> (google_signed_in user h \/ apple_signed_in Web user h) ->
  serves h (begin_authorization_consent sha256 parse_uri config env state user) (fun _ _ => True).
Proof.
  intros Hv Hs; unfold begin_authorization_consent, find_client, page; serve.
  exists state; match goal with Hi : issue_consent _ _ (Z.of_N ?n) = Ok ?t |- _ => exists t; split_and!; [by exists jwt, now | | by exists n | done..] end.
  simpl; destruct Hs as [Hs|Hs]; [left; eapply google_signed_in_mono, Hs | right; eapply apple_signed_in_mono, Hs]; set_solver.
Qed.

Lemma serves_google_callback q h : serves h (google_callback sha256 parse_uri config env q) (fun _ _ => True).
Proof.
  unfold google_callback; serve.
  all: eapply runs_invoke; [apply (serves_google sha256), nothing_justified | intros r h' Hr]; serve.
  match goal with Hv : first_accepting (verify_state ?jwt (Z.of_N ?n)) _ = _ |- _ => eapply (serves_consent_page _ _ jwt (Z.of_N n)); [exact Hv |] end.
  left; destruct Hr as (token & claims & Hd & He & Hs & Hm); rewrite Hs, Hm.
  exists token, claims, (signup_limit_per_day config); eexists; split_and!; [set_solver | done | apply elem_of_app; right; by apply list_elem_of_singleton | done].
Qed.

(** A grant Apple confirmed. *)
Definition confirmed_grant (provider : AppleSignInConfig) (expected : AppleClientKind) (h : list Event) (g : VerifiedAppleGrant) : Prop :=
  exists token claims nonce code tokens, AppleDecode token (Ok claims) ∈ h /\ client_kind provider (ai_aud claims) = Some expected
    /\ ai_nonce claims = Some (match expected with Native => digest nonce | Web => nonce end)
    /\ AppleExchange (ai_aud claims) code (Ok tokens) ∈ h /\ vg_subject g = ai_sub claims.

(** An identity token for our client and nonce. *)
Definition identity_token_ours (provider : AppleSignInConfig) (nonce : str) (expected : AppleClientKind) (h : list Event) (c : AppleIdClaims) : Prop :=
  exists token, AppleDecode token (Ok c) ∈ h /\ client_kind provider (ai_aud c) = Some expected
    /\ ai_nonce c = Some (match expected with Native => digest nonce | Web => nonce end).

Lemma serves_identity_token {R} provider token nonce expected h (returned : R -> list Event -> Prop) :
  follows (extends justified) h (verify_identity_token sha256 env provider token nonce expected)
    (fun r h' => h ⊆ h' /\ match r with Ok c => identity_token_ours provider nonce expected h' c | Err _ => True end) returned (fun _ => True).
Proof.
  unfold verify_identity_token; serve_step; [exact I |].
  destruct a as [claims|e]; serve_step; (split; [set_solver |]); [| exact I].
  match goal with |- context [if ?c then _ else _] => destruct c eqn:E end; [exact I |].
  rewrite !orb_false_iff, !negb_false_iff, !bool_decide_eq_true in E; destruct E as [[[[_ _] Hk] Hn] _].
  exists token; split_and!; [set_solver | done | done].
Qed.

Lemma runs_try_flow {A B C} h (m : prog Event (result AppleFlowError B) (result AppleFlowError A)) (mid : A -> list Event -> Prop)
    (k : A -> prog Event (result AppleFlowError B) C) post returned :
  follows (extends justified) h m (fun r h' => match r with Ok a => mid a h' | Err e => returned (Err e) h' end) returned (fun _ => True) ->
  (forall a h', mid a h' -> follows (extends justified) h' (k a) post returned (fun _ => True)) ->
  follows (extends justified) h (bind (try_flow m) k) post returned (fun _ => True).
Proof.
  intros Hm Hk; unfold try_flow; apply runs_assoc; eapply follows_bind; [exact Hm |]; intros [a|e] h' Hp; [by apply Hk | by apply runs_return].
Qed.

Lemma serves_authenticate provider identity_token code nonce expected h :
  serves h (authenticate sha256 env provider identity_token code nonce expected)
    (fun r h' => match r with Ok g => confirmed_grant provider expected h' g | Err _ => True end).
Proof.
  unfold authenticate; serve_step; [exact I |].
  apply (runs_try_flow _ _ (fun c h' => identity_token_ours provider nonce expected h' c)).
  { eapply follows_weaken; [apply serves_identity_token |]; intros [c|e] h' [_ Hc]; [exact Hc | exact I]. }
  intros first h1 (token & Hd & Hk & Hn).
  apply (runs_try_flow _ _ (fun t h' => h' = h1 ++ [AppleExchange (ai_aud first) code (Ok t)])).
  { apply history_call; [done |]; by intros [t|e]. }
  intros exchanged h2 ->; apply (runs_try_flow _ _ (fun _ h' => h1 ++ [AppleExchange (ai_aud first) code (Ok exchanged)] ⊆ h')).
  { eapply follows_weaken; [apply serves_identity_token |]; intros [c|e] h' [Hsub _]; [exact Hsub | exact I]. }
  intros confirmed h3 Hsub; serve; exists token, first, nonce, code, exchanged; split_and!; [set_solver | done | done | set_solver | done].
Qed.

Lemma apple_grant_signed_in provider expected g h limit u :
  apple_provider config = Some provider -> confirmed_grant provider expected h g ->
  apple_signed_in expected (account_id (account u)) (h ++ [Store (SApple (persistence_grant g) limit (Ok u))]).
Proof.
  intros Hp (token & claims & nonce & code & tokens & Hd & Hk & Hn & He & Hs).
  exists provider, token, claims, nonce, code, tokens, (persistence_grant g), limit, u.
  split_and!; [done | set_solver | done | done | set_solver | apply elem_of_app; right; by apply list_elem_of_singleton | done | done].
Qed.

Lemma serves_web_callback body h : serves h (web_callback sha256 parse_uri form_pairs config env body) (fun _ _ => True).
Proof.
  unfold web_callback, finish_web_link; serve.
  all: eapply runs_invoke; [apply serves_authenticate | intros r h' Hr]; serve.
  match goal with Hc : callback_state config ?jwt (Z.of_N ?n) = Some _ |- _ => unfold callback_state in Hc; apply bind_Some in Hc as (state & Hv & Hc) end.
  case_match; [| done]; match goal with E : Some _ = Some _ |- _ => injection E as -> end.
  eapply serves_consent_page; [exact Hv | right; by eapply apple_grant_signed_in].
Qed.

Lemma serves_session user h : (apple_signed_in Native user h) ->
  serves h (issue_native_session sha256 config env user) (fun _ _ => True).
Proof.
  intros Hs; unfold issue_native_session, access_token; unfold try_ at 1; serve.
  unfold try_; serve; split; [| done]; simpl; eapply apple_signed_in_mono, Hs; set_solver.
Qed.

Lemma serves_native_login body h : serves h (native_login sha256 config env body) (fun _ _ => True).
Proof.
  unfold native_login, finish_native_login; serve.
  all: eapply runs_invoke; [apply serves_authenticate | intros r h' Hr]; serve.
  eapply runs_invoke; [eapply serves_session; by eapply apple_grant_signed_in | intros issued h'' _]; serve.
Qed.

Lemma serves_web_authorize q h : serves h (web_authorize parse_uri urlencode config env q) (fun _ _ => True).
Proof.
  unfold web_authorize; serve.
  all: eapply runs_invoke; [apply serves_request | intros r h' _]; serve.
Qed.

Lemma serves_web_link user h : serves h (begin_web_link urlencode config env user) (fun _ _ => True).
Proof. unfold begin_web_link; serve. Qed.

Lemma serves_account_session user h : serves h (Apple.session config env user) (fun _ _ => True).
Proof. unfold Apple.session; serve. Qed.

Lemma serves_link user body h : serves h (link sha256 config env user body) (fun _ _ => True).
Proof.
  unfold link; serve.
  all: eapply runs_invoke; [apply serves_authenticate | intros r h' _]; serve.
Qed.

Lemma serves_reviewer reviewer token h :
  serves h (verify_reviewer env reviewer token)
    (fun r h' => match r with Ok x => exists users, ReviewerLookup token (Ok users) ∈ h' /\ exact_reviewer_identity reviewer users = Ok x | Err _ => True end).
Proof.
  unfold verify_reviewer; serve_step; [exact I |].
  apply then_try_call; [done | done | intros users]; serve_step; case_match; [| exact I]; exists users; split; [set_solver | done].
Qed.

Lemma serves_reviewer_login origin b h :
  serves h (reviewer_login sha256 parse_uri urlencode config env origin b) (fun _ _ => True).
Proof.
  unfold reviewer_login; serve.
  all: eapply runs_invoke; [apply serves_request | intros r h' _]; serve.
  all: eapply runs_invoke; [apply serves_reviewer | intros r' h'' Hr]; serve.
  destruct Hr as (users & Hl & Hx); match goal with Hi : issue_auth_code _ _ ?cl ?ch ?re (Z.of_N ?n) = Ok ?c |- _ =>
    exists ch, c; split_and!; [| by exists re, n | done] end.
  match goal with Hv : reviewer_verifier config = Some ?rv |- _ => exists rv end.
  do 6 eexists; split_and!; [done | | exact Hx | | reflexivity]; in_trace.
Qed.

Lemma serves_consent body h : serves h (consent sha256 parse_uri urlencode form_pairs config env body) (fun _ _ => True).
Proof.
  unfold consent; serve.
  match goal with E : (pairs ← form_pairs body; consent_form pairs) = Some ?f |- _ => apply bind_Some in E as (pairs & Hp & Hf) end.
  match goal with Hi : issue_auth_code _ _ _ _ _ (Z.of_N ?n) = Ok ?c, Hv : first_accepting (verify_consent ?t (Z.of_N ?m)) _ = Some ?cl |- _ =>
    exists cl, c, body, pairs; eexists; exists t, (Z.of_N m); split_and!; [exact Hp | exact Hf | | done | exact Hv | done | by exists n | done..] end.
  match goal with Hd : negb (bool_decide _) = false |- _ => by apply negb_false_iff, bool_decide_eq_true in Hd end.
Qed.

(** What stands behind an answer with tokens. *)
Definition token_granted (form : TokenForm) (user client : str) (h : list Event) : Prop :=
  (exists x code verifier, tf_code form = Some code /\ tf_code_verifier form = Some verifier /\ Store (SExchange x (Ok true)) ∈ h
     /\ ex_account x = user /\ ex_client x = client /\ possession_proved x code verifier)
  \/ (exists q token, tf_refresh_token form = Some token /\ Store (SRotate q (Ok (Some user))) ∈ h
     /\ ro_old_token_hash q = digest token /\ ro_client q = client).

Definition token_answered (form : TokenForm) (a : Answer) (h : list Event) : Prop :=
  forall access refresh, a = Reply (token_response access refresh) ->
    exists user client iat exp, tf_client_id form = Some client
      /\ issue_access_token secret (base_url config) user (Z.of_N iat) (Z.of_N exp) = Ok access /\ token_granted form user client h.

(** Errors are no tokens. *)
Lemma not_tokens form status pairs h : status <> 200 -> token_answered form (Reply (json_response status pairs)) h.
Proof. intros Hs access refresh [= E]; by rewrite E in Hs. Qed.

Ltac no_tokens := try exact I; try (intros ? ? ?; discriminate).

Lemma serves_check_code form code claims h :
  follows (extends justified) h (check_code sha256 base64url config form code claims)
    (fun client h' => h' = h /\ tf_client_id form = Some client /\ client = ac_client_id claims
       /\ exists verifier, tf_code_verifier form = Some verifier /\ pkce verifier = ac_code_challenge claims)
    (token_answered form) (fun _ => True).
Proof.
  unfold check_code; repeat (serve_step; no_tokens).
  rewrite !negb_false_iff, !orb_false_iff, !negb_false_iff, !str_eqb_eq in *; destruct_and?; split_and!; eauto.
Qed.

Lemma serves_code form h : serves h (token_auth_code sha256 base64url config env form) (token_answered form).
Proof.
  unfold token_auth_code, reply, random_token_hex, access_token; repeat (serve_step; no_tokens).
  eapply follows_bind; [apply serves_check_code |].
  intros client h' (-> & Hc & -> & verifier & Hv & Hpkce); repeat (serve_step; no_tokens).
  - by exists a, verifier, (Z.of_N n), a0.
  - intros access refresh [= -> ->]; exists (ac_user_id a0), (ac_client_id a0), n0, n1; split_and!; [done | done | left].
    eexists _, a, verifier; split_and!; [done | done | in_trace | done | done | by exists (Z.of_N n), a0].
Qed.

Lemma serves_refresh form h : serves h (token_refresh sha256 config env form) (token_answered form).
Proof.
  unfold token_refresh, reply, random_token_hex, access_token; repeat (serve_step; no_tokens).
  intros access refresh [= -> ->]; match goal with Hc : tf_client_id form = Some ?c, Hi : issue_access_token _ _ ?u (Z.of_N ?i) (Z.of_N ?e) = _ |- _ =>
    exists u, c, i, e end.
  split_and!; [done | done | right]; eexists _, _; split_and!; [done | in_trace | done | done].
Qed.

(** The form a body is read as. *)
Definition read_form (body : str) : option TokenForm := pairs ← form_pairs body; token_form pairs.

Lemma serves_token body h :
  serves h (token sha256 base64url form_pairs config env body)
    (fun a h' => forall access refresh, a = Reply (token_response access refresh) -> exists form, read_form body = Some form /\ token_answered form a h').
Proof.
  unfold token, reply; do 2 (serve_step; no_tokens); case_match; [| case_match; [| by repeat (serve_step; no_tokens)]].
  - eapply runs_weaken; [apply serves_code | |]; intros a0 h' Ha access refresh E; exists a; (split; [done | by apply Ha]).
  - eapply runs_weaken; [apply serves_refresh | |]; intros a0 h' Ha access refresh E; exists a; (split; [done | by apply Ha]).
Qed.

End Handlers.

(** ** The server *)

Inductive Request :=
| PostRegister (b : RegisterBody)
| GetAuthorize (q : AuthorizeQuery)
| GetGoogleCallback (q : CallbackQuery)
| PostReviewerLogin (origin : option str) (b : ReviewerLoginBody)
| PostConsent (body : str)
| PostToken (body : str)
| PostAppleNative (b : AppleAuthorizationBody)
| GetAppleAuthorize (q : AuthorizeQuery)
| PostAppleCallback (body : str)
| GetSession (user : str)
| PostAppleLink (user : str) (b : AppleAuthorizationBody)
| PostAppleWebLink (user : str)
| Middleware (method path : str) (authorization : option str).

(** The calls of a run. *)
Definition trace_of (env : Env) (r : Request) : list Event :=
  match r with
  | PostRegister b => (register parse_uri env b []).2
  | GetAuthorize q => (authorize parse_uri urlencode config env q []).2
  | GetGoogleCallback q => (google_callback sha256 parse_uri config env q []).2
  | PostReviewerLogin origin b => (reviewer_login sha256 parse_uri urlencode config env origin b []).2
  | PostConsent body => (consent sha256 parse_uri urlencode form_pairs config env body []).2
  | PostToken body => (token sha256 base64url form_pairs config env body []).2
  | PostAppleNative b => (native_login sha256 config env b []).2
  | GetAppleAuthorize q => (web_authorize parse_uri urlencode config env q []).2
  | PostAppleCallback body => (web_callback sha256 parse_uri form_pairs config env body []).2
  | GetSession user => (Apple.session config env user []).2
  | PostAppleLink user b => (link sha256 config env user b []).2
  | PostAppleWebLink user => (begin_web_link urlencode config env user []).2
  | Middleware method path authorization => (require_auth config env sha256 method path authorization []).2
  end.

(** A run of a handler, as far as it came. *)
Definition served (l : list Event) : Prop := exists env r rest, trace_of env r = l ++ rest.

(** A run of another component, which gives no grants. *)
Definition elsewhere (l : list Event) : Prop := forall e, Store e ∈ l -> moves_grants e = false.

Lemma always_of {R A} (m : prog Event R A) post (returned : R -> list Event -> Prop) :
  (forall h, follows (extends justified) h m post returned (fun _ => True)) -> always justified (m []).2.
Proof. intros H; destruct (history_run _ _ _ _ _ (H []) []) as (l & -> & Hl & _); done. Qed.

Lemma trace_justified env r : always justified (trace_of env r).
Proof.
  destruct r; simpl; eapply always_of; intros h.
  - apply serves_registration. - apply serves_authorize. - apply serves_google_callback. - apply serves_reviewer_login.
  - apply serves_consent. - apply serves_token. - apply serves_native_login. - apply serves_web_authorize. - apply serves_web_callback.
  - apply serves_account_session. - apply serves_link. - apply serves_web_link. - by apply serves_auth, nothing_justified.
Qed.

Lemma elsewhere_justified l : elsewhere l -> always justified l.
Proof.
  intros He h1 e h2 ->; apply nothing_justified; destruct e as [e| | | | | | | | | | |]; try exact I; apply He; set_solver.
Qed.

(** Every event of the server is justified by the events before it. *)
Lemma server_justified runs h e :
  interleaves runs h -> (forall l, l ∈ runs -> served l \/ elsewhere l) -> e ∈ h -> justified h e.
Proof.
  intros Hi Hall Hin; apply list_elem_of_split in Hin as (h1 & h2 & ->); apply (justified_mono h1); [set_solver |].
  apply (interleaves_always justified _ _ (fun a b x => justified_mono a b x) Hi) with (h2 := h2); [| done].
  intros l Hl; destruct (Hall l Hl) as [(env & r & rest & E)|He]; [| by apply elsewhere_justified].
  apply (always_prefix _ _ rest); rewrite <- E; apply trace_justified.
Qed.

(** *** Over the database *)

Section Database.
Context {Outbox : Type} `{D : Delivery Outbox}.
Implicit Types s : Db Outbox.

(** What a timed event does: a transaction, a read of an account's status, or
    nothing the database sees. *)
Definition does s (e : Z * Event) s' : Prop :=
  match e.2 with
  | Store x => effect sha256 e.1 x s s'
  | FindStatus a r => s' = s /\ (r = Ok (account_status a s) \/ exists x, r = Err x)
  | _ => s' = s
  end.

Definition stores : list (Z * Event) -> list (Z * StoreEvent) :=
  omap (fun e => match e.2 with Store x => Some (e.1, x) | _ => None end).

Lemma stores_app t1 t2 : stores (t1 ++ t2) = stores t1 ++ stores t2.
Proof. unfold stores; by rewrite omap_app. Qed.

Lemma does_stores s t s' : steps does s t s' -> steps (moves sha256) s (stores t) s'.
Proof.
  induction 1 as [s|s [n e] s1 t s2 He _ IH]; [constructor |]; unfold does in He; simpl in He.
  destruct e; simpl in *; [econstructor; [exact He | done] | ..]; try (by subst); destruct He as [-> _]; done.
Qed.

Lemma stores_elem t n x : (n, x) ∈ stores t -> Store x ∈ t.*2.
Proof.
  unfold stores; intros ([m e] & Hin & He)%list_elem_of_omap; simpl in He; destruct e; try done; injection He as <- <-.
  apply list_elem_of_fmap; by exists (m, Store e).
Qed.

(** The position of a transaction in the database's trace. *)
Lemma stores_split t x : Store x ∈ t.*2 -> exists n t1 t2, stores t = stores t1 ++ (n, x) :: stores t2 /\ t1 ++ (n, Store x) :: t2 = t.
Proof.
  intros ([n e] & He & Hin)%list_elem_of_fmap; simpl in He; subst e; apply list_elem_of_split in Hin as (t1 & t2 & ->).
  exists n, t1, t2; split; [| done]; by rewrite stores_app.
Qed.

(** A recorded trace: every answer is the database's. *)
Fixpoint observed s (t : list (Z * Event)) : Prop :=
  match t with
  | [] => True
  | (n, Store x) :: t' => (attempt sha256 n x s).1 /\ observed (attempt sha256 n x s).2 t'
  | (_, FindStatus a r) :: t' => r = Ok (account_status a s) /\ observed s t'
  | _ :: t' => observed s t'
  end.

Lemma observed_does s t : observed s t -> exists s', steps does s t s'.
Proof.
  revert s; induction t as [|[n e] t IH]; intros s; [eexists; constructor |]; simpl.
  destruct e; simpl; try (intros [s' Hs]%IH; exists s'; econstructor; [reflexivity | done]).
  - intros [Ha [s' Hs]%IH]; exists s'; econstructor; [by apply attempt_effect | done].
  - intros [-> [s' Hs]%IH]; exists s'; econstructor; [split; [done | by left] | done].
Qed.

(** ** What authorizes a client *)

(** Two texts with one digest. *)
Definition digest_collision : Prop := exists a b : str, a <> b /\ digest a = digest b.

(** The user signed in at the request of the client with the challenge, and
    approved it; or a reviewer did. *)
Definition authorized (user client challenge : str) (h : list Event) : Prop :=
  (exists state token c rc a ra claims code, Store (SConsent c rc) ∈ h /\ consent_asked c state token h /\ pc_account c = user
     /\ s_client_id state = client /\ s_code_challenge state = challenge
     /\ Store (SApprove a ra) ∈ h /\ approval_given a claims code /\ ap_consent_hash a = pc_consent_hash c)
  \/ (exists d rd code, Store (SDirect d rd) ∈ h /\ code_bridged d challenge code h /\ dc_account d = user /\ dc_client d = client).

Lemma same_digest a b : digest a = digest b -> digest_collision \/ a = b.
Proof. intros E; destruct (decide (a = b)) as [->|Hne]; [by right | left; by exists a, b]. Qed.

Lemma code_claims u cl ch re n code now claims :
  issue_auth_code secret u cl ch re (Z.of_N n) = Ok code -> first_accepting (verify_auth_code code now) secrets = Some claims ->
  ac_user_id claims = u /\ ac_client_id claims = cl /\ ac_code_challenge claims = ch.
Proof. intros Hi (k & _ & Hv)%first_accepting_Some; eapply auth_code_says; [| exact Hi | exact Hv]; lia. Qed.

Lemma consent_claims c n token now claims :
  issue_consent secret c (Z.of_N n) = Ok token -> first_accepting (verify_consent token now) secrets = Some claims ->
  cc_user_id claims = cc_user_id c /\ cc_client_id claims = cc_client_id c /\ cc_code_challenge claims = cc_code_challenge c.
Proof.
  intros Hi (k & _ & Hv)%first_accepting_Some; destruct (consent_says _ _ (Z.of_N n) _ _ _ _ ltac:(lia) Hi Hv) as (? & ? & _ & ? & _); done.
Qed.

(** A code issued by the database's transactions and presented with the
    verifier of its challenge. *)
Lemma exchange_authorized t x code verifier r :
  (forall e, e ∈ t.*2 -> justified t.*2 e) ->
  possession_proved x code verifier -> code_issued (stores t) (ex_code_hash x) r -> co_account r = ex_account x -> co_client r = ex_client x ->
  digest_collision \/ authorized (ex_account x) (ex_client x) (pkce verifier) t.*2.
Proof.
  intros Hall (now & claims & Hv & -> & Hh & -> & ->) [Hissued|Hissued] Ha Hc.
  - destruct Hissued as (n & a & b & consent & Hin & _ & Hcode & -> & (n' & c & rc & Hc' & _ & Hch & ->) & Hca & Hcc & _ & _); simpl in *.
    apply stores_elem in Hin, Hc'; destruct (Hall _ Hin) as (cl & code' & Happ); destruct (Hall _ Hc') as (state & token & Hask).
    assert (Happ' := Happ); destruct Happ' as (_ & _ & _ & token' & now' & _ & _ & _ & _ & Hvc & Hct & (n'' & Hissue) & Hcd & Hau & Hacl & _).
    destruct (same_digest code' code) as [?| ->]; [congruence | by left |].
    destruct (code_claims _ _ _ _ _ _ _ _ Hissue Hv) as (Hu & Hcl & Hchal).
    assert (Hask' := Hask); destruct Hask' as (_ & _ & (n3 & Hi) & Hpc & Hpcl & _).
    destruct (same_digest token' token) as [?| ->]; [congruence | by left |].
    destruct (consent_claims _ _ _ _ _ Hi Hvc) as (Hu' & Hcl' & Hchal'); simpl in *.
    right; left; exists state, token, c, rc, a, b, cl, code; split_and!; try done; congruence.
  - destruct Hissued as (n & d & b & Hin & _ & Hcode & ->); simpl in *; apply stores_elem in Hin.
    destruct (Hall _ Hin) as (challenge & code' & Hb); assert (Hb' := Hb); destruct Hb' as (_ & (re & n' & Hissue) & Hcd).
    destruct (same_digest code' code) as [?| ->]; [congruence | by left |].
    destruct (code_claims _ _ _ _ _ _ _ _ Hissue Hv) as (Hu & Hcl & Hchal).
    right; right; exists d, b, code; rewrite Hchal; done.
Qed.

Lemma code_issued_sub t1 t2 hash r : code_issued (stores t1) hash r -> code_issued (stores (t1 ++ t2)) hash r.
Proof. apply code_issued_mono; rewrite stores_app; set_solver. Qed.

(** C2: every access token the token endpoint answers names a user who authorized
    the client it is answered to.  Whatever runs are interleaved over the
    account database, and however they failed: behind a code stands a user who
    signed in at the client's request (or the configured reviewer), who
    approved the consent page made for it, and the request's challenge is the
    digest of the verifier now presented; behind a refresh token stands such
    an authorization, or a native Apple sign-in.  All of it up to a collision
    of SHA-256. *)
Theorem tokens_are_authorized s0 t s runs env body o l access refresh :
  empty_db s0 -> steps does s0 t s -> interleaves runs t.*2 -> (forall l, l ∈ runs -> served l \/ elsewhere l) ->
  token sha256 base64url form_pairs config env body [] = (o, l) -> l ∈ runs -> answer_of o = Some (Reply (token_response access refresh)) ->
  exists form user client iat exp, read_form body = Some form /\ tf_client_id form = Some client
    /\ issue_access_token secret (base_url config) user (Z.of_N iat) (Z.of_N exp) = Ok access
    /\ (digest_collision
        \/ (exists verifier, tf_code_verifier form = Some verifier /\ authorized user client (pkce verifier) t.*2)
        \/ (is_Some (tf_refresh_token form)
            /\ ((exists challenge, authorized user client challenge t.*2)
                \/ (client = FIRST_PARTY_NATIVE_CLIENT_ID /\ apple_signed_in Native user t.*2)))).
Proof.
  intros He Hst Hi Hall Hrun Hl Ho.
  assert (Hj : forall e, e ∈ t.*2 -> justified t.*2 e) by (intros e; by apply (server_justified runs)).
  destruct (answer_post _ _ _ _ _ _ (serves_token env body) Hrun Ho access refresh eq_refl) as (form & Hf & Hans).
  destruct (Hans access refresh eq_refl) as (user & client & iat & exp & Hc & Hiss & Hgrant).
  exists form, user, client, iat, exp; split_and!; [done | done | done |].
  apply (interleaves_run _ _ _ Hi) in Hl; apply does_stores in Hst.
  destruct Hgrant as [(x & code & verifier & _ & Hv & Hx & <- & <- & Hpos)|(q & tk & Htk & Hq & _ & <-)].
  - destruct (stores_split t _ (Hl _ Hx)) as (n & t1 & t2 & Heq & Ht); rewrite Heq in Hst.
    destruct (exchange_explained _ _ _ _ _ _ _ He Hst) as (r & Hr & Ha & Hcl & _).
    destruct (exchange_authorized t x code verifier r Hj Hpos) as [?|?]; [| done.. | by left | right; left; eauto].
    rewrite <- Ht; by apply code_issued_sub.
  - destruct (stores_split t _ (Hl _ Hq)) as (n & t1 & t2 & Heq & Ht); rewrite Heq in Hst.
    assert (Hsub : stores t1 ⊆ stores t) by (rewrite <- Ht, stores_app; set_solver).
    destruct (rotation_explained _ _ _ _ _ _ _ _ He Hst) as [[m e] Hsess].
    destruct (in_session_opened _ _ _ _ _ Hsess) as (h1 & h2 & k & Hh & Hopen).
    assert (Hin1 : (m, e) ∈ stores t1) by (rewrite Hh; set_solver).
    assert (Hin : (m, e) ∈ stores t) by (by apply Hsub); apply stores_elem in Hin.
    destruct e as [ | | | | | | | | | | | | | |x b| |ns b|]; try done; unfold opens in Hopen; simpl in Hopen.
    + destruct Hopen as (_ & _ & <- & Hcx & r & Hr & Ha & Hcl); destruct (Hj _ Hin) as (code & verifier & Hpos).
      destruct (exchange_authorized t x code verifier r Hj Hpos) as [?|?]; [| congruence.. | by left |].
      * rewrite <- Ht; apply code_issued_sub, (code_issued_mono h1); [rewrite Hh; set_solver | done].
      * right; right; split; [by rewrite Htk |]; left; exists (pkce verifier); by rewrite <- Hcx.
    + destruct Hopen as (_ & <- & Hcx); destruct (Hj _ Hin) as [Hap Hn].
      right; right; split; [by rewrite Htk |]; right; split; [congruence | done].
Qed.

(** C5: a deleted account is admitted nowhere but at the two routes about its
    deletion: once the deletion is finalized, no request whose run makes its
    calls afterwards is admitted for the account anywhere else, with whatever
    token. *)
Theorem deleted_account_is_not_admitted s0 t0 s1 now account op s2 t s env method path authorization o l user evidence :
  empty_db s0 -> steps (moves sha256) s0 t0 s1 -> effect sha256 now (SFinalize account (Ok op)) s1 s2 -> steps does s2 t s ->
  require_auth config env sha256 method path authorization [] = (o, l) -> l ⊆ t.*2 -> answer_of o = Some (Passed user evidence) ->
  user = account -> deletion_status_access method path = true.
Proof using sha256 J U config Outbox D.
  intros He H0 Hfin Hst Hrun Hl Ho ->; assert (Hr : reachable sha256 s1) by (by exists s0, t0).
  destruct (answer_post _ _ _ _ _ _ (serves_auth sha256 config env (fun _ _ => True) (fun _ _ _ => I) method path authorization) Hrun Ho account evidence eq_refl)
    as [(status & Hin & Hs)|(sub & em & lim & u & Hin & Hu)]; apply Hl in Hin.
  - destruct Hs as [->|[? _]]; [exfalso | done]; apply list_elem_of_fmap in Hin as ([n e] & He' & Hin); simpl in He'; subst e.
    apply list_elem_of_split in Hin as (t1 & t2 & ->); apply steps_split in Hst as (x & y & Hx & Hread & _).
    apply does_stores in Hx; destruct (finalized_stays _ _ _ _ _ _ Hr Hfin _ _ Hx) as [Hn Hd].
    destruct Hread as [_ [Hread|[z ?]]]; [| done]; unfold account_status, status_of in Hread.
    by rewrite Hn, decide_True in Hread by done.
  - destruct (stores_split t _ Hin) as (n & t1 & t2 & Heq & _); apply does_stores in Hst; exfalso.
    apply (finalized_unanswered _ _ _ _ _ _ _ _ (n, SUpsert sub em lim (Ok u)) Hr Hfin Hst); [| by rewrite <- Hu].
    rewrite Heq; apply elem_of_app; right; by left.
Qed.
End Database.
End Theorems.

(** ** A server that runs *)

#[local] Existing Instance no_delivery.
#[local] Existing Instance ascii_unicode.

(** Tokens of known claims.  A claim is a text or a natural number. *)
Definition claim_eqb (a b : Value) : bool :=
  match a, b with
  | VString x, VString y => str_eqb x y
  | VNumber (PosInt x), VNumber (PosInt y) => x =? y
  | _, _ => false
  end.

Fixpoint claims_eqb (l k : list (str * Value)) : bool :=
  match l, k with
  | [], [] => true
  | x :: l', y :: k' => str_eqb x.1 y.1 && claim_eqb x.2 y.2 && claims_eqb l' k'
  | _, _ => false
  end.

Definition object_eqb (a b : Value) : bool := match a, b with VObject l, VObject k => claims_eqb l k | _, _ => false end.

Lemma object_eqb_sound a b : object_eqb a b = true -> a = b.
Proof.
  destruct a as [| | | | |l], b as [| | | | |k]; try done; simpl; revert k.
  induction l as [|[x v] l IH]; intros [|[y w] k]; try done; simpl; rewrite !andb_true_iff, str_eqb_eq; intros [[<- Hv] Hk].
  apply IH in Hk; injection Hk as ->; do 3 f_equal.
  destruct v as [| |[]| | |], w as [| |[]| | |]; try done; simpl in Hv; [apply Z.eqb_eq in Hv | apply str_eqb_eq in Hv]; by subst.
Qed.

Section Table.
Context (table : list (str * Value)).

Definition payload (token : str) : option Value := snd <$> List.find (fun kv => str_eqb kv.1 token) table.

Definition table_jwt : Jwt := {|
  jwt_encode := fun _ claims => fst <$> List.find (fun kv => object_eqb kv.2 claims) table;
  jwt_decode := fun _ _ _ token => payload token |}.

Lemma table_laws : forallb (fun kv => match payload kv.1 with Some v => object_eqb v kv.2 | None => false end) table = true -> @JwtLaws table_jwt.
Proof.
  intros Hall; refine {| jwt_payload := payload |}; [intros secret claims token | by intros v now secret token claims].
  simpl; intros Hf; destruct (List.find _ table) as [[t v]|] eqn:E; [| done]; injection Hf as <-.
  apply find_some in E as [Hin Hv]; apply object_eqb_sound in Hv as <-; simpl.
  rewrite forallb_forall in Hall; specialize (Hall _ Hin); simpl in Hall; destruct (payload t); [| done].
  by apply object_eqb_sound in Hall as ->.
Qed.
End Table.

Definition server_config : Config := {|
  base_url := lit "https://api"; web_origin := lit "https://web"; jwt_secret := lit "secret"; jwt_fallbacks := [];
  google_web_client_id := lit "google-client"; google_audiences := [lit "google-client"]; signup_limit_per_day := 1;
  reviewer_verifier := None; apple_provider := None |}.

Definition the_challenge : str := replicate 43 (ch "A").
Definition the_redirect : str := lit "https://web/app/apple-callback".

Definition the_state : StateClaims := {|
  s_client_id := FIRST_PARTY_WEB_CLIENT_ID; s_redirect_uri := the_redirect; s_client_state := []; s_code_challenge := the_challenge;
  s_resource := lit "https://api"; apple_nonce := []; apple_link_user_id := []; s_exp := 1600 |}.

Definition token_table : list (str * Value) := [
  (lit "state", state_value the_state);
  (lit "consent", consent_value {| cc_user_id := the_user; cc_client_id := FIRST_PARTY_WEB_CLIENT_ID; cc_redirect_uri := the_redirect;
     cc_client_state := []; cc_code_challenge := the_challenge; cc_resource := lit "https://api"; cc_exp := 1300 |});
  (lit "code", auth_code_value {| ac_user_id := the_user; ac_client_id := FIRST_PARTY_WEB_CLIENT_ID; ac_code_challenge := the_challenge;
     ac_resource := lit "https://api"; ac_exp := 1300 |});
  (lit "access", access_value {| sub := the_user; iss := lit "https://api"; aud := lit "https://api"; iat := Some 1000; access_exp := 1900 |})].

#[local] Instance server_jwt : Jwt := table_jwt token_table.
#[local] Instance server_jwt_laws : JwtLaws := table_laws token_table ltac:(vm_compute; reflexivity).

Definition sample_base64 (_ : bytes) : str := the_challenge.
Definition sample_uri (u : str) : option Uri :=
  if str_eqb u the_redirect
  then Some {| scheme_str := Some (lit "https"); authority := Some (lit "web"); host := Some (lit "web"); port_u16 := None;
               path := lit "/app/apple-callback"; query := None |}
  else None.
Definition sample_forms (body : str) : option (list (str * str)) :=
  if str_eqb body (lit "consent form") then Some [(lit "consent_token", lit "consent"); (lit "decision", lit "approve")]
  else if str_eqb body (lit "token form")
  then Some [(lit "grant_type", lit "authorization_code"); (lit "code", lit "code"); (lit "client_id", FIRST_PARTY_WEB_CLIENT_ID);
             (lit "code_verifier", replicate 43 (ch "v"))]
  else None.
Definition sample_encoder (_ : list (str * str)) : option str := Some [].

(** Every call succeeds. *)
Definition kind_env : Env := {|
  env_ensure := fun _ _ => Ok tt; env_register := fun _ _ => Ok AtCapacity;
  env_client := fun _ _ => Ok (Some {| cl_id := FIRST_PARTY_WEB_CLIENT_ID; cl_name := Some (lit "Kioku Web"); cl_redirect_uris := [the_redirect] |});
  env_consent := fun _ _ => Ok true; env_approve := fun _ _ => Ok true; env_direct := fun _ _ => Ok true; env_exchange := fun _ _ => Ok true;
  env_rotate := fun _ _ => Ok None; env_native := fun _ _ => Ok tt; env_upsert := fun _ _ _ _ => Ok sign_in_answer;
  env_apple := fun _ _ _ => Ok sign_in_answer; env_link := fun _ _ _ => Ok tt; env_session := fun _ _ => Ok None;
  env_status := fun _ _ => Ok (Some Deleted); env_clock := fun _ => 1000%N; env_random := fun _ => lit "refresh";
  env_google := fun _ _ => Some (Some (lit "id-token"));
  env_google_decode := fun _ _ => Ok {| uc_sub := lit "subject-1"; uc_email := lit "a@b"; email_verified := true; uc_iat := None; auth_time := None |};
  env_reviewer_lookup := fun _ _ => Ok []; env_fixture := fun _ _ => Ok tt;
  env_apple_decode := fun _ _ => Err AppleUnavailable; env_apple_exchange := fun _ _ _ => Err AppleUnavailable |}.

#[local] Abbreviation trace := (trace_of sample_digest sample_base64 sample_uri sample_encoder sample_forms server_config kind_env).

Definition the_request : AuthorizeQuery := {|
  q_client_id := Some FIRST_PARTY_WEB_CLIENT_ID; q_redirect_uri := Some the_redirect; q_state := None; q_code_challenge := Some the_challenge;
  q_code_challenge_method := Some (lit "S256"); q_response_type := Some (lit "code"); q_scope := None; q_resource := None |}.

(** A sign-in: request, callback, approval, token. *)
Definition the_requests : list Request :=
  [GetAuthorize the_request; GetGoogleCallback {| cb_code := Some (lit "g"); cb_state := Some (lit "state"); cb_error := None |};
   PostConsent (lit "consent form"); PostToken (lit "token form")].

Definition the_runs : list (list Event) := trace <$> the_requests.
Definition the_trace : list (Z * Event) := (fun e => (0, e)) <$> concat the_runs.

Lemma the_trace_observed : observed sample_digest blank_db the_trace.
Proof. vm_compute; repeat split. Qed.

Lemma the_trace_interleaves : interleaves the_runs the_trace.*2.
Proof.
  replace (the_trace.*2) with (concat the_runs); [apply interleaves_sequence |].
  unfold the_trace; rewrite <- list_fmap_compose; by rewrite list_fmap_id.
Qed.

Lemma the_runs_served l : l ∈ the_runs -> served sample_digest sample_base64 sample_uri sample_encoder sample_forms server_config l \/ elsewhere l.
Proof. intros (r & -> & _)%list_elem_of_fmap; left; exists kind_env, r, []; by rewrite app_nil_r. Qed.

Lemma tokens_are_authorized_witness :
  exists user client iat exp, client = FIRST_PARTY_WEB_CLIENT_ID
    /\ issue_access_token (lit "secret") (lit "https://api") user (Z.of_N iat) (Z.of_N exp) = Ok (lit "access").
Proof.
  destruct (observed_does sample_digest blank_db the_trace the_trace_observed) as [s Hs].
  destruct (tokens_are_authorized sample_digest sample_base64 sample_uri sample_encoder sample_forms server_config blank_db the_trace s the_runs
    kind_env (lit "token form") _ _ (lit "access") (lit "refresh") blank_is_empty Hs the_trace_interleaves the_runs_served
    (surjective_pairing _) ltac:(apply (list_elem_of_lookup_2 _ 3); reflexivity) ltac:(vm_compute; reflexivity))
    as (form & user & client & iat & exp & Hf & Hc & Hi & _).
  refine (ex_intro _ user (ex_intro _ client (ex_intro _ iat (ex_intro _ exp (conj _ Hi))))).
  assert (Hr : read_form sample_forms (lit "token form") = Some form -> tf_client_id form = Some FIRST_PARTY_WEB_CLIENT_ID)
    by (vm_compute; intros [= <-]; reflexivity).
  rewrite (Hr Hf) in Hc; by injection Hc as ->.
Defined.

(** The erased user looks at the state of the deletion. *)
#[local] Abbreviation look := (require_auth server_config kind_env sample_digest (lit "GET") (lit "/api/account/deletion") (Some (lit "Bearer access")) []).

Lemma look_observed : observed sample_digest erased_db ((fun e => (9, e)) <$> look.2).
Proof. vm_compute; repeat split. Qed.

Lemma deleted_account_is_not_admitted_witness :
  answer_of look.1 = Some (Passed the_user {| kind := KiokuAccessToken; authenticated_at_epoch_seconds := Some 1000 |})
  /\ deletion_status_access (lit "GET") (lit "/api/account/deletion") = true.
Proof.
  assert (Ha : answer_of look.1 = Some (Passed the_user {| kind := KiokuAccessToken; authenticated_at_epoch_seconds := Some 1000 |}))
    by (vm_compute; reflexivity).
  split; [exact Ha |]; destruct deleting_reachable as (s0 & t0 & He & H0), (observed_does sample_digest erased_db _ look_observed) as [s Hs].
  refine (deleted_account_is_not_admitted sample_digest server_config s0 t0 deleting_db 8 the_user erased_operation erased_db _ s kind_env _ _
    (Some (lit "Bearer access")) _ _ the_user _ He H0 finalize_moves Hs (surjective_pairing _) _ Ha eq_refl).
  intros e Hin; apply list_elem_of_fmap; exists (9, e); split; [done |]; apply list_elem_of_fmap; by exists e.
Defined.
