(* ===== verification/OutboxDb.v ===== *)
(** * The tables of outbound delivery

    [migrations/0003_notification_configuration.sql],
    [0016_finalization_delivery.sql], [0017_delivery_claims.sql] and
    [persistence/delivery_outbox.rs]: the destinations a user configured, the
    outboxes of webhook events and pushes, the fences of sends in flight, and
    the service-wide lane of each provider.  The two outboxes have the same
    columns but for what is frozen with a claim; [d_error] is [last_error] and
    [error_code], which every statement writes together.  Times are
    microseconds, and a transaction reads one clock. *)
From stdpp Require Import gmap.
From Stdlib Require Import ZArith Lia.
From S2P Require Import Prelude OrdMap Text Errors IsoTime Txn AccountDb.
From S2P Require Finalizer.
Local Open Scope Z_scope.
Local Open Scope kioku_scope.

(** ** Finalized episodes, as the outbound channels carry them *)

Record ActionItemDetail := { ai_text : str; ai_owner : str; ai_due_at : option str }.
Record LinkDetail := { l_url : str; l_label : str; l_why_it_matters : str }.

Record FinalizedEpisode := {
  fe_episode_id : Z; fe_title : str; fe_started_at : str; fe_ended_at : str; fe_finalized_at : str;
  fe_episode_type : option str; fe_participants : list str; fe_overview : str;
  fe_sections : option (list Finalizer.BriefSection); fe_decisions : list str; fe_action_items : list ActionItemDetail;
  fe_important_links : list LinkDetail; fe_open_questions : list str
}.

(** ** Rows *)

(** Keyed by account and id. *)
Record SubscriptionRow := {
  s_name : str; s_endpoint_url : str; s_signing_secret : str; s_include_content : bool; s_enabled : bool; s_created_ms : Z
}.

Record InstallationRow := {
  p_platform : str; p_topic : str; p_environment : str; p_device_token : str; p_token_generation : Z; p_enabled : bool;
  p_last_seen : Z
}.

Inductive DeliveryState :=
| StPending | StProcessing | StRetryWait | StDelivered | StFailed | StCancelled | StAmbiguous.

#[export] Instance delivery_state_eq_dec : EqDecision DeliveryState.
Proof. solve_decision. Defined.

(** A row of an outbox, keyed by account and event or delivery id: [Extra] are
    the columns it is made with, [Frozen] the request its last claim froze.  A
    claim is its token and when it ends. *)
Record DeliveryRow {Extra Frozen : Type} := {
  d_episode : Z; d_destination : str; d_version : Z; d_extra : Extra;
  d_state : DeliveryState; d_attempts : Z; d_next_attempt : Z; d_claim : option (str * Z); d_completed : option str;
  d_error : option str; d_response : option Z; d_frozen : option Frozen; d_created : Z; d_updated : Z
}.
Arguments DeliveryRow : clear implicits.

Record FrozenWebhookDelivery := { fw_endpoint_url : str; fw_signing_secret : str; fw_include_content : bool; fw_event_body : str }.
Record FrozenPushDelivery := { fp_topic : str; fp_environment : str; fp_device_token : str; fp_token_generation : Z }.
Record Handoff := { handoff_handle : str; collapse_id : str }.

Definition WebhookRow : Type := DeliveryRow unit FrozenWebhookDelivery.
Definition PushRow : Type := DeliveryRow Handoff FrozenPushDelivery.

(** Keyed by account and event, and by account and installation. *)
Record WebhookFence := {
  wf_subscription : str; wf_claim : str; wf_lease_ms : Z; wf_endpoint_url : str; wf_signing_secret : str; wf_include_content : bool
}.
Record PushFence := { pf_token_generation : Z; pf_claim : str; pf_lease_ms : Z }.

(** A provider's lane: the claim that owns it and when its lease ends. *)
Record Lane := { owner : option (str * Z); next_send : Z; circuit_until : option Z }.

(** What delivery reads of an episode and its final brief. *)
Record MemoryRow := { m_complete : bool; m_identity_revision : Z; m_brief : option FinalizedEpisode }.

Record Outbox := {
  memories : gmap (str * Z) MemoryRow;
  subscriptions : gmap (str * str) SubscriptionRow;
  webhooks : gmap (str * str) WebhookRow;
  webhook_fences : gmap (str * str) WebhookFence;
  webhook_lane : Lane;
  installations : gmap (str * str) InstallationRow;
  generations : Z;  (* the last value of [push_token_generation_seq] *)
  pushes : gmap (str * str) PushRow;
  push_fences : gmap (str * str) PushFence;
  push_lane : Lane
}.

(** ** Statements on an outbox *)

Definition is_open (state : DeliveryState) : bool := bool_decide (state = StPending) || bool_decide (state = StRetryWait).

Section Rows.
Context {Extra Frozen : Type}.
Implicit Types r : DeliveryRow Extra Frozen.
Implicit Types rows : gmap (str * str) (DeliveryRow Extra Frozen).

(** [state=..., last_error=..., error_code=...] *)
Definition marked (now : Z) (state : DeliveryState) (error : string) r : DeliveryRow Extra Frozen :=
  {| d_episode := d_episode r; d_destination := d_destination r; d_version := d_version r; d_extra := d_extra r; d_state := state;
     d_attempts := d_attempts r; d_next_attempt := d_next_attempt r; d_claim := d_claim r; d_completed := d_completed r;
     d_error := Some (lit error); d_response := d_response r; d_frozen := d_frozen r; d_created := d_created r; d_updated := now |}.

(** The end of a claim: its token is kept as the last one completed. *)
Definition closed (now : Z) (token : str) (state : DeliveryState) (error : option str) (response retry_at : option Z) r :
    DeliveryRow Extra Frozen :=
  {| d_episode := d_episode r; d_destination := d_destination r; d_version := d_version r; d_extra := d_extra r; d_state := state;
     d_attempts := d_attempts r; d_next_attempt := default (d_next_attempt r) retry_at; d_claim := None; d_completed := Some token;
     d_error := error; d_response := response; d_frozen := d_frozen r; d_created := d_created r; d_updated := now |}.

(** A claim that freezes a request. *)
Definition claimed (now attempts : Z) (token : str) (until : Z) (frozen : Frozen) r : DeliveryRow Extra Frozen :=
  {| d_episode := d_episode r; d_destination := d_destination r; d_version := d_version r; d_extra := d_extra r; d_state := StProcessing;
     d_attempts := attempts; d_next_attempt := d_next_attempt r; d_claim := Some (token, until); d_completed := None;
     d_error := None; d_response := d_response r; d_frozen := Some frozen; d_created := d_created r; d_updated := now |}.

(** A new row, unless the outbox has one for the event, or for the same
    episode, destination and version. *)
Definition enqueue (now : Z) (account id : str) (episode : Z) (destination : str) (version : Z) (extra : Extra) rows :=
  if bool_decide (is_Some (rows !! (account, id)))
     || some_row (fun kv => str_eqb kv.1.1 account && (d_episode kv.2 =? episode) && str_eqb (d_destination kv.2) destination
                            && (d_version kv.2 =? version)) rows
  then rows
  else <[(account, id) := {| d_episode := episode; d_destination := destination; d_version := version; d_extra := extra;
     d_state := StPending; d_attempts := 0; d_next_attempt := now; d_claim := None; d_completed := None; d_error := None;
     d_response := None; d_frozen := None; d_created := now; d_updated := now |}]> rows.

(** [UPDATE ... WHERE account_id = $1 AND state IN ('pending','retry_wait')
    AND condition] *)
Definition mark_open (now : Z) (account : str) (state : DeliveryState) (error : string) (condition : DeliveryRow Extra Frozen -> bool) rows :=
  map_imap (fun k r => Some (if str_eqb k.1 account && is_open (d_state r) && condition r then marked now state error r else r)) rows.

(** The ids and tokens of an account's claims that have ended. *)
Definition ended_claim_of (now : Z) (account : str) (kv : (str * str) * DeliveryRow Extra Frozen) : option (str * str) :=
  match d_claim kv.2 with
  | Some (token, until) =>
    if str_eqb kv.1.1 account && bool_decide (d_state kv.2 = StProcessing) && (until <=? now) then Some (kv.1.2, token) else None
  | None => None
  end.

Definition ended_claims (now : Z) (account : str) rows : list (str * str) := omap (ended_claim_of now account) (map_to_list rows).

(** [UPDATE ... WHERE account_id = $3 AND id = $4 AND claim_token = $5] of an
    ended claim: what was disclosed is not sent again. *)
Definition close_ended (now : Z) (account id token : str) (disclosed : bool) rows :=
  alter (fun r => if bool_decide (fst <$> d_claim r = Some token)
                  then closed now token (if disclosed then StAmbiguous else StRetryWait)
                         (Some (lit (if disclosed then "claim_expired_after_disclosure" else "claim_expired_before_disclosure")))
                         (d_response r) None r
                  else r) (account, id) rows.
End Rows.

(** ** Lanes *)

Definition PROVIDER_PACE_MILLIS : Z := 250.

Definition owns (token : str) (l : Lane) : bool := bool_decide (fst <$> owner l = Some token).

(** [owner_token IS NULL AND next_send_at <= clock_timestamp() AND ...] *)
Definition lane_available (now : Z) (l : Lane) : bool :=
  bool_decide (owner l = None) && (next_send l <=? now) && match circuit_until l with Some t => t <=? now | None => true end.

Definition release (token : str) (l : Lane) : Lane :=
  if owns token l then {| owner := None; next_send := next_send l; circuit_until := circuit_until l |} else l.

Definition settle_lane (now : Z) (token : str) (circuit_seconds : option Z) (l : Lane) : Lane :=
  if owns token l
  then {| owner := None; next_send := now + PROVIDER_PACE_MILLIS * 1000;
          circuit_until := match circuit_seconds with Some s => Some (now + s * 1000000) | None => circuit_until l end |}
  else l.

Definition take_lane (token : str) (until : Z) (l : Lane) : Lane :=
  {| owner := Some (token, until); next_send := next_send l; circuit_until := circuit_until l |}.

(** ** Updates of one table *)

Definition set_webhook (ws : gmap (str * str) WebhookRow) (fs : gmap (str * str) WebhookFence) (l : Lane) (o : Outbox) : Outbox :=
  {| memories := memories o; subscriptions := subscriptions o; webhooks := ws; webhook_fences := fs; webhook_lane := l;
     installations := installations o; generations := generations o; pushes := pushes o; push_fences := push_fences o;
     push_lane := push_lane o |}.

Definition set_push (ps : gmap (str * str) PushRow) (fs : gmap (str * str) PushFence) (l : Lane) (o : Outbox) : Outbox :=
  {| memories := memories o; subscriptions := subscriptions o; webhooks := webhooks o; webhook_fences := webhook_fences o;
     webhook_lane := webhook_lane o; installations := installations o; generations := generations o; pushes := ps; push_fences := fs;
     push_lane := l |}.

Definition set_subscriptions (f : gmap (str * str) SubscriptionRow -> gmap (str * str) SubscriptionRow) (o : Outbox) : Outbox :=
  {| memories := memories o; subscriptions := f (subscriptions o); webhooks := webhooks o; webhook_fences := webhook_fences o;
     webhook_lane := webhook_lane o; installations := installations o; generations := generations o; pushes := pushes o;
     push_fences := push_fences o; push_lane := push_lane o |}.

Definition set_installations (f : gmap (str * str) InstallationRow -> gmap (str * str) InstallationRow) (o : Outbox) : Outbox :=
  {| memories := memories o; subscriptions := subscriptions o; webhooks := webhooks o; webhook_fences := webhook_fences o;
     webhook_lane := webhook_lane o; installations := f (installations o); generations := generations o; pushes := pushes o;
     push_fences := push_fences o; push_lane := push_lane o |}.

Definition next_generation (o : Outbox) : Outbox :=
  {| memories := memories o; subscriptions := subscriptions o; webhooks := webhooks o; webhook_fences := webhook_fences o;
     webhook_lane := webhook_lane o; installations := installations o; generations := generations o + 1; pushes := pushes o;
     push_fences := push_fences o; push_lane := push_lane o |}.

Definition set_memories (f : gmap (str * Z) MemoryRow -> gmap (str * Z) MemoryRow) (o : Outbox) : Outbox :=
  {| memories := f (memories o); subscriptions := subscriptions o; webhooks := webhooks o; webhook_fences := webhook_fences o;
     webhook_lane := webhook_lane o; installations := installations o; generations := generations o; pushes := pushes o;
     push_fences := push_fences o; push_lane := push_lane o |}.

(** ** The recovery of claims that have ended *)

(** Whether the send of a claim is fenced: its request may have left. *)
Definition webhook_disclosed (account id token : str) (o : Outbox) : bool :=
  bool_decide (wf_claim <$> webhook_fences o !! (account, id) = Some token).

Definition drop_webhook_fence (account id token : str) (o : Outbox) : gmap (str * str) WebhookFence :=
  if webhook_disclosed account id token o then delete (account, id) (webhook_fences o) else webhook_fences o.

Definition recover_webhook_claim (now : Z) (account : str) (o : Outbox) (ended : str * str * bool) : Outbox :=
  let '(id, token, disclosed) := ended in
  set_webhook (close_ended now account id token disclosed (webhooks o)) (drop_webhook_fence account id token o)
              (release token (webhook_lane o)) o.

Definition recover_expired_webhook_claims (now : Z) (account : str) (o : Outbox) : Outbox :=
  fold_left (recover_webhook_claim now account)
    ((fun e => (e.1, e.2, webhook_disclosed account e.1 e.2 o)) <$> ended_claims now account (webhooks o)) o.

Definition push_disclosed (account token : str) (o : Outbox) : bool :=
  some_row (fun kv => str_eqb kv.1.1 account && str_eqb (pf_claim kv.2) token) (push_fences o).

Definition drop_push_fences (account token : str) (fs : gmap (str * str) PushFence) : gmap (str * str) PushFence :=
  filter (fun kv => str_eqb kv.1.1 account && str_eqb (pf_claim kv.2) token = false) fs.

Definition recover_push_claim (now : Z) (account : str) (o : Outbox) (ended : str * str * bool) : Outbox :=
  let '(id, token, disclosed) := ended in
  set_push (close_ended now account id token disclosed (pushes o)) (drop_push_fences account token (push_fences o))
           (release token (push_lane o)) o.

Definition recover_expired_push_claims (now : Z) (account : str) (o : Outbox) : Outbox :=
  fold_left (recover_push_claim now account)
    ((fun e => (e.1, e.2, push_disclosed account e.2 o)) <$> ended_claims now account (pushes o)) o.

(** ** What account deletion does with these tables *)

Definition disable_subscriptions (account : str) : gmap (str * str) SubscriptionRow -> gmap (str * str) SubscriptionRow :=
  map_imap (fun k r => Some (if str_eqb k.1 account
    then {| s_name := s_name r; s_endpoint_url := s_endpoint_url r; s_signing_secret := s_signing_secret r;
            s_include_content := s_include_content r; s_enabled := false; s_created_ms := s_created_ms r |} else r)).

Definition disable_installation (r : InstallationRow) : InstallationRow :=
  {| p_platform := p_platform r; p_topic := p_topic r; p_environment := p_environment r; p_device_token := p_device_token r;
     p_token_generation := p_token_generation r; p_enabled := false; p_last_seen := p_last_seen r |}.

Definition disable_installations (account : str) : gmap (str * str) InstallationRow -> gmap (str * str) InstallationRow :=
  map_imap (fun k r => Some (if str_eqb k.1 account then disable_installation r else r)).

Definition others {V} (account : str) : gmap (str * str) V -> gmap (str * str) V := filter (fun kv => str_eqb kv.1.1 account = false).

(** The rows that cascade from an account; fences and lanes do not. *)
Definition erase_outbox (account : str) (o : Outbox) : Outbox :=
  {| memories := filter (fun kv => str_eqb kv.1.1 account = false) (memories o); subscriptions := others account (subscriptions o);
     webhooks := others account (webhooks o); webhook_fences := webhook_fences o; webhook_lane := webhook_lane o;
     installations := others account (installations o); generations := generations o; pushes := others account (pushes o);
     push_fences := push_fences o; push_lane := push_lane o |}.

Definition has_fence {V} (account : str) (fences : gmap (str * str) V) : bool := some_row (fun kv => str_eqb kv.1.1 account) fences.

(** Mail has its own tables, which are not part of this store. *)
#[export] Instance outbox_delivery : Delivery Outbox := {|
  recover_expired_claims now account o := Ok (recover_expired_push_claims now account (recover_expired_webhook_claims now account o));
  has_email_fence _ _ := false;
  has_webhook_fence account o := has_fence account (webhook_fences o);
  has_push_fence account o := has_fence account (push_fences o);
  disable_delivery _ account o := set_installations (disable_installations account) (set_subscriptions (disable_subscriptions account) o);
  erase_delivery := erase_outbox
|}.

(** [DELETE FROM episodes WHERE account_id = $1 AND id = $2]: its deliveries
    go with it. *)
Definition delete_episode (account : str) (episode : Z) (o : Outbox) : Outbox :=
  let kept {E F : Type} (rows : gmap (str * str) (DeliveryRow E F)) :=
    filter (fun kv => str_eqb kv.1.1 account && (d_episode kv.2 =? episode) = false) rows in
  {| memories := delete (account, episode) (memories o); subscriptions := subscriptions o; webhooks := kept (webhooks o);
     webhook_fences := webhook_fences o; webhook_lane := webhook_lane o; installations := installations o;
     generations := generations o; pushes := kept (pushes o); push_fences := push_fences o; push_lane := push_lane o |}.
