(* ===== verification/Outbox.v ===== *)
(** * The outbox transactions

    [persistence/postgres/delivery_outbox.rs] and
    [persistence/postgres/notification.rs]: the choice of the next delivery,
    the claim that freezes its request under the provider's lane, the
    settlement of its outcome, and the destinations themselves.  The tables
    are [OutboxDb]'s beside the accounts of [AccountDb].  Reading a final
    brief and projecting the names in it is the work of the identity
    presentations, the parameter [present]. *)
From stdpp Require Import gmap.
From Stdlib Require Import ZArith Lia.
From S2P Require Import Prelude OrdMap Text Errors IsoTime Txn AccountDb OutboxDb.
Local Open Scope Z_scope.
Local Open Scope kioku_scope.

(** ** Provider outcomes: [persistence/work.rs] *)

Module WebhookOutcome.
Inductive WebhookProviderOutcome :=
| Sent (status : Z)
| Retry (status : option Z) (code retry_at : str)
| Ambiguous
| Failed (status : option Z) (code : str).
End WebhookOutcome.
Export WebhookOutcome(WebhookProviderOutcome).

Module PushOutcome.
Inductive PushProviderOutcome :=
| Accepted (status : Z)
| Retry (status : option Z) (code retry_at : str)
| Ambiguous
| Failed (status : option Z) (code : str)
| TokenTerminal (status : Z) (code : str).
End PushOutcome.
Export PushOutcome(PushProviderOutcome).

Definition valid_provider_text (value : str) (maximum : Z) : bool :=
  negb (is_empty value) && (byte_len value <=? maximum)
  && negb (existsb (fun b => (b <? 32)%N || (b =? 127)%N) (as_bytes value)).

Definition valid_provider_timestamp (value : str) : bool :=
  negb (is_empty value) && (byte_len value <=? 64)
  && match parse_epoch_millis value with Some millis => str_eqb (format_epoch_millis millis) value | None => false end.

Definition valid_http_status (status : Z) : bool := (100 <=? status) && (status <=? 599).
Definition none_or (p : Z -> bool) (o : option Z) : bool := match o with Some z => p z | None => true end.

Definition webhook_outcome_is_valid (outcome : WebhookProviderOutcome) : bool :=
  match outcome with
  | WebhookOutcome.Sent status => (200 <=? status) && (status <=? 299)
  | WebhookOutcome.Retry status code retry_at =>
    none_or valid_http_status status && valid_provider_text code 256 && valid_provider_timestamp retry_at
  | WebhookOutcome.Ambiguous => true
  | WebhookOutcome.Failed status code => none_or valid_http_status status && valid_provider_text code 256
  end.

Definition push_outcome_is_valid (outcome : PushProviderOutcome) : bool :=
  match outcome with
  | PushOutcome.Accepted status => valid_http_status status && (status =? 200)
  | PushOutcome.Retry status code retry_at =>
    none_or valid_http_status status && valid_provider_text code 256 && valid_provider_timestamp retry_at
  | PushOutcome.Ambiguous => true
  | PushOutcome.Failed status code => none_or valid_http_status status && valid_provider_text code 256
  | PushOutcome.TokenTerminal status code => valid_http_status status && valid_provider_text code 256
  end.

(** ** Candidates and claims *)

Record WebhookDeliveryCandidate := {
  wc_identity_revision : Z; wc_account : str; wc_episode_id : Z; wc_subscription : str; wc_version : Z; wc_event : str;
  wc_attempt_count : Z; wc_include_content : bool; wc_endpoint_url : str; wc_signing_secret : str; wc_episode : FinalizedEpisode
}.

Record WebhookDeliveryClaim := {
  wk_account : str; wk_episode_id : Z; wk_subscription : str; wk_version : Z; wk_event : str; wk_token : str;
  wk_lease_expires_at : str; wk_attempt_count : Z; wk_request : FrozenWebhookDelivery
}.

Record PushDeliveryCandidate := {
  pc_account : str; pc_episode_id : Z; pc_binding : str; pc_installation : str; pc_version : Z; pc_delivery : str;
  pc_handoff : Handoff; pc_attempt_count : Z; pc_created_at : str; pc_topic : str; pc_environment : str; pc_device_token : str;
  pc_token_generation : Z
}.

Record PushDeliveryClaim := {
  pk_account : str; pk_episode_id : Z; pk_binding : str; pk_installation : str; pk_version : Z; pk_delivery : str;
  pk_handoff : Handoff; pk_token : str; pk_lease_expires_at : str; pk_attempt_count : Z; pk_created_at : str; pk_request : FrozenPushDelivery
}.

Definition MAX_DELIVERY_AGE_SECONDS : Z := 24 * 60 * 60.

Definition bounded (value : str) (maximum : Z) (name : string) : res unit :=
  refuse (is_empty value || (maximum <? byte_len value) || existsb (N.eqb 0) (as_bytes value))
         (Errors.Store (lit "frozen email " ++ lit name ++ lit " is invalid")).

Definition outcome_time (value : str) : res Z :=
  ok_or (parse_epoch_millis value) (Errors.Store (lit "email outcome timestamp is invalid")).

(** [('p1:' || p.id || ':' || p.token_generation::text)] *)
Definition binding_of (id : str) (generation : Z) : str := lit "p1:" ++ id ++ lit ":" ++ dec generation.

(** A transaction that is rolled back when it answers nothing. *)
Definition or_rollback {Store A} (m : txn Store (option A)) : txn Store (option A) :=
  fun s => match m s with Ok (None, _) => Ok (None, s) | r => r end.

(** [let Some(x) = o else { transaction.rollback(); return Ok(None) }] *)
Definition when_some {Store A B} (o : option A) (k : A -> txn Store (option B)) : txn Store (option B) :=
  match o with Some a => k a | None => commits None end.

(** The rows not settled that come before another of the same destination. *)
Definition waits_for_earlier {E F} (account : str) (id : str) (r : DeliveryRow E F) (rows : gmap (str * str) (DeliveryRow E F)) : bool :=
  some_row (fun kv => str_eqb kv.1.1 account && str_eqb (d_destination kv.2) (d_destination r)
                      && (is_open (d_state kv.2) || bool_decide (d_state kv.2 = StProcessing))
                      && ((d_created kv.2 <? d_created r) || ((d_created kv.2 =? d_created r) && ord_ltb kv.1.2 id))) rows.

Definition due {E F} (now : Z) (r : DeliveryRow E F) : bool := is_open (d_state r) && (d_next_attempt r <=? now).

Definition expired_row {E F} (now : Z) (r : DeliveryRow E F) : bool := d_created r <=? now - MAX_DELIVERY_AGE_SECONDS * 1000000.

(** [ORDER BY created_at, destination, id LIMIT 1] of the joined rows. *)
Definition first_due {E F C} (join : (str * str) * DeliveryRow E F -> option C) (rows : gmap (str * str) (DeliveryRow E F)) : option C :=
  head (omap join (sort_by_key (fun kv => (d_created kv.2, (d_destination kv.2, kv.1.2))) (map_to_list rows))).

(** [settle_*]: what becomes of a claimed row. *)
Definition settlement_row {E F} (row : option (DeliveryRow E F)) (token : str) (kind : string) : res (option (DeliveryRow E F)) :=
  let? r := ok_or row (Conflict (lit kind ++ lit " delivery disappeared")) in
  if bool_decide (d_completed r = Some token) then Ok None
  else
    let? _ := refuse (negb (bool_decide (d_state r = StProcessing)) || negb (bool_decide (fst <$> d_claim r = Some token)))
                     (Conflict (lit kind ++ lit " delivery claim is no longer authoritative")) in
    Ok (Some r).

Definition valid_circuit (circuit_seconds : option Z) : bool := none_or (fun s => (1 <=? s) && (s <=? 6 * 60 * 60)) circuit_seconds.

Section Transactions.
Context (present : str -> FinalizedEpisode -> res FinalizedEpisode) (now : Z).
Implicit Types s : Db Outbox.

#[local] Abbreviation txn := (txn (Db Outbox)).

Definition update_webhooks (f : gmap (str * str) WebhookRow -> gmap (str * str) WebhookRow) : Db Outbox -> Db Outbox :=
  set_outbox (fun o => set_webhook (f (webhooks o)) (webhook_fences o) (webhook_lane o) o).

Definition update_pushes (f : gmap (str * str) PushRow -> gmap (str * str) PushRow) : Db Outbox -> Db Outbox :=
  set_outbox (fun o => set_push (f (pushes o)) (push_fences o) (push_lane o) o).

(** ** Webhooks *)

(** The subscription of a row, when the account may be delivered to. *)
Definition authorized_subscription (account : str) (r : WebhookRow) s : option SubscriptionRow :=
  if is_active account s
  then subscription ← subscriptions (outbox s) !! (account, d_destination r); if s_enabled subscription then Some subscription else None
  else None.

Definition has_final_brief (account : str) (r : WebhookRow) s : bool :=
  match memories (outbox s) !! (account, d_episode r) with
  | Some m => m_complete m && bool_decide (is_Some (m_brief m))
  | None => false
  end.

(** The joined row of a webhook that may be sent next. *)
Definition webhook_candidate (account : str) s (kv : (str * str) * WebhookRow) : option WebhookDeliveryCandidate :=
  let r := kv.2 in
  if str_eqb kv.1.1 account && due now r && negb (waits_for_earlier account kv.1.2 r (webhooks (outbox s)))
  then
    subscription ← authorized_subscription account r s;
    memory ← memories (outbox s) !! (account, d_episode r);
    brief ← m_brief memory;
    Some {| wc_identity_revision := m_identity_revision memory; wc_account := account; wc_episode_id := d_episode r;
            wc_subscription := d_destination r; wc_version := d_version r; wc_event := kv.1.2; wc_attempt_count := d_attempts r;
            wc_include_content := s_include_content subscription; wc_endpoint_url := s_endpoint_url subscription;
            wc_signing_secret := s_signing_secret subscription; wc_episode := brief |}
  else None.

Definition with_episode (c : WebhookDeliveryCandidate) (episode : FinalizedEpisode) : WebhookDeliveryCandidate :=
  {| wc_identity_revision := wc_identity_revision c; wc_account := wc_account c; wc_episode_id := wc_episode_id c;
     wc_subscription := wc_subscription c; wc_version := wc_version c; wc_event := wc_event c; wc_attempt_count := wc_attempt_count c;
     wc_include_content := wc_include_content c; wc_endpoint_url := wc_endpoint_url c; wc_signing_secret := wc_signing_secret c;
     wc_episode := episode |}.

Definition next_webhook_candidate (account : str) : txn (option WebhookDeliveryCandidate) :=
  execute (set_outbox (recover_expired_webhook_claims now account)) ^;
  execute (update_webhooks (mark_open now account StCancelled "delivery_expired" (expired_row now))) ^;
  execute (fun s => update_webhooks (mark_open now account StCancelled "webhook_not_authorized"
    (fun r => bool_decide (authorized_subscription account r s = None))) s) ^;
  execute (fun s => update_webhooks (mark_open now account StFailed "missing_final_brief" (fun r => negb (has_final_brief account r s))) s) ^;
  let^ candidate := select (fun s => first_due (webhook_candidate account s) (webhooks (outbox s))) in
  match candidate with
  | Some c => let^ episode := try_res (present account (wc_episode c)) in commits (Some (with_episode c episode))
  | None => commits None
  end.

Definition webhook_claim_refused (c : WebhookDeliveryCandidate) (request : FrozenWebhookDelivery) (lease_seconds : Z) : bool :=
  negb ((1 <=? lease_seconds) && (lease_seconds <=? 120)) || (wc_attempt_count c <? 0) || (10 <=? wc_attempt_count c)
  || negb (str_eqb (fw_endpoint_url request) (wc_endpoint_url c)) || negb (str_eqb (fw_signing_secret request) (wc_signing_secret c))
  || negb (Bool.eqb (fw_include_content request) (wc_include_content c)).

(** The candidate's row, when it is still due. *)
Definition candidate_webhook (c : WebhookDeliveryCandidate) s : option WebhookRow :=
  r ← webhooks (outbox s) !! (wc_account c, wc_event c);
  if (d_episode r =? wc_episode_id c) && str_eqb (d_destination r) (wc_subscription c) && (d_version r =? wc_version c) && due now r
  then Some r else None.

Definition webhook_authorized (c : WebhookDeliveryCandidate) (request : FrozenWebhookDelivery) (r : WebhookRow) s : bool :=
  match authorized_subscription (wc_account c) r s with
  | Some subscription =>
    str_eqb (s_endpoint_url subscription) (fw_endpoint_url request) && str_eqb (s_signing_secret subscription) (fw_signing_secret request)
    && Bool.eqb (s_include_content subscription) (fw_include_content request) && (d_attempts r =? wc_attempt_count c)
    && bool_decide (m_identity_revision <$> memories (outbox s) !! (wc_account c, wc_episode_id c) = Some (wc_identity_revision c))
  | None => false
  end.

(** [floor(extract(epoch FROM (clock_timestamp() + lease)) * 1000)] *)
Definition lease_end_ms (lease_seconds : Z) : Z := (now + lease_seconds * 1000000) / 1000.

(** The row, the fence and the lane of a claim. *)
Definition publish_webhook_claim (c : WebhookDeliveryCandidate) (request : FrozenWebhookDelivery) (token : str) (lease_ms attempts : Z)
    (o : Outbox) : Outbox :=
  set_webhook
    (alter (claimed now attempts token (lease_ms * 1000) request) (wc_account c, wc_event c) (webhooks o))
    (<[(wc_account c, wc_event c) := {| wf_subscription := wc_subscription c; wf_claim := token; wf_lease_ms := lease_ms;
       wf_endpoint_url := fw_endpoint_url request; wf_signing_secret := fw_signing_secret request;
       wf_include_content := fw_include_content request |}]> (webhook_fences o))
    (take_lane token (lease_ms * 1000) (webhook_lane o)) o.

(** Primary key and unique claim of [webhook_send_fences]. *)
Definition webhook_fence_exists (account event token : str) s : bool :=
  bool_decide (is_Some (webhook_fences (outbox s) !! (account, event)))
  || some_row (fun kv => str_eqb (wf_claim kv.2) token) (webhook_fences (outbox s)).

Definition claim_webhook (token : str) (c : WebhookDeliveryCandidate) (request : FrozenWebhookDelivery) (lease_seconds : Z) :
    txn (option WebhookDeliveryClaim) :=
  abort_if (webhook_claim_refused c request lease_seconds) (Errors.Store (lit "webhook delivery candidate is invalid")) ^;
  try_res (bounded (fw_endpoint_url request) 2048 "webhook endpoint") ^;
  try_res (bounded (fw_signing_secret request) 512 "webhook signing secret") ^;
  try_res (bounded (fw_event_body request) (512 * 1024) "webhook event body") ^;
  or_rollback (
    execute (set_outbox (recover_expired_webhook_claims now (wc_account c))) ^;
    let^ available := select (fun s => lane_available now (webhook_lane (outbox s))) in
    if negb available then commits None
    else
      let^ current := select (candidate_webhook c) in
      when_some current (fun r =>
        let^ authorized := select (webhook_authorized c request r) in
        if negb authorized then commits None
        else
          let attempts := wc_attempt_count c + 1 in
          let lease_ms := lease_end_ms lease_seconds in
          let^ fenced := select (webhook_fence_exists (wc_account c) (wc_event c) token) in
          violates fenced ^;
          execute (set_outbox (publish_webhook_claim c request token lease_ms attempts)) ^;
          commits (Some {| wk_account := wc_account c; wk_episode_id := wc_episode_id c; wk_subscription := wc_subscription c;
            wk_version := wc_version c; wk_event := wc_event c; wk_token := token; wk_lease_expires_at := format_epoch_millis lease_ms;
            wk_attempt_count := attempts; wk_request := request |}))).

Definition webhook_settlement (outcome : WebhookProviderOutcome) : res (DeliveryState * option Z * option str * option Z) :=
  match outcome with
  | WebhookOutcome.Sent status => Ok (StDelivered, Some status, None, None)
  | WebhookOutcome.Retry status code retry_at => let? ms := outcome_time retry_at in Ok (StRetryWait, status, Some code, Some (ms * 1000))
  | WebhookOutcome.Ambiguous => Ok (StAmbiguous, None, Some (lit "outcome_unknown"), None)
  | WebhookOutcome.Failed status code => Ok (StFailed, status, Some code, None)
  end.

Definition claimed_webhook (k : WebhookDeliveryClaim) s : option WebhookRow :=
  r ← webhooks (outbox s) !! (wk_account k, wk_event k);
  if (d_episode r =? wk_episode_id k) && str_eqb (d_destination r) (wk_subscription k) && (d_version r =? wk_version k) then Some r else None.

(** Whether the fence of a claim still stands with the request it froze. *)
Definition webhook_fence_stands (k : WebhookDeliveryClaim) s : bool :=
  match webhook_fences (outbox s) !! (wk_account k, wk_event k) with
  | Some f => str_eqb (wf_subscription f) (wk_subscription k) && str_eqb (wf_claim f) (wk_token k)
              && str_eqb (wf_endpoint_url f) (fw_endpoint_url (wk_request k))
              && str_eqb (wf_signing_secret f) (fw_signing_secret (wk_request k))
              && Bool.eqb (wf_include_content f) (fw_include_content (wk_request k))
  | None => false
  end.

Definition settle_webhook (k : WebhookDeliveryClaim) (outcome : WebhookProviderOutcome) (circuit_seconds : option Z) : txn unit :=
  abort_if (negb (webhook_outcome_is_valid outcome) || negb (valid_circuit circuit_seconds))
           (Errors.Store (lit "webhook delivery settlement is invalid")) ^;
  let^ row := select (claimed_webhook k) in
  let^ claimed := try_res (settlement_row row (wk_token k) "webhook") in
  match claimed with
  | None => commits tt
  | Some _ =>
    let^ fenced := select (webhook_fence_stands k) in
    abort_if (negb fenced) (Conflict (lit "webhook disclosure fence disappeared")) ^;
    let^ settled := try_res (webhook_settlement outcome) in
    let '(state, status, error_code, retry_at) := settled in
    execute (set_outbox (fun o =>
      set_webhook (alter (closed now (wk_token k) state error_code status retry_at) (wk_account k, wk_event k) (webhooks o))
        (drop_webhook_fence (wk_account k) (wk_event k) (wk_token k) o)
        (settle_lane now (wk_token k) circuit_seconds (webhook_lane o)) o))
  end.

Definition subscription_in_flight (account subscription : str) s : bool :=
  some_row (fun kv => str_eqb kv.1.1 account && str_eqb (wf_subscription kv.2) subscription) (webhook_fences (outbox s)).

Definition send_in_flight : EnclaveError := Conflict (lit "webhook subscription has an in-flight send").

Definition cancel_webhook_deliveries (account subscription : str) : txn unit :=
  execute (set_outbox (recover_expired_webhook_claims now account)) ^;
  let^ open := select (fun s =>
    some_row (fun kv => str_eqb kv.1.1 account && str_eqb (d_destination kv.2) subscription && bool_decide (d_state kv.2 = StProcessing))
             (webhooks (outbox s)) || subscription_in_flight account subscription s) in
  abort_if open send_in_flight ^;
  execute (update_webhooks (mark_open now account StCancelled "subscription_deleted" (fun r => str_eqb (d_destination r) subscription))).

(** ** Pushes *)

(** The enabled installation a binding names, when the account may be
    delivered to. *)
Definition bound_installation (account binding : str) s : option (str * InstallationRow) :=
  if is_active account s
  then head (List.filter (fun kv => p_enabled kv.2 && str_eqb binding (binding_of kv.1 (p_token_generation kv.2)))
               ((fun kv => (kv.1.2, kv.2)) <$> List.filter (fun kv => str_eqb kv.1.1 account) (map_to_list (installations (outbox s)))))
  else None.

Definition push_candidate (account : str) s (kv : (str * str) * PushRow) : option PushDeliveryCandidate :=
  let r := kv.2 in
  if str_eqb kv.1.1 account && due now r && negb (waits_for_earlier account kv.1.2 r (pushes (outbox s)))
  then
    '(id, p) ← bound_installation account (d_destination r) s;
    Some {| pc_account := account; pc_episode_id := d_episode r; pc_binding := d_destination r; pc_installation := id;
            pc_version := d_version r; pc_delivery := kv.1.2; pc_handoff := d_extra r; pc_attempt_count := d_attempts r;
            pc_created_at := format_epoch_millis (d_created r / 1000); pc_topic := p_topic p; pc_environment := p_environment p;
            pc_device_token := p_device_token p; pc_token_generation := p_token_generation p |}
  else None.

Definition next_push_candidate (account : str) : txn (option PushDeliveryCandidate) :=
  execute (set_outbox (recover_expired_push_claims now account)) ^;
  execute (update_pushes (mark_open now account StCancelled "delivery_expired" (expired_row now))) ^;
  execute (fun s => update_pushes (mark_open now account StCancelled "push_not_authorized"
    (fun r => bool_decide (bound_installation account (d_destination r) s = None))) s) ^;
  select (fun s => first_due (push_candidate account s) (pushes (outbox s))).

Definition push_claim_refused (c : PushDeliveryCandidate) (request : FrozenPushDelivery) (lease_seconds : Z) : bool :=
  negb ((1 <=? lease_seconds) && (lease_seconds <=? 120)) || (pc_attempt_count c <? 0) || (10 <=? pc_attempt_count c)
  || negb (str_eqb (fp_topic request) (pc_topic c)) || negb (str_eqb (fp_environment request) (pc_environment c))
  || negb (str_eqb (fp_device_token request) (pc_device_token c)) || negb (fp_token_generation request =? pc_token_generation c)
  || (fp_token_generation request <=? 0).

Definition candidate_push (c : PushDeliveryCandidate) s : option PushRow :=
  r ← pushes (outbox s) !! (pc_account c, pc_delivery c);
  if (d_episode r =? pc_episode_id c) && (d_version r =? pc_version c) && str_eqb (d_destination r) (pc_binding c) && due now r
  then Some r else None.

Definition push_authorized (c : PushDeliveryCandidate) (request : FrozenPushDelivery) (r : PushRow) s : bool :=
  match installations (outbox s) !! (pc_account c, pc_installation c) with
  | Some p =>
    is_active (pc_account c) s && p_enabled p && str_eqb (p_topic p) (fp_topic request) && str_eqb (p_environment p) (fp_environment request)
    && str_eqb (p_device_token p) (fp_device_token request) && (p_token_generation p =? fp_token_generation request)
    && (d_attempts r =? pc_attempt_count c)
  | None => false
  end.

Definition publish_push_claim (c : PushDeliveryCandidate) (request : FrozenPushDelivery) (token : str) (lease_ms attempts : Z)
    (o : Outbox) : Outbox :=
  set_push
    (alter (claimed now attempts token (lease_ms * 1000) request) (pc_account c, pc_delivery c) (pushes o))
    (<[(pc_account c, pc_installation c) := {| pf_token_generation := fp_token_generation request; pf_claim := token;
       pf_lease_ms := lease_ms |}]> (push_fences o))
    (take_lane token (lease_ms * 1000) (push_lane o)) o.

Definition push_fence_exists (account installation token : str) s : bool :=
  bool_decide (is_Some (push_fences (outbox s) !! (account, installation)))
  || some_row (fun kv => str_eqb (pf_claim kv.2) token) (push_fences (outbox s)).

Definition claim_push (token : str) (c : PushDeliveryCandidate) (request : FrozenPushDelivery) (lease_seconds : Z) :
    txn (option PushDeliveryClaim) :=
  abort_if (push_claim_refused c request lease_seconds) (Errors.Store (lit "push delivery candidate is invalid")) ^;
  try_res (bounded (fp_topic request) 256 "push topic") ^;
  try_res (bounded (fp_environment request) 32 "push environment") ^;
  try_res (bounded (fp_device_token request) 512 "push device token") ^;
  or_rollback (
    execute (set_outbox (recover_expired_push_claims now (pc_account c))) ^;
    let^ available := select (fun s => lane_available now (push_lane (outbox s))) in
    if negb available then commits None
    else
      let^ current := select (candidate_push c) in
      when_some current (fun r =>
        let^ authorized := select (push_authorized c request r) in
        if negb authorized then commits None
        else
          let attempts := pc_attempt_count c + 1 in
          let lease_ms := lease_end_ms lease_seconds in
          let^ fenced := select (push_fence_exists (pc_account c) (pc_installation c) token) in
          violates fenced ^;
          execute (set_outbox (publish_push_claim c request token lease_ms attempts)) ^;
          commits (Some {| pk_account := pc_account c; pk_episode_id := pc_episode_id c; pk_binding := pc_binding c;
            pk_installation := pc_installation c; pk_version := pc_version c; pk_delivery := pc_delivery c; pk_handoff := pc_handoff c;
            pk_token := token; pk_lease_expires_at := format_epoch_millis lease_ms; pk_attempt_count := attempts;
            pk_created_at := pc_created_at c; pk_request := request |}))).

Definition push_settlement (outcome : PushProviderOutcome) : res (DeliveryState * option Z * option str * option Z) :=
  match outcome with
  | PushOutcome.Accepted status => Ok (StDelivered, Some status, None, None)
  | PushOutcome.Retry status code retry_at => let? ms := outcome_time retry_at in Ok (StRetryWait, status, Some code, Some (ms * 1000))
  | PushOutcome.Ambiguous => Ok (StAmbiguous, None, Some (lit "outcome_unknown"), None)
  | PushOutcome.Failed status code => Ok (StFailed, status, Some code, None)
  | PushOutcome.TokenTerminal status code => Ok (StFailed, Some status, Some code, None)
  end.

Definition claimed_push (k : PushDeliveryClaim) s : option PushRow :=
  r ← pushes (outbox s) !! (pk_account k, pk_delivery k);
  if (d_episode r =? pk_episode_id k) && str_eqb (d_destination r) (pk_binding k) && (d_version r =? pk_version k) then Some r else None.

Definition push_fence_stands (k : PushDeliveryClaim) s : bool :=
  match push_fences (outbox s) !! (pk_account k, pk_installation k) with
  | Some f => (pf_token_generation f =? fp_token_generation (pk_request k)) && str_eqb (pf_claim f) (pk_token k)
  | None => false
  end.

(** The token the provider says is dead is not sent to again. *)
Definition retire_token (account installation : str) (generation : Z) : Db Outbox -> Db Outbox :=
  set_outbox (set_installations
    (alter (fun p => if p_token_generation p =? generation then disable_installation p else p) (account, installation))).

Definition settle_push (k : PushDeliveryClaim) (outcome : PushProviderOutcome) (circuit_seconds : option Z) : txn unit :=
  abort_if (negb (push_outcome_is_valid outcome) || negb (valid_circuit circuit_seconds))
           (Errors.Store (lit "push delivery settlement is invalid")) ^;
  let^ row := select (claimed_push k) in
  let^ claimed := try_res (settlement_row row (pk_token k) "push") in
  match claimed with
  | None => commits tt
  | Some _ =>
    let^ fenced := select (push_fence_stands k) in
    abort_if (negb fenced) (Conflict (lit "push disclosure fence disappeared")) ^;
    let^ settled := try_res (push_settlement outcome) in
    let '(state, status, error_code, retry_at) := settled in
    execute (set_outbox (fun o =>
      set_push (alter (closed now (pk_token k) state error_code status retry_at) (pk_account k, pk_delivery k) (pushes o))
        (drop_push_fences (pk_account k) (pk_token k) (push_fences o))
        (settle_lane now (pk_token k) circuit_seconds (push_lane o)) o)) ^;
    match outcome with
    | PushOutcome.TokenTerminal _ _ => execute (retire_token (pk_account k) (pk_installation k) (fp_token_generation (pk_request k)))
    | _ => commits tt
    end
  end.

(** The memory a notification's handle opens. *)
Definition resolve_push_handoff (account handle : str) s : option Z :=
  (fun kv => d_episode kv.2) <$> List.find (fun kv =>
    str_eqb kv.1.1 account && str_eqb (handoff_handle (d_extra kv.2)) handle
    && negb (bool_decide (d_state kv.2 = StFailed)) && negb (bool_decide (d_state kv.2 = StCancelled))
    && match memories (outbox s) !! (account, d_episode kv.2) with Some m => m_complete m | None => false end)
    (map_to_list (pushes (outbox s))).

(** ** Destinations *)

Record WebhookSubscription := {
  ws_id : str; ws_user_id : str; ws_name : str; ws_endpoint_url : str; ws_signing_secret : str; ws_include_content : bool;
  ws_enabled : bool; ws_created_at : str
}.

Record PushInstallation := {
  pi_id : str; pi_user_id : str; pi_platform : str; pi_topic : str; pi_environment : str; pi_device_token : str;
  pi_token_generation : Z; pi_enabled : bool
}.

Definition webhook_from_row (account id : str) (r : SubscriptionRow) : WebhookSubscription :=
  {| ws_id := id; ws_user_id := account; ws_name := s_name r; ws_endpoint_url := s_endpoint_url r; ws_signing_secret := s_signing_secret r;
     ws_include_content := s_include_content r; ws_enabled := s_enabled r; ws_created_at := format_epoch_millis (s_created_ms r) |}.

Definition push_from_row (account id : str) (p : InstallationRow) : PushInstallation :=
  {| pi_id := id; pi_user_id := account; pi_platform := p_platform p; pi_topic := p_topic p; pi_environment := p_environment p;
     pi_device_token := p_device_token p; pi_token_generation := p_token_generation p; pi_enabled := p_enabled p |}.

Definition require_active_account (account : str) : txn unit :=
  let^ status := select (status_of account) in
  match status with
  | None => aborts (Errors.Auth (lit "unknown user"))
  | Some status => abort_if (negb (str_eqb status (lit "active"))) (Errors.Auth (lit "account inactive or deleting"))
  end.

Definition rows_of {V} (account : str) (rows : gmap (str * str) V) : list (str * V) :=
  (fun kv => (kv.1.2, kv.2)) <$> List.filter (fun kv => str_eqb kv.1.1 account) (map_to_list rows).

Definition list_webhook_subscriptions (account : str) s : list WebhookSubscription :=
  (fun kv => webhook_from_row account kv.1 kv.2) <$> sort_by_key (fun kv => (s_created_ms kv.2, kv.1)) (rows_of account (subscriptions (outbox s))).

Definition get_webhook_subscription (account id : str) s : option WebhookSubscription :=
  webhook_from_row account id <$> subscriptions (outbox s) !! (account, id).

Definition create_webhook_subscription (w : WebhookSubscription) : txn unit :=
  require_active_account (ws_user_id w) ^;
  let^ count := select (fun s => Z.of_nat (length (rows_of (ws_user_id w) (subscriptions (outbox s))))) in
  abort_if (5 <=? count) (Conflict (lit "at most five webhook destinations are allowed")) ^;
  let^ created_at := try_res (ok_or (parse_epoch_millis (ws_created_at w)) (invalid "invalid webhook timestamp")) in
  let^ taken := select (fun s => bool_decide (is_Some (subscriptions (outbox s) !! (ws_user_id w, ws_id w)))) in
  abort_if taken (Conflict (lit "webhook subscription already exists")) ^;
  execute (set_outbox (set_subscriptions (insert (ws_user_id w, ws_id w)
    {| s_name := ws_name w; s_endpoint_url := ws_endpoint_url w; s_signing_secret := ws_signing_secret w;
       s_include_content := ws_include_content w; s_enabled := ws_enabled w; s_created_ms := created_at |}))).

Definition disable_webhook_subscription (account id : str) : txn unit :=
  let^ in_flight := select (subscription_in_flight account id) in
  abort_if in_flight send_in_flight ^;
  execute (set_outbox (set_subscriptions (alter (fun r =>
    {| s_name := s_name r; s_endpoint_url := s_endpoint_url r; s_signing_secret := s_signing_secret r;
       s_include_content := s_include_content r; s_enabled := false; s_created_ms := s_created_ms r |}) (account, id)))).

Definition delete_webhook_subscription (account id : str) : txn bool :=
  let^ in_flight := select (subscription_in_flight account id) in
  abort_if in_flight send_in_flight ^;
  let^ deleted := select (fun s => bool_decide (is_Some (subscriptions (outbox s) !! (account, id)))) in
  execute (set_outbox (set_subscriptions (delete (account, id)))) ^;
  commits deleted.

(** A device token is one installation's: the same token under the topic and
    environment. *)
Definition same_device (i : PushInstallation) (p : InstallationRow) : bool :=
  str_eqb (p_topic p) (pi_topic i) && str_eqb (p_environment p) (pi_environment i) && str_eqb (p_device_token p) (pi_device_token i).

Definition registration_fenced (i : PushInstallation) s : bool :=
  some_row (fun kv => str_eqb kv.1.2 (pi_id i)
                      || match installations (outbox s) !! kv.1 with Some p => same_device i p | None => false end)
           (push_fences (outbox s)).

(** The generation of a registration: a new one, unless nothing changed. *)
Definition registered_generation (i : PushInstallation) : txn Z :=
  let^ existing := select (fun s => installations (outbox s) !! (pi_user_id i, pi_id i)) in
  match existing with
  | Some p =>
    if p_enabled p && same_device i p then commits (p_token_generation p)
    else execute (set_outbox next_generation) ^; select (fun s => generations (outbox s))
  | None => execute (set_outbox next_generation) ^; select (fun s => generations (outbox s))
  end.

Definition enabled_installations (account : str) s : list (str * InstallationRow) :=
  List.filter (fun kv => p_enabled kv.2) (rows_of account (installations (outbox s))).

(** The least recently seen of the account's other installations. *)
Definition evicted (account id : str) (excess : nat) s : list str :=
  take excess (fst <$> sort_by_key (fun kv => (p_last_seen kv.2, kv.1))
    (List.filter (fun kv => negb (str_eqb kv.1 id)) (enabled_installations account s))).

Definition remove_installations (gone : str * str -> InstallationRow -> bool) : Db Outbox -> Db Outbox :=
  set_outbox (set_installations (filter (fun kv => gone kv.1 kv.2 = false))).

Definition upsert_push_installation (i : PushInstallation) : txn PushInstallation :=
  let account := pi_user_id i in
  require_active_account account ^;
  let^ fenced := select (registration_fenced i) in
  abort_if fenced (Conflict (lit "push installation has an in-flight send")) ^;
  let^ generation := registered_generation i in
  execute (remove_installations (fun k p => same_device i p && negb (str_eqb k.1 account && str_eqb k.2 (pi_id i)))) ^;
  execute (set_outbox (set_installations (insert (account, pi_id i)
    {| p_platform := pi_platform i; p_topic := pi_topic i; p_environment := pi_environment i; p_device_token := pi_device_token i;
       p_token_generation := generation; p_enabled := true; p_last_seen := now |}))) ^;
  let^ excess := select (fun s => (length (enabled_installations account s) - 10)%nat) in
  let^ victims := select (evicted account (pi_id i) excess) in
  (if (0 <? excess)%nat
   then
     let^ crossing := select (fun s =>
       some_row (fun kv => str_eqb kv.1.1 account && bool_decide (kv.1.2 ∈ victims)) (push_fences (outbox s))) in
     abort_if crossing (Conflict (lit "push installation eviction would cross an in-flight send")) ^;
     execute (remove_installations (fun k _ => str_eqb k.1 account && bool_decide (k.2 ∈ victims)))
   else commits tt) ^;
  execute (fun s => remove_installations (fun k p =>
    str_eqb k.1 account && negb (p_enabled p) && bool_decide (push_fences (outbox s) !! k = None)) s) ^;
  let^ installed := select (fun s => installations (outbox s) !! (account, pi_id i)) in
  let^ p := try_res (ok_or installed Postgres) in
  commits (push_from_row account (pi_id i) p).

Definition list_push_installations (account : str) s : list PushInstallation :=
  (fun kv => push_from_row account kv.1 kv.2) <$> sort_by_key fst (enabled_installations account s).

Definition delete_push_installation (account id : str) : txn bool :=
  let^ in_flight := select (fun s => bool_decide (is_Some (push_fences (outbox s) !! (account, id)))) in
  abort_if in_flight (Conflict (lit "push installation has an in-flight send")) ^;
  let^ changed := select (fun s => match installations (outbox s) !! (account, id) with Some p => p_enabled p | None => false end) in
  execute (set_outbox (set_installations (alter disable_installation (account, id)))) ^;
  commits changed.

(** ** Finalization and deletion of an episode

    The part of [persistence/postgres/finalization.rs] that enqueues the
    deliveries of a first final brief, and the statement by which
    [persistence/postgres/episode_deletion.rs] deletes an episode. *)

Record Destinations := {
  webhook_destinations : list (str * str);                       (* subscription and event *)
  push_destinations : list (str * str * Handoff)                 (* binding and delivery *)
}.

Definition enqueue_webhook (account : str) (episode version : Z) (o : Outbox) (e : str * str) : Outbox :=
  set_webhook (enqueue now account e.2 episode e.1 version tt (webhooks o)) (webhook_fences o) (webhook_lane o) o.

Definition enqueue_push (account : str) (episode version : Z) (o : Outbox) (e : str * str * Handoff) : Outbox :=
  set_push (enqueue now account e.1.2 episode e.1.1 version e.2 (pushes o)) (push_fences o) (push_lane o) o.

Definition enqueue_deliveries (account : str) (episode version : Z) (d : Destinations) : Db Outbox -> Db Outbox :=
  set_outbox (fun o => fold_left (enqueue_push account episode version) (push_destinations d)
                         (fold_left (enqueue_webhook account episode version) (webhook_destinations d) o)).

Definition erase_episode (account : str) (episode : Z) : Db Outbox -> Db Outbox := set_outbox (delete_episode account episode).

(** ** The status of a subscription's deliveries *)

Record WebhookDeliveryStatusEntry := {
  en_outcome : string; en_attempt_count : option Z; en_response_status : option Z; en_updated_at : option str
}.

Record WebhookDeliveryStatusSummary := {
  n_pending : Z; n_retry : Z; n_sent : Z; n_failed : Z; n_ambiguous : Z; n_cancelled : Z; n_latest : option WebhookDeliveryStatusEntry
}.

Definition outcome_name (state : DeliveryState) : string :=
  match state with
  | StPending | StProcessing => "pending"
  | StRetryWait => "retry"
  | StDelivered => "sent"
  | StFailed => "failed"
  | StAmbiguous => "ambiguous"
  | StCancelled => "cancelled"
  end.

Definition subscription_rows (account subscription : str) s : list (str * WebhookRow) :=
  List.filter (fun kv => str_eqb (d_destination kv.2) subscription) (rows_of account (webhooks (outbox s))).

Definition status_entry (r : WebhookRow) : WebhookDeliveryStatusEntry :=
  {| en_outcome := outcome_name (d_state r);
     en_attempt_count := if (0 <=? d_attempts r) && (d_attempts r <=? 10) then Some (d_attempts r) else None;
     en_response_status := match d_response r with Some c => if valid_http_status c then Some c else None | None => None end;
     en_updated_at := Some (format_epoch_millis (d_updated r / 1000)) |}.

Definition webhook_delivery_status (account subscription : str) s : WebhookDeliveryStatusSummary :=
  let rows := subscription_rows account subscription s in
  let count name := Z.of_nat (length (List.filter (fun kv => String.eqb (outcome_name (d_state kv.2)) name) rows)) in
  {| n_pending := count "pending"; n_retry := count "retry"; n_sent := count "sent"; n_failed := count "failed";
     n_ambiguous := count "ambiguous"; n_cancelled := count "cancelled";
     n_latest := (fun kv => status_entry kv.2) <$> last (sort_by_key (fun kv : str * WebhookRow => (d_updated kv.2, kv.1)) rows) |}%string.
End Transactions.
