(* ===== verification/Webhook.v ===== *)
(** * Webhooks: destinations, signatures and the request

    The first half of [cp/webhook_worker.rs]: which endpoints are accepted,
    which addresses are public, the signature of an event, the address a
    request is pinned to, and the classification of what came of it.  The URL
    parser ([reqwest::Url]), HMAC-SHA256, base64 and [serde_json]'s printer
    are parameters. *)
From Stdlib Require Import ZArith Lia.
From S2P Require Import Prelude OrdMap Text Errors Bytes Json IsoTime Net Txn AccountDb OutboxDb Outbox.
From S2P Require Finalizer.
Local Open Scope Z_scope.
Local Open Scope kioku_scope.

Definition MAX_ATTEMPTS : Z := 10.
Definition MAX_PROVIDER_CALLS_PER_ACCOUNT : nat := 2.
Definition MAX_DNS_ANSWERS : nat := 64.
Definition WEBHOOK_SOURCE : string := "https://api.kiokuu.com".

Inductive SendFailure := InvalidEndpoint | Preflight | Ambiguous.

Record WebhookTransportResponse := { tr_status : Z; tr_retry_after_seconds : option Z }.

Record WebhookRequest := { rq_endpoint_url : str; rq_signing_secret : str; rq_event_id : str; rq_body : bytes }.

(** What the worker reads of a parsed URL. *)
Record Url := {
  scheme : str; host_str : option str; username : str; password : option str; fragment : option str;
  port_or_known_default : option Z
}.

(** ** Public addresses *)

Definition octet (l : list Z) (i : nat) : Z := default 0 (l !! i).

Definition is_public_ipv4 (l : list Z) : bool :=
  let a := octet l 0 in let b := octet l 1 in let c := octet l 2 in
  negb ((a =? 0) || (a =? 10) || (a =? 127)
        || ((a =? 100) && ((64 <=? b) && (b <=? 127)))
        || ((a =? 169) && (b =? 254))
        || ((a =? 172) && ((16 <=? b) && (b <=? 31)))
        || ((a =? 192) && (b =? 0) && (c =? 0))
        || ((a =? 192) && (b =? 0) && (c =? 2))
        || ((a =? 192) && (b =? 168))
        || ((a =? 198) && ((b =? 18) || (b =? 19)))
        || ((a =? 198) && (b =? 51) && (c =? 100))
        || ((a =? 203) && (b =? 0) && (c =? 113))
        || (224 <=? a)).

Definition is_public_ipv6 (l : list Z) : bool :=
  match to_ipv4_mapped l with
  | Some v4 => is_public_ipv4 v4
  | None =>
    negb (is_unspecified_v6 l || is_loopback (V6 l) || is_multicast_v6 l
          || negb (Z.land (segment l 0) 0xe000 =? 0x2000)
          || (Z.land (segment l 0) 0xfe00 =? 0xfc00)
          || (Z.land (segment l 0) 0xffc0 =? 0xfe80)
          || ((segment l 0 =? 0x2001) && (segment l 1 =? 0x0db8))
          || ((segment l 0 =? 0x2001) && (segment l 1 =? 0))
          || ((segment l 0 =? 0x2001) && (Z.land (segment l 1) 0xfff0 =? 0x0020))
          || (segment l 0 =? 0x2002))
  end.

Definition is_public_ip (ip : IpAddr) : bool := match ip with V4 l => is_public_ipv4 l | V6 l => is_public_ipv6 l end.

(** ** Endpoints *)

(** [host.strip_prefix('[').and_then(|v| v.strip_suffix(']')).unwrap_or(host)] *)
Definition bare_host (host : str) : str :=
  default host (inner ← strip_prefix (lit "[") host; strip_suffix (lit "]") inner).

Definition trim_end_dots (s : str) : str := reverse (drop_while (N.eqb (ch ".")) (reverse s)).

Definition private_name (host : str) : bool :=
  let host := to_ascii_lowercase (trim_end_dots host) in
  str_eqb host (lit "localhost") || ends_with (lit ".localhost") host || ends_with (lit ".local") host || ends_with (lit ".internal") host.

Section Endpoints.
Context (parse_url : str -> option Url).

Definition validate_endpoint_syntax (endpoint : str) : res Url :=
  let? _ := refuse (2048 <? byte_len endpoint) (invalid "webhook endpoint is too long") in
  let? url := ok_or (parse_url endpoint) (invalid "webhook endpoint is not a valid URL") in
  let? host := ok_or (host_str url) (invalid "webhook endpoint needs a host") in
  let? _ := refuse (negb (str_eqb (scheme url) (lit "https")) || negb (is_empty (username url)) || bool_decide (is_Some (password url))
                    || bool_decide (is_Some (fragment url)) || negb (bool_decide (port_or_known_default url = Some 443)))
                   (invalid "webhook endpoint must use HTTPS port 443 without credentials or a fragment") in
  let? _ := refuse (private_name host) (invalid "webhook endpoint must use a public host") in
  let? _ := refuse match parse_ip (bare_host host) with Some ip => negb (is_public_ip ip) | None => false end
                   (invalid "webhook endpoint must use a public address") in
  Ok url.

(** The origin shown in place of an endpoint. *)
Definition endpoint_display (endpoint : str) : str :=
  match url ← parse_url endpoint; host ← host_str url; Some (url, host) with
  | Some (url, host) =>
    let bare := bare_host host in
    let host := if existsb (N.eqb (ch ":")) bare then lit "[" ++ bare ++ lit "]" else bare in
    scheme url ++ lit "://" ++ host ++ lit "/" ++ [ellipsis]
  | None => lit "Invalid endpoint"
  end.

(** Where a request to an endpoint goes, given the answer of the resolver for
    its host. *)
Definition endpoint_host (endpoint : str) : result SendFailure (Url * str) :=
  match validate_endpoint_syntax endpoint with
  | Ok url => match host_str url with Some host => Ok (url, bare_host host) | None => Err InvalidEndpoint end
  | Err _ => Err InvalidEndpoint
  end.

Definition family (address : IpAddr * Z) : Z := match address.1 with V4 _ => 0 | V6 _ => 1 end.

Definition pinned_address (answer : option (list (IpAddr * Z))) : result SendFailure (IpAddr * Z) :=
  match answer with
  | None => Err Preflight
  | Some l =>
    let addresses := take (MAX_DNS_ANSWERS + 1) l in
    if is_empty addresses then Err Preflight
    else if (MAX_DNS_ANSWERS <? length addresses)%nat then Err Preflight
    else if existsb (fun a => negb (is_public_ip a.1)) addresses then Err InvalidEndpoint
    else match sort_by_key family addresses with a :: _ => Ok a | [] => Err Preflight end
  end.
End Endpoints.

(** ** Signatures *)

Section Signatures.
Context (hmac_sha256 : bytes -> bytes -> bytes) (b64_encode : bytes -> str) (b64_decode : str -> option bytes).

(** What is signed. *)
Definition signed_message (event_id : str) (timestamp : Z) (body : bytes) : bytes :=
  as_bytes event_id ++ lit "." ++ as_bytes (dec timestamp) ++ lit "." ++ body.

Definition signature (secret event_id : str) (timestamp : Z) (body : bytes) : res str :=
  let? encoded := ok_or (strip_prefix (lit "whsec_") secret) (Config (lit "webhook signing secret has an invalid format")) in
  let? key := ok_or (b64_decode encoded) (Config (lit "webhook signing secret is invalid")) in
  Ok (lit "v1," ++ b64_encode (hmac_sha256 key (signed_message event_id timestamp body))).

(** [random] are thirty-two bytes of the thread's generator. *)
Definition new_signing_secret (random : bytes) : str := lit "whsec_" ++ b64_encode random.
End Signatures.

Definition new_event_id (random : str) : str := lit "w1_" ++ random.

(** [value.parse::<u64>()] *)
Definition parse_u64 (s : str) : option Z :=
  v ← parse_digits (default s (strip_prefix (lit "+") s)); if v <=? 2 ^ 64 - 1 then Some v else None.

Definition clamp_delay (seconds : Z) : Z := Z.max 1 (Z.min seconds (6 * 60 * 60)).

(** [Retry-After], when it is a number of seconds. *)
Definition retry_after (header : option str) : option Z := v ← header; clamp_delay <$> parse_u64 v.

(** ** Events *)

Definition cloud_event (event_id : str) (event_type : string) (subject time : str) (data : Value) : Value :=
  object [("specversion", VString (lit "1.0")); ("id", VString event_id); ("source", VString (lit WEBHOOK_SOURCE));
          ("type", VString (lit event_type)); ("subject", VString subject); ("time", VString time);
          ("datacontenttype", VString (lit "application/json")); ("data", data)]%string.

Definition optional_text (o : option str) : Value := of_option VString o.

Definition evidence_json (e : Finalizer.EvidenceRef) : Value :=
  object [("record_type", VString (Finalizer.record_type e)); ("record_id", of_Z (Finalizer.record_id e))]%string.

Definition section_kind_json (k : Finalizer.BriefSectionKind) : Value :=
  VString (lit match k with
               | Finalizer.Bullets => "bullets" | Finalizer.SectionText => "text" | Finalizer.Tasks => "tasks"
               | Finalizer.Decisions => "decisions"
               end).

(** An absent owner or due time is left out. *)
Definition section_item_json (i : Finalizer.BriefSectionItem) : Value :=
  let v := object [("text", VString (Finalizer.item_text i)); ("evidence", VArray (evidence_json <$> Finalizer.evidence i))]%string in
  let v := match Finalizer.item_owner i with Some o => set_field (lit "owner") (VString o) v | None => v end in
  match Finalizer.due_at i with Some d => set_field (lit "due_at") (VString d) v | None => v end.

Definition section_json (s : Finalizer.BriefSection) : Value :=
  object [("title", VString (Finalizer.section_title s)); ("kind", section_kind_json (Finalizer.section_kind s));
          ("items", VArray (section_item_json <$> Finalizer.items s))]%string.

Definition action_item_json (a : ActionItemDetail) : Value :=
  object [("text", VString (ai_text a)); ("owner", VString (ai_owner a)); ("due_at", optional_text (ai_due_at a))]%string.

Definition link_json (l : LinkDetail) : Value :=
  object [("url", VString (l_url l)); ("label", VString (l_label l)); ("why_it_matters", VString (l_why_it_matters l))]%string.

Definition decision_json (text : str) : Value := object [("text", VString text)]%string.

Definition final_brief_json (e : FinalizedEpisode) : Value :=
  object [("overview", VString (fe_overview e));
          ("sections", of_option (fun l => VArray (section_json <$> l)) (fe_sections e));
          ("decisions", VArray (decision_json <$> fe_decisions e));
          ("action_items", VArray (action_item_json <$> fe_action_items e));
          ("important_links", VArray (link_json <$> fe_important_links e));
          ("open_questions", of_strs (fe_open_questions e))]%string.

(** The content of an episode, which an event holds only if its destination
    is to be sent it. *)
Definition with_content (e : FinalizedEpisode) (data : Value) : Value :=
  set_field (lit "final_brief") (final_brief_json e)
    (set_field (lit "participants") (of_strs (fe_participants e))
      (set_field (lit "episode_type") (optional_text (fe_episode_type e))
        (set_field (lit "ended_at") (VString (fe_ended_at e))
          (set_field (lit "started_at") (VString (fe_started_at e))
            (set_field (lit "title") (VString (fe_title e)) data))))).

Definition event_data (web_origin : str) (c : WebhookDeliveryCandidate) : Value :=
  let kioku_url := web_origin ++ lit "/app#memory/" ++ dec (wc_episode_id c) in
  let data := object [("episode_id", of_Z (wc_episode_id c)); ("finalized_at", VString (fe_finalized_at (wc_episode c)));
    ("kioku_url", VString kioku_url);
    ("content_included", VBool (wc_include_content c))]%string in
  if wc_include_content c then with_content (wc_episode c) data else data.

Definition finalized_event (web_origin : str) (c : WebhookDeliveryCandidate) : Value :=
  cloud_event (wc_event c) "com.kiokuu.episode.finalized.v1" (lit "episode/" ++ dec (wc_episode_id c))
    (fe_finalized_at (wc_episode c)) (event_data web_origin c).

(** ** What came of a request *)

Definition retryable_status (status : Z) : bool :=
  (status =? 408) || (status =? 425) || (status =? 429) || ((500 <=? status) && (status <? 600)).

Definition retry_delay (attempt : Z) : Z :=
  let exponent := Z.max 0 (Z.min (I64.clamp (attempt - 1)) 8) in
  Z.min (30 * 2 ^ exponent) (6 * 60 * 60).

Definition add_seconds (kind : string) (timestamp : str) (seconds : Z) : res str :=
  let? millis := ok_or (value ← parse_epoch_millis timestamp; delta ← in_i64 (seconds * 1000); in_i64 (value + delta))
                       (Errors.Store (lit kind ++ lit " retry timestamp overflow")) in
  Ok (format_epoch_millis millis).

Definition http_code (status : Z) : str := lit "http_" ++ dec status.

Definition classify_webhook_transport_result (result_ : result SendFailure WebhookTransportResponse) (attempt_count : Z) (outcome_at : str) :
    res (WebhookProviderOutcome * option Z) :=
  match result_ with
  | Ok response =>
    let status := tr_status response in
    if (200 <=? status) && (status <? 300) then Ok (WebhookOutcome.Sent status, None)
    else if retryable_status status then
      if MAX_ATTEMPTS <=? attempt_count then Ok (WebhookOutcome.Failed (Some status) (lit "attempt_cap"), None)
      else
        let delay := default (retry_delay attempt_count) (s ← tr_retry_after_seconds response; in_i64 s) in
        let? retry_at := add_seconds "webhook" outcome_at delay in
        Ok (WebhookOutcome.Retry (Some status) (http_code status) retry_at,
            if (status =? 429) || (500 <=? status) then Some (clamp_delay delay) else None)
    else Ok (WebhookOutcome.Failed (Some status) (http_code status), None)
  | Err InvalidEndpoint => Ok (WebhookOutcome.Failed None (lit "invalid_endpoint"), None)
  | Err Preflight =>
    if attempt_count <? MAX_ATTEMPTS
    then let? retry_at := add_seconds "webhook" outcome_at 60 in
         Ok (WebhookOutcome.Retry None (lit "destination_preflight_unavailable") retry_at, None)
    else Ok (WebhookOutcome.Failed None (lit "attempt_cap"), None)
  | Err Ambiguous => Ok (WebhookOutcome.Ambiguous, None)
  end.
