(* ===== verification/Push.v ===== *)
(** * Pushes: registrations, the request to APNs and its outcome

    [cp/push.rs] less its handlers: the checks of a registration, the payload,
    what APNs' answers mean, and the classification of an attempt.  The
    provider token is a JSON web token [jsonwebtoken] signs, the parameter
    [sign]; APNs answers over the network. *)
From Stdlib Require Import ZArith Lia.
From S2P Require Import Prelude OrdMap Text Errors Json IsoTime Txn AccountDb OutboxDb Outbox Webhook.
Local Open Scope Z_scope.
Local Open Scope kioku_scope.

Definition IOS_TOPIC : string := "com.kioku.ios".
Definition MACOS_TOPIC : string := "com.kiokuu.app".
Definition MAX_DELIVERIES_PER_SWEEP : nat := 2.
Definition RETRYABLE_CIRCUIT_SECONDS : Z := 60.
Definition PROVIDER_CIRCUIT_SECONDS : Z := 5 * 60.

(** ** Registrations *)

Definition is_ascii_hexdigit (c : char) : bool :=
  is_ascii_digit c || ((97 <=? c) && (c <=? 102))%N || ((65 <=? c) && (c <=? 70))%N.

(** Bytes and characters agree: a character that is not ASCII fails. *)
Definition valid_uuid (value : str) : bool :=
  (byte_len value =? 36)
  && forallb (fun ib => if bool_decide (ib.1 ∈ [8; 13; 18; 23]%nat) then N.eqb ib.2 (ch "-") else is_ascii_hexdigit ib.2)
             (imap (fun i b => (i, b)) (as_bytes value)).

Definition valid_handoff (value : str) : bool :=
  (byte_len value =? 43) && forallb (fun c => is_ascii_alphanumeric c || N.eqb c (ch "-") || N.eqb c (ch "_")) (as_bytes value).

Definition valid_device_token (value : str) : bool :=
  (32 <=? byte_len value) && (byte_len value <=? 200) && (byte_len value mod 2 =? 0) && forallb is_ascii_hexdigit (as_bytes value).

Record PushInstallationBinding := { installation_id : str; token_generation : Z }.

(** [PushInstallationBinding::new] *)
Definition new_binding (installation_id : str) (token_generation : Z) : res PushInstallationBinding :=
  let? _ := refuse (negb (valid_uuid installation_id) || (token_generation <=? 0))
                   (Errors.Store (lit "push installation binding is invalid")) in
  Ok {| installation_id := installation_id; token_generation := token_generation |}.

Definition encode_binding (b : PushInstallationBinding) : str := lit "p1:" ++ installation_id b ++ lit ":" ++ dec (token_generation b).

(** ** The request *)

Record PushRequest := {
  pr_topic : str; pr_environment : str; pr_device_token : str; pr_token_generation : Z; apns_id : str; pr_collapse_id : str;
  pr_handoff_handle : str; expiration_epoch_seconds : Z
}.

Definition notification_payload (handoff_handle : str) : Value :=
  object [("aps", object [("alert", object [("title", VString (lit "Kioku")); ("body", VString (lit "Your memory is ready."))]);
                          ("category", VString (lit "KIOKU_MEMORY_READY")); ("thread-id", VString (lit "kioku.memories"))]);
          ("v", of_Z 1); ("handoff", VString handoff_handle)]%string.

(** ** APNs *)

Inductive PushRetryScope := TokenLocal | ProviderWide.

Inductive PushTransportError :=
| Retryable (status : option Z) (code : string) (retry_after_seconds : option Z) (scope : PushRetryScope)
| TokenTerminal (status : Z) (code : string)
| ProviderTerminal (status : option Z) (code : string).

(** A provider token is used for fifty minutes; the cache is a token and when
    it was made. *)
Definition provider_token (sign : Z -> option str) (now : Z) (cached : option (str * Z)) :
    result PushTransportError str * option (str * Z) :=
  match cached with
  | Some (token, created_at) =>
    if Z.max 0 (now - created_at) <? 50 * 60 then (Ok token, cached)
    else match sign now with
         | Some token => (Ok token, Some (token, now))
         | None => (Err (ProviderTerminal None "provider_token_invalid"), cached)
         end
  | None =>
    match sign now with
    | Some token => (Ok token, Some (token, now))
    | None => (Err (ProviderTerminal None "provider_token_invalid"), None)
    end
  end.

(** The reason is the one of the answer's body, if it has one. *)
Record ApnsResponse := { ar_status : Z; ar_retry_after : option str; ar_reason : option str }.

Definition apns_retry_scope (status : Z) (reason : str) : PushRetryScope :=
  if (status =? 429) && str_eqb reason (lit "TooManyRequests") then TokenLocal else ProviderWide.

(** What the answer to a request means; there is none when the network
    failed. *)
Definition apns_outcome (answer : option ApnsResponse) : result PushTransportError Z :=
  match answer with
  | None => Err (Retryable None "network" None ProviderWide)
  | Some r =>
    let status := ar_status r in
    if status =? 200 then Ok status
    else
      let reason := default [] (ar_reason r) in
      if one_of reason ["BadDeviceToken"; "DeviceTokenNotForTopic"; "Unregistered"]%string
      then Err (TokenTerminal status "invalid_device_token")
      else if (status =? 429) || (500 <=? status) then
        let scope := apns_retry_scope status reason in
        Err (Retryable (Some status)
               (match scope with
                | TokenLocal => "provider_retryable"
                | ProviderWide => if status =? 429 then "provider_token_rate_limited" else "provider_retryable"
                end)
               (retry_after (ar_retry_after r)) scope)
      else Err (ProviderTerminal (Some status) "provider_configuration")
  end.

(** Which of APNs' hosts a request is for. *)
Definition apns_endpoint (sandbox_configured : bool) (environment : str) : result PushTransportError str :=
  if str_eqb environment (lit "production") then Ok (lit "https://api.push.apple.com")
  else if str_eqb environment (lit "sandbox") then
    if sandbox_configured then Ok (lit "https://api.sandbox.push.apple.com")
    else Err (ProviderTerminal None "sandbox_unconfigured")
  else Err (ProviderTerminal None "environment_invalid").

(** ** What came of an attempt *)

Definition circuit_of (scope : PushRetryScope) (seconds : Z) : option Z :=
  match scope with ProviderWide => Some seconds | TokenLocal => None end.

Definition classify_push_transport_result (result_ : result PushTransportError Z) (attempt_count : Z) (outcome_at : str) :
    res (PushProviderOutcome * option Z) :=
  match result_ with
  | Ok status => Ok (PushOutcome.Accepted status, None)
  | Err (TokenTerminal status code) => Ok (PushOutcome.TokenTerminal status (lit code), None)
  | Err (Retryable None _ _ scope) => Ok (PushOutcome.Ambiguous, circuit_of scope RETRYABLE_CIRCUIT_SECONDS)
  | Err (Retryable (Some status) code retry_after scope) =>
    let circuit := circuit_of scope (clamp_delay (default RETRYABLE_CIRCUIT_SECONDS (in_i64 (default RETRYABLE_CIRCUIT_SECONDS retry_after)))) in
    if MAX_ATTEMPTS <=? attempt_count then Ok (PushOutcome.Failed (Some status) (lit "attempt_cap"), circuit)
    else
      let delay := clamp_delay (default (retry_delay attempt_count) (s ← retry_after; in_i64 s)) in
      let? retry_at := add_seconds "push" outcome_at delay in
      Ok (PushOutcome.Retry (Some status) (lit code) retry_at, circuit)
  | Err (ProviderTerminal status code) =>
    if MAX_ATTEMPTS <=? attempt_count then Ok (PushOutcome.Failed status (lit code), Some PROVIDER_CIRCUIT_SECONDS)
    else
      let? retry_at := add_seconds "push" outcome_at (60 * 60) in
      Ok (PushOutcome.Retry status (lit code) retry_at, Some PROVIDER_CIRCUIT_SECONDS)
  end.

(** When a push of a claim expires: a day after its delivery was made. *)
Definition push_expiration (created_at : str) : res Z :=
  let? created := ok_or (parse_epoch_millis created_at) (Errors.Store (lit "push creation time is invalid")) in
  ok_or (in_i64 (created + MAX_DELIVERY_AGE_SECONDS * 1000)) (Errors.Store (lit "push expiration overflow")).

(** [u64::try_from(expiration_millis / 1_000)] *)
Definition expiration_seconds (expiration_millis : Z) : res Z :=
  let seconds := Z.quot expiration_millis 1000 in
  let? _ := refuse (seconds <? 0) (Errors.Store (lit "push expiration is invalid")) in Ok seconds.

Definition push_request (k : PushDeliveryClaim) (expiration : Z) : PushRequest :=
  {| pr_topic := fp_topic (pk_request k); pr_environment := fp_environment (pk_request k); pr_device_token := fp_device_token (pk_request k);
     pr_token_generation := fp_token_generation (pk_request k); apns_id := pk_delivery k; pr_collapse_id := collapse_id (pk_handoff k);
     pr_handoff_handle := handoff_handle (pk_handoff k); expiration_epoch_seconds := expiration |}.
