(* ===== verification/DeliveryWorkers.v ===== *)
(** * The delivery workers and the destinations' handlers

    The effectful half of [cp/webhook_worker.rs] and [cp/push.rs], and the
    webhook handlers of [cp/query.rs].  A worker asks the outbox for a
    delivery, claims it with its request frozen, sends that request, and
    settles the claim with what came of it; every call is an event. *)
From Stdlib Require Import ZArith Lia.
From S2P Require Import Prelude OrdMap Text Errors Bytes Json IsoTime Net Effects Txn AccountDb OutboxDb Outbox Http Webhook Push.
Local Open Scope Z_scope.
Local Open Scope kioku_scope.

(** ** Calls *)

(** A request as it leaves: to a pinned address, without a proxy and without
    following redirects. *)
Record SignedPost := {
  sp_address : IpAddr * Z; sp_endpoint : str; sp_headers : list (string * str); sp_body : bytes
}.

Record HttpAnswer := { ha_status : Z; ha_retry_after : option str }.

Inductive Event :=
| NextWebhook (account : str) (r : res (option WebhookDeliveryCandidate))
| ClaimWebhook (c : WebhookDeliveryCandidate) (request : FrozenWebhookDelivery) (lease : Z) (token : str)
    (r : res (option WebhookDeliveryClaim))
| SettleWebhook (k : WebhookDeliveryClaim) (outcome : WebhookProviderOutcome) (circuit : option Z) (r : res unit)
| NextPush (account : str) (r : res (option PushDeliveryCandidate))
| ClaimPush (c : PushDeliveryCandidate) (request : FrozenPushDelivery) (lease : Z) (token : str) (r : res (option PushDeliveryClaim))
| SettlePush (k : PushDeliveryClaim) (outcome : PushProviderOutcome) (circuit : option Z) (r : res unit)
| Sleep (millis : Z)
| Clock (millis : N)
| Random (token : str)
| Resolve (host : str) (port : Z) (r : option (list (IpAddr * Z)))
| Post (p : SignedPost) (r : option HttpAnswer)
| SendPush (q : PushRequest) (r : result PushTransportError Z)
| CreateSubscription (w : WebhookSubscription) (r : res unit)
| GetSubscription (account id : str) (r : res (option WebhookSubscription))
| ListSubscriptions (account : str) (r : res (list WebhookSubscription))
| SubscriptionStatus (account id : str) (r : res WebhookDeliveryStatusSummary)
| DisableSubscription (account id : str) (r : res unit)
| CancelDeliveries (account id : str) (r : res unit)
| DeleteSubscription (account id : str) (r : res bool)
| UpsertInstallation (i : PushInstallation) (r : res PushInstallation)
| DeleteInstallation (account id : str) (r : res bool)
| ResolveHandoff (account handle : str) (r : res (option Z)).

(** What answers a call, given the calls so far; the claim's token is made by
    the repository. *)
Record Env := {
  env_next_webhook : str -> list Event -> res (option WebhookDeliveryCandidate);
  env_claim_webhook : WebhookDeliveryCandidate -> FrozenWebhookDelivery -> list Event -> str * res (option WebhookDeliveryClaim);
  env_settle_webhook : WebhookDeliveryClaim -> WebhookProviderOutcome -> option Z -> list Event -> res unit;
  env_next_push : str -> list Event -> res (option PushDeliveryCandidate);
  env_claim_push : PushDeliveryCandidate -> FrozenPushDelivery -> list Event -> str * res (option PushDeliveryClaim);
  env_settle_push : PushDeliveryClaim -> PushProviderOutcome -> option Z -> list Event -> res unit;
  env_clock : list Event -> N;  (* milliseconds since the epoch *)
  env_random : list Event -> str;
  env_resolve : str -> list Event -> option (list (IpAddr * Z));
  env_post : SignedPost -> list Event -> option HttpAnswer;
  env_send_push : PushRequest -> list Event -> result PushTransportError Z;
  env_create : WebhookSubscription -> list Event -> res unit;
  env_get : str -> str -> list Event -> res (option WebhookSubscription);
  env_list : str -> list Event -> res (list WebhookSubscription);
  env_status : str -> str -> list Event -> res WebhookDeliveryStatusSummary;
  env_disable : str -> str -> list Event -> res unit;
  env_cancel : str -> str -> list Event -> res unit;
  env_delete : str -> str -> list Event -> res bool;
  env_upsert : PushInstallation -> list Event -> res PushInstallation;
  env_delete_installation : str -> str -> list Event -> res bool;
  env_handoff : str -> str -> list Event -> res (option Z)
}.

Section Workers.
Context (parse_url : str -> option Url) (hmac_sha256 : bytes -> bytes -> bytes).
Context (b64_encode : bytes -> str) (b64_decode : str -> option bytes) (value_to_string : Value -> option str).
Context (web_origin : str) (env : Env).

(** ** The clock *)

(** [SystemTime::now().duration_since(UNIX_EPOCH).unwrap_or_default()]; to
    whole seconds, and to milliseconds that saturate or wrap. *)
Definition wall_clock {R} : prog Event R Z := let! millis := call Clock (env_clock env) in done_with (Z.of_N millis).
Definition epoch_millis {R} : prog Event R Z := let! millis := wall_clock in done_with (Z.min millis I64.max_value).
Definition as_secs_i64 (millis : Z) : Z := I64.wrap (millis / 1000).

(** ** The signed request *)

(** [?] on the steps of a transport. *)
Definition try_send {A B} (r : result SendFailure A) : prog Event (result SendFailure B) A :=
  match r with Ok a => done_with a | Err e => return_ (Err e) end.

Definition pinned_destination {B} (endpoint : str) : prog Event (result SendFailure B) (IpAddr * Z) :=
  let! (_, host) := try_send (endpoint_host parse_url endpoint) in
  let! answer := call (Resolve host 443) (env_resolve env host) in
  try_send (pinned_address answer).

Definition webhook_headers (event_id : str) (timestamp : Z) (signature : str) : list (string * str) :=
  [("content-type", lit "application/cloudevents+json"); ("user-agent", lit "Kioku-Webhook/1.0"); ("webhook-id", event_id);
   ("webhook-timestamp", dec timestamp); ("webhook-signature", signature)]%string.

Definition send_signed_request (q : WebhookRequest) : prog Event (result SendFailure WebhookTransportResponse) (result SendFailure WebhookTransportResponse) :=
  let! address := pinned_destination (rq_endpoint_url q) in
  let! millis := wall_clock in
  let timestamp := as_secs_i64 millis in
  let! signed := try_send match signature hmac_sha256 b64_encode b64_decode (rq_signing_secret q) (rq_event_id q) timestamp (rq_body q) with
                          | Ok s => Ok s | Err _ => Err InvalidEndpoint end in
  let post := {| sp_address := address; sp_endpoint := rq_endpoint_url q; sp_headers := webhook_headers (rq_event_id q) timestamp signed;
                 sp_body := rq_body q |} in
  let! answer := call (Post post) (env_post env post) in
  match answer with
  | None => done_with (Err Ambiguous)
  | Some a => done_with (Ok {| tr_status := ha_status a; tr_retry_after_seconds := retry_after (ha_retry_after a) |})
  end.

(** ** Delivering an account's webhooks *)

Definition frozen_webhook (c : WebhookDeliveryCandidate) (event_body : str) : FrozenWebhookDelivery :=
  {| fw_endpoint_url := wc_endpoint_url c; fw_signing_secret := wc_signing_secret c; fw_include_content := wc_include_content c;
     fw_event_body := event_body |}.

Definition webhook_request (k : WebhookDeliveryClaim) : WebhookRequest :=
  {| rq_endpoint_url := fw_endpoint_url (wk_request k); rq_signing_secret := fw_signing_secret (wk_request k); rq_event_id := wk_event k;
     rq_body := as_bytes (fw_event_body (wk_request k)) |}.

Definition claim_lease_seconds : Z := 60.
Definition pause_millis : Z := 250 + 25.

(** A claim, tried once more after the provider's pace. *)
Definition claim_twice {R C} (claim : prog Event (res R) (res (option C))) : prog Event (res R) (option C) :=
  let! first := try_ claim in
  match first with
  | Some k => done_with (Some k)
  | None => call (fun _ : unit => Sleep pause_millis) (fun _ => tt) ;! try_ claim
  end.

Definition claim_webhook_call {R} (c : WebhookDeliveryCandidate) (request : FrozenWebhookDelivery) : prog Event R (res (option WebhookDeliveryClaim)) :=
  let! a := call (fun a => ClaimWebhook c request claim_lease_seconds a.1 a.2) (env_claim_webhook env c request) in done_with a.2.

Definition deliver_claimed_webhook {R} (k : WebhookDeliveryClaim) : prog Event (res R) unit :=
  let! result_ := invoke (send_signed_request (webhook_request k)) in
  let! millis := epoch_millis in
  let! (outcome, circuit_seconds) := try_pure (classify_webhook_transport_result result_ (wk_attempt_count k) (format_epoch_millis millis)) in
  try_ (call (SettleWebhook k outcome circuit_seconds) (env_settle_webhook env k outcome circuit_seconds)).

Fixpoint deliver_webhooks {R} (calls : nat) (account : str) : prog Event (res R) unit :=
  match calls with
  | O => done_with tt
  | S rest =>
    let! candidate := try_ (call (NextWebhook account) (env_next_webhook env account)) in
    match candidate with
    | None => done_with tt
    | Some c =>
      let! event_body := try_pure (ok_or (value_to_string (finalized_event web_origin c)) Errors.Json) in
      let! claim := claim_twice (claim_webhook_call c (frozen_webhook c event_body)) in
      match claim with
      | None => done_with tt
      | Some k => deliver_claimed_webhook k ;! deliver_webhooks rest account
      end
    end
  end.

Definition deliver_user_webhooks (account : str) : prog Event (res unit) (res unit) :=
  deliver_webhooks MAX_PROVIDER_CALLS_PER_ACCOUNT account ;! done_with (Ok tt).

(** The connection test of a subscription. *)
Definition test_event (event_id now : str) : Value :=
  cloud_event event_id "com.kiokuu.webhook.test.v1" (lit "webhook/test") now
    (object [("message", VString (lit "Kioku webhook connection test")); ("content_included", VBool false)]%string).

Definition send_test_webhook (w : WebhookSubscription) : prog Event (res Z) (res Z) :=
  let! random := call Random (env_random env) in
  let event_id := new_event_id random in
  let! millis := wall_clock in
  let event := test_event event_id (format_epoch_millis (I64.wrap millis)) in
  let! body := try_pure (ok_or (value_to_string event) Errors.Json) in
  let! sent := invoke (send_signed_request {| rq_endpoint_url := ws_endpoint_url w; rq_signing_secret := ws_signing_secret w;
                                             rq_event_id := event_id; rq_body := as_bytes body |}) in
  done_with match sent with
            | Ok response => Ok (tr_status response)
            | Err InvalidEndpoint => Err (invalid "webhook endpoint is not a public HTTPS target")
            | Err (Preflight | Ambiguous) => Err (Errors.Store (lit "webhook destination is unavailable"))
            end.

(** ** Delivering an account's pushes *)

Definition frozen_push (c : PushDeliveryCandidate) : FrozenPushDelivery :=
  {| fp_topic := pc_topic c; fp_environment := pc_environment c; fp_device_token := pc_device_token c;
     fp_token_generation := pc_token_generation c |}.

Definition claim_push_call {R} (c : PushDeliveryCandidate) : prog Event R (res (option PushDeliveryClaim)) :=
  let! a := call (fun a => ClaimPush c (frozen_push c) claim_lease_seconds a.1 a.2) (env_claim_push env c (frozen_push c)) in done_with a.2.

Definition settle_push_call {R} (k : PushDeliveryClaim) (outcome : PushProviderOutcome) (circuit : option Z) : prog Event (res R) unit :=
  try_ (call (SettlePush k outcome circuit) (env_settle_push env k outcome circuit)).

Definition deliver_claimed_push {R} (k : PushDeliveryClaim) : prog Event (res R) unit :=
  let! expiration_millis := try_pure (push_expiration (pk_created_at k)) in
  let! now := epoch_millis in
  if expiration_millis <=? now then settle_push_call k (PushOutcome.Failed None (lit "delivery_expired")) None
  else
    let! expiration := try_pure (expiration_seconds expiration_millis) in
    let request := push_request k expiration in
    let! result_ := call (SendPush request) (env_send_push env request) in
    let! millis := epoch_millis in
    let! (outcome, circuit_seconds) := try_pure (classify_push_transport_result result_ (pk_attempt_count k) (format_epoch_millis millis)) in
    settle_push_call k outcome circuit_seconds.

Fixpoint deliver_pushes {R} (calls : nat) (account : str) : prog Event (res R) unit :=
  match calls with
  | O => done_with tt
  | S rest =>
    let! candidate := try_ (call (NextPush account) (env_next_push env account)) in
    match candidate with
    | None => done_with tt
    | Some c =>
      let! claim := claim_twice (claim_push_call c) in
      match claim with
      | None => done_with tt
      | Some k => deliver_claimed_push k ;! deliver_pushes rest account
      end
    end
  end.

Definition deliver_user_pushes (account : str) : prog Event (res unit) (res unit) :=
  deliver_pushes MAX_DELIVERIES_PER_SWEEP account ;! done_with (Ok tt).

(** ** The handlers of webhook destinations: [cp/query.rs] *)

Definition no_body (status : Z) : Response := {| status := status; headers := []; body := NoBody |}.

Definition entry_json (e : WebhookDeliveryStatusEntry) : Value :=
  object [("outcome", VString (lit (en_outcome e))); ("attempt_count", of_option of_Z (en_attempt_count e));
          ("response_status", of_option of_Z (en_response_status e)); ("updated_at", optional_text (en_updated_at e))]%string.

Definition summary_json (s : WebhookDeliveryStatusSummary) : Value :=
  object [("pending", of_Z (n_pending s)); ("retry", of_Z (n_retry s)); ("sent", of_Z (n_sent s)); ("failed", of_Z (n_failed s));
          ("ambiguous", of_Z (n_ambiguous s)); ("cancelled", of_Z (n_cancelled s)); ("latest", of_option entry_json (n_latest s))]%string.

Definition no_deliveries : WebhookDeliveryStatusSummary :=
  {| n_pending := 0; n_retry := 0; n_sent := 0; n_failed := 0; n_ambiguous := 0; n_cancelled := 0; n_latest := None |}.

Definition webhook_json (w : WebhookSubscription) (signing_secret : option str) (summary : option WebhookDeliveryStatusSummary) : Value :=
  let value := object [("id", VString (ws_id w)); ("name", VString (ws_name w));
    ("endpoint_display", VString (endpoint_display parse_url (ws_endpoint_url w))); ("include_content", VBool (ws_include_content w));
    ("enabled", VBool (ws_enabled w)); ("created_at", VString (ws_created_at w));
    ("delivery_status", summary_json (default no_deliveries summary))]%string in
  match signing_secret with Some secret => set_field (lit "signing_secret") (VString secret) value | None => value end.

(** [return error.into_response()] *)
Definition or_response {A} (m : prog Event Response (res A)) : prog Event Response A :=
  let! r := m in match r with Ok a => done_with a | Err e => return_ (into_response e) end.

Record CreateWebhookRequest := { cw_name : str; cw_endpoint_url : str; cw_include_content : bool }.

(** The id is a random token, the secret random bytes. *)
Definition rest_create_webhook (user : str) (q : CreateWebhookRequest) : prog Event Response Response :=
  let name := trim (cw_name q) in
  if is_empty name || (80 <? char_count name) then return_ (error_json 400 "name must be between 1 and 80 characters")
  else
    let endpoint_url := trim (cw_endpoint_url q) in
    match validate_endpoint_syntax parse_url endpoint_url with
    | Err e => return_ (into_response e)
    | Ok _ =>
      let! millis := wall_clock in
      let! id := call Random (env_random env) in
      let! secret := call Random (env_random env) in
      let w := {| ws_id := id; ws_user_id := user; ws_name := name; ws_endpoint_url := endpoint_url;
                  ws_signing_secret := new_signing_secret b64_encode secret; ws_include_content := cw_include_content q; ws_enabled := true;
                  ws_created_at := format_epoch_millis (I64.wrap millis) |} in
      or_response (call (CreateSubscription w) (env_create env w)) ;!
      done_with (json_response 201 (webhook_json w (Some (ws_signing_secret w)) None))
    end.

Definition rest_delete_webhook (user id : str) : prog Event Response Response :=
  let! found := or_response (call (GetSubscription user id) (env_get env user id)) in
  match found with
  | None => return_ (no_body 404)
  | Some _ =>
    or_response (call (DisableSubscription user id) (env_disable env user id)) ;!
    or_response (call (CancelDeliveries user id) (env_cancel env user id)) ;!
    let! deleted := or_response (call (DeleteSubscription user id) (env_delete env user id)) in
    done_with (no_body (if deleted then 204 else 404))
  end.

Definition test_failed (code : Z) (fields : list (string * Value)) : Response :=
  json_response code (object (("delivered", VBool false)%string :: fields)).

Definition rest_test_webhook (user id : str) : prog Event Response Response :=
  let! found := or_response (call (GetSubscription user id) (env_get env user id)) in
  match found with
  | None => return_ (no_body 404)
  | Some w =>
    if negb (ws_enabled w) then return_ (error_json 409 "webhook is disabled")
    else
      let! sent := invoke (send_test_webhook w) in
      done_with match sent with
                | Ok status =>
                  if (200 <=? status) && (status <? 300)
                  then json_response 200 (object [("delivered", VBool true); ("response_status", of_Z status)]%string)
                  else test_failed 502 [("response_status", of_Z status); ("error", VString (lit "destination rejected the test event"))]%string
                | Err (InvalidRequest message) => test_failed 400 [("error", VString message)]%string
                | Err _ => test_failed 502 [("error", VString (lit "destination could not be reached"))]%string
                end
  end.

(** The status of each subscription is a call of its own. *)
Fixpoint webhooks_json (user : str) (l : list WebhookSubscription) : prog Event Response (list Value) :=
  match l with
  | [] => done_with []
  | w :: rest =>
    let! r := call (SubscriptionStatus user (ws_id w)) (env_status env user (ws_id w)) in
    match r with
    | Err _ => return_ routed_read_unavailable
    | Ok summary => let! values := webhooks_json user rest in done_with (webhook_json w None (Some summary) :: values)
    end
  end.

Definition rest_list_webhooks (user : str) : prog Event Response Response :=
  let! l := or_response (call (ListSubscriptions user) (env_list env user)) in
  let! values := webhooks_json user l in
  done_with (json_response 200 (object [("webhooks", VArray values)]%string)).

(** ** The handlers of push installations: [cp/push.rs] *)

Record InstallationRequest := { ir_platform : str; ir_environment : str; ir_device_token : str }.

Definition topic_of (platform : str) : option str :=
  if str_eqb platform (lit "ios") then Some (lit IOS_TOPIC)
  else if str_eqb platform (lit "macos") then Some (lit MACOS_TOPIC) else None.

Definition installation_json (i : PushInstallation) : Value :=
  object [("id", VString (pi_id i)); ("platform", VString (pi_platform i)); ("environment", VString (pi_environment i));
          ("enabled", VBool (pi_enabled i))]%string.

Definition upsert_installation (user id : str) (q : InstallationRequest) : prog Event Response Response :=
  if negb (valid_uuid id) then return_ (bad_request "installation_id must be a UUID")
  else match topic_of (ir_platform q) with
  | None => return_ (bad_request "platform must be ios or macos")
  | Some topic =>
    if negb (one_of (ir_environment q) ["sandbox"; "production"]%string) then return_ (bad_request "environment must be sandbox or production")
    else if negb (valid_device_token (ir_device_token q)) then return_ (bad_request "device_token must be bounded hexadecimal APNs token data")
    else
      let i := {| pi_id := id; pi_user_id := user; pi_platform := ir_platform q; pi_topic := topic; pi_environment := ir_environment q;
                  pi_device_token := to_ascii_lowercase (ir_device_token q); pi_token_generation := 1; pi_enabled := true |} in
      let! installed := or_response (call (UpsertInstallation i) (env_upsert env i)) in
      done_with (json_response 200 (installation_json installed))
  end.

Definition delete_installation (user id : str) : prog Event Response Response :=
  if negb (valid_uuid id) then return_ (bad_request "installation_id must be a UUID")
  else
    let! deleted := or_response (call (DeleteInstallation user id) (env_delete_installation env user id)) in
    done_with (if deleted then no_body 204 else into_response NotFound).

Definition resolve_notification_handoff (user handle : str) : prog Event Response Response :=
  if negb (valid_handoff handle) then return_ (into_response NotFound)
  else
    let! r := call (ResolveHandoff user handle) (env_handoff env user handle) in
    done_with match r with
              | Ok (Some memory) => json_response 200 (object [("memory_id", of_Z memory)]%string)
              | Ok None => into_response NotFound
              | Err _ => routed_read_unavailable
              end.
End Workers.
