(* ===== verification/Dispatch.v ===== *)
(** * What an outbox promises

    The specification the outboxes of [Outbox] refine: a delivery waits, is in
    flight under a claim, or is over; one claim at a time holds the provider.
    A delivery that was in flight waits again only if its send was refused; a
    claim nobody settles lapses after its lease, and is over. *)
From stdpp Require Import gmap.
From Stdlib Require Import ZArith Lia.
From S2P Require Import Prelude Text Effects Tickets.
Local Open Scope Z_scope.

Abbreviation key := (str * str)%type.

(** An attempt's claim is its token and when its lease ends. *)
Inductive Phase :=
| Waiting (attempts : Z)
| InFlight (attempts : Z) (claim : str * Z)
| Over.

Record Dispatch := { phases : gmap key Phase; holder : option (str * Z) }.

Inductive Label :=
| Claimed (k : key) (attempts : Z) (claim : str * Z)
| Refused (k : key) (token : str)
| Settled (k : key) (token : str)
| Lapsed (k : key) (token : str)
| Added (k : key)
| Erased (gone : key -> bool)
| Quietly.

(** A delivery is closed before it is sent. *)
Definition quiet_change (o o' : option Phase) : Prop := o' = o \/ exists n, o = Some (Waiting n) /\ o' = Some Over.

Definition put (k : key) (p : Phase) (d : Dispatch) (h : option (str * Z)) : Dispatch := {| phases := <[k := p]> (phases d); holder := h |}.

Inductive dstep (now : Z) (d : Dispatch) : Label -> Dispatch -> Prop :=
| dispatch_claim k n token until : phases d !! k = Some (Waiting n) -> n < 10 -> holder d = None ->
    dstep now d (Claimed k (n + 1) (token, until)) (put k (InFlight (n + 1) (token, until)) d (Some (token, until)))
| dispatch_refuse k n token until : phases d !! k = Some (InFlight n (token, until)) ->
    dstep now d (Refused k token) (put k (Waiting n) d None)
| dispatch_settle k n token until : phases d !! k = Some (InFlight n (token, until)) ->
    dstep now d (Settled k token) (put k Over d None)
| dispatch_lapse k n token until : phases d !! k = Some (InFlight n (token, until)) -> until <= now ->
    dstep now d (Lapsed k token) (put k Over d None)
| dispatch_add k : phases d !! k = None -> dstep now d (Added k) (put k (Waiting 0) d (holder d))
| dispatch_erase gone : dstep now d (Erased gone) {| phases := filter (fun kv => gone kv.1 = false) (phases d); holder := holder d |}
| dispatch_quiet p : (forall k, quiet_change (phases d !! k) (p !! k)) -> dstep now d Quietly {| phases := p; holder := holder d |}.

(** A trace, with the time of each step. *)
Definition dmoves (d : Dispatch) (e : Z * Label) (d' : Dispatch) : Prop := dstep e.1 d e.2 d'.

(** What is in flight holds the provider, alone. *)
Definition coherent (d : Dispatch) : Prop :=
  (forall k n c, phases d !! k = Some (InFlight n c) -> holder d = Some c)
  /\ (forall k k' n n' c c', phases d !! k = Some (InFlight n c) -> phases d !! k' = Some (InFlight n' c') -> k = k').

Lemma lookup_put k p d h k' : phases (put k p d h) !! k' = if decide (k = k') then Some p else phases d !! k'.
Proof. simpl; case_decide as E; [by subst; rewrite lookup_insert_eq | by rewrite lookup_insert_ne]. Qed.

Lemma quiet_in_flight o o' n c : quiet_change o o' -> o' = Some (InFlight n c) -> o = Some (InFlight n c).
Proof. intros [->|(m & -> & ->)]; done. Qed.

Lemma dstep_coherent now d l d' : dstep now d l d' -> coherent d -> coherent d'.
Proof.
  assert (Hput : forall k n token until p, phases d !! k = Some (InFlight n (token, until)) ->
    (forall m c, p <> InFlight m c) -> coherent d -> coherent (put k p d None)).
  { intros k n token until p Hk Hp [Hh Ha]; split.
    - intros k' m c; rewrite lookup_put; case_decide as E; [intros [= ->]; by destruct (Hp m c) |].
      intros Hk'; exfalso; by apply E, (Ha _ _ _ _ _ _ Hk Hk').
    - intros k1 k2 m1 m2 c1 c2; rewrite !lookup_put; case_decide as E1; [intros [= ->]; by destruct (Hp m1 c1) |].
      case_decide as E2; [intros _ [= ->]; by destruct (Hp m2 c2) |]; apply Ha. }
  intros Hs Hco; assert (Hc := Hco); destruct Hco as [Hh Ha];
    destruct Hs as [k n token until Hk Hn Hf|k n token until Hk|k n token until Hk|k n token until Hk Hu|k Hk|gone|p Hq];
    try (by eapply Hput).
  - split.
    + intros k' m c; rewrite lookup_put; case_decide as E; [by intros [= _ <-] | intros Hk'; by rewrite Hf in Hh; apply Hh in Hk'].
    + assert (Hnone : forall k' m c, phases d !! k' <> Some (InFlight m c)) by (intros k' m c Hk'; apply Hh in Hk'; by rewrite Hf in Hk').
      intros k1 k2 m1 m2 c1 c2; rewrite !lookup_put; case_decide as E1; case_decide as E2; try congruence;
        [intros _ H; by apply Hnone in H | intros H; by apply Hnone in H..].
  - split.
    + intros k' m c; rewrite lookup_put; case_decide as E; [done | apply Hh].
    + intros k1 k2 m1 m2 c1 c2; rewrite !lookup_put; case_decide; [done |]; case_decide; [done | apply Ha].
  - split; simpl.
    + intros k n c [H _]%map_lookup_filter_Some; by eapply Hh.
    + intros k k' n n' c c' [H _]%map_lookup_filter_Some [H' _]%map_lookup_filter_Some; by eapply Ha.
  - split; simpl.
    + intros k n c H; eapply Hh, quiet_in_flight; [apply Hq | exact H].
    + intros k k' n n' c c' H H'; eapply Ha; eapply quiet_in_flight; [apply Hq | exact H | apply Hq | exact H'].
Qed.

Lemma dsteps_coherent d t d' : steps dmoves d t d' -> coherent d -> coherent d'.
Proof. induction 1 as [|d e d1 t d2 Hs _ IH]; [done | intros Hc; by eapply IH, dstep_coherent]. Qed.

(** ** A delivery is sent again only after a refusal *)

(** After a claim and until it is refused, the delivery is in flight under
    that claim, is over, or is gone. *)
Definition not_again (k : key) (token : str) (d : Dispatch) : Prop :=
  match phases d !! k with Some (InFlight _ c) => c.1 = token | Some (Waiting _) => False | Some Over | None => True end.

(** The ways back: the send was refused, or the delivery is made again. *)
Definition reopens (k : key) (token : str) (l : Label) : Prop := l = Refused k token \/ l = Added k.

Lemma put_not_again k token k' p d h :
  not_again k token d -> (k' = k -> match p with InFlight _ c => c.1 = token | Over => True | Waiting _ => False end) ->
  not_again k token (put k' p d h).
Proof. unfold not_again; intros Hn Hp; rewrite lookup_put; case_decide; [by apply Hp in Hn || (destruct p; auto) | done]. Qed.

Lemma step_not_again k token d e d' : dmoves d e d' -> not_again k token d -> reopens k token e.2 \/ not_again k token d'.
Proof.
  destruct e as [now l]; unfold dmoves, reopens; simpl; intros Hs Hn;
    destruct Hs as [k' n t u Hk Hlt Hf|k' n t u Hk|k' n t u Hk|k' n t u Hk Hu|k' Hk|gone|p Hq].
  - right; apply put_not_again; [done |]; intros ->; unfold not_again in Hn; by rewrite Hk in Hn.
  - destruct (decide (k' = k)) as [->|Hne]; [| right; by apply put_not_again].
    unfold not_again in Hn; rewrite Hk in Hn; simpl in Hn; subst t; left; by left.
  - right; by apply put_not_again.
  - right; by apply put_not_again.
  - destruct (decide (k' = k)) as [->|Hne]; [left; by right | right; by apply put_not_again].
  - right; unfold not_again in *; simpl; destruct (filter _ (phases d) !! k) as [q|] eqn:E; [| done].
    apply map_lookup_filter_Some in E as [E _]; by rewrite E in Hn.
  - right; unfold not_again in *; simpl in *; destruct (Hq k) as [->|(n & E & ->)]; done.
Qed.

Lemma not_again_steps k token d t d' :
  steps dmoves d t d' -> not_again k token d -> (exists e, e ∈ t /\ reopens k token e.2) \/ not_again k token d'.
Proof.
  induction 1 as [|d e d1 t d2 Hs _ IH]; [by right |]; intros Hn.
  destruct (step_not_again _ _ _ _ _ Hs Hn) as [E|Hn1]; [left; exists e; split; [left | done] |].
  destruct (IH Hn1) as [(x & Hin & ?)|?]; [left; exists x; split; [by right | done] | by right].
Qed.

(** Between two claims of a delivery the first was refused, or the delivery
    was made again. *)
Lemma claimed_again d1 now1 k a1 token until d2 t d3 now2 a2 c d4 :
  dstep now1 d1 (Claimed k a1 (token, until)) d2 -> steps dmoves d2 t d3 -> dstep now2 d3 (Claimed k a2 c) d4 ->
  exists e, e ∈ t /\ reopens k token e.2.
Proof.
  intros H1 Ht H2; assert (Hn : not_again k token d2) by (inversion H1; subst; unfold not_again; by rewrite lookup_put, decide_True).
  destruct (not_again_steps _ _ _ _ _ Ht Hn) as [?|Hn3]; [done |].
  exfalso; inversion H2 as [? ? ? ? Hk| | | | | |]; subst; unfold not_again in Hn3; by rewrite Hk in Hn3.
Qed.

(** ** A provider is held by one claim at a time *)

Definition lets_go (claim : str * Z) (e : Z * Label) : Prop :=
  match e.2 with
  | Refused _ token | Settled _ token => token = claim.1
  | Lapsed _ token => token = claim.1 /\ claim.2 <= e.1
  | _ => False
  end.

Lemma step_held c d e d' : dmoves d e d' -> coherent d -> holder d = Some c -> lets_go c e \/ holder d' = Some c.
Proof.
  destruct e as [now l]; unfold dmoves, lets_go; simpl; intros Hs [Hh _] Hc;
    destruct Hs as [k n t u Hk Hlt Hf|k n t u Hk|k n t u Hk|k n t u Hk Hu|k Hk|gone|p Hq]; try (by right); [by rewrite Hf in Hc |..];
    apply Hh in Hk; rewrite Hk in Hc; injection Hc as <-; by left.
Qed.

Lemma held_steps c d t d' :
  steps dmoves d t d' -> coherent d -> holder d = Some c -> (exists e, e ∈ t /\ lets_go c e) \/ holder d' = Some c.
Proof.
  induction 1 as [|d e d1 t d2 Hs _ IH]; [by right |]; intros Hco Hc.
  destruct (step_held _ _ _ _ Hs Hco Hc) as [?|Hc1]; [left; exists e; split; [by left | done] |].
  destruct (IH (dstep_coherent _ _ _ _ Hs Hco) Hc1) as [(x & Hx & ?)|?]; [left; exists x; split; [by right | done] | by right].
Qed.

(** Between two claims the first was settled, or its lease ended. *)
Lemma claims_exclude d1 now1 k1 a1 c1 d2 t d3 now2 k2 a2 c2 d4 :
  coherent d1 -> dstep now1 d1 (Claimed k1 a1 c1) d2 -> steps dmoves d2 t d3 -> dstep now2 d3 (Claimed k2 a2 c2) d4 ->
  exists e, e ∈ t /\ lets_go c1 e.
Proof.
  intros Hco H1 Ht H2; assert (Hc : holder d2 = Some c1) by (by inversion H1; subst).
  destruct (held_steps _ _ _ _ Ht (dstep_coherent _ _ _ _ H1 Hco) Hc) as [?|Hc3]; [done |].
  exfalso; inversion H2 as [? ? ? ? _ _ Hf| | | | | |]; subst; by rewrite Hf in Hc3.
Qed.

(** ** A claim whose delivery was erased holds its provider for good *)

Definition abandoned (d : Dispatch) : Prop := is_Some (holder d) /\ forall k n c, phases d !! k <> Some (InFlight n c).

Lemma abandoned_step d e d' : dmoves d e d' -> abandoned d -> abandoned d'.
Proof.
  destruct e as [now l]; unfold dmoves; simpl; intros Hs [[c Hc] Hn];
    destruct Hs as [k n t u Hk Hlt Hf|k n t u Hk|k n t u Hk|k n t u Hk Hu|k Hk|gone|p Hq]; try (by apply Hn in Hk); [by rewrite Hf in Hc |..].
  - split; [by exists c |]; intros k' n c'; rewrite lookup_put; case_decide; [done | apply Hn].
  - split; [by exists c |]; simpl; intros k n c' [H _]%map_lookup_filter_Some; by apply Hn in H.
  - split; [by exists c |]; simpl; intros k n c' H; eapply quiet_in_flight in H; [by apply Hn in H | apply Hq].
Qed.

Lemma abandoned_steps d t d' : steps dmoves d t d' -> abandoned d -> abandoned d' /\ forall n k a c, (n, Claimed k a c) ∉ t.
Proof.
  induction 1 as [|d e d1 t d2 Hs _ IH]; intros Ha; [split; [done | intros ????; apply not_elem_of_nil] |].
  destruct (IH (abandoned_step _ _ _ Hs Ha)) as [Ha2 Hn]; split; [done |]; intros n k a c [E|Hin]%elem_of_cons; [| by apply Hn in Hin].
  subst e; inversion Hs as [? ? ? ? _ _ Hf| | | | | |]; subst; destruct Ha as [[x Hx] _]; by rewrite Hf in Hx.
Qed.

Lemma erased_in_flight now d k n c gone d' :
  coherent d -> phases d !! k = Some (InFlight n c) -> gone k = true -> dstep now d (Erased gone) d' -> abandoned d'.
Proof.
  intros [Hh Ha] Hk Hg Hs; inversion Hs as [| | | | |g|]; subst; split; simpl.
  - rewrite (Hh _ _ _ Hk); by eexists.
  - intros k' n' c' [H H']%map_lookup_filter_Some; assert (k' = k) as -> by (by eapply Ha); simpl in H'; congruence.
Qed.

(** ** How often a delivery is sent

    A potential: what each phase of the deliveries named [id] may still
    spend, summed over accounts. *)

Section Budget.
Context (id : str) (f : Phase -> nat).

Definition share (k : key) (p : Phase) : nat := if decide (k.2 = id) then f p else 0%nat.
Definition held (k : key) (o : option Phase) : nat := match o with Some p => share k p | None => 0%nat end.
Definition total (m : gmap key Phase) : nat := map_fold (fun k p n => (share k p + n)%nat) 0%nat m.

Lemma total_fresh k p m : m !! k = None -> total (<[k := p]> m) = (share k p + total m)%nat.
Proof. intros Hk; apply (map_fold_insert_L (fun k p n => (share k p + n)%nat)); [intros; lia | done]. Qed.

Lemma total_at k m : total m = (held k (m !! k) + total (delete k m))%nat.
Proof.
  destruct (m !! k) as [p|] eqn:Hk; simpl; [| by rewrite delete_id].
  rewrite <- total_fresh by apply lookup_delete_eq; by rewrite insert_delete_id.
Qed.

Lemma total_put k p m : (total (<[k := p]> m) + held k (m !! k) = total m + share k p)%nat.
Proof.
  rewrite (total_at k (<[k := p]> m)), (total_at k m), lookup_insert_eq; simpl.
  rewrite delete_insert_eq; lia.
Qed.

Lemma total_le m m' : (forall k, held k (m' !! k) <= held k (m !! k))%nat -> (total m' <= total m)%nat.
Proof.
  revert m; induction m' as [|k p m' Hk IH] using map_ind; intros m Hle; [unfold total at 1; rewrite map_fold_empty; lia |].
  rewrite total_fresh, (total_at k m) by done; assert (H0 := Hle k); rewrite lookup_insert_eq in H0; simpl in H0.
  assert (total m' <= total (delete k m))%nat; [| lia]; apply IH; intros k'; destruct (decide (k = k')) as [<-|Hne].
  - by rewrite Hk, lookup_delete_eq.
  - specialize (Hle k'); by rewrite lookup_insert_ne in Hle; [rewrite lookup_delete_ne |].
Qed.
End Budget.

Definition claims_of (id : str) (l : Label) : bool := match l with Claimed k _ _ => bool_decide (k.2 = id) | _ => false end.
Definition refuses_of (id : str) (l : Label) : bool := match l with Refused k _ => bool_decide (k.2 = id) | _ => false end.
Definition adds_of (id : str) (l : Label) : bool := match l with Added k => bool_decide (k.2 = id) | _ => false end.

(** What a step spends and what it earns: a waiting delivery may be claimed
    once; a delivery may be claimed ten times in all. *)
Definition may_claim (p : Phase) : nat := match p with Waiting _ => 1 | _ => 0 end.
Definition attempts_left (p : Phase) : nat := match p with Waiting n | InFlight n _ => Z.to_nat (10 - n) | Over => 0 end.

Lemma dstep_total id f now d l d' :
  dstep now d l d' -> f Over = 0%nat ->
  match l with
  | Claimed k n c => exists m, n = m + 1 /\ m < 10 /\ (total id f (phases d') + share id f k (Waiting m) = total id f (phases d) + share id f k (InFlight n c))%nat
  | Refused k _ => exists n c, (total id f (phases d') + share id f k (InFlight n c) = total id f (phases d) + share id f k (Waiting n))%nat
  | Added k => (total id f (phases d') = total id f (phases d) + share id f k (Waiting 0))%nat
  | _ => (total id f (phases d') <= total id f (phases d))%nat
  end.
Proof.
  intros Hs H0; destruct Hs as [k n t u Hk Hlt Hf|k n t u Hk|k n t u Hk|k n t u Hk Hu|k Hk|gone|p Hq]; simpl;
    try (assert (Ht := total_put id f k)).
  - exists n; split_and!; [done | done |]; specialize (Ht (InFlight (n + 1) (t, u)) (phases d)); rewrite Hk in Ht; exact Ht.
  - exists n, (t, u); specialize (Ht (Waiting n) (phases d)); rewrite Hk in Ht; exact Ht.
  - specialize (Ht Over (phases d)); rewrite Hk in Ht; simpl in Ht; unfold share in Ht at 2; case_decide; lia.
  - specialize (Ht Over (phases d)); rewrite Hk in Ht; simpl in Ht; unfold share in Ht at 2; case_decide; lia.
  - specialize (Ht (Waiting 0) (phases d)); rewrite Hk in Ht; simpl in Ht; lia.
  - apply total_le; intros k; destruct (filter _ (phases d) !! k) as [q|] eqn:E; simpl; [| lia].
    apply map_lookup_filter_Some in E as [-> _]; done.
  - apply total_le; intros k; destruct (Hq k) as [->|(n & -> & ->)]; [done |]; simpl; unfold share; case_decide; lia.
Qed.

Lemma claims_spend id now d l d' :
  dstep now d l d' ->
  (total id may_claim (phases d') + Nat.b2n (claims_of id l) <= total id may_claim (phases d) + Nat.b2n (refuses_of id l) + Nat.b2n (adds_of id l))%nat.
Proof.
  intros Hs; assert (Ht := dstep_total id may_claim now d l d' Hs eq_refl); destruct l as [k n c|k t|k t|k t|k|gone|]; simpl in *; try lia.
  - destruct Ht as (m & -> & _ & Ht); revert Ht; unfold share; case_decide; rewrite ?bool_decide_eq_true_2, ?bool_decide_eq_false_2 by done; simpl; lia.
  - destruct Ht as (n & c & Ht); revert Ht; unfold share; case_decide; rewrite ?bool_decide_eq_true_2, ?bool_decide_eq_false_2 by done; simpl; lia.
  - revert Ht; unfold share; case_decide; rewrite ?bool_decide_eq_true_2, ?bool_decide_eq_false_2 by done; simpl; lia.
Qed.

Lemma attempts_spend id now d l d' :
  dstep now d l d' ->
  (total id attempts_left (phases d') + Nat.b2n (claims_of id l) <= total id attempts_left (phases d) + 10 * Nat.b2n (adds_of id l))%nat.
Proof.
  intros Hs; assert (Ht := dstep_total id attempts_left now d l d' Hs eq_refl); destruct l as [k n c|k t|k t|k t|k|gone|]; simpl in *; try lia.
  - destruct Ht as (m & -> & Hlt & Ht); revert Ht; unfold share; case_decide; rewrite ?bool_decide_eq_true_2, ?bool_decide_eq_false_2 by done; simpl; lia.
  - destruct Ht as (n & c & Ht); revert Ht; unfold share; case_decide; simpl; lia.
  - revert Ht; unfold share; case_decide; rewrite ?bool_decide_eq_true_2, ?bool_decide_eq_false_2 by done; simpl; lia.
Qed.

(** Over a trace: claims are covered by additions and refusals, and by ten
    attempts for each addition. *)
Lemma claims_bounded id d t d' :
  steps dmoves d t d' ->
  (total id may_claim (phases d') + tally (claims_of id) t.*2
   <= total id may_claim (phases d) + tally (refuses_of id) t.*2 + tally (adds_of id) t.*2)%nat
  /\ (total id attempts_left (phases d') + tally (claims_of id) t.*2 <= total id attempts_left (phases d) + 10 * tally (adds_of id) t.*2)%nat.
Proof.
  induction 1 as [|d [now l] d1 t d2 Hs _ [IH1 IH2]]; [unfold tally; simpl; lia |]; rewrite fmap_cons, !tally_cons; simpl.
  assert (H1 := claims_spend id _ _ _ _ Hs); assert (H2 := attempts_spend id _ _ _ _ Hs); simpl in *; lia.
Qed.

Lemma nothing_left id f h : total id f (phases {| phases := ∅; holder := h |}) = 0%nat.
Proof. apply map_fold_empty. Qed.
