(* ===== verification/AccountFrame.v ===== *)
(** * What the account transactions do to the delivery tables

    Nothing, but for the three places where [Lifecycle] calls its [Delivery]:
    the recovery of ended claims, and the two ways deletion switches an
    account's deliveries off, both of which an open fence of the account
    refuses.  A relation that has those is kept by every account event. *)
From stdpp Require Import gmap.
From Stdlib Require Import ZArith Lia.
From S2P Require Import Prelude OrdMap Text Errors Bytes IsoTime Effects Txn AccountDb Identity Lifecycle OAuthStore AccountLedger.
Local Open Scope Z_scope.
Local Open Scope kioku_scope.

Section Frame.
Context {Outbox : Type} `{D : Delivery Outbox} (sha256 : bytes -> bytes) `{U : Unicode} (now : Z).
Context (R : Db Outbox -> Db Outbox -> Prop) `{!PreOrder R}.
Context (same_outbox : forall s s', outbox s' = outbox s -> R s s').
Context (recovered : forall account o s, recover_expired_claims now account (outbox s) = Ok o -> R s (set_outbox (fun _ => o) s)).
Context (disabled : forall account s, open_provider_fence account s = None -> R s (set_outbox (disable_delivery now account) s)).
Context (erased : forall account s, open_provider_fence account s = None -> R s (set_outbox (erase_delivery account) s)).
Implicit Types s : Db Outbox.

(** A transaction whose statements leave the outbox. *)
Ltac framed := keeps_by_shape; try (apply same_outbox; done).

Lemma frame_or_rolled_back {A} (answer : A) m applies : keeps R m -> keeps R (or_rolled_back (Outbox := Outbox) answer m applies).
Proof. intros Hm s a s' Hx; apply or_rolled_back_Ok in Hx as [[_ Hx]|(_ & _ & ->)]; [by eapply Hm | reflexivity]. Qed.

Lemma frame_expire account : keeps R (expire_media_uploads (Outbox := Outbox) now account).
Proof. unfold expire_media_uploads; framed. Qed.

Lemma frame_refuse_uploads account : keeps R (refuse_active_media_uploads (Outbox := Outbox) now account).
Proof. unfold refuse_active_media_uploads; apply keeps_then; [tc_solve | apply frame_expire | intros ?; framed]. Qed.

Lemma frame_recover account : keeps R (recover_expired_provider_claims now account).
Proof.
  intros s a s' Hx; unfold recover_expired_provider_claims in Hx.
  apply then_Ok in Hx as (? & ? & [-> ->]%select_Ok & Hx); apply then_Ok in Hx as (o & ? & [Ho ->]%try_res_Ok & ->%execute_Ok); by eapply recovered.
Qed.

Lemma frame_operation random account reason : keeps R (ensure_deletion_operation (Outbox := Outbox) now random account reason).
Proof. unfold ensure_deletion_operation, loaded_operation, load_operation; framed. Qed.

Lemma frame_update account f : keeps R (update_operation (Outbox := Outbox) account f).
Proof. unfold update_operation, loaded_operation, load_operation; framed. Qed.

(** Nothing before the switch changes the delivery tables. *)
Lemma begin_frame random account : keeps R (begin_account_deletion (Outbox := Outbox) now random account).
Proof.
  intros s a s' Hx; unfold begin_account_deletion in Hx.
  apply then_Ok in Hx as (? & s1 & H1 & Hx); unfold refuse_reviewer_fixture_deletion in H1; apply then_Ok in H1 as (? & ? & [-> ->]%select_Ok & [_ ->]%abort_if_Ok).
  apply then_Ok in Hx as (current & ? & [Hc ->]%select_Ok & Hx); apply then_Ok in Hx as (gone & ? & [-> ->]%select_Ok & Hx).
  apply then_Ok in Hx as (? & s2 & H2 & Hx); unfold refuse_open_provider_fences in H2; apply then_Ok in H2 as (fence & ? & [-> ->]%select_Ok & H2).
  destruct (open_provider_fence account s) eqn:Hfence; [done |]; apply commits_Ok in H2 as [_ ->].
  apply then_Ok in Hx as (? & s3 & H3 & Hx); unfold refuse_started_vertex_invocations in H3; apply then_Ok in H3 as (? & ? & [-> ->]%select_Ok & [_ ->]%abort_if_Ok).
  apply then_Ok in Hx as (? & s4 & H4 & Hx).
  assert (Ho : outbox s4 = outbox s).
  { clear Hx; unfold refuse_active_media_uploads, expire_media_uploads in H4; all_txn; done. }
  transitivity s4; [by apply same_outbox |]; case_match; [by apply commits_Ok in Hx as [_ ->] |].
  apply then_Ok in Hx as (? & s5 & H5 & Hx); transitivity s5.
  - destruct (bool_decide (current = _)); [| by apply commits_Ok in H5 as [_ ->]]; apply execute_Ok in H5 as ->.
    transitivity (set_outbox (disable_delivery now account) s4); [apply disabled | by apply same_outbox].
    unfold open_provider_fence in *; by rewrite Ho.
  - revert Hx; generalize s5; clear -same_outbox PreOrder0; intros s5 Hx.
    apply then_Ok in Hx as (op & s6 & H6 & Hx); transitivity s6; [exact (frame_operation _ _ _ _ _ _ H6) |].
    revert Hx; match goal with |- ?m s6 = _ -> _ => assert (Hk : keeps R m) by (unfold loaded_operation, load_operation; framed); intros Hx; by eapply Hk end.
Qed.

Lemma finalize_frame account : keeps R (finalize_account_deletion (Outbox := Outbox) now account).
Proof.
  intros s a s' Hx; unfold finalize_account_deletion in Hx.
  apply then_Ok in Hx as (? & s2 & H2 & Hx); unfold refuse_open_provider_fences in H2; apply then_Ok in H2 as (fence & ? & [-> ->]%select_Ok & H2).
  destruct (open_provider_fence account s) eqn:Hfence; [done |]; apply commits_Ok in H2 as [_ ->].
  apply then_Ok in Hx as (current & ? & [-> ->]%select_Ok & Hx); apply then_Ok in Hx as (? & s4 & H4 & Hx).
  assert (Ho : outbox s4 = outbox s) by (clear Hx; unfold refuse_active_media_uploads, expire_media_uploads in H4; all_txn; done).
  apply then_Ok in Hx as (? & s5 & H5 & Hx); transitivity s5; [| by eapply frame_update].
  transitivity s4; [by apply same_outbox |]; clear Hx; destruct (status_of account s) as [st|].
  - apply then_Ok in H5 as (? & ? & [_ ->]%abort_if_Ok & H5); apply then_Ok in H5 as (? & ? & [-> ->]%select_Ok & H5).
    apply then_Ok in H5 as (? & ? & [_ ->]%abort_if_Ok & ->%execute_Ok).
    transitivity (set_outbox (erase_delivery account) s4); [apply erased; unfold open_provider_fence in *; by rewrite Ho | by apply same_outbox].
  - apply then_Ok in H5 as (? & ? & [-> ->]%select_Ok & [_ ->]%abort_if_Ok); reflexivity.
Qed.

Lemma answers_frame {A} (m : txn (Db Outbox) A) r s s' : keeps R m -> answers m r s s' -> R s s'.
Proof.
  intros Hm [Ht|(e & _ & [->|(a & Ha)])]; [| reflexivity | by eapply Hm].
  unfold transact in Ht; destruct (m s) as [[a s1]|e] eqn:Hx; injection Ht as _ <-; [by eapply Hm | reflexivity].
Qed.

Lemma account_frame e s s' : e <> SOther -> effect sha256 now e s s' -> R s s'.
Proof.
  intros He; destruct e; simpl; try (apply answers_frame).
  - unfold upsert_subject_account, reserve_signup, insert_account, insert_identity, see_identity, set_account_email, violates; framed.
  - unfold upsert_apple_account, apple_account, upsert_credential, reserve_signup, insert_account, insert_identity, see_identity, set_account_email, violates; framed.
  - unfold link_apple_identity, upsert_credential, insert_identity, see_identity, violates; framed.
  - unfold request_account_deletion, refuse_reviewer_fixture_deletion; repeat (apply keeps_then; [tc_solve | framed | intros ?]).
    case_match; [unfold load_operation; framed |]; case_match; [framed |]; apply keeps_then; [tc_solve | apply frame_operation | intros ?; framed].
  - unfold account_deletion_preflight_complete; apply keeps_then; [tc_solve | framed | intros ?]; case_match; [framed |].
    apply keeps_then; [tc_solve | apply frame_recover | intros ?]; apply keeps_then; [tc_solve | framed | intros ?].
    apply keeps_then; [tc_solve | apply frame_expire | intros ?; framed].
  - apply begin_frame.
  - unfold update_account_deletion_status; do 2 (apply keeps_then; [tc_solve | framed | intros ?]); apply frame_update.
  - apply finalize_frame.
  - unfold mark_apple_credential_revoked; framed.
  - unfold ensure_client; framed.
  - unfold register_client, insert_client, violates; framed.
  - unfold store_pending_consent; apply keeps_then; [tc_solve | framed | intros ?]; apply frame_or_rolled_back; framed.
  - unfold approve_consent, insert_code, violates; framed.
  - unfold store_direct_authorization_code; apply keeps_then; [tc_solve | framed | intros ?]; apply frame_or_rolled_back; framed.
  - unfold exchange_authorization_code, insert_refresh_token, violates; framed.
  - unfold rotate_refresh_token, insert_refresh_token, violates; framed.
  - unfold create_native_session_refresh, insert_refresh_token, violates; framed.
  - done.
Qed.
End Frame.
