(* ===== verification/OutboxLedger.v ===== *)
(** * The outboxes keep their promise

    Each transaction of [Outbox], and of the account database beside it, is a
    sequence of steps of [Dispatch] on each outbox: rows are phases, and the
    lane's owner holds the provider. *)
From stdpp Require Import gmap.
From Stdlib Require Import ZArith Lia.
From S2P Require Import Prelude OrdMap Text Errors Bytes IsoTime Effects Txn AccountDb Identity Lifecycle OAuthStore AccountLedger OutboxDb Outbox Dispatch.
Local Open Scope Z_scope.
Local Open Scope kioku_scope.

(** ** A channel: rows, a lane, and which claims are disclosed *)

Section Channel.
Context {E F : Type}.
Implicit Types r : DeliveryRow E F.
Implicit Types rows : gmap key (DeliveryRow E F).
Implicit Types disclosed : key -> str -> bool.

Definition phase_of r : Phase :=
  match d_state r with
  | StPending | StRetryWait => Waiting (d_attempts r)
  | StProcessing => match d_claim r with Some c => InFlight (d_attempts r) c | None => Over end
  | StDelivered | StFailed | StCancelled | StAmbiguous => Over
  end.

Definition view rows (l : Lane) : Dispatch := {| phases := phase_of <$> rows; holder := owner l |}.

Record channel_ok rows (l : Lane) disclosed : Prop := {
  claims_in_flight : forall k r, rows !! k = Some r -> (d_state r = StProcessing <-> is_Some (d_claim r));
  claims_disclosed : forall k r c, rows !! k = Some r -> d_claim r = Some c -> disclosed k c.1 = true;
  lane_coherent : coherent (view rows l)
}.

Lemma lookup_view rows l k : phases (view rows l) !! k = phase_of <$> rows !! k.
Proof. apply lookup_fmap. Qed.

Lemma claimed_phase rows l disclosed k r c :
  channel_ok rows l disclosed -> rows !! k = Some r -> d_claim r = Some c -> phases (view rows l) !! k = Some (InFlight (d_attempts r) c).
Proof.
  intros Hok Hr Hc; rewrite lookup_view, Hr; simpl; unfold phase_of.
  assert (d_state r = StProcessing) as -> by (apply (claims_in_flight _ _ _ Hok k r Hr); by exists c); by rewrite Hc.
Qed.

Lemma claim_owns rows l disclosed k r c : channel_ok rows l disclosed -> rows !! k = Some r -> d_claim r = Some c -> owner l = Some c.
Proof. intros Hok Hr Hc; exact (proj1 (lane_coherent _ _ _ Hok) _ _ _ (claimed_phase _ _ _ _ _ _ Hok Hr Hc)). Qed.

Lemma one_claim rows l disclosed k k' r r' c c' :
  channel_ok rows l disclosed -> rows !! k = Some r -> d_claim r = Some c -> rows !! k' = Some r' -> d_claim r' = Some c' -> k = k'.
Proof.
  intros Hok Hr Hc Hr' Hc'; eapply (proj2 (lane_coherent _ _ _ Hok)); eapply claimed_phase; eauto.
Qed.

Lemma open_unclaimed rows l disclosed k r : channel_ok rows l disclosed -> rows !! k = Some r -> is_open (d_state r) = true -> d_claim r = None.
Proof.
  intros Hok Hr Ho; destruct (d_claim r) eqn:Hc; [| done]; exfalso.
  assert (Hp : d_state r = StProcessing) by (apply (claims_in_flight _ _ _ Hok k r Hr); by rewrite Hc); rewrite Hp in Ho; done.
Qed.

Lemma open_waits r : is_open (d_state r) = true -> phase_of r = Waiting (d_attempts r).
Proof. unfold is_open, phase_of; intros [H|H]%orb_true_iff; apply bool_decide_eq_true in H; by rewrite H. Qed.

Definition over (state : DeliveryState) : Prop := state = StDelivered \/ state = StFailed \/ state = StCancelled \/ state = StAmbiguous.

Lemma over_phase r : over (d_state r) -> phase_of r = Over.
Proof. unfold phase_of; intros [H|[H|[H|H]]]; by rewrite H. Qed.

Lemma over_not_processing state : over state -> state <> StProcessing.
Proof. intros [H|[H|[H|H]]]; by rewrite H. Qed.

(** *** Quiet changes *)

Lemma quiet_rows now rows rows' l disclosed :
  channel_ok rows l disclosed ->
  (forall k, (rows' !! k = rows !! k)
    \/ (exists r r', rows !! k = Some r /\ rows' !! k = Some r' /\ is_open (d_state r) = true /\ over (d_state r') /\ d_claim r' = None)) ->
  dstep now (view rows l) Quietly (view rows' l) /\ channel_ok rows' l disclosed.
Proof.
  intros Hok Hq; assert (Hs : dstep now (view rows l) Quietly (view rows' l)).
  { apply dispatch_quiet; intros k; rewrite lookup_view, lookup_fmap; destruct (Hq k) as [->|(r & r' & -> & -> & Ho & Hv & _)].
    - by left.
    - right; exists (d_attempts r); simpl; by rewrite open_waits, over_phase. }
  split; [done |]; split; [| | exact (dstep_coherent _ _ _ _ Hs (lane_coherent _ _ _ Hok))].
  - intros k r' Hr'; destruct (Hq k) as [E0|(r & r2 & Hr & E0 & Ho & Hv & Hc)]; rewrite E0 in Hr'.
    + by apply (claims_in_flight _ _ _ Hok k).
    + injection Hr' as <-; rewrite Hc; split; [by intros ?%over_not_processing | by intros []].
  - intros k r' c Hr' Hc'; destruct (Hq k) as [E0|(r & r2 & Hr & E0 & Ho & Hv & Hc)]; rewrite E0 in Hr'.
    + by apply (claims_disclosed _ _ _ Hok k r').
    + injection Hr' as <-; congruence.
Qed.

Lemma mark_open_quiet now time account state error condition rows l disclosed :
  channel_ok rows l disclosed -> over state ->
  dstep now (view rows l) Quietly (view (mark_open time account state error condition rows) l)
  /\ channel_ok (mark_open time account state error condition rows) l disclosed.
Proof.
  intros Hok Hv; apply quiet_rows; [done |]; intros k; unfold mark_open; rewrite map_lookup_imap.
  destruct (rows !! k) as [r|] eqn:Hr; simpl; [| by left].
  destruct (str_eqb k.1 account && is_open (d_state r) && condition r) eqn:Ec; [| by left].
  right; exists r, (marked time state error r); apply andb_true_iff in Ec as [Ec _]; apply andb_true_iff in Ec as [_ Ho].
  split_and!; try done; simpl; by eapply open_unclaimed.
Qed.

(** *** A new delivery *)

Lemma enqueue_adds now time account id episode destination version extra rows l disclosed :
  channel_ok rows l disclosed ->
  let rows' := enqueue time account id episode destination version extra rows in
  rows' = rows \/ (dstep now (view rows l) (Added (account, id)) (view rows' l) /\ channel_ok rows' l disclosed).
Proof.
  intros Hok; simpl; unfold enqueue; case_match eqn:Hx; [by left | right].
  apply orb_false_iff in Hx as [Hx%bool_decide_eq_false%eq_None_not_Some _]; set (r' := Build_DeliveryRow _ _ _ _ _ _ _ _ _ _ _ _ _ _ _ _).
  assert (Hs : dstep now (view rows l) (Added (account, id)) (view (<[(account, id) := r']> rows) l)).
  { assert (view (<[(account, id) := r']> rows) l = put (account, id) (Waiting 0) (view rows l) (holder (view rows l))) as ->
      by (unfold view, put; simpl; by rewrite fmap_insert).
    apply dispatch_add; by rewrite lookup_view, Hx. }
  split; [done |]; split; [| | exact (dstep_coherent _ _ _ _ Hs (lane_coherent _ _ _ Hok))].
  - intros k r; destruct (decide ((account, id) = k)) as [<-|Hne];
      [rewrite lookup_insert_eq; intros [= <-]; by split; [| intros []] | rewrite lookup_insert_ne by done; apply (claims_in_flight _ _ _ Hok)].
  - intros k r c; destruct (decide ((account, id) = k)) as [<-|Hne];
      [rewrite lookup_insert_eq; by intros [= <-] | rewrite lookup_insert_ne by done; apply (claims_disclosed _ _ _ Hok)].
Qed.

(** *** Erasure *)

Lemma erase_rows now rows rows' l disclosed (gone : key -> bool) :
  channel_ok rows l disclosed -> (forall k : key, rows' !! k = if gone k then None else rows !! k) ->
  dstep now (view rows l) (Erased gone) (view rows' l) /\ channel_ok rows' l disclosed.
Proof.
  intros Hok Hg; assert (Hs : dstep now (view rows l) (Erased gone) (view rows' l)).
  { assert (view rows' l = {| phases := filter (fun kv => gone kv.1 = false) (phases (view rows l)); holder := holder (view rows l) |}) as ->;
      [| constructor]; unfold view; simpl; f_equal; apply map_eq; intros k; apply option_eq; intros p; rewrite lookup_fmap, Hg.
    destruct (gone k) eqn:Eg; simpl; rewrite map_lookup_filter_Some; simpl; rewrite Eg, lookup_fmap; [by split; [| intros [_ ?]] | by split; [| intros [? _]]]. }
  split; [done |]; split; [| | exact (dstep_coherent _ _ _ _ Hs (lane_coherent _ _ _ Hok))].
  - intros k r; rewrite Hg; destruct (gone k); [done | apply (claims_in_flight _ _ _ Hok)].
  - intros k r c; rewrite Hg; destruct (gone k); [done | apply (claims_disclosed _ _ _ Hok)].
Qed.

(** The deliveries of an episode. *)
Definition of_episode (account : str) (episode : Z) rows (k : key) : bool :=
  match rows !! k with Some r => str_eqb k.1 account && (d_episode r =? episode) | None => false end.

Lemma lookup_without_episode account episode rows (k : key) :
  filter (fun kv => str_eqb kv.1.1 account && (d_episode kv.2 =? episode) = false) rows !! k
  = if of_episode account episode rows k then None else rows !! k.
Proof.
  apply option_eq; intros r; rewrite map_lookup_filter_Some; simpl; unfold of_episode.
  destruct (rows !! k) as [r0|]; [| by split; [intros [? _] |]].
  destruct (str_eqb k.1 account && (d_episode r0 =? episode)) eqn:Eg.
  - split; [intros [[= <-] H]; congruence | done].
  - split; [by intros [? _] | by intros [= <-]].
Qed.

Lemma of_episode_account account episode rows k : of_episode account episode rows k = true -> k.1 = account.
Proof. unfold of_episode; case_match; [by intros [->%str_eqb_eq _]%andb_true_iff | done]. Qed.

(** *** The end of a claim *)

Lemma end_claim rows l disclosed disclosed' k r r' c l' :
  channel_ok rows l disclosed -> rows !! k = Some r -> d_claim r = Some c -> d_claim r' = None -> d_state r' <> StProcessing ->
  owner l' = None ->
  view (<[k := r']> rows) l' = put k (phase_of r') (view rows l) None /\ channel_ok (<[k := r']> rows) l' disclosed'.
Proof.
  intros Hok Hr Hc Hc' Hs' Hl.
  assert (Hnone : forall k2 r2, <[k := r']> rows !! k2 = Some r2 -> d_claim r2 = None).
  { intros k2 r2; destruct (decide (k = k2)) as [<-|Hne]; [rewrite lookup_insert_eq; by intros [= <-] | rewrite lookup_insert_ne by done].
    intros Hr2; destruct (d_claim r2) eqn:E2; [| done]; exfalso; by eapply Hne, one_claim. }
  assert (Hv : view (<[k := r']> rows) l' = put k (phase_of r') (view rows l) None) by (unfold view, put; simpl; by rewrite fmap_insert, Hl).
  split; [done |]; split.
  - intros k2 r2 Hr2; rewrite (Hnone k2 r2 Hr2); split; [| by intros []].
    intros Hp; destruct (decide (k = k2)) as [<-|Hne]; [rewrite lookup_insert_eq in Hr2; by injection Hr2 as <- |].
    rewrite lookup_insert_ne in Hr2 by done; apply (claims_in_flight _ _ _ Hok _ _ Hr2) in Hp as [c2 Hc2].
    exfalso; by eapply Hne, one_claim.
  - intros k2 r2 c2 Hr2 Hc2; rewrite (Hnone k2 r2 Hr2) in Hc2; done.
  - split; [intros k2 n2 c2 | intros k2 k3 n2 n3 c2 c3]; rewrite ?lookup_view; intros H2.
    + exfalso; apply fmap_Some in H2 as (r2 & Hr2 & H2); unfold phase_of in H2; repeat case_match; try done; by rewrite (Hnone k2 r2 Hr2) in *.
    + exfalso; apply fmap_Some in H2 as (r2 & Hr2 & H2); unfold phase_of in H2; repeat case_match; try done; by rewrite (Hnone k2 r2 Hr2) in *.
Qed.

Lemma owned_released token l c : owner l = Some c -> c.1 = token -> owner (release token l) = None.
Proof. unfold release, owns; intros -> <-; simpl; by rewrite bool_decide_eq_true_2. Qed.

Lemma owned_settled now token circuit l c : owner l = Some c -> c.1 = token -> owner (settle_lane now token circuit l) = None.
Proof. unfold settle_lane, owns; intros -> <-; simpl; by rewrite bool_decide_eq_true_2. Qed.

(** *** A claim *)

Lemma take_claim now rows l disclosed disclosed' k r token lease_ms frozen :
  channel_ok rows l disclosed -> rows !! k = Some r -> is_open (d_state r) = true -> d_attempts r < 10 -> owner l = None ->
  disclosed' k token = true ->
  let rows' := <[k := claimed now (d_attempts r + 1) token (lease_ms * 1000) frozen r]> rows in
  let l' := take_lane token (lease_ms * 1000) l in
  dstep now (view rows l) (Claimed k (d_attempts r + 1) (token, lease_ms * 1000)) (view rows' l') /\ channel_ok rows' l' disclosed'.
Proof.
  intros Hok Hr Ho Hn Hl Hd rows' l'.
  assert (Hnone : forall k2 r2, rows !! k2 = Some r2 -> d_claim r2 = None).
  { intros k2 r2 Hr2; destruct (d_claim r2) as [c|] eqn:Hc; [| done]; assert (Hown := claim_owns _ _ _ _ _ _ Hok Hr2 Hc); congruence. }
  assert (Hs : dstep now (view rows l) (Claimed k (d_attempts r + 1) (token, lease_ms * 1000)) (view rows' l')).
  { assert (view rows' l' = put k (InFlight (d_attempts r + 1) (token, lease_ms * 1000)) (view rows l) (Some (token, lease_ms * 1000))) as ->
      by (unfold view, put; simpl; unfold rows'; by rewrite fmap_insert).
    apply dispatch_claim; [rewrite lookup_view, Hr; simpl; by rewrite open_waits | done | done]. }
  split; [done |]; split; [| | exact (dstep_coherent _ _ _ _ Hs (lane_coherent _ _ _ Hok))].
  - intros k2 r2; unfold rows'; destruct (decide (k = k2)) as [<-|Hne]; [rewrite lookup_insert_eq; intros [= <-]; simpl; split; [by eexists | done] |].
    rewrite lookup_insert_ne by done; apply (claims_in_flight _ _ _ Hok).
  - intros k2 r2 c2; unfold rows'; destruct (decide (k = k2)) as [<-|Hne]; [rewrite lookup_insert_eq; intros [= <-]; simpl; by intros [= <-] |].
    rewrite lookup_insert_ne by done; intros Hr2 Hc2; by rewrite (Hnone _ _ Hr2) in Hc2.
Qed.

(** *** Claims that have ended *)

Lemma ended_claim_of_Some now account (kv : key * DeliveryRow E F) id token :
  ended_claim_of now account kv = Some (id, token) ->
  kv.1 = (account, id) /\ exists until, d_claim kv.2 = Some (token, until) /\ d_state kv.2 = StProcessing /\ until <= now.
Proof.
  unfold ended_claim_of; destruct kv as [[a i] r]; simpl; destruct (d_claim r) as [[t u]|]; [| done].
  destruct (str_eqb a account && _ && _) eqn:Eb; [| done]; intros [= <- <-].
  apply andb_true_iff in Eb as [Eb Hu]; apply andb_true_iff in Eb as [->%str_eqb_eq Hp%bool_decide_eq_true].
  split; [done |]; exists u; split_and!; try done; lia.
Qed.

Lemma ended_claim now account rows id token :
  (id, token) ∈ ended_claims now account rows ->
  exists r until, rows !! (account, id) = Some r /\ d_claim r = Some (token, until) /\ d_state r = StProcessing /\ until <= now.
Proof.
  intros ([k r] & Hin & [Hk (u & ?)]%ended_claim_of_Some)%list_elem_of_omap; simpl in *; subst k.
  exists r, u; split; [by apply elem_of_map_to_list | done].
Qed.

Lemma ended_claims_distinct now account (kvs : list (key * DeliveryRow E F)) :
  NoDup kvs.*1 -> NoDup (omap (ended_claim_of now account) kvs).*1.
Proof.
  induction kvs as [|kv kvs IH]; [by constructor |]; simpl; intros Hk; inversion_clear Hk as [|? ? Hnot Hk'].
  destruct (ended_claim_of now account kv) as [[id token]|] eqn:Ee; [| by apply IH]; simpl; constructor; [| by apply IH].
  intros ([i t] & Hi & (kv' & Hin & Hx)%list_elem_of_omap)%list_elem_of_fmap; simpl in Hi; subst i; apply Hnot.
  apply ended_claim_of_Some in Ee as [-> _], Hx as [Hk _]; rewrite <- Hk; apply list_elem_of_fmap; by exists kv'.
Qed.

Lemma ended_claims_unique now account rows l disclosed :
  channel_ok rows l disclosed -> ended_claims now account rows = [] \/ exists id token, ended_claims now account rows = [(id, token)].
Proof.
  intros Hok; destruct (ended_claims now account rows) as [|[id token] [|[id' token'] rest]] eqn:El; [by left | right; by exists id, token |].
  exfalso; assert (H1 : (id, token) ∈ ended_claims now account rows) by (rewrite El; left).
  assert (H2 : (id', token') ∈ ended_claims now account rows) by (rewrite El; right; left).
  apply ended_claim in H1 as (r & u & Hr & Hc & _), H2 as (r' & u' & Hr' & Hc' & _).
  assert (Heq := one_claim _ _ _ _ _ _ _ _ _ Hok Hr Hc Hr' Hc'); injection Heq as <-.
  assert (Hnd : NoDup (ended_claims now account rows).*1) by apply ended_claims_distinct, NoDup_fst_map_to_list.
  rewrite El in Hnd; inversion_clear Hnd as [|? ? Hnot _]; apply Hnot; left.
Qed.

(** What becomes of the rows, and of the lane: at most one claim lapses. *)
Lemma close_ended_lapses now account rows l disclosed disclosed' id token :
  channel_ok rows l disclosed -> ended_claims now account rows = [(id, token)] ->
  dstep now (view rows l) (Lapsed (account, id) token)
    (view (close_ended now account id token (disclosed (account, id) token) rows) (release token l))
  /\ channel_ok (close_ended now account id token (disclosed (account, id) token) rows) (release token l) disclosed'.
Proof.
  intros Hok El; assert (Hin : (id, token) ∈ ended_claims now account rows) by (rewrite El; left).
  apply ended_claim in Hin as (r & u & Hr & Hc & Hp & Hu).
  assert (Hd := claims_disclosed _ _ _ Hok _ _ _ Hr Hc); simpl in Hd; rewrite Hd.
  set (r' := closed now token StAmbiguous (Some (lit "claim_expired_after_disclosure")) (d_response r) None r).
  assert (close_ended now account id token true rows = <[(account, id) := r']> rows) as ->.
  { unfold close_ended; apply map_eq; intros k; destruct (decide (k = (account, id))) as [->|Hne].
    - rewrite lookup_alter_eq, lookup_insert_eq, Hr; simpl; by rewrite Hc, bool_decide_eq_true_2.
    - by rewrite lookup_alter_ne, lookup_insert_ne. }
  destruct (end_claim rows l disclosed disclosed' (account, id) r r' (token, u) (release token l)) as [Hv Hok']; try done.
  { by eapply owned_released; [eapply claim_owns |]. }
  split; [| done]; rewrite Hv; eapply dispatch_lapse; [| exact Hu]; by eapply claimed_phase.
Qed.
End Channel.

(** ** The two channels of the database *)

Record Channel {E F : Type} := {
  c_rows : Outbox -> gmap key (DeliveryRow E F);
  c_lane : Outbox -> Lane;
  c_disclosed : Outbox -> key -> str -> bool
}.
Arguments Channel : clear implicits.

Definition webhook_channel : Channel unit FrozenWebhookDelivery :=
  {| c_rows := webhooks; c_lane := webhook_lane; c_disclosed o k token := webhook_disclosed k.1 k.2 token o |}.

Definition push_channel : Channel Handoff FrozenPushDelivery :=
  {| c_rows := pushes; c_lane := push_lane; c_disclosed o k token := push_disclosed k.1 token o |}.

(** Steps at one time. *)
Definition walks (now : Z) (d : Dispatch) (ls : list Label) (d' : Dispatch) : Prop := steps dmoves d ((fun l => (now, l)) <$> ls) d'.

Lemma walks_nil now d : walks now d [] d.
Proof. constructor. Qed.

Lemma walks_one now d l d' : dstep now d l d' -> walks now d [l] d'.
Proof. intros Hs; econstructor; [exact Hs | constructor]. Qed.

Lemma walks_app now d ls d' ls' d'' : walks now d ls d' -> walks now d' ls' d'' -> walks now d (ls ++ ls') d''.
Proof. unfold walks; rewrite fmap_app; apply steps_app. Qed.

Section Refinement.
Context {E F : Type} (ch : Channel E F).
Implicit Types s : Db Outbox.

Definition dispatch_of s : Dispatch := view (c_rows ch (outbox s)) (c_lane ch (outbox s)).
Definition in_order s : Prop := channel_ok (c_rows ch (outbox s)) (c_lane ch (outbox s)) (c_disclosed ch (outbox s)).

(** The database goes from one state to the other by steps of the channel
    that are [allowed]. *)
Definition dispatches (now : Z) (allowed : Label -> Prop) s s' : Prop :=
  in_order s -> exists ls, walks now (dispatch_of s) ls (dispatch_of s') /\ in_order s' /\ Forall allowed ls.

#[export] Instance dispatches_preorder now allowed : PreOrder (dispatches now allowed).
Proof.
  split.
  - intros s Hok; exists []; split_and!; [apply walks_nil | done | constructor].
  - intros s1 s2 s3 H12 H23 Hok; destruct (H12 Hok) as (l1 & W1 & Hok2 & A1), (H23 Hok2) as (l2 & W2 & Hok3 & A2).
    exists (l1 ++ l2); split_and!; [by eapply walks_app | done | by apply Forall_app].
Qed.

Definition same_channel s s' : Prop :=
  c_rows ch (outbox s') = c_rows ch (outbox s) /\ c_lane ch (outbox s') = c_lane ch (outbox s)
  /\ c_disclosed ch (outbox s') = c_disclosed ch (outbox s).

Lemma dispatches_same now allowed s s' : same_channel s s' -> dispatches now allowed s s'.
Proof.
  intros (Hr & Hl & Hd) Hok; exists []; unfold dispatch_of, in_order; rewrite Hr, Hl, Hd; split_and!; [apply walks_nil | done | constructor].
Qed.

Lemma dispatches_one now (allowed : Label -> Prop) s s' l :
  allowed l -> (in_order s -> dstep now (dispatch_of s) l (dispatch_of s') /\ in_order s') -> dispatches now allowed s s'.
Proof. intros Ha H Hok; destruct (H Hok); exists [l]; split_and!; [by apply walks_one | done | by repeat constructor]. Qed.

Lemma dispatches_weaken now (P Q : Label -> Prop) s s' : (forall l, P l -> Q l) -> dispatches now P s s' -> dispatches now Q s s'.
Proof. intros Hpq H Hok; destruct (H Hok) as (ls & ? & ? & ?); exists ls; split_and!; [done | done | by eapply Forall_impl]. Qed.

(** Nothing is sent or settled. *)
Definition calm (l : Label) : Prop := match l with Lapsed _ _ | Quietly => True | _ => False end.

(** New deliveries: each of a list is added, or is there already. *)
Definition adds_in_order {X} (now : Z) (label : X -> Label) (l : list X) s s' : Prop :=
  in_order s -> exists ls, walks now (dispatch_of s) ls (dispatch_of s') /\ in_order s' /\ ls `sublist_of` (label <$> l).

Lemma fold_adds {X} now (step : Outbox -> X -> Outbox) (label : X -> Label) l s :
  (forall x s1, in_order s1 -> in_order (set_outbox (fun o => step o x) s1)
     /\ (dispatch_of (set_outbox (fun o => step o x) s1) = dispatch_of s1
         \/ dstep now (dispatch_of s1) (label x) (dispatch_of (set_outbox (fun o => step o x) s1)))) ->
  adds_in_order now label l s (set_outbox (fun o => fold_left step l o) s).
Proof.
  intros Hstep; revert s; induction l as [|x l IH]; intros s Hok; [destruct s; exists []; split_and!; [apply walks_nil | done | constructor] |].
  destruct (Hstep x s Hok) as [Hok1 Hs]; destruct (IH (set_outbox (fun o => step o x) s) Hok1) as (ls & Hw & Hok2 & Hl); destruct Hs as [Hs|Hs].
  - exists ls; rewrite Hs in Hw; split_and!; [exact Hw | done | by apply sublist_cons].
  - exists (label x :: ls); split_and!; [econstructor; [exact Hs | exact Hw] | done | by apply sublist_skip].
Qed.

Lemma adds_dispatches {X} now (label : X -> Label) (l : list X) s s' (P : Label -> Prop) :
  adds_in_order now label l s s' -> (forall x, x ∈ l -> P (label x)) -> dispatches now P s s'.
Proof.
  intros H HP Hok; destruct (H Hok) as (ls & Hw & Hok' & Hl); exists ls; split_and!; [done | done |].
  apply Forall_forall; intros y Hy.
  assert (Hin : y ∈ label <$> l) by (eapply elem_of_submseteq; [exact Hy | by apply sublist_submseteq]).
  apply list_elem_of_fmap in Hin as (x & -> & Hx); by apply HP.
Qed.

End Refinement.

(** *** Statements of the webhook outbox *)

Section WebhookStatements.
Implicit Types s : Db Outbox.

Lemma recover_webhooks now account s (P : Label -> Prop) :
  (forall k t, P (Lapsed k t)) -> dispatches webhook_channel now P s (set_outbox (recover_expired_webhook_claims now account) s).
Proof.
  intros HP Hok; unfold in_order in Hok; simpl in Hok; unfold dispatch_of, in_order; simpl; unfold recover_expired_webhook_claims.
  destruct (ended_claims_unique now account _ _ _ Hok) as [->|(id & token & El)]; [simpl; exists []; split_and!; [apply walks_nil | done | constructor] |].
  rewrite El; simpl; exists [Lapsed (account, id) token].
  destruct (close_ended_lapses now account _ _ _
    (fun k t => webhook_disclosed k.1 k.2 t (recover_webhook_claim now account (outbox s) (id, token, webhook_disclosed account id token (outbox s))))
    id token Hok El) as [Hs Hok'].
  split_and!; [by apply walks_one | done | by repeat constructor].
Qed.

Lemma mark_webhooks now time account state error condition s (P : Label -> Prop) :
  P Quietly -> over state -> dispatches webhook_channel now P s (update_webhooks (mark_open time account state error condition) s).
Proof. intros HP Hv; apply (dispatches_one _ _ _ _ _ Quietly HP); intros Hok; by apply mark_open_quiet. Qed.

Lemma erase_webhooks now account episode s (P : Label -> Prop) :
  P (Erased (of_episode account episode (webhooks (outbox s)))) -> dispatches webhook_channel now P s (erase_episode account episode s).
Proof.
  intros HP; apply (dispatches_one _ _ _ _ _ _ HP); intros Hok; apply erase_rows; [done |]; intros k; apply lookup_without_episode.
Qed.

Lemma others_lookup {V} (account : str) (rows : gmap key V) k : others account rows !! k = if str_eqb k.1 account then None else rows !! k.
Proof.
  unfold others; apply option_eq; intros r; rewrite map_lookup_filter_Some; simpl; destruct (str_eqb k.1 account).
  - by split; [intros [_ ?] |].
  - by split; [intros [? _] |].
Qed.

Lemma erase_account_webhooks now account s (P : Label -> Prop) :
  (forall gone, (forall k : key, gone k = true -> k.1 = account) -> P (Erased gone)) ->
  dispatches webhook_channel now P s (set_outbox (erase_outbox account) s).
Proof.
  intros HP; apply (dispatches_one _ _ _ _ _ (Erased (fun k => str_eqb k.1 account))); [apply HP; by intros k ->%str_eqb_eq |].
  intros Hok; apply erase_rows; [done |]; intros k; apply others_lookup.
Qed.

Lemma enqueue_webhooks now account episode version (l : list (str * str)) s :
  adds_in_order webhook_channel now (fun e => Added (account, e.2)) l s (set_outbox (fun o => fold_left (enqueue_webhook now account episode version) l o) s).
Proof.
  apply fold_adds; intros e s1 Hok; destruct (enqueue_adds now now account e.2 episode e.1 version tt _ _ _ Hok) as [Heq|[Hs Hok1]].
  - simpl in Heq; unfold in_order, dispatch_of; simpl; rewrite Heq; by split; [| left].
  - split; [exact Hok1 | by right].
Qed.
End WebhookStatements.

(** *** Statements of the push outbox *)

Section PushStatements.
Implicit Types s : Db Outbox.

Lemma recover_pushes now account s (P : Label -> Prop) :
  (forall k t, P (Lapsed k t)) -> dispatches push_channel now P s (set_outbox (recover_expired_push_claims now account) s).
Proof.
  intros HP Hok; unfold in_order in Hok; simpl in Hok; unfold dispatch_of, in_order; simpl; unfold recover_expired_push_claims.
  destruct (ended_claims_unique now account _ _ _ Hok) as [->|(id & token & El)]; [simpl; exists []; split_and!; [apply walks_nil | done | constructor] |].
  rewrite El; simpl; exists [Lapsed (account, id) token].
  destruct (close_ended_lapses now account _ _ _
    (fun k t => push_disclosed k.1 t (recover_push_claim now account (outbox s) (id, token, push_disclosed account token (outbox s))))
    id token Hok El) as [Hs Hok'].
  split_and!; [by apply walks_one | done | by repeat constructor].
Qed.

Lemma mark_pushes now time account state error condition s (P : Label -> Prop) :
  P Quietly -> over state -> dispatches push_channel now P s (update_pushes (mark_open time account state error condition) s).
Proof. intros HP Hv; apply (dispatches_one _ _ _ _ _ Quietly HP); intros Hok; by apply mark_open_quiet. Qed.

Lemma erase_pushes now account episode s (P : Label -> Prop) :
  P (Erased (of_episode account episode (pushes (outbox s)))) -> dispatches push_channel now P s (erase_episode account episode s).
Proof.
  intros HP; apply (dispatches_one _ _ _ _ _ _ HP); intros Hok; apply erase_rows; [done |]; intros k; apply lookup_without_episode.
Qed.

Lemma erase_account_pushes now account s (P : Label -> Prop) :
  (forall gone, (forall k : key, gone k = true -> k.1 = account) -> P (Erased gone)) ->
  dispatches push_channel now P s (set_outbox (erase_outbox account) s).
Proof.
  intros HP; apply (dispatches_one _ _ _ _ _ (Erased (fun k => str_eqb k.1 account))); [apply HP; by intros k ->%str_eqb_eq |].
  intros Hok; apply erase_rows; [done |]; intros k; apply others_lookup.
Qed.

Lemma enqueue_pushes now account episode version (l : list (str * str * Handoff)) s :
  adds_in_order push_channel now (fun e => Added (account, e.1.2)) l s (set_outbox (fun o => fold_left (enqueue_push now account episode version) l o) s).
Proof.
  apply fold_adds; intros e s1 Hok; destruct (enqueue_adds now now account e.1.2 episode e.1.1 version e.2 _ _ _ Hok) as [Heq|[Hs Hok1]].
  - simpl in Heq; unfold in_order, dispatch_of; simpl; rewrite Heq; by split; [| left].
  - split; [exact Hok1 | by right].
Qed.
End PushStatements.

(** ** What a claim and a settlement do *)

Section Claims.
Implicit Types s : Db Outbox.

Lemma or_rollback_Ok {A} (m : txn (Db Outbox) (option A)) s o s' :
  or_rollback m s = Ok (o, s') -> (o = None /\ s' = s) \/ (is_Some o /\ m s = Ok (o, s')).
Proof. unfold or_rollback; destruct (m s) as [[[a|] s1]|e]; intros [= <- <-]; [right; split; [by eexists | done] | by left]. Qed.

Definition webhook_claim_of (now : Z) (token : str) (c : WebhookDeliveryCandidate) (request : FrozenWebhookDelivery) (lease_seconds : Z) :
    WebhookDeliveryClaim :=
  {| wk_account := wc_account c; wk_episode_id := wc_episode_id c; wk_subscription := wc_subscription c; wk_version := wc_version c;
     wk_event := wc_event c; wk_token := token; wk_lease_expires_at := format_epoch_millis (lease_end_ms now lease_seconds);
     wk_attempt_count := wc_attempt_count c + 1; wk_request := request |}.

(** A claim was granted in the state [s1], after the account's ended claims
    were recovered. *)
Definition webhook_granted (now : Z) (token : str) (c : WebhookDeliveryCandidate) (request : FrozenWebhookDelivery) (s1 : Db Outbox) : Prop :=
  webhook_fence_exists (wc_account c) (wc_event c) token s1 = false /\ lane_available now (webhook_lane (outbox s1)) = true
  /\ exists r, candidate_webhook now c s1 = Some r /\ webhook_authorized c request r s1 = true.

Lemma claim_webhook_Ok now token c request lease s o s' :
  claim_webhook now token c request lease s = Ok (o, s') ->
  webhook_claim_refused c request lease = false
  /\ ((o = None /\ s' = s)
      \/ (o = Some (webhook_claim_of now token c request lease)
          /\ let s1 := set_outbox (recover_expired_webhook_claims now (wc_account c)) s in
             webhook_granted now token c request s1
             /\ s' = set_outbox (publish_webhook_claim now c request token (lease_end_ms now lease) (wc_attempt_count c + 1)) s1)).
Proof.
  unfold claim_webhook; intros Hx; apply then_Ok in Hx as (? & ? & [Href ->]%abort_if_Ok & Hx).
  do 3 (apply then_Ok in Hx as (? & ? & [_ ->]%try_res_Ok & Hx)); split; [done |].
  apply or_rollback_Ok in Hx as [?|[[k ->] Hx]]; [by left | right].
  apply then_Ok in Hx as (? & s1 & ->%execute_Ok & Hx); set (s1 := set_outbox _ s) in *.
  apply then_Ok in Hx as (? & ? & [-> ->]%select_Ok & Hx); destruct (lane_available now (webhook_lane (outbox s1))) eqn:Hl; [simpl in Hx | by apply commits_Ok in Hx as [? _]].
  apply then_Ok in Hx as (? & ? & [-> ->]%select_Ok & Hx); destruct (candidate_webhook now c s1) as [r|] eqn:Hr; [simpl in Hx | by apply commits_Ok in Hx as [? _]].
  apply then_Ok in Hx as (? & ? & [-> ->]%select_Ok & Hx); destruct (webhook_authorized c request r s1) eqn:Ha; [simpl in Hx | by apply commits_Ok in Hx as [? _]].
  apply then_Ok in Hx as (? & ? & [-> ->]%select_Ok & Hx); apply then_Ok in Hx as (? & ? & [Hf ->]%abort_if_Ok & Hx).
  apply then_Ok in Hx as (? & ? & ->%execute_Ok & [Hk ->]%commits_Ok); split; [exact Hk |]; split; [| done].
  split_and!; [done | done | by exists r].
Qed.

Lemma candidate_webhook_Some now c s r :
  candidate_webhook now c s = Some r ->
  webhooks (outbox s) !! (wc_account c, wc_event c) = Some r /\ d_episode r = wc_episode_id c /\ d_destination r = wc_subscription c
  /\ d_version r = wc_version c /\ is_open (d_state r) = true /\ d_next_attempt r <= now.
Proof.
  unfold candidate_webhook; destruct (webhooks (outbox s) !! _) as [r0|]; simpl; [| done].
  destruct (_ && due now r0) eqn:Eb; [| done]; intros [= <-]; unfold due in Eb.
  rewrite !andb_true_iff, str_eqb_eq in Eb; destruct Eb as [[[? ?] ?] [? ?]]; split_and!; try done; lia.
Qed.

Lemma webhook_authorized_true c request r s :
  webhook_authorized c request r s = true ->
  is_active (wc_account c) s = true /\ d_attempts r = wc_attempt_count c
  /\ (m_identity_revision <$> memories (outbox s) !! (wc_account c, wc_episode_id c)) = Some (wc_identity_revision c)
  /\ exists w, subscriptions (outbox s) !! (wc_account c, d_destination r) = Some w /\ s_enabled w = true
     /\ s_endpoint_url w = fw_endpoint_url request /\ s_signing_secret w = fw_signing_secret request
     /\ s_include_content w = fw_include_content request.
Proof.
  unfold webhook_authorized, authorized_subscription; destruct (is_active (wc_account c) s); [| done].
  destruct (subscriptions (outbox s) !! _) as [w|]; simpl; [| done]; destruct (s_enabled w) eqn:Hen; [| done].
  rewrite !andb_true_iff, !str_eqb_eq, Z.eqb_eq, Bool.eqb_true_iff, bool_decide_eq_true; intros [[[[? ?] ?] ?] ?].
  split_and!; try done; exists w; done.
Qed.

Lemma lane_available_free now l : lane_available now l = true -> owner l = None.
Proof. unfold lane_available; by intros [[H%bool_decide_eq_true _]%andb_true_iff _]%andb_true_iff. Qed.

Lemma webhook_claim_attempts c request lease : webhook_claim_refused c request lease = false -> 1 <= lease <= 120 /\ 0 <= wc_attempt_count c < 10.
Proof. unfold webhook_claim_refused; rewrite !orb_false_iff, negb_false_iff, andb_true_iff; intros [[[[[? ?] ?] _] _] _]; lia. Qed.

Lemma alter_claimed {E F : Type} (now attempts : Z) (token : str) (until : Z) (frozen : F) (rows : gmap key (DeliveryRow E F)) (k : key) r :
  rows !! k = Some r -> alter (claimed now attempts token until frozen) k rows = <[k := claimed now attempts token until frozen r]> rows.
Proof.
  intros Hr; apply map_eq; intros k'; destruct (decide (k = k')) as [<-|Hne].
  - by rewrite lookup_alter_eq, lookup_insert_eq, Hr.
  - by rewrite lookup_alter_ne, lookup_insert_ne.
Qed.

Lemma claim_webhook_dispatches now token c request lease s k s' :
  claim_webhook now token c request lease s = Ok (Some k, s') -> in_order webhook_channel s ->
  exists ls, walks now (dispatch_of webhook_channel s)
      (ls ++ [Claimed (wc_account c, wc_event c) (wk_attempt_count k) (token, lease_end_ms now lease * 1000)]) (dispatch_of webhook_channel s')
    /\ Forall calm ls /\ in_order webhook_channel s'.
Proof.
  intros Hx Hok; apply claim_webhook_Ok in Hx as [Href [[? _]|[Hk Hx]]]; [done |]; injection Hk as ->.
  destruct Hx as [(Hf & Hl & r & Hr & Ha) ->]; set (s1 := set_outbox _ s) in *.
  destruct (recover_webhooks now (wc_account c) s calm ltac:(done) Hok) as (ls & Hw & Hok1 & Hc); fold s1 in Hw, Hok1.
  exists ls; apply candidate_webhook_Some in Hr as (Hrow & _ & _ & _ & Ho & _); apply webhook_authorized_true in Ha as (_ & Hatt & _).
  apply webhook_claim_attempts in Href as [_ Hn].
  set (s2 := set_outbox _ s1).
  assert (Hd : c_disclosed webhook_channel (outbox s2) (wc_account c, wc_event c) token = true).
  { simpl; unfold webhook_disclosed; simpl; rewrite lookup_insert_eq; simpl; by apply bool_decide_eq_true. }
  destruct (take_claim now _ _ _ (c_disclosed webhook_channel (outbox s2)) (wc_account c, wc_event c) r token (lease_end_ms now lease) request
    Hok1 Hrow Ho ltac:(lia) (lane_available_free _ _ Hl) Hd) as [Hs Hok2].
  assert (Hs2 : c_rows webhook_channel (outbox s2)
    = <[(wc_account c, wc_event c) := claimed now (d_attempts r + 1) token (lease_end_ms now lease * 1000) request r]> (c_rows webhook_channel (outbox s1)))
    by (simpl; rewrite <- Hatt; by apply alter_claimed).
  assert (Hl2 : c_lane webhook_channel (outbox s2) = take_lane token (lease_end_ms now lease * 1000) (c_lane webhook_channel (outbox s1))) by done.
  unfold in_order, dispatch_of in *; rewrite Hs2, Hl2; split_and!; [| done | exact Hok2].
  eapply walks_app; [exact Hw |]; simpl wk_attempt_count; rewrite <- Hatt; apply walks_one; exact Hs.
Qed.

Lemma settlement_row_Ok {E F} (row : option (DeliveryRow E F)) token kind o :
  settlement_row row token kind = Ok o ->
  exists r, row = Some r /\ ((o = None /\ d_completed r = Some token)
    \/ (o = Some r /\ d_state r = StProcessing /\ exists until, d_claim r = Some (token, until))).
Proof.
  unfold settlement_row; destruct row as [r|]; simpl; [| done]; intros Hx; exists r; split; [done |].
  destruct (bool_decide (d_completed r = Some token)) eqn:Hc; [left; injection Hx as <-; by apply bool_decide_eq_true in Hc |].
  destruct (negb _ || negb _) eqn:En; simpl in Hx; [done |]; right; injection Hx as <-; split; [done |].
  apply orb_false_iff in En as [Hp Ht]; apply negb_false_iff, bool_decide_eq_true in Hp, Ht; split; [done |].
  destruct (d_claim r) as [[t u]|]; [| done]; simpl in Ht; injection Ht as ->; by exists u.
Qed.

Lemma settle_webhook_Ok now k outcome circuit s u s' :
  settle_webhook now k outcome circuit s = Ok (u, s') ->
  webhook_outcome_is_valid outcome = true
  /\ (s' = s \/ exists r until state status code retry_at,
      webhooks (outbox s) !! (wk_account k, wk_event k) = Some r /\ d_claim r = Some (wk_token k, until)
      /\ webhook_fence_stands k s = true /\ webhook_settlement outcome = Ok (state, status, code, retry_at)
      /\ s' = set_outbox (fun o => set_webhook (alter (closed now (wk_token k) state code status retry_at) (wk_account k, wk_event k) (webhooks o))
                 (drop_webhook_fence (wk_account k) (wk_event k) (wk_token k) o) (settle_lane now (wk_token k) circuit (webhook_lane o)) o) s).
Proof.
  unfold settle_webhook; intros Hx; apply then_Ok in Hx as (? & ? & [Hv ->]%abort_if_Ok & Hx).
  apply orb_false_iff in Hv as [Hv _]; apply negb_false_iff in Hv; split; [done |].
  apply then_Ok in Hx as (? & ? & [-> ->]%select_Ok & Hx); apply then_Ok in Hx as (o & ? & [Ho ->]%try_res_Ok & Hx).
  apply settlement_row_Ok in Ho as (r & Hr & [[-> _]|(-> & _ & until & Hc)]); [left; by apply commits_Ok in Hx as [_ ->] | right].
  apply then_Ok in Hx as (? & ? & [-> ->]%select_Ok & Hx); apply then_Ok in Hx as (? & ? & [Hf ->]%abort_if_Ok & Hx).
  apply then_Ok in Hx as ([[[state status] code] retry_at] & ? & [Hset ->]%try_res_Ok & ->%execute_Ok).
  apply negb_false_iff in Hf; exists r, until, state, status, code, retry_at; split_and!; try done.
  unfold claimed_webhook in Hr; destruct (webhooks (outbox s) !! _) as [r0|]; simpl in Hr; [| done]; by case_match; simplify_eq.
Qed.

(** The label of a settlement: a refused send may be tried again. *)
Definition webhook_label (k : WebhookDeliveryClaim) (outcome : WebhookProviderOutcome) : Label :=
  match outcome with
  | WebhookOutcome.Retry _ _ _ => Refused (wk_account k, wk_event k) (wk_token k)
  | _ => Settled (wk_account k, wk_event k) (wk_token k)
  end.

Lemma alter_closed {E F : Type} (now : Z) (token : str) (state : DeliveryState) (code : option str) (status retry_at : option Z) (rows : gmap key (DeliveryRow E F)) (k : key) r :
  rows !! k = Some r -> alter (closed now token state code status retry_at) k rows = <[k := closed now token state code status retry_at r]> rows.
Proof.
  intros Hr; apply map_eq; intros k'; destruct (decide (k = k')) as [<-|Hne].
  - by rewrite lookup_alter_eq, lookup_insert_eq, Hr.
  - by rewrite lookup_alter_ne, lookup_insert_ne.
Qed.

(** The settlement of a claimed row frees its lane. *)
Lemma settle_claim {E F : Type} (now : Z) (rows : gmap key (DeliveryRow E F)) (l : Lane) (disclosed disclosed' : key -> str -> bool) (k : key) r (token : str) (until : Z)
    (state : DeliveryState) (code : option str) (status retry_at circuit : option Z) :
  channel_ok rows l disclosed -> rows !! k = Some r -> d_claim r = Some (token, until) -> state = StRetryWait \/ over state ->
  let rows' := alter (closed now token state code status retry_at) k rows in
  let l' := settle_lane now token circuit l in
  dstep now (view rows l) (if bool_decide (state = StRetryWait) then Refused k token else Settled k token) (view rows' l')
  /\ channel_ok rows' l' disclosed'.
Proof.
  intros Hok Hr Hc Hst; simpl; rewrite (alter_closed _ _ _ _ _ _ _ _ _ Hr); set (r' := closed now token state code status retry_at r).
  destruct (end_claim rows l disclosed disclosed' k r r' (token, until) (settle_lane now token circuit l)) as [Hv Hok']; try done.
  { simpl; destruct Hst as [->|?%over_not_processing]; done. }
  { eapply owned_settled; [by eapply claim_owns | done]. }
  split; [| done]; rewrite Hv; assert (Hp := claimed_phase _ _ _ _ _ _ Hok Hr Hc); case_bool_decide as Es.
  - assert (phase_of r' = Waiting (d_attempts r)) as -> by (unfold phase_of; simpl; by rewrite Es); by eapply dispatch_refuse.
  - assert (phase_of r' = Over) as -> by (apply over_phase; simpl; by destruct Hst); by eapply dispatch_settle.
Qed.

Lemma webhook_settlement_state outcome state status code retry_at k :
  webhook_settlement outcome = Ok (state, status, code, retry_at) ->
  (state = StRetryWait \/ over state)
  /\ webhook_label k outcome = (if bool_decide (state = StRetryWait) then Refused (wk_account k, wk_event k) (wk_token k)
                                else Settled (wk_account k, wk_event k) (wk_token k)).
Proof.
  unfold over; destruct outcome; simpl; intros Hx; all_ok; simplify_eq; simpl; try (split; [tauto | done]).
Qed.

Lemma settle_webhook_dispatches now k outcome circuit s u s' :
  settle_webhook now k outcome circuit s = Ok (u, s') -> in_order webhook_channel s ->
  s' = s \/ (dstep now (dispatch_of webhook_channel s) (webhook_label k outcome) (dispatch_of webhook_channel s') /\ in_order webhook_channel s').
Proof.
  intros Hx Hok; apply settle_webhook_Ok in Hx as [_ [->|(r & until & state & status & code & retry_at & Hr & Hc & _ & Hset & ->)]]; [by left | right].
  apply (webhook_settlement_state _ _ _ _ _ k) in Hset as [Hst ->].
  eapply settle_claim; [exact Hok | exact Hr | exact Hc | exact Hst].
Qed.

(** *** Pushes *)

Definition push_claim_of (now : Z) (token : str) (c : PushDeliveryCandidate) (request : FrozenPushDelivery) (lease_seconds : Z) : PushDeliveryClaim :=
  {| pk_account := pc_account c; pk_episode_id := pc_episode_id c; pk_binding := pc_binding c; pk_installation := pc_installation c;
     pk_version := pc_version c; pk_delivery := pc_delivery c; pk_handoff := pc_handoff c; pk_token := token;
     pk_lease_expires_at := format_epoch_millis (lease_end_ms now lease_seconds); pk_attempt_count := pc_attempt_count c + 1;
     pk_created_at := pc_created_at c; pk_request := request |}.

Definition push_granted (now : Z) (token : str) (c : PushDeliveryCandidate) (request : FrozenPushDelivery) (s1 : Db Outbox) : Prop :=
  push_fence_exists (pc_account c) (pc_installation c) token s1 = false /\ lane_available now (push_lane (outbox s1)) = true
  /\ exists r, candidate_push now c s1 = Some r /\ push_authorized c request r s1 = true.

Lemma claim_push_Ok now token c request lease s o s' :
  claim_push now token c request lease s = Ok (o, s') ->
  push_claim_refused c request lease = false
  /\ ((o = None /\ s' = s)
      \/ (o = Some (push_claim_of now token c request lease)
          /\ let s1 := set_outbox (recover_expired_push_claims now (pc_account c)) s in
             push_granted now token c request s1
             /\ s' = set_outbox (publish_push_claim now c request token (lease_end_ms now lease) (pc_attempt_count c + 1)) s1)).
Proof.
  unfold claim_push; intros Hx; apply then_Ok in Hx as (? & ? & [Href ->]%abort_if_Ok & Hx).
  do 3 (apply then_Ok in Hx as (? & ? & [_ ->]%try_res_Ok & Hx)); split; [done |].
  apply or_rollback_Ok in Hx as [?|[[k ->] Hx]]; [by left | right].
  apply then_Ok in Hx as (? & s1 & ->%execute_Ok & Hx); set (s1 := set_outbox _ s) in *.
  apply then_Ok in Hx as (? & ? & [-> ->]%select_Ok & Hx); destruct (lane_available now (push_lane (outbox s1))) eqn:Hl; [simpl in Hx | by apply commits_Ok in Hx as [? _]].
  apply then_Ok in Hx as (? & ? & [-> ->]%select_Ok & Hx); destruct (candidate_push now c s1) as [r|] eqn:Hr; [simpl in Hx | by apply commits_Ok in Hx as [? _]].
  apply then_Ok in Hx as (? & ? & [-> ->]%select_Ok & Hx); destruct (push_authorized c request r s1) eqn:Ha; [simpl in Hx | by apply commits_Ok in Hx as [? _]].
  apply then_Ok in Hx as (? & ? & [-> ->]%select_Ok & Hx); apply then_Ok in Hx as (? & ? & [Hf ->]%abort_if_Ok & Hx).
  apply then_Ok in Hx as (? & ? & ->%execute_Ok & [Hk ->]%commits_Ok); split; [exact Hk |]; split; [| done].
  split_and!; [done | done | by exists r].
Qed.

Lemma candidate_push_Some now c s r :
  candidate_push now c s = Some r ->
  pushes (outbox s) !! (pc_account c, pc_delivery c) = Some r /\ d_destination r = pc_binding c /\ is_open (d_state r) = true.
Proof.
  unfold candidate_push; destruct (pushes (outbox s) !! _) as [r0|]; simpl; [| done].
  destruct (_ && due now r0) eqn:Eb; [| done]; intros [= <-]; unfold due in Eb.
  rewrite !andb_true_iff, str_eqb_eq in Eb; destruct Eb as [[[? ?] ?] [? ?]]; by split_and!.
Qed.

Lemma push_authorized_true c request r s :
  push_authorized c request r s = true ->
  is_active (pc_account c) s = true /\ d_attempts r = pc_attempt_count c
  /\ exists p, installations (outbox s) !! (pc_account c, pc_installation c) = Some p /\ p_enabled p = true /\ p_topic p = fp_topic request
     /\ p_environment p = fp_environment request /\ p_device_token p = fp_device_token request
     /\ p_token_generation p = fp_token_generation request.
Proof.
  unfold push_authorized; destruct (installations (outbox s) !! _) as [p|]; [| done].
  rewrite !andb_true_iff, !str_eqb_eq, !Z.eqb_eq; intros [[[[[[? ?] ?] ?] ?] ?] ?]; split_and!; try done; by exists p.
Qed.

Lemma push_claim_attempts c request lease : push_claim_refused c request lease = false -> 1 <= lease <= 120 /\ 0 <= pc_attempt_count c < 10.
Proof. unfold push_claim_refused; rewrite !orb_false_iff, negb_false_iff, andb_true_iff; intros [[[[[[[? ?] ?] _] _] _] _] _]; lia. Qed.

Lemma claim_push_dispatches now token c request lease s k s' :
  claim_push now token c request lease s = Ok (Some k, s') -> in_order push_channel s ->
  exists ls, walks now (dispatch_of push_channel s)
      (ls ++ [Claimed (pc_account c, pc_delivery c) (pk_attempt_count k) (token, lease_end_ms now lease * 1000)]) (dispatch_of push_channel s')
    /\ Forall calm ls /\ in_order push_channel s'.
Proof.
  intros Hx Hok; apply claim_push_Ok in Hx as [Href [[? _]|[Hk Hx]]]; [done |]; injection Hk as ->.
  destruct Hx as [(Hf & Hl & r & Hr & Ha) ->]; set (s1 := set_outbox _ s) in *.
  destruct (recover_pushes now (pc_account c) s calm ltac:(done) Hok) as (ls & Hw & Hok1 & Hc); fold s1 in Hw, Hok1.
  exists ls; apply candidate_push_Some in Hr as (Hrow & _ & Ho); apply push_authorized_true in Ha as (_ & Hatt & _).
  apply push_claim_attempts in Href as [_ Hn].
  set (s2 := set_outbox _ s1).
  assert (Hd : c_disclosed push_channel (outbox s2) (pc_account c, pc_delivery c) token = true).
  { simpl; unfold push_disclosed; apply some_row_true; eexists (pc_account c, pc_installation c), _; simpl; rewrite lookup_insert_eq; split; [done |].
    simpl; by rewrite !(proj2 (str_eqb_eq _ _) eq_refl). }
  destruct (take_claim now _ _ _ (c_disclosed push_channel (outbox s2)) (pc_account c, pc_delivery c) r token (lease_end_ms now lease) request
    Hok1 Hrow Ho ltac:(lia) (lane_available_free _ _ Hl) Hd) as [Hs Hok2].
  assert (Hs2 : c_rows push_channel (outbox s2)
    = <[(pc_account c, pc_delivery c) := claimed now (d_attempts r + 1) token (lease_end_ms now lease * 1000) request r]> (c_rows push_channel (outbox s1)))
    by (simpl; rewrite <- Hatt; by apply alter_claimed).
  assert (Hl2 : c_lane push_channel (outbox s2) = take_lane token (lease_end_ms now lease * 1000) (c_lane push_channel (outbox s1))) by done.
  unfold in_order, dispatch_of in *; rewrite Hs2, Hl2; split_and!; [| done | exact Hok2].
  eapply walks_app; [exact Hw |]; simpl pk_attempt_count; rewrite <- Hatt; apply walks_one; exact Hs.
Qed.

Definition push_label (k : PushDeliveryClaim) (outcome : PushProviderOutcome) : Label :=
  match outcome with
  | PushOutcome.Retry _ _ _ => Refused (pk_account k, pk_delivery k) (pk_token k)
  | _ => Settled (pk_account k, pk_delivery k) (pk_token k)
  end.

Lemma push_settlement_state outcome state status code retry_at k :
  push_settlement outcome = Ok (state, status, code, retry_at) ->
  (state = StRetryWait \/ over state)
  /\ push_label k outcome = (if bool_decide (state = StRetryWait) then Refused (pk_account k, pk_delivery k) (pk_token k)
                             else Settled (pk_account k, pk_delivery k) (pk_token k)).
Proof. unfold over; destruct outcome; simpl; intros Hx; all_ok; simplify_eq; simpl; try (split; [tauto | done]). Qed.

(** The rows, fences and lane a settlement leaves. *)
Definition push_settled (now : Z) (k : PushDeliveryClaim) state (code : option str) (status retry_at circuit : option Z) : Db Outbox -> Db Outbox :=
  set_outbox (fun o => set_push (alter (closed now (pk_token k) state code status retry_at) (pk_account k, pk_delivery k) (pushes o))
    (drop_push_fences (pk_account k) (pk_token k) (push_fences o)) (settle_lane now (pk_token k) circuit (push_lane o)) o).

Lemma settle_push_Ok now k outcome circuit s u s' :
  settle_push now k outcome circuit s = Ok (u, s') ->
  s' = s \/ exists r until state status code retry_at,
      pushes (outbox s) !! (pk_account k, pk_delivery k) = Some r /\ d_claim r = Some (pk_token k, until)
      /\ push_settlement outcome = Ok (state, status, code, retry_at)
      /\ let s1 := push_settled now k state code status retry_at circuit s in
         s' = s1 \/ s' = retire_token (pk_account k) (pk_installation k) (fp_token_generation (pk_request k)) s1.
Proof.
  unfold settle_push; intros Hx; apply then_Ok in Hx as (? & ? & [Hv ->]%abort_if_Ok & Hx).
  apply then_Ok in Hx as (? & ? & [-> ->]%select_Ok & Hx); apply then_Ok in Hx as (o & ? & [Ho ->]%try_res_Ok & Hx).
  apply settlement_row_Ok in Ho as (r & Hr & [[-> _]|(-> & _ & until & Hc)]); [left; by apply commits_Ok in Hx as [_ ->] | right].
  apply then_Ok in Hx as (? & ? & [-> ->]%select_Ok & Hx); apply then_Ok in Hx as (? & ? & [Hf ->]%abort_if_Ok & Hx).
  apply then_Ok in Hx as ([[[state status] code] retry_at] & ? & [Hset ->]%try_res_Ok & Hx).
  apply then_Ok in Hx as (? & ? & ->%execute_Ok & Hx).
  exists r, until, state, status, code, retry_at; split_and!; [| done | done |].
  - unfold claimed_push in Hr; destruct (pushes (outbox s) !! _) as [r0|]; simpl in Hr; [| done].
    destruct (_ && _ && _) in Hr; [by injection Hr as -> | done].
  - destruct outcome; try (apply commits_Ok in Hx as [_ ->]; by left); apply execute_Ok in Hx as ->; by right.
Qed.

Lemma settle_push_dispatches now k outcome circuit s u s' :
  settle_push now k outcome circuit s = Ok (u, s') -> in_order push_channel s ->
  s' = s \/ (dstep now (dispatch_of push_channel s) (push_label k outcome) (dispatch_of push_channel s') /\ in_order push_channel s').
Proof.
  intros Hx Hok; apply settle_push_Ok in Hx as [->|(r & until & state & status & code & retry_at & Hr & Hc & Hset & Hs')]; [by left | right].
  apply (push_settlement_state _ _ _ _ _ k) in Hset as [Hst ->].
  assert (H1 : dispatch_of push_channel s' = dispatch_of push_channel (push_settled now k state code status retry_at circuit s)
    /\ (in_order push_channel (push_settled now k state code status retry_at circuit s) -> in_order push_channel s')) by (destruct Hs' as [->| ->]; done).
  destruct H1 as [-> Hio]; match goal with |- ?A /\ _ => cut (A /\ in_order push_channel (push_settled now k state code status retry_at circuit s)) end.
  { intros [? ?]; auto. }
  eapply settle_claim; [exact Hok | exact Hr | exact Hc | exact Hst].
Qed.
End Claims.
