(* ===== verification/OutboxTrace.v ===== *)
(** * Traces of the delivery tables

    The transactions of [Outbox] and of the accounts as the events of a trace,
    and the steps of [Dispatch] each of them is on either outbox.  An event's
    answer may be a failure of the connection, whether or not its transaction
    was committed. *)
From stdpp Require Import gmap.
From Stdlib Require Import ZArith Lia.
From S2P Require Import Prelude OrdMap Text Errors Bytes IsoTime Effects Txn AccountDb Identity Lifecycle OAuthStore AccountLedger AccountFrame.
From S2P Require Import OutboxDb Outbox Dispatch OutboxLedger.
Local Open Scope Z_scope.
Local Open Scope kioku_scope.

Inductive OutboxEvent :=
| ENextWebhook (account : str) (r : res (option WebhookDeliveryCandidate))
| EClaimWebhook (token : str) (c : WebhookDeliveryCandidate) (request : FrozenWebhookDelivery) (lease : Z) (r : res (option WebhookDeliveryClaim))
| ESettleWebhook (k : WebhookDeliveryClaim) (outcome : WebhookProviderOutcome) (circuit : option Z) (r : res unit)
| ECancel (account id : str) (r : res unit)
| ECreate (w : WebhookSubscription) (r : res unit)
| EDisable (account id : str) (r : res unit)
| EDelete (account id : str) (r : res bool)
| ENextPush (account : str) (r : res (option PushDeliveryCandidate))
| EClaimPush (token : str) (c : PushDeliveryCandidate) (request : FrozenPushDelivery) (lease : Z) (r : res (option PushDeliveryClaim))
| ESettlePush (k : PushDeliveryClaim) (outcome : PushProviderOutcome) (circuit : option Z) (r : res unit)
| EUpsert (i : PushInstallation) (r : res PushInstallation)
| EDeleteInstallation (account id : str) (r : res bool)
| EEnqueue (account : str) (episode version : Z) (d : Destinations)
| EEraseEpisode (account : str) (episode : Z)
| EMemories (f : gmap (str * Z) MemoryRow -> gmap (str * Z) MemoryRow)
| EAccount (e : StoreEvent).

Section Traces.
Context (present : str -> FinalizedEpisode -> res FinalizedEpisode) (sha256 : bytes -> bytes) `{U : Unicode}.
Implicit Types s : Db Outbox.

(** What an event at time [now] does to the database.  Episodes and their
    briefs are written by other components. *)
Definition acts (now : Z) (e : OutboxEvent) s s' : Prop :=
  match e with
  | ENextWebhook account r => answers (next_webhook_candidate present now account) r s s'
  | EClaimWebhook token c request lease r => answers (claim_webhook now token c request lease) r s s'
  | ESettleWebhook k outcome circuit r => answers (settle_webhook now k outcome circuit) r s s'
  | ECancel account id r => answers (cancel_webhook_deliveries now account id) r s s'
  | ECreate w r => answers (create_webhook_subscription w) r s s'
  | EDisable account id r => answers (disable_webhook_subscription account id) r s s'
  | EDelete account id r => answers (delete_webhook_subscription account id) r s s'
  | ENextPush account r => answers (next_push_candidate now account) r s s'
  | EClaimPush token c request lease r => answers (claim_push now token c request lease) r s s'
  | ESettlePush k outcome circuit r => answers (settle_push now k outcome circuit) r s s'
  | EUpsert i r => answers (upsert_push_installation now i) r s s'
  | EDeleteInstallation account id r => answers (delete_push_installation account id) r s s'
  | EEnqueue account episode version d => s' = enqueue_deliveries now account episode version d s
  | EEraseEpisode account episode => s' = erase_episode account episode s
  | EMemories f => s' = set_outbox (set_memories f) s
  | EAccount x => x <> SOther /\ effect sha256 now x s s'
  end.

Definition outbox_moves s (e : Z * OutboxEvent) s' : Prop := acts e.1 e.2 s s'.

(** Nothing was ever enqueued or configured. *)
Definition new_outbox (o : Outbox) : Prop :=
  subscriptions o = ∅ /\ webhooks o = ∅ /\ webhook_fences o = ∅ /\ owner (webhook_lane o) = None
  /\ installations o = ∅ /\ pushes o = ∅ /\ push_fences o = ∅ /\ owner (push_lane o) = None.

Definition outbox_reachable s : Prop := exists s0 t, new_outbox (outbox s0) /\ steps outbox_moves s0 t s.

(** ** What the events are on the webhook outbox *)

Definition webhook_says (now : Z) (e : OutboxEvent) (l : Label) : Prop :=
  match l with
  | Claimed k n c => exists token d request lease r, e = EClaimWebhook token d request lease r
      /\ k = (wc_account d, wc_event d) /\ n = wc_attempt_count d + 1 /\ c = (token, lease_end_ms now lease * 1000)
  | Refused k token => exists x status code at_ circuit r, e = ESettleWebhook x (WebhookOutcome.Retry status code at_) circuit r
      /\ k = (wk_account x, wk_event x) /\ token = wk_token x
  | Settled k token => exists x outcome circuit r, e = ESettleWebhook x outcome circuit r /\ k = (wk_account x, wk_event x) /\ token = wk_token x
  | Added k => exists account episode version d, e = EEnqueue account episode version d /\ k.1 = account
      /\ k.2 ∈ (webhook_destinations d).*2
  | Erased _ => (exists account episode, e = EEraseEpisode account episode) \/ (exists x, e = EAccount x)
  | Lapsed _ _ | Quietly => True
  end.

Definition push_says (now : Z) (e : OutboxEvent) (l : Label) : Prop :=
  match l with
  | Claimed k n c => exists token d request lease r, e = EClaimPush token d request lease r
      /\ k = (pc_account d, pc_delivery d) /\ n = pc_attempt_count d + 1 /\ c = (token, lease_end_ms now lease * 1000)
  | Refused k token => exists x status code at_ circuit r, e = ESettlePush x (PushOutcome.Retry status code at_) circuit r
      /\ k = (pk_account x, pk_delivery x) /\ token = pk_token x
  | Settled k token => exists x outcome circuit r, e = ESettlePush x outcome circuit r /\ k = (pk_account x, pk_delivery x) /\ token = pk_token x
  | Added k => exists account episode version d, e = EEnqueue account episode version d /\ k.1 = account
      /\ k.2 ∈ (fun p => p.1.2) <$> push_destinations d
  | Erased _ => (exists account episode, e = EEraseEpisode account episode) \/ (exists x, e = EAccount x)
  | Lapsed _ _ | Quietly => True
  end.

(** The statements that are none of a channel's. *)
Ltac unrelated := keeps_by_shape; try (apply dispatches_same; done).

Lemma next_webhook_calm now account (P : Label -> Prop) :
  (forall k t, P (Lapsed k t)) -> P Quietly -> keeps (dispatches webhook_channel now P) (next_webhook_candidate present now account).
Proof.
  intros Hl Hq; unfold next_webhook_candidate; keeps_by_shape;
    [by apply recover_webhooks | apply mark_webhooks; [done | unfold over; tauto]..].
Qed.

Lemma next_push_calm now account (P : Label -> Prop) :
  (forall k t, P (Lapsed k t)) -> P Quietly -> keeps (dispatches push_channel now P) (next_push_candidate now account).
Proof.
  intros Hl Hq; unfold next_push_candidate; keeps_by_shape;
    [by apply recover_pushes | apply mark_pushes; [done | unfold over; tauto]..].
Qed.

Lemma cancel_calm now account id (P : Label -> Prop) :
  (forall k t, P (Lapsed k t)) -> P Quietly -> keeps (dispatches webhook_channel now P) (cancel_webhook_deliveries now account id).
Proof.
  intros Hl Hq; unfold cancel_webhook_deliveries; keeps_by_shape; [by apply recover_webhooks | apply mark_webhooks; [done | unfold over; tauto]].
Qed.

Lemma claim_webhook_keeps now token c request lease r :
  keeps (dispatches webhook_channel now (webhook_says now (EClaimWebhook token c request lease r))) (claim_webhook now token c request lease).
Proof.
  intros s o s' Hx Hok; destruct o as [k|].
  - assert (Hk := Hx); apply claim_webhook_Ok in Hk as [_ [[? _]|[Hk _]]]; [done |]; injection Hk as ->.
    destruct (claim_webhook_dispatches _ _ _ _ _ _ _ _ Hx Hok) as (ls & Hw & Hc & Hok').
    eexists; split_and!; [exact Hw | done |]; apply Forall_app; split; [| by repeat constructor; exists token, c, request, lease, r].
    eapply Forall_impl; [exact Hc |]; by intros [].
  - apply claim_webhook_Ok in Hx as [_ [[_ ->]|[? _]]]; [| done]; exists []; split_and!; [apply walks_nil | done | constructor].
Qed.

Lemma settle_webhook_keeps now k outcome circuit r :
  keeps (dispatches webhook_channel now (webhook_says now (ESettleWebhook k outcome circuit r))) (settle_webhook now k outcome circuit).
Proof.
  intros s o s' Hx Hok; destruct (settle_webhook_dispatches _ _ _ _ _ _ _ Hx Hok) as [->|[Hs Hok']].
  - exists []; split_and!; [apply walks_nil | done | constructor].
  - exists [webhook_label k outcome]; split_and!; [by apply walks_one | done |]; repeat constructor.
    destruct outcome as [|status code at_| |]; simpl; try (by eexists k, _, circuit, r); by exists k, status, code, at_, circuit, r.
Qed.

Lemma claim_push_keeps now token c request lease r :
  keeps (dispatches push_channel now (push_says now (EClaimPush token c request lease r))) (claim_push now token c request lease).
Proof.
  intros s o s' Hx Hok; destruct o as [k|].
  - assert (Hk := Hx); apply claim_push_Ok in Hk as [_ [[? _]|[Hk _]]]; [done |]; injection Hk as ->.
    destruct (claim_push_dispatches _ _ _ _ _ _ _ _ Hx Hok) as (ls & Hw & Hc & Hok').
    eexists; split_and!; [exact Hw | done |]; apply Forall_app; split; [| by repeat constructor; exists token, c, request, lease, r].
    eapply Forall_impl; [exact Hc |]; by intros [].
  - apply claim_push_Ok in Hx as [_ [[_ ->]|[? _]]]; [| done]; exists []; split_and!; [apply walks_nil | done | constructor].
Qed.

Lemma settle_push_keeps now k outcome circuit r :
  keeps (dispatches push_channel now (push_says now (ESettlePush k outcome circuit r))) (settle_push now k outcome circuit).
Proof.
  intros s o s' Hx Hok; destruct (settle_push_dispatches _ _ _ _ _ _ _ Hx Hok) as [->|[Hs Hok']].
  - exists []; split_and!; [apply walks_nil | done | constructor].
  - exists [push_label k outcome]; split_and!; [by apply walks_one | done |]; repeat constructor.
    destruct outcome as [|status code at_| | |]; simpl; try (by eexists k, _, circuit, r); by exists k, status, code, at_, circuit, r.
Qed.

(** *** Every event *)

Lemma answers_dispatch {E F A} (ch : Channel E F) now (P : Label -> Prop) (m : txn (Db Outbox) A) r s s' :
  keeps (dispatches ch now P) m -> answers m r s s' -> dispatches ch now P s s'.
Proof. apply answers_frame; tc_solve. Qed.

(** Each recovery leaves the other tables. *)
Lemma recover_pushes_frame now account o :
  let o' := recover_expired_push_claims now account o in
  memories o' = memories o /\ subscriptions o' = subscriptions o /\ webhooks o' = webhooks o /\ webhook_fences o' = webhook_fences o
  /\ webhook_lane o' = webhook_lane o /\ installations o' = installations o.
Proof.
  simpl; unfold recover_expired_push_claims; generalize ((fun e => (e.1, e.2, push_disclosed account e.2 o)) <$> ended_claims now account (pushes o)) as l.
  intros l; revert o; induction l as [|[[id t] b] l IH]; intros o; [done | apply (IH (recover_push_claim now account o (id, t, b)))].
Qed.

Lemma recover_webhooks_frame now account o :
  let o' := recover_expired_webhook_claims now account o in
  memories o' = memories o /\ subscriptions o' = subscriptions o /\ pushes o' = pushes o /\ push_fences o' = push_fences o
  /\ push_lane o' = push_lane o /\ installations o' = installations o.
Proof.
  simpl; unfold recover_expired_webhook_claims;
    generalize ((fun e => (e.1, e.2, webhook_disclosed account e.1 e.2 o)) <$> ended_claims now account (webhooks o)) as l.
  intros l; revert o; induction l as [|[[id t] b] l IH]; intros o; [done | apply (IH (recover_webhook_claim now account o (id, t, b)))].
Qed.

Lemma webhook_pushless now (P : Label -> Prop) :
  (forall account, keeps (dispatches webhook_channel now P) (next_push_candidate now account))
  /\ (forall token c q lease, keeps (dispatches webhook_channel now P) (claim_push now token c q lease))
  /\ (forall k outcome circuit, keeps (dispatches webhook_channel now P) (settle_push now k outcome circuit)).
Proof.
  assert (Hrec : forall account s, dispatches webhook_channel now P s (set_outbox (recover_expired_push_claims now account) s)).
  { intros account s; apply dispatches_same; unfold same_channel, webhook_disclosed; simpl; unfold webhook_disclosed.
    by destruct (recover_pushes_frame now account (outbox s)) as (_ & _ & -> & -> & -> & _). }
  split_and!.
  - intros account; unfold next_push_candidate; unrelated; apply Hrec.
  - intros token c q lease s o s' Hx; apply claim_push_Ok in Hx as [_ [[_ ->]|[_ [_ ->]]]]; [reflexivity |].
    etransitivity; [apply Hrec | by apply dispatches_same].
  - intros k outcome circuit; unfold settle_push; unrelated.
Qed.

Lemma push_webhookless now (P : Label -> Prop) :
  (forall account, keeps (dispatches push_channel now P) (next_webhook_candidate present now account))
  /\ (forall token c q lease, keeps (dispatches push_channel now P) (claim_webhook now token c q lease))
  /\ (forall k outcome circuit, keeps (dispatches push_channel now P) (settle_webhook now k outcome circuit))
  /\ (forall account id, keeps (dispatches push_channel now P) (cancel_webhook_deliveries now account id)).
Proof.
  assert (Hrec : forall account s, dispatches push_channel now P s (set_outbox (recover_expired_webhook_claims now account) s)).
  { intros account s; apply dispatches_same; unfold same_channel; simpl; unfold push_disclosed.
    by destruct (recover_webhooks_frame now account (outbox s)) as (_ & _ & -> & -> & -> & _). }
  split_and!.
  - intros account; unfold next_webhook_candidate; unrelated; apply Hrec.
  - intros token c q lease s o s' Hx; apply claim_webhook_Ok in Hx as [_ [[_ ->]|[_ [_ ->]]]]; [reflexivity |].
    etransitivity; [apply Hrec | by apply dispatches_same].
  - intros k outcome circuit; unfold settle_webhook; unrelated.
  - intros account id; unfold cancel_webhook_deliveries; unrelated; apply Hrec.
Qed.

(** Destinations are no part of a channel's rows. *)
Lemma destinations_apart {E F} (ch : Channel E F) now (P : Label -> Prop) :
  (forall f s, same_channel ch s (set_outbox (set_subscriptions f) s)) -> (forall f s, same_channel ch s (set_outbox (set_installations f) s)) ->
  (forall s, same_channel ch s (set_outbox next_generation s)) ->
  (forall w, keeps (dispatches ch now P) (create_webhook_subscription w))
  /\ (forall account id, keeps (dispatches ch now P) (disable_webhook_subscription account id))
  /\ (forall account id, keeps (dispatches ch now P) (delete_webhook_subscription account id))
  /\ (forall i, keeps (dispatches ch now P) (upsert_push_installation now i))
  /\ (forall account id, keeps (dispatches ch now P) (delete_push_installation account id)).
Proof.
  intros Hs Hi Hg; split_and!; intros.
  - unfold create_webhook_subscription, require_active_account; keeps_by_shape; by apply dispatches_same.
  - unfold disable_webhook_subscription; keeps_by_shape; by apply dispatches_same.
  - unfold delete_webhook_subscription; keeps_by_shape; by apply dispatches_same.
  - unfold upsert_push_installation, require_active_account, registered_generation, remove_installations; keeps_by_shape; by apply dispatches_same.
  - unfold delete_push_installation; keeps_by_shape; by apply dispatches_same.
Qed.

Lemma account_dispatches {E F} (ch : Channel E F) now x s s' (P : Label -> Prop) :
  (forall s1 s2 : Db Outbox, outbox s2 = outbox s1 -> same_channel ch s1 s2) ->
  (forall account (o : Outbox) s1, recover_expired_claims now account (outbox s1) = Ok o -> dispatches ch now P s1 (set_outbox (fun _ => o) s1)) ->
  (forall account s1, same_channel ch s1 (set_outbox (disable_delivery now account) s1)) ->
  (forall account s1, dispatches ch now P s1 (set_outbox (erase_outbox account) s1)) ->
  x <> SOther -> effect sha256 now x s s' -> dispatches ch now P s s'.
Proof.
  intros Hsame Hrec Hdis Her; apply account_frame; [tc_solve | | exact Hrec | | ].
  - intros s1 s2 Ho; by apply dispatches_same, Hsame.
  - intros account s1 _; by apply dispatches_same.
  - intros account s1 _; apply Her.
Qed.

(** A whole recovery: one channel's ended claims lapse, then the other's. *)
Lemma recovery_dispatches {E F} (ch : Channel E F) now account (o : Outbox) s (P : Label -> Prop) :
  (forall s1, dispatches ch now P s1 (set_outbox (recover_expired_webhook_claims now account) s1)) ->
  (forall s1, dispatches ch now P s1 (set_outbox (recover_expired_push_claims now account) s1)) ->
  recover_expired_claims now account (outbox s) = Ok o -> dispatches ch now P s (set_outbox (fun _ => o) s).
Proof.
  intros Hw Hp [= <-]; transitivity (set_outbox (recover_expired_webhook_claims now account) s); [apply Hw |].
  apply (Hp (set_outbox (recover_expired_webhook_claims now account) s)).
Qed.

(** The deliveries of a final brief: the webhooks, then the pushes. *)
Lemma enqueue_deliveries_webhooks now account episode version d s :
  adds_in_order webhook_channel now (fun e => Added (account, e.2)) (webhook_destinations d) s (enqueue_deliveries now account episode version d s).
Proof.
  intros Hok; destruct (enqueue_webhooks now account episode version (webhook_destinations d) s Hok) as (ls & Hw & Hok1 & Hl); exists ls.
  set (s1 := set_outbox _ s) in *.
  assert (Hsame : same_channel webhook_channel s1 (enqueue_deliveries now account episode version d s)).
  { unfold same_channel, enqueue_deliveries; simpl; unfold webhook_disclosed; simpl; generalize (fold_left (enqueue_webhook now account episode version) (webhook_destinations d) (outbox s)) as o.
    generalize (push_destinations d) as l; induction l as [|x l IH]; intros o; [done | apply (IH (enqueue_push now account episode version o x))]. }
  destruct Hsame as (Hr & Hlane & Hd); unfold dispatch_of, in_order in *; rewrite Hr, Hlane, Hd; done.
Qed.

Lemma enqueue_deliveries_pushes now account episode version d s :
  adds_in_order push_channel now (fun e => Added (account, e.1.2)) (push_destinations d) s (enqueue_deliveries now account episode version d s).
Proof.
  intros Hok; set (s1 := set_outbox (fun o => fold_left (enqueue_webhook now account episode version) (webhook_destinations d) o) s).
  assert (Hsame : same_channel push_channel s s1).
  { unfold same_channel, s1; simpl; unfold push_disclosed; generalize (outbox s) as o; generalize (webhook_destinations d) as l.
    induction l as [|x l IH]; intros o; [done | apply (IH (enqueue_webhook now account episode version o x))]. }
  destruct Hsame as (Hr & Hlane & Hd).
  assert (Hok1 : in_order push_channel s1) by (unfold in_order; rewrite Hr, Hlane, Hd; exact Hok).
  destruct (enqueue_pushes now account episode version (push_destinations d) s1 Hok1) as (ls & Hw & Hok2 & Hl); exists ls.
  assert (Hs : dispatch_of push_channel s1 = dispatch_of push_channel s) by (unfold dispatch_of; by rewrite Hr, Hlane).
  rewrite Hs in Hw; done.
Qed.

Lemma webhook_event now e s s' : acts now e s s' -> dispatches webhook_channel now (webhook_says now e) s s'.
Proof.
  destruct (webhook_pushless now (webhook_says now e)) as (Hpn & Hpc & Hps).
  destruct (destinations_apart webhook_channel now (webhook_says now e) ltac:(done) ltac:(done) ltac:(done)) as (Hc & Hd & Hx & Hu & Hi).
  destruct e; simpl; try (by apply answers_dispatch); try (apply answers_dispatch).
  - by apply next_webhook_calm.
  - apply claim_webhook_keeps.
  - apply settle_webhook_keeps.
  - by apply cancel_calm.
  - intros ->; eapply adds_dispatches; [apply enqueue_deliveries_webhooks |]; intros e He.
    exists account, episode, version, d; split_and!; try done; apply list_elem_of_fmap; by exists e.
  - intros ->; apply erase_webhooks; left; by eexists _, _.
  - intros ->; by apply dispatches_same.
  - intros [Hne He]; revert He; apply account_dispatches; try done.
    + intros s1 s2 Ho; unfold same_channel; by rewrite Ho.
    + intros account o s1; apply recovery_dispatches; intros s2; [by apply recover_webhooks |].
      apply dispatches_same; unfold same_channel, webhook_disclosed; simpl; unfold webhook_disclosed.
      by destruct (recover_pushes_frame now account (outbox s2)) as (_ & _ & -> & -> & -> & _).
    + intros account s1; apply erase_account_webhooks; intros gone _; right; by eexists.
Qed.

Lemma push_event now e s s' : acts now e s s' -> dispatches push_channel now (push_says now e) s s'.
Proof.
  destruct (push_webhookless now (push_says now e)) as (Hwn & Hwc & Hws & Hwx).
  destruct (destinations_apart push_channel now (push_says now e) ltac:(done) ltac:(done) ltac:(done)) as (Hc & Hd & Hx & Hu & Hi).
  destruct e; simpl; try (by apply answers_dispatch); try (apply answers_dispatch).
  - by apply next_push_calm.
  - apply claim_push_keeps.
  - apply settle_push_keeps.
  - intros ->; eapply adds_dispatches; [apply enqueue_deliveries_pushes |]; intros e He.
    exists account, episode, version, d; split_and!; try done; apply list_elem_of_fmap; by exists e.
  - intros ->; apply erase_pushes; left; by eexists _, _.
  - intros ->; by apply dispatches_same.
  - intros [Hne He]; revert He; apply account_dispatches; try done.
    + intros s1 s2 Ho; unfold same_channel; by rewrite Ho.
    + intros account o s1; apply recovery_dispatches; intros s2; [| by apply recover_pushes].
      apply dispatches_same; unfold same_channel; simpl; unfold push_disclosed.
      by destruct (recover_webhooks_frame now account (outbox s2)) as (_ & _ & -> & -> & -> & _).
    + intros account s1; apply erase_account_pushes; intros gone _; right; by eexists.
Qed.
End Traces.
