(* ===== verification/OutboxCount.v ===== *)
(** * How often the outboxes let a request leave

    The claims an outbox grants for a delivery, over any trace of the
    database, against the deliveries enqueued and the sends refused. *)
From stdpp Require Import gmap.
From Stdlib Require Import ZArith Lia.
From S2P Require Import Prelude OrdMap Text Errors Bytes IsoTime Effects Tickets Txn AccountDb Identity Lifecycle OAuthStore AccountLedger AccountFrame.
From S2P Require Import OutboxDb Outbox Dispatch OutboxLedger OutboxTrace.
Local Open Scope Z_scope.
Local Open Scope kioku_scope.

(** ** What an event grants, refuses and adds, for the deliveries of a name *)

Definition named (id x : str) : nat := if str_eqb x id then 1%nat else 0%nat.

Definition webhook_grants (id : str) (e : OutboxEvent) : nat :=
  match e with EClaimWebhook _ c _ _ (Ok (Some _)) => named id (wc_event c) | _ => 0%nat end.
Definition webhook_refuses (id : str) (e : OutboxEvent) : nat :=
  match e with ESettleWebhook k (WebhookOutcome.Retry _ _ _) _ _ => named id (wk_event k) | _ => 0%nat end.
Definition webhook_adds (id : str) (e : OutboxEvent) : nat :=
  match e with EEnqueue _ _ _ d => sum_of (fun x => named id x.2) (webhook_destinations d) | _ => 0%nat end.

Definition push_grants (id : str) (e : OutboxEvent) : nat :=
  match e with EClaimPush _ c _ _ (Ok (Some _)) => named id (pc_delivery c) | _ => 0%nat end.
Definition push_refuses (id : str) (e : OutboxEvent) : nat :=
  match e with ESettlePush k (PushOutcome.Retry _ _ _) _ _ => named id (pk_delivery k) | _ => 0%nat end.
Definition push_adds (id : str) (e : OutboxEvent) : nat :=
  match e with EEnqueue _ _ _ d => sum_of (fun x => named id x.1.2) (push_destinations d) | _ => 0%nat end.

Lemma b2n_named id x : Nat.b2n (bool_decide (x = id)) = named id x.
Proof. unfold named; case_bool_decide as E; [by rewrite (proj2 (str_eqb_eq _ _) E) | destruct (str_eqb x id) eqn:Ee; [by apply str_eqb_eq in Ee | done]]. Qed.

Section Counts.
Context (present : str -> FinalizedEpisode -> res FinalizedEpisode) (sha256 : bytes -> bytes) `{U : Unicode}.
Implicit Types s : Db Outbox.

(** ** Over a trace *)

Section Budget.
Context {E F : Type} (ch : Channel E F) (id : str) (grants refuses adds : OutboxEvent -> nat).

(** The steps of an event cover what it grants, and are within what it
    refuses and adds. *)
Definition balances (now : Z) (e : OutboxEvent) s s' : Prop :=
  exists ls, walks now (dispatch_of ch s) ls (dispatch_of ch s') /\ in_order ch s'
    /\ (grants e <= tally (claims_of id) ls)%nat /\ (tally (refuses_of id) ls <= refuses e)%nat /\ (tally (adds_of id) ls <= adds e)%nat.

Hypothesis event_accounts : forall now e s s', acts present sha256 now e s s' -> in_order ch s -> balances now e s s'.

Lemma trace_accounts s t s' :
  steps (outbox_moves present sha256) s t s' -> in_order ch s ->
  exists dt, steps dmoves (dispatch_of ch s) dt (dispatch_of ch s') /\ in_order ch s'
    /\ (sum_of (fun e => grants e.2) t <= tally (claims_of id) dt.*2)%nat
    /\ (tally (refuses_of id) dt.*2 <= sum_of (fun e => refuses e.2) t)%nat
    /\ (tally (adds_of id) dt.*2 <= sum_of (fun e => adds e.2) t)%nat.
Proof.
  induction 1 as [s|s [now e] s1 t s2 Ha _ IH]; intros Hok; [exists []; split_and!; [constructor | done | unfold tally, sum_of; simpl; lia..] |].
  destruct (event_accounts _ _ _ _ Ha Hok) as (ls & Hw & Hok1 & H1 & H2 & H3), (IH Hok1) as (dt & Hd & Hok2 & I1 & I2 & I3).
  assert (Hls : ((fun l => (now, l)) <$> ls).*2 = ls) by (clear; induction ls as [|l ls IH]; [done |]; rewrite !fmap_cons, IH; done).
  exists (((fun l => (now, l)) <$> ls) ++ dt); rewrite fmap_app, Hls, !tally_app, !sum_of_cons; cbn [fst snd] in *.
  split_and!; [by eapply steps_app | done | lia..].
Qed.

Lemma grants_bounded s t s' :
  phases (dispatch_of ch s) = ∅ -> in_order ch s -> steps (outbox_moves present sha256) s t s' ->
  (sum_of (fun e => grants e.2) t <= sum_of (fun e => adds e.2) t + sum_of (fun e => refuses e.2) t)%nat
  /\ (sum_of (fun e => grants e.2) t <= 10 * sum_of (fun e => adds e.2) t)%nat.
Proof.
  intros H0 Hok Ht; destruct (trace_accounts _ _ _ Ht Hok) as (dt & Hd & _ & H1 & H2 & H3).
  destruct (claims_bounded id _ _ _ Hd) as [B1 B2]; rewrite H0 in B1, B2.
  unfold total at 2 in B1; unfold total at 2 in B2; rewrite !map_fold_empty in *; lia.
Qed.
End Budget.

(** ** Each event *)

Lemma tally_no {A} (p : A -> bool) (P : A -> Prop) l : Forall P l -> (forall a, P a -> p a = false) -> tally p l = 0%nat.
Proof. intros H HP; apply tally_none; eapply Forall_impl; [exact H | done]. Qed.

(** Labels that are no additions, refusals or claims. *)
Lemma calm_tallies id ls :
  Forall calm ls -> tally (claims_of id) ls = 0%nat /\ tally (refuses_of id) ls = 0%nat /\ tally (adds_of id) ls = 0%nat.
Proof. intros H; split_and!; apply (tally_no _ _ _ H); by intros []. Qed.

Lemma added_tallies {X} id (label : X -> Label) (name : X -> str) (l : list X) ls :
  (forall x, exists account, label x = Added (account, name x)) -> ls `sublist_of` (label <$> l) ->
  tally (refuses_of id) ls = 0%nat /\ (tally (adds_of id) ls <= sum_of (fun x => named id (name x)) l)%nat.
Proof.
  intros Hlabel Hl; split.
  - apply (tally_no _ (fun x => exists k, x = Added k)); [| by intros ? [k ->]].
    apply Forall_forall; intros y Hy; assert (Hin : y ∈ label <$> l) by (eapply elem_of_submseteq; [exact Hy | by apply sublist_submseteq]).
    apply list_elem_of_fmap in Hin as (x & -> & _); destruct (Hlabel x) as [a ->]; by eexists.
  - revert ls Hl; induction l as [|x l IH]; intros ls Hl; [apply sublist_nil_r in Hl as ->; done |].
    rewrite fmap_cons in Hl; destruct (Hlabel x) as [a Ha]; apply sublist_cons_r in Hl as [Hl|(ls' & -> & Hl)]; apply IH in Hl; rewrite sum_of_cons; [lia |].
    rewrite tally_cons, Ha; simpl; rewrite b2n_named; lia.
Qed.

(** Which events say what. *)
Lemma webhook_says_tallies id now e ls :
  Forall (webhook_says now e) ls ->
  (webhook_refuses id e = 0%nat -> tally (refuses_of id) ls = 0%nat)
  /\ ((forall account episode version d, e <> EEnqueue account episode version d) -> tally (adds_of id) ls = 0%nat).
Proof.
  intros Hls; split; intros He; apply (tally_no _ _ _ Hls); intros [k n c|k t|k t|k t|k|gone|]; simpl; try done.
  - intros (x & status & code & at_ & circuit & r & -> & -> & ->); simpl in *; apply bool_decide_eq_false; intros Ex; rewrite <- b2n_named, bool_decide_eq_true_2 in He; done.
  - intros (account & episode & version & d & -> & _); by destruct (He account episode version d).
Qed.

Lemma push_says_tallies id now e ls :
  Forall (push_says now e) ls ->
  (push_refuses id e = 0%nat -> tally (refuses_of id) ls = 0%nat)
  /\ ((forall account episode version d, e <> EEnqueue account episode version d) -> tally (adds_of id) ls = 0%nat).
Proof.
  intros Hls; split; intros He; apply (tally_no _ _ _ Hls); intros [k n c|k t|k t|k t|k|gone|]; simpl; try done.
  - intros (x & status & code & at_ & circuit & r & -> & -> & ->); simpl in *; apply bool_decide_eq_false; intros Ex; rewrite <- b2n_named, bool_decide_eq_true_2 in He; done.
  - intros (account & episode & version & d & -> & _); by destruct (He account episode version d).
Qed.

Lemma answered_Ok {A} (m : txn (Db Outbox) A) a s s' : answers m (Ok a) s s' -> m s = Ok (a, s').
Proof. intros [H|(e & [=] & _)]; by apply transact_Ok. Qed.

Lemma answered {A} (m : txn (Db Outbox) A) r s s' : answers m r s s' -> s' = s \/ exists a, m s = Ok (a, s').
Proof.
  intros [H|(e & _ & H)]; [| exact H]; destruct r as [a|e]; [right; exists a; by apply transact_Ok | left; by eapply transact_Err].
Qed.

Lemma webhook_event_accounts id now e s s' :
  acts present sha256 now e s s' -> in_order webhook_channel s ->
  balances webhook_channel id (webhook_grants id) (webhook_refuses id) (webhook_adds id) now e s s'.
Proof.
  intros Ha Hok; destruct (webhook_event present sha256 now e s s' Ha Hok) as (ls & Hw & Hok' & Hls).
  destruct (webhook_says_tallies id now e ls Hls) as [Hr Hadd].
  destruct e; try (exists ls; split_and!; [done | done | simpl; lia | rewrite Hr by done; lia | rewrite Hadd by done; lia]).
  - destruct r as [[k|]|]; [| exists ls; split_and!; [done | done | simpl; lia | rewrite Hr by done; lia | rewrite Hadd by done; lia]..].
    apply answered_Ok in Ha; destruct (claim_webhook_dispatches _ _ _ _ _ _ _ _ Ha Hok) as (l1 & Hw1 & Hc & _).
    destruct (calm_tallies id l1 Hc) as (H1 & H2 & H3).
    exists (l1 ++ [Claimed (wc_account c, wc_event c) (wk_attempt_count k) (token, lease_end_ms now lease * 1000)]).
    rewrite !tally_app, !tally_cons, H1, H2, H3; simpl; rewrite b2n_named; unfold tally; simpl; split_and!; [exact Hw1 | done | lia..].
  - apply answered in Ha as [->|[u Hx]].
    + exists []; split_and!; [apply walks_nil | done | unfold tally; simpl; lia..].
    + destruct (settle_webhook_dispatches _ _ _ _ _ _ _ Hx Hok) as [->|[Hs _]]; [exists []; split_and!; [apply walks_nil | done | unfold tally; simpl; lia..] |].
      exists [webhook_label k outcome]; destruct outcome; simpl; split_and!; try (by apply walks_one); try done; rewrite tally_cons; simpl;
        unfold tally; simpl; rewrite ?b2n_named; lia.
  - simpl in Ha; subst s'; destruct (enqueue_deliveries_webhooks now account episode version d s Hok) as (l1 & Hw1 & _ & Hl).
    destruct (added_tallies id (fun e => Added (account, e.2)) (fun e => e.2) (webhook_destinations d) l1) as [H1 H2]; [by intros x; exists account | done |].
    exists l1; split_and!; [done | done | simpl; lia | rewrite H1; simpl; lia | exact H2].
Qed.

Lemma push_event_accounts id now e s s' :
  acts present sha256 now e s s' -> in_order push_channel s ->
  balances push_channel id (push_grants id) (push_refuses id) (push_adds id) now e s s'.
Proof.
  intros Ha Hok; destruct (push_event present sha256 now e s s' Ha Hok) as (ls & Hw & Hok' & Hls).
  destruct (push_says_tallies id now e ls Hls) as [Hr Hadd].
  destruct e; try (exists ls; split_and!; [done | done | simpl; lia | rewrite Hr by done; lia | rewrite Hadd by done; lia]).
  - destruct r as [[k|]|]; [| exists ls; split_and!; [done | done | simpl; lia | rewrite Hr by done; lia | rewrite Hadd by done; lia]..].
    apply answered_Ok in Ha; destruct (claim_push_dispatches _ _ _ _ _ _ _ _ Ha Hok) as (l1 & Hw1 & Hc & _).
    destruct (calm_tallies id l1 Hc) as (H1 & H2 & H3).
    exists (l1 ++ [Claimed (pc_account c, pc_delivery c) (pk_attempt_count k) (token, lease_end_ms now lease * 1000)]).
    rewrite !tally_app, !tally_cons, H1, H2, H3; simpl; rewrite b2n_named; unfold tally; simpl; split_and!; [exact Hw1 | done | lia..].
  - apply answered in Ha as [->|[u Hx]].
    + exists []; split_and!; [apply walks_nil | done | unfold tally; simpl; lia..].
    + destruct (settle_push_dispatches _ _ _ _ _ _ _ Hx Hok) as [->|[Hs _]]; [exists []; split_and!; [apply walks_nil | done | unfold tally; simpl; lia..] |].
      exists [push_label k outcome]; destruct outcome; simpl; split_and!; try (by apply walks_one); try done; rewrite tally_cons; simpl;
        unfold tally; simpl; rewrite ?b2n_named; lia.
  - simpl in Ha; subst s'; destruct (enqueue_deliveries_pushes now account episode version d s Hok) as (l1 & Hw1 & _ & Hl).
    destruct (added_tallies id (fun e => Added (account, e.1.2)) (fun e => e.1.2) (push_destinations d) l1) as [H1 H2]; [by intros x; exists account | done |].
    exists l1; split_and!; [done | done | simpl; lia | rewrite H1; simpl; lia | exact H2].
Qed.

(** ** From the beginning *)

Lemma new_in_order s : new_outbox (outbox s) -> in_order webhook_channel s /\ in_order push_channel s.
Proof.
  intros (_ & Hw & _ & Hwl & _ & Hp & _ & Hpl); split; unfold in_order; simpl; rewrite ?Hw, ?Hp; split.
  all: try (intros k r; by rewrite lookup_empty). all: try (intros k r c; by rewrite lookup_empty).
  all: split; [intros k n c | intros k k' n n' c c']; unfold view; simpl; by rewrite fmap_empty, lookup_empty.
Qed.

Lemma webhook_grants_bounded id s t s' :
  new_outbox (outbox s) -> steps (outbox_moves present sha256) s t s' ->
  (sum_of (fun e => webhook_grants id e.2) t <= sum_of (fun e => webhook_adds id e.2) t + sum_of (fun e => webhook_refuses id e.2) t)%nat
  /\ (sum_of (fun e => webhook_grants id e.2) t <= 10 * sum_of (fun e => webhook_adds id e.2) t)%nat.
Proof.
  intros Hn; destruct (new_in_order s Hn) as [Hok _]; destruct Hn as (_ & Hw & _); apply grants_bounded with webhook_channel id; [| | done].
  - intros; by apply webhook_event_accounts.
  - unfold dispatch_of, view; simpl; by rewrite Hw, fmap_empty.
Qed.

Lemma push_grants_bounded id s t s' :
  new_outbox (outbox s) -> steps (outbox_moves present sha256) s t s' ->
  (sum_of (fun e => push_grants id e.2) t <= sum_of (fun e => push_adds id e.2) t + sum_of (fun e => push_refuses id e.2) t)%nat
  /\ (sum_of (fun e => push_grants id e.2) t <= 10 * sum_of (fun e => push_adds id e.2) t)%nat.
Proof.
  intros Hn; destruct (new_in_order s Hn) as [_ Hok]; destruct Hn as (_ & _ & _ & _ & _ & Hp & _); apply grants_bounded with push_channel id; [| | done].
  - intros; by apply push_event_accounts.
  - unfold dispatch_of, view; simpl; by rewrite Hp, fmap_empty.
Qed.
End Counts.

(** ** A trace and its labels *)

Section Labels.
Context (says : Z -> OutboxEvent -> Label -> Prop).

(** Each event in turn is some labels it says. *)
Inductive labelled : list (Z * OutboxEvent) -> list (Z * Label) -> Prop :=
| labelled_none : labelled [] []
| labelled_event now e ls t dt : Forall (says now e) ls -> labelled t dt -> labelled ((now, e) :: t) (((fun l => (now, l)) <$> ls) ++ dt).

Lemma labelled_elem t dt n l : labelled t dt -> (n, l) ∈ dt -> exists e, (n, e) ∈ t /\ says n e l.
Proof.
  induction 1 as [|now e ls t dt Hls _ IH]; [by intros ?%not_elem_of_nil |]; intros [(x & [= <- ->] & Hx)%list_elem_of_fmap|Hin]%elem_of_app.
  - exists e; split; [left | by eapply Forall_forall in Hls].
  - destruct (IH Hin) as (e' & ? & ?); exists e'; split; [by right | done].
Qed.

Context (present : str -> FinalizedEpisode -> res FinalizedEpisode) (sha256 : bytes -> bytes) `{U : Unicode}.
Context {E F : Type} (ch : Channel E F).
Hypothesis event_dispatches : forall now e s s', acts present sha256 now e s s' -> dispatches ch now (says now e) s s'.

Lemma trace_labelled s t s' :
  steps (outbox_moves present sha256) s t s' -> in_order ch s ->
  exists dt, labelled t dt /\ steps dmoves (dispatch_of ch s) dt (dispatch_of ch s') /\ in_order ch s'.
Proof.
  induction 1 as [s|s [now e] s1 t s2 Ha _ IH]; intros Hok; [exists []; split_and!; [constructor | constructor | done] |].
  destruct (event_dispatches _ _ _ _ Ha Hok) as (ls & Hw & Hok1 & Hls), (IH Hok1) as (dt & Hl & Hd & Hok2).
  exists (((fun l => (now, l)) <$> ls) ++ dt); split_and!; [by constructor | by eapply steps_app | done].
Qed.
End Labels.
