(* ===== verification/DeliveryRuns.v ===== *)
(** * The runs of the delivery workers

    What the calls of [DeliveryWorkers] may be, one after the other: a send
    follows its own claim, goes to an address that was checked, and carries
    the claim's frozen request; a settlement reports what came of it. *)
From Stdlib Require Import ZArith Lia.
From S2P Require Import Prelude OrdMap Text Errors Bytes Json IsoTime Net Effects Tickets Txn AccountDb OutboxDb Outbox Http Webhook Push DeliveryWorkers Dispatch OutboxCount.
Local Open Scope Z_scope.
Local Open Scope kioku_scope.

(** ** Rules for one call of a protocol *)

Section Rules.
Context {State R : Type} (step : State -> Event -> State -> Prop) {returned : R -> State -> Prop} {panicked : State -> Prop}.

#[local] Abbreviation runs s m post := (follows step s m post returned panicked).

Lemma does_call {A B} s (event : A -> Event) answer (k : A -> prog Event R B) post :
  (forall a, exists s', step s (event a) s' /\ runs s' (k a) post) -> runs s (bind (call event answer) k) post.
Proof.
  intros H; eapply follows_bind with (mid := fun a s' => runs s' (k a) post); [| done].
  apply follows_call; intros a; destruct (H a) as (s' & ? & ?); by exists s'.
Qed.

Lemma does_assoc {A B C} s (m : prog Event R A) (f : A -> prog Event R B) (k : B -> prog Event R C) post :
  runs s (let! a := m in let! b := f a in k b) post -> runs s (let! b := (let! a := m in f a) in k b) post.
Proof. intros H h; destruct (H h) as (h' & s' & E & st & Hp); exists h', s'; unfold bind in *; by destruct (m h) as [[a|r|] h1]. Qed.

Lemma does_invoke {R' B} s (m : prog Event R' R') (mid : R' -> State -> Prop) (k : R' -> prog Event R B) post :
  follows step s m mid mid panicked -> (forall r s', mid r s' -> runs s' (k r) post) -> runs s (bind (invoke m) k) post.
Proof. intros Hm Hk; eapply follows_bind; [by apply follows_invoke | exact Hk]. Qed.
End Rules.

Section TryRules.
Context {State T : Type} (step : State -> Event -> State -> Prop) {returned : res T -> State -> Prop} {panicked : State -> Prop}.

#[local] Abbreviation runs s m post := (follows step s m post returned panicked).

Lemma does_try {A B} s (m : prog Event (res T) (res A)) (mid : A -> State -> Prop) (k : A -> prog Event (res T) B) post :
  runs s m (fun r s' => match r with Ok a => mid a s' | Err e => returned (Err e) s' end) ->
  (forall a s', mid a s' -> runs s' (k a) post) -> runs s (bind (try_ m) k) post.
Proof. intros Hm Hk; eapply follows_bind; [by apply follows_try, Hm | exact Hk]. Qed.

Lemma does_try_call {A B} s (event : res A -> Event) answer (k : A -> prog Event (res T) B) post :
  (forall e, exists s', step s (event (Err e)) s' /\ returned (Err e) s') ->
  (forall a, exists s', step s (event (Ok a)) s' /\ runs s' (k a) post) -> runs s (bind (try_ (call event answer)) k) post.
Proof.
  intros He Hk; eapply does_try with (mid := fun a s' => runs s' (k a) post); [| done].
  apply follows_call; intros [a|e]; [destruct (Hk a) as (s' & ? & ?) | destruct (He e) as (s' & ? & ?)]; by exists s'.
Qed.

Lemma does_pure {A B} s (r : res A) (k : A -> prog Event (res T) B) post :
  (forall e, r = Err e -> returned (Err e) s) -> (forall a, r = Ok a -> runs s (k a) post) -> runs s (bind (try_pure r) k) post.
Proof.
  intros He Hk; eapply does_try with (mid := fun a s' => r = Ok a /\ s' = s); [apply follows_done; destruct r; [done | by apply He] |].
  by intros a s' [E ->]; apply Hk.
Qed.
End TryRules.

(** ** A webhook's run *)

(** The calls that neither claim, look up, send nor settle. *)
Definition idle_call (e : Event) : bool :=
  match e with
  | NextWebhook _ _ | NextPush _ _ | Sleep _ | Clock _ => true
  | ClaimWebhook _ _ _ _ (Ok None) | ClaimWebhook _ _ _ _ (Err _) | ClaimPush _ _ _ _ (Ok None) | ClaimPush _ _ _ _ (Err _) => true
  | _ => false
  end.

Inductive Sending :=
| Idle
| Holding (k : WebhookDeliveryClaim)
| Resolved (k : WebhookDeliveryClaim) (host : str) (answer : option (list (IpAddr * Z)))
| Answered (k : WebhookDeliveryClaim) (r : option HttpAnswer).

Inductive PushSending :=
| PushIdle
| PushHolding (k : PushDeliveryClaim)
| PushAnswered (k : PushDeliveryClaim) (r : result PushTransportError Z).

Section Runs.
Context (parse_url : str -> option Url) (hmac_sha256 : bytes -> bytes -> bytes).
Context (b64_encode : bytes -> str) (b64_decode : str -> option bytes) (value_to_string : Value -> option str).

(** The request of a claim, signed with its secret, to an address that was
    looked up and accepted. *)
Definition request_of (k : WebhookDeliveryClaim) (answer : option (list (IpAddr * Z))) (p : SignedPost) : Prop :=
  pinned_address answer = Ok (sp_address p) /\ sp_endpoint p = fw_endpoint_url (wk_request k)
  /\ sp_body p = as_bytes (fw_event_body (wk_request k))
  /\ exists timestamp signed, signature hmac_sha256 b64_encode b64_decode (fw_signing_secret (wk_request k)) (wk_event k) timestamp (sp_body p) = Ok signed
       /\ sp_headers p = webhook_headers (wk_event k) timestamp signed.

(** What came of a claim. *)
Definition came_of (st : Sending) (k : WebhookDeliveryClaim) (r : result SendFailure WebhookTransportResponse) : Prop :=
  match st with
  | Idle => False
  | Holding k' => k' = k /\ r = Err InvalidEndpoint
  | Resolved k' _ _ => k' = k /\ (r = Err InvalidEndpoint \/ r = Err Preflight)
  | Answered k' a => k' = k /\ r = match a with
      | None => Err Ambiguous
      | Some a => Ok {| tr_status := ha_status a; tr_retry_after_seconds := retry_after (ha_retry_after a) |}
      end
  end.

Inductive sends : Sending -> Event -> Sending -> Prop :=
| sends_idle st e : idle_call e = true -> sends st e st
| sends_claim c q lease token k : sends Idle (ClaimWebhook c q lease token (Ok (Some k))) (Holding k)
| sends_resolve k url host answer : endpoint_host parse_url (fw_endpoint_url (wk_request k)) = Ok (url, host) ->
    sends (Holding k) (Resolve host 443 answer) (Resolved k host answer)
| sends_post k host answer p r : request_of k answer p -> sends (Resolved k host answer) (Post p r) (Answered k r)
| sends_settle st k result_ time outcome circuit r : came_of st k result_ ->
    classify_webhook_transport_result result_ (wk_attempt_count k) time = Ok (outcome, circuit) ->
    sends st (SettleWebhook k outcome circuit r) Idle.

Inductive pushes_out : PushSending -> Event -> PushSending -> Prop :=
| pushes_idle st e : idle_call e = true -> pushes_out st e st
| pushes_claim c q lease token k : pushes_out PushIdle (ClaimPush c q lease token (Ok (Some k))) (PushHolding k)
| pushes_send k q expiration r : q = push_request k expiration -> pushes_out (PushHolding k) (SendPush q r) (PushAnswered k r)
| pushes_expire k r : pushes_out (PushHolding k) (SettlePush k (PushOutcome.Failed None (lit "delivery_expired")) None r) PushIdle
| pushes_settle k result_ time outcome circuit r :
    classify_push_transport_result result_ (pk_attempt_count k) time = Ok (outcome, circuit) ->
    pushes_out (PushAnswered k result_) (SettlePush k outcome circuit r) PushIdle.

Section Workers.
Context (web_origin : str) (env : Env).

(** One call, and what the state is after it. *)
Ltac quietly := first [done | eexists; split; [by apply sends_idle | try done] | eexists; split; [by apply pushes_idle | try done]].
Ltac does_step :=
  lazymatch goal with
  | |- follows _ _ (bind (call _ _) _) _ _ _ => apply does_call; intros ?
  | |- follows _ _ (bind (bind _ _) _) _ _ _ => apply does_assoc
  | |- follows _ _ (bind (try_pure _) _) _ _ _ => apply does_pure; [intros ? ? | intros ? ?]
  | |- follows _ _ (bind (done_with ?a) ?k) _ _ _ => change (bind (done_with a) k) with (k a); cbv beta iota zeta
  | |- follows _ _ (done_with _) _ _ _ => apply follows_done
  | |- follows _ _ (return_ _) _ _ _ => apply follows_return
  end.

(** The state a send of the claim leaves, and its result. *)
Lemma sends_request k :
  follows sends (Holding k) (send_signed_request parse_url hmac_sha256 b64_encode b64_decode env (webhook_request k))
    (fun r st => came_of st k r) (fun r st => came_of st k r) (fun _ => True).
Proof.
  unfold send_signed_request, pinned_destination, wall_clock, try_send; simpl.
  repeat does_step; destruct (endpoint_host parse_url (fw_endpoint_url (wk_request k))) as [[url host]|e] eqn:Eh.
  2: { intros h; exists [], (Holding k); simpl; rewrite app_nil_r; split_and!; [done | constructor | done |].
       unfold endpoint_host in Eh; repeat case_match; simplify_eq; done. }
  repeat does_step; cbv beta iota; repeat does_step; eexists; split; [by eapply sends_resolve |]; destruct (pinned_address a) as [address|e] eqn:Ea.
  2: { intros h; exists [], (Resolved k host a); simpl; rewrite app_nil_r; split_and!; [done | constructor | done |].
       unfold pinned_address in Ea; repeat case_match; simplify_eq; tauto. }
  repeat does_step; quietly; repeat does_step; match goal with |- context [signature ?h ?e ?d ?s ?i ?t ?b] => destruct (signature h e d s i t b) as [signed|e0] eqn:Es end.
  2: { intros h; exists [], (Resolved k host a); simpl; rewrite app_nil_r; split_and!; [done | constructor | done | by left]. }
  repeat does_step; eexists; split; [eapply sends_post; split_and!; [exact Ea | done | done | by eexists _, signed] |].
  destruct a1; by apply follows_done.
Qed.

Definition anywhere {R State : Type} (_ : R) (_ : State) : Prop := True.

Lemma sends_claimed {R} k :
  follows sends (Holding k) (deliver_claimed_webhook (R := R) parse_url hmac_sha256 b64_encode b64_decode env k) (fun _ st => st = Idle) anywhere (fun _ => True).
Proof.
  unfold deliver_claimed_webhook; eapply does_invoke; [apply sends_request | intros r st Hr; simpl in Hr].
  unfold epoch_millis, wall_clock; repeat does_step; quietly; repeat does_step; [done |]; destruct a0 as [outcome circuit].
  apply follows_try, follows_call; intros x; exists Idle; split; [by eapply sends_settle | by destruct x].
Qed.

(** A claim, tried at most twice. *)
Lemma does_claim_twice {State R C} (step : State -> Event -> State -> Prop) s (claim : prog Event (res R) (res (option C))) (hold : C -> State) :
  follows step s claim (fun r st => match r with Ok (Some k) => st = hold k | _ => st = s end) anywhere (fun _ => True) ->
  (forall e, idle_call e = true -> step s e s) ->
  follows step s (claim_twice claim) (fun o st => match o with Some k => st = hold k | None => st = s end) anywhere (fun _ => True).
Proof.
  intros Hc Hi; unfold claim_twice; assert (Ht : follows step s (try_ claim) (fun o st => match o with Some k => st = hold k | None => st = s end) anywhere (fun _ => True)).
  { apply follows_try; eapply follows_weaken; [exact Hc |]; intros [[k|]|e] st; done. }
  eapply follows_bind; [exact Ht |]; intros [k|] st; intros ->; [by apply follows_done |].
  apply does_call; intros u; exists s; split; [by apply Hi | exact Ht].
Qed.

Lemma sends_webhooks {R} calls account :
  follows sends Idle (deliver_webhooks (R := R) parse_url hmac_sha256 b64_encode b64_decode value_to_string web_origin env calls account)
    (fun _ st => st = Idle) anywhere (fun _ => True).
Proof.
  induction calls as [|calls IH]; simpl; [by apply follows_done |].
  apply does_try_call; intros c; [by quietly |]; eexists; split; [by apply sends_idle |]; destruct c as [c|]; [| by apply follows_done].
  does_step; [done |]; eapply follows_bind; [eapply does_claim_twice with (hold := Holding) |].
  - unfold claim_webhook_call; apply does_call; intros [token r]; destruct r as [[k|]|e]; eexists; (split; [first [apply sends_claim | by apply sends_idle] | by apply follows_done]).
  - intros e; apply sends_idle.
  - intros [k|] st; intros ->; [| by apply follows_done]; eapply follows_bind; [apply sends_claimed | by intros u st ->].
Qed.

Lemma webhook_run account :
  follows sends Idle (deliver_user_webhooks parse_url hmac_sha256 b64_encode b64_decode value_to_string web_origin env account)
    (fun _ st => st = Idle) anywhere (fun _ => True).
Proof. unfold deliver_user_webhooks; eapply follows_bind; [apply sends_webhooks | intros u st ->; by apply follows_done]. Qed.

Lemma pushes_claimed {R} k :
  follows pushes_out (PushHolding k) (deliver_claimed_push (R := R) env k) (fun _ st => st = PushIdle) anywhere (fun _ => True).
Proof.
  unfold deliver_claimed_push, epoch_millis, wall_clock; repeat does_step; [done |]; quietly; repeat does_step; case_match.
  - unfold settle_push_call; apply follows_try, follows_call; intros x; exists PushIdle; split; [apply pushes_expire | by destruct x].
  - repeat does_step; [done |]; eexists; split; [by eapply pushes_send |]; repeat does_step; quietly; repeat does_step; [done |].
    destruct a4 as [outcome circuit]; unfold settle_push_call; apply follows_try, follows_call; intros x; exists PushIdle; split; [by eapply pushes_settle | by destruct x].
Qed.

Lemma pushes_all {R} calls account :
  follows pushes_out PushIdle (deliver_pushes (R := R) env calls account) (fun _ st => st = PushIdle) anywhere (fun _ => True).
Proof.
  induction calls as [|calls IH]; simpl; [by apply follows_done |].
  apply does_try_call; intros c; [by quietly |]; eexists; split; [by apply pushes_idle |]; destruct c as [c|]; [| by apply follows_done].
  eapply follows_bind; [eapply does_claim_twice with (hold := PushHolding) |].
  - unfold claim_push_call; apply does_call; intros [token r]; destruct r as [[k|]|e]; eexists; (split; [first [apply pushes_claim | by apply pushes_idle] | by apply follows_done]).
  - intros e; apply pushes_idle.
  - intros [k|] st; intros ->; [| by apply follows_done]; eapply follows_bind; [apply pushes_claimed | by intros u st ->].
Qed.

Lemma push_run account :
  follows pushes_out PushIdle (deliver_user_pushes env account) (fun _ st => st = PushIdle) anywhere (fun _ => True).
Proof. unfold deliver_user_pushes; eapply follows_bind; [apply pushes_all | intros u st ->; by apply follows_done]. Qed.
End Workers.

(** ** Where a run's requests go *)

(** What a state owes to the calls so far. *)
Definition explained (l : list Event) (st : Sending) : Prop :=
  match st with
  | Idle => True
  | Holding k | Answered k _ => exists c q lease token, ClaimWebhook c q lease token (Ok (Some k)) ∈ l
  | Resolved k host answer => (exists c q lease token, ClaimWebhook c q lease token (Ok (Some k)) ∈ l) /\ Resolve host 443 answer ∈ l
      /\ exists url, endpoint_host parse_url (fw_endpoint_url (wk_request k)) = Ok (url, host)
  end.

Lemma explained_more l e st : explained l st -> explained (l ++ [e]) st.
Proof.
  destruct st as [|k|k host answer|k r]; simpl; [done | ..].
  - intros (c & q & lease & token & ?); exists c, q, lease, token; set_solver.
  - intros ((c & q & lease & token & ?) & ? & ?); split_and!; [exists c, q, lease, token; set_solver | set_solver | done].
  - intros (c & q & lease & token & ?); exists c, q, lease, token; set_solver.
Qed.

Lemma sends_explained l st : steps sends Idle l st -> explained l st.
Proof.
  apply (steps_invariant sends explained); [done |]; intros h st1 e st2 He Hs; destruct Hs as [st1 e Hi|c q lease token k|k url host answer Eh|k host answer p r Hp|].
  - by apply explained_more.
  - exists c, q, lease, token; set_solver.
  - apply explained_more with (e := Resolve host 443 answer) in He; simpl in *; split_and!; [exact He | set_solver | by exists url].
  - destruct He as ((c & q & lease & token & ?) & _); exists c, q, lease, token; set_solver.
  - done.
Qed.

Lemma sends_post_explained l1 p r l2 st :
  steps sends Idle (l1 ++ Post p r :: l2) st ->
  exists k host answer url, (exists c q lease token, ClaimWebhook c q lease token (Ok (Some k)) ∈ l1)
    /\ endpoint_host parse_url (fw_endpoint_url (wk_request k)) = Ok (url, host) /\ Resolve host 443 answer ∈ l1 /\ request_of k answer p.
Proof.
  intros (st1 & st2 & H1 & Hs & _)%steps_split.
  inversion Hs as [? ? Hi| | |k host answer ? ? Hp|]; subst; [done |].
  destruct (sends_explained _ _ H1) as (Hc & Hr & url & Hu); by exists k, host, answer, url.
Qed.

(** ** How many requests a run sends *)

Definition header (name : string) (p : SignedPost) : option str := snd <$> List.find (fun kv => String.eqb kv.1 name) (sp_headers p).

Definition posts_of (id : str) (e : Event) : bool :=
  match e with Post p _ => bool_decide (header "webhook-id" p = Some id) | _ => false end.
Definition told_to_retry (id : str) (e : Event) : bool :=
  match e with Post p (Some a) => bool_decide (header "webhook-id" p = Some id) && retryable_status (ha_status a) | _ => false end.
Definition grant_of (id : str) (e : Event) : bool :=
  match e with ClaimWebhook _ _ _ _ (Ok (Some k)) => str_eqb (wk_event k) id | _ => false end.
Definition refusal_of (id : str) (e : Event) : bool :=
  match e with SettleWebhook k (WebhookOutcome.Retry _ _ _) _ _ => str_eqb (wk_event k) id | _ => false end.

Definition slack (id : str) (st : Sending) : nat :=
  match st with
  | Idle => 0
  | Holding k | Resolved k _ _ => Nat.b2n (str_eqb (wk_event k) id)
  | Answered k r => Nat.b2n (str_eqb (wk_event k) id && match r with Some a => retryable_status (ha_status a) | None => false end)
  end%nat.

Lemma retry_only_if_retryable result_ n time status code at_ circuit :
  classify_webhook_transport_result result_ n time = Ok (WebhookOutcome.Retry status code at_, circuit) ->
  result_ = Err Preflight \/ exists a, result_ = Ok a /\ retryable_status (tr_status a) = true.
Proof.
  unfold classify_webhook_transport_result; destruct result_ as [a|[]]; try done; intros H; [right; exists a | by left].
  split; [done |]; destruct (retryable_status (tr_status a)); [done |]; by repeat case_match.
Qed.

Lemma request_named k answer p id : request_of k answer p -> bool_decide (header "webhook-id" p = Some id) = str_eqb (wk_event k) id.
Proof.
  intros (_ & _ & _ & timestamp & signed & _ & Hh); unfold header; rewrite Hh; simpl.
  destruct (str_eqb (wk_event k) id) eqn:E; [apply str_eqb_eq in E as ->; by apply bool_decide_eq_true | apply bool_decide_eq_false; intros [= E2]].
  by rewrite E2, str_eqb_refl in E.
Qed.

Lemma idle_uncounted id e : idle_call e = true -> posts_of id e = false /\ told_to_retry id e = false /\ grant_of id e = false /\ refusal_of id e = false.
Proof. by destruct e as [| ? ? ? ? [[]|]| | |? ? ? ? [[]|]| | | | | | | | | | | | | | | | |]. Qed.

(** Each request answers to a claim, and each refusal to an answer that said
    to retry, or to a claim whose request never left. *)
Lemma run_counts id l st :
  steps sends Idle l st -> (tally (posts_of id) l + tally (refusal_of id) l + slack id st <= tally (grant_of id) l + tally (told_to_retry id) l)%nat.
Proof.
  apply (steps_invariant sends (fun l st => tally (posts_of id) l + tally (refusal_of id) l + slack id st <= tally (grant_of id) l + tally (told_to_retry id) l)%nat);
    [unfold tally; simpl; lia |].
  intros h st1 e st2 IH Hs; rewrite !tally_app, !tally_cons; unfold tally at 2 4 6 8; simpl.
  destruct Hs as [st1 e Hi|c q lease token k|k url host answer Eh|k host answer p r Hp|st1 k result_ time outcome circuit r Hc Hr]; simpl in *.
  - destruct (idle_uncounted id e Hi) as (-> & -> & -> & ->); simpl; lia.
  - destruct (str_eqb (wk_event k) id); simpl; lia.
  - lia.
  - rewrite (request_named _ _ _ id Hp) in *; destruct r as [a|]; [destruct (retryable_status (ha_status a)) |]; destruct (str_eqb (wk_event k) id); simpl in *; lia.
  - destruct outcome as [| | |]; simpl; try lia.
    apply retry_only_if_retryable in Hr; destruct st1 as [|k'|k' host answer|k' a']; simpl in *; [done | | |]; destruct Hc as [-> Hres];
      [destruct (str_eqb _ _); simpl in *; lia.. |].
    destruct a' as [a'|]; [| subst; by destruct Hr as [?|(? & ? & ?)]]; destruct Hr as [?|(a & Ha & Hret)]; [congruence |].
    rewrite Hres in Ha; injection Ha as <-; simpl in Hret; rewrite Hret in IH; destruct (str_eqb _ _); simpl in *; lia.
Qed.

(** *** Claims cover requests *)

Lemma run_claims id l st :
  steps sends Idle l st ->
  (tally (posts_of id) l + match st with Holding k | Resolved k _ _ => Nat.b2n (str_eqb (wk_event k) id) | _ => 0 end <= tally (grant_of id) l)%nat.
Proof.
  apply (steps_invariant sends (fun l st => tally (posts_of id) l
    + match st with Holding k | Resolved k _ _ => Nat.b2n (str_eqb (wk_event k) id) | _ => 0 end <= tally (grant_of id) l)%nat); [unfold tally; simpl; lia |].
  intros h st1 e st2 IH Hs; rewrite !tally_app, !tally_cons; unfold tally at 2 4; simpl.
  destruct Hs as [st1 e Hi|c q lease token k|k url host answer Eh|k host answer p r Hp|st1 k result_ time outcome circuit r Hc Hr]; simpl in *; try lia.
  - destruct (idle_uncounted id e Hi) as (-> & _ & -> & _); simpl; lia.
  - rewrite (request_named _ _ _ id Hp); lia.
Qed.
End Runs.

(** *** And of pushes *)

Definition pushed_of (id : str) (e : Event) : bool := match e with SendPush q _ => str_eqb (apns_id q) id | _ => false end.

(** The provider did not take it, for no fault of its token: it answered
    another status than success, or there was nothing to ask it with.  All of
    these are tried again, an answer that asks for no retry included. *)
Definition not_taken (r : result PushTransportError Z) : bool :=
  match r with Err (Retryable (Some _) _ _ _) | Err (ProviderTerminal _ _) => true | _ => false end.

Lemma not_taken_answer answer :
  not_taken (apns_outcome answer) = true
  <-> exists a, answer = Some a /\ ar_status a <> 200
      /\ one_of (default [] (ar_reason a)) ["BadDeviceToken"; "DeviceTokenNotForTopic"; "Unregistered"]%string = false.
Proof.
  destruct answer as [a|]; [| split; [discriminate | by intros (? & ? & _)]]; unfold apns_outcome; split.
  - destruct (ar_status a =? 200) eqn:E; [discriminate |]; apply Z.eqb_neq in E; destruct (one_of _ _) eqn:O; [discriminate |].
    intros _; exists a; by split_and!.
  - intros (? & [= <-] & ->%Z.eqb_neq & ->); by destruct (_ || _).
Qed.

Definition push_not_taken (id : str) (e : Event) : bool := match e with SendPush q r => str_eqb (apns_id q) id && not_taken r | _ => false end.
Definition push_grant_of (id : str) (e : Event) : bool := match e with ClaimPush _ _ _ _ (Ok (Some k)) => str_eqb (pk_delivery k) id | _ => false end.
Definition push_refusal_of (id : str) (e : Event) : bool :=
  match e with SettlePush k (PushOutcome.Retry _ _ _) _ _ => str_eqb (pk_delivery k) id | _ => false end.

Definition push_slack (id : str) (st : PushSending) : nat :=
  match st with
  | PushIdle => 0
  | PushHolding k => Nat.b2n (str_eqb (pk_delivery k) id)
  | PushAnswered k r => Nat.b2n (str_eqb (pk_delivery k) id && not_taken r)
  end%nat.

Lemma push_retry_only_if_not_taken result_ n time status code at_ circuit :
  classify_push_transport_result result_ n time = Ok (PushOutcome.Retry status code at_, circuit) -> not_taken result_ = true.
Proof. unfold classify_push_transport_result; destruct result_ as [a|[[?|] ? ? ?|? ?|? ?]]; done. Qed.

Lemma push_idle_uncounted id e : idle_call e = true -> pushed_of id e = false /\ push_not_taken id e = false /\ push_grant_of id e = false /\ push_refusal_of id e = false.
Proof. by destruct e as [| ? ? ? ? [[]|]| | |? ? ? ? [[]|]| | | | | | | | | | | | | | | | |]. Qed.

Lemma push_run_counts id l st :
  steps pushes_out PushIdle l st ->
  (tally (pushed_of id) l + tally (push_refusal_of id) l + push_slack id st <= tally (push_grant_of id) l + tally (push_not_taken id) l)%nat.
Proof.
  apply (steps_invariant pushes_out (fun l st => tally (pushed_of id) l + tally (push_refusal_of id) l + push_slack id st
    <= tally (push_grant_of id) l + tally (push_not_taken id) l)%nat); [unfold tally; simpl; lia |].
  intros h st1 e st2 IH Hs; rewrite !tally_app, !tally_cons; unfold tally at 2 4 6 8; simpl.
  destruct Hs as [st1 e Hi|c q lease token k|k q expiration r ->|k r|k result_ time outcome circuit r Hr]; simpl in *.
  - destruct (push_idle_uncounted id e Hi) as (-> & -> & -> & ->); simpl; lia.
  - destruct (str_eqb (pk_delivery k) id); simpl; lia.
  - destruct (str_eqb (pk_delivery k) id), (not_taken r); simpl in *; lia.
  - destruct (str_eqb (pk_delivery k) id); simpl in *; lia.
  - destruct outcome as [| | | |]; simpl; try lia.
    apply push_retry_only_if_not_taken in Hr; rewrite Hr in IH; destruct (str_eqb _ _); simpl in *; lia.
Qed.

Lemma push_run_claims id l st :
  steps pushes_out PushIdle l st ->
  (tally (pushed_of id) l + match st with PushHolding k => Nat.b2n (str_eqb (pk_delivery k) id) | _ => 0 end <= tally (push_grant_of id) l)%nat.
Proof.
  apply (steps_invariant pushes_out (fun l st => tally (pushed_of id) l
    + match st with PushHolding k => Nat.b2n (str_eqb (pk_delivery k) id) | _ => 0 end <= tally (push_grant_of id) l)%nat); [unfold tally; simpl; lia |].
  intros h st1 e st2 IH Hs; rewrite !tally_app, !tally_cons; unfold tally at 2 4; simpl.
  destruct Hs as [st1 e Hi|c q lease token k|k q expiration r ->|k r|k result_ time outcome circuit r Hr]; simpl in *; try lia.
  destruct (push_idle_uncounted id e Hi) as (-> & _ & -> & _); simpl; lia.
Qed.
