(* ===== verification/DeliveryWorld.v ===== *)
(** * The delivery workers over the database

    The runs of the workers and of the destinations' handlers, interleaved
    with whatever else writes the tables: what the calls do to the outboxes,
    and how the requests that leave are covered by what was enqueued. *)
From stdpp Require Import gmap.
From Stdlib Require Import ZArith Lia.
From S2P Require Import Prelude OrdMap Text Errors Bytes Json IsoTime Net Effects Interleave Tickets Txn AccountDb Identity Lifecycle OAuthStore AccountLedger AccountFrame.
From S2P Require Import OutboxDb Outbox Http Webhook Push DeliveryWorkers Dispatch OutboxLedger OutboxTrace OutboxCount DeliveryRuns.
Local Open Scope Z_scope.
Local Open Scope kioku_scope.

(** The database's event of a call. *)
Definition stored (e : Event) : option OutboxEvent :=
  match e with
  | NextWebhook account r => Some (ENextWebhook account r)
  | ClaimWebhook c request lease token r => Some (EClaimWebhook token c request lease r)
  | SettleWebhook k outcome circuit r => Some (ESettleWebhook k outcome circuit r)
  | NextPush account r => Some (ENextPush account r)
  | ClaimPush c request lease token r => Some (EClaimPush token c request lease r)
  | SettlePush k outcome circuit r => Some (ESettlePush k outcome circuit r)
  | CreateSubscription w r => Some (ECreate w r)
  | DisableSubscription account id r => Some (EDisable account id r)
  | CancelDeliveries account id r => Some (ECancel account id r)
  | DeleteSubscription account id r => Some (EDelete account id r)
  | UpsertInstallation i r => Some (EUpsert i r)
  | DeleteInstallation account id r => Some (EDeleteInstallation account id r)
  | _ => None
  end.

(** A call of a run, or an event of another component. *)
Definition WorldEvent : Type := Event + OutboxEvent.

Definition db_event (e : WorldEvent) : option OutboxEvent := match e with inl e => stored e | inr x => Some x end.

(** Only the workers claim and settle. *)
Definition foreign (x : OutboxEvent) : bool :=
  match x with EClaimWebhook _ _ _ _ _ | ESettleWebhook _ _ _ _ | EClaimPush _ _ _ _ _ | ESettlePush _ _ _ _ => false | _ => true end.

Definition calls (w : list (Z * WorldEvent)) : list Event := omap (fun e => match e.2 with inl e => Some e | inr _ => None end) w.

Section World.
Context (present : str -> FinalizedEpisode -> res FinalizedEpisode) (sha256 : bytes -> bytes) `{U : Unicode}.
Implicit Types s : Db Outbox.

Definition world_moves s (e : Z * WorldEvent) s' : Prop :=
  match db_event e.2 with Some x => acts present sha256 e.1 x s s' | None => s' = s end.

(** The database's trace. *)
Definition database (w : list (Z * WorldEvent)) : list (Z * OutboxEvent) := omap (fun e => (fun x => (e.1, x)) <$> db_event e.2) w.

Lemma world_database s w s' : steps world_moves s w s' -> steps (outbox_moves present sha256) s (database w) s'.
Proof.
  induction 1 as [|s [n e] s1 w s2 He _ IH]; [constructor |]; unfold world_moves in He; unfold database; simpl in *.
  destruct (db_event e) as [x|]; simpl; [econstructor; [exact He | exact IH] | by subst].
Qed.

Lemma database_cons n e w : database ((n, e) :: w) = match db_event e with Some x => (n, x) :: database w | None => database w end.
Proof. unfold database; simpl; by destruct (db_event e). Qed.

(** What the calls of the runs come to in the database's trace. *)
Lemma granted_events id s w s' :
  steps world_moves s w s' -> (forall x, inr x ∈ w.*2 -> foreign x = true) ->
  (tally (grant_of id) (calls w) <= sum_of (fun e => webhook_grants id e.2) (database w))%nat
  /\ (sum_of (fun e => webhook_refuses id e.2) (database w) <= tally (refusal_of id) (calls w))%nat.
Proof.
  induction 1 as [|s [n e] s1 w s2 He _ IH]; intros Hf; [split; apply le_0_n |].
  destruct IH as [IH1 IH2]; [intros x Hx; apply Hf; by right |]; rewrite database_cons; destruct e as [e|x].
  - change (calls ((n, inl e) :: w)) with (e :: calls w); rewrite !tally_cons; unfold world_moves in He; cbn [db_event snd] in *.
    destruct e; cbn [stored] in *; rewrite ?sum_of_cons; cbn [grant_of refusal_of webhook_grants webhook_refuses snd Nat.b2n]; try lia.
    + destruct r as [[k|]|]; cbn [Nat.b2n]; [| lia..]; apply answered_Ok, claim_webhook_Ok in He as [_ [[? _]|[Hk _]]]; [done |].
      injection Hk as ->; simpl; unfold named; destruct (str_eqb _ _); simpl; lia.
    + destruct outcome; cbn [Nat.b2n]; try lia; unfold named; destruct (str_eqb _ _); simpl; lia.
  - assert (Hx := Hf x ltac:(left)); change (calls ((n, inr x) :: w)) with (calls w); cbn [db_event]; rewrite !sum_of_cons; destruct x; try done; simpl; lia.
Qed.

Lemma push_granted_events id s w s' :
  steps world_moves s w s' -> (forall x, inr x ∈ w.*2 -> foreign x = true) ->
  (tally (push_grant_of id) (calls w) <= sum_of (fun e => push_grants id e.2) (database w))%nat
  /\ (sum_of (fun e => push_refuses id e.2) (database w) <= tally (push_refusal_of id) (calls w))%nat.
Proof.
  induction 1 as [|s [n e] s1 w s2 He _ IH]; intros Hf; [split; apply le_0_n |].
  destruct IH as [IH1 IH2]; [intros x Hx; apply Hf; by right |]; rewrite database_cons; destruct e as [e|x].
  - change (calls ((n, inl e) :: w)) with (e :: calls w); rewrite !tally_cons; unfold world_moves in He; cbn [db_event snd] in *.
    destruct e; cbn [stored] in *; rewrite ?sum_of_cons; cbn [push_grant_of push_refusal_of push_grants push_refuses snd Nat.b2n]; try lia.
    + destruct r as [[k|]|]; cbn [Nat.b2n]; [| lia..]; apply answered_Ok, claim_push_Ok in He as [_ [[? _]|[Hk _]]]; [done |].
      injection Hk as ->; simpl; unfold named; destruct (str_eqb _ _); simpl; lia.
    + destruct outcome; cbn [Nat.b2n]; try lia; unfold named; destruct (str_eqb _ _); simpl; lia.
  - assert (Hx := Hf x ltac:(left)); change (calls ((n, inr x) :: w)) with (calls w); cbn [db_event]; rewrite !sum_of_cons; destruct x; try done; simpl; lia.
Qed.

(** ** The requests that leave *)

(** What was enqueued under a name. *)
Definition webhooks_added (id : str) (w : list (Z * WorldEvent)) : nat := sum_of (fun e => webhook_adds id e.2) (database w).
Definition pushes_added (id : str) (w : list (Z * WorldEvent)) : nat := sum_of (fun e => push_adds id e.2) (database w).

(** Each run sends no more than its claims, and no more than what it was told
    to retry and what it did not report as refused. *)
Definition within_claims (sent refused granted told : Event -> bool) (l : list Event) : Prop :=
  (tally sent l + tally refused l <= tally granted l + tally told l)%nat /\ (tally sent l <= tally granted l)%nat.

Lemma interleaved_within (sent refused granted told : Event -> bool) runs h :
  interleaves runs h -> (forall l, l ∈ runs -> within_claims sent refused granted told l) -> within_claims sent refused granted told h.
Proof.
  intros Hi H; unfold within_claims; rewrite !(interleaves_tally _ _ _ Hi), <- !sum_of_plus.
  split; apply sum_of_le; intros l Hl; apply (H l Hl).
Qed.

Lemma webhooks_covered id s w s' runs :
  new_outbox (outbox s) -> steps world_moves s w s' -> (forall x, inr x ∈ w.*2 -> foreign x = true) -> interleaves runs (calls w) ->
  (forall l, l ∈ runs -> within_claims (posts_of id) (refusal_of id) (grant_of id) (told_to_retry id) l) ->
  (tally (posts_of id) (calls w) <= webhooks_added id w + tally (told_to_retry id) (calls w))%nat
  /\ (tally (posts_of id) (calls w) <= 10 * webhooks_added id w)%nat.
Proof.
  intros Hn Hw Hf Hi Hr; destruct (interleaved_within _ _ _ _ _ _ Hi Hr) as [H1 H2]; destruct (granted_events id _ _ _ Hw Hf) as [G1 G2].
  destruct (webhook_grants_bounded present sha256 id _ _ _ Hn (world_database _ _ _ Hw)) as [B1 B2]; unfold webhooks_added; lia.
Qed.

Lemma pushes_covered id s w s' runs :
  new_outbox (outbox s) -> steps world_moves s w s' -> (forall x, inr x ∈ w.*2 -> foreign x = true) -> interleaves runs (calls w) ->
  (forall l, l ∈ runs -> within_claims (pushed_of id) (push_refusal_of id) (push_grant_of id) (push_not_taken id) l) ->
  (tally (pushed_of id) (calls w) <= pushes_added id w + tally (push_not_taken id) (calls w))%nat
  /\ (tally (pushed_of id) (calls w) <= 10 * pushes_added id w)%nat.
Proof.
  intros Hn Hw Hf Hi Hr; destruct (interleaved_within _ _ _ _ _ _ Hi Hr) as [H1 H2]; destruct (push_granted_events id _ _ _ Hw Hf) as [G1 G2].
  destruct (push_grants_bounded present sha256 id _ _ _ Hn (world_database _ _ _ Hw)) as [B1 B2]; unfold pushes_added; lia.
Qed.
End World.
