(* ===== verification/DeliveryTheorems.v ===== *)
(** * What the outboxes and their workers guarantee

    The outboxes refine [Dispatch]; over the database and the interleaved
    runs of the workers, a request leaves at most once for each delivery and
    each answer that asks for a retry, under its own claim, to a public
    address.  And what deleting an episode does to a send in flight. *)
From stdpp Require Import gmap.
From Stdlib Require Import ZArith Lia.
From S2P Require Import Prelude OrdMap Text Errors Bytes Json IsoTime Net Effects Interleave Tickets Txn AccountDb Identity Lifecycle OAuthStore AccountLedger AccountFrame.
From S2P Require Import OutboxDb Outbox Http Webhook Push DeliveryWorkers Dispatch OutboxLedger OutboxTrace OutboxCount DeliveryRuns DeliveryWorld.
Local Open Scope Z_scope.
Local Open Scope kioku_scope.

(** ** Addresses *)

(** An address block: its first address and the length of its prefix. *)
Definition ipv4 (a b c d : Z) : Z := a * 2 ^ 24 + b * 2 ^ 16 + c * 2 ^ 8 + d.
Definition in_block (v : Z) (block : Z * Z) : bool := Z.shiftr v (32 - block.2) =? Z.shiftr block.1 (32 - block.2).

(** IANA's special-purpose blocks, multicast and what is reserved. *)
Definition special_blocks : list (Z * Z) :=
  [(ipv4 0 0 0 0, 8); (ipv4 10 0 0 0, 8); (ipv4 127 0 0 0, 8); (ipv4 100 64 0 0, 10); (ipv4 169 254 0 0, 16); (ipv4 172 16 0 0, 12);
   (ipv4 192 0 0 0, 24); (ipv4 192 0 2 0, 24); (ipv4 192 168 0 0, 16); (ipv4 198 18 0 0, 15); (ipv4 198 51 100 0, 24);
   (ipv4 203 0 113 0, 24); (ipv4 224 0 0 0, 4); (ipv4 240 0 0 0, 4)].

Definition byte_range (z : Z) : Prop := 0 <= z < 256.

Lemma block_of v base n m q :
  0 <= 32 - n -> 2 ^ (32 - n) = m -> Z.shiftr base (32 - n) = q -> in_block v (base, n) = (v / m =? q).
Proof. intros Hn <- <-; unfold in_block; simpl; by rewrite !Z.shiftr_div_pow2. Qed.

Lemma special_blocks_spelled v :
  existsb (in_block v) special_blocks =
  (v / 2 ^ 24 =? 0) || ((v / 2 ^ 24 =? 10) || ((v / 2 ^ 24 =? 127) || ((v / 2 ^ 22 =? 401) || ((v / 2 ^ 16 =? 43518) || ((v / 2 ^ 20 =? 2753)
  || ((v / 2 ^ 8 =? 12582912) || ((v / 2 ^ 8 =? 12582914) || ((v / 2 ^ 16 =? 49320) || ((v / 2 ^ 17 =? 25353) || ((v / 2 ^ 8 =? 12989284)
  || ((v / 2 ^ 8 =? 13303921) || ((v / 2 ^ 28 =? 14) || ((v / 2 ^ 28 =? 15) || false))))))))))))).
Proof. unfold special_blocks; cbn [existsb]; repeat (f_equal; [by apply block_of; vm_compute |]); f_equal; by apply block_of. Qed.

Lemma ipv4_prefixes a b c d :
  byte_range a -> byte_range b -> byte_range c -> byte_range d -> let v := ipv4 a b c d in
  v / 2 ^ 8 = a * 65536 + b * 256 + c /\ v / 2 ^ 16 = a * 256 + b /\ v / 2 ^ 17 = a * 128 + b / 2 /\ v / 2 ^ 20 = a * 16 + b / 16
  /\ v / 2 ^ 22 = a * 4 + b / 64 /\ v / 2 ^ 24 = a /\ v / 2 ^ 28 = a / 16.
Proof.
  unfold byte_range; intros Ha Hb Hc Hd; set (v := ipv4 a b c d); cbv zeta.
  assert (H8 : v / 2 ^ 8 = a * 65536 + b * 256 + c) by (unfold v, ipv4; change (2 ^ 24) with 16777216; change (2 ^ 16) with 65536; change (2 ^ 8) with 256; lia).
  assert (Hdd : forall m n q, 0 < m -> 0 < n -> v / m = q -> v / (m * n) = q / n) by (intros m n q Hm Hn <-; symmetry; by apply Z.div_div; lia).
  assert (H16 : v / 2 ^ 16 = a * 256 + b) by (change (2 ^ 16) with (2 ^ 8 * 256); rewrite (Hdd (2 ^ 8) 256 _ eq_refl eq_refl H8); lia).
  assert (H24 : v / 2 ^ 24 = a) by (change (2 ^ 24) with (2 ^ 16 * 256); rewrite (Hdd (2 ^ 16) 256 _ eq_refl eq_refl H16); lia).
  split_and!; [done | done | | | | done |].
  - change (2 ^ 17) with (2 ^ 16 * 2); rewrite (Hdd (2 ^ 16) 2 _ eq_refl eq_refl H16); lia.
  - change (2 ^ 20) with (2 ^ 16 * 16); rewrite (Hdd (2 ^ 16) 16 _ eq_refl eq_refl H16); lia.
  - change (2 ^ 22) with (2 ^ 16 * 64); rewrite (Hdd (2 ^ 16) 64 _ eq_refl eq_refl H16); lia.
  - change (2 ^ 28) with (2 ^ 24 * 16); by rewrite (Hdd (2 ^ 24) 16 _ eq_refl eq_refl H24).
Qed.

(** An IPv4 address is public exactly when it lies in none of the special
    blocks. *)
Theorem public_ipv4_outside_blocks a b c d :
  byte_range a -> byte_range b -> byte_range c -> byte_range d ->
  is_public_ipv4 [a; b; c; d] = negb (existsb (in_block (ipv4 a b c d)) special_blocks).
Proof.
  intros Ha Hb Hc Hd; rewrite special_blocks_spelled; destruct (ipv4_prefixes a b c d Ha Hb Hc Hd) as (-> & -> & -> & -> & -> & -> & ->).
  unfold byte_range in *; unfold is_public_ipv4, octet; cbn [default lookup list_lookup from_option id]; f_equal.
  rewrite <- !orb_assoc; do 12 (apply (f_equal2 orb); [apply eq_true_iff_eq; lia |]); apply eq_true_iff_eq; lia.
Qed.

(** ** What a claim and a settlement promise *)

(** C23: a claim that is granted freezes the request of a subscription enabled
    now, with its very endpoint, secret and choice of content, of an account
    that is active; the names in the episode are those the event was written
    with; the delivery was due and had attempts left; no other delivery is in
    flight, and none will be claimed while this one is: the lane is the
    claim's. *)
Theorem granted_webhook_is_authorized now token c request lease s k s' :
  in_order webhook_channel s -> claim_webhook now token c request lease s = Ok (Some k, s') ->
  is_active (wc_account c) s = true
  /\ (exists w, subscriptions (outbox s) !! (wc_account c, wc_subscription c) = Some w /\ s_enabled w = true /\ s_endpoint_url w = fw_endpoint_url request
        /\ s_signing_secret w = fw_signing_secret request /\ s_include_content w = fw_include_content request)
  /\ (m_identity_revision <$> memories (outbox s) !! (wc_account c, wc_episode_id c)) = Some (wc_identity_revision c)
  /\ (0 <= wc_attempt_count c < 10 /\ wk_attempt_count k = wc_attempt_count c + 1 /\ wk_request k = request)
  /\ (exists r, webhooks (outbox s') !! (wc_account c, wc_event c) = Some r /\ d_state r = StProcessing /\ d_frozen r = Some request
        /\ d_claim r = Some (token, lease_end_ms now lease * 1000))
  /\ (forall key r, webhooks (outbox s') !! key = Some r -> d_state r = StProcessing -> key = (wc_account c, wc_event c))
  /\ owner (webhook_lane (outbox s')) = Some (token, lease_end_ms now lease * 1000)
  /\ (wf_claim <$> webhook_fences (outbox s') !! (wc_account c, wc_event c)) = Some token.
Proof.
  intros Hok Hx; destruct (claim_webhook_dispatches _ _ _ _ _ _ _ _ Hx Hok) as (_ & _ & _ & Hok').
  apply claim_webhook_Ok in Hx as [Href [[? _]|[Hk Hx]]]; [done |]; injection Hk as ->; destruct Hx as [(_ & _ & r & Hr & Ha) ->].
  apply webhook_claim_attempts in Href as [_ Hn]; apply candidate_webhook_Some in Hr as (Hrow & _ & Hd & _).
  apply webhook_authorized_true in Ha as (Hact & Hatt & Hrev & w & Hw & Hen).
  set (s1 := set_outbox (recover_expired_webhook_claims now (wc_account c)) s) in *.
  destruct (recover_webhooks_frame now (wc_account c) (outbox s)) as (Hm & Hsub & _).
  change (memories (outbox s1)) with (memories (recover_expired_webhook_claims now (wc_account c) (outbox s))) in Hrev.
  change (subscriptions (outbox s1)) with (subscriptions (recover_expired_webhook_claims now (wc_account c) (outbox s))) in Hw.
  rewrite Hm in Hrev; rewrite Hsub, Hd in Hw; set (s2 := set_outbox _ s1) in *.
  assert (Hnew : webhooks (outbox s2) !! (wc_account c, wc_event c)
    = Some (claimed now (wc_attempt_count c + 1) token (lease_end_ms now lease * 1000) request r)).
  { change (webhooks (outbox s2)) with (alter (claimed now (wc_attempt_count c + 1) token (lease_end_ms now lease * 1000) request) (wc_account c, wc_event c)
      (webhooks (outbox s1))); rewrite lookup_alter_eq; exact (f_equal (fmap _) Hrow). }
  split_and!; try done; [exists w; tauto | apply Hn | apply Hn | by eexists | |].
  - intros k' r' Hr' Hp; destruct (proj1 (claims_in_flight _ _ _ Hok' k' r' Hr') Hp) as [cl Hcl]; eapply one_claim; [exact Hok' | exact Hr' | exact Hcl | exact Hnew | done].
  - unfold s2; simpl; by rewrite lookup_insert_eq.
Qed.

(** A settlement takes effect once: repeated, whatever it reports, it
    answers as the first time and changes nothing. *)
Theorem webhook_settlement_happens_once now k outcome circuit s s' now' outcome' circuit' :
  settle_webhook now k outcome circuit s = Ok (tt, s') -> webhook_outcome_is_valid outcome' = true -> valid_circuit circuit' = true ->
  settle_webhook now' k outcome' circuit' s' = Ok (tt, s').
Proof.
  assert (Hagain : forall s1 r, claimed_webhook k s1 = Some r -> d_completed r = Some (wk_token k) -> webhook_outcome_is_valid outcome' = true ->
    valid_circuit circuit' = true -> settle_webhook now' k outcome' circuit' s1 = Ok (tt, s1)).
  { intros s1 r Hr Hc Ho Hv; unfold settle_webhook, then_, abort_if, try_res, refuse, select; rewrite Ho, Hv; simpl.
    rewrite Hr; unfold settlement_row; simpl; by rewrite bool_decide_eq_true_2. }
  intros Hx; assert (Hx0 := Hx); unfold settle_webhook in Hx; apply then_Ok in Hx as (? & ? & [_ ->]%abort_if_Ok & Hx).
  apply then_Ok in Hx as (? & ? & [-> ->]%select_Ok & Hx); apply then_Ok in Hx as (o & ? & [Ho ->]%try_res_Ok & Hx).
  apply settlement_row_Ok in Ho as (r & Hr & [[-> Hc]|(-> & _ & until & Hc)]); [apply commits_Ok in Hx as [_ ->]; by eapply Hagain |].
  apply then_Ok in Hx as (? & ? & [-> ->]%select_Ok & Hx); apply then_Ok in Hx as (? & ? & [Hf ->]%abort_if_Ok & Hx).
  apply then_Ok in Hx as ([[[state status] code] retry_at] & ? & [Hset ->]%try_res_Ok & ->%execute_Ok).
  unfold claimed_webhook in Hr; destruct (webhooks (outbox s) !! _) as [r0|] eqn:Hr0; simpl in Hr; [| done].
  destruct (_ && _ && _) eqn:Em; [| done]; injection Hr as ->.
  intros Hv Hcirc; apply (Hagain _ (closed now (wk_token k) state code status retry_at r)); [| done | done | done].
  unfold claimed_webhook.
  match goal with |- context [webhooks (outbox ?x)] => assert (Hnew : webhooks (outbox x) !! (wk_account k, wk_event k)
    = Some (closed now (wk_token k) state code status retry_at r)) end.
  { etransitivity; [apply lookup_alter_eq | exact (f_equal (fmap _) Hr0)]. }
  rewrite Hnew; simpl; by rewrite Em.
Qed.

(** ** Answers nobody settles *)

(** An answer with a status from 600 to 999 becomes an outcome every
    settlement rejects. *)
Theorem status_out_of_range_is_never_settled status after attempts time now k s :
  600 <= status <= 999 ->
  exists outcome circuit,
    classify_webhook_transport_result (Ok {| tr_status := status; tr_retry_after_seconds := after |}) attempts time = Ok (outcome, circuit)
    /\ settle_webhook now k outcome circuit s = Err (Errors.Store (lit "webhook delivery settlement is invalid")).
Proof.
  intros Hs; exists (WebhookOutcome.Failed (Some status) (http_code status)), None; split.
  - unfold classify_webhook_transport_result, retryable_status; simpl.
    by rewrite (proj2 (Z.leb_le 200 status)), (proj2 (Z.ltb_ge status 300)), (proj2 (Z.eqb_neq status 408)), (proj2 (Z.eqb_neq status 425)),
      (proj2 (Z.eqb_neq status 429)), (proj2 (Z.ltb_ge status 600)), (proj2 (Z.leb_le 500 status)) by lia.
  - unfold settle_webhook, then_, abort_if, try_res, refuse; simpl; unfold valid_http_status.
    by rewrite (proj2 (Z.leb_gt status 599)), andb_false_r by lia.
Qed.

(** ** One claim at a time *)

(** An event that ends a claim: its settlement, or anything after its lease
    that finds it ended. *)
Definition ends_claim (token : str) (until : Z) (e : Z * OutboxEvent) : Prop :=
  (exists k outcome circuit r, e.2 = ESettleWebhook k outcome circuit r /\ wk_token k = token) \/ until <= e.1.

Lemma walks_last now d ls l d' : walks now d (ls ++ [l]) d' -> exists d1, walks now d ls d1 /\ dstep now d1 l d'.
Proof.
  unfold walks; rewrite fmap_app; intros (d1 & H1 & H2)%steps_split_app; exists d1; split; [done |].
  inversion H2 as [|? ? d2 ? ? Hs Hnil]; subst; by inversion Hnil; subst.
Qed.

Lemma lets_go_says token until n l e :
  webhook_says n e l -> lets_go (token, until) (n, l) -> ends_claim token until (n, e).
Proof.
  unfold lets_go, ends_claim; destruct l as [k a c|k t|k t|k t|k|gone|]; simpl; try done.
  - intros (x & status & code & at_ & circuit & r & -> & _ & ->) <-; left; by repeat eexists.
  - intros (x & outcome & circuit & r & -> & _ & ->) <-; left; by repeat eexists.
  - intros _ [_ ?]; by right.
Qed.

(** ** Over the tables *)

Section Tables.
Context (present : str -> FinalizedEpisode -> res FinalizedEpisode) (sha256 : bytes -> bytes) `{U : Unicode}.
Implicit Types s : Db Outbox.

#[local] Abbreviation moves := (outbox_moves present sha256).

(** ** Refinement *)

Lemma refines s0 t s :
  new_outbox (outbox s0) -> steps moves s0 t s ->
  (exists dt, labelled webhook_says t dt /\ steps dmoves (dispatch_of webhook_channel s0) dt (dispatch_of webhook_channel s) /\ in_order webhook_channel s)
  /\ (exists dt, labelled push_says t dt /\ steps dmoves (dispatch_of push_channel s0) dt (dispatch_of push_channel s) /\ in_order push_channel s).
Proof.
  intros Hn Ht; destruct (new_in_order s0 Hn) as [Hw Hp]; split.
  - eapply trace_labelled; [| exact Ht | exact Hw]; intros; by apply webhook_event with present sha256 U.
  - eapply trace_labelled; [| exact Ht | exact Hp]; intros; by apply push_event with present sha256 U.
Qed.

(** C21: every trace of the delivery tables is, event by event, a trace of the
    specification on each outbox: an event is made of labels it accounts for,
    a delivery in flight is the only one, and it holds its provider. *)
Theorem outboxes_refine_dispatch s0 t s :
  new_outbox (outbox s0) -> steps moves s0 t s ->
  (exists dt, labelled webhook_says t dt /\ steps dmoves (dispatch_of webhook_channel s0) dt (dispatch_of webhook_channel s)
     /\ coherent (dispatch_of webhook_channel s))
  /\ (exists dt, labelled push_says t dt /\ steps dmoves (dispatch_of push_channel s0) dt (dispatch_of push_channel s)
     /\ coherent (dispatch_of push_channel s)).
Proof.
  intros Hn Ht; destruct (refines s0 t s Hn Ht) as [(dw & Hw & Sw & Ow) (dp & Hp & Sp & Op)]; split; [exists dw | exists dp]; split_and!; try done.
  - exact (lane_coherent _ _ _ Ow).
  - exact (lane_coherent _ _ _ Op).
Qed.

(** C22: between two claims that are granted, of whatever accounts, the first
    was settled or its lease ended: the provider never has two requests of
    claims that stand. *)
Theorem webhook_claims_exclude_each_other s0 t0 s1 now1 token1 c1 q1 lease1 k1 s2 t s3 now2 token2 c2 q2 lease2 k2 s4 :
  new_outbox (outbox s0) -> steps moves s0 t0 s1 ->
  moves s1 (now1, EClaimWebhook token1 c1 q1 lease1 (Ok (Some k1))) s2 -> steps moves s2 t s3 ->
  moves s3 (now2, EClaimWebhook token2 c2 q2 lease2 (Ok (Some k2))) s4 ->
  exists e, e ∈ t ++ [(now2, EClaimWebhook token2 c2 q2 lease2 (Ok (Some k2)))] /\ ends_claim token1 (lease_end_ms now1 lease1 * 1000) e.
Proof.
  intros Hn H0 H1%answered_Ok Ht H2%answered_Ok; destruct (refines _ _ _ Hn H0) as [(_ & _ & _ & Hok1) _].
  destruct (claim_webhook_dispatches _ _ _ _ _ _ _ _ H1 Hok1) as (l1 & (d1 & W1 & S1)%walks_last & _ & Hok2).
  destruct (trace_labelled webhook_says present sha256 webhook_channel (fun n e a b => webhook_event present sha256 n e a b) _ _ _ Ht Hok2) as (dt & Hl & Sd & Hok3).
  destruct (claim_webhook_dispatches _ _ _ _ _ _ _ _ H2 Hok3) as (l2 & (d3 & W2 & S2)%walks_last & Hc2 & _).
  assert (Hco : coherent d1) by (eapply dsteps_coherent; [exact W1 | exact (lane_coherent _ _ _ Hok1)]).
  destruct (claims_exclude _ _ _ _ _ _ _ _ _ _ _ _ _ Hco S1 (steps_app _ _ _ _ _ _ Sd W2) S2) as ([n l] & [Hin|Hin]%elem_of_app & Hg).
  - destruct (labelled_elem _ _ _ _ _ Hl Hin) as (e & He & Hs); exists (n, e); split; [apply elem_of_app; by left | by eapply lets_go_says].
  - apply list_elem_of_fmap in Hin as (l' & [= -> ->] & Hin); eexists; split; [apply elem_of_app; right; by apply list_elem_of_singleton |].
    eapply Forall_forall in Hc2; [| exact Hin]; destruct l'; try done; destruct Hg as [_ ?]; by right.
Qed.

(** ** An episode deleted while its event is in flight *)

(** C25: deleting an episode deletes its deliveries, those in flight too, and
    leaves their claim on the lane: from then on no webhook of any account is
    claimed, whatever happens and however long it takes. *)
Theorem episode_deleted_in_flight_stops_webhooks s0 t0 s account event r claim t s2 :
  new_outbox (outbox s0) -> steps moves s0 t0 s -> webhooks (outbox s) !! (account, event) = Some r -> d_claim r = Some claim ->
  steps moves (erase_episode account (d_episode r) s) t s2 ->
  forall now token c q lease k, (now, EClaimWebhook token c q lease (Ok (Some k))) ∉ t.
Proof.
  intros Hn H0 Hr Hc Ht now token c q lease k Hin; destruct (refines _ _ _ Hn H0) as [(_ & _ & _ & Hok) _].
  set (gone := of_episode account (d_episode r) (webhooks (outbox s))).
  assert (Hgone : gone (account, event) = true).
  { unfold gone, of_episode; match goal with |- match ?x with _ => _ end = _ => replace x with (Some r) by (symmetry; exact Hr) end; simpl; by rewrite str_eqb_refl, Z.eqb_refl. }
  destruct (erase_rows 0 _ _ (webhook_lane (outbox s)) _ gone Hok (lookup_without_episode account (d_episode r) _)) as [Hs Hok1].
  assert (Ha : abandoned (dispatch_of webhook_channel (erase_episode account (d_episode r) s))).
  { eapply erased_in_flight; [exact (lane_coherent _ _ _ Hok) | eapply claimed_phase; [exact Hok | exact Hr | exact Hc] | | exact Hs].
    exact Hgone. }
  destruct (trace_accounts present sha256 webhook_channel (wc_event c) (webhook_grants (wc_event c)) (webhook_refuses (wc_event c)) (webhook_adds (wc_event c))
    (fun n e a b => webhook_event_accounts present sha256 (wc_event c) n e a b) _ _ _ Ht Hok1) as (dt & Hd & _ & Hg & _).
  destruct (abandoned_steps _ _ _ Hd Ha) as [_ Hnone].
  assert (Hz : tally (claims_of (wc_event c)) dt.*2 = 0%nat).
  { apply tally_none, Forall_forall; intros l ([n l'] & -> & Hl)%list_elem_of_fmap; destruct l'; try done; by apply Hnone in Hl. }
  assert (H1 : (1 <= sum_of (fun e => webhook_grants (wc_event c) e.2) t)%nat); [| lia].
  apply list_elem_of_split in Hin as (ta & tb & ->); rewrite sum_of_app, sum_of_cons; simpl; unfold named; rewrite str_eqb_refl; lia.
Qed.

End Tables.

(** ** Runs *)

(** Any other run: of the other worker, or of a handler. *)
Definition sends_none (sent refused : Event -> bool) (l : list Event) : Prop := tally sent l = 0%nat /\ tally refused l = 0%nat.

Lemma run_prefix {State R A} (step : State -> Event -> State -> Prop) st0 (m : prog Event R A) post returned l rest :
  follows step st0 m post returned (fun _ => True) -> (m []).2 = l ++ rest -> exists st, steps step st0 l st.
Proof.
  intros Hm E; destruct (Hm []) as (h & st & Eh & Hs & _); rewrite E in Eh; simpl in Eh; subst h.
  apply steps_split_app in Hs as (st1 & Hs & _); by exists st1.
Qed.

Lemma within_none sent refused granted told l : sends_none sent refused l -> within_claims sent refused granted told l.
Proof. intros [H1 H2]; unfold within_claims; rewrite H1, H2; lia. Qed.

(** The calls of a worker for an account, as far as it came. *)
Definition push_worker (l : list Event) : Prop := exists env account rest, (deliver_user_pushes env account []).2 = l ++ rest.

Lemma push_worker_steps l : push_worker l -> exists st, steps pushes_out PushIdle l st.
Proof. intros (env & account & rest & E); eapply run_prefix; [apply push_run | exact E]. Qed.

Section Senders.
Context (parse_url : str -> option Url) (hmac_sha256 : bytes -> bytes -> bytes).
Context (b64_encode : bytes -> str) (b64_decode : str -> option bytes) (value_to_string : Value -> option str) (web_origin : str).

Definition webhook_worker (l : list Event) : Prop :=
  exists env account rest,
    (deliver_user_webhooks parse_url hmac_sha256 b64_encode b64_decode value_to_string web_origin env account []).2 = l ++ rest.

Lemma webhook_worker_steps l : webhook_worker l -> exists st, steps (sends parse_url hmac_sha256 b64_encode b64_decode) Idle l st.
Proof. intros (env & account & rest & E); eapply run_prefix; [apply webhook_run | exact E]. Qed.

(** ** Where requests go *)

(** A request to an address that was looked up and found public, for an
    endpoint that may be sent to. *)
Definition safely_sent (h : list Event) (p : SignedPost) : Prop :=
  exists url host answer, parse_url (sp_endpoint p) = Some url /\ host_str url = Some host /\ scheme url = lit "https"
    /\ port_or_known_default url = Some 443 /\ username url = [] /\ password url = None /\ fragment url = None /\ private_name host = false
    /\ (forall ip, parse_ip (bare_host host) = Some ip -> is_public_ip ip = true)
    /\ Resolve (bare_host host) 443 (Some answer) ∈ h /\ sp_address p ∈ answer /\ (forall a, a ∈ answer -> is_public_ip a.1 = true).

Lemma endpoint_host_Ok endpoint url host :
  endpoint_host parse_url endpoint = Ok (url, host) ->
  exists name, parse_url endpoint = Some url /\ host_str url = Some name /\ host = bare_host name /\ scheme url = lit "https"
    /\ port_or_known_default url = Some 443 /\ username url = [] /\ password url = None /\ fragment url = None /\ private_name name = false
    /\ (forall ip, parse_ip (bare_host name) = Some ip -> is_public_ip ip = true).
Proof.
  unfold endpoint_host; destruct (validate_endpoint_syntax parse_url endpoint) as [u|] eqn:Ev; [| done].
  destruct (host_str u) as [name|] eqn:Eh; [| done]; intros [= <- <-]; exists name; unfold validate_endpoint_syntax in Ev; all_ok.
  subst x0; match goal with H : host_str u = Some ?n |- _ => assert (n = name) as -> by congruence end.
  repeat match goal with H : bool_decide _ = false |- _ => apply bool_decide_eq_false, eq_None_not_Some in H end.
  repeat match goal with H : bool_decide _ = true |- _ => apply bool_decide_eq_true in H | H : str_eqb _ _ = true |- _ => apply str_eqb_eq in H end.
  split_and!; try done; [by destruct (username u) |].
  intros ip Hip; match goal with H : context [parse_ip] |- _ => rewrite Hip in H; by apply negb_false_iff in H end.
Qed.

Lemma pinned_address_Ok answer a :
  pinned_address answer = Ok a -> exists l, answer = Some l /\ a ∈ l /\ forall x, x ∈ l -> is_public_ip x.1 = true.
Proof.
  unfold pinned_address; destruct answer as [l|]; [| done]; destruct (is_empty _) eqn:E0; [done |].
  destruct (MAX_DNS_ANSWERS <? _)%nat eqn:El; [done |]; destruct (existsb _ _) eqn:Ex; [done |].
  destruct (sort_by_key family _) as [|x rest] eqn:Es; [done |]; intros [= <-]; exists l; split; [done |].
  assert (Htake : take (MAX_DNS_ANSWERS + 1) l = l).
  { apply take_ge; apply Nat.ltb_ge in El; rewrite length_take in El; unfold MAX_DNS_ANSWERS in *; lia. }
  rewrite Htake in *; split.
  - assert (Hin : x ∈ sort_by_key family l) by (rewrite Es; left); unfold sort_by_key in Hin; by rewrite elem_of_sort_by in Hin.
  - intros y Hy; destruct (is_public_ip y.1) eqn:Ey; [done |]; exfalso.
    assert (existsb (fun a => negb (is_public_ip a.1)) l = true); [| congruence].
    apply existsb_exists; exists y; split; [by apply list_elem_of_In | by rewrite Ey].
Qed.

Lemma request_safely_sent h p url host answer :
  endpoint_host parse_url (sp_endpoint p) = Ok (url, host) -> Resolve host 443 answer ∈ h -> pinned_address answer = Ok (sp_address p) ->
  safely_sent h p.
Proof.
  intros (name & Hu & Hh & -> & ? & ? & ? & ? & ? & ? & ?)%endpoint_host_Ok Hr (l & -> & ? & ?)%pinned_address_Ok.
  by exists url, name, l.
Qed.

(** The test of a destination sends the same way. *)
Definition post_is_safe (h : list Event) (e : Event) : Prop := match e with Post p _ => safely_sent h p | _ => True end.

Lemma request_is_safe env q h :
  follows (extends post_is_safe) h (send_signed_request parse_url hmac_sha256 b64_encode b64_decode env q) anywhere anywhere (fun _ => True).
Proof.
  unfold send_signed_request, pinned_destination, wall_clock, try_send.
  destruct (endpoint_host parse_url (rq_endpoint_url q)) as [[url host]|e] eqn:Eh; [| by apply (follows_return _ h)].
  apply does_assoc; change (bind (done_with (url, host)) ?k) with (k (url, host)); cbv beta iota.
  apply does_assoc, then_call; [done | intros answer]; destruct (pinned_address answer) as [address|e] eqn:Ea; [| by apply (follows_return _ (h ++ _))].
  change (bind (done_with address) ?k) with (k address); cbv beta; apply does_assoc, then_call; [done | intros millis].
  change (bind (done_with (Z.of_N millis)) ?k) with (k (Z.of_N millis)); cbv beta zeta.
  match goal with |- context [signature ?m ?e ?d ?s ?i ?t ?b] => destruct (signature m e d s i t b) as [signed|x] end; [| by apply (follows_return _ ((h ++ _) ++ _))].
  change (bind (done_with signed) ?k) with (k signed); cbv beta; apply then_call.
  - intros r; simpl; eapply request_safely_sent; [exact Eh | | exact Ea]; set_solver.
  - intros r; destruct r; by apply follows_done.
Qed.

Lemma test_is_safe env user id h :
  follows (extends post_is_safe) h (rest_test_webhook parse_url hmac_sha256 b64_encode b64_decode value_to_string env user id) anywhere anywhere (fun _ => True).
Proof.
  unfold rest_test_webhook, or_response; apply does_assoc, then_call; [done | intros [found|e]]; [| by apply (follows_return _ (h ++ _))].
  change (bind (done_with found) ?k) with (k found); cbv beta; destruct found as [sub|]; [| by apply (follows_return _ (h ++ _))].
  destruct (negb (ws_enabled sub)); [by apply (follows_return _ (h ++ _)) |]; eapply does_invoke with (mid := anywhere); [| intros r st _; by apply follows_done].
  unfold send_test_webhook, wall_clock; apply then_call; [done | intros random]; apply does_assoc, then_call; [done | intros millis].
  change (bind (done_with (Z.of_N millis)) ?k) with (k (Z.of_N millis)); cbv beta zeta.
  apply then_try_pure; [done | intros body _]; eapply does_invoke; [apply request_is_safe | intros r st _; by apply follows_done].
Qed.

(** A run that sends webhooks: of the worker, or of the test of a
    destination. *)
Definition webhook_sender (l : list Event) : Prop :=
  webhook_worker l
  \/ exists env user id rest, (rest_test_webhook parse_url hmac_sha256 b64_encode b64_decode value_to_string env user id []).2 = l ++ rest.

(** C20: every request that leaves goes to an address that was just looked up
    for its endpoint's host; all addresses of that answer are public; and the
    endpoint is HTTPS on port 443, without credentials, at a public name. *)
Theorem webhooks_go_to_public_addresses l1 p r l2 : webhook_sender (l1 ++ Post p r :: l2) -> safely_sent l1 p.
Proof.
  intros [Hw|(env & user & id & rest & E)].
  - destruct (webhook_worker_steps _ Hw) as [st Hs]; apply sends_post_explained in Hs as (k & host & answer & url & _ & Hu & Hr & Hp & He & _).
    eapply request_safely_sent; [rewrite He; exact Hu | exact Hr | exact Hp].
  - destruct (history_run _ _ _ _ _ (test_is_safe env user id []) []) as (h & Eh & Ha & _); rewrite E in Eh; simpl in Eh.
    exact (Ha l1 (Post p r) (l2 ++ rest) ltac:(by rewrite <- Eh, <- app_assoc)).
Qed.

End Senders.

(** ** Sends and answers *)

Section World.
Context (present : str -> FinalizedEpisode -> res FinalizedEpisode) (sha256 : bytes -> bytes) `{U : Unicode}.
Implicit Types s : Db Outbox.

#[local] Abbreviation world := (world_moves present sha256).

(** C24: however the push worker's runs interleave and wherever they stop, the
    notifications that leave for a delivery are at most one for each time it
    was enqueued and each time the provider did not take it for no fault of
    its token ([not_taken]: an answer that is neither success nor about the
    token, whether or not it asks for a retry, or no way to ask); and at most
    ten for each time it was enqueued. *)
Theorem push_sent_once_unless_refused id s w s' runs :
  new_outbox (outbox s) -> steps world s w s' -> (forall x, inr x ∈ w.*2 -> foreign x = true) -> interleaves runs (calls w) ->
  (forall l, l ∈ runs -> push_worker l \/ sends_none (pushed_of id) (push_refusal_of id) l) ->
  (tally (pushed_of id) (calls w) <= pushes_added id w + tally (push_not_taken id) (calls w))%nat
  /\ (tally (pushed_of id) (calls w) <= 10 * pushes_added id w)%nat.
Proof.
  intros Hn Hw Hf Hi Hr; eapply pushes_covered; [exact Hn | exact Hw | exact Hf | exact Hi |]; intros l Hl.
  destruct (Hr l Hl) as [Hrun|Hnone]; [| by apply within_none]; destruct (push_worker_steps l Hrun) as [st Hs].
  split; [apply (push_run_counts id) in Hs | apply (push_run_claims id) in Hs]; lia.
Qed.

Context (parse_url : str -> option Url) (hmac_sha256 : bytes -> bytes -> bytes).
Context (b64_encode : bytes -> str) (b64_decode : str -> option bytes) (value_to_string : Value -> option str) (web_origin : str).

#[local] Abbreviation webhook_worker := (webhook_worker parse_url hmac_sha256 b64_encode b64_decode value_to_string web_origin).

(** C19: however the workers' runs interleave and wherever they stop, the
    requests that leave for an event are at most one for each time it was
    enqueued and each answer to it that asks for a retry; and at most ten for
    each time it was enqueued. *)
Theorem webhook_sent_once_unless_refused id s w s' runs :
  new_outbox (outbox s) -> steps world s w s' -> (forall x, inr x ∈ w.*2 -> foreign x = true) -> interleaves runs (calls w) ->
  (forall l, l ∈ runs -> webhook_worker l \/ sends_none (posts_of id) (refusal_of id) l) ->
  (tally (posts_of id) (calls w) <= webhooks_added id w + tally (told_to_retry id) (calls w))%nat
  /\ (tally (posts_of id) (calls w) <= 10 * webhooks_added id w)%nat.
Proof.
  intros Hn Hw Hf Hi Hr; eapply webhooks_covered; [exact Hn | exact Hw | exact Hf | exact Hi |]; intros l Hl.
  destruct (Hr l Hl) as [Hrun|Hnone]; [| by apply within_none]; destruct (webhook_worker_steps _ _ _ _ _ _ l Hrun) as [st Hs].
  split; [apply (run_counts _ _ _ _ id) in Hs | apply (run_claims _ _ _ _ id) in Hs]; lia.
Qed.

End World.

(** ** A database that delivers *)

#[local] Existing Instance ascii_unicode.

Definition sample_digest (b : bytes) : bytes := take 32 (reverse b ++ replicate 32 0%N).
Definition as_written (_ : str) (e : FinalizedEpisode) : res FinalizedEpisode := Ok e.

(** A call recorded what its transaction answers, and where that leaves the
    database. *)
Definition performed (now : Z) (x : OutboxEvent) (s : Db Outbox) : Prop * Db Outbox :=
  let run {A} (m : txn (Db Outbox) A) (r : res A) := ((transact m s).1 = r, after m s) in
  match x with
  | ENextWebhook account r => run (next_webhook_candidate as_written now account) r
  | EClaimWebhook token c request lease r => run (claim_webhook now token c request lease) r
  | ESettleWebhook k outcome circuit r => run (settle_webhook now k outcome circuit) r
  | ENextPush account r => run (next_push_candidate now account) r
  | EClaimPush token c request lease r => run (claim_push now token c request lease) r
  | ESettlePush k outcome circuit r => run (settle_push now k outcome circuit) r
  | ECreate w r => run (create_webhook_subscription w) r
  | EUpsert i r => run (upsert_push_installation now i) r
  | EEnqueue account episode version d => (True, enqueue_deliveries now account episode version d s)
  | EEraseEpisode account episode => (True, erase_episode account episode s)
  | EMemories f => (True, set_outbox (set_memories f) s)
  | _ => (False, s)
  end.

Lemma performed_acts now x s : (performed now x s).1 -> acts as_written sample_digest now x s (performed now x s).2.
Proof. destruct x; simpl; try (intros Hr; left; by apply transact_to); done. Qed.

Definition performing (now : Z) (e : WorldEvent) (s : Db Outbox) : Prop * Db Outbox :=
  match db_event e with Some x => performed now x s | None => (True, s) end.

Fixpoint happened (s : Db Outbox) (w : list (Z * WorldEvent)) : Prop :=
  match w with [] => True | e :: w' => (performing e.1 e.2 s).1 /\ happened (performing e.1 e.2 s).2 w' end.

Definition left_by (s : Db Outbox) (w : list (Z * WorldEvent)) : Db Outbox := foldl (fun s e => (performing e.1 e.2 s).2) s w.

Lemma happened_steps s w : happened s w -> steps (world_moves as_written sample_digest) s w (left_by s w).
Proof.
  revert s; induction w as [|[n e] w IH]; intros s; [constructor |]; intros [He Hw]; econstructor; [| by apply IH].
  unfold world_moves, performing in *; simpl in *; destruct (db_event e); [by apply performed_acts | done].
Qed.

(** The calls of a run at one time. *)
Definition at_time (now : Z) (l : list Event) : list (Z * WorldEvent) := (fun e => (now, inl e)) <$> l.

(** The database answers the calls; claims are numbered, and the other ends
    answer with [status]. *)
Definition sample_url (endpoint : str) : option Url :=
  Some {| scheme := lit "https"; host_str := Some (lit "hooks.example.com"); username := []; password := None; fragment := None;
          port_or_known_default := Some 443 |}.
Definition sample_hmac (key message : bytes) : bytes := take 32 (key ++ message).
Definition sample_encode (b : bytes) : str := b.
Definition sample_decode (s : str) : option bytes := Some s.
Definition sample_json (v : Value) : option str := Some (lit "event").

Definition sample_env (now : Z) (s0 : Db Outbox) (tokens : str) (status : Z) : Env := {|
  env_next_webhook account h := (transact (next_webhook_candidate as_written now account) (left_by s0 (at_time now h))).1;
  env_claim_webhook c q h := let token := tokens ++ dec (Z.of_nat (length h)) in
    (token, (transact (claim_webhook now token c q claim_lease_seconds) (left_by s0 (at_time now h))).1);
  env_settle_webhook k outcome circuit h := (transact (settle_webhook now k outcome circuit) (left_by s0 (at_time now h))).1;
  env_next_push account h := (transact (next_push_candidate now account) (left_by s0 (at_time now h))).1;
  env_claim_push c q h := let token := tokens ++ dec (Z.of_nat (length h)) in
    (token, (transact (claim_push now token c q claim_lease_seconds) (left_by s0 (at_time now h))).1);
  env_settle_push k outcome circuit h := (transact (settle_push now k outcome circuit) (left_by s0 (at_time now h))).1;
  env_clock _ := Z.to_N (now / 1000);
  env_random _ := lit "random";
  env_resolve _ _ := Some [(V4 [93; 184; 216; 34], 443)];
  env_post _ _ := Some {| ha_status := status; ha_retry_after := None |};
  env_send_push _ _ := if status =? 200 then Ok status else Err (Retryable (Some status) "provider_retryable" None ProviderWide);
  env_create _ _ := Ok tt; env_get _ _ _ := Ok None; env_list _ _ := Ok []; env_status _ _ _ := Err NotFound; env_disable _ _ _ := Ok tt;
  env_cancel _ _ _ := Ok tt; env_delete _ _ _ := Ok true; env_upsert i _ := Ok i; env_delete_installation _ _ _ := Ok true;
  env_handoff _ _ _ := Ok None |}.

Definition user : str := lit "u1".
Definition start : Z := 1700000000000000.

Definition new_db : Db Outbox := {|
  ids := {| accounts := {[user := {| a_email := lit "a@example.com"; a_status := lit "active"; a_primary_provider := lit "google";
                                     a_primary_subject := lit "1"; a_created := 0; a_updated := 0 |}]};
            identities := ∅; credentials := ∅; deleted_accounts := ∅; deleted_identities := ∅; signups := ∅; operations := ∅ |};
  grants := {| clients := ∅; consents := ∅; codes := ∅; refresh_tokens := ∅ |};
  upload_intents := ∅; reviewer_fixtures := ∅; started_invocations := ∅; billing_accounts := ∅; billing_detach_outbox := ∅;
  outbox := {| memories := ∅; subscriptions := ∅; webhooks := ∅; webhook_fences := ∅;
     webhook_lane := {| owner := None; next_send := 0; circuit_until := None |}; installations := ∅; generations := 0; pushes := ∅;
     push_fences := ∅; push_lane := {| owner := None; next_send := 0; circuit_until := None |} |} |}.

Definition brief : FinalizedEpisode :=
  {| fe_episode_id := 7; fe_title := lit "Planning"; fe_started_at := format_epoch_millis 0; fe_ended_at := format_epoch_millis 0;
     fe_finalized_at := format_epoch_millis 0; fe_episode_type := None; fe_participants := []; fe_overview := lit "Plans"; fe_sections := None;
     fe_decisions := []; fe_action_items := []; fe_important_links := []; fe_open_questions := [] |}.

Definition subscription_made : WebhookSubscription :=
  {| ws_id := lit "s1"; ws_user_id := user; ws_name := lit "Hook"; ws_endpoint_url := lit "https://hooks.example.com/in";
     ws_signing_secret := lit "whsec_key"; ws_include_content := false; ws_enabled := true; ws_created_at := format_epoch_millis 0 |}.
Definition installation_made : PushInstallation :=
  {| pi_id := lit "i1"; pi_user_id := user; pi_platform := lit "ios"; pi_topic := lit "topic"; pi_environment := lit "production";
     pi_device_token := lit "abcd"; pi_token_generation := 1; pi_enabled := true |}.

(** A destination of each kind, an episode and its deliveries. *)
Definition setup : list (Z * WorldEvent) :=
  [(start, inr (ECreate subscription_made (Ok tt))); (start, inr (EUpsert installation_made (Ok installation_made)));
   (start, inr (EMemories (fun _ => {[(user, 7) := {| m_complete := true; m_identity_revision := 0; m_brief := Some brief |}]})));
   (start, inr (EEnqueue user 7 1 {| webhook_destinations := [(lit "s1", lit "w1")];
      push_destinations := [(binding_of (lit "i1") 1, lit "p1", {| handoff_handle := lit "h1"; collapse_id := lit "c1" |})] |}))].

Definition prepared : Db Outbox := left_by new_db setup.

(** A minute later a worker tries and is told to come back; a minute after
    that another one sends again. *)
Definition minute : Z := 60000000.
Definition webhook_calls (now : Z) (s : Db Outbox) (tokens : string) (status : Z) : list Event :=
  (deliver_user_webhooks sample_url sample_hmac sample_encode sample_decode sample_json (lit "https://kioku") (sample_env now s (lit tokens) status) user []).2.
Definition push_calls (now : Z) (s : Db Outbox) (tokens : string) (status : Z) : list Event :=
  (deliver_user_pushes (sample_env now s (lit tokens) status) user []).2.

Definition first_try : list Event := Eval vm_compute in webhook_calls (start + minute) prepared "a" 503.
Definition refused_once : Db Outbox := left_by prepared (at_time (start + minute) first_try).
Definition second_try : list Event := Eval vm_compute in webhook_calls (start + 2 * minute) refused_once "b" 200.
Definition delivered_world : list (Z * WorldEvent) := setup ++ at_time (start + minute) first_try ++ at_time (start + 2 * minute) second_try.

Definition push_first : list Event := Eval vm_compute in push_calls (start + minute) prepared "a" 503.
Definition push_refused : Db Outbox := left_by prepared (at_time (start + minute) push_first).
Definition push_second : list Event := Eval vm_compute in push_calls (start + 2 * minute) push_refused "b" 200.
Definition pushed_world : list (Z * WorldEvent) := setup ++ at_time (start + minute) push_first ++ at_time (start + 2 * minute) push_second.

Lemma new_db_new : new_outbox (outbox new_db).
Proof. by repeat split. Qed.

Lemma delivered_happened : happened new_db delivered_world.
Proof. vm_compute; repeat split. Qed.

Lemma pushed_happened : happened new_db pushed_world.
Proof. vm_compute; repeat split. Qed.

Definition no_foreign_claims (w : list (Z * WorldEvent)) : bool := forallb (fun e => match e.2 with inr x => foreign x | inl _ => true end) w.

Lemma foreign_checked w : no_foreign_claims w = true -> forall x, inr x ∈ w.*2 -> foreign x = true.
Proof.
  intros H x ([n e] & He & Hin)%list_elem_of_fmap; simpl in He; subst e; unfold no_foreign_claims in H; rewrite forallb_forall in H.
  apply (H (n, inr x)); by apply list_elem_of_In.
Qed.

#[local] Abbreviation sample_worker :=
  (webhook_worker sample_url sample_hmac sample_encode sample_decode sample_json (lit "https://kioku")).

Lemma tries_worked l : l ∈ [first_try; second_try] -> sample_worker l.
Proof.
  intros [->|[->|[]%not_elem_of_nil]%elem_of_cons]%elem_of_cons.
  - exists (sample_env (start + minute) prepared (lit "a") 503), user, []; vm_compute; reflexivity.
  - exists (sample_env (start + 2 * minute) refused_once (lit "b") 200), user, []; vm_compute; reflexivity.
Qed.

Lemma pushes_worked l : l ∈ [push_first; push_second] -> push_worker l.
Proof.
  intros [->|[->|[]%not_elem_of_nil]%elem_of_cons]%elem_of_cons.
  - exists (sample_env (start + minute) prepared (lit "a") 503), user, []; vm_compute; reflexivity.
  - exists (sample_env (start + 2 * minute) push_refused (lit "b") 200), user, []; vm_compute; reflexivity.
Qed.

Lemma webhook_sent_once_unless_refused_witness :
  tally (posts_of (lit "w1")) (calls delivered_world) = 2%nat /\ webhooks_added (lit "w1") delivered_world = 1%nat
  /\ (2 <= 1 + tally (told_to_retry (lit "w1")) (calls delivered_world))%nat.
Proof.
  split; [vm_compute; reflexivity |]; split; [vm_compute; reflexivity |].
  exact (proj1 (webhook_sent_once_unless_refused as_written sample_digest sample_url sample_hmac sample_encode sample_decode sample_json (lit "https://kioku")
    (lit "w1") new_db delivered_world (left_by new_db delivered_world) [first_try; second_try] new_db_new (happened_steps _ _ delivered_happened)
    (foreign_checked delivered_world eq_refl) (interleaves_sequence [first_try; second_try]) (fun l Hl => or_introl (tries_worked l Hl)))).
Defined.

Lemma push_sent_once_unless_refused_witness :
  tally (pushed_of (lit "p1")) (calls pushed_world) = 2%nat /\ pushes_added (lit "p1") pushed_world = 1%nat
  /\ (2 <= 1 + tally (push_not_taken (lit "p1")) (calls pushed_world))%nat.
Proof.
  split; [vm_compute; reflexivity |]; split; [vm_compute; reflexivity |].
  exact (proj1 (push_sent_once_unless_refused as_written sample_digest
    (lit "p1") new_db pushed_world (left_by new_db pushed_world) [push_first; push_second] new_db_new (happened_steps _ _ pushed_happened)
    (foreign_checked pushed_world eq_refl) (interleaves_sequence [push_first; push_second]) (fun l Hl => or_introl (pushes_worked l Hl)))).
Defined.

Lemma public_ipv4_outside_blocks_witness : byte_range 100 /\ byte_range 127 /\ is_public_ipv4 [100; 127; 0; 1] = false.
Proof.
  assert (H : byte_range 100 /\ byte_range 127 /\ byte_range 0 /\ byte_range 1) by (unfold byte_range; lia).
  destruct H as (H1 & H2 & H3 & H4); split; [done |]; split; [done |].
  rewrite (public_ipv4_outside_blocks 100 127 0 1 H1 H2 H3 H4); vm_compute; reflexivity.
Defined.

#[local] Abbreviation sample_moves := (outbox_moves as_written sample_digest).

Lemma delivered_moves : steps sample_moves new_db (database delivered_world) (left_by new_db delivered_world).
Proof. apply world_database, happened_steps, delivered_happened. Qed.

Lemma outboxes_refine_dispatch_witness :
  exists dt, labelled webhook_says (database delivered_world) dt
    /\ steps dmoves (dispatch_of webhook_channel new_db) dt (dispatch_of webhook_channel (left_by new_db delivered_world)).
Proof.
  destruct (outboxes_refine_dispatch as_written sample_digest new_db (database delivered_world) (left_by new_db delivered_world) new_db_new delivered_moves)
    as [(dt & Hl & Hs & _) _]; exact (ex_intro _ dt (conj Hl Hs)).
Defined.

Lemma webhooks_go_to_public_addresses_witness :
  exists l1 p r l2, first_try = l1 ++ Post p r :: l2 /\ safely_sent sample_url l1 p.
Proof.
  eexists (take 4 first_try), _, _, (drop 5 first_try); split; [vm_compute; reflexivity |].
  exact (webhooks_go_to_public_addresses sample_url sample_hmac sample_encode sample_decode sample_json (lit "https://kioku")
    (take 4 first_try) _ _ (drop 5 first_try) (or_introl (tries_worked first_try ltac:(left)))).
Defined.

(** The first try as steps: what its worker was offered, and the claim. *)
Definition offered : WebhookDeliveryCandidate := Eval vm_compute in
  match first_try with NextWebhook _ (Ok (Some c)) :: _ => c | _ => {| wc_identity_revision := 0; wc_account := []; wc_episode_id := 0;
    wc_subscription := []; wc_version := 0; wc_event := []; wc_attempt_count := 0; wc_include_content := false; wc_endpoint_url := [];
    wc_signing_secret := []; wc_episode := brief |} end.
Definition frozen : FrozenWebhookDelivery := frozen_webhook offered (lit "event").
Definition claim_made : WebhookDeliveryClaim := Eval vm_compute in webhook_claim_of (start + minute) (lit "a1") offered frozen 60.
Definition setup_moves : list (Z * OutboxEvent) := database setup.
Definition claimed_db : Db Outbox := after (claim_webhook (start + minute) (lit "a1") offered frozen 60) prepared.

Lemma setup_happened : steps sample_moves new_db setup_moves prepared.
Proof. apply world_database, happened_steps; vm_compute; repeat split. Qed.

Lemma succeeds {A} (m : txn (Db Outbox) A) s a : (transact m s).1 = Ok a -> m s = Ok (a, after m s).
Proof. intros H; by apply transact_Ok, transact_to. Qed.

Lemma claim_granted : claim_webhook (start + minute) (lit "a1") offered frozen 60 prepared = Ok (Some claim_made, claimed_db).
Proof. refine (succeeds (claim_webhook (start + minute) (lit "a1") offered frozen 60) prepared (Some claim_made) _); vm_compute; reflexivity. Qed.

Lemma claim_moves : sample_moves prepared (start + minute, EClaimWebhook (lit "a1") offered frozen 60 (Ok (Some claim_made))) claimed_db.
Proof. exact (fires (claim_webhook (start + minute) (lit "a1") offered frozen 60) prepared (Ok (Some claim_made)) (f_equal fst (proj2 (transact_Ok _ _ _ _) claim_granted))). Qed.

Lemma prepared_in_order : in_order webhook_channel prepared.
Proof. destruct (refines as_written sample_digest new_db setup_moves prepared new_db_new setup_happened) as [(_ & _ & _ & H) _]; exact H. Qed.

Lemma granted_webhook_is_authorized_witness :
  owner (webhook_lane (outbox claimed_db)) = Some (lit "a1", lease_end_ms (start + minute) 60 * 1000).
Proof.
  destruct (granted_webhook_is_authorized (start + minute) (lit "a1") offered frozen 60 prepared claim_made claimed_db prepared_in_order claim_granted)
    as (_ & _ & _ & _ & _ & _ & H & _); exact H.
Defined.

Definition sent : WebhookProviderOutcome := WebhookOutcome.Sent 200.
Definition settled_db : Db Outbox := after (settle_webhook (start + minute) claim_made sent None) claimed_db.

Lemma webhook_settlement_happens_once_witness :
  settle_webhook (start + 2 * minute) claim_made WebhookOutcome.Ambiguous None settled_db = Ok (tt, settled_db).
Proof.
  apply (webhook_settlement_happens_once (start + minute) claim_made sent None claimed_db settled_db (start + 2 * minute) WebhookOutcome.Ambiguous None);
    [| vm_compute; reflexivity | vm_compute; reflexivity].
  refine (succeeds (settle_webhook (start + minute) claim_made sent None) claimed_db tt _); vm_compute; reflexivity.
Defined.

Definition refuse_made : WebhookProviderOutcome := WebhookOutcome.Retry (Some 503) (lit "http_503") (format_epoch_millis (start / 1000 + 90000)).
Definition waiting_db : Db Outbox := after (settle_webhook (start + minute) claim_made refuse_made None) claimed_db.
Definition offered_again : WebhookDeliveryCandidate :=
  {| wc_identity_revision := wc_identity_revision offered; wc_account := wc_account offered; wc_episode_id := wc_episode_id offered;
     wc_subscription := wc_subscription offered; wc_version := wc_version offered; wc_event := wc_event offered; wc_attempt_count := 1;
     wc_include_content := wc_include_content offered; wc_endpoint_url := wc_endpoint_url offered; wc_signing_secret := wc_signing_secret offered;
     wc_episode := wc_episode offered |}.
Definition claim_made_again : WebhookDeliveryClaim := Eval vm_compute in webhook_claim_of (start + 2 * minute) (lit "b1") offered_again frozen 60.
Definition claimed_again_db : Db Outbox := after (claim_webhook (start + 2 * minute) (lit "b1") offered_again frozen 60) waiting_db.

Lemma webhook_claims_exclude_each_other_witness :
  exists e, e ∈ [(start + minute, ESettleWebhook claim_made refuse_made None (Ok tt));
                 (start + 2 * minute, EClaimWebhook (lit "b1") offered_again frozen 60 (Ok (Some claim_made_again)))]
    /\ ends_claim (lit "a1") (lease_end_ms (start + minute) 60 * 1000) e.
Proof.
  apply (webhook_claims_exclude_each_other as_written sample_digest new_db setup_moves prepared (start + minute) (lit "a1") offered frozen 60 claim_made claimed_db
    [(start + minute, ESettleWebhook claim_made refuse_made None (Ok tt))] waiting_db (start + 2 * minute) (lit "b1") offered_again frozen 60 claim_made_again
    claimed_again_db new_db_new setup_happened claim_moves).
  - refine (steps_cons _ _ _ waiting_db _ _ _ (steps_nil _ _)).
    refine (fires (settle_webhook (start + minute) claim_made refuse_made None) claimed_db (Ok tt) _); vm_compute; reflexivity.
  - refine (fires (claim_webhook (start + 2 * minute) (lit "b1") offered_again frozen 60) waiting_db (Ok (Some claim_made_again)) _); vm_compute; reflexivity.
Defined.

(** Another account's delivery, after the first account deleted its episode. *)
Lemma episode_deleted_in_flight_stops_webhooks_witness :
  exists r, webhooks (outbox claimed_db) !! (user, lit "w1") = Some r /\ is_Some (d_claim r)
    /\ (forall now token c q lease k, (now, EClaimWebhook token c q lease (Ok (Some k)))
         ∉ [(start + 200 * minute, ENextWebhook (lit "u2") (Ok None))]).
Proof.
  assert (Hr : exists r c, webhooks (outbox claimed_db) !! (user, lit "w1") = Some r /\ d_claim r = Some c) by (do 2 eexists; vm_compute; split; reflexivity).
  destruct Hr as (r & c & Hr & Hc); exists r; split; [exact Hr |]; split; [by exists c |].
  apply (episode_deleted_in_flight_stops_webhooks as_written sample_digest new_db (setup_moves ++ [(start + minute, EClaimWebhook (lit "a1") offered frozen 60 (Ok (Some claim_made)))])
    claimed_db user (lit "w1") r c [(start + 200 * minute, ENextWebhook (lit "u2") (Ok None))]
    (after (next_webhook_candidate as_written (start + 200 * minute) (lit "u2")) (erase_episode user (d_episode r) claimed_db)) new_db_new); [| exact Hr | exact Hc |].
  - eapply steps_app; [exact setup_happened |]; econstructor; [exact claim_moves | constructor].
  - refine (steps_cons _ _ _ _ _ _ _ (steps_nil _ _)).
    refine (fires (next_webhook_candidate as_written (start + 200 * minute) (lit "u2")) (erase_episode user (d_episode r) claimed_db) (Ok None) _).
    vm_compute in Hr; injection Hr as <-; vm_compute; reflexivity.
Defined.

Lemma status_out_of_range_is_never_settled_witness :
  600 <= 700 <= 999 /\ exists outcome circuit,
    settle_webhook (start + minute) claim_made outcome circuit claimed_db = Err (Errors.Store (lit "webhook delivery settlement is invalid")).
Proof.
  split; [lia |]; destruct (status_out_of_range_is_never_settled 700 None 1 (format_epoch_millis 0) (start + minute) claim_made claimed_db) as (o & c & _ & H);
    [lia | exact (ex_intro _ o (ex_intro _ c H))].
Defined.
