(* ===== verification/UsageDb.v ===== *)
(** * The ledger of model usage

    [persistence/postgres/model_usage.rs], the reservations of
    [persistence/postgres/entitlement.rs] and the coverage anchors of
    [persistence/postgres/billing.rs], over the tables of
    [migrations/0013_vertex_usage_ledger.sql], [0002_entitlements.sql] and
    [0004]: the invocations of the model provider made for one account, what
    came of each, their delivery to billing, and the tokens a day's
    invocations reserved.  Every statement names one account; the store is
    what one account has.  A transaction reads one clock, in microseconds, and
    the session's time zone is UTC.  Transactions run one at a time, so that
    SKIP LOCKED skips nothing.  Sequence numbers and the counters of
    attempts and coverage are unbounded. *)
From stdpp Require Import gmap.
From Stdlib Require Import ZArith Lia.
From S2P Require Import Prelude OrdMap Text Errors Bytes IsoTime Vertex VertexFlow Txn AccountDb.
Local Open Scope Z_scope.
Local Open Scope kioku_scope.

(** ** Rows *)

Inductive UsageOutcome := Started | Metered | UsageMissing | Ambiguous | NotBilled.

#[export] Instance usage_outcome_eq_dec : EqDecision UsageOutcome.
Proof. solve_decision. Defined.

Definition outcome_str (o : UsageOutcome) : str :=
  lit match o with
      | Started => "started" | Metered => "metered" | UsageMissing => "usage_missing" | Ambiguous => "ambiguous"
      | NotBilled => "not_billed"
      end.

(** The token columns. *)
Record TokenCounts := {
  n_prompt : option Z; n_input_text : option Z; n_input_audio : option Z; n_input_image : option Z; n_cached_input : option Z;
  n_cached_text : option Z; n_cached_audio : option Z; n_cached_image : option Z; n_output : option Z; n_thought : option Z;
  n_total : option Z
}.

#[export] Instance token_counts_eq_dec : EqDecision TokenCounts.
Proof. solve_decision. Defined.

Definition no_counts : TokenCounts :=
  {| n_prompt := None; n_input_text := None; n_input_audio := None; n_input_image := None; n_cached_input := None; n_cached_text := None;
     n_cached_audio := None; n_cached_image := None; n_output := None; n_thought := None; n_total := None |}.

(** What a settlement writes. *)
Record Settled := {
  t_outcome : UsageOutcome; t_model : option str; t_traffic : str; t_status : option Z; t_counts : TokenCounts; t_delivered : bool
}.

(** [vertex_usage_events], keyed by event; the claim of its delivery is its id
    and expiry. *)
Record EventRow := {
  u_fingerprint : bytes; u_operation : str; u_requested_model : str; u_location : str; u_returned_model : option str;
  u_traffic : str; u_status : option Z; u_counts : TokenCounts; u_outcome : UsageOutcome; u_delivered : bool;
  u_attempts : Z; u_claim : option (str * Z); u_observed : Z; u_updated : Z
}.

(** [vertex_usage_coverage], keyed by period. *)
Record CoverageRow := {
  c_sequence : Z; c_pending : Z; c_lost : Z; c_delivered : bool; c_claim : option (str * Z); c_updated : Z
}.

(** [vertex_coverage_anchors], keyed by period; the observation is kept to the
    millisecond. *)
Record AnchorRow := { an_sequence : Z; an_pending : Z; an_lost : Z; an_observed_ms : Z }.

(** [usage_daily], keyed by day: its columns about the provider. *)
Record DailyRow := { dl_requests : Z; dl_output : Z; dl_audio : Z; dl_screen : Z; dl_derived : Z }.

Record Usage := {
  status : option str;
  events : gmap str EventRow;
  coverage : gmap str CoverageRow;
  anchors : gmap str AnchorRow;
  daily : gmap Z DailyRow
}.

Implicit Types s : Usage.

Definition set_events (f : gmap str EventRow -> gmap str EventRow) s : Usage :=
  {| status := status s; events := f (events s); coverage := coverage s; anchors := anchors s; daily := daily s |}.

Definition set_coverage (f : gmap str CoverageRow -> gmap str CoverageRow) s : Usage :=
  {| status := status s; events := events s; coverage := f (coverage s); anchors := anchors s; daily := daily s |}.

Definition set_anchors (f : gmap str AnchorRow -> gmap str AnchorRow) s : Usage :=
  {| status := status s; events := events s; coverage := coverage s; anchors := f (anchors s); daily := daily s |}.

Definition set_daily (f : gmap Z DailyRow -> gmap Z DailyRow) s : Usage :=
  {| status := status s; events := events s; coverage := coverage s; anchors := anchors s; daily := f (daily s) |}.

(** ** Months *)

Definition MICROS_PER_DAY : Z := 86400 * 1000000.

Definition day_of (micros : Z) : Z := micros / MICROS_PER_DAY.

(** [to_char(CURRENT_TIMESTAMP AT TIME ZONE 'UTC','YYYY-MM')] *)
Definition period_of (micros : Z) : str :=
  let '(y, m, _) := civil_from_days (day_of micros) in dec_pad 4 y ++ lit "-" ++ dec_pad 2 m.

(** [date_trunc('month', CURRENT_TIMESTAMP)] *)
Definition month_start (micros : Z) : Z :=
  let '(y, m, _) := civil_from_days (day_of micros) in days_from_civil y m 1 * MICROS_PER_DAY.

(** [floor(extract(epoch FROM t) * 1000)::bigint] *)
Definition millis_of (micros : Z) : Z := micros / 1000.

(** ** Coverage *)

(** The events not delivered that were observed from a time on. *)
Definition pending_since (from : Z) s : Z :=
  Z.of_nat (length (List.filter (fun kv => negb (u_delivered kv.2) && (from <=? u_observed kv.2)) (map_to_list (events s)))).

Definition refresh_row (now : Z) s (row : option CoverageRow) : CoverageRow :=
  let pending := pending_since (month_start now) s in
  match row with
  | None => {| c_sequence := 1; c_pending := pending; c_lost := 0; c_delivered := false; c_claim := None; c_updated := now |}
  | Some c => {| c_sequence := c_sequence c + 1; c_pending := pending; c_lost := c_lost c; c_delivered := false; c_claim := None;
                 c_updated := now |}
  end.

Definition refresh_coverage (now : Z) s : Usage :=
  set_coverage (fun m => <[period_of now := refresh_row now s (m !! period_of now)]> m) s.

(** ** Invocations *)

Definition replay_admission (outcome : UsageOutcome) : VertexInvocationAdmission :=
  match outcome with NotBilled => ConfirmedNotBilled | _ => LedgerAmbiguous end.

Definition new_event (now : Z) (fingerprint : bytes) (operation : VertexOperation) (model location : str) : EventRow :=
  {| u_fingerprint := fingerprint; u_operation := operation_as_str operation; u_requested_model := model; u_location := location;
     u_returned_model := None; u_traffic := lit "on_demand"; u_status := None; u_counts := no_counts; u_outcome := Started;
     u_delivered := false; u_attempts := 0; u_claim := None; u_observed := now; u_updated := now |}.

(** [SET outcome='ambiguous', updated_at=CURRENT_TIMESTAMP] *)
Definition made_ambiguous (now : Z) (r : EventRow) : EventRow :=
  {| u_fingerprint := u_fingerprint r; u_operation := u_operation r; u_requested_model := u_requested_model r;
     u_location := u_location r; u_returned_model := u_returned_model r; u_traffic := u_traffic r; u_status := u_status r;
     u_counts := u_counts r; u_outcome := Ambiguous; u_delivered := u_delivered r; u_attempts := u_attempts r; u_claim := u_claim r;
     u_observed := u_observed r; u_updated := now |}.

Section Invocations.
Context (sha256 : bytes -> bytes) (now : Z) (account : str).

#[local] Abbreviation txn := (txn Usage).

(** [CHECK (octet_length(request_fingerprint) = 32)] *)
Definition insert_event (id : str) (row : EventRow) : txn unit :=
  abort_if (negb (Nat.eqb (length (u_fingerprint row)) 32)) Postgres ^;
  execute (set_events (<[id := row]>)).

Definition account_must_be_active : txn unit :=
  let^ current := select status in
  abort_if (negb (bool_decide (current = Some (lit "active")))) (Auth (lit "account inactive")).

Definition event_id (fingerprint : bytes) : str := lit "vtx_" ++ hex_of_bytes fingerprint.

Definition begin_invocation (operation : VertexOperation) (requested_model location : str) (caller_anchor : bytes) : txn str :=
  let requested_model := take 256 requested_model in
  let location := take 128 location in
  let fingerprint := vertex_invocation_fingerprint sha256 account operation requested_model location caller_anchor in
  let id := event_id fingerprint in
  account_must_be_active ^;
  let^ stored := select (fun s => events s !! id) in
  match stored with
  | None =>
    insert_event id (new_event now fingerprint operation requested_model location) ^;
    execute (refresh_coverage now) ^;
    commits id
  | Some row =>
    abort_if (negb (bool_decide (u_fingerprint row = fingerprint))) (Conflict (lit "Vertex invocation id was reused with different input")) ^;
    commits id
  end.

(** An error after the commit is the answer of a committed transaction. *)
Definition begin_invocation_attempt (operation : VertexOperation) (requested_model location : str)
    (caller_anchor attempt_identity : bytes) : txn (res VertexInvocationAttempt) :=
  let requested_model := take 256 requested_model in
  let location := take 128 location in
  let fingerprint := vertex_invocation_fingerprint sha256 account operation requested_model location caller_anchor in
  let id := vertex_attempt_event_id sha256 attempt_identity in
  account_must_be_active ^;
  let^ stored := select (fun s => events s !! id) in
  match stored with
  | None =>
    insert_event id (new_event now fingerprint operation requested_model location) ^;
    execute (refresh_coverage now) ^;
    commits (Ok {| attempt_event_id := id; admission := Send |})
  | Some row =>
    let replay := replay_admission (u_outcome row) in
    execute (fun s => if bool_decide (u_outcome row = Started)
                      then refresh_coverage now (set_events (alter (made_ambiguous now) id) s) else s) ^;
    if negb (bool_decide (u_fingerprint row = fingerprint))
    then commits (Err (Conflict (lit "Vertex invocation attempt id was reused with different input")))
    else commits (Ok {| attempt_event_id := id; admission := replay |})
  end.

Definition durable_attempt_provenance (attempt_identity : bytes) s : option (str * bytes * UsageOutcome) :=
  let id := vertex_attempt_event_id sha256 attempt_identity in
  (fun r => (id, u_fingerprint r, u_outcome r)) <$> events s !! id.
End Invocations.

(** ** Settlements *)

Definition counts_of (u : VertexUsage) : TokenCounts :=
  {| n_prompt := to_i64 (prompt_tokens u); n_input_text := to_i64 (input_text_tokens u); n_input_audio := to_i64 (input_audio_tokens u);
     n_input_image := to_i64 (input_image_tokens u); n_cached_input := to_i64 (cached_input_tokens u);
     n_cached_text := to_i64 (cached_input_text_tokens u); n_cached_audio := to_i64 (cached_input_audio_tokens u);
     n_cached_image := to_i64 (cached_input_image_tokens u); n_output := to_i64 (output_tokens u); n_thought := to_i64 (thought_tokens u);
     n_total := to_i64 (total_tokens u) |}.

Definition settled_response (metadata : VertexMetadata) : Settled :=
  let '(model, normalized) := normalized_billable_response metadata in
  {| t_outcome := match normalized with Some _ => Metered | None => UsageMissing end; t_model := model;
     t_traffic := normalized_traffic_type (traffic_type metadata); t_status := Some 200;
     t_counts := match normalized with Some u => counts_of u | None => no_counts end; t_delivered := false |}.

(** [settle_simple_outcome]: the columns of a response stay as they are in a
    row that is started. *)
Definition settled_simply (outcome : UsageOutcome) (delivered : bool) (http_status : option Z) : Settled :=
  {| t_outcome := outcome; t_model := None; t_traffic := lit "on_demand"; t_status := http_status; t_counts := no_counts;
     t_delivered := delivered |}.

Definition with_response (now : Z) (t : Settled) (r : EventRow) : EventRow :=
  {| u_fingerprint := u_fingerprint r; u_operation := u_operation r; u_requested_model := u_requested_model r;
     u_location := u_location r; u_returned_model := t_model t; u_traffic := t_traffic t; u_status := t_status t;
     u_counts := t_counts t; u_outcome := t_outcome t; u_delivered := u_delivered r; u_attempts := u_attempts r; u_claim := u_claim r;
     u_observed := u_observed r; u_updated := now |}.

Definition with_outcome (now : Z) (t : Settled) (r : EventRow) : EventRow :=
  {| u_fingerprint := u_fingerprint r; u_operation := u_operation r; u_requested_model := u_requested_model r;
     u_location := u_location r; u_returned_model := u_returned_model r; u_traffic := u_traffic r; u_status := t_status t;
     u_counts := u_counts r; u_outcome := t_outcome t; u_delivered := t_delivered t; u_attempts := u_attempts r; u_claim := u_claim r;
     u_observed := u_observed r; u_updated := now |}.

(** Whether a row holds what a settlement writes. *)
Definition matches_response (t : Settled) (r : EventRow) : bool :=
  bool_decide (u_outcome r = t_outcome t) && bool_decide (u_returned_model r = t_model t)
  && str_eqb (u_traffic r) (t_traffic t) && bool_decide (u_counts r = t_counts t).

Definition holds_response (t : Settled) (r : EventRow) : bool := matches_response t r && bool_decide (u_status r = t_status t).

(** A row that differs; one without a status compares as unknown, which does
    not decode. *)
Definition different_response (t : Settled) (r : EventRow) : EnclaveError :=
  if matches_response t r && bool_decide (u_status r = None) then Postgres
  else Conflict (lit "Vertex invocation already has different response metadata").

Definition holds_outcome (t : Settled) (r : EventRow) : bool :=
  bool_decide (u_outcome r = t_outcome t) && Bool.eqb (u_delivered r) (t_delivered t) && bool_decide (u_status r = t_status t)
  && bool_decide (u_returned_model r = None) && str_eqb (u_traffic r) (lit "on_demand") && bool_decide (u_counts r = no_counts).

Section Settlements.
Context (now : Z).

#[local] Abbreviation txn := (txn Usage).

(** [CHECK (http_status IS NULL OR http_status BETWEEN 100 AND 599)] *)
Definition status_in_range (http_status : option Z) : bool :=
  match http_status with Some z => (100 <=? z) && (z <=? 599) | None => true end.

(** A row that is started takes the settlement; any other must hold it. *)
Definition settle (id : str) (t : Settled) (write : EventRow -> EventRow) (holds : EventRow -> bool) (different : EventRow -> EnclaveError) : txn unit :=
  let^ stored := select (fun s => events s !! id) in
  match stored with
  | None => aborts (Errors.Store (lit "Vertex invocation intent does not exist"))
  | Some row =>
    if bool_decide (u_outcome row = Started)
    then abort_if (negb (status_in_range (t_status t))) Postgres ^; execute (set_events (alter write id))
    else abort_if (negb (holds row)) (different row)
  end ^;
  execute (refresh_coverage now).

Definition settle_simple_outcome (id : str) (t : Settled) : txn unit :=
  settle id t (with_outcome now t) (holds_outcome t)
    (fun _ => Conflict (lit "Vertex invocation already has a different terminal outcome")).

Definition settle_response (id : str) (metadata : VertexMetadata) : txn unit :=
  let t := settled_response metadata in
  settle id t (with_response now t) (holds_response t) (different_response t).

Definition settle_ambiguous (id : str) (http_status : option Z) : txn unit :=
  settle_simple_outcome id (settled_simply Ambiguous false http_status).

Definition settle_not_billed (id : str) (http_status : Z) : txn unit :=
  settle_simple_outcome id (settled_simply NotBilled true (Some http_status)).

Definition settle_pre_egress_not_billed (id : str) : txn unit := settle_simple_outcome id (settled_simply NotBilled true None).
End Settlements.
