(* ===== verification/UsageOutbox.v ===== *)
(** * The delivery of usage to billing, and the daily reservations

    The rest of [persistence/postgres/model_usage.rs]: the claims under which
    events and coverage snapshots are reported to billing;
    [reconcile_vertex_coverage] of [persistence/postgres/billing.rs], which
    anchors the snapshots of a period; and the reservations of
    [persistence/postgres/entitlement.rs].  The tables are [UsageDb]'s. *)
From stdpp Require Import gmap.
From Stdlib Require Import ZArith Lia.
From S2P Require Import Prelude OrdMap Text Errors Bytes IsoTime Vertex VertexFlow Txn AccountDb UsageDb.
Local Open Scope Z_scope.
Local Open Scope kioku_scope.

Implicit Types s : Usage.

#[local] Abbreviation txn := (txn Usage).

(** ** Events *)

Definition OUTBOX_BATCH : nat := 100.
Definition CLAIM_SECONDS : Z := 120.

(** The counts are one field.  The columns they are read from are not
    negative, nor is a status out of range, so reading them never fails. *)
Record VertexUsageEvent := {
  v_account : str; v_event : str; v_operation : str; v_requested_model : str; v_returned_model : option str; v_location : str;
  v_traffic : str; v_outcome : UsageOutcome; v_status : option Z; v_counts : TokenCounts; v_observed_at : str
}.

Record ClaimedVertexUsageBatch := { b_claim : str; b_events : list VertexUsageEvent }.

Definition event_from_row (billing_account id : str) (r : EventRow) : VertexUsageEvent :=
  {| v_account := billing_account; v_event := id; v_operation := u_operation r; v_requested_model := u_requested_model r;
     v_returned_model := u_returned_model r; v_location := u_location r; v_traffic := u_traffic r; v_outcome := u_outcome r;
     v_status := u_status r; v_counts := u_counts r; v_observed_at := format_epoch_millis (millis_of (u_observed r)) |}.

Definition models_are_safe (requested : str) (returned : option str) (outcome : UsageOutcome) : bool :=
  vertex_model_name_is_billing_safe requested
  && match returned with Some m => vertex_model_name_is_billing_safe m | None => true end
  && (negb (bool_decide (outcome = Metered)) || bool_decide (is_Some returned)).

Definition event_models_are_safe (e : VertexUsageEvent) : bool :=
  models_are_safe (v_requested_model e) (v_returned_model e) (v_outcome e).

(** [delivery_claim_expires_at IS NULL OR ... <= CURRENT_TIMESTAMP] *)
Definition claimable (now : Z) (claim : option (str * Z)) : bool :=
  match claim with Some (_, until) => until <=? now | None => true end.

Definition selectable (now : Z) (r : EventRow) : bool :=
  negb (u_delivered r) && negb (bool_decide (u_outcome r = Started)) && claimable now (u_claim r).

(** [ORDER BY observed_at, event_id LIMIT $2] *)
Definition next_rows (now : Z) s : list (str * EventRow) :=
  take OUTBOX_BATCH (sort_by_key (fun kv => (u_observed kv.2, kv.1))
                       (List.filter (fun kv => selectable now kv.2) (map_to_list (events s)))).

(** An event whose models billing would not accept: what it says of them is
    dropped, and the period has lost an event. *)
Definition sanitised (now : Z) (r : EventRow) : EventRow :=
  {| u_fingerprint := u_fingerprint r; u_operation := u_operation r; u_requested_model := u_requested_model r;
     u_location := u_location r; u_returned_model := None; u_traffic := u_traffic r; u_status := u_status r;
     u_counts := no_counts; u_outcome := UsageMissing; u_delivered := true; u_attempts := u_attempts r; u_claim := None;
     u_observed := u_observed r; u_updated := now |}.

Definition one_lost (c : CoverageRow) : CoverageRow :=
  {| c_sequence := c_sequence c; c_pending := c_pending c; c_lost := c_lost c + 1; c_delivered := false; c_claim := c_claim c;
     c_updated := c_updated c |}.

Definition drop_poison (now : Z) s (id : str) : Usage :=
  set_coverage (alter one_lost (period_of now)) (set_events (alter (sanitised now) id) s).

Definition with_claim (now : Z) (claim : option (str * Z)) (attempts : Z) (delivered : bool) (r : EventRow) : EventRow :=
  {| u_fingerprint := u_fingerprint r; u_operation := u_operation r; u_requested_model := u_requested_model r;
     u_location := u_location r; u_returned_model := u_returned_model r; u_traffic := u_traffic r; u_status := u_status r;
     u_counts := u_counts r; u_outcome := u_outcome r; u_delivered := delivered; u_attempts := u_attempts r + attempts;
     u_claim := claim; u_observed := u_observed r; u_updated := now |}.

Definition claim_event (now : Z) (claim : str) s (id : str) : Usage :=
  set_events (alter (fun r => with_claim now (Some (claim, now + CLAIM_SECONDS * 1000000)) 0 (u_delivered r) r) id) s.

(** The invocations nobody will settle: of every owner when admission is
    closed, of those that started three minutes ago otherwise. *)
Definition stale (now : Z) (force : bool) (r : EventRow) : bool :=
  bool_decide (u_outcome r = Started) && (force || (u_observed r <=? now - 3 * 60 * 1000000)).

Definition sweep_stale (now : Z) (force : bool) s : Usage :=
  set_events (fmap (fun r => if stale now force r then made_ambiguous now r else r)) s.

Definition any_stale (now : Z) (force : bool) s : bool := some_row (fun kv => stale now force kv.2) (events s).

Definition refresh_if (dirty : bool) (now : Z) s : Usage := if dirty then refresh_coverage now s else s.

(** The rounds of [loop]: a round whose events are all dropped starts another.
    It ends within one round more than there are rows
    ([UsageQueue.rounds_end]). *)
Fixpoint claim_rounds (fuel : nat) (now : Z) (claim billing_account : str) (dirty : bool) : txn (option ClaimedVertexUsageBatch) :=
  match fuel with
  | O => aborts Io
  | S fuel =>
    let^ rows := select (next_rows now) in
    if is_empty rows
    then execute (refresh_if dirty now) ^; commits None
    else
      let events := (fun kv => event_from_row billing_account kv.1 kv.2) <$> rows in
      let deliverable := List.filter event_models_are_safe events in
      let poison := List.filter (fun e => negb (event_models_are_safe e)) events in
      let dirty := dirty || negb (is_empty poison) in
      execute (fun s => fold_left (drop_poison now) (v_event <$> poison) s) ^;
      if is_empty deliverable
      then claim_rounds fuel now claim billing_account dirty
      else
        execute (fun s => fold_left (claim_event now claim) (v_event <$> deliverable) s) ^;
        execute (refresh_if dirty now) ^;
        commits (Some {| b_claim := claim; b_events := deliverable |})
  end.

Definition pending_events (now : Z) (claim billing_account : str) (force_started_ambiguous : bool) : txn (option ClaimedVertexUsageBatch) :=
  let^ dirty := select (any_stale now force_started_ambiguous) in
  execute (sweep_stale now force_started_ambiguous) ^;
  let^ rows := select (fun s => size (events s)) in
  claim_rounds (S rows) now claim billing_account dirty.

Definition claimed_by (claim : str) (r : EventRow) : bool :=
  bool_decide (fst <$> u_claim r = Some claim) && negb (u_delivered r).

Definition deliver_event (now : Z) (claim : str) (id : str) : txn unit :=
  let^ stored := select (fun s => events s !! id) in
  if match stored with Some r => claimed_by claim r | None => false end
  then execute (set_events (alter (with_claim now None 0 true) id))
  else abort_if (negb match stored with Some r => u_delivered r | None => false end)
                (Conflict (lit "Vertex delivery claim is no longer authoritative")).

Definition complete_delivery (now : Z) (claim : str) (ids : list str) : txn unit :=
  for_each ids (deliver_event now claim) ^;
  execute (refresh_coverage now).

Definition note_delivery_failure (now : Z) (claim : str) (ids : list str) : txn unit :=
  for_each ids (fun id => execute (set_events (alter (fun r => if claimed_by claim r then with_claim now None 1 false r else r) id))).

(** ** Coverage snapshots *)

Record VertexCoverageSnapshot := {
  sn_account : str; sn_period : str; sn_sequence : Z; sn_pending : Z; sn_lost : Z; sn_observed_at : str
}.

Record ClaimedVertexCoverage := { cc_claim : str; cc_snapshot : VertexCoverageSnapshot }.

(** A period that is over: what is still pending is counted as lost. *)
Definition closed_period (now : Z) (c : CoverageRow) : CoverageRow :=
  if c_delivered c then c
  else {| c_sequence := c_sequence c; c_pending := 0; c_lost := Z.max (c_lost c + c_pending c) 1; c_delivered := true; c_claim := None;
          c_updated := now |}.

(** Text order of periods. *)
Definition close_periods (now : Z) s : Usage :=
  set_coverage (map_imap (fun period c => Some (if ord_ltb period (period_of now) then closed_period now c else c))) s.

Definition open_period (now : Z) s : Usage :=
  set_coverage (fun m => match m !! period_of now with Some _ => m | None => <[period_of now := refresh_row now s None]> m end) s.

Definition pending_coverage (now : Z) (claim billing_account : str) : txn (list ClaimedVertexCoverage) :=
  execute (close_periods now) ^;
  execute (open_period now) ^;
  let^ row := select (fun s => coverage s !! period_of now) in
  match row with
  | Some c =>
    if negb (c_delivered c) && claimable now (c_claim c)
    then
      execute (set_coverage (alter (fun c =>
        {| c_sequence := c_sequence c; c_pending := c_pending c; c_lost := c_lost c; c_delivered := c_delivered c;
           c_claim := Some (claim, now + CLAIM_SECONDS * 1000000); c_updated := c_updated c |}) (period_of now))) ^;
      commits [{| cc_claim := claim; cc_snapshot :=
        {| sn_account := billing_account; sn_period := period_of now; sn_sequence := c_sequence c; sn_pending := c_pending c;
           sn_lost := c_lost c; sn_observed_at := format_epoch_millis (millis_of (c_updated c)) |} |}]
    else commits []
  | None => commits []
  end.

Definition in_i64 (value : Z) (error : string) : res Z := if value <=? I64.max_value then Ok value else Err (Errors.Store (lit error)).

Definition claimed_coverage (claim : str) (sequence : Z) (c : CoverageRow) : bool :=
  bool_decide (fst <$> c_claim c = Some claim) && (c_sequence c =? sequence).

Definition persist_coverage_snapshot (claim : str) (predecessor replacement : VertexCoverageSnapshot) : txn unit :=
  abort_if (negb (str_eqb (sn_period predecessor) (sn_period replacement))) (Conflict (lit "coverage period changed during reconciliation")) ^;
  let^ observed := try_res (ok_or (parse_epoch_millis (sn_observed_at replacement)) (Errors.Store (lit "invalid coverage timestamp"))) in
  let^ sequence := try_res (in_i64 (sn_sequence predecessor) "coverage predecessor sequence overflow") in
  let^ next := try_res (in_i64 (sn_sequence replacement) "coverage sequence overflow") in
  let^ pending := try_res (in_i64 (sn_pending replacement) "coverage pending overflow") in
  let^ lost := try_res (in_i64 (sn_lost replacement) "coverage lost overflow") in
  let^ row := select (fun s => coverage s !! sn_period predecessor) in
  match row with
  | Some c =>
    if claimed_coverage claim sequence c
    then
      abort_if (next <=? 0) Postgres ^;
      execute (set_coverage (<[sn_period predecessor :=
           {| c_sequence := next; c_pending := pending; c_lost := lost; c_delivered := false; c_claim := c_claim c;
              c_updated := observed * 1000 |}]>))
    else aborts (Conflict (lit "coverage predecessor changed during reconciliation"))
  | None => aborts (Conflict (lit "coverage predecessor changed during reconciliation"))
  end.

Definition complete_coverage (now : Z) (claim period : str) (sequence : Z) : txn unit :=
  let^ sequence := try_res (in_i64 sequence "coverage sequence overflow") in
  let^ row := select (fun s => coverage s !! period) in
  if match row with Some c => claimed_coverage claim sequence c && negb (c_delivered c) | None => false end
  then execute (set_coverage (alter (fun c =>
         {| c_sequence := c_sequence c; c_pending := c_pending c; c_lost := c_lost c; c_delivered := true; c_claim := None;
            c_updated := now |}) period))
  else abort_if (negb match row with Some c => (c_sequence c =? sequence) && c_delivered c | None => false end)
                (Conflict (lit "Vertex coverage claim is no longer authoritative")).

Definition invalidate_stale_coverage (now : Z) (claim period : str) (sequence : Z) : txn unit :=
  let^ sequence := try_res (in_i64 sequence "coverage sequence overflow") in
  execute (set_coverage (alter (fun c =>
    if claimed_coverage claim sequence c
    then {| c_sequence := c_sequence c + 1; c_pending := c_pending c; c_lost := Z.max (c_lost c) 1; c_delivered := false; c_claim := None;
            c_updated := now |}
    else c) period)).

(** ** Anchors *)

Record VertexCoverageAnchor := { va_period : str; va_sequence : Z; va_pending : Z; va_lost : Z; va_observed_at : str }.

Definition digit_value (c : char) : Z := Z.of_N c - 48.

(** The bytes of a period of seven bytes are its characters. *)
Definition valid_utc_month (value : str) : bool :=
  match value with
  | [y1; y2; y3; y4; dash; m1; m2] =>
    forallb is_ascii_digit [y1; y2; y3; y4; m1; m2] && N.eqb dash (ch "-")
    && ((1 <=? digit_value m1 * 10 + digit_value m2) && (digit_value m1 * 10 + digit_value m2 <=? 12))
  | _ => false
  end.

Definition checked_i64 (value : Z) (label : string) : res Z :=
  if value <=? I64.max_value then Ok value else Err (Config (lit label ++ lit " overflow")).

(** The anchor a snapshot is reconciled to: a snapshot that is ahead, or the
    anchor itself, is taken; any other moves the anchor on, with a loss. *)
Definition reconciled (now_ms : Z) (existing : option AnchorRow) (sequence pending lost observed_ms : Z) : AnchorRow :=
  match existing with
  | None => {| an_sequence := sequence; an_pending := pending; an_lost := lost; an_observed_ms := observed_ms |}
  | Some a =>
    if an_sequence a <? sequence
    then {| an_sequence := sequence; an_pending := pending; an_lost := Z.max (an_lost a) lost; an_observed_ms := observed_ms |}
    else if (sequence =? an_sequence a) && (pending =? an_pending a) && (lost =? an_lost a) && (observed_ms =? an_observed_ms a)
    then a
    else {| an_sequence := an_sequence a + 1; an_pending := pending; an_lost := Z.max (Z.max (an_lost a) lost) 1; an_observed_ms := now_ms |}
  end.

Definition anchor_of (period : str) (a : AnchorRow) : VertexCoverageAnchor :=
  {| va_period := period; va_sequence := an_sequence a; va_pending := an_pending a; va_lost := an_lost a;
     va_observed_at := format_epoch_millis (an_observed_ms a) |}.

Definition reconcile_vertex_coverage (now : Z) (period : str) (sequence pending lost : Z) (observed_at : str) : txn VertexCoverageAnchor :=
  abort_if (negb (valid_utc_month period)) (InvalidRequest (lit "Vertex coverage period must be YYYY-MM")) ^;
  let^ sequence := try_res (checked_i64 sequence "coverage sequence") in
  let^ pending := try_res (checked_i64 pending "coverage pending count") in
  let^ lost := try_res (checked_i64 lost "coverage lost count") in
  let^ observed_ms := try_res (ok_or (parse_epoch_millis observed_at) (Config (lit "invalid coverage observation timestamp"))) in
  let^ current := select status in
  abort_if (negb (match current with Some st => one_of st ["active"; "deletion_requested"; "deleting"]%string | None => false end))
           (Auth (lit "account inactive")) ^;
  let^ existing := select (fun s => anchors s !! period) in
  let chosen := reconciled (millis_of now) existing sequence pending lost observed_ms in
  abort_if (I64.max_value <? an_sequence chosen) (Config (lit "coverage sequence overflow")) ^;
  abort_if (an_sequence chosen <=? 0) Postgres ^;
  execute (set_anchors (<[period := chosen]>)) ^;
  commits (anchor_of period chosen).

(** ** Reservations *)

Inductive VertexWorkClass := Audio | Screen | DerivedText.

#[export] Instance work_class_eq_dec : EqDecision VertexWorkClass.
Proof. solve_decision. Defined.

(** [daily_limit.saturating_mul(percent) / 100] *)
Definition protected_limit (class : VertexWorkClass) (daily_limit : Z) : Z :=
  I64.clamp (daily_limit * match class with Audio => 50 | Screen | DerivedText => 25 end) ÷ 100.

Definition reservation_allowed (current requested limit : Z) : bool :=
  (0 <? requested) && (0 <? limit) && (I64.saturating_add current requested <=? limit).

Definition no_usage : DailyRow := {| dl_requests := 0; dl_output := 0; dl_audio := 0; dl_screen := 0; dl_derived := 0 |}.

Definition class_output (class : VertexWorkClass) (d : DailyRow) : Z :=
  match class with Audio => dl_audio d | Screen => dl_screen d | DerivedText => dl_derived d end.

Definition reserve_row (class : VertexWorkClass) (requested : Z) (d : DailyRow) : DailyRow :=
  {| dl_requests := dl_requests d + 1; dl_output := dl_output d + requested;
     dl_audio := dl_audio d + match class with Audio => requested | _ => 0 end;
     dl_screen := dl_screen d + match class with Screen => requested | _ => 0 end;
     dl_derived := dl_derived d + match class with DerivedText => requested | _ => 0 end |}.

Definition row_in_range (d : DailyRow) : bool :=
  forallb (fun n => n <=? I64.max_value) [dl_requests d; dl_output d; dl_audio d; dl_screen d; dl_derived d].

(** The row of an account that is gone breaks its foreign key; a sum out of
    range of its column fails. *)
Definition reserve_vertex_output_tokens_for_class (now : Z) (class : VertexWorkClass) (requested daily_limit : Z) : txn bool :=
  let^ row := select (fun s => default no_usage (daily s !! day_of now)) in
  if negb (reservation_allowed (dl_output row) requested daily_limit) then commits false
  else if negb (reservation_allowed (class_output class row) requested (protected_limit class daily_limit)) then commits false
  else
    let^ current := select status in
    abort_if (bool_decide (current = None)) Postgres ^;
    abort_if (negb (row_in_range (reserve_row class requested row))) Postgres ^;
    execute (set_daily (<[day_of now := reserve_row class requested row]>)) ^;
    commits true.
