(* ===== verification/UsageWorker.v ===== *)
(** * The worker that reports usage

    The rest of [cp/model_usage.rs]: the sweep that reports every account's
    usage and coverage to billing, and the settlement of both before an
    account's deletion.  Billing is a remote service; its client's answers,
    like those of the repositories, are the environment's.  Warnings are not
    modelled. *)
From Stdlib Require Import ZArith Lia.
From S2P Require Import Prelude OrdMap Text Errors Bytes Effects UsageDb UsageOutbox.
Local Open Scope Z_scope.
Local Open Scope kioku_scope.

Inductive BillingError :=
| Unavailable
| Rejected (status : Z)
| AppleRejected (status : Z) (code : str)
| AccountDetaching
| InvalidResponse.

Record VertexUsageBatchResponse := { accepted : Z; duplicates : Z; unpriced : Z; ambiguous : Z }.

(** [accepted.checked_add(duplicates) == Some(count)] over [usize]. *)
Definition accounts_for (r : VertexUsageBatchResponse) (count : nat) : bool :=
  (accepted r + duplicates r <=? 2 ^ 64 - 1) && (accepted r + duplicates r =? Z.of_nat count)
  && (unpriced r <=? accepted r) && (ambiguous r <=? accepted r).

Record VertexCoverageResponse := { cv_accepted : bool; cv_duplicate : bool; cv_stale : bool }.

Definition acknowledged (r : VertexCoverageResponse) : bool :=
  negb (cv_stale r) && Nat.eqb (Nat.b2n (cv_accepted r) + Nat.b2n (cv_duplicate r)) 1.

Inductive AccountDeletionSettlement := Complete | AlreadyFenced.

(** ** The calls *)

Inductive Event :=
| ActiveAccounts (r : res (list str))
| BillingAccount (user : str) (r : res str)
| PendingEvents (user billing_account : str) (force : bool) (r : res (option ClaimedVertexUsageBatch))
| ReportUsage (events : list VertexUsageEvent) (r : result BillingError VertexUsageBatchResponse)
| CompleteDelivery (user claim : str) (ids : list str) (r : res unit)
| DeliveryFailure (user claim : str) (ids : list str) (r : res unit)
| PendingCoverage (user billing_account : str) (r : res (list ClaimedVertexCoverage))
| ReconcileCoverage (user : str) (snapshot : VertexCoverageSnapshot) (r : res VertexCoverageAnchor)
| PersistCoverage (user claim : str) (predecessor replacement : VertexCoverageSnapshot) (r : res unit)
| ReportCoverage (snapshot : VertexCoverageSnapshot) (r : result BillingError VertexCoverageResponse)
| CompleteCoverage (user claim period : str) (sequence : Z) (r : res unit)
| InvalidateCoverage (user claim period : str) (sequence : Z) (r : res unit).

Record Env := {
  env_accounts : list Event -> res (list str);
  env_billing_account : list Event -> res str;
  env_pending_events : list Event -> res (option ClaimedVertexUsageBatch);
  env_report_usage : list Event -> result BillingError VertexUsageBatchResponse;
  env_complete_delivery : list Event -> res unit;
  env_delivery_failure : list Event -> res unit;
  env_pending_coverage : list Event -> res (list ClaimedVertexCoverage);
  env_reconcile_coverage : list Event -> res VertexCoverageAnchor;
  env_persist_coverage : list Event -> res unit;
  env_report_coverage : list Event -> result BillingError VertexCoverageResponse;
  env_complete_coverage : list Event -> res unit;
  env_invalidate_coverage : list Event -> res unit
}.

#[export] Instance coverage_snapshot_eq_dec : EqDecision VertexCoverageSnapshot.
Proof. solve_decision. Defined.

Section Worker.
Context (env : Env).

(** The billing client sends one to a hundred events. *)
Definition report_vertex_usage {R} (events : list VertexUsageEvent) : prog Event R (result BillingError VertexUsageBatchResponse) :=
  if is_empty events || (100 <? length events)%nat then done_with (Err InvalidResponse)
  else call (ReportUsage events) (env_report_usage env).

Definition ids_of (b : ClaimedVertexUsageBatch) : list str := v_event <$> b_events b.

Definition anchored_snapshot (snapshot : VertexCoverageSnapshot) (a : VertexCoverageAnchor) : VertexCoverageSnapshot :=
  {| sn_account := sn_account snapshot; sn_period := va_period a; sn_sequence := va_sequence a; sn_pending := va_pending a;
     sn_lost := va_lost a; sn_observed_at := va_observed_at a |}.

Fixpoint each {A R} (l : list A) (body : A -> prog Event R unit) : prog Event R unit :=
  match l with [] => done_with tt | x :: rest => body x ;! each rest body end.

(** [continue] is an early return of the body. *)
Definition iteration {R} (m : prog Event unit unit) : prog Event R unit := invoke m.

Definition or_continue {A} (m : prog Event unit (res A)) : prog Event unit A :=
  let! r := m in match r with Ok a => done_with a | Err _ => return_ tt end.

(** ** The sweep *)

Definition drain_claimed_coverage (user : str) (c : ClaimedVertexCoverage) : prog Event unit unit :=
  let claim := cc_claim c in
  let snapshot := cc_snapshot c in
  let! anchor := or_continue (call (ReconcileCoverage user snapshot) (env_reconcile_coverage env)) in
  let anchored := anchored_snapshot snapshot anchor in
  (if bool_decide (anchored = snapshot) then done_with tt
   else or_continue (call (PersistCoverage user claim snapshot anchored) (env_persist_coverage env))) ;!
  let! response := call (ReportCoverage anchored) (env_report_coverage env) in
  match response with
  | Ok r =>
    if acknowledged r
    then call (CompleteCoverage user claim (sn_period anchored) (sn_sequence anchored)) (env_complete_coverage env) ;! done_with tt
    else if cv_stale r
    then call (InvalidateCoverage user claim (sn_period anchored) (sn_sequence anchored)) (env_invalidate_coverage env) ;! done_with tt
    else done_with tt
  | Err _ => done_with tt
  end.

Definition drain_coverage {R} (user billing_account : str) : prog Event R unit :=
  let! snapshots := call (PendingCoverage user billing_account) (env_pending_coverage env) in
  match snapshots with
  | Err _ => done_with tt
  | Ok snapshots => each snapshots (fun c => iteration (drain_claimed_coverage user c))
  end.

Definition drain_batch {R} (user : str) (b : ClaimedVertexUsageBatch) : prog Event R unit :=
  let! response := report_vertex_usage (b_events b) in
  match response with
  | Ok r =>
    if accounts_for r (length (b_events b))
    then call (CompleteDelivery user (b_claim b) (ids_of b)) (env_complete_delivery env) ;! done_with tt
    else call (DeliveryFailure user (b_claim b) (ids_of b)) (env_delivery_failure env) ;! done_with tt
  | Err _ => call (DeliveryFailure user (b_claim b) (ids_of b)) (env_delivery_failure env) ;! done_with tt
  end.

Definition drain_account (user : str) : prog Event unit unit :=
  let! billing_account := or_continue (call (BillingAccount user) (env_billing_account env)) in
  let! batch := or_continue (call (PendingEvents user billing_account false) (env_pending_events env)) in
  match batch with Some b => drain_batch user b | None => done_with tt end ;!
  drain_coverage user billing_account.

Definition drain_outbox : prog Event unit unit :=
  let! users := call ActiveAccounts (env_accounts env) in
  match users with
  | Err _ => done_with tt
  | Ok users => each users (fun user => iteration (drain_account user))
  end.

(** ** Before an account's deletion *)

Definition settlement_error (message : string) : EnclaveError := Config (lit message).

(** A refusal of billing because the account is already detached ends the
    settlement. *)
Definition or_fenced {A} (message : string) (r : result BillingError A) : prog Event (res AccountDeletionSettlement) A :=
  match r with
  | Ok a => done_with a
  | Err AccountDetaching => return_ (Ok AlreadyFenced)
  | Err _ => return_ (Err (settlement_error message))
  end.

Definition require {R} (condition : bool) (e : EnclaveError) : prog Event (res R) unit := try_pure (refuse (negb condition) e).

Definition settle_batch (user : str) (b : ClaimedVertexUsageBatch) : prog Event (res AccountDeletionSettlement) unit :=
  let! reported := report_vertex_usage (b_events b) in
  let! response := or_fenced "Vertex usage settlement unavailable during deletion" reported in
  require (accounts_for response (length (b_events b))) (settlement_error "Vertex usage settlement incomplete during deletion") ;!
  try_ (call (CompleteDelivery user (b_claim b) (ids_of b)) (env_complete_delivery env)).

(** [loop], for at most so many rounds.  It ends by itself within as many
    rounds as there are events not delivered
    ([UsageTheorems.deletion_settlement_ends]). *)
Fixpoint settle_batches (rounds : nat) (user billing_account : str) : prog Event (res AccountDeletionSettlement) unit :=
  match rounds with
  | O => panic
  | S rounds =>
    let! batch := try_ (call (PendingEvents user billing_account true) (env_pending_events env)) in
    match batch with
    | None => done_with tt
    | Some b => settle_batch user b ;! settle_batches rounds user billing_account
    end
  end.

Definition settle_claimed_coverage (user : str) (c : ClaimedVertexCoverage) : prog Event (res AccountDeletionSettlement) unit :=
  let claim := cc_claim c in
  let snapshot := cc_snapshot c in
  let! anchor := try_ (call (ReconcileCoverage user snapshot) (env_reconcile_coverage env)) in
  let anchored := anchored_snapshot snapshot anchor in
  (if bool_decide (anchored = snapshot) then done_with tt
   else try_ (call (PersistCoverage user claim snapshot anchored) (env_persist_coverage env))) ;!
  require (sn_pending anchored =? 0) (settlement_error "Vertex usage remains pending during deletion") ;!
  let! reported := call (ReportCoverage anchored) (env_report_coverage env) in
  let! response := or_fenced "Vertex coverage settlement unavailable during deletion" reported in
  require (acknowledged response) (settlement_error "Vertex coverage settlement incomplete during deletion") ;!
  try_ (call (CompleteCoverage user claim (sn_period anchored) (sn_sequence anchored)) (env_complete_coverage env)).

Definition settle_for_account_deletion (rounds : nat) (user billing_account : str) :
    prog Event (res AccountDeletionSettlement) (res AccountDeletionSettlement) :=
  settle_batches rounds user billing_account ;!
  let! snapshots := try_ (call (PendingCoverage user billing_account) (env_pending_coverage env)) in
  each snapshots (settle_claimed_coverage user) ;!
  done_with (Ok Complete).
End Worker.
