(* ===== verification/UsageLedger.v ===== *)
(** * What the usage ledger keeps

    The transactions of [UsageDb] and [UsageOutbox] as the events of a trace,
    and what every one of them keeps: an invocation is never forgotten while
    its account exists, what a settlement recorded stays, and only a delivery
    or an outcome that is not billed takes an event off the outbox. *)
From stdpp Require Import gmap.
From Stdlib Require Import ZArith Lia.
From S2P Require Import Prelude OrdMap Text Errors Bytes IsoTime Effects Tickets Vertex VertexFlow Txn AccountDb UsageDb UsageOutbox.
Local Open Scope Z_scope.
Local Open Scope kioku_scope.

Implicit Types s : Usage.

(** ** Traces *)

Inductive UsageEvent :=
| UStatus (st : option str)
| UBegin (operation : VertexOperation) (model location : str) (anchor : bytes) (r : res str)
| UAttempt (operation : VertexOperation) (model location : str) (anchor identity : bytes) (r : res VertexInvocationAttempt)
| UResponse (id : str) (metadata : VertexMetadata) (r : res unit)
| UAmbiguous (id : str) (http_status : option Z) (r : res unit)
| UNotBilled (id : str) (http_status : Z) (r : res unit)
| UPreEgress (id : str) (r : res unit)
| UPending (claim billing_account : str) (force : bool) (r : res (option ClaimedVertexUsageBatch))
| UDeliver (claim : str) (ids : list str) (r : res unit)
| UFailure (claim : str) (ids : list str) (r : res unit)
| UCoverage (claim billing_account : str) (r : res (list ClaimedVertexCoverage))
| UReconcile (snapshot : VertexCoverageSnapshot) (r : res VertexCoverageAnchor)
| UPersist (claim : str) (predecessor replacement : VertexCoverageSnapshot) (r : res unit)
| UCovered (claim period : str) (sequence : Z) (r : res unit)
| UInvalidate (claim period : str) (sequence : Z) (r : res unit)
| UReserve (class : VertexWorkClass) (requested limit : Z) (r : res bool).

(** The account's row changes by other components; deleting it deletes all of
    the account's usage, and its id is never used again
    ([AccountTheorems.finalized_deletion_is_final]). *)
Definition status_changes (st : option str) s s' : Prop :=
  match st with
  | Some _ => is_Some (status s) /\ s' = {| status := st; events := events s; coverage := coverage s; anchors := anchors s; daily := daily s |}
  | None => s' = {| status := None; events := ∅; coverage := ∅; anchors := ∅; daily := ∅ |}
  end.

Definition flatten {A} (r : res (res A)) : res A := match r with Ok a => a | Err e => Err e end.

Section Traces.
Context (sha256 : bytes -> bytes) (account : str).

Definition usage_effect (now : Z) (e : UsageEvent) s s' : Prop :=
  match e with
  | UStatus st => status_changes st s s'
  | UBegin operation model location anchor r => answers (begin_invocation sha256 now account operation model location anchor) r s s'
  | UAttempt operation model location anchor identity r =>
    exists r0, answers (begin_invocation_attempt sha256 now account operation model location anchor identity) r0 s s' /\ r = flatten r0
  | UResponse id metadata r => answers (settle_response now id metadata) r s s'
  | UAmbiguous id http_status r => answers (settle_ambiguous now id http_status) r s s'
  | UNotBilled id http_status r => answers (settle_not_billed now id http_status) r s s'
  | UPreEgress id r => answers (settle_pre_egress_not_billed now id) r s s'
  | UPending claim billing_account force r => answers (pending_events now claim billing_account force) r s s'
  | UDeliver claim ids r => answers (complete_delivery now claim ids) r s s'
  | UFailure claim ids r => answers (note_delivery_failure now claim ids) r s s'
  | UCoverage claim billing_account r => answers (pending_coverage now claim billing_account) r s s'
  | UReconcile n r =>
    answers (reconcile_vertex_coverage now (sn_period n) (sn_sequence n) (sn_pending n) (sn_lost n) (sn_observed_at n)) r s s'
  | UPersist claim predecessor replacement r => answers (persist_coverage_snapshot claim predecessor replacement) r s s'
  | UCovered claim period sequence r => answers (complete_coverage now claim period sequence) r s s'
  | UInvalidate claim period sequence r => answers (invalidate_stale_coverage now claim period sequence) r s s'
  | UReserve class requested limit r => answers (reserve_vertex_output_tokens_for_class now class requested limit) r s s'
  end.

Definition usage_moves s (e : Z * UsageEvent) s' : Prop := usage_effect e.1 e.2 s s'.
End Traces.

(** An account that was just made. *)
Definition new_usage s : Prop := is_Some (status s) /\ events s = ∅ /\ coverage s = ∅ /\ anchors s = ∅ /\ daily s = ∅.

Lemma answers_keep {Store A} (R : Store -> Store -> Prop) `{!Reflexive R} (m : txn Store A) r (s s' : Store) : keeps R m -> answers m r s s' -> R s s'.
Proof.
  intros Hk [H|(e & -> & [->|(a & H)])]; [| done | by eapply Hk].
  destruct r as [a|e]; [apply transact_Ok in H; by eapply Hk | by apply transact_Err in H as ->].
Qed.

(** ** What the transactions keep of an event *)

(** What a settlement recorded. *)
Definition recording (r : EventRow) : UsageOutcome * option str * str * option Z * TokenCounts :=
  (u_outcome r, u_returned_model r, u_traffic r, u_status r, u_counts r).

Definition origin (r : EventRow) : bytes * str * str * str * Z :=
  (u_fingerprint r, u_operation r, u_requested_model r, u_location r, u_observed r).

Definition row_is_safe (r : EventRow) : bool := models_are_safe (u_requested_model r) (u_returned_model r) (u_outcome r).

(** A row that is as if it had been dropped. *)
Definition dropped (r : EventRow) : Prop :=
  u_outcome r = UsageMissing /\ u_returned_model r = None /\ u_counts r = no_counts /\ u_delivered r = true.

(** What dropping leaves of a recording. *)
Definition leavings (r : EventRow) : UsageOutcome * option str * str * option Z * TokenCounts :=
  (UsageMissing, None, u_traffic r, u_status r, no_counts).

(** [r'] is what is left of [r], which billing would not accept. *)
Definition drops (r r' : EventRow) : Prop := row_is_safe r = false /\ recording r' = leavings r /\ u_delivered r' = true.

Definition grows (r r' : EventRow) : Prop :=
  origin r' = origin r
  /\ (u_outcome r = Started
      \/ (u_delivered r = true -> u_delivered r' = true) /\ (recording r' = recording r \/ drops r r')).

Lemma same_recording r r' : recording r' = recording r ->
  u_outcome r' = u_outcome r /\ leavings r' = leavings r /\ (origin r' = origin r -> row_is_safe r' = row_is_safe r).
Proof.
  intros [= Ho Hm Ht Hs Hc]; split_and!; [done | unfold leavings; congruence |]; intros [= _ _ E _ _].
  unfold row_is_safe; congruence.
Qed.

Lemma leavings_leave r r' : recording r' = leavings r -> u_outcome r' = UsageMissing /\ leavings r' = leavings r.
Proof. intros [= Ho Hm Ht Hs Hc]; split; [done | unfold leavings; congruence]. Qed.

#[export] Instance grows_preorder : PreOrder grows.
Proof.
  split; [intros r; split; [done | right; split; [done | by left]] |].
  intros r1 r2 r3 (O1 & C1) (O2 & C2); split; [congruence |].
  destruct (decide (u_outcome r1 = Started)) as [?|Hn]; [by left |]; destruct C1 as [?|[D1 C1]]; [done |]; right.
  destruct C1 as [C1|(S1 & L1 & V1)].
  - destruct (same_recording _ _ C1) as (Eo & El & Es); destruct C2 as [?|[D2 C2]]; [congruence |]; split; [auto |].
    destruct C2 as [C2|(S2 & L2 & V2)]; [left; congruence | right]; split_and!; [by rewrite <- Es | congruence | done].
  - destruct (leavings_leave _ _ L1) as [Eo El]; destruct C2 as [?|[D2 C2]]; [congruence |]; split; [auto |].
    right; split_and!; [done | | auto]; destruct C2 as [C2|(_ & L2 & _)]; congruence.
Qed.

(** What a day has reserved. *)
Definition day_row (day : Z) s : DailyRow := default no_usage (daily s !! day).

Definition reserves_more (d d' : DailyRow) : Prop := dl_output d <= dl_output d' /\ forall class, class_output class d <= class_output class d'.

(** Every event stays, and grows, as do the reservations of a day; only an
    active account gets new events. *)
Definition remembers s s' : Prop :=
  (status s' = status s /\ forall day, reserves_more (day_row day s) (day_row day s')) /\ (status s = Some (lit "active") \/ dom (events s') ⊆ dom (events s))
  /\ forall id r, events s !! id = Some r -> exists r', events s' !! id = Some r' /\ grows r r'.

#[export] Instance remembers_preorder : PreOrder remembers.
Proof.
  split; [intros s; split_and!; [done | by intros day | by right | intros id r Hr; by exists r] |].
  intros s1 s2 s3 ([S1 R1] & D1 & E1) ([S2 R2] & D2 & E2); rewrite S1 in D2; split_and!; [congruence | | set_solver |].
  { intros day; destruct (R1 day) as [A1 B1], (R2 day) as [A2 B2]; split; [lia | intros class; specialize (B1 class); specialize (B2 class); lia]. }
  intros id r Hr.
  destruct (E1 id r Hr) as (r1 & H1 & G1); destruct (E2 id r1 H1) as (r2 & H2 & G2); exists r2; split; [done | by transitivity r1].
Qed.

Lemma remembers_events s f : dom (f (events s)) ⊆ dom (events s) ->
  (forall id r, events s !! id = Some r -> exists r', f (events s) !! id = Some r' /\ grows r r') -> remembers s (set_events f s).
Proof. intros Hd Hf; split; [by split; [| intros day] |]; split; [by right | done]. Qed.

Lemma remembers_alter s id f : (forall r, events s !! id = Some r -> grows r (f r)) -> remembers s (set_events (alter f id) s).
Proof.
  intros Hf; apply remembers_events; [by rewrite dom_alter_L |]; intros k r Hr; destruct (decide (k = id)) as [->|Hne].
  - exists (f r); split; [by rewrite lookup_alter_eq, Hr | by apply Hf].
  - exists r; split; [by rewrite lookup_alter_ne | reflexivity].
Qed.

Lemma remembers_insert s id r : status s = Some (lit "active") -> events s !! id = None -> remembers s (set_events (<[id := r]>) s).
Proof.
  intros Ha Hn; split; [by split; [| intros day] |]; split; [by left |]; intros k r0 Hr; exists r0; split; [| reflexivity]; simpl; rewrite lookup_insert_ne; [done | congruence].
Qed.

Lemma remembers_coverage s f : remembers s (set_coverage f s).
Proof. split; [by split; [| intros day] |]; split; [by right |]; intros id r Hr; by exists r. Qed.

Lemma remembers_refresh now s : remembers s (refresh_coverage now s).
Proof. apply remembers_coverage. Qed.

Lemma remembers_refresh_if dirty now s : remembers s (refresh_if dirty now s).
Proof. unfold refresh_if; destruct dirty; [apply remembers_refresh | reflexivity]. Qed.

Lemma remembers_fold {A} (f : Usage -> A -> Usage) l s : (forall s x, remembers s (f s x)) -> remembers s (fold_left f l s).
Proof. intros Hf; revert s; induction l as [|x l IH]; intros s; [reflexivity |]; simpl; etransitivity; [apply Hf | apply IH]. Qed.

(** A change of a row's claim, and of nothing else. *)
Lemma grows_with_claim now claim attempts delivered r : (u_delivered r = true -> delivered = true) -> grows r (with_claim now claim attempts delivered r).
Proof. intros Hd; split; [done | right; split; [done | by left]]. Qed.

Lemma remembers_claim_event now claim s id : remembers s (claim_event now claim s id).
Proof. apply remembers_alter; intros r _; by apply grows_with_claim. Qed.

(** ** What each transaction keeps *)

Lemma next_rows_elem now s id r : (id, r) ∈ next_rows now s -> events s !! id = Some r /\ selectable now r = true.
Proof.
  intros H; unfold next_rows in H; apply elem_of_take in H as (i & Hi & _); apply list_elem_of_lookup_2, elem_of_sort_by in Hi.
  apply list_elem_of_In, List.filter_In in Hi as [Hin Hs]; split; [by apply elem_of_map_to_list, list_elem_of_In | done].
Qed.

Definition droppable (r : EventRow) : Prop := row_is_safe r = false \/ dropped r.

Lemma grows_sanitised now r : droppable r -> grows r (sanitised now r).
Proof.
  intros Hd; split; [done | right]; split; [done |]; destruct Hd as [Hs|(O & M & C & _)].
  - right; split; [done |]; by split_and!.
  - left; unfold recording; simpl; congruence.
Qed.

Definition all_droppable (ids : list str) s : Prop := forall id r, id ∈ ids -> events s !! id = Some r -> droppable r.

Lemma drop_poison_keeps now s id ids : all_droppable (id :: ids) s -> remembers s (drop_poison now s id) /\ all_droppable ids (drop_poison now s id).
Proof.
  intros H; split.
  - unfold drop_poison; etransitivity; [| apply remembers_coverage]; apply remembers_alter; intros r Hr; apply grows_sanitised, (H id r); [left | done].
  - intros k r Hk Hr; unfold drop_poison in Hr; simpl in Hr; destruct (decide (k = id)) as [->|Hne].
    + rewrite lookup_alter_eq in Hr; apply fmap_Some in Hr as (r0 & _ & ->); right; by split_and!.
    + rewrite lookup_alter_ne in Hr by done; apply (H k r); [by right | done].
Qed.

Lemma drop_all_keeps now s ids : all_droppable ids s -> remembers s (fold_left (drop_poison now) ids s).
Proof.
  revert s; induction ids as [|id ids IH]; intros s H; [reflexivity |]; simpl.
  destruct (drop_poison_keeps now s id ids H) as [H1 H2]; etransitivity; [exact H1 | by apply IH].
Qed.

(** The events of a round, of rows nobody else claims. *)
Lemma round_event now s billing id :
  id ∈ v_event <$> ((fun kv => event_from_row billing kv.1 kv.2) <$> next_rows now s) -> exists r, events s !! id = Some r /\ selectable now r = true.
Proof.
  intros H; apply list_elem_of_fmap in H as (e & -> & H); apply list_elem_of_fmap in H as ([k r] & -> & H); simpl.
  exists r; by apply next_rows_elem.
Qed.

Lemma poison_droppable now s billing :
  all_droppable (v_event <$> List.filter (fun e => negb (event_models_are_safe e))
                   ((fun kv => event_from_row billing kv.1 kv.2) <$> next_rows now s)) s.
Proof.
  intros id r H Hr; apply list_elem_of_fmap in H as (e & -> & H); apply list_elem_of_In, List.filter_In in H as [H Hp].
  apply list_elem_of_In, list_elem_of_fmap in H as ([k r'] & -> & H); simpl in Hr; apply next_rows_elem in H as [H _].
  rewrite H in Hr; injection Hr as ->; left; by apply negb_true_iff in Hp.
Qed.

Lemma claim_rounds_keeps fuel now claim billing dirty : keeps remembers (claim_rounds fuel now claim billing dirty).
Proof.
  revert dirty; induction fuel as [|fuel IH]; intros dirty s a s' H; simpl in H; [done |].
  apply then_Ok in H as (rows & s0 & [-> ->]%select_Ok & H); destruct (is_empty (next_rows now s)).
  - all_txn; apply remembers_refresh_if.
  - apply then_Ok in H as (u & s1 & ->%execute_Ok & H).
    etransitivity; [apply drop_all_keeps, (poison_droppable now s billing) |].
    destruct (is_empty (List.filter _ _)); [by eapply IH |]; all_txn.
    etransitivity; [| apply remembers_refresh_if]; apply remembers_fold; intros; apply remembers_claim_event.
Qed.

Lemma sweep_keeps now force s : remembers s (sweep_stale now force s).
Proof.
  apply remembers_events; [by rewrite dom_fmap_L |]; intros id r Hr; simpl; rewrite lookup_fmap, Hr; eexists; split; [done |].
  destruct (stale now force r) eqn:E; [| reflexivity]; split; [done |]; left.
  unfold stale in E; apply andb_true_iff in E as [E _]; by apply bool_decide_eq_true in E.
Qed.

Lemma pending_events_keeps now claim billing force : keeps remembers (pending_events now claim billing force).
Proof.
  intros s a s' H; unfold pending_events in H; all_txn; etransitivity; [apply sweep_keeps |]; by eapply claim_rounds_keeps.
Qed.

Lemma deliver_event_keeps now claim id : keeps remembers (deliver_event now claim id).
Proof.
  intros s a s' H; unfold deliver_event in H; apply then_Ok in H as (row & s0 & [-> ->]%select_Ok & H).
  destruct (match events s !! id with Some r => claimed_by claim r | None => false end); all_txn; [| reflexivity].
  apply remembers_alter; intros r _; by apply grows_with_claim.
Qed.

Lemma complete_delivery_keeps now claim ids : keeps remembers (complete_delivery now claim ids).
Proof.
  apply keeps_then; [tc_solve | apply keeps_for_each; [tc_solve | intros id _; apply deliver_event_keeps] |].
  intros _; apply keeps_execute; intros s; apply remembers_refresh.
Qed.

Lemma delivery_failure_keeps now claim ids : keeps remembers (note_delivery_failure now claim ids).
Proof.
  apply keeps_for_each; [tc_solve |]; intros id _; apply keeps_execute; intros s; apply remembers_alter; intros r _.
  destruct (claimed_by claim r) eqn:E; [| reflexivity]; apply grows_with_claim; unfold claimed_by in E.
  by apply andb_true_iff in E as [_ E%negb_true_iff]; rewrite E.
Qed.

Lemma settle_keeps now id t write holds different :
  (forall r, u_outcome r = Started -> grows r (write r)) -> keeps remembers (settle now id t write holds different).
Proof.
  intros Hw s a s' H; unfold settle in H; apply then_Ok in H as (row & s0 & [-> ->]%select_Ok & H).
  apply then_Ok in H as (u & s1 & H1 & H2); apply execute_Ok in H2 as ->; etransitivity; [| apply remembers_refresh].
  destruct (events s !! id) as [r|] eqn:Hr; [| done]; destruct (bool_decide (u_outcome r = Started)) eqn:E; all_txn; [| reflexivity].
  apply remembers_alter; intros r0 Hr0; rewrite Hr in Hr0; injection Hr0 as <-; apply Hw; by apply bool_decide_eq_true in E.
Qed.

Lemma settle_simple_keeps now id t : keeps remembers (settle_simple_outcome now id t).
Proof. apply settle_keeps; intros r E; split; [done | by left]. Qed.

Lemma settle_response_keeps now id metadata : keeps remembers (settle_response now id metadata).
Proof. apply settle_keeps; intros r E; split; [done | by left]. Qed.

Lemma pending_coverage_keeps now claim billing : keeps remembers (pending_coverage now claim billing).
Proof. unfold pending_coverage; keeps_by_shape; apply remembers_coverage. Qed.

Lemma persist_keeps claim predecessor replacement : keeps remembers (persist_coverage_snapshot claim predecessor replacement).
Proof. unfold persist_coverage_snapshot; keeps_by_shape; apply remembers_coverage. Qed.

Lemma complete_coverage_keeps now claim period sequence : keeps remembers (complete_coverage now claim period sequence).
Proof. unfold complete_coverage; keeps_by_shape; apply remembers_coverage. Qed.

Lemma invalidate_keeps now claim period sequence : keeps remembers (invalidate_stale_coverage now claim period sequence).
Proof. unfold invalidate_stale_coverage; keeps_by_shape; apply remembers_coverage. Qed.

Lemma reconcile_keeps now period sequence pending lost observed : keeps remembers (reconcile_vertex_coverage now period sequence pending lost observed).
Proof. unfold reconcile_vertex_coverage; keeps_by_shape; (split; [by split; [| intros day] |]; split; [by right |]); intros id r Hr; by exists r. Qed.

(** A grant fits in the day's limit and in its class's share of it. *)
Lemma reserve_Ok now class requested limit s b s' :
  reserve_vertex_output_tokens_for_class now class requested limit s = Ok (b, s') ->
  b = false /\ s' = s
  \/ b = true /\ 0 < requested /\ is_Some (status s) /\ let d := day_row (day_of now) s in
     dl_output d + requested <= limit /\ class_output class d + requested <= protected_limit class limit
     /\ s' = set_daily (<[day_of now := reserve_row class requested d]>) s.
Proof.
  assert (Hle : forall a b c, a <= I64.max_value -> I64.saturating_add a b <= c -> a + b <= I64.max_value -> a + b <= c).
  { unfold I64.saturating_add, I64.clamp; intros; lia. }
  unfold reserve_vertex_output_tokens_for_class; intros H; apply then_Ok in H as (row & s0 & [-> ->]%select_Ok & H); fold (day_row (day_of now) s) in *.
  set (d := day_row (day_of now) s) in *; destruct (reservation_allowed (dl_output d) requested limit) eqn:E1; [| simpl in H; all_txn; by left].
  destruct (reservation_allowed (class_output class d) requested (protected_limit class limit)) eqn:E2; simpl in H; [| all_txn; by left].
  apply then_Ok in H as (st & s1 & [-> ->]%select_Ok & H); apply then_Ok in H as (u & s1 & [Hst ->]%abort_if_Ok & H).
  apply then_Ok in H as (u1 & s1 & [Hr ->]%abort_if_Ok & H); all_txn; right; apply negb_false_iff in Hr; apply bool_decide_eq_false in Hst.
  unfold reservation_allowed in E1, E2; apply andb_true_iff in E1 as [[E1 _]%andb_true_iff F1], E2 as [_ F2]; apply Z.ltb_lt in E1; apply Z.leb_le in F1, F2.
  unfold row_in_range in Hr; simpl in Hr; repeat (apply andb_true_iff in Hr as [? Hr]); repeat match goal with X : (_ <=? _) = true |- _ => apply Z.leb_le in X end.
  split_and!; [done | done | destruct (status s); [by eexists | done] | apply Hle; [lia | done | lia] | | done].
  apply Hle; [| done |]; destruct class; simpl in *; lia.
Qed.

Lemma day_row_set day day' d s : day_row day (set_daily (<[day' := d]>) s) = if bool_decide (day = day') then d else day_row day s.
Proof.
  unfold day_row; simpl; destruct (decide (day = day')) as [->|Hn]; [by rewrite lookup_insert_eq, bool_decide_eq_true_2 |].
  by rewrite lookup_insert_ne, bool_decide_eq_false_2.
Qed.

Lemma reserve_keeps now class requested limit : keeps remembers (reserve_vertex_output_tokens_for_class now class requested limit).
Proof.
  intros s b s' [[_ ->]|(_ & Hq & _ & _ & _ & ->)]%reserve_Ok; [reflexivity |]; split; [split; [done |] | split; [by right |]; intros id r Hr; by exists r].
  intros day; rewrite day_row_set; case_bool_decide; [subst; split; [simpl; lia | intros []; destruct class; simpl; lia] | done].
Qed.

(** ** Admission *)

Section Admission.
Context (sha256 : bytes -> bytes) (account : str).

(** A new event, or one that is there. *)
Lemma begin_invocation_Ok now operation model location anchor s id s' :
  begin_invocation sha256 now account operation model location anchor s = Ok (id, s') ->
  status s = Some (lit "active")
  /\ (events s !! id = None
      /\ (exists row, u_outcome row = Started /\ u_delivered row = false /\ u_observed row = now /\ u_claim row = None
          /\ s' = refresh_coverage now (set_events (<[id := row]>) s))
      \/ is_Some (events s !! id) /\ s' = s).
Proof.
  unfold begin_invocation, account_must_be_active, insert_event; intros H; cbv zeta in H.
  apply then_Ok in H as (u & s0 & H1 & H); all_txn; match goal with E : negb _ = false |- _ => apply negb_false_iff, bool_decide_eq_true in E; rename E into Ha end.
  destruct (events _ !! _) as [row|] eqn:Er; all_txn; split; try done; [right; split; [by eexists | done] | left].
  split; [done |]; eexists; split_and!; [..| reflexivity]; done.
Qed.

(** The answer, and what becomes of the attempt's event. *)
Lemma begin_attempt_Ok now operation model location anchor identity s r s' :
  begin_invocation_attempt sha256 now account operation model location anchor identity s = Ok (r, s') ->
  let id := vertex_attempt_event_id sha256 identity in
  status s = Some (lit "active")
  /\ (events s !! id = None /\ r = Ok {| attempt_event_id := id; admission := Send |}
      /\ (exists row, u_outcome row = Started /\ u_delivered row = false /\ u_observed row = now /\ u_claim row = None
          /\ s' = refresh_coverage now (set_events (<[id := row]>) s))
      \/ (exists row, events s !! id = Some row
          /\ (r = Ok {| attempt_event_id := id; admission := replay_admission (u_outcome row) |} \/ exists e, r = Err e)
          /\ s' = if bool_decide (u_outcome row = Started) then refresh_coverage now (set_events (alter (made_ambiguous now) id) s) else s)).
Proof.
  unfold begin_invocation_attempt, account_must_be_active, insert_event; intros H; cbv zeta in H |- *.
  apply then_Ok in H as (u & s0 & H1 & H); all_txn; match goal with E : negb _ = false |- _ => apply negb_false_iff, bool_decide_eq_true in E; rename E into Ha end.
  destruct (events _ !! _) as [row|] eqn:Er; split; try done.
  - right; exists row; split; [done |].
    apply then_Ok in H as (u1 & s1 & H1 & H); apply execute_Ok in H1 as ->.
    destruct (negb _); all_txn; split; eauto.
  - left; all_txn; split_and!; [done | done |]; eexists; split_and!; [..| reflexivity]; done.
Qed.

Lemma begin_invocation_keeps now operation model location anchor :
  keeps remembers (begin_invocation sha256 now account operation model location anchor).
Proof.
  intros s id s' [Ha [[Hn (row & _ & _ & _ & _ & ->)]|[_ ->]]]%begin_invocation_Ok; [| reflexivity].
  etransitivity; [by apply (remembers_insert s id row Ha) | apply remembers_refresh].
Qed.

Lemma begin_attempt_keeps now operation model location anchor identity :
  keeps remembers (begin_invocation_attempt sha256 now account operation model location anchor identity).
Proof.
  intros s r s' [Ha [(Hn & _ & row & _ & _ & _ & _ & ->)|(row & Hr & _ & ->)]]%begin_attempt_Ok.
  - etransitivity; [by apply remembers_insert | apply remembers_refresh].
  - destruct (bool_decide _) eqn:E; [| reflexivity]; etransitivity; [| apply remembers_refresh]; apply remembers_alter.
    intros r0 Hr0; rewrite Hr in Hr0; injection Hr0 as <-; split; [done |]; left; by apply bool_decide_eq_true in E.
Qed.

(** Every transaction remembers; deleting the account forgets. *)
Lemma usage_remembers now e s s' : usage_effect sha256 account now e s s' -> remembers s s' \/ (exists st, e = UStatus st).
Proof.
  destruct e; simpl; intros H; [right; by eexists | left ..].
  all: try (match goal with H : exists _, _ |- _ => destruct H as (r0 & H & _) end).
  all: eapply answers_keep; [apply remembers_preorder | | exact H].
  - apply begin_invocation_keeps.
  - apply begin_attempt_keeps.
  - apply settle_response_keeps.
  - apply settle_simple_keeps.
  - apply settle_simple_keeps.
  - apply settle_simple_keeps.
  - apply pending_events_keeps.
  - apply complete_delivery_keeps.
  - apply delivery_failure_keeps.
  - apply pending_coverage_keeps.
  - apply reconcile_keeps.
  - apply persist_keeps.
  - apply complete_coverage_keeps.
  - apply invalidate_keeps.
  - apply reserve_keeps.
Qed.

(** Admissions of an attempt's event. *)
Definition lets_send (id : str) (e : Z * UsageEvent) : bool :=
  match e.2 with
  | UAttempt _ _ _ _ _ (Ok {| attempt_event_id := i; admission := Send |}) => str_eqb i id
  | _ => false
  end.

(** An event that may still be admitted. *)
Definition unused (id : str) s : bool := bool_decide (events s !! id = None) && bool_decide (is_Some (status s)).

Lemma remembers_unused id s s' : remembers s s' -> (Nat.b2n (unused id s') <= Nat.b2n (unused id s))%nat.
Proof.
  intros ([Hs _] & _ & He); unfold unused; rewrite Hs; destruct (events s !! id) as [r|] eqn:Er.
  - destruct (He id r Er) as (r' & -> & _); simpl; lia.
  - rewrite (bool_decide_eq_true_2 (None = None)) by done; destruct (bool_decide _), (bool_decide _); simpl; lia.
Qed.

Lemma admission_pays id s e s' :
  usage_moves sha256 account s e s' -> (Nat.b2n (lets_send id e) + Nat.b2n (unused id s') <= Nat.b2n (unused id s))%nat.
Proof.
  destruct e as [now e]; unfold usage_moves; simpl; intros H.
  destruct (lets_send id (now, e)) eqn:L.
  - destruct e; try done; destruct r as [[i []]|]; try done; unfold lets_send in L; simpl in L; apply str_eqb_eq in L as ->.
    destruct H as (r0 & H & E); destruct r0 as [[a|]|]; simplify_eq/=.
    destruct H as [H%transact_Ok|(x & ? & _)]; [| done].
    apply begin_attempt_Ok in H as (Ha & [(Hn & [= ->] & row & _ & _ & _ & _ & ->)|(row & Hr & [[= -> Hx]|(x & ?)] & _)]); [| | done].
    + unfold unused; rewrite Ha, Hn; simpl; rewrite lookup_insert_eq; unfold bool_decide; simpl; lia.
    + by destruct (u_outcome row).
  - destruct (usage_remembers now e s s' H) as [Hr|[st ->]]; [by apply remembers_unused |]; simpl in H.
    destruct st as [st|]; [destruct H as [[st0 E] ->] | rewrite H]; unfold unused; simpl; [rewrite E |]; unfold bool_decide; simpl; [| rewrite andb_false_r; simpl; lia].
    destruct (decide (events s !! id = None)); simpl; lia.
Qed.

(** An attempt is admitted once. *)
Lemma admitted_once id s h s' : steps (usage_moves sha256 account) s h s' -> (tally (lets_send id) h <= 1)%nat.
Proof.
  intros Hs; assert (B := tickets_balance _ (fun _ => True) (unused id) (fun _ => false) (lets_send id) (fun _ _ _ _ _ => I)
    (fun a e b _ Hm => eq_ind _ (fun n => (_ <= n)%nat) (admission_pays id a e b Hm) _ (Nat.add_comm 0 _)) s h s' I Hs).
  rewrite (tally_absent (fun _ => false)) in B by done; destruct (unused id s); simpl in B; lia.
Qed.
End Admission.
