(* ===== verification/UsageWorld.v ===== *)
(** * Generations over the usage ledger

    The traces of the generations of [VertexFlow] over the ledger of
    [UsageDb]: the calls that are the ledger's are its transactions, among
    those of everyone else. *)
From stdpp Require Import gmap.
From Stdlib Require Import ZArith Lia.
From S2P Require Import Prelude OrdMap Text Errors Bytes Json Effects Interleave Tickets Vertex VertexFlow Txn AccountDb UsageDb UsageOutbox UsageLedger.
Local Open Scope Z_scope.
Local Open Scope kioku_scope.

Implicit Types s : Usage.

(** A call of a generation, or a transaction of something else. *)
Inductive WorldEvent :=
| OfCall (mode : TextInvocationMode) (e : VertexFlow.Event)
| OfLedger (e : UsageEvent).

(** The ledger's transaction an event is, if it is one. *)
Definition ledger_call (e : VertexFlow.Event) : option UsageEvent :=
  match e with
  | EBegin operation model location anchor r => Some (UBegin operation model location anchor r)
  | EBeginAttempt operation model location anchor identity r => Some (UAttempt operation model location anchor identity r)
  | ESettleAmbiguous id http_status r => Some (UAmbiguous id http_status r)
  | ESettleNotBilled id http_status r => Some (UNotBilled id http_status r)
  | ESettlePreEgress id r => Some (UPreEgress id r)
  | ESettleResponse id metadata r => Some (UResponse id metadata r)
  | _ => None
  end.

Definition as_usage (e : WorldEvent) : option UsageEvent :=
  match e with OfCall _ e => ledger_call e | OfLedger u => Some u end.

Definition timed_usage (e : Z * WorldEvent) : option (Z * UsageEvent) := pair e.1 <$> as_usage e.2.

Section World.
Context (sha256 : bytes -> bytes) (to_vec : Value -> option bytes) (account : str).

Definition world_moves s (e : Z * WorldEvent) s' : Prop :=
  match timed_usage e with Some u => usage_moves sha256 account s u s' | None => s' = s end.

(** ** Runs *)

(** What a generation did before it stopped, with the clock of each call. *)
Definition stopped {A} (m : Gen A) (mode : TextInvocationMode) (l : list (Z * WorldEvent)) : Prop :=
  exists calls rest, (m []).2 = calls ++ rest /\ snd <$> l = OfCall mode <$> calls.

Inductive run : list (Z * WorldEvent) -> Prop :=
| run_generation config env request mode contract l :
    stopped (generate_custom_with_model_inner sha256 to_vec config env request mode contract) mode l -> run l
| run_persisted config env request identity l :
    stopped (generate_with_persisted_attempt sha256 to_vec config env request identity) (Durable identity) l -> run l
| run_ledger l : Forall (fun e => exists u, e.2 = OfLedger u) l -> run l.

(** ** Requests and admissions *)

Definition is_execute (e : VertexFlow.Event) : bool := match e with EExecute _ _ => true | _ => false end.

(** A request of an attempt whose event has this id. *)
Definition executes (id : str) (e : Z * WorldEvent) : bool :=
  match e.2 with
  | OfCall (Durable identity) e => str_eqb (vertex_attempt_event_id sha256 identity) id && is_execute e
  | _ => false
  end.

Definition granted (identity : bytes) (e : VertexFlow.Event) : bool :=
  match e with
  | EBeginAttempt _ _ _ _ i (Ok {| admission := Send |}) => bool_decide (i = identity)
  | _ => false
  end.

Definition grants (id : str) (e : Z * WorldEvent) : bool :=
  match e.2 with
  | OfCall (Durable identity) e => str_eqb (vertex_attempt_event_id sha256 identity) id && granted identity e
  | _ => false
  end.

(** ** A run sends what was granted to it *)

Definition waits (q : State) : bool := match q with AdmittedAttempt _ _ => true | _ => false end.

Lemma granted_pays identity q e q' : step sha256 to_vec identity q e q' ->
  (Nat.b2n (is_execute e) + Nat.b2n (waits q') <= Nat.b2n (waits q) + Nat.b2n (granted identity e))%nat.
Proof.
  destruct 1; simpl; try lia; try (by destruct a; simpl; lia).
  destruct a as [[i []]|]; simpl; try lia; rewrite bool_decide_eq_true_2 by done; simpl; lia.
Qed.

Lemma granted_run identity h q : steps (step sha256 to_vec identity) Idle h q -> (tally is_execute h <= tally (granted identity) h)%nat.
Proof.
  intros Hs; assert (B := tickets_balance _ (fun _ => True) waits (granted identity) is_execute (fun _ _ _ _ _ => I)
    (fun a e b _ Hm => granted_pays identity a e b Hm) Idle h q I Hs); simpl in B; lia.
Qed.

Lemma generation_steps config env request identity contract h :
  exists h' q, (generate_custom_with_model_inner sha256 to_vec config env request (Durable identity) contract h).2 = h ++ h'
    /\ steps (step sha256 to_vec identity) Idle h' q.
Proof.
  assert (F : follows (step sha256 to_vec identity) Idle
    (generate_custom_with_model_inner sha256 to_vec config env request (Durable identity) contract) justified justified (fun _ => False)).
  { eapply follows_bind; [apply prepare_ok | intros p q Hp; by apply send_ok]. }
  destruct (F h) as (h' & q & E & Hs & _); by exists h', q.
Qed.

Lemma durable_run {A} (m : Gen A) identity l :
  (exists h q, (m []).2 = h /\ steps (step sha256 to_vec identity) Idle h q) -> stopped m (Durable identity) l ->
  exists calls, snd <$> l = OfCall (Durable identity) <$> calls /\ (tally is_execute calls <= tally (granted identity) calls)%nat.
Proof.
  intros (h & q & E & Hs) (calls & rest & E' & Hl); exists calls; split; [done |].
  rewrite E in E'; rewrite E' in Hs; apply steps_split_app in Hs as (q1 & Hs & _); by eapply granted_run.
Qed.

Lemma tally_calls (p : Z * WorldEvent -> bool) (q : VertexFlow.Event -> bool) mode l calls :
  (forall n e, p (n, OfCall mode e) = q e) -> snd <$> l = OfCall mode <$> calls -> tally p l = tally q calls.
Proof.
  intros Hpq; revert calls; induction l as [|[n w] l IH]; intros [|c calls] E; try done.
  injection E as -> E; rewrite !tally_cons, Hpq; f_equal; by apply IH.
Qed.

Lemma tally_false {E} (h : list E) : tally (fun _ => false) h = 0%nat.
Proof. by apply tally_absent. Qed.

Lemma stopped_sends {A} (m : Gen A) identity id l :
  (exists h q, (m []).2 = h /\ steps (step sha256 to_vec identity) Idle h q) -> stopped m (Durable identity) l ->
  (tally (executes id) l <= tally (grants id) l)%nat.
Proof.
  intros Hm Hl; destruct (durable_run m identity l Hm Hl) as (calls & E & H).
  destruct (str_eqb (vertex_attempt_event_id sha256 identity) id) eqn:Hi.
  - rewrite (tally_calls (executes id) is_execute (Durable identity) l calls), (tally_calls (grants id) (granted identity) (Durable identity) l calls); try done.
    + intros n e; unfold grants; simpl; by rewrite Hi.
    + intros n e; unfold executes; simpl; by rewrite Hi.
  - rewrite (tally_calls (executes id) (fun _ => false) (Durable identity) l calls), tally_false; [lia | | done].
    intros n e; unfold executes; simpl; by rewrite Hi.
Qed.

Lemma run_sends id l : run l -> (tally (executes id) l <= tally (grants id) l)%nat.
Proof.
  intros [config env request mode contract l' H | config env request identity l' H | l' H].
  - destruct mode as [|identity].
    + destruct H as (calls & rest & _ & E); rewrite (tally_calls (executes id) (fun _ => false) Legacy l' calls), tally_false; [lia | done | done].
    + eapply stopped_sends; [| exact H]; destruct (generation_steps config env request identity contract []) as (h & q & E & Hs); by exists h, q.
  - eapply stopped_sends; [| exact H]; unfold generate_with_persisted_attempt; destruct (negb _).
    + exists [], Idle; split; [done | constructor].
    + match goal with |- context [generate_custom_with_model_inner _ _ _ _ ?r _ ?c] =>
        destruct (generation_steps config env r identity c []) as (h & q & E & Hs) end; by exists h, q.
  - rewrite tally_absent; [lia |]; intros e He; rewrite Forall_forall in H; destruct (H e He) as [u Hu]; unfold executes; by rewrite Hu.
Qed.

(** ** The ledger's trace *)

Lemma world_usage s h s' : steps world_moves s h s' -> steps (usage_moves sha256 account) s (omap timed_usage h) s'.
Proof.
  induction 1 as [s|s e s1 h s2 Hm _ IH]; [constructor |]; unfold world_moves in Hm; simpl.
  destruct (timed_usage e) as [u|]; [by econstructor | by subst].
Qed.

(** The id a grant answers is the attempt's. *)
Lemma grant_lets_send id s e s' : world_moves s e s' -> grants id e = true -> exists u, timed_usage e = Some u /\ lets_send id u = true.
Proof.
  destruct e as [n [mode e|u]]; [| done]; destruct mode as [|identity]; [done |]; unfold grants; simpl; intros Hm [Hi Hg]%andb_true_iff.
  destruct e as [| | | | |operation model location anchor i [[a []]|]| | | | | |]; try done; apply bool_decide_eq_true in Hg as ->.
  eexists; split; [done |]; unfold lets_send; simpl; destruct Hm as (r0 & H & E); simpl in H; destruct r0 as [[a0|]|]; simplify_eq/=.
  destruct H as [H%transact_Ok|(x & ? & _)]; [| done].
  apply begin_attempt_Ok in H as (_ & [(_ & [= ->] & _)|(row & _ & [[= -> _]|(x & ?)] & _)]); [done | done | done].
Qed.

Lemma grants_counted id s h s' : steps world_moves s h s' -> (tally (grants id) h <= tally (lets_send id) (omap timed_usage h))%nat.
Proof.
  induction 1 as [s|s e s1 h s2 Hm _ IH]; [done |]; rewrite tally_cons.
  change (omap timed_usage (e :: h)) with (match timed_usage e with Some u => u :: omap timed_usage h | None => omap timed_usage h end).
  destruct (grants id e) eqn:G.
  - destruct (grant_lets_send id s e s1 Hm G) as (u & -> & Hu); rewrite tally_cons, Hu; unfold Nat.b2n; lia.
  - destruct (timed_usage e); [rewrite tally_cons |]; unfold Nat.b2n; lia.
Qed.
End World.
