(* ===== verification/UsageQueue.v ===== *)
(** * The claims of usage events

    Claiming the events of an outbox ends; what it claims, and what it leaves;
    and that the rows still open only become fewer once an account admits
    nothing new. *)
From stdpp Require Import gmap.
From Stdlib Require Import ZArith Lia.
From S2P Require Import Prelude OrdMap Text Errors Bytes IsoTime Effects Tickets Vertex VertexFlow Txn AccountDb UsageDb UsageOutbox UsageLedger.
Local Open Scope Z_scope.
Local Open Scope kioku_scope.

Implicit Types s : Usage.

(** ** The rows to be claimed *)

Definition rows_with (p : EventRow -> bool) s : gset str := dom (filter (fun kv => p kv.2 = true) (events s)).

Lemma elem_of_rows_with p s id : id ∈ rows_with p s <-> exists r, events s !! id = Some r /\ p r = true.
Proof.
  unfold rows_with; rewrite elem_of_dom; split.
  - intros [r [Hr Hp]%map_lookup_filter_Some]; by exists r.
  - intros (r & Hr & Hp); exists r; by apply map_lookup_filter_Some.
Qed.

Lemma elem_of_next_rows_left now s id r : events s !! id = Some r -> selectable now r = true -> next_rows now s <> [].
Proof.
  intros Hr Hs E; unfold next_rows in E; set (l := List.filter _ _) in E.
  assert (Hin : (id, r) ∈ sort_by_key (fun kv => (u_observed kv.2, kv.1)) l).
  { apply elem_of_sort_by; unfold l; apply list_elem_of_In, List.filter_In; split; [by apply list_elem_of_In, elem_of_map_to_list | done]. }
  destruct (sort_by_key _ l); [by apply not_elem_of_nil in Hin | done].
Qed.

Lemma no_next_rows now s : next_rows now s = [] -> forall id r, events s !! id = Some r -> selectable now r = false.
Proof. intros E id r Hr; destruct (selectable now r) eqn:Hs; [by destruct (elem_of_next_rows_left now s id r Hr Hs) | done]. Qed.

(** ** Rounds *)

(** Changing the rows of a list, when changing twice is changing once. *)
Lemma fold_alter_lookup {R} (f : R -> R) (ids : list str) (m : gmap str R) (id : str) :
  (forall r, f (f r) = f r) ->
  fold_left (fun m x => alter f x m) ids m !! id = (fun r => if bool_decide (id ∈ ids) then f r else r) <$> m !! id.
Proof.
  intros Hf; revert m; induction ids as [|x ids IH]; intros m; cbn [fold_left].
  - destruct (m !! id) as [r|]; [| done]; cbn [fmap option_fmap option_map]; destruct (bool_decide (id ∈ [])) eqn:B; [| done].
    by apply bool_decide_eq_true, not_elem_of_nil in B.
  - rewrite IH; assert (E : bool_decide (id ∈ x :: ids) = bool_decide (id = x) || bool_decide (id ∈ ids)).
    { rewrite <- bool_decide_or; apply bool_decide_ext, elem_of_cons. }
    rewrite E; destruct (decide (x = id)) as [->|Hne].
    + rewrite lookup_alter_eq, (bool_decide_eq_true_2 (id = id)) by done; destruct (m !! id) as [r|]; [| done].
      cbn [fmap option_fmap option_map orb]; destruct (bool_decide _); by rewrite ?Hf.
    + by rewrite lookup_alter_ne, (bool_decide_eq_false_2 (id = x)) by done.
Qed.

Lemma drop_all_lookup now (ids : list str) s id :
  events (fold_left (drop_poison now) ids s) !! id = (fun r => if bool_decide (id ∈ ids) then sanitised now r else r) <$> events s !! id.
Proof.
  rewrite <- (fold_alter_lookup (sanitised now)) by done; f_equal; revert s; induction ids as [|x ids IH]; intros s; [done | apply IH].
Qed.

Definition claimed_until (now : Z) (claim : str) (r : EventRow) : EventRow :=
  with_claim now (Some (claim, now + CLAIM_SECONDS * 1000000)) 0 (u_delivered r) r.

Lemma claim_all_lookup now claim (ids : list str) s id :
  events (fold_left (claim_event now claim) ids s) !! id
  = (fun r => if bool_decide (id ∈ ids) then claimed_until now claim r else r) <$> events s !! id.
Proof.
  rewrite <- (fold_alter_lookup (claimed_until now claim)).
  - f_equal; revert s; induction ids as [|x ids IH]; intros s; [done | apply IH].
  - intros r; unfold claimed_until, with_claim; simpl; by rewrite !Z.add_0_r.
Qed.

(** What a round drops is no longer selectable. *)
Lemma dropped_rows now (ids : list str) s :
  rows_with (selectable now) (fold_left (drop_poison now) ids s) ⊆ rows_with (selectable now) s ∖ list_to_set ids.
Proof.
  intros id (r & Hr & Hs)%elem_of_rows_with; rewrite drop_all_lookup in Hr; apply fmap_Some in Hr as (r0 & E & ->).
  destruct (bool_decide (id ∈ ids)) eqn:B; [done |]; apply bool_decide_eq_false in B.
  apply elem_of_difference; split; [by apply elem_of_rows_with; exists r0 | by rewrite elem_of_list_to_set].
Qed.

Section Rounds.
Context (now : Z) (claim billing : str).

Definition listed s : list VertexUsageEvent := (fun kv => event_from_row billing kv.1 kv.2) <$> next_rows now s.
Definition safe_events s : list VertexUsageEvent := List.filter event_models_are_safe (listed s).
Definition poison_events s : list VertexUsageEvent := List.filter (fun e => negb (event_models_are_safe e)) (listed s).

Lemma listed_row s e : e ∈ listed s ->
  exists r, events s !! v_event e = Some r /\ selectable now r = true /\ e = event_from_row billing (v_event e) r.
Proof. intros ([id r] & -> & H)%list_elem_of_fmap; simpl; exists r; apply next_rows_elem in H as [Hr Hs]; by split_and!. Qed.

Lemma filter_elem {A} (p : A -> bool) (l : list A) x : x ∈ List.filter p l <-> x ∈ l /\ p x = true.
Proof. rewrite !list_elem_of_In; apply List.filter_In. Qed.

(** An event is poison or deliverable, by its row. *)
Lemma safe_not_poison s e : e ∈ safe_events s -> v_event e ∉ v_event <$> poison_events s.
Proof.
  intros [He Hs]%filter_elem ([id r] & E & [Hp Hn]%filter_elem)%list_elem_of_fmap.
  destruct (listed_row s e He) as (r1 & H1 & _ & E1); destruct (listed_row s _ Hp) as (r2 & H2 & _ & E2).
  rewrite E, H2 in H1; injection H1 as ->; rewrite E2 in Hn; rewrite E1 in Hs; apply negb_true_iff in Hn.
  unfold event_models_are_safe in *; simpl in *; congruence.
Qed.

(** What a claim of a batch leaves. *)
Definition claims_batch (b : ClaimedVertexUsageBatch) s : Prop :=
  b_claim b = claim /\ (1 <= length (b_events b) <= OUTBOX_BATCH)%nat
  /\ forall e, e ∈ b_events b -> event_models_are_safe e = true
     /\ exists r, events s !! v_event e = Some r /\ u_delivered r = false /\ u_outcome r <> Started
        /\ u_claim r = Some (claim, now + CLAIM_SECONDS * 1000000) /\ e = event_from_row billing (v_event e) r.

Definition none_selectable s : Prop := forall id r, events s !! id = Some r -> selectable now r = false.

Definition claimed_or_none (o : option ClaimedVertexUsageBatch) s : Prop :=
  match o with Some b => claims_batch b s | None => none_selectable s end.

Lemma safe_length s : (length (safe_events s) <= OUTBOX_BATCH)%nat.
Proof.
  etransitivity; [apply List.filter_length_le |]; unfold listed, next_rows; rewrite length_fmap, length_take; lia.
Qed.

Lemma selectable_row r : selectable now r = true -> u_delivered r = false /\ u_outcome r <> Started /\ claimable now (u_claim r) = true.
Proof.
  intros [[H1 H2]%andb_true_iff H3]%andb_true_iff; apply negb_true_iff in H1, H2; apply bool_decide_eq_false in H2; by split_and!.
Qed.

(** The last round: the events that billing takes are claimed. *)
Lemma claim_round s dirty :
  safe_events s <> [] ->
  claims_batch {| b_claim := claim; b_events := safe_events s |}
    (refresh_if dirty now (fold_left (claim_event now claim) (v_event <$> safe_events s)
       (fold_left (drop_poison now) (v_event <$> poison_events s) s))).
Proof.
  intros Hne; split_and!; [done | | apply safe_length |].
  - simpl; destruct (safe_events s); [done | simpl; lia].
  - simpl; intros e He; assert (Hs := He); apply filter_elem in Hs as [Hl Hs]; split; [done |].
    destruct (listed_row s e Hl) as (r & Hr & Hsel & E); destruct (selectable_row r Hsel) as (Hd & Ho & _).
    exists (claimed_until now claim r); split; [| by split_and!].
    transitivity (events (fold_left (claim_event now claim) (v_event <$> safe_events s)
       (fold_left (drop_poison now) (v_event <$> poison_events s) s)) !! v_event e); [by destruct dirty |].
    rewrite claim_all_lookup, drop_all_lookup, Hr; cbn [fmap option_fmap option_map].
    by rewrite (bool_decide_eq_true_2 (v_event e ∈ v_event <$> safe_events s)) by (by apply list_elem_of_fmap_2);
      rewrite (bool_decide_eq_false_2 (v_event e ∈ v_event <$> poison_events s)) by (by apply safe_not_poison).
Qed.

(** A round whose events are all dropped leaves fewer. *)
Lemma poison_round s :
  next_rows now s <> [] -> safe_events s = [] ->
  (size (rows_with (selectable now) (fold_left (drop_poison now) (v_event <$> poison_events s) s)) < size (rows_with (selectable now) s))%nat.
Proof.
  intros Hn Hs; assert (He : exists e, e ∈ listed s) by (unfold listed; destruct (next_rows now s) as [|kv l]; [done |]; eexists; left).
  destruct He as [e He]; assert (Hp : e ∈ poison_events s).
  { apply filter_elem; split; [done |]; destruct (event_models_are_safe e) eqn:E; [| done].
    assert (e ∈ safe_events s) as H by (by apply filter_elem); rewrite Hs in H; by apply not_elem_of_nil in H. }
  destruct (listed_row s e He) as (r & Hr & Hsel & _); apply subset_size; split.
  - etransitivity; [apply dropped_rows |]; set_solver.
  - intros Hsub; assert (Hin : v_event e ∈ rows_with (selectable now) s) by (apply elem_of_rows_with; by exists r).
    apply Hsub, dropped_rows, elem_of_difference in Hin as [_ Hnot]; apply Hnot, elem_of_list_to_set; by apply list_elem_of_fmap_2.
Qed.

Lemma rounds_end fuel dirty s : (size (rows_with (selectable now) s) < fuel)%nat ->
  exists o s', claim_rounds fuel now claim billing dirty s = Ok (o, s') /\ claimed_or_none o s'.
Proof.
  revert dirty s; induction fuel as [|fuel IH]; intros dirty s Hf; [lia |]; simpl.
  unfold then_, select, execute, commits; destruct (is_empty (next_rows now s)) eqn:En.
  - apply is_empty_true in En; do 2 eexists; split; [done |]; intros id r Hr; apply (no_next_rows now s En id r); by destruct dirty.
  - apply is_empty_false in En; fold (listed s); fold (safe_events s); fold (poison_events s).
    destruct (is_empty (safe_events s)) eqn:Es.
    + apply is_empty_true in Es; apply IH; assert (H := poison_round s En Es); lia.
    + apply is_empty_false in Es; do 2 eexists; split; [done |]; by apply claim_round.
Qed.
End Rounds.

(** ** The sweep *)

Lemma sweep_lookup now force s id : events (sweep_stale now force s) !! id = (fun r => if stale now force r then made_ambiguous now r else r) <$> events s !! id.
Proof. apply lookup_fmap. Qed.

Lemma sweep_size now force s : size (events (sweep_stale now force s)) = size (events s).
Proof. apply map_size_fmap. Qed.

Lemma rows_with_size p s : (size (rows_with p s) <= size (events s))%nat.
Proof. unfold rows_with; rewrite size_dom; apply map_size_filter. Qed.

(** Rows that started are never claimed, and none starts during a claim. *)
Definition young (now : Z) (force : bool) s : Prop := forall id r, events s !! id = Some r -> u_outcome r = Started -> stale now force r = false.

Lemma sweep_young now force s : young now force (sweep_stale now force s).
Proof.
  intros id r Hr Ho; rewrite sweep_lookup in Hr; apply fmap_Some in Hr as (r0 & _ & ->); destruct (stale now force r0) eqn:E; done.
Qed.

Lemma young_alter now force s id f :
  (forall r, u_outcome (f r) = Started -> u_outcome r = Started /\ u_observed (f r) = u_observed r) -> young now force s -> young now force (set_events (alter f id) s).
Proof.
  intros Hf Hy k r Hr Ho; simpl in Hr; destruct (decide (id = k)) as [->|Hne]; [| rewrite lookup_alter_ne in Hr by done; by apply (Hy k)].
  rewrite lookup_alter_eq in Hr; apply fmap_Some in Hr as (r0 & Hr & ->); destruct (Hf r0 Ho) as [H0 H1].
  assert (Hs := Hy _ _ Hr H0); unfold stale in *; by rewrite Ho, H1; rewrite H0 in Hs.
Qed.

Lemma young_fold {A} now force (f : Usage -> A -> Usage) l s : (forall s x, young now force s -> young now force (f s x)) -> young now force s -> young now force (fold_left f l s).
Proof. intros Hf; revert s; induction l as [|x l IH]; intros s Hy; [done |]; apply IH, Hf, Hy. Qed.

Lemma claim_rounds_young fuel now force claim billing dirty : preserves (young now force) (claim_rounds fuel now claim billing dirty).
Proof.
  revert dirty; induction fuel as [|fuel IH]; intros dirty; [by intros s a s' H |]; simpl.
  apply keeps_then; [tc_solve | apply keeps_select; tc_solve | intros rows].
  destruct (is_empty rows).
  - apply keeps_then; [tc_solve | apply keeps_execute; intros s Hy; by destruct dirty | intros _; apply keeps_commits; tc_solve].
  - apply keeps_then; [tc_solve | apply keeps_execute; intros s; apply young_fold; intros s1 x; apply young_alter; done | intros _].
    destruct (is_empty (List.filter _ _)); [apply IH |].
    apply keeps_then; [tc_solve | apply keeps_execute; intros s; apply young_fold; intros s1 x; by apply young_alter | intros _].
    apply keeps_then; [tc_solve | apply keeps_execute; intros s Hy; by destruct (_ || _) | intros _; apply keeps_commits; tc_solve].
Qed.
