(* ===== verification/UsageSettlement.v ===== *)
(** * The settlement before a deletion, over the ledger

    The calls of [UsageWorker]'s settlement as transactions of the ledger,
    among those of every other worker; each of its rounds closes a row, and no
    row opens. *)
From stdpp Require Import gmap.
From Stdlib Require Import ZArith Lia.
From S2P Require Import Prelude OrdMap Text Errors Bytes IsoTime Effects Tickets Vertex VertexFlow Txn AccountDb UsageDb UsageOutbox UsageWorker UsageLedger UsageQueue.
Local Open Scope Z_scope.
Local Open Scope kioku_scope.

Implicit Types s : Usage.

(** ** Open rows *)

(** A row that is not delivered, or that has not been settled. *)
Definition open_row (r : EventRow) : bool := bool_decide (u_outcome r = Started) || negb (u_delivered r).

Definition open_ids s : gset str := rows_with open_row s.

Lemma grows_closed r r' : grows r r' -> open_row r = false -> open_row r' = false.
Proof.
  intros [_ [H|[Hd H]]] [Ho Hn]%orb_false_iff; apply bool_decide_eq_false in Ho; [done |]; apply negb_false_iff in Hn.
  unfold open_row; rewrite (Hd Hn), orb_false_r; apply bool_decide_eq_false; destruct H as [[= -> _ _ _ _]|(_ & [= -> _ _ _ _] & _)]; [done | discriminate].
Qed.

(** A row that is settled stays so. *)
Lemma grows_settled r r' : grows r r' -> u_outcome r <> Started -> u_outcome r' <> Started.
Proof. intros [_ [H|[_ [[= -> _ _ _ _]|(_ & [= -> _ _ _ _] & _)]]]] Hn; [done | done | discriminate]. Qed.

Lemma open_shrinks s s' : remembers s s' -> status s <> Some (lit "active") -> open_ids s' ⊆ open_ids s.
Proof.
  intros (_ & Hd & He) Hn id (r' & Hr' & Ho)%elem_of_rows_with; apply elem_of_rows_with; destruct Hd as [?|Hd]; [done |].
  assert (Hin : id ∈ dom (events s)) by (apply Hd, elem_of_dom; by eexists).
  apply elem_of_dom in Hin as [r Hr]; exists r; split; [done |]; destruct (He id r Hr) as (r1 & Hr1 & Hg).
  rewrite Hr' in Hr1; injection Hr1 as <-; destruct (open_row r) eqn:E; [done |]; rewrite (grows_closed r r' Hg E) in Ho; done.
Qed.

(** ** Deliveries *)

Definition delivered_row (id : str) s : Prop := exists r, events s !! id = Some r /\ u_delivered r = true.

Lemma deliver_event_Ok now claim id s u s' : deliver_event now claim id s = Ok (u, s') -> delivered_row id s'.
Proof.
  unfold deliver_event; intros H; apply then_Ok in H as (row & s0 & [-> ->]%select_Ok & H); unfold delivered_row.
  destruct (events s !! id) as [r|] eqn:Hr; [destruct (claimed_by claim r) |]; all_txn.
  - eexists; split; [by simpl; rewrite lookup_alter_eq, Hr | done].
  - exists r; split; [done |]; match goal with E : negb _ = false |- _ => by apply negb_false_iff in E end.
  - match goal with E : negb _ = false |- _ => by apply negb_false_iff in E end.
Qed.

Lemma deliver_event_delivered now claim id k : preserves (delivered_row k) (deliver_event now claim id).
Proof.
  intros s u s' H (r & Hr & Hd); unfold deliver_event in H; apply then_Ok in H as (row & s0 & [-> ->]%select_Ok & H).
  destruct (match events s !! id with Some r => claimed_by claim r | None => false end); all_txn; [| by exists r].
  destruct (decide (id = k)) as [->|Hne].
  - eexists; split; [by simpl; rewrite lookup_alter_eq, Hr | done].
  - exists r; split; [by simpl; rewrite lookup_alter_ne | done].
Qed.

Lemma deliver_all_Ok now claim ids s u s' : for_each ids (deliver_event now claim) s = Ok (u, s') -> forall id, id ∈ ids -> delivered_row id s'.
Proof.
  revert s; induction ids as [|x ids IH]; intros s H id Hid; [by apply not_elem_of_nil in Hid |]; simpl in H.
  apply then_Ok in H as (u1 & s1 & H1 & H2); apply elem_of_cons in Hid as [->|Hid]; [| exact (IH _ H2 id Hid)].
  assert (K : preserves (delivered_row x) (for_each ids (deliver_event now claim))).
  { apply keeps_for_each; [tc_solve | intros y _; apply deliver_event_delivered]. }
  eapply K; [exact H2 | by eapply deliver_event_Ok].
Qed.

Lemma complete_delivery_Ok now claim ids s u s' : complete_delivery now claim ids s = Ok (u, s') -> forall id, id ∈ ids -> delivered_row id s'.
Proof. intros H id Hid; unfold complete_delivery in H; apply then_Ok in H as (u1 & s1 & H1 & H2); apply execute_Ok in H2 as ->; exact (deliver_all_Ok _ _ _ _ _ _ H1 id Hid). Qed.

(** ** Claims *)

Lemma pending_events_ends now claim billing force s :
  exists o s', pending_events now claim billing force s = Ok (o, s') /\ claimed_or_none now claim billing o s' /\ young now force s'.
Proof.
  unfold pending_events; destruct (rounds_end now claim billing (S (size (events (sweep_stale now force s)))) (any_stale now force s) (sweep_stale now force s))
    as (o & s' & H & Ho).
  { assert (H := rows_with_size (selectable now) (sweep_stale now force s)); lia. }
  exists o, s'; split_and!; [| done |].
  - unfold then_, select, execute; exact H.
  - eapply claim_rounds_young; [exact H | apply sweep_young].
Qed.

Lemma pending_events_Ok now claim billing force s o s' :
  pending_events now claim billing force s = Ok (o, s') -> claimed_or_none now claim billing o s' /\ young now force s'.
Proof.
  intros H; destruct (pending_events_ends now claim billing force s) as (o1 & s1 & H1 & Hc); rewrite H in H1; by injection H1 as <- <-.
Qed.

(** ** The trace of a settlement *)

Inductive SettleEvent :=
| Own (e : UsageWorker.Event)
| Other (u : UsageEvent).

(** The worker's transactions; a claim's id is made when it is asked for. *)
Definition worker_call (account : str) (e : UsageWorker.Event) : option (str -> UsageEvent) :=
  match e with
  | PendingEvents user billing force r => if str_eqb user account then Some (fun claim => UPending claim billing force r) else None
  | CompleteDelivery user claim ids r => if str_eqb user account then Some (fun _ => UDeliver claim ids r) else None
  | DeliveryFailure user claim ids r => if str_eqb user account then Some (fun _ => UFailure claim ids r) else None
  | PendingCoverage user billing r => if str_eqb user account then Some (fun claim => UCoverage claim billing r) else None
  | ReconcileCoverage user snapshot r => if str_eqb user account then Some (fun _ => UReconcile snapshot r) else None
  | PersistCoverage user claim predecessor replacement r => if str_eqb user account then Some (fun _ => UPersist claim predecessor replacement r) else None
  | CompleteCoverage user claim period sequence r => if str_eqb user account then Some (fun _ => UCovered claim period sequence r) else None
  | InvalidateCoverage user claim period sequence r => if str_eqb user account then Some (fun _ => UInvalidate claim period sequence r) else None
  | _ => None
  end.

Definition own (e : Z * SettleEvent) : option UsageWorker.Event := match e.2 with Own e => Some e | Other _ => None end.

(** The account is closed for good: nothing makes it active again. *)
Definition stays_closed (e : Z * SettleEvent) : Prop := e.2 <> Other (UStatus (Some (lit "active"))).

Lemma own_stays n e : stays_closed (n, Own e).
Proof. discriminate. Qed.

Section Settlement.
Context (sha256 : bytes -> bytes) (account : str).

Definition settle_moves s (e : Z * SettleEvent) s' : Prop :=
  match e.2 with
  | Own o => match worker_call account o with Some u => exists claim, usage_effect sha256 account e.1 (u claim) s s' | None => s' = s end
  | Other u => usage_effect sha256 account e.1 u s s'
  end.

Lemma settle_is_usage s e s' : settle_moves s e s' -> s' = s \/ exists u, usage_effect sha256 account e.1 u s s' /\ (forall st, u = UStatus st -> e.2 = Other u).
Proof.
  destruct e as [n [o|u]]; unfold settle_moves; simpl; [| right; by exists u].
  destruct (worker_call account o) as [f|] eqn:E; [| by left]; intros [claim H]; right; exists (f claim); split; [done |].
  intros st Hu; destruct o; simpl in E; try discriminate; destruct (str_eqb _ _); try discriminate; injection E as <-; discriminate.
Qed.

Lemma settle_closes s e s' :
  status s <> Some (lit "active") -> stays_closed e -> settle_moves s e s' -> status s' <> Some (lit "active") /\ open_ids s' ⊆ open_ids s.
Proof.
  intros Hn Hc [->|(u & H & Hu)]%settle_is_usage; [done |]; destruct (usage_remembers _ _ _ _ _ _ H) as [Hr|[st ->]].
  - split; [destruct Hr as [[E _] _]; by rewrite E | by apply open_shrinks].
  - unfold stays_closed in Hc; rewrite (Hu st eq_refl) in Hc; simpl in H; destruct st as [st|].
    + destruct H as [_ ->]; split; [simpl; congruence | done].
    + rewrite H; split; [done |]; intros id (r & Hr & _)%elem_of_rows_with; done.
Qed.

Lemma settles_close s h s' :
  status s <> Some (lit "active") -> Forall stays_closed h -> steps settle_moves s h s' -> status s' <> Some (lit "active") /\ open_ids s' ⊆ open_ids s.
Proof.
  intros Hn Hc Hs; induction Hs as [s|s e s1 h s2 Hm _ IH]; [done |]; apply Forall_cons in Hc as [Hc Hh].
  destruct (settle_closes s e s1 Hn Hc Hm) as [H1 O1]; destruct (IH H1 Hh) as [H2 O2]; set_solver.
Qed.

(** A row that is settled, if it is there. *)
Definition settled_row (id : str) s : Prop := forall r, events s !! id = Some r -> u_outcome r <> Started.

Lemma settled_step id s e s' :
  status s <> Some (lit "active") -> settled_row id s -> settle_moves s e s' -> settled_row id s'.
Proof.
  intros Hn Hg [->|(u & H & _)]%settle_is_usage r' Hr'; [by apply Hg |]; destruct (usage_remembers _ _ _ _ _ _ H) as [(_ & D & R)|[st ->]].
  - destruct D as [?|D]; [done |]; assert (Hin : id ∈ dom (events s)) by (apply D, elem_of_dom; by eexists).
    apply elem_of_dom in Hin as [r Hr]; destruct (R id r Hr) as (r1 & Hr1 & Hgr); rewrite Hr' in Hr1; injection Hr1 as <-.
    eapply grows_settled; [exact Hgr | by apply Hg].
  - simpl in H; destruct st as [st|]; [destruct H as [_ ->]; by apply Hg | by rewrite H in Hr'].
Qed.

Lemma settled_stays id s h s' :
  status s <> Some (lit "active") -> Forall stays_closed h -> settled_row id s -> steps settle_moves s h s' -> settled_row id s'.
Proof.
  intros Hn Hc Hg Hs; induction Hs as [s|s e s1 h s2 Hm _ IH]; [done |]; apply Forall_cons in Hc as [Hc Hh].
  apply IH; [by eapply settle_closes | done | by eapply settled_step].
Qed.

(** ** Rounds *)

Section Rounds.
Context (billing : str).

Definition round (b : ClaimedVertexUsageBatch * VertexUsageBatchResponse) : list UsageWorker.Event :=
  [PendingEvents account billing true (Ok (Some b.1)); ReportUsage (b_events b.1) (Ok b.2); CompleteDelivery account (b_claim b.1) (ids_of b.1) (Ok tt)].

(** A round claims a row that is open, and closes it. *)
Lemma claim_opens now claim s b s' :
  usage_effect sha256 account now (UPending claim billing true (Ok (Some b))) s s' ->
  exists id, id ∈ ids_of b /\ id ∈ open_ids s' /\ settled_row id s'.
Proof.
  intros [H%transact_Ok|(x & ? & _)]; [| done]; apply pending_events_Ok in H as [(_ & [Hl _] & Hb) _].
  destruct (b_events b) as [|e l] eqn:E; [simpl in Hl; lia |]; destruct (Hb e) as (_ & r & Hr & Hd & Ho & _); [left |].
  exists (v_event e); split_and!; [unfold ids_of; rewrite E; left | | intros r0 Hr0; congruence].
  apply elem_of_rows_with; exists r; split; [done |]; unfold open_row; by rewrite Hd, orb_true_r.
Qed.

Lemma round_closes t1 t2 b h2 s1 s2 s3 s4 :
  status s1 <> Some (lit "active") -> Forall stays_closed h2 ->
  settle_moves s1 (t1, Own (PendingEvents account billing true (Ok (Some b)))) s2 -> steps settle_moves s2 h2 s3 ->
  settle_moves s3 (t2, Own (CompleteDelivery account (b_claim b) (ids_of b) (Ok tt))) s4 ->
  status s4 <> Some (lit "active") /\ (size (open_ids s4) < size (open_ids s1))%nat.
Proof.
  intros Hn Hc H1 H2 H3; destruct (settle_closes _ _ _ Hn (own_stays _ _) H1) as [N2 O2].
  destruct (settles_close _ _ _ N2 Hc H2) as [N3 O3]; destruct (settle_closes _ _ _ N3 (own_stays _ _) H3) as [N4 O4].
  assert (E1 := H1); unfold settle_moves in E1; simpl in E1; rewrite str_eqb_refl in E1; destruct E1 as [claim E1].
  apply claim_opens in E1 as (id & Hid & Hop & Hset); split; [done |]; apply subset_size; split; [set_solver |]; intros Hsub.
  assert (S4 : settled_row id s4) by exact (settled_step id _ _ _ N3 (settled_stays id _ _ _ N2 Hc Hset H2) H3).
  unfold settle_moves in H3; simpl in H3; rewrite str_eqb_refl in H3; destruct H3 as [claim3 [H3%transact_Ok|(x & ? & _)]]; [| done].
  destruct (complete_delivery_Ok _ _ _ _ _ _ H3 id Hid) as (r & Hr & Hd).
  assert (Hin : id ∈ open_ids s4) by set_solver; apply elem_of_rows_with in Hin as (r' & Hr' & Ho); rewrite Hr in Hr'; injection Hr' as <-.
  unfold open_row in Ho; rewrite Hd, orb_false_r in Ho; apply bool_decide_eq_true in Ho; by apply (S4 r).
Qed.

Lemma own_inv h x l : omap own h = x :: l -> exists h1 n h2, h = h1 ++ (n, Own x) :: h2 /\ omap own h2 = l.
Proof.
  induction h as [|[n [e|u]] h IH]; intros E; [done | injection E as -> <-; by exists [], n, h |].
  destruct (IH E) as (h1 & m & h2 & -> & Hl); by exists ((n, Other u) :: h1), m, h2.
Qed.

Lemma rounds_close bs rest h s s' :
  status s <> Some (lit "active") -> Forall stays_closed h -> omap own h = concat (round <$> bs) ++ rest -> steps settle_moves s h s' ->
  (length bs <= size (open_ids s))%nat.
Proof.
  revert h s; induction bs as [|b bs IH]; intros h s Hn Hc E Hs; [simpl; lia |].
  apply own_inv in E as (h1 & t1 & h' & -> & (h2 & t2 & h'' & -> & (h3 & t3 & h4 & -> & E)%own_inv)%own_inv).
  apply Forall_app in Hc as [C1 [_ [C2 [_ [C3 [_ C4]%Forall_cons]%Forall_app]%Forall_cons]%Forall_app]%Forall_cons].
  apply steps_split in Hs as (s1 & s2 & S1 & M1 & Hs).
  replace (h2 ++ (t2, Own (ReportUsage (b_events b.1) (Ok b.2))) :: h3 ++ (t3, Own (CompleteDelivery account (b_claim b.1) (ids_of b.1) (Ok tt))) :: h4)
    with ((h2 ++ (t2, Own (ReportUsage (b_events b.1) (Ok b.2))) :: h3) ++ (t3, Own (CompleteDelivery account (b_claim b.1) (ids_of b.1) (Ok tt))) :: h4)
    in Hs by (by rewrite <- app_assoc).
  apply steps_split in Hs as (s3 & s4 & S3 & M3 & S4); destruct (settles_close _ _ _ Hn C1 S1) as [N1 O1].
  destruct (round_closes t1 t3 b.1 _ _ _ _ _ N1 ltac:(apply Forall_app; split; [exact C2 | constructor; [apply own_stays | exact C3]]) M1 S3 M3) as [N4 O4].
  specialize (IH _ _ N4 C4 E S4); apply subseteq_size in O1; simpl; lia.
Qed.
End Rounds.
End Settlement.

(** ** A settlement that is out of rounds *)

Section Calm.
Context {R : Type}.

(** A program that never panics. *)
Definition calm {A} (m : prog UsageWorker.Event R A) : Prop := forall h, (m h).1 <> Panicked.

Lemma calm_bind {A B} (m : prog UsageWorker.Event R A) (k : A -> prog UsageWorker.Event R B) : calm m -> (forall a, calm (k a)) -> calm (bind m k).
Proof. intros Hm Hk h; unfold bind; specialize (Hm h); destruct (m h) as [[a|r|] h']; [apply Hk | done | done]. Qed.

(** A panic comes from the part that can panic. *)
Lemma bind_panics {A B} (m : prog UsageWorker.Event R A) (k : A -> prog UsageWorker.Event R B) h :
  (forall a, calm (k a)) -> (bind m k h).1 = Panicked -> (m h).1 = Panicked /\ (bind m k h).2 = (m h).2.
Proof. intros Hk; unfold bind; destruct (m h) as [[a|r|] h']; [intros H; by destruct (Hk a h') | done | done]. Qed.

Lemma calm_done {A} (a : A) : calm (done_with a).
Proof. by intros h. Qed.

Lemma calm_return {A} (r : R) : calm (A := A) (return_ r).
Proof. by intros h. Qed.

Lemma calm_call {A} (event : A -> UsageWorker.Event) answer : calm (call event answer).
Proof. by intros h. Qed.
End Calm.

Lemma calm_try {R A} (m : prog UsageWorker.Event (res R) (res A)) : calm m -> calm (try_ m).
Proof. intros Hm; apply calm_bind; [done | intros [a|e]; [apply calm_done | apply calm_return]]. Qed.

Section Ends.
Context (env : UsageWorker.Env) (account billing : str).

Lemma calm_report {R} l : calm (R := R) (report_vertex_usage env l).
Proof. unfold report_vertex_usage; destruct (_ || _); [apply calm_done | apply calm_call]. Qed.

Lemma calm_fenced {A} message (r : result BillingError A) : calm (or_fenced message r).
Proof. destruct r as [a|[]]; first [apply calm_done | apply calm_return]. Qed.

Lemma calm_require {R} c e : calm (require (R := R) c e).
Proof. apply calm_try, calm_done. Qed.

Lemma calm_settle_batch b : calm (settle_batch env account b).
Proof.
  apply calm_bind; [apply calm_report | intros r]; apply calm_bind; [apply calm_fenced | intros r'].
  apply calm_bind; [apply calm_require | intros _]; apply calm_try, calm_call.
Qed.

Lemma calm_settle_coverage c : calm (settle_claimed_coverage env account c).
Proof.
  unfold settle_claimed_coverage; apply calm_bind; [apply calm_try, calm_call | intros anchor]; cbv zeta.
  apply calm_bind; [destruct (bool_decide _); [apply calm_done | apply calm_try, calm_call] | intros _].
  apply calm_bind; [apply calm_require | intros _]; apply calm_bind; [apply calm_call | intros r].
  apply calm_bind; [apply calm_fenced | intros r']; apply calm_bind; [apply calm_require | intros _]; apply calm_try, calm_call.
Qed.

Lemma calm_each {A} (l : list A) body : (forall x, calm (body x)) -> calm (R := res AccountDeletionSettlement) (each l body).
Proof. intros Hb; induction l as [|x l IH]; [apply calm_done |]; apply calm_bind; [apply Hb | intros _; apply IH]. Qed.

(** A round that goes on reported its batch and closed it. *)
Lemma settle_batch_goes_on b h a h' :
  settle_batch env account b h = (Continue a, h') ->
  exists r, h' = h ++ [ReportUsage (b_events b) (Ok r); CompleteDelivery account (b_claim b) (ids_of b) (Ok tt)].
Proof.
  unfold settle_batch, report_vertex_usage, bind; destruct (_ || _); [done |]; unfold call; cbn beta iota.
  destruct (env_report_usage env h) as [r|[]]; try done; unfold or_fenced, done_with; cbn beta iota.
  unfold require, try_pure, try_, refuse, bind, done_with; destruct (negb (accounts_for r _)); [done |].
  destruct (env_complete_delivery env _) as [[]|e] eqn:E; [| done]; intros [= _ <-]; exists r; by rewrite <- app_assoc.
Qed.

Lemma settle_batches_panics rounds h :
  (settle_batches env rounds account billing h).1 = Panicked ->
  exists bs, length bs = rounds /\ (settle_batches env rounds account billing h).2 = h ++ concat (round account billing <$> bs).
Proof.
  revert h; induction rounds as [|rounds IH]; intros h; simpl; [intros _; exists []; by rewrite app_nil_r |].
  unfold bind, try_, call, bind; cbn beta iota; destruct (env_pending_events env h) as [[b|]|e] eqn:E; try done; unfold done_with; cbn beta iota.
  destruct (settle_batch env account b (h ++ [_])) as [[[]|r|] h'] eqn:Eb; [| done | exfalso].
  - apply settle_batch_goes_on in Eb as (r & ->); intros Hp; destruct (IH _ Hp) as (bs & <- & ->); exists ((b, r) :: bs).
    split; [done |]; simpl; by rewrite <- !app_assoc.
  - assert (H := calm_settle_batch b (h ++ [PendingEvents account billing true (Ok (Some b))])); by rewrite Eb in H.
Qed.

Lemma settlement_panics rounds :
  (settle_for_account_deletion env rounds account billing []).1 = Panicked ->
  exists bs, length bs = rounds /\ (settle_for_account_deletion env rounds account billing []).2 = concat (round account billing <$> bs).
Proof.
  unfold settle_for_account_deletion; intros H; apply bind_panics in H as [H ->]; [by apply settle_batches_panics in H |]; intros _.
  apply calm_bind; [apply calm_try, calm_call | intros l]; apply calm_bind; [apply calm_each, calm_settle_coverage | intros _; apply calm_done].
Qed.
End Ends.
