(* ===== verification/UsageTheorems.v ===== *)
(** * What the usage ledger guarantees

    However generations interleave, an attempt is sent once; the ledger tells
    one story about it; a day's reservations fit in its limit; claiming ends;
    and the settlement before a deletion ends, but can overlook a claim. *)
From stdpp Require Import gmap.
From Stdlib Require Import ZArith Lia.
From S2P Require Import Prelude OrdMap Text Errors Bytes Json IsoTime Effects Interleave Tickets Vertex VertexFlow Txn AccountDb UsageDb UsageOutbox UsageWorker.
From S2P Require Import UsageLedger UsageWorld UsageQueue UsageSettlement.
Local Open Scope Z_scope.
Local Open Scope kioku_scope.

Implicit Types s : Usage.

(** ** Sending *)

(** C17: however the runs of generations interleave with each other and with
    everything else that uses the ledger, and wherever they stop, at most one
    request leaves for the attempts of one id. *)
Theorem attempt_is_sent_once sha256 to_vec account id runs h s s' :
  interleaves runs h -> (forall l, l ∈ runs -> run sha256 to_vec l) -> steps (world_moves sha256 account) s h s' ->
  (tally (executes sha256 id) h <= 1)%nat.
Proof.
  intros Hi Hr Hs; assert (H1 := sum_of_le _ _ runs (fun l Hl => run_sends sha256 to_vec id l (Hr l Hl))).
  rewrite <- !(interleaves_tally _ runs h Hi) in H1; assert (H2 := grants_counted sha256 account id s h s' Hs).
  assert (H3 := admitted_once sha256 account id _ _ _ (world_usage sha256 account s h s' Hs)); lia.
Qed.

(** ** Settling *)

(** What an event that answered settled. *)
Definition settlement (u : UsageEvent) : option (str * Settled) :=
  match u with
  | UResponse id metadata (Ok _) => Some (id, settled_response metadata)
  | UAmbiguous id http_status (Ok _) => Some (id, settled_simply Ambiguous false http_status)
  | UNotBilled id http_status (Ok _) => Some (id, settled_simply NotBilled true (Some http_status))
  | UPreEgress id (Ok _) => Some (id, settled_simply NotBilled true None)
  | _ => None
  end.

Definition of_response (o : UsageOutcome) : bool := match o with Metered | UsageMissing => true | _ => false end.

(** A row holds what was settled. *)
Definition holds (t : Settled) (r : EventRow) : Prop :=
  u_outcome r = t_outcome t /\ u_status r = t_status t
  /\ (of_response (t_outcome t) = true -> u_returned_model r = t_model t /\ u_traffic r = t_traffic t /\ u_counts r = t_counts t).

Lemma holds_recording t r r' : recording r' = recording r -> holds t r -> holds t r'.
Proof. intros [= Ho Hm Ht Hs Hc] (H1 & H2 & H3); split_and!; [congruence | congruence |]; intros Hr; destruct (H3 Hr) as (? & ? & ?); split_and!; congruence. Qed.

Lemma settled_response_outcome m : of_response (t_outcome (settled_response m)) = true /\ t_delivered (settled_response m) = false.
Proof. unfold settled_response; destruct (normalized_billable_response m) as [o [u|]]; done. Qed.

Lemma holds_unique u1 u2 id1 id2 t1 t2 r : settlement u1 = Some (id1, t1) -> settlement u2 = Some (id2, t2) -> holds t1 r -> holds t2 r -> t1 = t2.
Proof.
  assert (Hr : forall m t, t = settled_response m -> of_response (t_outcome t) = true /\ t_delivered t = false) by (intros m t ->; apply settled_response_outcome).
  assert (Hresp : forall t t', of_response (t_outcome t) = true -> of_response (t_outcome t') = true -> t_delivered t = t_delivered t' -> holds t r -> holds t' r -> t = t').
  { intros t t' R1 R2 Hd (A1 & A2 & A3) (B1 & B2 & B3); destruct (A3 R1) as (? & ? & ?), (B3 R2) as (? & ? & ?); destruct t, t'; simpl in *; congruence. }
  assert (Hk : forall u id t, settlement u = Some (id, t) -> of_response (t_outcome t) = true /\ t_delivered t = false
    \/ (exists o d st, t = settled_simply o d st /\ (o = Ambiguous /\ d = false \/ o = NotBilled /\ d = true))).
  { intros u id t H; destruct u; try done; destruct r0; try done; injection H as <- <-; [left; apply settled_response_outcome | right; eauto 8 ..]. }
  intros H1 H2 R1 R2; destruct (Hk _ _ _ H1) as [[A1 D1]|(o1 & d1 & st1 & -> & C1)], (Hk _ _ _ H2) as [[A2 D2]|(o2 & d2 & st2 & -> & C2)].
  - apply Hresp; congruence.
  - destruct R1 as (E1 & _), R2 as (E2 & _); simpl in E2; rewrite E1 in E2; rewrite E2 in A1; destruct C2 as [[-> _]|[-> _]]; done.
  - destruct R1 as (E1 & _), R2 as (E2 & _); simpl in E1; rewrite E1 in E2; rewrite <- E2 in A2; destruct C1 as [[-> _]|[-> _]]; done.
  - destruct R1 as (E1 & S1 & _), R2 as (E2 & S2 & _); simpl in *; unfold settled_simply; destruct C1 as [[-> ->]|[-> ->]], C2 as [[-> ->]|[-> ->]]; congruence.
Qed.

Lemma settle_Ok now id t write holds0 different s u s' :
  settle now id t write holds0 different s = Ok (u, s') ->
  exists r, events s !! id = Some r
    /\ (u_outcome r = Started /\ events s' !! id = Some (write r) \/ u_outcome r <> Started /\ holds0 r = true /\ events s' !! id = Some r).
Proof.
  unfold settle; intros H; apply then_Ok in H as (row & s0 & [-> ->]%select_Ok & H); apply then_Ok in H as (u1 & s1 & H1 & ->%execute_Ok).
  destruct (events s !! id) as [r|] eqn:Hr; [| done]; exists r; split; [done |]; change (events (refresh_coverage now s1)) with (events s1).
  destruct (bool_decide (u_outcome r = Started)) eqn:E.
  - left; apply bool_decide_eq_true in E; split; [done |]; all_txn; simpl; by rewrite lookup_alter_eq, Hr.
  - right; apply bool_decide_eq_false in E; all_txn; match goal with X : negb _ = false |- _ => apply negb_false_iff in X end; done.
Qed.

Lemma holds_response_true t r : holds_response t r = true -> holds t r.
Proof.
  unfold holds_response, matches_response; intros [[[[A C]%andb_true_iff D]%andb_true_iff E]%andb_true_iff B]%andb_true_iff.
  apply bool_decide_eq_true in A, B, C, E; apply str_eqb_eq in D; by split_and!.
Qed.

Lemma holds_outcome_true t r : of_response (t_outcome t) = false -> holds_outcome t r = true -> holds t r.
Proof.
  unfold holds_outcome; intros Ht [[[[[A _]%andb_true_iff B]%andb_true_iff _]%andb_true_iff _]%andb_true_iff _]%andb_true_iff.
  apply bool_decide_eq_true in A, B; split_and!; [done | done | congruence].
Qed.

(** A settlement that answers: the row holds it, and held it if it was
    settled before. *)
Lemma settlement_holds sha256 account now u s s' id t :
  usage_effect sha256 account now u s s' -> settlement u = Some (id, t) ->
  exists r r', events s !! id = Some r /\ events s' !! id = Some r' /\ holds t r' /\ u_outcome r' <> Started /\ (u_outcome r <> Started -> r' = r).
Proof.
  assert (Hs : forall write holds0 different x, settle now id t write holds0 different s = Ok (x, s') -> t_outcome t <> Started ->
    (forall r, holds t (write r)) -> (forall r, holds0 r = true -> holds t r) ->
    exists r r', events s !! id = Some r /\ events s' !! id = Some r' /\ holds t r' /\ u_outcome r' <> Started /\ (u_outcome r <> Started -> r' = r)).
  { intros write holds0 different x H Hn Hw Hh; apply settle_Ok in H as (r & Hr & [[Ho Hr']|(Ho & Hx & Hr')]).
    - exists r, (write r); split_and!; [done | done | done | destruct (Hw r) as [-> _]; done | done].
    - exists r, r; split_and!; auto. }
  assert (Hsim : forall o d st, o <> Started -> of_response o = false -> t = settled_simply o d st ->
    forall x, settle_simple_outcome now id t s = Ok (x, s') ->
    exists r r', events s !! id = Some r /\ events s' !! id = Some r' /\ holds t r' /\ u_outcome r' <> Started /\ (u_outcome r <> Started -> r' = r)).
  { intros o d st Hn Ho -> x H; eapply Hs; [exact H | done | |].
    - intros r; split_and!; [done | done | simpl; congruence].
    - intros r; by apply holds_outcome_true. }
  intros H Hset; destruct u; try done; destruct r as [[]|]; try done; injection Hset as -> <-; simpl in H; destruct H as [H%transact_Ok|(e & ? & _)]; try done.
  - destruct (settled_response_outcome metadata) as [Ho _]; eapply Hs; [exact H | intros E; by rewrite E in Ho | |].
    + intros r; split_and!; done.
    + intros r; apply holds_response_true.
  - by eapply Hsim; [| | reflexivity | exact H].
  - by eapply Hsim; [| | reflexivity | exact H].
  - by eapply Hsim; [| | reflexivity | exact H].
Qed.

Definition keeps_account (e : Z * UsageEvent) : Prop := e.2 <> UStatus None.

Lemma rows_grow sha256 account s h s' :
  Forall keeps_account h -> steps (usage_moves sha256 account) s h s' ->
  forall id r, events s !! id = Some r -> exists r', events s' !! id = Some r' /\ grows r r'.
Proof.
  intros Hk Hs; induction Hs as [s|s [now e] s1 h s2 Hm _ IH]; intros id r Hr; [by exists r |]; apply Forall_cons in Hk as [Hk Hh].
  assert (exists r1, events s1 !! id = Some r1 /\ grows r r1) as (r1 & H1 & G1).
  { destruct (usage_remembers _ _ _ _ _ _ Hm) as [(_ & _ & He)|[[st|] E]]; [by apply He | | simpl in E; by subst].
    simpl in E; subst e; destruct Hm as [_ ->]; by exists r. }
  destruct (IH Hh id r1 H1) as (r2 & H2 & G2); exists r2; split; [done | by transitivity r1].
Qed.

Lemma drops_stays r r1 r2 : drops r r1 -> grows r1 r2 -> drops r r2.
Proof.
  intros (Hs & Hl & Hd) [_ [H|[Hd' H]]]; destruct (leavings_leave _ _ Hl) as [Ho El]; [congruence |].
  split_and!; [done | | auto]; destruct H as [H|(_ & H & _)]; congruence.
Qed.

(** The settlement that agrees with what is left of a row that was dropped. *)
Definition settled_as_left (r : EventRow) : Settled :=
  {| t_outcome := UsageMissing; t_model := None; t_traffic := u_traffic r; t_status := u_status r; t_counts := no_counts; t_delivered := false |}.

Lemma holds_leavings u id t r r' : settlement u = Some (id, t) -> holds t r' -> recording r' = leavings r -> t = settled_as_left r.
Proof.
  intros Hu (H1 & H2 & H3) [= Ho Hm Ht Hs Hc]; assert (Hd : t_outcome t = UsageMissing) by congruence.
  rewrite Hd in H3; destruct (H3 eq_refl) as (E1 & E2 & E3).
  assert (t_delivered t = false) by (destruct u; try done; destruct r0; try done; injection Hu as <- <-; [apply settled_response_outcome | simpl in Hd; discriminate ..]).
  unfold settled_as_left; destruct t; simpl in *; congruence.
Qed.

(** C18: while the account lasts, two settlements of an invocation that answer
    settled the same, whoever made them, with one exception: what the first
    left recorded is a row billing does not take, since a model it names is
    not safe or it is metered without one.  That row was then dropped before
    the second settlement, which agrees with exactly what dropping left. *)
Theorem settlements_agree sha256 account s h1 n1 u1 s1 h2 n2 u2 h3 s' id t1 t2 :
  steps (usage_moves sha256 account) s (h1 ++ [(n1, u1)]) s1 -> steps (usage_moves sha256 account) s1 (h2 ++ (n2, u2) :: h3) s' ->
  Forall keeps_account (h2 ++ (n2, u2) :: h3) -> settlement u1 = Some (id, t1) -> settlement u2 = Some (id, t2) ->
  t1 = t2 \/ exists r1 r', events s1 !! id = Some r1 /\ holds t1 r1 /\ t2 = settled_as_left r1 /\ events s' !! id = Some r' /\ drops r1 r'.
Proof.
  intros Hs Hs' [K2 [_ K3]%Forall_cons]%Forall_app H1 H2.
  apply steps_split in Hs as (s0 & s1' & _ & M1 & Hnil); inversion Hnil; subst; apply steps_split in Hs' as (s3 & s4 & S2 & M2 & S3).
  destruct (settlement_holds _ _ _ _ _ _ _ _ M1 H1) as (r0 & r1 & _ & E1 & T1 & N1 & _).
  destruct (rows_grow _ _ _ _ _ K2 S2 id r1 E1) as (r2 & E2 & G2).
  destruct (settlement_holds _ _ _ _ _ _ _ _ M2 H2) as (r2' & r3 & E2' & E3 & T2 & N2 & Hsame); rewrite E2 in E2'; injection E2' as <-.
  assert (r3 = r2) as -> by (by apply Hsame, (grows_settled r1)).
  destruct G2 as [_ [?|[_ [Hrec|Hdrop]]]]; [done | left | right].
  - eapply holds_unique; [exact H1 | exact H2 | by eapply holds_recording | done].
  - destruct (rows_grow _ _ _ _ _ K3 S3 id r2 E3) as (r4 & E4 & G4); exists r1, r4; split_and!; [done | done | | done | by eapply drops_stays].
    by eapply holds_leavings, Hdrop.
Qed.

(** ** Reserving *)

(** What an event that answered reserved of a day, of some classes. *)
Definition granted_tokens (counted : VertexWorkClass -> bool) (day : Z) (e : Z * UsageEvent) : Z :=
  match e.2 with
  | UReserve class requested _ (Ok true) => if counted class && (day_of e.1 =? day) then requested else 0
  | _ => 0
  end.

Definition granted_total (counted : VertexWorkClass -> bool) (day : Z) (h : list (Z * UsageEvent)) : Z := foldr Z.add 0 (granted_tokens counted day <$> h).

Definition any_class (class : VertexWorkClass) : bool := true.
Definition only_class (class other : VertexWorkClass) : bool := bool_decide (class = other).

(** The share of a class, in percent. *)
Definition share (class : VertexWorkClass) : Z := match class with Audio => 50 | Screen | DerivedText => 25 end.

Definition has_limit (limit : Z) (e : Z * UsageEvent) : Prop :=
  match e.2 with UReserve _ _ l _ => l = limit | _ => True end.

Lemma granted_snoc counted day h e : granted_total counted day (h ++ [e]) = granted_total counted day h + granted_tokens counted day e.
Proof.
  unfold granted_total; rewrite fmap_app, foldr_app; cbn [fmap list_fmap foldr]; generalize (granted_tokens counted day e) as z; intros z.
  generalize (granted_tokens counted day <$> h) as l; induction l as [|x l IH]; cbn [foldr]; lia.
Qed.

Lemma protected_within class limit : 0 <= limit -> 100 * protected_limit class limit <= share class * limit.
Proof.
  intros Hl; unfold protected_limit, I64.clamp, I64.min_value, I64.max_value.
  assert (H : forall p, 0 <= p -> 100 * (Z.max (- 2 ^ 63) (Z.min (2 ^ 63 - 1) (limit * p)) ÷ 100) <= p * limit).
  { intros p Hp; assert (0 <= limit * p) by (by apply Z.mul_nonneg_nonneg); set (x := Z.max _ _); assert (0 <= x <= limit * p) by (unfold x; lia).
    rewrite Z.quot_div_nonneg by lia; lia. }
  destruct class; by apply H.
Qed.

Lemma reserve_class c class requested d :
  class_output c (reserve_row class requested d) = class_output c d + (if only_class c class then requested else 0).
Proof.
  unfold only_class; case_bool_decide as E; [subst; destruct class; simpl; lia |]; destruct c, class; simpl; try lia; by destruct E.
Qed.

Section Reservations.
Context (day limit : Z).

(** What was granted is in the row of the day, while there is one. *)
Definition accounted (h : list (Z * UsageEvent)) s : Prop :=
  (status s = None \/ granted_total any_class day h <= dl_output (day_row day s)
     /\ forall class, granted_total (only_class class) day h <= class_output class (day_row day s))
  /\ granted_total any_class day h <= limit /\ forall class, 100 * granted_total (only_class class) day h <= share class * limit.

Definition is_grant (u : UsageEvent) : bool := match u with UReserve _ _ _ (Ok true) => true | _ => false end.

Lemma no_grant counted now u : is_grant u = false -> granted_tokens counted day (now, u) = 0.
Proof. destruct u as [| | | | | | | | | | | | | | |class q l [[]|]]; done. Qed.

Lemma accounted_grant sha256 account now class requested h s s' :
  0 <= limit -> accounted h s -> usage_effect sha256 account now (UReserve class requested limit (Ok true)) s s' ->
  accounted (h ++ [(now, UReserve class requested limit (Ok true))]) s'.
Proof.
  intros Hl (Hrow & Hb & Hc) [H%transact_Ok|(e & ? & _)]; [| done].
  apply reserve_Ok in H as [[? _]|(_ & Hq & [st Hst] & Hd)]; [done |]; cbv zeta in Hd; destruct Hd as (F1 & F2 & ->).
  unfold accounted; setoid_rewrite granted_snoc; unfold granted_tokens; simpl; destruct (Z.eqb_spec (day_of now) day) as [E|E].
  - rewrite E in *; destruct Hrow as [?|[R1 R2]]; [congruence |]; rewrite day_row_set, bool_decide_eq_true_2 by done; cbn [any_class andb].
    assert (HP := protected_within class limit Hl); split_and!; [right; split; [simpl; lia |] | lia |]; intros c; specialize (R2 c); specialize (Hc c).
    + rewrite reserve_class, andb_true_r; lia.
    + rewrite andb_true_r; unfold only_class in *; case_bool_decide; [subst | ]; lia.
  - rewrite day_row_set, bool_decide_eq_false_2 by done; rewrite ?andb_false_r; split_and!; [| lia |].
    + destruct Hrow as [?|[R1 R2]]; [congruence |]; right; split; [lia |]; intros c; rewrite ?andb_false_r; specialize (R2 c); lia.
    + intros c; rewrite ?andb_false_r; specialize (Hc c); lia.
Qed.

Lemma accounted_step sha256 account h s e s' :
  0 <= limit -> has_limit limit e -> accounted h s -> usage_moves sha256 account s e s' -> accounted (h ++ [e]) s'.
Proof.
  destruct e as [now u]; intros Hl Hu Ha Hm; destruct (is_grant u) eqn:G.
  - destruct u as [| | | | | | | | | | | | | | |class q l [[]|]]; try done; unfold has_limit in Hu; simpl in Hu; subst l; exact (accounted_grant sha256 account now class q h s s' Hl Ha Hm).
  - destruct Ha as (Hrow & Hb & Hc); assert (Hg : forall cl, granted_total cl day (h ++ [(now, u)]) = granted_total cl day h)
      by (intros cl; rewrite granted_snoc, (no_grant cl now u G); lia).
    split; [| split; [by rewrite Hg | intros c; by rewrite Hg]]; assert (HR := usage_remembers sha256 account now u s s' Hm); destruct HR as [([S1 R] & _ & _)|[st ->]].
    + destruct Hrow as [?|[R1 R2]]; [left; congruence | right]; destruct (R day) as [D1 D2]; rewrite Hg; split; [lia |]; intros c; rewrite Hg; specialize (R2 c); specialize (D2 c); lia.
    + change (status_changes st s s') in Hm; destruct st as [st|]; [| left; by rewrite Hm]; destruct Hm as [[st0 E] ->]; destruct Hrow as [?|[R1 R2]]; [congruence | right].
      rewrite Hg; split; [done |]; intros c; rewrite Hg; apply R2.
Qed.
End Reservations.

(** C28: what reservations are granted of a day is within the daily limit, and
    what each class is granted is within its share of it: half for audio, a
    quarter each for screens and derived text. *)
Theorem reservations_within_limit sha256 account s h s' limit day :
  new_usage s -> 0 <= limit -> Forall (has_limit limit) h -> steps (usage_moves sha256 account) s h s' ->
  granted_total any_class day h <= limit /\ forall class, 100 * granted_total (only_class class) day h <= share class * limit.
Proof.
  intros (_ & _ & _ & _ & Hd) Hl Hh Hs.
  assert (K : Forall (has_limit limit) h -> accounted day limit h s').
  { clear Hh; revert h s' Hs; apply (steps_invariant (usage_moves sha256 account) (fun h s' => Forall (has_limit limit) h -> accounted day limit h s')).
    - intros _; unfold accounted, granted_total, day_row; rewrite Hd, lookup_empty; simpl; split_and!; [right; split; [lia | intros []; simpl; lia] | done | intros []; simpl; lia].
    - intros h s1 e s2 IH Hm [Hh He]%Forall_app; apply (accounted_step day limit sha256 account h s1 e s2 Hl); [by apply List.Forall_inv in He | by apply IH | done]. }
  destruct (K Hh) as (_ & H1 & H2); done.
Qed.

(** ** Claiming *)

(** Claiming events ends with an answer; what it claims is a batch of at
    most a hundred events billing takes, each of a settled row that was not
    delivered and is now the claim's for two minutes; when it claims nothing,
    every row is delivered, or claimed by another, or started less than three
    minutes ago, and not even that when admission is closed. *)
Theorem pending_events_settle_or_claim now claim billing force s :
  exists o s', pending_events now claim billing force s = Ok (o, s')
  /\ match o with
     | Some b => claims_batch now claim billing b s'
     | None => forall id r, events s' !! id = Some r ->
         u_delivered r = true \/ (exists other until, u_claim r = Some (other, until) /\ now < until)
         \/ u_outcome r = Started /\ force = false /\ now - 3 * 60 * 1000000 < u_observed r
     end.
Proof.
  destruct (pending_events_ends now claim billing force s) as (o & s' & H & Hc & Hy); exists o, s'; split; [done |].
  destruct o as [b|]; [done |]; intros id r Hr; specialize (Hc id r Hr); unfold selectable in Hc.
  destruct (u_delivered r); [by left | right]; destruct (decide (u_outcome r = Started)) as [Ho|Ho].
  - right; assert (Hs := Hy id r Hr Ho); unfold stale in Hs; rewrite bool_decide_eq_true_2 in Hs by done; simpl in Hs.
    apply orb_false_iff in Hs as [-> Hs]; apply Z.leb_gt in Hs; by split_and!.
  - left; rewrite bool_decide_eq_false_2 in Hc by done; simpl in Hc; destruct (u_claim r) as [[c until]|]; [| done]; exists c, until; split; [done |].
    simpl in Hc; by apply Z.leb_gt in Hc.
Qed.

(** ** Before a deletion *)

(** C26: once an account admits nothing new, the settlement before its deletion
    ends by itself, whatever the other workers do meanwhile: it asks for at
    most one batch more than there are rows still open. *)
Theorem deletion_settlement_ends sha256 account env billing rounds s h s' :
  status s <> Some (lit "active") -> Forall stays_closed h -> steps (settle_moves sha256 account) s h s' ->
  omap own h = (settle_for_account_deletion env rounds account billing []).2 -> (size (open_ids s) < rounds)%nat ->
  (settle_for_account_deletion env rounds account billing []).1 <> Panicked.
Proof.
  intros Hn Hc Hs Ho Hr Hp; apply settlement_panics in Hp as (bs & <- & E); rewrite E, <- (app_nil_r (concat _)) in Ho.
  assert (H := rounds_close sha256 account billing bs [] h s s' Hn Hc Ho Hs); lia.
Qed.

(** Nothing to claim. *)
Lemma overlooked now claim billing s :
  (forall id r, events s !! id = Some r ->
     u_outcome r <> Started /\ (u_delivered r = true \/ exists other until, u_claim r = Some (other, until) /\ now < until)) ->
  transact (pending_events now claim billing true) s = (Ok None, s) /\ none_selectable now s.
Proof.
  intros Hrows; assert (Hst : forall id r, events s !! id = Some r -> stale now true r = false).
  { intros id r Hr; destruct (Hrows id r Hr) as [Ho _]; unfold stale; by rewrite bool_decide_eq_false_2. }
  assert (Hsw : sweep_stale now true s = s).
  { destruct s as [st ev co an da]; unfold sweep_stale, set_events; simpl in *; f_equal; apply map_eq; intros id; rewrite lookup_fmap.
    destruct (ev !! id) as [r|] eqn:Hr; [| done]; simpl; by rewrite (Hst id r Hr). }
  assert (Hany : any_stale now true s = false).
  { apply not_true_iff_false; unfold any_stale; intros (k & r & Hr & Hs)%some_row_true; simpl in Hs; by rewrite (Hst k r Hr) in Hs. }
  assert (Hsel : none_selectable now s).
  { intros id r Hr; destruct (selectable now r) eqn:E; [| done]; apply selectable_row in E as (Hd & _ & Hcl).
    destruct (Hrows id r Hr) as [_ [?|(other & until & Hc & Hlt)]]; [congruence |]; rewrite Hc in Hcl; simpl in Hcl; apply Z.leb_le in Hcl; lia. }
  split; [| done]; assert (Hn : next_rows now s = []).
  { destruct (next_rows now s) as [|[id r] l] eqn:E; [done |]; assert (Hin : (id, r) ∈ next_rows now s) by (rewrite E; left).
    apply next_rows_elem in Hin as [Hr Hs]; by rewrite (Hsel id r Hr) in Hs. }
  unfold transact, pending_events, then_, select, execute; rewrite Hany, Hsw; simpl; by unfold then_, select; rewrite Hn.
Qed.

(** Nothing to report. *)
Lemma reported now claim billing s c :
  coverage s !! period_of now = Some c -> c_delivered c = true ->
  exists s', transact (pending_coverage now claim billing) s = (Ok [], s') /\ events s' = events s.
Proof.
  intros Hc Hd; exists (open_period now (close_periods now s)); split; [| done].
  unfold transact, pending_coverage, then_, execute, select; assert (E : coverage (open_period now (close_periods now s)) !! period_of now = Some c).
  { assert (Hirr : ord_ltb (period_of now) (period_of now) = false) by (unfold ord_ltb; by rewrite cmp_refl).
    assert (E1 : coverage (close_periods now s) !! period_of now = Some c).
    { unfold close_periods, set_coverage; cbn [coverage]; rewrite map_lookup_imap, Hc; cbn [mbind option_bind]; by rewrite Hirr. }
    unfold open_period, set_coverage; cbn [coverage]; by rewrite E1. }
  rewrite E, Hd; done.
Qed.

(** C27: the settlement before a deletion can overlook events: when each one
    that is not delivered is under another worker's claim and the month's
    coverage was reported, it finds nothing to claim and nothing to report,
    and answers that it is complete. *)
Theorem deletion_settlement_overlooks_claims env billing account rounds now1 now2 claim1 claim2 s c :
  (forall id r, events s !! id = Some r ->
     u_outcome r <> Started /\ (u_delivered r = true \/ exists other until, u_claim r = Some (other, until) /\ now1 < until)) ->
  coverage s !! period_of now2 = Some c -> c_delivered c = true ->
  let claimed := transact (pending_events now1 claim1 billing true) s in
  let covered := transact (pending_coverage now2 claim2 billing) claimed.2 in
  env_pending_events env [] = claimed.1 -> env_pending_coverage env [PendingEvents account billing true claimed.1] = covered.1 ->
  settle_for_account_deletion env (S rounds) account billing []
    = (Continue (Ok Complete), [PendingEvents account billing true (Ok None); PendingCoverage account billing (Ok [])])
  /\ events covered.2 = events s.
Proof.
  intros Hrows Hcov Hdel claimed covered H1 H2.
  destruct (overlooked now1 claim1 billing s Hrows) as (E1 & _); destruct (reported now2 claim2 billing s c Hcov Hdel) as (s2 & E2 & Es).
  unfold covered, claimed in *; rewrite E1 in *; simpl in *; rewrite E2 in *; simpl in *; split; [| done].
  unfold settle_for_account_deletion; simpl; unfold bind, try_, call, bind; cbn beta iota; by rewrite H1; unfold done_with; simpl; rewrite H2.
Qed.

(** ** Concrete inputs *)

Definition no_digest (l : bytes) : bytes := repeat 0%N 32.
Definition no_bytes (v : Value) : option bytes := Some [].
Definition the_account : str := lit "u1".
Definition the_attempt : bytes := [1%N].
Definition the_event : str := vertex_attempt_event_id no_digest the_attempt.

(** 1 November 2025, in microseconds. *)
Definition start : Z := 20393 * MICROS_PER_DAY.
Definition second : Z := 1000000.

Definition new_account : Usage := {| status := Some (lit "active"); events := ∅; coverage := ∅; anchors := ∅; daily := ∅ |}.

Lemma new_account_new : new_usage new_account.
Proof. split_and!; [by eexists | done ..]. Qed.

(** Two runs for one attempt: the first sends, the second is refused. *)
Definition the_config : VertexConfig := {| cfg_project := lit "p"; cfg_location := lit "global"; cfg_model := lit "m" |}.

Definition the_request : CustomTextGenerationRequest :=
  {| r_operation := EpisodeSummary; r_system := []; r_user_message := []; r_schema := Null; r_max_output_tokens := 100; r_model := lit "m" |}.

Definition answering (a : VertexInvocationAdmission) : VertexFlow.Env :=
  {| account_active := fun _ => Ok true; client_built := fun _ => Ok tt; access_token := fun _ => Ok (lit "t"); request_built := fun _ => Ok tt;
     VertexFlow.begin_invocation := fun _ => Err Postgres;
     VertexFlow.begin_invocation_attempt := fun _ => Ok {| attempt_event_id := the_event; admission := a |};
     VertexFlow.execute := fun _ => Ok 200; response_json := fun _ => Ok Null; VertexFlow.settle_ambiguous := fun _ => Ok tt;
     VertexFlow.settle_not_billed := fun _ => Ok tt; VertexFlow.settle_pre_egress_not_billed := fun _ => Ok tt;
     VertexFlow.settle_response := fun _ => Ok tt |}.

Definition the_generation (a : VertexInvocationAdmission) : list VertexFlow.Event :=
  (generate_custom_with_model_inner no_digest no_bytes the_config (answering a) the_request (Durable the_attempt) Current []).2.

Definition the_run (now : Z) (a : VertexInvocationAdmission) : list (Z * WorldEvent) :=
  pair now <$> (OfCall (Durable the_attempt) <$> the_generation a).

Lemma the_run_runs now a : run no_digest no_bytes (the_run now a).
Proof.
  apply (run_generation _ _ the_config (answering a) the_request (Durable the_attempt) Current); exists (the_generation a), []; split.
  - by rewrite app_nil_r.
  - unfold the_run; by rewrite <- list_fmap_compose, list_fmap_id.
Qed.

Definition two_runs : list (list (Z * WorldEvent)) := [the_run start Send; the_run (start + second) LedgerAmbiguous].

#[local] Instance admission_eq_dec : EqDecision VertexInvocationAdmission.
Proof. solve_decision. Defined.

#[local] Instance attempt_eq_dec : EqDecision VertexInvocationAttempt.
Proof. solve_decision. Defined.

(** The store after an event that is no transaction, or one that succeeds. *)
Definition run_event (s : Usage) (e : Z * WorldEvent) : option Usage :=
  match as_usage e.2 with
  | None => Some s
  | Some (UAttempt operation model location anchor identity (Ok answer)) =>
    match transact (begin_invocation_attempt no_digest e.1 the_account operation model location anchor identity) s with
    | (Ok (Ok a), s') => if bool_decide (a = answer) then Some s' else None
    | _ => None
    end
  | Some (UResponse id metadata (Ok tt)) => match transact (settle_response e.1 id metadata) s with (Ok tt, s') => Some s' | _ => None end
  | Some _ => None
  end.

Lemma run_event_moves s e s' : run_event s e = Some s' -> world_moves no_digest the_account s e s'.
Proof.
  destruct e as [now e]; unfold run_event, world_moves, timed_usage; simpl; destruct (as_usage e) as [u|]; [| by intros [= ->]].
  destruct u as [| | operation model location anchor identity [answer|] | id metadata [[]|] | | | | | | | | | | | |]; try done; intros H; simpl.
  - destruct (transact _ s) as [[[a|]|] s1] eqn:E; try done; case_bool_decide; [subst | done]; injection H as ->.
    by exists (Ok (Ok answer)); split; [left |].
  - destruct (transact _ s) as [[[]|] s1] eqn:E; try done; injection H as ->; by left.
Qed.

Fixpoint run_events (s : Usage) (h : list (Z * WorldEvent)) : option Usage :=
  match h with [] => Some s | e :: h => match run_event s e with Some s1 => run_events s1 h | None => None end end.

Lemma run_events_steps h s s' : run_events s h = Some s' -> steps (world_moves no_digest the_account) s h s'.
Proof.
  revert s; induction h as [|e h IH]; intros s H; simpl in H; [injection H as ->; constructor |].
  destruct (run_event s e) as [s1|] eqn:E; [| done]; econstructor; [by apply run_event_moves | by apply IH].
Qed.

Definition replayed_account : Usage := default new_account (run_events new_account (concat two_runs)).

Lemma two_runs_happen : run_events new_account (concat two_runs) = Some replayed_account.
Proof. vm_compute; reflexivity. Qed.

Lemma attempt_is_sent_once_witness :
  tally (executes no_digest the_event) (concat two_runs) = 1%nat /\ (tally (executes no_digest the_event) (concat two_runs) <= 1)%nat.
Proof.
  split; [vm_compute; reflexivity |].
  refine (attempt_is_sent_once no_digest no_bytes the_account the_event two_runs (concat two_runs) new_account replayed_account
    (interleaves_sequence two_runs) _ (run_events_steps _ _ _ two_runs_happen)).
  intros l [->|[->|Hl]%elem_of_cons]%elem_of_cons; [apply the_run_runs | apply the_run_runs | by apply not_elem_of_nil in Hl].
Defined.

(** ** Transactions and their answers *)

Definition reply {A} (m : txn Usage A) (event : res A -> UsageEvent) (s : Usage) : UsageEvent * Usage :=
  let '(r, s') := transact m s in (event r, s').

(** An event with the answer the ledger gives; deleting the account is not
    asked for. *)
Definition ask (now : Z) (u : UsageEvent) (s : Usage) : UsageEvent * Usage :=
  match u with
  | UAttempt operation model location anchor identity _ =>
    reply (begin_invocation_attempt no_digest now the_account operation model location anchor identity)
      (fun r => UAttempt operation model location anchor identity (flatten r)) s
  | UResponse id metadata _ => reply (settle_response now id metadata) (UResponse id metadata) s
  | UPending claim billing force _ => reply (pending_events now claim billing force) (UPending claim billing force) s
  | UDeliver claim ids _ => reply (complete_delivery now claim ids) (UDeliver claim ids) s
  | UCoverage claim billing _ => reply (pending_coverage now claim billing) (UCoverage claim billing) s
  | UCovered claim period sequence _ => reply (complete_coverage now claim period sequence) (UCovered claim period sequence) s
  | UReserve class requested limit _ => reply (reserve_vertex_output_tokens_for_class now class requested limit) (UReserve class requested limit) s
  | UStatus (Some st) =>
    match status s with
    | Some _ => (u, {| status := Some st; events := events s; coverage := coverage s; anchors := anchors s; daily := daily s |})
    | None => (UStatus None, {| status := None; events := ∅; coverage := ∅; anchors := ∅; daily := ∅ |})
    end
  | _ => (UStatus None, {| status := None; events := ∅; coverage := ∅; anchors := ∅; daily := ∅ |})
  end.

Lemma reply_answers {A} (m : txn Usage A) event (s : Usage) (P : UsageEvent -> Usage -> Prop) :
  (forall r s', answers m r s s' -> P (event r) s') -> P (reply m event s).1 (reply m event s).2.
Proof. intros H; unfold reply; destruct (transact m s) as [r s'] eqn:E; apply H; by left. Qed.

Lemma ask_effect now u s : usage_effect no_digest the_account now (ask now u s).1 s (ask now u s).2.
Proof.
  destruct u as [[st|]| | | | | | | | | | | | | | |]; try done; unfold ask.
  - destruct (status s) as [st0|] eqn:E; [by split; [eexists |] | done].
  - apply (reply_answers _ _ s (fun u s' => usage_effect no_digest the_account now u s s')); intros r0 s' H; by exists r0.
  - by apply (reply_answers _ _ s (fun u s' => usage_effect no_digest the_account now u s s')).
  - by apply (reply_answers _ _ s (fun u s' => usage_effect no_digest the_account now u s s')).
  - by apply (reply_answers _ _ s (fun u s' => usage_effect no_digest the_account now u s s')).
  - by apply (reply_answers _ _ s (fun u s' => usage_effect no_digest the_account now u s s')).
  - by apply (reply_answers _ _ s (fun u s' => usage_effect no_digest the_account now u s s')).
  - by apply (reply_answers _ _ s (fun u s' => usage_effect no_digest the_account now u s s')).
Qed.

(** What happens when one thing is asked after another. *)
Fixpoint happen (l : list (Z * UsageEvent)) (s : Usage) : list (Z * UsageEvent) * Usage :=
  match l with
  | [] => ([], s)
  | (now, u) :: l => let '(u', s1) := ask now u s in let '(h, s2) := happen l s1 in ((now, u') :: h, s2)
  end.

Lemma happen_steps l s : steps (usage_moves no_digest the_account) s (happen l s).1 (happen l s).2.
Proof.
  revert s; induction l as [|[now u] l IH]; intros s; [constructor |]; simpl; assert (H := ask_effect now u s).
  destruct (ask now u s) as [u' s1]; simpl in H; specialize (IH s1); destruct (happen l s1) as [h s2]; by econstructor.
Qed.

Definition ask_attempt : UsageEvent := UAttempt EpisodeSummary (lit "m") (lit "global") [] the_attempt (Err Postgres).

Definition some_usage : VertexUsage :=
  {| prompt_details_present := true; cache_details_present := false; prompt_tokens := Some 7; input_text_tokens := Some 7; input_audio_tokens := None;
     input_image_tokens := None; cached_input_tokens := None; cached_input_text_tokens := None; cached_input_audio_tokens := None;
     cached_input_image_tokens := None; output_tokens := Some 5; tool_use_prompt_tokens := None; thought_tokens := None; total_tokens := Some 12 |}.

Definition metered : VertexMetadata := {| usage := Some some_usage; model_version := Some (lit "m"); traffic_type := None |}.
Definition ask_response : UsageEvent := UResponse the_event metered (Err Postgres).

(** Two settlements of one response. *)
Definition settled_trace : list (Z * UsageEvent) * Usage :=
  happen [(start, ask_attempt); (start + second, ask_response); (start + 2 * second, ask_response)] new_account.

Lemma settlements_agree_witness :
  settled_response metered = settled_response metered
  \/ exists r1 r', events (happen [(start, ask_attempt); (start + second, ask_response)] new_account).2 !! the_event = Some r1
      /\ holds (settled_response metered) r1 /\ settled_response metered = settled_as_left r1
      /\ events settled_trace.2 !! the_event = Some r' /\ drops r1 r'.
Proof.
  refine (settlements_agree no_digest the_account new_account (take 1 settled_trace.1) (start + second) (UResponse the_event metered (Ok tt))
    (happen [(start, ask_attempt); (start + second, ask_response)] new_account).2 []
    (start + 2 * second) (UResponse the_event metered (Ok tt)) [] settled_trace.2 the_event _ _ _ _ _ eq_refl eq_refl).
  - replace (take 1 settled_trace.1 ++ _) with (happen [(start, ask_attempt); (start + second, ask_response)] new_account).1
      by (vm_compute; reflexivity); apply happen_steps.
  - eapply (happen_steps [(start + 2 * second, ask_response)]).
  - repeat constructor; discriminate.
Defined.

(** A day's reservations: the third is refused. *)
Definition ask_tokens (n : Z) : UsageEvent := UReserve Audio n 1000 (Err Postgres).

Definition reserved_trace : list (Z * UsageEvent) * Usage :=
  happen [(start, ask_tokens 300); (start + second, ask_tokens 200); (start + 2 * second, ask_tokens 1)] new_account.

Lemma reservations_within_limit_witness :
  granted_total any_class 20393 reserved_trace.1 = 500
  /\ granted_total any_class 20393 reserved_trace.1 <= 1000
  /\ forall class, 100 * granted_total (only_class class) 20393 reserved_trace.1 <= share class * 1000.
Proof.
  split; [vm_compute; reflexivity |].
  refine (reservations_within_limit no_digest the_account new_account reserved_trace.1 reserved_trace.2 1000 20393 new_account_new _ _
    (happen_steps _ new_account)); [done |].
  vm_compute; repeat constructor.
Defined.

(** ** A claim that is overlooked *)

(** One worker claims the event and does not come back; another reports the
    month's coverage; then the account is to be deleted. *)
Definition claimed_trace : list (Z * UsageEvent) * Usage :=
  happen [(start, ask_attempt); (start + second, ask_response);
          (start + 2 * second, UPending (lit "worker-1") (lit "b1") false (Err Postgres));
          (start + 3 * second, UCoverage (lit "worker-2") (lit "b1") (Err Postgres));
          (start + 4 * second, UCovered (lit "worker-2") (period_of start) 2 (Err Postgres));
          (start + 5 * second, UStatus (Some (lit "deletion_requested")))] new_account.

Definition left_behind : Usage := claimed_trace.2.

Definition finding_nothing : UsageWorker.Env :=
  {| env_accounts := fun _ => Err Postgres; env_billing_account := fun _ => Err Postgres; env_pending_events := fun _ => Ok None;
     env_report_usage := fun _ => Err Unavailable; env_complete_delivery := fun _ => Err Postgres; env_delivery_failure := fun _ => Err Postgres;
     env_pending_coverage := fun _ => Ok []; env_reconcile_coverage := fun _ => Err Postgres; env_persist_coverage := fun _ => Err Postgres;
     env_report_coverage := fun _ => Err Unavailable; env_complete_coverage := fun _ => Err Postgres; env_invalidate_coverage := fun _ => Err Postgres |}.

Definition the_coverage : CoverageRow :=
  default {| c_sequence := 0; c_pending := 0; c_lost := 0; c_delivered := false; c_claim := None; c_updated := 0 |} (coverage left_behind !! period_of start).

Definition is_left (r : EventRow) : bool :=
  bool_decide (u_outcome r = Metered) && negb (u_delivered r) && bool_decide (u_claim r = Some (lit "worker-1", start + 122 * second)).

Lemma every_row (p : EventRow -> bool) (m : gmap str EventRow) :
  forallb (fun kv => p kv.2) (map_to_list m) = true -> forall id r, m !! id = Some r -> p r = true.
Proof. rewrite List.forallb_forall; intros H id r Hr; apply (H (id, r)), list_elem_of_In; by apply elem_of_map_to_list. Qed.

Lemma left_rows : forallb (fun kv => is_left kv.2) (map_to_list (events left_behind)) = true.
Proof. vm_compute; reflexivity. Qed.

Lemma deletion_settlement_overlooks_claims_witness :
  steps (usage_moves no_digest the_account) new_account claimed_trace.1 left_behind
  /\ (u_delivered <$> events left_behind !! the_event) = Some false
  /\ (settle_for_account_deletion finding_nothing 1 the_account (lit "b1") []).1 = Continue (Ok Complete).
Proof.
  split; [apply happen_steps |]; split; [vm_compute; reflexivity |].
  refine (f_equal fst (proj1 (deletion_settlement_overlooks_claims finding_nothing (lit "b1") the_account 0 (start + 6 * second) (start + 7 * second)
    (lit "c1") (lit "c2") left_behind the_coverage _ _ _ _ _))).
  - intros id r Hr; assert (H := every_row is_left _ left_rows id r Hr); unfold is_left in H; apply andb_true_iff in H as [[Ho _]%andb_true_iff Hc].
    apply bool_decide_eq_true in Ho, Hc; split; [by rewrite Ho | right]; eexists _, _; split; [exact Hc | vm_compute; reflexivity].
  - vm_compute; reflexivity.
  - vm_compute; reflexivity.
  - vm_compute; reflexivity.
  - vm_compute; reflexivity.
Defined.

(** ** A settlement that ends *)

Section OwnEvents.
Context (sha256 : bytes -> bytes) (account : str).

Lemma own_pending now claim billing force r s s' :
  answers (pending_events now claim billing force) r s s' -> settle_moves sha256 account s (now, Own (PendingEvents account billing force r)) s'.
Proof. intros H; unfold settle_moves; simpl; rewrite str_eqb_refl; by exists claim. Qed.

Lemma own_delivery now claim ids r s s' :
  answers (complete_delivery now claim ids) r s s' -> settle_moves sha256 account s (now, Own (CompleteDelivery account claim ids r)) s'.
Proof. intros H; unfold settle_moves; simpl; rewrite str_eqb_refl; by exists []. Qed.

Lemma own_coverage now claim billing r s s' :
  answers (pending_coverage now claim billing) r s s' -> settle_moves sha256 account s (now, Own (PendingCoverage account billing r)) s'.
Proof. intros H; unfold settle_moves; simpl; rewrite str_eqb_refl; by exists claim. Qed.
End OwnEvents.

(** The claim has run out: the settlement reports the event, finds no other,
    and then loses its connection. *)
Definition late : Z := start + 200 * second.
Definition late_claim : txn Usage (option ClaimedVertexUsageBatch) := pending_events late (lit "d1") (lit "b1") true.

Definition the_batch : ClaimedVertexUsageBatch :=
  match (transact late_claim left_behind).1 with Ok (Some b) => b | _ => {| b_claim := []; b_events := [] |} end.

Definition the_report : VertexUsageBatchResponse := {| accepted := 1; duplicates := 0; unpriced := 0; ambiguous := 0 |}.

Definition settling : UsageWorker.Env :=
  {| env_accounts := fun _ => Err Postgres; env_billing_account := fun _ => Err Postgres;
     env_pending_events := fun h => if is_empty h then Ok (Some the_batch) else Ok None;
     env_report_usage := fun _ => Ok the_report; env_complete_delivery := fun _ => Ok tt; env_delivery_failure := fun _ => Err Postgres;
     env_pending_coverage := fun _ => Err Postgres; env_reconcile_coverage := fun _ => Err Postgres; env_persist_coverage := fun _ => Err Postgres;
     env_report_coverage := fun _ => Err Unavailable; env_complete_coverage := fun _ => Err Postgres; env_invalidate_coverage := fun _ => Err Postgres |}.

Definition late_delivery : txn Usage unit := complete_delivery late (b_claim the_batch) (ids_of the_batch).
Definition late_again : txn Usage (option ClaimedVertexUsageBatch) := pending_events late (lit "d2") (lit "b1") true.
Definition claimed_late : Usage := after late_claim left_behind.
Definition delivered_late : Usage := after late_delivery claimed_late.

Definition settled_calls : list (Z * SettleEvent) :=
  [(late, Own (PendingEvents the_account (lit "b1") true (Ok (Some the_batch)))); (late, Own (ReportUsage (b_events the_batch) (Ok the_report)));
   (late, Own (CompleteDelivery the_account (b_claim the_batch) (ids_of the_batch) (Ok tt)));
   (late, Own (PendingEvents the_account (lit "b1") true (Ok None))); (late, Own (PendingCoverage the_account (lit "b1") (Err Postgres)))].

Lemma late_claims : (transact late_claim left_behind).1 = Ok (Some the_batch).
Proof. vm_compute; reflexivity. Qed.

Lemma late_delivers : (transact late_delivery claimed_late).1 = Ok tt.
Proof. vm_compute; reflexivity. Qed.

Lemma late_finds_nothing : (transact late_again delivered_late).1 = Ok None.
Proof. vm_compute; reflexivity. Qed.

Lemma settled_calls_happen : steps (settle_moves no_digest the_account) left_behind settled_calls (after late_again delivered_late).
Proof.
  apply steps_cons with claimed_late; [exact (own_pending _ _ _ (lit "d1") _ _ _ _ _ (fires late_claim left_behind _ late_claims)) |].
  apply steps_cons with claimed_late; [reflexivity |].
  apply steps_cons with delivered_late; [exact (own_delivery _ _ _ _ _ _ _ _ (fires late_delivery claimed_late _ late_delivers)) |].
  apply steps_cons with (after late_again delivered_late).
  { exact (own_pending _ _ _ (lit "d2") _ _ _ _ _ (fires late_again delivered_late _ late_finds_nothing)). }
  apply steps_cons with (after late_again delivered_late); [| constructor].
  apply (own_coverage _ _ _ (lit "d3")); right; exists Postgres; split; [done | by left].
Qed.

Lemma deletion_settlement_ends_witness :
  size (open_ids left_behind) = 1%nat /\ (settle_for_account_deletion settling 2 the_account (lit "b1") []).1 <> Panicked.
Proof.
  split; [vm_compute; reflexivity |].
  refine (deletion_settlement_ends no_digest the_account settling (lit "b1") 2 left_behind settled_calls (after late_again delivered_late)
    _ _ settled_calls_happen _ _).
  - vm_compute; discriminate.
  - repeat constructor; discriminate.
  - vm_compute; reflexivity.
  - apply Nat.ltb_lt; vm_compute; reflexivity.
Defined.
