(* ===== verification/FormationDb.v ===== *)
(** * The store of memories and their evidence

    The tables [persistence/postgres/memory_formation.rs] reads and writes
    beside those of [CaptureStore]: the utterances and screenshots a capture
    session left, the episodes formed from them and who owns what
    ([migrations/0007_content_search.sql], [0026_memory_reconciliation.sql]
    with its triggers), the claim of the summary window, and the usage events
    of [UsageDb].  Every statement names one account; the store is what one
    account has.  Who speaks in an utterance belongs to the speaker graph,
    which this development reaches through [SpeakerGraph].  Times are in
    milliseconds, to which every query truncates the ones it orders by. *)
From stdpp Require Import gmap sorting.
From Stdlib Require Import ZArith Lia.
From S2P Require Import Prelude OrdMap Text Errors Bytes Json IsoTime Presentation Episode Summarizer Vertex UsageDb Txn VoiceEnrollment CaptureManifest.
From S2P Require Import CaptureStore CaptureCommit CaptureSeal.
Local Open Scope Z_scope.
Local Open Scope kioku_scope.

(** ** Rows *)

(** A row of evidence an episode can own. *)
Inductive Source := Utterance (id : Z) | Screenshot (id : Z).

#[export] Instance Source_eq_dec : EqDecision Source.
Proof. solve_decision. Defined.

#[export] Instance Source_countable : Countable Source.
Proof.
  refine (inj_countable' (fun s => match s with Utterance i => inl i | Screenshot i => inr i end)
            (fun p => match p with inl i => Utterance i | inr i => Screenshot i end) _); by intros [].
Defined.

(** [ut_segment_ms] is the start of its audio segment and its offset there. *)
Record UtteranceRow := {
  ut_observation : option Z; ut_source_key : option str; ut_speaker_label : str; ut_language : option str; ut_text : str;
  ut_segment_ms : Z
}.

(** Its sources are the events of [speaker_observation_sources]. *)
Record SpeakerObservationRow := { so_event : str; so_sources : list str; so_started_ms : Z; so_ended_ms : Z }.

Record ScreenshotRow := {
  sh_source_key : option str; sh_captured_ms : Z; sh_active_app : option str; sh_window_title : option str; sh_ocr_text : option str;
  sh_salient_ocr_text : option str; sh_url : option str; sh_is_duplicate : bool
}.

Inductive StructureState := Draft | Reconciled.

#[export] Instance StructureState_eq_dec : EqDecision StructureState.
Proof. solve_decision. Defined.

Record EpisodeRow := {
  ep_started_ms : Z; ep_ended_ms : Z; ep_type : option str; ep_title : str; ep_summary : option str; ep_participants : list str;
  ep_languages : list str; ep_action_items : list str; ep_model : option str; ep_minutes : str; ep_minutes_text : str;
  ep_substance : str; ep_visual_evidence : str; ep_structure : StructureState; ep_finalized_at : option Z;
  ep_finalization_claim : option str; ep_finalization_status : str
}.

Inductive HandleState := HandleActive | HandleSuperseded | HandleRetired.

#[export] Instance HandleState_eq_dec : EqDecision HandleState.
Proof. solve_decision. Defined.

(** The label maps of [episode_identity_presentations], as values. *)
Record PresentationRow := {
  pr_timeline_labels : AuthoredLabelMap; pr_action_labels : AuthoredLabelMap; pr_minute_labels : gmap str AuthoredLabelMap
}.

(** [active_owners] is [active_episode_members], keyed by the record it makes
    unique; [next_episode_id] the counter of [content_id_counters]. *)
Record Memories := {
  utterances : gmap Z UtteranceRow;
  speaker_observations : gmap Z SpeakerObservationRow;
  screenshots : gmap Z ScreenshotRow;
  episodes : gmap Z EpisodeRow;
  episode_members : gset (Z * Source);
  memory_handles : gmap Z HandleState;
  active_owners : gmap Source Z;
  presentations : gmap Z PresentationRow;
  next_episode_id : Z;
  deleting_episodes : gset Z
}.

Inductive WindowState := WindowProcessing | WindowRetryWait | WindowSucceeded.

#[export] Instance WindowState_eq_dec : EqDecision WindowState.
Proof. solve_decision. Defined.

(** [summary_window_claims] *)
Record WindowRow := {
  sw_from : Z; sw_to : Z; sw_state : WindowState; sw_claim : option (str * Z); sw_attempts : Z; sw_error : option str;
  sw_completed_token : option str
}.

(** [summary_window_results] are keyed by window and ordinal. *)
Record Formation {Voice Speakers : Type} := {
  capture : Store Voice;
  memories : Memories;
  summarized_until : option Z;
  window_claim : option WindowRow;
  window_results : gmap (Z * Z * Z) Z;
  usage_events : gmap str UsageDb.EventRow;
  speakers : Speakers
}.
Arguments Formation : clear implicits.

(** ** Updates *)

Definition set_utterances f m : Memories :=
  {| utterances := f (utterances m); speaker_observations := speaker_observations m; screenshots := screenshots m;
     episodes := episodes m; episode_members := episode_members m; memory_handles := memory_handles m;
     active_owners := active_owners m; presentations := presentations m; next_episode_id := next_episode_id m;
     deleting_episodes := deleting_episodes m |}.

(** The tables of episodes, those of evidence kept. *)
Definition with_episodes m episodes' members' handles' owners' presentations' next' : Memories :=
  {| utterances := utterances m; speaker_observations := speaker_observations m; screenshots := screenshots m;
     episodes := episodes'; episode_members := members'; memory_handles := handles'; active_owners := owners';
     presentations := presentations'; next_episode_id := next'; deleting_episodes := deleting_episodes m |}.

Definition set_episodes f m := with_episodes m (f (episodes m)) (episode_members m) (memory_handles m) (active_owners m) (presentations m) (next_episode_id m).
Definition set_members f m := with_episodes m (episodes m) (f (episode_members m)) (memory_handles m) (active_owners m) (presentations m) (next_episode_id m).
Definition set_handles f m := with_episodes m (episodes m) (episode_members m) (f (memory_handles m)) (active_owners m) (presentations m) (next_episode_id m).
Definition set_owners f m := with_episodes m (episodes m) (episode_members m) (memory_handles m) (f (active_owners m)) (presentations m) (next_episode_id m).
Definition set_presentations f m := with_episodes m (episodes m) (episode_members m) (memory_handles m) (active_owners m) (f (presentations m)) (next_episode_id m).
Definition set_next_id v m := with_episodes m (episodes m) (episode_members m) (memory_handles m) (active_owners m) (presentations m) v.

(** What the speaker graph promises: the label an utterance is shown with,
    the names one provider request uses for a set of utterances, and the
    projections of the speakers of some episodes, all of which it keeps in
    tables of its own. *)
Class SpeakerGraph (Voice Speakers : Type) := {
  speaker_label : Speakers -> Z -> str;
  authoring_context : Memories -> Speakers -> list Z -> res AuthoredLabelMap;
  refresh_projections : Store Voice -> Memories -> list Z -> Speakers -> res Speakers
}.

Section Updates.
Context {Voice Speakers : Type}.
Implicit Types db : Formation Voice Speakers.

Definition set_capture c db : Formation Voice Speakers :=
  {| capture := c; memories := memories db; summarized_until := summarized_until db; window_claim := window_claim db;
     window_results := window_results db; usage_events := usage_events db; speakers := speakers db |}.

Definition set_memories f db : Formation Voice Speakers :=
  {| capture := capture db; memories := f (memories db); summarized_until := summarized_until db; window_claim := window_claim db;
     window_results := window_results db; usage_events := usage_events db; speakers := speakers db |}.

Definition set_windows cursor claim results db : Formation Voice Speakers :=
  {| capture := capture db; memories := memories db; summarized_until := cursor; window_claim := claim; window_results := results;
     usage_events := usage_events db; speakers := speakers db |}.

Definition set_speakers v db : Formation Voice Speakers :=
  {| capture := capture db; memories := memories db; summarized_until := summarized_until db; window_claim := window_claim db;
     window_results := window_results db; usage_events := usage_events db; speakers := v |}.

(** Statements on the tables of [CaptureStore]. *)
Definition in_capture {A} (m : txn (Store Voice) A) : txn (Formation Voice Speakers) A :=
  fun db => match m (capture db) with Ok (a, c) => Ok (a, set_capture c db) | Err e => Err e end.

Definition on_capture (f : Store Voice -> Store Voice) : txn (Formation Voice Speakers) unit := in_capture (execute f).

Definition in_memories {A} (m : txn Memories A) : txn (Formation Voice Speakers) A :=
  fun db => match m (memories db) with Ok (a, x) => Ok (a, set_memories (fun _ => x) db) | Err e => Err e end.

Lemma in_capture_Ok {A} (m : txn (Store Voice) A) db a db' :
  in_capture m db = Ok (a, db') <-> exists c, m (capture db) = Ok (a, c) /\ db' = set_capture c db.
Proof.
  unfold in_capture; destruct (m (capture db)) as [[x c]|]; split; try done.
  - intros [= <- <-]; by exists c.
  - by intros (? & [= <- <-] & ->).
  - by intros (? & ? & _).
Qed.

Lemma in_memories_Ok {A} (m : txn Memories A) db a db' :
  in_memories m db = Ok (a, db') <-> exists x, m (memories db) = Ok (a, x) /\ db' = set_memories (fun _ => x) db.
Proof.
  unfold in_memories; destruct (m (memories db)) as [[x c]|]; split; try done.
  - intros [= <- <-]; by exists c.
  - by intros (? & [= <- <-] & ->).
  - by intros (? & ? & _).
Qed.
End Updates.

(** ** A session's evidence *)

Definition cloud_key (event : str) : str := lit "cloud-v2:" ++ event.

Section Evidence.
Context {Voice : Type}.
Implicit Types s : Store Voice.

(** [evidence_events]: the events whose media a session's events show. *)
Definition evidence_events (session : str) s : gset str := list_to_set ((fun kv => root_of kv.1 kv.2) <$> events_of session s).

(** An observation an event is the source of. *)
Definition observed_in (events : gset str) (o : SpeakerObservationRow) : bool :=
  bool_decide (so_event o ∈ events) || existsb (fun e => bool_decide (e ∈ events)) (so_sources o).

Definition observation_of (m : Memories) (u : UtteranceRow) : option SpeakerObservationRow :=
  ut_observation u ≫= fun id => speaker_observations m !! id.

Definition utterance_in (m : Memories) (events : gset str) (u : UtteranceRow) : bool :=
  some_and (observed_in events) (observation_of m u).

Definition screenshot_in (events : gset str) (row : ScreenshotRow) : bool :=
  some_and (fun key => existsb (fun e => str_eqb key (cloud_key e)) (elements events)) (sh_source_key row).

(** A source with the time it is ordered by. *)
Definition timed_utterances (session : str) s (m : Memories) : list (Z * Z) :=
  omap (fun kv => match observation_of m kv.2 with
                  | Some o => if observed_in (evidence_events session s) o then Some (so_started_ms o, kv.1) else None
                  | None => None
                  end) (map_to_list (utterances m)).

Definition timed_screenshots (session : str) s (m : Memories) : list (Z * Z) :=
  omap (fun kv => if screenshot_in (evidence_events session s) kv.2 then Some (sh_captured_ms kv.2, kv.1) else None)
    (map_to_list (screenshots m)).

(** The evidence of a session, oldest first. *)
Definition evidence_utterances (session : str) s (m : Memories) : list (Z * Z) := sort_by_key (fun p => p) (timed_utterances session s m).
Definition evidence_screenshots (session : str) s (m : Memories) : list (Z * Z) := sort_by_key (fun p => p) (timed_screenshots session s m).

Definition active_owned (m : Memories) (source : Source) : bool := bool_decide (is_Some (active_owners m !! source)).

(** [evidence], the session's sources of both kinds. *)
Definition evidence (session : str) s (m : Memories) : gset Source :=
  list_to_set ((fun p => Utterance p.2) <$> timed_utterances session s m)
  ∪ list_to_set ((fun p => Screenshot p.2) <$> timed_screenshots session s m).
End Evidence.
