(* ===== verification/FormationMemories.v ===== *)
(** * Episodes and who owns their evidence

    The statements of [persistence/postgres/memory_formation.rs] that write
    an episode, which the two settlements share, the triggers of
    [migrations/0026_memory_reconciliation.sql] they fire, and the guards a
    settlement puts its episodes to; [save_formation_labels] of
    [identity_presentation.rs].  The projection [active_episode_members] gives
    every record one active owner at most, and the lemmas say what the
    episodes of a settlement do to it. *)
From stdpp Require Import gmap sorting.
From Stdlib Require Import ZArith Lia.
From S2P Require Import Prelude OrdMap Text Errors Bytes Json IsoTime Presentation Summarizer Txn VoiceEnrollment CaptureManifest.
From S2P Require Import CaptureStore CaptureCommit CaptureSeal FormationDb.
From S2P Require Import Episode.
Local Open Scope Z_scope.
Local Open Scope kioku_scope.

(** [serde_json] at the minute buckets and the requests the tables keep, and
    at any value. *)
Record FormationCodec := {
  minutes_of_text : str -> option (list MinuteBucket);
  minutes_to_text : list MinuteBucket -> option str;
  request_of_text : str -> option Vertex.CaptureFormationProviderRequest;
  request_to_text : Vertex.CaptureFormationProviderRequest -> option str;
  value_of_response : str -> option Value;
  value_bytes : Value -> option bytes;
  minutes_jsonb : str -> option str
}.

Definition timestamp (value : str) (field : string) : res Z :=
  ok_or (parse_epoch_millis value) (InvalidRequest (lit field ++ lit " is invalid")).

Section Episodes.
Context (codec : FormationCodec).
Implicit Types m : Memories.

#[local] Abbreviation txn := (txn Memories).

Definition violates (condition : bool) : txn unit := abort_if condition Postgres.

(** [allocate_content_id] at the kind of episodes, a [bigint] counter. *)
Definition allocate_episode_id : txn Z :=
  let^ id := select next_episode_id in
  violates (negb (I64.in_rangeb (id + 1))) ^;
  execute (set_next_id (id + 1)) ^;
  commits id.

(** A draft the lane that finalizes has not taken. *)
Definition untaken (e : EpisodeRow) : bool :=
  bool_decide (ep_structure e = Draft) && bool_decide (ep_finalized_at e = None) && bool_decide (ep_finalization_claim e = None)
  && negb (one_of (ep_finalization_status e) ["processing"; "deleting"]%string).

(** [EXTENDABLE_EPISODE_SQL] *)
Definition extendable m (id : Z) : option EpisodeRow :=
  match episodes m !! id, memory_handles m !! id with
  | Some e, Some HandleActive => if untaken e then Some e else None
  | _, _ => None
  end.

Definition extending m (id : Z) : option (Z * EpisodeRow) := pair id <$> extendable m id.

(** [INSERT INTO episodes ... ON CONFLICT DO UPDATE], of the columns given. *)
Definition episode_row (episode : EpisodeInput) (started ended : Z) (minutes minutes_text substance visual : str)
    (existing : option EpisodeRow) : EpisodeRow :=
  {| ep_started_ms := started; ep_ended_ms := ended; ep_type := episode_type episode; ep_title := title episode;
     ep_summary := summary episode; ep_participants := default [] (participants episode);
     ep_languages := default [] (languages episode); ep_action_items := default [] (action_items episode);
     ep_model := model episode; ep_minutes := minutes; ep_minutes_text := minutes_text; ep_substance := substance;
     ep_visual_evidence := visual;
     ep_structure := match existing with Some e => ep_structure e | None => Draft end;
     ep_finalized_at := existing ≫= ep_finalized_at; ep_finalization_claim := existing ≫= ep_finalization_claim;
     ep_finalization_status := match existing with Some e => ep_finalization_status e | None => lit "pending_horizon" end |}.

(** The trigger [install_active_memory_handle]. *)
Definition install_handle (id : Z) m : Memories :=
  match memory_handles m !! id with Some _ => m | None => set_handles (<[id := HandleActive]>) m end.

Definition write_episode (id : Z) (row : option EpisodeRow -> EpisodeRow) m : Memories :=
  match episodes m !! id with
  | Some e => set_episodes (<[id := row (Some e)]>) m
  | None => install_handle id (set_episodes (<[id := row None]>) m)
  end.

Definition source_exists (source : Source) m : bool :=
  match source with
  | Utterance id => bool_decide (is_Some (utterances m !! id))
  | Screenshot id => bool_decide (is_Some (screenshots m !! id))
  end.

Definition source_id (source : Source) : Z := match source with Utterance id | Screenshot id => id end.

(** The trigger [project_active_episode_member]: [active_episode_members] has
    one owner per record, and a second one violates it. *)
Definition project_member (episode : Z) (source : Source) : txn unit :=
  let^ handle := select (fun m => memory_handles m !! episode) in
  let^ owner := select (fun m => active_owners m !! source) in
  if bool_decide (handle = Some HandleActive) then
    match owner with
    | Some o => violates (negb (o =? episode))
    | None => violates (source_id source <=? 0) ^; execute (set_owners (<[source := episode]>))
    end
  else commits tt.

(** [INSERT INTO episode_members ... WHERE EXISTS(...) ON CONFLICT DO NOTHING] *)
Definition insert_member (episode : Z) (source : Source) : txn unit :=
  let^ known := select (source_exists source) in
  let^ there := select (fun m => bool_decide ((episode, source) ∈ episode_members m)) in
  if known && negb there then
    execute (set_members (union {[ (episode, source) ]})) ^; project_member episode source
  else commits tt.

Definition sources_of (episode : EpisodeInput) : list Source :=
  (Utterance <$> member_utterance_ids episode) ++ (Screenshot <$> member_screenshot_ids episode).

(** *** Labels *)

Definition owned_label m (episode : Z) (l : AuthoredLabel) : AuthoredLabel :=
  {| label := label l; target := target l; fallback_label := fallback_label l;
     utterance_ids := List.filter (fun id => bool_decide ((episode, Utterance id) ∈ episode_members m)) (utterance_ids l) |}.

Definition owned_labels m (episode : Z) (authored : AuthoredLabelMap) : AuthoredLabelMap :=
  {| labels := List.filter (fun l => negb (is_empty (utterance_ids l))) (owned_label m episode <$> labels authored) |}.

(** The starts of the minutes an episode has. *)
Definition minute_starts m (episode : Z) : list str :=
  match episodes m !! episode with
  | Some e => start <$> default [] (minutes_of_text codec (ep_minutes e))
  | None => []
  end.

Definition save_formation_labels (episode : Z) (authored : AuthoredLabelMap) (new_minutes : list MinuteBucket) m : Memories :=
  let labels := owned_labels m episode authored in
  let minutes := list_to_map (M := gmap str AuthoredLabelMap)
                   ((fun b => (start b, labels)) <$> List.filter (fun b => negb (is_blank (gist b))) new_minutes) in
  let stored := default ∅ (pr_minute_labels <$> presentations m !! episode) in
  let kept := filter (fun kv => kv.1 ∈ minute_starts m episode) (minutes ∪ stored) in
  set_presentations (<[episode := {| pr_timeline_labels := labels; pr_action_labels := labels; pr_minute_labels := kept |}]>) m.

(** *** One episode of a settlement *)

(** The id it is written under: an extendable one it names, or the next one,
    which is allocated either way. *)
Definition settle_episode (episode : EpisodeInput) (labels : AuthoredLabelMap) : txn Z :=
  let^ found := select (fun m => Episode.id episode ≫= extending m) in
  let existing : option EpisodeRow := snd <$> found in
  let new_minutes := default [] (minute_summaries episode) in
  let '(minutes_json, minutes_text) :=
    default (lit "[]", []) (merge_minute_summaries (minutes_of_text codec) (minutes_to_text codec) (ep_minutes <$> existing) new_minutes) in
  let substance :=
    match existing with
    | Some e => merge_substance (Some (ep_substance e)) (substance episode)
    | None => normalized_substance (substance episode)
    end in
  let visual :=
    match existing with
    | Some e => merge_visual_evidence (Some (ep_visual_evidence e)) (visual_evidence episode)
    | None => normalized_visual_evidence (visual_evidence episode)
    end in
  let^ allocated := allocate_episode_id in
  let episode_id := default allocated (fst <$> found) in
  let^ started := try_res (timestamp (started_at episode) "episode start") in
  let^ ended := try_res (timestamp (ended_at episode) "episode end") in
  abort_if (ended <? started) (invalid "episode end precedes its start") ^;
  let^ minutes := try_res (ok_or (minutes_jsonb codec minutes_json) Postgres) in
  execute (write_episode episode_id (episode_row episode started ended minutes minutes_text substance visual)) ^;
  for_each (sources_of episode) (insert_member episode_id) ^;
  execute (save_formation_labels episode_id labels new_minutes) ^;
  commits episode_id.

Fixpoint settle_episodes (labels_of : EpisodeInput -> AuthoredLabelMap) (l : list EpisodeInput) : txn (list Z) :=
  match l with
  | [] => commits []
  | episode :: rest =>
    let^ id := settle_episode episode (labels_of episode) in
    let^ ids := settle_episodes labels_of rest in
    commits (id :: ids)
  end.

(** ** Guards *)

(** [ensure_episode_sources_unowned], past the check that the sources are
    there: no source twice, none owned by another episode. *)
Fixpoint check_assigned (m : Memories) (owner : option Z) (assigned : gset Source) (l : list Source) : res (gset Source) :=
  match l with
  | [] => Ok assigned
  | source :: rest =>
    let? _ := refuse (bool_decide (source ∈ assigned)) (invalid "formation assigns one source to multiple episodes") in
    let? _ := refuse (some_and (fun o => negb (bool_decide (Some o = owner))) (active_owners m !! source))
                     (Conflict (lit "formation evidence acquired a different active owner")) in
    check_assigned m owner ({[ source ]} ∪ assigned) rest
  end.

Fixpoint check_episodes (m : Memories) (assigned : gset Source) (l : list EpisodeInput) : res unit :=
  match l with
  | [] => Ok tt
  | episode :: rest =>
    let? _ := refuse (is_empty (member_utterance_ids episode) && is_empty (member_screenshot_ids episode))
                     (invalid "formed episode must own at least one evidence source") in
    let? assigned := check_assigned m (id episode) assigned (sources_of episode) in
    check_episodes m assigned rest
  end.
End Episodes.

Section Guards.
Context {Voice Speakers : Type}.
Implicit Types db : Formation Voice Speakers.

#[local] Abbreviation txn := (txn (Formation Voice Speakers)).

(** The event a [cloud-v2] source key names, and the one a screenshot's does. *)
Definition key_event (key : str) : option str := strip_prefix (lit "cloud-v2:") key.

(** [split_part(key, ':', 1)] *)
Definition first_part (key : str) : str := match split_once (ch ":") key with Some (part, _) => part | None => key end.

Definition utterance_key_event (key : str) : option str := first_part <$> key_event key.

(** [projection_events]: the events some sources came from. *)
Definition projection_events (m : Memories) (utterance_ids screenshot_ids : list Z) : list str :=
  (utterance_ids ≫= fun id =>
     match utterances m !! id with
     | Some u =>
       option_list (ut_source_key u ≫= utterance_key_event)
       ++ match observation_of m u with Some o => so_event o :: so_sources o | None => [] end
     | None => []
     end)
  ++ (screenshot_ids ≫= fun id => option_list (screenshots m !! id ≫= fun r => sh_source_key r ≫= key_event)).

(** [capture_family]: the events of the capture rows that are one of them or
    refer to one, each with its canonical event. *)
Definition capture_family (s : Store Voice) (events : list str) : list str :=
  map_to_list (CaptureStore.capture_events s) ≫= fun kv =>
    let root := root_of kv.1 kv.2 in
    if existsb (str_eqb kv.1) events || some_and (fun r => existsb (str_eqb (canonical_event_id r)) events) (er_reference kv.2)
    then [kv.1; root] else [].

Definition pending_deletion (s : Store Voice) (events : list str) : bool :=
  existsb (fun orphans => existsb (fun e => existsb (str_eqb e) orphans) (capture_family s events)) (pending_deletions s).

Definition sources_available (db : Formation Voice Speakers) (utterance_ids screenshot_ids : list Z) : res unit :=
  let m := memories db in
  let? _ := refuse (negb (forallb (fun id => bool_decide (is_Some (utterances m !! id))) utterance_ids
                          && forallb (fun id => bool_decide (is_Some (screenshots m !! id))) screenshot_ids))
                   (Conflict (lit "memory formation source disappeared before provider or settlement")) in
  refuse (pending_deletion (capture db) (projection_events m utterance_ids screenshot_ids))
         (Conflict (lit "memory formation source is pending episode deletion")).

Definition ensure_formation_sources_available (utterance_ids screenshot_ids : list Z) : txn unit :=
  let^ decision := select (fun db => sources_available db utterance_ids screenshot_ids) in
  try_res decision.

Definition utterance_members (l : list EpisodeInput) : list Z := l ≫= member_utterance_ids.
Definition screenshot_members (l : list EpisodeInput) : list Z := l ≫= member_screenshot_ids.

Definition ensure_episode_sources_unowned (l : list EpisodeInput) : txn unit :=
  ensure_formation_sources_available (utterance_members l) (screenshot_members l) ^;
  let^ decision := select (fun db => check_episodes (memories db) ∅ l) in
  try_res decision.

Definition open_episode (m : Memories) (id : Z) : bool :=
  bool_decide (is_Some (extendable m id)) && negb (bool_decide (id ∈ deleting_episodes m)).

Definition ensure_open_episodes_available (ids : list Z) : txn unit :=
  let^ available := select (fun db => forallb (open_episode (memories db)) ids) in
  abort_if (negb available) (Conflict (lit "summarizer open-episode context changed before provider egress")).

(** [ensure_capture_episode_sources] *)
Definition ensure_capture_episode_sources (session : str) (l : list EpisodeInput) : txn unit :=
  let^ own := select (fun db => evidence session (capture db) (memories db)) in
  abort_if (negb (forallb (fun id => bool_decide (Utterance id ∈ own)) (utterance_members l)
                  && forallb (fun id => bool_decide (Screenshot id ∈ own)) (screenshot_members l)))
           (Conflict (lit "capture formation settlement assigns evidence outside its exact session")).

(** [capture_session_owner_ids]: who owns the evidence of a session. *)
Definition capture_session_owner_ids (session : str) db : list Z :=
  sort_by Z.leb (elements (list_to_set (C := gset Z)
    (omap (fun source => active_owners (memories db) !! source) (elements (evidence session (capture db) (memories db)))))).
End Guards.

(** ** Who owns what *)

(** The ids of episodes come from the counter, and a record is owned by the
    active episode it is a member of, which is one. *)
Record memories_ok (m : Memories) : Prop := {
  ok_episode : forall id e, episodes m !! id = Some e -> id < next_episode_id m;
  ok_handle : forall id h, memory_handles m !! id = Some h -> id < next_episode_id m;
  ok_member : forall id source, (id, source) ∈ episode_members m -> id < next_episode_id m;
  ok_owner : forall source id, active_owners m !! source = Some id <->
    (id, source) ∈ episode_members m /\ memory_handles m !! id = Some HandleActive
}.

(** The tables ownership is about. *)
Definition ownership (m : Memories) := (episode_members m, active_owners m, memory_handles m).

Lemma memories_ok_same m m' : ownership m' = ownership m -> next_episode_id m <= next_episode_id m' ->
  (forall id e, episodes m' !! id = Some e -> id < next_episode_id m') -> memories_ok m -> memories_ok m'.
Proof.
  unfold ownership; intros [= Em Eo Eh] Hle He [A B C D]; split; intros *; rewrite ?Em, ?Eo, ?Eh; [apply He | ..].
  - intros Hx; apply B in Hx; lia.
  - intros Hx; apply C in Hx; lia.
  - apply D.
Qed.

Section Owners.
Context (codec : FormationCodec).
Implicit Types m : Memories.

(** What a member inserted leaves alone. *)
Definition around_members m := (utterances m, screenshots m, episodes m, memory_handles m, next_episode_id m).

(** The members [l] of an episode inserted. *)
Record inserted (episode : Z) (l : list Source) m m' : Prop := {
  inserted_around : around_members m' = around_members m;
  inserted_members : forall x, x ∈ episode_members m' <-> x ∈ episode_members m \/ x.1 = episode /\ x.2 ∈ l /\ source_exists x.2 m = true;
  inserted_ok : memories_ok m -> episode < next_episode_id m -> memories_ok m'
}.

Lemma around_source_exists source m m' : around_members m' = around_members m -> source_exists source m' = source_exists source m.
Proof. unfold around_members, source_exists; intros [= -> -> _ _ _]; done. Qed.

Lemma project_member_Ok episode source m u m' : project_member episode source m = Ok (u, m') ->
  (memory_handles m !! episode = Some HandleActive -> active_owners m' !! source = Some episode)
  /\ (forall other, active_owners m' !! other <> active_owners m !! other -> other = source /\ memory_handles m !! episode = Some HandleActive /\ active_owners m !! other = None)
  /\ around_members m' = around_members m /\ episode_members m' = episode_members m.
Proof.
  unfold project_member, violates; intros Hx; all_txn; case_bool_decide as Hh; [| all_txn; by split_and!].
  case_match eqn:Ho; all_txn; all_ok.
  - split_and!; try done; intros _; rewrite Ho; f_equal; by apply Z.eqb_eq.
  - split_and!; try done; [intros _; simpl; by rewrite lookup_insert_eq |].
    intros other; simpl; destruct (decide (other = source)) as [->|Hne]; [done | by rewrite lookup_insert_ne].
Qed.

Lemma insert_member_Ok episode source m u m' : insert_member episode source m = Ok (u, m') -> inserted episode [source] m m'.
Proof.
  unfold insert_member; intros Hx; all_txn.
  destruct (source_exists source m && negb (bool_decide ((episode, source) ∈ episode_members m))) eqn:E.
  - apply andb_prop in E as [Hs Hnew]; apply negb_true_iff, bool_decide_eq_false in Hnew; all_txn.
    match goal with Hx : project_member _ _ _ = Ok _ |- _ => apply project_member_Ok in Hx as (Hown & Hother & Har & Hmem) end.
    assert (Hm : forall y, y ∈ episode_members m' <-> y ∈ episode_members m \/ y = (episode, source)) by (intros y; rewrite Hmem; simpl; set_solver).
    split; [done | |].
    + intros [id y]; rewrite Hm; simpl; rewrite list_elem_of_singleton; split; [intros [?|[= -> ->]]; tauto |].
      intros [?|(-> & -> & _)]; tauto.
    + intros [A B C D] Hlt; unfold around_members in Har; injection Har as _ _ He Hh Hn; simpl in *.
      split; intros *; rewrite ?He, ?Hh, ?Hn; [apply A | apply B | |].
      * rewrite Hm; intros [Hin|[= -> ->]]; [by eapply C | done].
      * rewrite Hm; destruct (decide (active_owners m' !! source0 = active_owners m !! source0)) as [Heq|Hne].
        -- rewrite Heq, D; split; [tauto |]; intros [[Hin|[= -> ->]] Ha]; [done |].
           specialize (Hown Ha); rewrite Heq in Hown; by apply D in Hown.
        -- destruct (Hother _ Hne) as (-> & Ha & Hnone); rewrite (Hown Ha); split; [intros [= <-]; tauto |].
           intros [[Hin|[= ->]] Hid]; [| done]; assert (Ho : active_owners m !! source = Some id) by (by apply D); congruence.
  - all_txn; split; [done | |].
    + intros [id y]; simpl; rewrite list_elem_of_singleton; split; [tauto |]; intros [?|(-> & -> & Hs)]; [done |].
      rewrite Hs in E; simpl in E; by apply negb_false_iff, bool_decide_eq_true in E.
    + done.
Qed.

Lemma insert_members_Ok episode l : forall m u m', for_each l (insert_member episode) m = Ok (u, m') -> inserted episode l m m'.
Proof.
  induction l as [|source l IH]; intros m u m' Hx; simpl in Hx; all_txn.
  - split; [done | | done]; intros y; rewrite elem_of_nil; tauto.
  - match goal with H1 : insert_member _ _ m = Ok (_, ?mid) |- _ => apply insert_member_Ok in H1 as [A1 M1 O1]; apply IH in Hx as [A2 M2 O2]; rename mid into mid0 end.
    split; [congruence | |].
    + intros y; rewrite M2, M1, list_elem_of_singleton, elem_of_cons, (around_source_exists _ _ _ A1); tauto.
    + intros Hok Hlt; apply O2; [by apply O1 |]; unfold around_members in A1; injection A1 as _ _ _ _ ->; done.
Qed.
(** An episode written: an old one keeps its handle, a new one is active. *)
Lemma write_episode_Ok id row m : memories_ok m -> id < next_episode_id m ->
  (episodes m !! id = None -> forall source, (id, source) ∉ episode_members m) ->
  let m' := write_episode id row m in
  memories_ok m' /\ next_episode_id m' = next_episode_id m /\ (utterances m', screenshots m', episode_members m') = (utterances m, screenshots m, episode_members m)
  /\ (forall i h, memory_handles m !! i = Some h -> memory_handles m' !! i = Some h)
  /\ (episodes m !! id = None -> memory_handles m !! id = None -> memory_handles m' !! id = Some HandleActive).
Proof.
  intros Hok Hlt Hfree; simpl; unfold write_episode; destruct (episodes m !! id) as [e|] eqn:He.
  - split_and!; try done; apply (memories_ok_same m); try done; intros i e' Hi; simpl in *.
    apply lookup_insert_Some in Hi as [[<- _]|[_ Hi]]; [done | by eapply ok_episode].
  - unfold install_handle; simpl; destruct (memory_handles m !! id) as [h|] eqn:Hh.
    + split_and!; try done; apply (memories_ok_same m); try done; intros i e' Hi; simpl in *.
      apply lookup_insert_Some in Hi as [[<- _]|[_ Hi]]; [done | by eapply ok_episode].
    + assert (Hkeep : forall i h, memory_handles m !! i = Some h -> <[id := HandleActive]> (memory_handles m) !! i = Some h).
      { intros i h Hi; rewrite lookup_insert_ne; [done |]; intros ->; congruence. }
      split_and!; try done; [| intros _ _; simpl; by rewrite lookup_insert_eq].
      destruct Hok as [A B C D]; split; intros *; simpl.
      * intros [[<- _]|[_ Hi]]%lookup_insert_Some; [done | by eapply A].
      * intros [[<- _]|[_ Hi]]%lookup_insert_Some; [done | by eapply B].
      * apply C.
      * rewrite D; split; [intros [? ?]; split; [done | by apply Hkeep] |]; intros [Hin [[<- _]|[_ Ha]]%lookup_insert_Some]; [| done].
        by apply Hfree in Hin.
Qed.

Lemma allocate_Ok m id m' : memories_ok m -> allocate_episode_id m = Ok (id, m') ->
  id = next_episode_id m /\ m' = set_next_id (id + 1) m /\ memories_ok m'.
Proof.
  unfold allocate_episode_id, violates; intros Hok Hx; all_txn; split_and!; try done.
  apply (memories_ok_same m); simpl; [done | lia | | done]; intros i e Hi; apply (ok_episode _ Hok) in Hi; lia.
Qed.

(** One episode settled. *)
Record settled (episode : EpisodeInput) m id m' : Prop := {
  settled_ok : memories_ok m';
  settled_next : next_episode_id m' = next_episode_id m + 1;
  settled_evidence : (utterances m', screenshots m') = (utterances m, screenshots m);
  settled_handles : forall i h, memory_handles m !! i = Some h -> memory_handles m' !! i = Some h;
  settled_members : forall x, x ∈ episode_members m' <-> x ∈ episode_members m \/ x.1 = id /\ x.2 ∈ sources_of episode /\ source_exists x.2 m = true;
  settled_new : Episode.id episode = None -> id = next_episode_id m /\ memory_handles m' !! id = Some HandleActive
}.

Lemma extendable_episode m id e : extendable m id = Some e -> episodes m !! id = Some e.
Proof. unfold extendable; repeat case_match; try done; congruence. Qed.

Lemma settle_episode_Ok episode authored m id m' : memories_ok m -> settle_episode codec episode authored m = Ok (id, m') -> settled episode m id m'.
Proof.
  intros Hok Hx; unfold settle_episode, violates in Hx; apply then_Ok in Hx as (found & m1 & H1 & Hx); apply select_Ok in H1 as [-> ->].
  set (found := Episode.id episode ≫= extending m) in *; case_match eqn:Em; all_txn.
  match goal with H1 : allocate_episode_id m = Ok (?i, ?mid) |- _ => destruct (allocate_Ok _ _ _ Hok H1) as (-> & -> & Hok1) end.
  set (id := default (next_episode_id m) (fst <$> found)) in *.
  assert (Hid : id < next_episode_id m + 1 /\ (episodes m !! id = None -> id = next_episode_id m)).
  { unfold id, found; destruct (Episode.id episode) as [i|]; simpl; [| split; [lia | done]].
    unfold extending; destruct (extendable m i) as [e|] eqn:Ee; simpl; [| split; [lia | done]].
    apply extendable_episode in Ee; split; [apply (ok_episode _ Hok) in Ee; lia | congruence]. }
  destruct Hid as [Hlt Hnew].
  match goal with H1 : for_each _ _ (write_episode id ?row ?mid) = Ok _ |- _ =>
    destruct (write_episode_Ok id row mid Hok1 Hlt) as (Hok2 & Hn2 & He2 & Hh2 & Ha2) end.
  { intros Hnone source Hin; simpl in *; rewrite (Hnew Hnone) in Hin; apply (ok_member _ Hok) in Hin; lia. }
  match goal with H1 : for_each _ _ ?w = Ok (_, ?mid) |- _ => set (written := w) in *; destruct (insert_members_Ok _ _ _ _ _ H1) as [Ar Mem Keep]; rename mid into members_in end.
  unfold around_members in Ar; injection Ar as Au As Ae Ah An; injection He2 as Eu Es Em2; simpl in *.
  split; simpl.
  - apply (memories_ok_same members_in); try done; [| apply Keep; [done | lia]]; simpl.
    intros i e Hi; by eapply ok_episode; [apply Keep; [done | lia] |].
  - congruence.
  - congruence.
  - intros i h Hi; rewrite Ah; by apply Hh2.
  - intros x; rewrite Mem, Em2; simpl; assert (Hs : source_exists x.2 written = source_exists x.2 m) by (unfold source_exists; by rewrite Eu, Es).
    by rewrite Hs.
  - intros Hnone; assert (id = next_episode_id m) as Hidn by (unfold id, found; by rewrite Hnone); split; [done |].
    rewrite Ah; apply Ha2; rewrite Hidn; apply eq_None_not_Some; intros [e He].
    + apply (ok_episode _ Hok) in He; lia.
    + apply (ok_handle _ Hok) in He; lia.
Qed.
Lemma settle_episodes_ok authored l : forall m ids m', memories_ok m -> settle_episodes codec authored l m = Ok (ids, m') -> memories_ok m'.
Proof.
  induction l as [|episode l IH]; intros m ids m' Hok Hx; simpl in Hx; all_txn; [done |].
  match goal with H1 : settle_episode _ _ _ m = Ok _ |- _ => apply (settle_episode_Ok _ _ _ _ _ Hok) in H1 as [Hok1 _ _ _ _ _] end.
  by eapply IH.
Qed.

(** The episodes of a settlement that are all new: numbered by the counter,
    active, each with the members it was given. *)
Lemma settle_new_episodes authored l : forall m ids m', memories_ok m -> Forall (fun e => Episode.id e = None) l ->
  settle_episodes codec authored l m = Ok (ids, m') ->
  length ids = length l
  /\ (forall i h, memory_handles m !! i = Some h -> memory_handles m' !! i = Some h)
  /\ (forall k id, ids !! k = Some id -> id = next_episode_id m + Z.of_nat k /\ memory_handles m' !! id = Some HandleActive)
  /\ (forall x, x ∈ episode_members m' <-> x ∈ episode_members m
       \/ exists k e, l !! k = Some e /\ x.1 = next_episode_id m + Z.of_nat k /\ x.2 ∈ sources_of e /\ source_exists x.2 m = true).
Proof.
  induction l as [|episode l IH]; intros m ids m' Hok Hnew Hx; simpl in Hx; all_txn.
  - split_and!; try done; intros y; split; [by left | intros [?|(k & e & Hk & _)]; [done | by rewrite lookup_nil in Hk]].
  - apply Forall_cons in Hnew as [Hn Hnew].
    match goal with H1 : settle_episode _ _ _ m = Ok (?id, ?mid), H2 : settle_episodes _ _ l ?mid = Ok (?rest, _) |- _ =>
      apply (settle_episode_Ok _ _ _ _ _ Hok) in H1 as [Hok1 Hnx Hev Hh Hm Hs]; apply (IH _ _ _ Hok1 Hnew) in H2 as (IL & IHh & II & IM) end.
    destruct (Hs Hn) as [-> Ha].
    split_and!.
    + simpl; by rewrite IL.
    + intros i h Hi; by apply IHh, Hh.
    + intros [|k] id Hk; simpl in Hk; [injection Hk as <-; split; [lia | by apply IHh] |].
      destruct (II k id Hk) as [-> ?]; rewrite Hnx in *; split; [lia | done].
    + assert (Hse : forall y, source_exists y x0 = source_exists y m) by (intros y; unfold source_exists; by injection Hev as -> ->).
      intros y; rewrite IM, Hm, Hnx; split.
      * intros [[?|(E & ? & ?)]|(k & e & Hk & E & Hin & Hex)]; [by left | right; exists 0%nat, episode | right; exists (S k), e].
        -- split_and!; try done; lia.
        -- rewrite Hse in Hex; split_and!; try done; lia.
      * intros [?|([|k] & e & Hk & E & Hin & Hex)]; [by left; left | left; right | right; exists k, e].
        -- simpl in Hk; injection Hk as <-; split_and!; try done; lia.
        -- rewrite Hse; split_and!; try done; lia.
Qed.
End Owners.

(** ** What the guards of a settlement admit *)

Lemma check_assigned_Ok m owner l : forall assigned after_, check_assigned m owner assigned l = Ok after_ ->
  NoDup l /\ (forall x, x ∈ l -> x ∉ assigned) /\ after_ = list_to_set l ∪ assigned
  /\ (forall x o, x ∈ l -> active_owners m !! x = Some o -> Some o = owner).
Proof.
  induction l as [|source l IH]; intros assigned after_ Hx; simpl in Hx; all_ok.
  - subst; split_and!; [constructor | by intros y ?%not_elem_of_nil | set_solver | by intros y o ?%not_elem_of_nil].
  - apply IH in Hx as (Hn & Ha & -> & Ho).
    repeat match goal with Hb : bool_decide (_ ∈ assigned) = false |- _ => apply bool_decide_eq_false in Hb end.
    split_and!.
    + apply NoDup_cons; split; [intros Hin; apply Ha in Hin; set_solver | done].
    + intros y [->|Hin]%elem_of_cons; [done | apply Ha in Hin; set_solver].
    + set_solver.
    + intros y o [->|Hin]%elem_of_cons Hxo; [| by eapply Ho].
      match goal with Hs : some_and _ _ = false |- _ => rewrite Hxo in Hs; simpl in Hs; apply negb_false_iff, bool_decide_eq_true in Hs end; done.
Qed.

Definition all_sources (l : list EpisodeInput) : list Source := l ≫= sources_of.

Lemma check_episodes_Ok m l : forall assigned u, check_episodes m assigned l = Ok u ->
  NoDup (all_sources l) /\ (forall x, x ∈ all_sources l -> x ∉ assigned)
  /\ (forall e x o, e ∈ l -> x ∈ sources_of e -> active_owners m !! x = Some o -> Episode.id e = Some o).
Proof.
  induction l as [|episode l IH]; intros assigned u Hx; simpl in Hx; all_ok.
  - split_and!; [constructor | by intros y ?%not_elem_of_nil | by intros e y o ?%not_elem_of_nil].
  - match goal with H1 : check_assigned _ _ _ _ = Ok _ |- _ => apply check_assigned_Ok in H1 as (Hn & Ha & -> & Ho) end.
    apply IH in Hx as (IN & IA & IO); unfold all_sources in *; simpl; split_and!.
    + apply NoDup_app; split_and!; [done | | done]; intros y Hx1 Hx2; apply IA in Hx2; set_solver.
    + intros y [Hin|Hin]%elem_of_app; [by apply Ha | apply IA in Hin; set_solver].
    + intros e y o [->|He]%elem_of_cons Hs Hxo; [symmetry; by eapply Ho | by eapply IO].
Qed.

(** A source is of one episode of a settlement. *)
Lemma one_episode l i j e f x : NoDup (all_sources l) -> l !! i = Some e -> l !! j = Some f -> x ∈ sources_of e -> x ∈ sources_of f -> i = j.
Proof.
  revert i j; induction l as [|g l IH]; intros i j Hn Hi Hj He Hf; [done |]; unfold all_sources in *; simpl in Hn.
  apply NoDup_app in Hn as (_ & Hd & Hn).
  assert (Hin : forall k h, l !! k = Some h -> x ∈ sources_of h -> x ∈ l ≫= sources_of).
  { intros k h Hk Hh; apply list_elem_of_bind; exists h; split; [done | by eapply list_elem_of_lookup_2]. }
  destruct i as [|i], j as [|j]; simpl in *; simplify_eq; [done | | | f_equal; by apply IH].
  - exfalso; eapply Hd; eauto.
  - exfalso; eapply Hd; eauto.
Qed.
