(* ===== verification/FormationSource.v ===== *)
(** * The fingerprint of a session's source

    [capture_formation_source_fingerprint] of
    [persistence/postgres/memory_formation.rs]: a digest of every event of a
    capture session, erased ones included, with the screenshots and
    utterances projected from each, read in pages of bounded size and framed
    so that no two sources have the same message.  The counts are of rows held
    in memory; they do not overflow.  The paged reading makes the message of
    all the rows in one piece ([fingerprint_is_of_message]), and the framing
    makes the message determine the rows ([source_message_inj]). *)
From stdpp Require Import gmap sorting.
From Stdlib Require Import ZArith Lia.
From S2P Require Import Prelude OrdMap Text Errors Bytes Txn VoiceEnrollment CaptureManifest.
From S2P Require Import CaptureStore CaptureCommit CaptureSeal FormationDb.
Local Open Scope kioku_scope.

(** ** Keyset pagination

    Reading an ordered table in pages of a bounded size, each page the rows
    after the last key of the page before it, and what that comes to: the
    whole table, once and in order. *)

Section Keyset.
Context {A K : Type} `{Ord K} (key : A -> K) (size : nat).

Definition past (cursor : option K) (x : A) : bool :=
  match cursor with None => true | Some c => ord_ltb c (key x) end.

(** [WHERE $1 IS NULL OR key>$1 ORDER BY key LIMIT size], of the ordered
    rows. *)
Definition page (rows : list A) (cursor : option K) : list A := take size (List.filter (past cursor) rows).

(** [loop { ... if row_count < size { break } }] *)
Fixpoint pages {S : Type} (fuel : nat) (process : list A -> S -> res S) (rows : list A) (cursor : option K) (state : S) : res S :=
  match fuel with
  | O => Ok state
  | Datatypes.S fuel =>
    let found := page rows cursor in
    let? state := process found state in
    if (length found <? size)%nat then Ok state else pages fuel process rows (key <$> last found) state
  end.

(** A table has one row per key. *)
Definition keyed (rows : list A) : Prop := StronglySorted (fun a b => lt_ord (key a) (key b)) rows.

Lemma past_none rows : List.filter (past None) rows = rows.
Proof. induction rows as [|x l IH]; [done | by cbn [List.filter past]; rewrite IH]. Qed.

Lemma past_drop before x after :
  keyed (before ++ x :: after) -> List.filter (past (Some (key x))) (before ++ x :: after) = after.
Proof.
  intros (Hcross & _ & Hs)%StronglySorted_app; apply StronglySorted_inv in Hs as [_ Hx].
  assert (Hb : forall l, (forall y, y ∈ l -> lt_ord (key y) (key x)) -> List.filter (past (Some (key x))) l = []).
  { induction l as [|y l IH]; intros Hl; [done |]; cbn [List.filter]; rewrite IH by (intros; apply Hl; by right).
    specialize (Hl y ltac:(left)); unfold past, ord_ltb; rewrite (cmp_flip (key y)); unfold lt_ord in Hl; by rewrite Hl. }
  rewrite List.filter_app, Hb by (intros; apply Hcross; [done | left]); cbn [List.filter app].
  assert (past (Some (key x)) x = false) as -> by (unfold past, ord_ltb; by rewrite cmp_refl).
  clear -Hx; induction after as [|y l IH]; [done |].
  apply Forall_cons in Hx as [Hy Hl]; cbn [List.filter].
  assert (past (Some (key x)) y = true) as -> by (unfold past, ord_ltb; unfold lt_ord in Hy; by rewrite Hy).
  f_equal; by apply IH.
Qed.

Lemma keyset_step {S} (process : list A -> S -> res S) fuel rows cursor rest state :
  (0 < size)%nat -> keyed rows -> (exists before, rows = before ++ rest /\ List.filter (past cursor) rows = rest) ->
  (forall a b st, process (a ++ b) st = let? st' := process a st in process b st') ->
  (forall st, process [] st = Ok st) ->
  (length rest < fuel)%nat ->
  pages fuel process rows cursor state = process rest state.
Proof.
  intros Hsize Hkeyed Hrest Happ Hnil; revert cursor rest state Hrest.
  induction fuel as [|fuel IH]; intros cursor rest state (before & Hrows & Hfilter) Hf; [lia |].
  cbn [pages]; unfold page; rewrite Hfilter.
  rewrite <- (take_drop size rest) at 2; rewrite Happ.
  destruct (process (take size rest) state) as [st|]; cbn [result_bind]; [| done].
  rewrite length_take; case_match eqn:Elen.
  - apply Nat.ltb_lt in Elen; rewrite drop_ge by lia; by rewrite Hnil.
  - apply Nat.ltb_ge in Elen; assert (Hl : (size <= length rest)%nat) by lia.
    destruct (last (take size rest)) as [x|] eqn:Elast; cbn [fmap option_fmap option_map].
    + apply last_Some in Elast as (init & Einit).
      apply IH; [| rewrite length_drop; lia].
      exists (before ++ take size rest); split; [by rewrite <- app_assoc, take_drop |].
      assert (Hsplit : rows = (before ++ init) ++ x :: drop size rest).
      { rewrite Hrows, <- app_assoc; f_equal; rewrite <- (take_drop size rest) at 1; by rewrite Einit, <- app_assoc. }
      rewrite Hsplit; apply past_drop; by rewrite <- Hsplit.
    + apply last_None in Elast; apply (f_equal length) in Elast; rewrite length_take in Elast; simpl in Elast; lia.
Qed.

(** What is done page by page is done to the whole table. *)
Lemma pages_all {S} (process : list A -> S -> res S) rows state :
  (0 < size)%nat -> keyed rows ->
  (forall a b st, process (a ++ b) st = let? st' := process a st in process b st') ->
  (forall st, process [] st = Ok st) ->
  pages (Datatypes.S (length rows)) process rows None state = process rows state.
Proof.
  intros Hsize Hk Happ Hnil; apply (keyset_step _ _ _ _ rows); try done; [| lia].
  exists []; split; [done | apply past_none].
Qed.

Lemma pages_ext {S} (f g : list A -> S -> res S) fuel rows cursor state :
  (forall l st, f l st = g l st) -> pages fuel f rows cursor state = pages fuel g rows cursor state.
Proof.
  intros Hfg; revert cursor state; induction fuel as [|fuel IH]; intros cursor state; [done |]; cbn [pages]; rewrite Hfg.
  destruct (g _ _) as [st|]; cbn [result_bind]; [| done]; by rewrite IH.
Qed.
End Keyset.

(** Sorting rows with distinct keys. *)
Lemma sort_by_key_keyed {A K} `{Ord K} (key : A -> K) (rows : list A) : NoDup (key <$> rows) -> keyed key (sort_by_key key rows).
Proof.
  intros Hnd; pose proof (sort_by_key_sorted key rows) as Hs.
  assert (Hnd' : NoDup (key <$> sort_by_key key rows)) by (unfold sort_by_key; by rewrite (sort_by_perm (on_key key))).
  unfold keyed; revert Hnd'; induction Hs as [|x l Hs IH Hx]; intros Hnd'; [constructor |].
  cbn in Hnd'; apply NoDup_cons in Hnd' as [Hni Hnd']; constructor; [by apply IH |].
  rewrite Forall_forall in *; intros y Hy; specialize (Hx y Hy); unfold on_key in Hx.
  apply ord_leb_cases in Hx as [Heq|]; [| done].
  destruct Hni; rewrite Heq; by apply list_elem_of_fmap_2.
Qed.

Local Open Scope Z_scope.

Definition EVENT_PAGE_SIZE : nat := 128.
Definition PROJECTION_PAGE_SIZE : nat := 512.

(** ** Framing *)

Definition frame (value : bytes) : bytes := be_bytes 8 (Z.of_nat (length value)) ++ value.
Definition frame_text (s : str) : bytes := frame (as_bytes s).

Definition optional_text (value : option str) : bytes :=
  match value with None => [0%N] | Some v => 1%N :: frame_text v end.

Definition optional_i64 (value : option Z) : bytes :=
  match value with None => [0%N] | Some v => 1%N :: be_bytes 8 v end.

Definition bool_byte (b : bool) : bytes := [if b then 1%N else 0%N].

Record FingerprintEvent := {
  fe_deleted : bool; fe_event : str; fe_stream : str; fe_sequence : Z; fe_manifest_digest : str;
  fe_deletion_episode : option Z; fe_deletion_provenance : option str; fe_disposition : option str;
  fe_canonical : option str; fe_evidence : option str
}.

Inductive Projection :=
| ScreenshotProjection (id : Z) (owned : bool) (captured_ms : Z)
    (active_app window_title ocr_text salient_ocr_text url : option str) (is_duplicate : bool) (source_key : str)
| UtteranceProjection (id : Z) (owned : bool) (started_ms ended_ms : Z) (label : str) (language : option str) (text : str).

Definition record_type (p : Projection) : str :=
  match p with ScreenshotProjection _ _ _ _ _ _ _ _ _ _ => lit "screenshot" | UtteranceProjection _ _ _ _ _ _ _ => lit "utterance" end.

Definition record_id (p : Projection) : Z :=
  match p with ScreenshotProjection id _ _ _ _ _ _ _ _ _ | UtteranceProjection id _ _ _ _ _ _ => id end.

Definition event_start (e : FingerprintEvent) : bytes :=
  [1%N] ++ bool_byte (fe_deleted e) ++ frame_text (fe_event e) ++ frame_text (fe_stream e) ++ be_bytes 8 (fe_sequence e)
  ++ frame_text (fe_manifest_digest e) ++ optional_i64 (fe_deletion_episode e) ++ optional_text (fe_deletion_provenance e)
  ++ optional_text (fe_disposition e) ++ optional_text (fe_canonical e) ++ optional_text (fe_evidence e).

Definition event_end (projection_count : nat) : bytes := 2%N :: be_bytes 8 (Z.of_nat projection_count).

Definition projection_columns (p : Projection) : bytes :=
  match p with
  | ScreenshotProjection id owned captured app window ocr salient url dup key =>
    be_bytes 8 id ++ bool_byte owned ++ be_bytes 8 captured ++ optional_text app ++ optional_text window ++ optional_text ocr
    ++ optional_text salient ++ optional_text url ++ bool_byte dup ++ frame_text key
  | UtteranceProjection id owned started ended label language text =>
    be_bytes 8 id ++ bool_byte owned ++ be_bytes 8 started ++ be_bytes 8 ended ++ frame_text label ++ optional_text language
    ++ frame_text text
  end.

Definition projection_bytes (p : Projection) : bytes := [16%N] ++ frame_text (record_type p) ++ projection_columns p.

(** ** The rows *)

Section Rows.
Context {Voice : Type}.
Implicit Types s : Store Voice.

Definition disposition_text (d : MediaDisposition) : str := match d with Canonical => lit "canonical" | Reference => lit "reference" end.

Definition live_event (kv : str * EventRow) : FingerprintEvent :=
  let '(id, e) := kv in
  {| fe_deleted := false; fe_event := id; fe_stream := er_stream e; fe_sequence := er_sequence e;
     fe_manifest_digest := er_manifest_digest e; fe_deletion_episode := None; fe_deletion_provenance := None;
     fe_disposition := Some (disposition_text (er_disposition e)); fe_canonical := canonical_event_id <$> er_reference e;
     fe_evidence := Some (root_of id e) |}.

Definition deleted_event (kv : str * DeletedRow) : FingerprintEvent :=
  let '(id, d) := kv in
  {| fe_deleted := true; fe_event := id; fe_stream := dr_stream d; fe_sequence := dr_sequence d;
     fe_manifest_digest := dr_manifest_digest d; fe_deletion_episode := Some (dr_deletion_episode_id d);
     fe_deletion_provenance := Some (dr_provenance d); fe_disposition := None; fe_canonical := None; fe_evidence := None |}.

(** An erased event is of the session its stream is of. *)
Definition deleted_in_session (session : str) s (d : DeletedRow) : bool :=
  some_and (fun row => str_eqb (st_session row) session) (streams s !! dr_stream d).

Definition event_key (e : FingerprintEvent) : str * (Z * (str * Z)) :=
  (fe_stream e, (fe_sequence e, (fe_event e, if fe_deleted e then 1 else 0))).

(** [exact_event], in its order. *)
Definition exact_events (session : str) s : list FingerprintEvent :=
  sort_by_key event_key
    ((live_event <$> events_of session s) ++ (deleted_event <$> rows_of (deleted_in_session session s) (deleted_sequences s))).

Definition screenshot_projection (m : Memories) (event : str) (kv : Z * ScreenshotRow) : option Projection :=
  let '(id, r) := kv in
  match sh_source_key r with
  | Some key =>
    if str_eqb key (cloud_key event)
    then Some (ScreenshotProjection id (active_owned m (Screenshot id)) (sh_captured_ms r) (sh_active_app r) (sh_window_title r)
                 (sh_ocr_text r) (sh_salient_ocr_text r) (sh_url r) (sh_is_duplicate r) key)
    else None
  | None => None
  end.

Definition utterance_projection (m : Memories) (event : str) (kv : Z * UtteranceRow) : option Projection :=
  let '(id, u) := kv in
  match observation_of m u with
  | Some o =>
    if observed_in {[ event ]} o
    then Some (UtteranceProjection id (active_owned m (Utterance id)) (so_started_ms o) (so_ended_ms o) (ut_speaker_label u)
                 (ut_language u) (ut_text u))
    else None
  | None => None
  end.

(** The rows projected from one evidence event. *)
Definition projections (m : Memories) (event : str) : list Projection :=
  sort_by_key (fun p => (record_type p, record_id p))
    (omap (screenshot_projection m event) (map_to_list (screenshots m)) ++ omap (utterance_projection m event) (map_to_list (utterances m))).

Definition event_projections (m : Memories) (e : FingerprintEvent) : list Projection :=
  match fe_evidence e with Some event => projections m event | None => [] end.

(** [projected]: the rows of a page of events, each under the index of its
    event. *)
Definition projected (m : Memories) (events : list FingerprintEvent) : list (Z * Projection) :=
  zip (Z.of_nat <$> seq 0 (length events)) events ≫= fun ie => pair ie.1 <$> event_projections m ie.2.
End Rows.

(** ** One page of events *)

Record BatchState := { next_event : nat; open_event : option nat; projection_count : nat; digest : bytes }.

Definition order_invalid : EnclaveError := Errors.Store (lit "capture formation projection order is invalid").
Definition order_regressed : EnclaveError := Errors.Store (lit "capture formation projection order regressed").

Definition event_at (events : list FingerprintEvent) (i : nat) : bytes := match events !! i with Some e => event_start e | None => [] end.

(** Events without projections, one after the other. *)
Definition empty_events (events : list FingerprintEvent) (from till : nat) : bytes :=
  seq from (till - from) ≫= fun i => event_at events i ++ event_end 0.

(** The end of the event that is open. *)
Definition close_event (st : BatchState) : BatchState :=
  match open_event st with
  | Some i => {| next_event := S i; open_event := None; projection_count := projection_count st;
                 digest := digest st ++ event_end (projection_count st) |}
  | None => st
  end.

Definition open_at (events : list FingerprintEvent) (ordinal : nat) (st : BatchState) : res BatchState :=
  if bool_decide (open_event st = Some ordinal) then Ok st
  else
    let st := close_event st in
    let? _ := refuse (ordinal <? next_event st)%nat order_regressed in
    Ok {| next_event := Nat.max (next_event st) ordinal; open_event := Some ordinal; projection_count := 0;
          digest := digest st ++ empty_events events (next_event st) ordinal ++ event_at events ordinal |}.

Definition project_row (events : list FingerprintEvent) (st : BatchState) (row : Z * Projection) : res BatchState :=
  let? _ := refuse (row.1 <? 0) (Errors.Store (lit "capture formation projection event index is invalid")) in
  let ordinal := Z.to_nat row.1 in
  let? _ := refuse ((length events <=? ordinal)%nat || some_and (fun o => (ordinal <? o)%nat) (open_event st)) order_invalid in
  let? st := open_at events ordinal st in
  Ok {| next_event := next_event st; open_event := open_event st; projection_count := S (projection_count st);
        digest := digest st ++ projection_bytes row.2 |}.

Fixpoint project_rows (events : list FingerprintEvent) (rows : list (Z * Projection)) (st : BatchState) : res BatchState :=
  match rows with
  | [] => Ok st
  | row :: rest => let? st := project_row events st row in project_rows events rest st
  end.

Definition row_key (row : Z * Projection) : Z * (str * Z) := (row.1, (record_type row.2, record_id row.2)).

(** The rows of [projected] as the query orders them. *)
Definition ordered_rows (m : Memories) (events : list FingerprintEvent) : list (Z * Projection) := sort_by_key row_key (projected m events).

Definition event_batch (m : Memories) (events : list FingerprintEvent) (message : bytes) : res bytes :=
  let rows := ordered_rows m events in
  let? st := pages row_key PROJECTION_PAGE_SIZE (S (length rows)) (project_rows events) rows None
               {| next_event := 0; open_event := None; projection_count := 0; digest := message |} in
  let st := close_event st in
  Ok (digest st ++ empty_events events (next_event st) (length events)).

(** ** The fingerprint *)

Section Fingerprint.
Context {Voice Speakers : Type} (sha256 : bytes -> bytes) (account : str).
Implicit Types db : Formation Voice Speakers.

Definition fingerprint_header (session : str) (revision : Z) : bytes :=
  blit "kioku.capture-formation.source.v3" ++ [0%N] ++ frame_text account ++ frame_text session ++ be_bytes 8 revision.

Definition event_page (m : Memories) (events : list FingerprintEvent) (acc : nat * bytes) : res (nat * bytes) :=
  let? message := event_batch m events acc.2 in
  Ok ((acc.1 + length events)%nat, message).

Definition capture_formation_source_fingerprint (session : str) (revision : Z) db : res bytes :=
  let events := exact_events session (capture db) in
  let? acc := pages event_key EVENT_PAGE_SIZE (S (length events)) (event_page (memories db)) events None
                (0%nat, fingerprint_header session revision) in
  Ok (sha256 (acc.2 ++ [255%N] ++ be_bytes 8 (Z.of_nat acc.1))).

(** *** What is fingerprinted *)

(** The events of a session with their projections. *)
Definition source_rows (session : str) db : list (FingerprintEvent * list Projection) :=
  (fun e => (e, event_projections (memories db) e)) <$> exact_events session (capture db).

Definition event_bytes (row : FingerprintEvent * list Projection) : bytes :=
  event_start row.1 ++ (row.2 ≫= projection_bytes) ++ event_end (length row.2).

(** The message in one piece. *)
Definition source_message (session : str) (revision : Z) (rows : list (FingerprintEvent * list Projection)) : bytes :=
  fingerprint_header session revision ++ (rows ≫= event_bytes) ++ [255%N] ++ be_bytes 8 (Z.of_nat (length rows)).
End Fingerprint.

(** ** A page of events, row by row *)

Section Batch.
Context (events : list FingerprintEvent).
Implicit Types rows : list (Z * Projection).

Definition at_ordinal (o : nat) rows : list Projection := snd <$> List.filter (fun r => r.1 =? Z.of_nat o) rows.

(** The events from one on, with the rows under each. *)
Definition serialize (n : nat) rows : bytes :=
  seq n (length events - n) ≫= fun i =>
    event_at events i ++ (at_ordinal i rows ≫= projection_bytes) ++ event_end (length (at_ordinal i rows)).

Definition finish_batch (st : BatchState) : bytes :=
  let st := close_event st in digest st ++ empty_events events (next_event st) (length events).

Definition from_ordinal (o : nat) rows : Prop := Forall (fun r => Z.of_nat o <= r.1) rows.
Definition within_page rows : Prop := Forall (fun r => 0 <= r.1 < Z.of_nat (length events)) rows.

Lemma bind_ext_in {A B} (f g : A -> list B) l : (forall x, x ∈ l -> f x = g x) -> l ≫= f = l ≫= g.
Proof.
  induction l as [|x l IH]; intros H; [done |]; cbn [mbind list_bind]; rewrite (H x) by left; f_equal; apply IH.
  intros y Hy; apply H; by right.
Qed.

Lemma at_ordinal_none i rows : (forall r, r ∈ rows -> r.1 <> Z.of_nat i) -> at_ordinal i rows = [].
Proof.
  induction rows as [|r l IH]; intros H; [done |]; unfold at_ordinal in *; cbn [List.filter].
  destruct (Z.eqb_spec r.1 (Z.of_nat i)) as [E|]; [by apply H in E; [| left] |]; apply IH; intros; apply H; by right.
Qed.

Lemma serialize_skip n j rows :
  (n <= j <= length events)%nat -> from_ordinal j rows -> serialize n rows = empty_events events n j ++ serialize j rows.
Proof.
  intros Hj Hf; unfold serialize.
  replace (length events - n)%nat with ((j - n) + (length events - j))%nat by lia.
  rewrite seq_app, bind_app; replace (n + (j - n))%nat with j by lia; f_equal.
  unfold empty_events; apply bind_ext_in; intros i Hi; apply elem_of_seq in Hi.
  rewrite at_ordinal_none; [done |]; intros r Hr; unfold from_ordinal in Hf; rewrite Forall_forall in Hf; apply Hf in Hr; lia.
Qed.

Lemma serialize_step j rows :
  (j < length events)%nat ->
  serialize j rows = event_at events j ++ (at_ordinal j rows ≫= projection_bytes) ++ event_end (length (at_ordinal j rows))
                     ++ serialize (S j) rows.
Proof.
  intros Hj; unfold serialize; replace (length events - j)%nat with (S (length events - S j))%nat by lia.
  cbn [seq mbind list_bind]; by rewrite <- !app_assoc.
Qed.

Lemma serialize_past n r rows : (r.1 < Z.of_nat n) -> serialize n (r :: rows) = serialize n rows.
Proof.
  intros Hr; apply bind_ext_in; intros i Hi; apply elem_of_seq in Hi.
  assert (at_ordinal i (r :: rows) = at_ordinal i rows) as ->; [| done].
  unfold at_ordinal; cbn [List.filter]; destruct (Z.eqb_spec r.1 (Z.of_nat i)); [lia | done].
Qed.

Lemma serialize_nil n : serialize n [] = empty_events events n (length events).
Proof. done. Qed.

(** What is still to be written once some rows are left. *)
Definition to_come (st : BatchState) rows : bytes :=
  match open_event st with
  | Some o => (at_ordinal o rows ≫= projection_bytes) ++ event_end (projection_count st + length (at_ordinal o rows)) ++ serialize (S o) rows
  | None => serialize (next_event st) rows
  end.

Definition state_before (st : BatchState) rows : Prop :=
  match open_event st with
  | Some o => (o < length events)%nat /\ from_ordinal o rows
  | None => (next_event st <= length events)%nat /\ from_ordinal (next_event st) rows
  end.

(** Opening the event of the next row. *)
Lemma open_at_ok j st rows :
  state_before st rows -> from_ordinal j rows -> (j < length events)%nat ->
  (match open_event st with Some o => (o <= j)%nat | None => (next_event st <= j)%nat end) ->
  exists st', open_at events j st = Ok st' /\ open_event st' = Some j
    /\ digest st' ++ to_come st' rows = digest st ++ to_come st rows.
Proof.
  intros Hst Hrows Hj Hle; unfold open_at; case_bool_decide as Heq; [by exists st |].
  unfold state_before in Hst; unfold to_come at 2.
  destruct (open_event st) as [o|] eqn:Ho; unfold close_event; rewrite Ho; simpl.
  - destruct Hst as [Ho' Hf]; assert (o < j)%nat by (destruct (decide (o = j)); [congruence | lia]).
    replace (j <? S o)%nat with false by (symmetry; apply Nat.ltb_ge; lia); simpl.
    eexists; split_and!; [done.. |]; unfold to_come; simpl; rewrite (at_ordinal_none o).
    + rewrite (serialize_skip (S o) j) by (done || lia); rewrite (serialize_step j) by done.
      by rewrite Nat.add_0_r, <- !app_assoc.
    + intros r Hr; unfold from_ordinal in Hrows; rewrite Forall_forall in Hrows; apply Hrows in Hr; lia.
  - replace (j <? next_event st)%nat with false by (symmetry; apply Nat.ltb_ge; lia); simpl.
    eexists; split_and!; [done.. |]; unfold to_come; simpl.
    rewrite (serialize_skip (next_event st) j) by (done || lia); rewrite (serialize_step j) by done.
    by rewrite <- !app_assoc.
Qed.

Lemma project_rows_ok rows : forall st,
  StronglySorted (fun a b => a.1 <= b.1) rows -> within_page rows -> state_before st rows ->
  exists st', project_rows events rows st = Ok st' /\ finish_batch st' = digest st ++ to_come st rows.
Proof.
  induction rows as [|[z p] rows IH]; intros st Hs Hw Hst.
  - exists st; split; [done |]; unfold finish_batch, to_come, close_event; destruct (open_event st) as [o|] eqn:Ho; [| done].
    simpl; by rewrite Nat.add_0_r, <- app_assoc.
  - apply StronglySorted_inv in Hs as [Hs Hz]; apply Forall_cons in Hw as [Hzw Hw]; cbn [fst] in *.
    destruct (Z_of_nat_complete z) as [j ->]; [lia |].
    assert (Hj : (j < length events)%nat) by lia.
    assert (Hfrom : from_ordinal j ((Z.of_nat j, p) :: rows)) by (constructor; [simpl; lia | done]).
    assert (Hle : match open_event st with Some o => (o <= j)%nat | None => (next_event st <= j)%nat end).
    { unfold state_before in Hst; destruct (open_event st); destruct Hst as [_ Hf]; apply Forall_cons in Hf as [Hf _]; simpl in Hf; lia. }
    destruct (open_at_ok j st _ Hst Hfrom Hj Hle) as (st1 & Hopen & Ho1 & Hbytes).
    cbn [project_rows]; unfold project_row; cbn [fst snd].
    replace (Z.of_nat j <? 0) with false by (symmetry; apply Z.ltb_ge; lia); cbn [refuse result_bind]; rewrite Nat2Z.id.
    replace (length events <=? j)%nat with false by (symmetry; apply Nat.leb_gt; lia).
    assert (some_and (fun o => (j <? o)%nat) (open_event st) = false) as ->.
    { destruct (open_event st); simpl; [apply Nat.ltb_ge; lia | done]. }
    cbn [orb refuse result_bind]; rewrite Hopen; cbn [result_bind].
    set (st2 := {| next_event := _ |}).
    destruct (IH st2) as (st' & Hrun & Hfin); [done.. | |].
    { unfold state_before, st2; simpl; rewrite Ho1; split; [done |]; by apply Forall_cons in Hfrom as [_ ?]. }
    exists st'; split; [done |]; rewrite Hfin, <- Hbytes; unfold to_come, st2; simpl; rewrite Ho1.
    rewrite serialize_past by (simpl; lia).
    assert (at_ordinal j ((Z.of_nat j, p) :: rows) = p :: at_ordinal j rows) as -> by (unfold at_ordinal; cbn [List.filter fst]; by rewrite Z.eqb_refl).
    cbn [mbind list_bind length]; rewrite <- !app_assoc, Nat.add_succ_r; done.
Qed.
End Batch.

(** ** The rows of a page *)

Definition projection_key (p : Projection) : str * Z := (record_type p, record_id p).

Lemma NoDup_omap_key {A B K L} (f : A -> option B) (key : B -> L) (from : A -> K) (h : K -> L) (l : list A) :
  Inj (=) (=) h -> (forall a b, f a = Some b -> key b = h (from a)) -> NoDup (from <$> l) -> NoDup (key <$> omap f l).
Proof.
  intros Hinj Hf; induction l as [|a l IH]; intros Hnd; [constructor |].
  cbn in Hnd; apply NoDup_cons in Hnd as [Hni Hnd]; cbn [omap list_omap].
  destruct (f a) as [b|] eqn:Eb; [| by apply IH]; cbn; apply NoDup_cons; split; [| by apply IH].
  rewrite (Hf _ _ Eb), list_elem_of_fmap; intros (b' & E & Hin); apply list_elem_of_omap in Hin as (a' & Ha' & Eb').
  rewrite (Hf _ _ Eb') in E; apply Hinj in E; apply Hni; rewrite E; by apply list_elem_of_fmap_2.
Qed.

Lemma NoDup_projections m event : NoDup (projection_key <$> projections m event).
Proof.
  unfold projections, sort_by_key; rewrite sort_by_perm, fmap_app, NoDup_app; split_and!.
  - apply (NoDup_omap_key _ _ fst (pair (lit "screenshot"))); [by intros ? ? [=] | | apply NoDup_fst_map_to_list].
    intros [id r] b; unfold screenshot_projection; repeat case_match; try done; by intros [= <-].
  - intros k (p & -> & Hp)%list_elem_of_fmap (q & Hq & Hin)%list_elem_of_fmap.
    apply list_elem_of_omap in Hp as ([? ?] & _ & Hp), Hin as ([? ?] & _ & Hin).
    unfold screenshot_projection in Hp; unfold utterance_projection in Hin; repeat case_match; simplify_eq/=.
  - apply (NoDup_omap_key _ _ fst (pair (lit "utterance"))); [by intros ? ? [=] | | apply NoDup_fst_map_to_list].
    intros [id u] b; unfold utterance_projection; repeat case_match; try done; by intros [= <-].
Qed.

Section Rows.
Context (m : Memories).
Implicit Types events : list FingerprintEvent.

(** The rows of events whose indices start somewhere. *)
Definition rows_from (k : nat) events : list (Z * Projection) :=
  zip (Z.of_nat <$> seq k (length events)) events ≫= fun ie => pair ie.1 <$> event_projections m ie.2.

Lemma rows_from_cons k e events : rows_from k (e :: events) = (pair (Z.of_nat k) <$> event_projections m e) ++ rows_from (S k) events.
Proof. done. Qed.

Lemma elem_of_rows_from events : forall k r, r ∈ rows_from k events -> Z.of_nat k <= r.1 < Z.of_nat (k + length events).
Proof.
  induction events as [|e l IH]; intros k r Hr; [by apply not_elem_of_nil in Hr |].
  rewrite rows_from_cons in Hr; apply elem_of_app in Hr as [(p & -> & _)%list_elem_of_fmap | Hr]; simpl; [lia |].
  apply IH in Hr; simpl in Hr; lia.
Qed.

Lemma NoDup_rows events : forall k, NoDup (row_key <$> rows_from k events).
Proof.
  induction events as [|e l IH]; intros k; [constructor |].
  rewrite rows_from_cons, fmap_app, NoDup_app; split_and!; [| | apply IH].
  - rewrite <- list_fmap_compose; unfold event_projections; destruct (fe_evidence e) as [event|]; [| constructor].
    assert (Hk : row_key ∘ pair (Z.of_nat k) <$> projections m event = pair (Z.of_nat k) <$> (projection_key <$> projections m event))
      by (rewrite <- list_fmap_compose; done).
    rewrite Hk; apply NoDup_fmap_2; [by intros ? ? [=] | apply NoDup_projections].
  - intros q (r & -> & (p & -> & _)%list_elem_of_fmap)%list_elem_of_fmap (r' & E & Hr')%list_elem_of_fmap.
    apply elem_of_rows_from in Hr'; unfold row_key in E; injection E as E _; simpl in *; lia.
Qed.

Lemma ordered_keyed events : keyed row_key (ordered_rows m events).
Proof. apply sort_by_key_keyed, (NoDup_rows events 0). Qed.

Lemma ordered_ordinals events : StronglySorted (fun a b => a.1 <= b.1) (ordered_rows m events).
Proof.
  pose proof (ordered_keyed events) as Hk; unfold keyed in Hk; induction Hk as [|x l Hl IH Hx]; constructor; [done |].
  eapply Forall_impl; [exact Hx |]; intros y Hlt; unfold lt_ord, row_key in Hlt; simpl in Hlt.
  destruct (Z.compare_spec x.1 y.1); lia || done.
Qed.

Lemma ordered_within events : within_page events (ordered_rows m events).
Proof.
  unfold within_page; rewrite Forall_forall; intros r Hr; unfold ordered_rows, sort_by_key in Hr; rewrite elem_of_sort_by in Hr.
  by apply (elem_of_rows_from events 0) in Hr.
Qed.

Lemma filter_Permutation {A} (f : A -> bool) l k : Permutation l k -> Permutation (List.filter f l) (List.filter f k).
Proof. induction 1; simpl; repeat case_match; try done; [by f_equiv | constructor | by etransitivity]. Qed.

Lemma at_ordinal_rows events i e : forall k,
  events !! i = Some e -> at_ordinal (k + i) (rows_from k events) = event_projections m e.
Proof.
  revert i; induction events as [|e' l IH]; intros i k Hi; [done |]; rewrite rows_from_cons; unfold at_ordinal.
  rewrite List.filter_app, fmap_app.
  assert (Hhead : forall (j : nat), List.filter (fun r => r.1 =? Z.of_nat j) (pair (Z.of_nat k) <$> event_projections m e')
            = if decide (j = k) then pair (Z.of_nat k) <$> event_projections m e' else []).
  { intros j; clear; induction (event_projections m e') as [|p ps IHp]; [by case_decide |]; cbn [fmap list_fmap List.filter fst].
    fold (pair (Z.of_nat k) <$> ps); rewrite IHp; case_decide; subst; [by rewrite Z.eqb_refl |].
    by replace (Z.of_nat k =? Z.of_nat j) with false by (symmetry; apply Z.eqb_neq; lia). }
  rewrite Hhead; destruct i as [|i]; simpl in Hi.
  - injection Hi as ->; rewrite decide_True by lia; rewrite <- list_fmap_compose.
    assert (Hrest : at_ordinal (k + 0) (rows_from (S k) l) = []).
    { apply at_ordinal_none; intros r Hr; apply elem_of_rows_from in Hr; lia. }
    unfold at_ordinal in Hrest; rewrite Hrest, app_nil_r; clear; induction (event_projections m e); [done |]; cbn; by f_equal.
  - rewrite decide_False by lia; simpl; replace (k + S i)%nat with (S k + i)%nat by lia; by apply IH.
Qed.

(** Under the index of an event are its projections, in order. *)
Lemma at_ordinal_ordered events i e :
  events !! i = Some e -> at_ordinal i (ordered_rows m events) = event_projections m e.
Proof.
  intros Hi; pose proof (at_ordinal_rows events i e 0 Hi) as Hr; simpl in Hr.
  apply (sorted_perm_unique (fun a b => on_key projection_key a b = true)).
  - intros x y Hx Hy H1 H2; pose proof (ord_leb_antisym _ _ H1 H2) as E.
    assert (Hnd : NoDup (projection_key <$> event_projections m e)).
    { unfold event_projections; destruct (fe_evidence e); [apply NoDup_projections | constructor]. }
    assert (Hperm : Permutation (at_ordinal i (ordered_rows m events)) (event_projections m e)).
    { rewrite <- Hr; unfold at_ordinal; apply fmap_Permutation, filter_Permutation, sort_by_perm. }
    rewrite Hperm in Hx, Hy.
    apply list_elem_of_lookup in Hx as [a Ha], Hy as [b Hb].
    assert (a = b) as ->; [| congruence].
    eapply (NoDup_lookup _ _ _ _ Hnd); rewrite list_lookup_fmap; [by rewrite Ha | rewrite Hb; simpl; by rewrite E].
  - unfold at_ordinal; pose proof (filter_sorted _ (fun r => r.1 =? Z.of_nat i) _ (ordered_keyed events)) as Hs.
    assert (Hall : Forall (fun r => r.1 = Z.of_nat i) (List.filter (fun r => r.1 =? Z.of_nat i) (ordered_rows m events))).
    { rewrite Forall_forall; intros r Hrow; apply elem_of_filter_bool in Hrow as [_ Hrow]; by apply Z.eqb_eq. }
    induction Hs as [|x l Hl IH Hx]; [constructor |]; apply Forall_cons in Hall as [Hx0 Hall].
    cbn; constructor; [by apply IH |]; rewrite Forall_forall in Hx, Hall; rewrite Forall_forall; intros p (r & -> & Hrow)%list_elem_of_fmap.
    specialize (Hx r Hrow); specialize (Hall r Hrow); unfold on_key, ord_leb; unfold lt_ord, row_key in Hx; simpl in Hx.
    rewrite Hx0, Hall, Z.compare_refl in Hx; unfold projection_key; simpl; by rewrite Hx.
  - unfold event_projections; destruct (fe_evidence e); [| constructor]; apply sort_by_key_sorted.
  - rewrite <- Hr; unfold at_ordinal; apply fmap_Permutation, filter_Permutation, sort_by_perm.
Qed.

(** *** A page of events, in one piece *)

Definition with_projections (e : FingerprintEvent) : FingerprintEvent * list Projection := (e, event_projections m e).

Lemma serialize_rows events : serialize events 0 (ordered_rows m events) = (with_projections <$> events) ≫= event_bytes.
Proof.
  unfold serialize; rewrite Nat.sub_0_r.
  rewrite (bind_ext_in _ (fun i => match events !! i with Some e => event_bytes (with_projections e) | None => [] end)).
  - clear; assert (H : forall l k, (seq (length k) (length l) ≫= fun i => match (k ++ l) !! i with Some e => event_bytes (with_projections e) | None => [] end)
        = (with_projections <$> l) ≫= event_bytes).
    { induction l as [|e l IH]; intros k; [done |]; cbn [length seq mbind list_bind fmap list_fmap].
      rewrite list_lookup_middle by done; f_equal; specialize (IH (k ++ [e])); rewrite length_app in IH; simpl in IH.
      rewrite Nat.add_1_r in IH; rewrite <- app_assoc in IH; exact IH. }
    apply (H events []).
  - intros i Hi; apply elem_of_seq in Hi; destruct (lookup_lt_is_Some_2 events i) as [e He]; [lia |].
    unfold event_at; rewrite He, (at_ordinal_ordered _ _ _ He); done.
Qed.

Lemma event_batch_ok events message : event_batch m events message = Ok (message ++ ((with_projections <$> events) ≫= event_bytes)).
Proof.
  unfold event_batch; rewrite pages_all.
  - destruct (project_rows_ok events (ordered_rows m events) {| next_event := 0; open_event := None; projection_count := 0; digest := message |})
      as (st & Hrun & Hfin); [apply ordered_ordinals | apply ordered_within | |].
    + split; simpl; [lia |]; unfold from_ordinal; eapply Forall_impl; [apply ordered_within |]; simpl; lia.
    + rewrite Hrun; cbn [result_bind]; f_equal; unfold finish_batch in Hfin; rewrite Hfin; unfold to_come; simpl.
      by rewrite serialize_rows.
  - unfold PROJECTION_PAGE_SIZE; lia.
  - apply ordered_keyed.
  - induction a as [|row a IH]; intros b st; [done |]; cbn [app project_rows]; destruct (project_row events st row); [apply IH | done].
  - done.
Qed.
End Rows.

(** ** The whole fingerprint *)

Section Whole.
Context {Voice Speakers : Type} (sha256 : bytes -> bytes) (account : str).
Implicit Types db : Formation Voice Speakers.

Lemma NoDup_rows_of {R} (keep : R -> bool) (rows : gmap str R) : NoDup (fst <$> rows_of keep rows).
Proof.
  unfold rows_of; pose proof (NoDup_fst_map_to_list rows) as Hnd; revert Hnd; generalize (map_to_list rows); clear.
  induction l as [|x l IH]; intros Hnd; [constructor |]; cbn in Hnd; apply NoDup_cons in Hnd as [Hni Hnd]; simpl.
  case_match; [| by apply IH]; cbn; apply NoDup_cons; split; [| by apply IH].
  intros (y & E & Hy)%list_elem_of_fmap; apply elem_of_filter_bool in Hy as [Hy _]; apply Hni; rewrite E; by apply list_elem_of_fmap_2.
Qed.

Lemma NoDup_fmap_key {A K L} (key : A -> L) (from : A -> K) (l : list A) :
  (forall a b, key a = key b -> from a = from b) -> NoDup (from <$> l) -> NoDup (key <$> l).
Proof.
  intros Hk; induction l as [|a l IH]; intros Hnd; [constructor |]; cbn in *; apply NoDup_cons in Hnd as [Hni Hnd].
  apply NoDup_cons; split; [| by apply IH]; intros (b & E & Hb)%list_elem_of_fmap; apply Hni; rewrite (Hk _ _ E); by apply list_elem_of_fmap_2.
Qed.

Lemma exact_events_keyed session (s : Store Voice) : keyed event_key (exact_events session s).
Proof.
  apply sort_by_key_keyed; rewrite fmap_app, <- !list_fmap_compose, NoDup_app; split_and!.
  - apply (NoDup_fmap_key _ fst); [| apply NoDup_rows_of]; intros [i e] [j e']; unfold event_key; simpl; by intros [=].
  - intros k ([i e] & -> & _)%list_elem_of_fmap ([j d] & E & _)%list_elem_of_fmap; unfold event_key in E; simpl in E; discriminate E.
  - apply (NoDup_fmap_key _ fst); [| apply NoDup_rows_of]; intros [i e] [j e']; unfold event_key; simpl; by intros [=].
Qed.

Lemma event_page_ok m events acc :
  event_page m events acc = Ok ((acc.1 + length events)%nat, acc.2 ++ ((with_projections m <$> events) ≫= event_bytes)).
Proof. unfold event_page; by rewrite event_batch_ok. Qed.

(** Read page by page, the fingerprint is of the message in one piece. *)
Lemma fingerprint_is_of_message session revision db :
  capture_formation_source_fingerprint sha256 account session revision db
  = Ok (sha256 (source_message account session revision (source_rows session db))).
Proof.
  unfold capture_formation_source_fingerprint.
  rewrite (pages_ext _ _ _ _ _ _ _ _ (event_page_ok (memories db))), pages_all.
  - cbn [result_bind fst snd]; unfold source_message, source_rows; rewrite <- app_assoc, length_fmap; done.
  - unfold EVENT_PAGE_SIZE; lia.
  - apply exact_events_keyed.
  - intros a b [n x]; cbn [result_bind fst snd]; rewrite length_app, fmap_app, bind_app, <- app_assoc, Nat.add_assoc; done.
  - intros [n x]; cbn [fst snd length fmap list_fmap mbind list_bind]; by rewrite app_nil_r, Nat.add_0_r.
Qed.
End Whole.

(** ** The framing is unambiguous *)

(** A text the database can hold. *)
Definition text_ok (s : str) : Prop := Forall is_scalar s /\ byte_len s < 2 ^ 64.

Definition event_ok (e : FingerprintEvent) : Prop :=
  text_ok (fe_event e) /\ text_ok (fe_stream e) /\ I64.in_range (fe_sequence e) /\ text_ok (fe_manifest_digest e)
  /\ option_wf I64.in_range (fe_deletion_episode e) /\ option_wf text_ok (fe_deletion_provenance e)
  /\ option_wf text_ok (fe_disposition e) /\ option_wf text_ok (fe_canonical e) /\ option_wf text_ok (fe_evidence e).

Definition projection_ok (p : Projection) : Prop :=
  match p with
  | ScreenshotProjection id _ captured app window ocr salient url _ key =>
    I64.in_range id /\ I64.in_range captured /\ option_wf text_ok app /\ option_wf text_ok window /\ option_wf text_ok ocr
    /\ option_wf text_ok salient /\ option_wf text_ok url /\ text_ok key
  | UtteranceProjection id _ started ended label language text =>
    I64.in_range id /\ I64.in_range started /\ I64.in_range ended /\ text_ok label /\ option_wf text_ok language /\ text_ok text
  end.

Definition row_ok (row : FingerprintEvent * list Projection) : Prop := event_ok row.1 /\ Forall projection_ok row.2.

#[export] Instance code_frame : PrefixCode text_ok (code_pure frame_text).
Proof.
  intros a b x y r s [Ha La] [Hb Lb] <-%Ok_inj <-%Ok_inj H; unfold frame_text, frame in H; rewrite <- !app_assoc in H.
  apply app_inj_1 in H as [Hl H]; [| by rewrite !be_bytes_length].
  pose proof (byte_len_nonneg a); pose proof (byte_len_nonneg b).
  apply be_bytes_inj_unsigned in Hl; [| change (256 ^ Z.of_nat 8) with (2 ^ 64); rewrite as_bytes_length; lia ..].
  apply app_inj_1 in H as [H ->]; [| lia]; by apply as_bytes_inj in H as ->.
Qed.

Lemma optional_text_code v : code_pure optional_text v = code_option (code_pure frame_text) v.
Proof. by destruct v. Qed.

Lemma optional_i64_code v : code_pure optional_i64 v = code_option (code_pure (be_bytes 8)) v.
Proof. by destruct v. Qed.

#[export] Instance code_optional_text : PrefixCode (option_wf text_ok) (code_pure optional_text).
Proof. intros a b x y r s Ha Hb Ex Ey; rewrite optional_text_code in Ex, Ey; by apply (prefix_code (enc := code_option (code_pure frame_text)) a b). Qed.

#[export] Instance code_optional_i64 : PrefixCode (option_wf I64.in_range) (code_pure optional_i64).
Proof. intros a b x y r s Ha Hb Ex Ey; rewrite optional_i64_code in Ex, Ey; by apply (prefix_code (enc := code_option (code_pure (be_bytes 8))) a b). Qed.

(** Reads one field off the front of both messages. *)
Lemma field_inj {A} {P : A -> Prop} {f : A -> bytes} `{!PrefixCode P (code_pure f)} a b r s :
  P a -> P b -> f a ++ r = f b ++ s -> a = b /\ r = s.
Proof. intros Ha Hb; by apply (prefix_code (enc := code_pure f) a b). Qed.

Ltac read_fields :=
  repeat match goal with
         | H : (_ ++ _) ++ _ = _ |- _ => rewrite <- !app_assoc in H
         | H : be_bytes 8 _ ++ _ = be_bytes 8 _ ++ _ |- _ => apply (field_inj (P := I64.in_range)) in H as [-> H]; [| done..]
         | H : frame_text _ ++ _ = frame_text _ ++ _ |- _ => apply (field_inj (P := text_ok)) in H as [-> H]; [| done..]
         | H : optional_text _ ++ _ = optional_text _ ++ _ |- _ => apply (field_inj (P := option_wf text_ok)) in H as [-> H]; [| done..]
         | H : optional_i64 _ ++ _ = optional_i64 _ ++ _ |- _ => apply (field_inj (P := option_wf I64.in_range)) in H as [-> H]; [| done..]
         | H : bool_byte _ ++ _ = bool_byte _ ++ _ |- _ =>
           apply (field_inj (P := any_wf) (f := bool_byte) (PrefixCode0 := code_byte_bool)) in H as [-> H]; [| done..]
         end.

#[export] Instance code_event_start : PrefixCode event_ok (code_pure event_start).
Proof.
  intros [? ? ? ? ? ? ? ? ? ?] [? ? ? ? ? ? ? ? ? ?] x y r s Ha Hb <-%Ok_inj <-%Ok_inj H; unfold event_ok in *; simpl in Ha, Hb; destruct_and!.
  unfold event_start in H; cbn -[be_bytes frame_text optional_text optional_i64 bool_byte app] in H.
  rewrite <- !app_assoc in H; apply app_inv_head in H; read_fields; by subst.
Qed.

#[export] Instance code_projection : PrefixCode projection_ok (code_pure projection_bytes).
Proof.
  intros a b x y r s Ha Hb <-%Ok_inj <-%Ok_inj H; unfold projection_bytes in H; rewrite <- !app_assoc in H; apply app_inv_head in H.
  assert (Hty : forall p, text_ok (record_type p)).
  { intros []; unfold text_ok; split; [repeat constructor | reflexivity | repeat constructor | reflexivity]. }
  apply (field_inj (P := text_ok)) in H as [Ht H]; [| apply Hty..].
  destruct a, b; try discriminate Ht; clear Ht Hty; unfold projection_ok in *; destruct_and!; unfold projection_columns in H;
    rewrite <- !app_assoc in H; read_fields; by subst.
Qed.

(** A list whose items start with one byte, ended by another. *)
Lemma until_inj {A} (P : A -> Prop) (f : A -> bytes) (t u : N) `{!PrefixCode P (code_pure f)} :
  t <> u -> (forall a, exists rest, f a = t :: rest) ->
  forall l k r s, Forall P l -> Forall P k -> (l ≫= f) ++ u :: r = (k ≫= f) ++ u :: s -> l = k /\ r = s.
Proof.
  intros Htu Ht; induction l as [|a l IH]; intros [|b k] r s Hl Hk H; cbn [mbind list_bind app] in H.
  - by injection H.
  - destruct (Ht b) as (rest & E); rewrite E in H; by injection H.
  - destruct (Ht a) as (rest & E); rewrite E in H; by injection H.
  - apply Forall_cons in Hl as [Ha Hl], Hk as [Hb Hk]; rewrite <- !app_assoc in H.
    apply (field_inj (P := P)) in H as [-> H]; [| done..]; by destruct (IH k r s Hl Hk H) as [-> ->].
Qed.

#[export] Instance code_event_row : PrefixCode row_ok (code_pure event_bytes).
Proof.
  intros [e l] [e' k] x y r s [He Hl] [He' Hk] <-%Ok_inj <-%Ok_inj H; unfold event_bytes in H; cbn [fst snd] in *.
  rewrite <- !app_assoc in H; apply (field_inj (P := event_ok)) in H as [-> H]; [| done..].
  unfold event_end in H; cbn [app] in H.
  apply (until_inj projection_ok projection_bytes 16 2) in H as [-> H]; [| done | by eexists | done..].
  by apply app_inv_head in H as ->.
Qed.

Lemma source_message_inj account account' session session' revision revision' rows rows' :
  text_ok account -> text_ok account' -> text_ok session -> text_ok session' -> I64.in_range revision -> I64.in_range revision' ->
  Forall row_ok rows -> Forall row_ok rows' ->
  source_message account session revision rows = source_message account' session' revision' rows' ->
  account = account' /\ session = session' /\ revision = revision' /\ rows = rows'.
Proof.
  intros Ha Ha' Hs Hs' Hr Hr' Hw Hw' H; unfold source_message, fingerprint_header in H; rewrite <- !app_assoc in H.
  apply app_inv_head, app_inv_head in H; read_fields.
  by apply (until_inj row_ok event_bytes 1 255) in H as [-> _]; [| done | by eexists | ..].
Qed.
