(* ===== verification/Formation.v ===== *)
(** * The storage of exact-session formation

    The claims of [persistence/postgres/memory_formation.rs] on finished
    capture sessions: a session's evidence is formed one page at a time, each
    page claimed, sent to the model with one request an attempt, its response
    staged and then settled into episodes, until the pages of a revision cover
    its evidence exactly.  A receipt whose sources changed is refreshed.  The forward lane has one claim per account on a
    window of its timeline, and its settlement may advance the cursor the
    exact-session lane waits for.  Row locks are not modelled: the account's
    transactions are serial. *)
From stdpp Require Import gmap sorting.
From Stdlib Require Import ZArith Lia.
From S2P Require Import Prelude OrdMap Text F64 Errors Bytes Json IsoTime Presentation CaptureManifest MediaKeys VoiceEnrollment.
From S2P Require Import Vertex VertexFlow Summarizer SummarizerFlow UsageDb Txn CaptureStore CaptureCommit CaptureSeal.
From S2P Require Import FormationDb FormationMemories FormationSource Episode.
Local Open Scope Z_scope.
Local Open Scope kioku_scope.

Definition CAPTURE_FORMATION_UTTERANCE_PAGE_SIZE : nat := 4000.
Definition CAPTURE_FORMATION_SCREENSHOT_PAGE_SIZE : nat := 2000.
Definition CAPTURE_FORMATION_RETRY_MS : Z := 10 * 60 * 1000.
Definition CAPTURE_FORMATION_QUIET_MS : Z := 30 * 1000.
Definition PROVIDER_EGRESS_CLAIM_FENCE_MS : Z := 15 * 60 * 1000.
Definition MAX_STAGED_FORMATION_RESPONSE_BYTES : Z := 2 * 1024 * 1024.
Definition CONSERVATIVE_MODEL : str := lit "conservative-capture-page-keep-v1".

(** ** Requests, commitments and identities *)

Section Requests.
Context (sha256 : bytes -> bytes) (codec : FormationCodec) (account : str).

Definition request_contract_invalid (r : CaptureFormationProviderRequest) : bool :=
  negb (some_and (fun schema => value_eqb schema (rq_response_schema r)) (capture_formation_response_schema (contract_version r)))
  || ((contract_version r =? 1) && negb (map_is_empty (rq_authored_labels r)))
  || is_empty (vertex_project r) || (256 <? byte_len (vertex_project r))
  || is_empty (vertex_location r) || (128 <? byte_len (vertex_location r))
  || is_empty (rq_model r) || (256 <? byte_len (rq_model r))
  || negb (str_eqb (api_version r) (lit "v1")) || negb (str_eqb (publisher r) (lit "google"))
  || negb (str_eqb (method r) (lit "generateContent")) || negb (str_eqb (response_mime_type r) (lit "application/json"))
  || negb (max_output_tokens r =? CAPTURE_FORMATION_PROVIDER_MAX_OUTPUT_TOKENS) || negb (thinking_budget r =? 0)
  || existsb (fun value => negb (path_segment value)) [vertex_project r; vertex_location r; rq_model r].

(** The bytes of a request, which are the text [to_vec] writes. *)
Definition capture_formation_provider_request_text (r : CaptureFormationProviderRequest) : res str :=
  let? _ := refuse (request_contract_invalid r) (invalid "capture formation provider request contract is invalid") in
  let? text := ok_or (request_to_text codec r) Errors.Json in
  let? _ := refuse (CAPTURE_FORMATION_PROVIDER_REQUEST_MAX_BYTES <? byte_len text)
                   (invalid "capture formation provider request exceeds its exact byte bound") in
  Ok text.

Definition capture_formation_provider_caller_anchor (r : CaptureFormationProviderRequest) : res bytes :=
  let? _ := capture_formation_provider_request_text r in
  custom_text_request_caller_anchor sha256 (value_bytes codec)
    {| r_operation := EpisodeSummary; r_system := rq_system_prompt r; r_user_message := rq_user_message r;
       r_schema := rq_response_schema r; r_max_output_tokens := max_output_tokens r; r_model := rq_model r |}.

Definition of_bytes (b : bytes) : Value := VArray ((fun x => of_Z (Z.of_N x)) <$> b).
Definition of_ids (ids : list Z) : Value := VArray (of_Z <$> ids).

Definition capture_formation_page_commitment (source_fingerprint : bytes) (page_index : Z) (covered_utterance_ids covered_screenshot_ids
    provider_utterance_ids provider_screenshot_ids : list Z) (has_more : bool) : res bytes :=
  let? body := ok_or (value_bytes codec (object
    [("source_fingerprint", of_bytes source_fingerprint); ("page_index", of_Z page_index);
     ("covered_utterance_ids", of_ids covered_utterance_ids); ("covered_screenshot_ids", of_ids covered_screenshot_ids);
     ("provider_utterance_ids", of_ids provider_utterance_ids); ("provider_screenshot_ids", of_ids provider_screenshot_ids);
     ("has_more", VBool has_more)]%string)) Errors.Json in
  Ok (sha256 (blit "kioku.capture-formation.page.v1" ++ [0%N] ++ body)).

Definition capture_formation_provider_attempt_identity (session : str) (revision page_index : Z) (commitment : bytes) (attempt : Z) : bytes :=
  sha256 (blit "kioku.capture-formation.provider-attempt.v1" ++ [0%N] ++ as_bytes account ++ [0%N] ++ as_bytes session
          ++ be_bytes 8 revision ++ be_bytes 8 page_index ++ commitment ++ be_bytes 8 attempt).

(** The event of an attempt, which the usage ledger names the same way. *)
Definition attempt_event_id (attempt_identity : bytes) : res str :=
  let? _ := refuse (negb (length attempt_identity =? 32)%nat) (invalid "capture formation provider attempt is invalid") in
  Ok (vertex_attempt_event_id sha256 attempt_identity).

(** [capture_formation_page_from_row]: a stored page with its request read,
    once its digests are found right. *)
Record FormationPage := { page_row : PageRow; page_request : option CaptureFormationProviderRequest }.

Definition row_commitment (src : PageSource) : res bytes :=
  capture_formation_page_commitment (pg_fingerprint src) (pg_index src) (pg_covered_utterances src) (pg_covered_screenshots src)
    (pg_provider_utterances src) (pg_provider_screenshots src) (pg_has_more src).

Definition stored_request (p : PageRow) : res (option CaptureFormationProviderRequest) :=
  match pg_provider_request p with
  | None => Ok None
  | Some (text, _) => let? r := ok_or (request_of_text codec text) Errors.Json in Ok (Some r)
  end.

Definition check_request (p : PageRow) (request : option CaptureFormationProviderRequest) : res unit :=
  match request, pg_provider_request p with
  | Some r, Some (_, commitment) =>
    let? text := capture_formation_provider_request_text r in
    refuse (negb (bool_decide (sha256 (as_bytes text) = commitment)))
           (Errors.Store (lit "capture formation provider request commitment mismatch"))
  | _, _ => Ok tt
  end.

Definition check_staged (p : PageRow) : res unit :=
  match pg_staged_response p with
  | None => Ok tt
  | Some (response, commitment, _) =>
    let? _ := refuse (bool_decide (pg_provider_request p = None))
                     (Errors.Store (lit "capture formation staged response has no bound provider request")) in
    refuse (negb (bool_decide (sha256 (as_bytes response) = commitment)))
           (Errors.Store (lit "capture formation staged response commitment mismatch"))
  end.

Definition capture_formation_page_from_row (p : PageRow) : res FormationPage :=
  let? request := stored_request p in
  let? commitment := row_commitment (pg_source p) in
  let? _ := refuse (negb (bool_decide (commitment = pg_commitment (pg_source p))))
                   (Errors.Store (lit "capture formation page commitment mismatch")) in
  let? _ := check_request p request in
  let? _ := check_staged p in
  Ok {| page_row := p; page_request := request |}.

Definition attempt_of (p : PageRow) : bytes :=
  let src := pg_source p in
  capture_formation_provider_attempt_identity (pg_session src) (pg_source_revision src) (pg_index src) (pg_commitment src) (pg_attempt p).
End Requests.

(** ** Pages of a revision *)

Section Pages.
Context {Voice Speakers : Type}.
Implicit Types s : Store Voice.

Definition of_revision (session : str) (revision : Z) (p : PageRow) : bool :=
  str_eqb (pg_session (pg_source p)) session && (pg_source_revision (pg_source p) =? revision).

Definition is_page (session : str) (revision index : Z) (p : PageRow) : bool :=
  of_revision session revision p && (pg_index (pg_source p) =? index).

Definition complete (p : PageRow) : bool := bool_decide (pg_state p = PageComplete).

(** A page still to be settled. *)
Definition is_open (p : PageRow) : bool := negb (complete p) && negb (bool_decide (pg_state p = PageInvalidated)).

Definition pages_of (session : str) (revision : Z) s : list PageRow := List.filter (of_revision session revision) (formation_pages s).

Definition covers_utterance (id : Z) (p : PageRow) : bool := existsb (Z.eqb id) (pg_covered_utterances (pg_source p)).
Definition covers_screenshot (id : Z) (p : PageRow) : bool := existsb (Z.eqb id) (pg_covered_screenshots (pg_source p)).

(** The first open page, [ORDER BY page_index LIMIT 1]. *)
Definition open_page (session : str) (revision : Z) s : option PageRow :=
  head (sort_by_key (fun p => pg_index (pg_source p)) (List.filter is_open (pages_of session revision s))).

Definition next_page_index (session : str) (revision : Z) s : Z :=
  match max_Z ((fun p => pg_index (pg_source p)) <$> List.filter complete (pages_of session revision s)) with Some i => i + 1 | None => 0 end.

(** A page of what no page of the revision covers yet. *)
Definition create_capture_formation_page (sha256 : bytes -> bytes) (codec : FormationCodec) (session : str) (revision : Z)
    (fingerprint : bytes) (index : Z) (db : Formation Voice Speakers) : res PageSource :=
  let s := capture db in
  let m := memories db in
  let pages := pages_of session revision s in
  let utterances := snd <$> List.filter (fun e => negb (existsb (covers_utterance e.2) pages)) (evidence_utterances session s m) in
  let screenshots := snd <$> List.filter (fun e => negb (existsb (covers_screenshot e.2) pages)) (evidence_screenshots session s m) in
  let has_more := (CAPTURE_FORMATION_UTTERANCE_PAGE_SIZE <? length (take (S CAPTURE_FORMATION_UTTERANCE_PAGE_SIZE) utterances))%nat
                  || (CAPTURE_FORMATION_SCREENSHOT_PAGE_SIZE <? length (take (S CAPTURE_FORMATION_SCREENSHOT_PAGE_SIZE) screenshots))%nat in
  let covered_utterances := take CAPTURE_FORMATION_UTTERANCE_PAGE_SIZE utterances in
  let covered_screenshots := take CAPTURE_FORMATION_SCREENSHOT_PAGE_SIZE screenshots in
  let provider_utterances := List.filter (fun id => negb (active_owned m (Utterance id))) covered_utterances in
  let provider_screenshots := List.filter (fun id => negb (active_owned m (Screenshot id))) covered_screenshots in
  let? commitment := capture_formation_page_commitment sha256 codec fingerprint index covered_utterances covered_screenshots
                       provider_utterances provider_screenshots has_more in
  Ok {| pg_session := session; pg_source_revision := revision; pg_index := index; pg_fingerprint := fingerprint;
        pg_commitment := commitment; pg_covered_utterances := covered_utterances; pg_covered_screenshots := covered_screenshots;
        pg_provider_utterances := provider_utterances; pg_provider_screenshots := provider_screenshots; pg_has_more := has_more |}.

(** [capture_formation_revision_coverage_complete]: the complete pages are
    numbered without a gap, each but the last has more, and together they
    cover the evidence of the session exactly. *)
Definition covered_sources (p : PageRow) : list Source :=
  (Utterance <$> pg_covered_utterances (pg_source p)) ++ (Screenshot <$> pg_covered_screenshots (pg_source p)).

Definition boundary_exact (last : Z) (p : PageRow) : bool :=
  if pg_index (pg_source p) =? last then negb (pg_has_more (pg_source p)) else pg_has_more (pg_source p).

Definition capture_formation_revision_coverage_complete (session : str) (revision : Z) (db : Formation Voice Speakers) : bool :=
  let done := List.filter complete (pages_of session revision (capture db)) in
  let indices := (fun p => pg_index (pg_source p)) <$> done in
  bool_decide (evidence session (capture db) (memories db) = list_to_set (done ≫= covered_sources))
  && match min_Z indices, max_Z indices with
     | Some first, Some last => (first =? 0) && (last + 1 =? Z.of_nat (length done)) && forallb (boundary_exact last) done
     | _, _ => false
     end.

(** The outcome of a revision from those of its pages. *)
Definition has_outcome (outcome : string) (p : PageRow) : bool := some_and (fun c => str_eqb (pc_outcome c) (lit outcome)) (pg_completed p).

Definition revision_outcome (session : str) (revision : Z) s : str :=
  let done := List.filter complete (pages_of session revision s) in
  if existsb (has_outcome "memories") done then lit "memories"
  else if existsb (has_outcome "accounted") done then lit "accounted" else lit "no_memory".
End Pages.

(** ** Updates of a page and of a receipt *)

Definition claimed_page (token : str) (until : Z) (p : PageRow) : PageRow :=
  {| pg_source := pg_source p; pg_state := PageProcessing; pg_claim := Some (token, until); pg_attempt := pg_attempt p;
     pg_provider_request := pg_provider_request p; pg_staged_response := pg_staged_response p; pg_completed := pg_completed p;
     pg_last_error := None |}.

Definition new_page (src : PageSource) (token : str) (until : Z) : PageRow :=
  {| pg_source := src; pg_state := PageProcessing; pg_claim := Some (token, until); pg_attempt := 1; pg_provider_request := None;
     pg_staged_response := None; pg_completed := None; pg_last_error := None |}.

Definition released_page (advance : bool) (error : option str) (p : PageRow) : PageRow :=
  {| pg_source := pg_source p; pg_state := PageRetryWait; pg_claim := None; pg_attempt := if advance then pg_attempt p + 1 else pg_attempt p;
     pg_provider_request := if advance then None else pg_provider_request p; pg_staged_response := pg_staged_response p;
     pg_completed := pg_completed p; pg_last_error := error |}.

Definition admitted_page (until : Z) (request : str * bytes) (p : PageRow) : PageRow :=
  {| pg_source := pg_source p; pg_state := pg_state p; pg_claim := (fun c => (c.1, Z.max c.2 until)) <$> pg_claim p;
     pg_attempt := pg_attempt p; pg_provider_request := Some (default request (pg_provider_request p));
     pg_staged_response := pg_staged_response p; pg_completed := pg_completed p; pg_last_error := pg_last_error p |}.

Definition staged_page (staged : str * bytes * str) (p : PageRow) : PageRow :=
  {| pg_source := pg_source p; pg_state := pg_state p; pg_claim := pg_claim p; pg_attempt := pg_attempt p;
     pg_provider_request := pg_provider_request p; pg_staged_response := Some staged; pg_completed := pg_completed p;
     pg_last_error := pg_last_error p |}.

Definition completed_page (completion : PageCompletion) (p : PageRow) : PageRow :=
  {| pg_source := pg_source p; pg_state := PageComplete; pg_claim := None; pg_attempt := pg_attempt p; pg_provider_request := None;
     pg_staged_response := None; pg_completed := Some completion; pg_last_error := None |}.

(** A receipt with its claim and what goes with it changed. *)
Definition with_claim (now : Z) (r : ReceiptRow) (state : ReceiptState) (claim : option (Z * str * Z)) (fingerprint : option bytes)
    (next_attempt : option Z) (attempts : Z) (error : option str) : ReceiptRow :=
  {| source_revision := source_revision r; completed_revision := completed_revision r; rc_state := state; rc_claim := claim;
     rc_next_attempt_at := next_attempt; rc_attempt_count := attempts; rc_updated_at := now; rc_claimed_fingerprint := fingerprint;
     rc_completed_outcome := rc_completed_outcome r; rc_completed_claim_token := rc_completed_claim_token r;
     rc_completed_fingerprint := rc_completed_fingerprint r; rc_completed_at := rc_completed_at r; rc_last_error := error;
     finish_requested_at := finish_requested_at r; finish_provenance := finish_provenance r; seal_finalized_at := seal_finalized_at r;
     seal_generation := seal_generation r; seal_provenance := seal_provenance r |}.

Definition completed_receipt (now : Z) (fingerprint : bytes) (outcome : str) (token : str) (r : ReceiptRow) : ReceiptRow :=
  {| source_revision := source_revision r; completed_revision := source_revision r; rc_state := ReceiptComplete; rc_claim := None;
     rc_next_attempt_at := None; rc_attempt_count := rc_attempt_count r; rc_updated_at := now; rc_claimed_fingerprint := None;
     rc_completed_outcome := Some outcome; rc_completed_claim_token := Some token; rc_completed_fingerprint := Some fingerprint;
     rc_completed_at := Some now; rc_last_error := None; finish_requested_at := finish_requested_at r;
     finish_provenance := finish_provenance r; seal_finalized_at := seal_finalized_at r; seal_generation := seal_generation r;
     seal_provenance := seal_provenance r |}.

(** ** Claims *)

Section Claims.
Context {Voice Speakers : Type} `{VoiceGraph Voice} `{SpeakerGraph Voice Speakers}.
Context (sha256 : bytes -> bytes) (codecs : Codec) (codec : FormationCodec) (account : str) (now : Z).
Implicit Types db : Formation Voice Speakers.

#[local] Abbreviation txn := (txn (Formation Voice Speakers)).
#[local] Abbreviation fingerprint := (capture_formation_source_fingerprint sha256 account).

Definition violates (condition : bool) : txn unit := abort_if condition Postgres.

(** [rollback(); return Ok(None)], of a transaction that answers nothing. *)
Definition or_rolls_back {A} (m : txn (option (option A))) : txn (option A) :=
  fun db => match m db with
            | Ok (Some answer, db') => Ok (answer, db')
            | Ok (None, _) => Ok (None, db)
            | Err e => Err e
            end.

(** The span of a session and its events. *)
Definition evidence_start (s : Store Voice) (session : str) (row : SessionRow) : Z :=
  foldr Z.min (cs_started_ms row) ((fun kv => er_started_ms kv.2) <$> events_of session s).

Definition evidence_end (s : Store Voice) (session : str) (row : SessionRow) : Z :=
  Z.max (default (cs_last_event_ms row) (cs_ended_ms row)) (last_evidence s session row).

(** A finished session that nothing has touched for a while, behind the
    account's cursor. *)
Definition formation_settled db (kv : str * (ReceiptRow * SessionRow)) : bool :=
  let '(session, (r, row)) := kv in
  let s := capture db in
  ended row && some_and (fun requested => requested <=? now - CAPTURE_FORMATION_QUIET_MS) (finish_requested_at r)
  && some_and (fun cursor => evidence_end s session row <=? cursor) (summarized_until db)
  && negb (is_empty (session_streams session s)) && forallb (settled_stream s) (session_streams session s)
  && forallb (settled_event now CAPTURE_FORMATION_QUIET_MS s) (events_of session s).

Definition capture_session_is_formation_ready (session : str) db : bool :=
  match receipts (capture db) !! session, sessions (capture db) !! session with
  | Some r, Some row => formation_settled db (session, (r, row))
  | _, _ => false
  end.

(** [source_revision>completed_revision] and no live claim. *)
Definition claimable (r : ReceiptRow) : bool :=
  (completed_revision r <? source_revision r)
  && match rc_state r with
     | ReceiptPending => true
     | ReceiptRetryWait => some_and (fun at_ms => at_ms <=? now) (rc_next_attempt_at r)
     | ReceiptProcessing => some_and (fun c => c.2 <=? now) (rc_claim r)
     | ReceiptComplete => false
     end.

Definition claim_candidate db (kv : str * (ReceiptRow * SessionRow)) : bool :=
  bool_decide (account_status (capture db) = Some (lit "active")) && claimable kv.2.1 && formation_settled db kv.

Definition select_candidate db : option (str * (ReceiptRow * SessionRow)) :=
  head (sort_by_key (fun kv => (rc_updated_at kv.2.1, kv.1)) (List.filter (claim_candidate db) (receipts_with_sessions (capture db)))).

Definition page_constraints (p : PageRow) (l : list PageRow) : bool :=
  let src := pg_source p in
  existsb (is_page (pg_session src) (pg_source_revision src) (pg_index src)) l
  || existsb (fun q => of_revision (pg_session src) (pg_source_revision src) q && bool_decide (pg_commitment (pg_source q) = pg_commitment src)) l
  || negb (length (pg_fingerprint src) =? 32)%nat || negb (length (pg_commitment src) =? 32)%nat.

Definition update_pages (which : PageRow -> bool) (f : PageRow -> PageRow) : txn unit :=
  on_capture (set_pages (fmap (fun p => if which p then f p else p))).

(** The page a claim is on, with its request: the open one of the revision,
    claimed again, or a new one. *)
Definition claim_page (session : str) (revision : Z) (source : bytes) (token : str) (until : Z) : txn (FormationPage * bool) :=
  let^ existing := select (fun db => open_page session revision (capture db)) in
  match existing with
  | Some p =>
    let^ page := try_res (capture_formation_page_from_row sha256 codec p) in
    abort_if (negb (bool_decide (pg_fingerprint (pg_source p) = source))) (Conflict (lit "capture formation page source changed before reclaim")) ^;
    let which := fun q => is_page session revision (pg_index (pg_source p)) q && is_open q in
    let^ changed := select (fun db => existsb which (formation_pages (capture db))) in
    update_pages which (claimed_page token until) ^;
    commits (page, changed)
  | None =>
    let^ created := select (fun db => create_capture_formation_page sha256 codec session revision source
                                        (next_page_index session revision (capture db)) db) in
    let^ src := try_res created in
    let page := new_page src token until in
    let^ refused := select (fun db => page_constraints page (formation_pages (capture db))) in
    violates refused ^;
    on_capture (set_pages (fun l => l ++ [page])) ^;
    commits ({| page_row := page; page_request := None |}, true)
  end.

Definition the_claim (session : str) (revision : Z) (source : bytes) (from_ms to_ms : Z) (token : str) (page : FormationPage) : CaptureFormationClaim :=
  let p := page_row page in
  let src := pg_source p in
  {| cf_account_id := account; cf_capture_session_id := session; cf_source_revision := revision; cf_source_fingerprint := source;
     cf_from := format_epoch_millis from_ms; cf_to := format_epoch_millis to_ms; cf_page_index := pg_index src;
     cf_page_source_commitment := pg_commitment src;
     cf_provider_attempt_identity := capture_formation_provider_attempt_identity sha256 account session revision (pg_index src) (pg_commitment src) (pg_attempt p);
     cf_provider_request := page_request page; cf_staged_provider_response := (fun r => r.1.1) <$> pg_staged_response p;
     cf_staged_vertex_event_id := snd <$> pg_staged_response p; cf_page_has_more := pg_has_more src;
     cf_covered_utterance_count := Z.of_nat (length (pg_covered_utterances src));
     cf_covered_screenshot_count := Z.of_nat (length (pg_covered_screenshots src)); cf_claim_token := token |}.

Definition claim_receipt (session : str) (r : ReceiptRow) (source : bytes) (token : str) (until : Z) : txn unit :=
  violates (negb (length source =? 32)%nat || negb (I64.in_rangeb (rc_attempt_count r + 1))) ^;
  on_capture (set_receipts (insert session
    (with_claim now r ReceiptProcessing (Some (source_revision r, token, until)) (Some source) None (rc_attempt_count r + 1) None))).

(** The claim of a selected session. *)
Definition claim_session (kv : str * (ReceiptRow * SessionRow)) (token : str) (until : Z) : txn (option (option CaptureFormationClaim)) :=
  let '(session, (r, row)) := kv in
  let revision := source_revision r in
  let^ span := select (fun db => (evidence_start (capture db) session row, evidence_end (capture db) session row)) in
  let^ ready := select (capture_session_is_formation_ready session) in
  abort_if (negb ready) (Conflict (lit "capture formation readiness changed while claiming")) ^;
  let^ digest := select (fingerprint session revision) in
  let^ source := try_res digest in
  let^ (page, page_changed) := claim_page session revision source token until in
  if negb page_changed then commits None
  else
    let^ current := select (fun db => receipts (capture db) !! session) in
    match current with
    | Some r' =>
      if (source_revision r' =? revision) && claimable r' then
        claim_receipt session r' source token until ^;
        on_capture (set_scans []) ^;
        commits (Some (Some (the_claim session revision source span.1 span.2 token page)))
      else commits None
    | None => commits None
    end.

Definition claim_capture_formation (lease_seconds : Z) (token : str) : txn (option CaptureFormationClaim) :=
  abort_if (negb ((1 <=? lease_seconds) && (lease_seconds <=? 3600))) (invalid "capture formation lease is invalid") ^;
  or_rolls_back (
    let^ installed := select (fun db => formation_installed (capture db)) in
    if negb installed then commits (Some None)
    else
      in_capture (import_legacy_provisional_finishes now) ^;
      in_capture (finalize_quiet_capture_seals sha256 codecs now) ^;
      let^ selected := select select_candidate in
      match selected with
      | None => commits (Some None)
      | Some kv => claim_session kv token (now + lease_seconds * 1000)
      end).

(** ** The holder of a claim *)

Definition claims_page (c : CaptureFormationClaim) (p : PageRow) : bool :=
  is_page (cf_capture_session_id c) (cf_source_revision c) (cf_page_index c) p
  && bool_decide (pg_state p = PageProcessing) && some_and (fun held => str_eqb held.1 (cf_claim_token c)) (pg_claim p).

Definition holds_page (c : CaptureFormationClaim) (p : PageRow) : bool :=
  claims_page c p && bool_decide (pg_commitment (pg_source p) = cf_page_source_commitment c).

Definition unexpired (claim : option (str * Z)) : bool := some_and (fun held => now <? held.2) claim.

Definition live_page (c : CaptureFormationClaim) (p : PageRow) : bool := holds_page c p && unexpired (pg_claim p).

(** The receipt a claim is on, whether or not it has expired. *)
Definition holds_receipt (c : CaptureFormationClaim) (r : ReceiptRow) : bool :=
  (source_revision r =? cf_source_revision c) && bool_decide (rc_state r = ReceiptProcessing)
  && some_and (fun held => str_eqb held.1.2 (cf_claim_token c)) (rc_claim r).

Definition live_receipt (c : CaptureFormationClaim) (r : ReceiptRow) : bool :=
  holds_receipt c r && bool_decide (rc_claimed_fingerprint r = Some (cf_source_fingerprint c))
  && some_and (fun held => (held.1.1 =? cf_source_revision c) && (now <? held.2)) (rc_claim r).

Definition receipt_of (c : CaptureFormationClaim) db : option ReceiptRow := receipts (capture db) !! cf_capture_session_id c.

Definition set_receipt (c : CaptureFormationClaim) (r : ReceiptRow) : txn unit :=
  on_capture (set_receipts (insert (cf_capture_session_id c) r)).

Definition find_page (which : PageRow -> bool) db : option PageRow := List.find which (formation_pages (capture db)).

(** *** Release *)

Definition advances (d : CaptureFormationRetryDisposition) : bool := match d with AdvanceConfirmedNotBilled => true | PreserveProviderAttempt => false end.

Definition release_capture_formation (c : CaptureFormationClaim) (error_code : option str) (d : CaptureFormationRetryDisposition) : txn unit :=
  abort_if (some_and (fun code => is_empty code || (128 <? byte_len code)) error_code) (invalid "capture formation error code is invalid") ^;
  let which := fun p => holds_page c p && (negb (advances d) || bool_decide (pg_staged_response p = None)) in
  let^ found := select (find_page which) in
  abort_if (bool_decide (found = None)) (Conflict (lit "capture formation page claim is no longer authoritative")) ^;
  let^ overflows := select (fun db => existsb (fun p => which p && negb (I64.in_rangeb (pg_attempt (released_page (advances d) error_code p))))
                                        (formation_pages (capture db))) in
  violates overflows ^;
  update_pages which (released_page (advances d) error_code) ^;
  let^ current := select (receipt_of c) in
  let lost := Conflict (lit "capture formation claim is no longer authoritative") in
  let^ r := try_res (ok_or current lost) in
  abort_if (negb (holds_receipt c r)) lost ^;
  set_receipt c (with_claim now r ReceiptRetryWait None None (Some (now + CAPTURE_FORMATION_RETRY_MS)) (rc_attempt_count r) error_code) ^;
  on_capture (set_scans []).

(** *** Evidence *)

Definition require_live (c : CaptureFormationClaim) (authoritative : bool) (e : EnclaveError) : txn unit :=
  let^ digest := select (fingerprint (cf_capture_session_id c) (cf_source_revision c)) in
  let^ current := try_res digest in
  let^ ready := select (capture_session_is_formation_ready (cf_capture_session_id c)) in
  abort_if (negb authoritative || negb (bool_decide (current = cf_source_fingerprint c)) || negb ready) e.

Definition source_changed : EnclaveError := Conflict (lit "capture formation source changed").

Definition summary_utterance db (e : Z * Z) : option SummaryUtterance :=
  (fun u => {| u_authored_label := None; u_id := e.2; u_started_at := format_epoch_millis e.1;
               u_speaker_label := speaker_label (speakers db) e.2; u_language := ut_language u; u_text := ut_text u |})
  <$> utterances (memories db) !! e.2.

Definition summary_screenshot db (e : Z * Z) : option SummaryScreenshot :=
  (fun r => {| s_id := e.2; s_captured_at := format_epoch_millis e.1; s_active_app := sh_active_app r; s_window_title := sh_window_title r;
               s_ocr_text := take 4000 <$> sh_ocr_text r; s_salient_ocr_text := take 4000 <$> sh_salient_ocr_text r;
               s_url := sh_url r; s_is_duplicate := if sh_is_duplicate r then 1 else 0 |})
  <$> screenshots (memories db) !! e.2.

(** [WHERE id=ANY(ids) ORDER BY started_at_ms, id] *)
Definition page_utterances (session : str) (ids : list Z) db : list SummaryUtterance :=
  omap (summary_utterance db)
    (List.filter (fun e => existsb (Z.eqb e.2) ids) (evidence_utterances session (capture db) (memories db))).

Definition page_screenshots (session : str) (ids : list Z) db : list SummaryScreenshot :=
  omap (summary_screenshot db)
    (List.filter (fun e => existsb (Z.eqb e.2) ids) (evidence_screenshots session (capture db) (memories db))).

(** [apply_authoring_context]: the last label of an utterance. *)
Definition label_of (labels : AuthoredLabelMap) (id : Z) : option AuthoredLabel :=
  last (List.filter (fun l => existsb (Z.eqb id) (utterance_ids l)) (Presentation.labels labels)).

Definition apply_authoring_context (labels : AuthoredLabelMap) (u : SummaryUtterance) : SummaryUtterance :=
  match label_of labels (u_id u) with
  | Some l =>
    {| u_authored_label := Some {| label := label l; target := target l; fallback_label := fallback_label l; utterance_ids := [u_id u] |};
       u_id := u_id u; u_started_at := u_started_at u; u_speaker_label := label l; u_language := u_language u; u_text := u_text u |}
  | None => u
  end.

Definition prepare_authoring_utterances (rows : list SummaryUtterance) : txn (list SummaryUtterance) :=
  let^ context := select (fun db => authoring_context (memories db) (speakers db) (u_id <$> rows)) in
  let^ labels := try_res context in
  commits (apply_authoring_context labels <$> rows).

Definition capture_formation_evidence (c : CaptureFormationClaim) (utterance_limit screenshot_limit : nat) :
    txn (list SummaryUtterance * list SummaryScreenshot) :=
  abort_if (negb (utterance_limit =? CAPTURE_FORMATION_UTTERANCE_PAGE_SIZE)%nat
            || negb (screenshot_limit =? CAPTURE_FORMATION_SCREENSHOT_PAGE_SIZE)%nat
            || negb (length (cf_source_fingerprint c) =? 32)%nat || negb (length (cf_page_source_commitment c) =? 32)%nat)
           (invalid "capture formation evidence bounds are invalid") ^;
  let^ authoritative := select (fun db => some_and (live_receipt c) (receipt_of c db)) in
  require_live c authoritative source_changed ^;
  let^ found := select (find_page (fun p => claims_page c p && unexpired (pg_claim p))) in
  let^ p := try_res (ok_or found (Conflict (lit "capture formation page claim changed"))) in
  let^ page := try_res (capture_formation_page_from_row sha256 codec p) in
  let src := pg_source (page_row page) in
  abort_if (negb (bool_decide (pg_commitment src = cf_page_source_commitment c))) (Conflict (lit "capture formation page commitment changed")) ^;
  let^ utterances := select (page_utterances (cf_capture_session_id c) (pg_provider_utterances src)) in
  let^ screenshots := select (page_screenshots (cf_capture_session_id c) (pg_provider_screenshots src)) in
  abort_if (negb (length utterances =? length (pg_provider_utterances src))%nat
            || negb (length screenshots =? length (pg_provider_screenshots src))%nat)
           (Conflict (lit "capture formation page evidence changed")) ^;
  let^ prepared := prepare_authoring_utterances utterances in
  commits (prepared, screenshots).

(** *** Egress *)

(** [PartialEq] of a request. *)
Definition request_eqb (a b : CaptureFormationProviderRequest) : bool :=
  (contract_version a =? contract_version b) && bool_decide (rq_authored_labels a = rq_authored_labels b)
  && str_eqb (vertex_project a) (vertex_project b) && str_eqb (vertex_location a) (vertex_location b)
  && str_eqb (api_version a) (api_version b) && str_eqb (publisher a) (publisher b) && str_eqb (rq_model a) (rq_model b)
  && str_eqb (method a) (method b) && str_eqb (rq_system_prompt a) (rq_system_prompt b)
  && str_eqb (rq_user_message a) (rq_user_message b) && value_eqb (rq_response_schema a) (rq_response_schema b)
  && (max_output_tokens a =? max_output_tokens b) && str_eqb (response_mime_type a) (response_mime_type b)
  && (thinking_budget a =? thinking_budget b).

(** [claim_until=greatest(claim_until, now + fence)] *)
Definition fenced_receipt (r : ReceiptRow) : ReceiptRow :=
  with_claim now r (rc_state r) ((fun held => (held.1, Z.max held.2 (now + PROVIDER_EGRESS_CLAIM_FENCE_MS))) <$> rc_claim r)
    (rc_claimed_fingerprint r) (rc_next_attempt_at r) (rc_attempt_count r) (rc_last_error r).

Definition renew_receipt (c : CaptureFormationClaim) : txn bool :=
  let^ current := select (receipt_of c) in
  match current with
  | Some r => if live_receipt c r then set_receipt c (fenced_receipt r) ^; commits true else commits false
  | None => commits false
  end.

(** A stored request, read back once its digest is found right. *)
Definition read_request (text : str) (commitment : bytes) (e : EnclaveError) : res CaptureFormationProviderRequest :=
  let? _ := refuse (negb (bool_decide (sha256 (as_bytes text) = commitment))) e in
  let? r := ok_or (request_of_text codec text) Errors.Json in
  let? _ := capture_formation_provider_request_text codec r in
  Ok r.

Definition authorize_capture_formation_egress (c : CaptureFormationClaim) (utterance_ids screenshot_ids : list Z)
    (current_request : CaptureFormationProviderRequest) : txn CaptureFormationProviderRequest :=
  abort_if (negb (length (cf_source_fingerprint c) =? 32)%nat || negb (length (cf_page_source_commitment c) =? 32)%nat
            || negb (length (cf_provider_attempt_identity c) =? 32)%nat) (invalid "capture formation fingerprint is invalid") ^;
  let^ text := try_res (capture_formation_provider_request_text codec (default current_request (cf_provider_request c))) in
  let request := (text, sha256 (as_bytes text)) in
  let^ authoritative := renew_receipt c in
  require_live c authoritative (Conflict (lit "capture provider-egress source changed")) ^;
  let which := fun p => live_page c p && bool_decide (pg_staged_response p = None) in
  let^ found := select (find_page which) in
  let^ p := try_res (ok_or found (Conflict (lit "capture provider-egress page claim changed"))) in
  let stored := default request (pg_provider_request p) in
  violates (negb (length stored.2 =? 32)%nat) ^;
  update_pages which (admitted_page (now + PROVIDER_EGRESS_CLAIM_FENCE_MS) request) ^;
  abort_if (negb (bool_decide (pg_provider_utterances (pg_source p) = utterance_ids))
            || negb (bool_decide (pg_provider_screenshots (pg_source p) = screenshot_ids))
            || negb (bool_decide (capture_formation_provider_attempt_identity sha256 (cf_account_id c) (cf_capture_session_id c)
                 (cf_source_revision c) (cf_page_index c) (cf_page_source_commitment c) (pg_attempt p) = cf_provider_attempt_identity c)))
           (Conflict (lit "capture provider-egress page evidence or attempt changed")) ^;
  let^ stored_request := try_res (read_request stored.1 stored.2 (Errors.Store (lit "capture provider-egress request commitment changed"))) in
  abort_if (some_and (fun r => negb (request_eqb r stored_request)) (cf_provider_request c))
           (Conflict (lit "capture provider-egress request changed after claim")) ^;
  ensure_formation_sources_available utterance_ids screenshot_ids ^;
  commits stored_request.

(** *** Staging *)

(** [ensure_terminal_formation_usage_event] *)
Definition terminal_event (event_id : str) (model location : str) (expected : bytes) db : bool :=
  some_and (fun e => bool_decide (UsageDb.u_fingerprint e = expected) && str_eqb (u_operation e) (lit "episode_summarization")
             && str_eqb (u_requested_model e) model && str_eqb (u_location e) location
             && (bool_decide (u_outcome e = Metered) || bool_decide (u_outcome e = UsageMissing)) && bool_decide (u_status e = Some 200))
    (usage_events db !! event_id).

Definition ensure_terminal_formation_usage_event (event_id : str) (r : CaptureFormationProviderRequest) : txn unit :=
  let^ anchor := try_res (capture_formation_provider_caller_anchor sha256 codec r) in
  let expected := vertex_invocation_fingerprint sha256 account EpisodeSummary (rq_model r) (vertex_location r) anchor in
  let^ terminal := select (terminal_event event_id (rq_model r) (vertex_location r) expected) in
  abort_if (negb terminal) (Conflict (lit "capture formation staged response has no terminal usage event")).

Definition stage_capture_formation_response (c : CaptureFormationClaim) (response vertex_event_id : str) : txn unit :=
  abort_if ((MAX_STAGED_FORMATION_RESPONSE_BYTES <? byte_len response) || is_empty vertex_event_id || (256 <? byte_len vertex_event_id))
           (invalid "capture formation staged response is invalid") ^;
  let^ event := try_res (attempt_event_id sha256 (cf_provider_attempt_identity c)) in
  abort_if (negb (str_eqb event vertex_event_id)) (Conflict (lit "capture formation staged response event identity mismatch")) ^;
  let staged := (response, sha256 (as_bytes response), vertex_event_id) in
  let which := fun p => live_page c p && bool_decide (is_Some (pg_provider_request p))
                        && match pg_staged_response p with None => true | Some old => bool_decide (old = staged) end in
  violates (existsb (N.eqb 0) response) ^;
  let^ found := select (find_page which) in
  let^ p := try_res (ok_or found (Conflict (lit "capture formation staged response lost its page claim"))) in
  violates (negb (length staged.1.2 =? 32)%nat) ^;
  update_pages which (staged_page staged) ^;
  let^ (text, commitment) := try_res (ok_or (pg_provider_request p) Postgres) in
  let^ request := try_res (read_request text commitment (Errors.Store (lit "capture formation staged request commitment mismatch"))) in
  ensure_terminal_formation_usage_event vertex_event_id request.

(** *** Settlement *)

Definition completed_by (c : CaptureFormationClaim) (p : PageRow) : bool :=
  is_page (cf_capture_session_id c) (cf_source_revision c) (cf_page_index c) p
  && bool_decide (pg_commitment (pg_source p) = cf_page_source_commitment c)
  && complete p && some_and (fun done => str_eqb (pc_claim_token done) (cf_claim_token c)) (pg_completed p).

Definition provider_visible (src : PageSource) : bool :=
  negb (is_empty (pg_provider_utterances src)) || negb (is_empty (pg_provider_screenshots src)).

Definition is_conservative (episode : EpisodeInput) : bool := bool_decide (model episode = Some CONSERVATIVE_MODEL).

(** What lets a page settle into some episodes: its staged response, or an
    exact keep of what the model would have seen. *)
Definition check_settled_response (c : CaptureFormationClaim) (page : FormationPage) (l : list EpisodeInput) : txn unit :=
  let p := page_row page in
  let visible := provider_visible (pg_source p) in
  match pg_staged_response p with
  | Some (_, _, event_id) =>
    let identity := capture_formation_provider_attempt_identity sha256 (cf_account_id c) (cf_capture_session_id c) (cf_source_revision c)
                      (cf_page_index c) (cf_page_source_commitment c) (pg_attempt p) in
    let^ event := try_res (attempt_event_id sha256 identity) in
    abort_if (negb (str_eqb event event_id)) (Conflict (lit "capture formation staged event no longer matches its page attempt")) ^;
    let^ request := try_res (ok_or (page_request page) (Errors.Store (lit "capture formation staged response lost its provider request"))) in
    ensure_terminal_formation_usage_event event_id request
  | None =>
    let exact_conservative_keep := negb (is_empty l) && forallb is_conservative l in
    abort_if ((visible && negb exact_conservative_keep) || (negb visible && negb (is_empty l)))
             (Conflict (lit "capture formation page without a staged response must be provider-empty or an exact conservative keep"))
  end ^;
  abort_if (visible && is_empty l
            && negb (some_and (fun r => match parse_capture_formation_provider_response (value_of_response codec) r.1.1 with
                                        | Some ExplicitNoMemory => true | _ => false end) (pg_staged_response p)))
           (Conflict (lit "provider-visible capture formation can settle no-memory only from an explicit empty staged response")).

(** The members of the episodes are the evidence the model saw, each once. *)
Definition same_members (members ids : list Z) : bool :=
  (length members =? size (list_to_set (C := gset Z) ids))%nat
  && bool_decide (list_to_set (C := gset Z) members = list_to_set ids).

Definition check_partition (src : PageSource) (l : list EpisodeInput) : res unit :=
  let? _ := refuse (existsb (fun id => negb (existsb (Z.eqb id) (pg_provider_utterances src))) (utterance_members l)
                    || existsb (fun id => negb (existsb (Z.eqb id) (pg_provider_screenshots src))) (screenshot_members l))
                   (Conflict (lit "capture formation page settlement references evidence outside its commitment")) in
  refuse (negb (is_empty l)
          && negb (same_members (utterance_members l) (pg_provider_utterances src)
                   && same_members (screenshot_members l) (pg_provider_screenshots src)))
         (Conflict (lit "capture formation memories must exactly partition the provider page")).

Definition page_labels (page : FormationPage) (settlement : CaptureFormationSettlement) (episode : EpisodeInput) : AuthoredLabelMap :=
  if is_conservative episode then cs_authored_labels settlement
  else match page_request page with Some r => rq_authored_labels r | None => cs_authored_labels settlement end.

Definition page_outcome (src : PageSource) (ids : list Z) : str :=
  if negb (is_empty ids) then lit "memories"
  else if is_empty (pg_provider_utterances src) && is_empty (pg_provider_screenshots src)
          && (negb (is_empty (pg_covered_utterances src)) || negb (is_empty (pg_covered_screenshots src)))
  then lit "accounted" else lit "no_memory".

Definition refresh_speakers (ids : list Z) : txn unit :=
  let^ refreshed := select (fun db => refresh_projections (capture db) (memories db) ids (speakers db)) in
  let^ graph := try_res refreshed in
  execute (set_speakers graph).

(** [claim_until>now] of the receipt of a page that was settled. *)
Definition claimed_receipt (c : CaptureFormationClaim) (r : ReceiptRow) : bool :=
  holds_receipt c r && some_and (fun held => (held.1.1 =? cf_source_revision c) && (now <? held.2)) (rc_claim r).

Definition continue_receipt (c : CaptureFormationClaim) : txn unit :=
  let^ current := select (receipt_of c) in
  let lost := Conflict (lit "capture formation claim expired before page continuation") in
  let^ r := try_res (ok_or current lost) in
  abort_if (negb (claimed_receipt c r)) lost ^;
  set_receipt c (with_claim now r ReceiptPending None None None (rc_attempt_count r) None).

Definition complete_receipt (c : CaptureFormationClaim) : txn unit :=
  let session := cf_capture_session_id c in
  let^ covered := select (capture_formation_revision_coverage_complete session (cf_source_revision c)) in
  abort_if (negb covered) (Conflict (lit "capture formation receipt cannot complete before exact page coverage")) ^;
  let^ outcome := select (fun db => revision_outcome session (cf_source_revision c) (capture db)) in
  let^ digest := select (fingerprint session (cf_source_revision c)) in
  let^ completed := try_res digest in
  let^ current := select (receipt_of c) in
  let lost := Conflict (lit "capture formation claim expired before settlement") in
  let^ r := try_res (ok_or current lost) in
  abort_if (negb (claimed_receipt c r)) lost ^;
  violates (negb (length completed =? 32)%nat) ^;
  set_receipt c (completed_receipt now completed outcome (cf_claim_token c) r).

(** The settlement of a page its claim holds. *)
Definition settle_claimed_page (settlement : CaptureFormationSettlement) (authoritative : bool) : txn (list Z) :=
  let c := cs_claim settlement in
  let l := cs_episodes settlement in
  let^ found := select (find_page (live_page c)) in
  let^ p := try_res (ok_or found (Conflict (lit "capture formation page is not authoritative"))) in
  let^ page := try_res (capture_formation_page_from_row sha256 codec p) in
  let src := pg_source p in
  check_settled_response c page l ^;
  require_live c authoritative (Conflict (lit "capture formation claim is no longer authoritative")) ^;
  try_res (check_partition src l) ^;
  ensure_episode_sources_unowned l ^;
  ensure_capture_episode_sources (cf_capture_session_id c) l ^;
  let^ ids := in_memories (settle_episodes codec (page_labels page settlement) l) in
  refresh_speakers ids ^;
  let^ still := select (find_page (live_page c)) in
  abort_if (bool_decide (still = None)) (Conflict (lit "capture formation page expired before settlement")) ^;
  update_pages (live_page c) (completed_page {| pc_outcome := page_outcome src ids; pc_successors := ids;
                                               pc_claim_token := cf_claim_token c; pc_at := now |}) ^;
  on_capture (set_scans []) ^;
  (if pg_has_more src then continue_receipt c else complete_receipt c) ^;
  commits ids.

Definition settle_capture_formation (settlement : CaptureFormationSettlement) : txn (list Z) :=
  let c := cs_claim settlement in
  abort_if (negb (length (cf_source_fingerprint c) =? 32)%nat
            || existsb (fun e => bool_decide (is_Some (Episode.id e))) (cs_episodes settlement))
           (invalid "capture formation fingerprint or new-draft settlement is invalid") ^;
  let^ replayed := select (find_page (completed_by c)) in
  match replayed with
  | Some p => commits (default [] (pc_successors <$> pg_completed p))
  | None =>
    let^ found := select (receipt_of c) in
    let^ r := try_res (ok_or found (Conflict (lit "capture formation receipt is absent"))) in
    if bool_decide (rc_state r = ReceiptComplete) && (completed_revision r =? cf_source_revision c)
       && bool_decide (rc_completed_claim_token r = Some (cf_claim_token c))
    then let^ ids := select (capture_session_owner_ids (cf_capture_session_id c)) in commits ids
    else
      settle_claimed_page settlement
        (bool_decide (rc_state r = ReceiptProcessing) && (source_revision r =? cf_source_revision c)
         && bool_decide (rc_claimed_fingerprint r = Some (cf_source_fingerprint c))
         && some_and (fun held => str_eqb held.1.2 (cf_claim_token c) && (held.1.1 =? cf_source_revision c) && (now <? held.2)) (rc_claim r))
  end.
End Claims.

(** ** The refresh of a receipt *)

Section Refresh.
Context {Voice Speakers : Type}.
Context (sha256 : bytes -> bytes) (codecs : Codec) (account : str) (now : Z).
Implicit Types (db : Formation Voice Speakers) (s : Store Voice).

#[local] Abbreviation txn := (txn (Formation Voice Speakers)).

(** The seals of a receipt's revision that nothing reopened. *)
Definition standing_seals (session : str) (r : ReceiptRow) s : list SealEvent :=
  List.filter (fun e => is_seal_event session (seal_generation r) Seal e && (se_source_revision e =? source_revision r)
                        && negb (existsb (is_seal_event session (seal_generation r) Reopen) (seal_events s))) (seal_events s).

Definition streams_exact (session : str) s : bool :=
  negb (is_empty (session_streams session s)) && forallb (exact_boundary s) (session_streams session s).

Definition binds_streams (session : str) s (e : SealEvent) : bool := bool_decide (se_maxima e = stream_maxima_sha256 sha256 codecs session s).

(** [deleted.deleted_at>seal.recorded_at] *)
Definition deleted_after (session : str) s (e : SealEvent) : bool :=
  existsb (fun d => se_recorded_at e <? dr_deleted_at d.2) (rows_of (deleted_in_session session s) (deleted_sequences s)).

(** Whether a finalised seal no longer binds the streams of its session, and
    whether they can be bound again as they are. *)
Definition seal_state (session : str) (r : ReceiptRow) s : res (bool * bool) :=
  if bool_decide (seal_finalized_at r = None) then Ok (false, false)
  else
    let seals := standing_seals session r s in
    let exact := streams_exact session s in
    let current := existsb (binds_streams session s) seals in
    let? _ := refuse (is_empty seals || (exact && negb current && negb (existsb (deleted_after session s) seals)))
                     (Conflict (lit "capture formation refresh found an unauditable finalized seal")) in
    Ok (negb current, exact).

(** A complete receipt whose sources are no longer those it was completed
    for. *)
Definition completed_source_changed (session : str) (r : ReceiptRow) db : res bool :=
  if bool_decide (rc_state r = ReceiptComplete) then
    let? completed := ok_or (rc_completed_fingerprint r) (Errors.Store (lit "complete capture formation fingerprint is missing")) in
    let? current := capture_formation_source_fingerprint sha256 account session (source_revision r) db in
    Ok (negb (bool_decide (current = completed)))
  else Ok false.

Definition reopened_receipt (r : ReceiptRow) : ReceiptRow :=
  {| source_revision := source_revision r + 1; completed_revision := completed_revision r; rc_state := ReceiptPending; rc_claim := None;
     rc_next_attempt_at := None; rc_attempt_count := rc_attempt_count r; rc_updated_at := now; rc_claimed_fingerprint := None;
     rc_completed_outcome := None; rc_completed_claim_token := None; rc_completed_fingerprint := None; rc_completed_at := None;
     rc_last_error := None; finish_requested_at := finish_requested_at r; finish_provenance := finish_provenance r;
     seal_finalized_at := None; seal_generation := seal_generation r;
     seal_provenance := if bool_decide (seal_finalized_at r = None) then seal_provenance r else None |}.

(** The streams are still exact: the next revision is sealed at once. *)
Definition rebind_seal (session : str) (r : ReceiptRow) : txn unit :=
  let generation := seal_generation r + 1 in
  abort_if (negb (I64.in_rangeb generation)) (Errors.Store (lit "capture seal generation overflowed")) ^;
  let^ maxima := select (fun db => stream_maxima_sha256 sha256 codecs session (capture db)) in
  in_capture (append_seal_event sha256 codecs {| se_session := session; se_generation := generation; se_source_revision := source_revision r + 1;
    se_kind := Seal; se_maxima := maxima; se_provenance := lit "topology_rebind_v1"; se_trigger := None; se_recorded_at := now |}) ^;
  on_capture (set_receipts (insert session (with_lifecycle now (reopened_receipt r) (finish_requested_at r) (finish_provenance r) (Some now) generation
                                              (Some (lit "topology_rebind_v1"))))).

Definition reopen_revision (session : str) (r : ReceiptRow) (exact : bool) : txn unit :=
  let sealed := bool_decide (is_Some (seal_finalized_at r)) in
  abort_if (negb (I64.in_rangeb (source_revision r + 1))) (Errors.Store (lit "capture formation revision overflowed")) ^;
  on_capture (set_receipts (insert session (reopened_receipt r))) ^;
  update_pages (fun p => of_revision session (source_revision r) p && negb (complete p)) invalidated ^;
  (if sealed && negb exact then on_capture (set_streams (fmap (unseal session))) else commits tt) ^;
  (if sealed && exact then rebind_seal session r else commits tt) ^;
  on_capture (set_scans []).

(** [refresh_capture_formation_receipt]: a receipt is made where there is
    none, and reopened when its sources or the streams under its seal have
    changed. *)
Definition refresh_capture_formation_receipt (session : str) : txn bool :=
  let^ (found, known) := select (fun db => (receipts (capture db) !! session, bool_decide (is_Some (sessions (capture db) !! session)))) in
  match found with
  | None =>
    abort_if (negb known) NotFound ^;
    on_capture (set_receipts (insert session (new_receipt now None))) ^;
    on_capture (set_scans []) ^;
    commits true
  | Some r =>
    let^ changed := select (completed_source_changed session r) in
    let^ source_changed := try_res changed in
    let^ state := select (fun db => seal_state session r (capture db)) in
    let^ (seal_changed, exact) := try_res state in
    if negb source_changed && negb seal_changed then commits false
    else reopen_revision session r exact ^; commits true
  end.
End Refresh.

(** ** Summary windows *)

Section Windows.
Context {Voice Speakers : Type} `{VoiceGraph Voice} `{SpeakerGraph Voice Speakers}.
Context (codec : FormationCodec) (now : Z).
Implicit Types db : Formation Voice Speakers.

#[local] Abbreviation txn := (txn (Formation Voice Speakers)).

Definition set_window (row : WindowRow) : txn unit :=
  execute (fun db => set_windows (summarized_until db) (Some row) (window_results db) db).

Definition processing_window (from till : Z) (token : str) (until attempts : Z) (error : option str) : WindowRow :=
  {| sw_from := from; sw_to := till; sw_state := WindowProcessing; sw_claim := Some (token, until); sw_attempts := attempts;
     sw_error := error; sw_completed_token := None |}.

(** [ON CONFLICT ... DO UPDATE ... WHERE]: when the claim there is may be
    taken over. *)
Definition window_free (from till : Z) (row : WindowRow) : bool :=
  bool_decide (sw_state row = WindowRetryWait) || some_and (fun held => held.2 <=? now) (sw_claim row)
  || (bool_decide (sw_state row = WindowSucceeded) && (negb (sw_from row =? from) || negb (sw_to row =? till))).

Definition claim_summary_window (account from till claimed_at token : str) (lease_seconds : Z) : txn (option SummaryWindowClaim) :=
  let^ from_ms := try_res (FormationMemories.timestamp from "summary window start") in
  let^ to_ms := try_res (FormationMemories.timestamp till "summary window end") in
  let^ _ := try_res (FormationMemories.timestamp claimed_at "summary claim time") in
  abort_if ((to_ms <=? from_ms) || negb ((1 <=? lease_seconds) && (lease_seconds <=? 3600))) (invalid "summary window or lease is invalid") ^;
  let^ existing := select window_claim in
  let until := now + lease_seconds * 1000 in
  let claim := {| w_account_id := account; w_from := from; w_to := till; w_claim_token := token |} in
  match existing with
  | None => set_window (processing_window from_ms to_ms token until 1 None) ^; commits (Some claim)
  | Some row =>
    if window_free from_ms to_ms row
    then violates (negb (I64.in_rangeb (sw_attempts row + 1))) ^; set_window (processing_window from_ms to_ms token until (sw_attempts row + 1) None) ^; commits (Some claim)
    else commits None
  end.

Definition held_by (token : str) (row : WindowRow) : bool :=
  bool_decide (sw_state row = WindowProcessing) && some_and (fun held => str_eqb held.1 token) (sw_claim row).

Definition live_window (token : str) (row : WindowRow) : bool :=
  held_by token row && some_and (fun held => now <? held.2) (sw_claim row).

Definition released_window (error : option str) (row : WindowRow) : WindowRow :=
  {| sw_from := sw_from row; sw_to := sw_to row; sw_state := WindowRetryWait; sw_claim := None; sw_attempts := sw_attempts row;
     sw_error := error; sw_completed_token := sw_completed_token row |}.

Definition release_summary_window (claim : SummaryWindowClaim) (released_at : str) (error_code : option str) : txn unit :=
  let^ _ := try_res (FormationMemories.timestamp released_at "summary release time") in
  let lost := Conflict (lit "summary window claim is no longer authoritative") in
  let^ existing := select window_claim in
  let^ row := try_res (ok_or existing lost) in
  abort_if (negb (held_by (w_claim_token claim) row)) lost ^;
  set_window (released_window error_code row).

Definition fenced_window (row : WindowRow) : WindowRow :=
  {| sw_from := sw_from row; sw_to := sw_to row; sw_state := sw_state row;
     sw_claim := (fun held => (held.1, Z.max held.2 (now + PROVIDER_EGRESS_CLAIM_FENCE_MS))) <$> sw_claim row;
     sw_attempts := sw_attempts row; sw_error := sw_error row; sw_completed_token := sw_completed_token row |}.

Definition authorize_summary_window_egress (claim : SummaryWindowClaim) (utterance_ids screenshot_ids open_episode_ids : list Z) : txn unit :=
  let^ from_ms := try_res (FormationMemories.timestamp (w_from claim) "summary window start") in
  let^ to_ms := try_res (FormationMemories.timestamp (w_to claim) "summary window end") in
  let lost := Conflict (lit "summary provider-egress claim is no longer authoritative") in
  let^ existing := select window_claim in
  let^ row := try_res (ok_or existing lost) in
  abort_if (negb (live_window (w_claim_token claim) row && (sw_from row =? from_ms) && (sw_to row =? to_ms))) lost ^;
  set_window (fenced_window row) ^;
  ensure_formation_sources_available utterance_ids screenshot_ids ^;
  ensure_open_episodes_available open_episode_ids.

(** ** Settlement *)

(** The results of a window, [ORDER BY ordinal]. *)
Definition results_of (from till : Z) db : list Z :=
  snd <$> sort_by_key fst
    (omap (fun kv => let '((f, t, ordinal), id) := kv in if (f =? from) && (t =? till) then Some (ordinal, id) else None)
       (map_to_list (window_results db))).

(** The primary key of the results admits a window's ordinals once. *)
Fixpoint insert_results (from till : Z) (ordinal : nat) (ids : list Z) : txn unit :=
  match ids with
  | [] => commits tt
  | id :: rest =>
    let key := (from, till, Z.of_nat ordinal) in
    let^ taken := select (fun db => bool_decide (is_Some (window_results db !! key))) in
    abort_if taken Postgres ^;
    execute (fun db => set_windows (summarized_until db) (window_claim db) (<[key := id]> (window_results db)) db) ^;
    insert_results from till (S ordinal) rest
  end.

Definition advance_cursor (cursor : option str) : txn unit :=
  match cursor with
  | Some text =>
    let^ cursor_ms := try_res (FormationMemories.timestamp text "summary cursor") in
    execute (fun db => set_windows (Some (Z.max (default 0 (summarized_until db)) cursor_ms)) (window_claim db) (window_results db) db)
  | None => commits tt
  end.

Definition succeeded_window (row : WindowRow) : WindowRow :=
  {| sw_from := sw_from row; sw_to := sw_to row; sw_state := WindowSucceeded; sw_claim := None; sw_attempts := sw_attempts row;
     sw_error := None; sw_completed_token := fst <$> sw_claim row |}.

Definition replay_summary_window (claim : SummaryWindowClaim) : txn (list Z) :=
  let^ from_ms := try_res (FormationMemories.timestamp (w_from claim) "summary window start") in
  let^ to_ms := try_res (FormationMemories.timestamp (w_to claim) "summary window end") in
  let^ succeeded := select (fun db => some_and (fun row =>
    bool_decide (sw_state row = WindowSucceeded) && bool_decide (sw_completed_token row = Some (w_claim_token claim))
    && (sw_from row =? from_ms) && (sw_to row =? to_ms)) (window_claim db)) in
  if succeeded then select (results_of from_ms to_ms)
  else aborts (Conflict (lit "summary window claim is no longer authoritative")).

Definition settle_summary_window (settlement : SummaryWindowSettlement) : txn (list Z) :=
  let claim := ws_claim settlement in
  let^ existing := select window_claim in
  match existing with
  | Some row =>
    if live_window (w_claim_token claim) row then
      ensure_episode_sources_unowned (ws_episodes settlement) ^;
      let^ ids := in_memories (settle_episodes codec (fun _ => ws_authored_labels settlement) (ws_episodes settlement)) in
      refresh_speakers ids ^;
      let^ from_ms := try_res (FormationMemories.timestamp (w_from claim) "summary window start") in
      let^ to_ms := try_res (FormationMemories.timestamp (w_to claim) "summary window end") in
      insert_results from_ms to_ms 0 ids ^;
      advance_cursor (ws_cursor settlement) ^;
      set_window (succeeded_window row) ^;
      commits ids
    else replay_summary_window claim
  | None => replay_summary_window claim
  end.

(** *** What the forward lane reads *)

Definition utterance_start (m : Memories) (u : UtteranceRow) : Z :=
  match observation_of m u with Some o => so_started_ms o | None => ut_segment_ms u end.

Definition formed (r : ReceiptRow) : bool := bool_decide (rc_state r = ReceiptComplete) && (completed_revision r =? source_revision r).

(** The events whose evidence the exact-session lane has formed. *)
Definition formed_events (s : Store Voice) : gset str :=
  if formation_installed s then list_to_set (rows_of formed (receipts s) ≫= fun kv => elements (evidence_events kv.1 s)) else ∅.

Definition in_window (from_ms to_ms at_ms : Z) : bool := (from_ms <=? at_ms) && (at_ms <? to_ms).

(** The sources of a window that have no owner and that no complete receipt
    accounts for, oldest first. *)
Definition window_utterances (from_ms to_ms : Z) db : list (Z * Z) :=
  let m := memories db in
  sort_by_key (fun e => e)
    (omap (fun kv => let at_ms := utterance_start m kv.2 in
             if in_window from_ms to_ms at_ms && negb (active_owned m (Utterance kv.1)) && negb (utterance_in m (formed_events (capture db)) kv.2)
             then Some (at_ms, kv.1) else None) (map_to_list (utterances m))).

Definition window_screenshots (from_ms to_ms : Z) db : list (Z * Z) :=
  let m := memories db in
  sort_by_key (fun e => e)
    (omap (fun kv => if in_window from_ms to_ms (sh_captured_ms kv.2) && negb (active_owned m (Screenshot kv.1))
                        && negb (screenshot_in (formed_events (capture db)) kv.2)
                     then Some (sh_captured_ms kv.2, kv.1) else None) (map_to_list (screenshots m))).

Definition summary_evidence (from till : str) (utterance_limit screenshot_limit : Z) : txn (list SummaryUtterance * list SummaryScreenshot) :=
  let^ from_ms := try_res (FormationMemories.timestamp from "summary evidence start") in
  let^ to_ms := try_res (FormationMemories.timestamp till "summary evidence end") in
  abort_if ((to_ms <=? from_ms) || (utterance_limit <=? 0) || (screenshot_limit <=? 0)) (invalid "summary evidence bounds are invalid") ^;
  let^ utterances := select (fun db => omap (summary_utterance db) (take (Z.to_nat utterance_limit) (window_utterances from_ms to_ms db))) in
  let^ screenshots := select (fun db => omap (summary_screenshot db) (take (Z.to_nat screenshot_limit) (window_screenshots from_ms to_ms db))) in
  let^ prepared := prepare_authoring_utterances utterances in
  commits (prepared, screenshots).

(** A storyboard that waits for the day's budget is not in flight. *)
Definition waits_for_budget (event : str) (s : Store Voice) : bool :=
  existsb (fun j => str_eqb (jr_kind j) (lit "gemini_screen") && str_eqb (jr_state j) (lit "retry_wait")
                    && bool_decide (jr_error_code j = Some (lit "vertex_daily_budget"))) (jobs_of event s).

Definition in_flight (s : Store Voice) (kv : str * MediaRow) : bool :=
  let '(event, o) := kv in
  bool_decide (mr_deleted_ms o = None)
  && (one_of (mr_processing_state o) ["queued"; "processing"]%string
      || (str_eqb (mr_processing_state o) (lit "retry_wait") && negb (waits_for_budget event s))).

Definition session_horizon (row : SessionRow) : Z := Z.max (cs_last_event_ms row) (default (cs_last_event_ms row) (cs_ended_ms row)).

Definition session_tail_is_settled (recent_after window_end : str) : txn bool :=
  let^ recent_after_ms := try_res (FormationMemories.timestamp recent_after "recent session cutoff") in
  let^ window_end_ms := try_res (FormationMemories.timestamp window_end "settled window end") in
  select (fun db =>
    let s := capture db in
    let rows := map_to_list (sessions s) in
    negb (existsb (fun kv => negb (ended kv.2) && (recent_after_ms <=? cs_last_event_ms kv.2)) rows)
    && negb (existsb (fun kv => window_end_ms <? session_horizon kv.2) rows)
    && negb (existsb (in_flight s) (map_to_list (media_objects s)))).
End Windows.
