(* ===== verification/FormationLedger.v ===== *)
(** * The ledger of formation pages

    What every transaction keeps of the pages and the receipts of exact-session
    formation: how one page moves on, how the store does, and the invariant
    of the pages of a revision. *)
From stdpp Require Import gmap sorting.
From Stdlib Require Import ZArith Lia.
From S2P Require Import Prelude OrdMap Text Errors Bytes Json CaptureManifest CaptureIngest VoiceEnrollment Txn CaptureStore CaptureCommit CaptureSeal.
From S2P Require Import CaptureLedger Summarizer SummarizerFlow FormationDb FormationMemories FormationSource Formation.
Local Open Scope Z_scope.
Local Open Scope kioku_scope.

(** ** How a page moves on *)

(** A page keeps its source; once complete it stays as it is, and once it is
    not open it is never open again.  While it is open its attempts only
    grow, an attempt keeps the request it was given, and a staged response
    stays. *)
Record follows (p p' : PageRow) : Prop := {
  follows_source : pg_source p' = pg_source p;
  follows_complete : complete p = true -> p' = p;
  follows_open : is_open p' = true -> is_open p = true;
  follows_attempt : is_open p' = true -> pg_attempt p <= pg_attempt p';
  follows_request : is_open p' = true -> pg_attempt p' = pg_attempt p ->
    forall r, pg_provider_request p = Some r -> pg_provider_request p' = Some r;
  follows_width : I64.in_range (pg_attempt p) -> I64.in_range (pg_attempt p');
  follows_staged : is_open p' = true -> forall r, pg_staged_response p = Some r -> pg_staged_response p' = Some r
}.

#[export] Instance follows_preorder : PreOrder follows.
Proof.
  split; [intros p; by split |].
  intros p q r [S1 C1 O1 A1 R1 W1 T1] [S2 C2 O2 A2 R2 W2 T2]; split.
  - congruence.
  - intros Hc; specialize (C1 Hc); subst q; by apply C2.
  - eauto.
  - intros Ho; specialize (O2 Ho); specialize (A2 Ho); specialize (A1 O2); lia.
  - intros Ho He x Hx; pose proof (O2 Ho) as Ho'; specialize (A2 Ho); specialize (A1 Ho').
    apply R2; [done | lia |]; apply R1; [done | lia | done].
  - auto.
  - intros Ho x Hx; apply T2; [done |]; apply T1; [by apply O2 | done].
Qed.

Lemma open_not_complete p : is_open p = true -> complete p = false.
Proof. unfold is_open; by destruct (complete p). Qed.

Lemma processing_open p : pg_state p = PageProcessing -> is_open p = true.
Proof. unfold is_open, complete; by intros ->. Qed.

Lemma follows_invalidated p : complete p = false -> follows p (invalidated p).
Proof. intros Hc; split; try done; congruence. Qed.

Lemma follows_claimed token until p : is_open p = true -> follows p (claimed_page token until p).
Proof. intros Ho; split; try done; by rewrite (open_not_complete p). Qed.

Lemma follows_released advance error p : is_open p = true -> I64.in_range (pg_attempt (released_page advance error p)) -> follows p (released_page advance error p).
Proof.
  intros Ho Hw; split; try done.
  - by rewrite (open_not_complete p).
  - intros _; unfold released_page; simpl; destruct advance; lia.
  - unfold released_page; intros _ Hx; simpl in *; destruct advance; [lia | done].
Qed.

Lemma follows_admitted until request p : is_open p = true -> follows p (admitted_page until request p).
Proof. intros Ho; split; try done; [by rewrite (open_not_complete p) |]; intros _ _ r Hr; simpl; by rewrite Hr. Qed.

Lemma follows_staged_page staged p :
  is_open p = true -> (forall old, pg_staged_response p = Some old -> old = staged) -> follows p (staged_page staged p).
Proof.
  intros Ho Hs; split; try done; [by rewrite (open_not_complete p) |]; intros _ r Hr; simpl; f_equal; symmetry; by apply Hs.
Qed.

Lemma follows_completed completion p : is_open p = true -> follows p (completed_page completion p).
Proof. intros Ho; split; try done; by rewrite (open_not_complete p). Qed.

(** ** How the store does *)

Section Store.
Context {Voice : Type}.
Implicit Types s : Store Voice.

Definition revision_of s (session : str) : option Z := source_revision <$> receipts s !! session.

(** Every page is still there and has moved on, no revision has gone back, and
    the receipt of a page that is still open is still at its revision. *)
Record carried s s' : Prop := {
  carried_pages : forall i p, formation_pages s !! i = Some p -> exists p', formation_pages s' !! i = Some p' /\ follows p p';
  carried_revision : forall session n, revision_of s session = Some n -> exists n', revision_of s' session = Some n' /\ n <= n';
  carried_open : forall i p p', formation_pages s !! i = Some p -> formation_pages s' !! i = Some p' -> is_open p' = true ->
    revision_of s (pg_session (pg_source p)) = Some (pg_source_revision (pg_source p)) ->
    revision_of s' (pg_session (pg_source p)) = Some (pg_source_revision (pg_source p));
  carried_invalid : forall i p p', formation_pages s !! i = Some p -> formation_pages s' !! i = Some p' ->
    pg_state p' = PageInvalidated -> pg_state p = PageInvalidated
    \/ exists n, revision_of s' (pg_session (pg_source p)) = Some n /\ pg_source_revision (pg_source p) < n
}.

#[export] Instance carried_preorder : PreOrder carried.
Proof.
  split.
  - intros s; split; [by intros i p Hp; exists p | by intros session n Hn; exists n | by intros |].
    intros i p p' Hp Hp' Hs; left; congruence.
  - intros s t u [P1 V1 O1 I1] [P2 V2 O2 I2]; split.
    + intros i p Hp; destruct (P1 i p Hp) as (q & Hq & F1); destruct (P2 i q Hq) as (r & Hr & F2); exists r; split; [done | by transitivity q].
    + intros session n Hn; destruct (V1 _ _ Hn) as (n' & Hn' & L1); destruct (V2 _ _ Hn') as (n'' & Hn'' & L2); exists n''; split; [done | lia].
    + intros i p r Hp Hr Ho Hrev; destruct (P1 i p Hp) as (q & Hq & F1); destruct (P2 i q Hq) as (r' & Hr' & F2); simplify_eq.
      rewrite <- (follows_source _ _ F1) in *; apply (O2 i q r); try done; rewrite (follows_source _ _ F1) in *.
      apply (O1 i p q); try done; by apply (follows_open _ _ F2).
    + intros i p r Hp Hr Hs; destruct (P1 i p Hp) as (q & Hq & F1); destruct (I2 i q r Hq Hr Hs) as [Hs'|(n & Hn & Hlt)].
      * destruct (I1 i p q Hp Hq Hs') as [?|(n & Hn & Hlt)]; [by left | right].
        destruct (V2 _ _ Hn) as (n' & Hn' & Hle); exists n'; split; [done | lia].
      * right; rewrite (follows_source _ _ F1) in *; by exists n.
Qed.

(** The same pages in number: only a claim adds one. *)
Definition kept s s' : Prop := carried s s' /\ length (formation_pages s') = length (formation_pages s).

#[export] Instance kept_preorder : PreOrder kept.
Proof.
  split; [by intros s; split | intros s t u [C1 L1] [C2 L2]; split; [by transitivity t | congruence]].
Qed.

(** The tables [kept] speaks of. *)
Definition formation_part s := (receipts s, formation_pages s).

Lemma kept_pages s s' :
  formation_pages s' = formation_pages s -> (forall session, revision_of s' session = revision_of s session) -> kept s s'.
Proof.
  intros Hp Hv; split; [split | by rewrite Hp].
  - intros i p Hi; rewrite Hp; by exists p.
  - intros session n Hn; rewrite Hv; exists n; split; [done | lia].
  - intros i p p' _ _ _; by rewrite Hv.
  - intros i p p' Hi Hi' Hs; rewrite Hp in Hi'; left; congruence.
Qed.

Lemma kept_same s s' : same formation_part s s' -> kept s s'.
Proof.
  unfold same, formation_part; intros [= Hr Hp].
  assert (Hv : forall session, revision_of s' session = revision_of s session) by (intros; unfold revision_of; by rewrite Hr).
  by apply kept_pages.
Qed.

(** A receipt rewritten at its revision. *)
Lemma kept_receipt session r r' s :
  receipts s !! session = Some r -> source_revision r' = source_revision r -> kept s (set_receipts (insert session r') s).
Proof.
  intros Hr Hv.
  assert (Hsame : forall x, revision_of (set_receipts (insert session r') s) x = revision_of s x).
  { intros x; unfold revision_of; simpl; destruct (decide (x = session)) as [->|]; [rewrite lookup_insert_eq, Hr; simpl; by rewrite Hv | by rewrite lookup_insert_ne]. }
  by apply kept_pages.
Qed.

(** A receipt made, of a session without pages. *)
Lemma kept_new_receipt session r s : receipts s !! session = None -> kept s (set_receipts (insert session r) s).
Proof.
  intros Hr.
  assert (Hkeep : forall x n, revision_of s x = Some n -> revision_of (set_receipts (insert session r) s) x = Some n).
  { intros x n; unfold revision_of; simpl; destruct (decide (x = session)) as [->|]; [by rewrite Hr | by rewrite lookup_insert_ne]. }
  split; [split | done].
  - intros i p Hi; by exists p.
  - intros x n Hn; exists n; split; [by apply Hkeep | lia].
  - intros i p p' _ _ _; apply Hkeep.
  - intros i p p' Hi Hi' Hs; simpl in Hi'; left; congruence.
Qed.

(** Some pages changed. *)
Lemma kept_update (which : PageRow -> bool) (f : PageRow -> PageRow) s :
  (forall p, p ∈ formation_pages s -> which p = true -> follows p (f p)) -> (forall p, which p = true -> pg_state (f p) <> PageInvalidated) ->
  kept s (set_pages (fmap (fun p => if which p then f p else p)) s).
Proof.
  intros Hf Hi.
  assert (Hone : forall i p, formation_pages s !! i = Some p -> follows p (if which p then f p else p)).
  { intros i p Hp; case_match; [apply Hf; [by eapply list_elem_of_lookup_2 | done] | done]. }
  split; [split; simpl | simpl; by rewrite length_fmap].
  - intros i p Hp; rewrite list_lookup_fmap, Hp; eauto.
  - intros session n Hn; exists n; split; [done | lia].
  - done.
  - intros i p p' Hp; rewrite list_lookup_fmap, Hp; simpl; intros [= <-] Hs; case_match eqn:E; [by apply Hi in E | by left].
Qed.

(** Pages added at the end. *)
Lemma carried_append page s : carried s (set_pages (fun l => l ++ [page]) s).
Proof.
  split; simpl.
  - intros i p Hp; exists p; split; [by apply lookup_app_l_Some | done].
  - intros session n Hn; exists n; split; [done | lia].
  - done.
  - intros i p p' Hp Hp' Hs; left; rewrite lookup_app_l in Hp' by (by eapply lookup_lt_Some); congruence.
Qed.

(** The next revision of a receipt: what is open at the one behind it is
    invalidated, and nothing is complete that is. *)
Lemma kept_next_revision session r r' (which : PageRow -> bool) s :
  receipts s !! session = Some r -> source_revision r' = source_revision r + 1 ->
  (forall p, which p = true -> complete p = false /\ pg_session (pg_source p) = session /\ pg_source_revision (pg_source p) <= source_revision r) ->
  (forall p, pg_session (pg_source p) = session -> pg_source_revision (pg_source p) = source_revision r -> is_open p = true -> which p = true) ->
  kept s (set_pages (fmap (fun p => if which p then invalidated p else p)) (set_receipts (insert session r') s)).
Proof.
  intros Hr Hr' Hw Hopen; set (s' := set_pages _ _).
  assert (Hrev : forall x, revision_of s' x = if decide (x = session) then Some (source_revision r + 1) else revision_of s x).
  { intros x; unfold revision_of; simpl; case_decide; [subst; rewrite lookup_insert_eq; simpl; by rewrite Hr' | by rewrite lookup_insert_ne]. }
  assert (Hpage : forall i p p', formation_pages s !! i = Some p -> formation_pages s' !! i = Some p' -> p' = if which p then invalidated p else p).
  { intros i p p' Hp Hp'; simpl in Hp'; rewrite list_lookup_fmap, Hp in Hp'; simpl in Hp'; by injection Hp' as <-. }
  split; [split | simpl; by rewrite length_fmap].
  - intros i p Hp; simpl; rewrite list_lookup_fmap, Hp; simpl; eexists; split; [done |].
    case_match eqn:E; [| done]; by apply follows_invalidated, Hw.
  - intros x n Hn; rewrite Hrev; case_decide; [subst x | exists n; split; [done | lia]]; unfold revision_of in Hn; rewrite Hr in Hn.
    injection Hn as <-; eexists; split; [done | lia].
  - intros i p p' Hp Hp' Ho Hn; rewrite Hrev; case_decide as Heq; [| done]; exfalso; rewrite (Hpage _ _ _ Hp Hp') in Ho.
    unfold revision_of in Hn; rewrite Heq, Hr in Hn; injection Hn as Hn.
    destruct (which p) eqn:E; [by unfold is_open, complete in Ho | by rewrite (Hopen p) in E].
  - intros i p p' Hp Hp' Hs; rewrite (Hpage _ _ _ Hp Hp') in Hs; destruct (which p) eqn:E; [| by left]; right.
    destruct (Hw p E) as (_ & -> & Hle); rewrite Hrev, decide_True by done; eexists; split; [done | lia].
Qed.

(** New source invalidates the open pages behind it. *)
Lemma dirty_session_kept now session : keeps kept (mark_session_dirty (Voice := Voice) now session).
Proof.
  intros s u s' Hx; unfold mark_session_dirty, CaptureCommit.violates in Hx; all_txn.
  set (behind := fun n p => str_eqb (pg_session (pg_source p)) session && (pg_source_revision (pg_source p) <? n) && negb (complete p)).
  assert (Hb : forall n p, behind n p = true -> pg_session (pg_source p) = session /\ pg_source_revision (pg_source p) < n /\ complete p = false).
  { intros n p; unfold behind; by rewrite !andb_true_iff, str_eqb_eq, Z.ltb_lt, negb_true_iff; intros [[? ?] ?]. }
  destruct (receipts s !! session) as [r|] eqn:Hr; simpl in *.
  - apply (kept_next_revision session r _ (behind (source_revision r + 1)) s Hr); [done | |].
    + intros p (? & ? & ?)%Hb; split_and!; [done | done | lia].
    + intros p Hs Hv Ho; unfold behind; rewrite Hs, str_eqb_refl, (open_not_complete _ Ho), andb_true_l, andb_true_r; apply Z.ltb_lt; lia.
  - etrans; [by apply (kept_new_receipt session (new_receipt now None)) |].
    set (mid := set_receipts _ s); assert (Hmid : revision_of mid session = Some 1) by (unfold revision_of; simpl; by rewrite lookup_insert_eq).
    split; [split; simpl | simpl; by rewrite length_fmap].
    + intros i p Hp; rewrite list_lookup_fmap, Hp; eexists; split; [done |].
      unfold invalidate_page; fold (complete p); fold (behind 1 p); case_match eqn:E; [| done]; by apply follows_invalidated, (Hb 1).
    + intros x n Hn; exists n; split; [done | lia].
    + done.
    + intros i p p' Hp; rewrite list_lookup_fmap, Hp; simpl; intros [= <-] Hs; unfold invalidate_page in Hs; fold (complete p) in Hs; fold (behind 1 p) in Hs.
      destruct (behind 1 p) eqn:E; [| by left]; right; destruct (Hb _ _ E) as (-> & Hlt & _); by exists 1.
Qed.
End Store.

(** ** The transactions of capture *)

Section Capture.
Context {Voice : Type} `{VoiceGraph Voice}.
Context (sha256 : bytes -> bytes) (codecs : Codec).
Implicit Types s : Store Voice.


(** A transaction that leaves the receipts and the pages alone. *)
Lemma kept_frame {A} (m : txn (Store Voice) A) : keeps (same formation_part) m -> keeps kept m.
Proof. intros Hm s a s' Hx; by apply kept_same, (Hm s a). Qed.

Lemma kept_reserve now account identity key digest random : keeps kept (reserve_media_upload (Voice := Voice) now account identity key digest random).
Proof. apply kept_frame; unfold reserve_media_upload; frame_txn. Qed.

Lemma kept_media_key candidate : keeps kept (install_media_dek (Voice := Voice) candidate).
Proof. apply kept_frame; unfold install_media_dek; frame_txn. Qed.

Lemma kept_dirty now ids : keeps kept (mark_capture_formation_dirty (Voice := Voice) now ids).
Proof.
  unfold mark_capture_formation_dirty; keeps_until ltac:(apply dirty_session_kept); by apply kept_same.
Qed.

Lemma kept_reopen now session trigger r : keeps kept (record_capture_seal_reopen (Voice := Voice) sha256 codecs now session trigger r).
Proof.
  intros s u s' Hx; unfold record_capture_seal_reopen, append_seal_event, CaptureCommit.violates in Hx; all_txn; all_ok.
  match goal with |- kept s (set_receipts _ ?mid) => transitivity mid; [by apply kept_same |] end.
  by eapply kept_receipt.
Qed.

Lemma kept_request_finish now session at_ms provenance s :
  kept s (set_receipts (insert session (request_finish now at_ms provenance (receipts s !! session))) s).
Proof. destruct (receipts s !! session) as [r|] eqn:Hr; [by eapply kept_receipt | by apply kept_new_receipt]. Qed.

Lemma kept_finish now session ended_ms provenance : keeps kept (record_provisional_finish (Voice := Voice) now session ended_ms provenance).
Proof. unfold record_provisional_finish; keeps_by_shape; [by apply kept_same | apply kept_request_finish]. Qed.

Lemma kept_delete_intent c token s : kept s (delete_intent (Voice := Voice) c token s).
Proof. apply kept_same; unfold delete_intent; by case_match. Qed.

Lemma kept_insert_event now c : keeps kept (insert_event (Voice := Voice) sha256 codecs now c).
Proof.
  unfold insert_event, insert_new_event, acknowledge_event, finish_if_marked, check_upload_admission, consume_intent.
  keeps_until ltac:(first [apply kept_dirty | apply kept_reopen | apply kept_finish | by apply kept_frame, media_frame]).
  all: first [by apply kept_same | apply kept_delete_intent | by apply kept_same; case_match].
Qed.

Lemma kept_commit_event now c : keeps kept (commit_event (Voice := Voice) sha256 codecs now c).
Proof.
  unfold commit_event; keeps_until ltac:(apply kept_insert_event); apply kept_delete_intent.
Qed.

Lemma kept_batch_items now command l : forall index so_far, keeps kept (commit_batch_items (Voice := Voice) sha256 codecs now command index l so_far).
Proof.
  induction l as [|[m digest] l IH]; intros index so_far; simpl; keeps_by_shape; [| apply IH].
  intros s a s'; unfold located; case_match eqn:E; [intros [= ->] | done]; by eapply kept_insert_event.
Qed.

Lemma kept_batch now command : keeps kept (commit_reference_batch (Voice := Voice) sha256 codecs now command).
Proof.
  unfold commit_reference_batch, admit_batch_event; keeps_until ltac:(apply kept_batch_items).
Qed.

Lemma kept_finish_session now session : keeps kept (finish_session (Voice := Voice) now session).
Proof. unfold finish_session; keeps_until ltac:(apply kept_finish). Qed.

Lemma kept_recover now : keeps kept (recover_inactive_sessions (Voice := Voice) now).
Proof. unfold recover_inactive_sessions; keeps_until ltac:(apply kept_finish). Qed.

(** The pages and the revisions of a store, which the loops over receipts
    read before they write. *)
Definition at_revisions s0 s : Prop := formation_pages s = formation_pages s0 /\ forall session, revision_of s session = revision_of s0 session.

Lemma at_revisions_kept s0 s : at_revisions s0 s -> kept s0 s.
Proof. intros [Hp Hv]; by apply kept_pages. Qed.

Lemma at_revisions_receipt s0 s session r :
  revision_of s0 session = Some (source_revision r) -> at_revisions s0 s -> at_revisions s0 (set_receipts (insert session r) s).
Proof.
  intros Hr [Hp Hv]; split; [done |]; intros x; unfold revision_of; simpl.
  destruct (decide (x = session)) as [->|]; [by rewrite lookup_insert_eq | rewrite lookup_insert_ne by done; apply Hv].
Qed.

Lemma at_revisions_frame s0 s s' : same formation_part s s' -> at_revisions s0 s -> at_revisions s0 s'.
Proof. unfold same, formation_part, at_revisions, revision_of; intros [= -> ->]; done. Qed.

Lemma kept_loop {A} (l : list A) (body : A -> txn (Store Voice) unit) s0 s' u :
  (forall x, x ∈ l -> keeps (fun s s' => at_revisions s0 s -> at_revisions s0 s') (body x)) -> for_each l body s0 = Ok (u, s') -> kept s0 s'.
Proof.
  intros Hb Hx; apply at_revisions_kept.
  by apply (keeps_for_each (fun s s' => at_revisions s0 s -> at_revisions s0 s') l body Hb s0 u s').
Qed.

Lemma kept_import now : keeps kept (import_legacy_provisional_finishes (Voice := Voice) now).
Proof.
  intros s n s' Hx; unfold import_legacy_provisional_finishes in Hx; all_txn; case_match; all_txn; [done |].
  refine (kept_loop _ _ _ _ _ _ ltac:(eassumption)); intros [session [r row]] Hin t u t' Ht; unfold import_one in Ht; all_txn.
  apply at_revisions_receipt; simpl.
  unfold legacy_finishes in Hin; apply elem_of_take in Hin as (i & Hi & _); apply list_elem_of_lookup_2 in Hi.
  unfold sort_by_key in Hi; rewrite elem_of_sort_by, elem_of_filter_bool, elem_of_receipts_with_sessions in Hi.
  unfold revision_of; by destruct Hi as [[-> _] _].
Qed.

Lemma kept_seal_session now session : keeps kept (seal_session (Voice := Voice) sha256 codecs now session).
Proof.
  intros s u s' Hx; unfold seal_session, append_seal_event, CaptureCommit.violates in Hx; all_txn; all_ok.
  match goal with H1 : for_each _ _ _ = Ok (_, ?mid) |- _ => assert (Hmid : at_revisions s mid) end.
  { match goal with H1 : for_each _ _ _ = Ok (_, ?mid) |- _ =>
      refine (keeps_for_each (fun a b => at_revisions s a -> at_revisions s b) _ _ _ _ _ _ H1 (conj eq_refl (fun _ => eq_refl))) end.
    intros o _ a v b Hb; apply at_revisions_frame; revert a v b Hb; unfold seal_stream; destruct o as [[[? ?] ?] ?]; frame_txn. }
  apply at_revisions_kept.
  match goal with |- at_revisions s (set_scans _ ?x) => apply (at_revisions_frame s x); [done |] end.
  apply at_revisions_receipt; [| by eapply at_revisions_frame].
  match goal with Hr : receipts s !! session = Some _ |- _ => unfold revision_of; by rewrite Hr end.
Qed.

Lemma kept_finalize now : keeps kept (finalize_quiet_capture_seals (Voice := Voice) sha256 codecs now).
Proof. unfold finalize_quiet_capture_seals; keeps_until ltac:(apply kept_seal_session). Qed.
End Capture.

(** ** The transactions of formation *)

Section Claims.
Context {Voice Speakers : Type} `{VoiceGraph Voice} `{SpeakerGraph Voice Speakers}.
Context (sha256 : bytes -> bytes) (codecs : Codec) (codec : FormationCodec) (account : str) (now : Z).
Implicit Types db : Formation Voice Speakers.

#[local] Abbreviation txn := (txn (Formation Voice Speakers)).

Definition kept_db db db' : Prop := kept (capture db) (capture db').

#[export] Instance kept_db_preorder : PreOrder kept_db.
Proof. split; [by intros db | intros a b c; unfold kept_db; by transitivity (capture b)]. Qed.

Lemma kept_in_capture {A} (m : Txn.txn (Store Voice) A) : keeps kept m -> keeps kept_db (in_capture (Speakers := Speakers) m).
Proof. intros Hm db a db' Hx; apply in_capture_Ok in Hx as (c & Hx & ->); by eapply Hm. Qed.

Lemma kept_in_memories {A} (m : Txn.txn Memories A) : keeps kept_db (in_memories (Voice := Voice) (Speakers := Speakers) m).
Proof. intros db a db' Hx; apply in_memories_Ok in Hx as (c & Hx & ->); by unfold kept_db. Qed.

(** A transaction that only reads the capture tables. *)
Lemma kept_capture_same {A} (m : txn A) : keeps (same capture) m -> keeps kept_db m.
Proof. intros Hm db a db' Hx; unfold kept_db; by rewrite (Hm db a db' Hx). Qed.

Lemma on_capture_Ok f db u db' : on_capture f db = Ok (u, db') <-> db' = set_capture (f (capture db)) (db : Formation Voice Speakers).
Proof.
  unfold on_capture; rewrite in_capture_Ok; split; [intros (c & Hc & ->) | intros ->; exists (f (capture db)); by destruct u].
  by apply execute_Ok in Hc; subst.
Qed.

Lemma kept_scans : keeps kept_db (on_capture (set_scans (Voice := Voice) []) : txn unit).
Proof. intros db u db' Hx; apply on_capture_Ok in Hx; subst; by apply kept_same. Qed.

Lemma kept_update_pages which f :
  (forall p, which p = true -> follows p (f p)) -> (forall p, which p = true -> pg_state (f p) <> PageInvalidated) ->
  keeps kept_db (update_pages which f : txn unit).
Proof. intros Hf Hi db u db' Hx; apply on_capture_Ok in Hx; subst; apply kept_update; auto. Qed.

Lemma kept_set_receipt c r r' db u db' :
  receipt_of c db = Some r -> source_revision r' = source_revision r -> set_receipt c r' db = Ok (u, db') -> kept_db db db'.
Proof. intros Hr Hv Hx; apply on_capture_Ok in Hx; subst; by eapply kept_receipt. Qed.

#[local] Ltac rewritten := by eapply kept_set_receipt; [eassumption | | eassumption].

Lemma holds_page_state c p : holds_page c p = true -> pg_state p = PageProcessing.
Proof. unfold holds_page, claims_page; rewrite !andb_true_iff, !bool_decide_eq_true; by intros [[[_ Hp] _] _]. Qed.

Lemma holds_page_open c p : holds_page c p = true -> is_open p = true.
Proof. intros Hp; apply processing_open; by eapply holds_page_state. Qed.

Lemma live_page_holds c p : live_page now c p = true -> holds_page c p = true.
Proof. by intros [Hp _]%andb_prop. Qed.

Lemma kept_release c error d : keeps kept_db (release_capture_formation (Voice := Voice) (Speakers := Speakers) now c error d).
Proof.
  intros db u db' Hx; unfold release_capture_formation, Formation.violates in Hx; all_txn; all_ok.
  match goal with H1 : update_pages _ _ db = Ok (_, ?a), H2 : set_receipt _ _ ?a = Ok (_, ?b) |- _ => transitivity a; [| transitivity b] end.
  - match goal with H1 : update_pages _ _ db = Ok _ |- _ => apply on_capture_Ok in H1; subst end; apply kept_update; [| done].
    intros p Hin Hp; apply follows_released; [apply andb_prop in Hp as [Hp _]; by eapply holds_page_open |].
    match goal with Ho : existsb _ _ = false |- _ => rewrite existsb_false in Ho; specialize (Ho p Hin) end.
    by rewrite Hp, andb_true_l, negb_false_iff, I64.in_rangeb_spec in *.
  - rewritten.
  - by eapply kept_scans.
Qed.
Lemma kept_require_live c authoritative e : keeps eq (require_live sha256 account now c authoritative e : txn unit).
Proof. unfold require_live; keeps_by_shape. Qed.

Lemma kept_eq {A} (m : txn A) : keeps eq m -> keeps kept_db m.
Proof. intros Hm db a db' Hx; by rewrite (Hm db a db' Hx). Qed.

Lemma kept_renew c : keeps kept_db (renew_receipt (Voice := Voice) (Speakers := Speakers) now c).
Proof.
  intros db u db' Hx; unfold renew_receipt in Hx; all_txn; case_match; all_txn; [case_match; all_txn |]; [rewritten | done | done].
Qed.

Lemma sources_available_same us ss : keeps eq (ensure_formation_sources_available us ss : txn unit).
Proof. unfold ensure_formation_sources_available; keeps_by_shape. Qed.

Lemma kept_authorize c us ss request : keeps kept_db (authorize_capture_formation_egress sha256 codec account now c us ss request : txn _).
Proof.
  unfold authorize_capture_formation_egress, Formation.violates.
  keeps_until ltac:(first [apply kept_renew | apply kept_eq, kept_require_live | apply kept_eq, sources_available_same | apply kept_update_pages]).
  - intros p [Hp%live_page_holds _]%andb_prop; apply follows_admitted; by eapply holds_page_open.
  - intros p [Hp%live_page_holds _]%andb_prop; simpl; by rewrite (holds_page_state _ _ Hp).
Qed.

Lemma kept_stage c response event : keeps kept_db (stage_capture_formation_response sha256 codec account now c response event : txn _).
Proof.
  unfold stage_capture_formation_response, ensure_terminal_formation_usage_event, Formation.violates.
  keeps_until ltac:(apply kept_update_pages); intros p [[Hp%live_page_holds _]%andb_prop Hs]%andb_prop.
  - apply follows_staged_page; [by eapply holds_page_open |].
    intros old Ho; rewrite Ho in Hs; by apply bool_decide_eq_true in Hs.
  - simpl; by rewrite (holds_page_state _ _ Hp).
Qed.
Lemma kept_continue c : keeps kept_db (continue_receipt (Voice := Voice) (Speakers := Speakers) now c).
Proof. intros db u db' Hx; unfold continue_receipt in Hx; all_txn; all_ok; rewritten. Qed.

Lemma claimed_receipt_revision c r : claimed_receipt now c r = true -> source_revision r = cf_source_revision c.
Proof. unfold claimed_receipt, holds_receipt; rewrite !andb_true_iff, Z.eqb_eq; by intros [[[Hr _] _] _]. Qed.

Lemma kept_complete c : keeps kept_db (complete_receipt sha256 account now c : txn unit).
Proof. intros db u db' Hx; unfold complete_receipt, Formation.violates in Hx; all_txn; all_ok; rewritten. Qed.

Lemma kept_refresh ids : keeps kept_db (refresh_speakers ids : txn unit).
Proof. unfold refresh_speakers; keeps_by_shape; apply kept_same; done. Qed.

Lemma kept_complete_pages c completion : keeps kept_db (update_pages (live_page now c) (completed_page completion) : txn unit).
Proof.
  apply kept_update_pages; [| done]; intros p Hp%live_page_holds; apply follows_completed; by eapply holds_page_open.
Qed.

Lemma kept_settle_claimed settlement authoritative : keeps kept_db (settle_claimed_page sha256 codec account now settlement authoritative : txn _).
Proof.
  unfold settle_claimed_page, check_settled_response, ensure_terminal_formation_usage_event, ensure_episode_sources_unowned, ensure_capture_episode_sources.
  keeps_until ltac:(first [apply kept_complete_pages | apply kept_continue | apply kept_complete | apply kept_refresh | apply kept_in_memories
    | apply kept_eq, kept_require_live | apply kept_eq, sources_available_same | apply kept_scans]).
Qed.

Lemma kept_settle settlement : keeps kept_db (settle_capture_formation sha256 codec account now settlement : txn _).
Proof. unfold settle_capture_formation; keeps_until ltac:(apply kept_settle_claimed). Qed.

(** *** The refresh of a receipt *)

Lemma kept_rebind session r : keeps (fun db db' => revision_of (capture db) session = Some (source_revision r + 1) -> kept_db db db')
  (rebind_seal sha256 codecs now session r : txn unit).
Proof.
  intros db u db' Hx Hrev; unfold rebind_seal in Hx; all_txn.
  match goal with H1 : in_capture _ db = Ok (_, ?mid), H2 : on_capture _ ?mid = Ok _ |- _ =>
    apply in_capture_Ok in H1 as (c & Hc & ->); apply on_capture_Ok in H2; subst end.
  unfold append_seal_event, CaptureCommit.violates in Hc; all_txn; unfold kept_db; simpl.
  unfold revision_of in Hrev; destruct (receipts (capture db) !! session) as [r0|] eqn:Hr; [| done]; simpl in Hrev; injection Hrev as Hrev.
  etrans; [apply kept_same | apply (kept_receipt session r0)]; simpl; [done | done | by rewrite Hrev].
Qed.

Lemma kept_reopen_revision session r exact db u db' :
  receipts (capture db) !! session = Some r -> reopen_revision sha256 codecs now session r exact db = Ok (u, db') -> kept_db db db'.
Proof.
  intros Hr Hx; unfold reopen_revision in Hx; all_txn.
  repeat match goal with
         | H1 : on_capture _ _ = Ok _ |- _ => apply on_capture_Ok in H1; subst
         | H1 : update_pages _ _ _ = Ok _ |- _ => apply on_capture_Ok in H1; subst
         end.
  match goal with H1 : (if _ then on_capture _ else _) ?mid = Ok (_, ?mid'), H2 : (if _ then rebind_seal _ _ _ _ _ else _) ?mid' = Ok (_, ?last) |- _ =>
    assert (K0 : kept_db db mid); [| assert (K1 : same formation_part (capture mid) (capture mid')); [| assert (K2 : kept_db mid' last)]] end.
  - apply kept_next_revision with r; [done | done | |].
    + intros p [Hp Hc]%andb_prop; apply negb_true_iff in Hc; unfold of_revision in Hp; apply andb_prop in Hp as [Hs%str_eqb_eq Hv%Z.eqb_eq].
      split_and!; [done | done | lia].
    + intros p Hs Hv Ho; unfold of_revision; by rewrite Hs, Hv, str_eqb_refl, Z.eqb_refl, (open_not_complete _ Ho).
  - match goal with H1 : (if ?b then on_capture _ else _) _ = Ok _ |- _ => clear K0; destruct b; [apply on_capture_Ok in H1 as -> | apply commits_Ok in H1 as [_ <-]]; by unfold same end.
  - match goal with H1 : (if ?b then rebind_seal _ _ _ _ _ else _) _ = Ok _ |- _ => destruct b; [| apply commits_Ok in H1 as [_ <-]; by unfold kept_db] end.
    eapply kept_rebind; [eassumption |].
    unfold same, formation_part in K1; injection K1 as K1 _; unfold revision_of; rewrite K1; simpl; by rewrite lookup_insert_eq.
  - etrans; [exact K0 |]; etrans; [apply kept_same, K1 |]; etrans; [exact K2 |]; by apply kept_same.
Qed.

Lemma kept_refresh_receipt session : keeps kept_db (refresh_capture_formation_receipt sha256 codecs account now session : txn bool).
Proof.
  intros db u db' Hx; unfold refresh_capture_formation_receipt in Hx; apply then_Ok in Hx as (found & mid & [-> ->]%select_Ok & Hx); cbn beta iota in Hx.
  destruct (receipts (capture db) !! session) as [r|] eqn:Hr; all_txn.
  - match goal with H1 : (let (_, _) := ?pair in _) _ = Ok _ |- _ => destruct pair as [seal_changed exact] end.
    match goal with H1 : (if ?b then _ else _) _ = Ok _ |- _ => destruct b end; all_txn; [done |]; by eapply kept_reopen_revision.
  - repeat match goal with H1 : on_capture _ _ = Ok _ |- _ => apply on_capture_Ok in H1; subst end.
    unfold kept_db; etrans; [by apply (kept_new_receipt session (new_receipt now None)) | by apply kept_same].
Qed.

Lemma kept_evidence c ulimit slimit : keeps kept_db (capture_formation_evidence sha256 codec account now c ulimit slimit : txn _).
Proof.
  unfold capture_formation_evidence, prepare_authoring_utterances; keeps_until ltac:(apply kept_eq, kept_require_live).
Qed.
End Claims.
