(* ===== verification/FormationPages.v ===== *)
(** * The pages of a revision

    What a claim adds to the pages of exact-session formation, and the
    invariant every transaction keeps of them: numbered without a gap, one of
    them open at a time, each of a part of the evidence no other covers. *)
From stdpp Require Import gmap sorting.
From Stdlib Require Import ZArith Lia.
From S2P Require Import Prelude OrdMap Text Errors Bytes Json CaptureManifest CaptureIngest VoiceEnrollment Txn CaptureStore CaptureCommit CaptureSeal.
From S2P Require Import CaptureLedger Summarizer SummarizerFlow FormationDb FormationMemories FormationSource Formation FormationLedger.
Local Open Scope Z_scope.
Local Open Scope kioku_scope.

Definition page_revision (p : PageRow) : str * Z := (pg_session (pg_source p), pg_source_revision (pg_source p)).
Definition page_index (p : PageRow) : Z := pg_index (pg_source p).

(** A page as a claim makes it. *)
Record page_ok (p : PageRow) : Prop := {
  page_ok_index : 0 <= page_index p;
  page_ok_attempt : I64.in_range (pg_attempt p);
  page_ok_covered : NoDup (covered_sources p);
  page_ok_utterances : forall id, id ∈ pg_provider_utterances (pg_source p) -> id ∈ pg_covered_utterances (pg_source p);
  page_ok_screenshots : forall id, id ∈ pg_provider_screenshots (pg_source p) -> id ∈ pg_covered_screenshots (pg_source p);
  page_ok_ids : NoDup (pg_provider_utterances (pg_source p)) /\ NoDup (pg_provider_screenshots (pg_source p))
}.

Lemma elem_of_covered source p :
  source ∈ covered_sources p <->
  match source with Utterance id => id ∈ pg_covered_utterances (pg_source p) | Screenshot id => id ∈ pg_covered_screenshots (pg_source p) end.
Proof.
  unfold covered_sources; rewrite elem_of_app, !list_elem_of_fmap; destruct source as [id|id]; split.
  - intros [(? & [= ->] & ?)|(? & ? & _)]; done.
  - intros Hin; left; by exists id.
  - intros [(? & ? & _)|(? & [= ->] & ?)]; done.
  - intros Hin; right; by exists id.
Qed.

Lemma of_revision_true session revision p : of_revision session revision p = true <-> page_revision p = (session, revision).
Proof.
  unfold of_revision, page_revision; rewrite andb_true_iff, str_eqb_eq, Z.eqb_eq; split; [by intros [-> ->] | by intros [= -> ->]].
Qed.

Lemma page_ok_follows p p' : follows p p' -> page_ok p -> page_ok p'.
Proof.
  intros Hf [A W B C D E]; split; unfold page_index, covered_sources in *; rewrite ?(follows_source _ _ Hf); try done.
  by apply (follows_width _ _ Hf).
Qed.

Section Pages.
Context {Voice : Type}.
Implicit Types s : Store Voice.

(** The invariant. *)
Record pages_ok s : Prop := {
  pages_rows : forall i p, formation_pages s !! i = Some p -> page_ok p;
  pages_receipt : forall i p, formation_pages s !! i = Some p -> exists n, revision_of s (pg_session (pg_source p)) = Some n
    /\ pg_source_revision (pg_source p) <= n /\ (is_open p = true -> pg_source_revision (pg_source p) = n)
    /\ (pg_state p = PageInvalidated -> pg_source_revision (pg_source p) < n);
  pages_key : forall i j p q, formation_pages s !! i = Some p -> formation_pages s !! j = Some q ->
    page_revision p = page_revision q -> page_index p = page_index q -> i = j;
  pages_one_open : forall i j p q, formation_pages s !! i = Some p -> formation_pages s !! j = Some q ->
    page_revision p = page_revision q -> i <> j -> complete p = true \/ complete q = true;
  pages_previous : forall i p, formation_pages s !! i = Some p -> 0 < page_index p ->
    exists j q, formation_pages s !! j = Some q /\ page_revision q = page_revision p /\ page_index q = page_index p - 1 /\ complete q = true;
  pages_disjoint : forall i j p q source, formation_pages s !! i = Some p -> formation_pages s !! j = Some q ->
    page_revision p = page_revision q -> source ∈ covered_sources p -> source ∈ covered_sources q -> i = j
}.

(** What only rewrites pages keeps it. *)
Lemma kept_pages_back s s' i p' :
  kept s s' -> formation_pages s' !! i = Some p' -> exists p, formation_pages s !! i = Some p /\ follows p p'.
Proof.
  intros [[P _ _ _] L] Hp'; destruct (lookup_lt_is_Some_2 (formation_pages s) i) as [p Hp].
  { rewrite <- L; by eapply lookup_lt_Some. }
  destruct (P i p Hp) as (q & Hq & Hf); exists p; split; [done |]; congruence.
Qed.

Lemma follows_revision p p' : follows p p' -> page_revision p' = page_revision p /\ page_index p' = page_index p /\ covered_sources p' = covered_sources p.
Proof. intros Hf; unfold page_revision, page_index, covered_sources; by rewrite (follows_source _ _ Hf). Qed.

Lemma follows_stays_complete p p' : follows p p' -> complete p = true -> complete p' = true.
Proof. intros Hf Hc; by rewrite (follows_complete _ _ Hf Hc). Qed.

Lemma kept_pages_ok s s' : kept s s' -> pages_ok s -> pages_ok s'.
Proof.
  intros Hk [Row Rec Key One Prev Dis]; pose proof Hk as [[P V O I] L].
  split.
  - intros i p' Hp'; destruct (kept_pages_back _ _ _ _ Hk Hp') as (p & Hp & Hf).
    eapply page_ok_follows; [done | by eapply Row].
  - intros i p' Hp'; destruct (kept_pages_back _ _ _ _ Hk Hp') as (p & Hp & Hf).
    destruct (Rec i p Hp) as (n & Hn & Hle & Hop & Hin); destruct (V _ _ Hn) as (n' & Hn' & Hle').
    rewrite (follows_source _ _ Hf); exists n'; split; [done |]; split; [lia |]; split.
    + intros Ho; pose proof (Hop (follows_open _ _ Hf Ho)) as Heq; rewrite <- Heq in Hn.
      specialize (O i p p' Hp Hp' Ho Hn); congruence.
    + intros Hi; destruct (I i p p' Hp Hp' Hi) as [Hi'|(m & Hm & Hlt)]; [specialize (Hin Hi'); lia | congruence].
  - intros i j p' q' Hp' Hq'; destruct (kept_pages_back _ _ _ _ Hk Hp') as (p & Hp & Hf), (kept_pages_back _ _ _ _ Hk Hq') as (q & Hq & Hg).
    destruct (follows_revision _ _ Hf) as (-> & -> & _), (follows_revision _ _ Hg) as (-> & -> & _); by apply Key.
  - intros i j p' q' Hp' Hq'; destruct (kept_pages_back _ _ _ _ Hk Hp') as (p & Hp & Hf), (kept_pages_back _ _ _ _ Hk Hq') as (q & Hq & Hg).
    destruct (follows_revision _ _ Hf) as (-> & _ & _), (follows_revision _ _ Hg) as (-> & _ & _); intros Hr Hne.
    destruct (One i j p q Hp Hq Hr Hne); [left | right]; by eapply follows_stays_complete.
  - intros i p' Hp'; destruct (kept_pages_back _ _ _ _ Hk Hp') as (p & Hp & Hf).
    destruct (follows_revision _ _ Hf) as (-> & -> & _); intros Hpos; destruct (Prev i p Hp Hpos) as (j & q & Hq & Hr & Hi & Hc).
    destruct (P j q Hq) as (q' & Hq' & Hg); destruct (follows_revision _ _ Hg) as (E1 & E2 & _).
    exists j, q'; rewrite E1, E2; split_and!; try done; by eapply follows_stays_complete.
  - intros i j p' q' source Hp' Hq'; destruct (kept_pages_back _ _ _ _ Hk Hp') as (p & Hp & Hf), (kept_pages_back _ _ _ _ Hk Hq') as (q & Hq & Hg).
    destruct (follows_revision _ _ Hf) as (-> & _ & ->), (follows_revision _ _ Hg) as (-> & _ & ->); by apply Dis.
Qed.
(** The pages before a page. *)
Lemma pages_before s i p k : pages_ok s -> formation_pages s !! i = Some p -> 0 <= k < page_index p ->
  exists j q, formation_pages s !! j = Some q /\ page_revision q = page_revision p /\ page_index q = k /\ complete q = true.
Proof.
  intros Hok; remember (Z.to_nat (page_index p - k)) as n eqn:Hn; revert i p Hn; induction n as [|n IH]; intros i p Hn Hi Hk; [lia |].
  destruct (pages_previous _ Hok i p Hi ltac:(lia)) as (j & q & Hj & Hr & Hx & Hc).
  destruct (decide (page_index p = k + 1)) as [Heq|Hne]; [exists j, q; split_and!; [done | done | lia | done] |].
  destruct (IH j q ltac:(lia) Hj ltac:(lia)) as (j' & q' & ? & Hr' & ?); exists j', q'; rewrite Hr', Hr; done.
Qed.
End Pages.

(** ** A page made *)

Lemma NoDup_keyed {A B C} (f : A -> option B) (g : A -> C) (h : B -> C) (l : list A) :
  (forall x y, f x = Some y -> h y = g x) -> NoDup (g <$> l) -> NoDup (h <$> omap f l).
Proof.
  intros Hf; induction l as [|x l IH]; [intros _; constructor |]; cbn [fmap list_fmap]; intros [Hx Hl]%NoDup_cons.
  cbn [omap list_omap]; destruct (f x) as [y|] eqn:E; [| by apply IH].
  cbn [fmap list_fmap]; apply NoDup_cons; split; [| by apply IH].
  intros (z & Hz & (w & Hw & Hwz)%list_elem_of_omap)%list_elem_of_fmap; apply Hx, list_elem_of_fmap; exists w; split; [| done].
  rewrite <- (Hf _ _ E), Hz; by apply Hf.
Qed.

Lemma NoDup_filtered {A B} (g : A -> B) (keep : A -> bool) (l : list A) : NoDup (g <$> l) -> NoDup (g <$> List.filter keep l).
Proof.
  induction l as [|x l IH]; [done |]; cbn [fmap list_fmap]; intros [Hx Hl]%NoDup_cons; simpl; case_match; [| by apply IH].
  cbn [fmap list_fmap]; apply NoDup_cons; split; [| by apply IH].
  intros (y & Hy & [Hin _]%elem_of_filter_bool)%list_elem_of_fmap; apply Hx, list_elem_of_fmap; eauto.
Qed.

Section Create.
Context {Voice Speakers : Type} `{VoiceGraph Voice} `{SpeakerGraph Voice Speakers}.
Implicit Types s : Store Voice.
Implicit Types db : Formation Voice Speakers.

Lemma evidence_utterances_NoDup session s m : NoDup (snd <$> evidence_utterances session s m).
Proof.
  unfold evidence_utterances, timed_utterances, sort_by_key.
  rewrite sort_by_perm; apply (NoDup_keyed _ fst); [| apply NoDup_fst_map_to_list].
  intros [id u] [t i]; simpl; repeat case_match; intros [= <- <-] || intros; done.
Qed.

Lemma evidence_screenshots_NoDup session s m : NoDup (snd <$> evidence_screenshots session s m).
Proof.
  unfold evidence_screenshots, timed_screenshots, sort_by_key.
  rewrite sort_by_perm; apply (NoDup_keyed _ fst); [| apply NoDup_fst_map_to_list].
  intros [id u] [t i]; simpl; repeat case_match; intros [= <- <-] || intros; done.
Qed.

(** The next ids no page covers. *)
Lemma uncovered_spec size (covers : Z -> PageRow -> bool) (rows : list (Z * Z)) (pages : list PageRow) ids :
  ids = take size (snd <$> List.filter (fun e => negb (existsb (covers e.2) pages)) rows) -> NoDup (snd <$> rows) ->
  NoDup ids /\ forall id, id ∈ ids -> id ∈ snd <$> rows /\ forall p, p ∈ pages -> covers id p = false.
Proof.
  intros -> Hrows; split.
  - eapply sublist_NoDup; [| apply sublist_take]; by apply NoDup_filtered.
  - intros id (i & Hi & _)%elem_of_take; apply list_elem_of_lookup_2, list_elem_of_fmap in Hi as (e & -> & [Hin Hc]%elem_of_filter_bool).
    split; [apply list_elem_of_fmap; by exists e |]; by rewrite negb_true_iff, existsb_false in Hc.
Qed.

Lemma create_page_Ok sha256 codec session revision fingerprint index db src token until :
  create_capture_formation_page sha256 codec session revision fingerprint index db = Ok src -> 0 <= index ->
  page_ok (new_page src token until) /\ pg_session src = session /\ pg_source_revision src = revision /\ pg_index src = index
  /\ forall source q, source ∈ covered_sources (new_page src token until) -> q ∈ pages_of session revision (capture db) -> source ∉ covered_sources q.
Proof.
  unfold create_capture_formation_page; intros Hx Hi; all_ok; subst src.
  set (us := take CAPTURE_FORMATION_UTTERANCE_PAGE_SIZE _); set (ss := take CAPTURE_FORMATION_SCREENSHOT_PAGE_SIZE _).
  destruct (uncovered_spec _ covers_utterance _ _ us eq_refl (evidence_utterances_NoDup _ _ _)) as [Nu Cu].
  destruct (uncovered_spec _ covers_screenshot _ _ ss eq_refl (evidence_screenshots_NoDup _ _ _)) as [Ns Cs].
  clearbody us ss.
  split_and!; try done.
  - split; simpl; try done.
    + unfold covered_sources; simpl; apply NoDup_app; split_and!.
      * apply NoDup_fmap_2; [by intros ? ? [=] | done].
      * intros y (? & -> & _)%list_elem_of_fmap (? & ? & _)%list_elem_of_fmap; done.
      * apply NoDup_fmap_2; [by intros ? ? [=] | done].
    + by intros id [? _]%elem_of_filter_bool.
    + by intros id [? _]%elem_of_filter_bool.
    + split; rewrite <- (list_fmap_id (List.filter _ _)); apply (NoDup_filtered id); by rewrite list_fmap_id.
  - intros source q Hs Hq; rewrite elem_of_covered in *; destruct source as [id|id]; simpl in Hs; intros Hin.
    + apply Cu in Hs as [_ Hc]; specialize (Hc q Hq); unfold covers_utterance in Hc; rewrite existsb_false in Hc.
      specialize (Hc id Hin); by rewrite Z.eqb_refl in Hc.
    + apply Cs in Hs as [_ Hc]; specialize (Hc q Hq); unfold covers_screenshot in Hc; rewrite existsb_false in Hc.
      specialize (Hc id Hin); by rewrite Z.eqb_refl in Hc.
Qed.
End Create.

(** ** A page added *)

Section Append.
Context {Voice : Type}.
Implicit Types s : Store Voice.

Lemma elem_of_pages_of session revision s p :
  p ∈ pages_of session revision s <-> page_revision p = (session, revision) /\ exists i, formation_pages s !! i = Some p.
Proof. unfold pages_of; rewrite elem_of_filter_bool, of_revision_true, list_elem_of_lookup; tauto. Qed.

Lemma no_open_page session revision s p :
  open_page session revision s = None -> p ∈ pages_of session revision s -> is_open p = false.
Proof.
  intros Hn Hp; destruct (is_open p) eqn:E; [| done]; exfalso.
  assert (Hin : p ∈ sort_by_key (fun p => pg_index (pg_source p)) (List.filter is_open (pages_of session revision s))).
  { unfold sort_by_key; by rewrite elem_of_sort_by, elem_of_filter_bool. }
  unfold open_page in Hn; destruct (sort_by_key _ _); [by apply not_elem_of_nil in Hin | done].
Qed.

(** The pages of a revision in force are complete when none is open. *)
Lemma settled_pages session revision s p :
  pages_ok s -> revision_of s session = Some revision -> open_page session revision s = None ->
  p ∈ pages_of session revision s -> complete p = true.
Proof.
  intros Hok Hr Hn Hp; pose proof (no_open_page _ _ _ _ Hn Hp) as Ho; apply elem_of_pages_of in Hp as [[= Hs Hv] [i Hi]].
  destruct (pages_receipt _ Hok i p Hi) as (n & Hn' & _ & _ & Hinv); rewrite Hs, Hr in Hn'; injection Hn' as <-.
  unfold is_open in Ho; destruct (complete p); [done |]; simpl in Ho; apply negb_false_iff, bool_decide_eq_true in Ho.
  specialize (Hinv Ho); lia.
Qed.

Lemma next_page_index_spec session revision s :
  pages_ok s -> revision_of s session = Some revision -> open_page session revision s = None ->
  let next := next_page_index session revision s in
  0 <= next /\ (forall p, p ∈ pages_of session revision s -> page_index p < next)
  /\ (0 < next -> exists q, q ∈ pages_of session revision s /\ page_index q = next - 1 /\ complete q = true).
Proof.
  intros Hok Hr Hn; simpl; unfold next_page_index; destruct (max_Z _) as [i|] eqn:E.
  - pose proof E as E'; apply (max_by_elem Z.leb) in E'; apply list_elem_of_fmap in E' as (q & -> & [Hq Hc]%elem_of_filter_bool).
    pose proof Hq as [_ [j Hj]]%elem_of_pages_of; pose proof (page_ok_index _ (pages_rows _ Hok j q Hj)) as H0; unfold page_index in *; split_and!; [lia | |].
    + intros p Hp; assert (Hle : pg_index (pg_source p) <= pg_index (pg_source q)); [| lia].
      eapply max_Z_ge; [done |]; apply list_elem_of_fmap; exists p; split; [done |]; apply elem_of_filter_bool; split; [done |].
      by eapply settled_pages.
    + intros _; exists q; split_and!; [done | lia | done].
  - split_and!; [lia | | lia]; intros p Hp; exfalso; apply (max_by_None Z.leb) in E; apply fmap_nil_inv in E.
    pose proof (settled_pages _ _ _ _ Hok Hr Hn Hp) as Hc; assert (Hin : p ∈ List.filter complete (pages_of session revision s)) by by apply elem_of_filter_bool.
    rewrite E in Hin; by apply not_elem_of_nil in Hin.
Qed.

Lemma lookup_snoc {A} (l : list A) x i y : (l ++ [x]) !! i = Some y -> l !! i = Some y \/ i = length l /\ y = x.
Proof.
  intros Hi; apply lookup_app_Some in Hi as [?|[Hle Hi]]; [by left | right].
  apply list_lookup_singleton_Some in Hi as [? ->]; split; [lia | done].
Qed.

Lemma pages_ok_append session revision s src token until :
  pages_ok s -> revision_of s session = Some revision -> open_page session revision s = None ->
  let page := new_page src token until in
  page_ok page -> page_revision page = (session, revision) -> page_index page = next_page_index session revision s ->
  (forall source q, source ∈ covered_sources page -> q ∈ pages_of session revision s -> source ∉ covered_sources q) ->
  pages_ok (set_pages (fun l => l ++ [page]) s).
Proof.
  intros Hok Hr Hn page Hp Hrev Hidx Hnew; pose proof (next_page_index_spec _ _ _ Hok Hr Hn) as (N0 & N1 & N2); simpl in N1, N2.
  rewrite <- Hidx in N1, N2; pose proof Hok as [Row Rec Key One Prev Dis].
  assert (Hof : forall i p, formation_pages s !! i = Some p -> page_revision p = page_revision page -> p ∈ pages_of session revision s).
  { intros i p Hi He; apply elem_of_pages_of; split; [congruence | by exists i]. }
  split; simpl.
  - intros i p [Hi| [_ ->]]%lookup_snoc; [by eapply Row | done].
  - intros i p [Hi| [_ ->]]%lookup_snoc; [by apply (Rec i) |]; injection Hrev as Hs Hv; exists revision; simpl in *; rewrite Hs, Hv.
    split; [done |]; split; [lia |]; split; [done | done].
  - intros i j p q [Hi| [-> ->]]%lookup_snoc [Hj| [-> ->]]%lookup_snoc Hq Hx; [by eapply Key | | | done].
    + pose proof (N1 p (Hof _ _ Hi Hq)); lia.
    + pose proof (N1 q (Hof _ _ Hj (eq_sym Hq))); lia.
  - intros i j p q [Hi| [-> ->]]%lookup_snoc [Hj| [-> ->]]%lookup_snoc Hq Hne; [by eapply One | left | right | done].
    + eapply settled_pages; eauto.
    + eapply settled_pages; eauto.
  - intros i p [Hi| [-> ->]]%lookup_snoc Hpos.
    + destruct (Prev i p Hi Hpos) as (j & q & Hj & ?); exists j, q; split; [by apply lookup_app_l_Some | done].
    + destruct (N2 Hpos) as (q & [Hq [j Hj]]%elem_of_pages_of & Hi & Hc); exists j, q; split_and!; [by apply lookup_app_l_Some | congruence | done | done].
  - intros i j p q source [Hi| [-> ->]]%lookup_snoc [Hj| [-> ->]]%lookup_snoc Hq Hs1 Hs2; [by eapply Dis | | | done]; exfalso.
    + eapply Hnew; [exact Hs2 | by eapply Hof | done].
    + eapply Hnew; [exact Hs1 | by eapply Hof | done].
Qed.
End Append.

(** ** The claim *)

Section Claim.
Context {Voice Speakers : Type} `{VoiceGraph Voice} `{SpeakerGraph Voice Speakers}.
Context (sha256 : bytes -> bytes) (codecs : Codec) (codec : FormationCodec) (account : str) (now : Z).
Implicit Types db : Formation Voice Speakers.

#[local] Abbreviation txn := (txn (Formation Voice Speakers)).

(** What any transaction does to the pages. *)
Definition grown db db' : Prop := carried (capture db) (capture db') /\ (pages_ok (capture db) -> pages_ok (capture db')).

#[export] Instance grown_preorder : PreOrder grown.
Proof. split; [by intros db; split | intros a b c [A1 A2] [B1 B2]; split; [by transitivity (capture b) | auto]]. Qed.

Lemma kept_grown db db' : kept_db db db' -> grown db db'.
Proof. intros Hk; split; [apply Hk | by apply kept_pages_ok]. Qed.

Lemma keeps_grown {A} (m : txn A) : keeps kept_db m -> keeps grown m.
Proof. intros Hm db a db' Hx; by apply kept_grown, (Hm db a). Qed.

Lemma claim_page_grown session revision source token until db a db' :
  revision_of (capture db) session = Some revision ->
  claim_page sha256 codec session revision source token until db = Ok (a, db') -> grown db db'.
Proof.
  intros Hr Hx; unfold claim_page in Hx; apply then_Ok in Hx as (existing & db1 & H1 & Hx); apply select_Ok in H1 as [-> ->].
  destruct (open_page session revision (capture db)) as [p|] eqn:Hopen.
  - all_txn; apply kept_grown; refine (kept_update_pages _ _ _ _ _ _ _ ltac:(eassumption)); [| done].
    intros q [_ Hq]%andb_prop; by apply follows_claimed.
  - unfold Formation.violates in Hx; all_txn; all_ok.
    repeat match goal with H1 : on_capture _ _ = Ok _ |- _ => apply on_capture_Ok in H1 end; subst.
    split; [apply carried_append |]; intros Hok.
    destruct (next_page_index_spec _ _ _ Hok Hr Hopen) as (Hge & _).
    match goal with Hc : create_capture_formation_page _ _ _ _ _ _ _ = Ok ?src |- _ =>
      destruct (create_page_Ok _ _ _ _ _ _ _ _ token until Hc Hge) as (Hp & Hs & Hv & Hi & Hn) end.
    by apply (pages_ok_append session revision); [.. | unfold page_revision; simpl; rewrite Hs, Hv | |].
Qed.

Lemma claim_receipt_kept session r source token until db u db' :
  receipts (capture db) !! session = Some r ->
  claim_receipt (Speakers := Speakers) now session r source token until db = Ok (u, db') -> kept_db db db'.
Proof.
  intros Hr Hx; unfold claim_receipt, Formation.violates in Hx; all_txn; apply on_capture_Ok in Hx; subst.
  by eapply kept_receipt.
Qed.

Lemma claim_session_grown kv token until db a db' :
  receipts (capture db) !! kv.1 = Some kv.2.1 ->
  claim_session sha256 codec account now kv token until db = Ok (a, db') -> grown db db'.
Proof.
  destruct kv as [session [r row]]; simpl; intros Hr Hx.
  assert (Hv : revision_of (capture db) session = Some (source_revision r)) by (unfold revision_of; by rewrite Hr).
  all_txn; match goal with H1 : claim_page _ _ _ _ _ _ _ db = Ok (?x, ?mid), Hx : _ ?mid = Ok _ |- _ =>
    pose proof (claim_page_grown _ _ _ _ _ _ _ _ Hv H1) as Hg; destruct x as [page []]; simpl in Hx end; all_txn; [| done].
  case_match eqn:Hr'; all_txn; [| done]; case_match; all_txn; [| done].
  etransitivity; [exact Hg | apply kept_grown]; etransitivity; [by eapply claim_receipt_kept | by eapply kept_scans].
Qed.

Lemma select_candidate_receipt db kv : select_candidate now db = Some kv -> receipts (capture db) !! kv.1 = Some kv.2.1.
Proof.
  unfold select_candidate; intros Hh; apply head_Some_elem_of in Hh; destruct kv as [session [r row]].
  unfold sort_by_key in Hh; rewrite elem_of_sort_by, elem_of_filter_bool, elem_of_receipts_with_sessions in Hh; tauto.
Qed.

Lemma claim_grown lease token : keeps grown (claim_capture_formation sha256 codecs codec account now lease token : txn _).
Proof.
  intros db a db' Hx; unfold claim_capture_formation, or_rolls_back in Hx; all_txn.
  match goal with Hx : match ?m db with _ => _ end = _ |- _ => destruct (m db) as [[[answer|] dbx]|e] eqn:E; [| by injection Hx as <- <- | done]; injection Hx as <- <- end.
  all_txn; case_match; all_txn; [done |].
  match goal with H1 : in_capture (import_legacy_provisional_finishes _) db = Ok (_, ?d1), H2 : in_capture (finalize_quiet_capture_seals _ _ _) ?d1 = Ok (_, ?d2) |- _ =>
    transitivity d2; [apply kept_grown; transitivity d1; [eapply kept_in_capture; [apply kept_import | exact H1] | eapply kept_in_capture; [apply kept_finalize | exact H2]] |] end.
  case_match eqn:Hs; all_txn; [| done]; eapply claim_session_grown; [by apply select_candidate_receipt | done].
Qed.
End Claim.
