(* ===== verification/FormationTheorems.v ===== *)
(** * What formation promises

    The steps an account takes while its sessions are formed, the invariants
    of every state they reach, and the theorems: the pages of a revision part
    its evidence, a completed revision covers its evidence exactly, a
    settlement gives each source one owner, an attempt has one request, a
    staged page is never sent again, a settlement replays, a refresh settles
    its receipt, and what the fingerprint of a source binds. *)
From stdpp Require Import gmap sorting.
From Stdlib Require Import ZArith Lia.
From S2P Require Import Prelude OrdMap Text F64 Errors Bytes Json IsoTime Presentation CaptureManifest CaptureIngest VoiceEnrollment.
From S2P Require Import Vertex VertexFlow Summarizer SummarizerFlow Txn UsageDb CaptureStore CaptureCommit CaptureSeal CaptureLedger CaptureTheorems.
From S2P Require Import Episode FormationDb FormationMemories FormationSource Formation FormationLedger FormationPages.
Local Open Scope Z_scope.
Local Open Scope kioku_scope.

Section Theorems.
Context {Voice Speakers : Type} `{VoiceGraph Voice} `{SpeakerGraph Voice Speakers}.
Context (sha256 : bytes -> bytes) (codecs : Codec) (codec : FormationCodec) (account : str).
Implicit Types db : Formation Voice Speakers.

(** ** The steps *)

(** A transaction of capture. *)
Inductive capture_step (s : Store Voice) : Store Voice -> Prop :=
| capture_reserve now owner identity key digest random : capture_step s (after (reserve_media_upload now owner identity key digest random) s)
| capture_media_key candidate : capture_step s (after (install_media_dek candidate) s)
| capture_commit now c : capture_step s (after (commit_event sha256 codecs now c) s)
| capture_batch now command : capture_step s (after (commit_reference_batch sha256 codecs now command) s)
| capture_finish now session : capture_step s (after (finish_session now session) s)
| capture_import now : capture_step s (after (import_legacy_provisional_finishes now) s)
| capture_seal now : capture_step s (after (finalize_quiet_capture_seals sha256 codecs now) s)
| capture_recover now : capture_step s (after (recover_inactive_sessions now) s).

(** Other components write evidence, erase it and retire episodes; they make
    no page, and keep what [kept_db] and [memories_ok] say.  When they have
    changed a session's sources they refresh its receipt. *)
Inductive step db : Formation Voice Speakers -> Prop :=
| step_claim now lease token : step db (after (claim_capture_formation sha256 codecs codec account now lease token) db)
| step_release now c error d : step db (after (release_capture_formation now c error d) db)
| step_evidence now c us ss : step db (after (capture_formation_evidence sha256 codec account now c us ss) db)
| step_authorize now c us ss request : step db (after (authorize_capture_formation_egress sha256 codec account now c us ss request) db)
| step_stage now c response event : step db (after (stage_capture_formation_response sha256 codec account now c response event) db)
| step_refresh now session : step db (after (refresh_capture_formation_receipt sha256 codecs account now session) db)
| step_settle now settlement : step db (after (settle_capture_formation sha256 codec account now settlement) db)
| step_claim_window now from till at_ token lease : step db (after (claim_summary_window now account from till at_ token lease) db)
| step_release_window claim at_ error : step db (after (release_summary_window claim at_ error) db)
| step_authorize_window now claim us ss ids : step db (after (authorize_summary_window_egress now claim us ss ids) db)
| step_settle_window now settlement : step db (after (settle_summary_window codec now settlement) db)
| step_capture c : capture_step (capture db) c -> step db (set_capture c db)
| step_other db' : kept_db db db' -> (memories_ok (memories db) -> memories_ok (memories db')) -> step db db'.

(** An account before its first session and its first episode. *)
Definition fresh db : Prop :=
  formation_pages (capture db) = [] /\ episodes (memories db) = ∅ /\ episode_members (memories db) = ∅
  /\ memory_handles (memories db) = ∅ /\ active_owners (memories db) = ∅.

Definition reachable db : Prop := exists db0, fresh db0 /\ rtc step db0 db.

(** ** The invariants *)

Record formation_ok db : Prop := { formation_pages_ok : pages_ok (capture db); formation_memories_ok : memories_ok (memories db) }.

Lemma after_keeps {S A} (R : S -> S -> Prop) `{!PreOrder R} (m : Txn.txn S A) s : keeps R m -> R s (after m s).
Proof. intros Hm; unfold after, transact; destruct (m s) as [[a s']|e] eqn:E; [by eapply Hm | done]. Qed.

Lemma after_Ok {S A} (m : Txn.txn S A) s a s' : m s = Ok (a, s') -> after m s = s'.
Proof. unfold after, transact; by intros ->. Qed.

Lemma capture_step_kept s s' : capture_step s s' -> kept s s'.
Proof.
  destruct 1; apply after_keeps; try tc_solve; auto using kept_reserve, kept_media_key, kept_commit_event, kept_batch, kept_finish_session, kept_import, kept_finalize, kept_recover.
Qed.

(** What only a settlement writes. *)
Lemma memories_same {A} (m : Txn.txn (Formation Voice Speakers) A) db : keeps (same memories) m -> memories (after m db) = memories db.
Proof. intros Hm; exact (after_keeps (same memories) m db Hm). Qed.

Lemma capture_memories {A} (m : Txn.txn (Store Voice) A) : keeps (same memories) (in_capture (Speakers := Speakers) m).
Proof. intros db a db' Hx; apply in_capture_Ok in Hx as (c & _ & ->); done. Qed.
Lemma or_rolls_back_keeps {A} (R : Formation Voice Speakers -> Formation Voice Speakers -> Prop) `{!PreOrder R} (m : Txn.txn (Formation Voice Speakers) (option (option A))) :
  keeps R m -> keeps R (or_rolls_back m).
Proof.
  intros Hm db a db' Hx; unfold or_rolls_back in Hx; destruct (m db) as [[[answer|] db1]|e] eqn:E; [| | done]; injection Hx as <- <-; [by eapply Hm | done].
Qed.

#[local] Ltac same_memories := keeps_until ltac:(first [apply capture_memories | progress unfold on_capture, update_pages, set_receipt, require_live, renew_receipt, set_window,
  ensure_formation_sources_available, ensure_open_episodes_available, ensure_terminal_formation_usage_event, prepare_authoring_utterances]); unfold same; try done.

Lemma claim_memories now lease token : keeps (same memories) (claim_capture_formation sha256 codecs codec account now lease token : Txn.txn (Formation Voice Speakers) _).
Proof.
  unfold claim_capture_formation; keeps_until ltac:(first [apply or_rolls_back_keeps; [tc_solve |] | apply capture_memories]).
  unfold claim_session, claim_page, claim_receipt; same_memories.
Qed.

Lemma release_memories now c error d : keeps (same memories) (release_capture_formation now c error d : Txn.txn (Formation Voice Speakers) _).
Proof. unfold release_capture_formation; same_memories. Qed.

Lemma evidence_memories now c us ss : keeps (same memories) (capture_formation_evidence sha256 codec account now c us ss : Txn.txn (Formation Voice Speakers) _).
Proof. unfold capture_formation_evidence; same_memories. Qed.

Lemma authorize_memories now c us ss request : keeps (same memories) (authorize_capture_formation_egress sha256 codec account now c us ss request : Txn.txn (Formation Voice Speakers) _).
Proof. unfold authorize_capture_formation_egress; same_memories. Qed.

Lemma refresh_memories now session : keeps (same memories) (refresh_capture_formation_receipt sha256 codecs account now session : Txn.txn (Formation Voice Speakers) _).
Proof. unfold refresh_capture_formation_receipt, reopen_revision, rebind_seal; same_memories. Qed.

Lemma stage_memories now c response event : keeps (same memories) (stage_capture_formation_response sha256 codec account now c response event : Txn.txn (Formation Voice Speakers) _).
Proof. unfold stage_capture_formation_response; same_memories. Qed.

(** The summary windows leave the capture tables alone, and all but their
    settlement the memories. *)
Definition outside_windows db := (capture db, memories db).

Lemma keeps_outside {A} (m : Txn.txn (Formation Voice Speakers) A) : keeps (same outside_windows) m -> keeps (same capture) m /\ keeps (same memories) m.
Proof. intros Hm; split; intros db a db' Hx; pose proof (Hm db a db' Hx) as Hs; unfold same, outside_windows in *; congruence. Qed.

Lemma claim_window_same now from till at_ token lease : keeps (same outside_windows) (claim_summary_window now account from till at_ token lease : Txn.txn (Formation Voice Speakers) _).
Proof. unfold claim_summary_window; same_memories. Qed.

Lemma release_window_same claim at_ error : keeps (same outside_windows) (release_summary_window claim at_ error : Txn.txn (Formation Voice Speakers) _).
Proof. unfold release_summary_window; same_memories. Qed.

Lemma authorize_window_same now claim us ss ids : keeps (same outside_windows) (authorize_summary_window_egress now claim us ss ids : Txn.txn (Formation Voice Speakers) _).
Proof. unfold authorize_summary_window_egress; same_memories. Qed.

Lemma settle_memories authored l : keeps (fun db db' => memories_ok (memories db) -> memories_ok (memories db'))
  (in_memories (settle_episodes codec authored l) : Txn.txn (Formation Voice Speakers) _).
Proof. intros db ids db' Hx Hok; apply in_memories_Ok in Hx as (m & Hx & ->); by eapply settle_episodes_ok. Qed.
Lemma insert_results_same from till ids : forall ordinal, keeps (same outside_windows) (insert_results from till ordinal ids : Txn.txn (Formation Voice Speakers) _).
Proof.
  induction ids as [|id ids IH]; intros ordinal; simpl; [by apply keeps_commits; tc_solve |]; keeps_until ltac:(apply IH); done.
Qed.

Lemma advance_cursor_same cursor : keeps (same outside_windows) (advance_cursor cursor : Txn.txn (Formation Voice Speakers) _).
Proof. unfold advance_cursor; keeps_by_shape; done. Qed.

Definition settled_memories db db' : Prop := memories_ok (memories db) -> memories_ok (memories db').

#[local] Instance settled_memories_preorder : PreOrder settled_memories := preserving_preorder _.

Lemma same_settled {A} (m : Txn.txn (Formation Voice Speakers) A) : keeps (same memories) m -> keeps settled_memories m.
Proof. intros Hm db a db' Hx Hok; by rewrite (Hm db a db' Hx). Qed.

Lemma outside_settled {A} (m : Txn.txn (Formation Voice Speakers) A) : keeps (same outside_windows) m -> keeps settled_memories m.
Proof. intros Hm; by apply same_settled, keeps_outside. Qed.

#[local] Ltac settling := keeps_until ltac:(first [apply settle_memories | apply outside_settled, insert_results_same | apply outside_settled, advance_cursor_same | apply same_settled, capture_memories
  | progress unfold on_capture, update_pages, set_receipt, require_live, set_window, refresh_speakers, continue_receipt, complete_receipt, check_settled_response, replay_summary_window,
      ensure_formation_sources_available, ensure_episode_sources_unowned, ensure_capture_episode_sources, ensure_terminal_formation_usage_event]); try done; by unfold settled_memories.

Lemma settle_memories_ok now settlement : keeps settled_memories (settle_capture_formation sha256 codec account now settlement : Txn.txn (Formation Voice Speakers) _).
Proof. unfold settle_capture_formation, settle_claimed_page; settling. Qed.

Lemma settle_window_memories now settlement : keeps settled_memories (settle_summary_window codec now settlement : Txn.txn (Formation Voice Speakers) _).
Proof. unfold settle_summary_window; settling. Qed.

Lemma settle_window_capture now settlement : keeps (same capture) (settle_summary_window codec now settlement : Txn.txn (Formation Voice Speakers) _).
Proof.
  unfold settle_summary_window; keeps_until ltac:(first [apply (keeps_outside _ (insert_results_same _ _ _ _)) | apply (keeps_outside _ (advance_cursor_same _))
    | progress unfold set_window, refresh_speakers, replay_summary_window, ensure_formation_sources_available, ensure_episode_sources_unowned]); try done.
  all: intros db ids db' Hx; apply in_memories_Ok in Hx as (m & _ & ->); done.
Qed.

(** ** The steps keep the invariants *)

Lemma step_grown db db' : step db db' -> grown db db'.
Proof.
  destruct 1; try (apply after_keeps; [tc_solve |]).
  - apply claim_grown.
  - apply keeps_grown, kept_release.
  - apply keeps_grown, kept_evidence.
  - apply keeps_grown, kept_authorize.
  - apply keeps_grown, kept_stage.
  - apply keeps_grown, kept_refresh_receipt.
  - apply keeps_grown, kept_settle.
  - by apply keeps_grown, kept_capture_same, keeps_outside, claim_window_same.
  - by apply keeps_grown, kept_capture_same, keeps_outside, release_window_same.
  - by apply keeps_grown, kept_capture_same, keeps_outside, authorize_window_same.
  - apply keeps_grown, kept_capture_same, settle_window_capture.
  - by apply kept_grown, capture_step_kept.
  - by apply kept_grown.
Qed.

Lemma step_memories db db' : step db db' -> settled_memories db db'.
Proof.
  destruct 1; try (apply after_keeps; [tc_solve |]); try done.
  - apply same_settled, claim_memories.
  - apply same_settled, release_memories.
  - apply same_settled, evidence_memories.
  - apply same_settled, authorize_memories.
  - apply same_settled, stage_memories.
  - apply same_settled, refresh_memories.
  - apply settle_memories_ok.
  - apply outside_settled, claim_window_same.
  - apply outside_settled, release_window_same.
  - apply outside_settled, authorize_window_same.
  - apply settle_window_memories.
  - by unfold settled_memories.
Qed.

Lemma step_ok db db' : step db db' -> formation_ok db -> formation_ok db'.
Proof. intros Hs [Hp Hm]; split; [by apply (step_grown _ _ Hs) | by apply (step_memories _ _ Hs)]. Qed.

Lemma run_ok db db' : rtc step db db' -> formation_ok db -> formation_ok db'.
Proof. induction 1 as [|a b c Hab _ IH]; [done | intros Hok; by apply IH, (step_ok a)]. Qed.

Lemma run_carried db db' : rtc step db db' -> carried (capture db) (capture db').
Proof. induction 1 as [|a b c Hab _ IH]; [done | transitivity (capture b); [by apply step_grown | done]]. Qed.

Lemma fresh_formation_ok db : fresh db -> formation_ok db.
Proof.
  intros (Hp & He & Hm & Hh & Ho); split; split; intros *; rewrite ?Hp, ?He, ?Hm, ?Hh, ?Ho; try done; rewrite ?lookup_empty; try done; set_solver.
Qed.

Lemma formation_reachable_ok db : reachable db -> formation_ok db.
Proof. intros (db0 & Hf & Hr); by apply (run_ok db0), fresh_formation_ok. Qed.
(** ** The pages of claims *)

Lemma find_page_index which db p : find_page which db = Some p -> exists i, formation_pages (capture db) !! i = Some p /\ which p = true.
Proof. unfold find_page; intros [Hin Hw]%find_Some_elem; apply list_elem_of_lookup in Hin as [i Hi]; by exists i. Qed.

Lemma is_page_key session revision index p : is_page session revision index p = true <-> page_revision p = (session, revision) /\ page_index p = index.
Proof. unfold is_page; by rewrite andb_true_iff, of_revision_true, Z.eqb_eq. Qed.

Lemma claims_page_key c p : claims_page c p = true ->
  page_revision p = (cf_capture_session_id c, cf_source_revision c) /\ page_index p = cf_page_index c.
Proof. unfold claims_page; rewrite !andb_true_iff, is_page_key; tauto. Qed.

Lemma live_page_key now c p : live_page now c p = true ->
  page_revision p = (cf_capture_session_id c, cf_source_revision c) /\ page_index p = cf_page_index c /\ pg_commitment (pg_source p) = cf_page_source_commitment c.
Proof.
  intros Hp%live_page_holds; unfold holds_page in Hp; apply andb_prop in Hp as [Hp Hc]; apply bool_decide_eq_true in Hc.
  by apply claims_page_key in Hp as [-> ->].
Qed.

Lemma follows_live now c p p' : follows p p' -> live_page now c p = true ->
  page_revision p' = (cf_capture_session_id c, cf_source_revision c) /\ page_index p' = cf_page_index c /\ pg_commitment (pg_source p') = cf_page_source_commitment c.
Proof. intros Hf Hl; destruct (follows_revision _ _ Hf) as (-> & -> & _); rewrite (follows_source _ _ Hf); by eapply live_page_key. Qed.

Lemma updated_page which f (l : list PageRow) i p : l !! i = Some p -> which p = true -> ((fun p => if which p then f p else p) <$> l) !! i = Some (f p).
Proof. intros Hi Hw; by rewrite list_lookup_fmap, Hi; simpl; rewrite Hw. Qed.

(** *** Egress *)

Lemma renew_pages now c db u db' : renew_receipt now c db = Ok (u, db') -> formation_pages (capture db') = formation_pages (capture db).
Proof.
  unfold renew_receipt; intros Hx; all_txn; case_match; all_txn; [case_match; all_txn |]; try done.
  match goal with H1 : set_receipt _ _ _ = Ok _ |- _ => by apply on_capture_Ok in H1; subst end.
Qed.

(** An egress that is authorised: the page, and the request it now holds. *)
Record authorized now c (r : CaptureFormationProviderRequest) db db' (i : nat) (p p' : PageRow) (stored : str * bytes) : Prop := {
  authorized_before : formation_pages (capture db) !! i = Some p;
  authorized_live : live_page now c p = true;
  authorized_unstaged : pg_staged_response p = None;
  authorized_after : formation_pages (capture db') !! i = Some p';
  authorized_follows : follows p p';
  authorized_attempt : pg_attempt p' = pg_attempt p;
  authorized_open : is_open p' = true;
  authorized_stored : (forall before, pg_provider_request p = Some before -> stored = before) /\ pg_provider_request p' = Some stored;
  authorized_reads : exists e, read_request sha256 codec stored.1 stored.2 e = Ok r;
  authorized_identity : capture_formation_provider_attempt_identity sha256 (cf_account_id c) (cf_capture_session_id c)
                          (cf_source_revision c) (cf_page_index c) (cf_page_source_commitment c) (pg_attempt p) = cf_provider_attempt_identity c;
  authorized_commitment : length (cf_page_source_commitment c) = 32%nat
}.
Lemma authorize_Ok now c us ss request db r db' :
  authorize_capture_formation_egress sha256 codec account now c us ss request db = Ok (r, db') ->
  exists i p p' stored, authorized now c r db db' i p p' stored.
Proof.
  unfold authorize_capture_formation_egress, require_live, ensure_formation_sources_available, Formation.violates; intros Hx; all_txn; all_ok.
  repeat match goal with
         | H1 : renew_receipt _ _ _ = Ok _ |- _ => apply renew_pages in H1
         | H1 : update_pages _ _ _ = Ok _ |- _ => apply on_capture_Ok in H1; subst
         | H1 : find_page _ _ = Some _ |- _ => apply find_page_index in H1 as (i & Hi & [Hl Hs%bool_decide_eq_true]%andb_prop)
         | H1 : bool_decide _ = true |- _ => apply bool_decide_eq_true in H1
         end.
  match goal with H1 : formation_pages _ !! i = Some ?p, H2 : read_request _ _ (default ?request _).1 _ _ = Ok _ |- _ =>
    exists i, p, (admitted_page (now + PROVIDER_EGRESS_CLAIM_FENCE_MS) request p), (default request (pg_provider_request p)) end.
  pose proof (live_page_holds _ _ _ Hl) as Hh; split; try done.
  - congruence.
  - by apply updated_page; [| rewrite Hl, Hs].
  - apply follows_admitted; by eapply holds_page_open.
  - apply processing_open; by rewrite <- (holds_page_state _ _ Hh).
  - split; [by intros before -> | done].
  - by eexists.
  - by apply Nat.eqb_eq.
Qed.
(** A claim as its types have it, of the account the store is of. *)
Record claim_wf c : Prop := {
  wf_account : cf_account_id c = account;
  wf_session : Forall is_scalar (cf_capture_session_id c);
  wf_revision : I64.in_range (cf_source_revision c);
  wf_index : I64.in_range (cf_page_index c)
}.

Definition page_of c : str * Z * Z := (cf_capture_session_id c, cf_source_revision c, cf_page_index c).

Lemma attempt_identity_inj c c' attempt attempt' :
  claim_wf c -> claim_wf c' -> I64.in_range attempt -> I64.in_range attempt' ->
  length (cf_page_source_commitment c) = 32%nat -> length (cf_page_source_commitment c') = 32%nat ->
  capture_formation_provider_attempt_identity sha256 (cf_account_id c) (cf_capture_session_id c) (cf_source_revision c) (cf_page_index c) (cf_page_source_commitment c) attempt
  = capture_formation_provider_attempt_identity sha256 (cf_account_id c') (cf_capture_session_id c') (cf_source_revision c') (cf_page_index c') (cf_page_source_commitment c') attempt' ->
  (page_of c = page_of c' /\ attempt = attempt') \/ collision sha256.
Proof.
  intros [A S R I] [A' S' R' I'] Ha Ha' Hl Hl' Heq; unfold capture_formation_provider_attempt_identity in Heq; rewrite A, A' in Heq.
  match type of Heq with sha256 ?a = sha256 ?b => destruct (decide (a = b)) as [Hab|Hne]; [left; clear Heq | right; by exists a, b] end.
  do 4 apply app_inv_head in Hab; apply app_inj_2 in Hab as [Hs Hab]; [| rewrite !length_app, !be_bytes_length; lia].
  apply app_inj_1 in Hab as [Hr Hab]; [| by rewrite !be_bytes_length].
  apply app_inj_1 in Hab as [Hi Hab]; [| by rewrite !be_bytes_length].
  apply app_inj_1 in Hab as [_ Hab]; [| lia].
  unfold page_of; apply as_bytes_inj in Hs as ->; [| done | done]; apply be_bytes_inj_i64 in Hr as ->, Hi as ->, Hab as ->; done.
Qed.

(** A page stays where it is. *)
Lemma run_page db db' i p : rtc step db db' -> formation_pages (capture db) !! i = Some p ->
  exists p', formation_pages (capture db') !! i = Some p' /\ follows p p'.
Proof. intros Hr; apply (carried_pages _ _ (run_carried _ _ Hr)). Qed.

(** C12: an attempt at a page is authorised to send one request: two egresses the
    store authorised under one attempt identity, however much happened in
    between and whoever held the claims, were given the same request, or a
    collision of the digest is at hand. *)
Theorem one_request_per_attempt now now' c c' us us' ss ss' request request' db r mid late r' db' :
  reachable db -> claim_wf c -> claim_wf c' ->
  transact (authorize_capture_formation_egress sha256 codec account now c us ss request) db = (Ok r, mid) ->
  rtc step mid late ->
  transact (authorize_capture_formation_egress sha256 codec account now' c' us' ss' request') late = (Ok r', db') ->
  cf_provider_attempt_identity c = cf_provider_attempt_identity c' ->
  r = r' \/ collision sha256.
Proof.
  intros Hreach Hwf Hwf' Ht Hrun Ht' Hid; apply transact_Ok in Ht, Ht'.
  assert (Hmid : formation_ok mid) by (rewrite <- (after_Ok _ _ _ _ Ht); apply (step_ok db); [constructor | by apply formation_reachable_ok]).
  pose proof (run_ok _ _ Hrun Hmid) as Hlate.
  apply authorize_Ok in Ht as (i & p & p1 & stored & [B L _ A F At O [_ Req] [e Rd] Idn Cl]), Ht' as (j & q & q1 & stored' & [B' L' _ _ _ _ _ [Req' _] [e' Rd'] Idn' Cl']).
  pose proof (pages_rows _ (formation_pages_ok _ Hmid) _ _ A) as Wp; pose proof (pages_rows _ (formation_pages_ok _ Hlate) _ _ B') as Wq.
  rewrite <- Idn, <- Idn' in Hid; rewrite <- At in Hid.
  apply attempt_identity_inj in Hid as [[Hkey Hatt]|]; [| by right | done | done | apply (page_ok_attempt _ Wp) | apply (page_ok_attempt _ Wq) | done | done].
  left; destruct (run_page _ _ _ _ Hrun A) as (p2 & H2 & F2); unfold page_of in Hkey; injection Hkey as K1 K2 K3.
  destruct (follows_live _ _ _ _ (transitivity F F2) L) as (E1 & E2 & _), (live_page_key _ _ _ L') as (E3 & E4 & _).
  assert (Hij : i = j) by (eapply (pages_key _ (formation_pages_ok _ Hlate)); eauto; congruence); subst j.
  assert (q = p2) as -> by congruence; assert (Hopen : is_open p2 = true) by (eapply holds_page_open, live_page_holds; exact L').
  pose proof (follows_request _ _ F2 Hopen (eq_sym Hatt) _ Req) as Hreq; rewrite (Req' _ Hreq) in Rd'.
  unfold read_request in Rd, Rd'; all_ok; congruence.
Qed.
(** *** Staging *)

Lemma stage_Ok now c response event db u db' :
  stage_capture_formation_response sha256 codec account now c response event db = Ok (u, db') ->
  exists i p p', formation_pages (capture db) !! i = Some p /\ live_page now c p = true /\ formation_pages (capture db') !! i = Some p'
    /\ follows p p' /\ is_open p' = true /\ pg_staged_response p' = Some (response, sha256 (as_bytes response), event).
Proof.
  unfold stage_capture_formation_response, ensure_terminal_formation_usage_event, Formation.violates; intros Hx; all_txn; all_ok.
  repeat match goal with
         | H1 : update_pages _ _ _ = Ok _ |- _ => apply on_capture_Ok in H1; subst
         | H1 : find_page _ _ = Some _ |- _ => apply find_page_index in H1 as (i & Hi & Hw)
         end.
  match type of Hx with (match ?r with _ => _ end) _ = _ => destruct r end; all_txn; all_ok.
  pose proof Hw as [[Hl _]%andb_prop Hs]%andb_prop; pose proof (live_page_holds _ _ _ Hl) as Hh.
  match goal with H1 : formation_pages _ !! i = Some ?p |- _ => exists i, p, (staged_page (response, sha256 (as_bytes response), event) p); rename p into page0 end.
  split_and!; [done | done | by apply updated_page | | | done].
  - apply follows_staged_page; [by eapply holds_page_open |]; intros old Ho; rewrite Ho in Hs; by apply bool_decide_eq_true in Hs.
  - apply processing_open; by rewrite <- (holds_page_state _ _ Hh).
Qed.

(** C13: a page whose response was staged is not sent to the model again: no
    egress of it is authorised afterwards, whoever claims it, and while it is
    to be settled it keeps that response. *)
Theorem staged_page_is_not_sent_again now now' c c' response event db mid late :
  reachable db -> transact (stage_capture_formation_response sha256 codec account now c response event) db = (Ok tt, mid) ->
  rtc step mid late -> page_of c = page_of c' ->
  (forall us ss request r, (transact (authorize_capture_formation_egress sha256 codec account now' c' us ss request) late).1 <> Ok r)
  /\ (forall i p, formation_pages (capture late) !! i = Some p -> claims_page c' p = true ->
       pg_staged_response p = Some (response, sha256 (as_bytes response), event)).
Proof.
  intros Hreach Ht Hrun Hkey; apply transact_Ok in Ht.
  assert (Hmid : formation_ok mid) by (rewrite <- (after_Ok _ _ _ _ Ht); apply (step_ok db); [constructor | by apply formation_reachable_ok]).
  pose proof (run_ok _ _ Hrun Hmid) as Hlate; apply stage_Ok in Ht as (i & p & p1 & B & L & A & F & O & St).
  destruct (run_page _ _ _ _ Hrun A) as (p2 & H2 & F2); destruct (follows_live _ _ _ _ (transitivity F F2) L) as (E1 & E2 & _).
  unfold page_of in Hkey; injection Hkey as K1 K2 K3.
  assert (Hstaged : forall j q, formation_pages (capture late) !! j = Some q -> claims_page c' q = true ->
    pg_staged_response q = Some (response, sha256 (as_bytes response), event)).
  { intros j q Hq Hc; pose proof (claims_page_key _ _ Hc) as [E3 E4].
    assert (Hij : i = j) by (eapply (pages_key _ (formation_pages_ok _ Hlate)); eauto; congruence); subst j.
    assert (q = p2) as -> by congruence; apply (follows_staged _ _ F2); [| done].
    unfold claims_page in Hc; apply andb_prop in Hc as [[_ Hc]%andb_prop _]; apply processing_open; by apply bool_decide_eq_true in Hc. }
  split; [| exact Hstaged]; intros us ss request r Hr.
  destruct (transact (authorize_capture_formation_egress sha256 codec account now' c' us ss request) late) as [r' db'] eqn:Ht; simpl in Hr; subst r'.
  apply transact_Ok, authorize_Ok in Ht as (j & q & q1 & stored & [B' L' U' _ _ _ _ _ _ _ _]).
  pose proof (live_page_holds _ _ _ L') as Hh; unfold holds_page in Hh; apply andb_prop in Hh as [Hc _].
  rewrite (Hstaged _ _ B' Hc) in U'; done.
Qed.
(** *** Settlement *)

(** A settlement that completes its page. *)
Record settles now (settlement : CaptureFormationSettlement) db (ids : list Z) db' (i : nat) (p : PageRow) : Prop := {
  settles_page : formation_pages (capture db) !! i = Some p;
  settles_live : live_page now (cs_claim settlement) p = true;
  settles_after : formation_pages (capture db') !! i
    = Some (completed_page {| pc_outcome := page_outcome (pg_source p) ids; pc_successors := ids;
                              pc_claim_token := cf_claim_token (cs_claim settlement); pc_at := now |} p);
  settles_partition : check_partition (pg_source p) (cs_episodes settlement) = Ok tt;
  settles_sources : sources_available db (utterance_members (cs_episodes settlement)) (screenshot_members (cs_episodes settlement)) = Ok tt;
  settles_unowned : check_episodes (memories db) ∅ (cs_episodes settlement) = Ok tt;
  settles_new : Forall (fun e => Episode.id e = None) (cs_episodes settlement);
  settles_episodes : exists authored, settle_episodes codec authored (cs_episodes settlement) (memories db) = Ok (ids, memories db');
  settles_no_memory : provider_visible (pg_source p) = true -> cs_episodes settlement = [] -> exists response commitment event,
    pg_staged_response p = Some (response, commitment, event)
    /\ parse_capture_formation_provider_response (value_of_response codec) response = Some ExplicitNoMemory;
  settles_receipt : exists r', receipts (capture db') !! cf_capture_session_id (cs_claim settlement) = Some r'
    /\ if pg_has_more (pg_source p) then rc_state r' = ReceiptPending
       else capture_formation_revision_coverage_complete (cf_capture_session_id (cs_claim settlement)) (cf_source_revision (cs_claim settlement)) db' = true
            /\ rc_state r' = ReceiptComplete /\ completed_revision r' = cf_source_revision (cs_claim settlement)
            /\ source_revision r' = cf_source_revision (cs_claim settlement)
}.

Lemma check_response_same c page l : keeps eq (check_settled_response sha256 codec account c page l : Txn.txn (Formation Voice Speakers) _).
Proof. unfold check_settled_response, ensure_terminal_formation_usage_event; keeps_by_shape. Qed.

Lemma require_live_Ok now c authoritative e db u db' : require_live sha256 account now c authoritative e db = Ok (u, db') -> db' = db.
Proof. intros Hx; by apply kept_require_live in Hx. Qed.

Lemma unowned_Ok l db u db' : ensure_episode_sources_unowned l db = Ok (u, db') ->
  db' = db /\ sources_available db (utterance_members l) (screenshot_members l) = Ok tt /\ check_episodes (memories db) ∅ l = Ok tt.
Proof.
  unfold ensure_episode_sources_unowned, ensure_formation_sources_available; intros Hx; all_txn.
  repeat match goal with u : unit |- _ => destruct u end; done.
Qed.

Lemma capture_sources_Ok session l db u db' : ensure_capture_episode_sources session l db = Ok (u, db') -> db' = db.
Proof. unfold ensure_capture_episode_sources; intros Hx; by all_txn. Qed.

Lemma refresh_Ok ids db u db' : refresh_speakers ids db = Ok (u, db') -> capture db' = capture db /\ memories db' = memories db.
Proof. unfold refresh_speakers; intros Hx; all_txn; done. Qed.

(** What the check of a response leaves of a settlement without episodes. *)
Lemma check_response_no_memory c page l db u db' : check_settled_response sha256 codec account c page l db = Ok (u, db') ->
  provider_visible (pg_source (page_row page)) = true -> l = [] -> exists response commitment event,
    pg_staged_response (page_row page) = Some (response, commitment, event)
    /\ parse_capture_formation_provider_response (value_of_response codec) response = Some ExplicitNoMemory.
Proof.
  unfold check_settled_response; intros Hx Hv ->; apply then_Ok in Hx as (v & mid & _ & Hx); apply abort_if_Ok in Hx as [Hx _].
  rewrite Hv in Hx; simpl in Hx; apply negb_false_iff in Hx.
  destruct (pg_staged_response (page_row page)) as [[[response commitment] event]|]; [| done]; exists response, commitment, event; split; [done |].
  simpl in Hx; by destruct (parse_capture_formation_provider_response _ _) as [[]|].
Qed.

Lemma page_from_row_row p page : capture_formation_page_from_row sha256 codec p = Ok page -> page_row page = p.
Proof. unfold capture_formation_page_from_row; intros Hx; all_ok; by subst. Qed.

(** The receipt after a page that has more, and after the last one. *)
Lemma continue_Ok now c db u db' : continue_receipt now c db = Ok (u, db') ->
  exists r', db' = set_capture (set_receipts (insert (cf_capture_session_id c) r') (capture db)) db /\ rc_state r' = ReceiptPending.
Proof.
  unfold continue_receipt; intros Hx; all_txn; all_ok.
  match goal with H1 : set_receipt _ _ _ = Ok _ |- _ => apply on_capture_Ok in H1; subst end; by eexists.
Qed.

Lemma complete_Ok now c db u db' : complete_receipt sha256 account now c db = Ok (u, db') ->
  capture_formation_revision_coverage_complete (cf_capture_session_id c) (cf_source_revision c) db = true
  /\ exists r', db' = set_capture (set_receipts (insert (cf_capture_session_id c) r') (capture db)) db /\ rc_state r' = ReceiptComplete
       /\ completed_revision r' = cf_source_revision c /\ source_revision r' = cf_source_revision c.
Proof.
  unfold complete_receipt, Formation.violates; intros Hx; all_txn; all_ok.
  match goal with H1 : set_receipt _ _ _ = Ok _ |- _ => apply on_capture_Ok in H1; subst end.
  match goal with H1 : claimed_receipt _ _ _ = true |- _ => apply claimed_receipt_revision in H1 end.
  split; [done |]; eexists; split; [done |]; by split.
Qed.
Lemma settle_claimed_Ok now settlement authoritative db ids db' :
  Forall (fun e => Episode.id e = None) (cs_episodes settlement) ->
  settle_claimed_page sha256 codec account now settlement authoritative db = Ok (ids, db') ->
  exists i p, settles now settlement db ids db' i p.
Proof.
  set (c := cs_claim settlement); set (l := cs_episodes settlement); intros Hnew Hx; unfold settle_claimed_page in Hx; fold c l in Hx; all_txn; all_ok.
  match goal with H1 : find_page _ _ = Some ?p, H2 : capture_formation_page_from_row _ _ ?p = Ok ?g |- _ =>
    apply find_page_index in H1 as (i & Hi & Hl); pose proof (page_from_row_row _ _ H2) as Hrow; rename g into page end.
  match goal with H1 : check_settled_response _ _ _ _ _ _ _ = Ok _ |- _ =>
    pose proof (check_response_no_memory _ _ _ _ _ _ H1) as Hno; apply check_response_same in H1 end.
  repeat match goal with
         | H1 : _ = ?y |- _ => is_var y; subst y
         | H1 : require_live _ _ _ _ _ _ _ = Ok _ |- _ => apply require_live_Ok in H1
         | H1 : ensure_episode_sources_unowned _ _ = Ok _ |- _ => apply unowned_Ok in H1 as (-> & Hsrc & Hun)
         | H1 : ensure_capture_episode_sources _ _ _ = Ok _ |- _ => apply capture_sources_Ok in H1
         | H1 : in_memories _ _ = Ok _ |- _ => apply in_memories_Ok in H1 as (m' & Hm & ->)
         | H1 : refresh_speakers _ _ = Ok _ |- _ => apply refresh_Ok in H1 as [Hc Hme]
         | H1 : update_pages _ _ _ = Ok _ |- _ => apply on_capture_Ok in H1
         | H1 : on_capture _ _ = Ok _ |- _ => apply on_capture_Ok in H1
         end.
  match goal with H1 : (if pg_has_more _ then _ else _) ?w = Ok (_, ?last), H2 : ?w = set_capture _ ?u, H3 : ?u = set_capture _ ?v |- _ =>
    assert (Hlast : exists r', last = set_capture (set_receipts (insert (cf_capture_session_id c) r') (capture w)) w
      /\ if pg_has_more (pg_source (page_row page)) then rc_state r' = ReceiptPending
         else capture_formation_revision_coverage_complete (cf_capture_session_id c) (cf_source_revision c) w = true
              /\ rc_state r' = ReceiptComplete /\ completed_revision r' = cf_source_revision c /\ source_revision r' = cf_source_revision c);
    [destruct (pg_has_more _); [by apply continue_Ok in H1 | apply complete_Ok in H1 as (Hcov & r' & Hl' & Hr'); exists r'; by split] |];
    clear H1; subst w u; destruct Hlast as (r' & -> & Hr') end.
  simpl in Hr'; exists i, (page_row page); split; simpl; try done.
  - rewrite Hc; simpl; by apply updated_page.
  - match goal with u : unit |- _ => by destruct u end.
  - rewrite Hme; simpl; by eexists.
  - exists r'; split; [by rewrite lookup_insert_eq | exact Hr'].
Qed.
(** A settlement that answers either replays, and changes nothing, or
    completes a page. *)
Lemma settle_completes now settlement db ids db' :
  settle_capture_formation sha256 codec account now settlement db = Ok (ids, db') ->
  db' = db \/ exists i p, settles now settlement db ids db' i p.
Proof.
  unfold settle_capture_formation; intros Hx; apply then_Ok in Hx as (u & db1 & [Hguard ->]%abort_if_Ok & Hx).
  apply orb_false_iff in Hguard as [_ Hnew]; rewrite existsb_false in Hnew.
  apply then_Ok in Hx as (replayed & db1 & [-> ->]%select_Ok & Hx); case_match; [left; by all_txn |].
  all_txn; case_match; all_txn; [by left |]; right; eapply settle_claimed_Ok; [| done].
  apply Forall_forall; intros e He; specialize (Hnew e He); apply bool_decide_eq_false in Hnew; by apply eq_None_not_Some.
Qed.

Lemma settles_step now settlement db ids db' :
  transact (settle_capture_formation sha256 codec account now settlement) db = (Ok ids, db') -> step db db'.
Proof. intros Ht; apply transact_Ok in Ht; rewrite <- (after_Ok _ _ _ _ Ht); constructor. Qed.

(** A page of the model's sources. *)
Definition provider_sources (p : PageRow) : list Source :=
  (Utterance <$> pg_provider_utterances (pg_source p)) ++ (Screenshot <$> pg_provider_screenshots (pg_source p)).

Lemma same_members_spec members ids : same_members members ids = true -> forall x, x ∈ members <-> x ∈ ids.
Proof.
  unfold same_members; rewrite andb_true_iff, bool_decide_eq_true; intros [_ Heq] x; by rewrite <- !(elem_of_list_to_set (C := gset Z)), Heq.
Qed.

Lemma elem_of_all_sources x l : x ∈ all_sources l <->
  match x with Utterance id => id ∈ utterance_members l | Screenshot id => id ∈ screenshot_members l end.
Proof.
  unfold all_sources, utterance_members, screenshot_members, FormationMemories.sources_of; rewrite list_elem_of_bind.
  destruct x as [id|id]; rewrite list_elem_of_bind; split; intros (e & Hx & He); exists e; split; try done.
  - apply elem_of_app in Hx as [(? & [= ->] & ?)%list_elem_of_fmap|(? & ? & _)%list_elem_of_fmap]; done.
  - apply elem_of_app; left; apply list_elem_of_fmap; by exists id.
  - apply elem_of_app in Hx as [(? & ? & _)%list_elem_of_fmap|(? & [= ->] & ?)%list_elem_of_fmap]; done.
  - apply elem_of_app; right; apply list_elem_of_fmap; by exists id.
Qed.

Lemma elem_of_provider x p : x ∈ provider_sources p <->
  match x with Utterance id => id ∈ pg_provider_utterances (pg_source p) | Screenshot id => id ∈ pg_provider_screenshots (pg_source p) end.
Proof.
  unfold provider_sources; rewrite elem_of_app, !list_elem_of_fmap; destruct x as [id|id]; split.
  - intros [(? & [= ->] & ?)|(? & ? & _)]; done.
  - intros Hin; left; by exists id.
  - intros [(? & ? & _)|(? & [= ->] & ?)]; done.
  - intros Hin; right; by exists id.
Qed.

Lemma check_partition_Ok p l : check_partition (pg_source p) l = Ok tt -> l <> [] -> forall x, x ∈ all_sources l <-> x ∈ provider_sources p.
Proof.
  unfold check_partition; intros Hx Hl x; all_ok.
  match goal with H1 : negb (is_empty l) && _ = false |- _ => rename H1 into Hs end.
  destruct l; [done |]; simpl in Hs; apply negb_false_iff, andb_prop in Hs as [Hu Hs].
  rewrite elem_of_all_sources, elem_of_provider; destruct x as [id|id]; [by apply (same_members_spec _ _ Hu) | by apply (same_members_spec _ _ Hs)].
Qed.

Lemma available_exists db us ss x : sources_available db us ss = Ok tt ->
  match x with Utterance id => id ∈ us | Screenshot id => id ∈ ss end -> source_exists x (memories db) = true.
Proof.
  unfold sources_available; intros Hx Hin; all_ok.
  match goal with H1 : _ && _ = true |- _ => apply andb_prop in H1 as [Hu Hs]; rewrite forallb_Forall, Forall_forall in Hu, Hs end.
  destruct x as [id|id]; simpl; [by apply Hu | by apply Hs].
Qed.
(** The settlement that completed a page. *)
Lemma completing_settles now settlement db ids db' i p p' :
  formation_ok db -> settle_capture_formation sha256 codec account now settlement db = Ok (ids, db') ->
  formation_pages (capture db) !! i = Some p -> live_page now (cs_claim settlement) p = true ->
  formation_pages (capture db') !! i = Some p' -> complete p' = true -> settles now settlement db ids db' i p.
Proof.
  intros Hok Hx Hi Hl Hi' Hc; destruct (settle_completes _ _ _ _ _ Hx) as [->|(j & q & Hs)].
  - assert (p' = p) as -> by congruence; apply live_page_holds, holds_page_open in Hl; by rewrite (open_not_complete _ Hl) in Hc.
  - destruct (live_page_key _ _ _ Hl) as (E1 & E2 & _), (live_page_key _ _ _ (settles_live _ _ _ _ _ _ _ Hs)) as (E3 & E4 & _).
    pose proof (settles_page _ _ _ _ _ _ _ Hs) as Hj.
    assert (Hij : i = j) by (eapply (pages_key _ (formation_pages_ok _ Hok)); eauto; congruence); subst j.
    by assert (p = q) as -> by congruence.
Qed.

(** C10: a settlement into memories parts the page: each source the model was
    shown has one of the new episodes as its active owner and is a member of
    no other of them, and they have no other member. *)
Theorem settlement_parts_the_page now settlement db ids db' i p p' :
  reachable db -> transact (settle_capture_formation sha256 codec account now settlement) db = (Ok ids, db') ->
  formation_pages (capture db) !! i = Some p -> live_page now (cs_claim settlement) p = true ->
  formation_pages (capture db') !! i = Some p' -> complete p' = true -> cs_episodes settlement <> [] ->
  (forall x, x ∈ provider_sources p -> exists id, id ∈ ids /\ active_owners (memories db') !! x = Some id
     /\ forall id', id' ∈ ids -> (id', x) ∈ episode_members (memories db') -> id' = id)
  /\ (forall id x, id ∈ ids -> (id, x) ∈ episode_members (memories db') -> x ∈ provider_sources p).
Proof.
  intros Hreach%formation_reachable_ok Ht Hi Hl Hi' Hc Hne; pose proof (step_ok _ _ (settles_step _ _ _ _ _ Ht) Hreach) as [_ Hok']; apply transact_Ok in Ht.
  pose proof (completing_settles _ _ _ _ _ _ _ _ Hreach Ht Hi Hl Hi' Hc) as [_ _ _ Hpart Hsrc Hun Hnew (authored & Hset) _ _].
  destruct Hreach as [_ Hok]; set (l := cs_episodes settlement) in *.
  destruct (settle_new_episodes codec _ _ _ _ _ Hok Hnew Hset) as (Hlen & _ & Hids & Hmem); destruct (check_episodes_Ok _ _ _ _ Hun) as (Hnd & _ & _).
  assert (Hnum : forall id, id ∈ ids -> exists k, id = next_episode_id (memories db) + Z.of_nat k).
  { intros id [k Hk]%list_elem_of_lookup; exists k; by apply Hids in Hk as [-> _]. }
  assert (Hin : forall k id x, id = next_episode_id (memories db) + Z.of_nat k -> (id, x) ∈ episode_members (memories db') ->
    exists e, l !! k = Some e /\ x ∈ FormationMemories.sources_of e).
  { intros k id x -> [Hold|(k' & e & Hk' & E & Hx & _)]%Hmem; [apply (ok_member _ Hok) in Hold; lia |].
    simpl in E; assert (k' = k) as -> by lia; by exists e. }
  split.
  - intros x Hx; apply (check_partition_Ok _ _ Hpart Hne) in Hx as Hall; pose proof Hall as Hall'.
    apply list_elem_of_bind in Hall as (e & Hxe & [k Hk]%list_elem_of_lookup).
    destruct (lookup_lt_is_Some_2 ids k) as [id Hid]; [rewrite Hlen; by eapply lookup_lt_Some |].
    destruct (Hids _ _ Hid) as [Heq Hact]; exists id; split_and!; [by eapply list_elem_of_lookup_2 | |].
    + apply (ok_owner _ Hok'); split; [| done]; apply Hmem; right; exists k, e; split_and!; try done.
      eapply available_exists; [done |]; rewrite elem_of_all_sources in Hall'; exact Hall'.
    + intros id' Hid' Hmem'; destruct (Hnum _ Hid') as [k' ->]; destruct (Hin k' _ x eq_refl Hmem') as (f & Hf & Hxf).
      rewrite (one_episode l k k' e f x Hnd Hk Hf Hxe Hxf) in Heq; by rewrite Heq.
  - intros id x Hid Hmem'; destruct (Hnum _ Hid) as [k ->]; destruct (Hin k _ x eq_refl Hmem') as (e & He & Hx).
    apply (check_partition_Ok _ _ Hpart Hne), list_elem_of_bind; exists e; split; [done | by eapply list_elem_of_lookup_2].
Qed.
(** C14: a settlement that completed its page answers the same again, however
    much happened since, at any time: with the ids of its episodes, and
    changing nothing. *)
Theorem settlement_replays now later settlement db ids mid late i p p' :
  reachable db -> transact (settle_capture_formation sha256 codec account now settlement) db = (Ok ids, mid) ->
  formation_pages (capture db) !! i = Some p -> live_page now (cs_claim settlement) p = true ->
  formation_pages (capture mid) !! i = Some p' -> complete p' = true -> rtc step mid late ->
  transact (settle_capture_formation sha256 codec account later settlement) late = (Ok ids, late).
Proof.
  intros Hreach%formation_reachable_ok Ht Hi Hl Hi' Hc Hrun; pose proof (step_ok _ _ (settles_step _ _ _ _ _ Ht) Hreach) as Hmid; apply transact_Ok in Ht.
  pose proof (completing_settles _ _ _ _ _ _ _ _ Hreach Ht Hi Hl Hi' Hc) as [_ _ Haft _ _ _ _ _ _ _].
  rewrite Haft in Hi'; injection Hi' as <-; set (done_page := completed_page _ p) in *.
  destruct (run_page _ _ _ _ Hrun Haft) as (p2 & H2 & F2); pose proof (follows_complete _ _ F2 Hc) as ->; pose proof (run_ok _ _ Hrun Hmid) as Hlate.
  set (c := cs_claim settlement) in *; destruct (live_page_key _ _ _ Hl) as (E1 & E2 & E3).
  assert (Hby : completed_by c done_page = true).
  { unfold completed_by; rewrite !andb_true_iff, is_page_key, bool_decide_eq_true; split_and!; try done; simpl; by apply str_eqb_eq. }
  assert (Hfind : find_page (completed_by c) late = Some done_page).
  { destruct (find_page (completed_by c) late) as [q|] eqn:Hq.
    - apply find_page_index in Hq as (j & Hj & Hw); unfold completed_by in Hw; rewrite !andb_true_iff, is_page_key in Hw; destruct Hw as [[[[E4 E5] _] _] _].
      assert (Hij : i = j) by (eapply (pages_key _ (formation_pages_ok _ Hlate)); eauto; unfold page_revision, page_index in *; simpl in *; congruence); congruence.
    - unfold find_page in Hq; apply (List.find_none _ _) with (x := done_page) in Hq; [congruence | apply list_elem_of_In; by eapply list_elem_of_lookup_2]. }
  apply transact_Ok; unfold settle_capture_formation in Ht |- *; fold c in Ht |- *; apply then_Ok in Ht as (u & db1 & [Hguard ->]%abort_if_Ok & _).
  apply then_Ok; exists tt, late; split; [by apply abort_if_Ok |]; apply then_Ok; eexists; eexists; split; [by apply select_Ok |].
  apply commits_Ok; done.
Qed.

(** C11: the pages of a revision part its evidence: a page to be settled is of the
    revision in force; no two pages of a revision have a number or a source
    in common, one of them at most is not complete, and the pages before a
    page are there and complete. *)
Theorem pages_part_their_revision db :
  reachable db ->
  (forall i p, formation_pages (capture db) !! i = Some p -> is_open p = true ->
     revision_of (capture db) (pg_session (pg_source p)) = Some (pg_source_revision (pg_source p)))
  /\ (forall i j p q, formation_pages (capture db) !! i = Some p -> formation_pages (capture db) !! j = Some q ->
       page_revision p = page_revision q -> i <> j ->
       page_index p <> page_index q /\ (complete p = true \/ complete q = true) /\ forall x, x ∈ covered_sources p -> x ∉ covered_sources q)
  /\ (forall i p k, formation_pages (capture db) !! i = Some p -> 0 <= k < page_index p ->
       exists j q, formation_pages (capture db) !! j = Some q /\ page_revision q = page_revision p /\ page_index q = k /\ complete q = true).
Proof.
  intros [Hok _]%formation_reachable_ok; split_and!.
  - intros i p Hi Ho; destruct (pages_receipt _ Hok _ _ Hi) as (n & Hn & _ & Heq & _); by rewrite (Heq Ho).
  - intros i j p q Hi Hj Hr Hne; split_and!.
    + intros Hx; by apply Hne, (pages_key _ Hok i j p q).
    + by apply (pages_one_open _ Hok i j).
    + intros x Hp Hq; by apply Hne, (pages_disjoint _ Hok i j p q x).
  - intros i p k Hi Hk; by apply (pages_before _ i).
Qed.
(** C9: a revision that a settlement completes covers the evidence of its session
    exactly: every page of it is complete, each source of the session is
    covered by one of them and by no other, and they cover nothing else. *)
Theorem completed_revision_is_covered now settlement db ids db' r r' :
  let session := cf_capture_session_id (cs_claim settlement) in
  let revision := (session, source_revision r') in
  reachable db -> transact (settle_capture_formation sha256 codec account now settlement) db = (Ok ids, db') ->
  receipts (capture db) !! session = Some r -> rc_state r <> ReceiptComplete ->
  receipts (capture db') !! session = Some r' -> rc_state r' = ReceiptComplete ->
  completed_revision r' = source_revision r'
  /\ (forall i p, formation_pages (capture db') !! i = Some p -> page_revision p = revision -> complete p = true)
  /\ (forall x, x ∈ evidence session (capture db') (memories db') ->
       exists i p, formation_pages (capture db') !! i = Some p /\ page_revision p = revision /\ x ∈ covered_sources p
         /\ forall j q, formation_pages (capture db') !! j = Some q -> page_revision q = revision -> x ∈ covered_sources q -> j = i)
  /\ (forall i p x, formation_pages (capture db') !! i = Some p -> page_revision p = revision -> x ∈ covered_sources p ->
       x ∈ evidence session (capture db') (memories db')).
Proof.
  intros session revision Hreach%formation_reachable_ok Ht Hr Hnot Hr' Hcomplete.
  pose proof (step_ok _ _ (settles_step _ _ _ _ _ Ht) Hreach) as [Hok' _]; apply transact_Ok in Ht; pose proof (kept_settle _ _ _ _ _ _ _ _ Ht) as Hkept.
  destruct (settle_completes _ _ _ _ _ Ht) as [->|(i & p & Hs)]; [congruence |].
  pose proof Hs as [Hp Hl Haft _ _ _ _ _ _ (r2 & Hr2 & Hrec)]; fold session in Hr2, Hrec; assert (r2 = r') as -> by congruence.
  destruct (pg_has_more (pg_source p)); [congruence |]; destruct Hrec as (Hcov & _ & Hcr & Hsr).
  destruct (live_page_key _ _ _ Hl) as (Hkey & _ & _); fold session in Hkey; rewrite <- Hsr in Hkey; fold revision in Hkey.
  assert (Hall : forall j q, formation_pages (capture db') !! j = Some q -> page_revision q = revision -> complete q = true).
  { intros j q Hj Hq; destruct (kept_pages_back _ _ _ _ Hkept Hj) as (q0 & Hq0 & F); destruct (follows_revision _ _ F) as (Hq1 & _ & _).
    destruct (decide (i = j)) as [<-|Hne]; [rewrite Haft in Hj; injection Hj as <-; done |].
    destruct (pages_one_open _ (formation_pages_ok _ Hreach) i j p q0 Hp Hq0 ltac:(congruence) Hne) as [Hc|Hc].
    - pose proof (holds_page_open _ _ (live_page_holds _ _ _ Hl)) as Ho; by rewrite (open_not_complete _ Ho) in Hc.
    - by eapply follows_stays_complete. }
  unfold capture_formation_revision_coverage_complete in Hcov; apply andb_prop in Hcov as [Hcov _]; apply bool_decide_eq_true in Hcov; rewrite <- Hsr in Hcov; fold session in Hcov.
  assert (Hev : forall x, x ∈ evidence session (capture db') (memories db') <->
    exists j q, formation_pages (capture db') !! j = Some q /\ page_revision q = revision /\ x ∈ covered_sources q).
  { intros x; rewrite Hcov, elem_of_list_to_set, list_elem_of_bind; split.
    - intros (q & Hx & [[Hq [j Hj]]%elem_of_pages_of _]%elem_of_filter_bool); by exists j, q.
    - intros (j & q & Hj & Hq & Hx); exists q; split; [done |]; apply elem_of_filter_bool; split; [apply elem_of_pages_of; eauto | by eapply Hall]. }
  split_and!; [congruence | done | |].
  - intros x Hx; apply Hev in Hx as (j & q & Hj & Hq & Hx); exists j, q; split_and!; try done.
    intros j' q' Hj' Hq' Hx'; apply (pages_disjoint _ Hok' j' j q' q x); try done; congruence.
  - intros j q x Hj Hq Hx; apply Hev; by exists j, q.
Qed.

(** *** The refresh of a receipt *)

(** A receipt that needs no refresh. *)
Lemma refresh_quiet now session r exact db :
  receipts (capture db) !! session = Some r -> completed_source_changed sha256 account session r db = Ok false ->
  seal_state sha256 codecs session r (capture db) = Ok (false, exact) ->
  refresh_capture_formation_receipt sha256 codecs account now session db = Ok (false, db).
Proof.
  intros Hr Hc Hs; unfold refresh_capture_formation_receipt, then_, select, try_res; cbn beta iota zeta; rewrite Hr; cbn beta iota.
  rewrite Hc; cbn beta iota; rewrite Hs; done.
Qed.

(** What the trigger of the seal history promises: a reopening follows its
    seal. *)
Definition reopens_follow_seals (l : list SealEvent) : Prop :=
  forall e, e ∈ l -> se_kind e = Reopen -> existsb (is_seal_event (se_session e) (se_generation e) Seal) l = true.

Lemma append_follows (s s' : Store Voice) e u : append_seal_event sha256 codecs e s = Ok (u, s') ->
  reopens_follow_seals (seal_events s) -> reopens_follow_seals (seal_events s').
Proof.
  unfold append_seal_event, CaptureCommit.violates; intros Hx Hold; all_txn; all_ok; simpl.
  intros o [Ho|Ho%list_elem_of_singleton]%elem_of_app Hk; rewrite existsb_app; [by rewrite Hold | subst o].
  match goal with H1 : seal_event_admitted _ _ _ _ = true |- _ => unfold seal_event_admitted in H1; rewrite Hk in H1 end.
  case_match; [| done]; unfold reopen_admitted in *; rewrite !andb_true_iff in *; apply orb_true_iff; left; naive_solver.
Qed.

(** A new seal is of a generation nothing reopened. *)
Lemma seal_admitted_fresh (s : Store Voice) e : seal_event_admitted sha256 codecs e s = true -> se_kind e = Seal ->
  reopens_follow_seals (seal_events s) -> existsb (is_seal_event (se_session e) (se_generation e) Reopen) (seal_events s) = false.
Proof.
  intros Ha Hk Hf; apply existsb_false; intros o Ho; apply not_true_is_false; unfold is_seal_event; intros Hx.
  rewrite !andb_true_iff, str_eqb_eq, Z.eqb_eq, bool_decide_eq_true in Hx; destruct Hx as [[Hs Hg] Hr].
  specialize (Hf o Ho Hr); rewrite Hs, Hg in Hf; apply existsb_Exists in Hf as (q & Hq & Hx).
  unfold is_seal_event in Hx; rewrite !andb_true_iff, str_eqb_eq, Z.eqb_eq, bool_decide_eq_true in Hx; destruct Hx as [[Hqs Hqg] Hqk].
  unfold seal_event_admitted in Ha; rewrite Hk in Ha; case_match; [| done]; unfold seal_admitted in Ha.
  assert (Hn : se_generation e = prior_seal_generation (se_session e) s + 1) by (rewrite !andb_true_iff in Ha; apply Z.eqb_eq; naive_solver).
  unfold prior_seal_generation in Hn.
  assert (Hin : se_generation q ∈ se_generation <$> List.filter (fun o => str_eqb (se_session o) (se_session e) && bool_decide (se_kind o = Seal)) (seal_events s)).
  { apply list_elem_of_fmap; exists q; split; [done |]; apply elem_of_filter_bool; split; [done |]; by rewrite Hqs, str_eqb_refl, Hqk. }
  destruct (max_Z _) as [m|] eqn:Em; simpl in Hn; [pose proof (max_Z_ge _ _ _ Em Hin); lia |].
  unfold max_Z in Em; apply max_by_None in Em; rewrite Em in Hin; by apply not_elem_of_nil in Hin.
Qed.

(** A seal bound again binds the streams of its session. *)
Lemma rebind_Ok now session r db u db' : rebind_seal sha256 codecs now session r db = Ok (u, db') -> reopens_follow_seals (seal_events (capture db)) ->
  exists r', receipts (capture db') !! session = Some r' /\ rc_state r' = ReceiptPending /\ source_revision r' = source_revision r + 1
    /\ exists exact, seal_state sha256 codecs session r' (capture db') = Ok (false, exact).
Proof.
  intros Hx Hf; unfold rebind_seal in Hx; all_txn.
  match goal with H1 : in_capture _ db = Ok (_, ?mid), H2 : on_capture _ ?mid = Ok _ |- _ =>
    apply in_capture_Ok in H1 as (c & Hc & ->); apply on_capture_Ok in H2; subst end.
  set (e := {| se_session := session |}) in Hc; unfold append_seal_event, CaptureCommit.violates in Hc; all_txn.
  match goal with H1 : negb (seal_event_admitted _ _ e _) = false |- _ => apply negb_false_iff in H1; rename H1 into Ha end.
  pose proof (seal_admitted_fresh _ e Ha eq_refl Hf) as Hfresh; simpl in Hfresh |- *; eexists; split; [by rewrite lookup_insert_eq |]; split; [done |]; split; [done |].
  unfold seal_state; case_bool_decide; [done |].
  match goal with |- context [is_empty (standing_seals _ ?r' ?s')] => assert (He : e ∈ standing_seals session r' s') end.
  { unfold standing_seals; simpl; apply elem_of_filter_bool; split; [apply elem_of_app; right; by apply list_elem_of_singleton |].
    unfold is_seal_event at 1; simpl; rewrite str_eqb_refl, !Z.eqb_refl; simpl; rewrite existsb_app, Hfresh; simpl.
    unfold is_seal_event; rewrite (bool_decide_eq_false_2 (se_kind e = Reopen)) by done; by rewrite andb_false_r. }
  match goal with |- context [existsb ?f ?l] => assert (Hb : existsb f l = true) end.
  { apply existsb_Exists; exists e; split; [done |]; unfold binds_streams; apply bool_decide_eq_true_2; reflexivity. }
  rewrite Hb; cbn [negb]; rewrite andb_false_r, andb_false_l, orb_false_r.
  match goal with |- context [is_empty ?l] => destruct l; [by apply not_elem_of_nil in He | by eexists] end.
Qed.
Lemma reopened_Ok now session r exact db u db' :
  reopen_revision sha256 codecs now session r exact db = Ok (u, db') -> reopens_follow_seals (seal_events (capture db)) ->
  exists r', receipts (capture db') !! session = Some r' /\ rc_state r' = ReceiptPending /\ source_revision r' = source_revision r + 1
    /\ exists exact', seal_state sha256 codecs session r' (capture db') = Ok (false, exact').
Proof.
  intros Hx Hf; unfold reopen_revision in Hx; all_txn.
  repeat match goal with
         | H1 : on_capture _ _ = Ok _ |- _ => apply on_capture_Ok in H1; subst
         | H1 : update_pages _ _ _ = Ok _ |- _ => apply on_capture_Ok in H1; subst
         end.
  match goal with H1 : (if ?b then rebind_seal _ _ _ _ _ else _) ?mid = Ok (_, ?last), H2 : (if ?b' then on_capture _ else _) _ = Ok (_, ?mid) |- _ =>
    assert (Hm : receipts (capture mid) !! session = Some (reopened_receipt now r) /\ seal_events (capture mid) = seal_events (capture db));
    [destruct b'; [apply on_capture_Ok in H2 as -> | apply commits_Ok in H2 as [_ ->]]; simpl; by rewrite lookup_insert_eq |];
    destruct Hm as [Hr Hs]; destruct b; [apply rebind_Ok in H1; [exact H1 | by rewrite Hs] | apply commits_Ok in H1 as [_ ->]] end.
  simpl; eexists; split; [exact Hr |]; split; [done |]; split; [done |]; by exists false.
Qed.

(** A refresh that answers finds its receipt settled, or settles it at
    another revision. *)
Lemma refreshed_Ok now session db changed db' :
  refresh_capture_formation_receipt sha256 codecs account now session db = Ok (changed, db') -> reopens_follow_seals (seal_events (capture db)) ->
  (exists r exact, changed = false /\ db' = db /\ receipts (capture db) !! session = Some r
     /\ completed_source_changed sha256 account session r db = Ok false /\ seal_state sha256 codecs session r (capture db) = Ok (false, exact))
  \/ (exists r' exact, changed = true /\ receipts (capture db') !! session = Some r' /\ rc_state r' = ReceiptPending
     /\ revision_of (capture db) session <> Some (source_revision r') /\ seal_state sha256 codecs session r' (capture db') = Ok (false, exact)).
Proof.
  intros Hx Hf; unfold refresh_capture_formation_receipt in Hx; apply then_Ok in Hx as (found & mid & [-> ->]%select_Ok & Hx); cbn beta iota in Hx.
  unfold revision_of; destruct (receipts (capture db) !! session) as [r|] eqn:Hr; all_txn.
  - match goal with H1 : (let (_, _) := ?pair in _) _ = Ok _ |- _ => destruct pair as [seal_changed exact] end.
    match goal with H1 : (if negb ?a && negb ?b then _ else _) _ = Ok _ |- _ => destruct a, b end; simpl in *; all_txn.
    4: by left; exists r, exact.
    all: match goal with H1 : reopen_revision _ _ _ _ _ _ _ = Ok _ |- _ => apply reopened_Ok in H1 as (r' & Hr' & Hp & Hv & exact' & Hs); [| done] end.
    all: right; exists r', exact'; split_and!; try done; intros [=]; lia.
  - repeat match goal with H1 : on_capture _ _ = Ok _ |- _ => apply on_capture_Ok in H1; subst end.
    right; exists (new_receipt now None), false; split_and!; try done; simpl; by rewrite lookup_insert_eq.
Qed.

(** C16: a refresh leaves the receipt of its session settled: another one, at any
    time, finds nothing to do and changes nothing.  One that found something
    leaves the receipt pending and no page of the session to be settled, one
    that did not changed nothing. *)
Theorem refresh_settles now later session db changed db' :
  reachable db -> reopens_follow_seals (seal_events (capture db)) ->
  transact (refresh_capture_formation_receipt sha256 codecs account now session) db = (Ok changed, db') ->
  transact (refresh_capture_formation_receipt sha256 codecs account later session) db' = (Ok false, db')
  /\ if changed then (exists r', receipts (capture db') !! session = Some r' /\ rc_state r' = ReceiptPending)
       /\ forall i p, formation_pages (capture db') !! i = Some p -> pg_session (pg_source p) = session -> is_open p = false
     else db' = db.
Proof.
  intros Hreach%formation_reachable_ok Hf Ht; apply transact_Ok in Ht; pose proof (kept_refresh_receipt _ _ _ _ _ _ _ _ Ht) as Hkept.
  assert (Hok' : formation_ok db') by (rewrite <- (after_Ok _ _ _ _ Ht); apply (step_ok db); [constructor | done]).
  apply refreshed_Ok in Ht as [(r & exact & -> & -> & Hr & Hc & Hs)|(r' & exact & -> & Hr' & Hp & Hv & Hs)]; [| | done]; (split; [apply transact_Ok |]).
  - by eapply refresh_quiet.
  - done.
  - eapply refresh_quiet; [done | | done]; unfold completed_source_changed; by rewrite Hp.
  - split; [by exists r' |]; intros i p Hi <-; apply not_true_is_false; intros Ho; apply Hv.
    destruct (kept_pages_back _ _ _ _ Hkept Hi) as (q & Hq & F).
    destruct (pages_receipt _ (formation_pages_ok _ Hreach) _ _ Hq) as (n & Hn & _ & Hq' & _), (pages_receipt _ (formation_pages_ok _ Hok') _ _ Hi) as (n' & Hn' & _ & Hi' & _).
    rewrite <- (follows_source _ _ F) in Hn, Hq'; rewrite Hn; f_equal; unfold revision_of in Hn'; rewrite Hr' in Hn'; injection Hn' as <-.
    rewrite <- Hq', <- Hi' by (try apply (follows_open _ _ F); done); done.
Qed.

(** C15: equal fingerprints are of the same account, session, revision and source,
    row by row, erased events included, or a collision of the digest is at
    hand. *)
Theorem source_fingerprint_binds owner owner' session session' revision revision' db db' digest :
  text_ok owner -> text_ok owner' -> text_ok session -> text_ok session' -> I64.in_range revision -> I64.in_range revision' ->
  Forall row_ok (source_rows session db) -> Forall row_ok (source_rows session' db') ->
  capture_formation_source_fingerprint sha256 owner session revision db = Ok digest ->
  capture_formation_source_fingerprint sha256 owner' session' revision' db' = Ok digest ->
  (owner = owner' /\ session = session' /\ revision = revision' /\ source_rows session db = source_rows session' db') \/ collision sha256.
Proof.
  intros Ho Ho' Hs Hs' Hr Hr' Hw Hw' Hd Hd'; rewrite fingerprint_is_of_message in Hd, Hd'; injection Hd as Hd; injection Hd' as Hd'.
  destruct (decide (source_message owner session revision (source_rows session db) = source_message owner' session' revision' (source_rows session' db'))) as [He|Hne].
  - left; by apply source_message_inj in He.
  - right; eexists; eexists; split; [exact Hne | congruence].
Qed.
End Theorems.

(** ** A concrete account *)

#[local] Instance no_voice : VoiceGraph unit :=
  {| erase_owner_samples := fun _ v => Ok v; refresh_domains := fun _ v => Ok v; requeue_embeddings := fun _ v => v |}.

#[local] Instance no_speakers : SpeakerGraph unit unit :=
  {| speaker_label := fun _ _ => lit "Speaker"; authoring_context := fun _ _ _ => Ok {| labels := [] |}; refresh_projections := fun _ _ _ v => Ok v |}.

Definition sample_schema : Value := default Null (capture_formation_response_schema 2).

Definition sample_request : CaptureFormationProviderRequest := {|
  contract_version := 2; rq_authored_labels := {| labels := [] |}; vertex_project := lit "project"; vertex_location := lit "location";
  api_version := lit "v1"; publisher := lit "google"; rq_model := lit "model"; method := lit "generateContent"; rq_system_prompt := lit "system";
  rq_user_message := lit "message"; rq_response_schema := sample_schema; max_output_tokens := CAPTURE_FORMATION_PROVIDER_MAX_OUTPUT_TOKENS;
  response_mime_type := lit "application/json"; thinking_budget := 0 |}.

Definition sample_formation_codec : FormationCodec := {|
  minutes_of_text := fun _ => Some []; minutes_to_text := fun _ => Some (lit "[]"); request_of_text := fun _ => Some sample_request;
  request_to_text := fun _ => Some (lit "request"); value_of_response := fun _ => None; value_bytes := fun _ => Some [];
  minutes_jsonb := Some |}.

(** The session of [finished_account], with the screenshot of its event. *)
Definition sample_memories : Memories := {|
  utterances := ∅; speaker_observations := ∅;
  screenshots := {[ 1 := {| sh_source_key := Some (cloud_key (lit "event-1")); sh_captured_ms := 0; sh_active_app := None; sh_window_title := None;
                           sh_ocr_text := None; sh_salient_ocr_text := None; sh_url := None; sh_is_duplicate := false |} ]};
  episodes := ∅; episode_members := ∅; memory_handles := ∅; active_owners := ∅; presentations := ∅; next_episode_id := 1; deleting_episodes := ∅ |}.

Definition sample_formation (usage : gmap str UsageDb.EventRow) : Formation unit unit := {|
  capture := finished_account; memories := sample_memories; summarized_until := Some (2 ^ 60); window_claim := None; window_results := ∅;
  usage_events := usage; speakers := tt |}.

Definition claim_time : Z := CAPTURE_FORMATION_QUIET_MS + 10.

#[local] Abbreviation claiming := (claim_capture_formation (Voice := unit) (Speakers := unit) sample_sha256 sample_codec sample_formation_codec (lit "user-1")).

Definition no_claim : CaptureFormationClaim := the_claim sample_sha256 [] [] 0 [] 0 0 []
  {| page_row := new_page {| pg_session := []; pg_source_revision := 0; pg_index := 0; pg_fingerprint := []; pg_commitment := []; pg_covered_utterances := [];
       pg_covered_screenshots := []; pg_provider_utterances := []; pg_provider_screenshots := []; pg_has_more := false |} [] 0; page_request := None |}.

Definition sample_claim : CaptureFormationClaim :=
  match (transact (claiming claim_time 60 (lit "token")) (sample_formation ∅)).1 with Ok (Some c) => c | _ => no_claim end.

Example claim_answers : (transact (claiming claim_time 60 (lit "token")) (sample_formation ∅)).1 = Ok (Some sample_claim) /\ cf_claim_token sample_claim = lit "token".
Proof. split; vm_compute; reflexivity. Qed.

(** The ledger has the terminal event of the first attempt. *)
Definition sample_event_id : str :=
  match attempt_event_id sample_sha256 (cf_provider_attempt_identity sample_claim) with Ok e => e | Err _ => [] end.

Definition sample_terminal : UsageDb.EventRow := {|
  u_fingerprint := match capture_formation_provider_caller_anchor sample_sha256 sample_formation_codec sample_request with
                   | Ok anchor => vertex_invocation_fingerprint sample_sha256 (lit "user-1") EpisodeSummary (lit "model") (lit "location") anchor
                   | Err _ => [] end;
  u_operation := lit "episode_summarization"; u_requested_model := lit "model"; u_location := lit "location"; u_returned_model := None;
  u_traffic := lit "ON_DEMAND"; u_status := Some 200; u_counts := UsageDb.no_counts; u_outcome := Metered; u_delivered := false; u_attempts := 0;
  u_claim := None; u_observed := 0; u_updated := 0 |}.

Definition sample_episode : EpisodeInput := {|
  Episode.id := None; started_at := cf_from sample_claim; ended_at := cf_to sample_claim; episode_type := None; title := lit "title";
  summary := None; participants := None; languages := None; action_items := None; substance := None; visual_evidence := None;
  minute_summaries := None; Episode.model := None; member_utterance_ids := []; member_screenshot_ids := [1] |}.

Definition sample_settlement : CaptureFormationSettlement := {|
  cs_claim := sample_claim; cs_episodes := [sample_episode]; cs_authored_labels := {| labels := [] |} |}.

#[local] Abbreviation authorizing now := (authorize_capture_formation_egress (Voice := unit) (Speakers := unit) sample_sha256 sample_formation_codec
  (lit "user-1") now sample_claim [] [1] sample_request).
#[local] Abbreviation staging now := (stage_capture_formation_response (Voice := unit) (Speakers := unit) sample_sha256 sample_formation_codec
  (lit "user-1") now sample_claim (lit "{}") sample_event_id).
#[local] Abbreviation settling now := (settle_capture_formation (Voice := unit) (Speakers := unit) sample_sha256 sample_formation_codec
  (lit "user-1") now sample_settlement).

Definition finished_formation : Formation unit unit := sample_formation {[ sample_event_id := sample_terminal ]}.
Definition claimed_formation : Formation unit unit := after (claiming claim_time 60 (lit "token")) finished_formation.
Definition authorized_formation : Formation unit unit := after (authorizing (claim_time + 1)) claimed_formation.
Definition staged_formation : Formation unit unit := after (staging (claim_time + 2)) authorized_formation.
Definition settled_formation : Formation unit unit := after (settling (claim_time + 3)) staged_formation.

Example authorize_answers : (transact (authorizing (claim_time + 1)) claimed_formation).1 = Ok sample_request.
Proof. vm_compute; reflexivity. Qed.
Example stage_answers : (transact (staging (claim_time + 2)) authorized_formation).1 = Ok tt.
Proof. vm_compute; reflexivity. Qed.
Example settle_answers : (transact (settling (claim_time + 3)) staged_formation).1 = Ok [1].
Proof. vm_compute; reflexivity. Qed.

#[local] Abbreviation sample_step := (step (Voice := unit) (Speakers := unit) sample_sha256 sample_codec sample_formation_codec (lit "user-1")).
#[local] Abbreviation sample_reachable := (reachable (Voice := unit) (Speakers := unit) sample_sha256 sample_codec sample_formation_codec (lit "user-1")).

Lemma finished_reachable : sample_reachable finished_formation.
Proof. exists finished_formation; split; [by split_and!; vm_compute | done]. Qed.

Lemma reaches db db' : sample_reachable db -> sample_step db db' -> sample_reachable db'.
Proof. intros (db0 & Hf & Hr) Hs; exists db0; split; [done | by eapply rtc_r]. Qed.

Lemma claimed_reachable : sample_reachable claimed_formation.
Proof. apply (reaches finished_formation); [apply finished_reachable | apply step_claim]. Qed.
Lemma authorized_reachable : sample_reachable authorized_formation.
Proof. apply (reaches claimed_formation); [apply claimed_reachable | apply step_authorize]. Qed.
Lemma staged_reachable : sample_reachable staged_formation.
Proof. apply (reaches authorized_formation); [apply authorized_reachable | apply step_stage]. Qed.

Lemma sample_claim_wf : claim_wf (lit "user-1") sample_claim.
Proof.
  assert (Hs : cf_capture_session_id sample_claim = lit "session-1") by (vm_compute; reflexivity).
  split; [vm_compute; reflexivity | rewrite Hs; repeat constructor | |]; (apply I64.in_rangeb_spec; vm_compute; reflexivity).
Qed.

Lemma authorized_by : transact (authorizing (claim_time + 1)) claimed_formation = (Ok sample_request, authorized_formation).
Proof. unfold authorized_formation; exact (transact_to _ _ _ authorize_answers). Qed.
Lemma staged_by : transact (staging (claim_time + 2)) authorized_formation = (Ok tt, staged_formation).
Proof. unfold staged_formation; exact (transact_to _ _ _ stage_answers). Qed.
Lemma settled_by : transact (settling (claim_time + 3)) staged_formation = (Ok [1], settled_formation).
Proof. unfold settled_formation; exact (transact_to _ _ _ settle_answers). Qed.

(** The page is authorised again, for another request. *)
Definition other_request : CaptureFormationProviderRequest := {|
  contract_version := 2; rq_authored_labels := {| labels := [] |}; vertex_project := lit "project"; vertex_location := lit "location";
  api_version := lit "v1"; publisher := lit "google"; rq_model := lit "model"; method := lit "generateContent"; rq_system_prompt := lit "system";
  rq_user_message := lit "another message"; rq_response_schema := sample_schema; max_output_tokens := CAPTURE_FORMATION_PROVIDER_MAX_OUTPUT_TOKENS;
  response_mime_type := lit "application/json"; thinking_budget := 0 |}.

#[local] Abbreviation authorizing_other := (authorize_capture_formation_egress (Voice := unit) (Speakers := unit) sample_sha256 sample_formation_codec
  (lit "user-1") (claim_time + 2) sample_claim [] [1] other_request).

Example authorize_other_answers : (transact authorizing_other authorized_formation).1 = Ok sample_request.
Proof. vm_compute; reflexivity. Qed.

Definition page_in (db : Formation unit unit) : PageRow :=
  default (new_page {| pg_session := []; pg_source_revision := 0; pg_index := 0; pg_fingerprint := []; pg_commitment := []; pg_covered_utterances := [];
    pg_covered_screenshots := []; pg_provider_utterances := []; pg_provider_screenshots := []; pg_has_more := false |} [] 0)
    (head (formation_pages (capture db))).

Definition receipt_in (db : Formation unit unit) : ReceiptRow := default (new_receipt 0 None) (receipts (capture db) !! lit "session-1").

Example staged_page_live : formation_pages (capture staged_formation) !! 0%nat = Some (page_in staged_formation)
  /\ live_page (claim_time + 3) (cs_claim sample_settlement) (page_in staged_formation) = true.
Proof. split; vm_compute; reflexivity. Qed.

Example settled_page_complete : formation_pages (capture settled_formation) !! 0%nat = Some (page_in settled_formation)
  /\ complete (page_in settled_formation) = true.
Proof. split; vm_compute; reflexivity. Qed.

(** ** The theorems, on that account *)

#[local] Abbreviation on_sample P := (P sample_sha256 sample_codec sample_formation_codec (lit "user-1")).

Lemma one_request_per_attempt_witness :
  exists r, (transact authorizing_other authorized_formation).1 = Ok r /\ (sample_request = r \/ collision sample_sha256).
Proof.
  exists sample_request; split; [exact authorize_other_answers |].
  exact (on_sample one_request_per_attempt _ _ _ _ _ _ _ _ _ _ _ _ _ _ _ _ claimed_reachable sample_claim_wf sample_claim_wf authorized_by (rtc_refl _ _)
    (transact_to _ _ _ authorize_other_answers) eq_refl).
Defined.

Lemma staged_page_is_not_sent_again_witness :
  (transact (authorizing (claim_time + 3)) staged_formation).1 <> Ok sample_request.
Proof.
  exact (proj1 (on_sample staged_page_is_not_sent_again _ _ _ _ _ _ _ _ _ authorized_reachable staged_by (rtc_refl _ _) eq_refl) _ _ _ _).
Defined.

Lemma settlement_parts_the_page_witness : active_owners (memories settled_formation) !! Screenshot 1 = Some 1.
Proof.
  destruct staged_page_live as [Hp Hl], settled_page_complete as [Hp' Hc].
  destruct (on_sample settlement_parts_the_page _ _ _ _ _ _ _ _ staged_reachable settled_by Hp Hl Hp' Hc ltac:(discriminate)) as [Hown _].
  assert (Hx : Screenshot 1 ∈ provider_sources (page_in staged_formation)) by (apply (bool_decide_unpack _); vm_compute; exact I).
  destruct (Hown _ Hx) as (id & Hid & Ho & _); apply list_elem_of_singleton in Hid as ->; exact Ho.
Defined.

(** A settlement sent again after another claim was tried. *)
Lemma settlement_replays_witness :
  transact (settling (2 * claim_time)) (after (claiming (claim_time + 5) 60 (lit "other")) settled_formation)
  = (Ok [1], after (claiming (claim_time + 5) 60 (lit "other")) settled_formation).
Proof.
  destruct staged_page_live as [Hp Hl], settled_page_complete as [Hp' Hc].
  exact (on_sample settlement_replays _ _ _ _ _ _ _ _ _ _ staged_reachable settled_by Hp Hl Hp' Hc (rtc_once _ _ (step_claim _ _ _ _ _ _ _ _))).
Defined.

Lemma pages_part_their_revision_witness : revision_of (capture claimed_formation) (lit "session-1") = Some 2.
Proof.
  exact (proj1 (on_sample pages_part_their_revision claimed_formation claimed_reachable) 0%nat (page_in claimed_formation)
    ltac:(vm_compute; reflexivity) ltac:(vm_compute; reflexivity)).
Defined.

Lemma completed_revision_is_covered_witness :
  exists i p, formation_pages (capture settled_formation) !! i = Some p /\ Screenshot 1 ∈ covered_sources p.
Proof.
  assert (Hr : receipts (capture staged_formation) !! lit "session-1" = Some (receipt_in staged_formation)) by (vm_compute; reflexivity).
  assert (Hn : rc_state (receipt_in staged_formation) <> ReceiptComplete) by (vm_compute; discriminate).
  assert (Hr' : receipts (capture settled_formation) !! lit "session-1" = Some (receipt_in settled_formation)) by (vm_compute; reflexivity).
  assert (Hc : rc_state (receipt_in settled_formation) = ReceiptComplete) by (vm_compute; reflexivity).
  destruct (on_sample completed_revision_is_covered _ _ _ _ _ _ _ staged_reachable settled_by Hr Hn Hr' Hc) as (_ & _ & Hcov & _).
  destruct (Hcov (Screenshot 1)) as (i & p & Hi & _ & Hx & _); [| exact (ex_intro _ i (ex_intro _ p (conj Hi Hx)))].
  apply (bool_decide_unpack _); vm_compute; exact I.
Defined.

Definition sample_fingerprint : bytes :=
  match capture_formation_source_fingerprint sample_sha256 (lit "user-1") (lit "session-1") 2 finished_formation with Ok d => d | Err _ => [] end.

Lemma sample_rows_ok : Forall row_ok (source_rows (lit "session-1") finished_formation).
Proof.
  match goal with |- Forall _ ?rows => let l := eval vm_compute in rows in assert (E : rows = l) by (vm_compute; reflexivity); rewrite E; clear E end.
  repeat constructor; vm_compute; discriminate.
Qed.

(** Before a claim and after it: a claim leaves the sources as they were. *)
Lemma source_fingerprint_binds_witness :
  source_rows (lit "session-1") finished_formation = source_rows (lit "session-1") claimed_formation \/ collision sample_sha256.
Proof.
  assert (Hrows : source_rows (lit "session-1") claimed_formation = source_rows (lit "session-1") finished_formation) by (vm_compute; reflexivity).
  assert (Hok : Forall row_ok (source_rows (lit "session-1") claimed_formation)) by (rewrite Hrows; exact sample_rows_ok).
  assert (Hd : capture_formation_source_fingerprint sample_sha256 (lit "user-1") (lit "session-1") 2 finished_formation = Ok sample_fingerprint) by (vm_compute; reflexivity).
  assert (Hd' : capture_formation_source_fingerprint sample_sha256 (lit "user-1") (lit "session-1") 2 claimed_formation = Ok sample_fingerprint) by (vm_compute; reflexivity).
  assert (Ho : text_ok (lit "user-1")) by (split; [repeat constructor | reflexivity]).
  assert (Hs : text_ok (lit "session-1")) by (split; [repeat constructor | reflexivity]).
  assert (Hr : I64.in_range 2) by (apply I64.in_rangeb_spec; reflexivity).
  destruct (source_fingerprint_binds sample_sha256 _ _ _ _ _ _ _ _ _ Ho Ho Hs Hs Hr Hr sample_rows_ok Hok Hd Hd') as [(_ & _ & _ & Heq)|Hc];
    [exact (or_introl Heq) | exact (or_intror Hc)].
Defined.

(** The text of a screenshot is read again after its page was formed. *)
Definition reread (m : Memories) : Memories :=
  {| utterances := utterances m; speaker_observations := speaker_observations m;
     screenshots := (fun r => {| sh_source_key := sh_source_key r; sh_captured_ms := sh_captured_ms r; sh_active_app := sh_active_app r;
                                 sh_window_title := sh_window_title r; sh_ocr_text := Some (lit "text"); sh_salient_ocr_text := sh_salient_ocr_text r;
                                 sh_url := sh_url r; sh_is_duplicate := sh_is_duplicate r |}) <$> screenshots m;
     episodes := episodes m; episode_members := episode_members m; memory_handles := memory_handles m; active_owners := active_owners m;
     presentations := presentations m; next_episode_id := next_episode_id m; deleting_episodes := deleting_episodes m |}.

Definition reread_formation : Formation unit unit := set_memories reread settled_formation.

Lemma reread_step db : sample_step db (set_memories reread db).
Proof. apply step_other; [by unfold kept_db | intros []; by split]. Qed.

Lemma reread_reachable : sample_reachable reread_formation.
Proof.
  apply (reaches settled_formation); [apply (reaches staged_formation); [apply staged_reachable | apply step_settle] | apply reread_step].
Qed.

#[local] Abbreviation refreshing now := (refresh_capture_formation_receipt (Voice := unit) (Speakers := unit) sample_sha256 sample_codec
  (lit "user-1") now (lit "session-1")).

Example refresh_answers : (transact (refreshing (2 * claim_time)) reread_formation).1 = Ok true.
Proof. vm_compute; reflexivity. Qed.

Lemma no_seals : reopens_follow_seals [].
Proof. intros e He; by apply not_elem_of_nil in He. Qed.

Lemma reread_unsealed : seal_events (capture reread_formation) = [].
Proof. vm_compute; reflexivity. Qed.

Lemma refresh_settles_witness :
  transact (refreshing (3 * claim_time)) (after (refreshing (2 * claim_time)) reread_formation) = (Ok false, after (refreshing (2 * claim_time)) reread_formation).
Proof.
  assert (Hseals : reopens_follow_seals (seal_events (capture reread_formation))) by (exact (eq_ind_r reopens_follow_seals no_seals reread_unsealed)).
  pose proof (refresh_settles sample_sha256 sample_codec sample_formation_codec (lit "user-1") (2 * claim_time) (3 * claim_time) (lit "session-1")
    reread_formation true (after (refreshing (2 * claim_time)) reread_formation) reread_reachable Hseals (transact_to _ _ _ refresh_answers)) as [Hsame _].
  exact Hsame.
Defined.
